(* ===== verification/_CoqProject ===== *)
-Q . S2P
Prelude.v
Text.v
Json.v
Canonical.v
HttpText.v
HttpAdapter.v
CanonicalForm.v
Router.v
Walk.v
WalkFacts.v
Route.v
WalkChecks.v
RouterProps.v
RunStatus.v
RunStore.v
Queue.v
RunPlane.v
ClaimStore.v
PlaneSpec.v
ClaimRefines.v
Workflows.v
StoreProps.v
ClaimProps.v
WorkflowProps.v
Authority.v
Driver.v
Lowering.v
Executor.v
StoreSample.v
Intents.v
IntentStores.v
LoggedCall.v
IntentCalls.v
TransactedCalls.v
NumberPattern.v
Numbering.v
Capabilities.v
Packages.v
RecordHistory.v
RecordLog.v
ComponentFacts.v
ComponentAdmission.v
ServingManifests.v
WiringDocuments.v
WiringCompatibility.v
WorkflowGate.v
GatedRuns.v
EventWire.v
WiringParse.v
EventTriggers.v
WorkflowVersions.v
EventBatch.v
PlaneHistory.v
RouteLimiter.v
RouteSupply.v
RouteAuthentication.v
KvMemory.v
KvProtocol.v
AuthMemory.v
ConnectionMemory.v
ResourceLease.v
RouteHost.v
GuestEntry.v
HttpHost.v
WorkflowStart.v
CdcReader.v
CdcService.v
CdcDelivery.v
Materializer.v
DerivedPublication.v
EventDelivery.v
