(* ===== verification/Prelude.v ===== *)
(** * WAMN: a verification development of the execution and event core

    WAMN runs workflows: graphs of component invocations ("wirings") that a host
    walks for one delivery at a time, and durable runs of them that a queue in
    PostgreSQL hands to executors under fenced leases.  A run is started by hand, by
    a schedule or by an event, and its operations are served over HTTP; events come from
    the environment's tables, through a change-data reader and a broker, or from the runs
    themselves.  This development
    models that core: from the change of a row to the run it starts, from the start to
    the end of a run, what a release may serve, and how a request reaches it.

    ** The program's parts and where they are modelled

    - The router, [crates/execution/workflow/router]: [Router] (outcomes,
      terminals, retry policy, the compiled graph), [Walk] (the walk's state and
      its transitions [start], [next], [apply], [fail_on_node_data]), [Route]
      (the loop [route]), [WalkChecks] (the recorder and checks WALK-1..6 of
      [invariants.rs]).  [WalkFacts] has the walk's invariant [walk_ok] and
      [RouterProps] the walk as a step relation.
    - The run-state vocabulary, [crates/execution/run-state/src/status.rs] and its
      neighbours: [RunStatus]; the run store's types and the router action of
      [crates/execution/workflow/src/router_action.rs]: [RunStore].
    - The pure queue decisions, [run-state/src/queue]: [Queue], with the checks
      RUN-2, 3, 4, 7 of [invariants.rs].
    - The tables [runs] and [run_queue] and every SQL statement over them
      ([transitions.rs], [queue/sql.rs], [queue/workflow.rs], [sql.rs]):
      [RunPlane].  A [Plane] is the committed content; a statement is a function
      of it, of its binds and of what the database supplies (clock, locked rows,
      [random()]); the CHECK constraints of [run-state.sql] over an admitted row are
      [pins_check], over an updated one [run_check].
    - The host's transactions, [wamn_postgres/production_claim.rs]: [ClaimStore]
      (claim, reap, renew, complete, report, release, backlog, and the decoders);
      admission, park, release, list and retention: [Workflows].
    - The abstract run plane, [PlaneSpec]: eight transitions and the invariant
      [plane_ok].  [ClaimRefines] and [StoreProps] show that each transaction
      refines it; [ClaimProps] and [WorkflowProps] say what each one does.
    - Operation references, host routes and grants: [Authority]
      ([catalog/model/src/route_identity.rs], [host_route.rs],
      [engine/src/flow_http_routing.rs], [router_delivery.rs]).
    - The driver of one delivery over real components,
      [crates/execution/workflow/src/router_driver.rs]: [Driver]; the lowering of a
      wiring to the graph the router walks, [wiring_lowering.rs]: [Lowering].
    - The executor, [crates/execution/workflow/src/queue.rs]: [Executor] (the queue
      turn over a plane that other hosts share, the heartbeats, the settling of an
      outcome, the serving loop).  [StoreSample] evaluates the store and the
      executor on concrete inputs.  [PlaneHistory] adds the batches of events and the
      retention to what happens on the plane around a turn.
    - Idempotent calls: the intent log as an interface ([Intents], the class
      [IntentStore] with its laws), its SQLite and write-log stores ([IntentStores]),
      the logged call of an operation ([LoggedCall], [engine/src/operation/intent.rs]),
      its callers over either store ([IntentCalls]) and its transaction in the
      database, with faults ([TransactedCalls]).
    - Record history: the scanner of row images and the fold of a history read
      ([RecordHistory], [apps/platform/data/record-history]), the log triggers, the
      retention and the read ([RecordLog], [deploy/sql/record-history.sql] and the
      plans of [apply_package] and [prune_record_history]).
    - Document numbers: the pattern grammar ([NumberPattern]) and rendering over the
      counter tables ([Numbering]).
    - What a release may serve: the import policy ([Capabilities]), package identity
      ([Packages]), component facts and the admission of component bytes
      ([ComponentFacts], [ComponentAdmission]), the serving manifest
      ([ServingManifests]).
    - Wiring documents, [catalog/model/src/wiring.rs]: validation and hash
      ([WiringDocuments]), reading from JSON ([WiringParse]), compatibility with
      component facts ([WiringCompatibility]), the gate of a workflow over a release
      and the resolution of its runs ([WorkflowGate]); [GatedRuns] composes them with
      the driver.
    - The versions of an environment's workflows, [author_workflow.rs] and
      [workflow_lifecycle.rs] of [crates/control/environment] over the table
      [catalog.workflows]: [WorkflowVersions].
    - Starting a workflow ([start_workflow] of [application_route.rs]) and executing a
      claimed run ([resolve_workflow], [execute_workflow]): [WorkflowStart].
    - Events: their wire forms and names ([EventWire], [apps/platform/events/wire]);
      registrations, conditions and the decision of a trigger ([EventTriggers],
      [events/registration] and [events/materializer]); the admission of a delivered
      event ([EventBatch], [wamn_postgres/event_batch.rs]).
    - The change-data reader, [services/cdc-reader]: the stream of a session, its
      publication and the ladder of reopens ([CdcReader]); preflight, capture gap and
      the service loop ([CdcService]); delivery over many sessions ([CdcDelivery]).
    - The materializer, [apps/platform/execution/materializer]: its configuration, the
      sweep over the served triggers, the preparation and settlement of messages, with
      its host gate ([plugins/wamn_jetstream.rs]) and the declared consumers
      ([control/provision/src/events.rs]): [Materializer]; a captured change from the
      reader's message to its runs: [EventDelivery]; the publisher of derived events of
      the same plugin: [DerivedPublication].
    - HTTP, from a request to the application that answers it.  The adapter,
      [apps/platform/ingress/http-route/src/lib.rs]: paths, query strings and the
      read query ([HttpText]), the handling of a request over the class [Backend] of
      what a host supplies ([HttpAdapter]).  The host, [flow_http_routing.rs]: the
      in-flight limiter ([RouteLimiter]), the routes of a release ([RouteSupply]) and
      the host functions ([RouteHost]).  Authentication,
      [plugins/route_authentication.rs] with the grants of [claims.rs]:
      [RouteAuthentication].  The entry of the guest, [entry.rs]: [GuestEntry].
      [HttpHost] joins them as [guest.rs] does.
    - The memories of a host, [runtime/src/kv_memory.rs]: the replica of a bucket
      ([KvMemory]), its protocol with the bucket, the writers and the database as a
      step relation ([KvProtocol]), the auth memory with its tokens ([AuthMemory],
      [auth_cache.rs]) and the connection memory ([ConnectionMemory]).
    - The leases of exclusive resources, [runtime/src/resource_lease.rs], with the
      database session and the advisory locks behind them: [ResourceLease].
    - Shared: texts ([Text]), JSON values ([Json]), their canonical digest
      ([Canonical]) and the canonical form of a request ([CanonicalForm]).

    How they interact: the reader publishes each committed row; the materializer fetches
    it, and its delivery is matched with the enabled triggers and admits one run per
    match, frozen against the release served ([EventBatch]), as [workflow.start] does for a caller
    ([WorkflowStart]).  The executor claims a run ([ClaimStore]), resolves it from its
    row and the release it pins ([WorkflowStart]), drives it ([Lowering], then
    [Driver] over [Walk], authorizing each call by [Authority]), maps the outcome to an
    action ([RunStore]) and records it under its lease ([ClaimStore]).  A request is
    matched with a route of the release, authenticated with the facts of the host's
    memories, bounded by the limiter and delivered through the entry, whose logged
    calls hash an element as [LoggedCall] does.

    ** What the theorems show

    - A delivery ends: [route_total], [driver_settles]; what the walk checks assert
      is true: [walk_checks_pass]; verdicts and ends stand: [walk_verdict_stands];
      [compile] is exact: [compile_exact]; retries are bounded: [backoff_bounded],
      but for the wrap of [retry_after_wraps].
    - The store implements the abstract run plane ([store_refines]), so in every
      history by any hosts the invariant holds ([run_plane_invariant]), finished
      runs stand ([finished_runs_stand]) and a superseded claim can do nothing
      ([stale_claim_fenced]).
    - Each operation on each branch: [claim_next_grants], [claim_next_progress],
      [grant_refusal_commits], [complete_records], [complete_conflict],
      [reap_retires], [release_claim_outcome], [park_holds],
      [manual_start_idempotent], [prune_exact].
    - The SQL is the pure decision: [claim_follows_plan], [reap_follows_janitor];
      and the pure decisions satisfy their checks: [run_checks_pass],
      [plan_claim_fifo], [evt_run_id_order].
    - The executor: [queue_turn_settles] (a turn records the end its outcome
      prescribes), [executor_turn_safe] (among the store's callers, batches of events
      and retention), [serve_queue_drains] (shutdown).
    - From a start to its end: a document lowers to its graph ([lowering_exact]), a
      gated workflow runs on what the gate judged ([gated_workflow_settles]), and a run
      started by a caller or by an event, however the plane and the catalog go on, is
      claimed as it was started and executed to its end ([started_workflow_runs],
      [event_workflow_runs]).  These are over a release of facts that admission minted
      ([release_minted]).
    - Workflow versions: at most one is enabled and definitions never change
      ([workflow_versions_stand]), authoring again converges ([authoring_converges]),
      enabling switches atomically under the roles it needs ([enable_switches]); a
      stored document reads back ([stored_document_exact]).
    - Events: a delivery starts exactly the runs it is meant for
      ([event_batch_runs]), a redelivery starts none ([redelivery_starts_nothing]); a
      trigger runs on exactly the events it names ([trigger_matches_exact]); published
      events are read back under their own identity, or refused when their names or runs
      are not canonical, which the publishers do not check ([published_event_identified],
      [event_names_distinct]).
    - The reader: whatever is acknowledged was stored ([reader_no_loss]), a reader that
      is let run catches up ([reader_catches_up]), it opens a session only over the
      declared publication and slot ([session_only_as_declared]) and gives up exactly
      after its failures ([reader_gives_up_exactly]).
    - The materializer: a message is acknowledged only when the runs it starts are there
      ([materializer_acks_admitted]); the reader's message is settled by its admission
      ([captured_change_settles]); the consumer opened is the one declared
      ([declared_consumer_served]) and the triggers served are those enabled
      ([sweep_serves_enabled]).
    - Calls run once: [intents_run_once] (over both stores, any callers),
      [logged_calls_once] (with the database's transaction).
    - Record history: a read answers the row at every position it still covers
      ([history_reconstructs]), also projected ([projected_fold]).
    - A request is served only as admitted: by the whole host
      ([http_request_guarded]), by the adapter over any backend
      ([http_delivers_admitted]), under the best route ([select_route_best]), with a
      caller one of the policies admits ([platform_caller_admitted],
      [check_csrf_exact], [queued_run_role]) and a slot of the limiter
      ([limiter_counts_permits]); the entry ends every operation it begins
      ([entry_settles]) and hashes as the host does ([entry_hash_agrees]); a read has
      one URL ([read_query_exact]) and a path one form ([request_path_canonical]).
    - A host's memories answer with current facts or stale ones whose deletion is under
      way ([auth_memory_coherent], [connection_memory_coherent],
      [token_memory_coherent]) in runs that are orderly: puts are stored and answered in
      time, listings miss no key in use and the bucket is not made again, none of which
      the code enforces.  [unread_key_race], [late_put_race], [late_token_race] and
      [lower_revision_keeps_token] are the races of the other runs.
    - An exclusive resource has one holder ([exclusive_resource]), but a released
      waiter leaves it locked ([released_waiter_leaks_lock]).
    - Authority and admission: [driver_runs_allowed_only], [host_route_authority],
      [host_attachments_total], [operation_token_roundtrip], [tenant_policy_closed],
      [admitted_component_confined], [admitted_fact_verifies],
      [admitted_manifest_resolves], [operation_has_one_owner].
    - Numbers: [issued_values_unique], [next_then_peek], [render_never_panics],
      [parse_well_formed], [pattern_text_roundtrip].
    - Encodings: [canonical_digest_key_order], [canonical_form_one_request],
      [canonical_numeric_exact], [persisted_literals_roundtrip].

    ** Conventions, bounds and fuel

    [result] is Rust's [Result]; [run] carries panics; machine integers are [Z]
    with their wrap-around written out; [f64] is the Standard Library's
    [spec_float] at double precision; strings are their UTF-8 bytes.  Loops take fuel:
    [2 * hop_limit + 2] turns suffice for a walk because a hop is spent on every
    invocation and two waits never follow each other ([walk_loop_ind]); the serving
    loop's fuel is the number of its turns; the publication of a transaction takes one
    turn more than the fates its publisher has left, which is always enough; scans of a
    text take its length, and the ordering of counters the number of those pending.
    Code outside the repository is a parameter, a class such as [Sha256], [Powi],
    [Jsonb], [Collation], [Jmespath], [Boon] (JSON Schema) or [OperationHost];
    [serde_json]'s values and maps are data.  What the code relies on of such a
    parameter is a class of laws ([Sha256Law], [JsonbLaw], [SleepLaw]) or a hypothesis
    of the theorem, and each is met in a sample.

    ** What is not modelled

    Tracing, logging, liveness and connection checkout; COMMIT failures outside
    [TransactedCalls]; row-level security, and the triggers of the tables except for
    the columns they freeze; the foreign key of a run to its release and the casts of
    its principals, a parameter of admission ([AdmissionChecks]); the time between the
    statements of one transaction and the upper bounds of the counters in the tables;
    the text of a refusal where nothing reads it; the role,
    permission and counter routes; WASI streams, linking and the resource table of the
    HTTP host; the session verifier and the identity reads behind [RouteAuthority]; 
    OAuth tokens and leases local to a process; the broker beyond what it
    stores and hands out; the component engine and its parser, which are third-party;
    the schema generator, packaging, release publication and the rest of the control
    plane, which read and write files, images and clusters around the decisions
    modelled here; identity services and clients.

    ** Plan

    Next: the application routes of roles and permissions, connection calls and release
    publication. *)

From stdpp Require Import base tactics option list gmap strings sorting.
From Stdlib Require Import ZArith Lia.
#[local] Set Warnings "-clear-no-such-hyp".

(** ** Results and panics

    [result A E] is Rust's [Result<A, E>].  [run A] is a computation that may
    panic: every [expect], [unwrap] and [unreachable!] of the modelled code is a
    [Panic] branch, so "the code never panics" is a theorem and not a
    modelling convention. *)

Inductive result (A E : Type) : Type :=
| Ok (a : A)
| Err (e : E).
Arguments Ok {A E} a.
Arguments Err {A E} e.

Inductive run (A : Type) : Type :=
| Ret (a : A)
| Panic (msg : string).
Arguments Ret {A} a.
Arguments Panic {A} msg.

Definition result_bind {A B E} (r : result A E) (k : A → result B E) : result B E :=
  match r with Ok a => k a | Err e => Err e end.

Definition run_bind {A B} (r : run A) (k : A → run B) : run B :=
  match r with Ret a => k a | Panic m => Panic m end.

Definition ok_or {A E} (o : option A) (e : E) : result A E :=
  match o with Some a => Ok a | None => Err e end.

Definition result_ok {A E} (r : result A E) : option A :=
  match r with Ok a => Some a | Err _ => None end.

Definition is_ok {A E} (r : result A E) : bool :=
  match r with Ok _ => true | Err _ => false end.

Definition expect {A} (o : option A) (msg : string) : run A :=
  match o with Some a => Ret a | None => Panic msg end.

Declare Scope wamn_scope.
Delimit Scope wamn_scope with wamn.
Notation "'let?' x ':=' r 'in' k" := (result_bind r (λ x, k))
  (at level 10, x name, r at level 100, k at level 200) : wamn_scope.
Notation "'let?' ' x ':=' r 'in' k" := (result_bind r (λ x, k))
  (at level 10, x strict pattern, r at level 100, k at level 200) : wamn_scope.
Notation "'let!' x ':=' r 'in' k" := (run_bind r (λ x, k))
  (at level 10, x name, r at level 100, k at level 200) : wamn_scope.
Notation "'let!' ' x ':=' r 'in' k" := (run_bind r (λ x, k))
  (at level 10, x strict pattern, r at level 100, k at level 200) : wamn_scope.

(** [?] inside code that may panic. *)
Definition try_bind {A B E} (m : run (result A E)) (f : A → run (result B E)) : run (result B E) :=
  run_bind m (λ r, match r with Ok a => f a | Err e => Ret (Err e) end).
Notation "'let?!' x ':=' m 'in' k" := (try_bind m (λ x, k))
  (at level 10, x name, m at level 100, k at level 200) : wamn_scope.

(** ** Machine integers

    A [u32], [u64], [i32] or [i64] is a [Z].  The release profile of the
    workspace does not turn overflow checks on, so the additions the code
    writes with [+] wrap around. *)

Definition u32_max : Z := 4294967295.
Definition u64_max : Z := 18446744073709551615.
Definition i32_max : Z := 2147483647.
Definition is_u32 (z : Z) : Prop := (0 ≤ z ≤ u32_max)%Z.
Definition is_u64 (z : Z) : Prop := (0 ≤ z ≤ u64_max)%Z.
Definition u32_add (a b : Z) : Z := ((a + b) mod 4294967296)%Z.
Definition u64_add (a b : Z) : Z := ((a + b) mod 18446744073709551616)%Z.
Definition i32_wrap (z : Z) : Z := ((z + 2147483648) mod 4294967296 - 2147483648)%Z.
Definition i64_wrap (z : Z) : Z :=
  ((z + 9223372036854775808) mod 18446744073709551616 - 9223372036854775808)%Z.

Lemma u64_add_small a b : (0 ≤ a → 0 ≤ b → a + b ≤ u64_max → u64_add a b = a + b)%Z.
Proof. unfold u64_add, u64_max. intros. apply Z.mod_small. lia. Qed.

Lemma u32_add_small a b : (0 ≤ a → 0 ≤ b → a + b ≤ u32_max → u32_add a b = a + b)%Z.
Proof. unfold u32_add, u32_max. intros. apply Z.mod_small. lia. Qed.

Lemma u64_add_range a b : is_u64 (u64_add a b).
Proof.
  unfold u64_add, is_u64, u64_max.
  pose proof (Z.mod_pos_bound (a + b) 18446744073709551616 ltac:(lia)). lia.
Qed.

Lemma u32_add_range a b : is_u32 (u32_add a b).
Proof.
  unfold u32_add, is_u32, u32_max.
  pose proof (Z.mod_pos_bound (a + b) 4294967296 ltac:(lia)). lia.
Qed.

Lemma i32_wrap_small z : (- 2147483648 ≤ z ≤ i32_max → i32_wrap z = z)%Z.
Proof. unfold i32_wrap, i32_max. intros. rewrite Z.mod_small; lia. Qed.

Lemma i64_wrap_small z :
  (- 9223372036854775808 ≤ z ≤ 9223372036854775807 → i64_wrap z = z)%Z.
Proof. unfold i64_wrap. intros. rewrite Z.mod_small; lia. Qed.

(** ** Decimal text *)

Definition digit (d : Z) : Ascii.ascii := Ascii.ascii_of_N (Z.to_N (48 + d)%Z).

(** The decimal digits of [n], most significant first; [fuel] bounds their number. *)
Fixpoint decimal (fuel : nat) (n : Z) (acc : string) : string :=
  match fuel with
  | O => acc
  | S fuel' =>
      let acc := String (digit (n mod 10)%Z) acc in
      if (n / 10 =? 0)%Z then acc else decimal fuel' (n / 10)%Z acc
  end.

(** Twenty digits hold every [u64] and every magnitude of an [i64]. *)
Definition decimal_text (n : Z) : string :=
  if (n <? 0)%Z then String (Ascii.ascii_of_N 45) (decimal 20 (- n)%Z EmptyString)
  else decimal 20 n EmptyString.

(** ** Stable sorting

    [slice::sort_by], [sort_by_key] and [Vec::sort] are stable.  A stable sort
    of a list by a total preorder is unique, so insertion sort has the same
    result as the standard library's merge sort. *)

Section StableSort.
Context {A : Type} (leb : A → A → bool).

Fixpoint insert_sorted (x : A) (l : list A) : list A :=
  match l with
  | [] => [x]
  | y :: ys => if leb x y then x :: y :: ys else y :: insert_sorted x ys
  end.

Definition stable_sort (l : list A) : list A := foldr insert_sorted [] l.

Lemma Forall_filter (P Q : A → Prop) `{∀ x, Decision (P x)} l :
  Forall Q l → Forall Q (filter P l).
Proof. rewrite !Forall_forall. intros HQ x [_ Hx]%list_elem_of_filter. auto. Qed.

Lemma insert_sorted_perm x l : insert_sorted x l ≡ₚ x :: l.
Proof.
  induction l as [|y l IH]; simpl; [done|].
  destruct (leb x y); [done|]. rewrite IH. apply Permutation_swap.
Qed.

Lemma stable_sort_perm l : stable_sort l ≡ₚ l.
Proof. induction l as [|x l IH]; simpl; [done|]. by rewrite insert_sorted_perm, IH. Qed.

Lemma elem_of_stable_sort x l : x ∈ stable_sort l ↔ x ∈ l.
Proof. by rewrite stable_sort_perm. Qed.

Lemma length_stable_sort l : length (stable_sort l) = length l.
Proof. by rewrite stable_sort_perm. Qed.

Context (leb_total : ∀ x y, leb x y = true ∨ leb y x = true).
Context (leb_trans : ∀ x y z, leb x y = true → leb y z = true → leb x z = true).

Abbreviation sorted := (StronglySorted (λ x y, leb x y = true)).

Lemma insert_sorted_sorted x l : sorted l → sorted (insert_sorted x l).
Proof.
  induction 1 as [|y l Hl IH Hy]; simpl; [repeat constructor|].
  destruct (leb x y) eqn:E.
  - constructor; [by constructor|]. constructor; [done|].
    eapply Forall_impl; [exact Hy|]. simpl. eauto.
  - constructor; [done|]. rewrite insert_sorted_perm. constructor; [|done].
    destruct (leb_total x y); congruence.
Qed.

Lemma stable_sort_sorted l : sorted (stable_sort l).
Proof. induction l; simpl; [constructor|]. by apply insert_sorted_sorted. Qed.

Lemma insert_sorted_le x l : Forall (λ z, leb x z = true) l → insert_sorted x l = x :: l.
Proof. destruct 1 as [|y l Hy Hl]; simpl; [done|]. by rewrite Hy. Qed.

Lemma stable_sort_id l : sorted l → stable_sort l = l.
Proof. induction 1 as [|y l Hl IH Hy]; [done|]. simpl. by rewrite IH, insert_sorted_le. Qed.

Lemma filter_insert_sorted (P : A → Prop) `{∀ x, Decision (P x)} x l :
  sorted l →
  filter P (insert_sorted x l) =
    if decide (P x) then insert_sorted x (filter P l) else filter P l.
Proof.
  induction 1 as [|y l Hl IH Hy]; simpl.
  { rewrite filter_cons, filter_nil. by case_decide. }
  destruct (leb x y) eqn:E.
  - rewrite (filter_cons _ x). case_decide as Hx; [|done].
    rewrite insert_sorted_le; [done|]. apply Forall_filter.
    constructor; [done|]. eapply Forall_impl; [exact Hy|]. simpl; eauto.
  - rewrite !filter_cons, IH. repeat case_decide; simpl; try done. by rewrite E.
Qed.

Lemma filter_stable_sort (P : A → Prop) `{∀ x, Decision (P x)} l :
  filter P (stable_sort l) = stable_sort (filter P l).
Proof.
  induction l as [|x l IH]; simpl; [done|].
  rewrite filter_insert_sorted by apply stable_sort_sorted.
  rewrite filter_cons, IH. by case_decide.
Qed.

End StableSort.

Lemma insert_sorted_fmap {A B} (f : A → B) leb leb' x l :
  (∀ y, y ∈ l → leb' (f x) (f y) = leb x y) →
  insert_sorted leb' (f x) (f <$> l) = f <$> insert_sorted leb x l.
Proof.
  induction l as [|y l IH]; intros Hf; [done|]. rewrite fmap_cons. simpl.
  rewrite Hf by left. destruct (leb x y); [done|]. rewrite fmap_cons, IH; [done|].
  intros z Hz. apply Hf. by right.
Qed.

Lemma stable_sort_fmap {A B} (f : A → B) leb leb' l :
  (∀ x y, x ∈ l → y ∈ l → leb' (f x) (f y) = leb x y) →
  stable_sort leb' (f <$> l) = f <$> stable_sort leb l.
Proof.
  induction l as [|x l IH]; intros Hf; [done|]. rewrite fmap_cons. simpl.
  rewrite IH by (intros; apply Hf; by right). apply insert_sorted_fmap.
  intros y Hy. apply elem_of_stable_sort in Hy. apply Hf; [left|by right].
Qed.

Lemma filter_fmap {A B} (f : A → B) (P : B → Prop) `{∀ x, Decision (P x)} (l : list A) :
  filter P (f <$> l) = f <$> filter (λ x, P (f x)) l.
Proof.
  induction l as [|x l IH]; [done|]. rewrite fmap_cons, !filter_cons, IH. by case_decide.
Qed.

Lemma filter_filter_and {A} (P Q R : A → Prop)
    `{∀ x, Decision (P x), ∀ x, Decision (Q x), ∀ x, Decision (R x)} (l : list A) :
  (∀ x, R x ↔ P x ∧ Q x) → filter P (filter Q l) = filter R l.
Proof.
  intros HR. induction l as [|x l IH]; [done|]. rewrite !filter_cons.
  destruct (decide (Q x)), (decide (P x)); rewrite ?filter_cons, IH;
    repeat case_decide; naive_solver.
Qed.

(** ** Lists *)

Lemma existsb_false_inv {A} (f : A → bool) l x : existsb f l = false → x ∈ l → f x = false.
Proof.
  intros E Hx. apply not_true_iff_false. intros Hf. apply not_true_iff_false in E. apply E.
  apply existsb_exists. exists x. split; [by apply list_elem_of_In|done].
Qed.

Lemma existsb_false {A} (f : A → bool) l : (∀ x, x ∈ l → f x = false) → existsb f l = false.
Proof.
  induction l as [|x l IH]; intros Hf; simpl; [done|].
  rewrite Hf, IH by set_solver. done.
Qed.

Lemma NoDup_fmap_inj_on {A B} (f : A → B) l x y :
  NoDup (f <$> l) → x ∈ l → y ∈ l → f x = f y → x = y.
Proof.
  induction l as [|z l IH]; simpl; intros Hnd Hx Hy E; [by apply not_elem_of_nil in Hx|].
  apply NoDup_cons in Hnd as [Hz Hnd].
  apply elem_of_cons in Hx as [->|Hx], Hy as [->|Hy]; try done; [| |by apply IH].
  - destruct Hz. rewrite E. by apply list_elem_of_fmap_2.
  - destruct Hz. rewrite <- E. by apply list_elem_of_fmap_2.
Qed.

Lemma Forall2_fmap_eq {A B} (R : A → A → Prop) (f : A → B) l l' :
  Forall (λ x, ∀ y, R x y → f x = f y) l → Forall2 R l l' → f <$> l = f <$> l'.
Proof.
  intros Hf H2. revert Hf. induction H2 as [|x y l l' Hxy _ IH]; [done|].
  intros [Hx Hl]%Forall_cons. rewrite !fmap_cons. by rewrite (Hx y Hxy), (IH Hl).
Qed.

(** ** The byte order of strings

    Rust compares [str] values byte by byte, which is [String.compare]. *)

Lemma string_compare_refl s : String.compare s s = Eq.
Proof.
  pose proof (String.compare_antisym s s). by destruct (String.compare s s).
Qed.

Lemma string_compare_eq s t : String.compare s t = Eq ↔ s = t.
Proof. split; [apply String.compare_eq_iff | intros ->; apply string_compare_refl]. Qed.

Lemma string_compare_lt_trans s t u :
  String.compare s t = Lt → String.compare t u = Lt → String.compare s u = Lt.
Proof.
  revert t u. induction s as [|a s IH]; intros [|b t] [|c u]; simpl; try done.
  unfold Ascii.compare.
  destruct (N.compare_spec (Ascii.N_of_ascii a) (Ascii.N_of_ascii b)) as [E1|E1|E1];
  destruct (N.compare_spec (Ascii.N_of_ascii b) (Ascii.N_of_ascii c)) as [E2|E2|E2];
  destruct (N.compare_spec (Ascii.N_of_ascii a) (Ascii.N_of_ascii c)) as [E3|E3|E3];
    try done; try lia; eauto.
Qed.

Lemma string_leb_refl s : String.leb s s = true.
Proof. unfold String.leb. by rewrite string_compare_refl. Qed.

Lemma string_leb_trans s t u :
  String.leb s t = true → String.leb t u = true → String.leb s u = true.
Proof.
  unfold String.leb. intros H1 H2.
  destruct (String.compare s t) eqn:E1; [apply string_compare_eq in E1 as ->; done| |done].
  destruct (String.compare t u) eqn:E2; [apply string_compare_eq in E2 as <-; by rewrite E1| |done].
  by rewrite (string_compare_lt_trans s t u).
Qed.

Lemma string_compare_app p s t : String.compare (p +:+ s) (p +:+ t) = String.compare s t.
Proof.
  induction p as [|a p IH]; simpl; [done|].
  unfold Ascii.compare. by rewrite N.compare_refl.
Qed.

(** ** Tactics *)

(** Case analysis on an innermost [match] scrutinee of the goal or a hypothesis. *)
Ltac case_scrutinee x :=
  lazymatch x with
  | context [ match _ with _ => _ end ] => fail
  | _ => destruct x eqn:?
  end.
Ltac case_goal :=
  match goal with |- context [ match ?x with _ => _ end ] => case_scrutinee x end.
Ltac case_hyp H :=
  match type of H with context [ match ?x with _ => _ end ] => case_scrutinee x end.
(** Split a boolean conjunction that is known to hold. *)
Ltac split_andb :=
  repeat match goal with
  | H : (_ && _)%bool = true |- _ => apply andb_true_iff in H as [? ?]
  end.

(** ** Maps as the lists of their entries *)

(** [BTreeMap::get]. *)
Fixpoint find_entry {A} (k : string) (l : list (string * A)) : option A :=
  match l with
  | [] => None
  | (k', a) :: l => if String.eqb k k' then Some a else find_entry k l
  end.

Lemma find_entry_elem {A} k (l : list (string * A)) a : find_entry k l = Some a → (k, a) ∈ l.
Proof.
  induction l as [|[k' b] l IH]; simpl; [done|].
  destruct (String.eqb_spec k k') as [->|]; [intros [= ->]; left|]. intros ?%IH. by right.
Qed.

Lemma find_entry_key {A} k (l : list (string * A)) : is_Some (find_entry k l) ↔ k ∈ l.*1.
Proof.
  induction l as [|[k' b] l IH]; simpl.
  { split; [by intros [? ?]|by intros ?%elem_of_nil]. }
  destruct (String.eqb_spec k k') as [->|Hne]; [split; [left|by eexists]|].
  rewrite IH, elem_of_cons. naive_solver.
Qed.

Lemma find_entry_list_to_map {A} k (l : list (string * A)) :
  (list_to_map l : gmap string A) !! k = find_entry k l.
Proof.
  induction l as [|[k' b] l IH]; simpl; [apply lookup_empty|].
  destruct (String.eqb_spec k k') as [->|Hne]; [by rewrite lookup_insert_eq|].
  by rewrite lookup_insert_ne.
Qed.

Lemma find_entry_NoDup {A} k (l : list (string * A)) a :
  NoDup l.*1 → (k, a) ∈ l → find_entry k l = Some a.
Proof. intros Hnd Hin. rewrite <- find_entry_list_to_map. by apply elem_of_list_to_map_1. Qed.

Lemma filter_all {A} (P : A → Prop) `{∀ x, Decision (P x)} (l : list A) : Forall P l → filter P l = l.
Proof. induction 1 as [|a l Ha _ IH]; [done|]. by rewrite filter_cons_True, IH. Qed.
