(* ===== verification/Text.v ===== *)
(** * Texts

    The [str] operations the modelled code uses, on UTF-8 texts as strings of
    bytes: whitespace and trimming, splitting at a character, decimal integers,
    with the lemmas that invert them. *)

From stdpp Require Import base tactics option list strings.
From Stdlib Require Import ZArith Lia.
From S2P Require Import Prelude.
#[local] Set Warnings "-clear-no-such-hyp".

(** ** Whitespace *)

(** The UTF-8 texts of the characters [str::trim] strips. *)
Definition bytes (l : list N) : string :=
  foldr (λ n s, String (Ascii.ascii_of_N n) s) EmptyString l.
Definition whitespace : list string :=
  bytes <$> [[9]; [10]; [11]; [12]; [13]; [32]; [194; 133]; [194; 160]; [225; 154; 128];
    [226; 128; 128]; [226; 128; 129]; [226; 128; 130]; [226; 128; 131]; [226; 128; 132];
    [226; 128; 133]; [226; 128; 134]; [226; 128; 135]; [226; 128; 136]; [226; 128; 137];
    [226; 128; 138]; [226; 128; 168]; [226; 128; 169]; [226; 128; 175]; [226; 129; 159];
    [227; 128; 128]]%N.

Definition starts_with (s p : string) : bool := String.prefix p s.
Definition ends_with (s p : string) : bool :=
  let n := (String.length s - String.length p)%nat in
  (String.length p <=? String.length s)%nat && String.eqb (String.substring n (String.length p) s) p.

(** [s.trim() == s]. *)
Definition is_trimmed (s : string) : bool :=
  negb (existsb (starts_with s) whitespace) && negb (existsb (ends_with s) whitespace).

Fixpoint contains_nul (s : string) : bool :=
  match s with
  | EmptyString => false
  | String a s' => N.eqb (Ascii.N_of_ascii a) 0 || contains_nul s'
  end.

(** ** Characters and splits *)

(** [str::replace] of one character by another. *)
Fixpoint replace_char (a b : Ascii.ascii) (s : string) : string :=
  match s with
  | EmptyString => EmptyString
  | String c s' => String (if Ascii.eqb c a then b else c) (replace_char a b s')
  end.

(** [str::split_once] at a character. *)
Fixpoint split_once (a : Ascii.ascii) (s : string) : option (string * string) :=
  match s with
  | EmptyString => None
  | String c s' =>
      if Ascii.eqb c a then Some (EmptyString, s')
      else match split_once a s' with
           | Some (l, r) => Some (String c l, r)
           | None => None
           end
  end.

(** [str::rsplit_once] at a character. *)
Fixpoint rsplit_once (a : Ascii.ascii) (s : string) : option (string * string) :=
  match s with
  | EmptyString => None
  | String c s' =>
      match rsplit_once a s' with
      | Some (l, r) => Some (String c l, r)
      | None => if Ascii.eqb c a then Some (EmptyString, s') else None
      end
  end.

Fixpoint has_char (a : Ascii.ascii) (s : string) : bool :=
  match s with EmptyString => false | String c s' => Ascii.eqb c a || has_char a s' end.

Definition at_sign : Ascii.ascii := Ascii.ascii_of_N 64.
Definition colon : Ascii.ascii := Ascii.ascii_of_N 58.
Definition dot : Ascii.ascii := Ascii.ascii_of_N 46.
Definition underscore : Ascii.ascii := Ascii.ascii_of_N 95.
Definition hyphen : Ascii.ascii := Ascii.ascii_of_N 45.

(** [str::strip_prefix] and [str::strip_suffix]. *)
Fixpoint strip_prefix (p s : string) : option string :=
  match p, s with
  | EmptyString, _ => Some s
  | String a p', String b s' => if Ascii.eqb a b then strip_prefix p' s' else None
  | String _ _, EmptyString => None
  end.
Definition strip_suffix (p s : string) : option string :=
  if ends_with s p then Some (String.substring 0 (String.length s - String.length p) s) else None.

(** [str::split] at a character: one piece more than separators. *)
Fixpoint split_char (a : Ascii.ascii) (s : string) : list string :=
  match s with
  | EmptyString => [EmptyString]
  | String c s' =>
      if Ascii.eqb c a then EmptyString :: split_char a s'
      else match split_char a s' with
           | [] => [String c EmptyString]
           | w :: ws => String c w :: ws
           end
  end.

(** [bytes().all(f)]. *)
Fixpoint all_bytes (f : Ascii.ascii → bool) (s : string) : bool :=
  match s with EmptyString => true | String a s' => f a && all_bytes f s' end.

Definition byte_between (lo hi : N) (a : Ascii.ascii) : bool :=
  (lo <=? Ascii.N_of_ascii a)%N && (Ascii.N_of_ascii a <=? hi)%N.
Definition is_ascii_lowercase : Ascii.ascii → bool := byte_between 97 122.
Definition is_ascii_digit : Ascii.ascii → bool := byte_between 48 57.
Definition is_ascii_hexdigit (a : Ascii.ascii) : bool :=
  is_ascii_digit a || byte_between 65 70 a || byte_between 97 102 a.
Definition is_ascii_uppercase : Ascii.ascii → bool := byte_between 65 90.

(** [to_ascii_lowercase]. *)
Definition ascii_lower (a : Ascii.ascii) : Ascii.ascii :=
  if is_ascii_uppercase a then Ascii.ascii_of_N (Ascii.N_of_ascii a + 32) else a.
Fixpoint to_ascii_lowercase (s : string) : string :=
  match s with EmptyString => EmptyString | String a s => String (ascii_lower a) (to_ascii_lowercase s) end.

(** [str::from_utf8] accepts: the well-formed sequences, shortest form only and no
    surrogates. *)
Definition continuation (a : Ascii.ascii) : bool := byte_between 128 191 a.
Fixpoint valid_utf8 (fuel : nat) (s : string) : bool :=
  match fuel, s with
  | _, EmptyString => true
  | S fuel, String a s =>
      if byte_between 0 127 a then valid_utf8 fuel s
      else
        match s with
        | String b s2 =>
            if byte_between 194 223 a then continuation b && valid_utf8 fuel s2
            else
              match s2 with
              | String c s3 =>
                  if byte_between 224 239 a then
                    (if byte_between 224 224 a then byte_between 160 191 b
                     else if byte_between 237 237 a then byte_between 128 159 b else continuation b)
                    && continuation c && valid_utf8 fuel s3
                  else
                    match s3 with
                    | String d s4 =>
                        byte_between 240 244 a &&
                        (if byte_between 240 240 a then byte_between 144 191 b
                         else if byte_between 244 244 a then byte_between 128 143 b else continuation b)
                        && continuation c && continuation d && valid_utf8 fuel s4
                    | EmptyString => false
                    end
              | EmptyString => false
              end
        | EmptyString => false
        end
  | O, _ => false
  end.

(** ** Decimal integers *)

Definition digit_value (a : Ascii.ascii) : Z := Z.of_N (Ascii.N_of_ascii a) - 48.

Fixpoint digits_value (acc : Z) (s : string) : Z :=
  match s with
  | EmptyString => acc
  | String a s' => digits_value (acc * 10 + digit_value a) s'
  end.

Definition parse_digits (s : string) : option Z :=
  if negb (String.eqb s "") && all_bytes is_ascii_digit s then Some (digits_value 0 s) else None.

Definition in_range (lo hi : Z) (z : Z) : option Z :=
  if (lo <=? z)%Z && (z <=? hi)%Z then Some z else None.

(** [str::parse] of an unsigned integer. *)
Definition uint_text (hi : Z) (s : string) : option Z :=
  let digits := match s with
                | String a r => if N.eqb (Ascii.N_of_ascii a) 43 then r else s
                | EmptyString => s
                end in
  n ← parse_digits digits; in_range 0 hi n.

Definition i64_max : Z := 9223372036854775807.
Definition i64_min : Z := -9223372036854775808.

(** [str::parse::<i64>]: an optional sign, then digits, within range. *)
Definition parse_i64 (s : string) : option Z :=
  match s with
  | String a s' =>
      if Ascii.eqb a hyphen then option_map Z.opp (parse_digits s') ≫= in_range i64_min i64_max
      else if N.eqb (Ascii.N_of_ascii a) 43 then parse_digits s' ≫= in_range i64_min i64_max
      else parse_digits s ≫= in_range i64_min i64_max
  | EmptyString => None
  end.

(** ** Their laws *)

Lemma replace_char_app a b s t :
  replace_char a b (s +:+ t) = replace_char a b s +:+ replace_char a b t.
Proof. induction s as [|c s IH]; [done|]. simpl. by rewrite IH. Qed.

Lemma rsplit_once_none a s : has_char a s = false → rsplit_once a s = None.
Proof.
  induction s as [|c s IH]; [done|]. simpl. intros [Hc Hs]%orb_false_iff.
  by rewrite (IH Hs), Hc.
Qed.

Lemma rsplit_once_app a s t :
  has_char a t = false → rsplit_once a (s +:+ String a t) = Some (s, t).
Proof.
  intros Ht. induction s as [|c s IH]; simpl.
  - by rewrite (rsplit_once_none _ _ Ht), Ascii.eqb_refl.
  - by rewrite IH.
Qed.

Lemma string_app_assoc (s t u : string) : (s +:+ t) +:+ u = s +:+ (t +:+ u).
Proof. induction s as [|c s IH]; [done|]. exact (f_equal (String c) IH). Qed.


Lemma string_app_nil (s : string) : s +:+ "" = s.
Proof. induction s as [|c s IH]; [done|]. exact (f_equal (String c) IH). Qed.

Lemma has_char_app a s t : has_char a (s +:+ t) = has_char a s || has_char a t.
Proof. induction s as [|c s IH]; simpl; [done|]. rewrite IH. by destruct (Ascii.eqb c a). Qed.

Lemma split_once_none a s : has_char a s = false → split_once a s = None.
Proof.
  induction s as [|c s IH]; [done|]. simpl. intros [Hc Hs]%orb_false_iff.
  by rewrite Hc, (IH Hs).
Qed.

(** The first separator ends the first part. *)
Lemma split_once_app a s t :
  has_char a s = false → split_once a (s +:+ String a t) = Some (s, t).
Proof.
  induction s as [|c s IH]; simpl; intros Hs; [by rewrite Ascii.eqb_refl|].
  apply orb_false_iff in Hs as [Hc Hs]. by rewrite Hc, IH.
Qed.

Lemma split_once_inv a s l r :
  split_once a s = Some (l, r) → s = l +:+ String a r ∧ has_char a l = false.
Proof.
  revert l. induction s as [|c s IH]; intros l; simpl; [done|].
  destruct (Ascii.eqb_spec c a) as [->|Hne]; [by intros [= <- <-]|].
  destruct (split_once a s) as [[l' r']|]; [|done]. intros [= <- <-].
  destruct (IH l' eq_refl) as [-> Hl]. split; [done|]. simpl.
  apply Ascii.eqb_neq in Hne. by rewrite Hne.
Qed.

Lemma strip_prefix_app p s : strip_prefix p (p +:+ s) = Some s.
Proof. induction p as [|a p IH]; [done|]. simpl. by rewrite Ascii.eqb_refl. Qed.

Lemma strip_prefix_inv p s r : strip_prefix p s = Some r → s = p +:+ r.
Proof.
  revert s. induction p as [|a p IH]; intros s; simpl; [by intros [= ->]|].
  destruct s as [|b s]; [done|]. destruct (Ascii.eqb_spec a b) as [->|]; [|done].
  intros ->%IH. done.
Qed.

Lemma split_char_none a s : has_char a s = false → split_char a s = [s].
Proof.
  induction s as [|c s IH]; [done|]. simpl. intros [Hc Hs]%orb_false_iff.
  by rewrite Hc, IH.
Qed.

Lemma split_char_app a s t :
  has_char a s = false → split_char a (s +:+ String a t) = s :: split_char a t.
Proof.
  induction s as [|c s IH]; simpl; intros Hs; [by rewrite Ascii.eqb_refl|].
  apply orb_false_iff in Hs as [Hc Hs]. by rewrite Hc, (IH Hs).
Qed.

(** Joining the pieces gives the text back. *)
Fixpoint join_char (a : Ascii.ascii) (l : list string) : string :=
  match l with [] => "" | [w] => w | w :: l' => w +:+ String a (join_char a l') end.

Lemma split_char_nonempty a s : split_char a s ≠ [].
Proof. destruct s as [|c s]; simpl; [done|]. destruct (Ascii.eqb c a); [done|]. by destruct (split_char a s). Qed.

Lemma join_split a s : join_char a (split_char a s) = s.
Proof.
  induction s as [|c s IH]; [done|]. simpl. pose proof (split_char_nonempty a s).
  destruct (Ascii.eqb_spec c a) as [->|]; destruct (split_char a s) as [|w [|w' ws]]; try done;
    rewrite <- IH; done.
Qed.

Lemma split_char_pieces a s w : w ∈ split_char a s →
  has_char a w = false ∧ ∀ b, has_char b s = false → has_char b w = false.
Proof.
  revert w. induction s as [|c s IH]; intros w; simpl; [intros ->%list_elem_of_singleton; done|].
  destruct (Ascii.eqb_spec c a) as [->|Hc].
  - intros [->|Hw]%elem_of_cons; [done|]. destruct (IH w Hw) as [H1 H2]. split; [done|].
    intros b [_ Hb]%orb_false_iff. auto.
  - pose proof (split_char_nonempty a s). destruct (split_char a s) as [|w' ws]; [done|].
    apply Ascii.eqb_neq in Hc. intros [->|Hw]%elem_of_cons.
    + destruct (IH w') as [H1 H2]; [left|]. simpl. rewrite Hc. split; [done|].
      intros b [Hb1 Hb2]%orb_false_iff. rewrite Hb1. by apply H2.
    + destruct (IH w) as [H1 H2]; [by right|]. split; [done|]. intros b [_ Hb]%orb_false_iff. auto.
Qed.

Lemma split_join a l : l ≠ [] → Forall (λ w, has_char a w = false) l → split_char a (join_char a l) = l.
Proof.
  intros Hne Hl. induction Hl as [|w l Hw Hl IH]; [done|]. destruct l as [|w' l]; simpl.
  - by apply split_char_none.
  - rewrite split_char_app by done. f_equal. by apply IH.
Qed.

Lemma all_bytes_app f s t : all_bytes f (s +:+ t) = all_bytes f s && all_bytes f t.
Proof. induction s as [|c s IH]; [done|]. simpl. rewrite IH. by destruct (f c). Qed.

(** A text without a byte the class excludes. *)
Lemma all_bytes_no_char f a s : all_bytes f s = true → f a = false → has_char a s = false.
Proof.
  intros Hs Ha. induction s as [|c s IH]; [done|]. simpl in *. apply andb_true_iff in Hs as [Hc Hs].
  rewrite (IH Hs). destruct (Ascii.eqb_spec c a) as [->|]; [congruence|done].
Qed.

(** ** Decimal round trips *)

Lemma digit_N d : (0 ≤ d < 10)%Z → Ascii.N_of_ascii (digit d) = Z.to_N (48 + d).
Proof. intros. unfold digit. apply Ascii.N_ascii_embedding. lia. Qed.

Lemma digit_value_digit d : (0 ≤ d < 10)%Z → digit_value (digit d) = d.
Proof. intros. unfold digit_value. rewrite digit_N by done. lia. Qed.

Lemma is_digit_digit d : (0 ≤ d < 10)%Z → is_ascii_digit (digit d) = true.
Proof.
  intros. unfold is_ascii_digit, byte_between. rewrite digit_N by done.
  apply andb_true_iff. rewrite !N.leb_le. lia.
Qed.

Lemma div_mod_10 n : (0 ≤ n → 0 ≤ n mod 10 < 10 ∧ 0 ≤ n / 10 ∧ n = n / 10 * 10 + n mod 10)%Z.
Proof.
  intros. pose proof (Z.mod_pos_bound n 10). pose proof (Z.div_pos n 10).
  pose proof (Z.div_mod n 10). lia.
Qed.

Lemma decimal_digits fuel n s :
  (0 ≤ n)%Z → all_bytes is_ascii_digit s = true → all_bytes is_ascii_digit (decimal fuel n s) = true.
Proof.
  revert n s. induction fuel as [|fuel IH]; intros n s Hn Hs; simpl; [done|].
  destruct (div_mod_10 n Hn) as (? & ? & ?).
  assert (Hd : is_ascii_digit (digit (n mod 10)) = true) by (apply is_digit_digit; lia).
  destruct (n / 10 =? 0)%Z; simpl; [by rewrite Hd, Hs|].
  apply IH; [lia|]. simpl. by rewrite Hd, Hs.
Qed.

Lemma decimal_value fuel n s :
  (0 ≤ n < 10 ^ Z.of_nat fuel)%Z → digits_value 0 (decimal fuel n s) = digits_value n s.
Proof.
  revert n s. induction fuel as [|fuel IH]; intros n s Hn.
  { change (10 ^ Z.of_nat 0)%Z with 1%Z in Hn. replace n with 0%Z by lia. done. }
  rewrite Nat2Z.inj_succ, Z.pow_succ_r in Hn by lia. cbn [decimal].
  destruct (div_mod_10 n) as (? & ? & ?); [lia|].
  assert (Hm : digit_value (digit (n mod 10)) = (n mod 10)%Z) by (apply digit_value_digit; lia).
  destruct (Z.eqb_spec (n / 10) 0) as [E|E].
  - cbn [digits_value]. rewrite Hm. f_equal. lia.
  - rewrite IH by lia. cbn [digits_value]. rewrite Hm. f_equal. lia.
Qed.

Lemma decimal_nonempty fuel n s : decimal (S fuel) n s ≠ "".
Proof.
  revert n s. induction fuel as [|fuel IH]; intros n s; [simpl; by destruct (n / 10 =? 0)%Z|].
  cbn [decimal] in *. destruct (n / 10 =? 0)%Z; [done|]. apply IH.
Qed.

Lemma parse_decimal n : (0 ≤ n < 10 ^ 20)%Z → parse_digits (decimal_text n) = Some n.
Proof.
  intros Hn. unfold parse_digits, decimal_text. replace (n <? 0)%Z with false by lia.
  rewrite decimal_digits by done || lia. rewrite decimal_value by done.
  destruct (String.eqb_spec (decimal 20 n "") "") as [E|]; [|done].
  by apply decimal_nonempty in E.
Qed.

Lemma digit_not_sign a : is_ascii_digit a = true → Ascii.eqb a hyphen = false ∧ N.eqb (Ascii.N_of_ascii a) 43 = false.
Proof.
  intros Ha. unfold is_ascii_digit, byte_between in Ha. apply andb_true_iff in Ha as [Ha _].
  apply N.leb_le in Ha. split; [|apply N.eqb_neq; lia]. apply Ascii.eqb_neq. intros ->. vm_compute in Ha. done.
Qed.

Lemma parse_i64_decimal n : (0 ≤ n ≤ i64_max)%Z → parse_i64 (decimal_text n) = Some n.
Proof.
  intros Hn. unfold i64_max in Hn. pose proof (parse_decimal n ltac:(lia)) as Hp.
  unfold parse_i64. destruct (decimal_text n) as [|a s] eqn:E; [done|].
  assert (Ha : is_ascii_digit a = true).
  { unfold parse_digits in Hp. case_match eqn:Hc; [|done]. apply andb_prop in Hc as [_ Hc].
    simpl in Hc. by apply andb_prop in Hc as [? _]. }
  apply digit_not_sign in Ha as [-> ->]. rewrite Hp. simpl. unfold in_range.
  replace (_ && _) with true; [done|]. symmetry. apply andb_true_iff. rewrite !Z.leb_le.
  unfold i64_min, i64_max. lia.
Qed.
(** ** Prefixes and suffixes *)

Lemma starts_with_spec s p : starts_with s p = true ↔ ∃ r, s = p +:+ r.
Proof.
  unfold starts_with. revert s. induction p as [|a p IH]; intros s; simpl.
  { split; [intros _; by exists s|by destruct s]. }
  destruct s as [|b s]; [split; [done|by intros [r ?]]|].
  simpl. destruct (Ascii.ascii_dec a b) as [->|Hne].
  - rewrite IH. split; intros [r E]; exists r; [by rewrite E|by injection E].
  - split; [done|]. intros [r [= ? _]]. by subst.
Qed.

Lemma string_length_app (s t : string) : String.length (s +:+ t) = (String.length s + String.length t)%nat.
Proof. induction s as [|a s IH]; [done|]. simpl. by rewrite IH. Qed.

Lemma substring_all p : String.substring 0 (String.length p) p = p.
Proof. induction p as [|a p IH]; [done|]. simpl. by rewrite IH. Qed.

Lemma substring_skip r p : String.substring (String.length r) (String.length p) (r +:+ p) = p.
Proof. induction r as [|a r IH]; [apply substring_all|]. apply IH. Qed.

Lemma substring_split n s : (n ≤ String.length s)%nat →
  ∃ r, s = r +:+ String.substring n (String.length s - n) s.
Proof.
  revert s. induction n as [|n IH]; intros s Hn.
  - exists "". simpl. by rewrite Nat.sub_0_r, substring_all.
  - destruct s as [|a s]; simpl in Hn; [lia|]. destruct (IH s) as [r Hr]; [lia|].
    exists (String a r). exact (f_equal (String a) Hr).
Qed.

Lemma ends_with_spec s p : ends_with s p = true ↔ ∃ r, s = r +:+ p.
Proof.
  unfold ends_with. rewrite andb_true_iff, Nat.leb_le, String.eqb_eq. split.
  - intros [Hl E]. destruct (substring_split (String.length s - String.length p) s) as [r Hr]; [lia|].
    exists r. replace (String.length s - (String.length s - String.length p))%nat with (String.length p) in Hr by lia.
    by rewrite E in Hr.
  - intros [r ->]. rewrite string_length_app. split; [lia|].
    replace (String.length r + String.length p - String.length p)%nat with (String.length r) by lia.
    apply substring_skip.
Qed.

Lemma string_app_inv_head (p s t : string) : p +:+ s = p +:+ t → s = t.
Proof. induction p as [|a p IH]; [done|]. intros [= E]. by apply IH. Qed.

(** Two ways to cut one text. *)
Lemma string_app_cut (a b c d : string) :
  a +:+ b = c +:+ d → ∃ e, (a = c +:+ e ∧ d = e +:+ b) ∨ (c = a +:+ e ∧ b = e +:+ d).
Proof.
  revert c. induction a as [|x a IH]; intros c E; [by exists c; right|].
  destruct c as [|y c]; simpl in *; [by exists (String x a); left|].
  injection E as -> E. destruct (IH c E) as (e & [[-> ->]|[-> ->]]); exists e; [by left|by right].
Qed.

Lemma has_char_split a s : has_char a s = true → ∃ l r, s = l +:+ String a r ∧ has_char a l = false.
Proof.
  induction s as [|b s IH]; [done|]. simpl. destruct (Ascii.eqb_spec b a) as [->|Hne].
  { intros _. by exists "", s. }
  intros H. destruct (IH H) as (l & r & -> & Hl). exists (String b l), r. split; [done|]. simpl.
  apply Ascii.eqb_neq in Hne. by rewrite Hne.
Qed.

Lemma string_app_same (a b c d : string) :
  String.length a = String.length c → a +:+ b = c +:+ d → a = c ∧ b = d.
Proof.
  revert c. induction a as [|x a IH]; intros [|y c]; try done. intros [= Hl] [= -> E].
  by destruct (IH c Hl E) as [-> ->].
Qed.
