(* ===== verification/Json.v ===== *)
(** * JSON values and IEEE doubles

    The part of [serde_json::Value] the modelled code uses, with the doubles of
    a JSON number as Corelib's executable [spec_float] (binary64).  A JSON
    object is a [BTreeMap]: an association list kept in byte order of its keys.
    A build that unifies [serde_json]'s [preserve_order] feature keeps insertion
    order instead; the modelled code reads objects by key only, and the one
    place where order reaches bytes ([Canonical]) sorts the keys itself. *)

From stdpp Require Import base option list strings.
From Stdlib Require Import ZArith Lia.
From Corelib Require Import SpecFloat.
From S2P Require Import Prelude.

#[local] Set Warnings "-register-all".

(** ** Binary64 *)

Definition f64_prec : Z := 53.
Definition f64_emax : Z := 1024.

(** [z as f64]: round to nearest, ties to even. *)
Definition f64_of_Z (z : Z) : spec_float := binary_normalize f64_prec f64_emax z 0 false.
Definition f64_mul : spec_float → spec_float → spec_float := SFmul f64_prec f64_emax.
Definition f64_add : spec_float → spec_float → spec_float := SFadd f64_prec f64_emax.
Definition f64_div : spec_float → spec_float → spec_float := SFdiv f64_prec f64_emax.
Definition f64_leb : spec_float → spec_float → bool := SFleb.

(** ** Values *)

Inductive Number : Type :=
| PosInt (n : Z)
| NegInt (n : Z)
| Float (f : spec_float).

Inductive Value : Type :=
| VNull
| VBool (b : bool)
| VNumber (n : Number)
| VString (s : string)
| VArray (l : list Value)
| VObject (m : list (string * Value)).

(** [BTreeMap::get]. *)
Fixpoint map_get (k : string) (m : list (string * Value)) : option Value :=
  match m with
  | [] => None
  | (k', v) :: m' => if String.eqb k k' then Some v else map_get k m'
  end.

(** [BTreeMap::insert]: replaces the value of a present key and otherwise keeps
    the keys in byte order. *)
Fixpoint map_insert (k : string) (v : Value) (m : list (string * Value)) :
    list (string * Value) :=
  match m with
  | [] => [(k, v)]
  | (k', v') :: m' =>
      match String.compare k k' with
      | Lt => (k, v) :: m
      | Eq => (k, v) :: m'
      | Gt => (k', v') :: map_insert k v m'
      end
  end.

(** [Map::from_iter]. *)
Definition map_from_iter (l : list (string * Value)) : list (string * Value) :=
  fold_left (λ m '(k, v), map_insert k v m) l [].

(** [Value::get] with a string index. *)
Definition get (k : string) (v : Value) : option Value :=
  match v with VObject m => map_get k m | _ => None end.

Definition is_object (v : Value) : bool :=
  match v with VObject _ => true | _ => false end.

Definition as_str (v : Value) : option string :=
  match v with VString s => Some s | _ => None end.

Definition as_u64 (v : Value) : option Z :=
  match v with VNumber (PosInt n) => Some n | _ => None end.

Definition as_f64 (v : Value) : option spec_float :=
  match v with
  | VNumber (PosInt n) | VNumber (NegInt n) => Some (f64_of_Z n)
  | VNumber (Float f) => Some f
  | _ => None
  end.

(** ** Equality

    [Value]'s [PartialEq]: numbers compare within their representation and
    floats as [f64]s. *)

Definition list_eqb {A} (f : A → A → bool) : list A → list A → bool :=
  fix go l l' := match l, l' with
  | [], [] => true
  | x :: l, y :: l' => f x y && go l l'
  | _, _ => false
  end.

Definition number_eqb (a b : Number) : bool :=
  match a, b with
  | PosInt x, PosInt y | NegInt x, NegInt y => Z.eqb x y
  | Float x, Float y => SFeqb x y
  | _, _ => false
  end.

Fixpoint value_eqb (a b : Value) {struct a} : bool :=
  match a, b with
  | VNull, VNull => true
  | VBool x, VBool y => Bool.eqb x y
  | VNumber x, VNumber y => number_eqb x y
  | VString x, VString y => String.eqb x y
  | VArray l, VArray l' => list_eqb value_eqb l l'
  | VObject m, VObject m' =>
      list_eqb (λ p q : string * Value, String.eqb p.1 q.1 && value_eqb p.2 q.2) m m'
  | _, _ => false
  end.

(** An integer as the [Number] [json!] builds. *)
Definition number_of_int (z : Z) : Value :=
  VNumber (if (z <? 0)%Z then NegInt z else PosInt z).

(** ** Lookup after insertion *)

Lemma map_get_insert_eq k v m : map_get k (map_insert k v m) = Some v.
Proof.
  induction m as [|[k' v'] m IH]; simpl.
  - by rewrite String.eqb_refl.
  - destruct (String.compare k k') eqn:E; simpl; rewrite ?String.eqb_refl; try done.
    destruct (String.eqb_spec k k') as [->|]; [|done].
    by rewrite string_compare_refl in E.
Qed.

Lemma map_get_insert_ne k k' v m : k ≠ k' → map_get k (map_insert k' v m) = map_get k m.
Proof.
  intros Hne. induction m as [|[j w] m IH]; simpl.
  - by destruct (String.eqb_spec k k').
  - destruct (String.compare k' j) eqn:E; simpl.
    + apply string_compare_eq in E as ->. by destruct (String.eqb_spec k j).
    + by destruct (String.eqb_spec k k').
    + by rewrite IH.
Qed.

(** ** JSON texts *)

(** [serde_json::from_str] to a value. *)
Class JsonText := parse_json : string → option Value.
(** [serde_json::to_string] of a value. *)
Class JsonPrint := print_json : Value → string.
