(* ===== verification/Canonical.v ===== *)
(** * Canonical JSON and its digest

    [apps/platform/execution/contract/src/lib.rs]: [canonical_json_bytes],
    [SortedKeys] and [canonical_json_sha256], the identity every durable boundary
    compares bodies by.  A string is its UTF-8 bytes.  The shortest decimal text
    of a finite [f64] and SHA-256 come from libraries and are parameters. *)

From stdpp Require Import base tactics option list gmap strings sorting.
From Stdlib Require Import ZArith Lia SpecFloat.
From S2P Require Import Prelude Json.
#[local] Set Warnings "-clear-no-such-hyp,-register-all".

Class FloatText := float_text : spec_float → string.
(** The 32 bytes of a SHA-256 digest. *)
Class Sha256 := sha256 : string → list Ascii.ascii.

(** ** Rendering *)

Definition hex_digit (n : N) : Ascii.ascii :=
  Ascii.ascii_of_N (if (n <? 10)%N then 48 + n else 87 + n)%N.

(** [{byte:02x}]. *)
Definition hex_byte (a : Ascii.ascii) : string :=
  let n := Ascii.N_of_ascii a in
  String (hex_digit (n / 16)) (String (hex_digit (n mod 16)) EmptyString).

Definition quote_char : Ascii.ascii := Ascii.ascii_of_N 34.
Definition backslash : Ascii.ascii := Ascii.ascii_of_N 92.

(** [serde_json]'s escapes: the short forms, and [\u00xx] for the other control
    characters. *)
Definition json_escape (a : Ascii.ascii) : string :=
  match Ascii.N_of_ascii a with
  | 34%N => String backslash (String quote_char EmptyString)
  | 92%N => String backslash (String backslash EmptyString)
  | 8%N => String backslash "b"
  | 9%N => String backslash "t"
  | 10%N => String backslash "n"
  | 12%N => String backslash "f"
  | 13%N => String backslash "r"
  | n => if (n <? 32)%N then String backslash ("u00" +:+ hex_byte a) else String a EmptyString
  end.

Fixpoint json_escape_all (s : string) : string :=
  match s with EmptyString => EmptyString | String a s' => json_escape a +:+ json_escape_all s' end.

Definition json_string (s : string) : string :=
  String quote_char (json_escape_all s +:+ String quote_char EmptyString).

Fixpoint join_comma (l : list string) : string :=
  match l with
  | [] => EmptyString
  | [s] => s
  | s :: l' => s +:+ "," +:+ join_comma l'
  end.

Definition key_leb {A} (a b : string * A) : bool := String.leb a.1 b.1.

Definition render_object (entries : list (string * string)) : string :=
  "{" +:+ join_comma ((λ kv, json_string kv.1 +:+ ":" +:+ kv.2) <$> stable_sort key_leb entries)
      +:+ "}".

Section Canonical.
Context `{FloatText}.

(** [SortedKeys]: the entries sort by key before they are written.  The texts of
    the values are computed first; the order depends only on the keys. *)
Fixpoint canonical_json_bytes (v : Value) : string :=
  match v with
  | VNull => "null"
  | VBool true => "true"
  | VBool false => "false"
  | VNumber (PosInt n) | VNumber (NegInt n) => decimal_text n
  | VNumber (Float f) => float_text f
  | VString s => json_string s
  | VArray l => "[" +:+ join_comma (canonical_json_bytes <$> l) +:+ "]"
  | VObject m => render_object ((λ kv, (kv.1, canonical_json_bytes kv.2)) <$> m)
  end.

Context `{Sha256}.

Definition bytes_sha256 (bytes : string) : string :=
  "sha256:" +:+ foldr (λ b s, hex_byte b +:+ s) EmptyString (sha256 bytes).

Definition canonical_json_sha256 (v : Value) : string := bytes_sha256 (canonical_json_bytes v).

End Canonical.

(** ** Equality of JSON up to the order of object keys *)

(** An induction principle that reaches the members of arrays and objects. *)
Fixpoint Value_ind' (P : Value → Prop)
    (Hnull : P VNull) (Hbool : ∀ b, P (VBool b)) (Hnum : ∀ n, P (VNumber n))
    (Hstr : ∀ s, P (VString s)) (Harr : ∀ l, Forall P l → P (VArray l))
    (Hobj : ∀ m, Forall (λ kv, P kv.2) m → P (VObject m)) (v : Value) : P v :=
  let go := Value_ind' P Hnull Hbool Hnum Hstr Harr Hobj in
  match v with
  | VNull => Hnull
  | VBool b => Hbool b
  | VNumber n => Hnum n
  | VString s => Hstr s
  | VArray l => Harr l ((fix all l := match l return Forall P l with
                         | [] => Forall_nil_2 _
                         | x :: l' => Forall_cons_2 _ _ _ (go x) (all l')
                         end) l)
  | VObject m => Hobj m ((fix all m := match m return Forall (λ kv, P kv.2) m with
                          | [] => Forall_nil_2 _
                          | (k, x) :: m' => Forall_cons_2 _ (k, x) _ (go x) (all m')
                          end) m)
  end.

(** Two values that differ only in the order their objects list their keys. *)
Inductive same_json : Value → Value → Prop :=
| same_refl v : same_json v v
| same_array l l' : Forall2 same_json l l' → same_json (VArray l) (VArray l')
| same_object m m' m'' :
    NoDup (m.*1) → m ≡ₚ m'' →
    Forall2 (λ a b, a.1 = b.1 ∧ same_json a.2 b.2) m'' m' →
    same_json (VObject m) (VObject m').

(** ** A sort by distinct keys forgets the order it was given *)

Lemma key_leb_antisym {A} (a b : string * A) :
  key_leb a b = true → key_leb b a = true → a.1 = b.1.
Proof. apply String.leb_antisym. Qed.

Lemma insert_sorted_comm {A} (a b : string * A) l :
  a.1 ≠ b.1 →
  insert_sorted key_leb a (insert_sorted key_leb b l) =
  insert_sorted key_leb b (insert_sorted key_leb a l).
Proof.
  intros Hne. pose proof (@key_leb_antisym A a b) as Hab.
  pose proof (String.leb_total a.1 b.1) as Htot. fold (key_leb a b) (key_leb b a) in Htot.
  induction l as [|c l IH]; simpl.
  - destruct (key_leb a b), (key_leb b a); try done; destruct Htot; naive_solver.
  - assert (Hac : key_leb a b = true → key_leb b c = true → key_leb a c = true)
      by apply string_leb_trans.
    assert (Hbc : key_leb b a = true → key_leb a c = true → key_leb b c = true)
      by apply string_leb_trans.
    destruct (key_leb b c) eqn:E1, (key_leb a c) eqn:E2; simpl; rewrite ?E1, ?E2; try by f_equal;
      destruct (key_leb a b), (key_leb b a); try done; naive_solver.
Qed.

Lemma stable_sort_keys {A} (l l' : list (string * A)) :
  l ≡ₚ l' → NoDup (l.*1) → stable_sort key_leb l = stable_sort key_leb l'.
Proof.
  induction 1 as [|x l l' _ IH|x y l|l1 l2 l3 H1 IH1 _ IH2]; intros Hnd; simpl in *.
  - done.
  - apply NoDup_cons in Hnd as [_ Hnd]. by rewrite IH.
  - apply NoDup_cons in Hnd as [Hy _]. apply insert_sorted_comm.
    intros E. rewrite E in Hy. set_solver.
  - rewrite IH1 by done. apply IH2. by rewrite <- H1.
Qed.

Lemma same_json_bytes `{FloatText} v : ∀ v',
  same_json v v' → canonical_json_bytes v = canonical_json_bytes v'.
Proof.
  induction v as [| | | |l IH|m IH] using Value_ind'; intros v' Hs; inversion Hs; subst; try done;
    simpl.
  - do 3 f_equal. by eapply Forall2_fmap_eq.
  - unfold render_object. do 3 f_equal.
    match goal with Hnd : NoDup _, Hp : m ≡ₚ _, H2 : Forall2 _ _ _ |- _ =>
      rename Hnd into Hnd0, Hp into Hp0, H2 into H20 end.
    erewrite stable_sort_keys; [|by apply fmap_Permutation|by rewrite <- list_fmap_compose].
    do 2 f_equal. eapply Forall2_fmap_eq; [|exact H20].
    rewrite Hp0 in IH. eapply Forall_impl; [exact IH|]. simpl.
    intros a Ha b [-> Hb]. by rewrite (Ha _ Hb).
Qed.

(** ** Theorems *)

(** The digest a durable boundary compares bodies by does not depend on the
    order in which a value lists its object keys, at any depth: two bodies that
    differ only there have the same canonical bytes and the same digest. *)
Theorem canonical_digest_key_order `{FloatText, Sha256} (v v' : Value) :
  same_json v v' → canonical_json_sha256 v = canonical_json_sha256 v'.
Proof. intros Hs. unfold canonical_json_sha256. by rewrite (same_json_bytes v v' Hs). Qed.

Module CanonicalSample.

#[local] Instance no_floats : FloatText := λ _, "0.0".
(** Thirty-two bytes of length: enough to tell the sample texts apart. *)
#[local] Instance length_digest : Sha256 :=
  λ s, replicate 32 (Ascii.ascii_of_N (N.of_nat (String.length s))).

Definition one : Value := VNumber (PosInt 1).
Definition left_order : Value := VObject [("b", one); ("a", VArray [VObject [("d", one); ("c", VNull)]])].
Definition right_order : Value := VObject [("a", VArray [VObject [("c", VNull); ("d", one)]]); ("b", one)].

Lemma canonical_digest_key_order_witness :
  left_order ≠ right_order ∧ canonical_json_sha256 left_order = canonical_json_sha256 right_order.
Proof.
  split; [discriminate|]. apply canonical_digest_key_order.
  eapply same_object; [|apply Permutation_swap|].
  { apply (bool_decide_unpack _). vm_compute. exact I. }
  repeat constructor. simpl.
  eapply same_object; [|apply Permutation_swap|repeat constructor].
  apply (bool_decide_unpack _). vm_compute. exact I.
Defined.

End CanonicalSample.
