(* ===== verification/HttpText.v ===== *)
(** * Request targets

    The texts of an HTTP request: percent escapes, the target's path and query and the
    path templates of [apps/platform/ingress/http-route/src/lib.rs], and the one query
    string of a read request element,
    [apps/platform/execution/contract/src/read_query.rs]. *)

From stdpp Require Import base tactics option list strings sorting.
From Stdlib Require Import ZArith Lia.
From S2P Require Import Prelude Text Json Canonical.
#[local] Set Warnings "-clear-no-such-hyp".
Open Scope wamn_scope.

Definition slash_char : Ascii.ascii := Ascii.ascii_of_N 47.
Definition percent_char : Ascii.ascii := Ascii.ascii_of_N 37.
Definition question_char : Ascii.ascii := Ascii.ascii_of_N 63.
Definition ampersand_char : Ascii.ascii := Ascii.ascii_of_N 38.
Definition equals_char : Ascii.ascii := Ascii.ascii_of_N 61.

(** ** Percent escapes *)

(** The value of a hexadecimal digit, in either case or in upper case only. *)
Definition hex (a : Ascii.ascii) : option N :=
  let n := Ascii.N_of_ascii a in
  if byte_between 48 57 a then Some (n - 48)%N
  else if byte_between 97 102 a then Some (n - 97 + 10)%N
  else if byte_between 65 70 a then Some (n - 65 + 10)%N
  else None.
Definition upper_hex (a : Ascii.ascii) : option N := if byte_between 97 102 a then None else hex a.

(** The bytes of an escaped text, under a reading of its digits. *)
Fixpoint unescaped (digit : Ascii.ascii → option N) (s : string) : option string :=
  match s with
  | EmptyString => Some EmptyString
  | String a s' =>
      if Ascii.eqb a percent_char then
        match s' with
        | String high (String low rest) =>
            h ← digit high; l ← digit low;
            String (Ascii.ascii_of_N (h * 16 + l)) <$> unescaped digit rest
        | _ => None
        end
      else String a <$> unescaped digit s'
  end.

(** [String::from_utf8]. *)
Definition from_utf8 (s : string) : option string := if valid_utf8 (String.length s) s then Some s else None.

Definition percent_decode (value : string) : option string := unescaped hex value ≫= from_utf8.

Definition unreserved (a : Ascii.ascii) : bool :=
  is_ascii_lowercase a || is_ascii_uppercase a || is_ascii_digit a
  || N.eqb (Ascii.N_of_ascii a) 45 || N.eqb (Ascii.N_of_ascii a) 46
  || N.eqb (Ascii.N_of_ascii a) 95 || N.eqb (Ascii.N_of_ascii a) 126.
Definition upper_hex_digit (n : N) : Ascii.ascii :=
  Ascii.ascii_of_N (if (n <? 10)%N then 48 + n else 65 + (n - 10))%N.

(** [percent_encode_segment], which is also [escape] of the read query. *)
Fixpoint percent_encode_segment (value : string) : string :=
  match value with
  | EmptyString => EmptyString
  | String a value =>
      if unreserved a then String a (percent_encode_segment value)
      else
        let n := Ascii.N_of_ascii a in
        String percent_char (String (upper_hex_digit (n / 16)) (String (upper_hex_digit (n mod 16)) (percent_encode_segment value)))
  end.

(** ** Targets *)

Fixpoint to_ascii_uppercase (s : string) : string :=
  match s with
  | EmptyString => EmptyString
  | String a s => String (if is_ascii_lowercase a then Ascii.ascii_of_N (Ascii.N_of_ascii a - 32) else a) (to_ascii_uppercase s)
  end.
Definition eq_ignore_ascii_case (s t : string) : bool := String.eqb (to_ascii_lowercase s) (to_ascii_lowercase t).

Definition normalize_method (method : string) : option string :=
  let normalized := to_ascii_uppercase method in
  if negb (String.eqb normalized "") && all_bytes (λ a, is_ascii_uppercase a || N.eqb (Ascii.N_of_ascii a) 45) normalized
  then Some normalized else None.

(** Whether a white space character occurs: at a character boundary of the text. *)
Fixpoint has_whitespace (s : string) : bool :=
  existsb (starts_with s) whitespace || match s with EmptyString => false | String _ s => has_whitespace s end.

Definition normalize_authority (authority : string) : option string :=
  let normalized := to_ascii_lowercase authority in
  if negb (String.eqb normalized "") && negb (has_char slash_char normalized) && negb (has_whitespace normalized)
  then Some normalized else None.

(** [trim_end_matches] and [trim_matches] of one character. *)
Fixpoint trim_end_char (a : Ascii.ascii) (s : string) : string :=
  match s with
  | EmptyString => EmptyString
  | String c s =>
      let rest := trim_end_char a s in
      if Ascii.eqb c a && String.eqb rest "" then EmptyString else String c rest
  end.
Fixpoint trim_start_char (a : Ascii.ascii) (s : string) : string :=
  match s with
  | EmptyString => EmptyString
  | String c s' => if Ascii.eqb c a then trim_start_char a s' else s
  end.
Definition trim_char (a : Ascii.ascii) (s : string) : string := trim_end_char a (trim_start_char a s).

Fixpoint has_double (a : Ascii.ascii) (s : string) : bool :=
  match s with
  | EmptyString => false
  | String c s' =>
      (Ascii.eqb c a && match s' with String d _ => Ascii.eqb d a | EmptyString => false end) || has_double a s'
  end.

Definition normalize_request_path (path : string) : option string :=
  if negb (starts_with path "/") || has_double slash_char path then None
  else
    decoded ← mapM percent_decode (drop 1 (split_char slash_char path));
    let normalized := join_char slash_char (percent_encode_segment <$> decoded) in
    let normalized := String slash_char (trim_end_char slash_char normalized) in
    Some (if String.eqb normalized "" then "/" else normalized).

Definition query_pair (pair : string) : option (string * string) :=
  let '(name, value) := default (pair, "") (split_once equals_char pair) in
  name ← percent_decode name; value ← percent_decode value; Some (name, value).

Definition split_target (target : string) : option (string * list (string * string)) :=
  let '(path, raw_query) := match split_once question_char target with
                            | Some (path, query) => (path, Some query)
                            | None => (target, None)
                            end in
  path ← normalize_request_path path;
  query ← match raw_query with
          | Some query => mapM query_pair (filter (λ pair, pair ≠ "") (split_char ampersand_char query))
          | None => Some []
          end;
  Some (path, query).

(** ** Path templates *)

Definition wildcard_name (segment : string) : option string := strip_prefix "{*" segment ≫= strip_suffix "}".
Definition parameter_name (segment : string) : option string := strip_prefix "{" segment ≫= strip_suffix "}".

(** The segments of a template over the decoded segments of a path: the score of each
    template segment and the values named. *)
Fixpoint match_segments (template path : list string) : option (list N * list (string * string)) :=
  match template with
  | [] => match path with [] => Some ([], []) | _ => None end
  | segment :: template =>
      match wildcard_name segment with
      | Some name => Some ([0%N], [(name, join_char slash_char path)])
      | None =>
          match path with
          | [] => None
          | value :: path =>
              match parameter_name segment with
              | Some name =>
                  '(score, values) ← match_segments template path;
                  Some (1%N :: score, (name, value) :: values)
              | None =>
                  if bool_decide (percent_decode segment = Some value) then
                    '(score, values) ← match_segments template path;
                    Some (2%N :: score, values)
                  else None
              end
          end
      end
  end.

Definition path_segments (path : string) : option (list string) :=
  mapM percent_decode (split_char slash_char (trim_char slash_char path)).
Definition match_path (template path : string) : option (list N * list (string * string)) :=
  path ← path_segments path;
  match_segments (split_char slash_char (trim_char slash_char template)) path.

(** ** The query string of a read *)

Inductive ReadQueryError := Malformed | NotUtf8 | NotJson | NotCanonical.

Definition member_order (a b : string * Value) : bool :=
  match String.compare a.1 b.1 with Gt => false | _ => true end.

Section ReadQuery.
Context `{FloatText, JsonText}.

Definition encode_read_query (request_element : list (string * Value)) : string :=
  fold_left (λ query (m : string * Value),
    (if String.eqb query "" then query else query +:+ "&")
    +:+ percent_encode_segment m.1 +:+ "=" +:+ percent_encode_segment (canonical_json_bytes m.2))
    (stable_sort member_order request_element) "".

Definition unescape (text : string) : result string ReadQueryError := ok_or (unescaped upper_hex text) Malformed.

Definition decode_parameter (parameter : string) : result (string * Value) ReadQueryError :=
  match split_once equals_char parameter with
  | None => Err Malformed
  | Some (name, value) =>
      let? name := unescape name in
      let? name := ok_or (from_utf8 name) NotUtf8 in
      let? value := unescape value in
      let? value := ok_or (parse_json value) NotJson in
      Ok (name, value)
  end.
Fixpoint decode_parameters (parameters : list string) (request_element : list (string * Value)) :
    result (list (string * Value)) ReadQueryError :=
  match parameters with
  | [] => Ok request_element
  | p :: parameters =>
      let? m := decode_parameter p in
      decode_parameters parameters (map_insert m.1 m.2 request_element)
  end.

Definition decode_read_query (query : string) : result (list (string * Value)) ReadQueryError :=
  let? request_element := if String.eqb query "" then Ok []
                          else decode_parameters (split_char ampersand_char query) [] in
  if String.eqb (encode_read_query request_element) query then Ok request_element else Err NotCanonical.

End ReadQuery.

(** ** Escapes are inverted *)

Definition reads_upper (digit : Ascii.ascii → option N) : Prop := ∀ n, (n < 16)%N → digit (upper_hex_digit n) = Some n.

Lemma below_sixteen (P : N → Prop) : Forall P (N.of_nat <$> seq 0 16) → ∀ n, (n < 16)%N → P n.
Proof.
  intros HP n Hn. rewrite Forall_forall in HP. apply HP. apply list_elem_of_fmap. exists (N.to_nat n).
  split; [lia|]. apply elem_of_seq. lia.
Qed.

Lemma hex_reads_upper : reads_upper hex.
Proof. unfold reads_upper. refine (below_sixteen (λ n, hex (upper_hex_digit n) = Some n) _). repeat constructor. Qed.
Lemma upper_hex_reads_upper : reads_upper upper_hex.
Proof. unfold reads_upper. refine (below_sixteen (λ n, upper_hex (upper_hex_digit n) = Some n) _). repeat constructor. Qed.

Lemma byte_digits a : (Ascii.N_of_ascii a / 16 < 16)%N ∧ (Ascii.N_of_ascii a mod 16 < 16)%N.
Proof.
  pose proof (Ascii.N_ascii_bounded a). split; [apply N.Div0.div_lt_upper_bound; lia|apply N.mod_lt; lia].
Qed.

Lemma unescaped_encoded digit s : reads_upper digit → unescaped digit (percent_encode_segment s) = Some s.
Proof.
  intros Hd. induction s as [|a s IH]; [done|]. cbn [percent_encode_segment].
  destruct (unreserved a) eqn:Ea.
  - cbn [unescaped]. rewrite IH. destruct (Ascii.eqb_spec a percent_char) as [->|]; [discriminate Ea|done].
  - destruct (byte_digits a) as [Hh Hl].
    cbn [unescaped]. rewrite Ascii.eqb_refl, (Hd _ Hh), (Hd _ Hl), IH.
    cbn. rewrite N.mul_comm, <- (N.div_mod (Ascii.N_of_ascii a) 16) by lia. by rewrite Ascii.ascii_N_embedding.
Qed.

Lemma percent_decode_encode s : valid_utf8 (String.length s) s = true → percent_decode (percent_encode_segment s) = Some s.
Proof. intros Hs. unfold percent_decode. rewrite (unescaped_encoded _ _ hex_reads_upper). cbn. unfold from_utf8. by rewrite Hs. Qed.

(** An encoded text is unreserved characters, percent signs and hexadecimal digits. *)
Definition encoded_char (a : Ascii.ascii) : bool := unreserved a || Ascii.eqb a percent_char.

Lemma upper_hex_digit_unreserved n : (n < 16)%N → unreserved (upper_hex_digit n) = true.
Proof. revert n. refine (below_sixteen (λ n, unreserved (upper_hex_digit n) = true) _). repeat constructor. Qed.

Lemma encoded_chars s : all_bytes encoded_char (percent_encode_segment s) = true.
Proof.
  induction s as [|a s IH]; [done|]. cbn [percent_encode_segment]. destruct (unreserved a) eqn:Ea; cbn [all_bytes].
  - unfold encoded_char at 1. by rewrite Ea, IH.
  - destruct (byte_digits a) as [Hh Hl]. unfold encoded_char at 2 3.
    by rewrite (upper_hex_digit_unreserved _ Hh), (upper_hex_digit_unreserved _ Hl), IH.
Qed.

Lemma encoded_no_char a s : encoded_char a = false → has_char a (percent_encode_segment s) = false.
Proof. intros Ha. by apply (all_bytes_no_char encoded_char); [apply encoded_chars|]. Qed.

Lemma encoded_empty s : percent_encode_segment s = "" → s = "".
Proof. destruct s as [|a s]; [done|]. cbn [percent_encode_segment]. by destruct (unreserved a). Qed.

Lemma unescaped_empty digit s : unescaped digit s = Some "" → s = "".
Proof.
  destruct s as [|a s]; [done|]. cbn [unescaped]. destruct (Ascii.eqb a percent_char).
  - destruct s as [|h [|l s]]; [done..|]. destruct (digit h); [|done]. cbn. destruct (digit l); [|done]. cbn.
    by destruct (unescaped digit s).
  - by destruct (unescaped digit s).
Qed.

Lemma percent_decode_utf8 s t : percent_decode s = Some t → valid_utf8 (String.length t) t = true.
Proof.
  unfold percent_decode. destruct (unescaped hex s) as [u|]; [|done]. cbn. unfold from_utf8.
  destruct (valid_utf8 (String.length u) u) eqn:E; [|done]. by intros [= <-].
Qed.
Lemma percent_decode_empty s : percent_decode s = Some "" → s = "".
Proof.
  unfold percent_decode. destruct (unescaped hex s) as [u|] eqn:E; [|done]. cbn. unfold from_utf8.
  case_match; [|done]. intros [= ->]. by apply unescaped_empty in E.
Qed.

(** ** Paths are canonical *)

Lemma string_app_empty (s t : string) : s +:+ t = "" → s = "" ∧ t = "".
Proof. destruct s; [done|]. discriminate. Qed.

Lemma trim_end_none a s : has_char a s = false → trim_end_char a s = s.
Proof. induction s as [|c s IH]; [done|]. cbn. intros [Hc Hs]%orb_false_iff. by rewrite Hc, (IH Hs). Qed.

Lemma trim_end_app a s t : has_char a t = false → t ≠ "" → trim_end_char a (s +:+ t) = s +:+ t.
Proof.
  intros Ht Hne. induction s as [|c s IH]; [by apply trim_end_none|].
  change (String c s +:+ t) with (String c (s +:+ t)). cbn [trim_end_char]. rewrite IH.
  replace (String.eqb (s +:+ t) "") with false; [by rewrite andb_false_r|].
  symmetry. apply String.eqb_neq. intros [_ ?]%string_app_empty. done.
Qed.

Lemma trim_end_snoc a s : trim_end_char a (s +:+ String a "") = trim_end_char a s.
Proof.
  induction s as [|c s IH].
  { change ("" +:+ String a "") with (String a ""). cbn [trim_end_char]. by rewrite Ascii.eqb_refl. }
  change (String c s +:+ String a "") with (String c (s +:+ String a "")). cbn [trim_end_char]. by rewrite IH.
Qed.

Lemma join_snoc a l w : l ≠ [] → join_char a (l ++ [w]) = join_char a l +:+ String a w.
Proof.
  intros Hl. induction l as [|x l IH]; [done|]. destruct l as [|y l]; [done|].
  change (join_char a ((x :: y :: l) ++ [w])) with (x +:+ String a (join_char a ((y :: l) ++ [w]))).
  rewrite IH by done. change (join_char a (x :: y :: l)) with (x +:+ String a (join_char a (y :: l))).
  by rewrite string_app_assoc.
Qed.

Lemma trim_end_join a l w : has_char a w = false → w ≠ "" →
  trim_end_char a (join_char a (l ++ [w])) = join_char a (l ++ [w]).
Proof.
  intros Hw Hne. destruct (decide (l = [])) as [->|Hl]; [by apply trim_end_none|].
  rewrite join_snoc by done. change (String a w) with ((String a "") +:+ w). rewrite <- string_app_assoc.
  by apply trim_end_app.
Qed.

Definition starts_char (a : Ascii.ascii) (s : string) : bool := match s with String c _ => Ascii.eqb c a | EmptyString => false end.

Lemma has_double_app a s t : has_char a s = false → has_double a (s +:+ t) = has_double a t.
Proof.
  induction s as [|c s IH]; [done|]. cbn [has_char]. intros [Hc Hs]%orb_false_iff.
  change (String c s +:+ t) with (String c (s +:+ t)). cbn [has_double]. by rewrite Hc, (IH Hs).
Qed.

Lemma has_double_join a l : Forall (λ w, w ≠ "" ∧ has_char a w = false) l → has_double a (String a (join_char a l)) = false.
Proof.
  induction l as [|w l IH]; intros Hl; [cbn; by rewrite andb_false_r|].
  apply Forall_cons in Hl as [[Hne Hw] Hl]. specialize (IH Hl).
  assert (Hs : ∀ t, has_double a t = false → has_double a (String a (w +:+ t)) = false).
  { intros t Ht. cbn [has_double]. rewrite (has_double_app a w t Hw), Ht, orb_false_r.
    destruct w as [|c w]; [done|]. cbn [has_char] in Hw. apply orb_false_iff in Hw as [Hc _].
    change (String c w +:+ t) with (String c (w +:+ t)). cbn iota. rewrite Hc. apply andb_false_r. }
  destruct l as [|w' l].
  - rewrite <- (string_app_nil w). by apply Hs.
  - exact (Hs _ IH).
Qed.

Lemma split_no_double a s : has_double a s = false →
  ∃ w front, split_char a s = w :: front ∧ Forall (λ w, w ≠ "") (removelast front) ∧ (starts_char a s = false → s ≠ "" → w ≠ "").
Proof.
  induction s as [|c s IH]; [intros _; by exists "", []|]. cbn [has_double split_char starts_char].
  intros [Hc Hs]%orb_false_iff. destruct (IH Hs) as (w & front & E & Hf & Hw). rewrite E.
  destruct (Ascii.eqb_spec c a) as [->|Hne].
  - exists "", (w :: front). split_and!; [done| |done]. rewrite andb_true_l in Hc.
    change (match s with "" => false | String d _ => Ascii.eqb d a end) with (starts_char a s) in Hc.
    destruct front as [|f front]; [by constructor|].
    change (removelast (w :: f :: front)) with (w :: removelast (f :: front)). constructor; [|done].
    apply Hw; [done|]. by intros ->.
  - exists (String c w), front. by split_and!.
Qed.

(** The segments a path spells: the root has one empty segment, any other path none. *)
Definition segments_ok (l : list string) : Prop :=
  (l = [""] ∨ (l ≠ [] ∧ Forall (λ w, w ≠ "") l)) ∧ Forall (λ w, valid_utf8 (String.length w) w = true) l.
Definition spelled_path (l : list string) : string := String slash_char (join_char slash_char (percent_encode_segment <$> l)).

Lemma decode_encoded l : Forall (λ w, valid_utf8 (String.length w) w = true) l →
  mapM percent_decode (percent_encode_segment <$> l) = Some l.
Proof.
  intros Hl. apply mapM_Some. induction Hl as [|w l Hw Hl IH]; [done|]. cbn [fmap list_fmap].
  constructor; [by apply percent_decode_encode|done].
Qed.

Lemma encoded_pieces l : Forall (λ w, w ≠ "") l →
  Forall (λ w, w ≠ "" ∧ has_char slash_char w = false) (percent_encode_segment <$> l).
Proof.
  intros Hl. apply Forall_fmap. eapply Forall_impl; [exact Hl|]. intros w Hw. split.
  - by intros ?%encoded_empty.
  - by apply encoded_no_char.
Qed.

Lemma split_spelled l : l ≠ [] →
  split_char slash_char (join_char slash_char (percent_encode_segment <$> l)) = percent_encode_segment <$> l.
Proof.
  intros Hl. apply split_join; [by destruct l|]. apply Forall_fmap, Forall_true. intros w. by apply encoded_no_char.
Qed.

Lemma trim_spelled l : l ≠ [] → Forall (λ w, w ≠ "") l →
  let s := join_char slash_char (percent_encode_segment <$> l) in
  trim_end_char slash_char s = s ∧ trim_start_char slash_char s = s ∧ s ≠ "".
Proof.
  intros Hl Hne s. assert (Hs : s = join_char slash_char (percent_encode_segment <$> l)) by done.
  destruct l as [|w l _] using rev_ind; [done|]. rewrite fmap_app in Hs.
  apply Forall_app in Hne as [Hne [Hw _]%Forall_cons].
  assert (He : percent_encode_segment w ≠ "") by (by intros ?%encoded_empty).
  split_and!.
  - rewrite Hs. apply trim_end_join; [by apply encoded_no_char|done].
  - assert (Hhead : ∃ c t, s = String c t ∧ Ascii.eqb c slash_char = false).
    { assert (Hf : ∃ x t, s = x +:+ t ∧ x ≠ "" ∧ has_char slash_char x = false).
      { rewrite Hs. destruct (encoded_pieces l Hne) as [|x xs [Hx Hx'] _].
        - exists (percent_encode_segment w), "". split_and!; [by rewrite string_app_nil|done|by apply encoded_no_char].
        - destruct xs as [|y xs]; eexists x, _; (split_and!; [|done|done]); reflexivity. }
      destruct Hf as (x & t & -> & Hx & Hx'). destruct x as [|c x]; [done|]. exists c, (x +:+ t). split; [done|].
      cbn in Hx'. by apply orb_false_iff in Hx' as [? _]. }
    destruct Hhead as (c & t & -> & Hc). cbn [trim_start_char]. by rewrite Hc.
  - rewrite Hs. destruct (decide (l = [])) as [->|Hne'].
    + done.
    + cbn [fmap list_fmap]. rewrite join_snoc by (by destruct l). by intros [_ ?]%string_app_empty.
Qed.

Lemma spelled_root_or l : segments_ok l → has_double slash_char (spelled_path l) = false.
Proof. intros [[->|[_ Hl]] _]; [done|]. by apply has_double_join, encoded_pieces. Qed.

Lemma segments_nonempty l : segments_ok l → l ≠ [].
Proof. by intros [[->|[? _]] _]. Qed.

Lemma spelled_canonical l : segments_ok l →
  normalize_request_path (spelled_path l) = Some (spelled_path l) ∧ path_segments (spelled_path l) = Some l.
Proof.
  intros Hok. pose proof (segments_nonempty l Hok) as Hl. pose proof Hok as [Hne Hu].
  assert (Hsplit : split_char slash_char (spelled_path l) = "" :: (percent_encode_segment <$> l)).
  { unfold spelled_path. cbn [split_char]. rewrite Ascii.eqb_refl. by rewrite split_spelled. }
  split.
  - unfold normalize_request_path. rewrite (spelled_root_or l Hok), orb_false_r.
    replace (starts_with (spelled_path l) "/") with true by (symmetry; unfold spelled_path; by destruct (join_char _ _)).
    cbn [negb]. rewrite Hsplit. change (drop 1 ("" :: (percent_encode_segment <$> l))) with (percent_encode_segment <$> l).
    rewrite (decode_encoded l Hu). cbn [mbind option_bind]. unfold spelled_path. cbn [String.eqb]. do 2 f_equal.
    destruct Hne as [->|[_ Hne]]; [done|]. by destruct (trim_spelled l Hl Hne) as [-> _].
  - unfold path_segments, trim_char. unfold spelled_path. cbn [trim_start_char]. rewrite Ascii.eqb_refl.
    destruct Hne as [->|[_ Hne]]; [done|]. destruct (trim_spelled l Hl Hne) as (He & -> & _). rewrite He, split_spelled by done.
    by apply decode_encoded.
Qed.

Lemma mapM_decode_utf8 pieces l : mapM percent_decode pieces = Some l →
  Forall (λ w, valid_utf8 (String.length w) w = true) l.
Proof.
  intros Hm. apply mapM_Some in Hm. induction Hm as [|p w pieces l Hp _ IH]; constructor; [|done].
  by eapply percent_decode_utf8.
Qed.

Lemma mapM_decode_nonempty pieces l : Forall (λ w, w ≠ "") pieces → mapM percent_decode pieces = Some l → Forall (λ w, w ≠ "") l.
Proof.
  intros Hp Hm. apply mapM_Some in Hm. induction Hm as [|p w pieces l Hd _ IH]; [constructor|].
  apply Forall_cons in Hp as [Hp Hps]. constructor; [|by apply IH]. intros ->. by apply percent_decode_empty in Hd.
Qed.

Lemma starts_with_char a c s : starts_with (String c s) (String a "") = true → c = a.
Proof. unfold starts_with. cbn [String.prefix]. by destruct (Ascii.ascii_dec a c). Qed.

Lemma normalized_spells path p : normalize_request_path path = Some p →
  ∃ l, segments_ok l ∧ p = spelled_path l ∧
    let pieces := mapM percent_decode (drop 1 (split_char slash_char path)) in pieces = Some l ∨ pieces = Some (l ++ [""]).
Proof.
  unfold normalize_request_path. destruct (starts_with path "/") eqn:Hs; [|done].
  destruct (has_double slash_char path) eqn:Hd; [done|]. cbn [negb orb].
  destruct (split_no_double _ _ Hd) as (w & front & Hsplit & Hf & _).
  rewrite Hsplit. change (drop 1 (w :: front)) with front.
  destruct (mapM percent_decode front) as [segs|] eqn:Hm; [|done]. cbn [mbind option_bind String.eqb]. intros [= <-].
  assert (Hfront : front ≠ []).
  { intros ->. destruct path as [|c path]; [discriminate Hs|]. cbn [split_char] in Hsplit.
    apply starts_with_char in Hs as ->. rewrite Ascii.eqb_refl in Hsplit. injection Hsplit as _ Hx.
    by apply split_char_nonempty in Hx. }
  destruct front as [|last front _] using rev_ind; [done|]. clear Hfront Hsplit Hs Hd.
  rewrite removelast_last in Hf. pose proof Hm as Hm2.
  apply mapM_Some, Forall2_app_inv_l in Hm2 as (sf & sl' & Hmf & Hml & ->). apply mapM_Some in Hmf.
  apply Forall2_cons_inv_l in Hml as (sl & sl'' & Hml & ->%Forall2_nil_inv_l & ->).
  pose proof (mapM_decode_nonempty _ _ Hf Hmf) as Hne. pose proof (mapM_decode_utf8 _ _ Hmf) as Hu.
  pose proof (percent_decode_utf8 _ _ Hml) as Hul.
  destruct (decide (sl = "")) as [->|Hsl].
  - destruct (decide (sf = [])) as [->|Hsf].
    + exists [""]. split_and!; [split; [by left|by repeat constructor]|done|by left].
    + exists sf. split_and!; [split; [by right|done]| |by right]. unfold spelled_path. f_equal.
      rewrite fmap_app. cbn [fmap list_fmap]. rewrite join_snoc by (by destruct sf). rewrite trim_end_snoc.
      by destruct (trim_spelled sf Hsf Hne) as [-> _].
  - assert (Hall : Forall (λ w, w ≠ "") (sf ++ [sl])) by (apply Forall_app; split; [done|by repeat constructor]).
    exists (sf ++ [sl]). split_and!; [split; [right; split; [by destruct sf|done]|]| |by left].
    + apply Forall_app. split; [done|by repeat constructor].
    + unfold spelled_path. f_equal. destruct (trim_spelled (sf ++ [sl])) as [E _]; [by destruct sf|done|exact E].
Qed.

(** A request path has one spelling.  A path that is accepted is rewritten to the one
    spelling of its decoded segments, a trailing slash aside: rewriting it again changes
    nothing, the template match reads exactly those segments, and two paths that spell
    the same segments become the same path. *)
Theorem request_path_canonical (path p : string) :
  normalize_request_path path = Some p →
  normalize_request_path p = Some p ∧
  ∃ segments, path_segments p = Some segments ∧
    (let spelled := mapM percent_decode (drop 1 (split_char slash_char path)) in
     spelled = Some segments ∨ spelled = Some (segments ++ [""])) ∧
    (∀ template, match_path template p =
       match_segments (split_char slash_char (trim_char slash_char template)) segments) ∧
    ∀ path' p', normalize_request_path path' = Some p' → path_segments p' = Some segments → p' = p.
Proof.
  intros Hn. destruct (normalized_spells path p Hn) as (l & Hl & -> & Hp).
  destruct (spelled_canonical l Hl) as [Hc Hseg]. split; [done|]. exists l. split_and!; [done|done| |].
  - intros template. unfold match_path. by rewrite Hseg.
  - intros path' p' Hn' Hs'. destruct (normalized_spells path' p' Hn') as (l' & Hl' & -> & _).
    destruct (spelled_canonical l' Hl') as [_ Hseg']. rewrite Hseg' in Hs'. by injection Hs' as ->.
Qed.

Lemma request_path_canonical_witness :
  normalize_request_path "/orders/%61%2f1/" = Some "/orders/a%2F1" ∧
  normalize_request_path "/orders/a%2F1" = Some "/orders/a%2F1".
Proof.
  assert (E : normalize_request_path "/orders/%61%2f1/" = Some "/orders/a%2F1") by (vm_compute; reflexivity).
  split; [exact E|]. exact (proj1 (request_path_canonical _ _ E)).
Defined.

(** ** The query of a read *)

Section ReadQueryExact.
Context `{FloatText, JsonText}.

(** A request element: its members in strict order of their names, each name a text and
    each value one that its canonical text reads back. *)
Record element_ok (m : list (string * Value)) : Prop := {
  el_order : StronglySorted (λ x y : string * Value, String.compare x.1 y.1 = Lt) m;
  el_names : ∀ x, x ∈ m → valid_utf8 (String.length x.1) x.1 = true;
  el_values : ∀ x, x ∈ m → parse_json (canonical_json_bytes x.2) = Some x.2;
}.

Definition parameter (x : string * Value) : string :=
  percent_encode_segment x.1 +:+ String equals_char (percent_encode_segment (canonical_json_bytes x.2)).

Lemma parameter_nonempty x : parameter x ≠ "".
Proof. by intros [_ ?]%string_app_empty. Qed.

Lemma parameter_no_ampersand x : has_char ampersand_char (parameter x) = false.
Proof. unfold parameter. rewrite has_char_app. cbn [has_char]. by rewrite !encoded_no_char. Qed.

Lemma decode_parameter_exact x : valid_utf8 (String.length x.1) x.1 = true →
  parse_json (canonical_json_bytes x.2) = Some x.2 → decode_parameter (parameter x) = Ok x.
Proof.
  intros Hn Hv. unfold decode_parameter, parameter, unescape. rewrite split_once_app by (by apply encoded_no_char).
  rewrite !unescaped_encoded by apply upper_hex_reads_upper. cbn [ok_or result_bind]. unfold from_utf8. rewrite Hn. cbn [ok_or].
  rewrite Hv. by destruct x.
Qed.

Lemma join_app_head a s t l : join_char a ((s +:+ String a t) :: l) = s +:+ String a (join_char a (t :: l)).
Proof. destruct l as [|x l]; [done|]. cbn [join_char]. by rewrite string_app_assoc. Qed.

Lemma encode_fold l : ∀ query,
  fold_left (λ query (m : string * Value),
    (if String.eqb query "" then query else query +:+ "&")
    +:+ percent_encode_segment m.1 +:+ "=" +:+ percent_encode_segment (canonical_json_bytes m.2)) l query =
  join_char ampersand_char ((if String.eqb query "" then [] else [query]) ++ (parameter <$> l)).
Proof.
  induction l as [|x l IH]; intros query; cbn [fold_left].
  { destruct (String.eqb_spec query "") as [->|]; done. }
  rewrite IH. change (percent_encode_segment x.1 +:+ "=" +:+ percent_encode_segment (canonical_json_bytes x.2)) with (parameter x).
  destruct (String.eqb_spec query "") as [->|Hq].
  - change ("" +:+ parameter x) with (parameter x).
    destruct (String.eqb_spec (parameter x) "") as [E|_]; [by apply parameter_nonempty in E|done].
  - destruct (String.eqb_spec ((query +:+ "&") +:+ parameter x) "") as [E|_].
    { by apply string_app_empty in E as [_ ?%parameter_nonempty]. }
    rewrite string_app_assoc. change ("&" +:+ parameter x) with (String ampersand_char (parameter x)).
    cbn [app]. by rewrite join_app_head.
Qed.

Lemma map_insert_last k v m : Forall (λ x : string * Value, String.compare x.1 k = Lt) m → map_insert k v m = m ++ [(k, v)].
Proof.
  induction 1 as [|[k' v'] m Hx Hm IH]; [done|]. cbn [map_insert fst] in *.
  rewrite String.compare_antisym, Hx. cbn. by rewrite IH.
Qed.

Lemma decode_parameters_exact l : ∀ acc,
  StronglySorted (λ x y : string * Value, String.compare x.1 y.1 = Lt) (acc ++ l) →
  (∀ x, x ∈ l → valid_utf8 (String.length x.1) x.1 = true ∧ parse_json (canonical_json_bytes x.2) = Some x.2) →
  decode_parameters (parameter <$> l) acc = Ok (acc ++ l).
Proof.
  induction l as [|[k v] l IH]; intros acc Hs Hall; [by rewrite app_nil_r|]. cbn [fmap list_fmap decode_parameters].
  destruct (Hall (k, v)) as [Hn Hv]; [left|]. rewrite decode_parameter_exact by done. cbn [result_bind fst snd].
  pose proof Hs as Hs'. apply StronglySorted_app in Hs' as (Hlt & _ & _).
  rewrite map_insert_last by (apply Forall_forall; intros x Hx; apply (Hlt x (k, v)); [done|left]).
  rewrite IH; [by rewrite <- app_assoc|by rewrite <- app_assoc|]. intros x Hx. apply Hall. by right.
Qed.

Lemma element_sorted m : element_ok m → stable_sort member_order m = m.
Proof.
  intros [Ho _ _]. apply stable_sort_id. induction Ho as [|x l Hl IH Hx]; constructor; [done|].
  eapply Forall_impl; [exact Hx|]. intros y E. unfold member_order. by rewrite E.
Qed.

Lemma encode_parameters m : element_ok m → encode_read_query m = join_char ampersand_char (parameter <$> m).
Proof. intros Hm. unfold encode_read_query. rewrite element_sorted by done. by rewrite encode_fold. Qed.

(** C37. A read has one URL.  The query string of a request element decodes to the element it
    encodes; a query string that decodes is the one its element encodes to, so two
    requests for the same element carry the same bytes and a cache may key on them. *)
Theorem read_query_exact :
  (∀ m, element_ok m → decode_read_query (encode_read_query m) = Ok m) ∧
  (∀ query m, decode_read_query query = Ok m → encode_read_query m = query) ∧
  (∀ query query' m, decode_read_query query = Ok m → decode_read_query query' = Ok m → query = query').
Proof.
  assert (Hinj : ∀ query m, decode_read_query query = Ok m → encode_read_query m = query).
  { intros query m. unfold decode_read_query. destruct (if String.eqb query "" then _ else _) as [e|]; [|done].
    cbn [result_bind]. destruct (String.eqb_spec (encode_read_query e) query) as [E|]; [|done]. by intros [= <-]. }
  split_and!; [|done|].
  - intros m Hm. unfold decode_read_query.
    assert (Hd : (if String.eqb (encode_read_query m) "" then Ok []
                  else decode_parameters (split_char ampersand_char (encode_read_query m)) []) = Ok m).
    { rewrite encode_parameters by done. destruct m as [|x m]; [done|].
      destruct (String.eqb_spec (join_char ampersand_char (parameter <$> x :: m)) "") as [E|_].
      { exfalso. apply (parameter_nonempty x). cbn [fmap list_fmap] in E. destruct (parameter <$> m) as [|y ys].
        - exact E.
        - cbn [join_char] in E. by apply string_app_empty in E as [? _]. }
      rewrite split_join; [|done|apply Forall_fmap, Forall_true; intros y; apply parameter_no_ampersand].
      apply (decode_parameters_exact (x :: m) []); [apply Hm|].
      intros y Hy. split; [by apply (el_names _ Hm)|by apply (el_values _ Hm)]. }
    rewrite Hd. cbn [result_bind]. by rewrite String.eqb_refl.
  - intros query query' m Hq Hq'. by rewrite <- (Hinj _ _ Hq), <- (Hinj _ _ Hq').
Qed.

End ReadQueryExact.

Module ReadQuerySample.

#[local] Instance plain : FloatText := λ _, "0".
#[local] Instance numbers : JsonText := λ s, if String.eqb s "7" then Some (VNumber (PosInt 7)) else None.

(** Out of order, repeated, spelled otherwise and malformed queries are refused. *)
Example other_spellings :
  (decode_read_query <$> ["a=7&b=7"; "b=7&a=7"; "a=7&a=7"; "a=%37"; "a=%3"; "a"; "a=x"; "%FF=7"]) =
  [Ok [("a", VNumber (PosInt 7)); ("b", VNumber (PosInt 7))]; Err NotCanonical; Err NotCanonical; Err NotCanonical;
   Err Malformed; Err Malformed; Err NotJson; Err NotUtf8].
Proof. vm_compute. reflexivity. Qed.

Lemma read_query_exact_witness :
  decode_read_query (encode_read_query [("a b", VNumber (PosInt 7))]) = Ok [("a b", VNumber (PosInt 7))] ∧
  encode_read_query [("a b", VNumber (PosInt 7))] = "a%20b=7".
Proof.
  split; [|vm_compute; reflexivity]. apply (proj1 read_query_exact). constructor.
  - repeat constructor.
  - intros x Hx. apply list_elem_of_singleton in Hx. rewrite Hx. vm_compute. reflexivity.
  - intros x Hx. apply list_elem_of_singleton in Hx. rewrite Hx. vm_compute. reflexivity.
Defined.

End ReadQuerySample.
