(* ===== verification/HttpAdapter.v ===== *)
(** * The HTTP adapter

    [apps/platform/ingress/http-route/src/lib.rs], which takes one HTTP request to one
    router delivery: the selection of a route, the bounded read of the body, the mapping of
    transport values to a payload, and the responses.  What it asks of the host is the
    class [Backend], the trait of that name. *)

From stdpp Require Import base tactics option list strings sorting.
From Stdlib Require Import ZArith Lia.
From S2P Require Import Prelude Text Json Canonical HttpText.
#[local] Set Warnings "-clear-no-such-hyp".
Open Scope wamn_scope.

(** ** Requests, routes and responses *)

Record Header := { hd_name : string; hd_value : string }.
Record RequestHead := { rq_method : string; rq_authority : string; rq_target : string; rq_headers : list Header }.

Inductive MappingSource := MapBody | MapPath | MapQuery | MapHeader.
#[export] Instance MappingSource_eq_dec : EqDecision MappingSource.
Proof. solve_decision. Defined.
Inductive Cardinality := CardOne | CardMany.
Record Mapping := { mp_from : MappingSource; mp_name : string; mp_to : string; mp_optional : bool; mp_cardinality : Cardinality }.

(** [RouteDefinition] of the adapter; the limits are [usize]. *)
Record RouteCandidate := {
  rt_attachment_id : string;
  rt_host : string;
  rt_path : string;
  rt_method : string;
  rt_mappings : list Mapping;
  rt_body_limit : Z;
  rt_mapped_limit : Z;
  rt_cache_control : option string;
}.

Record AuthRejection := { rj_status : Z; rj_code : string }.
Record TraceContext := { tr_traceparent : string; tr_tracestate : option string }.
Record DeliveryRequest (Caller : Type) := {
  dr_attachment_id : string;
  dr_delivery_id : string;
  dr_payload : string;
  dr_caller : option Caller;
  dr_trace : option TraceContext;
  dr_if_none_match : option string;
}.
Arguments dr_attachment_id {Caller} _.
Arguments dr_delivery_id {Caller} _.
Arguments dr_payload {Caller} _.
Arguments dr_caller {Caller} _.
Arguments dr_trace {Caller} _.
Arguments dr_if_none_match {Caller} _.

Inductive DeliveryFailureKind :=
| KTerminal | KRetryExhausted | KInvalidInput | KHopLimit | KUnreleasedCaller | KMissingDedupId | KRespondWithoutCaller
| KSecondVerdict.
Record DeliveryFailure := { df_kind : DeliveryFailureKind; df_code : option string; df_message : string }.
Inductive DeliveryError :=
| DSourceNotFound | DInvalidRequest | DInvalidPayload | DExecutionFailed
| DPermissionDenied (operation : string)
| DFreshCredentialRequired (operation : string).
Inductive FailedOutcome := FOFailed (f : DeliveryFailure) | FOError (e : DeliveryError) | FOCancelled.

(** [EffectOutcome]. *)
Inductive EffectOutcome := RefusedBeforeDispatch | Responded | EffectTimeout | EffectCancelled | EffectUncertain | ResponseLost.
Definition label (o : EffectOutcome) : string :=
  match o with
  | RefusedBeforeDispatch => "refused-before-dispatch" | Responded => "responded" | EffectTimeout => "timeout"
  | EffectCancelled => "cancelled" | EffectUncertain => "effect-uncertain" | ResponseLost => "response-lost"
  end.

Record PartialCompletion := {
  pc_committed_result : string;
  pc_failed_outcome : FailedOutcome;
  pc_effect_outcome : option EffectOutcome;
}.
Inductive DeliveryOutcome :=
| ORespond (payload : string)
| OEmit (event dedup_id : string)
| ODiscard
| OFailed (f : DeliveryFailure)
| OPartiallyCompleted (p : PartialCompletion)
| OCancelled
| ONotModified.

Record DeadlineAdjustment := { da_node : string; da_requested_ms : Z; da_effective_ms : Z }.
Record DeliveryReport := {
  rp_outcome : result DeliveryOutcome DeliveryError;
  rp_deadline_adjustments : list DeadlineAdjustment;
  rp_etag : option string;
}.

Record ReadCache := { rc_cache_control : option string; rc_etag : option string }.
Record HttpResponse := {
  hr_status : Z;
  hr_content_type : string;
  hr_body : string;
  hr_deadline_adjustments : list DeadlineAdjustment;
  hr_read : option ReadCache;
}.

(** [HttpResponse::cache_headers]. *)
Definition cache_headers (r : HttpResponse) : list (string * string) :=
  (match hr_read r ≫= rc_cache_control with
   | Some value => [("cache-control", value); ("vary", "Authorization, Cookie")]
   | None => [("cache-control", "no-store")]
   end)
  ++ match hr_read r ≫= rc_etag with Some etag => [("etag", etag)] | None => [] end.

Record AdapterLimits := { al_body_bytes : Z; al_mapped_bytes : Z }.
Definition default_limits : AdapterLimits := {| al_body_bytes := 1024 * 1024; al_mapped_bytes := 4 * 1024 * 1024 |}.

Record SchemaInvalid := { si_pointer : option string }.
Definition from_refusal (refusal : string) : SchemaInvalid :=
  {| si_pointer := if String.eqb refusal "" || starts_with refusal "/" then Some refusal else None |}.

(** ** Responses *)

Section Responses.
Context `{JsonText, JsonPrint}.

Definition json_response (status : Z) (body : string) : HttpResponse := {|
  hr_status := status; hr_content_type := "application/json"; hr_body := body; hr_deadline_adjustments := [];
  hr_read := None |}.

Definition error_response (status : Z) (code : string) : HttpResponse :=
  json_response status (print_json (VObject [("error", VObject [("code", VString code)])])).

(** The members in the order a map keeps them. *)
Definition detailed_error_response (status : Z) (code : string) (message : option string) (data : option Value) :
    HttpResponse :=
  json_response status (print_json (VObject [("error",
    VObject (map_from_iter (("code", VString code)
      :: match message with Some m => [("message", VString m)] | None => [] end
      ++ match data with Some d => [("data", d)] | None => [] end)))])).

Definition body_too_large_response (limit : Z) : HttpResponse := {|
  hr_status := 413; hr_content_type := "text/plain; charset=utf-8";
  hr_body := "request body exceeds " +:+ decimal_text limit +:+ "-byte limit" +:+ String (Ascii.ascii_of_N 10) "";
  hr_deadline_adjustments := []; hr_read := None |}.

Definition rejection_response (r : AuthRejection) : HttpResponse :=
  let response := error_response (rj_status r) (rj_code r) in
  if String.eqb (rj_code r) "" then json_response (hr_status response) "" else response.

Definition operation_refusal_response (code operation : string) : HttpResponse :=
  json_response 403 (print_json (VObject [("error", VObject [("code", VString code); ("operation", VString operation)])])).

Definition delivery_error_response (e : DeliveryError) : HttpResponse :=
  match e with
  | DSourceNotFound => error_response 404 "attachment-not-found"
  | DInvalidRequest => error_response 400 "delivery-invalid-request"
  | DInvalidPayload => error_response 400 "delivery-invalid-payload"
  | DExecutionFailed => error_response 503 "execution-failed"
  | DPermissionDenied operation => operation_refusal_response "permission-denied" operation
  | DFreshCredentialRequired operation => operation_refusal_response "fresh-credential-required" operation
  end.

Definition failure_kind_code (k : DeliveryFailureKind) : string :=
  match k with
  | KTerminal => "terminal" | KRetryExhausted => "retry-exhausted" | KInvalidInput => "invalid-input"
  | KHopLimit => "hop-limit" | KUnreleasedCaller => "unreleased-caller" | KMissingDedupId => "missing-dedup-id"
  | KRespondWithoutCaller => "respond-without-caller" | KSecondVerdict => "second-verdict"
  end.

Definition failure_response (f : DeliveryFailure) : HttpResponse :=
  detailed_error_response (match df_kind f with KInvalidInput => 400 | _ => 500 end)
    (default (failure_kind_code (df_kind f)) (df_code f)) (Some (df_message f)) None.
Definition cancelled_response : HttpResponse := error_response 503 "execution-cancelled".

Definition partial_response (p : PartialCompletion) : run HttpResponse :=
  match parse_json (pc_committed_result p) with
  | None => Ret (error_response 503 "execution-failed")
  | Some committed_result =>
      let failure := match pc_failed_outcome p with
                     | FOFailed f => failure_response f
                     | FOError e => delivery_error_response e
                     | FOCancelled => cancelled_response
                     end in
      let! document := expect (parse_json (hr_body failure)) "the existing error response serializes JSON" in
      let! failed_outcome := expect (get "error" document) "the existing error response has an error member" in
      let! failed_outcome :=
        match pc_effect_outcome p with
        | None => Ret failed_outcome
        | Some outcome =>
            match failed_outcome with
            | VObject m => Ret (VObject (map_insert "effect_outcome" (VString (label outcome)) m))
            | _ => Panic "the existing error is an object"
            end
        end in
      Ret (json_response (hr_status failure)
             (print_json (VObject [("committed_result", committed_result); ("failed_outcome", failed_outcome)])))
  end.

Definition delivery_response (o : DeliveryOutcome) : run HttpResponse :=
  match o with
  | ORespond payload => Ret (json_response 200 payload)
  | OEmit _ _ => Ret (error_response 500 "http-route-emitted")
  | ODiscard => Ret (error_response 500 "http-route-discarded")
  | OFailed f => Ret (failure_response f)
  | OPartiallyCompleted p => partial_response p
  | OCancelled => Ret cancelled_response
  | ONotModified => Ret (json_response 304 "")
  end.

End Responses.

(** ** Selecting a route *)

(** [Vec<u8>] and then the identity, in order. *)
Fixpoint score_compare (a b : list N) : comparison :=
  match a, b with
  | [], [] => Eq
  | [], _ => Lt
  | _, [] => Gt
  | x :: a, y :: b => match N.compare x y with Eq => score_compare a b | o => o end
  end.

Record MatchedRoute := { mr_definition : RouteCandidate; mr_path_values : list (string * string) }.

Definition route_candidate (method path : string) (r : RouteCandidate) : option (list N * MatchedRoute) :=
  if eq_ignore_ascii_case (rt_method r) method then
    '(score, values) ← match_path (rt_path r) path;
    Some (score, {| mr_definition := r; mr_path_values := values |})
  else None.

(** The greater first: [left] stands before [right] unless [right] is the greater. *)
Definition candidate_order (left right : list N * MatchedRoute) : bool :=
  match score_compare right.1 left.1 with
  | Lt => true
  | Eq => match String.compare (rt_attachment_id (mr_definition right.2)) (rt_attachment_id (mr_definition left.2)) with
          | Gt => false
          | _ => true
          end
  | Gt => false
  end.

Definition select_route (routes : list RouteCandidate) (method path : string) : result MatchedRoute string :=
  match stable_sort candidate_order (omap (route_candidate method path) routes) with
  | [] => Err "route-not-found"
  | (_, matched) :: _ => Ok matched
  end.

(** ** Mapping *)

Definition named_values (values : list (string * string)) (name : string) : list string :=
  (filter (λ v : string * string, v.1 = name) values).*2.
Definition header_values (headers : list Header) (name : string) : list string :=
  hd_value <$> filter (λ h, eq_ignore_ascii_case (hd_name h) name = true) headers.

(** [str::replace] of a text of two characters by one. *)
Fixpoint replace_pair (a b c : Ascii.ascii) (s : string) : string :=
  match s with
  | EmptyString => EmptyString
  | String x s' =>
      match s' with
      | String y rest => if Ascii.eqb x a && Ascii.eqb y b then String c (replace_pair a b c rest) else String x (replace_pair a b c s')
      | EmptyString => s
      end
  end.
Definition tilde_char : Ascii.ascii := Ascii.ascii_of_N 126.
Definition pointer_token (raw : string) : string :=
  replace_pair tilde_char (Ascii.ascii_of_N 48) tilde_char (replace_pair tilde_char (Ascii.ascii_of_N 49) slash_char raw).

Section Adapter.
Context `{FloatText, JsonText, JsonPrint}.

Definition mapping_values (m : Mapping) (body : Value) (path query : list (string * string)) (headers : list Header) :
    result (option Value) HttpResponse :=
  let one_of (values : list string) :=
    match values, mp_cardinality m with
    | [], _ => Ok None
    | [value], CardOne => Ok (Some (VString value))
    | _, CardOne => Err (error_response 400 "mapping-cardinality")
    | values, CardMany => Ok (Some (VArray (VString <$> values)))
    end in
  match mp_from m with
  | MapBody => Ok (if String.eqb (mp_name m) "" then Some body else get (mp_name m) body)
  | MapPath => one_of (named_values path (mp_name m))
  | MapQuery => one_of (named_values query (mp_name m))
  | MapHeader => one_of (header_values headers (mp_name m))
  end.

Fixpoint set_tokens (tokens : list string) (value current : Value) : result Value HttpResponse :=
  match tokens with
  | [] => Err (error_response 400 "mapping-pointer")
  | raw :: tokens =>
      let token := pointer_token raw in
      match current with
      | VObject object =>
          match tokens with
          | [] => match map_get token object with
                  | Some _ => Err (error_response 400 "mapping-collision")
                  | None => Ok (VObject (map_insert token value object))
                  end
          | _ =>
              let? child := set_tokens tokens value (default (VObject []) (map_get token object)) in
              Ok (VObject (map_insert token child object))
          end
      | _ => Err (error_response 400 "mapping-collision")
      end
  end.

Definition set_pointer (root : Value) (pointer : string) (value : Value) : result Value HttpResponse :=
  if String.eqb pointer "" then
    match root with VObject [] => Ok value | _ => Err (error_response 400 "mapping-collision") end
  else
    let? path := ok_or (strip_prefix "/" pointer) (error_response 400 "mapping-pointer") in
    set_tokens (split_char slash_char path) value root.

Fixpoint map_each (mappings : list Mapping) (body : Value) (path query : list (string * string)) (headers : list Header)
    (output : Value) : result Value HttpResponse :=
  match mappings with
  | [] => Ok output
  | m :: mappings =>
      let? values := mapping_values m body path query headers in
      match values with
      | Some value =>
          let? output := set_pointer output (mp_to m) value in
          map_each mappings body path query headers output
      | None =>
          if mp_optional m then map_each mappings body path query headers output
          else Err (error_response 400 "mapping-source-required")
      end
  end.

(** The mappings by their source, in this order. *)
Definition by_source (mappings : list Mapping) : list Mapping :=
  concat ((λ source, filter (λ m, mp_from m = source) mappings) <$> [MapBody; MapPath; MapQuery; MapHeader]).

Definition map_input (mappings : list Mapping) (body : Value) (path query : list (string * string)) (headers : list Header) :
    result Value HttpResponse :=
  match mappings with
  | [] => Ok body
  | _ => map_each (by_source mappings) body path query headers (VObject [])
  end.

Definition READ_TARGET_BYTES : Z := 8 * 1024.
Definition read_query_request_element (target : string) : result Value HttpResponse :=
  if (READ_TARGET_BYTES <? Z.of_nat (String.length target))%Z then Err (error_response 400 "invalid-target")
  else
    let query := match split_once question_char target with Some (_, query) => query | None => "" end in
    match decode_read_query query with
    | Err _ => Err (error_response 400 "invalid-target")
    | Ok request_element => Ok (VArray [VObject request_element])
    end.

Definition is_feed_read (input : Value) : bool :=
  match input with
  | VArray (request_element :: _) => match get "feed" request_element with Some v => is_object v | None => false end
  | _ => false
  end.

(** [str::trim] at both ends. *)
Fixpoint trim_start_text (fuel : nat) (s : string) : string :=
  match fuel with
  | O => s
  | S fuel => match find (starts_with s) whitespace with
              | Some w => trim_start_text fuel (default "" (strip_prefix w s))
              | None => s
              end
  end.
Fixpoint trim_end_text (fuel : nat) (s : string) : string :=
  match fuel with
  | O => s
  | S fuel => match find (ends_with s) whitespace with
              | Some w => trim_end_text fuel (default "" (strip_suffix w s))
              | None => s
              end
  end.
Definition trim_text (s : string) : string :=
  trim_end_text (String.length s) (trim_start_text (String.length s) s).

Definition comma_char : Ascii.ascii := Ascii.ascii_of_N 44.
Definition feed_cache_control (list : string) : string :=
  trim_text (default list (head (split_char comma_char list))) +:+ ", no-cache".

Definition CSRF_HEADER : string := "x-wamn-csrf".

Definition trace_context (headers : list Header) : option TraceContext :=
  traceparent ← head (header_values headers "traceparent");
  Some {| tr_traceparent := traceparent; tr_tracestate := head (header_values headers "tracestate") |}.

(** ** The body *)

(** What [next_chunk] answers, in order; the end of the list is the end of the body. *)
Definition chunk := result string unit.
Definition usize_max : Z := u32_max.

Fixpoint read_bounded (chunks : list chunk) (limit : Z) (bytes : string) : result string HttpResponse :=
  match chunks with
  | [] => Ok bytes
  | Err _ :: _ => Err (error_response 400 "body-read-failed")
  | Ok c :: chunks =>
      let next := (Z.of_nat (String.length bytes) + Z.of_nat (String.length c))%Z in
      if (usize_max <? next)%Z then Err (body_too_large_response limit)
      else if (limit <? next)%Z then Err (body_too_large_response limit)
      else read_bounded chunks limit (bytes +:+ c)
  end.

(** ** Handling a request *)

(** [trait Backend], over the state behind it; [release_permit] is the drop of a permit. *)
Class Backend (S : Type) := {
  RoutePermit : Type;
  Caller : Type;
  routes : string → string → S → S * option (list RouteCandidate);
  authenticate : string → list Header → string → S → S * result (option Caller) AuthRejection;
  validate_input : string → string → S → S * result unit SchemaInvalid;
  try_acquire_route : string → S → S * option (option RoutePermit);
  new_delivery_id : S → S * string;
  deliver : DeliveryRequest Caller → S → S * DeliveryReport;
  release_permit : RoutePermit → S → S;
}.

Section Handle.
Context {S : Type} `{!Backend S}.

Definition empty_response (status : Z) : HttpResponse := json_response status "".

(** What the request is before the host is asked: its method, authority, path and query. *)
Definition request_line (head : RequestHead) (limits : AdapterLimits) :
    result (string * string * string * list (string * string)) HttpResponse :=
  if (al_body_bytes limits =? 0)%Z || (al_mapped_bytes limits =? 0)%Z then Err (error_response 500 "invalid-adapter-limits")
  else
    let? method := ok_or (normalize_method (rq_method head)) (error_response 405 "method-not-allowed") in
    let? authority := ok_or (normalize_authority (rq_authority head)) (error_response 400 "invalid-authority") in
    let? pq := ok_or (split_target (rq_target head)) (error_response 400 "invalid-target") in
    Ok (method, authority, pq.1, pq.2).

(** The JSON of the request: the query of a plain read, or the body. *)
Definition request_json (method : string) (r : RouteCandidate) (target raw_body : string) : result Value HttpResponse :=
  if String.eqb method "GET" && match rt_mappings r with [] => true | _ => false end then read_query_request_element target
  else if String.eqb raw_body "" then Ok VNull
  else ok_or (parse_json raw_body) (error_response 400 "malformed-json").

Definition schema_refusal (e : SchemaInvalid) : HttpResponse :=
  detailed_error_response 400 "schema-invalid" None ((λ p, VObject [("pointer", VString p)]) <$> si_pointer e).

Definition read_cache_of (r : RouteCandidate) (headers : list Header) (mapped : Value) : option string :=
  match header_values headers CSRF_HEADER with
  | [] => (λ value, if is_feed_read mapped then feed_cache_control value else value) <$> rt_cache_control r
  | _ => None
  end.

Definition if_none_match_of (method : string) (headers : list Header) : option string :=
  if String.eqb method "GET" then
    let value := foldr (λ v s, match s with None => Some v | Some s => Some (v +:+ ", " +:+ s) end) None
                   (header_values headers "if-none-match") in
    match value with Some "" => None | v => v end
  else None.

(** The response with what the report adds to it. *)
Definition finish_response (cache_control : option string) (report : DeliveryReport) (response : HttpResponse) : HttpResponse := {|
  hr_status := hr_status response; hr_content_type := hr_content_type response; hr_body := hr_body response;
  hr_deadline_adjustments := rp_deadline_adjustments report;
  hr_read := if (hr_status response =? 200)%Z || (hr_status response =? 304)%Z
             then Some {| rc_cache_control := cache_control; rc_etag := rp_etag report |} else hr_read response |}.

(** The delivery under the permit, and the drop of the permit. *)
Definition deliver_under (permit : RoutePermit) (cache_control : option string) (request : string → DeliveryRequest Caller)
    (s : S) : S * run HttpResponse :=
  let '(s, delivery_id) := new_delivery_id s in
  let '(s, report) := deliver (request delivery_id) s in
  let response := match rp_outcome report with
                  | Ok outcome => delivery_response outcome
                  | Err e => Ret (delivery_error_response e)
                  end in
  (release_permit permit s,
   let! response := response in Ret (finish_response cache_control report response)).

(** The request past its route. *)
Definition handle_route (method : string) (query : list (string * string)) (matched : MatchedRoute) (body : list chunk)
    (head : RequestHead) (limits : AdapterLimits) (s : S) : S * run HttpResponse :=
  let r := mr_definition matched in
  match read_bounded body (Z.min (rt_body_limit r) (al_body_bytes limits)) "" with
  | Err response => (s, Ret response)
  | Ok raw_body =>
      let '(s, authenticated) := authenticate (rt_attachment_id r) (rq_headers head) raw_body s in
      match authenticated with
      | Err rejection => (s, Ret (rejection_response rejection))
      | Ok caller =>
          match (let? body_json := request_json method r (rq_target head) raw_body in
                 map_input (rt_mappings r) body_json (mr_path_values matched) query (rq_headers head)) with
          | Err response => (s, Ret response)
          | Ok mapped =>
              let payload := print_json mapped in
              let '(s, valid) := validate_input (rt_attachment_id r) payload s in
              match valid with
              | Err e => (s, Ret (schema_refusal e))
              | Ok _ =>
                  if (Z.min (rt_mapped_limit r) (al_mapped_bytes limits) <? Z.of_nat (String.length payload))%Z
                  then (s, Ret (error_response 413 "mapped-payload-too-large"))
                  else
                    let '(s, acquired) := try_acquire_route (rt_attachment_id r) s in
                    match acquired with
                    | None => (s, Ret (error_response 503 "route-limit-provider-failed"))
                    | Some None => (s, Ret (error_response 429 "route-capacity-exhausted"))
                    | Some (Some permit) =>
                        deliver_under permit (read_cache_of r (rq_headers head) mapped)
                          (λ delivery_id, {|
                             dr_attachment_id := rt_attachment_id r; dr_delivery_id := delivery_id; dr_payload := payload;
                             dr_caller := caller; dr_trace := trace_context (rq_headers head);
                             dr_if_none_match := if_none_match_of method (rq_headers head) |}) s
                    end
              end
          end
      end
  end.

Definition handle_request (body : list chunk) (head : RequestHead) (limits : AdapterLimits) (s : S) : S * run HttpResponse :=
  match request_line head limits with
  | Err response => (s, Ret response)
  | Ok (method, authority, path, query) =>
      if String.eqb method "HEAD" && String.eqb path "/api/health" then (s, Ret (empty_response 204))
      else
        let '(s, found) := routes method authority s in
        match found with
        | None => (s, Ret (error_response 503 "routing-provider-failed"))
        | Some found =>
            match select_route found method path with
            | Err code => (s, Ret (error_response 404 code))
            | Ok matched => handle_route method query matched body head limits s
            end
        end
  end.

End Handle.
End Adapter.

(** ** The calls of a request *)

(** One call of the backend with its answer. *)
Inductive Call (P C : Type) :=
| CallRoutes (method authority : string) (found : option (list RouteCandidate))
| CallAuthenticate (id : string) (headers : list Header) (body : string) (answer : result (option C) AuthRejection)
| CallValidate (id payload : string) (answer : result unit SchemaInvalid)
| CallAcquire (id : string) (answer : option (option P))
| CallNewId (id : string)
| CallDeliver (request : DeliveryRequest C) (report : DeliveryReport)
| CallRelease (permit : P).
Arguments CallRoutes {P C}.
Arguments CallAuthenticate {P C}.
Arguments CallValidate {P C}.
Arguments CallAcquire {P C}.
Arguments CallNewId {P C}.
Arguments CallDeliver {P C}.
Arguments CallRelease {P C}.

(** A backend that keeps the calls made of it. *)
Definition logging {S A} {P C : Type} (f : S → S * A) (call : A → Call P C) (sl : S * list (Call P C)) :
    (S * list (Call P C)) * A :=
  let '(s, a) := f sl.1 in ((s, sl.2 ++ [call a]), a).

#[export] Instance logged {S} (B : Backend S) : Backend (S * list (Call (@RoutePermit S B) (@Caller S B))) := {|
  RoutePermit := @RoutePermit S B;
  Caller := @Caller S B;
  routes := λ m a, logging (routes m a) (CallRoutes m a);
  authenticate := λ i h b, logging (authenticate i h b) (CallAuthenticate i h b);
  validate_input := λ i p, logging (validate_input i p) (CallValidate i p);
  try_acquire_route := λ i, logging (try_acquire_route i) (CallAcquire i);
  new_delivery_id := logging new_delivery_id CallNewId;
  deliver := λ r, logging (deliver r) (CallDeliver r);
  release_permit := λ p sl, (release_permit p sl.1, sl.2 ++ [CallRelease p]);
|}.

Section Trace.
Context `{FloatText, JsonText, JsonPrint} {S : Type} (B : Backend S).
Abbreviation P := (@RoutePermit S B).
Abbreviation C := (@Caller S B).

(** The body the chunks make. *)
Fixpoint body_of (chunks : list chunk) : option string :=
  match chunks with
  | [] => Some ""
  | Ok c :: chunks => (λ rest, c +:+ rest) <$> body_of chunks
  | Err _ :: _ => None
  end.

Lemma read_bounded_spec chunks limit : ∀ bytes raw, (0 ≤ limit)%Z → (Z.of_nat (String.length bytes) ≤ limit)%Z →
  read_bounded chunks limit bytes = Ok raw →
  (Z.of_nat (String.length raw) ≤ limit)%Z ∧ ∃ rest, body_of chunks = Some rest ∧ raw = bytes +:+ rest.
Proof.
  induction chunks as [|[c|] chunks IH]; intros bytes raw Hl Hb; cbn [read_bounded body_of]; [| |done].
  { intros [= <-]. split; [done|]. exists "". by rewrite string_app_nil. }
  destruct (usize_max <? _)%Z; [done|]. destruct (Z.ltb_spec limit (Z.of_nat (String.length bytes) + Z.of_nat (String.length c))) as [|Hle];
    [done|]. intros Hr. apply IH in Hr as (Hlen & rest & -> & ->); [|done|rewrite string_length_app; lia].
  split; [done|]. exists (c +:+ rest). split; [done|]. by rewrite string_app_assoc.
Qed.

(** A delivery and what it rests on. *)
Record admitted (body : list chunk) (head : RequestHead) (limits : AdapterLimits) (log : list (Call P C))
    (out : run HttpResponse) (request : DeliveryRequest C) (report : DeliveryReport) : Prop := {
  ad_calls : ∃ method authority path query found matched raw permit mapped,
    log = [CallRoutes method authority (Some found);
           CallAuthenticate (dr_attachment_id request) (rq_headers head) raw (Ok (dr_caller request));
           CallValidate (dr_attachment_id request) (dr_payload request) (Ok tt);
           CallAcquire (dr_attachment_id request) (Some (Some permit));
           CallNewId (dr_delivery_id request); CallDeliver request report; CallRelease permit] ∧
    request_line head limits = Ok (method, authority, path, query) ∧
    select_route found method path = Ok matched ∧ rt_attachment_id (mr_definition matched) = dr_attachment_id request ∧
    read_bounded body (Z.min (rt_body_limit (mr_definition matched)) (al_body_bytes limits)) "" = Ok raw ∧
    (let? json := request_json method (mr_definition matched) (rq_target head) raw in
     map_input (rt_mappings (mr_definition matched)) json (mr_path_values matched) query (rq_headers head)) = Ok mapped ∧
    dr_payload request = print_json mapped ∧
    (Z.of_nat (String.length (dr_payload request)) ≤ Z.min (rt_mapped_limit (mr_definition matched)) (al_mapped_bytes limits))%Z;
}.

(** The response to a report. *)
Definition answered (report : DeliveryReport) (out : run HttpResponse) : Prop :=
  match out with
  | Panic _ => ∃ p, rp_outcome report = Ok (OPartiallyCompleted p)
  | Ret r => hr_deadline_adjustments r = rp_deadline_adjustments report ∧
      (hr_status r = 200%Z ↔ ∃ payload, rp_outcome report = Ok (ORespond payload)) ∧
      (hr_status r = 304%Z ↔ rp_outcome report = Ok ONotModified) ∧
      (∀ payload, rp_outcome report = Ok (ORespond payload) → hr_body r = payload) ∧
      (is_Some (hr_read r) → hr_status r = 200%Z ∨ hr_status r = 304%Z) ∧
      (400 ≤ hr_status r ∨ hr_status r = 200 ∨ hr_status r = 304)%Z
  end.

Lemma delivery_error_status e : (400 ≤ hr_status (delivery_error_response e))%Z ∧ hr_read (delivery_error_response e) = None.
Proof. by destruct e. Qed.
Lemma failure_status f : (400 ≤ hr_status (failure_response f))%Z ∧ hr_read (failure_response f) = None.
Proof. destruct f as [[] ? ?]; done. Qed.

Lemma partial_status p r : partial_response p = Ret r → (400 ≤ hr_status r)%Z ∧ hr_read r = None.
Proof.
  unfold partial_response. destruct (parse_json (pc_committed_result p)); [|by intros [= <-]].
  set (failure := match pc_failed_outcome p with FOFailed _ => _ | FOError _ => _ | FOCancelled => _ end).
  assert (Hf : (400 ≤ hr_status failure)%Z).
  { unfold failure. destruct (pc_failed_outcome p); [apply failure_status|apply delivery_error_status|done]. }
  destruct (parse_json (hr_body failure)) as [document|]; [|done]. cbn [expect run_bind].
  destruct (get "error" document) as [fo|]; [|done]. cbn [expect run_bind].
  destruct (match pc_effect_outcome p with Some _ => _ | None => _ end); [|done]. by intros [= <-].
Qed.

Lemma delivery_status o r : delivery_response o = Ret r →
  hr_read r = None ∧
  match o with
  | ORespond payload => hr_status r = 200%Z ∧ hr_body r = payload
  | ONotModified => hr_status r = 304%Z
  | _ => (400 ≤ hr_status r)%Z
  end.
Proof.
  destruct o as [payload| | |f|p| |]; cbn [delivery_response]; try (intros [= <-]; done).
  - intros [= <-]. by destruct (failure_status f).
  - intros Hr. by destruct (partial_status p r Hr).
Qed.

Lemma finish_answered report cache r : hr_read r = None →
  match rp_outcome report with
  | Ok (ORespond payload) => hr_status r = 200%Z ∧ hr_body r = payload
  | Ok ONotModified => hr_status r = 304%Z
  | _ => (400 ≤ hr_status r)%Z
  end → answered report (Ret (finish_response cache report r)).
Proof.
  intros Hread Ho. unfold answered, finish_response. cbn [hr_status hr_body hr_read hr_deadline_adjustments]. rewrite Hread.
  assert (Hr : is_Some (if (hr_status r =? 200)%Z || (hr_status r =? 304)%Z
                then Some {| rc_cache_control := cache; rc_etag := rp_etag report |} else None) →
               hr_status r = 200%Z ∨ hr_status r = 304%Z).
  { destruct ((hr_status r =? 200)%Z || (hr_status r =? 304)%Z) eqn:E; [|by intros [? ?]]. intros _. apply orb_true_iff in E as [E|E]; apply Z.eqb_eq in E; auto. }
  split; [done|]. destruct (rp_outcome report) as [[payload| | | | | |]|];
    try (split_and!; [split; [lia|naive_solver]|split; [lia|naive_solver]|naive_solver|done|lia]).
  - destruct Ho as [Hs <-]. split_and!; [|split; [lia|naive_solver]|naive_solver|done|lia]. split; [by eexists|done].
  - split_and!; [split; [lia|naive_solver]|done|naive_solver|done|lia].
Qed.

Lemma finish_cache cache report r v : hr_read r = None →
  hr_read (finish_response cache report r) ≫= rc_cache_control = Some v → cache = Some v.
Proof. intros Hr. unfold finish_response. cbn [hr_read]. rewrite Hr. by case_match. Qed.

Lemma deliver_under_logged permit cache request s l s' l' out :
  deliver_under (S := S * list (Call P C)) permit cache request (s, l) = ((s', l'), out) →
  ∃ id report, l' = l ++ [CallNewId id; CallDeliver (request id) report; CallRelease permit] ∧ answered report out ∧
    ∀ r v, out = Ret r → hr_read r ≫= rc_cache_control = Some v → cache = Some v.
Proof.
  unfold deliver_under. cbn [new_delivery_id logged]. unfold logging at 1. cbn [fst snd].
  destruct (@new_delivery_id S B s) as [s1 id]. cbn [deliver logged]. unfold logging. cbn [fst snd].
  destruct (@deliver S B (request id) s1) as [s2 report]. cbn [release_permit logged fst snd]. intros [= <- <- <-].
  exists id, report. split; [by rewrite <- !app_assoc|].
  destruct (rp_outcome report) as [o|e] eqn:Ho.
  - destruct (delivery_response o) as [r|] eqn:Hr; cbn [run_bind].
    + destruct (delivery_status o r Hr) as [Hread Ho']. split.
      * apply finish_answered; [done|]. rewrite Ho. by destruct o.
      * intros r' v [= <-]. by apply finish_cache.
    + split; [|done]. unfold answered. destruct o as [| | | |p| |]; try discriminate Hr. rewrite Ho. by exists p.
  - destruct (delivery_error_status e) as [Hs Hread]. cbn [run_bind]. split.
    + apply finish_answered; [done|]. by rewrite Ho.
    + intros r' v [= <-]. by apply finish_cache.
Qed.

(** A refusal: nothing was delivered and no slot is taken. *)
Definition unserved (log : list (Call P C)) (out : run HttpResponse) : Prop :=
  (∀ request report, CallDeliver request report ∉ log) ∧ (∀ id permit, CallAcquire id (Some (Some permit)) ∉ log) ∧
  (∀ permit, CallRelease permit ∉ log) ∧
  ∃ r, out = Ret r ∧ hr_read r = None ∧ (400 ≤ hr_status r)%Z.

(** The rejections of the host are refusals. *)
Definition rejections_refuse : Prop :=
  ∀ id headers body s r, (@authenticate S B id headers body s).2 = Err r → (400 ≤ rj_status r)%Z.

Ltac not_logged := repeat (apply not_elem_of_cons; split; [done|]); apply not_elem_of_nil.
Ltac refused := split_and!; [intros; not_logged..|eexists; split_and!; [reflexivity|done|done]].

Lemma read_bounded_refuses chunks limit : ∀ bytes r, read_bounded chunks limit bytes = Err r → hr_read r = None ∧ (400 ≤ hr_status r)%Z.
Proof.
  induction chunks as [|[c|] chunks IH]; intros bytes r; cbn [read_bounded]; [done| |by intros [= <-]].
  repeat case_match; [by intros [= <-]|by intros [= <-]|apply IH].
Qed.

Lemma mapping_refuses m body path query headers r : mapping_values m body path query headers = Err r →
  hr_read r = None ∧ (400 ≤ hr_status r)%Z.
Proof. unfold mapping_values. repeat case_match; intros E; try discriminate E; by injection E as <-. Qed.

Lemma set_tokens_refuses tokens value : ∀ current r, set_tokens tokens value current = Err r →
  hr_read r = None ∧ (400 ≤ hr_status r)%Z.
Proof.
  induction tokens as [|t tokens IH]; intros current r; cbn [set_tokens]; [by intros [= <-]|].
  destruct current as [| | | | |object]; try (by intros [= <-]). destruct tokens as [|t' tokens].
  - case_match; [by intros [= <-]|done].
  - destruct (set_tokens (t' :: tokens) value _) as [v|e] eqn:E; cbn [result_bind]; [done|]. intros [= <-].
    by eapply IH.
Qed.

Lemma set_pointer_refuses root pointer value r : set_pointer root pointer value = Err r →
  hr_read r = None ∧ (400 ≤ hr_status r)%Z.
Proof.
  unfold set_pointer. case_match.
  - destruct root as [| | | | |[|]]; intros E; try discriminate E; by injection E as <-.
  - destruct (strip_prefix "/" pointer); cbn [ok_or result_bind]; [apply set_tokens_refuses|by intros [= <-]].
Qed.

Lemma map_each_refuses mappings body path query headers : ∀ output r, map_each mappings body path query headers output = Err r →
  hr_read r = None ∧ (400 ≤ hr_status r)%Z.
Proof.
  induction mappings as [|m mappings IH]; intros output r; cbn [map_each]; [done|].
  destruct (mapping_values m body path query headers) as [[v|]|e] eqn:Em; cbn [result_bind].
  - destruct (set_pointer output (mp_to m) v) as [o|e] eqn:Es; cbn [result_bind]; [apply IH|].
    intros [= <-]. by apply set_pointer_refuses in Es.
  - case_match; [apply IH|by intros [= <-]].
  - intros [= <-]. by apply mapping_refuses in Em.
Qed.

Lemma request_json_refuses method r target raw e : request_json method r target raw = Err e →
  hr_read e = None ∧ (400 ≤ hr_status e)%Z.
Proof.
  unfold request_json, read_query_request_element, ok_or. repeat case_match; intros E; try discriminate E; by injection E as <-.
Qed.

Lemma map_input_refuses mappings body path query headers r : map_input mappings body path query headers = Err r →
  hr_read r = None ∧ (400 ≤ hr_status r)%Z.
Proof. unfold map_input. destruct mappings; [done|apply map_each_refuses]. Qed.

Lemma request_line_refuses head limits r : request_line head limits = Err r → hr_read r = None ∧ (400 ≤ hr_status r)%Z.
Proof.
  unfold request_line. case_match; [by intros [= <-]|].
  destruct (normalize_method _); cbn [ok_or result_bind]; [|by intros [= <-]].
  destruct (normalize_authority _); cbn [ok_or result_bind]; [|by intros [= <-]].
  destruct (split_target _); cbn [ok_or result_bind]; [done|by intros [= <-]].
Qed.

Lemma handle_route_logged method authority path query found matched body head limits s s' log out :
  rejections_refuse → request_line head limits = Ok (method, authority, path, query) →
  select_route found method path = Ok matched →
  handle_route (S := S * list (Call P C)) method query matched body head limits (s, [CallRoutes method authority (Some found)])
    = ((s', log), out) →
  (∃ request report, admitted body head limits log out request report ∧ answered report out ∧
     ∀ r v, out = Ret r → hr_read r ≫= rc_cache_control = Some v → header_values (rq_headers head) CSRF_HEADER = []) ∨
  unserved log out.
Proof.
  intros Hrej Hline Hsel. unfold handle_route. set (r := mr_definition matched).
  destruct (read_bounded body _ "") as [raw|resp] eqn:Hbody.
  2: { intros [= <- <- <-]. right. destruct (read_bounded_refuses _ _ _ _ Hbody). refused. }
  cbn [authenticate logged]. unfold logging at 1. cbn [fst snd].
  destruct (@authenticate S B (rt_attachment_id r) (rq_headers head) raw s) as [s1 auth] eqn:Hauth.
  destruct auth as [caller|rejection].
  2: { intros [= <- <- <-]. right.
       assert (400 ≤ rj_status rejection)%Z by (eapply Hrej; by rewrite Hauth).
       split_and!; [intros; not_logged..|]. eexists. split_and!; [reflexivity| |]; unfold rejection_response; by case_match. }
  destruct (let? body_json := _ in _) as [mapped|resp] eqn:Hmap.
  2: { intros [= <- <- <-]. right.
       destruct (request_json method r (rq_target head) raw) as [j|e] eqn:Hj; cbn [result_bind] in Hmap.
       - destruct (map_input_refuses _ _ _ _ _ _ Hmap). refused.
       - injection Hmap as <-. destruct (request_json_refuses _ _ _ _ _ Hj). refused. }
  cbn [validate_input logged]. unfold logging at 1. cbn [fst snd].
  destruct (@validate_input S B (rt_attachment_id r) (print_json mapped) s1) as [s2 [[]|invalid]].
  2: { intros [= <- <- <-]. right. refused. }
  destruct (Z.ltb_spec (Z.min (rt_mapped_limit r) (al_mapped_bytes limits)) (Z.of_nat (String.length (print_json mapped)))) as [|Hlen].
  { intros [= <- <- <-]. right. refused. }
  cbn [try_acquire_route logged]. unfold logging at 1. cbn [fst snd].
  destruct (@try_acquire_route S B (rt_attachment_id r) s2) as [s3 [[permit|]|]].
  2-3: intros [= <- <- <-]; right; refused.
  intros Hd. apply deliver_under_logged in Hd as (id & report & -> & Hans & Hcache). left.
  match goal with |- context [CallDeliver ?request report] => exists request, report end. split_and!; [|exact Hans|].
  - constructor. exists method, authority, path, query, found, matched, raw, permit, mapped.
    cbn [dr_attachment_id dr_delivery_id dr_payload dr_caller]. by split_and!.
  - intros resp v Hout Hv. specialize (Hcache resp v Hout Hv). unfold read_cache_of in Hcache. by destruct (header_values _ CSRF_HEADER).
Qed.

Lemma handle_request_logged (body : list chunk) (head : RequestHead) (limits : AdapterLimits) (s s' : S)
    (log : list (Call P C)) (out : run HttpResponse) :
  rejections_refuse →
  handle_request (S := S * list (Call P C)) body head limits (s, []) = ((s', log), out) →
  (∃ request report, admitted body head limits log out request report ∧ answered report out ∧
     ∀ r v, out = Ret r → hr_read r ≫= rc_cache_control = Some v → header_values (rq_headers head) CSRF_HEADER = []) ∨
  unserved log out ∨
  (log = [] ∧ out = Ret (empty_response 204) ∧
   ∃ authority query, request_line head limits = Ok ("HEAD", authority, "/api/health", query)).
Proof.
  intros Hrej. unfold handle_request. destruct (request_line head limits) as [[[[method authority] path] query]|resp] eqn:Hline.
  2: { intros [= <- <- <-]. right; left. destruct (request_line_refuses _ _ _ Hline). refused. }
  destruct (String.eqb method "HEAD" && String.eqb path "/api/health") eqn:Hh.
  { intros [= <- <- <-]. right; right. apply andb_true_iff in Hh as [->%String.eqb_eq ->%String.eqb_eq].
    split_and!; [done|done|]. by exists authority, query. }
  cbn [routes logged]. unfold logging. cbn [fst snd]. destruct (@routes S B method authority s) as [s1 [found|]].
  2: { intros [= <- <- <-]. right; left. refused. }
  destruct (select_route found method path) as [matched|code] eqn:Hsel.
  2: { intros [= <- <- <-]. right; left. refused. }
  intros Hr. destruct (handle_route_logged _ _ _ _ _ _ _ _ _ _ _ _ _ Hrej Hline Hsel Hr) as [?|?]; [by left|by right; left].
Qed.

(** *** The calls are the backend's answers *)

(** What one call is at the backend: the state before and after it. *)
Definition made (c : Call P C) (s s' : S) : Prop :=
  match c with
  | CallRoutes method authority found => @routes S B method authority s = (s', found)
  | CallAuthenticate id headers body answer => @authenticate S B id headers body s = (s', answer)
  | CallValidate id payload answer => @validate_input S B id payload s = (s', answer)
  | CallAcquire id answer => @try_acquire_route S B id s = (s', answer)
  | CallNewId id => @new_delivery_id S B s = (s', id)
  | CallDeliver request report => @deliver S B request s = (s', report)
  | CallRelease permit => @release_permit S B permit s = s'
  end.
Fixpoint calls_made (log : list (Call P C)) (s s' : S) : Prop :=
  match log with
  | [] => s = s'
  | c :: log => ∃ s1, made c s s1 ∧ calls_made log s1 s'
  end.

Lemma calls_made_app l1 l2 s s1 s2 : calls_made l1 s s1 → calls_made l2 s1 s2 → calls_made (l1 ++ l2) s s2.
Proof. revert s. induction l1 as [|c l1 IH]; intros s; simpl; [by intros ->|]. intros (s0 & ? & ?) ?. exists s0. auto. Qed.
Lemma calls_made_one l c s s1 s2 : calls_made l s s1 → made c s1 s2 → calls_made (l ++ [c]) s s2.
Proof. intros Hl Hc. eapply calls_made_app; [exact Hl|]. by exists s2. Qed.

Lemma handle_route_made method query matched body head limits s0 s l s' log out : calls_made l s0 s →
  handle_route (S := S * list (Call P C)) method query matched body head limits (s, l) = ((s', log), out) →
  calls_made log s0 s'.
Proof.
  intros Hl. unfold handle_route. destruct (read_bounded body _ "") as [raw|]; [|by intros [= <- <- <-]].
  cbn [authenticate logged]. unfold logging at 1. cbn [fst snd].
  destruct (@authenticate S B _ _ raw s) as [s1 auth] eqn:E1. assert (Hm1 := calls_made_one _ _ _ _ _ Hl (E1 : made (CallAuthenticate _ _ _ _) s s1)).
  destruct auth as [caller|]; [|by intros [= <- <- <-]]. destruct (let? body_json := _ in _) as [mapped|]; [|by intros [= <- <- <-]].
  cbn [validate_input logged]. unfold logging at 1. cbn [fst snd].
  destruct (@validate_input S B _ (print_json mapped) s1) as [s2 valid] eqn:E2.
  assert (Hm2 := calls_made_one _ _ _ _ _ Hm1 (E2 : made (CallValidate _ _ _) s1 s2)).
  destruct valid; [|by intros [= <- <- <-]]. destruct (_ <? _)%Z; [by intros [= <- <- <-]|].
  cbn [try_acquire_route logged]. unfold logging at 1. cbn [fst snd].
  destruct (@try_acquire_route S B _ s2) as [s3 acquired] eqn:E3.
  assert (Hm3 := calls_made_one _ _ _ _ _ Hm2 (E3 : made (CallAcquire _ _) s2 s3)).
  destruct acquired as [[permit|]|]; [|by intros [= <- <- <-]..].
  unfold deliver_under. cbn [new_delivery_id logged]. unfold logging at 1. cbn [fst snd].
  destruct (@new_delivery_id S B s3) as [s4 id] eqn:E4.
  assert (Hm4 := calls_made_one _ _ _ _ _ Hm3 (E4 : made (CallNewId _) s3 s4)).
  cbn [deliver logged]. unfold logging. cbn [fst snd].
  match goal with |- context [@deliver S B ?request s4] => destruct (@deliver S B request s4) as [s5 report] eqn:E5 end.
  assert (Hm5 := calls_made_one _ _ _ _ _ Hm4 (E5 : made (CallDeliver _ _) s4 s5)).
  cbn [release_permit logged fst snd]. intros [= <- <- <-]. by eapply calls_made_one.
Qed.

Lemma handle_request_made body head limits s s' log out :
  handle_request (S := S * list (Call P C)) body head limits (s, []) = ((s', log), out) → calls_made log s s'.
Proof.
  unfold handle_request. destruct (request_line head limits) as [[[[method authority] path] query]|]; [|by intros [= <- <- <-]].
  destruct (_ && _); [by intros [= <- <- <-]|].
  cbn [routes logged]. unfold logging. cbn [fst snd app]. destruct (@routes S B method authority s) as [s1 found] eqn:E1.
  assert (Hm1 : calls_made [CallRoutes method authority found] s s1) by (by exists s1).
  destruct found as [found|]; [|by intros [= <- <- <-]].
  destruct (select_route found method path); [|by intros [= <- <- <-]]. by apply handle_route_made.
Qed.

(** C19. A request is delivered only when the host admitted it.  Over any backend, one
    request makes at most one delivery, of a route the host supplied and the request's
    method and path select: after the host authenticated the caller of that attachment
    over the headers and the whole bounded body, accepted the payload mapped from them,
    within the limit, and gave a slot; the delivery carries that caller and that payload,
    and the slot is given back at its end.  The response is then the router's, 200 with
    its payload just when it responded, and only a success without the CSRF header may be
    cached.  Otherwise nothing is delivered, no slot is taken and the response is a
    refusal, or the bare answer of the health check. *)
Theorem http_delivers_admitted (body : list chunk) (head : RequestHead) (limits : AdapterLimits) (s s' : S)
    (log : list (Call P C)) (out : run HttpResponse) :
  rejections_refuse →
  handle_request (S := S * list (Call P C)) body head limits (s, []) = ((s', log), out) →
  (∃ request report, admitted body head limits log out request report ∧ answered report out ∧
     ∀ r v, out = Ret r → hr_read r ≫= rc_cache_control = Some v → header_values (rq_headers head) CSRF_HEADER = []) ∨
  unserved log out ∨
  (log = [] ∧ out = Ret (empty_response 204) ∧
   ∃ authority query, request_line head limits = Ok ("HEAD", authority, "/api/health", query)).
Proof. apply handle_request_logged. Qed.

End Trace.

(** ** The route selected *)

Lemma score_compare_refl a : score_compare a a = Eq.
Proof. induction a as [|x a IH]; [done|]. cbn. by rewrite N.compare_refl. Qed.
Lemma score_compare_antisym a b : score_compare a b = CompOpp (score_compare b a).
Proof.
  revert b. induction a as [|x a IH]; intros [|y b]; cbn; try done. rewrite N.compare_antisym.
  destruct (y ?= x)%N; cbn; [apply IH|done|done].
Qed.
Lemma score_compare_eq a b : score_compare a b = Eq → a = b.
Proof.
  revert b. induction a as [|x a IH]; intros [|y b]; cbn; try done.
  destruct (N.compare_spec x y) as [->| |]; [|done|done]. by intros ->%IH.
Qed.
Lemma score_compare_trans a b c : score_compare a b = Lt → score_compare b c = Lt → score_compare a c = Lt.
Proof.
  revert b c. induction a as [|x a IH]; intros [|y b] [|z c]; cbn; try done.
  destruct (N.compare_spec x y) as [->|Hxy|]; [| |done].
  - destruct (y ?= z)%N; [apply IH|done|done].
  - intros _. destruct (N.compare_spec y z) as [->|Hyz|]; [| |done].
    + by apply N.compare_lt_iff in Hxy as ->.
    + intros _. by rewrite (proj2 (N.compare_lt_iff x z) (N.lt_trans _ _ _ Hxy Hyz)).
Qed.

(** A candidate is at least another: its score, and for one score its identity. *)
Lemma candidate_order_spec x y : candidate_order x y = true ↔
  score_compare y.1 x.1 = Lt ∨ score_compare y.1 x.1 = Eq ∧
    String.compare (rt_attachment_id (mr_definition y.2)) (rt_attachment_id (mr_definition x.2)) ≠ Gt.
Proof.
  unfold candidate_order. destruct (score_compare y.1 x.1); [|naive_solver|naive_solver].
  destruct (String.compare _ _); naive_solver.
Qed.

Lemma candidate_order_total x y : candidate_order x y = true ∨ candidate_order y x = true.
Proof.
  unfold candidate_order. rewrite (score_compare_antisym x.1 y.1).
  rewrite (String.compare_antisym (rt_attachment_id (mr_definition y.2)) (rt_attachment_id (mr_definition x.2))).
  destruct (score_compare y.1 x.1); cbn; [|by left|by right]. destruct (String.compare _ _); cbn; auto.
Qed.

Lemma string_not_gt_trans s t u : String.compare s t ≠ Gt → String.compare t u ≠ Gt → String.compare s u ≠ Gt.
Proof.
  destruct (String.compare s t) eqn:E1; [apply string_compare_eq in E1 as ->; done| |done].
  destruct (String.compare t u) eqn:E2; [apply string_compare_eq in E2 as <-; by rewrite E1| |done].
  by rewrite (string_compare_lt_trans _ _ _ E1 E2).
Qed.

Lemma candidate_order_trans x y z : candidate_order x y = true → candidate_order y z = true → candidate_order x z = true.
Proof.
  rewrite !candidate_order_spec. intros [Hxy|[Exy Hxy]] [Hyz|[Eyz Hyz]].
  - left. by eapply score_compare_trans.
  - left. apply score_compare_eq in Eyz as ->. done.
  - left. apply score_compare_eq in Exy as <-. done.
  - right. apply score_compare_eq in Exy as Exy', Eyz as Eyz'. rewrite <- Exy', Eyz'. split; [apply score_compare_refl|].
    by eapply string_not_gt_trans.
Qed.

(** The most specific route wins.  A selected route is one of the host's, its method is the
    request's and its template matches the path with the values bound; no other matching
    route has a greater score, segment by segment a literal over a parameter over a
    wildcard, and of equal scores it has the greatest identity.  No route is selected
    just when none matches. *)
Theorem select_route_best (found : list RouteCandidate) (method path : string) :
  (∀ matched, select_route found method path = Ok matched →
     let r := mr_definition matched in
     ∃ score, r ∈ found ∧ eq_ignore_ascii_case (rt_method r) method = true ∧
       match_path (rt_path r) path = Some (score, mr_path_values matched) ∧
       ∀ r' score' values', r' ∈ found → eq_ignore_ascii_case (rt_method r') method = true →
         match_path (rt_path r') path = Some (score', values') →
         score_compare score' score = Lt ∨
         score' = score ∧ String.compare (rt_attachment_id r') (rt_attachment_id r) ≠ Gt) ∧
  (∀ code, select_route found method path = Err code ↔
     code = "route-not-found" ∧
     ∀ r, r ∈ found → eq_ignore_ascii_case (rt_method r) method = true → match_path (rt_path r) path = None).
Proof.
  assert (Hin : ∀ x, x ∈ stable_sort candidate_order (omap (route_candidate method path) found) ↔
    mr_definition x.2 ∈ found ∧ route_candidate method path (mr_definition x.2) = Some x).
  { intros x. rewrite elem_of_stable_sort, list_elem_of_omap. split.
    - intros (r & Hr & Hx). assert (r = mr_definition x.2) as ->; [|done].
      unfold route_candidate in Hx. case_match; [|done]. destruct (match_path (rt_path r) path) as [[score values]|]; [|done].
      cbn in Hx. by injection Hx as <-.
    - intros [Hr Hx]. by exists (mr_definition x.2). }
  assert (Hcand : ∀ r score values, eq_ignore_ascii_case (rt_method r) method = true →
    match_path (rt_path r) path = Some (score, values) →
    route_candidate method path r = Some (score, {| mr_definition := r; mr_path_values := values |})).
  { intros r score values Hm Hp. unfold route_candidate. by rewrite Hm, Hp. }
  pose proof (stable_sort_sorted candidate_order candidate_order_total candidate_order_trans
                (omap (route_candidate method path) found)) as Hsort.
  unfold select_route. destruct (stable_sort candidate_order _) as [|[score matched] l].
  - split; [done|]. intros code. split; [|by intros [-> _]]. intros [= <-]. split; [done|]. intros r Hr Hm.
    destruct (match_path (rt_path r) path) as [[score values]|] eqn:Hp; [|done].
    destruct (not_elem_of_nil (score, {| mr_definition := r; mr_path_values := values |})). apply Hin. cbn [snd mr_definition]. auto.
  - split.
    + intros ? [= <-]. exists score. destruct (Hin (score, matched)) as [[Hr Hc] _]; [left|]. cbn [snd] in Hr, Hc.
      unfold route_candidate in Hc. destruct (eq_ignore_ascii_case _ _) eqn:Em; [|done].
      destruct (match_path _ path) as [[score' values]|] eqn:Hp; [|done]. cbn in Hc. injection Hc as -> Hm.
      split_and!; [done|done|by rewrite <- Hm|]. intros r' score' values' Hr' Hm' Hp'.
      assert (Hx : (score', {| mr_definition := r'; mr_path_values := values' |}) ∈ (score, matched) :: l)
        by (apply Hin; cbn [snd mr_definition]; auto).
      apply elem_of_cons in Hx as [[= -> <-]|Hx].
      * right. split; [done|]. cbn. by rewrite string_compare_refl.
      * apply StronglySorted_inv in Hsort as [_ Hall]. rewrite Forall_forall in Hall. specialize (Hall _ Hx).
        apply candidate_order_spec in Hall as [?|[?%score_compare_eq ?]]; [by left|by right].
    + intros code. split; [done|]. intros [_ Hnone]. destruct (Hin (score, matched)) as [[Hr Hc] _]; [left|].
      unfold route_candidate in Hc. destruct (eq_ignore_ascii_case _ _) eqn:Em; [|done]. cbn [snd] in *.
      rewrite (Hnone _ Hr Em) in Hc. done.
Qed.


Module AdapterSample.

#[local] Instance plain : FloatText := λ _, "0".
#[local] Instance one_text : JsonText := λ s, if String.eqb s "{}" then Some (VObject []) else None.
#[local] Instance one_print : JsonPrint := λ v,
  match v with VObject [("error", VObject [("code", VString code)])] => code | VObject [("id", VString id)] => id | _ => "{}" end.

Definition order_route (id path : string) : RouteCandidate := {|
  rt_attachment_id := id; rt_host := ""; rt_path := path; rt_method := "POST";
  rt_mappings := [{| mp_from := MapPath; mp_name := "id"; mp_to := "/id"; mp_optional := false; mp_cardinality := CardOne |}];
  rt_body_limit := 10; rt_mapped_limit := 10; rt_cache_control := None |}.

(** A host of one slot that knows one caller. *)
#[local] Instance one_slot : Backend nat := {|
  RoutePermit := unit;
  Caller := string;
  routes := λ _ _ s, (s, Some [order_route "any" "/{*rest}"; order_route "order" "/orders/{id}"]);
  authenticate := λ _ headers _ s,
    (s, match header_values headers "authorization" with
        | [caller] => Ok (Some caller)
        | _ => Err {| rj_status := 401; rj_code := "unauthorized" |}
        end);
  validate_input := λ _ _ s, (s, Ok tt);
  try_acquire_route := λ _ s, match s with O => (O, Some None) | S s => (s, Some (Some tt)) end;
  new_delivery_id := λ s, (s, "d1");
  deliver := λ r s, (s, {| rp_outcome := Ok (ORespond (dr_payload r)); rp_deadline_adjustments := []; rp_etag := None |});
  release_permit := λ _ s, S s |}.

Definition post (headers : list Header) : RequestHead := {|
  rq_method := "post"; rq_authority := "shop.example"; rq_target := "/orders/%37/"; rq_headers := headers |}.
Definition bob : Header := {| hd_name := "Authorization"; hd_value := "bob" |}.
Definition served (head : RequestHead) (slots : nat) :=
  handle_request (S := nat * list (Call (@RoutePermit nat one_slot) (@Caller nat one_slot))) [Ok "{"; Ok "}"] head default_limits (slots, []).
Definition response_of (r : run HttpResponse) : option (Z * string) :=
  match r with Ret r => Some (hr_status r, hr_body r) | Panic _ => None end.

(** Bob's order is delivered once; without a credential, or without a slot, nothing is. *)
Lemma http_delivers_admitted_witness :
  response_of (served (post [bob]) 1).2 = Some (200%Z, "7") ∧ (served (post [bob]) 1).1.1 = 1%nat ∧
  response_of (served (post []) 1).2 = Some (401%Z, "unauthorized") ∧
  response_of (served (post [bob]) 0).2 = Some (429%Z, "route-capacity-exhausted") ∧
  ∃ request report,
    admitted one_slot [Ok "{"; Ok "}"] (post [bob]) default_limits (served (post [bob]) 1).1.2 (served (post [bob]) 1).2 request report.
Proof.
  split_and!; [vm_compute; reflexivity..|].
  assert (Hrej : rejections_refuse one_slot).
  { intros id headers body s r. cbn. destruct (header_values headers "authorization") as [|c [|]]; intros E;
      try discriminate E; injection E as <-; vm_compute; discriminate. }
  destruct (served (post [bob]) 1) as [[s' log] out] eqn:E.
  assert (Hin : existsb (λ c, match c with CallDeliver _ _ => true | _ => false end) log = true).
  { change log with ((s', log, out).1.2). rewrite <- E. vm_compute. reflexivity. }
  destruct (http_delivers_admitted one_slot _ _ _ _ _ _ _ Hrej E) as [(request & report & Ha & _)|[[Hno _]|(-> & _)]].
  - exists request, report. exact Ha.
  - apply existsb_exists in Hin as (c & Hc & Hd). destruct c; try discriminate Hd.
    apply list_elem_of_In, Hno in Hc. destruct Hc.
  - discriminate Hin.
Defined.

Example best_route :
  (λ r, rt_attachment_id (mr_definition r)) <$> result_ok (select_route [order_route "any" "/{*rest}"; order_route "order" "/orders/{id}"; order_route "seven" "/orders/7"] "POST" "/orders/7") = Some "seven".
Proof. vm_compute. reflexivity. Qed.

End AdapterSample.
