(* ===== verification/CanonicalForm.v ===== *)
(** * The canonical form of a request element

    [canonical_scalar.rs] of the execution contract ([canonical_numeric], and
    [canonical_timestamptz] over [chrono]'s parse and format, which are a
    parameter) and [RouteCanonicalization] of
    [crates/catalog/model/src/serving_manifest.rs] ([apply], [hashed], [respell],
    [remove]).  The theorems: a decimal's canonical spelling is exactly its sign,
    its value and its scale, and applying a route's form twice is applying it
    once. *)

From stdpp Require Import base tactics option list strings sorting.
From Stdlib Require Import ZArith Lia.
From S2P Require Import Prelude Text Json.
#[local] Set Warnings "-clear-no-such-hyp".
#[local] Open Scope Z_scope.

(** ** Scalars *)

Definition zero_char : Ascii.ascii := Ascii.ascii_of_N 48.

(** [trim_start_matches('0')]. *)
Fixpoint trim_zeros (s : string) : string :=
  match s with
  | String a s' => if Ascii.eqb a zero_char then trim_zeros s' else s
  | EmptyString => EmptyString
  end.

Definition canonical_numeric (value : string) : option string :=
  let '(sign, unsigned) := match strip_prefix "-" value with
                           | Some unsigned => ("-", unsigned)
                           | None => ("", value)
                           end in
  let '(whole, fraction) := match split_once dot unsigned with
                            | Some (whole, fraction) => (whole, fraction)
                            | None => (unsigned, "")
                            end in
  if negb (all_bytes is_ascii_digit whole) || negb (all_bytes is_ascii_digit fraction)
     || (String.length whole + String.length fraction =? 0)%nat
  then None
  else
    let whole := match trim_zeros whole with EmptyString => "0" | trimmed => trimmed end in
    Some (if String.eqb fraction "" then sign +:+ whole
          else sign +:+ whole +:+ String dot fraction).

(** [DateTime::parse_from_rfc3339] to UTC, and [format] with six fractional
    digits. *)
Class Chrono := {
  instant : Type;
  parse_rfc3339 : string → option instant;
  format_timestamptz : instant → string;
}.

Definition canonical_timestamptz `{Chrono} (value : string) : option string :=
  format_timestamptz <$> parse_rfc3339 value.

(** ** The form of a route *)

Inductive CanonicalSpelling := Numeric | Timestamptz.

Record RouteLineOrder := { lo_path : string; lo_ascending_by : string }.

(** The sets and maps list their paths in order. *)
Record RouteCanonicalization := {
  excluded : list string;
  lines : option RouteLineOrder;
  spelling : list (string * CanonicalSpelling);
}.

(** [if let Some(member) = value.get_mut(name) { f(member) }]. *)
Definition update_map (name : string) (f : Value → Value) : list (string * Value) → list (string * Value) :=
  fix go m := match m with
  | [] => []
  | (k, v) :: m' => if String.eqb name k then (k, f v) :: m' else (k, v) :: go m'
  end.
Definition update_member (name : string) (f : Value → Value) (v : Value) : Value :=
  match v with VObject m => VObject (update_map name f m) | v => v end.

(** [if let Value::Array(elements) = value { for element in elements { f(element) } }]. *)
Definition update_elements (f : Value → Value) (v : Value) : Value :=
  match v with VArray l => VArray (f <$> l) | v => v end.

Section Form.
Context `{Chrono, JsonPrint}.

Definition respelled (spelling : CanonicalSpelling) (text : string) : string :=
  default text (match spelling with
                | Numeric => canonical_numeric text
                | Timestamptz => canonical_timestamptz text
                end).

Fixpoint respell (value : Value) (segments : list string) (spelling : CanonicalSpelling)
    {struct segments} : Value :=
  match segments with
  | [] => match value with VString text => VString (respelled spelling text) | v => v end
  | first :: rest =>
      match strip_suffix "[]" first with
      | Some name => update_member name (update_elements (λ e, respell e rest spelling)) value
      | None => update_member first (λ m, respell m rest spelling) value
      end
  end.

Fixpoint remove (value : Value) (segments : list string) {struct segments} : Value :=
  match segments with
  | [] => value
  | [last] => match value with
              | VObject m => VObject (filter (λ kv, kv.1 ≠ last) m)
              | v => v
              end
  | first :: rest =>
      match strip_suffix "[]" first with
      | Some name => update_member name (update_elements (λ e, remove e rest)) value
      | None => update_member first (λ m, remove m rest) value
      end
  end.

(** The value at a dotted path, rewritten in place. *)
Fixpoint update_path (names : list string) (f : Value → Value) (v : Value) : Value :=
  match names with
  | [] => f v
  | name :: names' => update_member name (update_path names' f) v
  end.

Definition line_key (by_ : string) (line : Value) : string :=
  match get by_ line with Some v => print_json v | None => "" end.
Definition line_leb (by_ : string) (a b : Value) : bool := String.leb (line_key by_ a) (line_key by_ b).

Definition sort_lines (by_ : string) (v : Value) : Value :=
  match v with VArray l => VArray (stable_sort (line_leb by_) l) | v => v end.

Definition order_lines (form : RouteCanonicalization) (v : Value) : Value :=
  match lines form with
  | Some order => update_path (split_char dot (lo_path order)) (sort_lines (lo_ascending_by order)) v
  | None => v
  end.

Definition respell_all (form : RouteCanonicalization) (v : Value) : Value :=
  fold_left (λ v '(path, sp), respell v (split_char dot path) sp) (spelling form) v.

Definition apply (form : RouteCanonicalization) (request_element : Value) : Value :=
  order_lines form (respell_all form request_element).

Definition hashed (form : RouteCanonicalization) (request_element : Value) : Value :=
  fold_left (λ v path, remove v (split_char dot path)) (excluded form) request_element.

End Form.

Example numeric_spellings :
  canonical_numeric <$> ["10"; "0.250"; ".5"; "5."; "01.0"; "-01.50"; ""; "."; "-"; "1e3"; "+1"; "000"] =
  [Some "10"; Some "0.250"; Some "0.5"; Some "5"; Some "1.0"; Some "-1.50"; None; None; None; None; None;
   Some "0"].
Proof. reflexivity. Qed.

(** ** Digit strings and their values *)

Abbreviation is_digits s := (all_bytes is_ascii_digit s = true).
Abbreviation value_of := (digits_value 0).
Abbreviation pow10 s := (10 ^ Z.of_nat (String.length s)).

Lemma is_digit_range a : is_ascii_digit a = true → 0 ≤ digit_value a < 10.
Proof.
  unfold is_ascii_digit, byte_between, digit_value. rewrite andb_true_iff, !N.leb_le. lia.
Qed.

Lemma digit_value_inj a b : is_ascii_digit a = true → is_ascii_digit b = true →
  digit_value a = digit_value b → a = b.
Proof.
  intros Ha%is_digit_range Hb%is_digit_range. unfold digit_value. intros E.
  rewrite <- (Ascii.ascii_N_embedding a), <- (Ascii.ascii_N_embedding b). f_equal. lia.
Qed.

Lemma pow10_cons a s : pow10 (String a s) = 10 * pow10 s.
Proof. cbn [String.length]. rewrite Nat2Z.inj_succ, Z.pow_succ_r; lia. Qed.

Lemma pow10_pos s : 0 < pow10 s.
Proof. apply Z.pow_pos_nonneg; lia. Qed.

Lemma digits_value_acc acc s : digits_value acc s = acc * pow10 s + value_of s.
Proof.
  revert acc. induction s as [|a s IH]; intros acc.
  - simpl. change (10 ^ Z.of_nat 0) with 1. lia.
  - rewrite pow10_cons. cbn [digits_value]. rewrite (IH (acc * 10 + _)), (IH (0 * 10 + _)). lia.
Qed.

Lemma value_cons a s : value_of (String a s) = digit_value a * pow10 s + value_of s.
Proof. cbn [digits_value]. by rewrite digits_value_acc. Qed.

Lemma digits_value_app acc s t : digits_value acc (s +:+ t) = digits_value (digits_value acc s) t.
Proof. revert acc. induction s as [|a s IH]; intros acc; [done|]. apply IH. Qed.

Lemma value_range s : is_digits s → 0 ≤ value_of s < pow10 s.
Proof.
  induction s as [|a s IH]; [done|]. cbn [all_bytes]. intros [Ha Hs]%andb_prop.
  apply is_digit_range in Ha. specialize (IH Hs). rewrite pow10_cons, value_cons. nia.
Qed.

(** Digits of one length are their value. *)
Lemma value_inj s t :
  is_digits s → is_digits t → String.length s = String.length t → value_of s = value_of t → s = t.
Proof.
  revert t. induction s as [|a s IH]; intros [|b t]; try done.
  cbn [all_bytes]. intros [Ha Hs]%andb_prop [Hb Ht]%andb_prop [= El].
  rewrite !value_cons, El. intros E.
  pose proof (value_range s Hs). pose proof (value_range t Ht). rewrite El in *.
  assert (Ed : digit_value a = digit_value b) by nia. rewrite Ed in E.
  apply digit_value_inj in Ed as ->; [|done..].
  f_equal. apply IH; [done..|lia].
Qed.

(** Digits cut at one place. *)
Lemma value_app_inj w f w' f' :
  is_digits f → is_digits f' → String.length f = String.length f' →
  value_of (w +:+ f) = value_of (w' +:+ f') ↔ value_of w = value_of w' ∧ f = f'.
Proof.
  intros Hf Hf' El. rewrite !digits_value_app, (digits_value_acc _ f), (digits_value_acc _ f').
  pose proof (value_range f Hf). pose proof (value_range f' Hf'). rewrite El in *. split.
  - intros E. assert (value_of w = value_of w') by nia. split; [done|]. apply value_inj; [done..|nia].
  - by intros [-> ->].
Qed.

Definition leading_trimmed (s : string) : Prop :=
  match s with EmptyString => True | String a _ => 1 ≤ digit_value a end.

Lemma trim_zeros_spec s : is_digits s →
  is_digits (trim_zeros s) ∧ value_of (trim_zeros s) = value_of s ∧ leading_trimmed (trim_zeros s).
Proof.
  induction s as [|a s IH]; [done|]. cbn [all_bytes trim_zeros]. intros [Ha Hs]%andb_prop.
  destruct (Ascii.eqb_spec a zero_char) as [->|Hne]; [by apply IH|].
  cbn [all_bytes]. rewrite Ha, Hs. split; [done|]. split; [done|]. simpl.
  pose proof (is_digit_range a Ha). destruct (Z.eq_dec (digit_value a) 0) as [E|]; [|lia].
  destruct Hne. by apply digit_value_inj.
Qed.

(** A trimmed text is its value. *)
Lemma trimmed_inj s t :
  is_digits s → is_digits t → leading_trimmed s → leading_trimmed t → value_of s = value_of t → s = t.
Proof.
  assert (Hlt : ∀ a s t, is_digits (String a s) → is_digits t → 1 ≤ digit_value a →
    (String.length t ≤ String.length s)%nat → value_of t < value_of (String a s)).
  { intros a u v Hu Hv Ha Hl. cbn [all_bytes] in Hu. apply andb_prop in Hu as [_ Hu].
    pose proof (value_range u Hu). pose proof (value_range v Hv). rewrite value_cons.
    assert (pow10 v ≤ pow10 u) by (apply Z.pow_le_mono_r; lia). nia. }
  intros Hs Ht Hls Hlt' E. destruct (Nat.lt_trichotomy (String.length s) (String.length t)) as [Hl|[Hl|Hl]].
  - destruct t as [|b t]; [simpl in Hl; lia|]. specialize (Hlt b t s Ht Hs Hlt'). simpl in Hl. lia.
  - by apply value_inj.
  - destruct s as [|a s]; [simpl in Hl; lia|]. specialize (Hlt a s t Hs Ht Hls). simpl in Hl. lia.
Qed.

Definition whole_part (w : string) : string :=
  match trim_zeros w with EmptyString => "0" | t => t end.

Lemma whole_part_inj w w' : is_digits w → is_digits w' →
  whole_part w = whole_part w' ↔ value_of w = value_of w'.
Proof.
  intros Hw Hw'. destruct (trim_zeros_spec w Hw) as (D & V & L), (trim_zeros_spec w' Hw') as (D' & V' & L').
  unfold whole_part. split.
  - destruct (trim_zeros w) as [|a t], (trim_zeros w') as [|a' t']; intros E.
    + by rewrite <- V, <- V'.
    + injection E as <- <-. by vm_compute in L'.
    + injection E as -> ->. by vm_compute in L.
    + by rewrite <- V, <- V', E.
  - intros E. assert (trim_zeros w = trim_zeros w') as ->; [|done].
    apply trimmed_inj; [done..|]. by rewrite V, V'.
Qed.

(** ** What a decimal text denotes *)

Definition sign_text (negative : bool) : string := if negative then "-" else "".

(** A plain decimal: a sign, digits, and digits after an optional point; [n] is
    the integer all its digits spell and [scale] the digits after the point. *)
Inductive denotes : string → bool → Z → nat → Prop :=
| denotes_whole neg w : is_digits w → w ≠ "" →
    denotes (sign_text neg +:+ w) neg (value_of w) 0
| denotes_point neg w f : is_digits w → is_digits f → w +:+ f ≠ "" →
    denotes (sign_text neg +:+ w +:+ String dot f) neg (value_of (w +:+ f)) (String.length f).

Definition canonical_decimal (neg : bool) (w f : string) : string :=
  sign_text neg +:+ whole_part w +:+ (if String.eqb f "" then "" else String dot f).

Lemma digits_no_dot w : is_digits w → has_char dot w = false.
Proof. intros Hw. by eapply all_bytes_no_char. Qed.

Lemma digits_no_sign w : is_digits w → strip_prefix "-" w = None.
Proof.
  destruct w as [|a w]; [done|]. cbn [all_bytes]. intros [Ha _]%andb_prop.
  apply digit_not_sign in Ha as [Ha _]. cbn [strip_prefix]. rewrite Ascii.eqb_sym.
  unfold hyphen in Ha. vm_compute (Ascii.ascii_of_N 45) in Ha. by rewrite Ha.
Qed.

Lemma digits_app_no_sign w u : is_digits w → strip_prefix "-" u = None → strip_prefix "-" (w +:+ u) = None.
Proof.
  destruct w as [|a w]; [done|]. intros E%digits_no_sign _. cbn [strip_prefix] in *.
  change (String a w +:+ u) with (String a (w +:+ u)). cbn iota. by case_match.
Qed.

Lemma strip_sign neg u : strip_prefix "-" u = None →
  match strip_prefix "-" (sign_text neg +:+ u) with
  | Some unsigned => ("-", unsigned)
  | None => ("", sign_text neg +:+ u)
  end = (sign_text neg, u).
Proof. intros Hu. destruct neg; [done|]. change (sign_text false +:+ u) with u. by rewrite Hu. Qed.

Lemma length_zero s t : (String.length s + String.length t =? 0)%nat = String.eqb (s +:+ t) "".
Proof. by destruct s, t. Qed.

Lemma canonical_numeric_parts neg w f u :
  is_digits w → is_digits f → w +:+ f ≠ "" →
  (u = w +:+ String dot f ∨ f = "" ∧ u = w) →
  canonical_numeric (sign_text neg +:+ u) = Some (canonical_decimal neg w f).
Proof.
  intros Hw Hf Hne Hu. unfold canonical_numeric.
  assert (Hsign : strip_prefix "-" u = None).
  { destruct Hu as [->|[_ ->]]; [by apply digits_app_no_sign|by apply digits_no_sign]. }
  rewrite strip_sign by done.
  assert (split_once dot u = Some (w, f) ∨ f = "" ∧ split_once dot u = None ∧ u = w) as Hsp.
  { destruct Hu as [->|[-> ->]]; [left; apply split_once_app; by apply digits_no_dot|].
    right. split; [done|]. split; [|done]. by apply split_once_none, digits_no_dot. }
  replace (match split_once dot u with Some (a, b) => (a, b) | None => (u, "") end) with (w, f)
    by (destruct Hsp as [->|(-> & -> & ->)]; done).
  rewrite Hw, Hf, length_zero. apply String.eqb_neq in Hne. rewrite Hne. simpl.
  unfold canonical_decimal, whole_part. destruct (String.eqb f ""); [|done].
  by rewrite string_app_nil.
Qed.

Lemma sign_text_inj neg u neg' u' :
  strip_prefix "-" u = None → strip_prefix "-" u' = None →
  sign_text neg +:+ u = sign_text neg' +:+ u' → neg = neg' ∧ u = u'.
Proof.
  intros Hu Hu' E. pose proof (strip_sign neg u Hu) as Es. pose proof (strip_sign neg' u' Hu') as Es'.
  rewrite E in Es. rewrite Es' in Es. destruct neg, neg'; by inversion Es.
Qed.

Lemma whole_part_digits w : is_digits w → is_digits (whole_part w) ∧ whole_part w ≠ "" ∧ value_of (whole_part w) = value_of w.
Proof.
  intros Hw. destruct (trim_zeros_spec w Hw) as (D & V & _). unfold whole_part.
  by destruct (trim_zeros w).
Qed.

(** Canonical texts that agree agree on their parts. *)
Lemma canonical_decimal_inj neg w f neg' w' f' :
  is_digits w → is_digits f → is_digits w' → is_digits f' →
  canonical_decimal neg w f = canonical_decimal neg' w' f' ↔
  neg = neg' ∧ value_of w = value_of w' ∧ f = f'.
Proof.
  intros Hw Hf Hw' Hf'. split.
  2:{ intros (-> & E%whole_part_inj & ->); [|done..]. unfold canonical_decimal. by rewrite E. }
  destruct (whole_part_digits w Hw) as (D & _ & V), (whole_part_digits w' Hw') as (D' & _ & V').
  assert (Hns : ∀ x y, is_digits x → strip_prefix "-" (x +:+ (if String.eqb y "" then "" else String dot y)) = None).
  { intros x y Hx. apply digits_app_no_sign; [done|]. by destruct (String.eqb y ""). }
  unfold canonical_decimal. intros [-> E]%sign_text_inj; [|by apply Hns..]. split; [done|].
  rewrite <- V, <- V'.
  destruct (String.eqb_spec f "") as [->|Hne], (String.eqb_spec f' "") as [->|Hne'].
  - rewrite !string_app_nil in E. by rewrite E.
  - rewrite string_app_nil in E. apply digits_no_dot in D. rewrite E, has_char_app in D.
    apply orb_false_iff in D as [_ D]. by vm_compute in D.
  - rewrite string_app_nil in E. apply digits_no_dot in D'. rewrite <- E, has_char_app in D'.
    apply orb_false_iff in D' as [_ D']. by vm_compute in D'.
  - apply (f_equal (split_once dot)) in E. rewrite !split_once_app in E by (by apply digits_no_dot).
    by injection E as -> ->.
Qed.

(** A text the code accepts is a plain decimal. *)
Lemma canonical_numeric_inv s c : canonical_numeric s = Some c →
  ∃ neg w f u, s = sign_text neg +:+ u ∧ is_digits w ∧ is_digits f ∧ w +:+ f ≠ "" ∧
    (u = w +:+ String dot f ∨ f = "" ∧ u = w).
Proof.
  unfold canonical_numeric. intros E.
  assert (∃ neg u, s = sign_text neg +:+ u ∧
    match strip_prefix "-" s with Some u => ("-", u) | None => ("", s) end = (sign_text neg, u))
    as (neg & u & -> & Es).
  { destruct (strip_prefix "-" s) as [u|] eqn:Hs; [exists true, u|by exists false, s].
    apply strip_prefix_inv in Hs as ->. done. }
  rewrite Es in E.
  destruct (split_once dot u) as [[w f]|] eqn:Hu;
    [apply split_once_inv in Hu as [-> _]; exists neg, w, f|exists neg, u, ""];
    (eexists; split; [done|]; cbv beta iota zeta in E;
     destruct (negb _ || negb _ || _) eqn:Hc in E; [done|]; clear E;
     apply orb_false_iff in Hc as [[Hw Hf]%orb_false_iff Hl];
     apply negb_false_iff in Hw, Hf; rewrite length_zero in Hl; apply String.eqb_neq in Hl; eauto 6).
Qed.

Lemma denotes_parts s neg n k : denotes s neg n k ↔
  ∃ w f u, s = sign_text neg +:+ u ∧ is_digits w ∧ is_digits f ∧ w +:+ f ≠ "" ∧
    (u = w +:+ String dot f ∨ f = "" ∧ u = w) ∧ n = value_of (w +:+ f) ∧ k = String.length f.
Proof.
  split.
  - destruct 1 as [neg w Hw Hne|neg w f Hw Hf Hne]; [exists w, "", w|exists w, f; eexists; eauto 9].
    rewrite string_app_nil. eauto 9.
  - intros (w & f & u & -> & Hw & Hf & Hne & [->|[-> ->]] & -> & ->); [by apply denotes_point|].
    rewrite string_app_nil in *. by apply denotes_whole.
Qed.

Lemma denotes_canonical s neg n k : denotes s neg n k →
  ∃ w f, is_digits w ∧ is_digits f ∧ n = value_of (w +:+ f) ∧ k = String.length f ∧
    canonical_numeric s = Some (canonical_decimal neg w f).
Proof.
  intros (w & f & u & -> & Hw & Hf & Hne & Hu & -> & ->)%denotes_parts. exists w, f.
  do 4 (split; [done|]). by apply canonical_numeric_parts.
Qed.

Lemma canonical_decimal_denotes neg w f : is_digits w → is_digits f →
  denotes (canonical_decimal neg w f) neg (value_of (w +:+ f)) (String.length f).
Proof.
  intros Hw Hf. destruct (whole_part_digits w Hw) as (D & Hne & V).
  assert (value_of (w +:+ f) = value_of (whole_part w +:+ f)) as ->.
  { by rewrite !digits_value_app, V. }
  apply denotes_parts. exists (whole_part w), f. eexists. split; [done|]. do 2 (split; [done|]).
  split; [by destruct (whole_part w)|]. split; [|done].
  destruct (String.eqb_spec f "") as [->|]; [right|left]; rewrite ?string_app_nil; done.
Qed.

(** The canonical spelling of a text, by what the text denotes. *)
Lemma same_spelling s t neg n k neg' n' k' :
  denotes s neg n k → denotes t neg' n' k' →
  canonical_numeric s = canonical_numeric t ↔ neg = neg' ∧ n = n' ∧ k = k'.
Proof.
  intros (w & f & Hw & Hf & -> & -> & ->)%denotes_canonical
    (w' & f' & Hw' & Hf' & -> & -> & ->)%denotes_canonical.
  split.
  - intros [= (-> & V & ->)%canonical_decimal_inj]; [|done..].
    split; [done|]. split; [|done]. by rewrite !digits_value_app, V.
  - intros (-> & Hv & Hl). apply value_app_inj in Hv as [V ->]; [|done..].
    f_equal. by apply canonical_decimal_inj.
Qed.

Lemma denotes_unique s neg n k neg' n' k' :
  denotes s neg n k → denotes s neg' n' k' → neg = neg' ∧ n = n' ∧ k = k'.
Proof. intros H1 H2. by apply (same_spelling s s _ _ _ _ _ _ H1 H2). Qed.

(** A decimal's canonical spelling is its sign, its value and its scale.  The
    code respells exactly the plain decimals; two of them get one spelling just
    when they have the same sign, the same digits as an integer and the same number
    of digits after the point; and the spelling denotes what the text denoted and
    is its own canonical spelling. *)
Theorem canonical_numeric_exact (s : string) :
  (is_Some (canonical_numeric s) ↔ ∃ neg n k, denotes s neg n k) ∧
  (∀ t, is_Some (canonical_numeric s) → is_Some (canonical_numeric t) →
     canonical_numeric s = canonical_numeric t ↔ ∃ neg n k, denotes s neg n k ∧ denotes t neg n k) ∧
  (∀ c, canonical_numeric s = Some c →
     canonical_numeric c = Some c ∧ ∀ neg n k, denotes c neg n k ↔ denotes s neg n k).
Proof.
  assert (Hok : ∀ t, is_Some (canonical_numeric t) ↔ ∃ neg n k, denotes t neg n k).
  { intros t. split.
    - intros [c (neg & w & f & u & -> & Hw & Hf & Hne & Hu)%canonical_numeric_inv].
      exists neg, (value_of (w +:+ f)), (String.length f). apply denotes_parts. eauto 12.
    - intros (neg & n & k & (w & f & _ & _ & _ & _ & ->)%denotes_canonical). eauto. }
  split; [done|]. split.
  - intros t (neg & n & k & Hs)%Hok (neg' & n' & k' & Ht)%Hok.
    rewrite (same_spelling _ _ _ _ _ _ _ _ Hs Ht). split; [intros (-> & -> & ->); eauto|].
    intros (neg1 & n1 & k1 & Hs1 & Ht1).
    pose proof (denotes_unique _ _ _ _ _ _ _ Hs Hs1). pose proof (denotes_unique _ _ _ _ _ _ _ Ht Ht1).
    naive_solver.
  - intros c Hc. destruct (proj1 (Hok s) (ex_intro _ c Hc)) as (neg & n & k & Hs).
    pose proof (denotes_canonical _ _ _ _ Hs) as (w & f & Hw & Hf & -> & -> & Ec).
    rewrite Hc in Ec. injection Ec as ->. pose proof (canonical_decimal_denotes neg w f Hw Hf) as Hd.
    assert (Hcc : canonical_numeric s = canonical_numeric (canonical_decimal neg w f)).
    { by apply (same_spelling _ _ _ _ _ _ _ _ Hs Hd). }
    split; [by rewrite <- Hcc, Hc|]. intros neg1 n1 k1. split; intros H1;
      [pose proof (denotes_unique _ _ _ _ _ _ _ Hd H1)|pose proof (denotes_unique _ _ _ _ _ _ _ Hs H1)];
      naive_solver.
Qed.

(** ** Paths

    A segment names a member, or with [[]] each element of one. *)

Definition segment (s : string) : string * bool :=
  match strip_suffix "[]" s with Some name => (name, true) | None => (s, false) end.

Lemma substring_join n m s : String.substring 0 n s +:+ String.substring n m s = String.substring 0 (n + m) s.
Proof.
  revert n. induction s as [|a s IH]; intros [|n]; simpl; try done.
  exact (f_equal (String a) (IH n)).
Qed.


Lemma strip_suffix_inv p s r : strip_suffix p s = Some r → s = r +:+ p.
Proof.
  unfold strip_suffix, ends_with. case_match eqn:E; [|done]. intros [= <-].
  apply andb_prop in E as [Hl He]. apply Nat.leb_le in Hl. apply String.eqb_eq in He.
  set (n := (String.length s - String.length p)%nat) in *. transitivity (String.substring 0 (n + String.length p) s).
  - replace (n + _)%nat with (String.length s) by lia. by rewrite substring_all.
  - by rewrite <- substring_join, He.
Qed.

Lemma segment_inj a b : segment a = segment b → a = b.
Proof.
  unfold segment. destruct (strip_suffix "[]" a) eqn:Ea, (strip_suffix "[]" b) eqn:Eb; intros [= ->]; try done.
  apply strip_suffix_inv in Ea, Eb. congruence.
Qed.

Lemma map_get_update name name' f m :
  map_get name' (update_map name f m) =
  if String.eqb name' name then f <$> map_get name' m else map_get name' m.
Proof.
  induction m as [|[k v] m IH]; simpl; [by destruct (String.eqb name' name)|].
  destruct (String.eqb_spec name k) as [->|Hne]; simpl.
  - destruct (String.eqb_spec name' k); [done|done].
  - rewrite IH. destruct (String.eqb_spec name' k) as [->|]; [|done].
    by destruct (String.eqb_spec k name) as [->|].
Qed.

Lemma update_map_fixed name f m :
  update_map name f m = m ↔ ∀ x, map_get name m = Some x → f x = x.
Proof.
  induction m as [|[k v] m IH]; simpl; [done|]. destruct (String.eqb name k).
  - split; [by intros [= E] x [= <-]|]. intros Hf. by rewrite Hf.
  - rewrite <- IH. split; [by intros [= E]|by intros ->].
Qed.

Lemma impl_iff (P Q R : Prop) : (P → (Q ↔ R)) → (P → Q) ↔ (P → R).
Proof. tauto. Qed.

Lemma fmap_fixed {A} (f : A → A) l : f <$> l = l ↔ Forall (λ x, f x = x) l.
Proof.
  induction l as [|x l IH]; [done|]. rewrite fmap_cons, Forall_cons, <- IH.
  split; [by intros [= E1 E2]|by intros [-> ->]].
Qed.

(** What [chrono] documents: the text it formats, when it parses it, is the same
    instant to the microsecond. *)
Class ChronoLaw `{Chrono} :=
  format_parse : ∀ t t', parse_rfc3339 (format_timestamptz t) = Some t' →
    format_timestamptz t' = format_timestamptz t.

Section FormLaws.
Context `{ChronoLaw, JsonPrint}.

Lemma respelled_idemp sp t : respelled sp (respelled sp t) = respelled sp t.
Proof.
  unfold respelled. destruct sp.
  - destruct (canonical_numeric t) as [c|] eqn:E; simpl; [|by rewrite E].
    destruct (canonical_numeric_inv _ _ E) as (neg & w & f & u & -> & Hw & Hf & Hne & Hu).
    rewrite (canonical_numeric_parts neg w f u) in E by done. injection E as <-.
    pose proof (canonical_decimal_denotes neg w f Hw Hf) as Hd.
    destruct (denotes_canonical _ _ _ _ Hd) as (w' & f' & Hw' & Hf' & Hv & Hl & ->). simpl.
    apply value_app_inj in Hv as [V ->]; [|done..]. symmetry. by apply canonical_decimal_inj.
  - unfold canonical_timestamptz. destruct (parse_rfc3339 t) as [i|] eqn:E; simpl; [|by rewrite E].
    destruct (parse_rfc3339 (format_timestamptz i)) as [i'|] eqn:E'; simpl; [|done].
    by apply format_parse.
Qed.

Lemma respell_cons v a rest sp :
  respell v (a :: rest) sp =
  update_member (segment a).1
    ((if (segment a).2 then update_elements else id) (λ m, respell m rest sp)) v.
Proof.
  cbn [respell]. unfold segment. by destruct (strip_suffix "[]" a).
Qed.

(** The leaves at a path have their canonical spelling. *)
Fixpoint spelled (p : list string) (sp : CanonicalSpelling) (v : Value) : Prop :=
  match p with
  | [] => match v with VString t => respelled sp t = t | _ => True end
  | a :: p' =>
      match v with
      | VObject m => ∀ x, map_get (segment a).1 m = Some x →
          if (segment a).2 then match x with VArray l => Forall (spelled p' sp) l | _ => True end
          else spelled p' sp x
      | _ => True
      end
  end.

Lemma spelled_fixed p sp v : spelled p sp v ↔ respell v p sp = v.
Proof.
  revert v. induction p as [|a p IH]; intros v.
  - destruct v; simpl; try done. split; [by intros ->|by intros [= E]].
  - rewrite respell_cons. destruct v as [| | | | |m]; try done. cbn [spelled update_member].
    transitivity (update_map (segment a).1
      ((if (segment a).2 then update_elements else id) (λ x, respell x p sp)) m = m);
      [|split; [by intros ->|by intros [= E]]].
    rewrite update_map_fixed. apply forall_proper. intros x. apply impl_iff. intros _.
    destruct (segment a).2; [|apply IH]. destruct x as [| | | |l|]; try done. simpl.
    transitivity ((λ e, respell e p sp) <$> l = l); [|split; [by intros ->|by intros [= E]]].
    rewrite fmap_fixed, !Forall_forall. by setoid_rewrite IH.
Qed.

(** A rewrite that leaves arrays alone and makes none. *)
Lemma respell_array v p sp l : respell v p sp = VArray l → v = VArray l.
Proof. destruct p as [|a p]; [by destruct v|]. rewrite respell_cons. by destruct v. Qed.

Lemma respell_spelled p sp v : spelled p sp (respell v p sp).
Proof.
  revert v. induction p as [|a p IH]; intros v; [destruct v; try done; apply respelled_idemp|].
  rewrite respell_cons. destruct v as [| | | | |m]; try done. cbn [spelled update_member].
  intros x. rewrite map_get_update, String.eqb_refl. intros (y & _ & ->)%fmap_Some.
  destruct (segment a).2; [|apply IH]. destruct y as [| | | |l|]; try done. simpl.
  apply Forall_fmap, Forall_true. simpl. intros. apply IH.
Qed.

(** Other paths name other leaves. *)
Lemma respell_keeps p sp q sq v : p ≠ q → spelled p sp v → spelled p sp (respell v q sq).
Proof.
  revert q v. induction p as [|a p IH]; intros [|b q] v Hne Hs; try done.
  - rewrite respell_cons. by destruct v.
  - by destruct v.
  - rewrite respell_cons. destruct v as [| | | | |m]; try done. cbn [spelled update_member] in *.
    intros x. rewrite map_get_update. destruct (String.eqb_spec (segment a).1 (segment b).1) as [E|]; [|by apply Hs].
    intros (y & Hy & ->)%fmap_Some. specialize (Hs y Hy).
    destruct (segment a).2 eqn:Sa, (segment b).2 eqn:Sb; cbn [id].
    + destruct y as [| | | |l|]; try done. simpl. apply Forall_fmap. eapply Forall_impl; [exact Hs|].
      intros e. apply IH. intros ->. apply Hne. f_equal. apply segment_inj.
      destruct (segment a), (segment b); simpl in *; congruence.
    + destruct (respell y q sq) as [| | | |l|] eqn:Er; try done. by apply respell_array in Er as ->.
    + destruct y as [| | | |l|]; try done. by destruct p.
    + apply IH; [|done]. intros ->. apply Hne. f_equal. apply segment_inj.
      destruct (segment a), (segment b); simpl in *; congruence.
Qed.

Lemma update_path_array n names f v l : update_path (n :: names) f v = VArray l → v = VArray l.
Proof. by destruct v. Qed.

(** Ordering lines keeps every leaf's spelling. *)
Lemma sort_keeps p sp names by_ v :
  spelled p sp v → spelled p sp (update_path names (sort_lines by_) v).
Proof.
  revert names v. induction p as [|a p IH]; intros names v Hs.
  - destruct names; by destruct v.
  - destruct names as [|n names]; [by destruct v|]. destruct v as [| | | | |m]; try done.
    cbn [spelled update_path update_member] in *. intros x. rewrite map_get_update.
    destruct (String.eqb_spec (segment a).1 n) as [E|]; [|by apply Hs].
    intros (y & Hy & ->)%fmap_Some. specialize (Hs y Hy).
    destruct (segment a).2; [|by apply IH].
    destruct names as [|n' names].
    + destruct y as [| | | |l|]; try done. simpl. by rewrite stable_sort_perm.
    + destruct (update_path (n' :: names) (sort_lines by_) y) as [| | | |l|] eqn:Er; try done.
      by apply update_path_array in Er as ->.
Qed.

Lemma line_leb_laws by_ :
  (∀ x y, line_leb by_ x y = true ∨ line_leb by_ y x = true) ∧
  (∀ x y z, line_leb by_ x y = true → line_leb by_ y z = true → line_leb by_ x z = true).
Proof. split; intros; [apply String.leb_total|by eapply string_leb_trans]. Qed.

Lemma update_path_idemp names f v : (∀ x, f (f x) = f x) →
  update_path names f (update_path names f v) = update_path names f v.
Proof.
  intros Hf. revert v. induction names as [|n names IH]; intros v; [apply Hf|]. destruct v as [| | | | |m]; try done.
  simpl. f_equal. apply update_map_fixed. intros x. rewrite map_get_update, String.eqb_refl.
  intros (y & _ & ->)%fmap_Some. apply IH.
Qed.

Lemma order_lines_idemp form v : order_lines form (order_lines form v) = order_lines form v.
Proof.
  unfold order_lines. destruct (lines form) as [o|]; [|done]. apply update_path_idemp. intros x.
  destruct x as [| | | |l|]; try done. simpl. destruct (line_leb_laws (lo_ascending_by o)). f_equal.
  by apply stable_sort_id, stable_sort_sorted.
Qed.

Definition all_spelled (l : list (string * CanonicalSpelling)) (v : Value) : Prop :=
  Forall (λ ps, spelled (split_char dot ps.1) ps.2 v) l.

Lemma all_spelled_id l v :
  all_spelled l v → fold_left (λ v '(path, sp), respell v (split_char dot path) sp) l v = v.
Proof.
  induction 1 as [|[path sp] l Hp Hl IH]; [done|]. simpl in *. apply spelled_fixed in Hp. by rewrite Hp.
Qed.

Lemma respell_all_spelled done_ l v :
  NoDup (done_ ++ l).*1 → all_spelled done_ v →
  all_spelled (done_ ++ l) (fold_left (λ v '(path, sp), respell v (split_char dot path) sp) l v).
Proof.
  revert done_ v. induction l as [|[path sp] l IH]; intros done_ v Hnd Hd; [by rewrite app_nil_r|].
  simpl. rewrite cons_middle, (assoc_L app) in *. apply IH; [done|].
  apply Forall_app. split; [|by repeat constructor; apply respell_spelled].
  rewrite !fmap_app in Hnd. apply NoDup_app in Hnd as [Hnd _]. apply NoDup_app in Hnd as (_ & Hdis & _).
  apply Forall_forall. intros [p s] Hin. eapply Forall_forall in Hd; [|exact Hin]. apply respell_keeps; [|done].
  simpl. intros E. apply (f_equal (join_char dot)) in E. rewrite !join_split in E. subst path.
  apply (Hdis p); [by apply (list_elem_of_fmap_2 fst _ (p, s))|]. left.
Qed.

Lemma apply_idemp form v : NoDup (spelling form).*1 → apply form (apply form v) = apply form v.
Proof.
  intros Hnd. pose proof (respell_all_spelled [] (spelling form) v Hnd ltac:(constructor)) as Hall.
  unfold apply at 1. unfold respell_all. rewrite all_spelled_id; [apply order_lines_idemp|].
  eapply Forall_impl; [exact Hall|]. intros [p s] Hp. simpl in *. unfold apply, order_lines.
  destruct (lines form); [by apply sort_keeps|done].
Qed.

(** Requests whose leaves spell alike and whose lines, each under a key of its
    own, come in another order. *)
Fixpoint reordered (names : list string) (by_ : string) (v v' : Value) : Prop :=
  match names with
  | [] => ∃ l l', v = VArray l ∧ v' = VArray l' ∧ l ≡ₚ l' ∧ NoDup (line_key by_ <$> l)
  | n :: names' => ∃ m x x', v = VObject m ∧ map_get n m = Some x ∧
      v' = VObject (update_map n (λ _, x') m) ∧ reordered names' by_ x x'
  end.

Lemma sort_lines_perm by_ l l' : l ≡ₚ l' → NoDup (line_key by_ <$> l) →
  stable_sort (line_leb by_) l = stable_sort (line_leb by_) l'.
Proof.
  intros Hp Hnd. destruct (line_leb_laws by_) as [Htot Htr].
  assert (Hanti : ∀ x y, x ∈ l → y ∈ l → line_leb by_ x y = true → line_leb by_ y x = true → x = y).
  { intros x y Hx Hy H1' H2. eapply (NoDup_fmap_inj_on (line_key by_)); [done..|].
    by apply String.leb_antisym. }
  assert (Hs := stable_sort_sorted _ Htot Htr l). assert (Hs' := stable_sort_sorted _ Htot Htr l').
  assert (Hp' : stable_sort (line_leb by_) l ≡ₚ stable_sort (line_leb by_) l') by by rewrite !stable_sort_perm.
  assert (Hin : ∀ x, x ∈ stable_sort (line_leb by_) l → x ∈ l) by (intros x; by rewrite elem_of_stable_sort).
  revert Hs Hs' Hp' Hin. generalize (stable_sort (line_leb by_) l), (stable_sort (line_leb by_) l').
  clear Hp Hnd. intros s s' Hs. revert s'.
  induction Hs as [|x s Hs IH Hx]; intros s' Hs' Hp Hin; [by apply Permutation_nil_l in Hp|].
  destruct Hs' as [|y s' Hs' Hy]; [by apply Permutation_nil_r in Hp|].
  assert (x = y) as ->.
  { assert (Hxy : x ∈ y :: s') by (rewrite <- Hp; left). assert (Hyx : y ∈ x :: s) by (rewrite Hp; left).
    apply elem_of_cons in Hxy as [|Hxy]; [done|]. pose proof Hyx as Hyx'.
    apply elem_of_cons in Hyx as [|Hyx]; [done|]. rewrite Forall_forall in Hx, Hy. apply Hanti; auto.
    apply Hin. left. }
  f_equal. apply IH; [done|by apply Permutation_cons_inv in Hp|]. intros z Hz. apply Hin. by right.
Qed.

Lemma update_map_compose n f x' m :
  update_map n f (update_map n (λ _, x') m) = update_map n (λ _, f x') m.
Proof.
  induction m as [|[k v] m IH]; [done|]. simpl.
  destruct (String.eqb n k) eqn:E; simpl; rewrite E; [done|]. by rewrite IH.
Qed.

Lemma update_map_ext n f y m : map_get n m = Some y → update_map n f m = update_map n (λ _, f y) m.
Proof.
  intros Hy. induction m as [|[k v] m IH]; [done|]. simpl in *.
  destruct (String.eqb n k); [by injection Hy as ->|]. by rewrite IH.
Qed.

Lemma reordered_same names by_ v v' :
  reordered names by_ v v' → update_path names (sort_lines by_) v = update_path names (sort_lines by_) v'.
Proof.
  revert v v'. induction names as [|n names IH]; intros v v'; simpl.
  - intros (l & l' & -> & -> & Hp & Hnd). simpl. f_equal. by apply sort_lines_perm.
  - intros (m & x & x' & -> & Hx & -> & Hr). simpl. f_equal. rewrite update_map_compose.
    rewrite <- (IH _ _ Hr). by apply update_map_ext.
Qed.

End FormLaws.

(** The spellings of one request have one canonical form.  Applying a route's
    form twice is applying it once; and requests whose declared leaves have the same
    canonical spelling and whose declared lines, under distinct keys, come in any
    order have the same form, so the same hash. *)
Theorem canonical_form_one_request `{ChronoLaw, JsonPrint} (form : RouteCanonicalization) (v v' : Value) :
  NoDup (spelling form).*1 →
  apply form (apply form v) = apply form v ∧
  (∀ order, lines form = Some order →
     reordered (split_char dot (lo_path order)) (lo_ascending_by order)
       (respell_all form v) (respell_all form v') →
     apply form v = apply form v' ∧ hashed form (apply form v) = hashed form (apply form v')).
Proof.
  intros Hnd. split; [by apply apply_idemp|]. intros order Ho Hr.
  assert (apply form v = apply form v') as ->; [|done].
  unfold apply, order_lines. rewrite Ho. by apply reordered_same.
Qed.

Module FormSample.

(** A clock whose only text is its own canonical one. *)
#[local] Instance clock : Chrono := {|
  instant := unit;
  parse_rfc3339 s := if String.eqb s "2026-09-29T12:00:00Z" then Some tt else None;
  format_timestamptz _ := "2026-09-29T12:00:00.000000Z";
|}.
#[local] Instance clock_law : ChronoLaw.
Proof. by intros [] []. Qed.
#[local] Instance text : JsonPrint := λ v, default "" (as_str v).

(** The canonical form of a command with lines. *)
Definition record_batch : RouteCanonicalization := {|
  excluded := ["value.note"];
  lines := Some {| lo_path := "value.line"; lo_ascending_by := "widget_id" |};
  spelling := [("value.line[].amount", Numeric); ("value.occurred_at", Timestamptz)];
|}.

Definition line (id amount : string) : Value := VObject [("amount", VString amount); ("widget_id", VString id)].
Definition request (note : string) (l : list Value) : Value :=
  VObject [("value", VObject [("line", VArray l); ("note", VString note);
    ("occurred_at", VString "2026-09-29T12:00:00Z")])].
Definition sent : Value := request "first" [line "b" "2"; line "a" "1.50"].
Definition resent : Value := request "first" [line "a" "01.50"; line "b" "2."].

Lemma canonical_form_one_request_witness :
  sent ≠ resent ∧ apply record_batch sent = apply record_batch resent ∧
  apply record_batch sent =
    VObject [("value", VObject [("line", VArray [line "a" "1.50"; line "b" "2"]); ("note", VString "first");
      ("occurred_at", VString "2026-09-29T12:00:00.000000Z")])].
Proof.
  split; [discriminate|]. split; [|reflexivity].
  refine (proj1 (proj2 (canonical_form_one_request record_batch sent resent _) _ eq_refl _)).
  { apply (bool_decide_unpack _). vm_compute. exact I. }
  simpl. do 3 eexists. do 3 (split; [reflexivity|]). simpl. do 3 eexists. do 3 (split; [reflexivity|]).
  do 2 eexists. do 2 (split; [reflexivity|]). split; [apply Permutation_swap|].
  apply (bool_decide_unpack _). vm_compute. exact I.
Defined.

End FormSample.
