(* ===== verification/Router.v ===== *)
(** * The router's vocabulary and the compiled wiring

    [crates/execution/workflow/router/src]: [outcome.rs] (what a node invocation
    returned), [terminal.rs] (what a delivery ended up doing), [retry.rs] (retry
    policy and backoff) and [wiring.rs] (the compiled graph).  The walk over it
    is in [Walk]. *)

From stdpp Require Import base tactics option list gmap strings sorting pretty.
From Stdlib Require Import ZArith Lia.
From Corelib Require Import SpecFloat.
From S2P Require Import Prelude Json.

#[local] Set Warnings "-clear-no-such-hyp".

(** ** [outcome.rs] *)

Definition MAIN_PORT : string := "main".
Definition ERROR_PORT : string := "error".

Record ErrorDetail := {
  message : string;
  code : option string;
  data : option Value;
}.

Record RateLimitDetail := {
  detail : ErrorDetail;
  retry_after_ms : option Z;
  target_host : option string;
}.

Inductive NodeError :=
| Retryable (d : ErrorDetail)
| RateLimited (d : RateLimitDetail)
| NodeTerminal (d : ErrorDetail)
| InvalidInput (d : ErrorDetail).

Inductive NodeOutcome :=
| Success (payload : Value) (port : string)
| NodeFailed (e : NodeError)
| NodeCancelled.

Definition ok (payload : Value) : NodeOutcome := Success payload MAIN_PORT.
Definition ok_on (payload : Value) (port : string) : NodeOutcome := Success payload port.
Definition msg (m : string) : ErrorDetail := {| message := m; code := None; data := None |}.
Definition coded (c m : string) : ErrorDetail :=
  {| message := m; code := Some c; data := None |}.

Definition to_error_payload (d : ErrorDetail) : Value :=
  let error := map_insert "message" (VString (message d)) [] in
  let error := match code d with
               | Some c => map_insert "code" (VString c) error
               | None => error
               end in
  let error := match data d with
               | Some x => map_insert "data" x error
               | None => error
               end in
  VObject (map_from_iter [("error", VObject error)]).

(** ** [terminal.rs] *)

(** [wamn_event_wire::Op]. *)
Inductive Op := OpInsert | OpUpdate | OpDelete.

Definition DEDUP_ID_FIELD : string := "dedup-id".

Inductive Terminal :=
| TRespond
| TEmit (entity : string) (operation : Op).

Inductive Verdict :=
| Respond (payload : Value) (node_id : string)
| Emit (event : Value) (dedup_id entity : string) (operation : Op) (node_id : string)
| Discard.

(** ** [retry.rs] *)

Record RetryPolicy := {
  max_attempts : Z;  (* u32 *)
  base_ms : Z;       (* u64 *)
  factor : spec_float;
  cap_ms : Z;        (* u64 *)
}.

Definition DEFAULT : RetryPolicy := {|
  max_attempts := 3;
  base_ms := 100;
  factor := f64_of_Z 2;
  cap_ms := 30000;
|}.

Definition CAP_MS_CEILING : Z := 3600000.

Definition from_config (config : Value) : RetryPolicy :=
  match get "retry" config with
  | Some retry =>
      if is_object retry then
        {| max_attempts :=
             match get "max-attempts" retry ≫= as_u64 with
             | Some n => if (Z.max n 1 <=? u32_max)%Z then Z.max n 1 else u32_max
             | None => max_attempts DEFAULT
             end;
           base_ms := default (base_ms DEFAULT) (get "base-ms" retry ≫= as_u64);
           factor :=
             match get "factor" retry ≫= as_f64 with
             | Some f => if f64_leb (f64_of_Z 1) f then f else factor DEFAULT
             | None => factor DEFAULT
             end;
           cap_ms :=
             match get "cap-ms" retry ≫= as_u64 with
             | Some n => Z.min n CAP_MS_CEILING
             | None => cap_ms DEFAULT
             end |}
      else DEFAULT
  | None => DEFAULT
  end.

Definition may_retry (p : RetryPolicy) (attempt : Z) : bool :=
  (u32_add attempt 1 <? Z.max (max_attempts p) 1)%Z.

(** [std::time::Duration], as its whole number of nanoseconds. *)
Definition NANOS_PER_SEC : Z := 1000000000.
Definition from_millis (ms : Z) : Z := (ms * 1000000)%Z.
Definition as_millis (nanos : Z) : Z := (nanos / 1000000)%Z.
Definition as_secs_f64 (nanos : Z) : spec_float :=
  f64_add (f64_of_Z (nanos / NANOS_PER_SEC))
          (f64_div (f64_of_Z (nanos mod NANOS_PER_SEC)) (f64_of_Z NANOS_PER_SEC)).

Definition div_half_even (num den : Z) : Z :=
  let q := (num / den)%Z in
  let r := (2 * (num mod den))%Z in
  match (r ?= den)%Z with
  | Lt => q
  | Gt => q + 1
  | Eq => q + q mod 2
  end%Z.

(** [Duration::try_from_secs_f64]: the nearest whole nanosecond, ties to even;
    a negative, infinite, undefined or too large number of seconds is refused. *)
Definition try_from_secs_f64 (secs : spec_float) : option Z :=
  match secs with
  | S754_zero _ => Some 0%Z
  | S754_infinity _ | S754_nan => None
  | S754_finite true _ _ => None
  | S754_finite false m e =>
      let nanos :=
        if (0 <=? e)%Z then (Zpos m * 2 ^ e * NANOS_PER_SEC)%Z
        else div_half_even (Zpos m * NANOS_PER_SEC) (2 ^ (- e)) in
      if (nanos <? 18446744073709551616 * NANOS_PER_SEC)%Z then Some nanos else None
  end.

(** [f64::powi] has no specified precision: it is a parameter. *)
Class Powi := powi : spec_float → Z → spec_float.

Definition backoff_ms `{Powi} (p : RetryPolicy) (attempt : Z) : Z :=
  if (base_ms p =? 0)%Z then 0%Z
  else
    let base := from_millis (base_ms p) in
    let cap := from_millis (cap_ms p) in
    let exponent := if (attempt <=? i32_max)%Z then attempt else i32_max in
    let scaled :=
      default cap (try_from_secs_f64 (f64_mul (as_secs_f64 base) (powi (factor p) exponent))) in
    let millis := as_millis (Z.min scaled cap) in
    if (millis <=? u64_max)%Z then millis else cap_ms p.

Record ThrottleKey := {
  tk_component : string;
  tk_credential : option string;
  tk_host : option string;
}.

(** ** [wiring.rs] *)

Definition DEFAULT_HOP_LIMIT : Z := 10000.

Record WiringNode := {
  id : string;
  component : string;
  operation : string;
  config : Value;
  connection : option string;
  terminal : option Terminal;
}.

Record WiringEdge := {
  from : string;
  from_port : string;
  to : string;
  to_port : string;
  ordinal : option Z;  (* u32 *)
}.

Inductive WiringError :=
| DuplicateNode (node : string)
| UnresolvedEntry (node : string)
| UnresolvedEndpoint (source endpoint : string).

Record Wiring := {
  entry : string;
  by_id : gmap string WiringNode;
  out : gmap string (list WiringEdge);
  hop_limit : Z;  (* u64 *)
}.

Section Compile.
Local Open Scope wamn_scope.

Fixpoint index_nodes (nodes : list WiringNode) (by_id : gmap string WiringNode) :
    result (gmap string WiringNode) WiringError :=
  match nodes with
  | [] => Ok by_id
  | node :: nodes' =>
      match by_id !! id node with
      | Some _ => Err (DuplicateNode (id node))
      | None => index_nodes nodes' (<[id node := node]> by_id)
      end
  end.

Fixpoint index_edges (by_id : gmap string WiringNode) (edges : list WiringEdge)
    (out : gmap string (list WiringEdge)) :
    result (gmap string (list WiringEdge)) WiringError :=
  match edges with
  | [] => Ok out
  | edge :: edges' =>
      match by_id !! from edge with
      | None => Err (UnresolvedEndpoint (from edge) (from edge))
      | Some _ =>
          match by_id !! to edge with
          | None => Err (UnresolvedEndpoint (from edge) (to edge))
          | Some _ =>
              index_edges by_id edges'
                (<[from edge := default [] (out !! from edge) ++ [edge]]> out)
          end
      end
  end.

Definition edge_leb (a b : WiringEdge) : bool :=
  (default 0 (ordinal a) <=? default 0 (ordinal b))%Z.

Definition compile (entry : string) (nodes : list WiringNode) (edges : list WiringEdge) :
    result Wiring WiringError :=
  let? by_id := index_nodes nodes ∅ in
  match by_id !! entry with
  | None => Err (UnresolvedEntry entry)
  | Some _ =>
      let? out := index_edges by_id edges ∅ in
      Ok {| entry := entry;
            by_id := by_id;
            out := stable_sort edge_leb <$> out;
            hop_limit := DEFAULT_HOP_LIMIT |}
  end.
End Compile.

Definition set_hop_limit (w : Wiring) (limit : Z) : Wiring :=
  {| entry := entry w; by_id := by_id w; out := out w; hop_limit := limit |}.

Definition node (w : Wiring) (n : string) : option WiringNode := by_id w !! n.

Definition successors (w : Wiring) (n port : string) : list WiringEdge :=
  filter (λ edge, from_port edge = port) (default [] (out w !! n)).

(** ** Backoff bounds *)

Section Retry.
Context `{Powi}.

Lemma from_config_ranges c :
  let p := from_config c in
  (1 ≤ max_attempts p ≤ u32_max)%Z ∧ (cap_ms p ≤ CAP_MS_CEILING)%Z.
Proof.
  unfold from_config, u32_max, CAP_MS_CEILING.
  repeat case_goal; subst; simpl; lia.
Qed.

Lemma div_half_even_nonneg num den : (0 ≤ num → 0 < den → 0 ≤ div_half_even num den)%Z.
Proof.
  intros Hn Hd. unfold div_half_even.
  assert (0 ≤ num / den)%Z by (apply Z.div_pos; lia).
  pose proof (Z.mod_pos_bound (num / den) 2 ltac:(lia)). case_goal; lia.
Qed.

Lemma try_from_secs_f64_nonneg secs n : try_from_secs_f64 secs = Some n → (0 ≤ n)%Z.
Proof.
  destruct secs as [| | |[] m e]; simpl; try done; [intros [= <-]; lia|].
  intros E. destruct (Z.ltb _ _); simplify_eq. destruct (Z.leb_spec 0 e).
  - assert (0 < 2 ^ e)%Z by (apply Z.pow_pos_nonneg; lia). unfold NANOS_PER_SEC. nia.
  - apply div_half_even_nonneg; [unfold NANOS_PER_SEC; lia|]. apply Z.pow_pos_nonneg; lia.
Qed.

Lemma backoff_ms_nonneg p a : (0 ≤ cap_ms p → 0 ≤ backoff_ms p a)%Z.
Proof.
  intros Hc. unfold backoff_ms.
  destruct (base_ms p =? 0)%Z; [lia|]. destruct (as_millis _ <=? u64_max)%Z; [|lia].
  apply Z.div_pos; [|lia]. apply Z.min_glb; [|unfold from_millis; lia].
  destruct (try_from_secs_f64 _) as [n|] eqn:E; simpl; [|unfold from_millis; lia].
  by apply try_from_secs_f64_nonneg in E.
Qed.

Lemma backoff_ms_cap p a : (0 ≤ cap_ms p → backoff_ms p a ≤ cap_ms p)%Z.
Proof.
  intros Hc. unfold backoff_ms.
  destruct (base_ms p =? 0)%Z; [lia|]. destruct (as_millis _ <=? u64_max)%Z; [|lia].
  unfold as_millis, from_millis. apply Z.div_le_upper_bound; [lia|].
  etrans; [apply Z.le_min_r|]. lia.
Qed.

End Retry.

(** ** What [compile] establishes *)

Definition node_ids (nodes : list WiringNode) : list string := id <$> nodes.

Definition edge_resolved (ids : list string) (e : WiringEdge) : Prop :=
  from e ∈ ids ∧ to e ∈ ids.

(** The preconditions of the walk. *)
Record wiring_ok (w : Wiring) : Prop := {
  entry_resolves : is_Some (by_id w !! entry w);
  targets_resolve : ∀ n p e, e ∈ successors w n p → is_Some (by_id w !! to e);
  hop_limit_u64 : is_u64 (hop_limit w);
}.

Lemma index_nodes_spec nodes m :
  match index_nodes nodes m with
  | Ok m' => NoDup (node_ids nodes) ∧ (∀ n, n ∈ node_ids nodes → (m !! n) = None) ∧
             m' = list_to_map ((λ nd, (id nd, nd)) <$> nodes) ∪ m
  | Err (DuplicateNode n) => ¬ (NoDup (node_ids nodes) ∧ (∀ n, n ∈ node_ids nodes → (m !! n) = None))
  | Err _ => False
  end.
Proof.
  revert m. induction nodes as [|nd nodes IH]; intros m; simpl.
  { repeat split; [constructor|set_solver|]. by rewrite map_empty_union. }
  unfold node_ids in *; simpl.
  destruct (m !! id nd) eqn:E.
  { intros [_ Hm]. specialize (Hm (id nd) ltac:(set_solver)). congruence. }
  specialize (IH (<[id nd:=nd]> m)).
  destruct (index_nodes nodes _) as [m'|[n| |]]; try done.
  - destruct IH as (Hnd & Hfresh & ->). repeat split.
    + constructor; [|done]. intros Hin. specialize (Hfresh _ Hin). by simplify_map_eq.
    + intros n [->|Hn]%elem_of_cons; [done|]. specialize (Hfresh _ Hn).
      by apply lookup_insert_None in Hfresh as [? _].
    + rewrite <- insert_union_l, insert_union_r; [done|].
      apply not_elem_of_list_to_map_1. rewrite <- list_fmap_compose. simpl.
      intros Hin. specialize (Hfresh (id nd)). unfold compose in Hin. simpl in Hin.
      by rewrite lookup_insert_eq in Hfresh; specialize (Hfresh Hin).
  - intros [Hnd Hm]. apply IH. inversion Hnd; subst. split; [done|].
    intros k Hk. rewrite lookup_insert_ne; [apply Hm; set_solver|].
    intros Heq. rewrite <- Heq in Hk. done.
Qed.

Lemma index_edges_spec m edges o :
  match index_edges m edges o with
  | Ok o' => Forall (λ e, is_Some (m !! from e) ∧ is_Some (m !! to e)) edges ∧
             ∀ n, default [] (o' !! n) =
                  default [] (o !! n) ++ filter (λ e, from e = n) edges
  | Err _ => ¬ Forall (λ e, is_Some (m !! from e) ∧ is_Some (m !! to e)) edges
  end.
Proof.
  revert o. induction edges as [|e edges IH]; intros o; simpl.
  { split; [constructor|]. intros n. by rewrite app_nil_r. }
  destruct (m !! from e) eqn:Ef.
  2:{ intros Hf. inversion Hf as [|?? [[? ?] _] ?]; congruence. }
  destruct (m !! to e) eqn:Et.
  2:{ intros Hf. inversion Hf as [|?? [_ [? ?]] ?]; congruence. }
  specialize (IH (<[from e := default [] (o !! from e) ++ [e]]> o)).
  destruct (index_edges m edges _) as [o'|].
  - destruct IH as [Hall Hout]. split; [constructor; eauto|].
    intros n. rewrite Hout, filter_cons. case_decide as Hn.
    + subst. rewrite lookup_insert_eq. simpl. by rewrite <- app_assoc.
    + by rewrite lookup_insert_ne.
  - intros Hf. apply IH. by inversion Hf.
Qed.

Lemma edge_leb_total a b : edge_leb a b = true ∨ edge_leb b a = true.
Proof. unfold edge_leb. rewrite !Z.leb_le. lia. Qed.

Lemma edge_leb_trans a b c : edge_leb a b = true → edge_leb b c = true → edge_leb a c = true.
Proof. unfold edge_leb. rewrite !Z.leb_le. lia. Qed.

Lemma node_map_lookup nodes n nd :
  NoDup (node_ids nodes) →
  (list_to_map ((λ nd, (id nd, nd)) <$> nodes) ∪ ∅ : gmap string WiringNode) !! n = Some nd
  ↔ nd ∈ nodes ∧ id nd = n.
Proof.
  intros Hnd. rewrite map_union_empty, <- elem_of_list_to_map.
  - rewrite list_elem_of_fmap. naive_solver.
  - rewrite <- list_fmap_compose. done.
Qed.

Lemma node_map_is_Some nodes n :
  NoDup (node_ids nodes) →
  is_Some ((list_to_map ((λ nd, (id nd, nd)) <$> nodes) ∪ ∅ : gmap string WiringNode) !! n)
  ↔ n ∈ node_ids nodes.
Proof.
  intros Hnd. rewrite map_union_empty, <- elem_of_dom, dom_list_to_map_L.
  rewrite <- list_fmap_compose. unfold compose; simpl.
  rewrite elem_of_list_to_set. done.
Qed.

(** The decomposition of [compile] the theorems below read. *)
Lemma compile_inv entry nodes edges :
  match compile entry nodes edges with
  | Ok w =>
      (NoDup (node_ids nodes) ∧ entry ∈ node_ids nodes ∧
       Forall (edge_resolved (node_ids nodes)) edges) ∧
      Router.entry w = entry ∧ hop_limit w = DEFAULT_HOP_LIMIT ∧
      (∀ n nd, node w n = Some nd ↔ nd ∈ nodes ∧ id nd = n) ∧
      (∀ n, is_Some (node w n) ↔ n ∈ node_ids nodes) ∧
      (∀ n p, successors w n p =
        stable_sort edge_leb (filter (λ e, from e = n ∧ from_port e = p) edges))
  | Err _ =>
      ¬ (NoDup (node_ids nodes) ∧ entry ∈ node_ids nodes ∧
         Forall (edge_resolved (node_ids nodes)) edges)
  end.
Proof.
  unfold compile, result_bind. pose proof (index_nodes_spec nodes ∅) as Hn.
  destruct (index_nodes nodes ∅) as [m|[n| |]]; try done.
  2:{ intros (? & _). apply Hn. split; [done|]. intros; apply lookup_empty. }
  destruct Hn as (Hnd & _ & ->).
  destruct (_ !! entry) eqn:Ee.
  2:{ intros (_ & Hin & _). apply node_map_is_Some in Hin as [? ?]; [congruence|done]. }
  assert (Hin : entry ∈ node_ids nodes) by (apply node_map_is_Some; eauto).
  match goal with |- context [index_edges ?m edges ∅] =>
    pose proof (index_edges_spec m edges ∅) as He; destruct (index_edges m edges ∅) as [o|err]
  end.
  - destruct He as [Hall Hout]. simpl. split_and!; [done|done| |done|done|..].
    + eapply Forall_impl; [exact Hall|]. unfold edge_resolved. intros e [? ?].
      split; by apply node_map_is_Some.
    + intros n nd. by apply node_map_lookup.
    + intros n. by apply node_map_is_Some.
    + intros n p. unfold successors; simpl. rewrite lookup_fmap.
      specialize (Hout n). rewrite lookup_empty in Hout. simpl in Hout.
      assert (default [] (stable_sort edge_leb <$> o !! n)
              = stable_sort edge_leb (filter (λ e, from e = n) edges)) as ->.
      { rewrite <- Hout. by destruct (o !! n). }
      rewrite (filter_stable_sort _ edge_leb_total edge_leb_trans), list_filter_filter.
      f_equal. apply list_filter_iff. naive_solver.
  - intros (_ & _ & Hall). apply He. eapply Forall_impl; [exact Hall|].
    intros e' [? ?]. split; by apply node_map_is_Some.
Qed.

Lemma compile_wiring_ok entry nodes edges w limit :
  compile entry nodes edges = Ok w → is_u64 limit → wiring_ok (set_hop_limit w limit).
Proof.
  intros Hc Hl. pose proof (compile_inv entry nodes edges) as Hinv. rewrite Hc in Hinv.
  destruct Hinv as ((_ & Hin & Hall) & Hen & Hh & _ & Hs & Hsucc).
  constructor; [| |done].
  - simpl. rewrite Hen. by apply Hs.
  - simpl. intros n p e He. assert (He' : e ∈ successors w n p) by done.
    rewrite Hsucc, elem_of_stable_sort, list_elem_of_filter in He'. destruct He' as [_ He'].
    apply Hs. eapply Forall_forall in Hall as [_ ?]; eauto.
Qed.

(** The same at the limit [compile] sets. *)
Lemma compile_default_ok entry nodes edges w :
  compile entry nodes edges = Ok w → wiring_ok w.
Proof.
  intros Hc. pose proof (compile_inv entry nodes edges) as Hinv. rewrite Hc in Hinv.
  destruct Hinv as (_ & _ & Hh & _).
  pose proof (compile_wiring_ok entry nodes edges w (hop_limit w) Hc) as Hw.
  destruct w. simpl in *. apply Hw. by rewrite Hh.
Qed.
