(* ===== verification/Walk.v ===== *)
(** * The walk

    [crates/execution/workflow/router/src/walk.rs]: the state machine that
    carries one delivery through a compiled wiring.  [next] and [apply] are the
    two transitions a driver alternates; [fail_on_node_data] folds a refusal
    that data caused.  The [expect] calls are [Panic] branches of [run]. *)

From stdpp Require Import base tactics option list gmap strings pretty.
From Stdlib Require Import ZArith Lia.
From S2P Require Import Prelude Json Router.

Record Delivery := {
  delivery_id : string;
  delivery_payload : Value;
  delivery_caller_attached : bool;
}.

Inductive WalkStatus := Running | Completed | Failed | Cancelled.

#[export] Instance WalkStatus_eq_dec : EqDecision WalkStatus.
Proof. solve_decision. Defined.

Definition is_terminal (s : WalkStatus) : bool :=
  match s with Running => false | _ => true end.

Inductive FailureKind :=
| KTerminal
| KRetryExhausted
| KInvalidInput
| KHopLimit
| KUnreleasedCaller
| KMissingDedupId
| KRespondWithoutCaller
| KSecondVerdict.

#[export] Instance FailureKind_eq_dec : EqDecision FailureKind.
Proof. solve_decision. Defined.

Record Failure := {
  failure_node : string;
  failure_kind : FailureKind;
  failure_detail : ErrorDetail;
}.

Record Token := {
  token_node : string;
  token_input_port : option string;
  token_payload : Value;
}.

Record Active := {
  active_node : string;
  active_input_port : option string;
  active_payload : Value;
  active_attempt : Z;         (* u32 *)
  active_retry_until_ms : Z;  (* u64 *)
  active_throttle : option ThrottleKey;
}.

Record Walk := {
  walk_delivery_id : string;
  status : WalkStatus;
  frontier : list Token;
  current : option Active;
  step_seq : Z;            (* u64 *)
  hops : Z;                (* u64 *)
  visits : gmap string Z;  (* u32 *)
  walk_result : Value;
  failure : option Failure;
  caller_attached : bool;
  verdict : option Verdict;
}.

(** Field assignments [walk.f = v]. *)
Definition set_status (s : WalkStatus) (k : Walk) : Walk :=
  {| walk_delivery_id := walk_delivery_id k; status := s; frontier := frontier k;
     current := current k; step_seq := step_seq k; hops := hops k; visits := visits k;
     walk_result := walk_result k; failure := failure k;
     caller_attached := caller_attached k; verdict := verdict k |}.
Definition set_frontier (f : list Token) (k : Walk) : Walk :=
  {| walk_delivery_id := walk_delivery_id k; status := status k; frontier := f;
     current := current k; step_seq := step_seq k; hops := hops k; visits := visits k;
     walk_result := walk_result k; failure := failure k;
     caller_attached := caller_attached k; verdict := verdict k |}.
Definition set_current (c : option Active) (k : Walk) : Walk :=
  {| walk_delivery_id := walk_delivery_id k; status := status k; frontier := frontier k;
     current := c; step_seq := step_seq k; hops := hops k; visits := visits k;
     walk_result := walk_result k; failure := failure k;
     caller_attached := caller_attached k; verdict := verdict k |}.
Definition set_step_seq (z : Z) (k : Walk) : Walk :=
  {| walk_delivery_id := walk_delivery_id k; status := status k; frontier := frontier k;
     current := current k; step_seq := z; hops := hops k; visits := visits k;
     walk_result := walk_result k; failure := failure k;
     caller_attached := caller_attached k; verdict := verdict k |}.
Definition set_hops (z : Z) (k : Walk) : Walk :=
  {| walk_delivery_id := walk_delivery_id k; status := status k; frontier := frontier k;
     current := current k; step_seq := step_seq k; hops := z; visits := visits k;
     walk_result := walk_result k; failure := failure k;
     caller_attached := caller_attached k; verdict := verdict k |}.
Definition set_visits (v : gmap string Z) (k : Walk) : Walk :=
  {| walk_delivery_id := walk_delivery_id k; status := status k; frontier := frontier k;
     current := current k; step_seq := step_seq k; hops := hops k; visits := v;
     walk_result := walk_result k; failure := failure k;
     caller_attached := caller_attached k; verdict := verdict k |}.
Definition set_result (v : Value) (k : Walk) : Walk :=
  {| walk_delivery_id := walk_delivery_id k; status := status k; frontier := frontier k;
     current := current k; step_seq := step_seq k; hops := hops k; visits := visits k;
     walk_result := v; failure := failure k;
     caller_attached := caller_attached k; verdict := verdict k |}.
Definition set_failure (f : option Failure) (k : Walk) : Walk :=
  {| walk_delivery_id := walk_delivery_id k; status := status k; frontier := frontier k;
     current := current k; step_seq := step_seq k; hops := hops k; visits := visits k;
     walk_result := walk_result k; failure := f;
     caller_attached := caller_attached k; verdict := verdict k |}.
Definition set_verdict (v : option Verdict) (k : Walk) : Walk :=
  {| walk_delivery_id := walk_delivery_id k; status := status k; frontier := frontier k;
     current := current k; step_seq := step_seq k; hops := hops k; visits := visits k;
     walk_result := walk_result k; failure := failure k;
     caller_attached := caller_attached k; verdict := v |}.

Record NodeCall := {
  call_node : string;
  call_input_port : option string;
  call_component : string;
  call_operation : string;
  call_config : Value;
  call_connection : option string;
  call_credential : option string;
  call_payload : Value;
  call_attempt : Z;
  call_occurrence : Z;
  call_deadline_ms : option Z;
}.

Inductive Step :=
| Invoke (call : NodeCall)
| Wait (node : string) (until_ms attempt : Z) (throttle : option ThrottleKey)
| Done (s : WalkStatus).

Inductive ApplyError :=
| ETerminal (s : WalkStatus)
| ENoActiveNode
| EMismatchedNode (expected actual : string)
| ERespondWithoutCaller (node : string)
| ESecondVerdict (node : string).

Definition node_data_failure (e : ApplyError) : option (FailureKind * string) :=
  match e with
  | ERespondWithoutCaller _ => Some (KRespondWithoutCaller, "respond-without-caller"%string)
  | ESecondVerdict _ => Some (KSecondVerdict, "second-verdict"%string)
  | ETerminal _ | ENoActiveNode | EMismatchedNode _ _ => None
  end.

(** The [Debug] form of a [str].  ASCII is exact; a byte of a multi-byte
    character is kept, as [Debug] does for printable characters. *)
Fixpoint escape_debug (s : string) : string :=
  match s with
  | EmptyString => EmptyString
  | String c s' =>
      let n := Ascii.N_of_ascii c in
      (if (n =? 34)%N then "\" +:+ String c EmptyString
       else if (n =? 92)%N then "\" +:+ String c EmptyString
       else if (n =? 0)%N then "\0"
       else if (n =? 9)%N then "\t"
       else if (n =? 10)%N then "\n"
       else if (n =? 13)%N then "\r"
       else if ((n <? 32) || (n =? 127))%N then
         "\u{" +:+ (let hex (d : N) := String (Ascii.ascii_of_N (if (d <? 10)%N then 48 + d else 87 + d)) EmptyString in
                  (if (n <? 16)%N then hex n else hex (n / 16)%N +:+ hex (n mod 16)%N)) +:+ "}"
       else String c EmptyString) +:+ escape_debug s'
  end%string.
Definition quote : string := String (Ascii.ascii_of_N 34) EmptyString.
Definition debug_str (s : string) : string := quote +:+ escape_debug s +:+ quote.

Definition debug_status (s : WalkStatus) : string :=
  match s with
  | Running => "Running" | Completed => "Completed"
  | Failed => "Failed" | Cancelled => "Cancelled"
  end.

Definition apply_error_to_string (e : ApplyError) : string :=
  match e with
  | ETerminal s => "walk is already terminal: " +:+ debug_status s
  | ENoActiveNode => "walk has no active node"
  | EMismatchedNode expected actual =>
      "active node is " +:+ debug_str expected +:+ ", not " +:+ debug_str actual
  | ERespondWithoutCaller n => "node " +:+ debug_str n +:+ " responds, but no caller is attached"
  | ESecondVerdict n => "node " +:+ debug_str n +:+ " is a second terminal for this delivery"
  end.

Section Transitions.
Context `{Powi}.
Local Open Scope wamn_scope.

Definition start (w : Wiring) (d : Delivery) : Walk :=
  {| walk_delivery_id := delivery_id d;
     status := Running;
     frontier := [{| token_node := entry w; token_input_port := None;
                     token_payload := delivery_payload d |}];
     current := None;
     step_seq := 0;
     hops := 0;
     visits := ∅;
     walk_result := VNull;
     failure := None;
     caller_attached := delivery_caller_attached d;
     verdict := None |}.

Definition settle (w : Wiring) (k : Walk) : Walk * WalkStatus :=
  match verdict k with
  | Some _ => (set_status Completed k, Completed)
  | None =>
      if caller_attached k then
        (set_failure (Some {|
           failure_node := entry w;
           failure_kind := KUnreleasedCaller;
           failure_detail :=
             coded "unreleased-caller"
               "frontier emptied with a caller attached and no respond" |})
           (set_status Failed k), Failed)
      else (set_status Completed (set_verdict (Some Discard) k), Completed)
  end.

Definition build_call (w : Wiring) (k : Walk) (a : Active) : run NodeCall :=
  let! n := expect (node w (active_node a)) "active node in wiring" in
  Ret {| call_node := active_node a;
         call_input_port := active_input_port a;
         call_component := component n;
         call_operation := operation n;
         call_config := config n;
         call_connection := connection n;
         call_credential := None;
         call_payload := active_payload a;
         call_attempt := active_attempt a;
         call_occurrence := default 0%Z (visits k !! active_node a);
         call_deadline_ms := get "deadline-ms" (config n) ≫= as_u64 |}.

Definition promote (tok : Token) : Active :=
  {| active_node := token_node tok;
     active_input_port := token_input_port tok;
     active_payload := token_payload tok;
     active_attempt := 0;
     active_retry_until_ms := 0;
     active_throttle := None |}.

(** The part of [next] after an active node is set. *)
Definition next_active (w : Wiring) (k : Walk) (a : Active) (now_ms : Z) : run (Walk * Step) :=
  if (now_ms <? active_retry_until_ms a)%Z then
    Ret (k, Wait (active_node a) (active_retry_until_ms a) (active_attempt a) (active_throttle a))
  else if (hop_limit w <=? hops k)%Z then
    Ret (set_failure (Some {|
           failure_node := active_node a;
           failure_kind := KHopLimit;
           failure_detail :=
             coded "hop-limit"
               ("hop limit of " +:+ pretty (Z.to_N (hop_limit w)) +:+ " spent without terminating") |})
           (set_status Failed (set_current None k)), Done Failed)
  else
    let k := set_hops (u64_add (hops k) 1) k in
    let! call := build_call w k a in
    Ret (k, Invoke call).

Definition next (w : Wiring) (k : Walk) (now_ms : Z) : run (Walk * Step) :=
  if is_terminal (status k) then Ret (k, Done (status k))
  else
    match current k with
    | Some a => next_active w k a now_ms
    | None =>
        match frontier k with
        | tok :: rest =>
            let a := promote tok in
            next_active w (set_current (Some a) (set_frontier rest k)) a now_ms
        | [] => let '(k, s) := settle w k in Ret (k, Done s)
        end
    end.

Definition edge_token (payload : Value) (e : WiringEdge) : Token :=
  {| token_node := to e; token_input_port := Some (to_port e); token_payload := payload |}.

Definition enqueue_successors (w : Wiring) (k : Walk) (n port : string) (payload : Value) : Walk :=
  set_frontier (frontier k ++ (edge_token payload <$> successors w n port)) k.

Definition count_visit (n : string) (v : gmap string Z) : gmap string Z :=
  <[n := u32_add (default 0%Z (v !! n)) 1]> v.

Definition route_error (w : Wiring) (k : Walk) (n : string) (payload : Value) : Walk :=
  let k := set_current None k in
  let k := set_visits (count_visit n (visits k)) k in
  enqueue_successors w k n ERROR_PORT payload.

Definition error_or_fail (w : Wiring) (k : Walk) (n : string) (d : ErrorDetail)
    (kind : FailureKind) : Walk :=
  let k := set_current None k in
  match successors w n ERROR_PORT with
  | [] => set_failure (Some {| failure_node := n; failure_kind := kind; failure_detail := d |})
            (set_status Failed k)
  | _ :: _ => route_error w k n (to_error_payload d)
  end.

Definition terminal_verdict (k : Walk) (n : string) (t : Terminal) (payload : Value) :
    result (option Verdict) ApplyError :=
  match verdict k with
  | Some _ => Err (ESecondVerdict n)
  | None =>
      match t with
      | TRespond =>
          if caller_attached k then Ok (Some (Respond payload n))
          else Err (ERespondWithoutCaller n)
      | TEmit entity op =>
          Ok (match get DEDUP_ID_FIELD payload ≫= as_str with
              | Some dedup =>
                  if String.eqb dedup "" then None
                  else Some (Emit payload dedup entity op n)
              | None => None
              end)
      end
  end.

Definition schedule_retry (k : Walk) (until_ms : Z) (throttle : option ThrottleKey) : Walk :=
  match current k with
  | Some a =>
      set_current (Some {| active_node := active_node a;
                           active_input_port := active_input_port a;
                           active_payload := active_payload a;
                           active_attempt := u32_add (active_attempt a) 1;
                           active_retry_until_ms := until_ms;
                           active_throttle := throttle |}) k
  | None => k
  end.

(** The success branch of [apply] after the verdict is decided. *)
Definition complete_visit (w : Wiring) (k : Walk) (n port : string) (payload : Value)
    (v : option Verdict) : Walk :=
  let k := set_current None k in
  let k := set_step_seq (u64_add (step_seq k) 1) k in
  let k := set_visits (count_visit n (visits k)) k in
  let k := set_result payload k in
  let k := match v with Some _ => set_verdict v k | None => k end in
  enqueue_successors w k n port payload.

Definition apply_outcome (w : Wiring) (k : Walk) (call : NodeCall) (attempt : Z)
    (outcome : NodeOutcome) (now_ms : Z) : result Walk ApplyError :=
  let n := call_node call in
  match outcome with
  | Success payload port =>
      match node w n ≫= terminal with
      | None => Ok (complete_visit w k n port payload None)
      | Some t =>
          let? recorded := terminal_verdict k n t payload in
          match recorded with
          | None =>
              Ok (error_or_fail w k n
                    (coded "missing-dedup-id"
                       ("emit node emitted no " +:+ DEDUP_ID_FIELD +:+ " string"))
                    KMissingDedupId)
          | Some v => Ok (complete_visit w k n port payload (Some v))
          end
      end
  | NodeFailed (Retryable d) =>
      let policy := from_config (call_config call) in
      if may_retry policy attempt then
        Ok (schedule_retry k (u64_add now_ms (backoff_ms policy attempt)) None)
      else Ok (error_or_fail w k n d KRetryExhausted)
  | NodeFailed (RateLimited rl) =>
      let policy := from_config (call_config call) in
      if may_retry policy attempt then
        let delay := match retry_after_ms rl with
                     | Some d => d
                     | None => backoff_ms policy attempt
                     end in
        let key := {| tk_component := call_component call;
                      tk_credential := call_credential call;
                      tk_host := target_host rl |} in
        Ok (schedule_retry k (u64_add now_ms delay) (Some key))
      else Ok (error_or_fail w k n (detail rl) KRetryExhausted)
  | NodeFailed (NodeTerminal d) => Ok (error_or_fail w k n d KTerminal)
  | NodeFailed (InvalidInput d) => Ok (error_or_fail w k n d KInvalidInput)
  | NodeCancelled => Ok (set_status Cancelled (set_current None k))
  end.

Definition apply (w : Wiring) (k : Walk) (call : NodeCall) (outcome : NodeOutcome)
    (now_ms : Z) : result Walk ApplyError :=
  if is_terminal (status k) then Err (ETerminal (status k))
  else
    match current k with
    | None => Err ENoActiveNode
    | Some a =>
        if String.eqb (active_node a) (call_node call) then
          apply_outcome w k call (active_attempt a) outcome now_ms
        else Err (EMismatchedNode (active_node a) (call_node call))
    end.

Definition fail_on_node_data (w : Wiring) (k : Walk) (n : string) (e : ApplyError) :
    result Walk ApplyError :=
  match node_data_failure e with
  | None => Err e
  | Some (kind, c) => Ok (error_or_fail w k n (coded c (apply_error_to_string e)) kind)
  end.

End Transitions.
