(* ===== verification/WalkFacts.v ===== *)
(** * The walk's invariant

    [walk_ok] is what every state of a walk satisfies: the active node and every
    token resolve, a terminal walk is idle, the hop counter is within the limit,
    the retry attempt is within the node's budget, and the verdict was recorded
    by a terminal node that declared it.  Every transition preserves it, [next]
    never panics, and [apply] accepts the outcome of the call [next] handed out
    unless data caused the refusal. *)

From stdpp Require Import base tactics option list gmap strings.
From Stdlib Require Import ZArith Lia.
From S2P Require Import Prelude Json Router Walk.

#[local] Set Warnings "-clear-no-such-hyp".

(** The attempts a node's own configuration allows, as [RetryPolicy] reads it. *)
Definition budget (nd : WiringNode) : Z := Z.max (max_attempts (from_config (config nd))) 1.

Record active_ok (w : Wiring) (a : Active) : Prop := {
  active_resolves : is_Some (node w (active_node a));
  active_within : ∀ nd, node w (active_node a) = Some nd →
                        (0 ≤ active_attempt a < budget nd)%Z;
}.

Definition verdict_ok (w : Wiring) (k : Walk) (v : Verdict) : Prop :=
  match v with
  | Respond _ n => caller_attached k = true ∧ node w n ≫= terminal = Some TRespond
  | Emit event dedup entity op n =>
      node w n ≫= terminal = Some (TEmit entity op) ∧
      get DEDUP_ID_FIELD event = Some (VString dedup) ∧ dedup ≠ ""%string
  | Discard => status k = Completed ∧ caller_attached k = false
  end.

Record walk_ok (w : Wiring) (k : Walk) : Prop := {
  wk_frontier : Forall (λ t, is_Some (node w (token_node t))) (frontier k);
  wk_current : ∀ a, current k = Some a → active_ok w a;
  wk_idle : is_terminal (status k) = true → current k = None;
  wk_hops : (0 ≤ hops k ≤ hop_limit w)%Z;
  wk_failure : status k = Failed ↔ is_Some (failure k);
  wk_completed : status k = Completed → frontier k = [] ∧ is_Some (verdict k);
  wk_verdict : ∀ v, verdict k = Some v → verdict_ok w k v;
}.

Create HintDb walk.
#[export] Hint Constructors walk_ok active_ok : walk.
#[export] Hint Resolve wk_frontier wk_current wk_idle wk_hops wk_completed wk_verdict : walk.

Lemma budget_pos nd : (1 ≤ budget nd)%Z.
Proof. unfold budget. lia. Qed.

Lemma budget_u32 nd : (budget nd ≤ u32_max)%Z.
Proof. pose proof (from_config_ranges (config nd)). unfold budget. simpl in *. lia. Qed.

Lemma promote_ok w t : is_Some (node w (token_node t)) → active_ok w (promote t).
Proof. intros Ht. constructor; [done|]. intros nd _; simpl. pose proof (budget_pos nd). lia. Qed.

Lemma verdict_ok_running w k k' v :
  status k = Running → caller_attached k' = caller_attached k →
  verdict_ok w k v → verdict_ok w k' v.
Proof. intros Hs Hc. destruct v; simpl; rewrite ?Hs, ?Hc; naive_solver. Qed.

#[export] Hint Resolve verdict_ok_running : walk.

Section Preservation.
Context `{Powi} (w : Wiring) (Hw : wiring_ok w).

Lemma start_ok d : walk_ok w (start w d).
Proof.
  pose proof (hop_limit_u64 w Hw). pose proof (entry_resolves w Hw). unfold is_u64 in *.
  constructor; simpl; try done; try lia. by repeat constructor.
Qed.

Lemma successor_tokens_ok n p payload :
  Forall (λ t, is_Some (node w (token_node t))) (edge_token payload <$> successors w n p).
Proof.
  apply Forall_fmap, Forall_forall. intros e He; simpl.
  by eapply (targets_resolve w Hw).
Qed.

(** A walk may drop its active node, count a visit, record a result and enqueue
    the successors of a port. *)
Lemma enqueue_ok k n p payload v seq r :
  walk_ok w k → status k = Running →
  walk_ok w (enqueue_successors w
    (set_result r (set_visits v (set_step_seq seq (set_current None k)))) n p payload).
Proof.
  intros [Hf Hc Hi Hh Hfa Hco Hv] Hs. constructor; simpl; try done.
  - apply Forall_app. split; [done|]. apply successor_tokens_ok.
  - intros Hst. congruence.
Qed.

Lemma error_or_fail_ok k n d kind :
  walk_ok w k → status k = Running → walk_ok w (error_or_fail w k n d kind).
Proof.
  intros Hk Hs. unfold error_or_fail. destruct (successors w n ERROR_PORT) as [|e es] eqn:E.
  - destruct Hk as [Hf Hc Hi Hh Hfa Hco Hv]. constructor; simpl; try done.
    eauto using verdict_ok_running.
  - by apply (enqueue_ok k n ERROR_PORT (to_error_payload d)
                (count_visit n (visits k)) (step_seq k) (walk_result k)).
Qed.

Lemma schedule_retry_ok k a nd until th :
  walk_ok w k → current k = Some a → node w (active_node a) = Some nd →
  may_retry (from_config (config nd)) (active_attempt a) = true →
  walk_ok w (schedule_retry k until th).
Proof.
  intros [Hf Hc Hi Hh Hfa Hco Hv] Ha Hnd Hmay. unfold schedule_retry. rewrite Ha.
  constructor; simpl; try done.
  - intros a' [= <-]. constructor; simpl; [eauto|]. intros nd' Hnd'. simplify_eq.
    pose proof (active_within w a (Hc a Ha) _ Hnd) as Hb.
    pose proof (budget_u32 nd). unfold may_retry in Hmay. rewrite Z.ltb_lt in Hmay.
    rewrite u32_add_small in * by (unfold u32_max in *; lia). unfold budget. lia.
  - intros Ht. rewrite (Hi Ht) in Ha. done.
Qed.

Lemma complete_visit_ok k n port payload v :
  walk_ok w k → status k = Running → (∀ v', v = Some v' → verdict_ok w k v') →
  walk_ok w (complete_visit w k n port payload v).
Proof.
  intros Hk Hs Hv. unfold complete_visit. destruct v as [v|].
  - pose proof (enqueue_ok k n port payload (count_visit n (visits k))
                  (u64_add (step_seq k) 1) payload Hk Hs) as [Hf Hc Hi Hh Hfa Hco _].
    constructor; simpl in *; try done. congruence.
  - by apply enqueue_ok.
Qed.

(** What a handed-out call carries of its node. *)
Definition call_matches (call : NodeCall) : Prop :=
  ∃ nd, node w (call_node call) = Some nd ∧ call_config call = config nd.

Lemma terminal_verdict_ok k n t payload v :
  node w n ≫= terminal = Some t → terminal_verdict k n t payload = Ok (Some v) →
  verdict_ok w k v.
Proof.
  intros Ht. unfold terminal_verdict. destruct (verdict k); [done|].
  destruct t as [|entity op].
  - destruct (caller_attached k) eqn:E; [|done]. intros [= <-]; simpl. done.
  - destruct (get DEDUP_ID_FIELD payload) as [x|] eqn:Eg; simpl; [|done].
    destruct x; simpl; try done. destruct (String.eqb_spec s ""); [done|].
    intros [= <-]; simpl. done.
Qed.

Lemma apply_ok k call outcome now k' :
  walk_ok w k → call_matches call → apply w k call outcome now = Ok k' → walk_ok w k'.
Proof.
  intros Hk (nd & Hnd & Hcfg). unfold apply.
  destruct (is_terminal (status k)) eqn:Est; [done|].
  assert (Hs : status k = Running) by (by destruct (status k)).
  destruct (current k) as [a|] eqn:Ea; [|done].
  destruct (String.eqb_spec (active_node a) (call_node call)) as [Hn|]; [|done].
  rewrite <- Hn in Hnd.
  destruct outcome as [payload port|[d|rl|d|d]|]; simpl.
  - rewrite <- Hn. destruct (node w (active_node a) ≫= terminal) as [t|] eqn:Et; simpl.
    + unfold result_bind. destruct (terminal_verdict _ _ _ _) as [[v|]|e] eqn:Ev; [..|done];
        intros [= <-].
      * apply complete_visit_ok; [done..|]. intros ? [= <-]. by eapply terminal_verdict_ok.
      * by apply error_or_fail_ok.
    + intros [= <-]. by apply complete_visit_ok.
  - rewrite Hcfg. case_goal; intros [= <-]; [|by apply error_or_fail_ok].
    by eapply schedule_retry_ok.
  - rewrite Hcfg. case_goal; intros [= <-]; [|by apply error_or_fail_ok].
    by eapply schedule_retry_ok.
  - intros [= <-]. by apply error_or_fail_ok.
  - intros [= <-]. by apply error_or_fail_ok.
  - intros [= <-]. destruct Hk as [Hf Hc Hi Hh Hfa Hco Hv]. constructor; simpl; try done.
    + rewrite <- Hfa, Hs. done.
    + eauto using verdict_ok_running.
Qed.

Lemma fail_on_node_data_ok k n e k' :
  walk_ok w k → status k = Running → fail_on_node_data w k n e = Ok k' → walk_ok w k'.
Proof.
  intros Hk Hs. unfold fail_on_node_data. destruct (node_data_failure e) as [[kind c]|]; [|done].
  intros [= <-]. by apply error_or_fail_ok.
Qed.

Lemma build_call_matches k a call :
  build_call w k a = Ret call →
  call_matches call ∧ call_node call = active_node a ∧ call_attempt call = active_attempt a.
Proof.
  unfold build_call, expect. destruct (node w (active_node a)) as [nd|] eqn:E; simpl; [|done].
  intros [= <-]; simpl. split; [|done]. by exists nd.
Qed.

(** What one call of [next] returns: never a panic, and a state that is well
    formed with the step's own guarantee. *)
Definition next_post (now : Z) (k' : Walk) (s : Step) : Prop :=
  walk_ok w k' ∧
  match s with
  | Invoke call =>
      status k' = Running ∧ call_matches call ∧
      ∃ a, current k' = Some a ∧ build_call w k' a = Ret call ∧ (active_retry_until_ms a ≤ now)%Z
  | Wait n until att th =>
      status k' = Running ∧ (now < until)%Z ∧
      ∃ a, current k' = Some a ∧ active_retry_until_ms a = until ∧ active_node a = n
  | Done st => status k' = st ∧ is_terminal st = true
  end.

Lemma next_active_ok k a now :
  walk_ok w k → status k = Running → current k = Some a →
  ∃ k' s, next_active w k a now = Ret (k', s) ∧ next_post now k' s.
Proof.
  intros Hk Hs Ha. unfold next_active.
  destruct (Z.ltb_spec now (active_retry_until_ms a)).
  { do 2 eexists. split; [done|]. split; [done|]. split; [done|]. eauto 10. }
  destruct (Z.leb_spec (hop_limit w) (hops k)).
  { do 2 eexists. split; [done|]. split; [|done].
    destruct Hk as [Hf Hc Hi Hh Hfa Hco Hv]. constructor; simpl; try done.
    eauto using verdict_ok_running. }
  destruct (active_resolves w a (wk_current w k Hk a Ha)) as [nd Hnd].
  unfold build_call, expect. rewrite Hnd. simpl. do 2 eexists. split; [done|].
  pose proof (hop_limit_u64 w Hw) as Hu. unfold is_u64 in Hu.
  assert (Hh' : (0 ≤ u64_add (hops k) 1 ≤ hop_limit w)%Z).
  { pose proof (wk_hops w k Hk). rewrite u64_add_small; lia. }
  split.
  - destruct Hk as [Hf Hc Hi Hh Hfa Hco Hv]. constructor; simpl; try done.
  - split; [done|]. split; [by exists nd|]. exists a. split; [done|]. split; [|done].
    unfold build_call, expect. rewrite Hnd. simpl. done.
Qed.

Lemma next_ok k now : walk_ok w k → ∃ k' s, next w k now = Ret (k', s) ∧ next_post now k' s.
Proof.
  intros Hk. unfold next. destruct (is_terminal (status k)) eqn:Est.
  { do 2 eexists. split; [done|]. done. }
  assert (Hs : status k = Running) by (by destruct (status k)).
  destruct (current k) as [a|] eqn:Ea; [by apply next_active_ok|].
  destruct (frontier k) as [|tok rest] eqn:Ef.
  - unfold settle. destruct Hk as [Hf Hc Hi Hh Hfa Hco Hv]. destruct (verdict k) as [v|] eqn:Ev.
    + do 2 eexists. split; [done|]. split; [|done]. constructor; simpl; try done; eauto.
      * rewrite <- Hfa, Hs. done.
      * intros v' Hv'. rewrite Ev in Hv'. specialize (Hv v' Hv'). destruct v'; simpl in *; naive_solver.
    + destruct (caller_attached k) eqn:Eca; do 2 eexists; (split; [done|]; split; [|done]);
        constructor; simpl; try done; eauto.
      * rewrite Ev. done.
      * rewrite <- Hfa, Hs. done.
      * intros v' [= <-]. done.
  - assert (Hk' : walk_ok w (set_current (Some (promote tok)) (set_frontier rest k))).
    { destruct Hk as [Hf Hc Hi Hh Hfa Hco Hv]. rewrite Ef in Hf. inversion Hf; subst.
      constructor; simpl; try done.
      - intros a [= <-]. by apply promote_ok.
      - rewrite Hs. done.
      - rewrite Hs. done. }
    by apply next_active_ok.
Qed.

(** The outcome of the call [next] handed out is refused only for a reason data
    caused, and the refusal folds into the walk. *)
Lemma apply_total k a call outcome now :
  walk_ok w k → status k = Running → current k = Some a → build_call w k a = Ret call →
  ∃ k', walk_ok w k' ∧ (hops k' = hops k) ∧
    (apply w k call outcome now = Ok k' ∨
     ∃ e, apply w k call outcome now = Err e ∧ fail_on_node_data w k (call_node call) e = Ok k').
Proof.
  intros Hk Hs Ha Hb. destruct (build_call_matches _ _ _ Hb) as (Hm & Hn & _).
  destruct (apply w k call outcome now) as [k'|e] eqn:E.
  - exists k'. split; [by eapply apply_ok|]. split; [|by left].
    revert E. unfold apply, apply_outcome, result_bind, error_or_fail, schedule_retry,
      complete_visit, terminal_verdict.
    rewrite Hs, Ha; simpl. intros E. repeat case_hyp E; simplify_eq; done.
  - assert (∃ kind c, node_data_failure e = Some (kind, c)) as (kind & c & Hd).
    { revert E. unfold apply, apply_outcome, result_bind, terminal_verdict. rewrite Hs, Ha, Hn; simpl.
      rewrite String.eqb_refl. intros E. repeat case_hyp E; simplify_eq; simpl; eauto.
    }
    exists (error_or_fail w k (call_node call) (coded c (apply_error_to_string e)) kind).
    split; [by apply error_or_fail_ok|]. split.
    + unfold error_or_fail. by case_goal.
    + right. exists e. split; [done|]. unfold fail_on_node_data. by rewrite Hd.
Qed.

End Preservation.
