(* ===== verification/Route.v ===== *)
(** * [route]: driving one delivery to its end

    [crates/execution/workflow/router/src/lib.rs].  [NodeInvoker] is the trait of
    the same name with its host state made explicit.  The loop takes a fuel;
    [route_total] shows that [2 * hop_limit + 2] turns always suffice. *)

From stdpp Require Import base tactics option list gmap strings.
From Stdlib Require Import ZArith Lia.
From S2P Require Import Prelude Json Router Walk WalkFacts.

#[local] Set Warnings "-clear-no-such-hyp".

Class NodeInvoker (S : Type) := {
  invoke : S → NodeCall → S * NodeOutcome;
  now_ms : S → S * Z;
  wait_until : S → Z → option ThrottleKey → S;
}.

(** What [wait_until] documents: the next clock reading has reached [until_ms]. *)
Class WaitLaw (S : Type) `{NodeInvoker S} :=
  waited : ∀ s until th, (until ≤ snd (now_ms (wait_until s until th)))%Z.

Record Outcome := {
  o_status : WalkStatus;
  o_result : Value;
  o_failure : option Failure;
  o_hops : Z;
  o_verdict : option Verdict;
}.

Definition outcome_of (k : Walk) (st : WalkStatus) : Outcome :=
  {| o_status := st; o_result := walk_result k; o_failure := failure k;
     o_hops := hops k; o_verdict := verdict k |}.

Section Route.
Context `{Powi} {S : Type} `{NodeInvoker S}.

(** [None] is "out of fuel". *)
Fixpoint route_loop (fuel : nat) (w : Wiring) (k : Walk) (s : S) : option (run (Outcome * S)) :=
  match fuel with
  | O => None
  | Datatypes.S fuel' =>
      let '(s, now) := now_ms s in
      match next w k now with
      | Panic m => Some (Panic m)
      | Ret (k, Done st) => Some (Ret (outcome_of k st, s))
      | Ret (k, Wait _ until_ms _ throttle) => route_loop fuel' w k (wait_until s until_ms throttle)
      | Ret (k, Invoke call) =>
          let '(s, outcome) := invoke s call in
          let '(s, now) := now_ms s in
          match apply w k call outcome now with
          | Ok k => route_loop fuel' w k s
          | Err refused =>
              match fail_on_node_data w k (call_node call) refused with
              | Ok k => route_loop fuel' w k s
              | Err _ => Some (Panic "the walk accepts the outcome of the call it handed out")
              end
          end
      end
  end.

Definition route (fuel : nat) (d : Delivery) (w : Wiring) (s : S) : option (run (Outcome * S)) :=
  route_loop fuel w (start w d) s.

End Route.

(** ** What a delivery's outcome promises *)

Record outcome_ok (w : Wiring) (caller : bool) (o : Outcome) : Prop := {
  oc_terminal : is_terminal (o_status o) = true;
  oc_hops : (0 ≤ o_hops o ≤ hop_limit w)%Z;
  oc_failure : o_status o = Failed ↔ is_Some (o_failure o);
  oc_completed : o_status o = Completed → is_Some (o_verdict o);
  oc_respond : ∀ p n, o_verdict o = Some (Respond p n) →
    caller = true ∧ node w n ≫= terminal = Some TRespond;
  oc_emit : ∀ e dedup ent op n, o_verdict o = Some (Emit e dedup ent op n) →
    node w n ≫= terminal = Some (TEmit ent op) ∧
    get DEDUP_ID_FIELD e = Some (VString dedup) ∧ dedup ≠ ""%string;
  oc_discard : o_verdict o = Some Discard → caller = false;
}.

Lemma outcome_of_ok w k :
  walk_ok w k → is_terminal (status k) = true →
  outcome_ok w (caller_attached k) (outcome_of k (status k)).
Proof.
  intros [Hf Hc Hi Hh Hfa Hco Hv] Ht. constructor; simpl; try done.
  - intros Hs. by destruct (Hco Hs).
  - intros p n Hvd. by apply Hv in Hvd.
  - intros e dd ent op n Hvd. by apply Hv in Hvd.
  - intros Hvd. by apply Hv in Hvd as [_ ?].
Qed.

Section RouteFacts.
Context `{Powi} {S : Type} `{!NodeInvoker S, !WaitLaw S}.
Context (w : Wiring) (Hw : wiring_ok w).

Lemma next_same_caller k now k' s :
  next w k now = Ret (k', s) → caller_attached k' = caller_attached k.
Proof.
  unfold next, next_active, settle, run_bind. intros Hn.
  repeat case_hyp Hn; simplify_eq; done.
Qed.

Lemma next_hops k now k' s :
  walk_ok w k → next w k now = Ret (k', s) →
  hops k' = (match s with Invoke _ => hops k + 1 | _ => hops k end)%Z.
Proof.
  intros Hk. pose proof (wk_hops w k Hk). pose proof (hop_limit_u64 w Hw) as Hu.
  unfold is_u64, next, next_active, settle, run_bind in *. intros Hn.
  repeat case_hyp Hn; simplify_eq; try done; simpl;
    rewrite Z.leb_gt in *; simpl in *; apply u64_add_small; lia.
Qed.

Lemma apply_same_caller k call o now k' :
  apply w k call o now = Ok k' → caller_attached k' = caller_attached k.
Proof.
  unfold apply, apply_outcome, result_bind, error_or_fail, schedule_retry, complete_visit.
  intros Hn. repeat case_hyp Hn; simplify_eq; done.
Qed.

Lemma fail_same_caller k n e k' :
  fail_on_node_data w k n e = Ok k' → caller_attached k' = caller_attached k.
Proof.
  unfold fail_on_node_data, error_or_fail. intros Hn. repeat case_hyp Hn; simplify_eq; done.
Qed.

(** [route_loop] returns a good outcome. *)
Definition returns (fuel : nat) (k : Walk) (s : S) : Prop :=
  ∃ o s', route_loop fuel w k s = Some (Ret (o, s')) ∧ outcome_ok w (caller_attached k) o.

(** One turn: either the loop ends, or it waits, or it spends a hop. *)
Lemma route_turn fuel k s :
  walk_ok w k →
  (∀ k' n until att th a s', next w k (snd (now_ms s)) = Ret (k', Wait n until att th) →
     walk_ok w k' → hops k' = hops k → status k' = Running → current k' = Some a →
     active_retry_until_ms a = until → caller_attached k' = caller_attached k →
     (until ≤ snd (now_ms s'))%Z → returns fuel k' s') →
  (∀ k' s', walk_ok w k' → (hops k' = hops k + 1)%Z →
     caller_attached k' = caller_attached k → returns fuel k' s') →
  returns (Datatypes.S fuel) k s.
Proof.
  intros Hk Hwait Hinv. unfold returns. simpl.
  destruct (now_ms s) as [s1 now] eqn:Enow.
  destruct (next_ok w Hw k now Hk) as (k' & st & Hn & Hk' & Hpost). rewrite Hn.
  pose proof (next_same_caller _ _ _ _ Hn) as Hc.
  pose proof (next_hops _ _ _ _ Hk Hn) as Hh.
  destruct st as [call|n until att th|st].
  - destruct Hpost as (Hs & Hm & a & Ha & Hb & _).
    destruct (invoke s1 call) as [s2 outcome]. destruct (now_ms s2) as [s3 now'].
    destruct (apply_total w Hw k' a call outcome now' Hk' Hs Ha Hb)
      as (k2 & Hk2 & Hh2 & Happ).
    assert (Hc2 : caller_attached k2 = caller_attached k).
    { destruct Happ as [Happ|(e & _ & Hfail)]; rewrite <- Hc;
        [by eapply apply_same_caller|by eapply fail_same_caller]. }
    destruct Happ as [Happ|(e & Happ & Hfail)]; rewrite Happ; rewrite ?Hfail;
      rewrite <- Hc2; apply Hinv; congruence.
  - destruct Hpost as (Hs & Hlt & a & Ha & Hu & _). rewrite <- Hc. eapply Hwait; eauto.
  - destruct Hpost as (Hs & Ht). subst. do 2 eexists. split; [done|].
    rewrite <- Hc. by apply outcome_of_ok.
Qed.

End RouteFacts.

(** ** Induction over a walk loop

    A loop that reads a clock, asks the walk for its next step and either ends,
    waits for the step's deadline or spends a hop reaches its end within
    [2 * r + 2] turns when [r] hops are left: two waits never follow each other. *)

Section WalkLoop.
Context `{Powi} (w : Wiring) {S : Type} (clock : S → Z) (P : nat → Walk → S → Prop).

Hypothesis turn : ∀ fuel k s, walk_ok w k →
  (∀ k' n until att th a s', next w k (clock s) = Ret (k', Wait n until att th) →
     walk_ok w k' → hops k' = hops k → status k' = Running → current k' = Some a →
     active_retry_until_ms a = until → caller_attached k' = caller_attached k →
     (until ≤ clock s')%Z → P fuel k' s') →
  (∀ k' s', walk_ok w k' → (hops k' = hops k + 1)%Z →
     caller_attached k' = caller_attached k → P fuel k' s') →
  P (Datatypes.S fuel) k s.

(** A walk whose retry is due does not wait. *)
Lemma next_due k now a k' n until att th :
  status k = Running → current k = Some a → (active_retry_until_ms a ≤ now)%Z →
  next w k now ≠ Ret (k', Wait n until att th).
Proof.
  unfold next, next_active, run_bind. intros -> -> Hdue. simpl.
  destruct (Z.ltb_spec now (active_retry_until_ms a)); [lia|].
  repeat case_goal; congruence.
Qed.

Lemma walk_loop_due_ind (r : nat) :
  (∀ k s fuel, walk_ok w k → (hop_limit w - hops k ≤ Z.of_nat r)%Z → 2 * r + 2 ≤ fuel →
     P fuel k s) ∧
  (∀ k s fuel a, walk_ok w k → (hop_limit w - hops k ≤ Z.of_nat r)%Z → 2 * r + 1 ≤ fuel →
     status k = Running → current k = Some a →
     (active_retry_until_ms a ≤ clock s)%Z → P fuel k s).
Proof.
  induction r as [r IH] using lt_wf_ind.
  assert (Hspend : ∀ k fuel, walk_ok w k → (hop_limit w - hops k ≤ Z.of_nat r)%Z →
    2 * r + 1 ≤ Datatypes.S fuel →
    ∀ k' s', walk_ok w k' → (hops k' = hops k + 1)%Z →
      caller_attached k' = caller_attached k → P fuel k' s').
  { intros k fuel Hk Hr Hf k' s' Hk' Hh _. pose proof (wk_hops w k' Hk').
    destruct r as [|r']; [lia|]. eapply (proj1 (IH r' ltac:(lia))); [done|lia|lia]. }
  assert (Hdue : ∀ k s fuel a, walk_ok w k → (hop_limit w - hops k ≤ Z.of_nat r)%Z →
    2 * r + 1 ≤ fuel → status k = Running → current k = Some a →
    (active_retry_until_ms a ≤ clock s)%Z → P fuel k s).
  { intros k s fuel a Hk Hr Hf Hs Ha Hu. destruct fuel as [|fuel]; [lia|].
    apply turn; [done| |by eapply Hspend].
    intros k' n until att th a' s' Hn. by destruct (next_due _ _ _ _ _ _ _ _ Hs Ha Hu Hn). }
  split; [|exact Hdue]. intros k s fuel Hk Hr Hf. destruct fuel as [|fuel]; [lia|].
  apply turn; [done| |eapply Hspend; [done..|lia]].
  intros k' n until att th a s' _ Hk' Hh Hs Ha Hu _ Hc.
  eapply Hdue; [done|lia|lia|done|done|]. by rewrite Hu.
Qed.

Lemma walk_loop_ind (d : Delivery) (s : S) (fuel : nat) :
  wiring_ok w → 2 * Z.to_nat (hop_limit w) + 2 ≤ fuel → P fuel (start w d) s.
Proof.
  intros Hw Hf. apply (proj1 (walk_loop_due_ind (Z.to_nat (hop_limit w)))); [|simpl|done].
  - by apply start_ok.
  - pose proof (hop_limit_u64 w Hw) as Hu. unfold is_u64 in Hu. lia.
Qed.

End WalkLoop.

Lemma route_returns `{Powi} {S : Type} `{!NodeInvoker S, !WaitLaw S} w d (s : S) fuel :
  wiring_ok w → 2 * Z.to_nat (hop_limit w) + 2 ≤ fuel →
  returns w fuel (start w d) s.
Proof.
  intros Hw. apply (walk_loop_ind w (λ s, snd (now_ms s)) (returns w)); [|done].
  intros fuel' k s' Hk Hwait Hinv. by apply route_turn.
Qed.

(** ** Theorems *)

(** C1. Every delivery through a compiled wiring ends: with [2 * hop_limit + 2]
    turns of fuel, whatever the components return and whatever the clock reads
    (as long as a wait lasts until its deadline), [route] returns — it neither
    runs out of fuel nor reaches one of the code's [expect] panics — and the
    outcome is terminal, within the hop limit, failed exactly when it carries a
    failure, and its verdict was declared by a terminal node: a respond only
    with a caller attached, an emit with the non-empty dedup id of its event, a
    discard only with no caller waiting. *)
Theorem route_total `{Powi} {S : Type} `{!NodeInvoker S, !WaitLaw S}
    (en : string) (nodes : list WiringNode) (edges : list WiringEdge) (w : Wiring)
    (limit : Z) (d : Delivery) (s : S) (fuel : nat) :
  compile en nodes edges = Ok w → is_u64 limit →
  2 * Z.to_nat limit + 2 ≤ fuel →
  ∃ o s', route fuel d (set_hop_limit w limit) s = Some (Ret (o, s')) ∧
          outcome_ok (set_hop_limit w limit) (delivery_caller_attached d) o.
Proof.
  intros Hc Hl Hf. pose proof (compile_wiring_ok en nodes edges w limit Hc Hl) as Hw.
  by apply route_returns.
Qed.

(** ** A concrete host: a clock that a wait moves, and a script of outcomes. *)
Module Sample.

#[global] Instance powi_by_steps : Powi :=
  λ f e, Nat.iter (Z.to_nat e) (f64_mul f) (f64_of_Z 1).

Record Host := { clock : Z; script : list NodeOutcome }.

#[global] Instance scripted : NodeInvoker Host := {
  invoke h _ :=
    match script h with
    | [] => (h, NodeCancelled)
    | o :: rest => ({| clock := clock h + 7; script := rest |}, o)
    end;
  now_ms h := (h, clock h);
  wait_until h until _ := {| clock := Z.max (clock h) until; script := script h |};
}.

#[global] Instance scripted_waits : WaitLaw Host.
Proof. intros h until th. simpl. lia. Qed.

Definition plain (n : string) (t : option Terminal) : WiringNode :=
  {| id := n; component := "sha256:c"; operation := "acme:ops/run"; config := VNull;
     connection := None; terminal := t |}.
Definition edge (a p b : string) : WiringEdge :=
  {| from := a; from_port := p; to := b; to_port := "in"; ordinal := None |}.

Definition nodes : list WiringNode :=
  [plain "load" None; plain "answer" (Some TRespond); plain "cleanup" None].
Definition edges : list WiringEdge :=
  [edge "load" "main" "answer"; edge "load" "error" "cleanup"].

Definition compiled (r : result Wiring WiringError) : Wiring :=
  match r with
  | Ok w => w
  | Err _ => {| entry := ""; by_id := ∅; out := ∅; hop_limit := 0 |}
  end.
Definition wiring : Wiring := compiled (compile "load" nodes edges).

Definition delivery : Delivery :=
  {| delivery_id := "d-1"; delivery_payload := VNull; delivery_caller_attached := true |}.
Definition flaky : Host :=
  {| clock := 1000;
     script := [NodeFailed (Retryable (msg "busy")); ok (VBool true); ok (VString "done")] |}.
Definition broken : Host :=
  {| clock := 0; script := [NodeFailed (NodeTerminal (msg "no such order")); ok VNull] |}.

End Sample.

(** [route_total] at a wiring that retries once, answers its caller and stops. *)
Lemma route_total_witness :
  ∃ o s', route 22 Sample.delivery (set_hop_limit Sample.wiring 10) Sample.flaky = Some (Ret (o, s'))
          ∧ outcome_ok (set_hop_limit Sample.wiring 10) true o.
Proof.
  apply (route_total "load" Sample.nodes Sample.edges Sample.wiring 10 Sample.delivery
           Sample.flaky 22); [vm_compute; reflexivity | unfold is_u64, u64_max; lia | vm_compute; lia].
Defined.

(** The same run evaluated: three invocations, one wait of the default 100 ms. *)
Example flaky_delivery_runs :
  route 22 Sample.delivery (set_hop_limit Sample.wiring 10) Sample.flaky =
  Some (Ret ({| o_status := Completed; o_result := VString "done"; o_failure := None;
                o_hops := 3; o_verdict := Some (Respond (VString "done") "answer") |},
             {| Sample.clock := 1121; Sample.script := [] |})).
Proof. vm_compute. reflexivity. Qed.

(** An error edge does not release the caller: the emptied frontier is a failure. *)
Example broken_delivery_strands_nobody :
  option_map (λ r, match r with Ret (o, _) => failure_kind <$> o_failure o | Panic _ => None end)
    (route 22 Sample.delivery (set_hop_limit Sample.wiring 10) Sample.broken)
  = Some (Some KUnreleasedCaller).
Proof. vm_compute. reflexivity. Qed.
