(* ===== verification/WalkChecks.v ===== *)
(** * WALK-1 .. WALK-6

    [crates/execution/workflow/router/src/invariants.rs]: the trace a driver
    accumulates and the six checks over it.  The checks are modelled as they are
    written (a [Violation] carries its id; the text of its detail is left out),
    and [walk_checks_pass] shows that a driver that feeds back each call's
    outcome once never sees one fail. *)

From stdpp Require Import base tactics option list gmap strings.
From Stdlib Require Import ZArith Lia.
From S2P Require Import Prelude Json Router Walk WalkFacts Route.

#[local] Set Warnings "-clear-no-such-hyp".

Inductive Violation := WALK_1 | WALK_2 | WALK_3 | WALK_4 | WALK_5 | WALK_6.

Inductive OutcomeKind :=
| KindSuccess | KindRetryable | KindRateLimited | KindTerminal | KindInvalidInput | KindCancelled.

#[export] Instance OutcomeKind_eq_dec : EqDecision OutcomeKind.
Proof. solve_decision. Defined.

Definition outcome_kind (o : NodeOutcome) : OutcomeKind :=
  match o with
  | Success _ _ => KindSuccess
  | NodeCancelled => KindCancelled
  | NodeFailed (Retryable _) => KindRetryable
  | NodeFailed (RateLimited _) => KindRateLimited
  | NodeFailed (NodeTerminal _) => KindTerminal
  | NodeFailed (InvalidInput _) => KindInvalidInput
  end.

Record Call := {
  c_node : string;
  c_attempt : Z;
  c_occurrence : Z;
  c_outcome : OutcomeKind;
}.

Record WalkTrace := {
  calls : list Call;
  arrivals : gmap string Z;
  waits : list (Z * Z);
  invokes_after_done : Z;
}.

Definition trace_new (w : Wiring) : WalkTrace :=
  {| calls := []; arrivals := {[entry w := 1%Z]}; waits := []; invokes_after_done := 0 |}.

Definition stepped (t : WalkTrace) (status_before : WalkStatus) (step : Step) (now_ms : Z) :
    WalkTrace :=
  match step with
  | Invoke _ =>
      if is_terminal status_before then
        {| calls := calls t; arrivals := arrivals t; waits := waits t;
           invokes_after_done := u32_add (invokes_after_done t) 1 |}
      else t
  | Wait _ until_ms _ _ =>
      {| calls := calls t; arrivals := arrivals t; waits := waits t ++ [(now_ms, until_ms)];
         invokes_after_done := invokes_after_done t |}
  | Done _ => t
  end.

Definition arrive (m : gmap string Z) (e : WiringEdge) : gmap string Z :=
  <[to e := u32_add (default 0%Z (m !! to e)) 1]> m.

(** The port the tokens of an outcome leave on, if any leave. *)
Definition emission_port (call : NodeCall) (o : NodeOutcome) : option string :=
  match o with
  | Success _ port => Some port
  | NodeCancelled => None
  | NodeFailed (Retryable _ | RateLimited _) =>
      if may_retry (from_config (call_config call)) (call_attempt call) then None
      else Some ERROR_PORT
  | NodeFailed _ => Some ERROR_PORT
  end.

Definition applied (w : Wiring) (t : WalkTrace) (call : NodeCall) (o : NodeOutcome) : WalkTrace :=
  {| calls := calls t ++ [{| c_node := call_node call; c_attempt := call_attempt call;
                             c_occurrence := call_occurrence call;
                             c_outcome := outcome_kind o |}];
     arrivals :=
       match emission_port call o with
       | None => arrivals t
       | Some port => fold_left arrive (successors w (call_node call) port) (arrivals t)
       end;
     waits := waits t;
     invokes_after_done := invokes_after_done t |}.

Definition walk_1_hop_limit (w : Wiring) (k : Walk) (t : WalkTrace) : result unit Violation :=
  let limit := hop_limit w in
  if (limit <? hops k)%Z then Err WALK_1
  else
    let handed := Z.of_nat (length (calls t)) in
    let handed := if (handed <=? u64_max)%Z then handed else u64_max in
    if (limit <? handed)%Z then Err WALK_1 else Ok tt.

Definition walk_2_no_invoke_after_done (t : WalkTrace) : result unit Violation :=
  if (0 <? invokes_after_done t)%Z then Err WALK_2 else Ok tt.

Definition started (cs : list Call) : gmap string Z :=
  fold_left (λ m c,
    <[c_node c := Z.max (default 0%Z (m !! c_node c)) (u32_add (c_occurrence c) 1)]> m) cs ∅.

Definition walk_3_once_per_arriving_token (t : WalkTrace) : result unit Violation :=
  if forallb (λ '(n, v), (v <=? default 0 (arrivals t !! n))%Z) (map_to_list (started (calls t)))
  then Ok tt else Err WALK_3.

Definition node_budget (w : Wiring) (n : string) : Z :=
  match node w n with
  | Some wired => Z.max (max_attempts (from_config (config wired))) 1
  | None => 1
  end.

(** [slice::windows(2)]. *)
Fixpoint windows2 {A} (l : list A) : list (A * A) :=
  match l with
  | x :: l' => match l' with y :: _ => (x, y) :: windows2 l' | [] => [] end
  | [] => []
  end.

Definition retried_badly (pair : Call * Call) : bool :=
  let '(p, n) := pair in
  String.eqb (c_node p) (c_node n) && (c_occurrence p =? c_occurrence n)%Z &&
  (c_attempt n =? u32_add (c_attempt p) 1)%Z &&
  negb (bool_decide (c_outcome p = KindRetryable) || bool_decide (c_outcome p = KindRateLimited)).

Definition walk_4_retry_budget (w : Wiring) (t : WalkTrace) : result unit Violation :=
  if existsb (λ c, (node_budget w (c_node c) <? u32_add (c_attempt c) 1)%Z) (calls t)
  then Err WALK_4
  else if existsb retried_badly (windows2 (calls t)) then Err WALK_4 else Ok tt.

Definition walk_5_wait_never_in_the_past (t : WalkTrace) : result unit Violation :=
  if existsb (λ '(asked_at, until_ms), (until_ms <? asked_at)%Z) (waits t)
  then Err WALK_5 else Ok tt.

Definition walk_6_terminal_outcome_matches (w : Wiring) (k : Walk) (t : WalkTrace) :
    result unit Violation :=
  match last (calls t) with
  | None => Ok tt
  | Some l =>
      if decide (c_outcome l = KindTerminal) then
        let caught := match successors w (c_node l) ERROR_PORT with [] => false | _ => true end in
        match caught, failure k with
        | false, Some f =>
            if decide (status k = Failed ∧ failure_kind f = KTerminal ∧ failure_node f = c_node l)
            then Ok tt else Err WALK_6
        | false, None => Err WALK_6
        | true, None => Ok tt
        | true, Some f => if decide (failure_kind f = KHopLimit) then Ok tt else Err WALK_6
        end
      else Ok tt
  end.

Section Check.
Local Open Scope wamn_scope.
Definition check (w : Wiring) (k : Walk) (t : WalkTrace) : result unit Violation :=
  let? _ := walk_1_hop_limit w k t in
  let? _ := walk_2_no_invoke_after_done t in
  let? _ := walk_3_once_per_arriving_token t in
  let? _ := walk_4_retry_budget w t in
  let? _ := walk_5_wait_never_in_the_past t in
  walk_6_terminal_outcome_matches w k t.
End Check.

(** ** Driving with a trace

    The states a driver reaches that records every step and feeds each call's
    outcome back once.  A refused outcome is not recorded. *)
Inductive drives `{Powi} (w : Wiring) : Walk → WalkTrace → Prop :=
| drive_start d : drives w (start w d) (trace_new w)
| drive_rest k t now k' s :
    drives w k t → next w k now = Ret (k', s) →
    match s with Invoke _ => False | _ => True end →
    drives w k' (stepped t (status k) s now)
| drive_invoke k t now k' call o now' k'' :
    drives w k t → next w k now = Ret (k', Invoke call) →
    apply w k' call o now' = Ok k'' →
    drives w k'' (applied w (stepped t (status k) (Invoke call) now) call o).

(** ** The token ledger

    How many tokens of a node are accounted for by the walk: its completed
    visits, its tokens on the frontier and the active slot. *)

Definition count_if {A} (P : A → Prop) `{∀ x, Decision (P x)} (l : list A) : Z :=
  Z.of_nat (length (filter P l)).

Definition visited (k : Walk) (n : string) : Z := default 0%Z (visits k !! n).
Definition pending (k : Walk) (n : string) : Z := count_if (λ t, token_node t = n) (frontier k).
Definition running_at (k : Walk) (n : string) : Z :=
  match current k with
  | Some a => if decide (active_node a = n) then 1 else 0
  | None => 0
  end.
Definition held (k : Walk) (n : string) : Z := visited k n + pending k n + running_at k n.
Definition arrived (t : WalkTrace) (n : string) : Z := default 0%Z (arrivals t !! n).

Lemma count_if_app {A} (P : A → Prop) `{∀ x, Decision (P x)} l l' :
  count_if P (l ++ l') = (count_if P l + count_if P l')%Z.
Proof. unfold count_if. rewrite filter_app, length_app. lia. Qed.

Lemma count_if_cons {A} (P : A → Prop) `{∀ x, Decision (P x)} x l :
  count_if P (x :: l) = ((if decide (P x) then 1 else 0) + count_if P l)%Z.
Proof. unfold count_if. rewrite filter_cons. case_decide; simpl; lia. Qed.

Lemma count_if_nonneg {A} (P : A → Prop) `{∀ x, Decision (P x)} l : (0 ≤ count_if P l)%Z.
Proof. unfold count_if. lia. Qed.

Lemma count_if_length {A} (P : A → Prop) `{∀ x, Decision (P x)} l :
  (count_if P l ≤ Z.of_nat (length l))%Z.
Proof. unfold count_if. pose proof (length_filter P l). lia. Qed.

Lemma count_successor_tokens w n p payload m :
  count_if (λ t, token_node t = m) (edge_token payload <$> successors w n p)
  = count_if (λ e, to e = m) (successors w n p).
Proof.
  induction (successors w n p) as [|e es IH]; [done|].
  rewrite fmap_cons, !count_if_cons, IH. done.
Qed.

Lemma fold_arrive_lookup es m n :
  (∀ j, 0 ≤ default 0 (m !! j) ∧ default 0 (m !! j) + Z.of_nat (length es) ≤ u32_max)%Z →
  (default 0 (fold_left arrive es m !! n) =
   default 0 (m !! n) + count_if (λ e, to e = n) es)%Z.
Proof.
  revert m. induction es as [|e es IH]; intros m Hm; simpl.
  { unfold count_if. simpl. lia. }
  assert (Hadd : (u32_add (default 0 (m !! to e)) 1 = default 0 (m !! to e) + 1)%Z).
  { destruct (Hm (to e)). simpl in *. apply u32_add_small; lia. }
  rewrite IH.
  - rewrite count_if_cons. unfold arrive. rewrite lookup_insert. repeat case_decide; subst; simpl;
      rewrite ?Hadd; try done; lia.
  - intros j. unfold arrive. rewrite lookup_insert. specialize (Hm j). simpl in Hm.
    case_decide; subst; simpl; rewrite ?Hadd; lia.
Qed.

Lemma started_bound (A : string → Z) cs n v :
  (∀ j, 0 ≤ A j ≤ u32_max)%Z →
  Forall (λ c, 0 ≤ c_occurrence c ∧ c_occurrence c + 1 ≤ A (c_node c))%Z cs →
  started cs !! n = Some v → (v ≤ A n)%Z.
Proof.
  intros HA. unfold started.
  assert (Hgen : ∀ m : gmap string Z, (∀ j x, m !! j = Some x → x ≤ A j)%Z →
    Forall (λ c, 0 ≤ c_occurrence c ∧ c_occurrence c + 1 ≤ A (c_node c))%Z cs →
    ∀ j x, fold_left (λ m c,
      <[c_node c := Z.max (default 0%Z (m !! c_node c)) (u32_add (c_occurrence c) 1)]> m) cs m !! j
      = Some x → (x ≤ A j)%Z).
  { induction cs as [|c cs IH]; intros m Hm Hcs; [done|]. inversion Hcs as [|?? [Hc0 Hc1] Hcs']; subst.
    apply IH; [|done]. intros j x. rewrite lookup_insert. case_decide as Hj; [|apply Hm].
    intros [= <-]. subst. pose proof (HA (c_node c)). rewrite u32_add_small by lia.
    destruct (m !! c_node c) as [y|] eqn:E; simpl; [apply Hm in E|]; lia. }
  intros Hcs. apply Hgen; [|done]. intros j x Hj. by rewrite lookup_empty in Hj.
Qed.

Lemma windows2_snoc {A} (P : A * A → Prop) (l : list A) y :
  Forall P (windows2 l) → (∀ x, last l = Some x → P (x, y)) → Forall P (windows2 (l ++ [y])).
Proof.
  induction l as [|x l IH]; intros Hl Hy; simpl; [constructor|].
  destruct l as [|x' l]; simpl in *.
  - repeat constructor. by apply Hy.
  - inversion Hl; subst. constructor; [done|]. apply IH; [done|]. exact Hy.
Qed.

(** ** What an accepted outcome did *)

Definition retry_kind (c : OutcomeKind) : Prop := c = KindRetryable ∨ c = KindRateLimited.

Inductive applied_as `{Powi} (w : Wiring) (k : Walk) (call : NodeCall) (o : NodeOutcome) : Walk → Prop :=
| as_retry until th :
    retry_kind (outcome_kind o) → emission_port call o = None →
    applied_as w k call o (schedule_retry k until th)
| as_cancelled :
    o = NodeCancelled → applied_as w k call o (set_status Cancelled (set_current None k))
| as_success payload port v :
    o = Success payload port →
    applied_as w k call o (complete_visit w k (call_node call) port payload v)
| as_error d kind :
    emission_port call o = Some ERROR_PORT →
    (outcome_kind o = KindTerminal → kind = KTerminal) →
    applied_as w k call o (error_or_fail w k (call_node call) d kind).

Definition no_emit (w : Wiring) : Prop :=
  ∀ n entity op, node w n ≫= terminal ≠ Some (TEmit entity op).

Lemma apply_shape `{Powi} w k a call o now k' :
  no_emit w → current k = Some a → build_call w k a = Ret call →
  apply w k call o now = Ok k' → applied_as w k call o k'.
Proof.
  intros Hne Ha Hb. destruct (build_call_matches w k a call Hb) as (_ & Hn & Hat).
  unfold apply. rewrite Ha, Hn, String.eqb_refl. destruct (is_terminal (status k)); [done|].
  destruct o as [payload port|[d|rl|d|d]|]; unfold apply_outcome.
  - destruct (node w (call_node call) ≫= terminal) as [[|ent op]|] eqn:Et.
    + unfold result_bind, terminal_verdict. intros Hap. repeat case_hyp Hap; simplify_eq.
      by apply as_success.
    + by destruct (Hne (call_node call) ent op).
    + intros [= <-]. by apply as_success.
  - rewrite <- Hat. case_goal; intros [= <-];
      [apply as_retry; [by left|]|apply as_error; [|done]]; simpl; by rewrite Heqb.
  - rewrite <- Hat. destruct (may_retry _ _) eqn:Em; intros [= <-];
      [apply as_retry; [by right|]|apply as_error; [|done]]; simpl; by rewrite Em.
  - intros [= <-]. by apply as_error.
  - intros [= <-]. by apply as_error.
  - intros [= <-]. by apply as_cancelled.
Qed.

Lemma drives_walk_ok `{Powi} w k t : wiring_ok w → drives w k t → walk_ok w k.
Proof.
  intros Hw. induction 1 as [d|k t now k' s Hd Hk Hn Hs|k t now k' call o now' k'' Hd Hk Hn Happ].
  - by apply start_ok.
  - destruct (next_ok w Hw k now Hk) as (? & ? & ? & ? & _). congruence.
  - destruct (next_ok w Hw k now Hk) as (? & ? & Hn2 & Hk' & Hp). rewrite Hn in Hn2. simplify_eq.
    destruct Hp as (_ & Hm & _). by eapply apply_ok.
Qed.

(** ** The trace invariant *)

Section TraceInvariant.
Context `{Powi} (w : Wiring) (Hw : wiring_ok w) (Hne : no_emit w).
(** The widest fan-out of the wiring, and that the tokens of a whole delivery
    fit the [u32] counters. *)
Context (fanout : nat) (Hfan : ∀ n p, length (successors w n p) ≤ fanout).
Context (Hfit : (1 + hop_limit w * Z.of_nat fanout ≤ u32_max)%Z).

Definition last_terminal_ok (k : Walk) (l : Call) : Prop :=
  c_outcome l = KindTerminal →
  match successors w (c_node l) ERROR_PORT with
  | [] => status k = Failed ∧
          ∃ f, failure k = Some f ∧ failure_kind f = KTerminal ∧ failure_node f = c_node l
  | _ => (status k = Running ∧ (is_Some (current k) ∨ frontier k ≠ [])) ∨
         (∃ f, failure k = Some f ∧ failure_kind f = KHopLimit)
  end.

Record trace_ok (k : Walk) (t : WalkTrace) : Prop := {
  tr_calls : (Z.of_nat (length (calls t)) ≤ hops k)%Z;
  tr_done : invokes_after_done t = 0%Z;
  tr_tokens : ∀ n, (0 ≤ visited k n ∧ held k n ≤ arrived t n)%Z;
  tr_small : ∀ n, (arrived t n ≤ 1 + Z.of_nat (length (calls t)) * Z.of_nat fanout)%Z;
  tr_started : Forall (λ c, 0 ≤ c_occurrence c ∧ c_occurrence c + 1 ≤ arrived t (c_node c))%Z (calls t);
  tr_budget : Forall (λ c, 0 ≤ c_attempt c ∧ c_attempt c + 1 ≤ node_budget w (c_node c))%Z (calls t);
  tr_pairs : Forall (λ p, (0 < c_attempt p.2)%Z → retry_kind (c_outcome p.1)) (windows2 (calls t));
  tr_retry : ∀ a, current k = Some a → (0 < active_attempt a)%Z →
    ∃ c, last (calls t) = Some c ∧ retry_kind (c_outcome c);
  tr_waits : Forall (λ p, p.1 < p.2)%Z (waits t);
  tr_last : ∀ l, last (calls t) = Some l → last_terminal_ok k l;
}.

Lemma arrived_range k t n :
  walk_ok w k → trace_ok k t → (0 ≤ arrived t n ≤ u32_max)%Z.
Proof.
  intros Hk Ht. pose proof (tr_tokens _ _ Ht n) as [? ?]. pose proof (tr_small _ _ Ht n).
  pose proof (tr_calls _ _ Ht). pose proof (wk_hops w k Hk).
  unfold held, pending, running_at in *.
  pose proof (count_if_nonneg (λ t0, token_node t0 = n) (frontier k)).
  assert (0 ≤ match current k with Some a => if decide (active_node a = n) then 1 else 0 | None => 0 end)%Z
    by (repeat case_goal; lia).
  nia.
Qed.

Lemma trace_new_ok d : trace_ok (start w d) (trace_new w).
Proof.
  constructor; simpl; try done; try lia; try by constructor.
  - intros n. unfold held, visited, pending, running_at, arrived; simpl.
    rewrite lookup_empty. simpl. split; [lia|].
    rewrite count_if_cons; simpl. unfold count_if; simpl.
    rewrite lookup_singleton. repeat case_decide; simpl; try done; lia.
  - intros n. unfold arrived; simpl. rewrite lookup_singleton. case_decide; simpl; lia.
Qed.

(** [next] only moves a token from the frontier to the active slot, or drops the
    active one. *)
Lemma next_held k now k' s n :
  next w k now = Ret (k', s) → visited k' n = visited k n ∧ (held k' n ≤ held k n)%Z ∧
  (∀ call, s = Invoke call → held k' n = held k n).
Proof.
  unfold next, next_active, settle, run_bind. intros Hn.
  repeat case_hyp Hn; simplify_eq; unfold held, visited, pending, running_at; simpl in *;
    repeat match goal with
    | E : current _ = _ |- _ => rewrite E
    | E : frontier _ = _ |- _ => rewrite E
    end; rewrite ?count_if_cons; simpl;
    (split; [done|]; split; [repeat case_decide; try done; lia|]; intros; simplify_eq);
    repeat case_decide; try done; try lia.
Qed.

Lemma next_current k now k' s a :
  next w k now = Ret (k', s) → current k' = Some a →
  current k = Some a ∨ active_attempt a = 0%Z.
Proof.
  unfold next, next_active, settle, run_bind. intros Hn.
  repeat case_hyp Hn; simplify_eq; simpl in *; try congruence; auto; intros [= <-]; auto.
Qed.

Lemma next_last k now k' s l :
  walk_ok w k → next w k now = Ret (k', s) → last_terminal_ok k l → last_terminal_ok k' l.
Proof.
  unfold last_terminal_ok. intros Hk Hn Hl Hterm. specialize (Hl Hterm). revert Hn Hl.
  unfold next, next_active, settle, run_bind. intros Hn.
  destruct (successors w (c_node l) ERROR_PORT) as [|e es].
  - intros [Hs Hf]. rewrite Hs in Hn. simpl in Hn. simplify_eq. done.
  - intros [[Hs Hcf]|Hf].
    + rewrite Hs in Hn. simpl in Hn. repeat case_hyp Hn; simplify_eq; simpl in *; eauto 10;
        destruct Hcf as [[? ?]|?]; congruence.
    + right. destruct Hf as (f & Hf & Hkf).
      assert (status k = Failed) as Hs by (apply (wk_failure w k Hk); eauto).
      rewrite Hs in Hn. simpl in Hn. simplify_eq. eauto.
Qed.

Lemma rest_trace_ok k t now k' s :
  walk_ok w k → trace_ok k t → next w k now = Ret (k', s) →
  match s with Invoke _ => False | _ => True end →
  trace_ok k' (stepped t (status k) s now).
Proof.
  intros Hk Ht Hn Hs. pose proof (next_hops w Hw _ _ _ _ Hk Hn) as Hh.
  destruct (next_ok w Hw k now Hk) as (k2 & s2 & Hn2 & _ & Hpost). rewrite Hn in Hn2. simplify_eq.
  assert (Hbase : trace_ok k2 t).
  { destruct Ht. constructor; try done.
    - destruct s2; simpl in Hh; try done; lia.
    - intros n. destruct (next_held k now k2 s2 n Hn) as (Hv & Hle & _).
      specialize (tr_tokens0 n). rewrite Hv. lia.
    - intros a Ha Hpos. destruct (next_current _ _ _ _ _ Hn Ha) as [?|?]; [eauto|lia].
    - intros l Hl. eapply next_last; eauto. }
  destruct s2 as [call|n until att th|st]; simpl; [done| |done].
  destruct Hpost as (_ & Hlt & _). destruct Hbase. constructor; simpl; try done.
  apply Forall_app. split; [done|]. by repeat constructor.
Qed.

(** The ledger after an outcome that emits on [port]. *)
Lemma emission_held k n port payload v seq r j :
  current k = Some v → active_node v = n → (visited k n + 1 ≤ u32_max)%Z → (0 ≤ visited k n)%Z →
  let k' := enqueue_successors w
    (set_result r (set_visits (count_visit n (visits k)) (set_step_seq seq (set_current None k))))
    n port payload in
  held k' j = (held k j + count_if (λ e, to e = j) (successors w n port))%Z ∧
  (visited k' j = visited k j + if decide (n = j) then 1 else 0)%Z.
Proof.
  intros Hc Hn Hb H0. unfold held, visited, pending, running_at, count_visit in *; simpl.
  rewrite Hc, count_if_app, count_successor_tokens, lookup_insert. subst n.
  repeat case_decide; subst; simpl; rewrite ?u32_add_small by lia; split; try done; lia.
Qed.

Definition gain (call : NodeCall) (o : NodeOutcome) (j : string) : Z :=
  match emission_port call o with
  | None => 0%Z
  | Some port => count_if (λ e, to e = j) (successors w (call_node call) port)
  end.

Lemma gain_range call o j : (0 ≤ gain call o j ≤ Z.of_nat fanout)%Z.
Proof.
  unfold gain. destruct (emission_port call o) as [p|]; [|lia].
  pose proof (count_if_nonneg (λ e, to e = j) (successors w (call_node call) p)).
  pose proof (count_if_length (λ e, to e = j) (successors w (call_node call) p)).
  specialize (Hfan (call_node call) p). lia.
Qed.

Lemma applied_arrived t call o j :
  (∀ i, 0 ≤ arrived t i ∧ arrived t i + Z.of_nat fanout ≤ u32_max)%Z →
  arrived (applied w t call o) j = (arrived t j + gain call o j)%Z.
Proof.
  intros Ht. unfold gain, arrived, applied; simpl.
  destruct (emission_port call o) as [p|]; [|lia]. apply fold_arrive_lookup.
  intros i. destruct (Ht i). unfold arrived in *. specialize (Hfan (call_node call) p). lia.
Qed.

(** The ledger never grows by more than the tokens the outcome put on the frontier. *)
Lemma applied_as_held k a call o k' j :
  current k = Some a → active_node a = call_node call →
  (0 ≤ visited k (call_node call) ∧ visited k (call_node call) + 1 ≤ u32_max)%Z →
  (0 ≤ visited k j)%Z → applied_as w k call o k' →
  (0 ≤ visited k' j ∧ held k' j ≤ held k j + gain call o j)%Z.
Proof.
  intros Ha Hn [H0 H1] Hj. pose proof (gain_range call o j).
  assert (Hdrop : ∀ c, (held (set_current None c) j ≤ held c j)%Z).
  { intros c. unfold held, running_at, visited, pending; simpl. repeat case_goal; lia. }
  assert (Hemit : ∀ port payload seq r,
    emission_port call o = Some port →
    let k' := enqueue_successors w
      (set_result r (set_visits (count_visit (call_node call) (visits k))
         (set_step_seq seq (set_current None k)))) (call_node call) port payload in
    (0 ≤ visited k' j ∧ held k' j ≤ held k j + gain call o j)%Z).
  { intros port payload seq r Hp.
    destruct (emission_held k (call_node call) port payload a seq r j Ha Hn H1 H0) as [Hh Hv].
    unfold gain. rewrite Hp. simpl in *. rewrite Hh, Hv. case_decide; lia. }
  intros [until th Hk He | Ho | payload port v Ho | d kind He Hk].
  - unfold schedule_retry. rewrite Ha. split; [done|].
    unfold held, running_at, visited, pending; simpl. rewrite Ha. lia.
  - split; [done|]. specialize (Hdrop k). unfold held, running_at, visited, pending in *; simpl in *. lia.
  - destruct v as [v|]; exact (Hemit port payload (u64_add (step_seq k) 1) payload
                                 ltac:(by rewrite Ho)).
  - unfold error_or_fail. destruct (successors w (call_node call) ERROR_PORT) as [|e es].
    + split; [done|]. specialize (Hdrop k).
      unfold held, running_at, visited, pending in *; simpl in *. lia.
    + exact (Hemit ERROR_PORT (to_error_payload d) (step_seq k) (walk_result k) He).
Qed.

Lemma applied_as_retry k call o k' a :
  applied_as w k call o k' → current k' = Some a → retry_kind (outcome_kind o).
Proof.
  intros [until th Hk He | Ho | payload port v Ho | d kind He Hk]; [done|done|..].
  - by destruct v.
  - unfold error_or_fail. by destruct (successors w (call_node call) ERROR_PORT).
Qed.

Lemma applied_as_last k call o k' c :
  applied_as w k call o k' → status k = Running →
  c_node c = call_node call → c_outcome c = outcome_kind o → last_terminal_ok k' c.
Proof.
  unfold last_terminal_ok.
  intros [until th Hk He | Ho | payload port v Ho | d kind He Hk] Hs Hn Hc Ht; subst;
    rewrite Hc in Ht; try done.
  - by destruct Hk; congruence.
  - unfold error_or_fail. rewrite Hn.
    destruct (successors w (call_node call) ERROR_PORT) as [|e es] eqn:E; simpl.
    + rewrite (Hk Ht). eauto 10.
    + left. split; [done|]. right. rewrite E. by destruct (frontier k).
Qed.

Lemma invoke_trace_ok k t now k' call o now' k'' :
  walk_ok w k → trace_ok k t → next w k now = Ret (k', Invoke call) →
  apply w k' call o now' = Ok k'' →
  trace_ok k'' (applied w (stepped t (status k) (Invoke call) now) call o).
Proof.
  intros Hk Ht Hn Happ. pose proof (next_hops w Hw _ _ _ _ Hk Hn) as Hh. simpl in Hh.
  destruct (next_ok w Hw k now Hk) as (k2 & s2 & Hn2 & Hk' & Hpost). rewrite Hn in Hn2. simplify_eq.
  destruct Hpost as (Hs & Hm & a & Ha & Hb & _).
  destruct (build_call_matches w k2 a call Hb) as (_ & Hnode & Hatt).
  assert (is_terminal (status k) = false) as Est.
  { destruct (is_terminal (status k)) eqn:E; [|done]. unfold next in Hn. rewrite E in Hn. done. }
  simpl. rewrite Est.
  assert (Hocc : call_occurrence call = visited k2 (active_node a)).
  { revert Hb. unfold build_call, run_bind, expect. case_goal; [|done]. by intros [= <-]. }
  assert (Hheld : ∀ j, visited k2 j = visited k j ∧ held k2 j = held k j).
  { intros j. destruct (next_held _ _ _ _ j Hn) as (? & _ & He). eauto. }
  assert (Hroom : ∀ i, (0 ≤ arrived t i ∧ arrived t i + Z.of_nat fanout ≤ u32_max)%Z).
  { intros i. pose proof (arrived_range k t i Hk Ht). pose proof (tr_small _ _ Ht i).
    pose proof (tr_calls _ _ Ht). pose proof (wk_hops w k2 Hk'). split; [lia|]. nia. }
  pose proof (apply_shape w k2 a call o now' k'' Hne Ha Hb Happ) as Hshape.
  assert (Hvis : (0 ≤ visited k2 (call_node call) ∧
                  visited k2 (call_node call) + 1 ≤ arrived t (call_node call))%Z).
  { rewrite Hnode. destruct (Hheld (active_node a)) as [Hv Hhe].
    destruct (tr_tokens _ _ Ht (active_node a)) as [Hv0 Hle]. rewrite <- Hhe in Hle.
    unfold held, running_at in Hle. rewrite Ha, decide_True in Hle by done.
    pose proof (count_if_nonneg (λ t0, token_node t0 = active_node a) (frontier k2)).
    unfold pending in Hle. lia. }
  assert (Hhops : hops k'' = hops k2).
  { destruct (apply_total w Hw k2 a call o now' Hk' Hs Ha Hb) as (? & _ & ? & [?|(? & ? & _)]); congruence. }
  pose proof (arrived_range k t (call_node call) Hk Ht) as Hrange.
  constructor; simpl.
  - rewrite length_app; simpl. pose proof (tr_calls _ _ Ht). lia.
  - apply (tr_done _ _ Ht).
  - intros j. destruct (Hheld j) as [Hv Hhe]. destruct (tr_tokens _ _ Ht j).
    rewrite applied_arrived by done.
    destruct (applied_as_held k2 a call o k'' j Ha (eq_sym Hnode)) as [? ?]; [lia|lia|done|lia].
  - intros j. rewrite applied_arrived by done. pose proof (gain_range call o j).
    pose proof (tr_small _ _ Ht j). rewrite length_app; simpl. nia.
  - apply Forall_app. split.
    + eapply Forall_impl; [apply (tr_started _ _ Ht)|]. intros c [? ?]; simpl.
      rewrite applied_arrived by done. pose proof (gain_range call o (c_node c)). lia.
    + repeat constructor; simpl; rewrite ?Hocc, <- ?Hnode; [lia|].
      rewrite applied_arrived by done. pose proof (gain_range call o (call_node call)). lia.
  - apply Forall_app. split; [apply (tr_budget _ _ Ht)|]. repeat constructor; simpl;
    destruct (active_resolves w a (wk_current w k2 Hk' a Ha)) as [nd Hnd];
    pose proof (active_within w a (wk_current w k2 Hk' a Ha) nd Hnd) as Hw1; rewrite Hatt; [lia|].
    unfold node_budget. rewrite Hnode, Hnd. unfold budget in Hw1. lia.
  - apply windows2_snoc; [apply (tr_pairs _ _ Ht)|]. simpl. intros x Hx Hpos. rewrite Hatt in Hpos.
    destruct (next_current _ _ _ _ _ Hn Ha) as [Hold|?]; [|lia].
    destruct (tr_retry _ _ Ht a Hold Hpos) as (c & Hc & Hr). by simplify_eq.
  - intros a' Ha' Hpos. rewrite last_snoc. eexists. split; [done|]. simpl.
    by eapply applied_as_retry.
  - apply (tr_waits _ _ Ht).
  - intros l. rewrite last_snoc. intros [= <-]. by eapply applied_as_last.
Qed.

Lemma drives_ok k t : drives w k t → walk_ok w k ∧ trace_ok k t.
Proof.
  intros Hd. split; [by eapply drives_walk_ok|].
  induction Hd; [apply trace_new_ok|eapply rest_trace_ok|eapply invoke_trace_ok];
    eauto using drives_walk_ok.
Qed.

End TraceInvariant.

(** ** The checks hold of every driven state *)

Lemma windows2_elem {A} (l : list A) p : p ∈ windows2 l → p.1 ∈ l ∧ p.2 ∈ l.
Proof.
  induction l as [|x [|y l] IH]; simpl; [set_solver..|].
  rewrite elem_of_cons. intros [->|Hp]; [set_solver|]. apply IH in Hp. set_solver.
Qed.

Section Pass.
Context `{Powi} (w : Wiring) (fanout : nat) (k : Walk) (t : WalkTrace).
Context (Hw : wiring_ok w) (Hk : walk_ok w k) (Ht : trace_ok w fanout k t).
Context (Harr : ∀ n, (0 ≤ arrived t n ≤ u32_max)%Z).

Lemma walk_1_passes : walk_1_hop_limit w k t = Ok tt.
Proof.
  unfold walk_1_hop_limit. pose proof (wk_hops w k Hk). pose proof (tr_calls _ _ _ _ Ht).
  pose proof (hop_limit_u64 w Hw) as [_ Hu].
  destruct (Z.ltb_spec (hop_limit w) (hops k)); [lia|].
  destruct (Z.leb_spec (Z.of_nat (length (calls t))) u64_max); case_goal; try done;
    apply Z.ltb_lt in Heqb; lia.
Qed.

Lemma walk_3_passes : walk_3_once_per_arriving_token t = Ok tt.
Proof.
  unfold walk_3_once_per_arriving_token.
  assert (forallb (λ '(n, v), (v <=? default 0 (arrivals t !! n))%Z)
            (map_to_list (started (calls t))) = true) as ->; [|done].
  apply forallb_forall. intros [n v] Hin. apply list_elem_of_In, elem_of_map_to_list in Hin.
  apply Z.leb_le. eapply (started_bound (arrived t)); [apply Harr| |exact Hin].
  apply (tr_started _ _ _ _ Ht).
Qed.

Lemma node_budget_u32 n : (node_budget w n ≤ u32_max)%Z.
Proof.
  unfold node_budget. destruct (node w n) as [nd|]; [apply (budget_u32 nd)|].
  unfold u32_max. lia.
Qed.

Lemma walk_4_passes : walk_4_retry_budget w t = Ok tt.
Proof.
  pose proof (tr_budget _ _ _ _ Ht) as Hb. rewrite Forall_forall in Hb.
  assert (Hone : ∀ c, c ∈ calls t → u32_add (c_attempt c) 1 = (c_attempt c + 1)%Z).
  { intros c Hc. destruct (Hb c Hc). pose proof (node_budget_u32 (c_node c)).
    apply u32_add_small; lia. }
  unfold walk_4_retry_budget. rewrite existsb_false; [rewrite existsb_false; [done|]|].
  - intros [p n] Hp. pose proof (tr_pairs _ _ _ _ Ht) as Hpairs.
    rewrite Forall_forall in Hpairs. specialize (Hpairs _ Hp). simpl in Hpairs.
    destruct (windows2_elem _ _ Hp) as [Hpc _]. simpl in Hpc. unfold retried_badly.
    rewrite (Hone p Hpc). destruct (Hb p Hpc).
    destruct (Z.eqb_spec (c_attempt n) (c_attempt p + 1)) as [E|]; [|by rewrite andb_false_r].
    destruct (Hpairs ltac:(lia)) as [->| ->]; by rewrite !andb_false_r.
  - intros c Hc. rewrite Hone by done. apply Z.ltb_ge. by destruct (Hb c Hc).
Qed.

Lemma walk_5_passes : walk_5_wait_never_in_the_past t = Ok tt.
Proof.
  unfold walk_5_wait_never_in_the_past. rewrite existsb_false; [done|]. intros [a u] Hin.
  pose proof (tr_waits _ _ _ _ Ht) as Hwt. rewrite Forall_forall in Hwt.
  specialize (Hwt _ Hin). simpl in Hwt. apply Z.ltb_ge. lia.
Qed.

Lemma walk_6_passes : walk_6_terminal_outcome_matches w k t = Ok tt.
Proof.
  unfold walk_6_terminal_outcome_matches. destruct (last (calls t)) as [l|] eqn:El; [|done].
  case_decide as Hterm; [|done]. specialize (tr_last _ _ _ _ Ht l El Hterm) as Hl.
  destruct (successors w (c_node l) ERROR_PORT) as [|e es]; simpl in Hl.
  - destruct Hl as (Hs & f & -> & Hf). by rewrite decide_True.
  - destruct Hl as [[Hs _]|(f & -> & Hf)].
    + destruct (failure k) eqn:Ef; [|done].
      assert (status k = Failed) by (apply (wk_failure w k Hk); eauto). congruence.
    + by rewrite decide_True.
Qed.

End Pass.

(** WALK-1 .. WALK-6, the checks the repository samples with a property
    test, hold always: for every compiled wiring with no emit terminal and a
    fan-out whose tokens fit the [u32] counters, [check] succeeds in every state
    a driver reaches that records each step and feeds each outcome back once,
    whatever the outcomes and the clock readings are. *)
Theorem walk_checks_pass `{Powi} (en : string) (nodes : list WiringNode)
    (edges : list WiringEdge) (w : Wiring) (limit : Z) (fanout : nat) (k : Walk) (t : WalkTrace) :
  compile en nodes edges = Ok w → is_u64 limit → no_emit w →
  (∀ n p, length (successors w n p) ≤ fanout) →
  (1 + limit * Z.of_nat fanout ≤ u32_max)%Z →
  drives (set_hop_limit w limit) k t →
  check (set_hop_limit w limit) k t = Ok tt.
Proof.
  intros Hc Hl Hne Hfan Hfit Hd.
  pose proof (compile_wiring_ok en nodes edges w limit Hc Hl) as Hw.
  destruct (drives_ok _ Hw Hne fanout Hfan Hfit k t Hd) as [Hk Ht].
  assert (Harr : ∀ n, (0 ≤ arrived t n ≤ u32_max)%Z) by (intros n; by apply (arrived_range (set_hop_limit w limit) fanout Hfit k t)).
  unfold check, result_bind.
  rewrite (walk_1_passes _ fanout k t Hw Hk Ht), (walk_3_passes _ fanout k t Ht Harr),
    (walk_4_passes _ fanout k t Ht), (walk_5_passes _ fanout k t Ht).
  unfold walk_2_no_invoke_after_done. rewrite (tr_done _ _ _ _ Ht). simpl.
  by eapply walk_6_passes.
Qed.

(** Sufficient conditions on the indexed wiring, decidable by evaluation. *)
Lemma no_emit_nodes w :
  Forall (λ p : string * WiringNode, ∀ ent op, terminal p.2 ≠ Some (TEmit ent op))
    (map_to_list (by_id w)) → no_emit w.
Proof.
  intros Hall n ent op. unfold node. destruct (by_id w !! n) as [nd|] eqn:E; simpl; [|done].
  rewrite Forall_forall in Hall. by apply (Hall (n, nd)), elem_of_map_to_list.
Qed.

Lemma fanout_bound w (d : nat) :
  Forall (λ p : string * list WiringEdge, length p.2 ≤ d) (map_to_list (out w)) →
  ∀ n p, length (successors w n p) ≤ d.
Proof.
  intros Hall n p. unfold successors. etrans; [apply length_filter|].
  destruct (out w !! n) as [es|] eqn:E; simpl; [|lia].
  rewrite Forall_forall in Hall. by apply (Hall (n, es)), elem_of_map_to_list.
Qed.

(** The trace a run of the simulator's loop records, for the witnesses. *)
Fixpoint drive_script `{Powi} (fuel : nat) (w : Wiring) (k : Walk) (t : WalkTrace) (now : Z)
    (script : list NodeOutcome) : Walk * WalkTrace :=
  match fuel with
  | O => (k, t)
  | S fuel' =>
      match next w k now with
      | Ret (k', Invoke call) =>
          match script with
          | [] => (k, t)
          | o :: script' =>
              match apply w k' call o now with
              | Ok k'' =>
                  drive_script fuel' w k''
                    (applied w (stepped t (status k) (Invoke call) now) call o) now script'
              | Err _ => (k, t)
              end
          end
      | Ret (k', Wait n u a th) =>
          drive_script fuel' w k' (stepped t (status k) (Wait n u a th) now) u script
      | Ret (k', Done s) => (k', stepped t (status k) (Done s) now)
      | Panic _ => (k, t)
      end
  end.

Lemma drive_script_drives `{Powi} fuel w k t now script k' t' :
  drives w k t → drive_script fuel w k t now script = (k', t') → drives w k' t'.
Proof.
  revert k t now script. induction fuel as [|fuel IH]; intros k t now script Hd; simpl.
  { by intros [= <- <-]. }
  destruct (next w k now) as [[k1 [call|n u a th|s]]|m] eqn:En.
  - destruct script as [|o script]; [by intros [= <- <-]|].
    destruct (apply w k1 call o now) as [k2|e] eqn:Ea; [|by intros [= <- <-]].
    apply IH. eapply drive_invoke; eauto.
  - apply IH. by eapply (drive_rest w k t now k1 (Wait n u a th)).
  - intros [= <- <-]. by eapply (drive_rest w k t now k1 (Done s)).
  - by intros [= <- <-].
Qed.

(** [walk_checks_pass] at the sample wiring: three calls, one wait, one error edge not taken. *)
Lemma walk_checks_pass_witness :
  let '(k, t) := drive_script 22 (set_hop_limit Sample.wiring 10)
      (start (set_hop_limit Sample.wiring 10) Sample.delivery)
      (trace_new (set_hop_limit Sample.wiring 10)) 1000 (Sample.script Sample.flaky) in
  length (calls t) = 3 ∧ waits t = [(1000, 1100)%Z] ∧ status k = Completed ∧
  check (set_hop_limit Sample.wiring 10) k t = Ok tt.
Proof.
  destruct (drive_script _ _ _ _ _ _) as [k t] eqn:E.
  split; [|split; [|split]];
    [vm_compute in E; injection E as <- <-; vm_compute; reflexivity..|].
  apply (walk_checks_pass "load" Sample.nodes Sample.edges Sample.wiring 10 2).
  - vm_compute. reflexivity.
  - unfold is_u64, u64_max. lia.
  - apply no_emit_nodes. vm_compute. repeat (constructor; [by intros|]). constructor.
  - apply fanout_bound. vm_compute. repeat (constructor; [simpl; lia|]). constructor.
  - vm_compute. done.
  - eapply drive_script_drives; [apply drive_start|exact E].
Defined.

(** A wiring whose entry is an emit node with an error edge. *)
Definition emit_wiring : Wiring :=
  Sample.compiled (compile "publish"
    [Sample.plain "publish" (Some (TEmit "order" OpInsert)); Sample.plain "repair" None]
    [Sample.edge "publish" "error" "repair"]).

(** The checker is not exact for emit nodes: when an emit node's event has no
    dedup id the walk correctly takes the error edge, but [applied] still counts
    the arrivals of the success port, so WALK-3 reports a violation. *)
Theorem walk_3_false_alarm :
  ∃ k t, drives emit_wiring k t ∧ walk_ok emit_wiring k ∧ check emit_wiring k t = Err WALK_3.
Proof.
  destruct (drive_script 8 emit_wiring
    (start emit_wiring {| delivery_id := "d"; delivery_payload := VNull;
                          delivery_caller_attached := false |})
    (trace_new emit_wiring) 0 [ok VNull; ok VNull]) as [k t] eqn:E.
  assert (Hd : drives emit_wiring k t) by (eapply drive_script_drives; [apply drive_start|exact E]).
  exists k, t. split; [done|]. split.
  - eapply drives_walk_ok; [|exact Hd].
    apply (compile_wiring_ok "publish"
      [Sample.plain "publish" (Some (TEmit "order" OpInsert)); Sample.plain "repair" None]
      [Sample.edge "publish" "error" "repair"] emit_wiring DEFAULT_HOP_LIMIT);
      [vm_compute; reflexivity|unfold is_u64, u64_max, DEFAULT_HOP_LIMIT; lia].
  - vm_compute in E. injection E as <- <-. vm_compute. reflexivity.
Qed.
