(* ===== verification/RouterProps.v ===== *)
(** * More about the router: the compiled graph, the walk as a state machine and
    its retries *)

From stdpp Require Import base tactics option list gmap strings relations.
From Stdlib Require Import ZArith Lia.
From S2P Require Import Prelude Json Router Walk WalkFacts Route.
#[local] Set Warnings "-clear-no-such-hyp".

(** ** The walk as a step relation *)

Section Steps.
Context `{Powi} (w : Wiring).

(** What a host does with a walk: ask for the next step, give back an outcome,
    or fail the node whose outcome was refused. *)
Inductive walk_step (k : Walk) : Walk → Prop :=
| w_next now k' st : next w k now = Ret (k', st) → walk_step k k'
| w_apply call o now k' : apply w k call o now = Ok k' → walk_step k k'
| w_fail call o now e k' :
    apply w k call o now = Err e → fail_on_node_data w k (call_node call) e = Ok k' → walk_step k k'.

Lemma error_or_fail_verdict k n d kind : verdict (error_or_fail w k n d kind) = verdict k.
Proof. unfold error_or_fail, route_error. by destruct (successors w n ERROR_PORT). Qed.

Lemma apply_verdict k call o now k' v :
  apply w k call o now = Ok k' → verdict k = Some v → verdict k' = Some v.
Proof.
  unfold apply, apply_outcome, terminal_verdict, schedule_retry, complete_visit, result_bind.
  intros E Hv. rewrite Hv in E. repeat case_hyp E; simplify_eq; try done;
    by rewrite error_or_fail_verdict.
Qed.

Lemma next_verdict k now k' st v :
  next w k now = Ret (k', st) → verdict k = Some v → verdict k' = Some v.
Proof.
  unfold next, next_active, settle, run_bind. intros E Hv. rewrite Hv in E.
  repeat case_hyp E; simplify_eq; done.
Qed.

Lemma walk_step_verdict k k' v : walk_step k k' → verdict k = Some v → verdict k' = Some v.
Proof.
  intros [now k1 st E|call o now k1 E|call o now e k1 _ E] Hv;
    [by eapply next_verdict|by eapply apply_verdict|].
  unfold fail_on_node_data in E. destruct (node_data_failure e) as [[kind c]|]; [|done].
  injection E as <-. by rewrite error_or_fail_verdict.
Qed.

Lemma walk_step_terminal k k' : is_terminal (status k) = true → walk_step k k' → k' = k.
Proof.
  intros Ht [now k1 st E|call o now k1 E|call o now e k1 Ea E].
  - unfold next in E. rewrite Ht in E. by simplify_eq.
  - unfold apply in E. by rewrite Ht in E.
  - unfold apply in Ea. rewrite Ht in Ea. by simplify_eq.
Qed.

End Steps.

(** ** Theorems *)

(** [compile] accepts exactly the well-formed graphs: distinct node ids, a
    known entry and edges between known nodes.  The accepted wiring enters at the
    entry with the default hop limit, looks up exactly its nodes, and the
    successors of a port are the port's edges in ordinal order, edges with equal
    or no ordinal in the order they were written. *)
Theorem compile_exact (entry : string) (nodes : list WiringNode) (edges : list WiringEdge) :
  (is_ok (compile entry nodes edges) = true ↔
     NoDup (node_ids nodes) ∧ entry ∈ node_ids nodes ∧ Forall (edge_resolved (node_ids nodes)) edges) ∧
  ∀ w, compile entry nodes edges = Ok w →
    Router.entry w = entry ∧ hop_limit w = DEFAULT_HOP_LIMIT ∧
    (∀ n nd, node w n = Some nd ↔ nd ∈ nodes ∧ id nd = n) ∧
    (∀ n p, successors w n p =
       stable_sort edge_leb (filter (λ e, from e = n ∧ from_port e = p) edges)).
Proof.
  pose proof (compile_inv entry nodes edges) as Hinv.
  destruct (compile entry nodes edges) as [w|e]; simpl.
  - destruct Hinv as (Hwf & Hen & Hh & Hn & _ & Hs). split; [done|]. intros w' [= <-]. auto.
  - split; [|done]. split; [done|]. intros Hwf. by destruct Hinv.
Qed.

(** The first verdict stands and the end is the end: however the host goes
    on driving a walk, a recorded verdict is never replaced, and a walk that
    reached a terminal status never changes again. *)
Theorem walk_verdict_stands `{Powi} (w : Wiring) (k k' : Walk) :
  rtc (walk_step w) k k' →
  (∀ v, verdict k = Some v → verdict k' = Some v) ∧ (is_terminal (status k) = true → k' = k).
Proof.
  induction 1 as [k|k k1 k' Hs _ [IHv IHt]]; [done|]. split.
  - intros v Hv. by apply IHv, (walk_step_verdict w k).
  - intros Ht. pose proof (walk_step_terminal w _ _ Ht Hs). subst. auto.
Qed.

Lemma walk_verdict_stands_witness :
  let k := set_verdict (Some Discard) (start Sample.wiring Sample.delivery) in
  ∃ k', walk_step Sample.wiring k k' ∧ status k' = Running ∧ hops k' = 1%Z ∧
    verdict k' = Some Discard.
Proof.
  intros k. assert (∃ k' st, next Sample.wiring k 0 = Ret (k', st) ∧ status k' = Running ∧ hops k' = 1%Z)
    as (k' & st & E & Hs & Hh) by (do 2 eexists; split; [vm_compute; reflexivity|done]).
  exists k'. split; [by eapply w_next|]. split_and!; [done|done|].
  apply (walk_verdict_stands Sample.wiring k k'); [|reflexivity].
  apply rtc_once. by eapply w_next.
Defined.

(** A retry waits within its policy: whatever a node's configuration says,
    at least one attempt is made and at most [u32::MAX]; and whatever [powi]
    computes, every computed backoff is between zero and the policy's cap, which
    never exceeds one hour. *)
Theorem backoff_bounded `{Powi} (config : Value) (attempt : Z) :
  (0 ≤ cap_ms (from_config config))%Z →
  (1 ≤ max_attempts (from_config config) ≤ u32_max)%Z ∧
  (0 ≤ backoff_ms (from_config config) attempt ≤ cap_ms (from_config config))%Z ∧
  (cap_ms (from_config config) ≤ 3600000)%Z.
Proof.
  intros Hc. destruct (from_config_ranges config) as [Hm Hcap].
  split; [done|]. split; [|exact Hcap]. split; [by apply backoff_ms_nonneg|by apply backoff_ms_cap].
Qed.

(** A cap of two hours is cut to one, and the default powers stay below it. *)
Lemma backoff_bounded_witness :
  let config := VObject [("retry", VObject [("cap-ms", VNumber (PosInt 7200000));
                                            ("base-ms", VNumber (PosInt 900000))])] in
  (1 ≤ max_attempts (from_config config) ≤ u32_max)%Z ∧
  (0 ≤ backoff_ms (from_config config) 5 ≤ cap_ms (from_config config))%Z ∧
  (cap_ms (from_config config) ≤ 3600000)%Z.
Proof. intros config. apply (backoff_bounded config 5). vm_compute. discriminate. Defined.

(** The delay a rate-limited component asks for is added to the clock
    modulo 2^64.  A delay that stays below the end of the clock is waited for in
    full; every delay that reaches it wraps, by exactly 2^64 milliseconds, so the
    component is due before the reading it asked at and is retried at once. *)
Theorem retry_after_wraps `{Powi} (w : Wiring) (k : Walk) (a : Active) (call : NodeCall)
    (rl : RateLimitDetail) (delay now : Z) :
  status k = Running → current k = Some a → active_node a = call_node call →
  may_retry (from_config (call_config call)) (active_attempt a) = true →
  retry_after_ms rl = Some delay → (0 ≤ now ≤ u64_max)%Z → (0 ≤ delay ≤ u64_max)%Z →
  ∃ k' a', apply w k call (NodeFailed (RateLimited rl)) now = Ok k' ∧ current k' = Some a' ∧
    active_node a' = active_node a ∧
    ((now + delay ≤ u64_max)%Z → active_retry_until_ms a' = (now + delay)%Z) ∧
    ((u64_max < now + delay)%Z →
       active_retry_until_ms a' = (now + delay - 2 ^ 64)%Z ∧ (0 ≤ active_retry_until_ms a' < now)%Z).
Proof.
  intros Hs Ha Hn Hm Hd Hnow Hdelay. unfold apply. rewrite Hs, Ha, Hn, String.eqb_refl. simpl.
  rewrite Hm, Hd. unfold schedule_retry. rewrite Ha. do 2 eexists. split; [done|].
  split; [done|]. split; [done|]. simpl. unfold u64_add, u64_max in *. split.
  - intros Hle. apply Z.mod_small. lia.
  - intros Hlt. rewrite <- (Z.mod_unique (now + delay) 18446744073709551616 1 (now + delay - 2 ^ 64)); lia.
Qed.

Lemma retry_after_wraps_witness :
  let limited := {| detail := msg "slow"; retry_after_ms := Some u64_max; target_host := None |} in
  ∃ k call k' a', next Sample.wiring (start Sample.wiring Sample.delivery) 5 = Ret (k, Invoke call) ∧
    apply Sample.wiring k call (NodeFailed (RateLimited limited)) 5 = Ok k' ∧
    current k' = Some a' ∧ active_retry_until_ms a' = 4%Z.
Proof.
  intros limited.
  assert (∃ k call a, next Sample.wiring (start Sample.wiring Sample.delivery) 5 = Ret (k, Invoke call) ∧
    status k = Running ∧ current k = Some a ∧ active_node a = call_node call ∧
    may_retry (from_config (call_config call)) (active_attempt a) = true)
    as (k & call & a & E & Hs & Ha & Hn & Hm)
    by (do 3 eexists; do 4 (split; [vm_compute; reflexivity|]); vm_compute; reflexivity).
  destruct (retry_after_wraps Sample.wiring k a call limited u64_max 5 Hs Ha Hn Hm eq_refl
    ltac:(unfold u64_max; lia) ltac:(unfold u64_max; lia)) as (k' & a' & E1 & E2 & _ & _ & E3).
  exists k, call, k', a'. split_and!; [done..|]. by apply E3.
Defined.
