(* ===== verification/RunStatus.v ===== *)
(** * The persisted vocabularies of the run state

    [crates/execution/run-state/src]: [status.rs], [durability.rs],
    [operator_action.rs], [credential_generation.rs], [authority_class.rs].  Each
    is an enumeration with a literal per value; [SqlVocabulary] is the shape they
    share ([ALL] and [as_sql]) with the laws that make [from_sql] its inverse. *)

From stdpp Require Import base tactics option list strings.
From S2P Require Import Prelude Router.

(** ** The shared shape *)

Class SqlVocabulary (A : Type) := {
  ALL : list A;
  as_sql : A → string;
}.

(** [ALL.into_iter().find(|v| v.as_sql() == s)]. *)
Definition from_sql {A} `{SqlVocabulary A} (s : string) : option A :=
  List.find (λ v, String.eqb (as_sql v) s) ALL.

Class SqlVocabularyLaws (A : Type) `{SqlVocabulary A} := {
  all_listed : ∀ x : A, x ∈ ALL;
  as_sql_inj : ∀ x y : A, as_sql x = as_sql y → x = y;
}.

Section Vocabulary.
Context {A} `{SqlVocabularyLaws A}.

Lemma from_as_sql (x : A) : from_sql (as_sql x) = Some x.
Proof.
  unfold from_sql. destruct (List.find _ ALL) as [y|] eqn:E.
  - apply find_some in E as [_ E]. apply String.eqb_eq, as_sql_inj in E. by subst.
  - eapply find_none in E; [|apply list_elem_of_In, (all_listed x)].
    by rewrite String.eqb_refl in E.
Qed.

Lemma from_sql_Some s (x : A) : from_sql s = Some x → as_sql x = s.
Proof. intros E. apply find_some in E as [_ E]. by apply String.eqb_eq in E. Qed.

End Vocabulary.

Ltac vocabulary_laws :=
  split; [intros []; apply list_elem_of_In; simpl; tauto
         | intros [] []; simpl; intros; (reflexivity || discriminate)].

(** ** [status.rs] *)

Inductive RunStatus := Dispatched | RunRunning | RunCompleted | RunFailed | InfrastructureFailure.

#[export] Instance RunStatus_eq_dec : EqDecision RunStatus.
Proof. solve_decision. Defined.

#[export] Instance RunStatus_sql : SqlVocabulary RunStatus := {
  ALL := [Dispatched; RunRunning; RunCompleted; RunFailed; InfrastructureFailure];
  as_sql s := match s with
    | Dispatched => "dispatched"
    | RunRunning => "running"
    | RunCompleted => "completed"
    | RunFailed => "failed"
    | InfrastructureFailure => "infrastructure-failure"
    end;
}.

Definition run_terminal (s : RunStatus) : bool :=
  match s with
  | RunCompleted | RunFailed | InfrastructureFailure => true
  | Dispatched | RunRunning => false
  end.

Inductive FailType :=
| FTerminal | FRetryExhausted | FInvalidInput | FRunawayBudget | FDepthBudget | FDispatchBudget
| FUnresolvableName | FHashInvalidBytes | FForeignRevision | FIncompatibleContract
| FUnboundRequirement.

#[export] Instance FailType_eq_dec : EqDecision FailType.
Proof. solve_decision. Defined.

#[export] Instance FailType_sql : SqlVocabulary FailType := {
  ALL := [FTerminal; FRetryExhausted; FInvalidInput; FRunawayBudget; FDepthBudget;
          FDispatchBudget; FUnresolvableName; FHashInvalidBytes; FForeignRevision;
          FIncompatibleContract; FUnboundRequirement];
  as_sql t := match t with
    | FTerminal => "terminal"
    | FRetryExhausted => "retry-exhausted"
    | FInvalidInput => "invalid-input"
    | FRunawayBudget => "runaway-budget"
    | FDepthBudget => "depth-budget"
    | FDispatchBudget => "dispatch-budget"
    | FUnresolvableName => "unresolvable-name"
    | FHashInvalidBytes => "hash-invalid-bytes"
    | FForeignRevision => "foreign-revision"
    | FIncompatibleContract => "incompatible-contract"
    | FUnboundRequirement => "unbound-requirement"
    end;
}.

Inductive NodeRunStatus := NodeStarted | NodeSuccess | NodeErrored.

#[export] Instance NodeRunStatus_sql : SqlVocabulary NodeRunStatus := {
  ALL := [NodeStarted; NodeSuccess; NodeErrored];
  as_sql s := match s with
    | NodeStarted => "started" | NodeSuccess => "success" | NodeErrored => "error"
    end;
}.

Inductive NodeErrorType := TRetryable | TRateLimited | TTerminal | TInvalidInput.

#[export] Instance NodeErrorType_sql : SqlVocabulary NodeErrorType := {
  ALL := [TRetryable; TRateLimited; TTerminal; TInvalidInput];
  as_sql t := match t with
    | TRetryable => "retryable"
    | TRateLimited => "rate-limited"
    | TTerminal => "terminal"
    | TInvalidInput => "invalid-input"
    end;
}.

(** [impl From<&NodeError> for NodeErrorType]. *)
Definition node_error_type (e : NodeError) : NodeErrorType :=
  match e with
  | Retryable _ => TRetryable
  | RateLimited _ => TRateLimited
  | NodeTerminal _ => TTerminal
  | InvalidInput _ => TInvalidInput
  end.

(** ** The remaining vocabularies *)

(** [durability.rs]: one class; its [from_sql] matches the literal. *)
Inductive DurabilityClass := Standard.
#[export] Instance DurabilityClass_sql : SqlVocabulary DurabilityClass := {
  ALL := [Standard];
  as_sql c := match c with Standard => "standard" end;
}.

(** [operator_action.rs]: [as_str] and [from_str]. *)
Inductive OperatorActionBasis := ExternalEvidence | CounterpartyConfirmation | OperatorJudgment.
#[export] Instance OperatorActionBasis_sql : SqlVocabulary OperatorActionBasis := {
  ALL := [ExternalEvidence; CounterpartyConfirmation; OperatorJudgment];
  as_sql b := match b with
    | ExternalEvidence => "external-evidence"
    | CounterpartyConfirmation => "counterparty-confirmation"
    | OperatorJudgment => "operator-judgment"
    end;
}.

(** [credential_generation.rs]. *)
Inductive CredentialGeneration := GenA | GenB.
#[export] Instance CredentialGeneration_sql : SqlVocabulary CredentialGeneration := {
  ALL := [GenA; GenB];
  as_sql g := match g with GenA => "a" | GenB => "b" end;
}.
Definition other (g : CredentialGeneration) : CredentialGeneration :=
  match g with GenA => GenB | GenB => GenA end.

(** [authority_class.rs]: its labels have no inverse by design, so only the
    distinctness of labels and roles is stated of them. *)
Inductive AuthorityClass :=
  GuestSql | ExecutorPlatform | CallableHttp | EventMaterializer | Administration.
#[export] Instance AuthorityClass_sql : SqlVocabulary AuthorityClass := {
  ALL := [GuestSql; ExecutorPlatform; CallableHttp; EventMaterializer; Administration];
  as_sql c := match c with
    | GuestSql => "guest-sql"
    | ExecutorPlatform => "executor-platform"
    | CallableHttp => "callable-http"
    | EventMaterializer => "event-materializer"
    | Administration => "administration"
    end;
}.
Definition acl_role (c : AuthorityClass) : string :=
  match c with
  | GuestSql => "wamn_app"
  | ExecutorPlatform => "wamn_executor_platform"
  | CallableHttp => "wamn_http_admitter"
  | EventMaterializer => "wamn_event_materializer"
  | Administration => "wamn_administration"
  end.

#[export] Instance RunStatus_laws : SqlVocabularyLaws RunStatus.
Proof. vocabulary_laws. Qed.
#[export] Instance FailType_laws : SqlVocabularyLaws FailType.
Proof. vocabulary_laws. Qed.
#[export] Instance NodeRunStatus_laws : SqlVocabularyLaws NodeRunStatus.
Proof. vocabulary_laws. Qed.
#[export] Instance NodeErrorType_laws : SqlVocabularyLaws NodeErrorType.
Proof. vocabulary_laws. Qed.
#[export] Instance DurabilityClass_laws : SqlVocabularyLaws DurabilityClass.
Proof. vocabulary_laws. Qed.
#[export] Instance OperatorActionBasis_laws : SqlVocabularyLaws OperatorActionBasis.
Proof. vocabulary_laws. Qed.
#[export] Instance CredentialGeneration_laws : SqlVocabularyLaws CredentialGeneration.
Proof. vocabulary_laws. Qed.
#[export] Instance AuthorityClass_laws : SqlVocabularyLaws AuthorityClass.
Proof. vocabulary_laws. Qed.

Definition roundtrips (A : Type) `{SqlVocabulary A} : Prop :=
  (∀ x : A, from_sql (as_sql x) = Some x) ∧ (∀ s (x : A), from_sql s = Some x → as_sql x = s).

Lemma vocabulary_roundtrips A `{SqlVocabularyLaws A} : roundtrips A.
Proof. split; [apply from_as_sql|apply from_sql_Some]. Qed.

(** Every persisted vocabulary round-trips through its literals: reading a
    written literal gives the value back, and a literal that is read is the one
    the value writes, so no two values share a literal and no unknown literal is
    accepted. *)
Theorem persisted_literals_roundtrip :
  roundtrips RunStatus ∧ roundtrips FailType ∧ roundtrips NodeRunStatus ∧
  roundtrips NodeErrorType ∧ roundtrips DurabilityClass ∧ roundtrips OperatorActionBasis ∧
  roundtrips CredentialGeneration.
Proof. repeat (split; [apply (vocabulary_roundtrips _)|]). apply (vocabulary_roundtrips _). Qed.
