(* ===== verification/RunStore.v ===== *)
(** * The run-store boundary and the router action

    [crates/execution/run-state/src/run_store.rs] (the decision types of the
    queued-run lifecycle) and [crates/execution/workflow/src/router_action.rs]
    (the one translation of a router outcome onto that boundary), with the
    refusals of [crates/execution/workflow/src/queue.rs].

    [ProductionClaimError] keeps its category, its operation and its detail; the
    [source] chain of a Rust error carries no decision and is left out. *)

From stdpp Require Import base tactics option list gmap strings.
From Stdlib Require Import ZArith Lia.
From S2P Require Import Prelude Json Router Walk WalkFacts Route RunStatus.
#[local] Set Warnings "-clear-no-such-hyp".

(** ** [run_store.rs] *)

Inductive ProductionClaimErrorType := Identity | WiringIdentity | Storage | Contract.

Record ProductionClaimError := {
  error_type : ProductionClaimErrorType;
  operation_name : string;
  error_detail : string;
}.

Definition claim_error (t : ProductionClaimErrorType) (op detail : string) :
    ProductionClaimError :=
  {| error_type := t; operation_name := op; error_detail := detail |}.

(** [ProductionCallerOutcome]; its [kind] is one of two literals. *)
Inductive CallerKind := KResponded | KFailed.
Record ProductionCallerOutcome := {
  caller_kind : CallerKind;
  caller_body : Value;
  caller_http_status : Z;  (* u16 *)
  caller_release_node_id : option string;
}.
#[export] Instance CallerKind_eq_dec : EqDecision CallerKind.
Proof. solve_decision. Defined.

Definition outcome_type (k : CallerKind) : string :=
  match k with KResponded => "responded" | KFailed => "failed" end.

Definition responded (body : Value) (http : Z) (node_id : string) : ProductionCallerOutcome :=
  {| caller_kind := KResponded; caller_body := body; caller_http_status := http;
     caller_release_node_id := Some node_id |}.
Definition caller_failed (body : Value) (http : Z) (node_id : option string) :
    ProductionCallerOutcome :=
  {| caller_kind := KFailed; caller_body := body; caller_http_status := http;
     caller_release_node_id := node_id |}.

Record ProductionCompletion := {
  completion_status : RunStatus;
  terminal_reason : string;
  completion_result : Value;
  fail_type : option FailType;
  caller : option ProductionCallerOutcome;
}.

Definition completed (result : Value) (c : option ProductionCallerOutcome) :
    ProductionCompletion :=
  {| completion_status := RunCompleted; terminal_reason := "router-completed";
     completion_result := result; fail_type := None; caller := c |}.
Definition failed (result : Value) (t : FailType) (c : option ProductionCallerOutcome) :
    ProductionCompletion :=
  {| completion_status := RunFailed; terminal_reason := "router-failed";
     completion_result := result; fail_type := Some t; caller := c |}.

Inductive ProductionCompletionResult :=
| Terminalized
| AlreadyTerminal (s : RunStatus)
| FenceLost
| NotFound.

Inductive ProductionLeaseRenewal := Renewed | RenewalFenceLost.

Inductive ProductionReapResult := ReapEmpty | Reaped (run_id : string).

(** ** [router_action.rs] *)

Inductive ProductionRouterAction :=
| Complete (c : ProductionCompletion)
| EmitAction (event : Value) (dedup_id entity : string) (operation : Op)
| CancelledAction.

Inductive RouterResultMode := Detached | DurableCaller.

Definition is_durable (m : RouterResultMode) : bool :=
  match m with DurableCaller => true | Detached => false end.

Definition persisted_router_failure (kind : FailureKind) : FailType :=
  match kind with
  | KRetryExhausted => FRetryExhausted
  | KInvalidInput => FInvalidInput
  | KHopLimit => FRunawayBudget
  | KTerminal | KUnreleasedCaller | KMissingDedupId | KRespondWithoutCaller | KSecondVerdict =>
      FTerminal
  end.

Definition router_failure_code (kind : FailureKind) : string :=
  match kind with
  | KTerminal => "terminal"
  | KRetryExhausted => "retry-exhausted"
  | KInvalidInput => "invalid-input"
  | KHopLimit => "hop-limit"
  | KUnreleasedCaller => "unreleased-caller"
  | KMissingDedupId => "missing-dedup-id"
  | KRespondWithoutCaller => "respond-without-caller"
  | KSecondVerdict => "second-verdict"
  end.

(** The persisted body of a failed walk. *)
Definition failure_body (f : Failure) : Value :=
  let code := default (router_failure_code (failure_kind f)) (code (failure_detail f)) in
  let error := map_from_iter
    [("code", VString code); ("message", VString (message (failure_detail f)));
     ("node", VString (failure_node f))] in
  let error := match data (failure_detail f) with
               | Some d => map_insert "data" d error
               | None => error
               end in
  VObject (map_from_iter [("error", VObject error)]).

(** What the code does once no verdict was recorded. *)
Definition action_without_verdict (o : Outcome) (mode : RouterResultMode) :
    run (result ProductionRouterAction ProductionClaimError) :=
  match o_status o with
  | Completed => Ret (Err (claim_error Contract "map completed router outcome"
                             "router-completed-without-verdict"))
  | Failed =>
      Ret match o_failure o with
      | None => Err (claim_error Contract "map failed router outcome"
                       "router-failed-without-failure")
      | Some f =>
          let body := failure_body f in
          let c := if is_durable mode
                   then Some (caller_failed body 500 (Some (failure_node f)))
                   else None in
          Ok (Complete (failed body (persisted_router_failure (failure_kind f)) c))
      end
  | Cancelled => Ret (Ok CancelledAction)
  | Running => Panic "running outcomes were refused above"
  end.

Definition production_router_action_with_mode (o : Outcome) (mode : RouterResultMode) :
    run (result ProductionRouterAction ProductionClaimError) :=
  if decide (o_status o = Running) then
    Ret (Err (claim_error Contract "map router outcome" "router-returned-running-outcome"))
  else
    match o_verdict o with
    | Some (Respond payload node_id) =>
        Ret match mode with
        | DurableCaller => Ok (Complete (completed payload (Some (responded payload 200 node_id))))
        | Detached => Err (claim_error Contract "map router response"
                             "router-response-without-result-owner")
        end
    | Some (Emit event dedup_id entity operation _) =>
        Ret (Ok (EmitAction event dedup_id entity operation))
    | Some Discard =>
        Ret (if is_durable mode
             then Err (claim_error Contract "map router discard" "router-discard-with-caller")
             else Ok (Complete (completed (o_result o) None)))
    | None => action_without_verdict o mode
    end.

Definition production_router_action (o : Outcome) (caller_attached : bool) :
    run (result ProductionRouterAction ProductionClaimError) :=
  production_router_action_with_mode o (if caller_attached then DurableCaller else Detached).

(** ** What the action promises *)

(** An outcome the boundary can settle; weaker than [outcome_ok], because the
    driver also ends a delivery whose node invocation failed after a verdict. *)
Record settles (caller : bool) (o : Outcome) : Prop := {
  st_terminal : is_terminal (o_status o) = true;
  st_failed : o_status o = Failed → is_Some (o_failure o) ∨ is_Some (o_verdict o);
  st_completed : o_status o = Completed → is_Some (o_verdict o);
  st_respond : ∀ p n, o_verdict o = Some (Respond p n) → caller = true;
  st_discard : o_verdict o = Some Discard → caller = false;
}.

Lemma outcome_settles w caller o : outcome_ok w caller o → settles caller o.
Proof.
  intros [Ht _ Hf Hc Hr _ Hd]. constructor; auto.
  - intros Hs. left. by apply Hf.
  - intros p n Hv. by apply Hr in Hv as [? _].
Qed.

(** The four fields of a failure body. *)
Record failure_body_ok (f : Failure) (b : Value) : Prop := {
  fb_code : get "error" b ≫= get "code" =
    Some (VString (default (router_failure_code (failure_kind f)) (code (failure_detail f))));
  fb_message : get "error" b ≫= get "message" = Some (VString (message (failure_detail f)));
  fb_node : get "error" b ≫= get "node" = Some (VString (failure_node f));
  fb_data : get "error" b ≫= get "data" = data (failure_detail f);
}.

Lemma failure_body_fields f : failure_body_ok f (failure_body f).
Proof.
  destruct f as [n k [m c d]]. unfold failure_body. simpl.
  constructor; destruct c, d; reflexivity.
Qed.

(** What each action is, as a function of the outcome: a verdict decides alone,
    whatever the walk did afterwards; without one the status decides. *)
Definition action_spec (o : Outcome) (caller_attached : bool) (a : ProductionRouterAction) : Prop :=
  match o_verdict o with
  | Some (Respond p n) => a = Complete (completed p (Some (responded p 200 n)))
  | Some (Emit e dd ent op _) => a = EmitAction e dd ent op
  | Some Discard => a = Complete (completed (o_result o) None)
  | None =>
      match o_status o with
      | Cancelled => a = CancelledAction
      | _ => ∃ f b, o_failure o = Some f ∧ failure_body_ok f b ∧
          a = Complete (failed b (persisted_router_failure (failure_kind f))
                 (if caller_attached then Some (caller_failed b 500 (Some (failure_node f)))
                  else None))
      end
  end.

Lemma router_action_settles caller o :
  settles caller o → ∃ a, production_router_action o caller = Ret (Ok a) ∧ action_spec o caller a.
Proof.
  intros [Ht Hf Hc Hr Hd].
  unfold production_router_action, production_router_action_with_mode, action_spec,
    action_without_verdict.
  destruct (o_status o) eqn:Es; try done; rewrite decide_False by done;
    (destruct (o_verdict o) as [[p n|e dd ent op n|]|] eqn:Ev;
     [rewrite (Hr p n eq_refl); eauto|eauto|rewrite (Hd eq_refl); simpl; eauto|]); try by eauto.
  - by destruct (Hc eq_refl).
  - destruct (Hf eq_refl) as [[f Hff]|[? ?]]; [|done]. rewrite Hff. eexists. split; [done|].
    exists f, (failure_body f). split; [done|]. split; [apply failure_body_fields|].
    by destruct caller.
Qed.
