(* ===== verification/Queue.v ===== *)
(** * The run queue: claim eligibility, leases, the janitor and event run ids

    [crates/execution/run-state/src/queue/{model,claim,lease,janitor,evt}.rs] and
    the RUN-* checks of [crates/execution/run-state/src/invariants.rs].

    A [Millis] is an [i64] and an attempt count an [i32]; the sums the code
    writes with [+] wrap, as everywhere.  A [BTreeSet<&str>] of seen run ids is a
    [gset string].  A [Violation] keeps its invariant id, not its rendered text. *)

From stdpp Require Import base tactics option list gmap strings sorting.
From Stdlib Require Import ZArith Lia.
From S2P Require Import Prelude.
#[local] Set Warnings "-clear-no-such-hyp".
Open Scope Z_scope.

(** ** [model.rs] *)

Definition MAX_RETRY_BACKOFF_MS : Z := 300000.

Record QueueEntry := {
  qe_env_key : string;
  qe_run_id : string;
  qe_priority : Z;
  qe_available_at : Z;
  qe_enqueued_at : Z;
  qe_stream_seq : Z;
  qe_lease_owner : option string;
  qe_lease_expires_at : option Z;
  qe_attempts : Z;
  qe_max_attempts : Z;
}.

Definition ready (env_key run_id : string) (available_at max_attempts : Z) : QueueEntry := {|
  qe_env_key := env_key; qe_run_id := run_id; qe_priority := 0;
  qe_available_at := available_at; qe_enqueued_at := available_at; qe_stream_seq := 0;
  qe_lease_owner := None; qe_lease_expires_at := None; qe_attempts := 0;
  qe_max_attempts := max_attempts;
|}.

Definition with_stream_seq (e : QueueEntry) (seq : Z) : QueueEntry := {|
  qe_env_key := qe_env_key e; qe_run_id := qe_run_id e; qe_priority := qe_priority e;
  qe_available_at := qe_available_at e; qe_enqueued_at := qe_enqueued_at e;
  qe_stream_seq := seq; qe_lease_owner := qe_lease_owner e;
  qe_lease_expires_at := qe_lease_expires_at e; qe_attempts := qe_attempts e;
  qe_max_attempts := qe_max_attempts e;
|}.

(** ** [lease.rs] *)

(** [Option::is_some_and]. *)
Definition is_some_and {A} (o : option A) (f : A → bool) : bool :=
  match o with Some a => f a | None => false end.

Definition lease_live (now : Z) (lease_expires_at : option Z) : bool :=
  is_some_and lease_expires_at (λ t, now <? t).

Definition lease_deadline (now ttl : Z) : Z := i64_wrap (now + ttl).

Definition should_renew (now lease_expires_at renew_before : Z) : bool :=
  i64_wrap (lease_expires_at - now) <=? renew_before.

(** ** [claim.rs] *)

Inductive ClaimState := Ready | Leased | Parked | Exhausted.
#[export] Instance ClaimState_eq_dec : EqDecision ClaimState.
Proof. solve_decision. Defined.

Inductive ProductionClaimClass := Ordinary | ExpiredPreEffect.

Definition claim_state (e : QueueEntry) (now : Z) : ClaimState :=
  if now <? qe_available_at e then Parked
  else if is_some_and (qe_lease_expires_at e) (λ t, now <? t) then Leased
  else if bool_decide (is_Some (qe_lease_expires_at e)) && (qe_max_attempts e <=? qe_attempts e)
  then Exhausted
  else Ready.

Definition classify_production_claim (had_prior_lease : bool) : ProductionClaimClass :=
  if had_prior_lease then ExpiredPreEffect else Ordinary.

Definition is_claimable (e : QueueEntry) (now : Z) : bool :=
  bool_decide (claim_state e now = Ready).

Record Claimed := {
  cl_env_key : string;
  cl_run_id : string;
  cl_attempts : Z;
  cl_lease_expires_at : Z;
}.

(** The claim order [(available_at, stream_seq, run_id)]. *)
Definition claim_leb (a b : QueueEntry) : bool :=
  match qe_available_at a ?= qe_available_at b with
  | Lt => true
  | Gt => false
  | Eq => match qe_stream_seq a ?= qe_stream_seq b with
          | Lt => true
          | Gt => false
          | Eq => String.leb (qe_run_id a) (qe_run_id b)
          end
  end.

Definition claimed_of (now lease_ttl : Z) (e : QueueEntry) : Claimed := {|
  cl_env_key := qe_env_key e;
  cl_run_id := qe_run_id e;
  cl_attempts :=
    i32_wrap (qe_attempts e + (if bool_decide (is_Some (qe_lease_expires_at e)) then 1 else 0));
  cl_lease_expires_at := i64_wrap (now + lease_ttl);
|}.

Definition eligible (candidates : list QueueEntry) (now : Z) : list QueueEntry :=
  stable_sort claim_leb (filter (λ e, is_claimable e now) candidates).

Definition plan_claim (candidates : list QueueEntry) (now : Z) (limit : nat) (lease_ttl : Z) :
    list Claimed :=
  claimed_of now lease_ttl <$> take limit (eligible candidates now).

(** ** [janitor.rs] *)

Inductive JanitorVerdict := Live | Reclaimable | Orphaned.
#[export] Instance JanitorVerdict_eq_dec : EqDecision JanitorVerdict.
Proof. solve_decision. Defined.

Definition janitor_verdict (e : QueueEntry) (now grace : Z) : JanitorVerdict :=
  match qe_lease_expires_at e with
  | Some t =>
      if now <? t then Live
      else if (i64_wrap (t + grace) <=? now) && (qe_max_attempts e <=? qe_attempts e)
      then Orphaned
      else Reclaimable
  | None => Reclaimable
  end.

Definition orphans (rows : list QueueEntry) (now grace : Z) : list QueueEntry :=
  filter (λ e, janitor_verdict e now grace = Orphaned) rows.

(** ** [evt.rs] *)

Fixpoint pad_left (k : nat) (s : string) : string :=
  match k with O => s | S k' => String (digit 0) (pad_left k' s) end.

(** [{:020}] of a [u64]: twenty digits are enough for every [u64]. *)
Definition zero_padded_20 (n : Z) : string :=
  let ds := decimal 20 n EmptyString in pad_left (20 - String.length ds) ds.

Definition mint_evt_run_id (flow_id : string) (stream_seq : Z) : string :=
  flow_id +:+ ":evt:" +:+ zero_padded_20 stream_seq.

(** ** [invariants.rs] *)

Inductive Violation := RUN_2 | RUN_3 | RUN_4 | RUN_7.

Record QueueState := {
  rows : list QueueEntry;
  plan : option (list Claimed);
  limit : nat;
  grace : Z;
  now : Z;
}.

Fixpoint live_leases (now : Z) (leased : gset string) (l : list QueueEntry) :
    result (gset string) Violation :=
  match l with
  | [] => Ok leased
  | row :: l' =>
      if lease_live now (qe_lease_expires_at row) then
        if decide (qe_run_id row ∈ leased) then Err RUN_2
        else live_leases now ({[qe_run_id row]} ∪ leased) l'
      else live_leases now leased l'
  end.

Fixpoint claims_distinct (leased claimed : gset string) (l : list Claimed) :
    result unit Violation :=
  match l with
  | [] => Ok tt
  | c :: l' =>
      if decide (cl_run_id c ∈ claimed) then Err RUN_2
      else if decide (cl_run_id c ∈ leased) then Err RUN_2
      else claims_distinct leased ({[cl_run_id c]} ∪ claimed) l'
  end.

Open Scope wamn_scope.

Definition run_2_one_live_lease (s : QueueState) : result unit Violation :=
  let? leased := live_leases (now s) ∅ (rows s) in
  match plan s with
  | None => Ok tt
  | Some claims => claims_distinct leased ∅ claims
  end.

Definition run_3_claimable_is_claimed (s : QueueState) : result unit Violation :=
  match plan s with
  | None => Ok tt
  | Some claims =>
      if (limit s <=? length claims)%nat then Ok tt
      else
        let claimed : gset string := list_to_set (cl_run_id <$> claims) in
        if existsb (λ row, bool_decide (claim_state row (now s) = Ready) &&
                           negb (bool_decide (qe_run_id row ∈ claimed))) (rows s)
        then Err RUN_3 else Ok tt
  end.

(** [rows.iter().find(|row| row.run_id == claim.run_id)]. *)
Definition find_row (l : list QueueEntry) (run_id : string) : option QueueEntry :=
  List.find (λ row, String.eqb (qe_run_id row) run_id) l.

Definition over_budget (l : list QueueEntry) (c : Claimed) : bool :=
  is_some_and (find_row l (cl_run_id c)) (λ row, qe_max_attempts row <? cl_attempts c).

Definition orphaned_wrongly (now grace : Z) (row : QueueEntry) : bool :=
  bool_decide (janitor_verdict row now grace = Orphaned) &&
  ((qe_attempts row <? qe_max_attempts row) || bool_decide (claim_state row now = Ready)).

Definition run_4_budget_and_janitor (s : QueueState) : result unit Violation :=
  if is_some_and (plan s) (existsb (over_budget (rows s))) then Err RUN_4
  else if existsb (orphaned_wrongly (now s) (grace s)) (rows s) then Err RUN_4
  else Ok tt.

Definition run_7_claimable_only_past_expiry (s : QueueState) : result unit Violation :=
  if existsb (λ row, bool_decide (claim_state row (now s) = Ready) &&
                     lease_live (now s) (qe_lease_expires_at row)) (rows s)
  then Err RUN_7 else Ok tt.

Definition check (s : QueueState) : result unit Violation :=
  let? _ := run_2_one_live_lease s in
  let? _ := run_3_claimable_is_claimed s in
  let? _ := run_4_budget_and_janitor s in
  run_7_claimable_only_past_expiry s.

(** ** The claim order and eligibility *)

Lemma claim_leb_total a b : claim_leb a b = true ∨ claim_leb b a = true.
Proof.
  unfold claim_leb.
  rewrite (Z.compare_antisym (qe_available_at a)), (Z.compare_antisym (qe_stream_seq a)).
  destruct (qe_available_at a ?= qe_available_at b); simpl; auto.
  destruct (qe_stream_seq a ?= qe_stream_seq b); simpl; auto. apply String.leb_total.
Qed.

Lemma claim_leb_trans a b c :
  claim_leb a b = true → claim_leb b c = true → claim_leb a c = true.
Proof.
  unfold claim_leb.
  destruct (Z.compare_spec (qe_available_at a) (qe_available_at b)),
    (Z.compare_spec (qe_available_at b) (qe_available_at c)),
    (Z.compare_spec (qe_available_at a) (qe_available_at c)); try done; try lia.
  destruct (Z.compare_spec (qe_stream_seq a) (qe_stream_seq b)),
    (Z.compare_spec (qe_stream_seq b) (qe_stream_seq c)),
    (Z.compare_spec (qe_stream_seq a) (qe_stream_seq c)); try done; try lia.
  apply string_leb_trans.
Qed.

(** The production predicate: [available_at <= now AND (lease IS NULL OR lease
    <= now) AND (attempts < max_attempts OR lease IS NULL)]. *)
Lemma claim_state_ready e t :
  claim_state e t = Ready ↔
  qe_available_at e ≤ t ∧
  match qe_lease_expires_at e with
  | None => True
  | Some exp => exp ≤ t ∧ qe_attempts e < qe_max_attempts e
  end.
Proof.
  unfold claim_state. destruct (Z.ltb_spec t (qe_available_at e)); [split; [done|lia]|].
  destruct (qe_lease_expires_at e) as [exp|]; simpl; [|by split].
  destruct (Z.ltb_spec t exp); [split; [done|lia]|].
  destruct (Z.leb_spec (qe_max_attempts e) (qe_attempts e)); simpl; split; (done || lia).
Qed.

Lemma ready_not_live e t : claim_state e t = Ready → lease_live t (qe_lease_expires_at e) = false.
Proof.
  rewrite claim_state_ready. intros [_ Hl]. destruct (qe_lease_expires_at e); [|done].
  simpl. apply Z.ltb_ge. lia.
Qed.

Lemma elem_of_eligible c t e : e ∈ eligible c t ↔ e ∈ c ∧ claim_state e t = Ready.
Proof.
  unfold eligible, is_claimable.
  rewrite elem_of_stable_sort, list_elem_of_filter, bool_decide_spec. tauto.
Qed.

(** A claimed row's count stays within its budget: only a row below it is
    counted. *)
Definition budget_ok (e : QueueEntry) : Prop :=
  0 ≤ qe_attempts e ≤ qe_max_attempts e ∧ qe_max_attempts e ≤ i32_max.

Lemma claimed_within_budget e t ttl :
  budget_ok e → claim_state e t = Ready →
  cl_attempts (claimed_of t ttl e) ≤ qe_max_attempts e.
Proof.
  intros [? ?] [_ Hl]%claim_state_ready. simpl. unfold i32_max in *.
  destruct (qe_lease_expires_at e);
    [rewrite bool_decide_true by done|rewrite bool_decide_false by (by intros [])];
    rewrite i32_wrap_small; unfold i32_max; lia.
Qed.

(** ** The RUN-* checks over a plan *)

Lemma live_leases_spec t l : ∀ leased,
  NoDup (qe_run_id <$> l) → (∀ r, r ∈ l → qe_run_id r ∉ leased) →
  ∃ s, live_leases t leased l = Ok s ∧
    ∀ i, i ∈ s → i ∈ leased ∨
      ∃ r, r ∈ l ∧ qe_run_id r = i ∧ lease_live t (qe_lease_expires_at r) = true.
Proof.
  induction l as [|r l IH]; intros leased Hnd Hfresh; simpl; [by eauto|].
  apply NoDup_cons in Hnd as [Hr Hnd].
  destruct (lease_live t (qe_lease_expires_at r)) eqn:El.
  - rewrite decide_False by (apply Hfresh; set_solver).
    destruct (IH ({[qe_run_id r]} ∪ leased) Hnd) as (s & Hs & Hin).
    { intros r' Hr' [E%elem_of_singleton|Hin]%elem_of_union; [|by eapply Hfresh; [right|]].
      apply Hr. rewrite <- E. by apply list_elem_of_fmap_2. }
    exists s. split; [done|]. intros i Hi.
    destruct (Hin i Hi) as [[E%elem_of_singleton|?]%elem_of_union|(r' & ? & ? & ?)]; eauto.
    + right. exists r. split; [left|done].
    + right. exists r'. split; [by right|done].
  - destruct (IH leased Hnd) as (s & Hs & Hin); [intros; apply Hfresh; by right|].
    exists s. split; [done|]. intros i Hi.
    destruct (Hin i Hi) as [?|(r' & ? & ? & ?)]; eauto.
    right. exists r'. split; [by right|done].
Qed.

Lemma claims_distinct_ok leased l : ∀ claimed,
  NoDup (cl_run_id <$> l) → (∀ c, c ∈ l → (cl_run_id c ∉ claimed) ∧ (cl_run_id c ∉ leased)) →
  claims_distinct leased claimed l = Ok tt.
Proof.
  induction l as [|c l IH]; intros claimed Hnd Hf; simpl; [done|].
  apply NoDup_cons in Hnd as [Hc Hnd].
  destruct (Hf c) as [H1 H2]; [left|]. rewrite !decide_False by done.
  apply IH; [done|]. intros c' Hc'. destruct (Hf c') as [H3 H4]; [by right|].
  split; [|done]. intros [E%elem_of_singleton|?]%elem_of_union; [|done].
  apply Hc. rewrite <- E. by apply list_elem_of_fmap_2.
Qed.

Section Checks.
Context (l : list QueueEntry) (t : Z) (lim : nat) (ttl g : Z).
Context (Hnd : NoDup (qe_run_id <$> l)) (Hbudget : Forall budget_ok l).

Abbreviation planned := (plan_claim l t lim ttl).
Abbreviation st := {| rows := l; plan := Some planned; limit := lim; grace := g; now := t |}.

Lemma planned_row c :
  c ∈ planned → ∃ e, c = claimed_of t ttl e ∧ e ∈ l ∧ claim_state e t = Ready.
Proof.
  intros (e & -> & He)%list_elem_of_fmap. exists e. split; [done|].
  apply elem_of_eligible. eapply elem_of_submseteq; [done|].
  apply sublist_submseteq, sublist_take.
Qed.

Lemma planned_NoDup : NoDup (cl_run_id <$> planned).
Proof.
  unfold plan_claim. rewrite <- list_fmap_compose.
  change (cl_run_id ∘ claimed_of t ttl) with qe_run_id.
  eapply (sublist_NoDup _ (qe_run_id <$> eligible l t)); [|apply fmap_sublist, sublist_take].
  unfold eligible. rewrite stable_sort_perm.
  eapply sublist_NoDup; [exact Hnd|]. apply fmap_sublist, sublist_filter.
Qed.

Lemma run_2_passes : run_2_one_live_lease st = Ok tt.
Proof.
  unfold run_2_one_live_lease. simpl.
  destruct (live_leases_spec t l ∅ Hnd) as (s & -> & Hs); [set_solver|]. simpl.
  apply claims_distinct_ok; [apply planned_NoDup|].
  intros c (e & -> & He & Hr)%planned_row. split; [set_solver|]. simpl. intros Hin.
  destruct (Hs _ Hin) as [?|(r & Hr' & E & Hlive)]; [set_solver|].
  rewrite (NoDup_fmap_inj_on _ _ _ _ Hnd Hr' He E) in Hlive.
  by rewrite (ready_not_live _ _ Hr) in Hlive.
Qed.

Lemma run_3_passes : run_3_claimable_is_claimed st = Ok tt.
Proof.
  unfold run_3_claimable_is_claimed. simpl.
  destruct (Nat.leb_spec lim (length planned)) as [|Hlen]; [done|].
  rewrite existsb_false; [done|]. intros e He. apply andb_false_iff.
  destruct (decide (claim_state e t = Ready)) as [Hr|]; [right|left; by apply bool_decide_false].
  apply negb_false_iff, bool_decide_true, elem_of_list_to_set, list_elem_of_fmap.
  exists (claimed_of t ttl e). split; [done|]. unfold plan_claim.
  apply list_elem_of_fmap_2. rewrite take_ge; [by apply elem_of_eligible|].
  unfold plan_claim in Hlen. rewrite length_fmap, length_take in Hlen. lia.
Qed.

Lemma find_row_unique e : e ∈ l → find_row l (qe_run_id e) = Some e.
Proof.
  intros He. unfold find_row.
  destruct (List.find _ l) as [r|] eqn:E.
  - apply find_some in E as [Hr E]. apply String.eqb_eq in E. f_equal.
    apply list_elem_of_In in Hr. by eapply NoDup_fmap_inj_on.
  - apply list_elem_of_In in He. eapply find_none in E; [|exact He].
    by rewrite String.eqb_refl in E.
Qed.

Lemma orphaned_spec e :
  janitor_verdict e t g = Orphaned →
  qe_max_attempts e ≤ qe_attempts e ∧ claim_state e t ≠ Ready.
Proof.
  unfold janitor_verdict. rewrite claim_state_ready.
  destruct (qe_lease_expires_at e); [|done].
  destruct (t <? z); [done|]. destruct (i64_wrap (z + g) <=? t); [|done].
  simpl. destruct (Z.leb_spec (qe_max_attempts e) (qe_attempts e)); [|done]. lia.
Qed.

Lemma run_4_passes : run_4_budget_and_janitor st = Ok tt.
Proof.
  unfold run_4_budget_and_janitor. simpl. rewrite !existsb_false; [done| |].
  - intros e He. unfold orphaned_wrongly.
    destruct (decide (janitor_verdict e t g = Orphaned)) as [Ho|];
      [|by rewrite bool_decide_false].
    destruct (orphaned_spec e Ho) as [? ?]. rewrite bool_decide_true, bool_decide_false by done.
    destruct (Z.ltb_spec (qe_attempts e) (qe_max_attempts e)); [lia|done].
  - intros c (e & -> & He & Hr)%planned_row. unfold over_budget. simpl.
    rewrite find_row_unique by done. simpl. apply Z.ltb_ge.
    apply (claimed_within_budget e t ttl); [|done]. by eapply Forall_forall in Hbudget.
Qed.

Lemma run_7_passes : run_7_claimable_only_past_expiry st = Ok tt.
Proof.
  unfold run_7_claimable_only_past_expiry. simpl. rewrite existsb_false; [done|].
  intros e _. destruct (decide (claim_state e t = Ready)) as [Hr|];
    [|by rewrite bool_decide_false].
  rewrite (ready_not_live _ _ Hr). apply andb_false_r.
Qed.

End Checks.

(** ** Event run ids *)

(** The [k] least significant decimal digits of [n], before [acc]. *)
Fixpoint fixed_width (k : nat) (n : Z) (acc : string) : string :=
  match k with
  | O => acc
  | S k' => fixed_width k' (n / 10) (String (digit (n mod 10)) acc)
  end.

Lemma digit_compare a b x y :
  0 ≤ a < 10 → 0 ≤ b < 10 →
  String.compare (String (digit a) x) (String (digit b) y) =
    match a ?= b with Eq => String.compare x y | c => c end.
Proof.
  intros Ha Hb. simpl. unfold Ascii.compare, digit.
  rewrite !Ascii.N_ascii_embedding by lia. 
  rewrite Z2N.inj_compare, Z.add_compare_mono_l by lia. by destruct (a ?= b).
Qed.

Lemma fixed_width_compare k : ∀ a b x y,
  0 ≤ a < 10 ^ Z.of_nat k → 0 ≤ b < 10 ^ Z.of_nat k →
  String.compare (fixed_width k a x) (fixed_width k b y) =
    match a ?= b with Eq => String.compare x y | c => c end.
Proof.
  induction k as [|k IH]; intros a b x y Ha Hb.
  { simpl in *. assert (a = 0) as -> by lia. by assert (b = 0) as -> by lia. }
  rewrite Nat2Z.inj_succ, Z.pow_succ_r in Ha, Hb by lia. simpl.
  assert (Hdiv : ∀ z, 0 ≤ z < 10 * 10 ^ Z.of_nat k → 0 ≤ z / 10 < 10 ^ Z.of_nat k).
  { intros z Hz. split; [apply Z.div_pos; lia|apply Z.div_lt_upper_bound; lia]. }
  rewrite IH, digit_compare by (auto; apply Z.mod_pos_bound; lia).
  pose proof (Z.div_mod a 10). pose proof (Z.div_mod b 10).
  pose proof (Z.mod_pos_bound a 10). pose proof (Z.mod_pos_bound b 10).
  destruct (Z.compare_spec (a / 10) (b / 10)), (Z.compare_spec a b),
    (Z.compare_spec (a mod 10) (b mod 10)); (done || lia).
Qed.

Lemma pad_left_cons k s : pad_left k (String (digit 0) s) = pad_left (S k) s.
Proof. induction k as [|k IH]; simpl; [done|]. by rewrite IH. Qed.

Lemma fixed_width_zero k acc : fixed_width k 0 acc = pad_left k acc.
Proof.
  revert acc. induction k as [|k IH]; intros acc; simpl; [done|].
  change (0 / 10) with 0. change (0 mod 10) with 0. by rewrite IH, pad_left_cons.
Qed.

Lemma decimal_padded k : ∀ n acc,
  0 ≤ n < 10 ^ Z.of_nat k →
  ∃ j, (String.length (decimal k n acc) + j = k + String.length acc)%nat ∧
       pad_left j (decimal k n acc) = fixed_width k n acc.
Proof.
  induction k as [|k IH]; intros n acc Hn; simpl; [by exists 0%nat|].
  rewrite Nat2Z.inj_succ, Z.pow_succ_r in Hn by lia.
  destruct (Z.eqb_spec (n / 10) 0) as [E|E].
  - exists k. rewrite E, fixed_width_zero. simpl. split; [lia|done].
  - destruct (IH (n / 10) (String (digit (n mod 10)) acc)) as (j & Hj & E').
    { split; [apply Z.div_pos; lia|apply Z.div_lt_upper_bound; lia]. }
    exists j. simpl in Hj. split; [lia|done].
Qed.

Lemma zero_padded_fixed n : is_u64 n → zero_padded_20 n = fixed_width 20 n EmptyString.
Proof.
  unfold is_u64, u64_max. intros Hn.
  destruct (decimal_padded 20 n EmptyString) as (j & Hj & E); [simpl; lia|].
  unfold zero_padded_20. rewrite <- E. f_equal. simpl (String.length EmptyString) in Hj. lia.
Qed.

(** ** Theorems *)

(** A claim plan over one tenant's candidate rows (their run ids distinct,
    their counts within budget) passes every RUN-* check, whatever the clock,
    the batch limit, the lease length and the janitor's grace: no run is leased
    or claimed twice, no ready run is left out of an unfilled batch, no count
    passes its budget, the janitor orphans only rows no claim would take, and a
    claimable row never has a live lease. *)
Theorem run_checks_pass (l : list QueueEntry) (t : Z) (lim : nat) (ttl g : Z) :
  NoDup (qe_run_id <$> l) → Forall budget_ok l →
  check {| rows := l; plan := Some (plan_claim l t lim ttl); limit := lim; grace := g;
           now := t |} = Ok tt.
Proof.
  intros Hnd Hb. unfold check.
  by rewrite run_2_passes, run_3_passes, run_4_passes, run_7_passes.
Qed.

(** The claim is a global FIFO: a plan takes the first [limit] claimable
    rows of one order by [(available_at, stream_seq, run_id)] and nothing else,
    so no row it leaves behind precedes one it takes. *)
Theorem plan_claim_fifo (l : list QueueEntry) (t : Z) (lim : nat) (ttl : Z) :
  ∃ taken rest,
    plan_claim l t lim ttl = claimed_of t ttl <$> taken ∧
    taken ++ rest ≡ₚ filter (λ e, claim_state e t = Ready) l ∧
    length taken = Nat.min lim (length (filter (λ e, claim_state e t = Ready) l)) ∧
    StronglySorted (λ a b, claim_leb a b = true) (taken ++ rest).
Proof.
  exists (take lim (eligible l t)), (drop lim (eligible l t)).
  assert (E : filter (λ e, claim_state e t = Ready) l = filter (λ e, is_claimable e t) l).
  { apply list_filter_iff. intros e. unfold is_claimable. by rewrite bool_decide_spec. }
  rewrite take_drop, length_take. unfold eligible.
  rewrite length_stable_sort, E. split; [done|]. split; [apply stable_sort_perm|].
  split; [done|]. apply stable_sort_sorted; [apply claim_leb_total|apply claim_leb_trans].
Qed.

(** Event run ids of one flow sort as text exactly as their stream
    positions sort as numbers, over the whole [u64] range; in particular a
    redelivered position mints the same id and no two positions share one. *)
Theorem evt_run_id_order (flow : string) (a b : Z) :
  is_u64 a → is_u64 b →
  String.compare (mint_evt_run_id flow a) (mint_evt_run_id flow b) = (a ?= b).
Proof.
  intros Ha Hb. unfold mint_evt_run_id.
  rewrite !string_compare_app, !zero_padded_fixed by done.
  unfold is_u64, u64_max in *.
  rewrite fixed_width_compare by (simpl; lia). by destruct (a ?= b).
Qed.

(** ** Witnesses *)

Definition sample_rows : list QueueEntry :=
  [ready "acme" "r2" 10 3; ready "acme" "r1" 10 3;
   {| qe_env_key := "acme"; qe_run_id := "r3"; qe_priority := 0; qe_available_at := 5;
      qe_enqueued_at := 5; qe_stream_seq := 0; qe_lease_owner := Some "pod";
      qe_lease_expires_at := Some 90; qe_attempts := 1; qe_max_attempts := 3 |};
   {| qe_env_key := "acme"; qe_run_id := "r4"; qe_priority := 0; qe_available_at := 5;
      qe_enqueued_at := 5; qe_stream_seq := 0; qe_lease_owner := Some "pod";
      qe_lease_expires_at := Some 40; qe_attempts := 3; qe_max_attempts := 3 |}].

Example sample_plan :
  cl_run_id <$> plan_claim sample_rows 100 2 30 = ["r3"; "r1"] ∧
  qe_run_id <$> orphans sample_rows 100 50 = ["r4"].
Proof. by vm_compute. Qed.

Lemma run_checks_pass_witness :
  check {| rows := sample_rows; plan := Some (plan_claim sample_rows 100 2 30);
           limit := 2; grace := 50; now := 100 |} = Ok tt.
Proof.
  apply run_checks_pass.
  - apply (bool_decide_unpack _). vm_compute. exact I.
  - repeat constructor; vm_compute; discriminate.
Defined.

Lemma evt_run_id_order_witness :
  String.compare (mint_evt_run_id "f1" 9) (mint_evt_run_id "f1" 10) = Lt ∧
  mint_evt_run_id "f1" 9 = "f1:evt:00000000000000000009".
Proof.
  split; [|reflexivity].
  rewrite (evt_run_id_order "f1" 9 10); [reflexivity|unfold is_u64, u64_max; lia..].
Defined.
