(* ===== verification/RunPlane.v ===== *)
(** * The run plane: the SQL statements over [runs] and [run_queue]

    [crates/execution/run-state/src/transitions.rs], [queue/sql.rs],
    [queue/workflow.rs] and [sql.rs], with the constraints of
    [deploy/sql/run-state.sql] and [deploy/sql/run-queue.sql] they rely on.

    A [Plane] is the committed content of the two tables, keyed by
    [(env_key, run_id)].  Each statement is a function of the plane, of its
    binds and of what the database supplies: the session's [app.env_key] claim,
    the transaction clock (microseconds), the rows concurrent transactions hold
    locked (for [SKIP LOCKED]) and [random()].  One instant serves a
    transaction's [now()] and the [statement_timestamp()] of its statements (they
    differ by the time between the two only in a claim, whose lease then runs
    from the later one), and [attempts] and [lease_generation] have no upper
    bound, where the columns are [int] and [bigint].  An update whose new row breaks a
    CHECK constraint is an [Err] naming the constraint.  The columns that
    admission freezes ([guard_run_admission_pins_immutable]) form [Pins]. *)

From stdpp Require Import base tactics option list gmap strings sorting.
From Stdlib Require Import ZArith Lia.
From S2P Require Import Prelude Json Text RunStatus RunStore Queue.
#[local] Set Warnings "-clear-no-such-hyp".
Open Scope Z_scope.

(** ** Parameters of the database *)

(** The collation that orders [run_id] texts in [ORDER BY]. *)
Class Collation := collate : string → string → bool.
(** What a body reads back as after [::text::jsonb]; [None] is a refused body
    (jsonb refuses a NUL character in a string). *)
Class Jsonb := jsonb : Value → option Value.

(** ** Rows *)

(** A [timestamptz] that may be [infinity]. *)
Inductive instant := At (us : Z) | Infinity.
#[export] Instance instant_eq_dec : EqDecision instant.
Proof. solve_decision. Defined.

Definition instant_reached (a : instant) (now : Z) : bool :=
  match a with At t => t <=? now | Infinity => false end.

Definition instant_compare (a b : instant) : comparison :=
  match a, b with
  | At x, At y => x ?= y
  | At _, Infinity => Lt
  | Infinity, At _ => Gt
  | Infinity, Infinity => Eq
  end.

Definition us_of_ms (ms : Z) : Z := ms * 1000.

Record Pins := {
  p_package_id : string;
  p_environment : string;
  p_trigger_source : option string;
  p_manifest_digest : option string;
  p_flow_id : option string;
  p_flow_version : option Z;
  p_wiring_id : option string;
  p_wiring_version : option Z;
  p_wiring_hash : option string;
  p_binding_world_json : option Value;
  p_service_principal_id : option string;
  p_execution_principal_id : option string;
  p_execution_role : option string;
  p_invoked_by : option string;
  p_invoked_by_user_id : option string;
  p_node_digests_json : option Value;
  p_event_source_run_id : option string;
  p_event_root_run_id : option string;
  p_event_depth : option Z;
  p_idempotency_key : option string;
  p_input_json : Value;
  p_created_at : Z;
}.

Record CallerColumns := {
  c_outcome_type : option CallerKind;
  c_outcome_json : option Value;
  c_http_status : option Z;
  c_release_node_id : option string;
  c_outcome_hash : option string;
  c_released_at : option Z;
}.

Definition no_caller : CallerColumns := {|
  c_outcome_type := None; c_outcome_json := None; c_http_status := None;
  c_release_node_id := None; c_outcome_hash := None; c_released_at := None |}.

Record RunRow := {
  r_pins : Pins;
  r_status : RunStatus;
  r_state_json : option Value;
  r_result_json : option Value;
  r_deadline_adjustments_json : option Value;
  r_caller : CallerColumns;
  r_terminal_reason : option string;
  r_fail_type : option FailType;
  r_updated_at : Z;
}.

Record QueueRow := {
  q_available_at : instant;
  q_stream_seq : Z;
  q_lease_owner : option string;
  q_lease_expires_at : option Z;
  q_lease_generation : Z;
  q_attempts : Z;
  q_max_attempts : Z;
}.

Abbreviation key := (string * string)%type.

Record Plane := {
  runs : gmap key RunRow;
  queue : gmap key QueueRow;
}.

Definition set_runs (m : gmap key RunRow) (p : Plane) : Plane :=
  {| runs := m; queue := queue p |}.
Definition set_queue (m : gmap key QueueRow) (p : Plane) : Plane :=
  {| runs := runs p; queue := m |}.

(** The CHECK constraints of [runs] over the columns an update changes; the
    first one the row breaks. *)
Definition run_check (r : RunRow) : option string :=
  let c := r_caller r in
  if r_updated_at r <? p_created_at (r_pins r) then Some "runs_updated_after_created"
  else if negb (bool_decide (is_Some (c_released_at c) ↔ is_Some (c_outcome_type c)))
  then Some "runs_check6"
  else if bool_decide (is_Some (c_outcome_type c)) && negb (bool_decide (is_Some (c_outcome_json c)))
  then Some "runs_check7"
  else if bool_decide (c_outcome_type c = Some KResponded) &&
          negb (bool_decide (is_Some (c_release_node_id c)))
  then Some "runs_check8"
  else if is_some_and (c_http_status c) (λ h, (h <? 100) || (599 <? h))
  then Some "runs_caller_http_status_check"
  else None.

(** An [UPDATE runs ... WHERE (env_key, run_id) = k]; no row is no change. *)
Definition update_run (k : key) (f : RunRow → RunRow) (p : Plane) : result Plane string :=
  match runs p !! k with
  | None => Ok p
  | Some r => match run_check (f r) with
              | Some constraint => Err constraint
              | None => Ok (set_runs (<[k := f r]> (runs p)) p)
              end
  end.

(** [trigger_source IN ('http','internal','studio')]; NULL is not true. *)
Definition durable_source (s : option string) : bool :=
  bool_decide (s ∈ [Some "http"; Some "internal"; Some "studio"]).
Definition runnable (s : RunStatus) : bool :=
  match s with Dispatched | RunRunning => true | _ => false end.

(** ** [transitions.rs] *)

(** [FENCED_PREFIX]: the locked run and the authority's result code. *)
Definition fenced (p : Plane) (env target authority owner : string) (generation : Z) :
    string * option RunRow :=
  let locked_run :=
    if String.eqb target authority && negb (String.eqb env "")
    then runs p !! (env, target) else None in
  let locked_queue := match locked_run with Some _ => queue p !! (env, target) | None => None end in
  let code :=
    if negb (String.eqb target authority) then "cross-run-authority"
    else match locked_run with
    | None => "not-found"
    | Some r =>
        if run_terminal (r_status r) then "run-terminal"
        else match locked_queue with
        | None => "fence-lost"
        | Some q =>
            if bool_decide (q_lease_owner q ≠ Some owner) ||
               negb (q_lease_generation q =? generation)
            then "fence-lost" else "ready"
        end
    end in
  (code, locked_run).

(** The row [release_caller_sql] returns. *)
Record CallerReleaseRow := {
  cr_result_code : string;
  cr_run_status : option RunStatus;
  cr_outcome_type : option CallerKind;
  cr_outcome_json : option Value;
  cr_http_status : option Z;
  cr_release_node_id : option string;
  cr_outcome_hash : option string;
}.

Definition caller_release_row (code : string) (s : option RunStatus) (c : CallerColumns) :
    CallerReleaseRow := {|
  cr_result_code := code; cr_run_status := s; cr_outcome_type := c_outcome_type c;
  cr_outcome_json := c_outcome_json c; cr_http_status := c_http_status c;
  cr_release_node_id := c_release_node_id c; cr_outcome_hash := c_outcome_hash c |}.

(** [COALESCE] of the updated row's columns with the ones before. *)
Definition coalesce {A} (x c : option A) : option A := match x with Some _ => x | None => c end.
Definition coalesce_caller (x c : CallerColumns) : CallerColumns := {|
  c_outcome_type := coalesce (c_outcome_type x) (c_outcome_type c);
  c_outcome_json := coalesce (c_outcome_json x) (c_outcome_json c);
  c_http_status := coalesce (c_http_status x) (c_http_status c);
  c_release_node_id := coalesce (c_release_node_id x) (c_release_node_id c);
  c_outcome_hash := coalesce (c_outcome_hash x) (c_outcome_hash c);
  c_released_at := coalesce (c_released_at x) (c_released_at c) |}.

Definition set_caller (c : CallerColumns) (at_us : Z) (r : RunRow) : RunRow := {|
  r_pins := r_pins r; r_status := r_status r; r_state_json := r_state_json r;
  r_result_json := r_result_json r;
  r_deadline_adjustments_json := r_deadline_adjustments_json r; r_caller := c;
  r_terminal_reason := r_terminal_reason r; r_fail_type := r_fail_type r;
  r_updated_at := at_us |}.

Section Statements.
Context `{Jsonb}.

(** The jsonb cast of a body is evaluated for the row it is written to. *)
Definition release_caller_sql (p : Plane) (env target authority owner : string) (generation : Z)
    (kind : CallerKind) (body : Value) (http : Z) (node_id : option string) (hash : string)
    (at_us : Z) : result (Plane * CallerReleaseRow) string :=
  let '(code, locked) := fenced p env target authority owner generation in
  let released := bool_decide (is_Some (locked ≫= c_released_at ∘ r_caller)) in
  let code :=
    if String.eqb code "run-terminal" && released then "already-released"
    else if negb (String.eqb code "ready") then code
    else if released then "already-released"
    else "ready" in
  match locked with
  | Some r =>
      if String.eqb code "ready" then
        match jsonb body with
        | None => Err "invalid-json"
        | Some stored =>
            let c := {| c_outcome_type := Some kind; c_outcome_json := Some stored;
                        c_http_status := Some http; c_release_node_id := node_id;
                        c_outcome_hash := Some hash; c_released_at := Some at_us |} in
            match update_run (env, target) (set_caller c at_us) p with
            | Err constraint => Err constraint
            | Ok p' => Ok (p', caller_release_row "released" (Some (r_status r))
                                 (coalesce_caller c (r_caller r)))
            end
        end
      else Ok (p, caller_release_row code (Some (r_status r)) (r_caller r))
  | None => Ok (p, caller_release_row code None no_caller)
  end.

Definition record_deadline_adjustments_sql (p : Plane) (env target authority owner : string)
    (generation : Z) (adjustments : Value) : result (Plane * bool) string :=
  let '(code, locked) := fenced p env target authority owner generation in
  if String.eqb code "ready" then
    match jsonb adjustments with
    | None => Err "invalid-json"
    | Some stored =>
        match update_run (env, target) (λ r, {|
            r_pins := r_pins r; r_status := r_status r; r_state_json := r_state_json r;
            r_result_json := r_result_json r; r_deadline_adjustments_json := Some stored;
            r_caller := r_caller r; r_terminal_reason := r_terminal_reason r;
            r_fail_type := r_fail_type r; r_updated_at := r_updated_at r |}) p with
        | Err constraint => Err constraint
        | Ok p' => Ok (p', true)
        end
    end
  else Ok (p, false).

(** The row [terminalize_sql] returns. *)
Record TerminalizeRow := { tr_result_code : string; tr_run_status : option RunStatus }.

Definition terminalize_sql (p : Plane) (env target authority owner : string) (generation : Z)
    (status : RunStatus) (reason : string) (result_value : Value) (fail : option FailType)
    (at_us : Z) : result (Plane * TerminalizeRow) string :=
  let '(code, locked) := fenced p env target authority owner generation in
  match locked with
  | Some r =>
      let code :=
        if negb (String.eqb code "ready") then code
        else if bool_decide (status = RunCompleted) &&
                negb (bool_decide (is_Some (c_released_at (r_caller r)))) &&
                durable_source (p_trigger_source (r_pins r))
        then "caller-unreleased"
        else "ready" in
      if String.eqb code "ready" then
        match jsonb result_value with
        | None => Err "invalid-json"
        | Some stored =>
            match update_run (env, target) (λ r, {|
                r_pins := r_pins r; r_status := status; r_state_json := r_state_json r;
                r_result_json := Some stored;
                r_deadline_adjustments_json := r_deadline_adjustments_json r;
                r_caller := r_caller r; r_terminal_reason := Some reason;
                r_fail_type := fail; r_updated_at := at_us |}) p with
            | Err constraint => Err constraint
            | Ok p' =>
                Ok (set_queue (delete (env, target) (queue p')) p',
                    {| tr_result_code := "terminalized"; tr_run_status := Some status |})
            end
        end
      else Ok (p, {| tr_result_code := code; tr_run_status := Some (r_status r) |})
  | None => Ok (p, {| tr_result_code := code; tr_run_status := None |})
  end.

(** ** [queue/sql.rs] *)

Context `{Collation}.

(** [ORDER BY q.available_at, q.stream_seq, q.run_id]. *)
Definition fifo_leb (a b : string * (RunRow * QueueRow)) : bool :=
  match instant_compare (q_available_at a.2.2) (q_available_at b.2.2) with
  | Lt => true
  | Gt => false
  | Eq => match q_stream_seq a.2.2 ?= q_stream_seq b.2.2 with
          | Lt => true
          | Gt => false
          | Eq => collate a.1 b.1
          end
  end.

(** [run_queue AS q JOIN runs AS r] within the session's tenant. *)
Definition joined (p : Plane) (env : string) : list (string * (RunRow * QueueRow)) :=
  omap (λ kq : key * QueueRow,
          if String.eqb kq.1.1 env
          then (λ r, (kq.1.2, (r, kq.2))) <$> (runs p !! kq.1) else None)
       (map_to_list (queue p)).

(** [ORDER BY ... FOR UPDATE SKIP LOCKED LIMIT 1]; [locked] names the runs other
    transactions hold. *)
Definition first_unlocked (locked : string → bool) (pred : RunRow → QueueRow → bool)
    (p : Plane) (env : string) : option (string * (RunRow * QueueRow)) :=
  head (stable_sort fifo_leb
          (filter (λ c, pred c.2.1 c.2.2 && negb (locked c.1)) (joined p env))).

Definition in_scope (package_ids : list string) (environment : string) (r : RunRow) : bool :=
  bool_decide (p_package_id (r_pins r) ∈ package_ids) &&
  String.eqb (p_environment (r_pins r)) environment.

Definition claim_predicate (package_ids : list string) (environment : string)
    (digest : option string) (now : Z) (r : RunRow) (q : QueueRow) : bool :=
  in_scope package_ids environment r &&
  bool_decide (p_manifest_digest (r_pins r) = digest) &&
  instant_reached (q_available_at q) now &&
  match q_lease_expires_at q with None => true | Some t => t <=? now end &&
  ((q_attempts q <? q_max_attempts q) || bool_decide (q_lease_expires_at q = None)).

Definition select_production_claim_sql (p : Plane) (env : string) (locked : string → bool)
    (package_ids : list string) (environment : string) (digest : option string) (now : Z) :
    option (string * bool * RunRow) :=
  match first_unlocked locked (claim_predicate package_ids environment digest now) p env with
  | None => None
  | Some (run_id, (r, q)) => Some (run_id, bool_decide (is_Some (q_lease_expires_at q)), r)
  end.

Definition clear_pre_effect_state_sql (p : Plane) (env run_id : string) :
    result (Plane * option string) string :=
  match runs p !! (env, run_id) with
  | None => Ok (p, None)
  | Some _ =>
      match update_run (env, run_id) (λ r, {|
          r_pins := r_pins r; r_status := r_status r; r_state_json := None;
          r_result_json := r_result_json r;
          r_deadline_adjustments_json := r_deadline_adjustments_json r;
          r_caller := r_caller r; r_terminal_reason := r_terminal_reason r;
          r_fail_type := r_fail_type r; r_updated_at := r_updated_at r |}) p with
      | Err constraint => Err constraint
      | Ok p' => Ok (p', Some run_id)
      end
  end.

Definition with_attempts (n : Z) (q : QueueRow) : QueueRow := {|
  q_available_at := q_available_at q; q_stream_seq := q_stream_seq q;
  q_lease_owner := q_lease_owner q; q_lease_expires_at := q_lease_expires_at q;
  q_lease_generation := q_lease_generation q; q_attempts := n;
  q_max_attempts := q_max_attempts q |}.

Definition advance_claim_attempts_sql (p : Plane) (env run_id : string) : Plane * option Z :=
  match queue p !! (env, run_id) with
  | None => (p, None)
  | Some q =>
      let n := q_attempts q + (if bool_decide (is_Some (q_lease_expires_at q)) then 1 else 0) in
      (set_queue (<[(env, run_id) := with_attempts n q]> (queue p)) p, Some n)
  end.

Definition set_running (r : RunRow) : RunRow := {|
  r_pins := r_pins r; r_status := RunRunning; r_state_json := r_state_json r;
  r_result_json := r_result_json r;
  r_deadline_adjustments_json := r_deadline_adjustments_json r; r_caller := r_caller r;
  r_terminal_reason := r_terminal_reason r; r_fail_type := r_fail_type r;
  r_updated_at := r_updated_at r |}.

Definition grant_lease (runner : string) (expires generation : Z) (q : QueueRow) : QueueRow := {|
  q_available_at := q_available_at q; q_stream_seq := q_stream_seq q;
  q_lease_owner := Some runner; q_lease_expires_at := Some expires;
  q_lease_generation := generation; q_attempts := q_attempts q;
  q_max_attempts := q_max_attempts q |}.

(** [$4::text IS NULL OR r.manifest_digest = $4]. *)
Definition pin_matches (digest : option string) (r : RunRow) : bool :=
  match digest with
  | None => true
  | Some d => bool_decide (p_manifest_digest (r_pins r) = Some d)
  end.

(** The [leased] CTE writes the queue row whether or not [marked] finds its run;
    no returned row is [None]. *)
Definition grant_production_claim_sql (p : Plane) (env run_id runner : string) (ttl_ms : Z)
    (digest : option string) (now : Z) : result (Plane * option Z) string :=
  match queue p !! (env, run_id) with
  | None => Ok (p, None)
  | Some q =>
      let generation := q_lease_generation q + 1 in
      let p1 := set_queue (<[(env, run_id) :=
        grant_lease runner (now + us_of_ms ttl_ms) generation q]> (queue p)) p in
      match runs p !! (env, run_id) with
      | Some r =>
          if runnable (r_status r) && pin_matches digest r then
            match update_run (env, run_id) set_running p1 with
            | Err constraint => Err constraint
            | Ok p2 => Ok (p2, Some generation)
            end
          else Ok (p1, None)
      | None => Ok (p1, None)
      end
  end.

(** A live lease under its exact owner and generation. *)
Definition holds_lease (q : QueueRow) (runner : string) (generation now : Z) : bool :=
  bool_decide (q_lease_owner q = Some runner) && (q_lease_generation q =? generation) &&
  is_some_and (q_lease_expires_at q) (λ t, now <? t).

Definition renew_production_lease_sql (p : Plane) (env run_id runner : string)
    (generation ttl_ms now : Z) : Plane * option Z :=
  match queue p !! (env, run_id) with
  | Some q =>
      if holds_lease q runner generation now then
        let expires := now + us_of_ms ttl_ms in
        (set_queue (<[(env, run_id) := {|
           q_available_at := q_available_at q; q_stream_seq := q_stream_seq q;
           q_lease_owner := q_lease_owner q; q_lease_expires_at := Some expires;
           q_lease_generation := q_lease_generation q; q_attempts := q_attempts q;
           q_max_attempts := q_max_attempts q |}]> (queue p)) p, Some expires)
      else (p, None)
  | None => (p, None)
  end.

(** [LEAST(300000, 1000.0 * power(2.0, LEAST(attempts, 9)) * (1.0 + random() * 0.2))]
    milliseconds, in microseconds.  [random()] is [u / 2^53]; the double
    roundings of the product, below a microsecond here, are not modelled. *)
Definition release_backoff_us (attempts u : Z) : Z :=
  let base := 1000000 * 2 ^ (Z.min attempts 9) in
  Z.min (us_of_ms MAX_RETRY_BACKOFF_MS) (base + base * u / (5 * 2 ^ 53)).

Definition release_production_claim_sql (p : Plane) (env run_id runner : string)
    (generation now u : Z) : Plane * option (bool * option string * option Z) :=
  match runs p !! (env, run_id), queue p !! (env, run_id) with
  | Some r, Some q =>
      if holds_lease q runner generation now && runnable (r_status r) then
        let n := q_attempts q + 1 in
        (set_queue (<[(env, run_id) := {|
           q_available_at := At (now + release_backoff_us (q_attempts q) u);
           q_stream_seq := q_stream_seq q;
           q_lease_owner := None; q_lease_expires_at := None;
           q_lease_generation := q_lease_generation q; q_attempts := n;
           q_max_attempts := q_max_attempts q |}]> (queue p)) p,
         Some (q_max_attempts q <=? n, p_wiring_id (r_pins r), p_wiring_version (r_pins r)))
      else (p, None)
  | _, _ => (p, None)
  end.

Definition exhausted_predicate (grace_ms : Z) (package_ids : list string) (environment : string)
    (now : Z) (r : RunRow) (q : QueueRow) : bool :=
  in_scope package_ids environment r &&
  is_some_and (q_lease_expires_at q) (λ t, t + us_of_ms grace_ms <=? now) &&
  (q_max_attempts q <=? q_attempts q) &&
  runnable (r_status r).

Definition select_exhausted_production_sql (p : Plane) (env : string) (locked : string → bool)
    (grace_ms : Z) (package_ids : list string) (environment : string) (now : Z) :
    option (string * RunRow) :=
  match first_unlocked locked (exhausted_predicate grace_ms package_ids environment now) p env with
  | None => None
  | Some (run_id, (r, _)) => Some (run_id, r)
  end.

(** [terminalize_exhausted_sql]: one text for the janitor ([fail] absent) and for
    a claim released at its attempt limit. *)
Definition terminalize_exhausted_sql (status : RunStatus) (fail : option FailType)
    (p : Plane) (env run_id : string) (body : Value) (hash : string) (at_us : Z) :
    result (Plane * option RunStatus) string :=
  match runs p !! (env, run_id) with
  | None => Ok (p, None)
  | Some r =>
      if runnable (r_status r) then
        let pins := r_pins r in
        let candidate_result :=
          match fail with
          | Some _ => true
          | None => bool_decide (p_flow_id pins = None) && bool_decide (p_flow_version pins = None)
                    && bool_decide (is_Some (p_wiring_hash pins))
                    && bool_decide (is_Some (p_binding_world_json pins))
          end in
        let unreleased_attached :=
          durable_source (p_trigger_source pins) &&
          bool_decide (c_released_at (r_caller r) = None) in
        match (if candidate_result || unreleased_attached then jsonb body else Some VNull) with
        | None => Err "invalid-json"
        | Some stored =>
            match update_run (env, run_id) (λ r, {|
                r_pins := r_pins r; r_status := status; r_state_json := r_state_json r;
                r_result_json := if candidate_result then Some stored else r_result_json r;
                r_deadline_adjustments_json := r_deadline_adjustments_json r;
                r_caller := if unreleased_attached then {|
                    c_outcome_type := Some KFailed; c_outcome_json := Some stored;
                    c_http_status := Some 500; c_release_node_id := None;
                    c_outcome_hash := Some hash; c_released_at := Some at_us |}
                  else r_caller r;
                r_terminal_reason := Some (match fail with Some f => as_sql f | None => as_sql status end);
                r_fail_type := match fail with Some f => Some f | None => r_fail_type r end;
                r_updated_at := at_us |}) p with
            | Err constraint => Err constraint
            | Ok p' =>
                Ok (set_queue (delete (env, run_id) (queue p')) p',
                    match queue p !! (env, run_id) with Some _ => Some status | None => None end)
            end
        end
      else Ok (p, None)
  end.

Definition terminalize_exhausted_production_sql := terminalize_exhausted_sql InfrastructureFailure None.
Definition terminalize_released_production_sql :=
  terminalize_exhausted_sql RunFailed (Some FRetryExhausted).

End Statements.

(** ** [queue/workflow.rs] *)

(** The CHECK constraints of [runs] over the columns an admission writes
    ([registration_id] is NULL in every admission modelled). *)

(** [~ '^sha256:[0-9a-f]{64}$']. *)
Definition digest_spelling (s : string) : bool :=
  match strip_prefix "sha256:" s with
  | Some hex => (String.length hex =? 64)%nat &&
      forallb (λ c, existsb (Ascii.eqb c) (String.list_ascii_of_string "0123456789abcdef")) (String.list_ascii_of_string hex)
  | None => false
  end.

Definition filled (o : option string) : bool := is_some_and o (λ s, negb (String.eqb s "")).
Definition from_source (pins : Pins) (source : string) : bool := bool_decide (p_trigger_source pins = Some source).

Definition wiring_identity_check (pins : Pins) : bool :=
  match p_wiring_id pins, p_wiring_version pins with
  | None, None => true
  | Some id, Some version => negb (String.eqb id "") && (0 <? version)
  | _, _ => false
  end.

(** The component-era wiring every later arm of the grain asks for. *)
Definition wired (pins : Pins) : bool :=
  bool_decide (p_flow_id pins = None) && bool_decide (p_flow_version pins = None) &&
  filled (p_wiring_id pins) && is_some_and (p_wiring_version pins) (λ v, 0 <? v) &&
  is_some_and (p_wiring_hash pins) digest_spelling.

(** What an event, manual and schedule workflow run share. *)
Definition workflow_grain (pins : Pins) : bool :=
  wired pins && bool_decide (p_service_principal_id pins = None) &&
  bool_decide (is_Some (p_manifest_digest pins)) &&
  is_some_and (p_node_digests_json pins) (λ v, match v with VObject _ => true | _ => false end) &&
  bool_decide (is_Some (p_execution_principal_id pins)) && filled (p_execution_role pins) &&
  bool_decide (p_binding_world_json pins = None).

Definition execution_grain_check (pins : Pins) : bool :=
  (filled (p_flow_id pins) && is_some_and (p_flow_version pins) (λ v, 0 <? v) &&
   bool_decide (p_wiring_hash pins = None) && bool_decide (p_binding_world_json pins = None)) ||
  (wired pins && is_some_and (p_binding_world_json pins) (λ v, match v with VArray _ => true | _ => false end)) ||
  (wired pins && from_source pins "automation" && bool_decide (is_Some (p_service_principal_id pins)) &&
   bool_decide (p_binding_world_json pins = None)) ||
  (workflow_grain pins && from_source pins "event" && filled (p_invoked_by pins)) ||
  (workflow_grain pins && from_source pins "manual" && bool_decide (p_invoked_by pins = Some "manual") &&
   bool_decide (is_Some (p_invoked_by_user_id pins))) ||
  (workflow_grain pins && from_source pins "schedule" && bool_decide (p_invoked_by pins = Some "schedule") &&
   bool_decide (p_invoked_by_user_id pins = None)).

Definition event_ancestry_check (pins : Pins) : bool :=
  (bool_decide (p_event_source_run_id pins = None) && bool_decide (p_event_root_run_id pins = None) &&
   bool_decide (p_event_depth pins = None)) ||
  (from_source pins "event" && filled (p_event_source_run_id pins) && filled (p_event_root_run_id pins) &&
   bool_decide (is_Some (p_event_depth pins))).

Definition execution_identity_check (pins : Pins) : bool :=
  from_source pins "manual" || from_source pins "schedule" || from_source pins "event" ||
  (bool_decide (p_execution_principal_id pins = None) && bool_decide (p_execution_role pins = None) &&
   bool_decide (p_invoked_by pins = None) && bool_decide (p_invoked_by_user_id pins = None) &&
   bool_decide (p_node_digests_json pins = None)).

Definition pins_check (pins : Pins) : option string :=
  if is_some_and (p_event_depth pins) (λ d, (d <? 0) || (16 <? d)) then Some "runs_event_depth_check"
  else if String.eqb (p_package_id pins) "" || String.eqb (p_environment pins) "" then Some "runs_check"
  else if negb (event_ancestry_check pins) then Some "runs_check2"
  else if negb (match p_manifest_digest pins with Some d => digest_spelling d | None => true end)
  then Some "runs_release_record_check"
  else if negb (wiring_identity_check pins) then Some "runs_wiring_identity_check"
  else if negb (execution_grain_check pins) then Some "runs_execution_grain_check"
  else if negb (execution_identity_check pins) then Some "runs_execution_identity_check"
  else if negb (Bool.eqb (from_source pins "automation") (bool_decide (is_Some (p_service_principal_id pins))))
  then Some "runs_service_principal_check"
  else None.

(** What refuses an inserted row besides: the casts of its principals to [uuid], the
    foreign key to the releases, row-level security, and the rule that a run of
    depth zero is its own source and root. *)
Class AdmissionChecks := other_check : Pins → option string.

Definition admission_check `{AdmissionChecks} (pins : Pins) : option string :=
  match pins_check pins with Some constraint => Some constraint | None => other_check pins end.

(** [INSERT INTO runs ... ON CONFLICT (env_key, idempotency_key) WHERE
    idempotency_key IS NOT NULL DO NOTHING RETURNING run_id].  [run_id] is the
    column default [gen_random_uuid()::text]; a taken primary key is an error.
    The constraints are checked before the conflict. *)
Definition key_taken (p : Plane) (env : string) (k : option string) : bool :=
  bool_decide (is_Some k) &&
  existsb (λ kr : key * RunRow,
    String.eqb kr.1.1 env && bool_decide (p_idempotency_key (r_pins kr.2) = k))
    (map_to_list (runs p)).

Definition admitted_row (pins : Pins) : RunRow := {|
  r_pins := pins; r_status := Dispatched; r_state_json := None; r_result_json := None;
  r_deadline_adjustments_json := None; r_caller := no_caller; r_terminal_reason := None;
  r_fail_type := None; r_updated_at := p_created_at pins |}.

Definition insert_run_sql `{AdmissionChecks} (p : Plane) (env run_id : string) (pins : Pins) :
    result (Plane * option string) string :=
  match admission_check pins with
  | Some constraint => Err constraint
  | None =>
      if key_taken p env (p_idempotency_key pins) then Ok (p, None)
      else match runs p !! (env, run_id) with
      | Some _ => Err "runs_pkey"
      | None => Ok (set_runs (<[(env, run_id) := admitted_row pins]> (runs p)) p, Some run_id)
      end
  end.

(** The pins a workflow admission of each grain freezes. *)
Record WorkflowBinds := {
  w_package_id : string; w_manifest_digest : string; w_environment : string;
  w_wiring_id : string; w_wiring_version : Z; w_wiring_hash : string;
  w_principal_id : string; w_role : string; w_node_digests : Value;
  w_idempotency_key : string; w_input : Value;
}.

Definition workflow_pins (b : WorkflowBinds) (source : string) (service executing : option string)
    (role invoked_by user : option string) (digests : option Value)
    (event : option (string * string * Z)) (now : Z) : Pins := {|
  p_package_id := w_package_id b; p_environment := w_environment b;
  p_trigger_source := Some source; p_manifest_digest := Some (w_manifest_digest b);
  p_flow_id := None; p_flow_version := None; p_wiring_id := Some (w_wiring_id b);
  p_wiring_version := Some (w_wiring_version b); p_wiring_hash := Some (w_wiring_hash b);
  p_binding_world_json := None; p_service_principal_id := service;
  p_execution_principal_id := executing; p_execution_role := role;
  p_invoked_by := invoked_by; p_invoked_by_user_id := user; p_node_digests_json := digests;
  p_event_source_run_id := (λ e, e.1.1) <$> event; p_event_root_run_id := (λ e, e.1.2) <$> event;
  p_event_depth := snd <$> event; p_idempotency_key := Some (w_idempotency_key b);
  p_input_json := w_input b; p_created_at := now |}.

(** The binds as the columns hold them: [$n::text::jsonb] of the input and of the
    digests, which may refuse either. *)
Definition with_json (input digests : Value) (b : WorkflowBinds) : WorkflowBinds := {|
  w_package_id := w_package_id b; w_manifest_digest := w_manifest_digest b;
  w_environment := w_environment b; w_wiring_id := w_wiring_id b;
  w_wiring_version := w_wiring_version b; w_wiring_hash := w_wiring_hash b;
  w_principal_id := w_principal_id b; w_role := w_role b; w_node_digests := digests;
  w_idempotency_key := w_idempotency_key b; w_input := input |}.

Section Inserts.
Context `{Jsonb, AdmissionChecks}.

Definition cast_binds (b : WorkflowBinds) : option WorkflowBinds :=
  match jsonb (w_input b), jsonb (w_node_digests b) with
  | Some input, Some digests => Some (with_json input digests b)
  | _, _ => None
  end.

Definition insert_binds_sql (p : Plane) (env run_id : string) (binds : option WorkflowBinds)
    (pins : WorkflowBinds → Pins) : result (Plane * option string) string :=
  match binds with None => Err "invalid-json" | Some b => insert_run_sql p env run_id (pins b) end.

Definition insert_automation_run_sql p env run_id b now :=
  insert_binds_sql p env run_id ((λ input, with_json input (w_node_digests b) b) <$> jsonb (w_input b))
    (λ b, workflow_pins b "automation" (Some (w_principal_id b)) None None None None None None now).
Definition event_pins (delivery : string) (actor : option string) (event : option (string * string * Z)) (now : Z)
    (b : WorkflowBinds) : Pins :=
  workflow_pins b "event" None (Some (w_principal_id b)) (Some (w_role b)) (Some delivery) actor
    (Some (w_node_digests b)) event now.
Definition insert_event_run_sql p env run_id b delivery actor event now :=
  insert_binds_sql p env run_id (cast_binds b) (event_pins delivery actor event now).
Definition manual_pins (user : string) (now : Z) (b : WorkflowBinds) : Pins :=
  workflow_pins b "manual" None (Some (w_principal_id b)) (Some (w_role b)) (Some "manual")
    (Some user) (Some (w_node_digests b)) None now.
Definition insert_manual_run_sql p env run_id b user now :=
  insert_binds_sql p env run_id (cast_binds b) (manual_pins user now).
Definition schedule_pins (now : Z) (b : WorkflowBinds) : Pins :=
  workflow_pins b "schedule" None (Some (w_principal_id b)) (Some (w_role b)) (Some "schedule")
    None (Some (w_node_digests b)) None now.
Definition insert_workflow_schedule_run_sql p env run_id b now :=
  insert_binds_sql p env run_id (cast_binds b) (schedule_pins now).

End Inserts.

(** [SELECT run_id FROM runs WHERE env_key = $1 AND idempotency_key = $2 AND
    trigger_source = '..' AND input_json = $3]; the unique index leaves at most
    one. *)
Definition select_first_run_sql (source : string) (p : Plane) (env k : string) (input : Value)
    (same : Value → Value → bool) : option string :=
  head ((λ kr : key * RunRow, kr.1.2) <$>
    filter (λ kr : key * RunRow,
      String.eqb kr.1.1 env && bool_decide (p_idempotency_key (r_pins kr.2) = Some k) &&
      bool_decide (p_trigger_source (r_pins kr.2) = Some source) &&
      same (p_input_json (r_pins kr.2)) input) (map_to_list (runs p))).
Definition select_event_run_sql := select_first_run_sql "event".
Definition select_manual_run_sql := select_first_run_sql "manual".
Definition select_workflow_schedule_run_sql := select_first_run_sql "schedule".

(** The column defaults of [run_queue]. *)
Definition fresh_queue_row (now : Z) : QueueRow := {|
  q_available_at := At now; q_stream_seq := 0; q_lease_owner := None;
  q_lease_expires_at := None; q_lease_generation := 0; q_attempts := 0; q_max_attempts := 20 |}.

Definition insert_run_queue_sql (p : Plane) (env run_id : string) (now : Z) : result Plane string :=
  match queue p !! (env, run_id), runs p !! (env, run_id) with
  | Some _, _ => Err "run_queue_pkey"
  | None, None => Err "run_queue_env_key_run_id_fkey"
  | None, Some _ => Ok (set_queue (<[(env, run_id) := fresh_queue_row now]> (queue p)) p)
  end.

Definition with_available (a : instant) (q : QueueRow) : QueueRow := {|
  q_available_at := a; q_stream_seq := q_stream_seq q; q_lease_owner := q_lease_owner q;
  q_lease_expires_at := q_lease_expires_at q; q_lease_generation := q_lease_generation q;
  q_attempts := q_attempts q; q_max_attempts := q_max_attempts q |}.

(** [UPDATE run_queue AS q SET available_at = a FROM runs AS r WHERE ...]. *)
Definition move_available (p : Plane) (env run_id : string) (a : instant)
    (pred : RunRow → QueueRow → bool) : Plane * option string :=
  match runs p !! (env, run_id), queue p !! (env, run_id) with
  | Some r, Some q =>
      if pred r q
      then (set_queue (<[(env, run_id) := with_available a q]> (queue p)) p, Some run_id)
      else (p, None)
  | _, _ => (p, None)
  end.

Definition park_queued_run_sql (p : Plane) (env run_id environment : string) (now : Z) :=
  move_available p env run_id Infinity (λ r q,
    String.eqb (p_environment (r_pins r)) environment &&
    bool_decide (r_status r = Dispatched) &&
    match q_lease_expires_at q with None => true | Some t => t <=? now end &&
    negb (bool_decide (q_available_at q = Infinity))).

Definition release_parked_run_sql (p : Plane) (env run_id environment : string) (now : Z) :=
  move_available p env run_id (At now) (λ r q,
    String.eqb (p_environment (r_pins r)) environment &&
    bool_decide (q_available_at q = Infinity)).

Record RunQueueState := {
  rs_status : RunStatus; rs_queued : bool; rs_parked : bool; rs_leased : bool;
}.

Definition select_run_queue_state_sql (p : Plane) (env run_id environment : string) (now : Z) :
    option RunQueueState :=
  match runs p !! (env, run_id) with
  | Some r =>
      if String.eqb (p_environment (r_pins r)) environment then
        let q := queue p !! (env, run_id) in
        Some {| rs_status := r_status r; rs_queued := bool_decide (is_Some q);
                rs_parked := bool_decide (q_available_at <$> q = Some Infinity);
                rs_leased := is_some_and (q ≫= q_lease_expires_at) (λ t, now <? t) |}
      else None
  | None => None
  end.

(** ** [sql.rs] *)

Definition us_per_day : Z := 86400000000.

(** [DELETE FROM runs ...]; the queue rows of the deleted runs cascade. *)
Definition prunable (env : string) (retention_days now : Z) (kr : key * RunRow) : bool :=
  String.eqb kr.1.1 env && run_terminal (r_status kr.2) &&
  (p_created_at (r_pins kr.2) <? now - retention_days * us_per_day).

Definition prune_terminal_runs_sql (p : Plane) (env : string) (retention_days now : Z) : Plane :=
  {| runs := filter (λ kr, prunable env retention_days now kr = false) (runs p);
     queue := filter (λ kq : key * QueueRow,
       is_some_and (runs p !! kq.1) (λ r, prunable env retention_days now (kq.1, r)) = false)
       (queue p) |}.
