(* ===== verification/ClaimStore.v ===== *)
(** * The host's claim store: the transactions over the run plane

    [crates/platform/runtime/src/plugins/wamn_postgres/production_claim.rs], with
    the result decoding of [crates/execution/run-state/src/transitions.rs].  Each
    method runs its statements in one transaction: [Ok] commits, an error rolls
    back to the plane the transaction began with.  A transaction takes from
    outside the database clock, the host clock, the rows other transactions hold
    locked, [random()] and whether the database refuses the lease grant.  Checkout
    and COMMIT failures end a method before or without a change and are left out. *)

From stdpp Require Import base tactics option list gmap strings.
From Stdlib Require Import ZArith Lia.
From S2P Require Import Prelude Text Json Canonical RunStatus RunStore Queue RunPlane.
#[local] Set Warnings "-clear-no-such-hyp".
Open Scope Z_scope.

(** ** Transactions *)

Definition tx (A : Type) : Type := Plane → result (Plane * A) ProductionClaimError.
#[export] Instance tx_ret : MRet tx := λ A a p, Ok (p, a).
#[export] Instance tx_bind : MBind tx := λ A B k m p,
  match m p with Ok (p', a) => k a p' | Err e => Err e end.

Definition refuse {A} (e : ProductionClaimError) : tx A := λ _, Err e.
Definition ensure {A} (r : result A ProductionClaimError) : tx A := λ p,
  match r with Ok a => Ok (p, a) | Err e => Err e end.
Definition observe {A} (f : Plane → A) : tx A := λ p, Ok (p, f p).
(** A statement whose database error is a [Storage] failure of [op]. *)
Definition statement {A} (op : string) (s : Plane → result (Plane * A) string) : tx A := λ p,
  match s p with Ok x => Ok x | Err c => Err (claim_error Storage op c) end.
Definition statement' {A} (s : Plane → Plane * A) : tx A := λ p, Ok (s p).
(** [query_one]: no row is a [Storage] failure. *)
Definition one_row {A} (op : string) (o : option A) : tx A :=
  match o with Some a => mret a | None => refuse (claim_error Storage op "no rows") end.

(** Commit on success, roll back on failure. *)
Definition transact {A} (m : tx A) (p : Plane) : Plane * result A ProductionClaimError :=
  match m p with Ok (p', a) => (p', Ok a) | Err e => (p, Err e) end.

(** ** What the host injects for a component *)

Record Host := {
  env_key_for : string → option string;
  runner_for : string → option string;
  release_identity_for : string → option string;  (* its manifest digest *)
  executor_member : bool;  (* the login is a member of the executor role *)
}.

Definition require_executor_authority (h : Host) : tx unit :=
  if executor_member h then mret tt
  else refuse (claim_error Identity "check executor authority"
                 "executor-platform-authority-required").

(** ** Decoding *)

Record StoredCallerOutcome := {
  so_type : CallerKind;
  so_body : Value;
  so_http_status : option Z;
  so_release_node_id : option string;
  so_hash : option string;
}.

Definition exactly_matches (s : StoredCallerOutcome) (kind : CallerKind) (body : Value)
    (http : option Z) (node_id : option string) (hash : string) : bool :=
  bool_decide (so_type s = kind) && value_eqb (so_body s) body &&
  bool_decide (so_http_status s = http) && bool_decide (so_release_node_id s = node_id) &&
  bool_decide (so_hash s = Some hash).

Inductive CallerReleaseResult :=
| CallerReleased
| CallerAlreadyReleased (o : StoredCallerOutcome)
| CallerRunTerminal (s : RunStatus)
| CallerFenceLost
| CallerCrossRunAuthority
| CallerNotFound.

Definition status_text (s : option RunStatus) : string :=
  match s with Some s => as_sql s | None => "" end.

(** [CallerReleaseResult::from_parts]. *)
Definition caller_from_parts (code run_status : string) (kind : option CallerKind)
    (body : option Value) (http : option Z) (node_id hash : option string) :
    option CallerReleaseResult :=
  if String.eqb code "released" then Some CallerReleased
  else if String.eqb code "already-released" then
    k ← kind; b ← body;
    Some (CallerAlreadyReleased {| so_type := k; so_body := b; so_http_status := http;
            so_release_node_id := node_id; so_hash := hash |})
  else if String.eqb code "run-terminal" then CallerRunTerminal <$> from_sql run_status
  else if String.eqb code "fence-lost" then Some CallerFenceLost
  else if String.eqb code "cross-run-authority" then Some CallerCrossRunAuthority
  else if String.eqb code "not-found" then Some CallerNotFound
  else None.

Inductive TerminalizeResult :=
| TTerminalized
| TRunTerminal (s : RunStatus)
| TCallerUnreleased
| TFenceLost
| TCrossRunAuthority
| TNotFound.

(** [TerminalizeResult::from_parts]. *)
Definition terminalize_from_parts (code run_status : string) : option TerminalizeResult :=
  if String.eqb code "terminalized" then Some TTerminalized
  else if String.eqb code "run-terminal" then TRunTerminal <$> from_sql run_status
  else if String.eqb code "caller-unreleased" then Some TCallerUnreleased
  else if String.eqb code "fence-lost" then Some TFenceLost
  else if String.eqb code "cross-run-authority" then Some TCrossRunAuthority
  else if String.eqb code "not-found" then Some TNotFound
  else None.

(** The rendered code of an undecodable row is part of the error text only. *)
Definition decode_caller_release (row : CallerReleaseRow) :
    result CallerReleaseResult ProductionClaimError :=
  if is_some_and (cr_http_status row) (λ h, (h <? 0) || (65535 <? h)) then
    Err (claim_error Contract "decode production caller outcome" "out of range integral type conversion attempted")
  else
    ok_or (caller_from_parts (cr_result_code row) (status_text (cr_run_status row))
             (cr_outcome_type row) (cr_outcome_json row) (cr_http_status row)
             (cr_release_node_id row) (cr_outcome_hash row))
          (claim_error Contract "decode production caller release"
             ("unknown or incomplete result " +:+ cr_result_code row)).

Definition decode_terminalization (row : TerminalizeRow) :
    result TerminalizeResult ProductionClaimError :=
  ok_or (terminalize_from_parts (tr_result_code row) (status_text (tr_run_status row)))
        (claim_error Contract "decode production terminalization"
           ("unknown or incomplete result " +:+ tr_result_code row)).

Inductive ExhaustedExecutionIdentity :=
| IFlow (flow_id : string) (flow_version : Z)
| IWiring (wiring_id : string) (wiring_version : Z).

Definition coordinate (code : string) (identity : ExhaustedExecutionIdentity) (run_id : string) :
    Value :=
  VObject (map_from_iter
    match identity with
    | IFlow f v => [("code", VString code); ("flow-id", VString f);
                    ("flow-version", number_of_int v); ("run-id", VString run_id)]
    | IWiring w v => [("code", VString code); ("wiring-id", VString w);
                      ("wiring-version", number_of_int v); ("run-id", VString run_id)]
    end).

(** ** Scope validation *)

Definition valid_package_scope (package_ids : list string) : bool :=
  match package_ids with [] => false | _ => true end &&
  forallb (λ s, negb (String.eqb s "") && is_trimmed s && negb (contains_nul s)) package_ids.

(** ** The selected claim *)

(** The connection bindings a candidate run froze ([claims.rs]) are kept as the
    decoder's result: accepted, or refused with a text. *)
Class BindingWorlds := binding_world_from_json : Value → result Value string.

Record Causation := { cause_run : string; cause_root : string; cause_depth : Z }.

Record ProductionWorkflow := {
  wf_wiring_hash : string;
  wf_execution_principal_id : string;
  wf_execution_role : string;
  wf_node_digests : list (string * string);
  wf_causation : option Causation;
}.

Record SelectedClaim := {
  sc_run_id : string;
  sc_package_id : string;
  sc_had_prior_lease : bool;
  sc_status : RunStatus;
  sc_payload : Value;
  sc_wiring_id : string;
  sc_wiring_version : Z;
  sc_router_caller_attached : bool;
  sc_durable_caller_attached : bool;
  sc_candidate : option (string * Value);  (* wiring hash, binding world *)
  sc_service_principal_id : option string;
  sc_workflow : option ProductionWorkflow;
}.

Definition corrupt {A} (detail : string) : result A ProductionClaimError :=
  Err (claim_error Contract "decode production candidate" detail).

Definition decode_wiring_identity (wiring_id : option string) (wiring_version : option Z) :
    result (string * Z) ProductionClaimError :=
  match wiring_id, wiring_version with
  | Some w, Some v =>
      if negb (String.eqb w "") && (0 <? v) then Ok (w, v)
      else Err (claim_error WiringIdentity "decode production candidate"
                  "run-wiring-identity-corrupt")
  | None, None => Err (claim_error WiringIdentity "decode production candidate"
                         "run-wiring-identity-missing")
  | _, _ => Err (claim_error WiringIdentity "decode production candidate"
                   "run-wiring-identity-corrupt")
  end.

(** [serde_json::from_str::<BTreeMap<String, String>>]. *)
Definition string_map_of (v : Value) : option (list (string * string)) :=
  match v with
  | VObject m => mapM (λ kv : string * Value, (λ t, (kv.1, t)) <$> as_str kv.2) m
  | _ => None
  end.

Definition workflow_source (s : option string) : bool :=
  bool_decide (s ∈ [Some "manual"; Some "schedule"; Some "event"]).

Definition decode_workflow (wiring_hash source principal role : option string)
    (digests : option Value) : result (option ProductionWorkflow) ProductionClaimError :=
  match workflow_source source, wiring_hash, principal, role, digests with
  | false, _, None, None, None => Ok None
  | true, Some hash, Some principal, Some role, Some digests =>
      if String.eqb role "" then corrupt "run-workflow-execution-corrupt"
      else match string_map_of digests with
      | None => corrupt "run-workflow-execution-corrupt"
      | Some m => Ok (Some {| wf_wiring_hash := hash; wf_execution_principal_id := principal;
                              wf_execution_role := role; wf_node_digests := m;
                              wf_causation := None |})
      end
  | _, _, _, _, _ => corrupt "run-workflow-execution-corrupt"
  end.

(** The two classifications [select_production_claim_sql] projects. *)
Definition router_caller_attached (pins : Pins) : bool :=
  durable_source (p_trigger_source pins) ||
  (bool_decide (p_flow_id pins = None) && bool_decide (p_flow_version pins = None) &&
   bool_decide (p_trigger_source pins ∈ [Some "scenario-draft"; Some "test-case"])).

Definition decode_candidate `{BindingWorlds} (pins : Pins) :
    result (option (string * Value)) ProductionClaimError :=
  match p_flow_id pins, p_flow_version pins, p_wiring_hash pins, p_binding_world_json pins with
  | None, None, Some hash, None =>
      if String.eqb hash "" then corrupt "run-execution-grain-corrupt" else Ok None
  | Some flow_id, Some flow_version, None, None =>
      if negb (String.eqb flow_id "") && (0 <? flow_version) then Ok None
      else corrupt "run-execution-grain-corrupt"
  | None, None, Some hash, Some world =>
      if String.eqb hash "" then corrupt "run-execution-grain-corrupt"
      else match binding_world_from_json world with
      | Ok w => Ok (Some (hash, w))
      | Err e => corrupt e
      end
  | _, _, _, _ => corrupt "run-execution-grain-corrupt"
  end.

(** The causation of an event run; its depth is an [i32] that must fit [u32]. *)
Definition decode_causation (run_id : string) (pins : Pins) (w : ProductionWorkflow) :
    result ProductionWorkflow ProductionClaimError :=
  match p_event_root_run_id pins, p_event_depth pins with
  | Some root, Some depth =>
      if depth <? 0 then Err (claim_error Contract "decode event depth"
                                "out of range integral type conversion attempted")
      else Ok {| wf_wiring_hash := wf_wiring_hash w;
                 wf_execution_principal_id := wf_execution_principal_id w;
                 wf_execution_role := wf_execution_role w;
                 wf_node_digests := wf_node_digests w;
                 wf_causation := Some {| cause_run := run_id; cause_root := root;
                                         cause_depth := depth |} |}
  | _, _ => Ok w
  end.

Open Scope wamn_scope.

Definition decode_selected_claim `{BindingWorlds} (run_id : string) (had_prior_lease : bool)
    (r : RunRow) : result SelectedClaim ProductionClaimError :=
  let pins := r_pins r in
  let? ' (wid, wv) := decode_wiring_identity (p_wiring_id pins) (p_wiring_version pins) in
  let? candidate := decode_candidate pins in
  if bool_decide (is_Some candidate) &&
     (negb (router_caller_attached pins) || durable_source (p_trigger_source pins))
  then corrupt "candidate-caller-grain-corrupt"
  else
  let? workflow := decode_workflow (p_wiring_hash pins) (p_trigger_source pins)
    (p_execution_principal_id pins) (p_execution_role pins) (p_node_digests_json pins) in
  let? workflow :=
    match workflow with
    | Some w => result_bind (decode_causation run_id pins w) (λ w, Ok (Some w))
    | None => Ok None
    end in
  if bool_decide (is_Some workflow) &&
     (bool_decide (is_Some candidate) || bool_decide (is_Some (p_service_principal_id pins)))
  then corrupt "run-execution-grain-corrupt"
  else Ok {|
    sc_run_id := run_id; sc_package_id := p_package_id pins;
    sc_had_prior_lease := had_prior_lease; sc_status := r_status r;
    sc_payload := p_input_json pins; sc_wiring_id := wid; sc_wiring_version := wv;
    sc_router_caller_attached := router_caller_attached pins;
    sc_durable_caller_attached := durable_source (p_trigger_source pins);
    sc_candidate := candidate; sc_service_principal_id := p_service_principal_id pins;
    sc_workflow := workflow |}.

Inductive ProductionClaimResult :=
| ClaimEmpty
| ClaimReady (c : SelectedClaim) (lease_generation : Z).

Inductive ClaimTurn :=
| TurnClaimed (r : ProductionClaimResult)
| GrantRefused (e : ProductionClaimError).

Section Store.
Context `{Jsonb, Collation, FloatText, Sha256}.

(** The body and its hash. *)
Definition generic_failure_outcome (code : string) (identity : ExhaustedExecutionIdentity)
    (run_id : string) : Value * string :=
  let body := VObject (map_from_iter [("error", coordinate code identity run_id)]) in
  (body, canonical_json_sha256 body).

(** ** Releasing, renewing, completing *)

Definition release_in_transaction (h : Host) (env run_id runner : string)
    (generation now u at_us : Z) : tx bool :=
  _ ← require_executor_authority h;
  released ← statement' (λ p, release_production_claim_sql p env run_id runner generation now u);
  match released with
  | None => mret false
  | Some (exhausted, wiring_id, wiring_version) =>
      if (exhausted : bool) then
        wid ← ensure (ok_or wiring_id (claim_error Contract "decode production claim row"
                                         "released wiring id"));
        wv ← ensure (ok_or wiring_version (claim_error Contract "decode production claim row"
                                             "released wiring version"));
        let '(body, hash) :=
          generic_failure_outcome (as_sql FRetryExhausted) (IWiring wid wv) run_id in
        row ← statement "terminalize release exhaustion"
          (λ p, terminalize_released_production_sql p env run_id body hash at_us);
        _ ← one_row "terminalize release exhaustion" row;
        mret true
      else mret true
  end.

Definition renew_in_transaction (h : Host) (env run_id runner : string)
    (generation ttl_ms now : Z) : tx ProductionLeaseRenewal :=
  _ ← require_executor_authority h;
  renewed ← statement' (λ p, renew_production_lease_sql p env run_id runner generation ttl_ms now);
  mret (match renewed with Some _ => Renewed | None => RenewalFenceLost end).

Definition terminalize_in_transaction (env run_id runner : string) (generation : Z)
    (c : ProductionCompletion) (at_us : Z) : tx ProductionCompletionResult :=
  row ← statement "terminalize production run"
    (λ p, terminalize_sql p env run_id run_id runner generation (completion_status c)
            (terminal_reason c) (completion_result c) (fail_type c) at_us);
  decoded ← ensure (decode_terminalization row);
  match decoded with
  | TTerminalized => mret Terminalized
  | TRunTerminal s => mret (AlreadyTerminal s)
  | TFenceLost => mret FenceLost
  | TNotFound => mret NotFound
  | TCallerUnreleased =>
      refuse (claim_error Contract "terminalize production run" "production-caller-unreleased")
  | TCrossRunAuthority =>
      refuse (claim_error Contract "terminalize production run" "production-cross-run-authority")
  end.

Definition complete_in_transaction (h : Host) (env run_id runner : string) (generation : Z)
    (c : ProductionCompletion) (at_us : Z) : tx ProductionCompletionResult :=
  _ ← require_executor_authority h;
  match caller c with
  | None => terminalize_in_transaction env run_id runner generation c at_us
  | Some k =>
      let hash := canonical_json_sha256 (caller_body k) in
      row ← statement "release production caller"
        (λ p, release_caller_sql p env run_id run_id runner generation (caller_kind k)
                (caller_body k) (caller_http_status k) (caller_release_node_id k) hash at_us);
      release ← ensure (decode_caller_release row);
      match release with
      | CallerReleased => terminalize_in_transaction env run_id runner generation c at_us
      | CallerAlreadyReleased stored =>
          if exactly_matches stored (caller_kind k) (caller_body k) (Some (caller_http_status k))
               (caller_release_node_id k) hash
          then terminalize_in_transaction env run_id runner generation c at_us
          else refuse (claim_error Contract "release production caller"
                         "production-caller-outcome-conflict")
      | CallerRunTerminal s => mret (AlreadyTerminal s)
      | CallerFenceLost => mret FenceLost
      | CallerNotFound => mret NotFound
      | CallerCrossRunAuthority =>
          refuse (claim_error Contract "release production caller" "production-cross-run-authority")
      end
  end.

Definition record_in_transaction (h : Host) (env run_id runner : string) (generation : Z)
    (adjustments : Value) : tx bool :=
  _ ← require_executor_authority h;
  statement "store deadline report"
    (λ p, record_deadline_adjustments_sql p env run_id run_id runner generation adjustments).

(** ** Claiming

    [grant_error] is the database's refusal of the grant, which its savepoint
    undoes without undoing the statements before it. *)

Context `{BindingWorlds}.

Definition claim_in_transaction (h : Host) (env runner : string) (package_ids : list string)
    (environment : string) (ttl_ms : Z) (release : option string) (locked : string → bool)
    (grant_error : option string) (now : Z) : tx ClaimTurn :=
  _ ← require_executor_authority h;
  row ← observe (λ p, select_production_claim_sql p env locked package_ids environment release now);
  match row with
  | None => mret (TurnClaimed ClaimEmpty)
  | Some (run_id, had_prior_lease, r) =>
      selected ← ensure (decode_selected_claim run_id had_prior_lease r);
      if negb (runnable (sc_status selected)) then
        refuse (claim_error Contract "validate selected run"
          ("queue row " +:+ run_id +:+ " references non-runnable status " +:+ as_sql (sc_status selected)))
      else
      _ ← match classify_production_claim (sc_had_prior_lease selected) with
          | ExpiredPreEffect =>
              cleared ← statement "clear pre-effect state"
                (λ p, clear_pre_effect_state_sql p env run_id);
              _ ← one_row "clear pre-effect state" cleared;
              mret tt
          | Ordinary => mret tt
          end;
      advanced ← statement' (λ p, advance_claim_attempts_sql p env run_id);
      _ ← one_row "advance crash evidence" advanced;
      let digest := match sc_candidate selected with Some _ => None | None => release end in
      match grant_error with
      | Some e => mret (GrantRefused (claim_error Storage "grant production lease" e))
      | None =>
          granted ← statement "grant production lease"
            (λ p, grant_production_claim_sql p env run_id runner ttl_ms digest now);
          generation ← ensure (ok_or granted (claim_error Contract "grant production lease"
            "claiming release digest does not match the run admission pin"));
          mret (TurnClaimed (ClaimReady selected generation))
      end
  end.

(** ** Reaping *)

Definition exhausted_identity (pins : Pins) :
    result ExhaustedExecutionIdentity ProductionClaimError :=
  let broken := Err (claim_error Contract "decode exhausted candidate"
                       "run-execution-grain-corrupt") in
  match p_flow_id pins, p_flow_version pins, p_wiring_id pins, p_wiring_version pins with
  | Some f, Some v, _, _ => if negb (String.eqb f "") && (0 <? v) then Ok (IFlow f v) else broken
  | None, None, Some w, Some v =>
      if negb (String.eqb w "") && (0 <? v) then Ok (IWiring w v) else broken
  | _, _, _, _ => broken
  end.

Definition reap_in_transaction (h : Host) (env : string) (package_ids : list string)
    (environment : string) (grace_ms : Z) (locked : string → bool) (now at_us : Z) :
    tx ProductionReapResult :=
  _ ← require_executor_authority h;
  row ← observe (λ p, select_exhausted_production_sql p env locked grace_ms package_ids environment now);
  match row with
  | None => mret ReapEmpty
  | Some (run_id, r) =>
      identity ← ensure (exhausted_identity (r_pins r));
      if negb (runnable (r_status r)) then
        refuse (claim_error Contract "validate exhausted candidate"
                  ("non-runnable status " +:+ as_sql (r_status r)))
      else
      let '(body, hash) := generic_failure_outcome "infrastructure-failure" identity run_id in
      row ← statement "terminalize exhausted run"
        (λ p, terminalize_exhausted_production_sql p env run_id body hash at_us);
      status ← ensure (ok_or row (claim_error Contract "terminalize exhausted run"
                                    "selected run or queue row disappeared while locked"));
      if negb (bool_decide (status = InfrastructureFailure)) then
        refuse (claim_error Contract "terminalize exhausted run" ("unexpected status " +:+ as_sql status))
      else mret (Reaped run_id)
  end.

(** ** The store's methods *)

Definition validated {A} (ok : bool) (op detail : string) (h : Host) (component tenant runner : string)
    (k : string → string → tx A) (p : Plane) : Plane * result A ProductionClaimError :=
  if negb ok then (p, Err (claim_error Contract op detail))
  else match env_key_for h component with
  | None => (p, Err (claim_error Identity tenant "component has no host-injected tenant"))
  | Some env =>
      match runner_for h component with
      | None => (p, Err (claim_error Identity runner "component has no host-injected runner"))
      | Some r => transact (k env r) p
      end
  end.

Definition nonempty (s : string) : bool := negb (String.eqb s "").

Definition claim_next (h : Host) (component : string) (package_ids : list string)
    (environment : string) (ttl_ms : Z) (locked : string → bool) (grant_error : option string)
    (now : Z) (p : Plane) : Plane * result ProductionClaimResult ProductionClaimError :=
  let '(p', turn) :=
    validated (valid_package_scope package_ids && nonempty environment && (0 <? ttl_ms))
      "validate queue scope"
      "a nonempty canonical package set, environment, and positive lease TTL are required"
      h component "resolve tenant" "resolve runner"
      (λ env runner, claim_in_transaction h env runner package_ids environment ttl_ms
         (release_identity_for h component) locked grant_error now) p in
  (p', match turn with
       | Ok (TurnClaimed r) => Ok r
       | Ok (GrantRefused e) => Err e
       | Err e => Err e
       end).

Definition reap_exhausted (h : Host) (component : string) (package_ids : list string)
    (environment : string) (grace_ms : Z) (locked : string → bool) (now at_us : Z) (p : Plane) :
    Plane * result ProductionReapResult ProductionClaimError :=
  validated (valid_package_scope package_ids && nonempty environment && (0 <=? grace_ms))
    "validate janitor scope"
    "a nonempty canonical package set, environment, and non-negative janitor grace are required"
    h component "resolve janitor tenant" "resolve janitor runner"
    (λ env _, reap_in_transaction h env package_ids environment grace_ms locked now at_us) p.

Definition renew (h : Host) (component run_id : string) (generation ttl_ms now : Z) (p : Plane) :
    Plane * result ProductionLeaseRenewal ProductionClaimError :=
  validated ((0 <? generation) && (0 <? ttl_ms)) "validate production lease renewal"
    "lease generation and TTL must be positive"
    h component "resolve renewal tenant" "resolve renewal runner"
    (λ env runner, renew_in_transaction h env run_id runner generation ttl_ms now) p.

Definition complete (h : Host) (component run_id : string) (generation : Z)
    (c : ProductionCompletion) (at_us : Z) (p : Plane) :
    Plane * result ProductionCompletionResult ProductionClaimError :=
  validated (0 <? generation) "validate production completion" "lease generation must be positive"
    h component "resolve completion tenant" "resolve completion runner"
    (λ env runner, complete_in_transaction h env run_id runner generation c at_us) p.

Definition record_deadline_adjustments (h : Host) (component run_id : string) (generation : Z)
    (adjustments : Value) (p : Plane) : Plane * result bool ProductionClaimError :=
  validated (0 <? generation) "validate production deadline report"
    "lease generation must be positive"
    h component "resolve deadline report tenant" "resolve deadline report runner"
    (λ env runner, record_in_transaction h env run_id runner generation adjustments) p.

Definition release_claim (h : Host) (component run_id : string) (generation now u at_us : Z)
    (p : Plane) : Plane * result bool ProductionClaimError :=
  validated (0 <? generation) "validate production lease release"
    "lease generation must be positive"
    h component "resolve release tenant" "resolve release runner"
    (λ env runner, release_in_transaction h env run_id runner generation now u at_us) p.

(** [PINNED_BACKLOG_SQL] under the host's release. *)
Definition pinned_backlog (h : Host) (component : string) (package_ids : list string)
    (environment : string) (p : Plane) : Plane * result bool ProductionClaimError :=
  if negb (valid_package_scope package_ids && nonempty environment) then
    (p, Err (claim_error Contract "validate backlog scope"
               "a nonempty canonical package set and environment are required"))
  else match release_identity_for h component with
  | None => (p, Ok false)
  | Some digest =>
      validated true "" "" h component "resolve backlog tenant" "resolve backlog runner"
        (λ env _,
          _ ← require_executor_authority h;
          observe (λ p, existsb (λ c : string * (RunRow * QueueRow),
            in_scope package_ids environment c.2.1 &&
            bool_decide (p_manifest_digest (r_pins c.2.1) = Some digest) &&
            runnable (r_status c.2.1)) (joined p env))) p
  end.

End Store.
