(* ===== verification/PlaneSpec.v ===== *)
(** * The abstract run plane: transitions and invariants

    What the statements of [RunPlane] are meant to add up to: a run is admitted
    with its queue row, claimed under a fresh lease generation, renewed,
    released, annotated, finished once, parked and woken.  [transition] is that
    state machine; [plane_ok] its invariant.  [ClaimRefines] shows that every
    method of the claim store is a sequence of these transitions. *)

From stdpp Require Import base tactics option list gmap strings relations.
From Stdlib Require Import ZArith Lia.
From S2P Require Import Prelude Json RunStatus RunStore Queue RunPlane.
#[local] Set Warnings "-clear-no-such-hyp".
Open Scope Z_scope.

(** ** The invariant *)

Record queue_row_ok (r : RunRow) (q : QueueRow) : Prop := {
  qr_runnable : runnable (r_status r) = true;
  qr_attempts : 0 ≤ q_attempts q ≤ q_max_attempts q;
  (** An unleased row has attempts left: a release at the limit ends the run. *)
  qr_unleased : q_lease_expires_at q = None → q_attempts q < q_max_attempts q;
  qr_lease : is_Some (q_lease_owner q) ↔ is_Some (q_lease_expires_at q);
  qr_generation : 0 ≤ q_lease_generation q;
  qr_leased : is_Some (q_lease_expires_at q) → 1 ≤ q_lease_generation q;
  (** A dispatched run was never claimed. *)
  qr_dispatched : r_status r = Dispatched →
    q_lease_expires_at q = None ∧ q_lease_generation q = 0 ∧ q_attempts q = 0;
  (** Only a dispatched run is parked. *)
  qr_parked : q_available_at q = Infinity → r_status r = Dispatched;
}.

Record plane_ok (p : Plane) : Prop := {
  (** RUN-1: a run that is not finished has its queue row, and a queue row its
      unfinished run. *)
  pk_queued : ∀ k r, runs p !! k = Some r → runnable (r_status r) = true → is_Some (queue p !! k);
  pk_rows : ∀ k q, queue p !! k = Some q → ∃ r, runs p !! k = Some r ∧ queue_row_ok r q;
  pk_checks : ∀ k r, runs p !! k = Some r → run_check r = None;
  (** RUN-6: one idempotency key admits one run. *)
  pk_keys : ∀ env i j a b, runs p !! (env, i) = Some a → runs p !! (env, j) = Some b →
    is_Some (p_idempotency_key (r_pins a)) →
    p_idempotency_key (r_pins a) = p_idempotency_key (r_pins b) → i = j;
}.

(** ** The transitions *)

(** A row's next version: its pins stay, and a released caller outcome stands. *)
Record next_version (r r' : RunRow) : Prop := {
  nv_pins : r_pins r' = r_pins r;
  nv_caller : is_Some (c_released_at (r_caller r)) → r_caller r' = r_caller r;
  nv_checks : run_check r' = None;
}.

Definition claims (n expires : Z) (owner : string) (q q' : QueueRow) : Prop :=
  q' = grant_lease owner expires (q_lease_generation q + 1) (with_attempts n q).

(** What a claim counts: a lease that expired. *)
Definition counted (q : QueueRow) : Z :=
  q_attempts q + (if bool_decide (is_Some (q_lease_expires_at q)) then 1 else 0).

Definition claimable_budget (q : QueueRow) : Prop :=
  q_lease_expires_at q = None ∨ q_attempts q < q_max_attempts q.

Inductive transition (p : Plane) : Plane → Prop :=
| t_admit env i pins now :
    runs p !! (env, i) = None → queue p !! (env, i) = None →
    key_taken p env (p_idempotency_key pins) = false →
    transition p {| runs := <[(env, i) := admitted_row pins]> (runs p);
                    queue := <[(env, i) := fresh_queue_row now]> (queue p) |}
| t_annotate k r r' :
    runs p !! k = Some r → runnable (r_status r) = true →
    r_status r' = r_status r → next_version r r' →
    transition p (set_runs (<[k := r']> (runs p)) p)
| t_claim k r q q' owner expires :
    runs p !! k = Some r → queue p !! k = Some q → runnable (r_status r) = true →
    claimable_budget q → q_available_at q ≠ Infinity →
    claims (counted q) expires owner q q' → run_check (set_running r) = None →
    transition p {| runs := <[k := set_running r]> (runs p); queue := <[k := q']> (queue p) |}
| t_count k q :
    queue p !! k = Some q → claimable_budget q → q_available_at q ≠ Infinity →
    transition p (set_queue (<[k := with_attempts (counted q) q]> (queue p)) p)
| t_renew k q expires :
    queue p !! k = Some q → is_Some (q_lease_expires_at q) →
    transition p (set_queue (<[k := {|
      q_available_at := q_available_at q; q_stream_seq := q_stream_seq q;
      q_lease_owner := q_lease_owner q; q_lease_expires_at := Some expires;
      q_lease_generation := q_lease_generation q; q_attempts := q_attempts q;
      q_max_attempts := q_max_attempts q |}]> (queue p)) p)
| t_release k q available :
    queue p !! k = Some q → is_Some (q_lease_expires_at q) →
    q_attempts q + 1 < q_max_attempts q →
    transition p (set_queue (<[k := {|
      q_available_at := At available; q_stream_seq := q_stream_seq q;
      q_lease_owner := None; q_lease_expires_at := None;
      q_lease_generation := q_lease_generation q; q_attempts := q_attempts q + 1;
      q_max_attempts := q_max_attempts q |}]> (queue p)) p)
| t_move k r q a :
    runs p !! k = Some r → queue p !! k = Some q → r_status r = Dispatched →
    transition p (set_queue (<[k := with_available a q]> (queue p)) p)
| t_finish k r r' :
    runs p !! k = Some r → runnable (r_status r) = true → run_terminal (r_status r') = true →
    next_version r r' →
    transition p {| runs := <[k := r']> (runs p); queue := delete k (queue p) |}.

(** Retention removes finished runs (and any queue row with them). *)
Definition prunes (p p' : Plane) : Prop :=
  ∃ gone : gset key,
    (∀ k, k ∈ gone → ∃ r, runs p !! k = Some r ∧ run_terminal (r_status r) = true) ∧
    (∀ k, runs p' !! k = if decide (k ∈ gone) then None else runs p !! k) ∧
    (∀ k, queue p' !! k = if decide (k ∈ gone) then None else queue p !! k).

(** ** The invariant holds throughout *)

Lemma terminal_not_runnable s : run_terminal s = negb (runnable s).
Proof. by destruct s. Qed.

Lemma key_taken_false p env k i r :
  key_taken p env (Some k) = false → runs p !! (env, i) = Some r →
  p_idempotency_key (r_pins r) ≠ Some k.
Proof.
  unfold key_taken. rewrite bool_decide_true by done. simpl. intros Hf Hr E.
  assert (Ht : existsb (λ kr : key * RunRow, String.eqb kr.1.1 env &&
    bool_decide (p_idempotency_key (r_pins kr.2) = Some k)) (map_to_list (runs p)) = true).
  { apply existsb_exists. exists ((env, i), r). split.
    - by apply list_elem_of_In, elem_of_map_to_list.
    - simpl. by rewrite String.eqb_refl, bool_decide_true. }
  by rewrite Ht in Hf.
Qed.

Lemma admitted_row_check pins : run_check (admitted_row pins) = None.
Proof. unfold run_check. simpl. by rewrite Z.ltb_irrefl. Qed.

(** [p'] is [p] with the run [k] replaced by [r'] and its queue row by [oq]. *)
Record at_key (p p' : Plane) (k : key) (r' : RunRow) (oq : option QueueRow) : Prop := {
  ak_runs : ∀ j, runs p' !! j = if decide (j = k) then Some r' else runs p !! j;
  ak_queue : ∀ j, queue p' !! j = if decide (j = k) then oq else queue p !! j;
}.

Lemma lookup_insert_if {A} (m : gmap key A) k j x :
  <[k := x]> m !! j = if decide (j = k) then Some x else m !! j.
Proof.
  case_decide as E; [subst; apply lookup_insert_eq|by apply lookup_insert_ne].
Qed.

Lemma lookup_delete_if {A} (m : gmap key A) k j :
  delete k m !! j = if decide (j = k) then None else m !! j.
Proof.
  case_decide as E; [subst; apply lookup_delete_eq|by apply lookup_delete_ne].
Qed.

Lemma lookup_same_if {A} (m : gmap key A) k j o :
  m !! k = o → m !! j = if decide (j = k) then o else m !! j.
Proof. intros <-. by case_decide as E; [subst|]. Qed.

Lemma at_key_ok p p' k r r' oq :
  plane_ok p → at_key p p' k r' oq → runs p !! k = Some r → r_pins r' = r_pins r →
  run_check r' = None →
  match oq with Some q => queue_row_ok r' q | None => runnable (r_status r') = false end →
  plane_ok p'.
Proof.
  intros [Hq Hr Hc Hk] [Er Eq] Hrk Hp Hck Hrow. constructor.
  - intros j a. rewrite Er, Eq. case_decide as E; [|apply Hq].
    intros [= <-] Ha. destruct oq; [done|congruence].
  - intros j q. rewrite Er, Eq. case_decide as E; [|apply Hr].
    intros ->. by exists r'.
  - intros j a. rewrite Er. case_decide as E; [by intros [= <-]|apply Hc].
  - assert (Hpin : ∀ j a, runs p' !! j = Some a →
      ∃ b, runs p !! j = Some b ∧ r_pins a = r_pins b).
    { intros j a. rewrite Er. case_decide as E; [|by eauto].
      intros [= <-]. subst. by exists r. }
    intros env i j a b (a' & Ha & Ea)%Hpin (b' & Hb & Eb)%Hpin. rewrite Ea, Eb. by eapply Hk.
Qed.

Lemma admit_ok p env i pins now :
  plane_ok p → runs p !! (env, i) = None → key_taken p env (p_idempotency_key pins) = false →
  plane_ok {| runs := <[(env, i) := admitted_row pins]> (runs p);
              queue := <[(env, i) := fresh_queue_row now]> (queue p) |}.
Proof.
  intros [Hq Hr Hc Hk] Hnew Hkey. constructor; simpl.
  - intros j a. rewrite !lookup_insert_if. case_decide; [done|apply Hq].
  - intros j q. rewrite !lookup_insert_if. case_decide; [|apply Hr].
    intros [= <-]. exists (admitted_row pins). split; [done|].
    constructor; simpl; (done || lia).
  - intros j a. rewrite lookup_insert_if. case_decide; [|apply Hc].
    intros [= <-]. apply admitted_row_check.
  - intros e x y a b. rewrite !lookup_insert_if.
    repeat case_decide; simplify_eq; try done.
    + intros [= <-] Hb [k Ek] E. simpl in *. rewrite Ek in *.
      by destruct (key_taken_false _ _ _ _ _ Hkey Hb).
    + intros Ha [= <-] [k Ek] E. simpl in *. rewrite Ek in E. rewrite <- E in Hkey.
      by destruct (key_taken_false _ _ _ _ _ Hkey Ha).
    + apply Hk.
Qed.

(** *** The queue row each transition leaves *)

Lemma annotate_row_ok r r' q : r_status r' = r_status r → queue_row_ok r q → queue_row_ok r' q.
Proof. intros E []. constructor; rewrite ?E; done. Qed.

Lemma counted_cases q :
  claimable_budget q → 0 ≤ q_attempts q ≤ q_max_attempts q →
  (q_lease_expires_at q = None → q_attempts q < q_max_attempts q) →
  0 ≤ counted q ≤ q_max_attempts q ∧
  (q_lease_expires_at q = None → counted q = q_attempts q).
Proof.
  unfold claimable_budget, counted.
  destruct (q_lease_expires_at q); simpl; intros [?|?]; simplify_eq; intros; split; (done || lia).
Qed.

Lemma claim_row_ok r q q' owner expires :
  queue_row_ok r q → claimable_budget q → q_available_at q ≠ Infinity →
  claims (counted q) expires owner q q' → queue_row_ok (set_running r) q'.
Proof.
  intros [] Hb Hinf ->. destruct (counted_cases q) as [? ?]; [done..|].
  constructor; simpl; try done; lia.
Qed.

Lemma count_row_ok r q :
  queue_row_ok r q → claimable_budget q → queue_row_ok r (with_attempts (counted q) q).
Proof.
  intros [? ? Hu ? ? ? Hd ?] Hb. destruct (counted_cases q) as [? Hc]; [done..|].
  constructor; simpl; try done.
  - intros E. rewrite Hc by done. auto.
  - intros E. destruct (Hd E) as (El & ? & ?). by rewrite Hc.
Qed.

Lemma renew_row_ok r q expires :
  queue_row_ok r q → is_Some (q_lease_expires_at q) →
  queue_row_ok r {|
      q_available_at := q_available_at q; q_stream_seq := q_stream_seq q;
      q_lease_owner := q_lease_owner q; q_lease_expires_at := Some expires;
      q_lease_generation := q_lease_generation q; q_attempts := q_attempts q;
      q_max_attempts := q_max_attempts q |}.
Proof.
  intros [? ? ? Hl ? ? Hd ?] [t Ht]. constructor; simpl; try done.
  - split; [done|]. intros _. apply Hl. by rewrite Ht.
  - intros _. auto.
  - intros E. destruct (Hd E) as [E' _]. congruence.
Qed.

Lemma release_row_ok r q available :
  queue_row_ok r q → is_Some (q_lease_expires_at q) → q_attempts q + 1 < q_max_attempts q →
  queue_row_ok r {|
      q_available_at := At available; q_stream_seq := q_stream_seq q;
      q_lease_owner := None; q_lease_expires_at := None;
      q_lease_generation := q_lease_generation q; q_attempts := q_attempts q + 1;
      q_max_attempts := q_max_attempts q |}.
Proof.
  intros [? ? ? ? ? ? Hd ?] [t Ht] Hlt. constructor; simpl; try done; try lia.
  intros E. destruct (Hd E) as [E' _]. congruence.
Qed.

Lemma move_row_ok r q a :
  queue_row_ok r q → r_status r = Dispatched → queue_row_ok r (with_available a q).
Proof. intros [] E. by constructor. Qed.

(** The row each transition leaves at its key. *)
Record row_step (p p' : Plane) (k : key) (r r' : RunRow) (oq : option QueueRow) : Prop := {
  rw_at : at_key p p' k r' oq;
  rw_run : runs p !! k = Some r;
  rw_runnable : runnable (r_status r) = true;
  rw_next : next_version r r';
  rw_queue : match oq with Some q => queue_row_ok r' q | None => run_terminal (r_status r') = true end;
  rw_generation : ∀ q q', queue p !! k = Some q → oq = Some q' →
    q_lease_generation q ≤ q_lease_generation q';
}.

Lemma queue_only_step p k r q q' :
  plane_ok p → runs p !! k = Some r → queue p !! k = Some q → queue_row_ok r q' →
  q_lease_generation q ≤ q_lease_generation q' →
  row_step p (set_queue (<[k := q']> (queue p)) p) k r r (Some q').
Proof.
  intros Hok Hr Hq Hrow Hg. constructor; try done.
  - split; intros j; simpl; [by apply lookup_same_if|apply lookup_insert_if].
  - apply Hrow.
  - constructor; [done..|]. by eapply pk_checks.
  - naive_solver.
Qed.

Lemma transition_row p p' :
  plane_ok p → transition p p' →
  (∃ env i pins now, runs p !! (env, i) = None ∧ queue p !! (env, i) = None ∧
     key_taken p env (p_idempotency_key pins) = false ∧
     p' = {| runs := <[(env, i) := admitted_row pins]> (runs p);
             queue := <[(env, i) := fresh_queue_row now]> (queue p) |}) ∨
  ∃ k r r' oq, row_step p p' k r r' oq.
Proof.
  intros Hok Ht. pose proof (pk_rows _ Hok) as Hrows.
  destruct Ht as [|k r r' Hr Hrun Hs Hv|k r q q' owner expires Hr Hq Hrun Hb Hinf Hc Hck
    |k q Hq Hb Hinf|k q expires Hq Hl|k q available Hq Hl Hlt|k r q a Hr Hq Hd
    |k r r' Hr Hrun Hterm Hv]; [by left; naive_solver|right..].
  - destruct (pk_queued _ Hok k r) as [q Hq]; [done..|].
    destruct (Hrows _ _ Hq) as (r0 & Hr0 & Hrow). simplify_eq.
    exists k, r, r', (Some q). constructor; try done.
    + split; intros j; simpl; [apply lookup_insert_if|by apply lookup_same_if].
    + by eapply annotate_row_ok.
    + naive_solver.
  - destruct (Hrows _ _ Hq) as (r0 & Hr0 & Hrow). simplify_eq.
    exists k, r, (set_running r), (Some q'). constructor; try done.
    + split; intros j; simpl; apply lookup_insert_if.
    + by eapply claim_row_ok.
    + intros q0 q1 Hq0 [= <-]. rewrite Hc. simpl. simplify_eq. lia.
  - destruct (Hrows _ _ Hq) as (r & Hr & Hrow).
    do 4 eexists. apply queue_only_step with q; [done..| |done]. by apply count_row_ok.
  - destruct (Hrows _ _ Hq) as (r & Hr & Hrow).
    do 4 eexists. apply queue_only_step with q; [done..| |done]. by apply renew_row_ok.
  - destruct (Hrows _ _ Hq) as (r & Hr & Hrow).
    do 4 eexists. apply queue_only_step with q; [done..| |done]. by apply release_row_ok.
  - destruct (Hrows _ _ Hq) as (r0 & Hr0 & Hrow). simplify_eq.
    do 4 eexists. apply queue_only_step with q; [done..| |done]. by apply move_row_ok.
  - exists k, r, r', None. constructor; try done.
    split; intros j; simpl; [apply lookup_insert_if|apply lookup_delete_if].
Qed.

Lemma transition_ok p p' : plane_ok p → transition p p' → plane_ok p'.
Proof.
  intros Hok Ht.
  destruct (transition_row _ _ Hok Ht) as [(env & i & pins & now & ? & ? & ? & ->)
    |(k & r & r' & oq & [Hat Hr Hrun [Hp _ Hc] Hq _])]; [by apply admit_ok|].
  eapply at_key_ok; [done..|]. destruct oq; [done|].
  by rewrite terminal_not_runnable, negb_true_iff in Hq.
Qed.

Lemma prunes_ok p p' : plane_ok p → prunes p p' → plane_ok p'.
Proof.
  intros [Hq Hr Hc Hk] (gone & Hg & Er & Eq). constructor.
  - intros j a. rewrite Er, Eq. case_decide; [done|apply Hq].
  - intros j q. rewrite Er, Eq. case_decide; [done|apply Hr].
  - intros j a. rewrite Er. case_decide; [done|apply Hc].
  - intros env i j a b. rewrite !Er. repeat case_decide; try done. apply Hk.
Qed.

(** ** Histories *)

(** Any number of transitions and retention passes. *)
Definition evolves : Plane → Plane → Prop := rtc transition.
Definition history : Plane → Plane → Prop := rtc (λ p p', transition p p' ∨ prunes p p').

Lemma evolves_ok p p' : plane_ok p → evolves p p' → plane_ok p'.
Proof. intros Hok. induction 1; [done|]. eauto using transition_ok. Qed.

Lemma history_ok p p' : plane_ok p → history p p' → plane_ok p'.
Proof. intros Hok. induction 1 as [|? ? ? [?|?]]; [done|..]; eauto using transition_ok, prunes_ok. Qed.

Definition empty_plane : Plane := {| runs := ∅; queue := ∅ |}.

Lemma empty_plane_ok : plane_ok empty_plane.
Proof. constructor; simpl; intros *; rewrite lookup_empty; done. Qed.

(** A finished run never changes again. *)
Lemma transition_terminal p p' k r :
  plane_ok p → transition p p' → runs p !! k = Some r → run_terminal (r_status r) = true →
  runs p' !! k = Some r ∧ queue p' !! k = None.
Proof.
  intros Hok Ht Hr Hterm.
  assert (Hnone : queue p !! k = None).
  { destruct (queue p !! k) as [q|] eqn:Hq; [|done].
    destruct (pk_rows _ Hok _ _ Hq) as (r0 & Hr0 & [Hrun]). simplify_eq.
    rewrite terminal_not_runnable, Hrun in Hterm. done. }
  destruct (transition_row _ _ Hok Ht) as [(env & i & pins & now & ? & ? & ? & ->)
    |(k' & r0 & r' & oq & [[Er Eq] Hr0 Hrun _ _ _])].
  - simpl. rewrite !lookup_insert_if. case_decide; [by simplify_eq|done].
  - rewrite Er, Eq. case_decide; [|done]. subst. simplify_eq.
    by rewrite terminal_not_runnable, Hrun in Hterm.
Qed.

Lemma evolves_terminal p p' k r :
  plane_ok p → evolves p p' → runs p !! k = Some r → run_terminal (r_status r) = true →
  runs p' !! k = Some r ∧ queue p' !! k = None.
Proof.
  intros Hok Hev. revert Hok. induction Hev as [p|p p1 p' Ht _ IH]; intros Hok Hr Hterm.
  - split; [done|]. destruct (queue p !! k) as [q|] eqn:Hq; [|done].
    destruct (pk_rows _ Hok _ _ Hq) as (r0 & Hr0 & [Hrun]). simplify_eq.
    by rewrite terminal_not_runnable, Hrun in Hterm.
  - destruct (transition_terminal p p1 k r) as [? _]; eauto using transition_ok.
Qed.

(** Pins and a released caller outcome stand for the life of the run. *)
Lemma transition_next p p' k r :
  plane_ok p → transition p p' → runs p !! k = Some r →
  ∃ r', runs p' !! k = Some r' ∧ next_version r r'.
Proof.
  intros Hok Ht Hr.
  assert (Hsame : next_version r r) by (constructor; [done..|by eapply pk_checks]).
  destruct (transition_row _ _ Hok Ht) as [(env & i & pins & now & ? & ? & ? & ->)
    |(k' & r0 & r' & oq & [[Er Eq] Hr0 Hrun Hnv _ _])].
  - simpl. rewrite lookup_insert_if. case_decide; [by simplify_eq|]. by exists r.
  - rewrite Er. case_decide; [|by exists r]. subst. simplify_eq. by exists r'.
Qed.

Lemma evolves_next p p' k r :
  plane_ok p → evolves p p' → runs p !! k = Some r →
  ∃ r', runs p' !! k = Some r' ∧ next_version r r'.
Proof.
  intros Hok Hev. revert r Hok. induction Hev as [p|p p1 p' Ht _ IH]; intros r Hok Hr.
  - exists r. split; [done|]. constructor; [done..|by eapply pk_checks].
  - destruct (transition_next p p1 k r) as (r1 & Hr1 & [Hp1 Hc1 _]); [done..|].
    destruct (IH r1) as (r' & Hr' & [Hp' Hc' Hk']); [by eapply transition_ok|done|].
    exists r'. split; [done|]. constructor; [congruence| |done].
    intros Hs. rewrite Hc', Hc1; [done|done|]. by rewrite Hc1.
Qed.

(** The fence: a claim that was superseded, or whose run finished. *)
Definition superseded (p : Plane) (k : key) (generation : Z) : Prop :=
  (∃ q, queue p !! k = Some q ∧ generation < q_lease_generation q) ∨
  (∃ r, runs p !! k = Some r ∧ run_terminal (r_status r) = true).

Lemma transition_superseded p p' k g :
  plane_ok p → transition p p' → superseded p k g → superseded p' k g.
Proof.
  intros Hok Ht [(q & Hq & Hg)|(r & Hr & Hterm)].
  - destruct (transition_row _ _ Hok Ht) as [(env & i & pins & now & ? & ? & ? & ->)
      |(k' & r0 & r' & oq & [[Er Eq] Hr0 Hrun Hnv Hrow Hgen])].
    + left. exists q. split; [|done]. simpl. rewrite lookup_insert_if.
      case_decide; [by simplify_eq|done].
    + destruct (decide (k = k')) as [->|Hne].
      * destruct oq as [q'|].
        -- left. exists q'. rewrite Eq, decide_True by done. split; [done|].
           specialize (Hgen _ _ Hq eq_refl). lia.
        -- right. exists r'. by rewrite Er, decide_True.
      * left. exists q. by rewrite Eq, decide_False.
  - right. exists r. by destruct (transition_terminal p p' k r) as [? _].
Qed.

Lemma evolves_superseded p p' k g :
  plane_ok p → evolves p p' → superseded p k g → superseded p' k g.
Proof.
  intros Hok Hev. revert Hok. induction Hev; eauto using transition_ok, transition_superseded.
Qed.
