(* ===== verification/ClaimRefines.v ===== *)
(** * The claim store refines the abstract run plane

    Every method of [ClaimStore], on every branch, leaves a plane that the
    abstract transitions of [PlaneSpec] reach; from there the invariant, the
    immutability of finished runs and the fence are properties of the methods. *)

From stdpp Require Import base tactics option list gmap strings relations.
From Stdlib Require Import ZArith Lia.
From S2P Require Import Prelude Json Canonical RunStatus RunStore Queue RunPlane ClaimStore PlaneSpec.
#[local] Set Warnings "-clear-no-such-hyp".
Open Scope Z_scope.

(** ** Inverting transactions *)

Lemma tx_bind_inv {A B} (m : tx A) (k : A → tx B) p p' b :
  (m ≫= k) p = Ok (p', b) → ∃ p1 a, m p = Ok (p1, a) ∧ k a p1 = Ok (p', b).
Proof. unfold mbind, tx_bind. destruct (m p) as [[p1 a]|]; [by eauto|done]. Qed.

Lemma tx_ret_inv {A} (a : A) p p' b : (mret a : tx A) p = Ok (p', b) → p' = p ∧ b = a.
Proof. by intros [= <- <-]. Qed.

Lemma authority_inv h p p' u : require_executor_authority h p = Ok (p', u) → p' = p.
Proof. unfold require_executor_authority. destruct (executor_member h); [by intros [= ->]|done]. Qed.

Lemma ensure_inv {A} (r : result A ProductionClaimError) p p' a :
  ensure r p = Ok (p', a) → p' = p ∧ r = Ok a.
Proof. unfold ensure. destruct r; [by intros [= -> ->]|done]. Qed.

Lemma one_row_inv {A} op (o : option A) p p' a : one_row op o p = Ok (p', a) → p' = p ∧ o = Some a.
Proof. unfold one_row. destruct o; [by intros [= -> ->]|done]. Qed.

Lemma statement_inv {A} op (s : Plane → result (Plane * A) string) p p' a :
  statement op s p = Ok (p', a) → s p = Ok (p', a).
Proof. unfold statement. destruct (s p) as [[]|]; [|done]. by intros [= -> ->]. Qed.

(** Take a transaction apart, one bind at a time. *)
Ltac tx_inv H :=
  lazymatch type of H with
  | mbind _ _ _ = Ok _ =>
      let p1 := fresh "p1" in let a := fresh "a" in let Hm := fresh "Hm" in
      apply tx_bind_inv in H as (p1 & a & Hm & H);
      lazymatch type of Hm with
      | require_executor_authority _ _ = _ => apply authority_inv in Hm; subst p1
      | ensure _ _ = _ => apply ensure_inv in Hm as [-> Hm]
      | one_row _ _ _ = _ => apply one_row_inv in Hm as [-> Hm]
      | statement _ _ _ = _ => apply statement_inv in Hm
      | observe _ _ = _ => injection Hm as <- Hm
      | _ => idtac
      end
  end.

(** ** Statements *)

Lemma update_run_inv k f p p' r :
  runs p !! k = Some r → update_run k f p = Ok p' →
  run_check (f r) = None ∧ p' = set_runs (<[k := f r]> (runs p)) p.
Proof.
  unfold update_run. intros ->. destruct (run_check (f r)); [done|]. by intros [= <-].
Qed.

Lemma run_check_same r r' :
  r_pins r' = r_pins r → r_caller r' = r_caller r → r_updated_at r' = r_updated_at r →
  run_check r' = run_check r.
Proof. unfold run_check. by intros -> -> ->. Qed.

Section Refines.
Context `{Jsonb, Collation, FloatText, Sha256, BindingWorlds}.

Lemma elem_of_joined p env id r q :
  (id, (r, q)) ∈ joined p env ↔ runs p !! (env, id) = Some r ∧ queue p !! (env, id) = Some q.
Proof.
  unfold joined. rewrite list_elem_of_omap. split.
  - intros ([[e i] q'] & Hin%elem_of_map_to_list & Hx). simpl in Hx.
    destruct (String.eqb_spec e env) as [->|]; [|done].
    apply fmap_Some in Hx as (r' & Hr & [= -> -> ->]). done.
  - intros [Hr Hq]. exists ((env, id), q). split; [by apply elem_of_map_to_list|]. simpl.
    by rewrite String.eqb_refl, Hr.
Qed.

Lemma first_unlocked_inv locked pred p env id r q :
  first_unlocked locked pred p env = Some (id, (r, q)) →
  runs p !! (env, id) = Some r ∧ queue p !! (env, id) = Some q ∧ pred r q = true.
Proof.
  unfold first_unlocked. intros Hh%head_Some_elem_of.
  apply elem_of_stable_sort, list_elem_of_filter in Hh as [Hp Hj%elem_of_joined].
  simpl in Hp. apply Is_true_eq_true, andb_true_iff in Hp. naive_solver.
Qed.

Lemma fenced_ready p env target authority owner g r :
  fenced p env target authority owner g = ("ready", r) →
  ∃ r0 q, r = Some r0 ∧ runs p !! (env, target) = Some r0 ∧ runnable (r_status r0) = true ∧
    queue p !! (env, target) = Some q ∧ q_lease_owner q = Some owner ∧ q_lease_generation q = g.
Proof.
  unfold fenced. destruct (String.eqb_spec target authority); simpl; [|done].
  destruct (String.eqb_spec env ""); simpl; [done|].
  destruct (runs p !! (env, target)) as [r0|] eqn:Hr; [|done].
  rewrite terminal_not_runnable. destruct (runnable (r_status r0)) eqn:Hrun; [|done]. simpl.
  destruct (queue p !! (env, target)) as [q|] eqn:Hq; [|done].
  case_bool_decide; simpl; [done|]. destruct (Z.eqb_spec (q_lease_generation q) g); [|done].
  intros [= <-]. exists r0, q. naive_solver.
Qed.

Lemma annotate_once p k f r :
  plane_ok p → runs p !! k = Some r → runnable (r_status r) = true →
  r_status (f r) = r_status r → r_pins (f r) = r_pins r →
  (is_Some (c_released_at (r_caller r)) → r_caller (f r) = r_caller r) →
  ∀ p', update_run k f p = Ok p' → evolves p p'.
Proof.
  intros Hok Hr Hrun Hs Hp Hc p' [Hck ->]%(update_run_inv _ _ _ _ _ Hr).
  apply rtc_once. by apply (t_annotate _ _ r).
Qed.

Lemma release_caller_evolves p env t a o g kind body http node hash at_us p' row :
  plane_ok p →
  release_caller_sql p env t a o g kind body http node hash at_us = Ok (p', row) → evolves p p'.
Proof.
  intros Hok. unfold release_caller_sql.
  destruct (fenced p env t a o g) as [code locked] eqn:Hf.
  destruct locked as [r|]; [|by intros [= <- _]].
  case_bool_decide as Hrel; simpl.
  - destruct (String.eqb_spec code "run-terminal"); simpl; [by intros [= <- _]|].
    destruct (String.eqb_spec code "ready") as [->|Hne]; simpl; [by intros [= <- _]|].
    destruct (String.eqb_spec code "ready"); [done|]. by intros [= <- _].
  - rewrite andb_false_r.
    destruct (String.eqb_spec code "ready") as [->|Hne]; simpl;
      [|destruct (String.eqb_spec code "ready"); [done|by intros [= <- _]]].
    apply fenced_ready in Hf as (r0 & q & [= <-] & Hr & Hrun & _).
    destruct (jsonb body) as [stored|]; [|done].
    destruct (update_run _ _ _) as [p2|] eqn:Hu; [|done]. intros [= <- _].
    eapply annotate_once in Hu; [exact Hu|done..].
Qed.

Lemma record_evolves p env t a o g v p' b :
  plane_ok p → record_deadline_adjustments_sql p env t a o g v = Ok (p', b) → evolves p p'.
Proof.
  intros Hok. unfold record_deadline_adjustments_sql.
  destruct (fenced p env t a o g) as [code locked] eqn:Hf.
  destruct (String.eqb_spec code "ready") as [->|]; [|by intros [= <- _]].
  apply fenced_ready in Hf as (r0 & q & -> & Hr & Hrun & _).
  destruct (jsonb v); [|done].
  destruct (update_run _ _ _) as [p2|] eqn:Hu; [|done]. intros [= <- _].
  eapply annotate_once in Hu; [exact Hu|done..].
Qed.

Lemma terminalize_evolves p env t a o g st reason v fail at_us p' row :
  plane_ok p → run_terminal st = true →
  terminalize_sql p env t a o g st reason v fail at_us = Ok (p', row) → evolves p p'.
Proof.
  intros Hok Hst. unfold terminalize_sql.
  destruct (fenced p env t a o g) as [code locked] eqn:Hf.
  destruct locked as [r|]; [|by intros [= <- _]].
  destruct (String.eqb_spec code "ready") as [->|Hne]; simpl;
    [|destruct (String.eqb_spec code "ready"); [done|by intros [= <- _]]].
  apply fenced_ready in Hf as (r0 & q & [= <-] & Hr & Hrun & _).
  destruct (bool_decide _ && _ && _); simpl; [by intros [= <- _]|].
  destruct (jsonb v) as [stored|]; [|done].
  destruct (update_run _ _ _) as [p2|] eqn:Hu; [|done]. intros [= <- _].
  apply (update_run_inv _ _ _ _ _ Hr) in Hu as [Hck ->]. apply rtc_once.
  unfold set_queue, set_runs. simpl. eapply t_finish; [exact Hr|done..|]. by constructor.
Qed.

Lemma terminalize_exhausted_inv st fail p env id body hash at_us p' o r :
  runs p !! (env, id) = Some r → run_terminal st = true → runnable (r_status r) = true →
  terminalize_exhausted_sql st fail p env id body hash at_us = Ok (p', o) →
  ∃ r', run_terminal (r_status r') = true ∧ next_version r r' ∧
    p' = {| runs := <[(env, id) := r']> (runs p); queue := delete (env, id) (queue p) |}.
Proof.
  intros Hr Hst Hrun. unfold terminalize_exhausted_sql. rewrite Hr, Hrun.
  destruct (if _ || _ then jsonb body else _) as [stored|]; [|done].
  destruct (update_run _ _ _) as [p2|] eqn:Hu; [|done]. intros [= <- _].
  apply (update_run_inv _ _ _ _ _ Hr) in Hu as [Hck ->]. eexists.
  split; [|split; [|reflexivity]]; [done|]. constructor; [done| |done].
  simpl. intros [t Ht]. rewrite bool_decide_false by congruence. by rewrite andb_false_r.
Qed.

(** ** Transactions *)

Lemma terminalize_tx_evolves env id runner g c at_us p p' x :
  plane_ok p → run_terminal (completion_status c) = true →
  terminalize_in_transaction env id runner g c at_us p = Ok (p', x) → evolves p p'.
Proof.
  intros Hok Hc Ht. unfold terminalize_in_transaction in Ht. tx_inv Ht. tx_inv Ht.
  apply terminalize_evolves in Hm; [|done..].
  destruct a0; try done; apply tx_ret_inv in Ht as [-> _]; done.
Qed.

Lemma complete_tx_evolves h env id runner g c at_us p p' x :
  plane_ok p → run_terminal (completion_status c) = true →
  complete_in_transaction h env id runner g c at_us p = Ok (p', x) → evolves p p'.
Proof.
  intros Hok Hc Ht. unfold complete_in_transaction in Ht. tx_inv Ht.
  destruct (caller c) as [k|]; [|by eapply terminalize_tx_evolves].
  tx_inv Ht. tx_inv Ht. apply release_caller_evolves in Hm; [|done].
  destruct a1; try done; try (apply tx_ret_inv in Ht as [-> _]; done).
  - etrans; [exact Hm|]. eapply terminalize_tx_evolves; eauto using evolves_ok.
  - destruct (exactly_matches _ _ _ _ _ _); [|done].
    etrans; [exact Hm|]. eapply terminalize_tx_evolves; eauto using evolves_ok.
Qed.

Lemma renew_tx_evolves h env id runner g ttl now p p' x :
  plane_ok p → renew_in_transaction h env id runner g ttl now p = Ok (p', x) → evolves p p'.
Proof.
  intros Hok Ht. unfold renew_in_transaction in Ht. tx_inv Ht. tx_inv Ht.
  apply tx_ret_inv in Ht as [-> _]. unfold statement', renew_production_lease_sql in Hm.
  destruct (queue p !! (env, id)) as [q|] eqn:Hq; [|by injection Hm as <- _].
  destruct (holds_lease q runner g now) eqn:Hl; [|by injection Hm as <- _].
  injection Hm as <- _. apply rtc_once, t_renew; [done|].
  unfold holds_lease in Hl. destruct (q_lease_expires_at q); [done|].
  by rewrite andb_false_r in Hl.
Qed.

Lemma release_tx_evolves h env id runner g now u at_us p p' x :
  plane_ok p → release_in_transaction h env id runner g now u at_us p = Ok (p', x) → evolves p p'.
Proof.
  intros Hok Ht. unfold release_in_transaction in Ht. tx_inv Ht. tx_inv Ht.
  unfold statement', release_production_claim_sql in Hm.
  destruct (runs p !! (env, id)) as [r|] eqn:Hr;
    [|injection Hm as <- <-; by apply tx_ret_inv in Ht as [-> _]].
  destruct (queue p !! (env, id)) as [q|] eqn:Hq;
    [|injection Hm as <- <-; by apply tx_ret_inv in Ht as [-> _]].
  destruct (holds_lease q runner g now && runnable (r_status r)) eqn:Hl;
    [|injection Hm as <- <-; by apply tx_ret_inv in Ht as [-> _]].
  apply andb_true_iff in Hl as [Hl Hrun]. injection Hm as <- <-.
  assert (Hex : is_Some (q_lease_expires_at q)).
  { unfold holds_lease in Hl. destruct (q_lease_expires_at q); [done|].
    by rewrite andb_false_r in Hl. }
  destruct (Z.leb_spec (q_max_attempts q) (q_attempts q + 1)).
  - tx_inv Ht. tx_inv Ht. destruct (generic_failure_outcome _ _ _) as [body hash].
    tx_inv Ht. tx_inv Ht. apply tx_ret_inv in Ht as [-> _].
    eapply terminalize_exhausted_inv in Hm1 as (r' & Hterm & Hv & ->); [|done..].
    simpl. rewrite delete_insert_eq. apply rtc_once. by eapply t_finish.
  - apply tx_ret_inv in Ht as [-> _]. by apply rtc_once, t_release.
Qed.

Lemma reap_tx_evolves h env pk e grace locked now at_us p p' x :
  plane_ok p → reap_in_transaction h env pk e grace locked now at_us p = Ok (p', x) → evolves p p'.
Proof.
  intros Hok Ht. unfold reap_in_transaction in Ht. tx_inv Ht. tx_inv Ht.
  unfold select_exhausted_production_sql in Hm.
  destruct (first_unlocked _ _ p env) as [[id [r q]]|] eqn:Hs; subst a0;
    [|by apply tx_ret_inv in Ht as [-> _]].
  apply first_unlocked_inv in Hs as (Hr & Hq & Hp). tx_inv Ht.
  destruct (runnable (r_status r)) eqn:Hrun; [|done]. simpl in Ht.
  tx_inv Ht. tx_inv Ht.
  eapply terminalize_exhausted_inv in Hm0 as (r' & Hterm & Hv & ->); [|done..].
  destruct (negb _); [done|]. apply tx_ret_inv in Ht as [-> _].
  apply rtc_once. by eapply t_finish.
Qed.

(** What the claim predicate says of a selected row. *)
Lemma claim_predicate_budget pk e d now r q :
  claim_predicate pk e d now r q = true → claimable_budget q ∧ q_available_at q ≠ Infinity.
Proof.
  unfold claim_predicate, claimable_budget. intros Hp. split_andb. split.
  - match goal with Hb : _ || _ = true |- _ => apply orb_true_iff in Hb as [?|?] end.
    + right. lia.
    + left. by eapply bool_decide_eq_true.
  - intros E. match goal with Hi : instant_reached _ _ = true |- _ => by rewrite E in Hi end.
Qed.

(** The statements after the selection, from a plane that still holds the
    selected rows. *)
Lemma count_and_grant env id runner ttl digest now p r q p1 n :
  plane_ok p → runs p !! (env, id) = Some r → queue p !! (env, id) = Some q →
  runnable (r_status r) = true → claimable_budget q → q_available_at q ≠ Infinity →
  advance_claim_attempts_sql p env id = (p1, n) →
  evolves p p1 ∧
  ∀ p2 g, grant_production_claim_sql p1 env id runner ttl digest now = Ok (p2, Some g) →
    evolves p p2 ∧ g = q_lease_generation q + 1.
Proof.
  intros Hok Hr Hq Hrun Hb Hi. unfold advance_claim_attempts_sql. rewrite Hq.
  fold (counted q). intros [= <- _]. split; [by apply rtc_once, t_count|].
  intros p2 g. unfold grant_production_claim_sql. simpl. rewrite lookup_insert_eq, Hr, Hrun. simpl.
  destruct (pin_matches digest r); [|done].
  destruct (update_run _ _ _) as [p3|] eqn:Hu; [|done]. intros [= <- <-].
  apply (update_run_inv _ _ _ _ r) in Hu as [Hck ->]; [|done]. split; [|done].
  unfold set_runs, set_queue. simpl. rewrite insert_insert_eq.
  apply rtc_once. by eapply t_claim.
Qed.

Lemma clear_evolves env id p p' o r :
  plane_ok p → runs p !! (env, id) = Some r → runnable (r_status r) = true →
  clear_pre_effect_state_sql p env id = Ok (p', o) →
  evolves p p' ∧ queue p' = queue p ∧
  ∃ r', runs p' !! (env, id) = Some r' ∧ runnable (r_status r') = true.
Proof.
  intros Hok Hr Hrun. unfold clear_pre_effect_state_sql. rewrite Hr.
  destruct (update_run _ _ _) as [p2|] eqn:Hu; [|done]. intros [= <- _].
  pose proof Hu as Hev. eapply annotate_once in Hev; [|done..].
  apply (update_run_inv _ _ _ _ _ Hr) in Hu as [Hck ->]. split; [done|]. split; [done|].
  eexists. split; [apply lookup_insert_eq|done].
Qed.

Lemma claim_tx_evolves h env runner pk e ttl rel locked ge now p p' x :
  plane_ok p →
  claim_in_transaction h env runner pk e ttl rel locked ge now p = Ok (p', x) → evolves p p'.
Proof.
  intros Hok Ht. unfold claim_in_transaction in Ht. tx_inv Ht. tx_inv Ht.
  unfold select_production_claim_sql in Hm.
  destruct (first_unlocked _ _ p env) as [[id [r q]]|] eqn:Hs; subst a0;
    [|by apply tx_ret_inv in Ht as [-> _]].
  apply first_unlocked_inv in Hs as (Hr & Hq & Hp).
  apply claim_predicate_budget in Hp as [Hb Hi]. tx_inv Ht.
  destruct (runnable (sc_status a0)); [|done]. simpl in Ht. tx_inv Ht.
  assert (Hrun : runnable (r_status r) = true).
  { destruct (pk_rows _ Hok _ _ Hq) as (r0 & Hr0 & []). by simplify_eq. }
  assert (Hmid : evolves p p1 ∧ queue p1 = queue p ∧
    ∃ r', runs p1 !! (env, id) = Some r' ∧ runnable (r_status r') = true).
  { destruct (classify_production_claim _).
    - apply tx_ret_inv in Hm0 as [-> _]. split; [done|]. split; [done|]. by exists r.
    - tx_inv Hm0. tx_inv Hm0. apply tx_ret_inv in Hm0 as [-> _]. by eapply clear_evolves. }
  destruct Hmid as (Hev & Eq & r1 & Hr1 & Hrun1). rewrite <- Eq in Hq.
  apply tx_bind_inv in Ht as (p2 & n & Hadv & Ht). injection Hadv as Hadv.
  apply tx_bind_inv in Ht as (p3 & m & Hn & Ht). apply one_row_inv in Hn as [-> _].
  destruct (count_and_grant env id runner ttl
    (match sc_candidate a0 with Some _ => None | None => rel end) now p1 r1 q p2 n)
    as [Hcount Hgrant]; [by eapply evolves_ok|done..|].
  destruct ge as [err|].
  - apply tx_ret_inv in Ht as [-> _]. by etrans.
  - apply tx_bind_inv in Ht as (p4 & og & Hg & Ht). apply statement_inv in Hg.
    apply tx_bind_inv in Ht as (p5 & g & Ho & Ht). apply ensure_inv in Ho as [-> Ho].
    apply tx_ret_inv in Ht as [-> _].
    destruct og as [g'|]; [|done]. etrans; [exact Hev|]. by eapply Hgrant.
Qed.

Lemma record_tx_evolves h env id runner g v p p' x :
  plane_ok p → record_in_transaction h env id runner g v p = Ok (p', x) → evolves p p'.
Proof.
  intros Hok Ht. unfold record_in_transaction in Ht. tx_inv Ht.
  apply statement_inv in Ht. by eapply record_evolves.
Qed.

End Refines.
