(* ===== verification/Workflows.v ===== *)
(** * Admission, park, release and retention of workflow runs

    [crates/platform/runtime/src/plugins/wamn_postgres/event_admission.rs] (the
    manual admission, and the schedule admission after its catalog reads),
    [crates/execution/workflow/src/contract.rs] and [contract/postgres.rs] (park,
    release, list) and the retention verb of
    [crates/control/environment/src/prune_run_history.rs].

    The tables these read beside the run plane are arguments: the environment's
    durability class, and for a schedule the enabled version, the serving
    release and the outcome of gating the graph against it. *)

From stdpp Require Import base tactics option list gmap strings relations.
From Stdlib Require Import ZArith Lia.
From S2P Require Import Prelude Json RunStatus RunStore Queue RunPlane ClaimStore PlaneSpec.
From S2P Require Import ClaimRefines.
#[local] Set Warnings "-clear-no-such-hyp".
Open Scope Z_scope.

(** [input_json = v], both of type [jsonb]. *)
Class JsonbEq := jsonb_eq : Value → Value → bool.

(** ** Admission *)

Inductive RunAdmitted :=
| Queued (run_id : string)
| Conflict.

Section Admission.
Context `{Jsonb, AdmissionChecks, JsonbEq}.

(** Insert the run and its queue row, or answer the first run of the key. *)
Definition admit_run (env k : string) (input : Value) (now : Z)
    (insert : Plane → result (Plane * option string) string)
    (select : Plane → string → string → Value → (Value → Value → bool) → option string) :
    tx RunAdmitted :=
  inserted ← statement "admit the run" insert;
  match inserted with
  | Some run_id =>
      _ ← statement "queue the run" (λ p,
            match insert_run_queue_sql p env run_id now with
            | Ok p' => Ok (p', tt)
            | Err c => Err c
            end);
      mret (Queued run_id)
  | None =>
      first ← statement "read the first run" (λ p,
                match jsonb input with
                | Some given => Ok (p, select p env k given jsonb_eq)
                | None => Err "invalid-json"
                end);
      mret (match first with Some run_id => Queued run_id | None => Conflict end)
  end.

(** [SELECT_DURABILITY_SQL]: the class itself is a pinned column no decision
    of the run plane reads. *)
Definition read_durability (policy : option DurabilityClass) : tx DurabilityClass :=
  ensure (ok_or policy (claim_error Contract "read the environment policy"
                          "the environment policy is absent")).

Definition admit_manual_run (h : Host) (env : string) (policy : option DurabilityClass)
    (fresh user : string) (b : WorkflowBinds) (now : Z) : tx RunAdmitted :=
  _ ← require_executor_authority h;
  _ ← read_durability policy;
  admit_run env (w_idempotency_key b) (w_input b) now
    (λ p, insert_manual_run_sql p env fresh b user now) select_manual_run_sql.

(** ** The schedule admission *)

Record EnabledSchedule := {
  es_version : Z;
  es_graph_json : string;
  es_wiring_hash : string;
  es_execution_role : option string;
}.

Inductive ScheduleRunAdmitted :=
| SQueued (run_id : string)
| SNotEnabled
| SNotServed
| SConflict.

(** The catalog functions the admission calls. *)
Class WorkflowCatalog := {
  graph : Type;
  manifest : Type;
  parse_graph : string → result graph string;
  from_canonical_bytes : string → result manifest string;
  gate_workflow_document : string → list string → manifest → graph → result string string;
  resolve_workflow_components :
    string → list string → manifest → graph → result (list (string * string)) string;
  workflow_user_id : string;
}.
Definition ADMIN_ROLE : string := "admin".

Definition due_key (application workflow_id due : string) : string :=
  "schedule:" +:+ application +:+ "/" +:+ workflow_id +:+ ":" +:+ due.

Definition contract_error (op detail : string) : ProductionClaimError :=
  claim_error Contract op detail.

Definition admit_schedule_run `{WorkflowCatalog} (h : Host) (env environment application : string)
    (packages : list string) (workflow_id manifest_digest due : string)
    (enabled : option EnabledSchedule) (release : option string)
    (policy : option DurabilityClass) (fresh : string) (now : Z) : tx ScheduleRunAdmitted :=
  _ ← require_executor_authority h;
  match enabled with
  | None => mret SNotEnabled
  | Some w =>
      g ← ensure (match parse_graph (es_graph_json w) with
                  | Ok g => Ok g
                  | Err e => Err (contract_error "parse the stored workflow graph" e)
                  end);
      release_bytes ← ensure (ok_or release (contract_error "read the serving release"
                                       ("release " +:+ manifest_digest +:+ " is not installed")));
      m ← ensure (match from_canonical_bytes release_bytes with
                  | Ok m => Ok m
                  | Err e => Err (contract_error "read the serving release" e)
                  end);
      let served := match gate_workflow_document env packages m g with
                    | Ok hash => String.eqb hash (es_wiring_hash w)
                    | Err _ => false
                    end in
      match resolve_workflow_components env packages m g with
      | Ok components =>
          if served then
            _ ← read_durability policy;
            let b := {|
              w_package_id := application; w_manifest_digest := manifest_digest;
              w_environment := environment; w_wiring_id := workflow_id;
              w_wiring_version := es_version w; w_wiring_hash := es_wiring_hash w;
              w_principal_id := workflow_user_id;
              w_role := default ADMIN_ROLE (es_execution_role w);
              w_node_digests :=
                VObject (map_from_iter ((λ kv : string * string, (kv.1, VString kv.2)) <$> components));
              w_idempotency_key := due_key application workflow_id due;
              w_input := VObject (map_from_iter [("due", VString due)]) |} in
            admitted ← admit_run env (w_idempotency_key b) (w_input b) now
              (λ p, insert_workflow_schedule_run_sql p env fresh b now)
              select_workflow_schedule_run_sql;
            mret (match admitted with Queued id => SQueued id | Conflict => SConflict end)
          else mret SNotServed
      | Err _ => mret SNotServed
      end
  end.

End Admission.

(** ** The workflow contract *)

Inductive WorkflowErrorType := WNotFound | WNotParkable | WNotParked.

(** [Workflows::park]: a parked run stays parked.  An error drops the
    transaction, which wrote nothing. *)
Definition park (env environment run_id : string) (now : Z) (p : Plane) :
    Plane * result unit WorkflowErrorType :=
  let '(p', parked) := park_queued_run_sql p env run_id environment now in
  match parked with
  | Some _ => (p', Ok tt)
  | None =>
      match select_run_queue_state_sql p' env run_id environment now with
      | None => (p, Err WNotFound)
      | Some s => if rs_queued s && rs_parked s then (p', Ok tt) else (p, Err WNotParkable)
      end
  end.

(** [Workflows::release]. *)
Definition release (env environment run_id : string) (now : Z) (p : Plane) :
    Plane * result unit WorkflowErrorType :=
  let '(p', released) := release_parked_run_sql p env run_id environment now in
  match released with
  | Some _ => (p', Ok tt)
  | None =>
      match select_run_queue_state_sql p' env run_id environment now with
      | None => (p, Err WNotFound)
      | Some _ => (p, Err WNotParked)
      end
  end.

Record WorkflowRun := {
  wr_run_id : string;
  wr_package_id : string;
  wr_wiring_id : string;
  wr_wiring_version : Z;
  wr_trigger_source : option string;
  wr_status : RunStatus;
  wr_queued : bool;
  wr_parked : bool;
  wr_created_at : Z;
}.

(** [list_workflow_runs_sql]: [ORDER BY created_at DESC, run_id DESC LIMIT $2]
    over the runs with a wiring.  A negative version cannot pass its CHECK. *)
Definition newest_leb `{Collation} (a b : WorkflowRun) : bool :=
  match wr_created_at b ?= wr_created_at a with
  | Lt => true
  | Gt => false
  | Eq => collate (wr_run_id b) (wr_run_id a)
  end.

Definition workflow_run (p : Plane) (k : key) (r : RunRow) : option WorkflowRun :=
  match p_wiring_id (r_pins r), p_wiring_version (r_pins r) with
  | Some w, Some v =>
      let q := queue p !! k in
      Some {| wr_run_id := k.2; wr_package_id := p_package_id (r_pins r); wr_wiring_id := w;
              wr_wiring_version := v; wr_trigger_source := p_trigger_source (r_pins r);
              wr_status := r_status r; wr_queued := bool_decide (is_Some q);
              wr_parked := bool_decide (q_available_at <$> q = Some Infinity);
              wr_created_at := p_created_at (r_pins r) |}
  | _, _ => None
  end.

Definition list_runs `{Collation} (env environment : string) (limit : nat) (p : Plane) :
    list WorkflowRun :=
  take limit (stable_sort newest_leb
    (omap (λ kr : key * RunRow,
       if String.eqb kr.1.1 env && String.eqb (p_environment (r_pins kr.2)) environment
       then workflow_run p kr.1 kr.2 else None) (map_to_list (runs p)))).

(** ** Retention *)

(** [prune]: the number of deleted runs, and the plane; a dry run rolls back. *)
Definition prune (env : string) (retention_days now : Z) (apply : bool) (p : Plane) : Plane * nat :=
  let p' := prune_terminal_runs_sql p env retention_days now in
  (if apply then p' else p, (size (runs p) - size (runs p'))%nat).

(** ** These operations refine the abstract run plane *)

Section Refines.
Context `{Jsonb, AdmissionChecks, JsonbEq}.

(** An insert of a fresh run: refused by its JSON, by its key, by a constraint, or done. *)
Lemma admit_evolves env k input now binds pins fresh select p p' x :
  admit_run env k input now (λ p, insert_binds_sql p env fresh binds pins) select p = Ok (p', x) →
  evolves p p'.
Proof.
  intros Ht. unfold admit_run in Ht. tx_inv Ht. destruct binds as [b|]; [|done].
  unfold insert_binds_sql, insert_run_sql in Hm.
  destruct (admission_check (pins b)); [done|].
  destruct (key_taken p env (p_idempotency_key (pins b))) eqn:Hkey.
  { injection Hm as <- <-. tx_inv Ht. destruct (jsonb input); [|done]. injection Hm as <- _.
    by apply tx_ret_inv in Ht as [-> _]. }
  destruct (runs p !! (env, fresh)) eqn:Hr; [done|]. injection Hm as <- <-.
  tx_inv Ht. apply tx_ret_inv in Ht as [-> _]. unfold insert_run_queue_sql in Hm. simpl in Hm.
  destruct (queue p !! (env, fresh)) eqn:Hq; [done|]. rewrite lookup_insert_eq in Hm.
  injection Hm as <-. apply rtc_once. by apply t_admit.
Qed.

Lemma manual_evolves h env policy fresh user b now p p' x :
  admit_manual_run h env policy fresh user b now p = Ok (p', x) → evolves p p'.
Proof.
  intros Ht. unfold admit_manual_run, read_durability in Ht. tx_inv Ht. tx_inv Ht.
  by eapply admit_evolves.
Qed.

Lemma schedule_evolves `{WorkflowCatalog} h env e app pk wid digest due en rel policy fresh now p p' x :
  admit_schedule_run h env e app pk wid digest due en rel policy fresh now p = Ok (p', x) →
  evolves p p'.
Proof.
  intros Ht. unfold admit_schedule_run, read_durability in Ht. tx_inv Ht.
  destruct en as [w|]; [|by apply tx_ret_inv in Ht as [-> _]].
  tx_inv Ht. tx_inv Ht. tx_inv Ht.
  destruct (resolve_workflow_components _ _ _ _); [|by apply tx_ret_inv in Ht as [-> _]].
  match type of Ht with (if ?s then _ else _) _ = _ => destruct s end;
    [|by apply tx_ret_inv in Ht as [-> _]].
  tx_inv Ht. tx_inv Ht. apply tx_ret_inv in Ht as [-> _]. by eapply admit_evolves.
Qed.

End Refines.

Lemma park_evolves env e id now p : plane_ok p → evolves p (park env e id now p).1.
Proof.
  intros Hok. unfold park, park_queued_run_sql, move_available.
  destruct (runs p !! (env, id)) as [r|] eqn:Hr, (queue p !! (env, id)) as [q|] eqn:Hq;
    try (simpl; repeat case_goal; simpl; done).
  destruct (_ && _ && _ && _) eqn:Hp; [|simpl; repeat case_goal; simpl; done].
  split_andb. simpl. apply rtc_once. eapply t_move; [done..|].
  by eapply bool_decide_eq_true.
Qed.

Lemma release_evolves env e id now p : plane_ok p → evolves p (release env e id now p).1.
Proof.
  intros Hok. unfold release, release_parked_run_sql, move_available.
  destruct (runs p !! (env, id)) as [r|] eqn:Hr, (queue p !! (env, id)) as [q|] eqn:Hq;
    try (simpl; repeat case_goal; simpl; done).
  destruct (_ && _) eqn:Hp; [|simpl; repeat case_goal; simpl; done].
  split_andb. simpl. apply rtc_once. eapply t_move; [done..|].
  destruct (pk_rows _ Hok _ _ Hq) as (r0 & Hr0 & [? ? ? ? ? ? ? Hpark]). simplify_eq.
  apply Hpark. by eapply bool_decide_eq_true.
Qed.

Lemma prune_prunes env days now apply p : plane_ok p → prunes p (prune env days now apply p).1.
Proof.
  intros Hok. destruct apply; simpl.
  - exists (dom (filter (λ kr, prunable env days now kr = true) (runs p))). split_and!.
    + intros k [r [Hr Hp]%map_lookup_filter_Some]%elem_of_dom. exists r. split; [done|].
      unfold prunable in Hp. by split_andb.
    + intros k. simpl. rewrite map_lookup_filter. case_decide as Hk.
      * apply elem_of_dom in Hk as [r [Hr Hp]%map_lookup_filter_Some].
        rewrite Hr. simpl. case_guard; [congruence|done].
      * destruct (runs p !! k) as [r|] eqn:Hr; [|done]. simpl.
        case_guard as Hg; [done|]. destruct Hk. apply elem_of_dom. exists r.
        apply map_lookup_filter_Some. split; [done|]. by apply not_false_is_true in Hg.
    + intros k. simpl. rewrite map_lookup_filter. case_decide as Hk.
      * apply elem_of_dom in Hk as [r [Hr Hp]%map_lookup_filter_Some].
        destruct (queue p !! k); simpl; [|done]. rewrite Hr. simpl.
        case_guard; [congruence|done].
      * destruct (queue p !! k) as [q|] eqn:Hq; [|done]. simpl.
        destruct (pk_rows _ Hok _ _ Hq) as (r & Hr & _). rewrite Hr. simpl.
        case_guard as Hg; [done|]. destruct Hk. apply elem_of_dom. exists r.
        apply map_lookup_filter_Some. split; [done|]. by apply not_false_is_true in Hg.
  - exists ∅. split_and!; [set_solver|..]; intros k; by rewrite decide_False by set_solver.
Qed.
