(* ===== verification/StoreProps.v ===== *)
(** * What the run store guarantees

    The methods of [ClaimStore] and [Workflows] taken together: any interleaving
    of them is a history of the abstract run plane, so its invariant and its
    fence are theorems about the code. *)

From stdpp Require Import base tactics option list gmap strings relations sorting.
From Stdlib Require Import ZArith Lia.
From S2P Require Import Prelude Json Canonical RunStatus RunStore Queue RunPlane ClaimStore PlaneSpec.
From S2P Require Import ClaimRefines Workflows.
#[local] Set Warnings "-clear-no-such-hyp".
Open Scope Z_scope.

(** ** Steps of the store *)

Section Steps.
Context `{Jsonb, Collation, FloatText, Sha256, BindingWorlds, AdmissionChecks, JsonbEq,
          !WorkflowCatalog}.

(** One committed or rolled-back call, by any host with any arguments. *)
Inductive store_step (p : Plane) : Plane → Prop :=
| s_claim h c pk e ttl locked ge now :
    store_step p (claim_next h c pk e ttl locked ge now p).1
| s_reap h c pk e grace locked now at_us :
    store_step p (reap_exhausted h c pk e grace locked now at_us p).1
| s_renew h c id g ttl now : store_step p (renew h c id g ttl now p).1
| s_completed h c id g v k at_us : store_step p (complete h c id g (completed v k) at_us p).1
| s_failed h c id g v t k at_us : store_step p (complete h c id g (failed v t k) at_us p).1
| s_record h c id g v : store_step p (record_deadline_adjustments h c id g v p).1
| s_release h c id g now u at_us : store_step p (release_claim h c id g now u at_us p).1
| s_manual h env policy fresh user b now :
    store_step p (transact (admit_manual_run h env policy fresh user b now) p).1
| s_schedule h env e app pk wid digest due en rel policy fresh now :
    store_step p (transact
      (admit_schedule_run h env e app pk wid digest due en rel policy fresh now) p).1
| s_park env e id now : store_step p (park env e id now p).1
| s_wake env e id now : store_step p (release env e id now p).1.

(** A rolled-back transaction leaves the plane; a committed one evolves it. *)
Lemma transact_evolves {A} (m : tx A) p :
  (∀ p' a, m p = Ok (p', a) → evolves p p') → evolves p (transact m p).1.
Proof. unfold transact. intros Hm. destruct (m p) as [[p' a]|e]; simpl; [by eapply Hm|done]. Qed.

Lemma validated_evolves {A} ok op d h c t r (k : string → string → tx A) p :
  (∀ env runner p' a, k env runner p = Ok (p', a) → evolves p p') →
  evolves p (validated ok op d h c t r k p).1.
Proof.
  intros Hk. unfold validated. destruct ok; simpl; [|done].
  destruct (env_key_for h c) as [env|]; [|done]. destruct (runner_for h c) as [runner|]; [|done].
  apply transact_evolves. intros p' a. apply Hk.
Qed.

Lemma store_step_evolves p p' : plane_ok p → store_step p p' → evolves p p'.
Proof.
  intros Hok Hs. destruct Hs.
  - unfold claim_next. destruct (validated _ _ _ _ _ _ _ _ _) as [p1 turn] eqn:E. simpl.
    change p1 with (p1, turn).1. rewrite <- E. apply validated_evolves.
    intros. by eapply claim_tx_evolves.
  - apply validated_evolves. intros. by eapply reap_tx_evolves.
  - apply validated_evolves. intros. by eapply renew_tx_evolves.
  - apply validated_evolves. intros. eapply complete_tx_evolves; [done| |eassumption]. done.
  - apply validated_evolves. intros. eapply complete_tx_evolves; [done| |eassumption]. done.
  - apply validated_evolves. intros. by eapply record_tx_evolves.
  - apply validated_evolves. intros. by eapply release_tx_evolves.
  - apply transact_evolves. intros. by eapply manual_evolves.
  - apply transact_evolves. intros. by eapply schedule_evolves.
  - by apply park_evolves.
  - by apply release_evolves.
Qed.

Lemma store_steps_evolve p p' : plane_ok p → rtc store_step p p' → evolves p p' ∧ plane_ok p'.
Proof.
  intros Hok Hs. revert Hok. induction Hs as [p|p p1 p' Hs _ IH]; intros Hok; [done|].
  pose proof (store_step_evolves _ _ Hok Hs) as He.
  destruct IH as [He' Hok']; [by eapply evolves_ok|]. split; [by etrans|done].
Qed.

(** ** The fence *)

Lemma superseded_fenced p env id owner g :
  plane_ok p → superseded p (env, id) g →
  ∃ code r, fenced p env id id owner g = (code, r) ∧
    (code = "run-terminal" ∨ code = "fence-lost" ∨ code = "not-found") ∧
    (∀ r0, r = Some r0 → code = "run-terminal" ∨ code = "fence-lost").
Proof.
  intros Hok Hs. unfold fenced. rewrite String.eqb_refl. simpl.
  destruct (String.eqb_spec env ""); simpl; [do 2 eexists; split; [done|naive_solver]|].
  destruct Hs as [(q & Hq & Hg)|(r & Hr & Hterm)].
  - destruct (pk_rows _ Hok _ _ Hq) as (r & Hr & [Hrun]). rewrite Hr.
    rewrite terminal_not_runnable, Hrun, Hq. simpl.
    destruct (Z.eqb_spec (q_lease_generation q) g); [lia|]. rewrite orb_true_r.
    do 2 eexists. split; [done|]. naive_solver.
  - rewrite Hr, Hterm. do 2 eexists. split; [done|]. naive_solver.
Qed.

Lemma superseded_complete h env runner id g c at_us p p' x :
  plane_ok p → superseded p (env, id) g →
  complete_in_transaction h env id runner g c at_us p = Ok (p', x) → p' = p ∧ x ≠ Terminalized.
Proof.
  intros Hok Hs Ht.
  destruct (superseded_fenced p env id runner g Hok Hs) as (code & r & Hf & Hcode & Hsome).
  assert (Hterm : ∀ p' x, terminalize_in_transaction env id runner g c at_us p = Ok (p', x) →
    p' = p ∧ x ≠ Terminalized).
  { intros p2 y Hy. unfold terminalize_in_transaction in Hy. tx_inv Hy. tx_inv Hy.
    unfold terminalize_sql in Hm. rewrite Hf in Hm.
    destruct r as [r|]; [destruct (Hsome r eq_refl) as [->| ->]|destruct Hcode as [->|[->| ->]]];
      simpl in Hm; injection Hm as <- <-; unfold decode_terminalization in Hm0;
      (destruct a0; try done; try (by apply tx_ret_inv in Hy as [-> ->]));
      try done; by destruct (r_status r). }
  unfold complete_in_transaction in Ht. tx_inv Ht.
  destruct (caller c) as [k|]; [|by apply Hterm].
  tx_inv Ht. tx_inv Ht. unfold release_caller_sql in Hm. rewrite Hf in Hm.
  assert (p1 = p) as ->.
  { destruct r as [r|]; [destruct (Hsome r eq_refl) as [->| ->]|]; simpl in Hm;
      [case_bool_decide; simpl in Hm|..]; by injection Hm as <- _. }
  destruct a1; try done; try (by apply tx_ret_inv in Ht as [-> ->]); try by apply Hterm.
  destruct (exactly_matches _ _ _ _ _ _); [by apply Hterm|done].
Qed.

Lemma superseded_holds p env id q runner g now :
  plane_ok p → superseded p (env, id) g → queue p !! (env, id) = Some q →
  holds_lease q runner g now = false.
Proof.
  intros Hok [(q' & Hq' & Hg)|(r & Hr & Hterm)] Hq.
  - rewrite Hq in Hq'. injection Hq' as <-. unfold holds_lease. destruct (Z.eqb_spec (q_lease_generation q) g); [lia|].
    by rewrite andb_false_r.
  - destruct (pk_rows _ Hok _ _ Hq) as (r0 & Hr0 & [Hrun]). simplify_eq.
    by rewrite terminal_not_runnable, Hrun in Hterm.
Qed.

Lemma superseded_renew h env runner id g ttl now p p' x :
  plane_ok p → superseded p (env, id) g →
  renew_in_transaction h env id runner g ttl now p = Ok (p', x) → p' = p ∧ x = RenewalFenceLost.
Proof.
  intros Hok Hs Ht. unfold renew_in_transaction in Ht. tx_inv Ht. tx_inv Ht.
  apply tx_ret_inv in Ht as [-> ->]. unfold statement', renew_production_lease_sql in Hm.
  destruct (queue p !! (env, id)) as [q|] eqn:Hq; [|by injection Hm as <- <-].
  rewrite (superseded_holds _ _ _ _ _ _ _ Hok Hs Hq) in Hm. by injection Hm as <- <-.
Qed.

Lemma superseded_release h env runner id g now u at_us p p' x :
  plane_ok p → superseded p (env, id) g →
  release_in_transaction h env id runner g now u at_us p = Ok (p', x) → p' = p ∧ x = false.
Proof.
  intros Hok Hs Ht. unfold release_in_transaction in Ht. tx_inv Ht. tx_inv Ht.
  unfold statement', release_production_claim_sql in Hm.
  assert (p1 = p ∧ a0 = None) as [-> ->].
  { destruct (runs p !! (env, id)) as [r|]; [|by injection Hm as <- <-].
    destruct (queue p !! (env, id)) as [q|] eqn:Hq; [|by injection Hm as <- <-].
    rewrite (superseded_holds _ _ _ _ _ _ _ Hok Hs Hq) in Hm. by injection Hm as <- <-. }
  by apply tx_ret_inv in Ht as [-> ->].
Qed.

Lemma superseded_record h env runner id g v p p' x :
  plane_ok p → superseded p (env, id) g →
  record_in_transaction h env id runner g v p = Ok (p', x) → p' = p ∧ x = false.
Proof.
  intros Hok Hs Ht. unfold record_in_transaction in Ht. tx_inv Ht. apply statement_inv in Ht.
  destruct (superseded_fenced p env id runner g Hok Hs) as (code & r & Hf & Hcode & _).
  unfold record_deadline_adjustments_sql in Ht. rewrite Hf in Ht.
  destruct Hcode as [->|[->| ->]]; simpl in Ht; by injection Ht as <- <-.
Qed.

(** A method whose transaction changes nothing changes nothing. *)
Lemma validated_still {A} (P : A → Prop) ok op d h c t rn env (k : string → string → tx A) p :
  env_key_for h c = Some env →
  (∀ runner p' a, k env runner p = Ok (p', a) → p' = p ∧ P a) →
  (validated ok op d h c t rn k p).1 = p ∧
  match (validated ok op d h c t rn k p).2 with Ok a => P a | Err _ => True end.
Proof.
  intros He Hk. unfold validated. rewrite He. destruct ok; simpl; [|done].
  destruct (runner_for h c) as [runner|]; [|done]. unfold transact.
  destruct (k env runner p) as [[p' a]|] eqn:E; [|done]. by destruct (Hk _ _ _ E) as [-> ?].
Qed.

End Steps.

(** ** Theorems *)

Section Theorems.
Context `{Jsonb, Collation, FloatText, Sha256, BindingWorlds, AdmissionChecks, JsonbEq,
          !WorkflowCatalog}.

(** A history of the run plane: calls of the store by any hosts in any order,
    and retention passes. *)
Definition store_history : Plane → Plane → Prop :=
  rtc (λ p p', store_step p p' ∨ ∃ env days now apply, p' = (prune env days now apply p).1).

(** C3. Every call of the run store, with any arguments and on every branch,
    refines the abstract run plane: the plane it commits is reached by the
    abstract transitions (admit, annotate, claim, count, renew, release, move,
    finish), or is unchanged when it refuses. *)
Theorem store_refines (p p' : Plane) :
  plane_ok p → store_step p p' → evolves p p' ∧ plane_ok p'.
Proof. intros Hok Hs. apply store_steps_evolve; [done|]. by apply rtc_once. Qed.

(** C4. In every state the store can reach from empty tables the run-plane
    invariant holds: unfinished runs and queue rows match one to one (RUN-1),
    attempts stay within budget and below it while no lease is held (RUN-4), a
    lease has an owner and a positive generation, a dispatched run was never
    claimed, only a dispatched run is parked, the CHECK constraints hold, and
    one idempotency key names one run (RUN-6). *)
Theorem run_plane_invariant (p : Plane) : store_history empty_plane p → plane_ok p.
Proof.
  intros Hh. pose proof empty_plane_ok as Hok. revert Hok.
  induction Hh as [p|p p1 p' Hs _ IH]; [done|]. intros Hok. apply IH.
  destruct Hs as [Hs|(env & days & now & ap & ->)].
  - by eapply evolves_ok, store_step_evolves.
  - eapply prunes_ok; [done|]. by apply prune_prunes.
Qed.

(** C11. RUN-5: whatever calls follow, a finished run's row never changes and it
    is never queued again; and of any run, the columns admission froze never
    change, and a caller outcome, once released, is never replaced. *)
Theorem finished_runs_stand (p p' : Plane) (k : key) (r : RunRow) :
  plane_ok p → rtc store_step p p' → runs p !! k = Some r →
  ∃ r', runs p' !! k = Some r' ∧ r_pins r' = r_pins r ∧
    (is_Some (c_released_at (r_caller r)) → r_caller r' = r_caller r) ∧
    (run_terminal (r_status r) = true → r' = r ∧ queue p' !! k = None).
Proof.
  intros Hok Hs Hr. destruct (store_steps_evolve p p' Hok Hs) as [He _].
  destruct (evolves_next p p' k r Hok He Hr) as (r' & Hr' & [Hp Hc _]).
  exists r'. split_and!; [done..|]. intros Hterm.
  destruct (evolves_terminal p p' k r Hok He Hr Hterm) as [Hr2 Hq]. split; [congruence|done].
Qed.

(** C5. The fence: once a claim is superseded (a newer generation was granted,
    or the run finished), then after any further calls of the store by anyone,
    every call under the old generation changes nothing: a completion is not
    recorded, a renewal reports the lost fence, a release and a deadline report
    report that the run is not held. *)
Theorem stale_claim_fenced (h : Host) (component env id : string) (g : Z) (p p' : Plane) :
  env_key_for h component = Some env → plane_ok p → superseded p (env, id) g →
  rtc store_step p p' →
  (∀ c at_us, (complete h component id g c at_us p').1 = p' ∧
              (complete h component id g c at_us p').2 ≠ Ok Terminalized) ∧
  (∀ ttl now, (renew h component id g ttl now p').1 = p' ∧
              (renew h component id g ttl now p').2 ≠ Ok Renewed) ∧
  (∀ now u at_us, (release_claim h component id g now u at_us p').1 = p' ∧
              (release_claim h component id g now u at_us p').2 ≠ Ok true) ∧
  (∀ v, (record_deadline_adjustments h component id g v p').1 = p' ∧
        (record_deadline_adjustments h component id g v p').2 ≠ Ok true).
Proof.
  intros He Hok Hs Hsteps. destruct (store_steps_evolve p p' Hok Hsteps) as [Hev Hok'].
  pose proof (evolves_superseded _ _ _ _ Hok Hev Hs) as Hs'.
  assert (Hgen : ∀ A (bad : A) ok op d t rn (k : string → string → tx A),
    (∀ runner p2 a, k env runner p' = Ok (p2, a) → p2 = p' ∧ a ≠ bad) →
    (validated ok op d h component t rn k p').1 = p' ∧
    (validated ok op d h component t rn k p').2 ≠ Ok bad).
  { intros A bad ok op d t rn k Hk.
    destruct (validated_still (λ a, a ≠ bad) ok op d h component t rn env k p' He Hk) as [E1 E2].
    split; [done|]. intros E. by rewrite E in E2. }
  split_and!; intros; apply Hgen; intros runner p2 a Ha.
  - by eapply superseded_complete.
  - by edestruct superseded_renew as [-> ->].
  - by edestruct superseded_release as [-> ->].
  - by edestruct superseded_record as [-> ->].
Qed.

End Theorems.
