(* ===== verification/ClaimProps.v ===== *)
(** * What a claim, a completion and a reap do

    The functional behaviour of the claim store's methods: which run a claim
    takes and the lease it grants, its agreement with the pure queue decision of
    [Queue], what a completion records, and what the janitor retires. *)

From stdpp Require Import base tactics option list gmap strings relations sorting.
From Stdlib Require Import ZArith Lia.
From S2P Require Import Prelude Json Canonical RunStatus RunStore Queue RunPlane ClaimStore PlaneSpec.
From S2P Require Import ClaimRefines.
#[local] Set Warnings "-clear-no-such-hyp".
Open Scope Z_scope.

(** A collation orders all texts. *)
Class CollationLaws `{Collation} := {
  collate_total : ∀ a b, collate a b = true ∨ collate b a = true;
  collate_trans : ∀ a b c, collate a b = true → collate b c = true → collate a c = true;
}.

(** ** The claim order *)

Section Order.
Context `{CollationLaws}.

Lemma instant_compare_antisym a b : instant_compare b a = CompOpp (instant_compare a b).
Proof. destruct a, b; simpl; try done. apply Z.compare_antisym. Qed.

Lemma fifo_leb_total a b : fifo_leb a b = true ∨ fifo_leb b a = true.
Proof.
  unfold fifo_leb.
  rewrite (instant_compare_antisym (q_available_at a.2.2)), (Z.compare_antisym (q_stream_seq a.2.2)).
  destruct (instant_compare (q_available_at a.2.2) (q_available_at b.2.2)); simpl; auto.
  destruct (q_stream_seq a.2.2 ?= q_stream_seq b.2.2); simpl; auto. apply collate_total.
Qed.

Lemma instant_compare_trans a b c :
  instant_compare a b ≠ Gt → instant_compare b c ≠ Gt →
  instant_compare a c ≠ Gt ∧ (instant_compare a c = Eq → instant_compare a b = Eq ∧ instant_compare b c = Eq).
Proof.
  destruct a as [x|], b as [y|], c as [z|]; simpl; try done.
  destruct (Z.compare_spec x y), (Z.compare_spec y z), (Z.compare_spec x z); try done; lia.
Qed.

Lemma fifo_leb_trans a b c : fifo_leb a b = true → fifo_leb b c = true → fifo_leb a c = true.
Proof.
  unfold fifo_leb. intros Hab Hbc.
  destruct (instant_compare_trans (q_available_at a.2.2) (q_available_at b.2.2) (q_available_at c.2.2))
    as [Hne Heq].
  { by intros E; rewrite E in Hab. }
  { by intros E; rewrite E in Hbc. }
  destruct (instant_compare (q_available_at a.2.2) (q_available_at c.2.2)); [|done|done].
  destruct Heq as [E1 E2]; [done|]. rewrite E1 in Hab. rewrite E2 in Hbc.
  destruct (Z.compare_spec (q_stream_seq a.2.2) (q_stream_seq b.2.2)),
    (Z.compare_spec (q_stream_seq b.2.2) (q_stream_seq c.2.2)),
    (Z.compare_spec (q_stream_seq a.2.2) (q_stream_seq c.2.2)); try done; try lia.
  by eapply collate_trans.
Qed.

(** The row a statement locks precedes every other row it could have locked. *)
Lemma first_unlocked_least locked pred p env x :
  first_unlocked locked pred p env = Some x →
  ∀ id r q, runs p !! (env, id) = Some r → queue p !! (env, id) = Some q →
    pred r q = true → locked id = false → fifo_leb x (id, (r, q)) = true.
Proof.
  unfold first_unlocked. intros Hh id r q Hr Hq Hp Hl.
  assert (Hin : (id, (r, q)) ∈ stable_sort fifo_leb
    (filter (λ c, pred c.2.1 c.2.2 && negb (locked c.1)) (joined p env))).
  { apply elem_of_stable_sort, list_elem_of_filter. split; [|by apply elem_of_joined].
    simpl. by rewrite Hp, Hl. }
  pose proof (stable_sort_sorted _ fifo_leb_total fifo_leb_trans
    (filter (λ c, pred c.2.1 c.2.2 && negb (locked c.1)) (joined p env))) as Hs.
  destruct (stable_sort _ _) as [|y l]; [done|]. injection Hh as ->.
  apply StronglySorted_inv in Hs as [_ Hs]. apply elem_of_cons in Hin as [<-|Hin].
  - by destruct (fifo_leb_total (id, (r, q)) (id, (r, q))).
  - by eapply Forall_forall in Hs.
Qed.

End Order.

(** ** A granted claim *)

Section Claim.
Context `{Jsonb, Collation, FloatText, Sha256, BindingWorlds}.

(** Which queued run a host of release [rel] may claim at [now]. *)
Record claimable (pk : list string) (e : string) (rel : option string) (now : Z)
    (r : RunRow) (q : QueueRow) : Prop := {
  cl_package : p_package_id (r_pins r) ∈ pk;
  cl_environment : p_environment (r_pins r) = e;
  cl_release : p_manifest_digest (r_pins r) = rel;
  cl_visible : ∃ t, q_available_at q = At t ∧ t ≤ now;
  cl_unleased : ∀ t, q_lease_expires_at q = Some t → t ≤ now;
  cl_budget : claimable_budget q;
}.

Lemma claim_predicate_spec pk e rel now r q :
  claim_predicate pk e rel now r q = true ↔ claimable pk e rel now r q.
Proof.
  unfold claim_predicate, in_scope, claimable_budget.
  rewrite !andb_true_iff, orb_true_iff, !bool_decide_eq_true, String.eqb_eq, Z.ltb_lt.
  assert (Hv : instant_reached (q_available_at q) now = true ↔
    ∃ t, q_available_at q = At t ∧ t ≤ now).
  { destruct (q_available_at q) as [t|]; simpl; [rewrite Z.leb_le|]; naive_solver. }
  assert (Hl : match q_lease_expires_at q with None => true | Some t => t <=? now end = true ↔
    ∀ t, q_lease_expires_at q = Some t → t ≤ now).
  { destruct (q_lease_expires_at q) as [t|]; [rewrite Z.leb_le|]; naive_solver. }
  rewrite Hv, Hl. split; [intros H'; constructor|intros []]; unfold claimable_budget in *; naive_solver.
Qed.

(** [a] comes no later than [b] in the queue: by visibility, then stream position. *)
Definition not_after (a b : QueueRow) : Prop :=
  ∀ ta tb, q_available_at a = At ta → q_available_at b = At tb →
    ta < tb ∨ ta = tb ∧ q_stream_seq a ≤ q_stream_seq b.

Lemma fifo_leb_not_after `{Collation} a b : fifo_leb a b = true → not_after a.2.2 b.2.2.
Proof.
  unfold fifo_leb, not_after. intros Hf ta tb Ha Hb. rewrite Ha, Hb in Hf. simpl in Hf.
  destruct (Z.compare_spec ta tb) as [->| |]; [|by left|done]. right. split; [done|].
  destruct (Z.compare_spec (q_stream_seq a.2.2) (q_stream_seq b.2.2)); (lia || done).
Qed.

Record granted (p p' : Plane) (env runner id : string) (pk : list string) (e : string)
    (rel : option string) (ttl now g : Z) (r r' : RunRow) (q q' : QueueRow) : Prop := {
  gr_run : runs p !! (env, id) = Some r;
  gr_queue : queue p !! (env, id) = Some q;
  gr_claimable : claimable pk e rel now r q;
  gr_generation : g = q_lease_generation q + 1;
  gr_run' : runs p' !! (env, id) = Some r';
  gr_queue' : queue p' !! (env, id) = Some q';
  gr_running : r_status r' = RunRunning;
  gr_pins : r_pins r' = r_pins r;
  gr_caller : r_caller r' = r_caller r;
  (** An expired attempt's state is dropped, and its lease counted. *)
  gr_state : r_state_json r' =
    if bool_decide (is_Some (q_lease_expires_at q)) then None else r_state_json r;
  gr_row : q' = grant_lease runner (now + us_of_ms ttl) g (with_attempts (counted q) q);
  gr_frame : ∀ k, k ≠ (env, id) → runs p' !! k = runs p !! k ∧ queue p' !! k = queue p !! k;
}.

(** The state a claim drops. *)
Definition cleared (b : bool) (r : RunRow) : RunRow :=
  if b then {| r_pins := r_pins r; r_status := r_status r; r_state_json := None;
               r_result_json := r_result_json r;
               r_deadline_adjustments_json := r_deadline_adjustments_json r;
               r_caller := r_caller r; r_terminal_reason := r_terminal_reason r;
               r_fail_type := r_fail_type r; r_updated_at := r_updated_at r |}
  else r.

Lemma grant_after_clear p env id runner ttl digest now b r q p2 n g p4 :
  runs p !! (env, id) = Some r → queue p !! (env, id) = Some q →
  let p1 := set_runs (<[(env, id) := cleared b r]> (runs p)) p in
  advance_claim_attempts_sql p1 env id = (p2, n) →
  grant_production_claim_sql p2 env id runner ttl digest now = Ok (p4, Some g) →
  g = q_lease_generation q + 1 ∧
  p4 = {| runs := <[(env, id) := set_running (cleared b r)]> (runs p);
          queue := <[(env, id) := grant_lease runner (now + us_of_ms ttl) g
                                    (with_attempts (counted q) q)]> (queue p) |}.
Proof.
  intros Hr Hq. unfold advance_claim_attempts_sql. simpl. rewrite Hq.
  fold (counted q). intros [= <- _]. unfold grant_production_claim_sql. simpl.
  rewrite !lookup_insert_eq. destruct (_ && _); [|done].
  destruct (update_run _ _ _) as [p3|] eqn:Hu; [|done]. intros [= <- <-].
  apply (update_run_inv _ _ _ _ (cleared b r)) in Hu as [_ ->]; [|simpl; apply lookup_insert_eq].
  split; [done|]. unfold set_runs, set_queue. simpl. by rewrite !insert_insert_eq.
Qed.

Lemma clear_inv env id p p' o r :
  runs p !! (env, id) = Some r → clear_pre_effect_state_sql p env id = Ok (p', o) →
  p' = set_runs (<[(env, id) := cleared true r]> (runs p)) p.
Proof.
  intros Hr. unfold clear_pre_effect_state_sql. rewrite Hr.
  destruct (update_run _ _ _) as [p2|] eqn:Hu; [|done]. intros [= <- _].
  by apply (update_run_inv _ _ _ _ _ Hr) in Hu as [_ ->].
Qed.

Lemma claim_ready_inv h env runner pk e ttl rel locked now p p' sc g :
  claim_in_transaction h env runner pk e ttl rel locked None now p =
    Ok (p', TurnClaimed (ClaimReady sc g)) →
  ∃ r q r' q',
    first_unlocked locked (claim_predicate pk e rel now) p env = Some (sc_run_id sc, (r, q)) ∧
    decode_selected_claim (sc_run_id sc) (bool_decide (is_Some (q_lease_expires_at q))) r = Ok sc ∧
    granted p p' env runner (sc_run_id sc) pk e rel ttl now g r r' q q'.
Proof.
  intros Ht. unfold claim_in_transaction in Ht. tx_inv Ht. tx_inv Ht.
  unfold select_production_claim_sql in Hm.
  destruct (first_unlocked _ _ p env) as [[id [r q]]|] eqn:Hs; subst a0;
    [|by apply tx_ret_inv in Ht as [_ ?]].
  destruct (first_unlocked_inv _ _ _ _ _ _ _ Hs) as (Hr & Hq & Hp). tx_inv Ht.
  assert (sc_run_id a0 = id ∧ sc_had_prior_lease a0 = bool_decide (is_Some (q_lease_expires_at q)))
    as [Hid Hprior].
  { unfold decode_selected_claim, result_bind in Hm. by repeat case_hyp Hm; simplify_eq. }
  destruct (runnable (sc_status a0)); [|done]. simpl in Ht.
  apply tx_bind_inv in Ht as (p1 & [] & Hclear & Ht).
  assert (p1 = set_runs (<[(env, id) :=
            cleared (bool_decide (is_Some (q_lease_expires_at q))) r]> (runs p)) p) as ->.
  { rewrite Hprior in Hclear. case_bool_decide; simpl in Hclear.
    - tx_inv Hclear. tx_inv Hclear. apply tx_ret_inv in Hclear as [-> _]. by eapply clear_inv.
    - apply tx_ret_inv in Hclear as [-> _]. unfold set_runs. simpl.
      rewrite insert_id by done. by destruct p. }
  apply tx_bind_inv in Ht as (p2 & n & Hadv & Ht). injection Hadv as Hadv.
  apply tx_bind_inv in Ht as (p3 & m & Hn & Ht). apply one_row_inv in Hn as [-> _].
  apply tx_bind_inv in Ht as (p4 & og & Hg & Ht). apply statement_inv in Hg.
  apply tx_bind_inv in Ht as (p5 & g' & Ho & Ht). apply ensure_inv in Ho as [-> Ho].
  apply tx_ret_inv in Ht as [-> [= -> ->]]. destruct og as [g0|]; [|done].
  injection Ho as ->. destruct (grant_after_clear p env id runner ttl _ now _ r q p2 n g' p4 Hr Hq Hadv Hg)
    as [-> ->].
  rewrite Hid. exists r, q, (set_running (cleared (bool_decide (is_Some (q_lease_expires_at q))) r)),
    (grant_lease runner (now + us_of_ms ttl) (q_lease_generation q + 1) (with_attempts (counted q) q)).
  split; [done|]. split; [done|].
  constructor; simpl; try done; try apply lookup_insert_eq.
  - by apply claim_predicate_spec.
  - unfold cleared. by destruct (bool_decide _).
  - unfold cleared. by destruct (bool_decide _).
  - unfold cleared. by destruct (bool_decide _).
  - intros k Hk. by rewrite !lookup_insert_ne.
Qed.

(** A run with a workflow has no caller, neither the router's nor a durable one. *)
Lemma decoded_workflow_detached id b r sc :
  decode_selected_claim id b r = Ok sc → is_Some (sc_workflow sc) →
  sc_router_caller_attached sc = false ∧ sc_durable_caller_attached sc = false.
Proof.
  unfold decode_selected_claim, result_bind. intros Hd [w Hw].
  destruct (decode_wiring_identity _ _) as [[wid wv]|]; [|done].
  destruct (decode_candidate _) as [cand|]; [|done]. destruct (_ && _); [done|].
  destruct (decode_workflow _ _ _ _ _) as [[w'|]|] eqn:Hwf; [| |done].
  - assert (Hsrc : workflow_source (p_trigger_source (r_pins r)) = true).
    { unfold decode_workflow in Hwf. repeat case_hyp Hwf; simplify_eq; done. }
    destruct (decode_causation _ _ _); [|done]. destruct (_ && _); [done|].
    injection Hd as <-. simpl. unfold router_caller_attached, durable_source.
    unfold workflow_source in Hsrc. apply bool_decide_eq_true in Hsrc.
    repeat (apply elem_of_cons in Hsrc as [Hsrc|Hsrc]; [rewrite Hsrc; split;
      [by rewrite !andb_false_r || (simpl; by rewrite ?andb_false_r)|done]|]).
    by apply not_elem_of_nil in Hsrc.
  - destruct (_ && _); [done|]. by injection Hd as <-.
Qed.

(** The statements of a claim succeed on the row the first one selected: the
    rechecked release pin always matches. *)
Lemma claim_takes h env runner pk e ttl rel locked now p id r q sc :
  plane_ok p → executor_member h = true →
  first_unlocked locked (claim_predicate pk e rel now) p env = Some (id, (r, q)) →
  decode_selected_claim id (bool_decide (is_Some (q_lease_expires_at q))) r = Ok sc →
  ∃ p', claim_in_transaction h env runner pk e ttl rel locked None now p =
    Ok (p', TurnClaimed (ClaimReady sc (q_lease_generation q + 1))).
Proof.
  intros Hok Hex Hs Hd. destruct (first_unlocked_inv _ _ _ _ _ _ _ Hs) as (Hr & Hq & Hp).
  assert (Hrun : runnable (r_status r) = true).
  { destruct (pk_rows _ Hok _ _ Hq) as (r0 & Hr0 & []). by simplify_eq. }
  assert (Hpin : p_manifest_digest (r_pins r) = rel).
  { unfold claim_predicate in Hp. split_andb. by eapply bool_decide_eq_true. }
  pose proof (pk_checks _ Hok _ _ Hr) as Hck.
  assert (Hst : sc_status sc = r_status r ∧ sc_had_prior_lease sc =
    bool_decide (is_Some (q_lease_expires_at q))).
  { unfold decode_selected_claim, result_bind in Hd. by repeat case_hyp Hd; simplify_eq. }
  destruct Hst as [Est Epr].
  unfold claim_in_transaction, require_executor_authority, mbind, tx_bind, observe.
  rewrite Hex. simpl. unfold select_production_claim_sql. rewrite Hs. unfold ensure. rewrite Hd.
  rewrite Est, Hrun, Epr. simpl.
  assert (Hpm : ∀ (c : option (string * Value)) r', r_pins r' = r_pins r →
    pin_matches (match c with Some _ => None | None => rel end) r' = true).
  { intros c r' E. unfold pin_matches. rewrite E, <- Hpin.
    destruct c, (p_manifest_digest (r_pins r)); try done. by apply bool_decide_true. }
  case_bool_decide as Hl; simpl.
  - unfold statement, clear_pre_effect_state_sql, update_run. rewrite Hr.
    rewrite (run_check_same r) by done. rewrite Hck. simpl.
    unfold statement', advance_claim_attempts_sql. simpl. rewrite Hq. simpl.
    unfold grant_production_claim_sql, update_run. simpl. rewrite !lookup_insert_eq. simpl.
    rewrite Hrun. simpl. rewrite Hpm by done.
    rewrite (run_check_same r) by done. rewrite Hck. by eexists.
  - unfold statement', advance_claim_attempts_sql. simpl. rewrite Hq. simpl.
    unfold statement, grant_production_claim_sql, update_run. simpl.
    rewrite !lookup_insert_eq, Hr, Hrun. simpl. rewrite Hpm by done.
    rewrite (run_check_same r) by done. rewrite Hck. by eexists.
Qed.

(** The committed plane of a refused grant. *)
Definition refused_plane (p : Plane) (k : key) (r : RunRow) (q : QueueRow) : Plane :=
  if bool_decide (is_Some (q_lease_expires_at q))
  then {| runs := <[k := cleared true r]> (runs p);
          queue := <[k := with_attempts (q_attempts q + 1) q]> (queue p) |}
  else p.

Lemma claim_refused h env runner pk e ttl rel locked err now p id r q sc :
  plane_ok p → executor_member h = true →
  first_unlocked locked (claim_predicate pk e rel now) p env = Some (id, (r, q)) →
  decode_selected_claim id (bool_decide (is_Some (q_lease_expires_at q))) r = Ok sc →
  claim_in_transaction h env runner pk e ttl rel locked (Some err) now p =
    Ok (refused_plane p (env, id) r q,
        GrantRefused (claim_error Storage "grant production lease" err)).
Proof.
  intros Hok Hex Hs Hd. destruct (first_unlocked_inv _ _ _ _ _ _ _ Hs) as (Hr & Hq & Hp).
  assert (Hrun : runnable (r_status r) = true).
  { destruct (pk_rows _ Hok _ _ Hq) as (r0 & Hr0 & []). by simplify_eq. }
  pose proof (pk_checks _ Hok _ _ Hr) as Hck.
  assert (sc_status sc = r_status r ∧ sc_had_prior_lease sc =
    bool_decide (is_Some (q_lease_expires_at q))) as [Est Epr].
  { unfold decode_selected_claim, result_bind in Hd. by repeat case_hyp Hd; simplify_eq. }
  unfold claim_in_transaction, require_executor_authority, mbind, tx_bind, observe.
  rewrite Hex. simpl. unfold select_production_claim_sql. rewrite Hs. unfold ensure. rewrite Hd.
  rewrite Est, Hrun, Epr. simpl. unfold refused_plane.
  case_bool_decide as Hl; simpl.
  - unfold statement, clear_pre_effect_state_sql, update_run. rewrite Hr.
    rewrite (run_check_same r) by done. rewrite Hck. simpl.
    unfold statement', advance_claim_attempts_sql. simpl. rewrite Hq. simpl.
    by rewrite bool_decide_true.
  - unfold statement', advance_claim_attempts_sql. simpl. rewrite Hq. simpl.
    rewrite bool_decide_false by done. rewrite Z.add_0_r.
    assert (with_attempts (q_attempts q) q = q) as -> by (by destruct q).
    rewrite insert_id by done. by destruct p.
Qed.

Lemma first_unlocked_some locked pred p env id r q :
  runs p !! (env, id) = Some r → queue p !! (env, id) = Some q → pred r q = true →
  locked id = false → is_Some (first_unlocked locked pred p env).
Proof.
  intros Hr Hq Hp Hl. unfold first_unlocked.
  assert (Hin : (id, (r, q)) ∈ stable_sort fifo_leb
    (filter (λ c, pred c.2.1 c.2.2 && negb (locked c.1)) (joined p env))).
  { apply elem_of_stable_sort, list_elem_of_filter. split; [|by apply elem_of_joined].
    simpl. by rewrite Hp, Hl. }
  destruct (stable_sort _ _); [by apply not_elem_of_nil in Hin|done].
Qed.

End Claim.

(** ** The statements and the pure queue decision *)

(** The decision view of a queue row; the SQL does not read [priority] or
    [enqueued_at]. *)
Definition entry_of (env : string) (c : string * (RunRow * QueueRow)) : QueueEntry := {|
  qe_env_key := env; qe_run_id := c.1; qe_priority := 0;
  qe_available_at := match q_available_at c.2.2 with At t => t | Infinity => 0 end;
  qe_enqueued_at := 0; qe_stream_seq := q_stream_seq c.2.2;
  qe_lease_owner := q_lease_owner c.2.2; qe_lease_expires_at := q_lease_expires_at c.2.2;
  qe_attempts := q_attempts c.2.2; qe_max_attempts := q_max_attempts c.2.2 |}.

Definition pinned (pk : list string) (e : string) (d : option string) (r : RunRow) : bool :=
  in_scope pk e r && bool_decide (p_manifest_digest (r_pins r) = d).

Definition finite (q : QueueRow) : bool := negb (bool_decide (q_available_at q = Infinity)).

Lemma claim_predicate_is_claimable env pk e d now id r q :
  claim_predicate pk e d now r q =
  pinned pk e d r && finite q && is_claimable (entry_of env (id, (r, q))) now.
Proof.
  unfold claim_predicate, pinned, finite. rewrite <- !andb_assoc. do 2 f_equal.
  apply eq_true_iff_eq. unfold is_claimable.
  rewrite !andb_true_iff, bool_decide_eq_true, claim_state_ready. simpl.
  destruct (q_available_at q) as [t|]; simpl; [|split; [by intros []|]].
  - rewrite Z.leb_le. destruct (q_lease_expires_at q) as [x|]; simpl.
    + rewrite orb_false_r, Z.leb_le, Z.ltb_lt. naive_solver.
    + rewrite orb_true_r. naive_solver.
  - by intros [? _].
Qed.

Lemma exhausted_predicate_is_orphaned env grace pk e now id r q :
  (∀ t, q_lease_expires_at q = Some t →
    - 9223372036854775808 ≤ t + us_of_ms grace ≤ 9223372036854775807) → 0 ≤ us_of_ms grace →
  exhausted_predicate grace pk e now r q =
  in_scope pk e r && runnable (r_status r) &&
  bool_decide (janitor_verdict (entry_of env (id, (r, q))) now (us_of_ms grace) = Orphaned).
Proof.
  intros Hr Hg. unfold exhausted_predicate. rewrite <- !andb_assoc. f_equal.
  unfold janitor_verdict. simpl. destruct (q_lease_expires_at q) as [t|]; simpl;
    [|by rewrite andb_false_r].
  rewrite i64_wrap_small by auto. rewrite (andb_comm (runnable _)).
  destruct (Z.ltb_spec now t) as [Hlt|Hge].
  - simpl. destruct (Z.leb_spec (t + us_of_ms grace) now); [lia|done].
  - destruct (_ <=? _), (_ <=? _); done.
Qed.

(** The candidates of one claim turn, as the pure decision sees them. *)
Definition candidates (p : Plane) (env : string) (locked : string → bool) (pk : list string)
    (e : string) (d : option string) : list QueueEntry :=
  entry_of env <$>
    filter (λ c, pinned pk e d c.2.1 && finite c.2.2 && negb (locked c.1)) (joined p env).

(** The order of Rust's strings, as a collation. *)
Definition byte_order : Collation := String.leb.

Lemma byte_order_laws : @CollationLaws byte_order.
Proof. split; [exact String.leb_total|exact string_leb_trans]. Qed.

Lemma fifo_leb_claim_leb env a b :
  finite a.2.2 = true → finite b.2.2 = true → claim_leb (entry_of env a) (entry_of env b) = @fifo_leb byte_order a b.
Proof.
  unfold finite, claim_leb, fifo_leb. simpl. rewrite !negb_true_iff, !bool_decide_eq_false.
  by destruct (q_available_at a.2.2), (q_available_at b.2.2).
Qed.

Lemma eligible_candidates p env locked pk e d now :
  eligible (candidates p env locked pk e d) now =
  entry_of env <$> stable_sort (@fifo_leb byte_order)
    (filter (λ c, claim_predicate pk e d now c.2.1 c.2.2 && negb (locked c.1)) (joined p env)).
Proof.
  unfold eligible, candidates. rewrite filter_fmap.
  rewrite (filter_filter_and _ _
    (λ c, claim_predicate pk e d now c.2.1 c.2.2 && negb (locked c.1))).
  - apply stable_sort_fmap. intros x y Hx Hy.
    apply list_elem_of_filter in Hx as [Hx _], Hy as [Hy _].
    destruct x as [i [r q]], y as [j [r' q']]. simpl in *.
    rewrite (claim_predicate_is_claimable env _ _ _ _ i) in Hx.
    rewrite (claim_predicate_is_claimable env _ _ _ _ j) in Hy.
    apply Is_true_true in Hx, Hy. split_andb. by apply fifo_leb_claim_leb.
  - intros [i [r q]]. simpl. rewrite (claim_predicate_is_claimable env _ _ _ _ i).
    rewrite !Is_true_true, !andb_true_iff. tauto.
Qed.

(** ** Completions *)

Section Complete.
Context `{Jsonb, Collation, FloatText, Sha256, BindingWorlds}.

(** The caller columns a completion leaves. *)
Definition caller_columns (k : ProductionCallerOutcome) (at_us : Z) : CallerColumns := {|
  c_outcome_type := Some (caller_kind k); c_outcome_json := jsonb (caller_body k);
  c_http_status := Some (caller_http_status k); c_release_node_id := caller_release_node_id k;
  c_outcome_hash := Some (canonical_json_sha256 (caller_body k)); c_released_at := Some at_us |}.

(** The completion fits the run: its bodies store, its instant is not before the
    run, its caller part is well formed and not yet released; and a completed
    run of a durable source has its caller answered. *)
Record fits (c : ProductionCompletion) (r : RunRow) (at_us : Z) : Prop := {
  ft_status : run_terminal (completion_status c) = true;
  ft_result : is_Some (jsonb (completion_result c));
  ft_instant : p_created_at (r_pins r) ≤ at_us;
  ft_caller : ∀ k, caller c = Some k →
    c_released_at (r_caller r) = None ∧ is_Some (jsonb (caller_body k)) ∧
    100 ≤ caller_http_status k ≤ 599 ∧
    (caller_kind k = KResponded → is_Some (caller_release_node_id k));
  ft_answered : caller c = None → completion_status c = RunCompleted →
    durable_source (p_trigger_source (r_pins r)) = false ∨ is_Some (c_released_at (r_caller r));
}.

(** A lease held under this owner and generation. *)
Record held (p : Plane) (env id owner : string) (g : Z) (r : RunRow) : Prop := {
  hd_env : env ≠ ""%string;
  hd_run : runs p !! (env, id) = Some r;
  hd_runnable : runnable (r_status r) = true;
  hd_queue : ∃ q, queue p !! (env, id) = Some q ∧ q_lease_owner q = Some owner ∧
    q_lease_generation q = g;
}.

Lemma held_fenced p env id owner g r :
  held p env id owner g r → fenced p env id id owner g = ("ready", Some r).
Proof.
  intros [He Hr Hrun (q & Hq & Ho & Hg)]. unfold fenced. rewrite String.eqb_refl.
  destruct (String.eqb_spec env ""); [done|]. simpl. rewrite Hr, terminal_not_runnable, Hrun, Hq.
  simpl. rewrite bool_decide_false by (intros Hn; by apply Hn). simpl.
  by rewrite Hg, Z.eqb_refl.
Qed.

(** The row a completion leaves. *)
Definition completed_row (c : ProductionCompletion) (r : RunRow) (at_us : Z) : RunRow := {|
  r_pins := r_pins r; r_status := completion_status c; r_state_json := r_state_json r;
  r_result_json := jsonb (completion_result c);
  r_deadline_adjustments_json := r_deadline_adjustments_json r;
  r_caller := match caller c with Some k => caller_columns k at_us | None => r_caller r end;
  r_terminal_reason := Some (terminal_reason c); r_fail_type := fail_type c;
  r_updated_at := at_us |}.

(** The CHECK constraints, as propositions. *)
Lemma run_check_None r :
  p_created_at (r_pins r) ≤ r_updated_at r →
  (is_Some (c_released_at (r_caller r)) ↔ is_Some (c_outcome_type (r_caller r))) →
  (is_Some (c_outcome_type (r_caller r)) → is_Some (c_outcome_json (r_caller r))) →
  (c_outcome_type (r_caller r) = Some KResponded → is_Some (c_release_node_id (r_caller r))) →
  (∀ h, c_http_status (r_caller r) = Some h → 100 ≤ h ≤ 599) →
  run_check r = None.
Proof.
  intros Ht H6 H7 H8 Hh. unfold run_check.
  assert (is_some_and (c_http_status (r_caller r)) (λ h, (h <? 100) || (599 <? h)) = false) as ->.
  { destruct (c_http_status (r_caller r)) as [h|]; simpl; [|done].
    specialize (Hh h eq_refl). destruct (Z.ltb_spec h 100), (Z.ltb_spec 599 h); (done || lia). }
  destruct (Z.ltb_spec (r_updated_at r) (p_created_at (r_pins r))); [lia|].
  rewrite bool_decide_true by done. simpl.
  destruct (bool_decide (is_Some (c_outcome_type (r_caller r)))) eqn:E1; simpl.
  - apply bool_decide_eq_true in E1. rewrite (bool_decide_true (is_Some (c_outcome_json _))) by auto.
    simpl. destruct (bool_decide (c_outcome_type (r_caller r) = Some KResponded)) eqn:E2; simpl;
      [|done].
    apply bool_decide_eq_true in E2. by rewrite bool_decide_true by auto.
  - apply bool_decide_eq_false in E1. by rewrite bool_decide_false by naive_solver.
Qed.

Lemma run_check_inv r :
  run_check r = None →
  (is_Some (c_released_at (r_caller r)) ↔ is_Some (c_outcome_type (r_caller r))) ∧
  (is_Some (c_outcome_type (r_caller r)) → is_Some (c_outcome_json (r_caller r))) ∧
  (c_outcome_type (r_caller r) = Some KResponded → is_Some (c_release_node_id (r_caller r))) ∧
  (∀ h, c_http_status (r_caller r) = Some h → 100 ≤ h ≤ 599).
Proof.
  unfold run_check. destruct (_ <? _); [done|].
  case_bool_decide as H6; simpl; [|done].
  destruct (bool_decide _ && negb _) eqn:E7; [done|].
  destruct (bool_decide (_ = Some KResponded) && negb _) eqn:E8; [done|].
  destruct (is_some_and _ _) eqn:Eh; [done|]. intros _. split_and!; [done|..].
  - intros Ht. rewrite bool_decide_true in E7 by done. simpl in E7.
    by apply negb_false_iff, bool_decide_eq_true in E7.
  - intros Ht. rewrite bool_decide_true in E8 by done. simpl in E8.
    by apply negb_false_iff, bool_decide_eq_true in E8.
  - intros h E. rewrite E in Eh. simpl in Eh. apply orb_false_iff in Eh as [? ?]. lia.
Qed.

(** A later update that keeps the caller columns passes the constraints. *)
Lemma run_check_later r r' :
  run_check r = None → r_pins r' = r_pins r → r_caller r' = r_caller r →
  p_created_at (r_pins r) ≤ r_updated_at r' → run_check r' = None.
Proof.
  intros (H6 & H7 & H8 & Hh)%run_check_inv Ep Ec Ht.
  apply run_check_None; rewrite ?Ep, ?Ec; done.
Qed.

Lemma caller_columns_check c r at_us k :
  fits c r at_us → caller c = Some k → run_check (set_caller (caller_columns k at_us) at_us r) = None.
Proof.
  intros [_ _ Ht Hc _] Hk. destruct (Hc k Hk) as (_ & Hj & Hh & Hn).
  apply run_check_None; simpl; try done; naive_solver.
Qed.

Lemma terminalize_held env id runner g c at_us p r :
  held p env id runner g r → run_check r = None → run_terminal (completion_status c) = true →
  is_Some (jsonb (completion_result c)) → p_created_at (r_pins r) ≤ at_us →
  (completion_status c = RunCompleted →
    durable_source (p_trigger_source (r_pins r)) = false ∨ is_Some (c_released_at (r_caller r))) →
  terminalize_in_transaction env id runner g c at_us p =
    Ok ({| runs := <[(env, id) := {|
             r_pins := r_pins r; r_status := completion_status c; r_state_json := r_state_json r;
             r_result_json := jsonb (completion_result c);
             r_deadline_adjustments_json := r_deadline_adjustments_json r; r_caller := r_caller r;
             r_terminal_reason := Some (terminal_reason c); r_fail_type := fail_type c;
             r_updated_at := at_us |}]> (runs p);
           queue := delete (env, id) (queue p) |}, Terminalized).
Proof.
  intros Hh Hck Hst [res Hres] Ht Hans.
  unfold terminalize_in_transaction, statement, mbind, tx_bind, terminalize_sql.
  rewrite (held_fenced _ _ _ _ _ _ Hh). simpl.
  assert (bool_decide (completion_status c = RunCompleted) &&
    negb (bool_decide (is_Some (c_released_at (r_caller r)))) &&
    durable_source (p_trigger_source (r_pins r)) = false) as ->.
  { case_bool_decide as E; simpl; [|done]. destruct (Hans E) as [->|Hrel]; [apply andb_false_r|].
    by rewrite bool_decide_true. }
  simpl. rewrite Hres. unfold update_run. rewrite (hd_run _ _ _ _ _ _ Hh).
  rewrite (run_check_later r) by done. done.
Qed.

Lemma complete_held h env id runner g c at_us p r :
  executor_member h = true → held p env id runner g r → run_check r = None → fits c r at_us →
  complete_in_transaction h env id runner g c at_us p =
    Ok ({| runs := <[(env, id) := completed_row c r at_us]> (runs p);
           queue := delete (env, id) (queue p) |}, Terminalized).
Proof.
  intros Hex Hh Hck Hfit. unfold complete_in_transaction, require_executor_authority.
  rewrite Hex. unfold mbind at 1, tx_bind at 1, mret, tx_ret.
  pose proof Hfit as [Hst Hres Ht Hc Hans]. unfold completed_row.
  destruct (caller c) as [k|] eqn:Hk; [|by apply terminalize_held; auto].
  destruct (Hc k eq_refl) as (Hrel & [body Hbody] & Hhttp & Hnode).
  pose proof (caller_columns_check _ _ _ _ Hfit Hk) as Hck2.
  unfold statement, mbind, tx_bind, release_caller_sql.
  rewrite (held_fenced _ _ _ _ _ _ Hh). simpl. rewrite Hrel. simpl. rewrite Hbody.
  unfold update_run. rewrite (hd_run _ _ _ _ _ _ Hh).
  unfold caller_columns in Hck2. rewrite Hbody in Hck2. rewrite Hck2.
  unfold ensure, decode_caller_release. simpl.
  destruct (Z.ltb_spec (caller_http_status k) 0), (Z.ltb_spec 65535 (caller_http_status k)); try lia.
  simpl. set (r2 := set_caller _ _ r).
  assert (Hh2 : held (set_runs (<[(env, id) := r2]> (runs p)) p) env id runner g r2).
  { destruct Hh as [? ? ? ?]. constructor; try done. apply lookup_insert_eq. }
  rewrite (terminalize_held _ _ _ _ _ _ _ _ Hh2); try done; [|by right].
  simpl. rewrite insert_insert_eq. unfold caller_columns. by rewrite Hbody.
Qed.

End Complete.

(** ** Theorems *)

Section Theorems.
Context `{Jsonb, Collation, FloatText, Sha256, BindingWorlds}.

(** A granted turn, taken apart: what it selected, decoded and wrote. *)
Lemma claim_next_inv h component pk e ttl locked now p p' sc g :
  claim_next h component pk e ttl locked None now p = (p', Ok (ClaimReady sc g)) →
  ∃ env runner r r' q q',
    env_key_for h component = Some env ∧ runner_for h component = Some runner ∧
    executor_member h = true ∧
    first_unlocked locked (claim_predicate pk e (release_identity_for h component) now) p env =
      Some (sc_run_id sc, (r, q)) ∧
    decode_selected_claim (sc_run_id sc) (bool_decide (is_Some (q_lease_expires_at q))) r = Ok sc ∧
    granted p p' env runner (sc_run_id sc) pk e (release_identity_for h component) ttl now g
      r r' q q'.
Proof.
  unfold claim_next, validated. destruct (negb _); [done|].
  destruct (env_key_for h component) as [env|]; [|done].
  destruct (runner_for h component) as [runner|]; [|done]. unfold transact.
  destruct (claim_in_transaction _ _ _ _ _ _ _ _ _ _ _) as [[p1 turn]|] eqn:Ht; [|done].
  destruct turn as [res|]; [|done]. intros [= <- ->].
  assert (Hex : executor_member h = true).
  { unfold claim_in_transaction, require_executor_authority in Ht.
    by destruct (executor_member h). }
  apply claim_ready_inv in Ht as (r & q & r' & q' & Hs & Hd & Hg).
  exists env, runner, r, r', q, q'. split_and!; done.
Qed.

(** A completion under a held lease commits. *)
Lemma complete_held_lease h component env runner id g c at_us p r :
  env_key_for h component = Some env → runner_for h component = Some runner →
  executor_member h = true → 0 < g → plane_ok p → held p env id runner g r → fits c r at_us →
  complete h component id g c at_us p =
    ({| runs := <[(env, id) := completed_row c r at_us]> (runs p);
        queue := delete (env, id) (queue p) |}, Ok Terminalized).
Proof.
  intros Henv Hrun Hex Hg Hok Hh Hf. unfold complete, validated. rewrite Henv, Hrun.
  assert ((0 <? g) = true) as -> by lia. simpl. unfold transact.
  rewrite (complete_held h env id runner g c at_us p r); try done.
  eapply pk_checks; [done|]. apply Hh.
Qed.

(** C8. A claim that returns a run took it by the book: the run was in scope,
    pinned to the host's release, visible, unleased or past its lease, and within
    budget; no unlocked claimable run precedes it in queue order; it is now
    running under a lease of this host with the next generation, its expired
    lease (and only that) counted and its abandoned state dropped; no other row
    changed; and a run with a workflow reports no attached caller. *)
Theorem claim_next_grants `{!CollationLaws} (h : Host) (component : string)
    (pk : list string) (e : string) (ttl : Z) (locked : string → bool) (now : Z)
    (p p' : Plane) (sc : SelectedClaim) (g : Z) :
  claim_next h component pk e ttl locked None now p = (p', Ok (ClaimReady sc g)) →
  ∃ env runner r r' q q',
    env_key_for h component = Some env ∧ runner_for h component = Some runner ∧
    granted p p' env runner (sc_run_id sc) pk e (release_identity_for h component) ttl now g
      r r' q q' ∧
    (∀ id r2 q2, runs p !! (env, id) = Some r2 → queue p !! (env, id) = Some q2 →
       claimable pk e (release_identity_for h component) now r2 q2 → locked id = false →
       not_after q q2) ∧
    (is_Some (sc_workflow sc) →
       sc_router_caller_attached sc = false ∧ sc_durable_caller_attached sc = false).
Proof.
  intros E. apply claim_next_inv in E
    as (env & runner & r & r' & q & q' & Henv & Hrun & _ & Hs & Hd & Hg).
  exists env, runner, r, r', q, q'. split_and!; try done.
  - intros id r2 q2 Hr2 Hq2 Hp2%claim_predicate_spec Hl.
    apply (fifo_leb_not_after (sc_run_id sc, (r, q)) (id, (r2, q2))). by eapply first_unlocked_least.
  - intros Hw. by eapply decoded_workflow_detached.
Qed.

(** C9. A claimable run is claimed: if some run in scope of a valid claim turn
    is claimable and not locked by another transaction, and the claimable rows
    decode, the turn takes a run; in particular the grant's recheck of the
    release pin never refuses the row the selection locked. *)
Theorem claim_next_progress (h : Host) (component env runner : string)
    (pk : list string) (e : string) (ttl : Z) (locked : string → bool) (now : Z)
    (p : Plane) (id : string) (r : RunRow) (q : QueueRow) :
  valid_package_scope pk = true → nonempty e = true → 0 < ttl →
  env_key_for h component = Some env → runner_for h component = Some runner →
  executor_member h = true → plane_ok p →
  runs p !! (env, id) = Some r → queue p !! (env, id) = Some q → locked id = false →
  claimable pk e (release_identity_for h component) now r q →
  (∀ id2 r2 q2, runs p !! (env, id2) = Some r2 → queue p !! (env, id2) = Some q2 →
     claimable pk e (release_identity_for h component) now r2 q2 →
     is_ok (decode_selected_claim id2 (bool_decide (is_Some (q_lease_expires_at q2))) r2) = true) →
  ∃ p' sc g, claim_next h component pk e ttl locked None now p = (p', Ok (ClaimReady sc g)).
Proof.
  intros Hpk He Httl Henv Hrun Hex Hok Hr Hq Hl Hp%claim_predicate_spec Hdec.
  destruct (first_unlocked_some locked (claim_predicate pk e (release_identity_for h component) now)
    p env id r q) as [[id2 [r2 q2]] Hs]; [done..|].
  destruct (first_unlocked_inv _ _ _ _ _ _ _ Hs) as (Hr2 & Hq2 & Hp2).
  specialize (Hdec id2 r2 q2 Hr2 Hq2 (proj1 (claim_predicate_spec _ _ _ _ _ _) Hp2)).
  destruct (decode_selected_claim id2 _ r2) as [sc|] eqn:Hd; [|done].
  destruct (claim_takes h env runner pk e ttl _ locked now p id2 r2 q2 sc Hok Hex Hs Hd) as [p' Ht].
  exists p', sc, (q_lease_generation q2 + 1).
  unfold claim_next, validated. rewrite Hpk, He, Henv, Hrun.
  assert ((0 <? ttl) = true) as -> by lia. simpl. unfold transact. by rewrite Ht.
Qed.

(** The plan over the candidates is the selection under the byte order. *)
Lemma plan_is_first p env locked pk e d now ttl :
  cl_run_id <$> head (plan_claim (candidates p env locked pk e d) now 1 ttl) =
  fst <$> @first_unlocked byte_order locked (claim_predicate pk e d now) p env.
Proof.
  unfold first_unlocked, plan_claim. rewrite eligible_candidates.
  destruct (stable_sort _ _) as [|[id [r q]] l]; done.
Qed.

Lemma first_unlocked_open (coll : Collation) locked pred p env x :
  @first_unlocked coll locked pred p env = Some x → locked x.1 = false.
Proof.
  unfold first_unlocked. intros Hh. assert (x ∈ stable_sort (@fifo_leb coll)
    (filter (λ c, pred c.2.1 c.2.2 && negb (locked c.1)) (joined p env))) as Hx.
  { destruct (stable_sort _ _); [done|]. injection Hh as ->. apply list_elem_of_here. }
  apply elem_of_stable_sort, list_elem_of_filter in Hx as [Hx _]. apply Is_true_true, andb_true_iff in Hx as [_ Hx].
  by apply negb_true_iff in Hx.
Qed.

(** Of two rows, each before the other in its own order: the queue position is
    the same, and the run too where the orders of their names agree. *)
Lemma fifo_leb_both (coll : Collation) (a b : string * (RunRow * QueueRow)) :
  @fifo_leb coll a b = true → @fifo_leb byte_order b a = true →
  q_available_at a.2.2 = q_available_at b.2.2 ∧ q_stream_seq a.2.2 = q_stream_seq b.2.2 ∧
  (@collate coll a.1 b.1 = String.leb a.1 b.1 → a.1 = b.1).
Proof.
  unfold fifo_leb. rewrite (instant_compare_antisym (q_available_at a.2.2)).
  rewrite (Z.compare_antisym (q_stream_seq a.2.2)).
  destruct (instant_compare _ _) eqn:Ei; cbn; try done.
  destruct (Z.compare_spec (q_stream_seq a.2.2) (q_stream_seq b.2.2)) as [E| |]; cbn; try done.
  intros Ha Hb. split_and!; [|done|].
  - destruct (q_available_at a.2.2), (q_available_at b.2.2); try done. by apply Z.compare_eq in Ei as ->.
  - intros Eq. apply String.leb_antisym; [by rewrite <- Eq|done].
Qed.

(** C10. The lock-and-order statement makes the choice of the pure queue
    decision, whatever the plane, the clock and the locks.  Given the rows the
    statement considers (the tenant's rows in scope, pinned to the release, not
    parked at infinity and not locked; [plan_claim] has no notion of any of
    these), the statement selects a run exactly when [plan_claim] with a limit of
    one takes one, and the two runs stand at the same place of the queue: the same
    visibility time and the same stream sequence.  [run_id] has no collation of
    its own in the schema, so the last tie-break is the database's order, any total
    preorder here; the run is the same one where that order agrees with the byte
    order on the two names, and always when it is the byte order. *)
Theorem claim_follows_plan `{!CollationLaws} (p : Plane) (env : string) (locked : string → bool)
    (pk : list string) (e : string) (d : option string) (now ttl : Z) :
  let planned := head (plan_claim (candidates p env locked pk e d) now 1 ttl) in
  match select_production_claim_sql p env locked pk e d now, planned with
  | None, None => True
  | Some (id, _, _), Some c =>
      ∃ q q', queue p !! (env, id) = Some q ∧ queue p !! (env, cl_run_id c) = Some q' ∧
        q_available_at q = q_available_at q' ∧ q_stream_seq q = q_stream_seq q' ∧
        (collate id (cl_run_id c) = String.leb id (cl_run_id c) → id = cl_run_id c)
  | _, _ => False
  end ∧
  fst <$> (fst <$> @select_production_claim_sql byte_order p env locked pk e d now) = cl_run_id <$> planned.
Proof.
  cbn zeta. pose proof (plan_is_first p env locked pk e d now ttl) as Ep. split.
  2: { rewrite Ep. unfold select_production_claim_sql. by destruct (@first_unlocked byte_order _ _ _ _) as [[? [? ?]]|]. }
  unfold select_production_claim_sql. set (pred := claim_predicate pk e d now) in *.
  destruct (@first_unlocked byte_order locked pred p env) as [[id' [r' q']]|] eqn:Eb;
    destruct (head _) as [c|]; try done.
  - injection Ep as Ei. rewrite Ei. assert (Hb := @first_unlocked_inv byte_order _ _ _ _ _ _ _ Eb).
    destruct Hb as (Hr' & Hq' & Hp'). assert (Hl' := first_unlocked_open _ _ _ _ _ _ Eb).
    destruct (first_unlocked_some locked pred p env id' r' q') as [[id [r q]] Ec]; [done..|]. rewrite Ec.
    destruct (first_unlocked_inv _ _ _ _ _ _ _ Ec) as (Hr & Hq & Hp). assert (Hl := first_unlocked_open _ _ _ _ _ _ Ec).
    exists q, q'. split; [done|]. split; [done|]. apply (fifo_leb_both _ (id, (r, q)) (id', (r', q'))).
    + by eapply first_unlocked_least.
    + by eapply (@first_unlocked_least byte_order byte_order_laws).
  - set (selected := first_unlocked locked pred p env).
    destruct selected as [[id [r q]]|] eqn:Ec; [|done]. unfold selected in Ec.
    destruct (first_unlocked_inv _ _ _ _ _ _ _ Ec) as (Hr & Hq & Hp). assert (Hl := first_unlocked_open _ _ _ _ _ _ Ec).
    destruct (@first_unlocked_some byte_order locked pred p env id r q) as [? E]; [done..|]. by rewrite E in Eb.
Qed.

(** The janitor's statement is the pure janitor's verdict: a row is selected
    for reaping exactly when it is in scope, unfinished and orphaned; so no row
    is ever both claimable and reapable. *)
Theorem reap_follows_janitor (env : string) (grace : Z) (pk : list string) (e : string)
    (d : option string) (now : Z) (id : string) (r : RunRow) (q : QueueRow) :
  (∀ t, q_lease_expires_at q = Some t →
    - 9223372036854775808 ≤ t + us_of_ms grace ≤ 9223372036854775807) → 0 ≤ grace →
  exhausted_predicate grace pk e now r q =
    in_scope pk e r && runnable (r_status r) &&
    bool_decide (janitor_verdict (entry_of env (id, (r, q))) now (us_of_ms grace) = Orphaned) ∧
  (exhausted_predicate grace pk e now r q && claim_predicate pk e d now r q = false).
Proof.
  intros Hr Hg. assert (Hus : 0 ≤ us_of_ms grace) by (unfold us_of_ms; lia).
  split; [by apply exhausted_predicate_is_orphaned|].
  rewrite (exhausted_predicate_is_orphaned env _ _ _ _ id) by done.
  rewrite (claim_predicate_is_claimable env _ _ _ _ id). apply not_true_iff_false. intros Hb.
  split_andb. unfold is_claimable in *.
  repeat match goal with Hd : bool_decide _ = true |- _ => apply bool_decide_eq_true in Hd end.
  by edestruct orphaned_spec.
Qed.

(** C39. A refused grant commits what was observed before it: the claim fails
    with a storage error; a run whose lease had expired keeps the advanced attempt
    and the cleared state, so that it reaches its budget and the janitor; a run
    that was never leased keeps its whole row, attempts included, so it is still
    the first claimable row of the next turn. *)
Theorem grant_refusal_commits (h : Host) (component env runner : string)
    (pk : list string) (e : string) (ttl : Z) (locked : string → bool) (err : string) (now : Z)
    (p : Plane) (id : string) (r : RunRow) (q : QueueRow) (sc : SelectedClaim) :
  valid_package_scope pk = true → nonempty e = true → 0 < ttl →
  env_key_for h component = Some env → runner_for h component = Some runner →
  executor_member h = true → plane_ok p →
  first_unlocked locked (claim_predicate pk e (release_identity_for h component) now) p env =
    Some (id, (r, q)) →
  decode_selected_claim id (bool_decide (is_Some (q_lease_expires_at q))) r = Ok sc →
  claim_next h component pk e ttl locked (Some err) now p =
    (refused_plane p (env, id) r q,
     Err (claim_error Storage "grant production lease" err)) ∧
  (q_lease_expires_at q = None → refused_plane p (env, id) r q = p).
Proof.
  intros Hpk He Httl Henv Hrun Hex Hok Hs Hd. split.
  - unfold claim_next, validated. rewrite Hpk, He, Henv, Hrun.
    assert ((0 <? ttl) = true) as -> by lia. simpl. unfold transact.
    by rewrite (claim_refused h env runner pk e ttl _ locked err now p id r q sc).
  - intros Hl. unfold refused_plane. by rewrite Hl.
Qed.

(** A completion under a held lease is recorded: the run takes the
    completion's status, reason, result and failure class, its caller (when the
    completion answers one) is released with exactly that outcome and its digest,
    the queue row is gone, and no other row changes. *)
Theorem complete_records (h : Host) (component env runner id : string) (g : Z)
    (c : ProductionCompletion) (at_us : Z) (p : Plane) (r : RunRow) :
  env_key_for h component = Some env → runner_for h component = Some runner →
  executor_member h = true → 0 < g → plane_ok p → held p env id runner g r → fits c r at_us →
  complete h component id g c at_us p =
    ({| runs := <[(env, id) := completed_row c r at_us]> (runs p);
        queue := delete (env, id) (queue p) |}, Ok Terminalized).
Proof. apply complete_held_lease. Qed.

(** First caller outcome wins: when the caller was already released with a
    different outcome, a completion that answers it is refused and the run keeps
    its row and its lease. *)
Theorem complete_conflict (h : Host) (component env runner id : string) (g : Z)
    (c : ProductionCompletion) (k : ProductionCallerOutcome) (at_us : Z) (p : Plane)
    (r : RunRow) (stored : StoredCallerOutcome) :
  env_key_for h component = Some env → runner_for h component = Some runner →
  executor_member h = true → 0 < g → held p env id runner g r → run_check r = None →
  caller c = Some k → is_Some (c_released_at (r_caller r)) →
  c_outcome_type (r_caller r) = Some (so_type stored) →
  c_outcome_json (r_caller r) = Some (so_body stored) →
  c_http_status (r_caller r) = so_http_status stored →
  c_release_node_id (r_caller r) = so_release_node_id stored →
  c_outcome_hash (r_caller r) = so_hash stored →
  exactly_matches stored (caller_kind k) (caller_body k) (Some (caller_http_status k))
    (caller_release_node_id k) (canonical_json_sha256 (caller_body k)) = false →
  complete h component id g c at_us p =
    (p, Err (claim_error Contract "release production caller" "production-caller-outcome-conflict")).
Proof.
  intros Henv Hrun Hex Hg Hh Hck Hk Hrel Ht Hj Hs Hn Hhash Hne.
  unfold complete, validated. rewrite Henv, Hrun.
  assert ((0 <? g) = true) as -> by lia. simpl. unfold transact, complete_in_transaction.
  unfold require_executor_authority, mbind, tx_bind, mret, tx_ret. rewrite Hex, Hk.
  unfold statement, release_caller_sql. rewrite (held_fenced _ _ _ _ _ _ Hh). simpl.
  rewrite bool_decide_true by done. simpl.
  unfold ensure, decode_caller_release. simpl. rewrite Hs.
  assert (is_some_and (so_http_status stored) (λ x, (x <? 0) || (65535 <? x)) = false) as ->.
  { apply run_check_inv in Hck as (_ & _ & _ & Hr). rewrite Hs in Hr.
    destruct (so_http_status stored) as [x|]; simpl; [|done]. specialize (Hr x eq_refl).
    destruct (Z.ltb_spec x 0), (Z.ltb_spec 65535 x); (done || lia). }
  unfold caller_from_parts. simpl. rewrite Ht, Hj, Hn, Hhash. simpl.
  destruct stored. simpl in *. by rewrite Hne.
Qed.

End Theorems.
