(* ===== verification/WorkflowProps.v ===== *)
(** * What reaping, releasing, parking, admitting and pruning do *)

From stdpp Require Import base tactics option list gmap strings relations sorting.
From Stdlib Require Import ZArith Lia.
From S2P Require Import Prelude Json Canonical RunStatus RunStore Queue RunPlane ClaimStore PlaneSpec.
From S2P Require Import ClaimRefines Workflows StoreProps.
#[local] Set Warnings "-clear-no-such-hyp".
Open Scope Z_scope.

(** ** Reaping *)

Section Reap.
Context `{Jsonb, Collation, FloatText, Sha256, BindingWorlds}.

(** The caller columns and result a retired run is left with. *)
Record retired (r r' : RunRow) (id : string) (status : RunStatus) (code : string) (at_us : Z) : Prop := {
  rt_status : r_status r' = status;
  rt_pins : r_pins r' = r_pins r;
  rt_reason : r_terminal_reason r' = Some code;
  rt_instant : r_updated_at r' = at_us;
  (** A waiting caller is answered with a generic failure that names the run. *)
  rt_caller : durable_source (p_trigger_source (r_pins r)) = true →
    c_released_at (r_caller r) = None →
    ∃ identity body, jsonb (fst (generic_failure_outcome code identity id)) = Some body ∧
      r_caller r' = {| c_outcome_type := Some KFailed; c_outcome_json := Some body;
        c_http_status := Some 500; c_release_node_id := None;
        c_outcome_hash := Some (snd (generic_failure_outcome code identity id));
        c_released_at := Some at_us |};
  (** No caller waits, or it was answered: its columns stay. *)
  rt_answered : durable_source (p_trigger_source (r_pins r)) = false ∨
    is_Some (c_released_at (r_caller r)) → r_caller r' = r_caller r;
}.

Lemma terminalize_exhausted_retires st fail p env id identity code at_us p' o r :
  runs p !! (env, id) = Some r →
  code = match fail with Some f => as_sql f | None => as_sql st end →
  terminalize_exhausted_sql st fail p env id (fst (generic_failure_outcome code identity id))
    (snd (generic_failure_outcome code identity id)) at_us = Ok (p', Some o) →
  ∃ r', retired r r' id st code at_us ∧
    p' = {| runs := <[(env, id) := r']> (runs p); queue := delete (env, id) (queue p) |}.
Proof.
  intros Hr Hcode. unfold terminalize_exhausted_sql. rewrite Hr.
  destruct (runnable (r_status r)); [|done].
  set (cand := match fail with Some _ => true | None => _ end).
  set (att := durable_source _ && _).
  destruct (if cand || att then _ else _) as [body|] eqn:Hbody; [|done].
  destruct (update_run _ _ _) as [p2|] eqn:Hu; [|done]. intros [= <- _].
  apply (update_run_inv _ _ _ _ _ Hr) in Hu as [Hck ->].
  eexists. split; [|reflexivity]. constructor; try (simpl; by rewrite ?Hcode).
  - intros Hd Hn. assert (att = true) as E.
    { unfold att. by rewrite Hd, bool_decide_true. }
    rewrite E, orb_true_r in Hbody. exists identity, body. split; [done|].
    simpl. by rewrite E.
  - intros Hor. assert (att = false) as E.
    { unfold att. destruct Hor as [->|[t Ht]]; [done|].
      rewrite bool_decide_false by congruence. apply andb_false_r. }
    simpl. by rewrite E.
Qed.

Lemma reap_inv h env pk e grace locked now at_us p p' id :
  reap_in_transaction h env pk e grace locked now at_us p = Ok (p', Reaped id) →
  ∃ r q r', runs p !! (env, id) = Some r ∧ queue p !! (env, id) = Some q ∧
    exhausted_predicate grace pk e now r q = true ∧
    retired r r' id InfrastructureFailure "infrastructure-failure" at_us ∧
    p' = {| runs := <[(env, id) := r']> (runs p); queue := delete (env, id) (queue p) |}.
Proof.
  intros Ht. unfold reap_in_transaction in Ht. tx_inv Ht. tx_inv Ht.
  unfold select_exhausted_production_sql in Hm.
  destruct (first_unlocked _ _ p env) as [[id' [r q]]|] eqn:Hs; subst a0;
    [|by apply tx_ret_inv in Ht as [_ ?]].
  apply first_unlocked_inv in Hs as (Hr & Hq & Hp). tx_inv Ht.
  destruct (negb (runnable (r_status r))); [done|].
  destruct (generic_failure_outcome _ _ _) as [body hash] eqn:Hb. tx_inv Ht. tx_inv Ht.
  destruct (negb _); [done|]. apply tx_ret_inv in Ht as [-> [= ->]].
  destruct a1 as [st|]; [|done].
  replace body with (fst (generic_failure_outcome "infrastructure-failure" a0 id')) in Hm0
    by (by rewrite Hb).
  replace hash with (snd (generic_failure_outcome "infrastructure-failure" a0 id')) in Hm0
    by (by rewrite Hb).
  eapply terminalize_exhausted_retires in Hm0 as (r' & Hrt & ->); [|done..].
  by exists r, q, r'.
Qed.

(** What the janitor retires: a run that was in scope, unfinished, whose
    lease had expired longer than the grace ago and whose budget was spent.  It
    ends as [infrastructure-failure], leaves the queue, and its waiting caller
    (if it has one that was not answered) is released with a 500 that names the
    run; an answered caller keeps its outcome; no other row changes. *)
Theorem reap_retires (h : Host) (component : string) (pk : list string) (e : string)
    (grace : Z) (locked : string → bool) (now at_us : Z) (p p' : Plane) (id : string) :
  reap_exhausted h component pk e grace locked now at_us p = (p', Ok (Reaped id)) →
  ∃ env r q r' t, env_key_for h component = Some env ∧
    runs p !! (env, id) = Some r ∧ queue p !! (env, id) = Some q ∧
    runnable (r_status r) = true ∧ in_scope pk e r = true ∧
    q_lease_expires_at q = Some t ∧ t + us_of_ms grace ≤ now ∧ q_max_attempts q ≤ q_attempts q ∧
    retired r r' id InfrastructureFailure "infrastructure-failure" at_us ∧
    p' = {| runs := <[(env, id) := r']> (runs p); queue := delete (env, id) (queue p) |}.
Proof.
  unfold reap_exhausted, validated. destruct (negb _); [done|].
  destruct (env_key_for h component) as [env|]; [|done].
  destruct (runner_for h component) as [runner|]; [|done]. unfold transact.
  destruct (reap_in_transaction _ _ _ _ _ _ _ _ _) as [[p1 res]|] eqn:Ht; [|done].
  intros [= -> ->]. apply reap_inv in Ht as (r & q & r' & Hr & Hq & Hp & Hrt & ->).
  unfold exhausted_predicate in Hp. split_andb.
  destruct (q_lease_expires_at q) as [t|] eqn:Hl; [|done]. simpl in *.
  exists env, r, q, r', t. split_and!; try done; lia.
Qed.

(** ** Releasing *)

Lemma release_backoff_bounds a u :
  0 ≤ a → 0 ≤ u < 2 ^ 53 →
  us_of_ms 1000 ≤ release_backoff_us a u ≤ us_of_ms MAX_RETRY_BACKOFF_MS.
Proof.
  intros Ha Hu. unfold release_backoff_us, us_of_ms, MAX_RETRY_BACKOFF_MS.
  assert (1 ≤ 2 ^ Z.min a 9) by (apply (Z.pow_le_mono_r 2 0); lia).
  assert (0 ≤ 1000000 * 2 ^ Z.min a 9 * u / (5 * 2 ^ 53)) by (apply Z.div_pos; lia).
  lia.
Qed.

(** Releasing a held claim (a credential or pool was unavailable) spends one
    attempt.  With attempts left the run goes back to the queue without a lease,
    visible between one second and five minutes later, its row unchanged; at the
    limit it ends as failed with [retry-exhausted], leaves the queue, and an
    unanswered caller is released with a 500. *)
Theorem release_claim_outcome (h : Host) (component id : string) (g now u at_us : Z) (p p' : Plane) :
  plane_ok p → 0 ≤ u < 2 ^ 53 →
  release_claim h component id g now u at_us p = (p', Ok true) →
  ∃ env r q, env_key_for h component = Some env ∧
    runs p !! (env, id) = Some r ∧ queue p !! (env, id) = Some q ∧ q_lease_generation q = g ∧
    ((q_attempts q + 1 < q_max_attempts q ∧ runs p' = runs p ∧
      ∃ q', queue p' = <[(env, id) := q']> (queue p) ∧ q_lease_expires_at q' = None ∧
        q_lease_owner q' = None ∧ q_attempts q' = q_attempts q + 1 ∧
        ∃ t, q_available_at q' = At t ∧
          now + us_of_ms 1000 ≤ t ≤ now + us_of_ms MAX_RETRY_BACKOFF_MS) ∨
     (q_max_attempts q ≤ q_attempts q + 1 ∧
      ∃ r', retired r r' id RunFailed "retry-exhausted" at_us ∧
        p' = {| runs := <[(env, id) := r']> (runs p); queue := delete (env, id) (queue p) |})).
Proof.
  intros Hok Hu. unfold release_claim, validated. destruct (negb _); [done|].
  destruct (env_key_for h component) as [env|]; [|done].
  destruct (runner_for h component) as [runner|]; [|done]. unfold transact.
  destruct (release_in_transaction _ _ _ _ _ _ _ _ _) as [[p1 res]|] eqn:Ht; [|done].
  intros [= -> ->]. unfold release_in_transaction in Ht. tx_inv Ht. tx_inv Ht.
  unfold statement', release_production_claim_sql in Hm.
  destruct (runs p !! (env, id)) as [r|] eqn:Hr;
    [|injection Hm as <- <-; by apply tx_ret_inv in Ht as [_ ?]].
  destruct (queue p !! (env, id)) as [q|] eqn:Hq;
    [|injection Hm as <- <-; by apply tx_ret_inv in Ht as [_ ?]].
  destruct (holds_lease q runner g now && runnable (r_status r)) eqn:Hl;
    [|injection Hm as <- <-; by apply tx_ret_inv in Ht as [_ ?]].
  unfold holds_lease in Hl. split_andb. injection Hm as <- <-.
  exists env, r, q. split_and!; [done..|lia|].
  destruct (pk_rows _ Hok _ _ Hq) as (r0 & _ & [_ Hatt _ _ _ _ _ _]).
  destruct (Z.leb_spec (q_max_attempts q) (q_attempts q + 1)).
  - right. split; [done|]. tx_inv Ht. tx_inv Ht.
    destruct (generic_failure_outcome _ _ _) as [body hash] eqn:Hb.
    tx_inv Ht. tx_inv Ht. apply tx_ret_inv in Ht as [-> _].
    match type of Hb with ?G = _ =>
      replace body with (fst G) in * by (by rewrite Hb);
      replace hash with (snd G) in * by (by rewrite Hb) end.
    match goal with Hx : ?o = Some _ |- _ => destruct o; [|done] end.
    eapply terminalize_exhausted_retires in Hm1 as (r' & Hrt & ->); [|done..].
    exists r'. split; [done|]. simpl. by rewrite delete_insert_eq.
  - left. split; [lia|]. apply tx_ret_inv in Ht as [-> _]. split; [done|].
    eexists. split; [done|]. simpl. split_and!; [done..|]. eexists. split; [done|].
    pose proof (release_backoff_bounds (q_attempts q) u). lia.
Qed.

End Reap.

(** ** Parking *)

(** A park holds: after it the run is dispatched, unleased and parked; no
    claim turn and no janitor turn of any host selects it at any time; and a
    release returns exactly that queue row, visible at once. *)
Theorem park_holds (env e id : string) (now : Z) (p p' : Plane) :
  plane_ok p → park env e id now p = (p', Ok tt) →
  ∃ r q, runs p' !! (env, id) = Some r ∧ r_status r = Dispatched ∧
    queue p' !! (env, id) = Some q ∧ q_available_at q = Infinity ∧ q_lease_expires_at q = None ∧
    (∀ pk e2 d now2, claim_predicate pk e2 d now2 r q = false) ∧
    (∀ grace pk e2 now2, exhausted_predicate grace pk e2 now2 r q = false) ∧
    (∀ now2, release env e id now2 p' =
       (set_queue (<[(env, id) := with_available (At now2) q]> (queue p')) p', Ok tt)).
Proof.
  intros Hok Hp.
  assert (Hok' : plane_ok p').
  { eapply evolves_ok; [exact Hok|]. change p' with (p', @Ok unit WorkflowErrorType tt).1.
    rewrite <- Hp. by apply park_evolves. }
  assert (∃ r q, runs p' !! (env, id) = Some r ∧ queue p' !! (env, id) = Some q ∧
    q_available_at q = Infinity ∧ p_environment (r_pins r) = e) as (r & q & Hr & Hq & Hi & He).
  { unfold park, park_queued_run_sql, move_available, select_run_queue_state_sql in Hp.
    destruct (runs p !! (env, id)) as [r|] eqn:Hr, (queue p !! (env, id)) as [q|] eqn:Hq;
      try (repeat case_hyp Hp; simplify_eq; done).
    - destruct (_ && _ && _ && _) eqn:Hc.
      + injection Hp as <-. split_andb. exists r, (with_available Infinity q).
        simpl. rewrite lookup_insert_eq. split_and!; try done. by apply String.eqb_eq.
      + rewrite Hr, Hq in Hp. destruct (String.eqb_spec (p_environment (r_pins r)) e); [|done].
        simpl in Hp. case_bool_decide as Hav; [|done]. injection Hp as <-.
        exists r, q. split_and!; try done. by injection Hav.
    - rewrite Hr, Hq in Hp. destruct (String.eqb _ _); done. }
  destruct (pk_rows _ Hok' _ _ Hq) as (r0 & Hr0 & Hrow). simplify_eq.
  pose proof (qr_parked _ _ Hrow Hi) as Hd.
  destruct (qr_dispatched _ _ Hrow Hd) as (Hl & _ & _).
  exists r, q. split_and!; try done.
  - intros pk e2 d now2. unfold claim_predicate. rewrite Hi. simpl. by rewrite !andb_false_r.
  - intros grace pk e2 now2. unfold exhausted_predicate. rewrite Hl. simpl.
    by rewrite andb_false_r.
  - intros now2. unfold release, release_parked_run_sql, move_available. rewrite Hr, Hq.
    rewrite String.eqb_refl, bool_decide_true by done. done.
Qed.

(** ** Admission *)

Section Admission.
Context `{Jsonb, AdmissionChecks, JsonbEq}.

Lemma key_taken_true p env i r k :
  runs p !! (env, i) = Some r → p_idempotency_key (r_pins r) = Some k →
  key_taken p env (Some k) = true.
Proof.
  intros Hr Hk. destruct (key_taken p env (Some k)) eqn:E; [done|].
  by destruct (key_taken_false _ _ _ _ _ E Hr).
Qed.

Lemma select_first_unique source p env i r k input :
  plane_ok p → runs p !! (env, i) = Some r → p_idempotency_key (r_pins r) = Some k →
  p_trigger_source (r_pins r) = Some source →
  select_first_run_sql source p env k input jsonb_eq =
    if jsonb_eq (p_input_json (r_pins r)) input then Some i else None.
Proof.
  intros Hok Hr Hk Hs. unfold select_first_run_sql.
  match goal with |- context [filter ?Q (map_to_list (runs p))] => set (P := Q) end.
  assert (Honly : ∀ kr, kr ∈ filter P (map_to_list (runs p)) →
    kr = ((env, i), r) ∧ jsonb_eq (p_input_json (r_pins r)) input = true).
  { intros [[e2 j] r2] [HP Hin%elem_of_map_to_list]%list_elem_of_filter.
    unfold P in HP. simpl in HP. apply Is_true_true in HP. split_andb.
    match goal with Hx : String.eqb _ _ = true |- _ => apply String.eqb_eq in Hx; subst e2 end.
    repeat match goal with Hx : bool_decide _ = true |- _ => apply bool_decide_eq_true in Hx end.
    assert (j = i) as ->.
    { eapply (pk_keys _ Hok env); [exact Hin|exact Hr|by eexists|congruence]. }
    rewrite Hr in Hin. injection Hin as <-. done. }
  destruct (filter P (map_to_list (runs p))) as [|kr l] eqn:El.
  - destruct (jsonb_eq _ _) eqn:Ej; [|done]. exfalso.
    assert (Hin : ((env, i), r) ∈ filter P (map_to_list (runs p))).
    { apply list_elem_of_filter. split; [|by apply elem_of_map_to_list].
      unfold P. apply Is_true_true. simpl.
      by rewrite String.eqb_refl, Hk, Hs, !bool_decide_true, Ej. }
    rewrite El in Hin. by apply not_elem_of_nil in Hin.
  - destruct (Honly kr) as [-> ->]; [left|]. done.
Qed.

Lemma admit_taken p env i r k input given now fresh b pins source select :
  plane_ok p → runs p !! (env, i) = Some r → p_idempotency_key (r_pins r) = Some k →
  p_trigger_source (r_pins r) = Some source → p_idempotency_key (pins b) = Some k →
  select = select_first_run_sql source → jsonb input = Some given → admission_check (pins b) = None →
  admit_run env k input now (λ p, insert_binds_sql p env fresh (Some b) pins) select p =
    Ok (p, if jsonb_eq (p_input_json (r_pins r)) given then Queued i else Conflict).
Proof.
  intros Hok Hr Hk Hs Hpins -> Hg Hchk.
  unfold admit_run, statement, mbind, tx_bind, insert_binds_sql, insert_run_sql.
  rewrite Hchk, Hpins, (key_taken_true _ _ _ _ _ Hr Hk). simpl.
  rewrite Hg, (select_first_unique _ _ _ _ _ _ _ Hok Hr Hk Hs).
  by destruct (jsonb_eq _ _).
Qed.

Lemma cast_binds_inv b b' : cast_binds b = Some b' →
  ∃ input digests, jsonb (w_input b) = Some input ∧ jsonb (w_node_digests b) = Some digests ∧
    b' = with_json input digests b.
Proof.
  unfold cast_binds. destruct (jsonb (w_input b)) as [v|], (jsonb (w_node_digests b)) as [d|]; try done.
  intros [= <-]. by exists v, d.
Qed.

(** The row of a manual start that admitted a fresh run. *)
Lemma manual_admitted h env policy fresh user b now p p' id :
  key_taken p env (Some (w_idempotency_key b)) = false →
  transact (admit_manual_run h env policy fresh user b now) p = (p', Ok (Queued id)) →
  ∃ b', cast_binds b = Some b' ∧
    runs p' = <[(env, id) := admitted_row (manual_pins user now b')]> (runs p) ∧
    queue p' = <[(env, id) := fresh_queue_row now]> (queue p).
Proof.
  intros Hkey Ha. unfold transact in Ha. destruct (admit_manual_run _ _ _ _ _ _ _ _) as [[p1 x]|] eqn:Ht; [|done].
  injection Ha as -> ->. unfold admit_manual_run, read_durability, admit_run in Ht.
  tx_inv Ht. tx_inv Ht. tx_inv Ht. unfold insert_manual_run_sql, insert_binds_sql, insert_run_sql in Hm0.
  destruct (cast_binds b) as [b'|] eqn:Ec; [|done]. exists b'. split; [done|].
  destruct (cast_binds_inv _ _ Ec) as (v & d & _ & _ & ->). simpl in Hm0.
  destruct (admission_check _); [done|]. rewrite Hkey in Hm0. destruct (runs p !! (env, fresh)) eqn:Hnew; [done|].
  injection Hm0 as <- <-. tx_inv Ht. apply tx_ret_inv in Ht as [-> [= ->]].
  unfold insert_run_queue_sql in Hm0. simpl in Hm0. rewrite lookup_insert_eq in Hm0.
  destruct (queue p !! (env, fresh)); [done|]. by injection Hm0 as <-.
Qed.

Context `{Collation, FloatText, Sha256, BindingWorlds, !WorkflowCatalog}.

(** C12. One idempotency key admits one run: after a manual start admitted a
    fresh run, and whatever calls of the store follow, a later manual start with
    the same key, whose JSON the database casts and whose row passes the CHECK
    constraints, writes nothing and answers that run when the stored inputs are
    equal, and a conflict when they are not. *)
Theorem manual_start_idempotent (h h2 : Host) (env fresh fresh2 user user2 : string)
    (policy policy2 : option DurabilityClass) (b b2 b2' : WorkflowBinds) (now now2 : Z)
    (p p' p2 : Plane) (id : string) :
  plane_ok p → key_taken p env (Some (w_idempotency_key b)) = false →
  transact (admit_manual_run h env policy fresh user b now) p = (p', Ok (Queued id)) →
  rtc store_step p' p2 → w_idempotency_key b2 = w_idempotency_key b →
  executor_member h2 = true → is_Some policy2 → cast_binds b2 = Some b2' →
  admission_check (manual_pins user2 now2 b2') = None →
  ∃ b', cast_binds b = Some b' ∧
  transact (admit_manual_run h2 env policy2 fresh2 user2 b2 now2) p2 =
    (p2, Ok (if jsonb_eq (w_input b') (w_input b2') then Queued id else Conflict)).
Proof.
  intros Hok Hkey Ha Hsteps Hk Hex [pol ->] Hc2 Hchk.
  assert (Hok' : plane_ok p').
  { eapply evolves_ok; [exact Hok|]. change p' with (p', @Ok RunAdmitted ProductionClaimError (Queued id)).1.
    rewrite <- Ha. apply transact_evolves. intros. by eapply manual_evolves. }
  destruct (manual_admitted _ _ _ _ _ _ _ _ _ _ Hkey Ha) as (b' & Hc & Hruns & _). exists b'. split; [done|].
  assert (runs p' !! (env, id) = Some (admitted_row (manual_pins user now b'))) as Hr by (rewrite Hruns; apply lookup_insert_eq).
  destruct (cast_binds_inv _ _ Hc) as (v & d & _ & _ & ->). destruct (cast_binds_inv _ _ Hc2) as (v2 & d2 & Hv2 & _ & E2).
  destruct (store_steps_evolve p' p2 Hok' Hsteps) as [Hev Hok2].
  destruct (evolves_next p' p2 (env, id) _ Hok' Hev Hr) as (r2 & Hr2 & [Hp2 _ _]).
  unfold transact, admit_manual_run, require_executor_authority, read_durability.
  unfold mbind, tx_bind, mret, tx_ret, ensure. rewrite Hex, Hk. unfold insert_manual_run_sql. rewrite Hc2. cbn [ok_or].
  rewrite (admit_taken p2 env id r2 (w_idempotency_key b) (w_input b2) v2 now2 fresh2 b2' _ "manual"
    select_manual_run_sql Hok2 Hr2); [|by rewrite Hp2|by rewrite Hp2|rewrite E2; simpl; by rewrite Hk|done..].
  by rewrite Hp2, E2.
Qed.

End Admission.

(** Retention deletes exactly the finished runs of the tenant that are older
    than the window: every other run keeps its row, no queue row is touched, the
    reported count is the number of runs deleted, and a dry run reports the same
    count and changes nothing. *)
Theorem prune_exact (env : string) (days now : Z) (p : Plane) :
  plane_ok p →
  (∀ k r, runs (prune env days now true p).1 !! k = Some r ↔
     runs p !! k = Some r ∧
     ¬ (k.1 = env ∧ run_terminal (r_status r) = true ∧
        p_created_at (r_pins r) < now - days * us_per_day)) ∧
  queue (prune env days now true p).1 = queue p ∧
  (prune env days now true p).2 = size (filter (λ kr, prunable env days now kr = true) (runs p)) ∧
  prune env days now false p = (p, (prune env days now true p).2).
Proof.
  intros Hok. split_and!; simpl; [| | |done].
  - intros k r. rewrite map_lookup_filter_Some. apply and_iff_compat_l.
    unfold prunable. simpl. rewrite !andb_false_iff, Z.ltb_ge, String.eqb_neq.
    destruct (run_terminal (r_status r)); [|naive_solver].
    split; [intros [[?|?]|?]; (done || intuition lia)|]. intros Hn.
    destruct (decide (k.1 = env)); [|auto]. right. apply Z.le_ngt. tauto.
  - apply map_filter_id. intros k q Hq.
    destruct (pk_rows _ Hok _ _ Hq) as (r & Hr & [Hrun]). simpl. rewrite Hr. unfold prunable. simpl.
    by rewrite terminal_not_runnable, Hrun, andb_false_r.
  - set (P := λ kr, prunable env days now kr = true).
    assert (filter (λ kr, prunable env days now kr = false) (runs p) =
            filter (λ kr, ¬ P kr) (runs p)) as ->.
    { apply map_filter_ext. intros k r _. unfold P. by destruct (prunable env days now (k, r)). }
    rewrite <- (map_filter_union_complement P (runs p)) at 1.
    rewrite map_size_disj_union by apply map_disjoint_filter_complement. lia.
Qed.
