(* ===== verification/Authority.v ===== *)
(** * Operation references, host routes and the caller's authority

    [crates/catalog/model/src/route_identity.rs] and [host_route.rs] (the fixed
    routes of the control contract, with the constants of
    [host_route/wamn.json]), the operation kinds of [serving_manifest.rs], the
    caller of [crates/platform/engine/src/flow_http_routing.rs] and the grant
    check of [crates/platform/engine/src/router_delivery.rs].  A [HashSet] of
    permissions is a [gset string]. *)

From stdpp Require Import base tactics option list gmap strings.
From Stdlib Require Import ZArith Lia.
From S2P Require Import Prelude Text.
#[local] Set Warnings "-clear-no-such-hyp".

(** ** [route_identity.rs] *)

Definition kebab (s : string) : string := replace_char underscore hyphen s.

Definition operation_token (package version model action : string) : string :=
  kebab package +:+ ":" +:+ kebab model +:+ "/" +:+ kebab action +:+ "@" +:+ version.

Definition split_sealed_operation (sealed : string) : option (string * string) :=
  rsplit_once at_sign sealed.

Definition sealed_operation_reference (sealed : string) : string :=
  match split_sealed_operation sealed with Some (reference, _) => reference | None => sealed end.

Definition route_path (path_prefix model action : string) : string :=
  path_prefix +:+ "/" +:+ model +:+ "/" +:+ action.

Definition route_attachment_id (id_prefix model action : string) : string :=
  let model := kebab model in
  if String.eqb id_prefix "" then model +:+ "-" +:+ action +:+ "-http"
  else id_prefix +:+ "-" +:+ model +:+ "-" +:+ action +:+ "-http".

(** ** [host_route.rs] *)

Definition host_route_package : string := "wamn_control".
Definition host_route_version : string := "0.9.0".
Definition routes_path_prefix : string := "/wamn_control".
Definition routes_id_prefix : string := "wamn-control".
Definition host_route_path_prefix : string := routes_path_prefix +:+ "/".

Definition is_host_route_operation (operation : string) : bool :=
  match split_once colon operation with
  | Some (package, _) => String.eqb package (kebab host_route_package)
  | None => false
  end.

Inductive HostRouteSet := ApplicationSet | ControlSet.
#[export] Instance HostRouteSet_eq_dec : EqDecision HostRouteSet.
Proof. solve_decision. Defined.

Inductive HostHandler :=
  | HIntegrationAdministration | HPermissionMine | HApplicationUserList | HRoleList |
  HRoleCreate | HRoleDelete | HPermissionList | HPermissionGrant | HPermissionRevoke |
  HUserRoleGrant | HUserRoleRevoke | HControlMine | HUserList | HUserInvite | HUserActivate |
  HUserDeactivate | HProjectList | HOrgAdminGrant | HOrgAdminRevoke | HEnvironmentList |
  HEnvironmentStatus | HMemberList | HMemberGrant | HMemberRevoke | HProjectAdminGrant |
  HProjectAdminRevoke | HReleaseProfile | HEnvironmentActivate | HEnvironmentInactivate |
  HProjectActivate | HProjectInactivate | HProjectCreate | HNumberCounterSet | HWorkflowStart
  | HFilePut | HFileGet | HFileDelete | HFileExpose.
#[export] Instance HostHandler_eq_dec : EqDecision HostHandler.
Proof. solve_decision. Defined.

Inductive HostRouteAuthority :=
  MemberAuthority | AdminAuthority | OrgAdminAuthority | ProjectAdminAuthority | GrantedAuthority.
#[export] Instance HostRouteAuthority_eq_dec : EqDecision HostRouteAuthority.
Proof. solve_decision. Defined.

Inductive OperationType :=
  Get | Query | Create | Update | Delete | Command | Projection | EventHandler.
#[export] Instance OperationType_eq_dec : EqDecision OperationType.
Proof. solve_decision. Defined.

Definition is_read (t : OperationType) : bool :=
  match t with Get | Query | Projection => true | _ => false end.

Record HostRoute := {
  hr_set : HostRouteSet;
  hr_operation : string;
  hr_type : OperationType;
  hr_authority : HostRouteAuthority;
  hr_handler : HostHandler;
}.
#[export] Instance HostRoute_eq_dec : EqDecision HostRoute.
Proof. solve_decision. Defined.
Definition host_route s o t a h : HostRoute :=
  {| hr_set := s; hr_operation := o; hr_type := t; hr_authority := a; hr_handler := h |}.

Definition ROUTES : list HostRoute :=
  [host_route ApplicationSet "file.put" Command GrantedAuthority HFilePut;
   host_route ApplicationSet "file.get" Get GrantedAuthority HFileGet;
   host_route ApplicationSet "file.delete" Command GrantedAuthority HFileDelete;
   host_route ApplicationSet "file.expose" Command GrantedAuthority HFileExpose;
   host_route ControlSet "integration_type.list" Get ProjectAdminAuthority HIntegrationAdministration;
   host_route ControlSet "external_system.write" Command ProjectAdminAuthority HIntegrationAdministration;
   host_route ControlSet "external_system.list" Get ProjectAdminAuthority HIntegrationAdministration;
   host_route ControlSet "external_system.delete" Command ProjectAdminAuthority HIntegrationAdministration;
   host_route ControlSet "integration.write" Command ProjectAdminAuthority HIntegrationAdministration;
   host_route ControlSet "integration.list" Get ProjectAdminAuthority HIntegrationAdministration;
   host_route ControlSet "integration.get" Get ProjectAdminAuthority HIntegrationAdministration;
   host_route ControlSet "integration.disable" Command ProjectAdminAuthority HIntegrationAdministration;
   host_route ControlSet "integration.enable" Command ProjectAdminAuthority HIntegrationAdministration;
   host_route ControlSet "integration.delete" Command ProjectAdminAuthority HIntegrationAdministration;
   host_route ControlSet "connection.write" Command ProjectAdminAuthority HIntegrationAdministration;
   host_route ControlSet "connection.authorize" Command ProjectAdminAuthority HIntegrationAdministration;
   host_route ControlSet "connection.test" Command ProjectAdminAuthority HIntegrationAdministration;
   host_route ControlSet "connection.copy" Command ProjectAdminAuthority HIntegrationAdministration;
   host_route ControlSet "connection.set_credential" Command ProjectAdminAuthority HIntegrationAdministration;
   host_route ControlSet "connection.disable" Command ProjectAdminAuthority HIntegrationAdministration;
   host_route ControlSet "connection.enable" Command ProjectAdminAuthority HIntegrationAdministration;
   host_route ControlSet "connection.delete" Command ProjectAdminAuthority HIntegrationAdministration;
   host_route ControlSet "connection.list" Get ProjectAdminAuthority HIntegrationAdministration;
   host_route ControlSet "connection.get" Get ProjectAdminAuthority HIntegrationAdministration;
   host_route ApplicationSet "permission.mine" Get MemberAuthority HPermissionMine;
   host_route ApplicationSet "user.list" Get AdminAuthority HApplicationUserList;
   host_route ApplicationSet "role.list" Get AdminAuthority HRoleList;
   host_route ApplicationSet "role.create" Command AdminAuthority HRoleCreate;
   host_route ApplicationSet "role.delete" Command AdminAuthority HRoleDelete;
   host_route ApplicationSet "permission.list" Get AdminAuthority HPermissionList;
   host_route ApplicationSet "permission.grant" Command AdminAuthority HPermissionGrant;
   host_route ApplicationSet "permission.revoke" Command AdminAuthority HPermissionRevoke;
   host_route ApplicationSet "user_role.grant" Command AdminAuthority HUserRoleGrant;
   host_route ApplicationSet "user_role.revoke" Command AdminAuthority HUserRoleRevoke;
   host_route ApplicationSet "number_counter.set" Command GrantedAuthority HNumberCounterSet;
   host_route ApplicationSet "workflow.start" Command GrantedAuthority HWorkflowStart;
   host_route ControlSet "control.mine" Get MemberAuthority HControlMine;
   host_route ControlSet "user.list" Get MemberAuthority HUserList;
   host_route ControlSet "user.invite" Command OrgAdminAuthority HUserInvite;
   host_route ControlSet "user.activate" Command OrgAdminAuthority HUserActivate;
   host_route ControlSet "user.deactivate" Command OrgAdminAuthority HUserDeactivate;
   host_route ControlSet "project.list" Get OrgAdminAuthority HProjectList;
   host_route ControlSet "org_admin.grant" Command OrgAdminAuthority HOrgAdminGrant;
   host_route ControlSet "org_admin.revoke" Command OrgAdminAuthority HOrgAdminRevoke;
   host_route ControlSet "environment.list" Get ProjectAdminAuthority HEnvironmentList;
   host_route ControlSet "environment.status" Get ProjectAdminAuthority HEnvironmentStatus;
   host_route ControlSet "release.profile" Get ProjectAdminAuthority HReleaseProfile;
   host_route ControlSet "member.list" Get ProjectAdminAuthority HMemberList;
   host_route ControlSet "member.grant" Command ProjectAdminAuthority HMemberGrant;
   host_route ControlSet "member.revoke" Command ProjectAdminAuthority HMemberRevoke;
   host_route ControlSet "project_admin.grant" Command ProjectAdminAuthority HProjectAdminGrant;
   host_route ControlSet "project_admin.revoke" Command ProjectAdminAuthority HProjectAdminRevoke;
   host_route ControlSet "environment.activate" Command OrgAdminAuthority HEnvironmentActivate;
   host_route ControlSet "environment.inactivate" Command OrgAdminAuthority HEnvironmentInactivate;
   host_route ControlSet "project.activate" Command OrgAdminAuthority HProjectActivate;
   host_route ControlSet "project.inactivate" Command OrgAdminAuthority HProjectInactivate;
   host_route ControlSet "project.create" Command OrgAdminAuthority HProjectCreate].

Record HostAttachment := {
  ha_route : HostRoute;
  ha_id : string;
  ha_operation : string;
  ha_reference : string;
  ha_method : string;
  ha_path : string;
}.

#[export] Instance HostAttachment_eq_dec : EqDecision HostAttachment.
Proof. solve_decision. Defined.

(** One entry of [ATTACHMENTS]; every route names its model and action. *)
Definition host_attachment (r : HostRoute) : run HostAttachment :=
  match split_once dot (hr_operation r) with
  | None => Panic "a host route names its model and action"
  | Some (model, action) =>
      let operation := operation_token host_route_package host_route_version model action in
      Ret {| ha_route := r;
             ha_id := route_attachment_id routes_id_prefix model action;
             ha_operation := operation;
             ha_reference := sealed_operation_reference operation;
             ha_method := if is_read (hr_type r) then "GET" else "POST";
             ha_path := route_path routes_path_prefix model action |}
  end.

(** [ATTACHMENTS] as a list; [host_attachments_total] shows no entry panics or
    shadows another. *)
Definition ATTACHMENTS : list HostAttachment :=
  omap (λ r, match host_attachment r with Ret a => Some a | Panic _ => None end) ROUTES.

Definition attachment (s : HostRouteSet) (id : string) : option HostAttachment :=
  List.find (λ a, bool_decide (hr_set (ha_route a) = s) && String.eqb (ha_id a) id) ATTACHMENTS.

Definition registered_operation (a : HostAttachment) : option string :=
  match hr_authority (ha_route a) with
  | AdminAuthority | GrantedAuthority => Some (ha_operation a)
  | _ => None
  end.

Definition is_granted_host_route_operation (operation : string) : bool :=
  let reference := sealed_operation_reference operation in
  existsb (λ a, bool_decide (hr_authority (ha_route a) = GrantedAuthority) &&
                String.eqb (ha_reference a) reference) ATTACHMENTS.

(** ** The authenticated caller *)

Inductive CredentialType := Pat | Session | QueuedService | Connection.

Record AuthenticatedCaller := {
  attachment_id : string;
  principal_id : string;
  credential_type : CredentialType;
  admin : bool;
  permissions : gset string;
  active_role : option string;
}.

Definition permits (c : AuthenticatedCaller) (operation : string) : bool :=
  admin c ||
  ((negb (is_host_route_operation operation) || is_granted_host_route_operation operation) &&
   bool_decide (sealed_operation_reference operation ∈ permissions c)).

(** ** [router_delivery.rs] *)

(** The refusal has one type, [PermissionDenied]; it names the operation. *)
Record OperationRefusal := { refused_operation : string }.

Definition authorize_registered_operation (c : option AuthenticatedCaller)
    (operation : option string) : result unit OperationRefusal :=
  match operation with
  | None => Ok tt
  | Some op =>
      match c with
      | Some c => if permits c op then Ok tt else Err {| refused_operation := op |}
      | None => Err {| refused_operation := op |}
      end
  end.

(** ** Operation references *)

(** The reference of a token, whatever its version. *)
Definition operation_reference (package model action : string) : string :=
  kebab package +:+ ":" +:+ kebab model +:+ "/" +:+ kebab action.

Lemma token_split package version model action :
  operation_token package version model action =
  operation_reference package model action +:+ String at_sign version.
Proof. unfold operation_token, operation_reference. by rewrite !string_app_assoc. Qed.

(** What the callers of this file read off [ATTACHMENTS]. *)
Definition attachment_sound (a : HostAttachment) : bool :=
  is_host_route_operation (ha_operation a) &&
  String.eqb (sealed_operation_reference (ha_operation a)) (ha_reference a) &&
  Bool.eqb (is_granted_host_route_operation (ha_operation a))
           (bool_decide (hr_authority (ha_route a) = GrantedAuthority)).

Lemma attachments_sound : forallb attachment_sound ATTACHMENTS = true.
Proof. vm_compute. reflexivity. Qed.

Lemma attachment_facts a : a ∈ ATTACHMENTS →
  is_host_route_operation (ha_operation a) = true ∧
  sealed_operation_reference (ha_operation a) = ha_reference a ∧
  is_granted_host_route_operation (ha_operation a) =
    bool_decide (hr_authority (ha_route a) = GrantedAuthority).
Proof.
  intros Ha. pose proof attachments_sound as Hs. rewrite forallb_forall in Hs.
  apply list_elem_of_In in Ha. specialize (Hs a Ha). unfold attachment_sound in Hs.
  apply andb_prop in Hs as [[H1 H2]%andb_prop H3]. split; [done|].
  split; [by apply String.eqb_eq|by apply Bool.eqb_prop].
Qed.

(** Whether a host operation is granted, as a fact about the table. *)
Lemma granted_operation_inv op :
  is_granted_host_route_operation op = true →
  ∃ a, a ∈ ATTACHMENTS ∧ hr_authority (ha_route a) = GrantedAuthority ∧
       ha_reference a = sealed_operation_reference op.
Proof.
  unfold is_granted_host_route_operation. generalize ATTACHMENTS. intros l Hg.
  apply existsb_exists in Hg as (a & Hin & Ha).
  apply andb_prop in Ha as [Hau Href]. exists a. split; [by apply list_elem_of_In|].
  split; [by eapply bool_decide_eq_true|by apply String.eqb_eq].
Qed.

(** One route's entry, checked: it does not panic and is found under its id. *)
Definition route_listed (r : HostRoute) : bool :=
  match host_attachment r with
  | Ret a => bool_decide (ha_route a = r) && bool_decide (attachment (hr_set r) (ha_id a) = Some a) &&
             String.prefix host_route_path_prefix (ha_path a)
  | Panic _ => false
  end.

Lemma routes_listed : forallb route_listed ROUTES = true.
Proof. vm_compute. reflexivity. Qed.

(** ** Theorems *)

(** The grants of an application never reach the platform's own routes: a
    caller may call a host route exactly when it is the administrator, or the
    route is one of the granted kind and the caller holds the route's reference;
    in particular a caller that is not the administrator is refused every member,
    admin, org-admin and project-admin route whatever its permissions say, also
    when it is called by its bare reference or under another version; and an
    operation of any other package is decided by its reference alone. *)
Theorem host_route_authority (c : AuthenticatedCaller) :
  (∀ a, a ∈ ATTACHMENTS →
     permits c (ha_operation a) =
       admin c || (bool_decide (hr_authority (ha_route a) = GrantedAuthority) &&
                   bool_decide (ha_reference a ∈ permissions c))) ∧
  (∀ op, admin c = false → is_host_route_operation op = true → permits c op = true →
     ∃ a, a ∈ ATTACHMENTS ∧ hr_authority (ha_route a) = GrantedAuthority ∧
          sealed_operation_reference op = ha_reference a ∧ ha_reference a ∈ permissions c) ∧
  (∀ op, is_host_route_operation op = false →
     permits c op = admin c || bool_decide (sealed_operation_reference op ∈ permissions c)).
Proof.
  split_and!.
  - intros a Ha. destruct (attachment_facts a Ha) as (H1 & H2 & H3).
    unfold permits. by rewrite H1, H2, H3.
  - intros op Hadmin Hhost. unfold permits. rewrite Hadmin, Hhost. cbn [negb orb].
    intros [Hg Hp]%andb_prop. apply bool_decide_eq_true in Hp.
    destruct (granted_operation_inv op Hg) as (a & Ha & Hau & Href).
    exists a. rewrite Href. auto.
  - intros op Hhost. unfold permits. by rewrite Hhost.
Qed.

(** Sealing and reading back: the reference of an operation token is its
    package, model and action whatever the version, so a grant outlives a
    version; and the token splits back into that reference and the version. *)
Theorem operation_token_roundtrip (package version model action : string) :
  has_char at_sign version = false →
  split_sealed_operation (operation_token package version model action) =
    Some (operation_reference package model action, version) ∧
  sealed_operation_reference (operation_token package version model action) =
    operation_reference package model action.
Proof.
  intros Hv. unfold sealed_operation_reference, split_sealed_operation.
  rewrite token_split, rsplit_once_app by done. done.
Qed.

Lemma operation_token_roundtrip_witness :
  split_sealed_operation (operation_token "wamn_control" "0.9.0" "user_role" "grant") =
    Some ("wamn-control:user-role/grant"%string, "0.9.0"%string) ∧
  sealed_operation_reference (operation_token "wamn_control" "0.9.0" "user_role" "grant") =
    "wamn-control:user-role/grant"%string.
Proof. apply (operation_token_roundtrip "wamn_control" "0.9.0" "user_role" "grant"). reflexivity. Defined.

(** The table of host routes is complete and unambiguous: no entry reaches
    the initializer's panic, each route has its attachment under the host prefix,
    a lookup by its set and id finds exactly it, and within a set no two
    attachments answer the same method and path. *)
Theorem host_attachments_total :
  (∀ r, r ∈ ROUTES → ∃ a, host_attachment r = Ret a ∧ a ∈ ATTACHMENTS ∧ ha_route a = r ∧
     attachment (hr_set r) (ha_id a) = Some a ∧
     String.prefix host_route_path_prefix (ha_path a) = true) ∧
  NoDup ((λ a, (hr_set (ha_route a), ha_method a, ha_path a)) <$> ATTACHMENTS).
Proof.
  split.
  - intros r Hr. pose proof routes_listed as Hs. rewrite forallb_forall in Hs.
    assert (Hl : route_listed r = true) by (apply Hs, list_elem_of_In, Hr).
    unfold route_listed in Hl. destruct (host_attachment r) as [a|m] eqn:Ea; [|done].
    apply andb_prop in Hl as [[H1 H2]%andb_prop H3].
    apply bool_decide_eq_true in H1, H2. exists a. split_and!; try done.
    apply list_elem_of_omap. exists r. by rewrite Ea.
  - apply (bool_decide_unpack _). vm_compute. exact I.
Qed.
