(* ===== verification/Driver.v ===== *)
(** * The router driver: one delivery over real components

    [crates/execution/workflow/src/router_driver.rs]: the loop of
    [execute_resolved] over a resolved wiring, the authorization of each node
    call and the lowering of what a component returned; with
    [bounded_node_deadline_ms] of [crates/platform/engine/src/router_delivery.rs].

    The operation host (the component runtime, the release check, the grant
    reader, the clock and the JSON parser) is the class [OperationHost]: a state
    and what each call answers.  Tracing is left out.  An [anyhow] error is what
    its readers can downcast it to; adding context keeps that. *)

From stdpp Require Import base tactics option list gmap strings.
From Stdlib Require Import ZArith Lia.
From S2P Require Import Prelude Json Router Walk WalkFacts Route RunStatus RunStore ClaimStore.
From S2P Require Import Authority.
#[local] Set Warnings "-clear-no-such-hyp".
Open Scope Z_scope.

(** ** Deadlines *)

Definition max_host_call_ms : Z := 30000.

Definition bounded_node_deadline_ms (deadline_ms : option Z) : Z :=
  Z.max 1 (Z.min (default max_host_call_ms deadline_ms) max_host_call_ms).

Record DeadlineAdjustment := {
  da_node : string;
  da_requested_ms : Z;
  da_effective_ms : Z;
}.

Definition adjustment (call : NodeCall) : list DeadlineAdjustment :=
  match call_deadline_ms call with
  | None => []
  | Some requested =>
      let effective := bounded_node_deadline_ms (Some requested) in
      if requested =? effective then []
      else [{| da_node := call_node call; da_requested_ms := requested;
               da_effective_ms := effective |}]
  end.

(** [serde_json::to_value] of the report. *)
Definition adjustment_value (a : DeadlineAdjustment) : Value :=
  VObject (map_from_iter
    [("node", VString (da_node a)); ("requested-ms", number_of_int (da_requested_ms a));
     ("effective-ms", number_of_int (da_effective_ms a))]).
Definition adjustments_value (l : list DeadlineAdjustment) : Value := VArray (adjustment_value <$> l).

(** ** What a component returns *)

Record WireDetail := { wd_message : string; wd_code : option string }.
Record Emission := { em_payload : string; em_port : option string }.
Inductive WireError :=
| WRetryable (d : WireDetail)
| WRateLimited (d : WireDetail) (retry_after : option Z)
| WTerminal (d : WireDetail)
| WInvalidInput (d : WireDetail)
| WCancelled.

Inductive WorkflowResolutionErrorType :=
  ResolutionNotFound | HashMismatch | NodeNotInRelease | Incompatible | Definition_.

(** An [anyhow::Error], by what it downcasts to. *)
Inductive AnyError :=
| EOperation (r : OperationRefusal)
| EResolution (t : WorkflowResolutionErrorType)
| EOther (text : string).

Definition lower_detail (d : WireDetail) : ErrorDetail :=
  {| message := wd_message d; code := wd_code d; data := None |}.

Definition lower_node_outcome `{JsonText} (o : result Emission WireError) :
    result NodeOutcome AnyError :=
  match o with
  | Ok e =>
      match parse_json (em_payload e) with
      | None => Err (EOther "wamn:node emitted invalid JSON")
      | Some payload => Ok (Success payload (default MAIN_PORT (em_port e)))
      end
  | Err (WRetryable d) => Ok (NodeFailed (Retryable (lower_detail d)))
  | Err (WRateLimited d after) =>
      Ok (NodeFailed (RateLimited {| detail := lower_detail d; retry_after_ms := after;
                                     target_host := None |}))
  | Err (WTerminal d) => Ok (NodeFailed (NodeTerminal (lower_detail d)))
  | Err (WInvalidInput d) => Ok (NodeFailed (InvalidInput (lower_detail d)))
  | Err WCancelled => Ok NodeCancelled
  end.

(** ** The request and the catalog facts of its wiring *)

Record RouterDriverRequest := {
  rq_env_key : string;
  rq_package_id : string;
  rq_environment : string;
  rq_wiring_id : string;
  rq_wiring_version : Z;
  rq_delivery_id : string;
  rq_payload : Value;
  rq_caller_attached : bool;
  rq_caller : option AuthenticatedCaller;
}.

Record WorkflowIdentity := { wi_principal_id : string; wi_role : string }.

(** The fields of an admitted component that the driver and the lowering read;
    a parameter is its name and whether it is required. *)
Record AdmittedOperation := {
  op_registered : option string;
  op_input_ports : list string;
  op_output_ports : list string;
  op_parameters : list (string * bool);
}.
Record AdmittedComponent := {
  ac_component : string;
  ac_interface_version : string;
  ac_digest : string;
  ac_operations : gmap string AdmittedOperation;
}.

Record ActiveWiring := {
  aw_version : Z;
  aw_graph_hash : string;
  aw_wiring : Wiring;
  aw_node_components : gmap string AdmittedComponent;
}.

(** What a node is invoked with. *)
Record OperationCall := {
  oc_component : AdmittedComponent;
  oc_operation : string;
  oc_wiring_id : string;
  oc_wiring_version : Z;
  oc_node_id : string;
  oc_delivery_id : string;
  oc_input_port : option string;
  oc_occurrence : Z;
  oc_config : Value;
  oc_input : Value;
  oc_deadline_ms : Z;
  oc_caller : option AuthenticatedCaller;
}.

Class OperationHost (S : Type) := {
  host_clock : S → S * Z;
  host_sleep : S → Z → S;
  workflow_node_caller : S → string → string → string →
    S * result (option AuthenticatedCaller) AnyError;
  validate_release_component : AdmittedComponent → result unit AnyError;
  call_intents : AdmittedComponent → string → result unit AnyError;
  invoke_operation : S → OperationCall → S * result (result Emission WireError) AnyError;
}.

(** Why the driver gives up: an error of the host, or a broken fact. *)
Inductive DriverError :=
| DHost (e : AnyError)
| DComponentFactMissing
| DOperationFactMissing
| DImpossibleTransition.

Record RouterDelivery := {
  rd_wiring_version : Z;
  rd_graph_hash : string;
  rd_outcome : Outcome;
  rd_adjustments : list DeadlineAdjustment;
}.

Section Driver.
Context `{Powi, JsonText} {S : Type} `{OperationHost S}.

(** [RouterDriver::invoke_node]. *)
Definition invoke_node (rq : RouterDriverRequest) (aw : ActiveWiring) (call : NodeCall)
    (component : AdmittedComponent) (caller : option AuthenticatedCaller) (s : S) :
    S * result NodeOutcome AnyError :=
  match validate_release_component component with
  | Err e => (s, Err e)
  | Ok _ =>
      match call_intents component (call_operation call) with
      | Err e => (s, Err e)
      | Ok _ =>
          let '(s, r) := invoke_operation s {|
            oc_component := component; oc_operation := call_operation call;
            oc_wiring_id := rq_wiring_id rq; oc_wiring_version := aw_version aw;
            oc_node_id := call_node call; oc_delivery_id := rq_delivery_id rq;
            oc_input_port := call_input_port call; oc_occurrence := call_occurrence call;
            oc_config := call_config call; oc_input := call_payload call;
            oc_deadline_ms := bounded_node_deadline_ms (call_deadline_ms call);
            oc_caller := caller |} in
          (s, result_bind r lower_node_outcome)
      end
  end.

(** The caller of one node: of a workflow run, its principal with the grants its
    role holds now; none is a refusal of the operation. *)
Definition node_caller (rq : RouterDriverRequest) (workflow : option WorkflowIdentity)
    (op : AdmittedOperation) (call : NodeCall) (s : S) :
    S * result (option AuthenticatedCaller) AnyError :=
  match workflow with
  | None => (s, Ok (rq_caller rq))
  | Some identity =>
      let '(s, r) :=
        workflow_node_caller s (rq_env_key rq) (wi_principal_id identity) (wi_role identity) in
      (s, match r with
          | Err e => Err e
          | Ok None => Err (EOperation {| refused_operation :=
                              default (call_operation call) (op_registered op) |})
          | Ok (Some c) => Ok (Some c)
          end)
  end.

(** One [Step::Invoke]: the facts, the caller, its authority, the deadline, the
    component. *)
Definition invoke_call (rq : RouterDriverRequest) (aw : ActiveWiring)
    (workflow : option WorkflowIdentity) (call : NodeCall) (adj : list DeadlineAdjustment) (s : S) :
    S * list DeadlineAdjustment * result NodeOutcome DriverError :=
  match aw_node_components aw !! call_node call with
  | None => (s, adj, Err DComponentFactMissing)
  | Some component =>
      match ac_operations component !! call_operation call with
      | None => (s, adj, Err DOperationFactMissing)
      | Some op =>
          let '(s, caller) := node_caller rq workflow op call s in
          match caller with
          | Err e => (s, adj, Err (DHost e))
          | Ok caller =>
              match authorize_registered_operation caller (op_registered op) with
              | Err refusal => (s, adj, Err (DHost (EOperation refusal)))
              | Ok _ =>
                  let adj := adj ++ adjustment call in
                  let '(s, r) := invoke_node rq aw call component caller s in
                  (s, adj, match r with Ok o => Ok o | Err e => Err (DHost e) end)
              end
          end
      end
  end.

(** The loop of [execute_resolved]; [None] is "out of fuel". *)
Fixpoint drive_loop (fuel : nat) (rq : RouterDriverRequest) (aw : ActiveWiring)
    (workflow : option WorkflowIdentity) (k : Walk) (adj : list DeadlineAdjustment) (s : S) :
    option (run (S * list DeadlineAdjustment * result Outcome DriverError)) :=
  match fuel with
  | O => None
  | Datatypes.S fuel' =>
      let w := aw_wiring aw in
      let '(s, now) := host_clock s in
      match next w k now with
      | Panic m => Some (Panic m)
      | Ret (k, Done st) => Some (Ret (s, adj, Ok (outcome_of k st)))
      | Ret (k, Wait _ until_ms _ _) =>
          let '(s, now) := host_clock s in
          drive_loop fuel' rq aw workflow k adj (host_sleep s (Z.max 0 (until_ms - now)))
      | Ret (k, Invoke call) =>
          let '(s, adj, r) := invoke_call rq aw workflow call adj s in
          match r with
          | Err e =>
              match verdict k with
              | Some v =>
                  Some (Ret (s, adj, Ok {| o_status := Failed; o_result := walk_result k;
                    o_failure := None; o_hops := hops k; o_verdict := Some v |}))
              | None => Some (Ret (s, adj, Err e))
              end
          | Ok outcome =>
              let '(s, now) := host_clock s in
              match apply w k call outcome now with
              | Ok k => drive_loop fuel' rq aw workflow k adj s
              | Err refused =>
                  match fail_on_node_data w k (call_node call) refused with
                  | Ok k => drive_loop fuel' rq aw workflow k adj s
                  | Err _ => Some (Ret (s, adj, Err DImpossibleTransition))
                  end
              end
          end
      end
  end.

(** [execute_resolved]: the adjustments travel with the delivery, or as the
    context of the error. *)
Definition execute_resolved (fuel : nat) (rq : RouterDriverRequest) (aw : ActiveWiring)
    (workflow : option WorkflowIdentity) (s : S) :
    option (run (S * result RouterDelivery (DriverError * list DeadlineAdjustment))) :=
  let d := {| delivery_id := rq_delivery_id rq; delivery_payload := rq_payload rq;
              delivery_caller_attached := rq_caller_attached rq |} in
  match drive_loop fuel rq aw workflow (start (aw_wiring aw) d) [] s with
  | None => None
  | Some (Panic m) => Some (Panic m)
  | Some (Ret (s, adj, r)) =>
      Some (Ret (s, match r with
        | Ok o => Ok {| rd_wiring_version := aw_version aw; rd_graph_hash := aw_graph_hash aw;
                        rd_outcome := o; rd_adjustments := adj |}
        | Err e => Err (e, adj)
        end))
  end.

End Driver.

(** ** What the driver relies on *)

(** A sleep lasts as long as it was asked to. *)
Class SleepLaw (S : Type) `{OperationHost S} :=
  slept : ∀ (s : S) ms, 0 ≤ ms →
    snd (host_clock s) + ms ≤ snd (host_clock (host_sleep (fst (host_clock s)) ms)).

(** The resolution recorded a component with the node's operation for each node. *)
Definition facts_cover (aw : ActiveWiring) : Prop :=
  ∀ n nd, node (aw_wiring aw) n = Some nd →
    ∃ c, aw_node_components aw !! n = Some c ∧ is_Some (ac_operations c !! operation nd).

(** A reported adjustment: the request was out of range and was clamped. *)
Record adjusted (a : DeadlineAdjustment) : Prop := {
  ad_bounds : 1 ≤ da_effective_ms a ≤ max_host_call_ms;
  ad_moved : da_requested_ms a ≠ da_effective_ms a;
  ad_clamped : da_requested_ms a < 1 ∧ da_effective_ms a = 1 ∨
               max_host_call_ms < da_requested_ms a ∧ da_effective_ms a = max_host_call_ms;
}.

Lemma bounded_deadline_range d : 1 ≤ bounded_node_deadline_ms d ≤ max_host_call_ms.
Proof. unfold bounded_node_deadline_ms, max_host_call_ms. lia. Qed.

Lemma adjustment_adjusted call : Forall adjusted (adjustment call).
Proof.
  unfold adjustment. destruct (call_deadline_ms call) as [r|]; [|done].
  destruct (Z.eqb_spec r (bounded_node_deadline_ms (Some r))) as [|Hne]; [done|].
  constructor; [|done]. constructor; simpl; [apply bounded_deadline_range|done|].
  unfold bounded_node_deadline_ms, max_host_call_ms in *. simpl in *. lia.
Qed.

Section DriverFacts.
Context `{Powi, JsonText} {S : Type} `{!OperationHost S, !SleepLaw S}.
Context (rq : RouterDriverRequest) (aw : ActiveWiring) (workflow : option WorkflowIdentity).
Context (Hw : wiring_ok (aw_wiring aw)).

Lemma invoke_call_adjusted call adj (s s' : S) adj' r :
  invoke_call rq aw workflow call adj s = (s', adj', r) → Forall adjusted adj → Forall adjusted adj'.
Proof.
  unfold invoke_call. intros E Ha. pose proof (adjustment_adjusted call) as Hcall.
  repeat case_hyp E; simplify_eq; try done; by apply Forall_app.
Qed.

Lemma invoke_call_error call adj (s s' : S) adj' e :
  (∃ c, aw_node_components aw !! call_node call = Some c ∧
        is_Some (ac_operations c !! call_operation call)) →
  invoke_call rq aw workflow call adj s = (s', adj', Err e) → ∃ he, e = DHost he.
Proof.
  intros (c & Hc & o & Ho) E. unfold invoke_call in E. rewrite Hc, Ho in E.
  repeat case_hyp E; simplify_eq; eauto.
Qed.

Lemma driver_error_settles k v :
  walk_ok (aw_wiring aw) k → verdict k = Some v →
  settles (caller_attached k) {| o_status := Failed; o_result := walk_result k;
    o_failure := None; o_hops := hops k; o_verdict := Some v |}.
Proof.
  intros Hk Hv. pose proof (wk_verdict _ _ Hk v Hv) as Hvo.
  constructor; simpl; try done; [eauto|..]; intros *; intros [= ->]; by apply Hvo.
Qed.

(** What a drive that started from walk [k] may return. *)
Definition drive_ok (k : Walk) (r : result Outcome DriverError) : Prop :=
  match r with
  | Ok o => settles (caller_attached k) o ∧ 0 ≤ o_hops o ≤ hop_limit (aw_wiring aw)
  | Err e => ∃ he, e = DHost he
  end.

Definition drives_home (fuel : nat) (k : Walk) (s : S) : Prop :=
  ∀ adj, Forall adjusted adj → ∃ s' adj' r,
    drive_loop fuel rq aw workflow k adj s = Some (Ret (s', adj', r)) ∧
    Forall adjusted adj' ∧ drive_ok k r.

Lemma drives_home_from fuel k k' s :
  caller_attached k' = caller_attached k → drives_home fuel k' s →
  ∀ adj, Forall adjusted adj → ∃ s' adj' r,
    drive_loop fuel rq aw workflow k' adj s = Some (Ret (s', adj', r)) ∧
    Forall adjusted adj' ∧ drive_ok k r.
Proof.
  intros Hc Hd adj Ha. destruct (Hd adj Ha) as (s' & adj' & r & E & Ha' & Hr).
  exists s', adj', r. unfold drive_ok in *. rewrite <- Hc. eauto.
Qed.

Lemma drive_turn (Hfacts : facts_cover aw) fuel k (s : S) :
  walk_ok (aw_wiring aw) k →
  (∀ k' n until att th a s', next (aw_wiring aw) k (snd (host_clock s)) = Ret (k', Wait n until att th) →
     walk_ok (aw_wiring aw) k' → hops k' = hops k → status k' = Running → current k' = Some a →
     active_retry_until_ms a = until → caller_attached k' = caller_attached k →
     until ≤ snd (host_clock s') → drives_home fuel k' s') →
  (∀ k' s', walk_ok (aw_wiring aw) k' → hops k' = hops k + 1 →
     caller_attached k' = caller_attached k → drives_home fuel k' s') →
  drives_home (Datatypes.S fuel) k s.
Proof.
  intros Hk Hwait Hinv adj Hadj. simpl.
  destruct (host_clock s) as [s1 now] eqn:Enow.
  destruct (next_ok _ Hw k now Hk) as (k' & st & Hn & Hk' & Hpost). rewrite Hn.
  pose proof (next_same_caller _ _ _ _ _ Hn) as Hc.
  pose proof (next_hops _ Hw _ _ _ _ Hk Hn) as Hh.
  destruct st as [call|n until att th|st].
  - destruct Hpost as (Hs & Hm & a & Ha & Hb & _).
    destruct (invoke_call rq aw workflow call adj s1) as [[s2 adj2] r] eqn:Ei.
    pose proof (invoke_call_adjusted _ _ _ _ _ _ Ei Hadj) as Hadj2.
    destruct r as [outcome|e].
    + destruct (host_clock s2) as [s3 now'].
      destruct (apply_total _ Hw k' a call outcome now' Hk' Hs Ha Hb) as (k2 & Hk2 & Hh2 & Happ).
      assert (Hc2 : caller_attached k2 = caller_attached k).
      { destruct Happ as [Happ|(e & _ & Hfail)]; rewrite <- Hc;
          [by eapply apply_same_caller|by eapply fail_same_caller]. }
      destruct Happ as [Happ|(e & Happ & Hfail)]; rewrite Happ; rewrite ?Hfail;
        apply drives_home_from; try done; apply Hinv; congruence.
    + destruct (verdict k') as [v|] eqn:Ev; do 3 eexists; (split; [done|]; split; [done|]).
      * split; [rewrite <- Hc; by apply driver_error_settles|]. simpl. apply (wk_hops _ _ Hk').
      * eapply invoke_call_error; [|exact Ei].
        unfold build_call in Hb. destruct (node (aw_wiring aw) (active_node a)) as [nd|] eqn:Hnd; [|done].
        injection Hb as <-. simpl. by apply Hfacts.
  - destruct Hpost as (Hs & Hlt & a & Ha & Hu & _).
    destruct (host_clock s1) as [s2 now2] eqn:Enow2. apply drives_home_from; [done| |done].
    eapply Hwait; eauto.
    pose proof (slept s1 (Z.max 0 (until - now2)) ltac:(lia)) as Hsl. rewrite Enow2 in Hsl.
    simpl in Hsl. lia.
  - destruct Hpost as (Hs & Ht). subst. do 3 eexists. split; [done|]. split; [done|].
    pose proof (outcome_of_ok _ _ Hk' Ht) as Ho. rewrite Hc in Ho.
    split; [by eapply outcome_settles|apply (oc_hops _ _ _ Ho)].
Qed.

End DriverFacts.

(** How a delivery ends: with an outcome the boundary settles, or with an error of
    the host; the reported deadline changes are clamps. *)
Definition settled (rq : RouterDriverRequest) (aw : ActiveWiring)
    (r : result RouterDelivery (DriverError * list DeadlineAdjustment)) : Prop :=
  match r with
  | Ok d => Forall adjusted (rd_adjustments d) ∧
      0 ≤ o_hops (rd_outcome d) ≤ hop_limit (aw_wiring aw) ∧
      ∃ a, production_router_action (rd_outcome d) (rq_caller_attached rq) = Ret (Ok a) ∧
           action_spec (rd_outcome d) (rq_caller_attached rq) a
  | Err (e, adj) => Forall adjusted adj ∧ ∃ he, e = DHost he
  end.

Lemma execute_resolved_settles `{Powi, JsonText} {S : Type} `{!OperationHost S, !SleepLaw S}
    rq aw workflow (s : S) fuel :
  wiring_ok (aw_wiring aw) → facts_cover aw →
  (2 * Z.to_nat (hop_limit (aw_wiring aw)) + 2 ≤ fuel)%nat →
  ∃ s' r, execute_resolved fuel rq aw workflow s = Some (Ret (s', r)) ∧ settled rq aw r.
Proof.
  intros Hw Hfacts Hf.
  unfold execute_resolved. set (d := {| delivery_id := _ |}).
  destruct (walk_loop_ind (aw_wiring aw) (λ s, snd (host_clock s)) (drives_home rq aw workflow)
              (drive_turn rq aw workflow Hw Hfacts) d s fuel Hw Hf [] (Forall_nil_2 _))
    as (s' & adj & r & E & Hadj & Hr).
  rewrite E. do 2 eexists. split; [done|]. destruct r as [o|e]; [|done].
  destruct Hr as [Hs Hh]. split; [done|]. split; [done|]. by apply router_action_settles.
Qed.

(** A delivery names the wiring it walked. *)
Lemma execute_resolved_names `{Powi, JsonText} {S : Type} `{!OperationHost S}
    fuel rq aw workflow (s s' : S) d :
  execute_resolved fuel rq aw workflow s = Some (Ret (s', Ok d)) →
  rd_wiring_version d = aw_version aw ∧ rd_graph_hash d = aw_graph_hash aw.
Proof. unfold execute_resolved. repeat case_goal; intros; by simplify_eq. Qed.

(** C2. The driver always ends a delivery of a resolved workflow: with
    [2 * hop_limit + 2] turns it returns, whatever the components, the grant
    reader and the clock answer, never panicking and never reporting an
    impossible transition or a missing fact.  An error is the host's; a delivery
    carries an outcome the boundary can settle: [production_router_action]
    answers an action, the one the verdict (else the failure) prescribes.  Every
    reported deadline change is a real clamp to the host's range. *)
Theorem driver_settles `{Powi, JsonText} {S : Type} `{!OperationHost S, !SleepLaw S}
    (rq : RouterDriverRequest) (aw : ActiveWiring) (workflow : option WorkflowIdentity)
    (en : string) (nodes : list WiringNode) (edges : list WiringEdge) (s : S) (fuel : nat) :
  compile en nodes edges = Ok (aw_wiring aw) → facts_cover aw →
  (2 * Z.to_nat (hop_limit (aw_wiring aw)) + 2 ≤ fuel)%nat →
  ∃ s' r, execute_resolved fuel rq aw workflow s = Some (Ret (s', r)) ∧
    match r with
    | Ok d => Forall adjusted (rd_adjustments d) ∧
        0 ≤ o_hops (rd_outcome d) ≤ hop_limit (aw_wiring aw) ∧
        ∃ a, production_router_action (rd_outcome d) (rq_caller_attached rq) = Ret (Ok a) ∧
             action_spec (rd_outcome d) (rq_caller_attached rq) a
    | Err (e, adj) => Forall adjusted adj ∧ ∃ he, e = DHost he
    end.
Proof.
  intros Hc Hfacts Hf. apply execute_resolved_settles; [|done|done]. by eapply compile_default_ok.
Qed.

(** ** Only authorized operations run *)

(** What every component invocation satisfies: the component is the one the
    resolution recorded for the node and the release holds it, it admits the
    operation, its deadline is in the host's range, and a registered operation
    runs only for a caller whose grants permit it. *)
Record allowed {S} `{OperationHost S} (aw : ActiveWiring) (oc : OperationCall) : Prop := {
  al_component : aw_node_components aw !! oc_node_id oc = Some (oc_component oc);
  al_release : is_ok (validate_release_component (oc_component oc)) = true;
  al_deadline : 1 ≤ oc_deadline_ms oc ≤ max_host_call_ms;
  al_authority : ∃ op, ac_operations (oc_component oc) !! oc_operation oc = Some op ∧
    ∀ reg, op_registered op = Some reg →
      ∃ c, oc_caller oc = Some c ∧ permits c reg = true;
}.

Section Authorized.
Context `{Powi, JsonText} {S : Type} `{!OperationHost S}.
Context (rq : RouterDriverRequest) (aw : ActiveWiring) (workflow : option WorkflowIdentity).
Context (I : S → Prop).
Hypothesis I_clock : ∀ s, I s → I (fst (host_clock s)).
Hypothesis I_sleep : ∀ s ms, I s → I (host_sleep s ms).
Hypothesis I_caller : ∀ s e p r, I s → I (fst (workflow_node_caller s e p r)).
Hypothesis I_invoke : ∀ s oc, allowed aw oc → I s → I (fst (invoke_operation s oc)).

Lemma authorize_ok caller reg :
  authorize_registered_operation caller reg = Ok tt →
  ∀ op, reg = Some op → ∃ c, caller = Some c ∧ permits c op = true.
Proof.
  intros E op ->. unfold authorize_registered_operation in E.
  destruct caller as [c|]; [|done]. destruct (permits c op) eqn:Hp; [eauto|done].
Qed.

Lemma invoke_node_inv call component op caller s :
  aw_node_components aw !! call_node call = Some component →
  ac_operations component !! call_operation call = Some op →
  authorize_registered_operation caller (op_registered op) = Ok tt →
  I s → I (fst (invoke_node rq aw call component caller s)).
Proof.
  intros Hc Ho Hauth Hs. unfold invoke_node.
  destruct (validate_release_component component) as [u|] eqn:Hv; [|done].
  destruct (call_intents component _); [|done].
  match goal with |- context [invoke_operation s ?oc] => assert (Hal : allowed aw oc) end.
  { constructor; simpl; [done|by rewrite Hv|apply bounded_deadline_range|].
    exists op. split; [done|]. by apply authorize_ok. }
  pose proof (I_invoke s _ Hal Hs) as Hi.
  destruct (invoke_operation s _) as [s' r]. done.
Qed.

Lemma invoke_call_inv call adj s : I s → I (fst (fst (invoke_call rq aw workflow call adj s))).
Proof.
  intros Hs. unfold invoke_call.
  destruct (aw_node_components aw !! _) as [component|] eqn:Hc; [|done].
  destruct (ac_operations component !! _) as [op|] eqn:Ho; [|done].
  assert (Hs' : I (fst (node_caller rq workflow op call s))).
  { unfold node_caller. destruct workflow as [i|]; [|done].
    pose proof (I_caller s (rq_env_key rq) (wi_principal_id i) (wi_role i) Hs) as Hi.
    destruct (workflow_node_caller _ _ _ _). done. }
  destruct (node_caller rq workflow op call s) as [s1 [caller|e]]; [|done].
  destruct (authorize_registered_operation caller (op_registered op)) as [[]|] eqn:Ha; [|done].
  pose proof (invoke_node_inv _ _ _ _ _ Hc Ho Ha Hs') as Hi. simpl in Hi.
  destruct (invoke_node rq aw call component caller s1). done.
Qed.

Lemma drive_loop_inv fuel k adj s s' adj' r :
  I s → drive_loop fuel rq aw workflow k adj s = Some (Ret (s', adj', r)) → I s'.
Proof.
  revert k adj s. induction fuel as [|fuel IH]; [done|]. intros k adj s Hs. simpl.
  pose proof (I_clock s Hs) as Hs1. destruct (host_clock s) as [s1 now]. simpl in Hs1.
  destruct (next (aw_wiring aw) k now) as [[k1 [call|n until att th|st]]|]; [| | |done].
  - pose proof (invoke_call_inv call adj s1 Hs1) as Hs2.
    destruct (invoke_call rq aw workflow call adj s1) as [[s2 adj2] [o|e]]; simpl in Hs2.
    + pose proof (I_clock s2 Hs2) as Hs3. destruct (host_clock s2) as [s3 now3]. simpl in Hs3.
      repeat case_goal; try (by apply IH). intros; by simplify_eq.
    + case_goal; intros; by simplify_eq.
  - pose proof (I_clock s1 Hs1) as Hs2. destruct (host_clock s1) as [s2 now2].
    apply IH. by apply I_sleep.
  - intros; by simplify_eq.
Qed.

End Authorized.

(** Whatever the wiring and the components do, the driver runs only allowed
    invocations: any property of the host's state that the clock, a sleep and a
    grant read keep, and that an invocation keeps when it is allowed (a recorded
    component of the release, its admitted operation, a bounded deadline and, for
    a registered operation, a caller whose grants permit it), still holds when
    the delivery ends. *)
Theorem driver_runs_allowed_only `{Powi, JsonText} {S : Type} `{!OperationHost S}
    (rq : RouterDriverRequest) (aw : ActiveWiring) (workflow : option WorkflowIdentity)
    (I : S → Prop) (fuel : nat) (s s' : S)
    (r : result RouterDelivery (DriverError * list DeadlineAdjustment)) :
  (∀ s, I s → I (fst (host_clock s))) → (∀ s ms, I s → I (host_sleep s ms)) →
  (∀ s e p r, I s → I (fst (workflow_node_caller s e p r))) →
  (∀ s oc, allowed aw oc → I s → I (fst (invoke_operation s oc))) →
  I s → execute_resolved fuel rq aw workflow s = Some (Ret (s', r)) → I s'.
Proof.
  intros H1 H2 H3 H4 Hs E. unfold execute_resolved in E.
  destruct (drive_loop fuel rq aw workflow _ [] s) as [[[[s2 adj] r2]|]|] eqn:Ed; [|done|done].
  injection E as <- _. eapply drive_loop_inv; eauto.
Qed.

(** ** A concrete host: a clock, a script of results and a log of invocations *)

Module DriverSample.

Record TestHost := { t_clock : Z; t_script : list (result Emission WireError); t_log : list OperationCall }.

#[global] Instance powi_steps : Powi := λ f e, Nat.iter (Z.to_nat e) (f64_mul f) (f64_of_Z 1).
#[global] Instance quoted_only : JsonText := λ s, Some (VString s).

Definition orders_caller : AuthenticatedCaller := {|
  attachment_id := "a"; principal_id := "p"; credential_type := QueuedService; admin := false;
  permissions := {[ "acme:ops/run"%string ]}; active_role := Some "clerk" |}.

#[global] Instance test_host : OperationHost TestHost := {
  host_clock h := (h, t_clock h);
  host_sleep h ms := {| t_clock := t_clock h + ms; t_script := t_script h; t_log := t_log h |};
  workflow_node_caller h _ _ role :=
    (h, Ok (if String.eqb role "clerk" then Some orders_caller else None));
  validate_release_component _ := Ok tt;
  call_intents _ _ := Ok tt;
  invoke_operation h oc :=
    match t_script h with
    | [] => (h, Ok (Err WCancelled))
    | r :: rest => ({| t_clock := t_clock h + 5; t_script := rest; t_log := oc :: t_log h |}, Ok r)
    end;
}.
#[global] Instance test_sleeps : SleepLaw TestHost.
Proof. intros h ms Hms. simpl. lia. Qed.

Definition wired (n : string) (cfg : Value) (t : option Terminal) : WiringNode :=
  {| id := n; component := "sha256:c"; operation := "acme:ops/run@1.0.0"; config := cfg;
     connection := None; terminal := t |}.
Definition nodes : list WiringNode :=
  [wired "load" (VObject [("deadline-ms", VNumber (PosInt 90000))]) None; wired "store" VNull None].
Definition edges : list WiringEdge :=
  [{| from := "load"; from_port := "main"; to := "store"; to_port := "in"; ordinal := None |}].
Definition fact : AdmittedComponent := {|
  ac_component := "ops"; ac_interface_version := "1.0"; ac_digest := "sha256:c";
  ac_operations := {[ "acme:ops/run@1.0.0" := {|
    op_registered := Some "acme:ops/run@1.0.0"; op_input_ports := ["in"];
    op_output_ports := ["main"]; op_parameters := [("deadline-ms", false)] |} ]} |}.
Definition active : ActiveWiring := {|
  aw_version := 3; aw_graph_hash := "h";
  aw_wiring := set_hop_limit (Route.Sample.compiled (compile "load" nodes edges)) 10000;
  aw_node_components := {[ "load" := fact; "store" := fact ]} |}.
Definition request : RouterDriverRequest := {|
  rq_env_key := "tenant"; rq_package_id := "app"; rq_environment := "prod";
  rq_wiring_id := "orders"; rq_wiring_version := 3; rq_delivery_id := "run-1";
  rq_payload := VNull; rq_caller_attached := false; rq_caller := None |}.
Definition clerk : WorkflowIdentity := {| wi_principal_id := "p"; wi_role := "clerk" |}.
Definition fresh_host : TestHost := {|
  t_clock := 0; t_log := [];
  t_script := [Err (WRetryable {| wd_message := "busy"; wd_code := None |});
               Ok {| em_payload := "loaded"; em_port := None |};
               Ok {| em_payload := "stored"; em_port := None |}] |}.

Lemma covered : facts_cover active.
Proof.
  intros n nd. unfold node. change (by_id (aw_wiring active)) with
    (by_id (Route.Sample.compiled (compile "load" nodes edges))).
  intros Hn. pose proof (compile_inv "load" nodes edges) as Hinv.
  change (compile "load" nodes edges) with (Ok (Route.Sample.compiled (compile "load" nodes edges))
    : result Wiring WiringError) in Hinv at 1.
  destruct Hinv as (_ & _ & _ & Hiff & _). apply Hiff in Hn as [Hin <-].
  repeat (apply elem_of_cons in Hin as [->|Hin]); [..|by apply elem_of_nil in Hin];
    exists fact; (split; [reflexivity|by eexists]).
Qed.

(** A clerk's run: one retry, two nodes, and the 90 s deadline clamped. *)
Example clerk_run :
  option_map (λ r, match r with
    | Ret (h, Ok d) => Some (o_verdict (rd_outcome d), o_hops (rd_outcome d),
                             da_effective_ms <$> rd_adjustments d, length (t_log h))
    | _ => None end) (execute_resolved 8 request active (Some clerk) fresh_host)
  = Some (Some (Some Discard, 3, [30000; 30000], 3%nat)).
Proof. vm_compute. reflexivity. Qed.

(** A principal whose role is gone is refused before anything runs. *)
Example stranger_run :
  option_map (λ r, match r with
    | Ret (h, Err (e, _)) => Some (e, length (t_log h)) | _ => None end)
    (execute_resolved 8 request active (Some {| wi_principal_id := "p"; wi_role := "guest" |}) fresh_host)
  = Some (Some (DHost (EOperation {| refused_operation := "acme:ops/run@1.0.0" |}), 0%nat)).
Proof. vm_compute. reflexivity. Qed.

End DriverSample.

Lemma driver_settles_witness :
  ∃ s' r, execute_resolved (Z.to_nat 20002) DriverSample.request DriverSample.active
      (Some DriverSample.clerk) DriverSample.fresh_host = Some (Ret (s', r)) ∧
    match r with
    | Ok d => Forall adjusted (rd_adjustments d) ∧
        0 ≤ o_hops (rd_outcome d) ≤ hop_limit (aw_wiring DriverSample.active) ∧
        ∃ a, production_router_action (rd_outcome d) false = Ret (Ok a) ∧
             action_spec (rd_outcome d) false a
    | Err (e, adj) => Forall adjusted adj ∧ ∃ he, e = DHost he
    end.
Proof.
  apply (driver_settles DriverSample.request DriverSample.active (Some DriverSample.clerk)
           "load" DriverSample.nodes DriverSample.edges);
    [vm_compute; reflexivity|apply DriverSample.covered|].
  change (hop_limit (aw_wiring DriverSample.active)) with 10000. lia.
Defined.

(** Every logged invocation was the registered operation of a permitted caller. *)
Definition logged_with_grant (h : DriverSample.TestHost) : Prop :=
  Forall (allowed DriverSample.active) (DriverSample.t_log h).

Lemma driver_runs_allowed_only_witness :
  ∃ h r, execute_resolved 8 DriverSample.request DriverSample.active (Some DriverSample.clerk)
      DriverSample.fresh_host = Some (Ret (h, r)) ∧
    length (DriverSample.t_log h) = 3%nat ∧ logged_with_grant h.
Proof.
  assert (∃ h r, execute_resolved 8 DriverSample.request DriverSample.active (Some DriverSample.clerk)
      DriverSample.fresh_host = Some (Ret (h, r)) ∧ length (DriverSample.t_log h) = 3%nat)
    as (h & r & E & Hl) by (do 2 eexists; split; [vm_compute; reflexivity|reflexivity]).
  exists h, r. split; [exact E|]. split; [exact Hl|].
  apply (driver_runs_allowed_only DriverSample.request DriverSample.active (Some DriverSample.clerk)
           logged_with_grant 8 DriverSample.fresh_host h r); [..|exact E].
  - auto.
  - auto.
  - auto.
  - intros s oc Hal Hs. unfold logged_with_grant in *. simpl.
    destruct (DriverSample.t_script s); simpl; [exact Hs|by constructor].
  - constructor.
Defined.
