(* ===== verification/Lowering.v ===== *)
(** * Lowering a catalog wiring to the graph the router walks

    [crates/execution/workflow/src/wiring_lowering.rs] over the graph part of the
    documents of [crates/catalog/model/src/wiring.rs], and the part of
    [RouterDriver::execute_workflow] that lowers a resolved workflow and drives it.
    A [BTreeMap] that is looked up is a [gmap], a [BTreeSet] a [gset]; one that is
    iterated is the list of its entries in key order.  The facts of one component
    are searched but their order is never observed.  An error is its type; its
    text is left out. *)

From stdpp Require Import base tactics option list gmap strings sorting.
From Stdlib Require Import ZArith Lia.
From S2P Require Import Prelude Json Router Walk WalkFacts Route RunStore Authority Driver.
#[local] Set Warnings "-clear-no-such-hyp".

(** ** Catalog documents *)

Inductive CatalogTerminal :=
| CRespond
| CEmit (entity : string) (operation : Op).

Record CatalogNode := {
  cn_component : string;
  cn_interface_version : string;
  cn_operation : string;
  cn_params : list (string * Value);
  cn_terminal : option CatalogTerminal;
}.

Record CatalogEdge := {
  ce_from : string;
  ce_from_port : string;
  ce_to : string;
  ce_to_port : option string;
}.

Record WiringDocument := {
  wd_wiring_id : string;
  wd_version : Z;
  wd_entry : string;
  wd_nodes : list (string * CatalogNode);
  wd_edges : list CatalogEdge;
}.

(** ** Operation facts *)

Record WiringScope := { ws_env_key : string; ws_package_id : string; ws_environment : string }.
#[export] Instance WiringScope_eq_dec : EqDecision WiringScope.
Proof. solve_decision. Defined.

Record WiringOperationFact := {
  wo_component : string;
  wo_interface_version : string;
  wo_operation : string;
  wo_digest : string;
  wo_input_ports : gset string;
  wo_output_ports : gset string;
  wo_parameters : gmap string bool;  (* whether required *)
}.
#[export] Instance WiringOperationFact_eq_dec : EqDecision WiringOperationFact.
Proof. solve_decision. Defined.

Record ScopedFacts := {
  sf_scope : WiringScope;
  sf_package_version : string;
  sf_operations : list WiringOperationFact;
}.

Inductive WiringLoweringErrorType :=
| ScopeMismatch | PackageVersionMismatch | MissingComponent | IncompatibleInterfaceVersion
| MissingOperation | DuplicateOperationFact | UndeclaredParameter | MissingRequiredParameter
| UnknownOutputPort | UnknownInputPort | MissingInputPort | AmbiguousInputPort | RouterRejected.

Definition project_operation (c : AdmittedComponent) (name : string) (op : AdmittedOperation) :
    WiringOperationFact := {|
  wo_component := ac_component c; wo_interface_version := ac_interface_version c;
  wo_operation := name; wo_digest := ac_digest c;
  wo_input_ports := list_to_set (op_input_ports op);
  wo_output_ports := list_to_set (op_output_ports op);
  (* collecting keeps the last entry of a name *)
  wo_parameters := foldl (λ m kv, <[kv.1 := kv.2]> m) ∅ (op_parameters op) |}.

Definition project_component_operations (c : AdmittedComponent) : list WiringOperationFact :=
  (λ no : string * AdmittedOperation, project_operation c no.1 no.2) <$> map_to_list (ac_operations c).

(** ** One node *)

Definition validate_scope (scope : WiringScope) (version : string) (facts : ScopedFacts) :
    result unit WiringLoweringErrorType :=
  if negb (bool_decide (scope = sf_scope facts)) then Err ScopeMismatch
  else if negb (String.eqb version (sf_package_version facts)) then Err PackageVersionMismatch
  else Ok tt.

Definition resolve_operation (nd : CatalogNode) (facts : list WiringOperationFact) :
    result WiringOperationFact WiringLoweringErrorType :=
  match filter (λ f, wo_component f = cn_component nd) facts with
  | [] => Err MissingComponent
  | component_matches =>
      match filter (λ f, wo_interface_version f = cn_interface_version nd) component_matches with
      | [] => Err IncompatibleInterfaceVersion
      | interface_matches =>
          match filter (λ f, wo_operation f = cn_operation nd) interface_matches with
          | [] => Err MissingOperation
          | [f] => Ok f
          | _ => Err DuplicateOperationFact
          end
      end
  end.

Definition validate_parameters (nd : CatalogNode) (f : WiringOperationFact) :
    result unit WiringLoweringErrorType :=
  let supplied := (cn_params nd).*1 in
  if existsb (λ k, negb (bool_decide (is_Some (wo_parameters f !! k)))) supplied
  then Err UndeclaredParameter
  else if existsb (λ kr : string * bool, kr.2 && negb (bool_decide (kr.1 ∈ supplied)))
            (map_to_list (wo_parameters f))
  then Err MissingRequiredParameter
  else Ok tt.

Definition resolve_target_port (authored : option string) (f : WiringOperationFact) :
    result string WiringLoweringErrorType :=
  match authored with
  | Some port => if bool_decide (port ∈ wo_input_ports f) then Ok port else Err UnknownInputPort
  | None =>
      match elements (wo_input_ports f) with
      | [port] => Ok port
      | [] => Err MissingInputPort
      | _ => Err AmbiguousInputPort
      end
  end.

Definition lower_terminal (t : CatalogTerminal) : Terminal :=
  match t with CRespond => TRespond | CEmit entity op => TEmit entity op end.

Definition router_node (node_id : string) (nd : CatalogNode) (f : WiringOperationFact) :
    WiringNode := {|
  id := node_id; component := wo_digest f; operation := wo_operation f;
  config := VObject (map_from_iter (cn_params nd)); connection := None;
  terminal := lower_terminal <$> cn_terminal nd |}.

(** ** The graph *)

Open Scope wamn_scope.

Fixpoint lower_nodes (facts : list WiringOperationFact) (nodes : list (string * CatalogNode)) :
    result (list (WiringNode * WiringOperationFact)) WiringLoweringErrorType :=
  match nodes with
  | [] => Ok []
  | (node_id, nd) :: rest =>
      let? f := resolve_operation nd facts in
      let? _ := validate_parameters nd f in
      let? lowered := lower_nodes facts rest in
      Ok ((router_node node_id nd f, f) :: lowered)
  end.

Fixpoint lower_edges (resolved : gmap string WiringOperationFact) (edges : list CatalogEdge) :
    run (result (list WiringEdge) WiringLoweringErrorType) :=
  match edges with
  | [] => Ret (Ok [])
  | e :: rest =>
      let! source := expect (resolved !! ce_from e) "a validated wiring edge source resolves" in
      if negb (String.eqb (ce_from_port e) ERROR_PORT) &&
         negb (bool_decide (ce_from_port e ∈ wo_output_ports source))
      then Ret (Err UnknownOutputPort)
      else
        let! target := expect (resolved !! ce_to e) "a validated wiring edge target resolves" in
        match resolve_target_port (ce_to_port e) target with
        | Err t => Ret (Err t)
        | Ok to_port =>
            let! lowered := lower_edges resolved rest in
            Ret (let? lowered := lowered in
                 Ok ({| from := ce_from e; from_port := ce_from_port e; to := ce_to e;
                        to_port := to_port; ordinal := None |} :: lowered))
        end
  end.

Definition lower_active_wiring (scope : WiringScope) (version : string) (d : WiringDocument)
    (facts : ScopedFacts) : run (result Wiring WiringLoweringErrorType) :=
  match validate_scope scope version facts with
  | Err t => Ret (Err t)
  | Ok _ =>
      match lower_nodes (sf_operations facts) (wd_nodes d) with
      | Err t => Ret (Err t)
      | Ok lowered =>
          let resolved := list_to_map ((λ nf : WiringNode * WiringOperationFact, (id nf.1, nf.2)) <$> lowered) in
          let! edges := lower_edges resolved (wd_edges d) in
          Ret (let? edges := edges in
               match compile (wd_entry d) lowered.*1 edges with
               | Ok w => Ok w
               | Err _ => Err RouterRejected
               end)
      end
  end.

(** ** The resolved wiring *)

Record ResolvedActiveWiring := {
  ra_version : Z;
  ra_manifest_digest : string;
  ra_graph_hash : string;
  ra_package_version : string;
  ra_document : WiringDocument;
  ra_node_components : list (string * AdmittedComponent);
}.

Definition set_component (c : string) (nd : CatalogNode) : CatalogNode := {|
  cn_component := c; cn_interface_version := cn_interface_version nd;
  cn_operation := cn_operation nd; cn_params := cn_params nd; cn_terminal := cn_terminal nd |}.

Definition with_component (c : string) (f : WiringOperationFact) : WiringOperationFact := {|
  wo_component := c; wo_interface_version := wo_interface_version f;
  wo_operation := wo_operation f; wo_digest := wo_digest f; wo_input_ports := wo_input_ports f;
  wo_output_ports := wo_output_ports f; wo_parameters := wo_parameters f |}.

Definition push_new (l : list WiringOperationFact) (f : WiringOperationFact) : list WiringOperationFact :=
  if bool_decide (f ∈ l) then l else l ++ [f].

(** The loop of [lower_resolved_wiring]. *)
Fixpoint runtime_keys (comps : list (string * AdmittedComponent))
    (nodes : list (string * CatalogNode)) (operations : list WiringOperationFact) :
    run (list (string * CatalogNode) * list WiringOperationFact) :=
  match comps with
  | [] => Ret (nodes, operations)
  | (node_id, c) :: rest =>
      if bool_decide (node_id ∈ nodes.*1) then
        runtime_keys rest
          ((λ kn : string * CatalogNode,
              if String.eqb kn.1 node_id then (kn.1, set_component (ac_digest c) kn.2) else kn) <$> nodes)
          (foldl push_new operations
             (with_component (ac_digest c) <$> project_component_operations c))
      else Panic "the resolution checked that each resolved node belongs to the document"
  end.

Definition with_nodes (d : WiringDocument) (nodes : list (string * CatalogNode)) : WiringDocument := {|
  wd_wiring_id := wd_wiring_id d; wd_version := wd_version d; wd_entry := wd_entry d;
  wd_nodes := nodes; wd_edges := wd_edges d |}.

Definition lower_resolved_wiring (scope : WiringScope) (r : ResolvedActiveWiring) :
    run (result Wiring WiringLoweringErrorType) :=
  let d := ra_document r in
  let! ' (nodes, operations) := runtime_keys (ra_node_components r) (wd_nodes d) [] in
  lower_active_wiring scope (ra_package_version r) (with_nodes d nodes)
    {| sf_scope := scope; sf_package_version := ra_package_version r; sf_operations := operations |}.

(** ** What a lowering establishes *)

(** What [WiringDocument::validate] checks of the graph, and that the keys of a
    map are distinct. *)
Record document_ok (d : WiringDocument) : Prop := {
  do_nodes : NoDup (wd_nodes d).*1;
  do_entry : wd_entry d ∈ (wd_nodes d).*1;
  do_edges : Forall (λ e, ce_from e ∈ (wd_nodes d).*1 ∧ ce_to e ∈ (wd_nodes d).*1) (wd_edges d);
}.

Definition fact_matches (nd : CatalogNode) (f : WiringOperationFact) : Prop :=
  wo_component f = cn_component nd ∧ wo_interface_version f = cn_interface_version nd ∧
  wo_operation f = cn_operation nd.
#[export] Instance fact_matches_dec nd f : Decision (fact_matches nd f).
Proof. unfold fact_matches. apply _. Defined.

(** The one fact of a node, with its parameters supplied as declared. *)
Record resolves (facts : list WiringOperationFact) (nd : CatalogNode) (f : WiringOperationFact) :
    Prop := {
  re_unique : filter (fact_matches nd) facts = [f];
  re_declared : ∀ k, k ∈ (cn_params nd).*1 → is_Some (wo_parameters f !! k);
  re_required : ∀ k, wo_parameters f !! k = Some true → k ∈ (cn_params nd).*1;
}.

(** The three passes select the facts that match. *)
Lemma filter_by_stages nd (facts : list WiringOperationFact) :
  filter (fact_matches nd) facts =
  filter (λ f, wo_operation f = cn_operation nd)
    (filter (λ f, wo_interface_version f = cn_interface_version nd)
      (filter (λ f, wo_component f = cn_component nd) facts)).
Proof. rewrite !list_filter_filter. apply list_filter_iff. unfold fact_matches. naive_solver. Qed.

Lemma resolve_operation_spec nd facts f :
  resolve_operation nd facts = Ok f ↔ filter (fact_matches nd) facts = [f].
Proof.
  rewrite filter_by_stages. unfold resolve_operation.
  destruct (filter _ facts) as [|a l] eqn:E1; [by split|].
  destruct (filter _ (a :: l)) as [|b l'] eqn:E2; [by split|].
  destruct (filter _ (b :: l')) as [|c [|? ?]] eqn:E3; split; intros; by simplify_eq.
Qed.

Lemma validate_parameters_spec nd f :
  validate_parameters nd f = Ok tt ↔
  (∀ k, k ∈ (cn_params nd).*1 → is_Some (wo_parameters f !! k)) ∧
  (∀ k, wo_parameters f !! k = Some true → k ∈ (cn_params nd).*1).
Proof.
  unfold validate_parameters.
  destruct (existsb _ (cn_params nd).*1) eqn:E1.
  { split; [done|]. intros [Hd _]. apply existsb_exists in E1 as (k & Hk & Hn).
    apply list_elem_of_In in Hk. apply negb_true_iff, bool_decide_eq_false in Hn. by destruct Hn; apply Hd. }
  destruct (existsb _ (map_to_list _)) eqn:E2.
  { split; [done|]. intros [_ Hr]. apply existsb_exists in E2 as ([k b] & Hk & [Hb Hn]%andb_prop).
    apply list_elem_of_In, elem_of_map_to_list in Hk. simpl in *. subst b.
    apply negb_true_iff, bool_decide_eq_false in Hn. by destruct Hn; apply Hr. }
  split; [intros _|done]. split.
  - intros k Hk. pose proof (existsb_false_inv _ _ k E1 Hk) as Hf.
    by apply negb_false_iff, bool_decide_eq_true in Hf.
  - intros k Hk. apply elem_of_map_to_list in Hk.
    pose proof (existsb_false_inv _ _ _ E2 Hk) as Hf. simpl in Hf.
    by apply negb_false_iff, bool_decide_eq_true in Hf.
Qed.

(** The port an edge enters its target by: the authored one, or the only one. *)
Definition enters (authored : option string) (f : WiringOperationFact) (port : string) : Prop :=
  port ∈ wo_input_ports f ∧ (authored = Some port ∨ authored = None ∧ wo_input_ports f = {[ port ]}).

Lemma resolve_target_port_spec authored f port :
  resolve_target_port authored f = Ok port ↔ enters authored f port.
Proof.
  unfold resolve_target_port, enters. destruct authored as [a|].
  - case_bool_decide; naive_solver.
  - assert (Hs : elements (wo_input_ports f) = [port] ↔ wo_input_ports f = {[ port ]}).
    { split; [|intros ->; by rewrite elements_singleton]. intros E. apply set_eq. intros x.
      rewrite <- elem_of_elements, E. set_solver. }
    destruct (elements (wo_input_ports f)) as [|a [|b l]] eqn:E; split; try done.
    + intros [_ [|[_ H2]]]; [done|]. apply Hs in H2. by simplify_eq.
    + intros [= ->]. rewrite (proj1 Hs eq_refl). set_solver.
    + intros [_ [|[_ H2]]]; [done|]. apply Hs in H2. by simplify_eq.
    + intros [_ [|[_ H2]]]; [done|]. apply Hs in H2. by simplify_eq.
Qed.

Definition node_lowers (facts : list WiringOperationFact) (kn : string * CatalogNode)
    (nf : WiringNode * WiringOperationFact) : Prop :=
  resolves facts kn.2 nf.2 ∧ nf.1 = router_node kn.1 kn.2 nf.2.

Lemma lower_nodes_spec facts nodes l :
  lower_nodes facts nodes = Ok l ↔ Forall2 (node_lowers facts) nodes l.
Proof.
  revert l. induction nodes as [|[k nd] nodes IH]; intros l; simpl.
  { split; [intros [= <-]; constructor|]. by inversion 1. }
  unfold result_bind. split.
  - intros E. destruct (resolve_operation nd facts) as [f|] eqn:Er; [|done].
    destruct (validate_parameters nd f) as [[]|] eqn:Ev; [|done].
    destruct (lower_nodes facts nodes) as [rest|]; [|done]. injection E as <-.
    apply resolve_operation_spec in Er. apply validate_parameters_spec in Ev as [? ?].
    constructor; [|by apply IH]. split; [by constructor|done].
  - inversion 1 as [|? [n f] ? rest [[Hu Hd Hr] Hn] Hrest]; subst. simpl in *. subst n.
    rewrite (proj2 (resolve_operation_spec nd facts f) Hu).
    rewrite (proj2 (validate_parameters_spec nd f) (conj Hd Hr)).
    by rewrite (proj2 (IH rest) Hrest).
Qed.

(** An edge of the document and the edge the router follows. *)
Record edge_lowers (fact_at : string → WiringOperationFact → Prop) (e : CatalogEdge)
    (re : WiringEdge) : Prop := {
  el_source : ∃ f, fact_at (ce_from e) f ∧
    (ce_from_port e = ERROR_PORT ∨ ce_from_port e ∈ wo_output_ports f);
  el_target : ∃ f, fact_at (ce_to e) f ∧ enters (ce_to_port e) f (to_port re);
  el_edge : from re = ce_from e ∧ from_port re = ce_from_port e ∧ to re = ce_to e ∧
    ordinal re = None;
}.

Definition found (resolved : gmap string WiringOperationFact) (n : string)
    (f : WiringOperationFact) : Prop := resolved !! n = Some f.

(** Over resolved endpoints the edge loop does not panic, and it accepts exactly
    the edges that lower. *)
Lemma lower_edges_spec resolved edges :
  Forall (λ e, is_Some (resolved !! ce_from e) ∧ is_Some (resolved !! ce_to e)) edges →
  ∃ res, lower_edges resolved edges = Ret res ∧
    (∀ l, res = Ok l ↔ Forall2 (edge_lowers (found resolved)) edges l) ∧ res ≠ Err RouterRejected.
Proof.
  induction 1 as [|e edges [[src Hsrc] [tgt Htgt]] _ (res & Eres & Hok & Hrej)]; simpl.
  { eexists. split; [done|]. split; [|done]. intros l. split; [intros [= <-]; constructor|by inversion 1]. }
  rewrite Hsrc. simpl.
  assert (Hport : ∀ l, Forall2 (edge_lowers (found resolved)) (e :: edges) l →
    ce_from_port e = ERROR_PORT ∨ ce_from_port e ∈ wo_output_ports src).
  { inversion 1 as [|? ? ? ? [(f & Hf & Hp) _ _]]; subst. unfold found in Hf. rewrite Hsrc in Hf. by injection Hf as <-. }
  destruct (negb (String.eqb (ce_from_port e) ERROR_PORT) && _) eqn:Eout.
  { eexists. split; [done|]. split; [|done]. intros l. split; [done|]. intros Hl.
    apply Hport in Hl. apply andb_prop in Eout as [E1%negb_true_iff E2%negb_true_iff].
    apply String.eqb_neq in E1. apply bool_decide_eq_false in E2. tauto. }
  rewrite Htgt. simpl. destruct (resolve_target_port (ce_to_port e) tgt) as [port|t] eqn:Ep.
  2:{ eexists. split; [done|]. split.
      - intros l. split; [done|]. inversion 1 as [|? re ? ? [_ (f & Hf & He) _]]; subst.
        unfold found in Hf. rewrite Htgt in Hf. injection Hf as <-. apply resolve_target_port_spec in He. congruence.
      - intros [= ->]. unfold resolve_target_port in Ep. repeat case_hyp Ep; done. }
  rewrite Eres. simpl. eexists. split; [done|]. split.
  2:{ by destruct res as [|t]; simpl; [|intros [= ->]]. }
  apply resolve_target_port_spec in Ep. intros l. split.
  - destruct res as [l0|]; [|done]. intros [= <-]. constructor; [|by apply Hok].
    apply andb_false_iff in Eout. rewrite !negb_false_iff, String.eqb_eq, bool_decide_eq_true in Eout.
    constructor; simpl; unfold found; eauto.
  - inversion 1 as [|? [rf rp rt rtp ro] ? l0 [_ (f & Hf & He) (? & ? & ? & ?)] Hl0]; subst. simpl in *. subst.
    rewrite (proj2 (Hok l0) Hl0). simpl. unfold found in Hf. rewrite Htgt in Hf. injection Hf as <-.
    apply resolve_target_port_spec in Ep, He. rewrite Ep in He. by injection He as ->.
Qed.

(** Absent ordinals keep the document's order. *)
Lemma stable_sort_unordered l :
  Forall (λ e, ordinal e = None) l → stable_sort edge_leb l = l.
Proof.
  induction 1 as [|e l He Hl IH]; [done|]. simpl. rewrite IH. destruct l as [|e' l]; [done|].
  inversion Hl as [|? ? He' _]; subst. simpl. unfold edge_leb. by rewrite He, He'.
Qed.

Lemma Forall2_filter_pair {A B} (R : A → B → Prop) (P : A → Prop) (Q : B → Prop)
    `{∀ a, Decision (P a)} `{∀ b, Decision (Q b)} l k :
  (∀ a b, R a b → P a ↔ Q b) → Forall2 R l k → Forall2 R (filter P l) (filter Q k).
Proof.
  intros HPQ. induction 1 as [|a b l k Hab _ IH]; [constructor|].
  rewrite !filter_cons. pose proof (HPQ a b Hab). repeat case_decide; try tauto. by constructor.
Qed.

Lemma lowered_ids facts nodes l :
  Forall2 (node_lowers facts) nodes l → node_ids l.*1 = nodes.*1.
Proof.
  unfold node_ids. induction 1 as [|[k nd] [n f] nodes l [_ Hn] _ IH]; [done|].
  simpl in Hn. rewrite !fmap_cons, IH. simpl. by rewrite Hn.
Qed.

(** The facts by node id. *)
Definition resolved_of (l : list (WiringNode * WiringOperationFact)) : gmap string WiringOperationFact :=
  list_to_map ((λ nf : WiringNode * WiringOperationFact, (id nf.1, nf.2)) <$> l).

Lemma resolved_is_Some facts nodes l n :
  Forall2 (node_lowers facts) nodes l → is_Some (resolved_of l !! n) ↔ n ∈ nodes.*1.
Proof.
  intros Hl. rewrite <- (lowered_ids _ _ _ Hl). unfold resolved_of, node_ids.
  rewrite <- elem_of_dom, dom_list_to_map, <- list_fmap_compose, elem_of_list_to_set.
  by rewrite <- list_fmap_compose.
Qed.

Lemma resolved_lookup facts nodes l n f :
  NoDup nodes.*1 → Forall2 (node_lowers facts) nodes l → resolved_of l !! n = Some f →
  ∃ nd, (n, nd) ∈ nodes ∧ resolves facts nd f ∧ (router_node n nd f) ∈ l.*1.
Proof.
  intros _ Hl Hn. apply elem_of_list_to_map_2, list_elem_of_fmap in Hn as ([rn f'] & [= -> ->] & Hin).
  apply list_elem_of_lookup in Hin as [i Hi].
  destruct (Forall2_lookup_r _ _ _ _ _ Hl Hi) as ([k nd] & Hk & [Hr Hnode]). simpl in *.
  subst rn. exists nd. split; [by eapply list_elem_of_lookup_2|]. split; [done|].
  apply list_elem_of_fmap. exists (router_node k nd f', f'). split; [done|].
  by eapply list_elem_of_lookup_2.
Qed.

Lemma Forall2_choice {A B} (R : A → B → Prop) l :
  (∀ a, a ∈ l → ∃ b, R a b) → ∃ k, Forall2 R l k.
Proof.
  induction l as [|a l IH]; intros Hr; [by exists []|].
  destruct (Hr a) as [b Hb]; [left|]. destruct IH as [k Hk]; [intros; apply Hr; by right|].
  exists (b :: k). by constructor.
Qed.

(** The fact of a node of the document. *)
Definition fact_of (facts : list WiringOperationFact) (d : WiringDocument) (n : string)
    (f : WiringOperationFact) : Prop :=
  ∃ nd, (n, nd) ∈ wd_nodes d ∧ resolves facts nd f.

Lemma resolves_unique facts nd f g : resolves facts nd f → resolves facts nd g → f = g.
Proof. intros [Hf _ _] [Hg _ _]. rewrite Hf in Hg. by injection Hg. Qed.

Lemma NoDup_keys {A} (l : list (string * A)) k a b :
  NoDup l.*1 → (k, a) ∈ l → (k, b) ∈ l → a = b.
Proof.
  intros Hnd Ha Hb.
  pose proof (elem_of_list_to_map_1 (M := gmap string) l k a Hnd Ha) as E1.
  pose proof (elem_of_list_to_map_1 (M := gmap string) l k b Hnd Hb) as E2. congruence.
Qed.

Lemma found_fact_of facts d l n f :
  document_ok d → Forall2 (node_lowers facts) (wd_nodes d) l →
  found (resolved_of l) n f ↔ fact_of facts d n f.
Proof.
  intros [Hnd _ _] Hl. split.
  - intros Hf. destruct (resolved_lookup _ _ _ _ _ Hnd Hl Hf) as (nd & Hin & Hr & _).
    by exists nd.
  - intros (nd & Hin & Hr).
    assert (is_Some (resolved_of l !! n)) as [g Hg].
    { apply (resolved_is_Some facts _ _ _ Hl). apply list_elem_of_fmap. by exists (n, nd). }
    destruct (resolved_lookup _ _ _ _ _ Hnd Hl Hg) as (nd' & Hin' & Hr' & _).
    assert (nd' = nd) as -> by (by eapply NoDup_keys).
    unfold found. rewrite Hg. f_equal. by eapply resolves_unique.
Qed.

(** The graph a document lowers to: its entry; one router node per document node,
    with the digest and operation of the node's fact; and per output port the
    document's edges in the document's order, each entering by its port. *)
Record lowers (facts : list WiringOperationFact) (d : WiringDocument) (w : Wiring) : Prop := {
  lw_entry : Router.entry w = wd_entry d;
  lw_resolved : ∀ n nd, (n, nd) ∈ wd_nodes d → ∃ f, resolves facts nd f;
  lw_nodes : ∀ n rn, node w n = Some rn ↔
    ∃ nd f, (n, nd) ∈ wd_nodes d ∧ resolves facts nd f ∧ rn = router_node n nd f;
  lw_edges : ∀ n p, Forall2 (edge_lowers (fact_of facts d))
    (filter (λ e, ce_from e = n ∧ ce_from_port e = p) (wd_edges d)) (successors w n p);
}.

Lemma edge_lowers_impl (P Q : string → WiringOperationFact → Prop) e re :
  (∀ n f, P n f → Q n f) → edge_lowers P e re → edge_lowers Q e re.
Proof. intros HPQ [(f & Hf & ?) (g & Hg & ?) ?]. constructor; eauto. Qed.

Lemma lower_nodes_accepts facts nodes :
  is_ok (lower_nodes facts nodes) = true ↔
  ∀ n nd, (n, nd) ∈ nodes → ∃ f, resolves facts nd f.
Proof.
  split.
  - destruct (lower_nodes facts nodes) as [l|] eqn:E; [|done]. intros _ n nd Hin.
    apply lower_nodes_spec in E. apply list_elem_of_lookup in Hin as [i Hi].
    destruct (Forall2_lookup_l _ _ _ _ _ E Hi) as (nf & _ & [Hr _]). by exists nf.2.
  - intros Hr. destruct (Forall2_choice (node_lowers facts) nodes) as [l Hl].
    { intros [n nd] Hin. destruct (Hr _ _ Hin) as [f Hf]. by exists (router_node n nd f, f). }
    apply lower_nodes_spec in Hl. by rewrite Hl.
Qed.

(** The compiler accepts the lowered graph, and what it builds. *)
Lemma lowered_compiles facts d l es :
  document_ok d → Forall2 (node_lowers facts) (wd_nodes d) l →
  Forall2 (edge_lowers (found (resolved_of l))) (wd_edges d) es →
  ∃ w, compile (wd_entry d) l.*1 es = Ok w ∧ lowers facts d w.
Proof.
  intros Hok Hl Hes. pose proof Hok as [Hnd Hen Hed].
  pose proof (lowered_ids _ _ _ Hl) as Hids.
  assert (Hord : Forall (λ e, ordinal e = None) es).
  { clear -Hes. induction Hes as [|? ? ? ? [_ _ (_ & _ & _ & ?)]]; by constructor. }
  assert (Hends : Forall (edge_resolved (node_ids l.*1)) es).
  { rewrite Hids. clear -Hes Hed. induction Hes as [|e re ? ? [_ _ (Hf & _ & Ht & _)] _ IH]; [done|].
    inversion Hed as [|? ? [? ?] ?]; subst. constructor; [|by apply IH].
    unfold edge_resolved. by rewrite Hf, Ht. }
  pose proof (compile_inv (wd_entry d) l.*1 es) as Hinv.
  destruct (compile (wd_entry d) l.*1 es) as [w|e]; [|by destruct Hinv; rewrite Hids in *].
  destruct Hinv as (_ & Hentry & _ & Hnode & _ & Hsucc). exists w. split; [done|].
  constructor; [done|by apply lower_nodes_accepts; rewrite (proj2 (lower_nodes_spec _ _ _) Hl)| |].
  - intros n rn. rewrite Hnode. split.
    + intros [Hin <-]. apply list_elem_of_fmap in Hin as ([rn' f] & -> & Hin).
      apply list_elem_of_lookup in Hin as [i Hi].
      destruct (Forall2_lookup_r _ _ _ _ _ Hl Hi) as ([k nd] & Hk & [Hr Hn]). simpl in *. subst rn'.
      exists nd, f. split; [by eapply list_elem_of_lookup_2|done].
    + intros (nd & f & Hin & Hr & ->). split; [|done].
      destruct (resolved_lookup facts (wd_nodes d) l n f Hnd Hl) as (nd' & Hin' & _ & Hm).
      { apply (found_fact_of facts d l n f Hok Hl). by exists nd. }
      by rewrite (NoDup_keys _ _ _ _ Hnd Hin Hin').
  - intros n p. rewrite Hsucc. rewrite stable_sort_unordered by by apply Forall_filter.
    apply Forall2_filter_pair; [intros a b [_ _ (-> & -> & _)]; done|].
    eapply Forall2_impl; [exact Hes|]. intros e re. apply edge_lowers_impl.
    intros n' f. apply (proj1 (found_fact_of facts d l n' f Hok Hl)).
Qed.

Lemma lower_nodes_rejected facts nodes : lower_nodes facts nodes ≠ Err RouterRejected.
Proof.
  induction nodes as [|[k nd] nodes IH]; simpl; [done|]. unfold result_bind.
  destruct (resolve_operation nd facts) as [f|t] eqn:Er.
  2:{ intros [= ->]. unfold resolve_operation in Er. repeat case_hyp Er; done. }
  destruct (validate_parameters nd f) as [[]|t] eqn:Ev.
  2:{ intros [= ->]. unfold validate_parameters in Ev. repeat case_hyp Ev; done. }
  by destruct (lower_nodes facts nodes) as [|t]; [|intros [= ->]].
Qed.

(** The edge loop over the lowered nodes of a validated document. *)
Lemma lower_edges_accepts facts d l :
  document_ok d → Forall2 (node_lowers facts) (wd_nodes d) l →
  ∃ res, lower_edges (resolved_of l) (wd_edges d) = Ret res ∧ res ≠ Err RouterRejected ∧
    (∀ es, res = Ok es → Forall2 (edge_lowers (found (resolved_of l))) (wd_edges d) es) ∧
    (is_ok res = true ↔ ∀ e, e ∈ wd_edges d → ∃ re, edge_lowers (fact_of facts d) e re).
Proof.
  intros Hok Hl. destruct (lower_edges_spec (resolved_of l) (wd_edges d)) as (res & E & Hres & Hrej).
  { eapply Forall_impl; [apply (do_edges _ Hok)|]. intros e [Hf Ht].
    by split; eapply resolved_is_Some. }
  exists res. split; [done|]. split; [done|]. split; [intros es; apply Hres|]. split.
  - destruct res as [es|]; [|done]. intros _ e Hin. apply list_elem_of_lookup in Hin as [i Hi].
    destruct (Forall2_lookup_l _ _ _ _ _ (proj1 (Hres es) eq_refl) Hi) as (re & _ & He).
    exists re. revert He. apply edge_lowers_impl. intros n f. by apply found_fact_of.
  - intros He. destruct (Forall2_choice (edge_lowers (found (resolved_of l))) (wd_edges d)) as [es Hes].
    { intros e Hin. destruct (He _ Hin) as [re Hre]. exists re. revert Hre. apply edge_lowers_impl.
      intros n f. by apply found_fact_of. }
    by rewrite (proj2 (Hres es) Hes).
Qed.

(** The lowering is exact.  For a validated document it never reaches one of
    its panics, and the router never rejects the graph it builds.  It succeeds
    exactly when the facts are of the wiring's scope and package version, every
    node has one fact with its parameters supplied as declared, and every edge
    leaves by a declared (or the error) port and enters by a declared one; the
    wiring it then returns is the document's graph, its ports and order kept. *)
Theorem lowering_exact (scope : WiringScope) (version : string) (d : WiringDocument)
    (facts : ScopedFacts) :
  document_ok d →
  ∃ res, lower_active_wiring scope version d facts = Ret res ∧ res ≠ Err RouterRejected ∧
    (∀ w, res = Ok w → lowers (sf_operations facts) d w) ∧
    (is_ok res = true ↔
       scope = sf_scope facts ∧ version = sf_package_version facts ∧
       (∀ n nd, (n, nd) ∈ wd_nodes d → ∃ f, resolves (sf_operations facts) nd f) ∧
       (∀ e, e ∈ wd_edges d → ∃ re, edge_lowers (fact_of (sf_operations facts) d) e re)).
Proof.
  intros Hok. unfold lower_active_wiring, validate_scope.
  case_bool_decide as Hs; simpl; [|by eexists; repeat split; try done; tauto].
  destruct (String.eqb_spec version (sf_package_version facts)); simpl;
    [|by eexists; repeat split; try done; tauto].
  pose proof (lower_nodes_accepts (sf_operations facts) (wd_nodes d)) as Hnodes.
  destruct (lower_nodes (sf_operations facts) (wd_nodes d)) as [l|t] eqn:El.
  2:{ eexists. split; [done|]. split; [intros [= ->]; by eapply lower_nodes_rejected|].
      split; [done|]. split; [done|]. intros (_ & _ & Hn & _). by apply Hnodes in Hn. }
  apply lower_nodes_spec in El.
  destruct (lower_edges_accepts _ _ _ Hok El) as (res & E & Hrej & Hes & Hedges).
  change (list_to_map _) with (resolved_of l). rewrite E. simpl. eexists. split; [done|].
  destruct res as [es|t]; simpl.
  - destruct (lowered_compiles _ _ _ _ Hok El (Hes es eq_refl)) as (w & -> & Hw).
    split; [done|]. split; [by intros ? [= <-]|]. split; [|done]. intros _.
    split; [done|]. split; [done|]. split; [by apply Hnodes|by apply Hedges].
  - split; [congruence|]. split; [done|]. split; [done|]. intros (_ & _ & _ & He). by apply Hedges in He.
Qed.

(** ** Lowering a resolution *)

(** What the resolution checked of the rows it recorded: one per node of the
    document, of the node's interface version and with its operation. *)
Record resolution_ok (r : ResolvedActiveWiring) : Prop := {
  ro_rows : NoDup (ra_node_components r).*1;
  ro_nodes : ∀ n, n ∈ (ra_node_components r).*1 ↔ n ∈ (wd_nodes (ra_document r)).*1;
  ro_match : ∀ n c nd, (n, c) ∈ ra_node_components r → (n, nd) ∈ wd_nodes (ra_document r) →
    ac_interface_version c = cn_interface_version nd ∧ is_Some (ac_operations c !! cn_operation nd);
}.

(** A node under the digest of its row. *)
Definition rekeyed (rows : gmap string AdmittedComponent) (kn : string * CatalogNode) :
    string * CatalogNode :=
  match rows !! kn.1 with
  | Some c => (kn.1, set_component (ac_digest c) kn.2)
  | None => kn
  end.

(** The facts of a row, under its digest. *)
Definition row_facts (c : AdmittedComponent) : list WiringOperationFact :=
  with_component (ac_digest c) <$> project_component_operations c.

Lemma rekeyed_key rows kn : (rekeyed rows kn).1 = kn.1.
Proof. unfold rekeyed. by case_match. Qed.

Lemma elem_of_row_facts c f :
  f ∈ row_facts c ↔
  ∃ o op, ac_operations c !! o = Some op ∧ f = with_component (ac_digest c) (project_operation c o op).
Proof.
  unfold row_facts, project_component_operations. rewrite <- list_fmap_compose, list_elem_of_fmap. split.
  - intros ([o op] & -> & Hin). apply elem_of_map_to_list in Hin. by exists o, op.
  - intros (o & op & Ho & ->). exists (o, op). split; [done|]. by apply elem_of_map_to_list.
Qed.

Lemma push_new_spec l fs :
  (∀ f, f ∈ foldl push_new l fs ↔ f ∈ l ∨ f ∈ fs) ∧ (NoDup l → NoDup (foldl push_new l fs)).
Proof.
  revert l. induction fs as [|g fs IH]; intros l; simpl.
  { split; [|done]. intros f. rewrite elem_of_nil. tauto. }
  destruct (IH (push_new l g)) as [He Hn]. unfold push_new in *. split.
  - intros f. rewrite He. case_bool_decide; set_solver.
  - intros Hl. apply Hn. case_bool_decide; [done|]. apply NoDup_app. split; [done|].
    split; [set_solver|apply NoDup_singleton].
Qed.

Lemma runtime_keys_spec comps nodes ops :
  NoDup comps.*1 → Forall (λ n, n ∈ nodes.*1) comps.*1 →
  ∃ ops', runtime_keys comps nodes ops = Ret (rekeyed (list_to_map comps) <$> nodes, ops') ∧
    (∀ f, f ∈ ops' ↔ f ∈ ops ∨ ∃ n c, (n, c) ∈ comps ∧ f ∈ row_facts c) ∧ (NoDup ops → NoDup ops').
Proof.
  revert nodes ops. induction comps as [|[n c] comps IH]; intros nodes ops; simpl.
  { intros _ _. exists ops. split; [|split; [set_solver|done]]. do 2 f_equal.
    induction nodes as [|kn nodes IHn]; [done|]. rewrite fmap_cons, <- IHn. unfold rekeyed. by rewrite lookup_empty. }
  intros [Hn Hnd]%NoDup_cons [Hin Hall]%Forall_cons. rewrite bool_decide_true by done.
  set (nodes' := _ <$> nodes). set (ops1 := foldl _ _ _).
  assert (Hkeys : nodes'.*1 = nodes.*1).
  { subst nodes'. rewrite <- list_fmap_compose. apply list_fmap_ext. intros i kn _. simpl. by case_match. }
  destruct (push_new_spec ops (row_facts c)) as [Hel Hdup].
  destruct (IH nodes' ops1 Hnd) as (ops' & -> & Hops & Hdup'); [by rewrite Hkeys|].
  exists ops'. split; [|split].
  - do 2 f_equal. subst nodes'. rewrite <- list_fmap_compose. apply list_fmap_ext.
    intros i [k nd] _. unfold rekeyed. simpl. destruct (String.eqb_spec k n) as [->|Hne]; simpl.
    + rewrite lookup_insert_eq, (not_elem_of_list_to_map_1 _ _ Hn). done.
    + by rewrite lookup_insert_ne by done.
  - intros f. rewrite Hops. change ops1 with (foldl push_new ops (row_facts c)). rewrite Hel. clear. split.
    + intros [[?|?]|(n' & c' & ? & ?)]; [by left|right; exists n, c; set_solver|right; exists n', c'; set_solver].
    + intros [?|(n' & c' & [[= -> ->]|?]%elem_of_cons & ?)]; [tauto|tauto|right; eauto].
  - intros Hops0. by apply Hdup', Hdup.
Qed.

(** A refusal of the document's own contract: its parameters or its ports. *)
Definition contract_error (t : WiringLoweringErrorType) : Prop :=
  t ∈ [UndeclaredParameter; MissingRequiredParameter; UnknownOutputPort; UnknownInputPort;
       MissingInputPort; AmbiguousInputPort].

Lemma lower_nodes_err facts nodes t :
  lower_nodes facts nodes = Err t →
  (∃ n nd, (n, nd) ∈ nodes ∧ resolve_operation nd facts = Err t) ∨ contract_error t.
Proof.
  induction nodes as [|[k nd] nodes IH]; simpl; [done|]. unfold result_bind.
  destruct (resolve_operation nd facts) as [f|t'] eqn:Er.
  2:{ intros [= ->]. left. exists k, nd. split; [left|done]. }
  destruct (validate_parameters nd f) as [[]|t'] eqn:Ev.
  2:{ intros [= ->]. right. unfold validate_parameters in Ev. unfold contract_error.
      repeat case_hyp Ev; simplify_eq; set_solver. }
  destruct (lower_nodes facts nodes) as [|t']; [done|]. intros [= ->].
  destruct (IH eq_refl) as [(n & nd' & ? & ?)|?]; [|by right]. left. exists n, nd'. split; [by right|done].
Qed.

Lemma lower_edges_err resolved edges t :
  lower_edges resolved edges = Ret (Err t) → contract_error t.
Proof.
  unfold contract_error. induction edges as [|e edges IH]; simpl; [done|].
  destruct (resolved !! ce_from e) as [src|]; [simpl|done].
  case_match; [intros [= <-]; set_solver|]. destruct (resolved !! ce_to e) as [tgt|]; [simpl|done].
  destruct (resolve_target_port (ce_to_port e) tgt) as [p|t'] eqn:Ep.
  - destruct (lower_edges resolved edges) as [[l|t']|]; simpl; [done| |done]. intros [= ->]. by apply IH.
  - intros [= ->]. unfold resolve_target_port in Ep. repeat case_hyp Ep; simplify_eq; set_solver.
Qed.

(** Within its scope a lowering is refused for an unresolved node or for the
    document's own contract, and for nothing else. *)
Lemma lower_active_inv scope version d facts :
  document_ok d → sf_scope facts = scope → sf_package_version facts = version →
  ∃ res, lower_active_wiring scope version d facts = Ret res ∧
    match res with
    | Ok w => lowers (sf_operations facts) d w ∧ ∃ nodes edges, compile (wd_entry d) nodes edges = Ok w
    | Err t => (∃ n nd, (n, nd) ∈ wd_nodes d ∧ resolve_operation nd (sf_operations facts) = Err t) ∨
               contract_error t
    end.
Proof.
  intros Hok <- <-. unfold lower_active_wiring, validate_scope.
  rewrite bool_decide_true, String.eqb_refl by done. simpl.
  destruct (lower_nodes (sf_operations facts) (wd_nodes d)) as [l|t] eqn:El.
  2:{ eexists. split; [done|]. by apply lower_nodes_err. }
  apply lower_nodes_spec in El.
  destruct (lower_edges_accepts _ _ _ Hok El) as (res & E & _ & Hes & _).
  change (list_to_map _) with (resolved_of l). rewrite E. simpl. eexists. split; [done|].
  destruct res as [es|t]; simpl; [|right; by eapply lower_edges_err].
  destruct (lowered_compiles _ _ _ _ Hok El (Hes es eq_refl)) as (w & Ew & Hw). rewrite Ew. eauto.
Qed.

(** A node with a matching fact can only be refused for a second one. *)
Lemma resolve_operation_err nd facts f t :
  NoDup facts → f ∈ facts → fact_matches nd f → resolve_operation nd facts = Err t →
  t = DuplicateOperationFact ∧ ∃ g, g ∈ facts ∧ fact_matches nd g ∧ g ≠ f.
Proof.
  intros Hnd Hin Hm.
  assert (Hf : f ∈ filter (fact_matches nd) facts) by (by apply list_elem_of_filter).
  assert (Hnd' : NoDup (filter (fact_matches nd) facts)) by (by apply NoDup_filter).
  assert (Hsub : ∀ g, g ∈ filter (fact_matches nd) facts → fact_matches nd g ∧ g ∈ facts)
    by (by intros g; rewrite list_elem_of_filter).
  rewrite filter_by_stages in Hf, Hnd', Hsub. unfold resolve_operation.
  destruct (filter _ facts) as [|a l]; [by apply elem_of_nil in Hf|].
  destruct (filter _ (a :: l)) as [|b l']; [by apply elem_of_nil in Hf|].
  destruct (filter _ (b :: l')) as [|x [|y l3]]; [by apply elem_of_nil in Hf|done|].
  intros [= <-]. split; [done|].
  assert (∃ g, g ∈ x :: y :: l3 ∧ g ≠ f) as (g & Hg & Hne).
  { apply NoDup_cons in Hnd' as [Hx _]. destruct (decide (x = f)) as [->|Hne].
    - exists y. split; [by right; left|]. intros ->. apply Hx. left.
    - exists x. split; [left|done]. }
  exists g. destruct (Hsub _ Hg). done.
Qed.

Lemma rekeyed_document_ok rows d :
  document_ok d → document_ok (with_nodes d (rekeyed rows <$> wd_nodes d)).
Proof.
  assert (Hk : (rekeyed rows <$> wd_nodes d).*1 = (wd_nodes d).*1).
  { rewrite <- list_fmap_compose. apply list_fmap_ext. intros i kn _. apply rekeyed_key. }
  intros [? ? ?]. constructor; simpl; by rewrite Hk.
Qed.

(** A rekeyed node is the document's under the digest of its row. *)
Lemma rekeyed_node r n nd' :
  resolution_ok r → (n, nd') ∈ rekeyed (list_to_map (ra_node_components r)) <$> wd_nodes (ra_document r) →
  ∃ nd c, (n, nd) ∈ wd_nodes (ra_document r) ∧ (n, c) ∈ ra_node_components r ∧
    nd' = set_component (ac_digest c) nd.
Proof.
  intros [Hnd Hn _] Hin. apply list_elem_of_fmap in Hin as ([k nd] & E & Hin).
  assert (k ∈ (ra_node_components r).*1) as Hk.
  { apply Hn, list_elem_of_fmap. by exists (k, nd). }
  apply list_elem_of_fmap in Hk as ([? c] & -> & Hc).
  unfold rekeyed in E. simpl in E. rewrite (elem_of_list_to_map_1 _ _ _ Hnd Hc) in E.
  injection E as -> ->. by exists nd, c.
Qed.

Lemma rekeyed_node_in r n nd c :
  resolution_ok r → (n, nd) ∈ wd_nodes (ra_document r) → (n, c) ∈ ra_node_components r →
  (n, set_component (ac_digest c) nd) ∈
    rekeyed (list_to_map (ra_node_components r)) <$> wd_nodes (ra_document r).
Proof.
  intros [Hnd _ _] Hin Hc. apply list_elem_of_fmap. exists (n, nd). split; [|done].
  unfold rekeyed. simpl. by rewrite (elem_of_list_to_map_1 _ _ _ Hnd Hc).
Qed.

(** Its row declares a fact for it. *)
Lemma row_fact_matches r n nd c :
  resolution_ok r → (n, nd) ∈ wd_nodes (ra_document r) → (n, c) ∈ ra_node_components r →
  ∃ f, f ∈ row_facts c ∧ fact_matches (set_component (ac_digest c) nd) f.
Proof.
  intros [_ _ Hm] Hin Hc. destruct (Hm _ _ _ Hc Hin) as [Hv [op Hop]].
  exists (with_component (ac_digest c) (project_operation c (cn_operation nd) op)).
  split; [apply elem_of_row_facts; eauto|]. by repeat split.
Qed.

(** What the driver is handed ([RouterDriver::execute_workflow]). *)
Definition active_of (r : ResolvedActiveWiring) (w : Wiring) : ActiveWiring := {|
  aw_version := ra_version r; aw_graph_hash := ra_graph_hash r; aw_wiring := w;
  aw_node_components := list_to_map (ra_node_components r) |}.

(** Two rows that share a digest and declare one operation differently. *)
Definition rows_disagree (r : ResolvedActiveWiring) : Prop :=
  ∃ n c f n' c' f', (n, c) ∈ ra_node_components r ∧ (n', c') ∈ ra_node_components r ∧
    f ∈ row_facts c ∧ f' ∈ row_facts c' ∧ ac_digest c = ac_digest c' ∧
    wo_interface_version f = wo_interface_version f' ∧ wo_operation f = wo_operation f' ∧ f ≠ f'.

Lemma row_fact_digest c f : f ∈ row_facts c → wo_component f = ac_digest c.
Proof. by intros (o & op & _ & ->)%elem_of_row_facts. Qed.

(** Every node of a resolution resolves, but for rows that disagree. *)
Lemma resolved_nodes_err r ops n nd t :
  resolution_ok r → NoDup ops →
  (∀ f, f ∈ ops ↔ ∃ n c, (n, c) ∈ ra_node_components r ∧ f ∈ row_facts c) →
  (n, nd) ∈ rekeyed (list_to_map (ra_node_components r)) <$> wd_nodes (ra_document r) →
  resolve_operation nd ops = Err t → t = DuplicateOperationFact ∧ rows_disagree r.
Proof.
  intros Hr Hnd Hops Hin He. destruct (rekeyed_node _ _ _ Hr Hin) as (nd0 & c & Hnd0 & Hc & ->).
  destruct (row_fact_matches _ _ _ _ Hr Hnd0 Hc) as (f & Hf & Hm).
  destruct (resolve_operation_err _ _ f _ Hnd ltac:(apply Hops; eauto) Hm He) as (-> & g & Hg & Hmg & Hne).
  split; [done|]. apply Hops in Hg as (n' & c' & Hc' & Hg).
  destruct Hm as (_ & Hv & Ho), Hmg as (Hd' & Hv' & Ho'). simpl in *.
  exists n, c, f, n', c', g. rewrite (row_fact_digest _ _ Hg) in Hd'.
  repeat (split; [done || congruence|]). congruence.
Qed.

(** A resolution lowers, but for rows that disagree and the document's contract. *)
Lemma resolved_lowering_inv scope r :
  document_ok (ra_document r) → resolution_ok r →
  ∃ res, lower_resolved_wiring scope r = Ret res ∧
    match res with
    | Ok w => (∃ nodes edges, compile (wd_entry (ra_document r)) nodes edges = Ok w) ∧
        ∃ ops, (∀ f, f ∈ ops ↔ ∃ n c, (n, c) ∈ ra_node_components r ∧ f ∈ row_facts c) ∧
        lowers ops (with_nodes (ra_document r)
          (rekeyed (list_to_map (ra_node_components r)) <$> wd_nodes (ra_document r))) w
    | Err t => t = DuplicateOperationFact ∧ rows_disagree r ∨ contract_error t
    end.
Proof.
  intros Hd Hr. pose proof Hr as [Hnd Hn _]. unfold lower_resolved_wiring.
  destruct (runtime_keys_spec (ra_node_components r) (wd_nodes (ra_document r)) [] Hnd)
    as (ops & -> & Hops & Hdup); [by apply Forall_forall; intros n; apply Hn|].
  simpl. specialize (Hdup (NoDup_nil_2)).
  assert (Hops' : ∀ f, f ∈ ops ↔ ∃ n c, (n, c) ∈ ra_node_components r ∧ f ∈ row_facts c).
  { intros f. rewrite Hops, elem_of_nil. tauto. }
  edestruct (lower_active_inv scope (ra_package_version r)) as (res & -> & Hres);
    [by apply rekeyed_document_ok| | |]; [done..|]. exists res. split; [done|].
  destruct res as [w|t]; [destruct Hres; eauto|].
  destruct Hres as [(n & nd & Hin & He)|?]; [left|by right]. by eapply resolved_nodes_err.
Qed.

(** The router node of a document node. *)
Lemma lowered_row r ops w n nd c :
  document_ok (ra_document r) → resolution_ok r →
  (∀ f, f ∈ ops ↔ ∃ n c, (n, c) ∈ ra_node_components r ∧ f ∈ row_facts c) →
  lowers ops (with_nodes (ra_document r)
    (rekeyed (list_to_map (ra_node_components r)) <$> wd_nodes (ra_document r))) w →
  (n, nd) ∈ wd_nodes (ra_document r) → (n, c) ∈ ra_node_components r →
  ∃ rn, node w n = Some rn ∧ component rn = ac_digest c ∧ operation rn = cn_operation nd ∧
    config rn = VObject (map_from_iter (cn_params nd)) ∧ terminal rn = lower_terminal <$> cn_terminal nd.
Proof.
  intros Hd Hr Hops [_ Hres Hnode _] Hin Hc. pose proof (rekeyed_node_in _ _ _ _ Hr Hin Hc) as Hin'.
  destruct (Hres _ _ Hin') as [f Hf]. exists (router_node n (set_component (ac_digest c) nd) f).
  split; [apply Hnode; eauto|]. simpl. pose proof (re_unique _ _ _ Hf) as Hu.
  assert (f ∈ filter (fact_matches (set_component (ac_digest c) nd)) ops) as Hfin by (rewrite Hu; left).
  apply list_elem_of_filter in Hfin as [(Hcomp & _ & Ho) Hfin]. simpl in *.
  apply Hops in Hfin as (n' & c' & _ & Hrow). split; [|done].
  rewrite <- Hcomp. by apply elem_of_row_facts in Hrow as (o & op & _ & ->).
Qed.

(** The driver finds the operation of every node it is handed. *)
Lemma lowered_covers r ops w :
  document_ok (ra_document r) → resolution_ok r →
  (∀ f, f ∈ ops ↔ ∃ n c, (n, c) ∈ ra_node_components r ∧ f ∈ row_facts c) →
  lowers ops (with_nodes (ra_document r)
    (rekeyed (list_to_map (ra_node_components r)) <$> wd_nodes (ra_document r))) w →
  facts_cover (active_of r w).
Proof.
  intros Hd Hr Hops Hl n rn Hn. simpl in *.
  destruct (proj1 (lw_nodes _ _ _ Hl n rn) Hn) as (nd' & f & Hin' & _ & _).
  destruct (rekeyed_node _ _ _ Hr Hin') as (nd & c & Hin & Hc & _).
  destruct (lowered_row _ _ _ _ _ _ Hd Hr Hops Hl Hin Hc) as (rn' & Hn' & _ & Ho & _).
  rewrite Hn in Hn'. injection Hn' as <-. exists c. split.
  - by apply elem_of_list_to_map_1; [apply Hr|].
  - rewrite Ho. by apply (ro_match _ Hr n c nd).
Qed.

(** A resolved workflow lowers to a graph its driver can run.  For a
    validated document whose nodes were each resolved to a component row with the
    node's interface version and operation, the lowering never panics; each node
    of the graph carries the digest of its own row, the document's operation and
    parameters, and its row has that operation.  A refusal is one of the
    document's own parameters or ports, or of two rows that share a digest and
    declare one operation differently. *)
Theorem resolved_lowering_covers (scope : WiringScope) (r : ResolvedActiveWiring) :
  document_ok (ra_document r) → resolution_ok r →
  ∃ res, lower_resolved_wiring scope r = Ret res ∧
    match res with
    | Ok w => facts_cover (active_of r w) ∧ Router.entry w = wd_entry (ra_document r) ∧
        ∀ n nd c, (n, nd) ∈ wd_nodes (ra_document r) → (n, c) ∈ ra_node_components r →
          ∃ rn, node w n = Some rn ∧ component rn = ac_digest c ∧ operation rn = cn_operation nd ∧
            config rn = VObject (map_from_iter (cn_params nd)) ∧
            terminal rn = lower_terminal <$> cn_terminal nd
    | Err DuplicateOperationFact => rows_disagree r
    | Err t => contract_error t
    end.
Proof.
  intros Hd Hr. destruct (resolved_lowering_inv scope r Hd Hr) as (res & E & Hres).
  exists res. split; [done|]. destruct res as [w|t].
  - destruct Hres as (_ & ops & Hops & Hl). split; [by eapply lowered_covers|].
    split; [apply (lw_entry _ _ _ Hl)|]. intros n nd c. by eapply lowered_row.
  - by destruct Hres as [[-> ?]|Ht]; [|destruct t; try done; unfold contract_error in Ht; set_solver].
Qed.

(** ** Running a resolved workflow *)

Section RunResolved.
Context `{Powi, JsonText} {S : Type} `{!OperationHost S}.

(** The part of [execute_workflow] after the resolution. *)
Definition run_resolved (fuel : nat) (rq : RouterDriverRequest) (identity : WorkflowIdentity)
    (r : ResolvedActiveWiring) (s : S) :
    option (run (S * result RouterDelivery
                       (WiringLoweringErrorType + DriverError * list DeadlineAdjustment))) :=
  let scope := {| ws_env_key := rq_env_key rq; ws_package_id := rq_package_id rq;
                  ws_environment := rq_environment rq |} in
  match lower_resolved_wiring scope r with
  | Panic m => Some (Panic m)
  | Ret (Err t) => Some (Ret (s, Err (inl t)))
  | Ret (Ok w) =>
      match execute_resolved fuel rq (active_of r w) (Some identity) s with
      | None => None
      | Some (Panic m) => Some (Panic m)
      | Some (Ret (s, Ok d)) => Some (Ret (s, Ok d))
      | Some (Ret (s, Err e)) => Some (Ret (s, Err (inr e)))
      end
  end.

End RunResolved.

(** A resolved workflow run ends.  From a validated document and a resolution
    of its nodes, lowering and driving return within [2 * DEFAULT_HOP_LIMIT + 2]
    turns without a panic, whatever the components, the grant reader and the clock
    answer.  The delivery names the pinned version and graph hash and carries an
    outcome the boundary settles; the only errors are a refused lowering, before
    anything ran, and an error of the host. *)
Lemma workflow_run_settles `{Powi, JsonText} {S : Type} `{!OperationHost S, !SleepLaw S}
    (rq : RouterDriverRequest) (identity : WorkflowIdentity) (r : ResolvedActiveWiring) (s : S)
    (fuel : nat) :
  document_ok (ra_document r) → resolution_ok r →
  (2 * Z.to_nat DEFAULT_HOP_LIMIT + 2 ≤ fuel)%nat →
  ∃ s' out, run_resolved fuel rq identity r s = Some (Ret (s', out)) ∧
    match out with
    | Ok d => rd_wiring_version d = ra_version r ∧ rd_graph_hash d = ra_graph_hash r ∧
        Forall adjusted (rd_adjustments d) ∧ (0 ≤ o_hops (rd_outcome d) ≤ DEFAULT_HOP_LIMIT)%Z ∧
        ∃ a, production_router_action (rd_outcome d) (rq_caller_attached rq) = Ret (Ok a) ∧
             action_spec (rd_outcome d) (rq_caller_attached rq) a
    | Err (inl t) => s' = s ∧ (t = DuplicateOperationFact ∧ rows_disagree r ∨ contract_error t)
    | Err (inr (e, adj)) => Forall adjusted adj ∧ ∃ he, e = DHost he
    end.
Proof.
  intros Hd Hr Hf. unfold run_resolved. set (scope := {| ws_env_key := _ |}).
  destruct (resolved_lowering_inv scope r Hd Hr) as ([w|t] & -> & Hres); [|by do 2 eexists].
  destruct Hres as ((nodes & edges & Hc) & ops & Hops & Hl).
  pose proof (compile_inv (wd_entry (ra_document r)) nodes edges) as Hinv.
  rewrite Hc in Hinv. destruct Hinv as (_ & _ & Hlimit & _).
  pose proof (lowered_covers _ _ _ Hd Hr Hops Hl) as Hcover.
  destruct (execute_resolved_settles rq (active_of r w) (Some identity) s fuel)
    as (s' & out & E & Hout); [by eapply compile_default_ok|done|simpl; by rewrite Hlimit|].
  rewrite E. destruct out as [d|[e adj]]; [|by do 2 eexists].
  exists s', (Ok d). split; [done|]. destruct Hout as (? & Hh & ?). simpl in Hh. rewrite Hlimit in Hh.
  destruct (execute_resolved_names _ _ _ _ _ _ _ E). done.
Qed.

(** ** A concrete workflow *)

Module LoweringSample.

Import DriverSample.

Definition authored (params : list (string * Value)) (t : option CatalogTerminal) : CatalogNode := {|
  cn_component := "ops"; cn_interface_version := "1.0"; cn_operation := "acme:ops/run@1.0.0";
  cn_params := params; cn_terminal := t |}.

(** Two nodes of one component; the edge leaves its target port out. *)
Definition document : WiringDocument := {|
  wd_wiring_id := "orders"; wd_version := 3; wd_entry := "load";
  wd_nodes := [("load", authored [("deadline-ms", VNumber (PosInt 90000))] None);
               ("store", authored [] (Some CRespond))];
  wd_edges := [{| ce_from := "load"; ce_from_port := "main"; ce_to := "store"; ce_to_port := None |}] |}.

Definition resolution : ResolvedActiveWiring := {|
  ra_version := 3; ra_manifest_digest := "sha256:m"; ra_graph_hash := "h"; ra_package_version := "";
  ra_document := document; ra_node_components := [("load", fact); ("store", fact)] |}.

Definition scope : WiringScope :=
  {| ws_env_key := "acme"; ws_package_id := "orders"; ws_environment := "prod" |}.

Definition released_facts : ScopedFacts := {|
  sf_scope := scope; sf_package_version := "1.2.0"; sf_operations := project_component_operations fact |}.

Lemma document_valid : document_ok document.
Proof. constructor; simpl; [by apply (bool_decide_unpack _)|left|by apply (bool_decide_unpack _)]. Qed.

Lemma resolution_valid : resolution_ok resolution.
Proof.
  constructor; simpl; [by apply (bool_decide_unpack _)|done|].
  intros n c nd Hc Hn.
  assert (c = fact) as -> by (repeat (apply elem_of_cons in Hc as [[= -> ->]|Hc]; [done|]); by apply elem_of_nil in Hc).
  repeat (apply elem_of_cons in Hn as [[= -> ->]|Hn]; [by split; [|eexists]|]). by apply elem_of_nil in Hn.
Qed.

(** The edge enters by the one declared input. *)
Example lowered_ports :
  match lower_resolved_wiring scope resolution with
  | Ret (Ok w) => (λ e, (to e, to_port e)) <$> successors w "load" "main"
  | _ => []
  end = [("store", "in")].
Proof. vm_compute. reflexivity. Qed.

(** A document that names a component by its logical name finds its admitted fact. *)
Example lowered_digests :
  match lower_active_wiring scope "1.2.0" document released_facts with
  | Ret (Ok w) => component <$> node w "load"
  | _ => None
  end = Some "sha256:c".
Proof. vm_compute. reflexivity. Qed.

(** Facts of another package version are refused. *)
Example stale_facts : lower_active_wiring scope "1.3.0" document released_facts = Ret (Err PackageVersionMismatch).
Proof. vm_compute. reflexivity. Qed.

End LoweringSample.

Lemma lowering_exact_witness :
  ∃ w, lower_active_wiring LoweringSample.scope "1.2.0" LoweringSample.document LoweringSample.released_facts =
      Ret (Ok w) ∧
    lowers (sf_operations LoweringSample.released_facts) LoweringSample.document w.
Proof.
  destruct (lowering_exact LoweringSample.scope "1.2.0" LoweringSample.document LoweringSample.released_facts
              LoweringSample.document_valid) as (res & E & _ & Hw & _).
  destruct res as [w|t]; [exists w; split; [exact E|apply Hw; reflexivity]|].
  exfalso. vm_compute in E. discriminate E.
Defined.

Lemma resolved_lowering_covers_witness :
  ∃ w, lower_resolved_wiring LoweringSample.scope LoweringSample.resolution = Ret (Ok w) ∧
    facts_cover (active_of LoweringSample.resolution w).
Proof.
  destruct (resolved_lowering_covers LoweringSample.scope LoweringSample.resolution
              LoweringSample.document_valid LoweringSample.resolution_valid) as (res & E & Hres).
  destruct res as [w|t]; [exists w; split; [exact E|apply Hres]|].
  exfalso. vm_compute in E. discriminate E.
Defined.

Lemma workflow_run_settles_witness :
  ∃ s' out, run_resolved (Z.to_nat 20002) DriverSample.request DriverSample.clerk
      LoweringSample.resolution DriverSample.fresh_host = Some (Ret (s', out)) ∧
    match out with
    | Ok d => rd_wiring_version d = 3%Z ∧ rd_graph_hash d = "h"
    | Err (inl _) => s' = DriverSample.fresh_host
    | Err (inr (e, _)) => ∃ he, e = DHost he
    end.
Proof.
  destruct (workflow_run_settles DriverSample.request DriverSample.clerk LoweringSample.resolution
              DriverSample.fresh_host (Z.to_nat 20002) LoweringSample.document_valid
              LoweringSample.resolution_valid) as (s' & out & E & Hout).
  { change DEFAULT_HOP_LIMIT with 10000%Z. lia. }
  exists s', out. split; [exact E|].
  destruct out as [d|[t|[e adj]]]; [split; apply Hout|apply Hout|apply Hout].
Defined.
