(* ===== verification/Executor.v ===== *)
(** * The executor's queue service

    [crates/execution/workflow/src/queue.rs]: one queue turn ([drain_one]: reap,
    claim, resolve the caller, drive, settle), the driving of a claim with its
    heartbeats ([drive_claim]), the settling of its outcome and the serving loop
    with its drain ([serve_queue]).

    The executor shares the run plane with every other host.  [Ambient] is what
    it meets at its n-th call of the store: what the others did to the plane
    before it, the clocks, [random()], the locked rows and the database's refusal
    of a grant.  The execution of the workflow, the caller lookup and the derived
    publication are arguments; logging and liveness are left out. *)

From stdpp Require Import base tactics option list gmap strings relations.
From Stdlib Require Import ZArith Lia.
From S2P Require Import Prelude Json Canonical Router Walk Route RunStatus RunStore Queue RunPlane.
From S2P Require Import ClaimStore PlaneSpec ClaimRefines Workflows StoreProps ClaimProps.
From S2P Require Import Authority Driver.
#[local] Set Warnings "-clear-no-such-hyp".
Open Scope Z_scope.

Definition QUEUE_CLAIM_SCOPE : string := "wamn-executor-queue".
Definition PRODUCTION_JANITOR_GRACE_MS : Z := 3600000.

Record QueueScope := {
  qs_env_key : string;
  qs_project : string;
  qs_package_ids : list string;
  qs_environment : string;
}.

Record WorkflowRunRequest := {
  wq_run : RouterDriverRequest;
  wq_wiring_hash : string;
  wq_node_digests : list (string * string);
  wq_identity : WorkflowIdentity;
  wq_causation : option Causation;
}.

(** ** Failures that no retry changes *)

Definition workflow_resolution_refusal (t : WorkflowResolutionErrorType) (run_id : string) :
    Value * FailType :=
  (VObject (map_from_iter [("error", VObject (map_from_iter
     [("code", VString "workflow_resolution_refused"); ("run-id", VString run_id)]))]),
   match t with
   | ResolutionNotFound => FUnresolvableName
   | HashMismatch => FHashInvalidBytes
   | NodeNotInRelease => FForeignRevision
   | Incompatible | Definition_ => FIncompatibleContract
   end).

Definition workflow_refusal (e : DriverError) (run_id : string) : option (Value * FailType) :=
  match e with
  | DHost (EOperation refusal) =>
      Some (VObject (map_from_iter [("error", VObject (map_from_iter
              [("code", VString "permission_denied");
               ("operation", VString (refused_operation refusal));
               ("run-id", VString run_id)]))]), FTerminal)
  | DHost (EResolution t) => Some (workflow_resolution_refusal t run_id)
  | _ => None
  end.

(** ** The shared store *)

Record Ambient := {
  amb_others : nat → Plane → Plane;
  amb_now : nat → Z;      (* the transaction clock, microseconds *)
  amb_at : nat → Z;       (* the host's recorded instant *)
  amb_random : nat → Z;
  amb_locked : nat → string → bool;
  amb_grant_error : nat → option string;
}.

Inductive ExecError :=
| XStore (e : ProductionClaimError)
| XDriver (e : DriverError)
| XCaller (text : string)
| XVersion
| XPanic (text : string).

(** The plane and the number of store calls made so far. *)
Definition exec (A : Type) : Type := nat * Plane → nat * Plane * result A ExecError.
#[export] Instance exec_ret : MRet exec := λ A a s, (s, Ok a).
#[export] Instance exec_bind : MBind exec := λ A B k m s,
  match m s with (s', Ok a) => k a s' | (s', Err e) => (s', Err e) end.
Definition fail_with {A} (e : ExecError) : exec A := λ s, (s, Err e).

(** One call of the store, after what the others did meanwhile. *)
Definition store_call {A} (amb : Ambient)
    (f : nat → Plane → Plane * result A ProductionClaimError) : exec A := λ '(n, p),
  let '(p', r) := f n (amb_others amb n p) in
  ((S n, p'), match r with Ok a => Ok a | Err e => Err (XStore e) end).

Record DerivedPublishRequest := {
  dp_component_id : string; dp_package_id : string; dp_wiring_id : string; dp_wiring_version : Z; dp_node_id : string;
  dp_entity : string; dp_operation : Op; dp_payload : Value; dp_dedup_id : string;
  dp_causation : Causation;
}.

Section Executor.
Context `{Jsonb, Collation, FloatText, Sha256, BindingWorlds}.
Context (amb : Ambient) (h : Host).

Definition commit_completion (run_id : string) (generation : Z) (c : ProductionCompletion) :
    exec unit :=
  _ ← store_call amb (λ n, complete h QUEUE_CLAIM_SCOPE run_id generation c (amb_at amb n));
  mret tt.

(** The heartbeats before the execution ended; [false] is a lost fence. *)
Fixpoint heartbeats (beats : nat) (run_id : string) (generation ttl_ms : Z) : exec bool :=
  match beats with
  | O => mret true
  | S beats =>
      renewed ← store_call amb (λ n, renew h QUEUE_CLAIM_SCOPE run_id generation ttl_ms (amb_now amb n));
      match renewed with
      | Renewed => heartbeats beats run_id generation ttl_ms
      | RenewalFenceLost => mret false
      end
  end.

Definition derived_request (package_id run_id : string) (rq : WorkflowRunRequest) (o : Outcome)
    (event : Value) (dedup_id entity : string) (op : Op) : DerivedPublishRequest := {|
  dp_component_id := QUEUE_CLAIM_SCOPE; dp_package_id := package_id; dp_wiring_id := rq_wiring_id (wq_run rq);
  dp_wiring_version := rq_wiring_version (wq_run rq);
  dp_node_id := match o_verdict o with Some (Emit _ _ _ _ node_id) => node_id | _ => "" end;
  dp_entity := entity; dp_operation := op; dp_payload := event; dp_dedup_id := dedup_id;
  dp_causation := default {| cause_run := run_id; cause_root := run_id; cause_depth := 0 |}
                    (wq_causation rq) |}.

(** What the boundary does with a walked delivery; [publish] is whether the
    server acknowledged the derived event. *)
Definition settle_action (package_id run_id : string) (generation : Z) (rq : WorkflowRunRequest)
    (publish : DerivedPublishRequest → bool) (o : Outcome) (a : ProductionRouterAction) : exec unit :=
  match a with
  | Complete c => commit_completion run_id generation c
  | EmitAction event dedup_id entity op =>
      if publish (derived_request package_id run_id rq o event dedup_id entity op)
      then commit_completion run_id generation (completed event None)
      else mret tt
  | CancelledAction => mret tt
  end.

(** The part of [drive_claim] after the execution ended. *)
Definition settle_delivery (package_id run_id : string) (generation : Z) (durable : bool)
    (rq : WorkflowRunRequest) (publish : DerivedPublishRequest → bool)
    (delivery : result RouterDelivery (DriverError * list DeadlineAdjustment)) : exec unit :=
  match delivery with
  | Ok d =>
      match production_router_action (rd_outcome d) durable with
      | Panic m => fail_with (XPanic m)
      | Ret (Err e) => fail_with (XStore e)
      | Ret (Ok a) => settle_action package_id run_id generation rq publish (rd_outcome d) a
      end
  | Err (e, _) =>
      match workflow_refusal e run_id with
      | Some (v, t) => commit_completion run_id generation (failed v t None)
      | None => fail_with (XDriver e)
      end
  end.

Definition adjustments_of
    (delivery : result RouterDelivery (DriverError * list DeadlineAdjustment)) : list DeadlineAdjustment :=
  match delivery with Ok d => rd_adjustments d | Err (_, adj) => adj end.

(** [execute] answers how many heartbeats fell due before the end, and the end. *)
Definition drive_claim (package_id run_id : string) (generation ttl_ms : Z) (durable : bool)
    (publish : DerivedPublishRequest → bool)
    (execute : WorkflowRunRequest →
       nat * result RouterDelivery (DriverError * list DeadlineAdjustment))
    (rq : WorkflowRunRequest) : exec unit :=
  let '(beats, delivery) := execute rq in
  held ← heartbeats beats run_id generation ttl_ms;
  if negb held then mret tt
  else
    let adj := adjustments_of delivery in
    recorded ← match adj with
      | [] => mret true
      | _ => store_call amb (λ _, record_deadline_adjustments h QUEUE_CLAIM_SCOPE run_id generation
                                    (adjustments_value adj))
      end;
    if negb recorded then mret tt
    else settle_delivery package_id run_id generation durable rq publish delivery.

(** The caller lookup; an unavailable connection is told apart. *)
Inductive CallerLookup :=
| CallerFound (c : AuthenticatedCaller)
| CallerConnectionUnavailable
| CallerFailed (text : string).

Definition run_request (scope : QueueScope) (sc : SelectedClaim) (w : ProductionWorkflow)
    (caller : AuthenticatedCaller) : WorkflowRunRequest := {|
  wq_run := {|
    rq_env_key := qs_env_key scope; rq_package_id := sc_package_id sc;
    rq_environment := qs_environment scope; rq_wiring_id := sc_wiring_id sc;
    rq_wiring_version := sc_wiring_version sc; rq_delivery_id := sc_run_id sc;
    rq_payload := sc_payload sc; rq_caller_attached := sc_router_caller_attached sc;
    rq_caller := Some caller |};
  wq_wiring_hash := wf_wiring_hash w; wq_node_digests := wf_node_digests w;
  wq_causation := wf_causation w;
  wq_identity := {| wi_principal_id := wf_execution_principal_id w; wi_role := wf_execution_role w |} |}.

(** What [drain_one] does with a claimed run. *)
Definition serve_claim (scope : QueueScope) (ttl_ms : Z)
    (queued_run_caller : string → string → CallerLookup)
    (publish : DerivedPublishRequest → bool)
    (execute : WorkflowRunRequest →
       nat * result RouterDelivery (DriverError * list DeadlineAdjustment))
    (sc : SelectedClaim) (generation : Z) : exec bool :=
  let run_id := sc_run_id sc in
  if negb ((0 <=? sc_wiring_version sc) && (sc_wiring_version sc <=? u32_max))
  then fail_with XVersion
  else
  match sc_workflow sc with
  | None =>
      let '(v, t) := workflow_resolution_refusal ResolutionNotFound run_id in
      _ ← commit_completion run_id generation (failed v t None);
      mret true
  | Some w =>
      match queued_run_caller (wf_execution_principal_id w) (wf_execution_role w) with
      | CallerConnectionUnavailable =>
          _ ← store_call amb (λ n, release_claim h QUEUE_CLAIM_SCOPE run_id generation
                                     (amb_now amb n) (amb_random amb n) (amb_at amb n));
          mret true
      | CallerFailed e => fail_with (XCaller e)
      | CallerFound caller =>
          _ ← drive_claim (sc_package_id sc) run_id generation ttl_ms
                (sc_durable_caller_attached sc) publish execute (run_request scope sc w caller);
          mret true
      end
  end.

Definition drain_one (scope : QueueScope) (ttl_ms : Z)
    (queued_run_caller : string → string → CallerLookup)
    (publish : DerivedPublishRequest → bool)
    (execute : WorkflowRunRequest →
       nat * result RouterDelivery (DriverError * list DeadlineAdjustment)) : exec bool :=
  _ ← store_call amb (λ n, reap_exhausted h QUEUE_CLAIM_SCOPE (qs_package_ids scope)
                             (qs_environment scope) PRODUCTION_JANITOR_GRACE_MS
                             (amb_locked amb n) (amb_now amb n) (amb_at amb n));
  claimed ← store_call amb (λ n, claim_next h QUEUE_CLAIM_SCOPE (qs_package_ids scope)
                             (qs_environment scope) ttl_ms (amb_locked amb n)
                             (amb_grant_error amb n) (amb_now amb n));
  match claimed with
  | ClaimEmpty => mret false
  | ClaimReady sc generation =>
      serve_claim scope ttl_ms queued_run_caller publish execute sc generation
  end.

End Executor.

(** ** Serving and draining

    [turn] and [backlog] are the two closures over a state of the loop's own;
    [stopping n] is whether the stop was requested when the loop looks for the
    n-th time.  [None] is "out of fuel"; an error of a turn is a retry. *)
Section Serve.
Context {S : Type} (turn : S → S * option bool) (backlog : S → S * option bool).

(** After the stop: turns while a pinned run remains. *)
Fixpoint drain (fuel : nat) (s : S) : option S :=
  match fuel with
  | O => None
  | Datatypes.S fuel =>
      match backlog s with
      | (s, Some false) => Some s
      | (s, _) => drain fuel (turn s).1
      end
  end.

Fixpoint serve_queue (fuel : nat) (stopping : nat → bool) (s : S) : option S :=
  match fuel with
  | O => None
  | Datatypes.S fuel' =>
      if stopping O then drain fuel s
      else serve_queue fuel' (λ n, stopping (Datatypes.S n)) (turn s).1
  end.

End Serve.

(** ** A turn is a history of the store *)

Section History.
Context `{Jsonb, Collation, FloatText, Sha256, BindingWorlds, AdmissionChecks, JsonbEq,
          !WorkflowCatalog}.
Context (amb : Ambient) (h : Host).
(** The calls that may fall between those of the turn: those of the store among them. *)
Context (call : Plane → Plane → Prop) (store_calls : ∀ p p', store_step p p' → call p p').
Hypothesis others_call : ∀ n p, rtc call p (amb_others amb n p).

Definition is_history {A} (m : exec A) : Prop :=
  ∀ n p, rtc call p (m (n, p)).1.2.

Lemma ret_history {A} (a : A) : is_history (mret a).
Proof. intros n p. simpl. apply rtc_refl. Qed.
Lemma fail_history {A} e : is_history (A := A) (fail_with e).
Proof. intros n p. apply rtc_refl. Qed.
Lemma bind_history {A B} (m : exec A) (k : A → exec B) :
  is_history m → (∀ a, is_history (k a)) → is_history (m ≫= k).
Proof.
  intros Hm Hk n p. specialize (Hm n p). unfold mbind, exec_bind.
  destruct (m (n, p)) as [[n1 p1] [a|e]]; simpl in *; [|done].
  etrans; [exact Hm|]. apply Hk.
Qed.
Lemma call_history {A} (f : nat → Plane → Plane * result A ProductionClaimError) :
  (∀ n p, store_step p (f n p).1) → is_history (store_call amb f).
Proof.
  intros Hf n p. unfold store_call. specialize (Hf n (amb_others amb n p)).
  destruct (f n _) as [p' r]. simpl in *. etrans; [apply others_call|]. by apply rtc_once, store_calls.
Qed.

(** What a settled outcome completes with. *)
Definition standard_completion (c : ProductionCompletion) : Prop :=
  (∃ v k, c = completed v k) ∨ (∃ v t k, c = failed v t k).

Lemma action_completion o mode c :
  production_router_action o mode = Ret (Ok (Complete c)) → standard_completion c.
Proof.
  unfold production_router_action, production_router_action_with_mode, action_without_verdict,
    standard_completion.
  intros E. repeat case_hyp E; simplify_eq; eauto.
Qed.

Lemma commit_history run_id g c : standard_completion c → is_history (commit_completion amb h run_id g c).
Proof.
  intros Hc. apply bind_history; [|intros; apply ret_history].
  apply call_history. intros n p. destruct Hc as [(v & k & ->)|(v & t & k & ->)];
    [apply s_completed|apply s_failed].
Qed.

Lemma heartbeats_history beats run_id g ttl : is_history (heartbeats amb h beats run_id g ttl).
Proof.
  induction beats as [|beats IH]; simpl; [apply ret_history|].
  apply bind_history; [apply call_history; intros; apply s_renew|].
  intros [|]; [done|apply ret_history].
Qed.

Lemma settle_history pk run_id g durable rq publish d :
  is_history (settle_delivery amb h pk run_id g durable rq publish d).
Proof.
  unfold settle_delivery. destruct d as [d|[e adj]].
  - destruct (production_router_action _ _) as [[a|e]|m] eqn:Ea; try apply fail_history.
    destruct a as [c|event dd ent op|]; simpl; [|case_goal|apply ret_history].
    + apply commit_history. by eapply action_completion.
    + apply commit_history. left. eauto.
    + apply ret_history.
  - destruct (workflow_refusal e run_id) as [[v t]|]; [|apply fail_history].
    apply commit_history. right. eauto.
Qed.

Lemma drive_history pk run_id g ttl durable publish execute rq :
  is_history (drive_claim amb h pk run_id g ttl durable publish execute rq).
Proof.
  unfold drive_claim. destruct (execute rq) as [beats d].
  apply bind_history; [apply heartbeats_history|]. intros [|]; simpl; [|apply ret_history].
  apply bind_history.
  - destruct (adjustments_of d); [apply ret_history|]. apply call_history. intros. apply s_record.
  - intros [|]; simpl; [apply settle_history|apply ret_history].
Qed.

Lemma serve_claim_history scope ttl lookup publish execute sc g :
  is_history (serve_claim amb h scope ttl lookup publish execute sc g).
Proof.
  unfold serve_claim. destruct (negb _); [apply fail_history|].
  destruct (sc_workflow sc) as [w|].
  - destruct (lookup _ _); [..|apply fail_history];
      (apply bind_history; [|intros; apply ret_history]).
    + apply drive_history.
    + apply call_history. intros. apply s_release.
  - apply bind_history; [|intros; apply ret_history]. apply commit_history. right. eauto.
Qed.

Lemma drain_one_history scope ttl lookup publish execute :
  is_history (drain_one amb h scope ttl lookup publish execute).
Proof.
  unfold drain_one. apply bind_history; [apply call_history; intros; apply s_reap|]. intros _.
  apply bind_history; [apply call_history; intros; apply s_claim|].
  intros [|sc g]; [apply ret_history|apply serve_claim_history].
Qed.

End History.

(** ** A quiet turn, step by step *)

Section Quiet.
Context `{Jsonb, Collation, FloatText, Sha256, BindingWorlds, AdmissionChecks, JsonbEq,
          !WorkflowCatalog}.
Context (amb : Ambient) (h : Host).

(** Nobody else touches the plane during the turn, and no grant is refused. *)
Definition quiet : Prop :=
  (∀ n p, amb_others amb n p = p) ∧ (∀ n, amb_grant_error amb n = None).

Lemma quiet_call {A} (f : nat → Plane → Plane * result A ProductionClaimError) n p p' a :
  quiet → f n p = (p', Ok a) → store_call amb f (n, p) = ((S n, p'), Ok a).
Proof. intros [Hq _] Hf. unfold store_call. by rewrite Hq, Hf. Qed.

Lemma renew_keeps_lease env runner id g ttl now p p' r :
  env_key_for h QUEUE_CLAIM_SCOPE = Some env → runner_for h QUEUE_CLAIM_SCOPE = Some runner →
  held p env id runner g r → renew h QUEUE_CLAIM_SCOPE id g ttl now p = (p', Ok Renewed) →
  runs p' = runs p ∧ held p' env id runner g r.
Proof.
  intros He Hr [Hne Hrun Hrb (q & Hq & Ho & Hg)]. unfold renew, validated. rewrite He, Hr.
  destruct (negb _); [done|]. unfold transact.
  destruct (renew_in_transaction _ _ _ _ _ _ _ _) as [[p1 x]|] eqn:Et; [|done].
  intros [= <- ->]. unfold renew_in_transaction in Et. tx_inv Et. tx_inv Et.
  apply tx_ret_inv in Et as [-> Ex]. unfold statement', renew_production_lease_sql in Hm.
  rewrite Hq in Hm. destruct (holds_lease q runner g now) eqn:Eh; [|by injection Hm as <- <-].
  injection Hm as <- <-. split; [done|]. constructor; try done. simpl.
  eexists. split; [apply lookup_insert_eq|done].
Qed.

Lemma heartbeats_keep_lease env runner id g ttl beats n p n' p' r :
  quiet → env_key_for h QUEUE_CLAIM_SCOPE = Some env → runner_for h QUEUE_CLAIM_SCOPE = Some runner →
  held p env id runner g r → plane_ok p →
  heartbeats amb h beats id g ttl (n, p) = ((n', p'), Ok true) →
  runs p' = runs p ∧ held p' env id runner g r ∧ plane_ok p'.
Proof.
  intros Hq He Hr. revert n p. induction beats as [|beats IH]; intros n p Hh Hok Hb; simpl in Hb.
  { by injection Hb as <- <-. }
  unfold mbind, exec_bind in Hb. unfold store_call in Hb at 1. rewrite (proj1 Hq) in Hb.
  destruct (renew h QUEUE_CLAIM_SCOPE id g ttl (amb_now amb n) p) as [p1 [[|]|e]] eqn:Er; try done.
  pose proof (s_renew p h QUEUE_CLAIM_SCOPE id g ttl (amb_now amb n)) as Hs. rewrite Er in Hs.
  destruct (renew_keeps_lease _ _ _ _ _ _ _ _ _ He Hr Hh Er) as [Hruns Hh1].
  destruct (IH (S n) p1 Hh1) as (E1 & E2 & E3); [|done|split_and!; congruence].
  by eapply evolves_ok, store_step_evolves.
Qed.

(** The lease a claim grants is held. *)
Lemma granted_held p p' env runner id pk e rel ttl now g r r' q q' :
  env ≠ ""%string → granted p p' env runner id pk e rel ttl now g r r' q q' →
  held p' env id runner g r'.
Proof.
  intros Hne [? ? ? ? Hr' Hq' Hrun ? ? ? Hrow ?]. constructor; [done|done|by rewrite Hrun|].
  exists q'. rewrite Hrow in *. done.
Qed.

Lemma granted_positive p p' env runner id pk e rel ttl now g r r' q q' :
  plane_ok p → granted p p' env runner id pk e rel ttl now g r r' q q' → 0 < g.
Proof.
  intros Hok [? Hq ? -> ? ? ? ? ? ? ? ?]. destruct (pk_rows _ Hok _ _ Hq) as (? & _ & [? ? ? ? ? ? ? ?]).
  lia.
Qed.

(** What the plane is after a settled run: [c] recorded and the row dequeued. *)
Definition recorded (env id : string) (c : ProductionCompletion) (r : RunRow) (at_us : Z) (p : Plane) :
    Plane :=
  {| runs := <[(env, id) := completed_row c r at_us]> (runs p);
     queue := delete (env, id) (queue p) |}.

(** The run with a deadline report, and the plane that holds it. *)
Definition with_report (v : Value) (r : RunRow) : RunRow := {|
  r_pins := r_pins r; r_status := r_status r; r_state_json := r_state_json r; r_result_json := r_result_json r;
  r_deadline_adjustments_json := Some v; r_caller := r_caller r; r_terminal_reason := r_terminal_reason r;
  r_fail_type := r_fail_type r; r_updated_at := r_updated_at r |}.
Definition reported (env id : string) (v : Value) (r : RunRow) (p : Plane) : Plane :=
  set_runs (<[(env, id) := with_report v r]> (runs p)) p.

(** What the end of an execution asks for: a completion, nothing (the lease is left for
    redelivery), or an error.  An event's run completes only once it is acknowledged. *)
Inductive turn_wants (pk id : string) (rq : WorkflowRunRequest) (publish : DerivedPublishRequest → bool) :
    result RouterDelivery (DriverError * list DeadlineAdjustment) → option ProductionCompletion + ExecError → Prop :=
| wants_complete d c : action_spec (rd_outcome d) false (Complete c) → turn_wants pk id rq publish (Ok d) (inl (Some c))
| wants_event d event dd ent op : action_spec (rd_outcome d) false (EmitAction event dd ent op) →
    publish (derived_request pk id rq (rd_outcome d) event dd ent op) = true →
    turn_wants pk id rq publish (Ok d) (inl (Some (completed event None)))
| wants_acknowledgment d event dd ent op : action_spec (rd_outcome d) false (EmitAction event dd ent op) →
    publish (derived_request pk id rq (rd_outcome d) event dd ent op) = false →
    turn_wants pk id rq publish (Ok d) (inl None)
| wants_cancelled d : action_spec (rd_outcome d) false CancelledAction → turn_wants pk id rq publish (Ok d) (inl None)
| wants_refusal e adj v t : workflow_refusal e id = Some (v, t) →
    turn_wants pk id rq publish (Err (e, adj)) (inl (Some (failed v t None)))
| wants_retry e adj : workflow_refusal e id = None → turn_wants pk id rq publish (Err (e, adj)) (inr (XDriver e)).

(** What becomes of it: a completion is recorded when its result can be stored as [jsonb];
    otherwise the plane stays and the turn fails. *)
Inductive turn_settled (env id : string) (at_us : Z) (r : RunRow) (p : Plane) :
    option ProductionCompletion + ExecError → Plane → result bool ExecError → Prop :=
| settled_left : turn_settled env id at_us r p (inl None) p (Ok true)
| settled_recorded c : is_Some (jsonb (completion_result c)) →
    turn_settled env id at_us r p (inl (Some c)) (recorded env id c r at_us p) (Ok true)
| settled_unstorable c : jsonb (completion_result c) = None →
    turn_settled env id at_us r p (inl (Some c)) p
      (Err (XStore (claim_error Storage "terminalize production run" "invalid-json")))
| settled_error e : turn_settled env id at_us r p (inr e) p (Err e).

(** The end of a turn that kept its lease until the execution ended; [clock] is the host's
    instant at the next calls of the store. *)
Inductive turn_end (pk env id : string) (rq : WorkflowRunRequest) (publish : DerivedPublishRequest → bool)
    (clock : nat → Z) (r : RunRow) (p : Plane) (delivery : result RouterDelivery (DriverError * list DeadlineAdjustment)) :
    Plane → result bool ExecError → Prop :=
| end_plain w p' res : adjustments_of delivery = [] → turn_wants pk id rq publish delivery w →
    turn_settled env id (clock 0%nat) r p w p' res → turn_end pk env id rq publish clock r p delivery p' res
| end_reported stored w p' res : adjustments_of delivery ≠ [] →
    jsonb (adjustments_value (adjustments_of delivery)) = Some stored → turn_wants pk id rq publish delivery w →
    turn_settled env id (clock 1%nat) (with_report stored r) (reported env id stored r p) w p' res →
    turn_end pk env id rq publish clock r p delivery p' res
| end_unreported : adjustments_of delivery ≠ [] → jsonb (adjustments_value (adjustments_of delivery)) = None →
    turn_end pk env id rq publish clock r p delivery p
      (Err (XStore (claim_error Storage "store deadline report" "invalid-json"))).

Lemma detached_action_caller o c :
  production_router_action o false = Ret (Ok (Complete c)) → caller c = None.
Proof.
  unfold production_router_action, production_router_action_with_mode, action_without_verdict.
  intros E. repeat case_hyp E; simplify_eq; done.
Qed.

(** A completion whose result cannot be stored is rolled back. *)
Lemma complete_unstorable env runner id g c at_us p r :
  env_key_for h QUEUE_CLAIM_SCOPE = Some env → runner_for h QUEUE_CLAIM_SCOPE = Some runner →
  executor_member h = true → 0 < g → held p env id runner g r → caller c = None →
  durable_source (p_trigger_source (r_pins r)) = false → jsonb (completion_result c) = None →
  complete h QUEUE_CLAIM_SCOPE id g c at_us p =
    (p, Err (claim_error Storage "terminalize production run" "invalid-json")).
Proof.
  intros He Hr Hex Hg Hh Hc Hs Hj. unfold complete, validated. rewrite He, Hr.
  assert ((0 <? g) = true) as -> by lia. unfold transact, complete_in_transaction, require_executor_authority. rewrite Hex, Hc.
  unfold mbind at 1, tx_bind at 1, mret, tx_ret. cbn [negb].
  unfold terminalize_in_transaction, mbind, tx_bind, statement, terminalize_sql.
  rewrite (held_fenced _ _ _ _ _ _ Hh), Hs, andb_false_r. simpl. by rewrite Hj.
Qed.

Lemma commit_quiet env runner id g c n p r :
  quiet → env_key_for h QUEUE_CLAIM_SCOPE = Some env → runner_for h QUEUE_CLAIM_SCOPE = Some runner →
  executor_member h = true → 0 < g → plane_ok p → held p env id runner g r →
  durable_source (p_trigger_source (r_pins r)) = false → p_created_at (r_pins r) ≤ amb_at amb n →
  caller c = None → standard_completion c →
  ∃ p' res, commit_completion amb h id g c (n, p) = ((S n, p'), res) ∧
    turn_settled env id (amb_at amb n) r p (inl (Some c)) p' (match res with Ok _ => Ok true | Err e => Err e end).
Proof.
  intros Hq He Hr Hex Hg Hok Hh Hsrc Hat Hc Hstd. unfold commit_completion, mbind, exec_bind, store_call. rewrite (proj1 Hq).
  destruct (jsonb (completion_result c)) as [stored|] eqn:Hj.
  - erewrite complete_held_lease; [|done..|]; [|constructor; [|by rewrite Hj|done|congruence|auto]].
    + do 2 eexists. split; [reflexivity|]. by apply settled_recorded.
    + by destruct Hstd as [(? & ? & ->)|(? & ? & ? & ->)].
  - erewrite complete_unstorable by done. do 2 eexists. split; [reflexivity|]. by apply settled_unstorable.
Qed.

Lemma settle_quiet env runner id g n p r rq pk publish delivery :
  quiet → env_key_for h QUEUE_CLAIM_SCOPE = Some env →
  runner_for h QUEUE_CLAIM_SCOPE = Some runner → executor_member h = true → 0 < g → plane_ok p →
  held p env id runner g r → durable_source (p_trigger_source (r_pins r)) = false →
  p_created_at (r_pins r) ≤ amb_at amb n → (∀ d, delivery = Ok d → settles false (rd_outcome d)) →
  ∃ w p' n' res, turn_wants pk id rq publish delivery w ∧
    settle_delivery amb h pk id g false rq publish delivery (n, p) = ((n', p'), res) ∧
    turn_settled env id (amb_at amb n) r p w p' (match res with Ok _ => Ok true | Err e => Err e end).
Proof.
  intros Hq He Hr Hex Hg Hok Hh Hsrc Hat Hset.
  assert (Hc : ∀ c, caller c = None → standard_completion c → turn_wants pk id rq publish delivery (inl (Some c)) →
    ∃ w p' n' res, turn_wants pk id rq publish delivery w ∧ commit_completion amb h id g c (n, p) = ((n', p'), res) ∧
      turn_settled env id (amb_at amb n) r p w p' (match res with Ok _ => Ok true | Err e => Err e end)).
  { intros c Hnone Hstd Hw.
    destruct (commit_quiet env runner id g c n p r Hq He Hr Hex Hg Hok Hh Hsrc Hat Hnone Hstd) as (p' & res & E & Hs).
    by exists (inl (Some c)), p', (S n), res. }
  unfold settle_delivery. destruct delivery as [d|[e adj]].
  - destruct (router_action_settles _ _ (Hset d eq_refl)) as (a & Ha & Hspec). rewrite Ha.
    destruct a as [c|event dd ent op|]; cbn [settle_action].
    + apply Hc; [by eapply detached_action_caller|by eapply action_completion|by apply wants_complete].
    + destruct (publish _) eqn:Hp; [apply Hc; [done|left; eauto|by eapply wants_event]|].
      exists (inl None), p, n, (Ok tt). split_and!; [by eapply wants_acknowledgment|done|apply settled_left].
    + exists (inl None), p, n, (Ok tt). split_and!; [by apply wants_cancelled|done|apply settled_left].
  - destruct (workflow_refusal e id) as [[v t]|] eqn:Hw; [apply Hc; [done|right; eauto|by apply wants_refusal]|].
    exists (inr (XDriver e)), p, n, (Err (XDriver e)). split_and!; [by apply wants_retry|done|apply settled_error].
Qed.

(** The deadline report under a held lease. *)
Lemma record_held env runner id g v p r :
  env_key_for h QUEUE_CLAIM_SCOPE = Some env → runner_for h QUEUE_CLAIM_SCOPE = Some runner →
  executor_member h = true → 0 < g → plane_ok p → held p env id runner g r →
  record_deadline_adjustments h QUEUE_CLAIM_SCOPE id g v p =
    match jsonb v with
    | Some stored => (reported env id stored r p, Ok true)
    | None => (p, Err (claim_error Storage "store deadline report" "invalid-json"))
    end.
Proof.
  intros He Hr Hex Hg Hok Hh. unfold record_deadline_adjustments, validated. rewrite He, Hr.
  assert ((0 <? g) = true) as -> by lia. cbn [negb]. unfold transact, record_in_transaction, require_executor_authority.
  rewrite Hex. unfold mbind, tx_bind, mret, tx_ret, statement, record_deadline_adjustments_sql.
  rewrite (held_fenced _ _ _ _ _ _ Hh). cbn [String.eqb]. change (String.eqb "ready" "ready") with true. cbv iota.
  destruct (jsonb v) as [stored|]; [|done]. unfold update_run. rewrite (hd_run _ _ _ _ _ _ Hh).
  pose proof (pk_checks _ Hok _ _ (hd_run _ _ _ _ _ _ Hh)) as Hck.
  rewrite (run_check_later r) by (done || (unfold run_check in Hck; simpl; destruct (Z.ltb_spec (r_updated_at r) (p_created_at (r_pins r))); [done|lia])).
  done.
Qed.

Lemma reported_held env runner id g v p r :
  held p env id runner g r → held (reported env id v r p) env id runner g (with_report v r).
Proof. intros [? ? ? ?]. constructor; try done. apply lookup_insert_eq. Qed.

Lemma decoded_durable id b r sc :
  decode_selected_claim id b r = Ok sc →
  durable_source (p_trigger_source (r_pins r)) = sc_durable_caller_attached sc.
Proof.
  unfold decode_selected_claim, result_bind. intros Hd. repeat case_hyp Hd; simplify_eq; done.
Qed.

(** Renewals change no run. *)
Lemma renew_runs id g ttl now p : runs (renew h QUEUE_CLAIM_SCOPE id g ttl now p).1 = runs p.
Proof.
  unfold renew, validated. destruct (negb _); [done|]. destruct (env_key_for h _) as [env|]; [|done].
  destruct (runner_for h _) as [runner|]; [|done]. unfold transact.
  destruct (renew_in_transaction _ _ _ _ _ _ _ _) as [[p1 x]|] eqn:Et; [|done].
  unfold renew_in_transaction in Et. tx_inv Et. tx_inv Et. apply tx_ret_inv in Et as [-> _].
  unfold statement', renew_production_lease_sql in Hm. repeat case_hyp Hm; by injection Hm as <- _.
Qed.

Lemma heartbeats_runs beats id g ttl : quiet → ∀ n p, runs (heartbeats amb h beats id g ttl (n, p)).1.2 = runs p.
Proof.
  intros Hq. induction beats as [|beats IH]; intros n p; [done|]. cbn [heartbeats].
  unfold mbind, exec_bind. unfold store_call at 1. rewrite (proj1 Hq).
  pose proof (renew_runs id g ttl (amb_now amb n) p) as Hr.
  destruct (renew h QUEUE_CLAIM_SCOPE id g ttl (amb_now amb n) p) as [p1 [[|]|e]]; simpl in *; [by rewrite IH|done..].
Qed.

(** The turn reduced to the driving of its claim. *)
Lemma quiet_turn scope ttl lookup publish execute n p p1 p2 reaped sc g w c :
  quiet →
  reap_exhausted h QUEUE_CLAIM_SCOPE (qs_package_ids scope) (qs_environment scope)
    PRODUCTION_JANITOR_GRACE_MS (amb_locked amb n) (amb_now amb n) (amb_at amb n) p = (p1, Ok reaped) →
  claim_next h QUEUE_CLAIM_SCOPE (qs_package_ids scope) (qs_environment scope) ttl
    (amb_locked amb (S n)) None (amb_now amb (S n)) p1 = (p2, Ok (ClaimReady sc g)) →
  sc_workflow sc = Some w → 0 ≤ sc_wiring_version sc ≤ u32_max →
  lookup (wf_execution_principal_id w) (wf_execution_role w) = CallerFound c →
  drain_one amb h scope ttl lookup publish execute (n, p) =
    (drive_claim amb h (sc_package_id sc) (sc_run_id sc) g ttl (sc_durable_caller_attached sc) publish execute
       (run_request scope sc w c) ≫= λ _, mret true) (S (S n), p2).
Proof.
  intros Hq Hreap Hclaim Hwf [Hv1 Hv2] Hlk.
  unfold drain_one. unfold mbind at 1, exec_bind at 1.
  erewrite quiet_call; [|done|exact Hreap]. unfold mbind at 1, exec_bind at 1.
  erewrite quiet_call; [|done|by rewrite (proj2 Hq); exact Hclaim].
  unfold serve_claim. rewrite Hwf, Hlk.
  assert ((0 <=? sc_wiring_version sc) && (sc_wiring_version sc <=? u32_max) = true) as -> by lia. done.
Qed.

(** The driving of a claim whose heartbeats kept the lease. *)
Lemma drive_quiet env runner id g ttl n p2 r rq pk publish execute beats delivery n' p3 :
  quiet → env_key_for h QUEUE_CLAIM_SCOPE = Some env →
  runner_for h QUEUE_CLAIM_SCOPE = Some runner → executor_member h = true → 0 < g →
  execute rq = (beats, delivery) → heartbeats amb h beats id g ttl (n, p2) = ((n', p3), Ok true) →
  plane_ok p3 → held p3 env id runner g r → durable_source (p_trigger_source (r_pins r)) = false →
  (∀ i, p_created_at (r_pins r) ≤ amb_at amb i) → (∀ d, delivery = Ok d → settles false (rd_outcome d)) →
  ∃ n4 p4 res, (drive_claim amb h pk id g ttl false publish execute rq ≫= λ _, mret true) (n, p2) = ((n4, p4), res) ∧
    turn_end pk env id rq publish (λ i, amb_at amb (n' + i)) r p3 delivery p4 res.
Proof.
  intros Hq He Hr Hex Hg Hexec Hhb Hok Hh Hsrc Hat Hset.
  unfold mbind at 1, exec_bind at 1, drive_claim. rewrite Hexec. unfold mbind at 1, exec_bind at 1. rewrite Hhb. cbn [negb].
  unfold mbind at 1, exec_bind at 1. destruct (adjustments_of delivery) as [|a adj] eqn:Hadj.
  - destruct (settle_quiet env runner id g n' p3 r rq pk publish delivery Hq He Hr Hex Hg Hok Hh Hsrc (Hat n') Hset)
      as (w & p' & n5 & res & Hw & E & Hs). cbn -[settle_delivery]. rewrite E.
    destruct res as [[]|e]; do 3 eexists; (split; [reflexivity|]);
      (eapply end_plain; [done|exact Hw|]); by rewrite Nat.add_0_r.
  - unfold store_call at 1. rewrite (proj1 Hq), (record_held env runner id g _ p3 r) by done.
    destruct (jsonb (adjustments_value (a :: adj))) as [stored|] eqn:Hj; cbn -[settle_delivery adjustments_value].
    + assert (Hok' : plane_ok (reported env id stored r p3)).
      { pose proof (s_record p3 h QUEUE_CLAIM_SCOPE id g (adjustments_value (a :: adj))) as Hstep.
        rewrite (record_held env runner id g _ p3 r), Hj in Hstep by done. by eapply evolves_ok, store_step_evolves. }
      destruct (settle_quiet env runner id g (S n') _ (with_report stored r) rq pk publish delivery Hq He Hr Hex Hg Hok'
        (reported_held _ _ _ _ _ _ _ Hh) Hsrc (Hat (S n')) Hset) as (w & p' & n5 & res & Hw & E & Hs).
      rewrite E. destruct res as [[]|e]; do 3 eexists; (split; [reflexivity|]);
        (eapply end_reported; [by rewrite Hadj|by rewrite Hadj|exact Hw|]); by rewrite Nat.add_1_r.
    + do 3 eexists. split; [reflexivity|]. apply end_unreported; by rewrite Hadj.
Qed.

End Quiet.

(** ** Theorems *)

Section Theorems.
Context `{Jsonb, Collation, FloatText, Sha256, BindingWorlds, AdmissionChecks, JsonbEq,
          !WorkflowCatalog}.

(** C6. A quiet turn settles the run it claims.  When nobody else writes the plane during
    the turn, its claim returned a workflow run whose caller resolves, and the host's clock
    is not behind the run's creation, then the turn ends by what the execution asks for.
    If a heartbeat lost the lease or failed, the turn wrote no run.  Otherwise the deadline
    report, if there is one, is stored first; then the run is completed or failed with the
    action's or the refusal's result and dequeued; a derived event's run completes only
    once the event was acknowledged; without an acknowledgment, or cancelled, the lease is
    left for redelivery; and an error of the driver, or a value [jsonb] refuses, is the
    turn's error and leaves the run leased. *)
Theorem queue_turn_settles (amb : Ambient) (h : Host) (scope : QueueScope) (ttl_ms : Z)
    (lookup : string → string → CallerLookup) (publish : DerivedPublishRequest → bool)
    (execute : WorkflowRunRequest → nat * result RouterDelivery (DriverError * list DeadlineAdjustment))
    (n beats : nat) (p p1 p2 : Plane) (reaped : ProductionReapResult) (sc : SelectedClaim)
    (g : Z) (w : ProductionWorkflow) (c : AuthenticatedCaller)
    (delivery : result RouterDelivery (DriverError * list DeadlineAdjustment)) (env : string) :
  quiet amb → plane_ok p → env_key_for h QUEUE_CLAIM_SCOPE = Some env → env ≠ ""%string →
  reap_exhausted h QUEUE_CLAIM_SCOPE (qs_package_ids scope) (qs_environment scope)
    PRODUCTION_JANITOR_GRACE_MS (amb_locked amb n) (amb_now amb n) (amb_at amb n) p = (p1, Ok reaped) →
  claim_next h QUEUE_CLAIM_SCOPE (qs_package_ids scope) (qs_environment scope) ttl_ms
    (amb_locked amb (S n)) None (amb_now amb (S n)) p1 = (p2, Ok (ClaimReady sc g)) →
  sc_workflow sc = Some w → 0 ≤ sc_wiring_version sc ≤ u32_max →
  lookup (wf_execution_principal_id w) (wf_execution_role w) = CallerFound c →
  execute (run_request scope sc w c) = (beats, delivery) →
  (∀ d, delivery = Ok d → settles (sc_router_caller_attached sc) (rd_outcome d)) →
  (∀ r i, runs p2 !! (env, sc_run_id sc) = Some r → p_created_at (r_pins r) ≤ amb_at amb i) →
  ∃ r, runs p2 !! (env, sc_run_id sc) = Some r ∧
  match heartbeats amb h beats (sc_run_id sc) g ttl_ms (S (S n), p2) with
  | (n', p3, kept) =>
      runs p3 = runs p2 ∧
      match kept with
      | Ok true => turn_end (sc_package_id sc) env (sc_run_id sc) (run_request scope sc w c) publish
          (λ i, amb_at amb (n' + i)) r p3 delivery
          (drain_one amb h scope ttl_ms lookup publish execute (n, p)).1.2
          (drain_one amb h scope ttl_ms lookup publish execute (n, p)).2
      | Ok false => drain_one amb h scope ttl_ms lookup publish execute (n, p) = ((n', p3), Ok true)
      | Err e => drain_one amb h scope ttl_ms lookup publish execute (n, p) = ((n', p3), Err e)
      end
  end.
Proof.
  intros Hq Hok He Hne Hreap Hclaim Hwf Hv Hlk Hex Hset Hat.
  assert (Hok1 : plane_ok p1).
  { pose proof (s_reap p h QUEUE_CLAIM_SCOPE (qs_package_ids scope) (qs_environment scope)
      PRODUCTION_JANITOR_GRACE_MS (amb_locked amb n) (amb_now amb n) (amb_at amb n)) as Hs.
    rewrite Hreap in Hs. by eapply evolves_ok, store_step_evolves. }
  destruct (claim_next_inv _ _ _ _ _ _ _ _ _ _ _ Hclaim)
    as (env' & runner & r0 & r & q & q' & He' & Hr & Hmem & _ & Hdec & Hg).
  rewrite He in He'. injection He' as <-.
  assert (Hok2 : plane_ok p2).
  { pose proof (s_claim p1 h QUEUE_CLAIM_SCOPE (qs_package_ids scope) (qs_environment scope) ttl_ms
      (amb_locked amb (S n)) None (amb_now amb (S n))) as Hs.
    rewrite Hclaim in Hs. by eapply evolves_ok, store_step_evolves. }
  destruct (decoded_workflow_detached _ _ _ _ Hdec ltac:(by rewrite Hwf)) as [Hdet Hdur]. rewrite Hdet in Hset.
  pose proof (gr_run' _ _ _ _ _ _ _ _ _ _ _ _ _ _ _ Hg) as Hrun. exists r. split; [done|].
  pose proof (heartbeats_runs amb h beats (sc_run_id sc) g ttl_ms Hq (S (S n)) p2) as Hsame.
  rewrite (quiet_turn amb h scope ttl_ms lookup publish execute n p p1 p2 reaped sc g w c) by done. rewrite Hdur.
  destruct (heartbeats amb h beats (sc_run_id sc) g ttl_ms (S (S n), p2)) as [[n' p3] [[|]|e]] eqn:Hhb; (split; [done|]).
  - destruct (heartbeats_keep_lease amb h env runner _ _ _ _ _ _ _ _ _ Hq He Hr
      (granted_held _ _ _ _ _ _ _ _ _ _ _ _ _ _ _ Hne Hg) Hok2 Hhb) as (_ & Hh & Hok3).
    assert (Hsrc : durable_source (p_trigger_source (r_pins r)) = false).
    { rewrite (gr_pins _ _ _ _ _ _ _ _ _ _ _ _ _ _ _ Hg), <- Hdur. by eapply decoded_durable. }
    destruct (drive_quiet amb h env runner (sc_run_id sc) g ttl_ms (S (S n)) p2 r (run_request scope sc w c)
      (sc_package_id sc) publish execute beats delivery n' p3 Hq He Hr Hmem (granted_positive _ _ _ _ _ _ _ _ _ _ _ _ _ _ _ Hok1 Hg)
      Hex Hhb Hok3 Hh Hsrc (λ i, Hat r i Hrun) Hset) as (n4 & p4 & res & E & Hend). by rewrite E.
  - unfold mbind, exec_bind, drive_claim. rewrite Hex. unfold mbind, exec_bind. by rewrite Hhb.
  - unfold mbind, exec_bind, drive_claim. rewrite Hex. unfold mbind, exec_bind. by rewrite Hhb.
Qed.

End Theorems.

(** ** The serving loop *)

Section ServeProps.
Context {S : Type} (turn : S → S * option bool) (backlog : S → S * option bool).

(** The state after [n] turns before the stop, and after [j] turns of the drain. *)
Definition after_turns (n : nat) (s : S) : S := Nat.iter n (λ s, (turn s).1) s.
Definition after_drains (j : nat) (s : S) : S := Nat.iter j (λ s, (turn (backlog s).1).1) s.

Lemma iter_front {A} (f : A → A) n (x : A) : Nat.iter n f (f x) = f (Nat.iter n f x).
Proof. by rewrite <- Nat.iter_succ_r. Qed.

Lemma drain_turns fuel j s :
  (∀ i, (i < j)%nat → (backlog (after_drains i s)).2 ≠ Some false) →
  (backlog (after_drains j s)).2 = Some false → (j < fuel)%nat →
  drain turn backlog fuel s = Some (backlog (after_drains j s)).1.
Proof.
  revert j s. induction fuel as [|fuel IH]; [lia|]. intros j s Hbefore Hat Hf. simpl.
  destruct j as [|j].
  { unfold after_drains in *. simpl in *. destruct (backlog s) as [s1 r]. simpl in *. by subst. }
  pose proof (Hbefore O ltac:(lia)) as H0. unfold after_drains in H0. simpl in H0.
  assert (E : ∀ i, after_drains i (turn (backlog s).1).1 = after_drains (Datatypes.S i) s).
  { intros i. unfold after_drains. simpl. apply (iter_front (λ s, (turn (backlog s).1).1)). }
  rewrite <- E. destruct (backlog s) as [s1 r] eqn:Eb. simpl in *.
  assert (drain turn backlog fuel (turn s1).1 =
    Some (backlog (after_drains j (turn s1).1)).1) as IHj.
  { apply IH; [|by rewrite E|lia]. intros i Hi. rewrite E. apply (Hbefore (Datatypes.S i)). lia. }
  destruct r as [[|]|]; done.
Qed.

End ServeProps.

(** Shutdown drains: when the stop is first seen before turn [n], the loop
    has taken exactly [n] turns, and it goes on taking a turn after every
    backlog read that reports a pinned run (or fails), however those turns end;
    it returns at the first read that reports none, so it never leaves a run
    pinned to its release behind and never claims again once there is none. *)
Theorem serve_queue_drains {S : Type} (turn : S → S * option bool) (backlog : S → S * option bool)
    (stopping : nat → bool) (n j fuel : nat) (s : S) :
  (∀ i, (i < n)%nat → stopping i = false) → stopping n = true →
  (∀ i, (i < j)%nat → (backlog (after_drains turn backlog i (after_turns turn n s))).2 ≠ Some false) →
  (backlog (after_drains turn backlog j (after_turns turn n s))).2 = Some false →
  (n + j < fuel)%nat →
  serve_queue turn backlog fuel stopping s =
    Some (backlog (after_drains turn backlog j (after_turns turn n s))).1.
Proof.
  revert fuel stopping s. induction n as [|n IH]; intros fuel stopping s Hrun Hstop Hb Ha Hf;
    (destruct fuel as [|fuel]; [lia|]); cbn [serve_queue].
  - rewrite Hstop. by apply (drain_turns turn backlog (Datatypes.S fuel)).
  - rewrite (Hrun O) by lia.
    assert (E : after_turns turn (Datatypes.S n) s = after_turns turn n (turn s).1).
    { unfold after_turns. simpl. symmetry. apply (iter_front (λ s, (turn s).1)). }
    rewrite E in *. apply IH; try done; [|lia]. intros i Hi. apply Hrun. lia.
Qed.

(** Two pinned runs, the first leased elsewhere when the drain begins: three
    turns. *)
Lemma serve_queue_drains_witness :
  serve_queue (λ s : nat * nat, ((Nat.pred s.1 + (if (s.2 =? 0)%nat then 1 else 0), S s.2)%nat, Some true))
    (λ s, (s, Some (0 <? s.1)%nat)) 10 (λ _, true) (2, 0)%nat = Some (0, 3)%nat.
Proof.
  apply (serve_queue_drains (λ s : nat * nat,
      ((Nat.pred s.1 + (if (s.2 =? 0)%nat then 1 else 0), S s.2)%nat, Some true))
    (λ s, (s, Some (0 <? s.1)%nat)) (λ _, true) 0 3 10 (2, 0)%nat); [lia|reflexivity| |reflexivity|lia].
  intros i Hi. do 3 (destruct i as [|i]; [discriminate|]). lia.
Defined.
