(* ===== verification/StoreSample.v ===== *)
(** * The run store at concrete inputs

    One tenant, one host and one workflow: a manual start, a first claim, a
    reclaim after the lease expired, a completion.  The planes are computed by
    the store's own operations from empty tables; each lemma applies a theorem
    of [StoreProps], [ClaimProps], [WorkflowProps] or [Executor] to them. *)

From stdpp Require Import base tactics option list gmap strings relations.
From Stdlib Require Import ZArith Lia.
From S2P Require Import Prelude Json Canonical RunStatus RunStore Queue RunPlane ClaimStore PlaneSpec.
From S2P Require Import ClaimRefines Workflows StoreProps ClaimProps WorkflowProps.
From S2P Require Import Router Walk Route Authority Driver Executor.
#[local] Set Warnings "-clear-no-such-hyp".
Open Scope Z_scope.

(** ** The parameters *)

Definition release_1 : string := "sha256:0101010101010101010101010101010101010101010101010101010101010101".
Definition wiring_hash_1 : string := "sha256:0a0a0a0a0a0a0a0a0a0a0a0a0a0a0a0a0a0a0a0a0a0a0a0a0a0a0a0a0a0a0a0a".

#[local] Instance any_json : Jsonb := Some.
#[local] Instance bytewise : Collation := byte_order.
#[local] Instance no_floats : FloatText := λ _, "0.0".
#[local] Instance length_digest : Sha256 :=
  λ s, replicate 32 (Ascii.ascii_of_N (N.of_nat (String.length s))).
#[local] Instance any_world : BindingWorlds := Ok.
#[local] Instance no_checks : AdmissionChecks := λ _, None.
#[local] Instance same_json : JsonbEq := value_eqb.
#[local] Instance one_catalog : WorkflowCatalog := {
  graph := unit; manifest := unit;
  parse_graph := λ _, Ok tt; from_canonical_bytes := λ _, Ok tt;
  gate_workflow_document := λ _ _ _ _, Ok wiring_hash_1;
  resolve_workflow_components := λ _ _ _ _, Ok [("load", "sha256:c")];
  workflow_user_id := "workflow";
}.

(** ** The host and the planes *)

Definition host : Host := {|
  env_key_for _ := Some "tenant"; runner_for _ := Some "runner-1";
  release_identity_for _ := Some release_1; executor_member := true |}.

Definition binds (k : string) (input : Value) : WorkflowBinds := {|
  w_package_id := "app"; w_manifest_digest := release_1; w_environment := "prod";
  w_wiring_id := "orders"; w_wiring_version := 3; w_wiring_hash := wiring_hash_1;
  w_principal_id := "workflow"; w_role := "admin";
  w_node_digests := VObject [("load", VString "sha256:c")];
  w_idempotency_key := k; w_input := input |}.

Definition none_locked (_ : string) : bool := false.
Definition start_run (id k : string) (now : Z) (p : Plane) :=
  transact (admit_manual_run host "tenant" (Some Standard) id "user" (binds k (VBool true)) now) p.
Definition claim_run (now : Z) (p : Plane) :=
  claim_next host "executor" ["app"] "prod" 1000 none_locked None now p.

Definition one_run : Plane := (start_run "run-1" "key-1" 100 empty_plane).1.
Definition two_runs : Plane := (start_run "run-2" "key-2" 150 one_run).1.
Definition claimed_plane : Plane := (claim_run 200 two_runs).1.
(** The one-second lease expired: the same run is claimed again. *)
Definition reclaimed_plane : Plane := (claim_run 1000200 claimed_plane).1.
Definition finished_plane : Plane :=
  (complete host "executor" "run-1" 2 (completed VNull None) 1000300 reclaimed_plane).1.

Lemma one_run_step : store_step empty_plane one_run.
Proof. apply s_manual. Defined.
Lemma two_runs_step : store_step one_run two_runs.
Proof. apply s_manual. Defined.
Lemma claimed_step : store_step two_runs claimed_plane.
Proof. apply s_claim. Defined.
Lemma reclaimed_step : store_step claimed_plane reclaimed_plane.
Proof. apply s_claim. Defined.
Lemma finished_step : store_step reclaimed_plane finished_plane.
Proof. apply s_completed. Defined.

Lemma reclaimed_reached : rtc store_step empty_plane reclaimed_plane.
Proof.
  eapply rtc_l; [apply one_run_step|]. eapply rtc_l; [apply two_runs_step|].
  eapply rtc_l; [apply claimed_step|]. apply rtc_once, reclaimed_step.
Qed.

Lemma one_run_ok : plane_ok one_run.
Proof. eapply store_steps_evolve; [apply empty_plane_ok|apply rtc_once, one_run_step]. Qed.
Lemma two_runs_ok : plane_ok two_runs.
Proof. eapply store_steps_evolve; [apply one_run_ok|apply rtc_once, two_runs_step]. Qed.
Lemma claimed_ok : plane_ok claimed_plane.
Proof. eapply store_steps_evolve; [apply two_runs_ok|apply rtc_once, claimed_step]. Qed.
Lemma reclaimed_ok : plane_ok reclaimed_plane.
Proof. eapply store_steps_evolve; [apply empty_plane_ok|apply reclaimed_reached]. Qed.
Lemma finished_ok : plane_ok finished_plane.
Proof. eapply store_steps_evolve; [apply reclaimed_ok|apply rtc_once, finished_step]. Qed.

(** What the planes hold. *)
Example claimed_queue :
  (λ q, (q_lease_generation q, q_attempts q, q_lease_expires_at q)) <$>
    (queue claimed_plane !! ("tenant", "run-1")) = Some (1, 0, Some 1000200).
Proof. vm_compute. reflexivity. Qed.
Example reclaimed_queue :
  (λ q, (q_lease_generation q, q_attempts q)) <$>
    (queue reclaimed_plane !! ("tenant", "run-1")) = Some (2, 1).
Proof. vm_compute. reflexivity. Qed.
Example finished_row :
  (r_status <$> (runs finished_plane !! ("tenant", "run-1")), queue finished_plane !! ("tenant", "run-1"))
    = (Some RunCompleted, None).
Proof. vm_compute. reflexivity. Qed.

(** ** The theorems at these planes *)

Lemma store_refines_witness : evolves two_runs claimed_plane ∧ plane_ok claimed_plane.
Proof. apply store_refines; [apply two_runs_ok|apply claimed_step]. Defined.

Lemma run_plane_invariant_witness : plane_ok claimed_plane.
Proof.
  apply run_plane_invariant. eapply rtc_l; [left; apply one_run_step|].
  eapply rtc_l; [left; apply two_runs_step|]. apply rtc_once. left. apply claimed_step.
Defined.

Abbreviation first_key := ("tenant", "run-1").
Definition row_at (p : Plane) (k : key) : RunRow :=
  default (admitted_row (workflow_pins (binds "" VNull) "" None None None None None None None 0))
    (runs p !! k).
Definition queue_at (p : Plane) (k : key) : QueueRow := default (fresh_queue_row 0) (queue p !! k).

Lemma finished_runs_stand_witness :
  ∃ r', runs (start_run "run-3" "key-3" 1000400 finished_plane).1 !! first_key = Some r' ∧
    r_pins r' = r_pins (row_at finished_plane first_key) ∧
    (is_Some (c_released_at (r_caller (row_at finished_plane first_key))) →
       r_caller r' = r_caller (row_at finished_plane first_key)) ∧
    (run_terminal (r_status (row_at finished_plane first_key)) = true →
       r' = row_at finished_plane first_key ∧
       queue (start_run "run-3" "key-3" 1000400 finished_plane).1 !! first_key = None).
Proof.
  apply (finished_runs_stand finished_plane); [apply finished_ok|apply rtc_once, s_manual|].
  vm_compute. reflexivity.
Defined.

(** The first claim (generation 1) was superseded by the second. *)
Lemma stale_claim_fenced_witness :
  (∀ c at_us, (complete host "executor" "run-1" 1 c at_us finished_plane).1 = finished_plane ∧
      (complete host "executor" "run-1" 1 c at_us finished_plane).2 ≠ Ok Terminalized) ∧
  (∀ ttl now, (renew host "executor" "run-1" 1 ttl now finished_plane).1 = finished_plane ∧
      (renew host "executor" "run-1" 1 ttl now finished_plane).2 ≠ Ok Renewed) ∧
  (∀ now u at_us, (release_claim host "executor" "run-1" 1 now u at_us finished_plane).1 = finished_plane ∧
      (release_claim host "executor" "run-1" 1 now u at_us finished_plane).2 ≠ Ok true) ∧
  (∀ v, (record_deadline_adjustments host "executor" "run-1" 1 v finished_plane).1 = finished_plane ∧
      (record_deadline_adjustments host "executor" "run-1" 1 v finished_plane).2 ≠ Ok true).
Proof.
  apply (stale_claim_fenced host "executor" "tenant" "run-1" 1 reclaimed_plane);
    [reflexivity|apply reclaimed_ok| |apply rtc_once, finished_step].
  left. exists (queue_at reclaimed_plane first_key). split; vm_compute; reflexivity.
Defined.

#[local] Instance bytewise_laws : CollationLaws.
Proof. split; [apply String.leb_total|apply string_leb_trans]. Qed.

(** The turn that claimed the first run, taken apart. *)
Lemma claim_next_grants_witness :
  ∃ sc g env runner r r' q q',
    claim_run 200 two_runs = (claimed_plane, Ok (ClaimReady sc g)) ∧
    granted two_runs claimed_plane env runner (sc_run_id sc) ["app"] "prod" (Some release_1)
      1000 200 g r r' q q' ∧
    (∀ id r2 q2, runs two_runs !! (env, id) = Some r2 → queue two_runs !! (env, id) = Some q2 →
       claimable ["app"] "prod" (Some release_1) 200 r2 q2 → none_locked id = false →
       not_after q q2).
Proof.
  assert (∃ sc g, claim_run 200 two_runs = (claimed_plane, Ok (ClaimReady sc g)))
    as (sc & g & E) by (do 2 eexists; vm_compute; reflexivity).
  destruct (claim_next_grants host "executor" ["app"] "prod" 1000 none_locked 200
              two_runs claimed_plane sc g E) as (env & runner & r & r' & q & q' & _ & _ & Hg & Hf & _).
  exists sc, g, env, runner, r, r', q, q'. auto.
Defined.

(** Over the two queued runs the plan takes the first, and the statement selects it. *)
Lemma claim_follows_plan_witness :
  fst <$> (fst <$> select_production_claim_sql two_runs "tenant" none_locked ["app"] "prod" (Some release_1) 200) =
    Some "run-1" ∧
  cl_run_id <$> head (plan_claim (candidates two_runs "tenant" none_locked ["app"] "prod" (Some release_1)) 200 1 1000) =
    Some "run-1".
Proof.
  destruct (claim_follows_plan two_runs "tenant" none_locked ["app"] "prod" (Some release_1) 200 1000) as [_ E].
  cbn zeta in E. split; [|rewrite <- E]; by vm_compute.
Defined.

Lemma claim_next_progress_witness :
  ∃ p' sc g, claim_next host "executor" ["app"] "prod" 1000 none_locked None 300 one_run =
    (p', Ok (ClaimReady sc g)).
Proof.
  apply (claim_next_progress host "executor" "tenant" "runner-1" ["app"] "prod" 1000 none_locked
           300 one_run "run-1" (row_at one_run first_key) (queue_at one_run first_key));
    try reflexivity; try apply one_run_ok; try lia; [by apply claim_predicate_spec|].
  intros id2 r2 q2 Hr _ _.
  assert (id2 = "run-1") as ->.
  { destruct (decide (id2 = "run-1")) as [|Hne]; [done|].
    change (runs one_run) with (<[first_key := row_at one_run first_key]> (∅ : gmap key RunRow)) in Hr.
    rewrite lookup_insert_ne in Hr by congruence. done. }
  assert (r2 = row_at one_run first_key) as -> by (vm_compute in Hr; injection Hr; auto).
  destruct (bool_decide _); vm_compute; reflexivity.
Defined.

(** The grant of the first run is refused: nothing changed, it is still first. *)
Lemma grant_refusal_commits_witness :
  claim_next host "executor" ["app"] "prod" 1000 none_locked (Some "refused") 200 two_runs =
    (two_runs, Err (claim_error Storage "grant production lease" "refused")).
Proof.
  assert (∃ sc, decode_selected_claim "run-1"
    (bool_decide (is_Some (q_lease_expires_at (queue_at two_runs first_key)))) (row_at two_runs first_key)
    = Ok sc) as [sc E] by (eexists; vm_compute; reflexivity).
  assert (Hs : first_unlocked none_locked (claim_predicate ["app"] "prod" (Some release_1) 200)
    two_runs "tenant" = Some ("run-1", (row_at two_runs first_key, queue_at two_runs first_key)))
    by (vm_compute; reflexivity).
  destruct (grant_refusal_commits host "executor" "tenant" "runner-1" ["app"] "prod" 1000 none_locked
    "refused" 200 two_runs "run-1" (row_at two_runs first_key) (queue_at two_runs first_key) sc
    eq_refl eq_refl ltac:(lia) eq_refl eq_refl eq_refl two_runs_ok Hs E) as [E1 E2].
  rewrite E1. rewrite E2 by (vm_compute; reflexivity). reflexivity.
Defined.

(** A spent run: its budget used up, its lease long past. *)
Definition spent_queue : QueueRow := {|
  q_available_at := At 100; q_stream_seq := 0; q_lease_owner := Some "runner-1";
  q_lease_expires_at := Some 500; q_lease_generation := 20; q_attempts := 20;
  q_max_attempts := 20 |}.
Definition spent_row : RunRow := set_running (row_at one_run first_key).
Definition spent_plane : Plane :=
  {| runs := {[ first_key := spent_row ]}; queue := {[ first_key := spent_queue ]} |}.

Lemma reap_follows_janitor_witness :
  exhausted_predicate 0 ["app"] "prod" 600 spent_row spent_queue =
    in_scope ["app"] "prod" spent_row && runnable (r_status spent_row) &&
    bool_decide (janitor_verdict (entry_of "tenant" ("run-1", (spent_row, spent_queue))) 600
                   (us_of_ms 0) = Orphaned) ∧
  (exhausted_predicate 0 ["app"] "prod" 600 spent_row spent_queue &&
     claim_predicate ["app"] "prod" (Some release_1) 600 spent_row spent_queue = false).
Proof.
  apply reap_follows_janitor; [|lia]. intros t [= <-]. vm_compute. split; discriminate.
Defined.

Lemma reap_retires_witness :
  ∃ p' env r q r' t,
    reap_exhausted host "executor" ["app"] "prod" 0 none_locked 600 600 spent_plane =
      (p', Ok (Reaped "run-1")) ∧
    runs spent_plane !! (env, "run-1") = Some r ∧ queue spent_plane !! (env, "run-1") = Some q ∧
    q_lease_expires_at q = Some t ∧ t + us_of_ms 0 ≤ 600 ∧
    retired r r' "run-1" InfrastructureFailure "infrastructure-failure" 600 ∧
    p' = {| runs := <[(env, "run-1") := r']> (runs spent_plane);
            queue := delete (env, "run-1") (queue spent_plane) |}.
Proof.
  assert (∃ p', reap_exhausted host "executor" ["app"] "prod" 0 none_locked 600 600 spent_plane =
    (p', Ok (Reaped "run-1"))) as [p' E] by (eexists; vm_compute; reflexivity).
  destruct (reap_retires host "executor" ["app"] "prod" 0 none_locked 600 600 spent_plane p' "run-1" E)
    as (env & r & q & r' & t & ? & ? & ? & ? & ? & ? & ? & ? & ? & ?).
  exists p', env, r, q, r', t. auto 10.
Defined.

(** ** Completions *)

Lemma reclaimed_held :
  held reclaimed_plane "tenant" "run-1" "runner-1" 2 (row_at reclaimed_plane first_key).
Proof.
  constructor; [done|vm_compute; reflexivity|vm_compute; reflexivity|].
  exists (queue_at reclaimed_plane first_key). split_and!; vm_compute; reflexivity.
Qed.

Lemma complete_records_witness :
  complete host "executor" "run-1" 2 (completed (VBool true) None) 1000300 reclaimed_plane =
    ({| runs := <[first_key := completed_row (completed (VBool true) None)
                    (row_at reclaimed_plane first_key) 1000300]> (runs reclaimed_plane);
        queue := delete first_key (queue reclaimed_plane) |}, Ok Terminalized).
Proof.
  apply (complete_records host "executor" "tenant" "runner-1");
    [reflexivity..|lia|apply reclaimed_ok|apply reclaimed_held|].
  constructor; [reflexivity|by eexists|vm_compute; discriminate|discriminate|].
  intros _ _. left. vm_compute. reflexivity.
Defined.

(** A run of an HTTP caller that was already answered. *)
Definition answer : ProductionCallerOutcome := responded (VBool true) 200 "answer".
Definition stored_answer : StoredCallerOutcome := {|
  so_type := KResponded; so_body := VBool true; so_http_status := Some 200;
  so_release_node_id := Some "answer"; so_hash := Some (canonical_json_sha256 (VBool true)) |}.
Definition answered_row : RunRow :=
  set_caller {| c_outcome_type := Some KResponded; c_outcome_json := Some (VBool true);
                c_http_status := Some 200; c_release_node_id := Some "answer";
                c_outcome_hash := Some (canonical_json_sha256 (VBool true));
                c_released_at := Some 300 |} 300 spent_row.
Definition answered_plane : Plane :=
  {| runs := {[ first_key := answered_row ]}; queue := {[ first_key := spent_queue ]} |}.

Lemma complete_conflict_witness :
  complete host "executor" "run-1" 20
    (completed (VBool false) (Some (responded (VBool false) 200 "answer"))) 400 answered_plane =
  (answered_plane, Err (claim_error Contract "release production caller"
                          "production-caller-outcome-conflict")).
Proof.
  apply (complete_conflict host "executor" "tenant" "runner-1" "run-1" 20 _
           (responded (VBool false) 200 "answer") 400 answered_plane answered_row stored_answer);
    try reflexivity; try lia.
  - constructor; [done|reflexivity|reflexivity|]. exists spent_queue. auto.
  - by eexists.
Defined.

(** ** Releases, parks and restarts *)

Lemma release_claim_outcome_witness :
  ∃ p' env r q, release_claim host "executor" "run-1" 2 1000250 0 1000250 reclaimed_plane = (p', Ok true) ∧
    runs reclaimed_plane !! (env, "run-1") = Some r ∧
    queue reclaimed_plane !! (env, "run-1") = Some q ∧ q_lease_generation q = 2.
Proof.
  assert (∃ p', release_claim host "executor" "run-1" 2 1000250 0 1000250 reclaimed_plane =
    (p', Ok true)) as [p' E] by (eexists; vm_compute; reflexivity).
  destruct (release_claim_outcome host "executor" "run-1" 2 1000250 0 1000250 reclaimed_plane p'
              reclaimed_ok ltac:(lia) E) as (env & r & q & ? & ? & ? & ? & _).
  exists p', env, r, q. auto.
Defined.

Definition parked_plane : Plane := (park "tenant" "prod" "run-1" 180 two_runs).1.

Lemma park_holds_witness :
  ∃ r q, runs parked_plane !! first_key = Some r ∧ r_status r = Dispatched ∧
    queue parked_plane !! first_key = Some q ∧ q_available_at q = Infinity ∧
    q_lease_expires_at q = None ∧
    (∀ pk e2 d now2, claim_predicate pk e2 d now2 r q = false) ∧
    (∀ grace pk e2 now2, exhausted_predicate grace pk e2 now2 r q = false) ∧
    (∀ now2, release "tenant" "prod" "run-1" now2 parked_plane =
       (set_queue (<[first_key := with_available (At now2) q]> (queue parked_plane)) parked_plane,
        Ok tt)).
Proof.
  apply (park_holds "tenant" "prod" "run-1" 180 two_runs parked_plane two_runs_ok).
  vm_compute. reflexivity.
Defined.

(** A restart under the first key, after the first run was claimed. *)
Lemma manual_start_idempotent_witness :
  transact (admit_manual_run host "tenant" (Some Standard) "run-9" "user-2"
              (binds "key-1" (VBool true)) 900) claimed_plane = (claimed_plane, Ok (Queued "run-1")) ∧
  transact (admit_manual_run host "tenant" (Some Standard) "run-9" "user-2"
              (binds "key-1" VNull) 900) claimed_plane = (claimed_plane, Ok Conflict).
Proof.
  assert (Hs : rtc store_step one_run claimed_plane).
  { eapply rtc_l; [apply two_runs_step|]. apply rtc_once, claimed_step. }
  assert (Hrestart : ∀ input, transact (admit_manual_run host "tenant" (Some Standard) "run-9"
      "user-2" (binds "key-1" input) 900) claimed_plane =
    (claimed_plane, Ok (if jsonb_eq (VBool true) input then Queued "run-1" else Conflict))).
  { intros input.
    destruct (manual_start_idempotent host host "tenant" "run-1" "run-9" "user" "user-2" (Some Standard)
             (Some Standard) (binds "key-1" (VBool true)) (binds "key-1" input) (binds "key-1" input) 100 900
             empty_plane one_run claimed_plane "run-1") as (b & Hb & E);
      [apply empty_plane_ok|reflexivity|vm_compute; reflexivity|exact Hs|reflexivity|reflexivity|by eexists|reflexivity|reflexivity|].
    injection Hb as <-. exact E. }
  split; rewrite Hrestart; reflexivity.
Defined.

(** Ten days later the finished run is pruned; the second stays queued. *)
Lemma prune_exact_witness :
  (prune "tenant" 7 (10 * us_per_day) true finished_plane).2 = 1%nat ∧
  queue (prune "tenant" 7 (10 * us_per_day) true finished_plane).1 = queue finished_plane.
Proof.
  destruct (prune_exact "tenant" 7 (10 * us_per_day) finished_plane finished_ok)
    as (_ & Hq & Hn & _).
  split; [|exact Hq]. rewrite Hn. vm_compute. reflexivity.
Defined.

(** ** Queue turns *)

Definition quiet_ambient : Ambient := {|
  amb_others _ p := p; amb_now n := 300 + Z.of_nat n; amb_at n := 300 + Z.of_nat n;
  amb_random _ := 0; amb_locked _ := none_locked; amb_grant_error _ := None |}.
Definition queue_scope : QueueScope := {|
  qs_env_key := "tenant"; qs_project := "project"; qs_package_ids := ["app"];
  qs_environment := "prod" |}.
Definition clerk : AuthenticatedCaller := DriverSample.orders_caller.
Definition discarded : RouterDelivery := {|
  rd_wiring_version := 3; rd_graph_hash := "h"; rd_adjustments := [];
  rd_outcome := {| o_status := Completed; o_result := VBool true; o_failure := None; o_hops := 2;
                   o_verdict := Some Discard |} |}.
(** One heartbeat falls due before the delivery ends. *)
Definition executed (_ : WorkflowRunRequest) :
    nat * result RouterDelivery (DriverError * list DeadlineAdjustment) := (1%nat, Ok discarded).
Definition a_turn (amb : Ambient) :=
  drain_one amb host queue_scope 1000 (λ _ _, CallerFound clerk) (λ _, true) executed.

(** The turn completes the first run and leaves the second. *)
Lemma queue_turn_settles_witness :
  (a_turn quiet_ambient (0%nat, two_runs)).2 = Ok true ∧
  r_status <$> (runs (a_turn quiet_ambient (0%nat, two_runs)).1.2 !! first_key) = Some RunCompleted ∧
  queue (a_turn quiet_ambient (0%nat, two_runs)).1.2 !! first_key = None.
Proof.
  assert (∃ p1 p2 p3 sc g w,
    reap_exhausted host QUEUE_CLAIM_SCOPE ["app"] "prod" PRODUCTION_JANITOR_GRACE_MS none_locked
      300 300 two_runs = (p1, Ok ReapEmpty) ∧
    claim_next host QUEUE_CLAIM_SCOPE ["app"] "prod" 1000 none_locked None 301 p1 =
      (p2, Ok (ClaimReady sc g)) ∧
    sc_workflow sc = Some w ∧ 0 ≤ sc_wiring_version sc ≤ u32_max ∧
    sc_router_caller_attached sc = false ∧ sc_run_id sc = "run-1" ∧
    heartbeats quiet_ambient host 1 (sc_run_id sc) g 1000 (2%nat, p2) = ((3%nat, p3), Ok true) ∧
    runs p2 !! first_key = Some (row_at p2 first_key) ∧
    p_created_at (r_pins (row_at p2 first_key)) = 100)
    as (p1 & p2 & p3 & sc & g & w & E1 & E2 & E3 & E4 & E5 & E6 & E7 & E8 & E9).
  { do 6 eexists. do 3 (split; [vm_compute; reflexivity|]).
    split; [vm_compute; split; discriminate|]. split_and!; vm_compute; reflexivity. }
  assert (Hset : ∀ d, Ok (E := DriverError * list DeadlineAdjustment) discarded = Ok d →
    settles (sc_router_caller_attached sc) (rd_outcome d)).
  { intros d [= <-]. rewrite E5. constructor; [reflexivity|discriminate|by eexists|discriminate|reflexivity]. }
  assert (Hat : ∀ r i, runs p2 !! ("tenant", sc_run_id sc) = Some r →
    p_created_at (r_pins r) ≤ amb_at quiet_ambient i).
  { intros r i. rewrite E6, E8. intros [= <-]. rewrite E9. simpl. lia. }
  assert (Hquiet : quiet quiet_ambient) by (split; reflexivity).
  assert (Hne : "tenant"%string ≠ "") by discriminate.
  destruct (queue_turn_settles quiet_ambient host queue_scope 1000 (λ _ _, CallerFound clerk)
    (λ _, true) executed 0 1 two_runs p1 p2 ReapEmpty sc g w clerk (Ok discarded) "tenant"
    Hquiet two_runs_ok eq_refl Hne E1 E2 E3 E4 eq_refl eq_refl Hset Hat) as (r & _ & Hend).
  rewrite E7 in Hend. destruct Hend as [_ Hend]. clear - Hend E6. unfold a_turn. revert Hend.
  generalize (drain_one quiet_ambient host queue_scope 1000 (λ _ _, CallerFound clerk)
    (λ _, true) executed (0%nat, two_runs)).
  intros [[n4 p4] res] Hend. simpl in Hend |- *. rewrite E6 in Hend.
  inversion Hend as [w0 p' res' _ Hw Hs|? ? ? ? Hadj|Hadj]; [|by destruct Hadj..]. subst.
  inversion Hw as [d c Ha|d event dd ent op Ha|d event dd ent op Ha|d Ha|e0 adj0|e0 adj0]; subst; unfold action_spec in Ha; simpl in Ha;
    try discriminate. injection Ha as ->.
  inversion Hs as [|c Hj|c Hj|]; subst; [|discriminate]. unfold recorded. simpl.
  rewrite lookup_insert_eq, lookup_delete_eq. auto.
Defined.
