(* ===== verification/Intents.v ===== *)
(** * The intent log: one record per idempotent call

    The vocabulary of [crates/execution/run-state/src/intent_store.rs] and
    [operator_action.rs], the interface [IntentStore] as a class with the laws
    every store keeps ([intent_cases.rs] states them as cases), and what the laws
    give of a history of store calls.  The stores are in [IntentStores], the caller
    in [LoggedCall], and the histories of the caller over the stores in
    [IntentCalls]. *)

From stdpp Require Import base tactics option list gmap strings.
From Stdlib Require Import ZArith Lia.
From S2P Require Import Prelude Text Json RunStatus.
#[local] Set Warnings "-clear-no-such-hyp".

(** ** Vocabulary *)

Record Intent := {
  it_tenant : string;
  it_release : string;
  it_package : string;
  it_operation : string;
  it_idempotency_key : string;
  it_input_hash : string;
  it_deadline_ms : Z;  (* u64 *)
}.

Definition IntentId := string.

Inductive Begun :=
| BNew (id : IntentId)
| BFinished (outcome : Value)
| BUncertain (id : IntentId)
| BResolved (id : IntentId) (basis : OperatorActionBasis)
| BConflict (id : IntentId).

Record UncertainIntent := {
  un_id : IntentId;
  un_tenant : string;
  un_release : string;
  un_package : string;
  un_operation : string;
  un_idempotency_key : string;
}.

Inductive StoreErrorType := StorageError | ContractError.

(** The storage trait.  Every call takes the store and returns it. *)
Class IntentStore (S : Type) := {
  begin_intent : S → Intent → S * result Begun StoreErrorType;
  finish_intent : S → IntentId → Value → S * result unit StoreErrorType;
  release_intent : S → IntentId → S * result unit StoreErrorType;
  uncertain_intents : S → Z → S * result (list UncertainIntent) StoreErrorType;
  resolve_intent : S → IntentId → OperatorActionBasis → S * result unit StoreErrorType;
}.

(** ** What a store promises *)

Inductive IntentState :=
| IOpen
| IFinished (text : string)
| IResolved (basis : OperatorActionBasis).

Record IntentRecord := { in_hash : string; in_state : IntentState }.

(** The scope of a key (a tenant or an operation), and the key. *)
Abbreviation Key := (string * string)%type.
Abbreviation IntentLog := (gmap (string * string) IntentRecord).

(** What a begin answers from the record of its key. *)
Definition begin_answer `{JsonText} (named : IntentId → Prop) (r : IntentRecord) (hash : string)
    (answer : result Begun StoreErrorType) : Prop :=
  if String.eqb (in_hash r) hash then
    match in_state r with
    | IOpen => ∃ id, named id ∧ answer = Ok (BUncertain id)
    | IFinished text => answer = match parse_json text with
                                 | Some v => Ok (BFinished v)
                                 | None => Err ContractError
                                 end
    | IResolved b => ∃ id, named id ∧ answer = Ok (BResolved id b)
    end
  else ∃ id, named id ∧ answer = Ok (BConflict id).

Definition set_state (st : IntentState) (r : IntentRecord) : IntentRecord :=
  {| in_hash := in_hash r; in_state := st |}.

(** The open record an id names. *)
Definition open_at (log : IntentLog) (named : option Key) (k : Key) (r : IntentRecord) : Prop :=
  named = Some k ∧ log !! k = Some r ∧ in_state r = IOpen.

(** A call that closes an open record, or is refused and changes nothing. *)
Definition closes (log log' : IntentLog) (named : option Key) (update : Key → IntentRecord → IntentLog)
    (answer : result unit StoreErrorType) : Prop :=
  (∃ k r, open_at log named k r ∧ answer = Ok tt ∧ log' = update k r) ∨
  ((∀ k r, ¬ open_at log named k r) ∧ answer = Err ContractError ∧ log' = log).

(** The contract: [intents] reads a store as a log, [named] the key an id names. *)
Class IntentLaws (S : Type) `{JsonPrint, JsonText, !IntentStore S} := {
  intents : S → IntentLog;
  named : S → IntentId → option Key;
  key_of : Intent → Key;
  store_ok : S → Prop;
  accepts : S → Intent → Prop;
  named_present s id k : store_ok s → named s id = Some k → is_Some (intents s !! k);
  begin_law s i : store_ok s → accepts s i →
    ∃ s' answer, begin_intent s i = (s', answer) ∧ store_ok s' ∧
      (∀ id k, named s id = Some k → named s' id = Some k) ∧
      match intents s !! key_of i with
      | None => intents s' = <[key_of i := {| in_hash := it_input_hash i; in_state := IOpen |}]> (intents s) ∧
          ∃ id, named s' id = Some (key_of i) ∧ answer = Ok (BNew id)
      | Some r => intents s' = intents s ∧
          begin_answer (λ id, named s' id = Some (key_of i)) r (it_input_hash i) answer
      end;
  finish_law s id v : store_ok s →
    ∃ s' answer, finish_intent s id v = (s', answer) ∧ store_ok s' ∧
      (∀ id', named s' id' = named s id') ∧
      closes (intents s) (intents s') (named s id)
        (λ k r, <[k := set_state (IFinished (print_json v)) r]> (intents s)) answer;
  release_law s id : store_ok s →
    ∃ s' answer, release_intent s id = (s', answer) ∧ store_ok s' ∧
      (∀ id' k', named s id' = Some k' → named s id ≠ Some k' → named s' id' = Some k') ∧
      closes (intents s) (intents s') (named s id) (λ k _, delete k (intents s)) answer;
  resolve_law s id b : store_ok s →
    ∃ s' answer, resolve_intent s id b = (s', answer) ∧ store_ok s' ∧
      (∀ id', named s' id' = named s id') ∧
      (intents s' = intents s ∧ answer = Err ContractError ∨
       closes (intents s) (intents s') (named s id)
         (λ k r, <[k := set_state (IResolved b) r]> (intents s)) answer);
}.

(** ** Histories of calls

    The calls of any number of hosts over one store, in the order the store
    serves them.  A caller that is told [BNew] runs the export; it then finishes
    or releases its intent, or it is lost.  An operator may resolve an id at any
    time. *)

Record History (S : Type) := {
  h_store : S;
  h_running : list (IntentId * Key);  (* exports that run, by their intent *)
  h_runs : list Key;                  (* every export that ran *)
  h_released : list Key;              (* every release *)
}.
Arguments h_store {S} _.
Arguments h_running {S} _.
Arguments h_runs {S} _.
Arguments h_released {S} _.

Section Histories.
Context {S : Type} `{IntentLaws S}.

Definition fresh (s : S) : History S :=
  {| h_store := s; h_running := []; h_runs := []; h_released := [] |}.

Inductive call_step : History S → History S → Prop :=
| step_run h i s' id : accepts (h_store h) i →
    begin_intent (h_store h) i = (s', Ok (BNew id)) →
    call_step h {| h_store := s'; h_running := (id, key_of i) :: h_running h;
                   h_runs := key_of i :: h_runs h; h_released := h_released h |}
| step_answer h i s' answer : accepts (h_store h) i →
    begin_intent (h_store h) i = (s', answer) → (∀ id, answer ≠ Ok (BNew id)) →
    call_step h {| h_store := s'; h_running := h_running h; h_runs := h_runs h;
                   h_released := h_released h |}
| step_finish h l l' id k v s' answer : h_running h = l ++ (id, k) :: l' →
    finish_intent (h_store h) id v = (s', answer) →
    call_step h {| h_store := s'; h_running := l ++ l'; h_runs := h_runs h;
                   h_released := h_released h |}
| step_release h l l' id k s' answer : h_running h = l ++ (id, k) :: l' →
    release_intent (h_store h) id = (s', answer) →
    call_step h {| h_store := s'; h_running := l ++ l'; h_runs := h_runs h;
                   h_released := if is_ok answer then k :: h_released h else h_released h |}
| step_lost h l l' id k : h_running h = l ++ (id, k) :: l' →
    call_step h {| h_store := h_store h; h_running := l ++ l'; h_runs := h_runs h;
                   h_released := h_released h |}
| step_resolve h id b s' answer : resolve_intent (h_store h) id b = (s', answer) →
    call_step h {| h_store := s'; h_running := h_running h; h_runs := h_runs h;
                   h_released := h_released h |}.

Definition count (k : Key) (l : list Key) : nat := length (filter (k =.) l).

Definition recorded (log : IntentLog) (k : Key) : nat :=
  match log !! k with Some _ => 1 | None => 0 end.

(** Running exports hold distinct records, and the exports of a key that ran are
    its releases and its record. *)
Record history_ok (h : History S) : Prop := {
  ho_store : store_ok (h_store h);
  ho_named : Forall (λ ik, named (h_store h) ik.1 = Some ik.2) (h_running h);
  ho_distinct : NoDup (h_running h).*2;
  ho_count : ∀ k, count k (h_runs h) = count k (h_released h) + recorded (intents (h_store h)) k;
}.

Lemma count_cons k k' l : count k (k' :: l) = (if decide (k = k') then 1 else 0) + count k l.
Proof. unfold count. rewrite filter_cons. by case_decide. Qed.

Lemma recorded_insert log k r k' :
  recorded (<[k := r]> log) k' = if decide (k' = k) then 1 else recorded log k'.
Proof.
  unfold recorded. case_decide as E; [subst; by rewrite lookup_insert_eq|].
  by rewrite lookup_insert_ne.
Qed.

Lemma recorded_delete log k k' :
  recorded (delete k log) k' = if decide (k' = k) then 0 else recorded log k'.
Proof.
  unfold recorded. case_decide as E; [subst; by rewrite lookup_delete_eq|].
  by rewrite lookup_delete_ne.
Qed.

Lemma recorded_update log k r r' k' :
  log !! k = Some r → recorded (<[k := r']> log) k' = recorded log k'.
Proof.
  intros Hk. rewrite recorded_insert. case_decide as E; [subst; unfold recorded; by rewrite Hk|done].
Qed.

Lemma running_split {A} (P : A → Prop) (f : A → Key) l x l' :
  Forall P (l ++ x :: l') → NoDup (f <$> (l ++ x :: l')) →
  Forall P (l ++ l') ∧ NoDup (f <$> (l ++ l')) ∧ f x ∉ f <$> (l ++ l').
Proof.
  rewrite <- Permutation_middle. rewrite fmap_cons, NoDup_cons. intros [_ Hp]%Forall_cons [Hx Hn]. done.
Qed.

(** A call that closes a record, or none, keeps the counts. *)
Lemma closes_update_counts log log' n st answer k :
  closes log log' n (λ k r, <[k := set_state st r]> log) answer → recorded log' k = recorded log k.
Proof.
  intros [(k' & r & (_ & Hk & _) & _ & ->)|(_ & _ & ->)]; [|done]. by eapply recorded_update.
Qed.

Lemma run_ok h i s' id :
  history_ok h → accepts (h_store h) i → begin_intent (h_store h) i = (s', Ok (BNew id)) →
  history_ok {| h_store := s'; h_running := (id, key_of i) :: h_running h;
                h_runs := key_of i :: h_runs h; h_released := h_released h |}.
Proof.
  intros [Hs Hn Hd Hc] Ha Eb.
  destruct (begin_law (h_store h) i Hs Ha) as (s1 & a1 & E & Hs1 & Hkeep & Hlog).
  rewrite Eb in E. injection E as <- <-.
  destruct (intents (h_store h) !! key_of i) as [r|] eqn:Hk.
  { exfalso. destruct Hlog as [_ Hans]. unfold begin_answer in Hans. repeat case_match; naive_solver. }
  destruct Hlog as (Hlog & id1 & Hid & [= <-]). constructor; simpl; [done| | |].
  - constructor; [done|]. eapply Forall_impl; [exact Hn|]. simpl. eauto.
  - constructor; [|done]. intros ([id2 k2] & E2 & Hin)%list_elem_of_fmap. simpl in E2. subst k2.
    eapply Forall_forall in Hn; [|exact Hin]. simpl in Hn.
    destruct (named_present _ _ _ Hs Hn) as [? ?]. congruence.
  - intros k. rewrite count_cons, Hlog, recorded_insert, Hc. case_decide; [|lia].
    subst. unfold recorded. rewrite Hk. lia.
Qed.

Lemma answer_ok h i s' answer :
  history_ok h → accepts (h_store h) i → begin_intent (h_store h) i = (s', answer) →
  (∀ id, answer ≠ Ok (BNew id)) →
  history_ok {| h_store := s'; h_running := h_running h; h_runs := h_runs h;
                h_released := h_released h |} ∧ intents s' = intents (h_store h).
Proof.
  intros [Hs Hn Hd Hc] Ha Eb Hnew.
  destruct (begin_law (h_store h) i Hs Ha) as (s1 & a1 & E & Hs1 & Hkeep & Hlog).
  rewrite Eb in E. injection E as <- <-.
  assert (Hsame : intents s' = intents (h_store h)).
  { destruct (intents (h_store h) !! key_of i); [by destruct Hlog|].
    destruct Hlog as (_ & id & _ & ->). by destruct (Hnew id). }
  split; [|done]. constructor; simpl; [done| |done|by intros; rewrite Hsame].
  eapply Forall_impl; [exact Hn|]. simpl. eauto.
Qed.

Lemma release_ok h l l' id k s' answer :
  history_ok h → h_running h = l ++ (id, k) :: l' → release_intent (h_store h) id = (s', answer) →
  history_ok {| h_store := s'; h_running := l ++ l'; h_runs := h_runs h;
                h_released := if is_ok answer then k :: h_released h else h_released h |}.
Proof.
  intros [Hs Hn Hd Hc] Er Ef. rewrite Er in *. assert (Hik : named (h_store h) id = Some k).
  { by apply Forall_app in Hn as [_ [? _]%Forall_cons]. }
  destruct (running_split _ _ _ _ _ Hn Hd) as (Hn' & Hd' & Hfresh).
  destruct (release_law (h_store h) id Hs) as (s1 & a1 & E & Hs1 & Hkeep & Hcl).
  rewrite Ef in E. injection E as <- <-. constructor; simpl; [done| |done|].
  - apply Forall_forall. intros [id' k'] Hin. simpl.
    apply Hkeep; [exact (proj1 (Forall_forall _ _) Hn' _ Hin)|]. rewrite Hik. intros [= <-].
    apply Hfresh, list_elem_of_fmap. by exists (id', k).
  - intros k'. destruct Hcl as [(k1 & r & (Hk1 & Hr & _) & -> & ->)|(_ & -> & ->)]; simpl; [|done].
    rewrite Hik in Hk1. injection Hk1 as <-. rewrite count_cons, recorded_delete, Hc.
    case_decide; [|lia]. subst. unfold recorded. rewrite Hr. lia.
Qed.

Lemma call_step_ok h h' : history_ok h → call_step h h' → history_ok h'.
Proof.
  intros Hok. destruct 1 as [h i s' id Ha Eb|h i s' answer Ha Eb Hnew
    |h l l' id k v s' answer Er Ef|h l l' id k s' answer Er Ef|h l l' id k Er|h id b s' answer Ef].
  - by apply run_ok.
  - by eapply answer_ok.
  - destruct Hok as [Hs Hn Hd Hc]. rewrite Er in *.
    destruct (running_split _ _ _ _ _ Hn Hd) as (Hn' & Hd' & _).
    destruct (finish_law (h_store h) id v Hs) as (s1 & a1 & E & Hs1 & Hkeep & Hcl).
    rewrite Ef in E. injection E as <- <-.
    constructor; simpl; [done| |done|by intros; erewrite closes_update_counts by eauto].
    eapply Forall_impl; [exact Hn'|]. simpl. intros. by rewrite Hkeep.
  - by eapply release_ok.
  - destruct Hok as [Hs Hn Hd Hc]. rewrite Er in *.
    destruct (running_split _ _ _ _ _ Hn Hd) as (Hn' & Hd' & _). by constructor.
  - destruct Hok as [Hs Hn Hd Hc].
    destruct (resolve_law (h_store h) id b Hs) as (s1 & a1 & E & Hs1 & Hkeep & Hcl).
    rewrite Ef in E. injection E as <- <-. constructor; simpl; [done| |done|].
    + eapply Forall_impl; [exact Hn|]. simpl. intros. by rewrite Hkeep.
    + intros k. destruct Hcl as [[-> _]|Hcl]; [done|]. by erewrite closes_update_counts by eauto.
Qed.

Lemma calls_ok h h' : history_ok h → rtc call_step h h' → history_ok h'.
Proof. intros Hok Hc. revert Hok. induction Hc; eauto using call_step_ok. Qed.

(** A closed record stands. *)
Lemma closes_closed log log' n update answer k r :
  closes log log' n update answer →
  (∀ k' r', open_at log n k' r' → k ≠ k' → update k' r' !! k = log !! k) →
  log !! k = Some r → in_state r ≠ IOpen → log' !! k = Some r.
Proof.
  intros [(k' & r' & Ho & _ & ->)|(_ & _ & ->)] Hu Hk Hst; [|done].
  rewrite (Hu _ _ Ho); [done|]. intros <-. destruct Ho as (_ & Hk' & ?). congruence.
Qed.

Lemma call_step_closed h h' k r :
  history_ok h → call_step h h' → intents (h_store h) !! k = Some r → in_state r ≠ IOpen →
  intents (h_store h') !! k = Some r ∧ count k (h_runs h') = count k (h_runs h).
Proof.
  intros Hok Hstep Hk Hst. pose proof (ho_store _ Hok) as Hs.
  destruct Hstep as [h i s' id Ha Eb|h i s' answer Ha Eb Hnew
    |h l l' id k1 v s' answer Er Ef|h l l' id k1 s' answer Er Ef|h l l' id k1 Er|h id b s' answer Ef]; simpl.
  - destruct (begin_law (h_store h) i Hs Ha) as (s1 & a1 & E & _ & _ & Hlog).
    rewrite Eb in E. injection E as <- <-. destruct (intents (h_store h) !! key_of i) eqn:Hi.
    { exfalso. destruct Hlog as [_ Hans]. unfold begin_answer in Hans. repeat case_match; naive_solver. }
    destruct Hlog as [-> _]. assert (k ≠ key_of i) by congruence.
    rewrite lookup_insert_ne by done. rewrite count_cons. by case_decide.
  - by destruct (answer_ok _ _ _ _ Hok Ha Eb Hnew) as [_ ->].
  - split; [|done]. destruct (finish_law (h_store h) id v Hs) as (s1 & a1 & E & _ & _ & Hcl).
    rewrite Ef in E. injection E as <- <-. eapply closes_closed; [done| |done|done].
    intros. simpl. by rewrite lookup_insert_ne.
  - split; [|done]. destruct (release_law (h_store h) id Hs) as (s1 & a1 & E & _ & _ & Hcl).
    rewrite Ef in E. injection E as <- <-. eapply closes_closed; [done| |done|done].
    intros. simpl. by rewrite lookup_delete_ne.
  - done.
  - split; [|done]. destruct (resolve_law (h_store h) id b Hs) as (s1 & a1 & E & _ & _ & Hcl).
    rewrite Ef in E. injection E as <- <-. destruct Hcl as [[-> _]|Hcl]; [done|].
    eapply closes_closed; [done| |done|done]. intros. simpl. by rewrite lookup_insert_ne.
Qed.

Lemma calls_closed h h' k r :
  history_ok h → rtc call_step h h' → intents (h_store h) !! k = Some r → in_state r ≠ IOpen →
  intents (h_store h') !! k = Some r ∧ count k (h_runs h') = count k (h_runs h).
Proof.
  intros Hok Hc. revert Hok. induction Hc as [h|h h1 h' Hst _ IH]; intros Hok Hk Hcl; [done|].
  destruct (call_step_closed _ _ _ _ Hok Hst Hk Hcl) as [Hk1 <-].
  apply IH; [by eapply call_step_ok|done|done].
Qed.

Lemma fresh_ok s : store_ok s → intents s = ∅ → history_ok (fresh s).
Proof.
  intros Hs Hi. constructor; simpl; [done|constructor|constructor|].
  intros k. unfold count, recorded. by rewrite Hi, lookup_empty.
Qed.

End Histories.
