(* ===== verification/IntentStores.v ===== *)
(** * The stores of the intent log

    The edge's SQLite store ([crates/execution/run-state-sqlite/src/lib.rs]) and
    the cloud's write log ([wamn_postgres/write_log.rs], two-step claims), each
    shown to keep the contract of [Intents].  A table is a [gmap] by its primary
    key.  A statement that fails in the database is left out; the clock of the
    SQLite host may fail. *)

From stdpp Require Import base tactics option list gmap strings sorting.
From Stdlib Require Import ZArith Lia.
From S2P Require Import Prelude Text Json RunStatus Intents.
#[local] Set Warnings "-clear-no-such-hyp".

(** ** The SQLite file *)

Record IntentRow := {
  row_tenant : string;
  row_release : string;
  row_package : string;
  row_operation : string;
  row_idempotency_key : string;
  row_input_hash : string;
  row_deadline_ms : Z;
  row_begun_at : Z;
  row_finished_at : option Z;
  row_outcome : option string;
  row_resolved_basis : option string;
  row_resolved_at : option Z;
}.

(** The table, and the clock in milliseconds if it can be read. *)
Record SqliteFile := { sq_rows : gmap Z IntentRow; sq_clock : option Z }.

Definition set_rows (rows : gmap Z IntentRow) (f : SqliteFile) : SqliteFile :=
  {| sq_rows := rows; sq_clock := sq_clock f |}.

(** The row id SQLite draws at random once the largest one is in use. *)
Class SqliteRowid := random_rowid : gmap Z IntentRow → option Z.

Definition max_rowid (rows : gmap Z IntentRow) : Z := foldr Z.max 0%Z (map_to_list rows).*1.

(** An [INTEGER PRIMARY KEY] without [AUTOINCREMENT]. *)
Definition next_rowid `{SqliteRowid} (rows : gmap Z IntentRow) : option Z :=
  if (max_rowid rows <? i64_max)%Z then Some (max_rowid rows + 1)%Z else random_rowid rows.

Definition now_ms (f : SqliteFile) : result Z StoreErrorType := ok_or (sq_clock f) StorageError.

Definition row_key (r : IntentRow) : Key := (row_tenant r, row_idempotency_key r).

(** [WHERE tenant = ?1 AND idempotency_key = ?2]. *)
Definition select_key (rows : gmap Z IntentRow) (k : Key) : option (Z * IntentRow) :=
  head (filter (λ nr, row_key nr.2 = k) (map_to_list rows)).

Definition row_id (id : IntentId) : result Z StoreErrorType := ok_or (parse_i64 id) ContractError.

(** [finished_at IS NULL AND resolved_at IS NULL]. *)
Definition row_open (r : IntentRow) : bool :=
  match row_finished_at r, row_resolved_at r with None, None => true | _, _ => false end.

Inductive TextBegun :=
| TNew (id : IntentId)
| TFinished (text : string)
| TUncertain (id : IntentId)
| TResolved (id : IntentId) (basis : OperatorActionBasis)
| TConflict (id : IntentId).

Open Scope wamn_scope.

Section Sqlite.
Context `{JsonPrint, JsonText, SqliteRowid}.

(** [begin] of the SQLite store, one committed transaction. *)
Definition sqlite_begin (f : SqliteFile) (i : Intent) (deadline_ms : Z) :
    SqliteFile * result TextBegun StoreErrorType :=
  match select_key (sq_rows f) (it_tenant i, it_idempotency_key i) with
  | Some (n, r) =>
      (f, if negb (String.eqb (row_input_hash r) (it_input_hash i)) then Ok (TConflict (decimal_text n))
          else match row_outcome r with
               | Some outcome => Ok (TFinished outcome)
               | None =>
                   match row_resolved_basis r with
                   | Some basis => let? b := ok_or (from_sql basis) ContractError in
                                   Ok (TResolved (decimal_text n) b)
                   | None => Ok (TUncertain (decimal_text n))
                   end
               end)
  | None =>
      match now_ms f with
      | Err e => (f, Err e)
      | Ok now =>
          match next_rowid (sq_rows f) with
          | None => (f, Err StorageError)
          | Some n =>
              (set_rows (<[n := {| row_tenant := it_tenant i; row_release := it_release i;
                  row_package := it_package i; row_operation := it_operation i;
                  row_idempotency_key := it_idempotency_key i; row_input_hash := it_input_hash i;
                  row_deadline_ms := deadline_ms; row_begun_at := now; row_finished_at := None;
                  row_outcome := None; row_resolved_basis := None; row_resolved_at := None |}]>
                  (sq_rows f)) f,
               Ok (TNew (decimal_text n)))
          end
      end
  end.

Definition begin_text (f : SqliteFile) (i : Intent) : SqliteFile * result TextBegun StoreErrorType :=
  if (i64_max <? it_deadline_ms i)%Z then (f, Err ContractError) else sqlite_begin f i (it_deadline_ms i).

Definition stored_outcome (text : string) : result Value StoreErrorType :=
  ok_or (parse_json text) ContractError.

(** An update or delete of the open row [id]. *)
Definition close_row (f : SqliteFile) (id : IntentId) (close : Z → gmap Z IntentRow → Z → IntentRow → gmap Z IntentRow) :
    SqliteFile * result unit StoreErrorType :=
  match row_id id with
  | Err e => (f, Err e)
  | Ok n =>
      match now_ms f with
      | Err e => (f, Err e)
      | Ok now =>
          match sq_rows f !! n with
          | Some r => if row_open r then (set_rows (close now (sq_rows f) n r) f, Ok tt) else (f, Err ContractError)
          | None => (f, Err ContractError)
          end
      end
  end.

Definition finish_row (now : Z) (text : string) (r : IntentRow) : IntentRow := {|
  row_tenant := row_tenant r; row_release := row_release r; row_package := row_package r;
  row_operation := row_operation r; row_idempotency_key := row_idempotency_key r;
  row_input_hash := row_input_hash r; row_deadline_ms := row_deadline_ms r;
  row_begun_at := row_begun_at r; row_finished_at := Some now; row_outcome := Some text;
  row_resolved_basis := row_resolved_basis r; row_resolved_at := row_resolved_at r |}.

Definition resolve_row (now : Z) (basis : OperatorActionBasis) (r : IntentRow) : IntentRow := {|
  row_tenant := row_tenant r; row_release := row_release r; row_package := row_package r;
  row_operation := row_operation r; row_idempotency_key := row_idempotency_key r;
  row_input_hash := row_input_hash r; row_deadline_ms := row_deadline_ms r;
  row_begun_at := row_begun_at r; row_finished_at := row_finished_at r; row_outcome := row_outcome r;
  row_resolved_basis := Some (as_sql basis); row_resolved_at := Some now |}.

Definition finish_text (f : SqliteFile) (id : IntentId) (text : string) :
    SqliteFile * result unit StoreErrorType :=
  close_row f id (λ now rows n r, <[n := finish_row now text r]> rows).

(** A release reads no clock. *)
Definition sqlite_release (f : SqliteFile) (id : IntentId) : SqliteFile * result unit StoreErrorType :=
  match row_id id with
  | Err e => (f, Err e)
  | Ok n =>
      match sq_rows f !! n with
      | Some r => if row_open r then (set_rows (delete n (sq_rows f)) f, Ok tt) else (f, Err ContractError)
      | None => (f, Err ContractError)
      end
  end.

Definition rowid_leb (a b : Z * IntentRow) : bool := (a.1 <=? b.1)%Z.

Definition sqlite_uncertain (f : SqliteFile) (limit : Z) : list UncertainIntent :=
  take (Z.to_nat limit)
    ((λ nr : Z * IntentRow, {| un_id := decimal_text nr.1; un_tenant := row_tenant nr.2;
        un_release := row_release nr.2; un_package := row_package nr.2;
        un_operation := row_operation nr.2; un_idempotency_key := row_idempotency_key nr.2 |})
     <$> stable_sort rowid_leb (filter (λ nr, row_open nr.2 = true) (map_to_list (sq_rows f)))).

#[export] Instance sqlite_store : IntentStore SqliteFile := {
  begin_intent f i :=
    let '(f', r) := begin_text f i in
    (f', let? t := r in
         match t with
         | TNew id => Ok (BNew id)
         | TFinished text => let? v := stored_outcome text in Ok (BFinished v)
         | TUncertain id => Ok (BUncertain id)
         | TResolved id b => Ok (BResolved id b)
         | TConflict id => Ok (BConflict id)
         end);
  finish_intent f id v := finish_text f id (print_json v);
  release_intent f id := sqlite_release f id;
  uncertain_intents f limit := (f, Ok (sqlite_uncertain f limit));
  resolve_intent f id b := close_row f id (λ now rows n r, <[n := resolve_row now b r]> rows);
}.

End Sqlite.

(** ** The write log *)

Record WriteLogRow := {
  wl_request : string;  (* the bytes of the request hash *)
  wl_result : option string;
  wl_created_at : Z;
}.
Abbreviation WriteLog := (gmap (string * string) WriteLogRow).

Definition hash_sign : Ascii.ascii := Ascii.ascii_of_N 35.

Definition log_operation (operation : string) : string :=
  match split_once at_sign operation with Some (o, _) => o | None => operation end.

Definition intent_id (operation key : string) : IntentId := operation +:+ String hash_sign key.

Definition claim_of (id : IntentId) : result Key StoreErrorType :=
  ok_or (split_once hash_sign id) ContractError.

(** [CLAIM_SQL], or [CLAIM_RESULT_SQL] with a known result: whether a row was
    inserted. *)
Definition claim_sql (now : Z) (t : WriteLog) (k : Key) (request : string) (result : option string) :
    WriteLog * bool :=
  match t !! k with
  | Some _ => (t, false)
  | None => (<[k := {| wl_request := request; wl_result := result; wl_created_at := now |}]> t, true)
  end.

(** [FINISH_SQL] and [RELEASE_SQL]: whether an open row was changed. *)
Definition finish_sql (t : WriteLog) (k : Key) (result : string) : WriteLog * bool :=
  match t !! k with
  | Some {| wl_request := request; wl_result := None; wl_created_at := at_ |} =>
      (<[k := {| wl_request := request; wl_result := Some result; wl_created_at := at_ |}]> t, true)
  | _ => (t, false)
  end.
Definition release_sql (t : WriteLog) (k : Key) : WriteLog * bool :=
  match t !! k with
  | Some {| wl_result := None |} => (delete k t, true)
  | _ => (t, false)
  end.

(** [READ_SQL], and what a begin answers from the row. *)
Definition read_claim `{JsonText} (t : WriteLog) (k : Key) (request : string) (id : IntentId) :
    result Begun StoreErrorType :=
  match t !! k with
  | None => Err ContractError
  | Some row =>
      if negb (String.eqb (wl_request row) request) then Ok (BConflict id)
      else match wl_result row with
           | Some text => let? v := ok_or (parse_json text) ContractError in Ok (BFinished v)
           | None => Ok (BUncertain id)
           end
  end.

Definition begin_with `{JsonText} (now : Z) (t : WriteLog) (i : Intent) (known : option string) :
    WriteLog * result Begun StoreErrorType :=
  let operation := log_operation (it_operation i) in
  let k := (operation, it_idempotency_key i) in
  let id := intent_id operation (it_idempotency_key i) in
  let '(t', claimed) := claim_sql now t k (it_input_hash i) known in
  if claimed : bool then (t', Ok (BNew id)) else (t', read_claim t' k (it_input_hash i) id).

(** The two-step claims of one project database. *)
Record WriteLogStore := { ws_env_key : string; ws_log : WriteLog; ws_clock : Z }.

Definition set_log (t : WriteLog) (s : WriteLogStore) : WriteLogStore :=
  {| ws_env_key := ws_env_key s; ws_log := t; ws_clock := ws_clock s |}.

(** A statement that closes the claim [id]. *)
Definition close_claim (s : WriteLogStore) (id : IntentId) (sql : WriteLog → Key → WriteLog * bool) :
    WriteLogStore * result unit StoreErrorType :=
  match claim_of id with
  | Err e => (s, Err e)
  | Ok k => let '(t, changed) := sql (ws_log s) k in
            (set_log t s, if changed : bool then Ok tt else Err ContractError)
  end.

Definition created_leb (a b : Key * WriteLogRow) : bool :=
  match (wl_created_at a.2 ?= wl_created_at b.2)%Z with
  | Lt => true
  | Gt => false
  | Eq => match String.compare a.1.1 b.1.1 with
          | Lt => true | Gt => false | Eq => String.leb a.1.2 b.1.2
          end
  end.

Definition write_log_uncertain (s : WriteLogStore) (limit : Z) : list UncertainIntent :=
  take (Z.to_nat limit)
    ((λ kr : Key * WriteLogRow, {| un_id := intent_id kr.1.1 kr.1.2; un_tenant := ws_env_key s;
        un_release := "";
        un_package := match split_once colon kr.1.1 with Some (p, _) => p | None => "" end;
        un_operation := kr.1.1; un_idempotency_key := kr.1.2 |})
     <$> stable_sort created_leb (filter (λ kr, wl_result kr.2 = None) (map_to_list (ws_log s)))).

#[export] Instance write_log_store `{JsonPrint, JsonText} : IntentStore WriteLogStore := {
  begin_intent s i :=
    if negb (String.eqb (it_tenant i) (ws_env_key s)) then (s, Err ContractError)
    else let '(t, r) := begin_with (ws_clock s) (ws_log s) i None in (set_log t s, r);
  finish_intent s id v := close_claim s id (λ t k, finish_sql t k (print_json v));
  release_intent s id := close_claim s id release_sql;
  uncertain_intents s limit := (s, Ok (write_log_uncertain s limit));
  resolve_intent s id b := (s, Err ContractError);
}.

(** *** It keeps the contract *)

Definition claim_record (r : WriteLogRow) : IntentRecord := {|
  in_hash := wl_request r;
  in_state := match wl_result r with Some text => IFinished text | None => IOpen end |}.

Definition write_log_named (s : WriteLogStore) (id : IntentId) : option Key :=
  split_once hash_sign id ≫= λ k, if ws_log s !! k is Some _ then Some k else None.

Lemma named_intent_id s o k :
  has_char hash_sign o = false → is_Some (ws_log s !! (o, k)) →
  write_log_named s (intent_id o k) = Some (o, k).
Proof.
  intros Ho [r Hr]. unfold write_log_named, intent_id. rewrite split_once_app by done. simpl.
  by rewrite Hr.
Qed.

Abbreviation claims s := (claim_record <$> ws_log s).

Lemma write_log_named_inv s id k :
  write_log_named s id = Some k → split_once hash_sign id = Some k ∧ is_Some (ws_log s !! k).
Proof.
  unfold write_log_named. destruct (split_once hash_sign id) as [k'|]; simpl; [|done].
  destruct (ws_log s !! k') eqn:E; [|done]. intros [= <-]. eauto.
Qed.

(** What a closing statement does to the row of its key. *)
Definition closing (sql : WriteLog → Key → WriteLog * bool) (update : WriteLog → Key → WriteLogRow → WriteLog) :
    Prop :=
  ∀ t k, match t !! k with
         | Some r => match wl_result r with
                     | None => sql t k = (update t k r, true)
                     | Some _ => sql t k = (t, false)
                     end
         | None => sql t k = (t, false)
         end.

Lemma close_claim_law s id sql update :
  closing sql update →
  ∃ s' answer, close_claim s id sql = (s', answer) ∧
    ((∃ k r, write_log_named s id = Some k ∧ ws_log s !! k = Some r ∧ wl_result r = None ∧
        answer = Ok tt ∧ s' = set_log (update (ws_log s) k r) s) ∨
     ((∀ k r, ¬ open_at (claims s) (write_log_named s id) k r) ∧ answer = Err ContractError ∧ s' = s)).
Proof.
  intros Hsql. unfold close_claim, claim_of, write_log_named.
  destruct (split_once hash_sign id) as [k|]; simpl.
  2:{ do 2 eexists. split; [done|]. right. split; [by intros k r (? & _)|done]. }
  specialize (Hsql (ws_log s) k). destruct (ws_log s !! k) as [r|] eqn:Hk; [destruct (wl_result r) eqn:Hr|].
  - rewrite Hsql. do 2 eexists. split; [done|]. right. split; [|by destruct s].
    intros k' r' ([= <-] & Hk' & Ho). rewrite lookup_fmap, Hk in Hk'. injection Hk' as <-.
    unfold claim_record in Ho. simpl in Ho. by rewrite Hr in Ho.
  - rewrite Hsql. do 2 eexists. split; [done|]. left. by exists k, r.
  - rewrite Hsql. do 2 eexists. split; [done|]. right. split; [by intros k' r' (? & _)|by destruct s].
Qed.

Lemma finish_closing text :
  closing (λ t k, finish_sql t k text) (λ t k r,
    <[k := {| wl_request := wl_request r; wl_result := Some text; wl_created_at := wl_created_at r |}]> t).
Proof. intros t k. unfold finish_sql. destruct (t !! k) as [[rq [x|] at_]|]; done. Qed.

Lemma release_closing : closing release_sql (λ t k _, delete k t).
Proof. intros t k. unfold release_sql. destruct (t !! k) as [[rq [x|] at_]|]; done. Qed.

Lemma open_claim s id k r :
  write_log_named s id = Some k → ws_log s !! k = Some r → wl_result r = None →
  open_at (claims s) (write_log_named s id) k (claim_record r).
Proof.
  intros Hn Hk Hr. split; [done|]. rewrite lookup_fmap, Hk. split; [done|].
  unfold claim_record. simpl. by rewrite Hr.
Qed.

(** Only the rows of a key decide what its ids name. *)
Lemma write_log_named_insert s k r id :
  is_Some (ws_log s !! k) →
  write_log_named (set_log (<[k := r]> (ws_log s)) s) id = write_log_named s id.
Proof.
  intros [r' Hr]. unfold write_log_named. simpl. destruct (split_once hash_sign id) as [k'|]; simpl; [|done].
  destruct (decide (k' = k)) as [->|]; [by rewrite lookup_insert_eq, Hr|by rewrite lookup_insert_ne].
Qed.

Lemma write_log_begin `{JsonPrint, JsonText} s i :
  it_tenant i = ws_env_key s → has_char hash_sign (log_operation (it_operation i)) = false →
  let k := (log_operation (it_operation i), it_idempotency_key i) in
  ∃ s' answer, begin_intent s i = (s', answer) ∧
    (∀ id k', write_log_named s id = Some k' → write_log_named s' id = Some k') ∧
    match claims s !! k with
    | None => claims s' = <[k := {| in_hash := it_input_hash i; in_state := IOpen |}]> (claims s) ∧
        ∃ id, write_log_named s' id = Some k ∧ answer = Ok (BNew id)
    | Some r => claims s' = claims s ∧
        begin_answer (λ id, write_log_named s' id = Some k) r (it_input_hash i) answer
    end.
Proof.
  intros Ht Ho k. simpl. rewrite Ht, String.eqb_refl. simpl. unfold begin_with, claim_sql, read_claim. fold k.
  rewrite lookup_fmap. destruct (ws_log s !! k) as [r|] eqn:Hk; simpl.
  - rewrite Hk. do 2 eexists. split; [done|]. split; [by destruct s|]. split; [done|].
    unfold begin_answer. simpl.
    assert (Hid : write_log_named (set_log (ws_log s) s)
                    (intent_id (log_operation (it_operation i)) (it_idempotency_key i)) = Some k).
    { apply named_intent_id; [done|]. simpl. fold k. by rewrite Hk. }
    destruct (String.eqb (wl_request r) (it_input_hash i)); simpl; [|eauto].
    destruct (wl_result r); [|eauto]. by destruct (parse_json s0).
  - do 2 eexists. split; [done|]. split.
    + intros id k'. unfold write_log_named. simpl. destruct (split_once hash_sign id) as [k1|]; simpl; [|done].
      destruct (decide (k1 = k)) as [->|]; [by rewrite Hk|by rewrite lookup_insert_ne].
    + cbn [ws_log set_log]. rewrite fmap_insert. split; [done|]. eexists. split; [|done].
      apply named_intent_id; [done|]. simpl. fold k. by rewrite lookup_insert_eq.
Qed.

(** The key of a claim is its operation without version; its tenant is the
    store's. *)
#[export, refine] Instance write_log_laws `{JsonPrint, JsonText} : IntentLaws WriteLogStore := {
  intents s := claims s;
  named := write_log_named;
  key_of i := (log_operation (it_operation i), it_idempotency_key i);
  store_ok _ := True;
  accepts s i := it_tenant i = ws_env_key s ∧ has_char hash_sign (log_operation (it_operation i)) = false;
}.
Proof.
  - intros s id k _ [_ [r Hr]]%write_log_named_inv. rewrite lookup_fmap, Hr. eauto.
  - intros s i _ [Ht Ho]. destruct (write_log_begin s i Ht Ho) as (s' & a & ? & ?). eauto.
  - intros s id v _. simpl.
    destruct (close_claim_law s id _ _ (finish_closing (print_json v))) as (s' & a & -> & Hc).
    exists s', a. split; [done|]. split; [done|].
    destruct Hc as [(k & r & Hn & Hk & Hr & -> & ->)|(Hno & -> & ->)].
    + split; [intros; apply write_log_named_insert; eauto|]. left. exists k, (claim_record r).
      split; [by apply open_claim|]. split; [done|]. cbn [ws_log set_log]. by rewrite fmap_insert.
    + split; [done|]. by right.
  - intros s id _. simpl.
    destruct (close_claim_law s id _ _ release_closing) as (s' & a & -> & Hc).
    exists s', a. split; [done|]. split; [done|].
    destruct Hc as [(k & r & Hn & Hk & Hr & -> & ->)|(Hno & -> & ->)].
    + split.
      * intros id' k' Hn' Hne. apply write_log_named_inv in Hn' as [E [r' Hr']].
        unfold write_log_named. rewrite E. simpl. rewrite lookup_delete_ne, Hr'; [done|congruence].
      * left. exists k, (claim_record r). split; [by apply open_claim|]. split; [done|]. cbn [ws_log set_log]. by rewrite fmap_delete.
    + split; [done|]. by right.
  - intros s id b _. do 2 eexists. split; [done|]. split; [done|]. split; [done|]. by left.
Defined.

(** ** The SQLite store keeps the contract *)

(** The constraints of the table, with the bases that [resolve] writes. *)
Definition row_checked (r : IntentRow) : Prop :=
  (row_finished_at r = None ↔ row_outcome r = None) ∧
  (row_resolved_basis r = None ↔ row_resolved_at r = None) ∧
  (row_finished_at r = None ∨ row_resolved_at r = None) ∧
  (∀ text, row_resolved_basis r = Some text → ∃ b : OperatorActionBasis, text = as_sql b).

Definition unique_keys (rows : gmap Z IntentRow) : Prop :=
  ∀ n m r r', rows !! n = Some r → rows !! m = Some r' → row_key r = row_key r' → n = m.

Record sqlite_ok (f : SqliteFile) : Prop := {
  so_clock : is_Some (sq_clock f);
  so_unique : unique_keys (sq_rows f);
  so_ids : map_Forall (λ n r, (1 ≤ n ≤ i64_max)%Z ∧ row_checked r) (sq_rows f);
}.

Definition row_record (r : IntentRow) : IntentRecord := {|
  in_hash := row_input_hash r;
  in_state := match row_outcome r with
              | Some text => IFinished text
              | None => match row_resolved_basis r ≫= from_sql with
                        | Some b => IResolved b
                        | None => IOpen
                        end
              end |}.

Definition sqlite_intents (rows : gmap Z IntentRow) : IntentLog :=
  list_to_map ((λ nr : Z * IntentRow, (row_key nr.2, row_record nr.2)) <$> map_to_list rows).

Lemma sqlite_lookup rows k rec :
  unique_keys rows →
  sqlite_intents rows !! k = Some rec ↔
  ∃ n r, rows !! n = Some r ∧ row_key r = k ∧ row_record r = rec.
Proof.
  intros Hu. unfold sqlite_intents.
  assert (Hnd : NoDup ((λ nr : Z * IntentRow, (row_key nr.2, row_record nr.2)) <$> map_to_list rows).*1).
  { rewrite <- list_fmap_compose. apply NoDup_fmap_2_strong; [|apply NoDup_map_to_list].
    intros [n r] [m r'] Hn Hm E. apply elem_of_map_to_list in Hn, Hm. simpl in E.
    pose proof (Hu _ _ _ _ Hn Hm E) as ->. congruence. }
  rewrite <- elem_of_list_to_map by done. rewrite list_elem_of_fmap. split.
  - intros ([n r] & [= -> ->] & Hin). apply elem_of_map_to_list in Hin. by exists n, r.
  - intros (n & r & Hn & <- & <-). exists (n, r). split; [done|]. by apply elem_of_map_to_list.
Qed.

Lemma sqlite_lookup_none rows k :
  unique_keys rows → sqlite_intents rows !! k = None ↔ ∀ n r, rows !! n = Some r → row_key r ≠ k.
Proof.
  intros Hu. rewrite eq_None_not_Some. unfold is_Some. setoid_rewrite sqlite_lookup; [|done].
  naive_solver.
Qed.

(** Writing the row of a key. *)
Lemma sqlite_insert rows n r :
  unique_keys rows → (∀ m r', rows !! m = Some r' → row_key r' = row_key r ↔ m = n) →
  unique_keys (<[n := r]> rows) ∧
  sqlite_intents (<[n := r]> rows) = <[row_key r := row_record r]> (sqlite_intents rows).
Proof.
  intros Hu Hn.
  assert (Hu' : unique_keys (<[n := r]> rows)).
  { intros m m' x y Hm Hm' E. apply lookup_insert_Some in Hm as [[<- <-]|[Hne Hm]];
      apply lookup_insert_Some in Hm' as [[<- <-]|[Hne' Hm']]; [done| | |by eapply Hu].
    - symmetry. by apply (Hn _ _ Hm').
    - by apply (Hn _ _ Hm). }
  split; [done|]. apply map_eq. intros k. apply option_eq. intros rec.
  rewrite (sqlite_lookup _ _ _ Hu'), lookup_insert_Some, (sqlite_lookup _ _ _ Hu). split.
  - intros (m & x & Hm & <- & <-). apply lookup_insert_Some in Hm as [[<- <-]|[Hne Hm]]; [by left|].
    right. split; [|by exists m, x]. intros E. symmetry in E. by apply (Hn _ _ Hm) in E.
  - intros [[<- <-]|(Hne & m & x & Hm & <- & <-)]; [exists n, r; by rewrite lookup_insert_eq|].
    exists m, x. rewrite lookup_insert_ne; [done|]. intros ->. by apply Hne; symmetry; apply (Hn _ _ Hm).
Qed.

Lemma sqlite_delete rows n r :
  unique_keys rows → rows !! n = Some r →
  unique_keys (delete n rows) ∧ sqlite_intents (delete n rows) = delete (row_key r) (sqlite_intents rows).
Proof.
  intros Hu Hn.
  assert (Hu' : unique_keys (delete n rows)).
  { intros m m' x y [_ Hm]%lookup_delete_Some [_ Hm']%lookup_delete_Some. by eapply Hu. }
  split; [done|]. apply map_eq. intros k. apply option_eq. intros rec.
  rewrite (sqlite_lookup _ _ _ Hu'), lookup_delete_Some, (sqlite_lookup _ _ _ Hu). split.
  - intros (m & x & [Hne Hm]%lookup_delete_Some & <- & <-). split; [|by exists m, x].
    intros E. by destruct Hne; eapply Hu.
  - intros (Hne & m & x & Hm & <- & <-). exists m, x. split; [|done]. apply lookup_delete_Some.
    split; [|done]. intros <-. congruence.
Qed.

Lemma select_key_spec rows k :
  match select_key rows k with
  | Some (n, r) => rows !! n = Some r ∧ row_key r = k
  | None => ∀ n r, rows !! n = Some r → row_key r ≠ k
  end.
Proof.
  unfold select_key. destruct (filter _ (map_to_list rows)) as [|[n r] l] eqn:E; simpl.
  - intros n r Hn Hk. assert (Hin : (n, r) ∈ filter (λ nr, row_key nr.2 = k) (map_to_list rows)).
    { apply list_elem_of_filter. split; [done|]. by apply elem_of_map_to_list. }
    rewrite E in Hin. by apply elem_of_nil in Hin.
  - assert (Hin : (n, r) ∈ filter (λ nr, row_key nr.2 = k) (map_to_list rows)) by (rewrite E; left).
    apply list_elem_of_filter in Hin as [Hk Hin]. by apply elem_of_map_to_list in Hin.
Qed.

Lemma max_rowid_le rows n r : rows !! n = Some r → (n ≤ max_rowid rows)%Z.
Proof.
  intros Hn. unfold max_rowid. apply elem_of_map_to_list in Hn.
  induction (map_to_list rows) as [|[m x] l IH]; [by apply elem_of_nil in Hn|].
  rewrite fmap_cons. simpl. apply elem_of_cons in Hn as [[= <- <-]|Hn]; [lia|]. specialize (IH Hn). lia.
Qed.

(** What SQLite's documentation says of a random row id. *)
Class SqliteRowidLaw `{SqliteRowid} :=
  random_fresh : ∀ rows n, random_rowid rows = Some n → rows !! n = None ∧ (1 ≤ n ≤ i64_max)%Z.

Lemma next_rowid_fresh `{SqliteRowidLaw} rows n :
  next_rowid rows = Some n → rows !! n = None ∧ (1 ≤ n ≤ i64_max)%Z.
Proof.
  unfold next_rowid. destruct (Z.ltb_spec (max_rowid rows) i64_max); [|apply random_fresh].
  intros [= <-]. split.
  - destruct (rows !! _) as [r|] eqn:E; [|done]. apply max_rowid_le in E. lia.
  - assert (0 ≤ max_rowid rows)%Z; [|lia]. unfold max_rowid.
    induction ((map_to_list rows).*1); simpl; lia.
Qed.

Lemma row_open_state r :
  row_checked r → row_open r = true ↔ in_state (row_record r) = IOpen.
Proof.
  intros (Hf & Hb & Hx & Hv). unfold row_open, row_record. simpl.
  destruct (row_finished_at r), (row_outcome r), (row_resolved_at r), (row_resolved_basis r) as [text|]; simpl;
    try (by naive_solver).
  destruct (Hv text eq_refl) as [b ->]. rewrite from_as_sql. naive_solver.
Qed.

Definition sqlite_named (rows : gmap Z IntentRow) (id : IntentId) : option Key :=
  parse_i64 id ≫= λ n, row_key <$> rows !! n.

Lemma sqlite_named_id rows n r :
  (1 ≤ n ≤ i64_max)%Z → rows !! n = Some r → sqlite_named rows (decimal_text n) = Some (row_key r).
Proof. intros Hn Hr. unfold sqlite_named. rewrite parse_i64_decimal by lia. simpl. by rewrite Hr. Qed.

Lemma sqlite_named_insert rows n r id :
  row_key <$> rows !! n = Some (row_key r) → sqlite_named (<[n := r]> rows) id = sqlite_named rows id.
Proof.
  intros Hn. unfold sqlite_named. destruct (parse_i64 id) as [m|]; simpl; [|done].
  destruct (decide (m = n)) as [->|]; [by rewrite lookup_insert_eq, Hn|by rewrite lookup_insert_ne].
Qed.

Section SqliteLaws.
Context `{JsonPrint, JsonText, SqliteRowidLaw}.

Lemma sqlite_begin_law f i :
  sqlite_ok f → (it_deadline_ms i ≤ i64_max)%Z → is_Some (next_rowid (sq_rows f)) →
  let k := (it_tenant i, it_idempotency_key i) in
  ∃ f' answer, begin_intent f i = (f', answer) ∧ sqlite_ok f' ∧
    (∀ id k', sqlite_named (sq_rows f) id = Some k' → sqlite_named (sq_rows f') id = Some k') ∧
    match sqlite_intents (sq_rows f) !! k with
    | None => sqlite_intents (sq_rows f') =
          <[k := {| in_hash := it_input_hash i; in_state := IOpen |}]> (sqlite_intents (sq_rows f)) ∧
        ∃ id, sqlite_named (sq_rows f') id = Some k ∧ answer = Ok (BNew id)
    | Some r => sqlite_intents (sq_rows f') = sqlite_intents (sq_rows f) ∧
        begin_answer (λ id, sqlite_named (sq_rows f') id = Some k) r (it_input_hash i) answer
    end.
Proof.
  intros [[now Hclk] Hu Hids] Hd [n Hn] k. simpl. unfold begin_text.
  replace (i64_max <? it_deadline_ms i)%Z with false by (symmetry; apply Z.ltb_ge; lia).
  unfold sqlite_begin. fold k. pose proof (select_key_spec (sq_rows f) k) as Hsel.
  destruct (select_key (sq_rows f) k) as [[m r]|].
  - destruct Hsel as [Hm Hk]. destruct (Hids _ _ Hm) as [Hrange (Hf & Hb & Hx & Hv)].
    do 2 eexists. split; [done|]. split; [by constructor|]. split; [done|].
    assert (sqlite_intents (sq_rows f) !! k = Some (row_record r)) as ->.
    { apply sqlite_lookup; [done|]. by exists m, r. }
    split; [done|]. unfold begin_answer. cbn [in_hash row_record in_state].
    assert (Hid : sqlite_named (sq_rows f) (decimal_text m) = Some k).
    { rewrite <- Hk. by apply sqlite_named_id. }
    destruct (String.eqb (row_input_hash r) (it_input_hash i)); simpl; [|eauto].
    destruct (row_outcome r) as [text|]; simpl; [unfold stored_outcome; by destruct (parse_json text)|].
    destruct (row_resolved_basis r) as [text|]; simpl; [|eauto].
    destruct (Hv text eq_refl) as [b ->]. rewrite from_as_sql. simpl. eauto.
  - unfold now_ms. rewrite Hclk. simpl. rewrite Hn. destruct (next_rowid_fresh _ _ Hn) as [Hfresh Hrange].
    set (r := {| row_tenant := _ |}).
    destruct (sqlite_insert (sq_rows f) n r Hu) as [Hu' Hlog].
    { intros m r' Hm. split; [|congruence]. intros E. exfalso. by eapply Hsel. }
    do 2 eexists. split; [done|]. split; [|split].
    + constructor; simpl; [done|done|]. apply map_Forall_insert_2; [|done]. split; [done|].
      repeat split; simpl; try done. by left.
    + intros id k' Hid. unfold sqlite_named in *. simpl. destruct (parse_i64 id) as [m|]; simpl in *; [|done].
      rewrite lookup_insert_ne; [done|]. intros ->. by rewrite Hfresh in Hid.
    + rewrite (proj2 (sqlite_lookup_none _ _ Hu)) by done. cbn [sq_rows set_rows]. rewrite Hlog.
      split; [done|]. exists (decimal_text n). split; [|done].
      rewrite (sqlite_named_id _ n r) by (done || by rewrite lookup_insert_eq). done.
Qed.

(** The open row an id names, or none. *)
Lemma open_row f id :
  sqlite_ok f →
  (∃ n r, row_id id = Ok n ∧ sq_rows f !! n = Some r ∧ row_open r = true ∧
     open_at (sqlite_intents (sq_rows f)) (sqlite_named (sq_rows f) id) (row_key r) (row_record r)) ∨
  ((∀ k r, ¬ open_at (sqlite_intents (sq_rows f)) (sqlite_named (sq_rows f) id) k r) ∧
   (row_id id = Err ContractError ∨
    ∃ n, row_id id = Ok n ∧ match sq_rows f !! n with Some r => row_open r = false | None => True end)).
Proof.
  intros [_ Hu Hids]. unfold row_id, sqlite_named. destruct (parse_i64 id) as [n|] eqn:E; simpl.
  2:{ right. split; [|by left]. by intros k r (? & _). }
  destruct (sq_rows f !! n) as [r|] eqn:Hn; simpl.
  2:{ right. split; [by intros k r (? & _)|]. right. exists n. by rewrite Hn. }
  destruct (Hids _ _ Hn) as [_ Hck].
  assert (Hl : sqlite_intents (sq_rows f) !! row_key r = Some (row_record r)).
  { apply sqlite_lookup; [done|]. by exists n, r. }
  destruct (row_open r) eqn:Ho.
  - left. exists n, r. do 3 (split; [done|]). split; [done|]. split; [done|]. by apply row_open_state.
  - right. split; [|right; exists n; by rewrite Hn]. intros k r' ([= <-] & Hk & Hst).
    rewrite Hl in Hk. injection Hk as <-. apply row_open_state in Hst; congruence.
Qed.

(** Rewriting an open row in place. *)
Lemma close_row_law f id (upd : Z → IntentRow → IntentRow) st :
  sqlite_ok f →
  (∀ now r, row_key (upd now r) = row_key r ∧
     (row_checked r → row_open r = true →
      row_checked (upd now r) ∧ row_record (upd now r) = set_state st (row_record r))) →
  ∃ f' answer, close_row f id (λ now rows n r, <[n := upd now r]> rows) = (f', answer) ∧ sqlite_ok f' ∧
    (∀ id', sqlite_named (sq_rows f') id' = sqlite_named (sq_rows f) id') ∧
    closes (sqlite_intents (sq_rows f)) (sqlite_intents (sq_rows f')) (sqlite_named (sq_rows f) id)
      (λ k r, <[k := set_state st r]> (sqlite_intents (sq_rows f))) answer.
Proof.
  intros Hok Hupd. pose proof Hok as [[now Hclk] Hu Hids]. unfold close_row, now_ms. rewrite Hclk. simpl.
  destruct (open_row f id Hok) as [(n & r & -> & Hn & Ho & Hopen)|(Hno & Hid)].
  - rewrite Hn, Ho. destruct (Hupd now r) as [Hkey Hup]. destruct (Hids _ _ Hn) as [Hrange Hck].
    destruct (Hup Hck Ho) as [Hck' Hrec].
    destruct (sqlite_insert (sq_rows f) n (upd now r) Hu) as [Hu' Hlog].
    { intros m r' Hm. rewrite Hkey. split; [by eauto|]. intros ->. congruence. }
    do 2 eexists. split; [done|]. split; [|split].
    + constructor; simpl; [by rewrite Hclk|done|]. by apply map_Forall_insert_2.
    + intros id'. cbn [sq_rows set_rows]. apply sqlite_named_insert. by rewrite Hn, Hkey.
    + left. exists (row_key r), (row_record r). split; [done|]. split; [done|]. simpl. by rewrite Hlog, Hkey, Hrec.
  - exists f, (Err ContractError). split; [|split; [done|split; [done|by right]]].
    destruct Hid as [->|(n & -> & Hrow)]; [done|]. destruct (sq_rows f !! n); [by rewrite Hrow|done].
Qed.

Lemma finish_row_ok now text r :
  row_key (finish_row now text r) = row_key r ∧
  (row_checked r → row_open r = true →
   row_checked (finish_row now text r) ∧
   row_record (finish_row now text r) = set_state (IFinished text) (row_record r)).
Proof.
  split; [done|]. intros (Hf & Hb & Hx & Hv) Ho. unfold row_open in Ho.
  destruct (row_finished_at r), (row_resolved_at r) eqn:Er; try done.
  split; [|done]. unfold row_checked. simpl. rewrite Er. repeat split; try done; try apply Hb. by right.
Qed.

Lemma resolve_row_ok now b r :
  row_key (resolve_row now b r) = row_key r ∧
  (row_checked r → row_open r = true →
   row_checked (resolve_row now b r) ∧
   row_record (resolve_row now b r) = set_state (IResolved b) (row_record r)).
Proof.
  split; [done|]. intros (Hf & Hb & Hx & Hv) Ho. unfold row_open in Ho.
  destruct (row_finished_at r) eqn:Ef, (row_resolved_at r); try done.
  assert (row_outcome r = None) as Eo by (by apply Hf). split.
  - unfold row_checked. simpl. rewrite Eo, Ef. repeat split; try done; [by left|]. intros t [= <-]. by exists b.
  - unfold row_record, set_state. cbn [row_outcome resolve_row row_resolved_basis row_input_hash in_hash mbind option_bind].
    by rewrite Eo, from_as_sql.
Qed.

#[export, refine] Instance sqlite_laws : IntentLaws SqliteFile := {
  intents f := sqlite_intents (sq_rows f);
  named f := sqlite_named (sq_rows f);
  key_of i := (it_tenant i, it_idempotency_key i);
  store_ok := sqlite_ok;
  accepts f i := (it_deadline_ms i ≤ i64_max)%Z ∧ is_Some (next_rowid (sq_rows f));
}.
Proof.
  - intros f id k [_ Hu _] Hn. unfold sqlite_named in Hn.
    destruct (parse_i64 id) as [n|]; simpl in Hn; [|done].
    destruct (sq_rows f !! n) as [r|] eqn:Hr; [|done]. injection Hn as <-.
    exists (row_record r). apply sqlite_lookup; [done|]. by exists n, r.
  - intros f i Hok [Hd Hn]. by apply sqlite_begin_law.
  - intros f id v Hok. apply (close_row_law f id (λ now, finish_row now (print_json v))); [done|].
    intros. apply finish_row_ok.
  - intros f id Hok. pose proof Hok as [Hclk Hu Hids]. simpl. unfold sqlite_release.
    destruct (open_row f id Hok) as [(n & r & -> & Hn & Ho & Hopen)|(Hno & Hid)].
    + rewrite Hn, Ho. destruct (sqlite_delete _ _ _ Hu Hn) as [Hu' Hlog].
      do 2 eexists. split; [done|]. split; [|split].
      * constructor; simpl; [done|done|]. by apply map_Forall_delete.
      * intros id' k' Hid' Hne. destruct Hopen as (Hnm & _). rewrite Hnm in Hne. cbn [sq_rows set_rows].
        unfold sqlite_named in *. destruct (parse_i64 id') as [m|]; simpl in *; [|done].
        rewrite lookup_delete_ne; [done|]. intros <-. rewrite Hn in Hid'. simpl in Hid'. congruence.
      * left. exists (row_key r), (row_record r). split; [done|]. by split.
    + exists f, (Err ContractError). split; [|split; [done|split; [done|by right]]].
      destruct Hid as [->|(n & -> & Hrow)]; [done|]. destruct (sq_rows f !! n); [by rewrite Hrow|done].
  - intros f id b Hok.
    destruct (close_row_law f id (λ now, resolve_row now b) (IResolved b) Hok) as (f' & a & ? & ? & ? & ?).
    { intros. apply resolve_row_ok. }
    exists f', a. split; [done|]. split; [done|]. split; [done|]. by right.
Defined.

End SqliteLaws.

(** A begin the contract does not speak of writes nothing and runs nothing. *)
Lemma sqlite_begin_any `{JsonPrint, JsonText, SqliteRowidLaw} f i f' answer :
  sqlite_ok f → begin_intent f i = (f', answer) →
  accepts f i ∨ (f' = f ∧ ∀ id, answer ≠ Ok (BNew id)).
Proof.
  intros Hok Hb. simpl in Hb. unfold begin_text in Hb. destruct (Z.ltb_spec i64_max (it_deadline_ms i)) as [|Hd].
  { right. by injection Hb as <- <-. }
  destruct (next_rowid (sq_rows f)) as [n|] eqn:Hn; [left; split; [done|by rewrite Hn]|]. right.
  unfold sqlite_begin in Hb. rewrite Hn in Hb. destruct (select_key _ _) as [[m r]|].
  - injection Hb as <- <-. split; [done|]. intros id. destruct (String.eqb (row_input_hash r) _); simpl; [|done].
    destruct (row_outcome r) as [text|]; simpl; [by destruct (stored_outcome text)|].
    destruct (row_resolved_basis r) as [text|]; simpl; [by destruct (from_sql text)|done].
  - destruct (now_ms f); by injection Hb as <- <-.
Qed.

Lemma write_log_begin_any `{JsonPrint, JsonText} s i s' answer :
  has_char hash_sign (log_operation (it_operation i)) = false → begin_intent s i = (s', answer) →
  accepts s i ∨ (s' = s ∧ ∀ id, answer ≠ Ok (BNew id)).
Proof.
  intros Ho Hb. simpl in Hb. destruct (String.eqb_spec (it_tenant i) (ws_env_key s)) as [Ht|]; [by left|].
  right. by injection Hb as <- <-.
Qed.
