(* ===== verification/LoggedCall.v ===== *)
(** * Logged calls: each request element claims its key, runs once, and answers

    [crates/platform/engine/src/operation/intent.rs]: [logs_intent],
    [request_elements], [request_element_hash], [settle_request_element] and
    [invoke_logged], over the host's operations ([OperationCall]'s application, the
    request element's transaction, the export, the clock) as the class
    [LoggedHost].  [TransactedCalls] gives them for an operation with SQL. *)

From stdpp Require Import base tactics option list gmap strings.
From Stdlib Require Import ZArith Lia.
From S2P Require Import Prelude Text Json Canonical RunStatus Authority Driver Intents CanonicalForm.
#[local] Set Warnings "-clear-no-such-hyp".
#[local] Open Scope Z_scope.
#[local] Open Scope wamn_scope.

Definition INTENT_UNCERTAIN : string := "intent-uncertain".
Definition INTENT_RESOLVED : string := "intent-resolved".
Definition IDEMPOTENCY_CONFLICT : string := "idempotency_conflict".
Definition INVALID_INPUT : string := "invalid_input".
Definition REQUEST_ID : string := "request_id".

Record IntentContext := {
  ic_tenant : string;
  ic_release : string;
  ic_package : string;
  ic_kind : OperationType;
  ic_key_field : option string;
  ic_canonicalization : option RouteCanonicalization;
}.

Definition logs_intent (kind : OperationType) : bool :=
  match kind with Create | Update | Delete | Command => true | _ => false end.

(** ** The request element envelope *)

Record RequestElement := { re_request_id : string; re_key : string; re_value : Value }.

(** [value.get(name)] along a dotted path. *)
Definition get_path (path : string) (v : Value) : option Value :=
  fold_left (λ o name, o ≫= get name) (split_char dot path) (Some v).

Definition request_element (key_field : option string) (value : Value) : result RequestElement string :=
  let? request_id := ok_or (get REQUEST_ID value ≫= as_str) "a request element has no request_id" in
  let? key := match key_field with
              | Some field => ok_or (get_path field value ≫= as_str)
                                ("request element " +:+ request_id +:+ " has no " +:+ field)
              | None => Ok request_id
              end in
  Ok {| re_request_id := request_id; re_key := key; re_value := value |}.

(** [keys] holds the keys the call has already named. *)
Fixpoint request_elements_from (key_field : option string) (keys : list string) (values : list Value) :
    result (list RequestElement) string :=
  match values with
  | [] => Ok []
  | value :: values' =>
      let? element := request_element key_field value in
      if bool_decide (re_key element ∈ keys) then
        Err ("the key " +:+ re_key element +:+ " repeats within one call")
      else
        let? rest := request_elements_from key_field (re_key element :: keys) values' in
        Ok (element :: rest)
  end.

Definition request_elements (input : Value) (key_field : option string) :
    result (list RequestElement) string :=
  match input with
  | VArray values => request_elements_from key_field [] values
  | _ => Err "the input is not a request element list"
  end.

Definition map_remove (k : string) (m : list (string * Value)) : list (string * Value) :=
  filter (λ kv, kv.1 ≠ k) m.

Definition request_element_hash `{FloatText, Sha256} (v : Value) : string :=
  canonical_json_sha256 (match v with VObject m => VObject (map_remove REQUEST_ID m) | v => v end).

(** ** Answers *)

Definition refusal (code message : string) (detail : Value) : Value :=
  VObject [("error", VObject (map_from_iter
    [("code", VString code); ("message", VString message); ("detail", detail)]))].

Definition coded_error (code : option string) (message : string) : Value :=
  VObject [("error", VObject
    [("code", match code with Some c => VString c | None => VNull end); ("message", VString message)])].

(** The detail of an error; a cancelled call has none, and the code calls
    [failed_body] on no such call. *)
Definition error_detail (e : WireError) : option WireDetail :=
  match e with
  | WRetryable d | WTerminal d | WInvalidInput d | WRateLimited d _ => Some d
  | WCancelled => None
  end.

Definition failed_body (d : WireDetail) : Value := coded_error (wd_code d) (wd_message d).

Definition uncertain (id : IntentId) : Value :=
  refusal INTENT_UNCERTAIN ("intent " +:+ id +:+ " began and never finished; an operator resolves it")
    (VObject [("intent", VString id)]).

Definition resolved_answer (id : IntentId) (basis : OperatorActionBasis) : Value :=
  refusal INTENT_RESOLVED
    ("an operator resolved intent " +:+ id +:+ " by " +:+ as_sql basis +:+ "; send a new key")
    (VObject [("basis", VString (as_sql basis)); ("intent", VString id)]).

Definition conflict_answer (key_field : option string) (key : string) (id : IntentId) : Value :=
  refusal IDEMPOTENCY_CONFLICT ("the key " +:+ key +:+ " repeats with another input")
    (VObject [("field", VString (default REQUEST_ID key_field)); ("intent", VString id)]).

Definition no_answer (request_id : string) : Value :=
  refusal "internal_error" ("the export answered nothing for request element " +:+ request_id) VNull.

(** [Vec<Map<String, Value>>] of a payload. *)
Definition result_maps `{JsonText} (payload : string) : option (list (list (string * Value))) :=
  parse_json payload ≫= λ v,
    match v with
    | VArray l => mapM (λ e, match e with VObject m => Some m | _ => None end) l
    | _ => None
    end.

(** The body of the result that answers a request id. *)
Definition element_body (request_id : string) (results : list (list (string * Value))) : option Value :=
  head (omap (λ m,
    match map_get REQUEST_ID m with
    | Some (VString s) => if String.eqb s request_id then Some (VObject (map_remove REQUEST_ID m)) else None
    | _ => None
    end) results).

(** One answer of the merged list. *)
Definition merged_answer (e : RequestElement) (body : Value) : Value :=
  let answer := [(REQUEST_ID, VString (re_request_id e))] in
  VObject (match body with
           | VObject m => fold_left (λ a '(k, v), map_insert k v a) m answer
           | _ => answer
           end).

(** ** The host *)

Inductive CommitFailure :=
| RolledBack (code message : string)
| CommitUncertain (message : string).

(** A computation over the host's world that may fail. *)
Definition HostM (W A : Type) : Type := W → W * result A AnyError.
Definition host_ret {W A} (a : A) : HostM W A := λ w, (w, Ok a).
Definition host_fail {W A} (text : string) : HostM W A := λ w, (w, Err (EOther text)).
Definition host_bind {W A B} (m : HostM W A) (k : A → HostM W B) : HostM W B :=
  λ w, let '(w', r) := m w in match r with Ok a => k a w' | Err e => (w', Err e) end.
Notation "'let*' x ':=' m 'in' k" := (host_bind m (λ x, k))
  (at level 10, x name, m at level 100, k at level 200) : wamn_scope.

(** A store call as a host computation: its error becomes the call's. *)
Definition store_call {W A} (f : W → W * result A StoreErrorType) : HostM W A :=
  λ w, let '(w', r) := f w in
       (w', match r with Ok a => Ok a | Err _ => Err (EOther "intent store") end).

(** What a logged call needs of its host.  [T] is a request element's
    transaction, which [drop_transaction] ends when its scope does. *)
Class LoggedHost (W T : Type) := {
  instant_now : W → W * Z;  (* nanoseconds *)
  component_ready : HostM W unit;
  admit_and_open_transaction : string → HostM W (option T);
  run_export : option T → string → Value → Z → HostM W (result Emission WireError);
  transaction_store : T → option (IntentStore W);
  commit_transaction : T → W → W * result unit CommitFailure;
  rollback_transaction : T → HostM W unit;
  drop_transaction : option T → W → W;
  finish_result : string → result Emission WireError → HostM W (result Emission WireError);
}.

Definition now {W T} `{LoggedHost W T} : HostM W Z := λ w, let '(w', t) := instant_now w in (w', Ok t).

(** ** Settling one request element *)

Inductive Settled :=
| SAnswer (body : Value) (id : option IntentId) (commit : bool) (port : option string)
| SCancelled
| SFailed (e : WireError).

Definition answer_only (body : Value) : Settled := SAnswer body None false None.

Section LoggedCalls.
Context {W T : Type} `{LoggedHost W T, JsonText, JsonPrint, FloatText, Sha256, Chrono}.

(** The request hash of an element's intent. *)
Definition element_hash (ctx : IntentContext) (e : RequestElement) : string :=
  request_element_hash
    (match ic_canonicalization ctx with Some form => hashed form (re_value e) | None => re_value e end).

Definition intent_of (operation : string) (deadline_ms : Z) (ctx : IntentContext) (e : RequestElement) :
    Intent := {|
  it_tenant := ic_tenant ctx; it_release := ic_release ctx; it_package := ic_package ctx;
  it_operation := operation; it_idempotency_key := re_key e;
  it_input_hash := element_hash ctx e;
  it_deadline_ms := deadline_ms |}.

(** What the export's emission settles. *)
Definition settle_emission (store : IntentStore W) (transacted : bool) (e : RequestElement) (id : IntentId)
    (emission : Emission) : HostM W Settled :=
  match result_maps (em_payload emission) with
  | None => host_fail "a logged call emitted no request element list"
  | Some results =>
      match element_body (re_request_id e) results with
      | None =>
          if transacted then
            let* _ := store_call (λ w, release_intent w id) in
            host_ret (answer_only (no_answer (re_request_id e)))
          else host_ret (answer_only (uncertain id))
      | Some body =>
          match get "error" body with
          | Some _ => let* _ := store_call (λ w, release_intent w id) in host_ret (answer_only body)
          | None =>
              let* _ := store_call (λ w, finish_intent w id body) in
              host_ret (SAnswer body (Some id) true (em_port emission))
          end
      end
  end.

(** What the caller does with the export's outcome; [whole] is the number of request
    elements of the call. *)
Definition settle_outcome (store : IntentStore W) (transacted : bool) (whole : nat) (e : RequestElement) (id : IntentId)
    (outcome : result Emission WireError) : HostM W Settled :=
  match outcome with
  | Ok emission => settle_emission store transacted e id emission
  | Err error =>
      match error_detail error with
      | None => host_ret SCancelled
      | Some d =>
          let* _ := store_call (λ w, release_intent w id) in
          host_ret (if (whole =? 1)%nat then SFailed error else answer_only (failed_body d))
      end
  end.

Definition settle_request_element (store : IntentStore W) (operation : string) (deadline_ms : Z)
    (ctx : IntentContext) (whole : nat) (tx : option T) (e : RequestElement) : HostM W Settled :=
  let* begun := store_call (λ w, begin_intent w (intent_of operation deadline_ms ctx e)) in
  match begun with
  | BFinished body => host_ret (answer_only body)
  | BUncertain id => host_ret (answer_only (uncertain id))
  | BResolved id basis => host_ret (answer_only (resolved_answer id basis))
  | BConflict id => host_ret (answer_only (conflict_answer (ic_key_field ctx) (re_key e) id))
  | BNew id =>
      let* outcome := run_export tx operation (VArray [re_value e]) deadline_ms in
      settle_outcome store (if tx is Some _ then true else false) whole e id outcome
  end.

(** ** The calls *)

Context (own_store : IntentStore W).

Definition rollback_if (tx : option T) : HostM W unit :=
  match tx with Some t => rollback_transaction t | None => host_ret tt end.

(** How a settled request element ends its transaction, and its answer. *)
Definition conclude (tx : option T) (settled : Settled) : HostM W (result (Value * option string) WireError) :=
  match settled with
  | SCancelled => let* _ := rollback_if tx in host_ret (Err WCancelled)
  | SFailed error => let* _ := rollback_if tx in host_ret (Err error)
  | SAnswer body id commit port =>
      match tx with
      | None => host_ret (Ok (body, port))
      | Some t =>
          if commit : bool then
            λ w, let '(w', committed) := commit_transaction t w in
                 match committed with
                 | Ok _ => host_ret (Ok (body, port)) w'
                 | Err (CommitUncertain _) =>
                     match id with
                     | Some id => host_ret (Ok (uncertain id, port)) w'
                     | None => host_fail "a committed request element has an intent" w'
                     end
                 | Err (RolledBack code message) => host_ret (Ok (coded_error (Some code) message, port)) w'
                 end
          else let* _ := rollback_transaction t in host_ret (Ok (body, port))
      end
  end.

(** One turn of the loop, before the deadline instant [deadline]. *)
Definition logged_element (operation : string) (deadline : Z) (ctx : IntentContext) (whole : nat)
    (e : RequestElement) : HostM W (result (Value * option string) WireError) :=
  let* at_ := now in
  let remaining := Z.max 0 (deadline - at_) in
  if remaining =? 0 then host_fail "native node enclosing deadline elapsed"
  else
    let deadline_ms := Z.max 1 (Z.min u64_max (remaining / 1000000)) in
    let* tx := admit_and_open_transaction operation in
    λ w,
      let store := default own_store (tx ≫= transaction_store) in
      let '(w', r) := (let* settled := settle_request_element store operation deadline_ms ctx whole tx e in
                       conclude tx settled) w in
      (drop_transaction tx w', r).

(** The loop: the answers in order and the last port, or the error that ends the
    call. *)
Fixpoint logged_elements (operation : string) (deadline : Z) (ctx : IntentContext) (whole : nat)
    (es : list RequestElement) (port : option string) :
    HostM W (result (list Value * option string) WireError) :=
  match es with
  | [] => host_ret (Ok ([], port))
  | e :: es' =>
      let* answered := logged_element operation deadline ctx whole e in
      match answered with
      | Err error => host_ret (Err error)
      | Ok (body, element_port) =>
          let* rest := logged_elements operation deadline ctx whole es'
                         (match element_port with Some _ => element_port | None => port end) in
          host_ret (let? '(bodies, port') := rest in Ok (body :: bodies, port'))
      end
  end.

Definition canonical_input (ctx : IntentContext) (input : Value) : Value :=
  match ic_canonicalization ctx, input with
  | Some form, VArray l => VArray (apply form <$> l)
  | _, input => input
  end.

Definition invoke_logged (operation : string) (deadline_ms : Z) (input : Value) (ctx : IntentContext) :
    HostM W (result Emission WireError) :=
  match request_elements (canonical_input ctx input) (ic_key_field ctx) with
  | Err message =>
      host_ret (Err (WInvalidInput {| wd_message := message; wd_code := Some INVALID_INPUT |}))
  | Ok es =>
      let* _ := component_ready in
      let* start := now in
      let deadline := start + deadline_ms * 1000000 in
      let* settled := logged_elements operation deadline ctx (length es) es None in
      host_ret (let? '(bodies, port) := settled in
                Ok {| em_payload := print_json (VArray (zip_with merged_answer es bodies)); em_port := port |})
  end.

(** [invoke_operation] of [operation.rs]: only a kind that changes records logs. *)
Definition invoke_operation (operation : string) (deadline_ms : Z) (input : Value)
    (intent : option IntentContext) : HostM W (result Emission WireError) :=
  let* outcome := match intent with
                  | Some ctx => if logs_intent (ic_kind ctx)
                                then invoke_logged operation deadline_ms input ctx
                                else run_export None operation input deadline_ms
                  | None => run_export None operation input deadline_ms
                  end in
  finish_result operation outcome.

End LoggedCalls.
