(* ===== verification/IntentCalls.v ===== *)
(** * Calls over the intent stores

    The caller of [crates/platform/engine/src/operation/intent.rs] over the two stores of
    [IntentStores], for an operation that opens no transaction of its own: the steps of
    [settle_request_element] (begin, run the export, settle its outcome), taken by any
    number of hosts in any interleaving, with calls that are lost on the way and operators
    that resolve an intent at any time. *)

From stdpp Require Import base tactics option list gmap strings relations.
From Stdlib Require Import ZArith Lia.
From S2P Require Import Prelude Text Json Canonical RunStatus Authority Driver Intents CanonicalForm IntentStores LoggedCall.
#[local] Open Scope wamn_scope.

Section Callers.
Context {S : Type} `{FloatText, Sha256, Chrono} `{IntentLaws S}.

(** ** Calls in flight *)

(** A request element whose export runs under the intent it began. *)
Record CallInFlight := {
  cf_intent : IntentId;
  cf_operation : string;
  cf_deadline_ms : Z;
  cf_context : IntentContext;
  cf_element : RequestElement;
  cf_whole : nat;  (* the request elements of its call *)
}.

Definition cf_key (c : CallInFlight) : Key :=
  key_of (intent_of (cf_operation c) (cf_deadline_ms c) (cf_context c) (cf_element c)).

Record Calls := {
  cs_store : S;
  cs_running : list CallInFlight;
  cs_runs : list Key;      (* every export that ran *)
  cs_released : list Key;  (* every key an export's refusal gave back *)
}.

Definition no_calls (s : S) : Calls := {| cs_store := s; cs_running := []; cs_runs := []; cs_released := [] |}.

(** The export refused the request: by an error other than a cancellation, or by the answer
    to this request element. *)
Definition refused (e : RequestElement) (outcome : result Emission WireError) : bool :=
  match outcome with
  | Err error => match error_detail error with Some _ => true | None => false end
  | Ok emission =>
      match result_maps (em_payload emission) ≫= element_body (re_request_id e) with
      | Some body => match get "error" body with Some _ => true | None => false end
      | None => false
      end
  end.

(** One step; [called] says which operations are called. *)
Inductive caller_step (called : string → Prop) (h : Calls) : Calls → Prop :=
| call_begins id operation deadline_ms ctx e whole s' : called operation →
    begin_intent (cs_store h) (intent_of operation deadline_ms ctx e) = (s', Ok (BNew id)) →
    let c := {| cf_intent := id; cf_operation := operation; cf_deadline_ms := deadline_ms; cf_context := ctx;
                cf_element := e; cf_whole := whole |} in
    caller_step called h {| cs_store := s'; cs_running := c :: cs_running h; cs_runs := cf_key c :: cs_runs h;
                            cs_released := cs_released h |}
| call_answered operation deadline_ms ctx e s' answer : called operation →
    begin_intent (cs_store h) (intent_of operation deadline_ms ctx e) = (s', answer) →
    (∀ id, answer ≠ Ok (BNew id)) →
    caller_step called h {| cs_store := s'; cs_running := cs_running h; cs_runs := cs_runs h;
                            cs_released := cs_released h |}
| call_settles l l' c outcome s' r : cs_running h = l ++ c :: l' →
    settle_outcome _ false (cf_whole c) (cf_element c) (cf_intent c) outcome (cs_store h) = (s', r) →
    caller_step called h {| cs_store := s'; cs_running := l ++ l'; cs_runs := cs_runs h;
      cs_released := if refused (cf_element c) outcome && is_ok r then cf_key c :: cs_released h else cs_released h |}
| call_lost l l' c : cs_running h = l ++ c :: l' →
    caller_step called h {| cs_store := cs_store h; cs_running := l ++ l'; cs_runs := cs_runs h;
                            cs_released := cs_released h |}
| operator_resolves id b s' answer : resolve_intent (cs_store h) id b = (s', answer) →
    caller_step called h {| cs_store := s'; cs_running := cs_running h; cs_runs := cs_runs h;
                            cs_released := cs_released h |}.

(** ** The caller's store calls *)

(** Settling an outcome releases the intent of a refusal, finishes that of an answer, and
    otherwise leaves the store. *)
Lemma settle_outcome_calls whole e id outcome s s' r :
  settle_outcome _ false whole e id outcome s = (s', r) →
  if refused e outcome
  then ∃ answer, release_intent s id = (s', answer) ∧ is_ok r = is_ok answer
  else s' = s ∨ ∃ v answer, finish_intent s id v = (s', answer).
Proof.
  unfold settle_outcome, refused. destruct outcome as [emission|error].
  - unfold settle_emission. destruct (result_maps (em_payload emission)) as [results|]; cbn [mbind option_bind].
    2: { unfold host_fail. intros [= <- _]. by left. }
    destruct (element_body (re_request_id e) results) as [body|]; [|intros [= <- _]; by left].
    destruct (get "error" body); unfold host_bind, store_call.
    + destruct (release_intent s id) as [s1 [[]|]] eqn:E; intros [= <- <-]; by eexists.
    + destruct (finish_intent s id body) as [s1 [[]|]] eqn:E; intros [= <- <-]; right; by exists body; eexists.
  - destruct (error_detail error) as [d|]; [|intros [= <- _]; by left]. unfold host_bind, store_call.
    destruct (release_intent s id) as [s1 [[]|]] eqn:E; intros [= <- <-]; by eexists.
Qed.

(** ** A history of the store *)

Definition history_of (h : Calls) : History S := {|
  h_store := cs_store h; h_running := (λ c, (cf_intent c, cf_key c)) <$> cs_running h;
  h_runs := cs_runs h; h_released := cs_released h |}.

Context (called : string → Prop).
Hypothesis begin_any : ∀ s i s' answer, store_ok s → called (it_operation i) → begin_intent s i = (s', answer) →
  accepts s i ∨ (s' = s ∧ ∀ id, answer ≠ Ok (BNew id)).

Lemma settles_history h l l' c outcome s' r :
  cs_running h = l ++ c :: l' →
  settle_outcome _ false (cf_whole c) (cf_element c) (cf_intent c) outcome (cs_store h) = (s', r) →
  call_step (history_of h) (history_of {| cs_store := s'; cs_running := l ++ l'; cs_runs := cs_runs h;
    cs_released := if refused (cf_element c) outcome && is_ok r then cf_key c :: cs_released h else cs_released h |}).
Proof.
  intros Hrun Hset. apply settle_outcome_calls in Hset. unfold history_of. cbn. rewrite fmap_app.
  assert (Er : h_running (history_of h) = ((λ c, (cf_intent c, cf_key c)) <$> l) ++
    (cf_intent c, cf_key c) :: ((λ c, (cf_intent c, cf_key c)) <$> l')) by (cbn; by rewrite Hrun, fmap_app).
  destruct (refused (cf_element c) outcome); cbn [andb].
  - destruct Hset as (answer & E & ->). exact (step_release (history_of h) _ _ _ _ s' answer Er E).
  - destruct Hset as [->|(v & answer & E)]; [exact (step_lost (history_of h) _ _ _ _ Er)|].
    exact (step_finish (history_of h) _ _ _ _ v s' answer Er E).
Qed.

Lemma caller_step_history h h' : store_ok (cs_store h) → caller_step called h h' →
  rtc call_step (history_of h) (history_of h').
Proof.
  intros Hs. destruct 1 as [id operation deadline_ms ctx e whole s' Hc Hb c|operation deadline_ms ctx e s' answer Hc Hb Hnew
    |l l' c outcome s' r Hrun Hset|l l' c Hrun|id b s' answer Hr].
  - destruct (begin_any _ (intent_of operation deadline_ms ctx e) _ _ Hs Hc Hb) as [Ha|[_ Hno]]; [|by destruct (Hno id)].
    apply rtc_once. exact (step_run (history_of h) _ s' id Ha Hb).
  - destruct (begin_any _ (intent_of operation deadline_ms ctx e) _ _ Hs Hc Hb) as [Ha|[-> _]]; [|by destruct h].
    apply rtc_once. exact (step_answer (history_of h) _ s' answer Ha Hb Hnew).
  - by eapply rtc_once, settles_history.
  - apply rtc_once. unfold history_of. cbn. rewrite fmap_app.
    eapply (step_lost (history_of h) _ _ (cf_intent c) (cf_key c)). cbn. by rewrite Hrun, fmap_app.
  - apply rtc_once. exact (step_resolve (history_of h) id b s' answer Hr).
Qed.

Lemma callers_history h h' : history_ok (history_of h) → rtc (caller_step called) h h' →
  rtc call_step (history_of h) (history_of h').
Proof.
  intros Hok Hs. revert Hok. induction Hs as [h|h h1 h' Hs _ IH]; intros Hok; [done|].
  pose proof (caller_step_history h h1 (ho_store _ Hok) Hs) as Hone. etrans; [exact Hone|]. apply IH. by eapply calls_ok.
Qed.

(** What every history of callers gives. *)
Definition runs_once (h : Calls) : Prop :=
  (∀ k, count k (cs_runs h) = (count k (cs_released h) + recorded (intents (cs_store h)) k)%nat) ∧
  NoDup (cf_key <$> cs_running h) ∧
  (∀ h' k r, rtc (caller_step called) h h' → intents (cs_store h) !! k = Some r → in_state r ≠ IOpen →
     intents (cs_store h') !! k = Some r ∧ count k (cs_runs h') = count k (cs_runs h)).

Lemma callers_run_once s h : store_ok s → intents s = ∅ → rtc (caller_step called) (no_calls s) h → runs_once h.
Proof.
  intros Hs Hi Hc. pose proof (fresh_ok s Hs Hi) as Hfr. change (fresh s) with (history_of (no_calls s)) in Hfr.
  pose proof (calls_ok _ _ Hfr (callers_history _ _ Hfr Hc)) as Hok. split_and!.
  - apply (ho_count _ Hok).
  - pose proof (ho_distinct _ Hok) as Hd. cbn in Hd. by rewrite <- list_fmap_compose in Hd.
  - intros h' k r Hc'. apply (calls_closed (history_of h) (history_of h')); [done|]. by apply callers_history.
Qed.

End Callers.
Arguments Calls S : clear implicits.

(** ** The two stores *)

(** The log of a project database names an operation that has no separator. *)
Definition separable (operation : string) : Prop := has_char hash_sign (log_operation operation) = false.


(** ** A call that runs, one that is refused, and the same requests again *)

Module IntentSample.

#[local] Instance prints : JsonPrint := λ v, match get "error" v with Some _ => "refused" | None => "{}" end.
#[local] Instance parses : JsonText := λ s,
  if String.eqb s "made" then Some (VArray [VObject [("request_id", VString "k")]])
  else if String.eqb s "refused" then Some (VArray [VObject [("error", VNull); ("request_id", VString "k")]])
  else Some (VObject []).
#[local] Instance no_random : SqliteRowid := λ _, None.
#[local] Instance no_random_law : SqliteRowidLaw.
Proof. by intros rows n. Qed.
#[local] Instance floats : FloatText := λ _, "0.0".
#[local] Instance digest : Sha256 := λ s, [].
#[local] Instance chrono : Chrono := {| instant := unit; parse_rfc3339 _ := None; format_timestamptz _ := "" |}.

Definition ctx : IntentContext := {| ic_tenant := "t"; ic_release := "1"; ic_package := "p";
  ic_kind := Create; ic_key_field := None; ic_canonicalization := None |}.
Definition element : RequestElement :=
  {| re_request_id := "k"; re_key := "k"; re_value := VObject [("request_id", VString "k")] |}.
Definition request : Intent := intent_of "p:m.create@1" 10 ctx element.
Definition outcome (payload : string) : result Emission WireError := Ok {| em_payload := payload; em_port := None |}.
Definition flying (id : string) : CallInFlight := {|
  cf_intent := id; cf_operation := "p:m.create@1"; cf_deadline_ms := 10; cf_context := ctx; cf_element := element;
  cf_whole := 1 |}.

Definition empty_file : SqliteFile := {| sq_rows := ∅; sq_clock := Some 5%Z |}.
Definition begun (f : SqliteFile) : SqliteFile := (begin_intent f request).1.
Definition settled (payload : string) (f : SqliteFile) : SqliteFile :=
  (settle_outcome sqlite_store false 1 element "1" (outcome payload) f).1.
(** Refused once, then made. *)
Definition made : SqliteFile := settled "made" (begun (settled "refused" (begun empty_file))).
Definition after : Calls SqliteFile :=
  {| cs_store := made; cs_running := []; cs_runs := [("t", "k"); ("t", "k")]; cs_released := [("t", "k")] |}.


End IntentSample.
