(* ===== verification/TransactedCalls.v ===== *)
(** * Operations with SQL: the claim commits with the work

    [OperationTransaction] of [wamn_postgres/operation_transaction.rs] and its
    [IntentStore] of [write_log.rs]: a request element claims its key, runs its
    export and stores its result in one transaction of the project database.  The
    database is the write log and the application's records; statements, commits
    and their answers may fail at every point.  The theorems refine the logged
    calls of [LoggedCall] to an executor that runs each key once. *)

From stdpp Require Import base tactics option list gmap strings.
From Stdlib Require Import ZArith Lia.
From S2P Require Import Prelude Text Json Canonical RunStatus Authority Driver Intents CanonicalForm.
From S2P Require Import IntentStores LoggedCall.
#[local] Set Warnings "-clear-no-such-hyp".
#[local] Open Scope Z_scope.
#[local] Open Scope wamn_scope.

(** ** The database *)

(** The errors of PostgreSQL the commit tells apart. *)
Inductive PgError := SerializationFailure | ConnectionUnavailable | StatementTimeout | OtherError.

Definition commit_code (e : PgError) : string :=
  match e with
  | SerializationFailure | ConnectionUnavailable => "retry"
  | StatementTimeout => "timeout"
  | OtherError => "internal_error"
  end.

(** What becomes of a commit: it succeeds; the connection is found closed; the
    server refuses a statement of it; or the answer is lost, after the server
    committed or without. *)
Inductive CommitFate :=
| FateCommitted
| FateClosed
| FateRefused (e : PgError)
| FateLost (committed : bool) (e : PgError).

(** An open transaction: its view of the write log and of the records, the result
    staged for its commit, and whether its connection is gone. *)
Record PgTransaction (D : Type) := {
  tx_log : WriteLog;
  tx_records : D;
  tx_known : option string;
  tx_finish : option (Key * string);
  tx_finished : bool;
}.
Arguments tx_log {D} _.
Arguments tx_records {D} _.
Arguments tx_known {D} _.
Arguments tx_finish {D} _.
Arguments tx_finished {D} _.

(** [D] is the application's records and [E] what lies outside the database.  The
    three scripts choose which statements fail, how commits end and what the clock
    says; a script that has run out chooses no failure. *)
Record PgWorld (D E : Type) := {
  pg_log : WriteLog;
  pg_records : D;
  pg_tx : option (PgTransaction D);
  pg_env : E;
  pg_faults : list bool;
  pg_fates : list CommitFate;
  pg_instants : list Z;
  pg_clock : Z;
}.
Arguments pg_log {D E} _.
Arguments pg_records {D E} _.
Arguments pg_tx {D E} _.
Arguments pg_env {D E} _.
Arguments pg_faults {D E} _.
Arguments pg_fates {D E} _.
Arguments pg_instants {D E} _.
Arguments pg_clock {D E} _.

(** What a component does with the records it sees: the records it leaves, whether
    a statement of it failed, and its outcome. *)
Class Guest (D E : Type) := {
  guest : string → Value → D → E → D * bool * E * result (result Emission WireError) AnyError;
  known_result : string → option string;
}.

Section Database.
Context {D E : Type}.

Definition set_tx (tx : option (PgTransaction D)) (w : PgWorld D E) : PgWorld D E := {|
  pg_log := pg_log w; pg_records := pg_records w; pg_tx := tx; pg_env := pg_env w;
  pg_faults := pg_faults w; pg_fates := pg_fates w; pg_instants := pg_instants w; pg_clock := pg_clock w |}.

Definition set_env (e : E) (w : PgWorld D E) : PgWorld D E := {|
  pg_log := pg_log w; pg_records := pg_records w; pg_tx := pg_tx w; pg_env := e;
  pg_faults := pg_faults w; pg_fates := pg_fates w; pg_instants := pg_instants w; pg_clock := pg_clock w |}.

(** Whether the next statement fails. *)
Definition statement_fails (w : PgWorld D E) : PgWorld D E * bool :=
  ({| pg_log := pg_log w; pg_records := pg_records w; pg_tx := pg_tx w; pg_env := pg_env w;
      pg_faults := tail (pg_faults w); pg_fates := pg_fates w; pg_instants := pg_instants w;
      pg_clock := pg_clock w |},
   default false (head (pg_faults w))).

Definition next_fate (w : PgWorld D E) : PgWorld D E * CommitFate :=
  ({| pg_log := pg_log w; pg_records := pg_records w; pg_tx := pg_tx w; pg_env := pg_env w;
      pg_faults := pg_faults w; pg_fates := tail (pg_fates w); pg_instants := pg_instants w;
      pg_clock := pg_clock w |},
   default FateCommitted (head (pg_fates w))).

Definition read_instant (w : PgWorld D E) : PgWorld D E * Z :=
  ({| pg_log := pg_log w; pg_records := pg_records w; pg_tx := pg_tx w; pg_env := pg_env w;
      pg_faults := pg_faults w; pg_fates := pg_fates w; pg_instants := tail (pg_instants w);
      pg_clock := pg_clock w |},
   default 0 (head (pg_instants w))).

Definition publish (log : WriteLog) (records : D) (w : PgWorld D E) : PgWorld D E := {|
  pg_log := log; pg_records := records; pg_tx := pg_tx w; pg_env := pg_env w;
  pg_faults := pg_faults w; pg_fates := pg_fates w; pg_instants := pg_instants w; pg_clock := pg_clock w |}.

Definition with_finish (f : option (Key * string)) (t : PgTransaction D) : PgTransaction D := {|
  tx_log := tx_log t; tx_records := tx_records t; tx_known := tx_known t; tx_finish := f;
  tx_finished := tx_finished t |}.
Definition with_log (log : WriteLog) (t : PgTransaction D) : PgTransaction D := {|
  tx_log := log; tx_records := tx_records t; tx_known := tx_known t; tx_finish := tx_finish t;
  tx_finished := tx_finished t |}.
Definition with_records (d : D) (lost : bool) (t : PgTransaction D) : PgTransaction D := {|
  tx_log := tx_log t; tx_records := d; tx_known := tx_known t; tx_finish := tx_finish t;
  tx_finished := tx_finished t || lost |}.
Definition finished (t : PgTransaction D) : PgTransaction D := {|
  tx_log := tx_log t; tx_records := tx_records t; tx_known := tx_known t; tx_finish := tx_finish t;
  tx_finished := true |}.

(** The transaction whose connection can be taken. *)
Definition live_tx (w : PgWorld D E) : option (PgTransaction D) :=
  pg_tx w ≫= λ t, if tx_finished t then None else Some t.

Context `{JsonText, JsonPrint, Guest D E}.

(** *** The claim inside the transaction *)

(** [log_statement]: a failure takes the connection away. *)
Definition log_statement {A} (f : WriteLog → WriteLog * A) (w : PgWorld D E) :
    PgWorld D E * result A StoreErrorType :=
  match live_tx w with
  | None => (w, Err StorageError)
  | Some t =>
      let '(w', fails) := statement_fails w in
      if fails : bool then (set_tx (Some (finished t)) w', Err StorageError)
      else let '(log, a) := f (tx_log t) in (set_tx (Some (with_log log t)) w', Ok a)
  end.

Definition tx_begin (w : PgWorld D E) (i : Intent) : PgWorld D E * result Begun StoreErrorType :=
  let k := (log_operation (it_operation i), it_idempotency_key i) in
  let id := intent_id (log_operation (it_operation i)) (it_idempotency_key i) in
  let known := pg_tx w ≫= tx_known in
  let '(w1, claimed) := log_statement (λ t, claim_sql (pg_clock w) t k (it_input_hash i) known) w in
  match claimed with
  | Err e => (w1, Err e)
  | Ok true => (w1, Ok (BNew id))
  | Ok false =>
      let '(w2, r) := log_statement (λ t, (t, read_claim t k (it_input_hash i) id)) w1 in
      (w2, let? answer := r in answer)
  end.

Definition tx_store_finish (w : PgWorld D E) (id : IntentId) (outcome : Value) :
    PgWorld D E * result unit StoreErrorType :=
  match pg_tx w with
  | None => (w, Err StorageError)
  | Some t =>
      match tx_known t with
      | Some _ => (w, Ok tt)
      | None =>
          match claim_of id with
          | Err e => (w, Err e)
          | Ok k =>
              match tx_finish t with
              | Some _ => (w, Err ContractError)
              | None => (set_tx (Some (with_finish (Some (k, print_json outcome)) t)) w, Ok tt)
              end
          end
      end
  end.

Definition tx_intent_store : IntentStore (PgWorld D E) := {|
  begin_intent := tx_begin;
  finish_intent := tx_store_finish;
  release_intent w _ := (w, Ok tt);
  uncertain_intents w _ := (w, Ok []);
  resolve_intent w _ _ := (w, Err ContractError);
|}.

(** *** Begin, commit and roll back *)

Definition begin_operation_transaction (operation : string) : HostM (PgWorld D E) (option unit) :=
  λ w, let '(w', fails) := statement_fails w in
       if fails : bool then (w', Err (EOther "begin the request element transaction"))
       else (set_tx (Some {| tx_log := pg_log w'; tx_records := pg_records w';
                             tx_known := known_result operation; tx_finish := None;
                             tx_finished := false |}) w', Ok (Some tt)).

(** [COMMIT_FINISH_SQL] in the transaction, when a result is staged: it divides by
    zero when no open claim takes the result. *)
Definition commit_finish (t : PgTransaction D) : option WriteLog :=
  match tx_finish t with
  | None => Some (tx_log t)
  | Some (k, text) => let '(log, changed) := finish_sql (tx_log t) k text in
                      if changed : bool then Some log else None
  end.

Inductive PgCommitFailure := PgRolledBack (e : PgError) | PgUncertain (e : PgError).

Definition pg_commit (w : PgWorld D E) : PgWorld D E * result unit PgCommitFailure :=
  match live_tx w with
  | None => (w, Err (PgRolledBack OtherError))
  | Some t =>
      let '(w1, fate) := next_fate w in
      let w2 := set_tx (Some (finished t)) w1 in
      match fate with
      | FateClosed => (w2, Err (PgRolledBack ConnectionUnavailable))
      | FateRefused e => (w2, Err (PgRolledBack e))
      | FateLost false e => (w2, Err (PgUncertain e))
      | FateLost true e =>
          (match commit_finish t with Some log => publish log (tx_records t) w2 | None => w2 end,
           Err (PgUncertain e))
      | FateCommitted =>
          match commit_finish t with
          | Some log => (publish log (tx_records t) w2, Ok tt)
          | None => (w2, Err (PgRolledBack OtherError))
          end
      end
  end.

Definition tx_commit (w : PgWorld D E) : PgWorld D E * result unit CommitFailure :=
  let '(w', r) := pg_commit w in
  (w', match r with
       | Ok _ => Ok tt
       | Err (PgRolledBack e) => Err (RolledBack (commit_code e) "the commit rolled back")
       | Err (PgUncertain _) => Err (CommitUncertain "the commit outcome is unknown")
       end).

Definition tx_rollback : HostM (PgWorld D E) unit :=
  λ w, match live_tx w with
       | None => (w, Ok tt)
       | Some t =>
           let '(w', fails) := statement_fails w in
           (set_tx (Some (finished t)) w',
            if fails : bool then Err (EOther "roll back the request element transaction") else Ok tt)
       end.

(** The export runs on the request element's transaction; a statement that fails
    destroys its connection.  An unlogged call runs on connections of its own. *)
Definition tx_run_export (tx : option unit) (operation : string) (input : Value) (deadline_ms : Z) :
    HostM (PgWorld D E) (result Emission WireError) :=
  λ w, match tx, pg_tx w with
       | Some _, Some t =>
           let '(d, lost, e, outcome) := guest operation input (tx_records t) (pg_env w) in
           (set_tx (Some (with_records d lost t)) (set_env e w), outcome)
       | _, _ =>
           let '(d, lost, e, outcome) := guest operation input (pg_records w) (pg_env w) in
           (publish (pg_log w) d (set_env e w), outcome)
       end.

#[export] Instance pg_host : LoggedHost (PgWorld D E) unit := {
  instant_now := read_instant;
  component_ready := host_ret tt;
  admit_and_open_transaction := begin_operation_transaction;
  run_export := tx_run_export;
  transaction_store _ := Some tx_intent_store;
  commit_transaction _ := tx_commit;
  rollback_transaction _ := tx_rollback;
  drop_transaction tx w := match tx with Some _ => set_tx None w | None => w end;
  finish_result _ outcome := host_ret outcome;
}.

End Database.

(** ** The executor the calls implement *)

(** What the database says has been done: the request hash and the result of each
    key, and the records. *)
Record Executor (D : Type) := { ex_done : gmap Key (string * option string); ex_records : D }.
Arguments ex_done {D} _.
Arguments ex_records {D} _.

Section Refinement.
Context {D E : Type} `{JsonText, JsonPrint, FloatText, Sha256, Chrono, Guest D E}.

Definition log_done (log : WriteLog) : gmap Key (string * option string) :=
  (λ r, (wl_request r, wl_result r)) <$> log.

Definition committed (w : PgWorld D E) : Executor D :=
  {| ex_done := log_done (pg_log w); ex_records := pg_records w |}.

Definition element_key (operation : string) (e : RequestElement) : Key := (log_operation operation, re_key e).

(** A key is executed once: it is new, the component runs on the records as they
    are and succeeds, and the result is stored with the records it leaves. *)
Inductive executes (operation : string) (ctx : IntentContext) (e : RequestElement) :
    Executor D → Executor D → Prop :=
| executes_new s env d env' emission results body :
    ex_done s !! element_key operation e = None →
    guest operation (VArray [re_value e]) (ex_records s) env = (d, false, env', Ok (Ok emission)) →
    result_maps (em_payload emission) = Some results →
    element_body (re_request_id e) results = Some body →
    get "error" body = None →
    executes operation ctx e s {|
      ex_done := <[element_key operation e :=
        (element_hash ctx e, Some (default (print_json body) (known_result operation)))]> (ex_done s);
      ex_records := d |}.

(** An answer is an error, or the stored result of this very request. *)
Definition answered (s : Executor D) (operation : string) (ctx : IntentContext) (e : RequestElement)
    (body : Value) : Prop :=
  is_Some (get "error" body) ∨
  ∃ text, ex_done s !! element_key operation e = Some (element_hash ctx e, Some text) ∧
    (text = default (print_json body) (known_result operation) ∨ parse_json text = Some body).

Definition same_database (w w' : PgWorld D E) : Prop :=
  pg_log w' = pg_log w ∧ pg_records w' = pg_records w.

Lemma same_database_trans w w' w'' : same_database w w' → same_database w' w'' → same_database w w''.
Proof. unfold same_database. intuition congruence. Qed.

Lemma same_committed w w' : same_database w w' → committed w' = committed w.
Proof. unfold committed. by intros [-> ->]. Qed.

Lemma log_statement_spec {A} (f : WriteLog → WriteLog * A) w t w' r :
  pg_tx w = Some t → log_statement f w = (w', r) →
  same_database w w' ∧ pg_env w' = pg_env w ∧
  match r with
  | Ok a => tx_finished t = false ∧ a = (f (tx_log t)).2 ∧ pg_tx w' = Some (with_log (f (tx_log t)).1 t)
  | Err _ => True
  end.
Proof.
  unfold log_statement, live_tx. intros ->. simpl. destruct (tx_finished t); simpl; [by intros [= <- <-]|].
  destruct (default false _); [by intros [= <- <-]|]. destruct (f (tx_log t)). by intros [= <- <-].
Qed.

Lemma with_log_same (t : PgTransaction D) : with_log (tx_log t) t = t.
Proof. by destruct t. Qed.

Lemma tx_begin_spec w t i w' r :
  pg_tx w = Some t → tx_begin w i = (w', r) →
  let k := (log_operation (it_operation i), it_idempotency_key i) in
  same_database w w' ∧ pg_env w' = pg_env w ∧
  match r with
  | Ok (BNew id) => id = intent_id k.1 k.2 ∧ tx_log t !! k = None ∧ tx_finished t = false ∧
      pg_tx w' = Some (with_log (<[k := {| wl_request := it_input_hash i; wl_result := tx_known t;
                                           wl_created_at := pg_clock w |}]> (tx_log t)) t)
  | Ok (BFinished v) => ∃ row text, tx_log t !! k = Some row ∧ wl_request row = it_input_hash i ∧
      wl_result row = Some text ∧ parse_json text = Some v
  | _ => True
  end.
Proof.
  intros Ht Hb k. unfold tx_begin in Hb. rewrite Ht in Hb. fold k in Hb. simpl in Hb.
  destruct (log_statement _ w) as [w1 r1] eqn:E1.
  eapply log_statement_spec in E1 as (Hs1 & He1 & Hr1); [|done].
  destruct r1 as [claimed|]; [|by injection Hb as <- <-]. destruct Hr1 as (Hf & Hc & Ht1).
  unfold claim_sql in Hc, Ht1. destruct (tx_log t !! k) as [row|] eqn:Hk; simpl in Hc, Ht1; subst claimed.
  - rewrite with_log_same in Ht1. destruct (log_statement _ w1) as [w2 r2] eqn:E2.
    eapply log_statement_spec in E2 as (Hs2 & He2 & Hr2); [|done]. injection Hb as <- <-.
    split; [by eapply same_database_trans|]. split; [congruence|].
    destruct r2 as [ans|]; simpl; [|done]. destruct Hr2 as (_ & -> & _). simpl. unfold read_claim. rewrite Hk.
    destruct (String.eqb_spec (wl_request row) (it_input_hash i)); simpl; [|done].
    destruct (wl_result row) as [text|] eqn:Hw; simpl; [|done].
    destruct (parse_json text) eqn:Hp; simpl; [|done]. eauto 6.
  - by injection Hb as <- <-.
Qed.

(** A transaction whose commit executes the element and answers with [body]. *)
Definition commits (operation : string) (ctx : IntentContext) (e : RequestElement) (w : PgWorld D E)
    (body : Value) (t : PgTransaction D) : Prop :=
  tx_finished t = false →
  ∃ log, commit_finish t = Some log ∧
    let s := {| ex_done := log_done log; ex_records := tx_records t |} in
    executes operation ctx e (committed w) s ∧ answered s operation ctx e body.

Definition fresh_tx (operation : string) (w : PgWorld D E) : PgTransaction D := {|
  tx_log := pg_log w; tx_records := pg_records w; tx_known := known_result operation;
  tx_finish := None; tx_finished := false |}.

Lemma refusal_error code m d : is_Some (get "error" (refusal code m d)).
Proof. eauto. Qed.

(** The claimed transaction after the export and the finish. *)
Lemma claimed_commits operation ctx e w at_ env d lost env' emission results body w' :
  has_char hash_sign (log_operation operation) = false →
  pg_log w !! element_key operation e = None →
  guest operation (VArray [re_value e]) (pg_records w) env = (d, lost, env', Ok (Ok emission)) →
  result_maps (em_payload emission) = Some results →
  element_body (re_request_id e) results = Some body →
  get "error" body = None →
  pg_tx w' = Some (with_records d lost (with_log (<[element_key operation e :=
    {| wl_request := element_hash ctx e; wl_result := known_result operation; wl_created_at := at_ |}]>
    (pg_log w)) (fresh_tx operation w))) →
  ∃ w'', tx_store_finish w' (intent_id (log_operation operation) (re_key e)) body = (w'', Ok tt) ∧
    same_database w' w'' ∧ ∃ t, pg_tx w'' = Some t ∧ commits operation ctx e w body t.
Proof.
  intros Hop Hk Hg Hm Hb Hne Htx. unfold tx_store_finish. rewrite Htx. simpl.
  assert (Hex : ∀ at_' , lost = false → let log := <[element_key operation e :=
      {| wl_request := element_hash ctx e;
         wl_result := Some (default (print_json body) (known_result operation));
         wl_created_at := at_' |}]> (pg_log w) in
    let s := {| ex_done := log_done log; ex_records := d |} in
    executes operation ctx e (committed w) s ∧ answered s operation ctx e body).
  { intros at_' -> log s. subst log s. unfold log_done. rewrite fmap_insert. simpl. split.
    - eapply executes_new; try done. simpl. unfold log_done. by rewrite lookup_fmap, Hk.
    - right. simpl. rewrite lookup_insert_eq. eauto. }
  destruct (known_result operation) as [known|] eqn:Hkn.
  - eexists. split; [done|]. split; [done|]. eexists. split; [exact Htx|].
    intros Hl. eexists. split; [done|]. simpl in Hl. by apply Hex.
  - unfold claim_of, intent_id. rewrite split_once_app by done. simpl. eexists. split; [done|].
    split; [done|]. eexists. split; [done|]. intros Hl. simpl in Hl.
    unfold commit_finish. simpl. unfold finish_sql, element_key. rewrite lookup_insert_eq. simpl.
    eexists. split; [done|]. rewrite insert_insert_eq. by apply Hex.
Qed.

Lemma settle_spec operation dl ctx whole e w w' r :
  has_char hash_sign (log_operation operation) = false →
  pg_tx w = Some (fresh_tx operation w) →
  settle_request_element tx_intent_store operation dl ctx whole (Some tt) e w = (w', r) →
  same_database w w' ∧
  match r with
  | Ok (SAnswer body id true port) => is_Some id ∧ ∃ t, pg_tx w' = Some t ∧ commits operation ctx e w body t
  | Ok (SAnswer body id false port) => answered (committed w) operation ctx e body
  | _ => True
  end.
Proof.
  intros Hop Htx. unfold settle_request_element, host_bind, store_call. simpl.
  destruct (tx_begin w _) as [w1 r1] eqn:E1.
  pose proof (tx_begin_spec _ _ _ _ _ Htx E1) as (Hs1 & He1 & Hr1). simpl in Hr1.
  destruct r1 as [begun|]; simpl; [|by intros [= <- <-]].
  destruct begun as [id|v|id|id b|id]; simpl;
    try (intros [= <- <-]; (split; [done|]); left; apply refusal_error).
  2:{ intros [= <- <-]. split; [done|]. right. destruct Hr1 as (row & text & Hk & Hh & Hres & Hp).
      exists text. split; [|by right]. simpl. unfold log_done, element_key. rewrite lookup_fmap, Hk. simpl.
      by rewrite Hh, Hres. }
  destruct Hr1 as (-> & Hk & _ & Htx1). unfold tx_run_export. rewrite Htx1.
  cbn [with_log fresh_tx tx_records]. rewrite He1.
  destruct (guest operation (VArray [re_value e]) (pg_records w) (pg_env w)) as [[[d lost] env'] outcome] eqn:Hg.
  set (w2 := set_tx _ _). assert (Hs2 : same_database w w2) by exact Hs1.
  destruct outcome as [[emission|error]|]; simpl; [| |by intros [= <- <-]].
  - unfold settle_emission. destruct (result_maps _) as [results|] eqn:Hm; [|by intros [= <- <-]].
    destruct (element_body _ results) as [body|] eqn:Hb; unfold host_bind, store_call; simpl.
    2:{ intros [= <- <-]. split; [done|]. left. apply refusal_error. }
    destruct (get "error" body) as [x|] eqn:Hne; simpl.
    { intros [= <- <-]. split; [done|]. left. by exists x. }
    edestruct (claimed_commits operation ctx e w) as (w3 & -> & Hs3 & t & Ht3 & Hc); try done.
    simpl. intros [= <- <-]. split; [by eapply same_database_trans|]. split; eauto.
  - destruct (error_detail error) as [dt|] eqn:Hd; unfold host_bind, store_call; simpl;
      [|by intros [= <- <-]].
    intros [= <- <-]. split; [done|]. destruct (whole =? 1)%nat; [done|]. left. eauto.
Qed.

(** Ending a transaction publishes what it commits, or nothing. *)
Lemma pg_commit_spec w w' r t :
  pg_tx w = Some t → pg_commit w = (w', r) →
  same_database w w' ∧ r ≠ Ok tt ∨
  tx_finished t = false ∧ ∃ log, commit_finish t = Some log ∧
    pg_log w' = log ∧ pg_records w' = tx_records t ∧ (r = Ok tt ∨ ∃ e, r = Err (PgUncertain e)).
Proof.
  intros Ht. unfold pg_commit, live_tx. rewrite Ht. simpl.
  destruct (tx_finished t) eqn:Hf; simpl; [intros [= <- <-]; by left|].
  destruct (default FateCommitted _) as [| |e|[] e]; [|intros [= <- <-]; by left..| |intros [= <- <-]; by left].
  - destruct (commit_finish t) as [log|]; intros [= <- <-]; [|by left]. right. eauto 8.
  - intros [= <- <-]. destruct (commit_finish t) as [log|]; [|by left]. right. eauto 10.
Qed.

Lemma tx_rollback_spec w w' r : tx_rollback w = (w', r) → same_database w w'.
Proof.
  unfold tx_rollback. destruct (live_tx w); [|by intros [= <- <-]]. simpl. by intros [= <- <-].
Qed.

Definition one_turn (operation : string) (ctx : IntentContext) (e : RequestElement) (s s' : Executor D) : Prop :=
  s' = s ∨ executes operation ctx e s s'.

Lemma conclude_spec operation ctx e w0 w settled w' r :
  same_database w0 w →
  match settled with
  | SAnswer body id true port => is_Some id ∧ ∃ t, pg_tx w = Some t ∧ commits operation ctx e w0 body t
  | SAnswer body id false port => answered (committed w0) operation ctx e body
  | _ => True
  end →
  conclude (Some tt) settled w = (w', r) →
  one_turn operation ctx e (committed w0) (committed w') ∧
  (∀ body port, r = Ok (Ok (body, port)) → answered (committed w') operation ctx e body).
Proof.
  intros Hs Hset. unfold one_turn. destruct settled as [body id [] port| |error]; simpl; unfold host_bind; simpl.
  - destruct Hset as ([i ->] & t & Ht & Hc). unfold tx_commit.
    destruct (pg_commit w) as [w1 r1] eqn:E1.
    destruct (pg_commit_spec _ _ _ _ Ht E1) as [[Hs1 Hr1]|(Hf & log & Hlog & Hl & Hrec & Hr1)].
    + assert (Hc1 : committed w1 = committed w0) by (by apply same_committed; eapply same_database_trans).
      destruct r1 as [[]|[pe|pe]]; [done| |]; intros [= <- <-]; rewrite Hc1; (split; [by left|]);
        intros body' port' [= <- _]; left; unfold coded_error, uncertain, refusal; simpl; eauto.
    + destruct (Hc Hf) as (log' & Hlog' & Hex & Hans). rewrite Hlog in Hlog'. injection Hlog' as <-.
      assert (Hw1 : committed w1 = {| ex_done := log_done log; ex_records := tx_records t |}).
      { unfold committed. by rewrite Hl, Hrec. }
      destruct Hr1 as [->|[pe ->]]; intros [= <- <-]; rewrite Hw1; (split; [by right|]);
        intros body' port' [= <- _]; [done|]. left. apply refusal_error.
  - destruct (tx_rollback w) as [w1 r1] eqn:E1. apply tx_rollback_spec in E1.
    assert (Hc1 : committed w1 = committed w0) by (by apply same_committed; eapply same_database_trans).
    destruct r1; intros [= <- <-]; rewrite Hc1; (split; [by left|]); [|done]. by intros ? ? [= <- _].
  - destruct (tx_rollback w) as [w1 r1] eqn:E1. apply tx_rollback_spec in E1.
    assert (Hc1 : committed w1 = committed w0) by (by apply same_committed; eapply same_database_trans).
    destruct r1; intros [= <- <-]; rewrite Hc1; (split; [by left|done]).
  - destruct (tx_rollback w) as [w1 r1] eqn:E1. apply tx_rollback_spec in E1.
    assert (Hc1 : committed w1 = committed w0) by (by apply same_committed; eapply same_database_trans).
    destruct r1; intros [= <- <-]; rewrite Hc1; (split; [by left|done]).
Qed.

Context (own : IntentStore (PgWorld D E)).

Lemma logged_element_spec operation deadline ctx whole e w w' r :
  has_char hash_sign (log_operation operation) = false →
  logged_element own operation deadline ctx whole e w = (w', r) →
  one_turn operation ctx e (committed w) (committed w') ∧
  (∀ body port, r = Ok (Ok (body, port)) → answered (committed w') operation ctx e body).
Proof.
  intros Hop. unfold logged_element, host_bind at 1, now. cbn [instant_now pg_host read_instant].
  set (w1 := {| pg_log := _ |}). assert (Hs1 : same_database w w1) by done.
  case_match; [intros [= <- <-]; split; [by left|done]|].
  unfold host_bind at 1. cbn [admit_and_open_transaction pg_host]. unfold begin_operation_transaction, statement_fails.
  destruct (default false (head (pg_faults w1))); [intros [= <- <-]; split; [by left|done]|]. cbn [option_bind transaction_store pg_host default mbind id].
  set (w2 := set_tx _ _). assert (Hs2 : same_database w w2) by done.
  unfold host_bind at 1.
  destruct (settle_request_element _ _ _ _ _ _ _ w2) as [w3 r3] eqn:E3.
  assert (Htx2 : pg_tx w2 = Some (fresh_tx operation w2)) by done.
  destruct (settle_spec _ _ _ _ _ _ _ _ Hop Htx2 E3) as [Hs3 Hr3].
  destruct r3 as [settled|err].
  2:{ intros [= <- <-]. split; [|done]. left. change (committed w3 = committed w). by apply same_committed. }
  destruct (conclude (Some tt) settled w3) as [w4 r4] eqn:E4. intros [= <- <-].
  change (committed (set_tx None w4)) with (committed w4).
  replace (committed w) with (committed w2) by (by apply same_committed).
  eapply conclude_spec; [exact Hs3|exact Hr3|exact E4].
Qed.

(** Executions of request elements in order. *)
Inductive executions : list (string * IntentContext * RequestElement) → Executor D → Executor D → Prop :=
| executions_nil s : executions [] s s
| executions_cons o ctx e l s s' s'' :
    executes o ctx e s s' → executions l s' s'' → executions ((o, ctx, e) :: l) s s''.

Lemma executions_app l l' s s' s'' :
  executions l s s' → executions l' s' s'' → executions (l ++ l') s s''.
Proof. induction 1; [done|]. simpl. econstructor; eauto. Qed.

Abbreviation key_of_turn x := (element_key x.1.1 x.2).

(** What is done stands, and each execution takes a key of its own. *)
Lemma executions_done l s s' :
  executions l s s' →
  (∀ k v, ex_done s !! k = Some v → ex_done s' !! k = Some v) ∧
  NoDup ((λ x, key_of_turn x) <$> l) ∧
  (∀ k, is_Some (ex_done s' !! k) ↔ is_Some (ex_done s !! k) ∨ k ∈ (λ x, key_of_turn x) <$> l) ∧
  (∀ k, k ∈ (λ x, key_of_turn x) <$> l → ex_done s !! k = None).
Proof.
  induction 1 as [s|o ctx e l s s' s'' Hx Hl (Hk & Hn & Hd & Hf)].
  { split; [done|]. split; [constructor|]. split; intros k; simpl; rewrite elem_of_nil; tauto. }
  destruct Hx as [s env d env' em results body Hnew Hg Hm Hb He]. simpl in *. split; [|split; [|split]].
  - intros k v Hv. apply Hk. rewrite lookup_insert_ne; [done|]. congruence.
  - rewrite ?fmap_cons. constructor; [|done]. intros Hin. apply Hf in Hin. by rewrite lookup_insert_eq in Hin.
  - intros k. rewrite Hd, ?fmap_cons, elem_of_cons. simpl.
    destruct (decide (k = element_key o e)) as [->|]; [rewrite lookup_insert_eq; naive_solver|].
    rewrite lookup_insert_ne by done. naive_solver.
  - intros k. rewrite ?fmap_cons, elem_of_cons. intros [->|Hin]; [done|]. apply Hf in Hin.
    by apply lookup_insert_None in Hin as [? _].
Qed.

Lemma answered_stands l s s' o ctx e body :
  executions l s s' → answered s o ctx e body → answered s' o ctx e body.
Proof.
  intros (Hk & _)%executions_done [|(text & Hd & Ht)]; [by left|]. right. eauto.
Qed.

Lemma logged_elements_spec operation deadline ctx whole es port w w' r :
  has_char hash_sign (log_operation operation) = false →
  logged_elements own operation deadline ctx whole es port w = (w', r) →
  ∃ ran, ran `sublist_of` es ∧
    executions ((λ e, (operation, ctx, e)) <$> ran) (committed w) (committed w') ∧
    (∀ bodies p, r = Ok (Ok (bodies, p)) → Forall2 (answered (committed w') operation ctx) es bodies).
Proof.
  intros Hop. revert port w w' r. induction es as [|e es IH]; intros port w w' r; simpl.
  { intros [= <- <-]. exists []. split; [done|]. split; [constructor|]. intros ? ? [= <- _]. constructor. }
  unfold host_bind at 1. destruct (logged_element own operation deadline ctx whole e w) as [w1 r1] eqn:E1.
  destruct (logged_element_spec _ _ _ _ _ _ _ _ Hop E1) as [Hturn Hans].
  assert (Hrun : ∃ l, l `sublist_of` [e] ∧ executions ((λ e, (operation, ctx, e)) <$> l) (committed w) (committed w1)).
  { destruct Hturn as [->|Hx]; [exists []; split; [apply sublist_nil_l|constructor]|].
    exists [e]. split; [done|]. econstructor; [done|constructor]. }
  destruct Hrun as (l & Hl & Hx).
  destruct r1 as [[[body p]|err]|err].
  2,3: intros [= <- <-]; exists (l ++ []);  split; [apply (sublist_app l [e] [] es); [done|apply sublist_nil_l]|]; by rewrite app_nil_r.
  unfold host_bind. destruct (logged_elements own operation deadline ctx whole es _ w1) as [w2 r2] eqn:E2.
  destruct (IH _ _ _ _ E2) as (l2 & Hl2 & Hx2 & Hans2).
  destruct r2 as [rest|err]; intros [= <- <-]; exists (l ++ l2);
    (split; [by apply (sublist_app l [e])|]); rewrite fmap_app; (split; [by eapply executions_app|]); [|done].
  intros bodies q. destruct rest as [[bodies' q']|]; simpl; [|done]. intros [= <- _].
  constructor; [|by eapply Hans2]. eapply answered_stands; [done|]. by eapply Hans.
Qed.

Lemma invoke_logged_spec operation dl input ctx w w' r :
  has_char hash_sign (log_operation operation) = false →
  invoke_logged own operation dl input ctx w = (w', r) →
  ∃ ran, executions ((λ e, (operation, ctx, e)) <$> ran) (committed w) (committed w') ∧
    match request_elements (canonical_input ctx input) (ic_key_field ctx) with
    | Ok es => ran `sublist_of` es
    | Err _ => ran = []
    end ∧
    (∀ emission, r = Ok (Ok emission) → ∃ es bodies,
       request_elements (canonical_input ctx input) (ic_key_field ctx) = Ok es ∧
       Forall2 (answered (committed w') operation ctx) es bodies ∧
       em_payload emission = print_json (VArray (zip_with merged_answer es bodies))).
Proof.
  intros Hop. unfold invoke_logged. destruct (request_elements _ _) as [es|m] eqn:Hes.
  2:{ intros [= <- <-]. exists []. split; [constructor|]. by split. }
  unfold host_bind. simpl. set (w1 := {| pg_log := _ |}).
  destruct (logged_elements own operation _ ctx (length es) es None w1) as [w2 r2] eqn:E2.
  destruct (logged_elements_spec _ _ _ _ _ _ _ _ _ Hop E2) as (ran & Hran & Hx & Hans).
  change (committed w1) with (committed w) in Hx.
  destruct r2 as [[[bodies p]|err]|err]; intros [= <- <-]; exists ran; (split; [done|]); (split; [done|]); try done.
  intros emission [= <-]. exists es, bodies. split; [done|]. split; [by eapply Hans|done].
Qed.

End Refinement.

(** ** Any number of calls *)

Record LoggedInvocation := {
  li_operation : string;
  li_deadline_ms : Z;
  li_input : Value;
  li_context : IntentContext;
}.

Section Calls.
Context {D E : Type} `{JsonText, JsonPrint, FloatText, Sha256, Chrono, Guest D E}.
Context (own : IntentStore (PgWorld D E)).

Fixpoint run_calls (calls : list LoggedInvocation) (w : PgWorld D E) :
    PgWorld D E * list (result (result Emission WireError) AnyError) :=
  match calls with
  | [] => (w, [])
  | c :: calls' =>
      let '(w1, r) := invoke_logged own (li_operation c) (li_deadline_ms c) (li_input c) (li_context c) w in
      let '(w2, rs) := run_calls calls' w1 in
      (w2, r :: rs)
  end.

(** The answers of a call are its request elements' answers in input order, each
    an error or the stored result of that request. *)
Definition answers_stored (s : Executor D) (c : LoggedInvocation)
    (r : result (result Emission WireError) AnyError) : Prop :=
  ∀ emission, r = Ok (Ok emission) → ∃ es bodies,
    request_elements (canonical_input (li_context c) (li_input c)) (ic_key_field (li_context c)) = Ok es ∧
    Forall2 (answered s (li_operation c) (li_context c)) es bodies ∧
    em_payload emission = print_json (VArray (zip_with merged_answer es bodies)).

(** What ran of a call: some of its request elements, in their order, under its operation
    and context; nothing of a call whose input is no list of requests. *)
Definition ran_of (c : LoggedInvocation) (turns : list (string * IntentContext * RequestElement)) : Prop :=
  match request_elements (canonical_input (li_context c) (li_input c)) (ic_key_field (li_context c)) with
  | Ok es => ∃ ran, ran `sublist_of` es ∧ turns = (λ e, (li_operation c, li_context c, e)) <$> ran
  | Err _ => turns = []
  end.

Lemma run_calls_spec calls w w' rs :
  Forall (λ c, has_char hash_sign (log_operation (li_operation c)) = false) calls →
  run_calls calls w = (w', rs) →
  ∃ turns, executions (concat turns) (committed w) (committed w') ∧ Forall2 ran_of calls turns ∧
    Forall2 (answers_stored (committed w')) calls rs.
Proof.
  intros Hops. revert w w' rs. induction Hops as [|c calls Hop Hops IH]; intros w w' rs; simpl.
  { intros [= <- <-]. exists []. split_and!; constructor. }
  destruct (invoke_logged own _ _ _ _ w) as [w1 r] eqn:E1. destruct (run_calls calls w1) as [w2 rs'] eqn:E2.
  intros [= <- <-]. destruct (IH _ _ _ E2) as (turns & Hx2 & Ht2 & Ha2).
  destruct (invoke_logged_spec own _ _ _ _ _ _ _ Hop E1) as (ran & Hx & Hran & Ha).
  exists (((λ e, (li_operation c, li_context c, e)) <$> ran) :: turns).
  split; [simpl; by eapply executions_app|]. split.
  - constructor; [|done]. unfold ran_of. destruct (request_elements _ _); [by exists ran|by rewrite Hran].
  - constructor; [|done].
    intros emission Hr. destruct (Ha _ Hr) as (es & bodies & Hes & Hans & Hp). exists es, bodies.
    split; [done|]. split; [|done]. eapply Forall2_impl; [exact Hans|]. intros e body.
    by apply answered_stands with (concat turns).
Qed.

End Calls.

(** C14. Calls of operations with SQL run each key once, whatever fails.  Over any
    sequence of calls of operations whose names have no '#' (the separator of the
    log's keys), with any statement, commit or commit answer lost, the committed
    database is what an executor leaves that runs some of their request elements
    in order, of each call some of its own, under its operation and
    context, each on the records the one before left: their keys are distinct and
    were not done before, and they are exactly the keys that are done
    since.  Every call that returns answers its request elements in input order,
    and each answer is an error or the stored result of that very request. *)
Theorem logged_calls_once {D E : Type} `{JsonText, JsonPrint, FloatText, Sha256, Chrono, Guest D E}
    (own : IntentStore (PgWorld D E)) (calls : list LoggedInvocation) (w w' : PgWorld D E)
    (rs : list (result (result Emission WireError) AnyError)) :
  Forall (λ c, has_char hash_sign (log_operation (li_operation c)) = false) calls →
  run_calls own calls w = (w', rs) →
  ∃ turns ran, Forall2 ran_of calls turns ∧ ran = concat turns ∧ executions ran (committed w) (committed w') ∧
    NoDup ((λ x, element_key x.1.1 x.2) <$> ran) ∧
    (∀ k, k ∈ (λ x, element_key x.1.1 x.2) <$> ran → ex_done (committed w) !! k = None) ∧
    (∀ k, is_Some (ex_done (committed w') !! k) ↔
       is_Some (ex_done (committed w) !! k) ∨ k ∈ (λ x, element_key x.1.1 x.2) <$> ran) ∧
    Forall2 (answers_stored (committed w')) calls rs.
Proof.
  intros Hops Hrun. destruct (run_calls_spec own calls w w' rs Hops Hrun) as (turns & Hx & Ht & Ha).
  destruct (executions_done _ _ _ Hx) as (_ & Hn & Hd & Hf). exists turns, (concat turns). by split_and!.
Qed.

(** A component that counts, and a call whose commit answer is lost and is sent
    again. *)
Module TransactedSample.

#[local] Instance texts : JsonText := λ s,
  if String.eqb s "emitted" then
    Some (VArray [VObject [("request_id", VString "r-1"); ("value", VString "made")]])
  else if String.eqb s "made" then Some (VObject [("value", VString "made")])
  else None.
#[local] Instance prints : JsonPrint := λ v,
  match get "value" v with Some (VString s) => s | _ => "list" end.
#[local] Instance floats : FloatText := λ _, "0.0".
#[local] Instance digest : Sha256 := λ s, [Ascii.ascii_of_N (N.of_nat (String.length s))].
#[local] Instance chrono : Chrono :=
  {| instant := unit; parse_rfc3339 _ := None; format_timestamptz _ := "" |}.
#[local] Instance counts : Guest Z unit := {|
  guest _ _ d e := (d + 1, false, e, Ok (Ok {| em_payload := "emitted"; em_port := None |}));
  known_result _ := None;
|}.

Definition ctx : IntentContext := {| ic_tenant := "env"; ic_release := "1"; ic_package := "p";
  ic_kind := Create; ic_key_field := None; ic_canonicalization := None |}.
Definition create : LoggedInvocation := {| li_operation := "p:m.create@1"; li_deadline_ms := 1000;
  li_input := VArray [VObject [("request_id", VString "r-1")]]; li_context := ctx |}.
Definition w0 : PgWorld Z unit := {| pg_log := ∅; pg_records := 0; pg_tx := None; pg_env := tt;
  pg_faults := []; pg_fates := [FateLost true ConnectionUnavailable]; pg_instants := []; pg_clock := 7 |}.

Definition ran : PgWorld Z unit := (run_calls tx_intent_store [create; create] w0).1.
Definition answers := (run_calls tx_intent_store [create; create] w0).2.

Lemma ran_twice : run_calls tx_intent_store [create; create] w0 = (ran, answers).
Proof. vm_compute. reflexivity. Defined.

Lemma logged_calls_once_witness :
  pg_records ran = 1 ∧
  (∃ turns, Forall2 ran_of [create; create] turns ∧ executions (concat turns) (committed w0) (committed ran) ∧
     Forall2 (answers_stored (committed ran)) [create; create] answers).
Proof.
  split; [vm_compute; reflexivity|].
  destruct (logged_calls_once tx_intent_store [create; create] w0 ran answers) as (turns & l & Ht & El & Hx & _ & _ & _ & Ha);
    [repeat constructor|exact ran_twice|]. exists turns. rewrite El in Hx. split; [exact Ht|split; [exact Hx|exact Ha]].
Defined.

End TransactedSample.
