(* ===== verification/NumberPattern.v ===== *)
(** * Document-number patterns

    [crates/platform/number-pattern/src/lib.rs]: the parser of patterns such as
    [INV-{date:YYYY}-{seq:n,reset=date:YYYY,width=5}].  A pattern's error is its
    kind; the text of its detail is left out.  The theorems: every pattern the
    parser accepts is well formed, every well-formed pattern is the parse of its
    text, and the keys of an accepted pattern's counters can be rendered one after
    the other. *)

From stdpp Require Import base tactics option list strings sorting sets relations.
From Stdlib Require Import ZArith Lia.
From S2P Require Import Prelude Text.
#[local] Set Warnings "-clear-no-such-hyp".
#[local] Open Scope Z_scope.
#[local] Open Scope wamn_scope.
#[local] Arguments strip_prefix : simpl never.

Definition MAX_WIDTH : Z := 32.

Inductive DateFormat := Year | ShortYear | Month | Day | Week | Quarter.
#[export] Instance DateFormat_eq_dec : EqDecision DateFormat.
Proof. solve_decision. Defined.

Definition date_formats_all : list DateFormat := [Year; ShortYear; Month; Day; Week; Quarter].

Definition date_format_text (f : DateFormat) : string :=
  match f with
  | Year => "YYYY" | ShortYear => "YY" | Month => "MM" | Day => "DD" | Week => "WW" | Quarter => "Q"
  end.

Inductive NumberKey := KeyField (name : string) | KeyCounter (name : string) | KeyDate (f : DateFormat).

Inductive NumberScope := Always | ResetBy (k : NumberKey) | PerKey (k : NumberKey).
#[export] Instance NumberKey_eq_dec : EqDecision NumberKey.
Proof. solve_decision. Defined.
#[export] Instance NumberScope_eq_dec : EqDecision NumberScope.
Proof. solve_decision. Defined.

Definition scope_key (s : NumberScope) : option NumberKey :=
  match s with Always => None | ResetBy k | PerKey k => Some k end.

(** A [char] is the text of its UTF-8 bytes. *)
Record Counter := {
  c_name : string;
  c_scope : NumberScope;
  c_width : option Z;
  c_pad : string;
  c_hex : bool;
}.

Inductive Part :=
| Literal (text : string)
| PCounter (c : Counter)
| PField (name : string)
| PDate (f : DateFormat).

Abbreviation Pattern := (list Part).

Definition is_bare (c : Counter) : bool :=
  match c_scope c, c_width c with
  | Always, None => String.eqb (c_pad c) "0" && negb (c_hex c)
  | _, _ => false
  end.

Definition counters (p : Pattern) : list Counter :=
  omap (λ part, match part with PCounter c => Some c | _ => None end) p.

Definition part_field (part : Part) : option string :=
  match part with
  | PField name => Some name
  | PCounter c => match scope_key (c_scope c) with Some (KeyField name) => Some name | _ => None end
  | _ => None
  end.

(** [dedup] of a sorted list. *)
Fixpoint dedup (l : list string) : list string :=
  match l with
  | [] => []
  | x :: l' =>
      match l' with
      | y :: _ => if String.eqb x y then dedup l' else x :: dedup l'
      | [] => [x]
      end
  end.

Definition fields (p : Pattern) : list string := dedup (stable_sort String.leb (omap part_field p)).

Definition is_bare_counter (p : Pattern) : bool :=
  match p with [PCounter c] => is_bare c | _ => false end.

Inductive PatternErrorKind := Syntax | UnknownDateFormat | InvalidOption | InvalidCounter.

(** ** Names, formats and widths *)

Definition open_brace : Ascii.ascii := Ascii.ascii_of_N 123.
Definition close_brace : Ascii.ascii := Ascii.ascii_of_N 125.
Definition comma : Ascii.ascii := Ascii.ascii_of_N 44.

Definition is_name_start (a : Ascii.ascii) : bool := is_ascii_lowercase a || Ascii.eqb a underscore.
Definition is_name_byte (a : Ascii.ascii) : bool :=
  is_ascii_lowercase a || is_ascii_digit a || Ascii.eqb a underscore.

Definition is_identifier (name : string) : bool :=
  match name with
  | EmptyString => false
  | String a rest => is_name_start a && all_bytes is_name_byte rest
  end.

Definition identifier (name : string) : result string PatternErrorKind :=
  if is_identifier name then Ok name else Err Syntax.

Definition date_format (format : string) : result DateFormat PatternErrorKind :=
  ok_or (List.find (λ f, String.eqb (date_format_text f) format) date_formats_all) UnknownDateFormat.

(** [parse::<u16>] of digits, within the widths a pattern may state. *)
Definition width_value (value : string) : option Z :=
  (parse_digits value ≫= in_range 0 65535) ≫= in_range 1 MAX_WIDTH.

(** The bytes of a character, from its first. *)
Definition char_length (a : Ascii.ascii) : nat :=
  let n := Ascii.N_of_ascii a in
  if (n <? 192)%N then 1 else if (n <? 224)%N then 2 else if (n <? 240)%N then 3 else 4.

(** The text is one character. *)
Definition is_one_char (s : string) : bool :=
  match s with
  | EmptyString => false
  | String a _ => (String.length s =? char_length a)%nat
  end.

(** ** One counter *)

Record CounterOptions := {
  o_scope : NumberScope;
  o_key : option string;
  o_width : option Z;
  o_pad : option string;
  o_hex : bool;
}.
Definition no_options : CounterOptions :=
  {| o_scope := Always; o_key := None; o_width := None; o_pad := None; o_hex := false |}.

(** [reset=] or [per=], the scope it makes, and its key's text. *)
Definition scope_option (option_ : string) : option ((NumberKey → NumberScope) * string) :=
  match strip_prefix "reset=" option_ with
  | Some value => Some (ResetBy, value)
  | None => match strip_prefix "per=" option_ with
            | Some value => Some (PerKey, value)
            | None => None
            end
  end.

(** A width, as [width=N] or [0N]. *)
Definition width_option (option_ : string) : option string :=
  match strip_prefix "width=" option_ with
  | Some value => Some value
  | None => match option_ with
            | String a (String _ _ as rest) => if N.eqb (Ascii.N_of_ascii a) 48 then Some rest else None
            | _ => None
            end
  end.

Definition counter_option (o : CounterOptions) (option_ : string) : result CounterOptions PatternErrorKind :=
  match scope_option option_ with
  | Some (make, value) =>
      if negb (bool_decide (o_scope o = Always)) then Err InvalidOption
      else
        match strip_prefix "date:" value with
        | Some format =>
            let? f := date_format format in
            Ok {| o_scope := make (KeyDate f); o_key := o_key o; o_width := o_width o; o_pad := o_pad o;
                  o_hex := o_hex o |}
        | None =>
            let? name := identifier value in
            Ok {| o_scope := make (KeyField ""); o_key := Some name; o_width := o_width o;
                  o_pad := o_pad o; o_hex := o_hex o |}
        end
  | None =>
      match width_option option_ with
      | Some value =>
          match o_width o with
          | Some _ => Err InvalidOption
          | None =>
              let? w := ok_or (width_value value) InvalidOption in
              Ok {| o_scope := o_scope o; o_key := o_key o; o_width := Some w; o_pad := o_pad o;
                    o_hex := o_hex o |}
          end
      | None =>
          match strip_prefix "pad=" option_ with
          | Some value =>
              if negb (is_one_char value) then Err InvalidOption
              else match o_pad o with
                   | Some _ => Err InvalidOption
                   | None => Ok {| o_scope := o_scope o; o_key := o_key o; o_width := o_width o;
                                   o_pad := Some value; o_hex := o_hex o |}
                   end
          | None =>
              if String.eqb option_ "hex" then
                if o_hex o then Err InvalidOption
                else Ok {| o_scope := o_scope o; o_key := o_key o; o_width := o_width o; o_pad := o_pad o;
                           o_hex := true |}
              else Err InvalidOption
          end
      end
  end.

Fixpoint counter_options (o : CounterOptions) (l : list string) : result CounterOptions PatternErrorKind :=
  match l with
  | [] => Ok o
  | x :: l' => let? o' := counter_option o x in counter_options o' l'
  end.

Definition counter (body : string) : result (Part * option string) PatternErrorKind :=
  let options := split_char comma body in
  let? name := identifier (default "" (head options)) in
  let? o := counter_options no_options (tail options) in
  Ok (PCounter {| c_name := name; c_scope := o_scope o; c_width := o_width o;
                  c_pad := default "0" (o_pad o); c_hex := o_hex o |}, o_key o).

(** ** Tokens and patterns *)

Definition token (body : string) : result (Part * option string) PatternErrorKind :=
  match split_once colon body with
  | None => Err Syntax
  | Some (kind, rest) =>
      if String.eqb kind "field" then let? name := identifier rest in Ok (PField name, None)
      else if String.eqb kind "date" then let? f := date_format rest in Ok (PDate f, None)
      else if String.eqb kind "seq" then counter rest
      else Err Syntax
  end.

(** The text before the first brace, and the rest. *)
Fixpoint find_brace (s : string) : string * string :=
  match s with
  | EmptyString => ("", "")
  | String a s' =>
      if Ascii.eqb a open_brace || Ascii.eqb a close_brace then ("", s)
      else let '(l, r) := find_brace s' in (String a l, r)
  end.

(** The loop of [parse]: each part with the key its option names.  Each turn takes
    at least one byte, so the length of the text is fuel enough. *)
Fixpoint parse_parts (fuel : nat) (rest : string) : result (list (Part * option string)) PatternErrorKind :=
  match fuel, rest with
  | _, EmptyString => Ok []
  | O, _ => Err Syntax
  | S fuel', _ =>
      match find_brace rest with
      | (String _ _ as text, rest') => let? parts := parse_parts fuel' rest' in Ok ((Literal text, None) :: parts)
      | (EmptyString, EmptyString) => Ok []
      | (EmptyString, String a tail_) =>
          if Ascii.eqb a close_brace then Err Syntax
          else
            match split_once close_brace tail_ with
            | None => Err Syntax
            | Some (body, rest') =>
                if has_char open_brace body then Err Syntax
                else
                  let? part := token body in
                  let? parts := parse_parts fuel' rest' in
                  Ok (part :: parts)
            end
      end
  end.

(** A name that two counters share. *)
Fixpoint named_twice (seen : list string) (l : list string) : bool :=
  match l with
  | [] => false
  | x :: l' => bool_decide (x ∈ seen) || named_twice (x :: seen) l'
  end.

(** A named key is a counter's when the pattern has one of the name. *)
Definition resolve_key (names : list string) (part : Part * option string) : run Part :=
  match part with
  | (PCounter c, Some name) =>
      let key := if bool_decide (name ∈ names) then KeyCounter name else KeyField name in
      let! scope := match c_scope c with
                    | ResetBy _ => Ret (ResetBy key)
                    | PerKey _ => Ret (PerKey key)
                    | Always => Panic "only a reset= or per= option names a key"
                    end in
      Ret (PCounter {| c_name := c_name c; c_scope := scope; c_width := c_width c; c_pad := c_pad c;
                       c_hex := c_hex c |})
  | (part, _) => Ret part
  end.

Fixpoint resolve_keys (names : list string) (parts : list (Part * option string)) : run Pattern :=
  match parts with
  | [] => Ret []
  | part :: parts' =>
      let! p := resolve_key names part in
      let! ps := resolve_keys names parts' in
      Ret (p :: ps)
  end.

(** The counter whose value is the key of the counter [name]. *)
Definition key_of (p : Pattern) (name : string) : option string :=
  List.find (λ c, String.eqb (c_name c) name) (counters p) ≫= λ c,
    match scope_key (c_scope c) with Some (KeyCounter next) => Some next | _ => None end.

(** Whether [start] is met within [n] steps along the keys from [current]. *)
Fixpoint returns_to (p : Pattern) (start : string) (n : nat) (current : string) : bool :=
  match n with
  | O => false
  | S n' =>
      match key_of p current with
      | Some next => if String.eqb next start then true else returns_to p start n' next
      | None => false
      end
  end.

Definition has_counter_cycle (p : Pattern) : bool :=
  existsb (λ c, returns_to p (c_name c) (length (counters p)) (c_name c)) (counters p).

Definition parse (pattern : string) : run (result Pattern PatternErrorKind) :=
  match parse_parts (String.length pattern) pattern with
  | Err e => Ret (Err e)
  | Ok parts =>
      let names := c_name <$> counters parts.*1 in
      if named_twice [] names then Ret (Err InvalidCounter)
      else
        let! p := resolve_keys names parts in
        Ret (if has_counter_cycle p then Err InvalidCounter else Ok p)
  end.

Example parse_sample :
  parse "INV-{date:YY}{seq:n,reset=site,05,pad=*}/{field:site}{seq:m,per=n,hex}" =
  Ret (Ok [Literal "INV-"; PDate ShortYear;
    PCounter {| c_name := "n"; c_scope := ResetBy (KeyField "site"); c_width := Some 5; c_pad := "*"; c_hex := false |};
    Literal "/"; PField "site";
    PCounter {| c_name := "m"; c_scope := PerKey (KeyCounter "n"); c_width := None; c_pad := "0"; c_hex := true |}]).
Proof. reflexivity. Qed.

Example parse_refusals :
  parse <$> ["a}"; "{seq"; "{seq:{a}}"; "{seq:n,reset=n}"; "{seq:n}{seq:n}"; "{date:Y}"; "{seq:n,width=33}"; "{seq:n,hex,hex}"] =
  Ret <$> [Err Syntax; Err Syntax; Err Syntax; Err InvalidCounter; Err InvalidCounter; Err UnknownDateFormat;
    Err InvalidOption; Err InvalidOption].
Proof. reflexivity. Qed.

(** ** Well-formed patterns *)

Definition plain_text (s : string) : bool := negb (has_char open_brace s) && negb (has_char close_brace s).

Definition wf_key (names : list string) (k : NumberKey) : bool :=
  match k with
  | KeyField n => is_identifier n && negb (bool_decide (n ∈ names))
  | KeyCounter n => is_identifier n && bool_decide (n ∈ names)
  | KeyDate _ => true
  end.

Definition wf_width (w : option Z) : bool :=
  match w with Some w => (1 <=? w) && (w <=? MAX_WIDTH) | None => true end.
Definition wf_pad (pad : string) : bool :=
  is_one_char pad && negb (has_char comma pad) && plain_text pad.

Definition wf_counter (names : list string) (c : Counter) : bool :=
  is_identifier (c_name c) &&
  match scope_key (c_scope c) with Some k => wf_key names k | None => true end &&
  wf_width (c_width c) && wf_pad (c_pad c).

Definition wf_part (names : list string) (p : Part) : bool :=
  match p with
  | Literal t => negb (String.eqb t "") && plain_text t
  | PCounter c => wf_counter names c
  | PField n => is_identifier n
  | PDate _ => true
  end.

Definition is_literal (p : Part) : bool := match p with Literal _ => true | _ => false end.

Fixpoint no_adjacent (p : Pattern) : bool :=
  match p with
  | Literal _ :: ((Literal _ :: _) as p') => false
  | _ :: p' => no_adjacent p'
  | [] => true
  end.

(** Literals are text without braces and never meet, names are identifiers, the
    counters are distinct, a key names a counter of the pattern or a field that is
    none, and no counter's key leads back to it. *)
Definition wf_pattern (p : Pattern) : bool :=
  let names := c_name <$> counters p in
  forallb (wf_part names) p && no_adjacent p && bool_decide (NoDup names) && negb (has_counter_cycle p).

(** ** Their text *)

Definition key_text (k : NumberKey) : string :=
  match k with KeyField n | KeyCounter n => n | KeyDate f => "date:" +:+ date_format_text f end.

Definition scope_texts (s : NumberScope) : list string :=
  match s with
  | Always => []
  | ResetBy k => ["reset=" +:+ key_text k]
  | PerKey k => ["per=" +:+ key_text k]
  end.

Definition option_texts (c : Counter) : list string :=
  scope_texts (c_scope c) ++
  match c_width c with Some w => ["width=" +:+ decimal_text w] | None => [] end ++
  ["pad=" +:+ c_pad c] ++
  (if c_hex c then ["hex"] else []).

Definition token_text (p : Part) : string :=
  match p with
  | Literal t => t
  | PCounter c => "seq:" +:+ join_char comma (c_name c :: option_texts c)
  | PField n => "field:" +:+ n
  | PDate f => "date:" +:+ date_format_text f
  end.

Definition part_text (p : Part) : string :=
  match p with
  | Literal t => t
  | p => String open_brace (token_text p +:+ String close_brace "")
  end.

Fixpoint pattern_text (p : Pattern) : string :=
  match p with [] => "" | part :: p' => part_text part +:+ pattern_text p' end.

(** ** Facts on texts *)

Lemma plain_app s t : plain_text (s +:+ t) = plain_text s && plain_text t.
Proof.
  unfold plain_text. rewrite !has_char_app, !negb_orb.
  by destruct (has_char open_brace s), (has_char open_brace t), (has_char close_brace s), (has_char close_brace t).
Qed.

Lemma find_brace_spec s l r : find_brace s = (l, r) →
  s = l +:+ r ∧ plain_text l = true ∧
  (r = "" ∨ ∃ a r', r = String a r' ∧ (a = open_brace ∨ a = close_brace)).
Proof.
  revert l. induction s as [|a s IH]; intros l; simpl; [intros [= <- <-]; eauto|].
  destruct (Ascii.eqb_spec a open_brace) as [->|Ho]; simpl; [intros [= <- <-]; eauto 9|].
  destruct (Ascii.eqb_spec a close_brace) as [->|Hc]; simpl; [intros [= <- <-]; eauto 9|].
  destruct (find_brace s) as [l' r']. intros [= <- <-]. destruct (IH l' eq_refl) as (-> & Hp & Hr).
  split; [done|]. split; [|done]. unfold plain_text in *. simpl.
  apply Ascii.eqb_neq in Ho, Hc. by rewrite Ho, Hc.
Qed.

Lemma find_brace_app t r : plain_text t = true →
  (r = "" ∨ ∃ r', r = String open_brace r') → find_brace (t +:+ r) = (t, r).
Proof.
  intros Ht Hr. induction t as [|a t IH]; simpl.
  - destruct Hr as [->|[r' ->]]; [done|]. simpl. done.
  - unfold plain_text in *. simpl in Ht. apply andb_true_iff in Ht as [Ho Hc].
    apply negb_true_iff, orb_false_iff in Ho as [Ho Ho'], Hc as [Hc Hc'].
    rewrite Ho, Hc. simpl. rewrite IH; [done|]. by rewrite Ho', Hc'.
Qed.

Lemma has_char_strip p s r a : strip_prefix p s = Some r → has_char a s = false → has_char a r = false.
Proof. intros ->%strip_prefix_inv. rewrite has_char_app. by intros [_ ?]%orb_false_iff. Qed.

Lemma has_char_join b a l :
  has_char b (join_char a l) = false ↔
  Forall (λ w, has_char b w = false) l ∧ (b = a → (length l ≤ 1)%nat).
Proof.
  induction l as [|w l IH]; simpl; [split; [intros; split; [constructor|lia]|done]|].
  destruct l as [|w' l].
  - rewrite Forall_singleton. split; [intros ->; split; [done|simpl; lia]|tauto].
  - rewrite has_char_app. cbn [has_char]. rewrite !orb_false_iff, IH, (Forall_cons _ w). cbn [length].
    destruct (Ascii.eqb_spec a b) as [->|Hne]; [split; [naive_solver|]|].
    + intros [_ Hl]. specialize (Hl eq_refl). simpl in Hl. lia.
    + split; [intros (? & _ & ? & _)|intros [[? ?] _]]; (split; [done|]); [by intros ->|].
      split; [done|]. split; [done|]. by intros ->.
Qed.

Lemma identifier_bytes n : is_identifier n = true → all_bytes is_name_byte n = true.
Proof.
  destruct n as [|a n]; [done|]. simpl. unfold is_name_start, is_name_byte. intros [Ha Hn]%andb_prop.
  rewrite Hn. apply orb_prop in Ha as [->| ->]; [done|]. by rewrite orb_true_r.
Qed.

Lemma identifier_no_char n a : is_identifier n = true → is_name_byte a = false → has_char a n = false.
Proof. intros Hn%identifier_bytes Ha. by eapply all_bytes_no_char. Qed.

Lemma identifier_ok n m : identifier n = Ok m ↔ n = m ∧ is_identifier n = true.
Proof. unfold identifier. destruct (is_identifier n); split; [by intros [= ->]|by intros [-> _]|done|by intros []]. Qed.

Lemma date_format_ok t f : date_format t = Ok f ↔ t = date_format_text f.
Proof.
  unfold date_format. split.
  - destruct (List.find _ _) as [g|] eqn:E; [|done]. intros [= ->]. apply find_some in E as [_ E].
    by apply String.eqb_eq in E.
  - intros ->. by destruct f.
Qed.

Lemma width_value_ok t w : width_value t = Some w → 1 ≤ w ≤ MAX_WIDTH.
Proof.
  unfold width_value. destruct (parse_digits t) as [n|]; simpl; [|done].
  unfold in_range at 2. destruct (_ && _); simpl; [|done]. unfold in_range.
  destruct (_ && _) eqn:E; [|done]. intros [= <-]. apply andb_prop in E as [?%Z.leb_le ?%Z.leb_le]. lia.
Qed.

(** ** What the parser accepts is well formed *)

(** A scope and the name its option states, before names are resolved. *)
Definition wf_raw_scope (s : NumberScope) (key : option string) : bool :=
  match s, key with
  | Always, None => true
  | (ResetBy (KeyDate _) | PerKey (KeyDate _)), None => true
  | (ResetBy (KeyField "") | PerKey (KeyField "")), Some n => is_identifier n
  | _, _ => false
  end.

Definition wf_options (o : CounterOptions) : bool :=
  wf_raw_scope (o_scope o) (o_key o) && wf_width (o_width o) &&
  match o_pad o with Some pad => wf_pad pad | None => true end.

Definition wf_raw (p : Part * option string) : bool :=
  match p with
  | (PCounter c, key) =>
      is_identifier (c_name c) && wf_raw_scope (c_scope c) key && wf_width (c_width c) && wf_pad (c_pad c)
  | (Literal t, None) => negb (String.eqb t "") && plain_text t
  | (PField n, None) => is_identifier n
  | (PDate _, None) => true
  | _ => false
  end.

Lemma scope_option_inv x make v : scope_option x = Some (make, v) → make = ResetBy ∨ make = PerKey.
Proof. unfold scope_option. repeat case_match; naive_solver. Qed.

Lemma counter_option_wf o x o' :
  has_char comma x = false → plain_text x = true → wf_options o = true →
  counter_option o x = Ok o' → wf_options o' = true.
Proof.
  intros Hc Hp Ho. unfold wf_options in *. apply andb_prop in Ho as [[Hs Hw]%andb_prop Hpad].
  unfold counter_option. destruct (scope_option x) as [[make v]|] eqn:Es.
  { case_bool_decide as Ha; simpl; [|done]. apply scope_option_inv in Es. rewrite Ha in Hs.
    destruct (o_key o) eqn:Ek; [done|].
    destruct (strip_prefix "date:" v) as [fmt|]; simpl.
    - destruct (date_format fmt); simpl; [|done]. intros [= <-]. simpl. rewrite ?Ek, Hw, Hpad.
      by destruct Es as [->| ->].
    - destruct (identifier v) as [n|] eqn:Ei; simpl; [|done]. apply identifier_ok in Ei as [-> Hn].
      intros [= <-]. simpl. rewrite Hw, Hpad. rewrite !andb_true_r. by destruct Es as [->| ->]. }
  destruct (width_option x) as [v|].
  { destruct (o_width o); [done|]. destruct (width_value v) as [w|] eqn:Ew; simpl; [|done].
    intros [= <-]. simpl. rewrite Hs, Hpad. apply width_value_ok in Ew.
    rewrite andb_true_r, andb_true_l. apply andb_true_iff. rewrite !Z.leb_le. done. }
  destruct (strip_prefix "pad=" x) as [v|] eqn:Ev.
  { destruct (is_one_char v) eqn:E1; simpl; [|done]. destruct (o_pad o); [done|]. intros [= <-]. simpl.
    rewrite Hs, Hw. unfold wf_pad. rewrite E1. rewrite (has_char_strip _ _ _ _ Ev Hc). simpl.
    apply strip_prefix_inv in Ev as ->. rewrite plain_app in Hp. by apply andb_prop in Hp as [_ ->]. }
  destruct (String.eqb x "hex"); [|done]. destruct (o_hex o); [done|]. intros [= <-]. simpl. by rewrite Hs, Hw, Hpad.
Qed.

Lemma counter_options_wf l o o' :
  Forall (λ x, has_char comma x = false ∧ plain_text x = true) l → wf_options o = true →
  counter_options o l = Ok o' → wf_options o' = true.
Proof.
  intros Hl. revert o. induction Hl as [|x l [Hc Hp] Hl IH]; intros o Ho; simpl; [by intros [= <-]|].
  destruct (counter_option o x) as [o1|] eqn:E; simpl; [|done]. apply IH. by eapply counter_option_wf.
Qed.

Lemma counter_wf body p : plain_text body = true → counter body = Ok p → wf_raw p = true.
Proof.
  intros Hb. unfold counter. destruct (identifier _) as [n|] eqn:Ei; simpl; [|done].
  apply identifier_ok in Ei as [En Hn]. rewrite En in Hn.
  destruct (counter_options _ _) as [o|] eqn:Eo; simpl; [|done]. intros [= <-].
  apply counter_options_wf in Eo; [|apply Forall_forall|done].
  - unfold wf_options in Eo. apply andb_prop in Eo as [[Hs Hw]%andb_prop Hp]. simpl.
    rewrite Hn, Hs, Hw. simpl. by destruct (o_pad o).
  - intros x Hx. assert (Hin : x ∈ split_char comma body) by (destruct (split_char comma body); [done|by right]).
    apply split_char_pieces in Hin as [Hc Hsub]. split; [done|]. unfold plain_text in *.
    apply andb_prop in Hb as [?%negb_true_iff ?%negb_true_iff]. by rewrite !Hsub.
Qed.

Lemma token_wf body p : plain_text body = true → token body = Ok p → wf_raw p = true ∧ is_literal p.1 = false.
Proof.
  intros Hb. unfold token. destruct (split_once colon body) as [[k r]|] eqn:E; [|done].
  apply split_once_inv in E as [-> _]. rewrite plain_app in Hb. apply andb_prop in Hb as [_ Hb].
  assert (Hr : plain_text r = true) by done.
  destruct (String.eqb k "field").
  { destruct (identifier r) eqn:Ei; simpl; [|done]. apply identifier_ok in Ei as [-> Hn]. by intros [= <-]. }
  destruct (String.eqb k "date").
  { destruct (date_format r); simpl; [|done]. by intros [= <-]. }
  destruct (String.eqb k "seq"); [|done]. intros Hc. split; [by eapply counter_wf|].
  unfold counter in Hc. destruct (identifier _); simpl in Hc; [|done].
  destruct (counter_options _ _); simpl in Hc; [|done]. by injection Hc as <-.
Qed.

(** The text up to a closing brace holds none. *)
Lemma split_body_plain t body r :
  split_once close_brace t = Some (body, r) → has_char open_brace body = false → plain_text body = true.
Proof. intros [_ Hb]%split_once_inv Ho. unfold plain_text. by rewrite Ho, Hb. Qed.

Lemma parse_parts_wf fuel s ps : parse_parts fuel s = Ok ps →
  forallb wf_raw ps = true ∧ no_adjacent ps.*1 = true ∧
  (∀ a s', s = String a s' → a = open_brace ∨ a = close_brace →
     match ps with p :: _ => is_literal p.1 = false | [] => True end).
Proof.
  revert s ps. induction fuel as [|fuel IH]; intros s ps; simpl.
  { destruct s; [by intros [= <-]|done]. }
  destruct s as [|a s]; [by intros [= <-]|]. destruct (find_brace (String a s)) as [t r] eqn:Ef.
  pose proof (find_brace_spec _ _ _ Ef) as (Hs & Ht & Hr).
  destruct t as [|a' t].
  - destruct r as [|b r]; [done|]. injection Hs as <- <-. destruct (Ascii.eqb_spec a close_brace) as [->|Hc]; [done|].
    destruct (split_once close_brace s) as [[body rest]|] eqn:Eb; [|done].
    destruct (has_char open_brace body) eqn:Hob; [done|].
    destruct (token body) as [p|] eqn:Et; simpl; [|done].
    apply token_wf in Et as [Hw Hl]; [|by eapply split_body_plain].
    destruct (parse_parts fuel rest) as [ps'|] eqn:Ep; simpl; [|done]. intros [= <-].
    destruct (IH _ _ Ep) as (Hws & Hadj & _). cbn [forallb]. rewrite Hw, Hws. split; [done|]. split; [|done].
    rewrite fmap_cons. destruct (p.1); done.
  - destruct (parse_parts fuel r) as [ps'|] eqn:Ep; simpl; [|done]. intros [= <-].
    destruct (IH _ _ Ep) as (Hws & Hadj & Hhd). cbn [forallb]. rewrite Hws. split; [cbn [wf_raw]; by rewrite Ht|]. split.
    + destruct ps' as [|[q k] ps']; [done|].
      destruct Hr as [->|(b & r' & -> & Hb)]; [by destruct fuel|]. specialize (Hhd b r' eq_refl Hb). simpl in Hhd |- *.
      by destruct q.
    + intros b s' [= <- <-] Hb. exfalso. simpl in Ef.
      destruct Hb as [->| ->]; simpl in Ef; destruct (find_brace s); done.
Qed.

Lemma named_twice_false seen l :
  named_twice seen l = false ↔ NoDup l ∧ ∀ x, x ∈ l → x ∉ seen.
Proof.
  revert seen. induction l as [|x l IH]; intros seen; simpl.
  { split; [|done]. intros _. split; [constructor|]. by intros x ?%elem_of_nil. }
  rewrite orb_false_iff, IH, bool_decide_eq_false, NoDup_cons. set_solver.
Qed.

Lemma resolve_key_ok names p : wf_raw p = true →
  ∃ q, resolve_key names p = Ret q ∧ wf_part names q = true ∧ is_literal q = is_literal p.1 ∧
    c_name <$> counters [q] = c_name <$> counters [p.1].
Proof.
  destruct p as [[t|c|n|f] [key|]]; simpl; intros Hp; try done; try (eexists; done).
  - apply andb_prop in Hp as [[[Hn Hs]%andb_prop Hw]%andb_prop Hpad].
    assert (Hk : wf_key names (if bool_decide (key ∈ names) then KeyCounter key else KeyField key) = is_identifier key).
    { case_bool_decide as E; simpl; rewrite ?bool_decide_eq_true_2, ?bool_decide_eq_false_2 by done; apply andb_true_r. }
    destruct (c_scope c) as [|[[]| |]|[[]| |]]; simpl in Hs; try done; simpl;
      (eexists; split; [done|]; split; [|done]; simpl; unfold wf_counter; simpl; by rewrite Hn, Hk, Hs, Hw, Hpad).
  - apply andb_prop in Hp as [[[Hn Hs]%andb_prop Hw]%andb_prop Hpad]. eexists. split; [done|].
    split; [|done]. simpl. unfold wf_counter. rewrite Hn, Hw, Hpad.
    by destruct (c_scope c) as [|[[]| |]|[[]| |]].
Qed.

Lemma counters_cons p ps : counters (p :: ps) = counters [p] ++ counters ps.
Proof. unfold counters. by destruct p. Qed.

Lemma no_adjacent_literals (p q : list Part) :
  is_literal <$> p = is_literal <$> q → no_adjacent p = no_adjacent q.
Proof.
  revert q. induction p as [|x p IH]; intros [|y q]; try done. rewrite !fmap_cons. intros [= E1 E2].
  destruct x, y; try done; simpl; try (by apply IH).
  destruct p as [|x' p], q as [|y' q]; try done. rewrite !fmap_cons in E2. injection E2 as E2 E3.
  destruct x', y'; try done; apply IH; rewrite !fmap_cons; simpl; congruence.
Qed.

Lemma resolve_keys_ok names ps : forallb wf_raw ps = true →
  ∃ p, resolve_keys names ps = Ret p ∧ forallb (wf_part names) p = true ∧
    is_literal <$> p = is_literal <$> ps.*1 ∧ c_name <$> counters p = c_name <$> counters ps.*1.
Proof.
  induction ps as [|x ps IH]; [by exists []|]. cbn [forallb resolve_keys]. intros [Hx Hps]%andb_prop.
  destruct (resolve_key_ok names x Hx) as (q & -> & Hq & Hl & Hc). destruct (IH Hps) as (p & -> & Hp & Hlp & Hcp).
  exists (q :: p). split; [done|]. cbn [forallb]. rewrite Hq, Hp. split; [done|].
  rewrite !(fmap_cons _ _ ps), !fmap_cons. split; [by rewrite Hl, Hlp|].
  by rewrite counters_cons, (counters_cons x.1), !fmap_app, Hc, Hcp.
Qed.

(** The parser never panics, and what it accepts is well formed. *)
Lemma parse_total s : ∃ r, parse s = Ret r ∧ ∀ p, r = Ok p → wf_pattern p = true.
Proof.
  unfold parse. destruct (parse_parts _ s) as [ps|e] eqn:Ep; [|by eexists].
  destruct (parse_parts_wf _ _ _ Ep) as (Hw & Hadj & _).
  destruct (named_twice _ _) eqn:Ht; [by eexists|]. apply named_twice_false in Ht as [Hnd _].
  destruct (resolve_keys_ok (c_name <$> counters ps.*1) ps Hw) as (p & -> & Hp & Hl & Hc). simpl.
  eexists. split; [done|]. intros p'. destruct (has_counter_cycle p) eqn:Hcyc; [done|]. intros [= <-].
  unfold wf_pattern. rewrite Hc, Hp, Hcyc, (no_adjacent_literals _ _ Hl), Hadj. simpl.
  by rewrite bool_decide_eq_true_2.
Qed.

(** ** Every well-formed pattern is the parse of its text *)

(** What the parser reads before it resolves names. *)
Definition raw_scope (s : NumberScope) : NumberScope * option string :=
  match s with
  | Always => (Always, None)
  | ResetBy (KeyDate f) => (ResetBy (KeyDate f), None)
  | PerKey (KeyDate f) => (PerKey (KeyDate f), None)
  | ResetBy (KeyField n | KeyCounter n) => (ResetBy (KeyField ""), Some n)
  | PerKey (KeyField n | KeyCounter n) => (PerKey (KeyField ""), Some n)
  end.

Definition raw_part (p : Part) : Part * option string :=
  match p with
  | PCounter c =>
      let '(s, key) := raw_scope (c_scope c) in
      (PCounter {| c_name := c_name c; c_scope := s; c_width := c_width c; c_pad := c_pad c; c_hex := c_hex c |}, key)
  | p => (p, None)
  end.

Lemma resolve_raw names p : wf_part names p = true → resolve_key names (raw_part p) = Ret p.
Proof.
  destruct p as [t|c|n|f]; try done. simpl. unfold wf_counter.
  intros [[[_ Hk]%andb_prop _]%andb_prop _]%andb_prop. destruct c as [n s w pad hex]. simpl in *.
  destruct s as [|[k|k|f]|[k|k|f]]; simpl in *; try done; apply andb_prop in Hk as [_ Hk];
    rewrite ?negb_true_iff in Hk; by rewrite Hk.
Qed.

Lemma resolve_raws names p : forallb (wf_part names) p = true → resolve_keys names (raw_part <$> p) = Ret p.
Proof.
  induction p as [|x p IH]; [done|]. cbn [forallb]. intros [Hx Hp]%andb_prop. rewrite fmap_cons. simpl.
  rewrite (resolve_raw _ _ Hx). simpl. by rewrite IH.
Qed.

Lemma raw_names p : c_name <$> counters (raw_part <$> p).*1 = c_name <$> counters p.
Proof.
  induction p as [|x p IH]; [done|]. rewrite !fmap_cons, counters_cons, (counters_cons x), !fmap_app, IH.
  f_equal. destruct x as [t|c|n|f]; simpl; try done. by destruct (raw_scope (c_scope c)).
Qed.

Lemma counter_options_app o l l' :
  counter_options o (l ++ l') = let? o' := counter_options o l in counter_options o' l'.
Proof.
  revert o. induction l as [|x l IH]; intros o; [done|]. simpl. destruct (counter_option o x); simpl; [|done].
  apply IH.
Qed.

Lemma identifier_not_date n : is_identifier n = true → strip_prefix "date:" n = None.
Proof.
  intros Hn. destruct (strip_prefix "date:" n) as [r|] eqn:E; [|done]. apply strip_prefix_inv in E as ->.
  apply (identifier_no_char _ colon) in Hn; [|done]. rewrite has_char_app in Hn.
  by apply orb_false_iff in Hn as [Hn _].
Qed.

Definition with_scope (o : CounterOptions) (s : NumberScope * option string) : CounterOptions :=
  {| o_scope := s.1; o_key := match s.2 with Some n => Some n | None => o_key o end; o_width := o_width o;
     o_pad := o_pad o; o_hex := o_hex o |}.

Lemma scope_texts_parse o names s :
  o_scope o = Always → match scope_key s with Some k => wf_key names k | None => true end = true →
  counter_options o (scope_texts s) = Ok (with_scope o (raw_scope s)).
Proof.
  intros Ho Hk. unfold with_scope.
  destruct s as [|k|k]; simpl in *; [destruct o; simpl in *; by subst|..];
    unfold counter_option, scope_option.
  - rewrite strip_prefix_app, Ho. simpl. destruct k as [n|n|f]; simpl in *.
    1,2: apply andb_prop in Hk as [Hn _]; rewrite identifier_not_date by done; unfold identifier; by rewrite Hn.
    by destruct f.
  - replace (strip_prefix "reset=" ("per=" +:+ key_text k)) with (@None string) by done.
    rewrite strip_prefix_app, Ho. simpl. destruct k as [n|n|f]; simpl in *.
    1,2: apply andb_prop in Hk as [Hn _]; rewrite identifier_not_date by done; unfold identifier; by rewrite Hn.
    by destruct f.
Qed.

Lemma width_text_parse o w :
  o_width o = None → 1 ≤ w ≤ MAX_WIDTH →
  counter_option o ("width=" +:+ decimal_text w) =
  Ok {| o_scope := o_scope o; o_key := o_key o; o_width := Some w; o_pad := o_pad o; o_hex := o_hex o |}.
Proof.
  unfold MAX_WIDTH. intros Ho Hw. unfold counter_option.
  replace (scope_option ("width=" +:+ decimal_text w)) with (@None ((NumberKey → NumberScope) * string)) by done.
  unfold width_option. rewrite strip_prefix_app, Ho. unfold width_value. rewrite parse_decimal by lia. simpl.
  unfold in_range at 2. replace ((0 <=? w) && (w <=? 65535)) with true; simpl.
  - unfold in_range. replace ((1 <=? w) && (w <=? MAX_WIDTH)) with true; [done|].
    symmetry. apply andb_true_iff. rewrite !Z.leb_le. done.
  - symmetry. apply andb_true_iff. rewrite !Z.leb_le. lia.
Qed.

Lemma pad_text_parse o pad :
  o_pad o = None → is_one_char pad = true →
  counter_option o ("pad=" +:+ pad) =
  Ok {| o_scope := o_scope o; o_key := o_key o; o_width := o_width o; o_pad := Some pad; o_hex := o_hex o |}.
Proof.
  intros Ho Hp. unfold counter_option.
  replace (scope_option ("pad=" +:+ pad)) with (@None ((NumberKey → NumberScope) * string)) by done.
  replace (width_option ("pad=" +:+ pad)) with (@None string) by done.
  by rewrite strip_prefix_app, Hp, Ho.
Qed.

Lemma option_texts_parse names c : wf_counter names c = true →
  counter_options no_options (option_texts c) =
  Ok {| o_scope := (raw_scope (c_scope c)).1; o_key := (raw_scope (c_scope c)).2; o_width := c_width c;
        o_pad := Some (c_pad c); o_hex := c_hex c |}.
Proof.
  unfold wf_counter. intros [[[Hn Hk]%andb_prop Hw]%andb_prop Hp]%andb_prop. unfold option_texts.
  rewrite counter_options_app, (scope_texts_parse _ names) by done. simpl.
  set (o := with_scope _ _).
  assert (counter_options o match c_width c with Some w => ["width=" +:+ decimal_text w] | None => [] end =
    Ok {| o_scope := (raw_scope (c_scope c)).1; o_key := (raw_scope (c_scope c)).2; o_width := c_width c;
          o_pad := None; o_hex := false |}) as Hwo.
  { unfold o, with_scope. destruct (raw_scope (c_scope c)) as [s [k|]], (c_width c) as [w|]; simpl; try done;
      (rewrite width_text_parse; [done..|]); apply andb_prop in Hw as [?%Z.leb_le ?%Z.leb_le]; done. }
  rewrite counter_options_app, Hwo. simpl. apply andb_prop in Hp as [[Hp _]%andb_prop _].
  rewrite pad_text_parse by done. simpl. by destruct (c_hex c).
Qed.

(** Text that neither ends an option nor a token. *)
Definition quiet (s : string) : Prop := has_char comma s = false ∧ plain_text s = true.

Lemma quiet_app s t : quiet (s +:+ t) ↔ quiet s ∧ quiet t.
Proof. unfold quiet. rewrite plain_app, has_char_app, orb_false_iff, andb_true_iff. tauto. Qed.

Lemma identifier_quiet n : is_identifier n = true → quiet n.
Proof. intros Hn. unfold quiet, plain_text. by rewrite !(identifier_no_char n). Qed.

Lemma decimal_quiet w : 0 ≤ w → quiet (decimal_text w).
Proof.
  intros Hw. unfold decimal_text. replace (w <? 0) with false by lia.
  pose proof (decimal_digits 20 w "" Hw eq_refl) as Hd. unfold quiet, plain_text.
  by rewrite !(all_bytes_no_char _ _ _ Hd).
Qed.

Lemma option_texts_quiet names c : wf_counter names c = true → Forall quiet (c_name c :: option_texts c).
Proof.
  unfold wf_counter. intros [[[Hn Hk]%andb_prop Hw]%andb_prop Hp]%andb_prop.
  assert (Hkey : ∀ k, wf_key names k = true → quiet (key_text k)).
  { intros [n|n|f]; simpl; [intros [Hx _]%andb_prop|intros [Hx _]%andb_prop|]; [by apply identifier_quiet..|by destruct f]. }
  constructor; [by apply identifier_quiet|]. unfold option_texts. rewrite !Forall_app. split; [|split; [|split]].
  - destruct (c_scope c) as [|k|k]; simpl in *; constructor; try constructor; apply quiet_app; (split; [done|auto]).
  - destruct (c_width c) as [w|]; [|constructor]. simpl in Hw. apply andb_prop in Hw as [?%Z.leb_le _].
    constructor; [|constructor]. apply quiet_app. split; [done|]. apply decimal_quiet. lia.
  - constructor; [|constructor]. apply quiet_app. split; [done|]. apply andb_prop in Hp as [[_ Hc]%andb_prop Hq].
    apply negb_true_iff in Hc. by split.
  - destruct (c_hex c); repeat constructor.
Qed.

Lemma counter_text_parse names c : wf_counter names c = true →
  counter (join_char comma (c_name c :: option_texts c)) = Ok (raw_part (PCounter c)).
Proof.
  intros Hc. pose proof (option_texts_quiet names c Hc) as Hq. unfold counter.
  rewrite split_join; [|done|by eapply Forall_impl; [exact Hq|]; intros ? []].
  cbn [head tail default id]. pose proof Hc as Hc'. unfold wf_counter in Hc'.
  apply andb_prop in Hc' as [[[Hn _]%andb_prop _]%andb_prop _]. unfold identifier. rewrite Hn. simpl.
  rewrite (option_texts_parse names c Hc). simpl. by destruct (raw_scope (c_scope c)).
Qed.

Lemma token_text_parse names p : wf_part names p = true → is_literal p = false →
  token (token_text p) = Ok (raw_part p) ∧ plain_text (token_text p) = true.
Proof.
  intros Hp Hl. destruct p as [t|c|n|f]; try done; simpl in Hp.
  - split.
    + unfold token. change (token_text (PCounter c)) with
        ("seq" +:+ String colon (join_char comma (c_name c :: option_texts c))).
      rewrite split_once_app by done. by apply (counter_text_parse names).
    + cbn [token_text]. rewrite plain_app. pose proof (option_texts_quiet names c Hp) as Hq.
      unfold plain_text at 2. rewrite andb_true_l. apply andb_true_iff. rewrite !negb_true_iff, !has_char_join.
      assert (∀ b, b = open_brace ∨ b = close_brace → Forall (λ w, has_char b w = false) (c_name c :: option_texts c)) as Hb.
      { intros b Hb. eapply Forall_impl; [exact Hq|]. intros w [_ Hw]. unfold plain_text in Hw.
        apply andb_prop in Hw as [?%negb_true_iff ?%negb_true_iff]. by destruct Hb as [->| ->]. }
      split; (split; [apply Hb; auto|done]).
  - split.
    + unfold token. change (token_text (PField n)) with ("field" +:+ String colon n).
      rewrite split_once_app by done. simpl. unfold identifier. by rewrite Hp.
    + cbn [token_text]. rewrite plain_app. by destruct (identifier_quiet n Hp) as [_ ->].
  - by destruct f.
Qed.

Lemma length_app_string s t : String.length (s +:+ t) = (String.length s + String.length t)%nat.
Proof. induction s as [|a s IH]; [done|]. simpl. by rewrite IH. Qed.

(** One turn of the loop on a literal, and on a token. *)
Lemma parse_parts_literal fuel t r :
  t ≠ "" → plain_text t = true → (r = "" ∨ ∃ r', r = String open_brace r') →
  parse_parts (S fuel) (t +:+ r) = let? parts := parse_parts fuel r in Ok ((Literal t, None) :: parts).
Proof.
  intros Hne Ht Hr. pose proof (find_brace_app t r Ht Hr) as Hf. destruct t as [|a t]; [done|].
  change (String a t +:+ r) with (String a (t +:+ r)) in *. cbn [parse_parts]. by rewrite Hf.
Qed.

Lemma parse_parts_token fuel body r :
  plain_text body = true →
  parse_parts (S fuel) (String open_brace (body +:+ String close_brace r)) =
  let? part := token body in let? parts := parse_parts fuel r in Ok (part :: parts).
Proof.
  intros Hq. unfold plain_text in Hq. apply andb_prop in Hq as [Ho%negb_true_iff Hc%negb_true_iff].
  cbn [parse_parts]. change (find_brace (String open_brace ?s)) with ("", String open_brace s). cbv beta iota.
  replace (Ascii.eqb open_brace close_brace) with false by done.
  by rewrite split_once_app, Ho.
Qed.

Lemma pattern_text_parse names p fuel :
  forallb (wf_part names) p = true → no_adjacent p = true →
  (String.length (pattern_text p) ≤ fuel)%nat → parse_parts fuel (pattern_text p) = Ok (raw_part <$> p).
Proof.
  revert fuel. induction p as [|x p IH]; intros fuel Hw Hadj Hf; [by destruct fuel|].
  cbn [forallb] in Hw. apply andb_prop in Hw as [Hx Hp]. cbn [pattern_text] in *. rewrite length_app_string in Hf.
  destruct (is_literal x) eqn:Hl.
  - destruct x as [t|c|n|f]; try done. simpl in Hx, Hf |- *. apply andb_prop in Hx as [Hne Ht].
    destruct fuel as [|fuel]; [destruct t; [done|simpl in Hf; lia]|]. rewrite parse_parts_literal.
    + rewrite IH; [done|done| |destruct t; [done|simpl in Hf; lia]]. by destruct p as [|[] p].
    + by destruct t.
    + done.
    + destruct p as [|[] p]; [by left|done|right; simpl; eauto..].
  - destruct (token_text_parse names x Hx Hl) as [Ht Hq].
    assert (Hpt : part_text x = String open_brace (token_text x +:+ String close_brace "")) by (by destruct x).
    rewrite Hpt in *. destruct fuel as [|fuel]; [simpl in Hf; lia|].
    change ((String open_brace (token_text x +:+ String close_brace "")) +:+ pattern_text p) with
      (String open_brace ((token_text x +:+ String close_brace "") +:+ pattern_text p)).
    rewrite string_app_assoc. change (String close_brace "" +:+ pattern_text p) with (String close_brace (pattern_text p)).
    rewrite parse_parts_token, Ht by done. simpl. rewrite IH; [done|done| |].
    + by destruct x.
    + simpl in Hf. rewrite length_app_string in Hf. simpl in Hf. lia.
Qed.

Lemma parse_text p : wf_pattern p = true → parse (pattern_text p) = Ret (Ok p).
Proof.
  unfold wf_pattern. intros [[[Hp Hadj]%andb_prop Hnd]%andb_prop Hcyc]%andb_prop. apply bool_decide_eq_true in Hnd.
  unfold parse. rewrite (pattern_text_parse (c_name <$> counters p)) by done. rewrite raw_names.
  assert (named_twice [] (c_name <$> counters p) = false) as ->.
  { apply named_twice_false. split; [done|]. intros x _ ?%elem_of_nil. done. }
  rewrite resolve_raws by done. simpl. apply negb_true_iff in Hcyc. by rewrite Hcyc.
Qed.

(** Each turn takes a byte, so the length of the text is fuel enough. *)
Lemma parse_parts_fuel fuel fuel' s :
  (String.length s ≤ fuel)%nat → (String.length s ≤ fuel')%nat → parse_parts fuel s = parse_parts fuel' s.
Proof.
  revert fuel' s. induction fuel as [|fuel IH]; intros fuel' s Hf Hf'.
  { destruct s; [by destruct fuel'|simpl in Hf; lia]. }
  destruct s as [|a s]; [by destruct fuel'|]. destruct fuel' as [|fuel']; [simpl in Hf'; lia|].
  cbn [parse_parts]. destruct (find_brace (String a s)) as [t r] eqn:Ef.
  apply find_brace_spec in Ef as (Hs & _ & _). destruct t as [|a' t].
  - destruct r as [|b r]; [done|]. injection Hs as <- <-. destruct (Ascii.eqb a close_brace); [done|].
    destruct (split_once close_brace s) as [[body rest]|] eqn:Eb; [|done].
    apply split_once_inv in Eb as [-> _]. simpl in Hf, Hf'. rewrite length_app_string in Hf, Hf'. simpl in Hf, Hf'.
    destruct (has_char open_brace body); [done|]. destruct (token body); simpl; [|done].
    by rewrite (IH fuel') by lia.
  - rewrite Hs in Hf, Hf'. rewrite length_app_string in Hf, Hf'. simpl in Hf, Hf'. by rewrite (IH fuel') by lia.
Qed.

(** ** What a pattern should be

    Stated apart from the parser's own checks: names by the codes of their bytes, one
    character as a text that is not two, and keys as a relation between counters. *)

Definition between (lo hi n : N) : Prop := (lo ≤ n ≤ hi)%N.

(** [a-z_], then [a-z0-9_]. *)
Fixpoint name_codes (s : string) : Prop :=
  match s with
  | EmptyString => True
  | String b s' =>
      (between 97 122 (Ascii.N_of_ascii b) ∨ between 48 57 (Ascii.N_of_ascii b) ∨ Ascii.N_of_ascii b = 95%N) ∧
      name_codes s'
  end.
Definition is_name (s : string) : Prop :=
  ∃ b s', s = String b s' ∧ (between 97 122 (Ascii.N_of_ascii b) ∨ Ascii.N_of_ascii b = 95%N) ∧ name_codes s'.

(** Not two characters, nor none. *)
Definition one_character (s : string) : Prop :=
  s ≠ "" ∧ ∀ u v, s = u +:+ v → valid_utf8 (String.length u) u = true → u = "" ∨ v = "".

(** The counter [a] is reset by, or counts per, the value of the counter [b]. *)
Definition keyed_by (p : Pattern) (a b : string) : Prop :=
  ∃ c, c ∈ counters p ∧ c_name c = a ∧ scope_key (c_scope c) = Some (KeyCounter b).

Record sound_pattern (p : Pattern) : Prop := {
  sp_literal t : Literal t ∈ p → t ≠ "" ∧ has_char open_brace t = false ∧ has_char close_brace t = false;
  sp_apart i t u : p !! i = Some (Literal t) → p !! S i ≠ Some (Literal u);
  sp_field n : PField n ∈ p → is_name n;
  sp_distinct : NoDup (c_name <$> counters p);
  sp_name c : c ∈ counters p → is_name (c_name c);
  sp_width c w : c ∈ counters p → c_width c = Some w → (1 ≤ w ≤ 32)%Z;
  sp_pad c : c ∈ counters p → one_character (c_pad c);
  sp_key_counter c n : c ∈ counters p → scope_key (c_scope c) = Some (KeyCounter n) → n ∈ c_name <$> counters p;
  sp_key_field c n : c ∈ counters p → scope_key (c_scope c) = Some (KeyField n) →
    is_name n ∧ n ∉ c_name <$> counters p;
  sp_acyclic n : ¬ tc (keyed_by p) n n;
}.

Lemma name_byte_codes s : all_bytes is_name_byte s = true → name_codes s.
Proof.
  induction s as [|b s IH]; [done|]. cbn [all_bytes name_codes]. intros [Hb Hs]%andb_prop. split; [|by apply IH].
  unfold is_name_byte, is_ascii_lowercase, is_ascii_digit, byte_between in Hb. unfold between.
  apply orb_true_iff in Hb as [[Hb|Hb]%orb_true_iff|Hb]; [left|right; left|right; right; by apply Ascii.eqb_eq in Hb as ->];
    apply andb_prop in Hb as [?%N.leb_le ?%N.leb_le]; lia.
Qed.

Lemma identifier_name n : is_identifier n = true → is_name n.
Proof.
  destruct n as [|b s]; [done|]. cbn [is_identifier]. intros [Hb Hs]%andb_prop. exists b, s.
  split; [done|]. split; [|by apply name_byte_codes].
  unfold is_name_start, is_ascii_lowercase, byte_between in Hb. unfold between.
  apply orb_true_iff in Hb as [Hb|Hb]; [left|right; by apply Ascii.eqb_eq in Hb as ->].
  apply andb_prop in Hb as [?%N.leb_le ?%N.leb_le]; lia.
Qed.

(** A valid text holds at least the bytes its first byte announces. *)
Lemma utf8_head_length fuel b s : valid_utf8 fuel (String b s) = true → (char_length b ≤ S (String.length s))%nat.
Proof.
  destruct fuel as [|fuel]; [done|]. cbn [valid_utf8]. unfold char_length, byte_between.
  destruct ((0 <=? _)%N && (Ascii.N_of_ascii b <=? 127)%N) eqn:E1.
  { intros _. apply andb_prop in E1 as [_ H%N.leb_le]. rewrite (proj2 (N.ltb_lt _ _)) by lia. lia. }
  destruct s as [|c s]; [done|]. cbn [String.length].
  destruct ((194 <=? _)%N && _) eqn:E2.
  { intros _. apply andb_prop in E2 as [_ H%N.leb_le]. destruct (_ <? 192)%N; [lia|].
    rewrite (proj2 (N.ltb_lt _ _)) by lia. lia. }
  destruct s as [|d s]; [done|]. cbn [String.length].
  destruct ((224 <=? _)%N && (Ascii.N_of_ascii b <=? 239)%N) eqn:E3.
  { intros _. apply andb_prop in E3 as [_ H%N.leb_le]. do 2 (destruct (_ <? _)%N; [lia|]).
    rewrite (proj2 (N.ltb_lt _ _)) by lia. lia. }
  destruct s as [|e s]; [done|]. cbn [String.length]. intros _. repeat destruct (_ <? _)%N; lia.
Qed.

Lemma one_char_one s : is_one_char s = true → one_character s.
Proof.
  destruct s as [|a s]; [done|]. cbn [is_one_char]. intros E%Nat.eqb_eq. split; [done|].
  intros [|b u] v Es Hu; [by left|]. right. injection Es as <- ->.
  apply utf8_head_length in Hu. cbn [String.length] in E. rewrite length_app_string in E.
  destruct v; [done|cbn [String.length] in E; lia].
Qed.

(** *** Cycles *)

Fixpoint key_steps (p : Pattern) (n : nat) (a : string) : option string :=
  match n with O => Some a | S n => key_of p a ≫= key_steps p n end.

Lemma key_steps_add p n m a : key_steps p (n + m) a = key_steps p n a ≫= key_steps p m.
Proof. revert a. induction n as [|n IH]; intros a; [done|]. simpl. destruct (key_of p a); simpl; [apply IH|done]. Qed.

Lemma returns_to_steps p start n a k :
  (1 ≤ k ≤ n)%nat → key_steps p k a = Some start → returns_to p start n a = true.
Proof.
  revert a k. induction n as [|n IH]; intros a k Hk E; [lia|]. destruct k as [|k]; [lia|]. simpl in E |- *.
  destruct (key_of p a) as [b|]; [simpl in E|done]. destruct (String.eqb_spec b start); [done|].
  destruct k as [|k]; [by injection E|]. by apply (IH b (S k)); [lia|].
Qed.

Lemma keyed_key_of p a b : NoDup (c_name <$> counters p) → keyed_by p a b → key_of p a = Some b.
Proof.
  intros Hnd (c & Hc & <- & Hk). unfold key_of. induction (counters p) as [|d l IH]; [by apply elem_of_nil in Hc|].
  cbn [List.find]. rewrite fmap_cons in Hnd. apply NoDup_cons in Hnd as [Hd Hnd].
  apply elem_of_cons in Hc as [<-|Hc]; [by rewrite String.eqb_refl; simpl; rewrite Hk|].
  destruct (String.eqb_spec (c_name d) (c_name c)) as [E|]; [|by apply IH].
  destruct Hd. rewrite E. by apply list_elem_of_fmap_2.
Qed.

Lemma key_of_name p a b : key_of p a = Some b → a ∈ c_name <$> counters p.
Proof.
  unfold key_of. destruct (List.find _ _) as [c|] eqn:E; [|done]. intros _.
  apply List.find_some in E as [Hc%list_elem_of_In <-%String.eqb_eq]. by apply list_elem_of_fmap_2.
Qed.

Lemma tc_steps p a b : NoDup (c_name <$> counters p) → tc (keyed_by p) a b →
  ∃ n, (1 ≤ n)%nat ∧ key_steps p n a = Some b.
Proof.
  intros Hnd. induction 1 as [a b H|a b c H _ (n & Hn & E)].
  - exists 1%nat. split; [lia|]. simpl. by rewrite (keyed_key_of p a b).
  - exists (S n). split; [lia|]. simpl. by rewrite (keyed_key_of p a b).
Qed.

(** A shortest way back visits each counter at most once. *)
Lemma shortest_return p a n : (1 ≤ n)%nat → key_steps p n a = Some a →
  (∀ m, (1 ≤ m < n)%nat → key_steps p m a ≠ Some a) → (n ≤ length (counters p))%nat.
Proof.
  intros Hn Ha Hmin. set (f i := default a (key_steps p i a)).
  assert (Hf : ∀ i, (i ≤ n)%nat → key_steps p i a = Some (f i)).
  { intros i Hi. unfold f. destruct (key_steps p i a) eqn:E; [done|].
    rewrite <- (Nat.sub_add i n), Nat.add_comm, key_steps_add, E in Ha by done. done. }
  enough (Hlen : (length (f <$> seq 0 n) ≤ length (c_name <$> counters p))%nat)
    by (by rewrite !length_fmap, length_seq in Hlen).
  apply submseteq_length, NoDup_submseteq.
  - apply NoDup_fmap_2_strong; [|apply NoDup_seq]. intros i j Hi%elem_of_seq Hj%elem_of_seq E.
    destruct (decide (i = j)) as [|Hne]; [done|]. exfalso.
    assert (Hlt : ∀ i j, (i < j < n)%nat → f i = f j → False).
    { clear -Hf Ha Hmin. intros i j Hij E. apply (Hmin (i + (n - j))%nat); [lia|].
      rewrite key_steps_add, (Hf i) by lia. simpl. rewrite E.
      rewrite <- (Nat.sub_add j n), Nat.add_comm, key_steps_add, (Hf j) in Ha by lia. exact Ha. }
    destruct (Nat.lt_total i j) as [|[|]]; [apply (Hlt i j); [lia|done]|done|apply (Hlt j i); [lia|done]].
  - intros x (i & -> & Hi%elem_of_seq)%list_elem_of_fmap.
    assert (E : key_steps p (i + 1) a = Some (f (S i))) by (rewrite Nat.add_1_r; apply Hf; lia).
    rewrite key_steps_add, (Hf i) in E by lia. simpl in E. destruct (key_of p (f i)) as [b|] eqn:Eb; [|done].
    by eapply key_of_name.
Qed.

Lemma no_cycle p : NoDup (c_name <$> counters p) → has_counter_cycle p = false → ∀ a, ¬ tc (keyed_by p) a a.
Proof.
  intros Hnd Hc a Ht. destruct (tc_steps p a a Hnd Ht) as (n & Hn & Ea). clear Ht.
  revert Hn Ea. induction n as [n IH] using lt_wf_ind. intros Hn Ea.
  destruct (decide (Exists (λ m, key_steps p m a = Some a) (seq 1 (n - 1)))) as [(m & Hm%elem_of_seq & E)%Exists_exists|Hnone].
  { by apply (IH m); [lia|lia|]. }
  assert (Hle : (n ≤ length (counters p))%nat).
  { apply (shortest_return p a); [done..|]. intros m Hm E. apply Hnone, Exists_exists. exists m.
    split; [apply elem_of_seq; lia|done]. }
  destruct n as [|n]; [lia|]. simpl in Ea. destruct (key_of p a) as [b|] eqn:Eb; [|done].
  pose proof (key_of_name p a b Eb) as (c & -> & Hin)%list_elem_of_fmap.
  apply (existsb_false_inv _ _ c) in Hc; [|done]. cbv beta in Hc.
  rewrite (returns_to_steps p (c_name c) _ (c_name c) (S n)) in Hc; [done|lia|]. simpl. by rewrite Eb.
Qed.

Lemma counters_in p c : c ∈ counters p → PCounter c ∈ p.
Proof. intros (x & Hx & E)%list_elem_of_omap. destruct x; simplify_eq; done. Qed.

Lemma no_adjacent_lookup p i t u : no_adjacent p = true → p !! i = Some (Literal t) → p !! S i ≠ Some (Literal u).
Proof.
  revert i. induction p as [|x p IH]; intros i; [done|]. cbn [no_adjacent]. destruct i as [|i].
  - intros H [= ->] E. destruct p as [|y p]; [done|]. injection E as ->. done.
  - intros H. apply IH. by destruct x, p as [|[] p].
Qed.

Lemma wf_sound p : wf_pattern p = true → sound_pattern p.
Proof.
  unfold wf_pattern. intros [[[Hp Hadj]%andb_prop Hnd%bool_decide_eq_true]%andb_prop Hcyc%negb_true_iff]%andb_prop.
  assert (Hpart : ∀ x, x ∈ p → wf_part (c_name <$> counters p) x = true).
  { intros x Hx. rewrite forallb_forall in Hp. by apply Hp, list_elem_of_In. }
  assert (Hcounter : ∀ c, c ∈ counters p → is_identifier (c_name c) = true ∧
    match scope_key (c_scope c) with Some k => wf_key (c_name <$> counters p) k | None => true end = true ∧
    wf_width (c_width c) = true ∧ wf_pad (c_pad c) = true).
  { intros c Hc%counters_in%Hpart. cbn [wf_part] in Hc. unfold wf_counter in Hc. split_andb. done. }
  split.
  - intros t [Ht Hb]%Hpart%andb_prop. unfold plain_text in Hb. apply andb_prop in Hb as [?%negb_true_iff ?%negb_true_iff].
    split; [|done]. by intros ->.
  - intros i t u. by apply no_adjacent_lookup.
  - intros n Hn%Hpart. by apply identifier_name.
  - done.
  - intros c (Hc & _)%Hcounter. by apply identifier_name.
  - intros c w (_ & _ & Hw & _)%Hcounter E. rewrite E in Hw. cbn [wf_width] in Hw. unfold MAX_WIDTH in Hw. lia.
  - intros c (_ & _ & _ & Hpad)%Hcounter. unfold wf_pad in Hpad. apply andb_prop in Hpad as [[Hpad _]%andb_prop _].
    by apply one_char_one.
  - intros c n (_ & Hk & _)%Hcounter E. rewrite E in Hk. apply andb_prop in Hk as [_ Hk]. by apply bool_decide_eq_true in Hk.
  - intros c n (_ & Hk & _)%Hcounter E. rewrite E in Hk. apply andb_prop in Hk as [Hi Hk%negb_true_iff].
    apply bool_decide_eq_false in Hk. split; [by apply identifier_name|done].
  - by apply no_cycle.
Qed.

(** C38. What the pattern parser returns is sound.  On every text it returns, without a
    panic and without running out of fuel, a refusal or a pattern whose literals are
    brace-free and never meet, whose names are identifiers of [a-z0-9_], whose counters
    are distinct with a width of 1 to 32 and one pad character, whose keys name a counter
    of the pattern or a field that is none, and in which no chain of counter keys, however
    long, leads back to its counter.  And it reads back the text of every pattern
    it returns. *)
Theorem parse_well_formed (s : string) :
  (∃ r, parse s = Ret r ∧ ∀ p, r = Ok p → sound_pattern p ∧ parse (pattern_text p) = Ret (Ok p)) ∧
  (∀ fuel, (String.length s ≤ fuel)%nat → parse_parts fuel s = parse_parts (String.length s) s).
Proof.
  split; [|intros fuel Hf; by apply parse_parts_fuel]. destruct (parse_total s) as (r & E & Hr). exists r.
  split; [done|]. intros p Ep%Hr. split; [by apply wf_sound|by apply parse_text].
Qed.

(** Every well-formed pattern has a text, and the parser reads it back: the
    grammar expresses exactly the well-formed patterns. *)
Theorem pattern_text_roundtrip (p : Pattern) :
  wf_pattern p = true → parse (pattern_text p) = Ret (Ok p).
Proof. apply parse_text. Qed.

Module PatternSample.

Definition invoice : Pattern :=
  [Literal "INV-"; PDate Year; Literal "-";
   PCounter {| c_name := "n"; c_scope := ResetBy (KeyDate Year); c_width := Some 5; c_pad := "0"; c_hex := false |};
   PCounter {| c_name := "m"; c_scope := PerKey (KeyCounter "n"); c_width := None; c_pad := "*"; c_hex := true |};
   PField "site"].

Lemma pattern_text_roundtrip_witness :
  pattern_text invoice = "INV-{date:YYYY}-{seq:n,reset=date:YYYY,width=5,pad=0}{seq:m,per=n,pad=*,hex}{field:site}" ∧
  parse (pattern_text invoice) = Ret (Ok invoice).
Proof. split; [reflexivity|]. apply pattern_text_roundtrip. vm_compute. reflexivity. Defined.

End PatternSample.
