(* ===== verification/Numbering.v ===== *)
(** * Document numbers: rendering, peeking and setting

    [wamn_postgres/numbering.rs] ([render], [counter_value], [counter_order],
    [key_map], [key_values], [read_dates], [render_counter]) and
    [numbering/set.rs] ([set_counter]), over the counter tables and the functions
    [bump_counter], [assign_counter] and [set_counter] of
    [deploy/sql/app-schema.sql].  The dates PostgreSQL formats are a parameter.
    Every statement runs in the operation transaction of its caller, so the
    database here is the view of one transaction. *)

From stdpp Require Import base tactics option list gmap strings sorting.
From Stdlib Require Import ZArith Lia.
From S2P Require Import Prelude Text Json NumberPattern.
#[local] Set Warnings "-clear-no-such-hyp".
#[local] Open Scope Z_scope.
#[local] Open Scope wamn_scope.

(** ** The tables *)

Abbreviation CounterKey := (string * string * string)%type.

(** Sequences by application and name, with their id and pattern; counters by
    sequence, name and key value; the [timezone] setting of an application. *)
Record NumberDb := {
  nd_sequences : gmap (string * string) (string * string);
  nd_counters : gmap (string * string * string) Z;
  nd_timezones : gmap string Value;
}.

Definition set_counters (t : gmap (string * string * string) Z) (db : NumberDb) : NumberDb :=
  {| nd_sequences := nd_sequences db; nd_counters := t; nd_timezones := nd_timezones db |}.

Definition sequence_exists (db : NumberDb) (id : string) : bool :=
  existsb (λ s : (string * string) * (string * string), String.eqb s.2.1 id) (map_to_list (nd_sequences db)).

(** Why a call gives no number: a refusal with its code, or a failed statement. *)
Inductive NumberFailure := Refused (code : string) | StatementFailed (code : string).

Definition NO_NUMBER_ISSUED : string := "P0002".
Definition UNKNOWN_SEQUENCE : string := "42704".
Definition NUMBER_INVALID_INPUT : string := "22023".
Definition NULL_FIELD : string := "22004".
Definition OUT_OF_RANGE : string := "22003".

(** A call over the transaction's view that may panic or fail. *)
Definition NumberM (A : Type) : Type := NumberDb → run (NumberDb * result A NumberFailure).
Definition nm_ret {A} (a : A) : NumberM A := λ db, Ret (db, Ok a).
Definition nm_fail {A} (e : NumberFailure) : NumberM A := λ db, Ret (db, Err e).
Definition nm_bind {A B} (m : NumberM A) (k : A → NumberM B) : NumberM B :=
  λ db, match m db with
        | Panic msg => Panic msg
        | Ret (db', Ok a) => k a db'
        | Ret (db', Err e) => Ret (db', Err e)
        end.
Definition nm_run {A} (r : run A) : NumberM A := λ db, match r with Ret a => Ret (db, Ok a) | Panic m => Panic m end.
Definition nm_result {A} (r : result A NumberFailure) : NumberM A := λ db, Ret (db, r).
Notation "'let%' x ':=' m 'in' k" := (nm_bind m (λ x, k))
  (at level 10, x name, m at level 100, k at level 200) : wamn_scope.

(** *** The functions of the schema *)

(** A [bigint] a statement stores. *)
Definition bigint (z : Z) : result Z NumberFailure := ok_or (in_range i64_min i64_max z) (StatementFailed OUT_OF_RANGE).

(** [INSERT ... VALUES (..., 2) ON CONFLICT DO UPDATE SET value = value + 1
    RETURNING value - 1]. *)
Definition advance (k : CounterKey) : NumberM Z := λ db,
  match nd_counters db !! k with
  | None => Ret (set_counters (<[k := 2]> (nd_counters db)) db, Ok 1)
  | Some v => match bigint (v + 1) with
              | Ok v' => Ret (set_counters (<[k := v']> (nd_counters db)) db, Ok v)
              | Err e => Ret (db, Err e)
              end
  end.

Definition bump_counter (sequence counter key : string) : NumberM Z := λ db,
  if negb (sequence_exists db sequence) then Ret (db, Err (StatementFailed UNKNOWN_SEQUENCE))
  else advance (sequence, counter, key) db.

Definition assign_counter (sequence counter key : string) : NumberM Z := λ db,
  if negb (sequence_exists db sequence) then Ret (db, Err (StatementFailed UNKNOWN_SEQUENCE))
  else if String.eqb key "" then Ret (db, Err (StatementFailed NUMBER_INVALID_INPUT))
  else
    match nd_counters db !! (sequence, counter, key) with
    | Some assigned => Ret (db, Ok assigned)
    | None =>
        nm_bind (advance (sequence, counter, ""))
          (λ assigned db', Ret (set_counters (<[(sequence, counter, key) := assigned]> (nd_counters db')) db', Ok assigned)) db
    end.

Definition set_counter_sql (sequence counter key : string) (value : Z) : NumberM unit := λ db,
  if negb (sequence_exists db sequence) then Ret (db, Err (StatementFailed UNKNOWN_SEQUENCE))
  else if value <? 1 then Ret (db, Err (StatementFailed NUMBER_INVALID_INPUT))
  else Ret (set_counters (<[(sequence, counter, key) := value]> (nd_counters db)) db, Ok tt).

(** ** Dates *)

(** [DATE_SQL]: the dates of the transaction in a time zone, joined by bars; an
    unknown time zone fails the statement. *)
Class PgDates := date_sql : string → bool → result string NumberFailure.

Definition bar : Ascii.ascii := Ascii.ascii_of_N 124.

Inductive Timezone := TzUnset | TzText (text : string) | TzNotText.

Definition timezone_setting (db : NumberDb) (application : string) : Timezone :=
  match nd_timezones db !! application with
  | None => TzUnset
  | Some (VString text) => TzText text
  | Some _ => TzNotText
  end.

Definition read_dates `{PgDates} (timezone : Timezone) (iso_year : bool) : result (list string) NumberFailure :=
  match timezone with
  | TzUnset => let? text := date_sql "UTC" iso_year in Ok (split_char bar text)
  | TzNotText => Err (Refused NUMBER_INVALID_INPUT)
  | TzText tz =>
      match date_sql tz iso_year with
      | Ok text => Ok (split_char bar text)
      | Err (StatementFailed code) =>
          if String.eqb code NUMBER_INVALID_INPUT then Err (Refused NUMBER_INVALID_INPUT)
          else Err (StatementFailed code)
      | Err e => Err e
      end
  end.

Definition part_date (part : Part) : option DateFormat :=
  match part with
  | PDate f => Some f
  | PCounter c => match scope_key (c_scope c) with Some (KeyDate f) => Some f | _ => None end
  | _ => None
  end.
Definition pattern_dates (p : Pattern) : list DateFormat := omap part_date p.

Definition date_index (f : DateFormat) : nat :=
  match f with Year => 0 | ShortYear => 1 | Month => 2 | Day => 3 | Week => 4 | Quarter => 5 end.

Definition date_of (dates : option (list string)) (f : DateFormat) : run string :=
  let! ds := expect dates "a date part reads the dates" in
  expect (ds !! date_index f) "index out of bounds".

(** ** Keys *)

Fixpoint key_map (m : gmap string (option string)) (keys : list (string * option string)) :
    result (gmap string (option string)) NumberFailure :=
  match keys with
  | [] => Ok m
  | (name, value) :: keys' =>
      match m !! name with
      | Some _ => Err (Refused NUMBER_INVALID_INPUT)
      | None => key_map (<[name := value]> m) keys'
      end
  end.

Definition key_value (keys : gmap string (option string)) (field : string) : result string NumberFailure :=
  match keys !! field with
  | Some (Some value) => if String.eqb value "" then Err (Refused NUMBER_INVALID_INPUT) else Ok value
  | Some None => Err (Refused NULL_FIELD)
  | None => Err (Refused NUMBER_INVALID_INPUT)
  end.

Fixpoint key_values_of (keys : gmap string (option string)) (names : list string) :
    result (gmap string string) NumberFailure :=
  match names with
  | [] => Ok ∅
  | field :: names' =>
      let? value := key_value keys field in
      let? rest := key_values_of keys names' in
      Ok (<[field := value]> rest)
  end.

Definition key_values (p : Pattern) (keys : gmap string (option string)) : result (gmap string string) NumberFailure :=
  key_values_of keys (fields p).

(** ** Counters *)

Definition name_leb (a b : Counter) : bool := String.leb (c_name a) (c_name b).

Definition is_ready (ordered : list Counter) (c : Counter) : bool :=
  match scope_key (c_scope c) with
  | Some (KeyCounter other) => existsb (λ d, String.eqb (c_name d) other) ordered
  | _ => true
  end.

(** The first ready counter, and the others. *)
Fixpoint take_ready (ordered pending : list Counter) : option (Counter * list Counter) :=
  match pending with
  | [] => None
  | c :: pending' =>
      if is_ready ordered c then Some (c, pending')
      else match take_ready ordered pending' with
           | Some (d, rest) => Some (d, c :: rest)
           | None => None
           end
  end.

(** [fuel] is the number of pending counters. *)
Fixpoint order_from (fuel : nat) (ordered pending : list Counter) : run (list Counter) :=
  match fuel, pending with
  | _, [] | O, _ => Ret ordered
  | S fuel', _ =>
      let! '(c, rest) := expect (take_ready ordered pending) "the parser refuses a counter cycle" in
      order_from fuel' (ordered ++ [c]) rest
  end.

Definition counter_order (p : Pattern) : run (list Counter) :=
  let pending := stable_sort name_leb (counters p) in
  order_from (length pending) [] pending.

Inductive NumberCall := Next | Peek.

Definition is_per (c : Counter) : bool := match c_scope c with PerKey _ => true | _ => false end.

Definition counter_value (sequence : string) (c : Counter) (key : string) (call : NumberCall) :
    NumberM (option Z) :=
  match call, is_per c with
  | Next, false => let% v := bump_counter sequence (c_name c) key in nm_ret (Some v)
  | _, per => λ db,
      let stored := nd_counters db !! (sequence, c_name c, key) in
      match call, stored with
      | Next, Some value => Ret (db, Ok (Some value))
      | Next, None => (let% v := assign_counter sequence (c_name c) key in nm_ret (Some v)) db
      | Peek, stored =>
          Ret (db, Ok (if per : bool then stored
                       else stored ≫= λ next, if 1 <? next then Some (next - 1) else None))
      end
  end.

(** [{value:X}] of a value of at least one. *)
Definition hex_upper (d : Z) : Ascii.ascii := Ascii.ascii_of_N (Z.to_N (if d <? 10 then 48 + d else 55 + d)).
Fixpoint hex_digits (fuel : nat) (n : Z) (acc : string) : string :=
  match fuel with
  | O => acc
  | S fuel' =>
      let acc := String (hex_upper (n mod 16)) acc in
      if n / 16 =? 0 then acc else hex_digits fuel' (n / 16) acc
  end.
Definition hex_text (n : Z) : string := hex_digits 16 (n mod 18446744073709551616) "".

Fixpoint repeat_text (n : nat) (s : string) : string :=
  match n with O => "" | S n' => s +:+ repeat_text n' s end.

Definition render_counter (c : Counter) (value : Z) : string :=
  let digits := if c_hex c then hex_text value else decimal_text value in
  repeat_text (Z.to_nat (default 0 (c_width c)) - String.length digits) (c_pad c) +:+ digits.

(** ** Rendering *)

Section Render.
Context `{PgDates}.

Definition scope_key_text (fields : gmap string string) (done_ : gmap string string) (dates : option (list string))
    (c : Counter) : run string :=
  match scope_key (c_scope c) with
  | None => Ret ""
  | Some (KeyField field) => expect (fields !! field) "no entry found for key"
  | Some (KeyCounter other) => expect (done_ !! other) "no entry found for key"
  | Some (KeyDate f) => date_of dates f
  end.

Fixpoint render_counters (sequence : string) (fields : gmap string string) (dates : option (list string))
    (call : NumberCall) (done_ : gmap string string) (cs : list Counter) : NumberM (gmap string string) :=
  match cs with
  | [] => nm_ret done_
  | c :: cs' =>
      let% key := nm_run (scope_key_text fields done_ dates c) in
      let% value := counter_value sequence c key call in
      match value with
      | None => nm_fail (Refused NO_NUMBER_ISSUED)
      | Some v => render_counters sequence fields dates call (<[c_name c := render_counter c v]> done_) cs'
      end
  end.

Definition render_part (fields done_ : gmap string string) (dates : option (list string)) (part : Part) : run string :=
  match part with
  | Literal text => Ret text
  | PCounter c => expect (done_ !! c_name c) "no entry found for key"
  | PField field => expect (fields !! field) "no entry found for key"
  | PDate f => date_of dates f
  end.

Fixpoint render_parts (fields done_ : gmap string string) (dates : option (list string)) (p : Pattern) : run string :=
  match p with
  | [] => Ret ""
  | part :: p' =>
      let! text := render_part fields done_ dates part in
      let! rest := render_parts fields done_ dates p' in
      Ret (text +:+ rest)
  end.

Definition render_dates (db : NumberDb) (application : string) (p : Pattern) :
    result (option (list string)) NumberFailure :=
  match pattern_dates p with
  | [] => Ok None
  | formats =>
      let? ds := read_dates (timezone_setting db application) (bool_decide (Week ∈ formats)) in
      Ok (Some ds)
  end.

Definition render (application name : string) (keys : gmap string (option string)) (call : NumberCall) :
    NumberM string := λ db,
  match nd_sequences db !! (application, name) with
  | None => Ret (db, Err (Refused UNKNOWN_SEQUENCE))
  | Some (sequence, text) =>
      (let% parsed := nm_run (parse text) in
       let% p := nm_result (match parsed with Ok p => Ok p | Err _ => Err (Refused NUMBER_INVALID_INPUT) end) in
       let% fields := nm_result (key_values p keys) in
       let% dates := nm_result (render_dates db application p) in
       let% order := nm_run (counter_order p) in
       let% done_ := render_counters sequence fields dates call ∅ order in
       nm_run (render_parts fields done_ dates p)) db
  end.

(** [render_number] for a call of an application: the keys of the call come as a
    list. *)
Definition render_number (application : option string) (name : string) (keys : list (string * option string))
    (call : NumberCall) : NumberM string :=
  match application with
  | None => nm_fail (Refused "permission-denied")
  | Some application =>
      let% m := nm_result (key_map ∅ keys) in
      render application name m call
  end.

End Render.

(** ** Setting a counter *)

Record CounterSet := {
  cs_application : string;
  cs_sequence : string;
  cs_counter : string;
  cs_key : string;
  cs_value : Z;
}.

Inductive CounterSetRefusal :=
| SetInvalidInput (field : string)
| SequenceNotFound
| CounterNotFound
| AssignedPerKey.

(** [set_counter] of [set.rs]: a refusal is a value; the caller rolls it back. *)
Definition set_counter (s : CounterSet) : NumberM (result unit CounterSetRefusal) := λ db,
  match nd_sequences db !! (cs_application s, cs_sequence s) with
  | None => Ret (db, Ok (Err SequenceNotFound))
  | Some (sequence, text) =>
      (let% parsed := nm_run (parse text) in
       match parsed with
       | Err _ => nm_ret (Err CounterNotFound)
       | Ok p =>
           match List.find (λ c, String.eqb (c_name c) (cs_counter s)) (counters p) with
           | None => nm_ret (Err CounterNotFound)
           | Some target =>
               match c_scope target with
               | PerKey _ => nm_ret (Err AssignedPerKey)
               | Always => if negb (String.eqb (cs_key s) "") then nm_ret (Err (SetInvalidInput "key"))
                           else let% _ := set_counter_sql sequence (cs_counter s) (cs_key s) (cs_value s) in nm_ret (Ok tt)
               | ResetBy _ => let% _ := set_counter_sql sequence (cs_counter s) (cs_key s) (cs_value s) in nm_ret (Ok tt)
               end
           end
       end) db
  end.

(** ** Counters order: each after the counter its key names *)

Lemma take_ready_spec ordered pending :
  match take_ready ordered pending with
  | Some (c, rest) => is_ready ordered c = true ∧ pending ≡ₚ c :: rest
  | None => ∀ c, c ∈ pending → is_ready ordered c = false
  end.
Proof.
  induction pending as [|c pending IH]; simpl; [by intros c ?%elem_of_nil|].
  destruct (is_ready ordered c) eqn:Hr; [done|]. destruct (take_ready ordered pending) as [[d rest]|].
  - destruct IH as [Hd Hp]. split; [done|]. rewrite Hp. apply Permutation_swap.
  - intros x [->|Hx]%elem_of_cons; [done|auto].
Qed.

Section Cycles.
Context (p : Pattern).

(** The names met along the keys from [x]. *)
Fixpoint key_walk (n : nat) (x : string) : list string :=
  match n with
  | O => [x]
  | S n' => x :: match key_of p x with Some y => key_walk n' y | None => [] end
  end.

Lemma returns_to_walk start n x k :
  (k < n)%nat → key_walk n x !! S k = Some start → returns_to p start n x = true.
Proof.
  revert x k. induction n as [|n IH]; intros x k Hk; [lia|]. simpl.
  destruct (key_of p x) as [y|]; [|done]. intros Hl. destruct (String.eqb_spec y start) as [|Hne]; [done|].
  destruct k as [|k].
  - destruct n; simpl in Hl; injection Hl as ->; done.
  - apply (IH y k); [lia|done].
Qed.

Lemma key_walk_drop n x k y : key_walk n x !! k = Some y → (k ≤ n)%nat ∧ drop k (key_walk n x) = key_walk (n - k) y.
Proof.
  revert x k. induction n as [|n IH]; intros x [|k]; simpl; try done.
  - by intros [= ->].
  - intros [= ->]. split; [lia|done].
  - destruct (key_of p x) as [z|]; [|done]. intros Hk. destruct (IH z k Hk) as [? ->]. split; [lia|done].
Qed.

Lemma not_NoDup_repeat {A} `{EqDecision A} (l : list A) :
  ¬ NoDup l → ∃ i j x, (i < j)%nat ∧ l !! i = Some x ∧ l !! j = Some x.
Proof.
  induction l as [|x l IH]; intros Hn; [destruct Hn; constructor|].
  destruct (decide (x ∈ l)) as [Hx|Hx].
  - apply list_elem_of_lookup_1 in Hx as [j Hj]. exists 0%nat, (S j), x. split; [lia|done].
  - destruct IH as (i & j & y & Hij & Hi & Hj); [intros H; apply Hn; by constructor|].
    exists (S i), (S j), y. split; [lia|done].
Qed.

(** A walk that never leaves a set of names runs in a circle. *)
Lemma closed_walk_cycles (names : list string) x :
  x ∈ names → (∀ y, y ∈ names → ∃ z, key_of p y = Some z ∧ z ∈ names) →
  (length names ≤ length (counters p))%nat →
  ∃ y, y ∈ names ∧ returns_to p y (length (counters p)) y = true.
Proof.
  intros Hx Hclosed Hlen. set (n := length names).
  assert (Hwalk : ∀ n x, x ∈ names → length (key_walk n x) = S n ∧ Forall (λ y, y ∈ names) (key_walk n x)).
  { clear x Hx n. induction n as [|n IH]; intros x Hx; simpl; [split; [done|by repeat constructor]|].
    destruct (Hclosed x Hx) as (z & -> & Hz). destruct (IH z Hz) as [-> Hf]. split; [done|by constructor]. }
  destruct (Hwalk n x Hx) as [Hl Hin].
  assert (Hnd : ¬ NoDup (key_walk n x)).
  { intros Hnd. assert (Hsub : key_walk n x ⊆+ names).
    { apply NoDup_submseteq; [done|]. intros y Hy. rewrite Forall_forall in Hin. auto. }
    apply submseteq_length in Hsub. lia. }
  apply not_NoDup_repeat in Hnd as (i & j & y & Hij & Hi & Hj).
  assert (Hy : y ∈ names) by (eapply Forall_lookup_1 in Hi; [|done]; done). exists y. split; [done|].
  destruct (key_walk_drop _ _ _ _ Hi) as [Hin' Hd].
  assert (Hyy : key_walk (n - i) y !! (j - i)%nat = Some y).
  { rewrite <- Hd, lookup_drop. by replace (i + (j - i))%nat with j by lia. }
  pose proof (lookup_lt_Some _ _ _ Hj) as Hjl. rewrite Hl in Hjl.
  assert (Hret : returns_to p y (n - i) y = true).
  { apply (returns_to_walk y (n - i) y (j - i - 1)); [lia|]. by replace (S (j - i - 1)) with (j - i)%nat by lia. }
  (* More steps meet it too. *)
  assert (Hmono : ∀ m m' c, returns_to p y m c = true → (m ≤ m')%nat → returns_to p y m' c = true).
  { clear. induction m as [|m IH]; intros [|m'] c; simpl; try done; [lia|].
    destruct (key_of p c); [|done]. case_match; [done|]. intros. apply IH; [done|lia]. }
  eapply Hmono; [exact Hret|]. lia.
Qed.

Lemma key_of_counter c : NoDup (c_name <$> counters p) → c ∈ counters p →
  key_of p (c_name c) = match scope_key (c_scope c) with Some (KeyCounter next) => Some next | _ => None end.
Proof.
  intros Hnd Hc. unfold key_of. destruct (List.find _ (counters p)) as [d|] eqn:E.
  - apply find_some in E as [Hd E]. apply String.eqb_eq in E. apply list_elem_of_In in Hd.
    by rewrite (NoDup_fmap_inj_on c_name (counters p) d c).
  - eapply find_none in E; [|by apply list_elem_of_In, Hc]. by rewrite String.eqb_refl in E.
Qed.

Definition ordered_ok (l : list Counter) : Prop :=
  ∀ pre c post, l = pre ++ c :: post → is_ready pre c = true.

Lemma ordered_ok_snoc l c : ordered_ok l → is_ready l c = true → ordered_ok (l ++ [c]).
Proof.
  intros Hl Hc pre d post E. destruct (decide (post = [])) as [->|Hne].
  - apply app_inj_tail in E as [-> ->]. done.
  - destruct (exists_last Hne) as (post' & x & ->). rewrite app_comm_cons, app_assoc in E.
    apply app_inj_tail in E as [-> _]. by eapply Hl.
Qed.

Lemma order_from_ok fuel ordered pending :
  wf_pattern p = true → ordered ++ pending ≡ₚ counters p → (length pending ≤ fuel)%nat → ordered_ok ordered →
  ∃ l, order_from fuel ordered pending = Ret l ∧ l ≡ₚ counters p ∧ ordered_ok l.
Proof.
  intros Hwf. unfold wf_pattern in Hwf. apply andb_prop in Hwf as [[[Hparts _]%andb_prop Hnd]%andb_prop Hcyc].
  apply bool_decide_eq_true in Hnd. apply negb_true_iff in Hcyc.
  revert ordered pending. induction fuel as [|fuel IH]; intros ordered pending Hp Hf Hok.
  { destruct pending; [|simpl in Hf; lia]. exists ordered. rewrite app_nil_r in Hp. done. }
  destruct pending as [|c0 pending0]; [exists ordered; rewrite app_nil_r in Hp; done|].
  cbn [order_from]. set (pending := c0 :: pending0) in *.
  pose proof (take_ready_spec ordered pending) as Ht. destruct (take_ready ordered pending) as [[c rest]|]; simpl.
  { destruct Ht as [Hc Hperm]. apply IH; [|by rewrite Hperm in Hf; simpl in Hf; lia|by apply ordered_ok_snoc].
    rewrite <- app_assoc. simpl. by rewrite <- Hperm. }
  exfalso. destruct (closed_walk_cycles (c_name <$> pending) (c_name c0)) as (y & Hy & Hret).
  - subst pending. rewrite fmap_cons. left.
  - intros y (c & -> & Hc)%list_elem_of_fmap. specialize (Ht c Hc).
    assert (Hcp : c ∈ counters p) by (rewrite <- Hp; apply elem_of_app; by right).
    rewrite (key_of_counter c Hnd Hcp). unfold is_ready in Ht.
    destruct (scope_key (c_scope c)) as [[n|n|f]|] eqn:Ek; try done. exists n. split; [done|].
    assert (Hn : n ∈ c_name <$> counters p).
    { unfold counters in Hcp. apply list_elem_of_omap in Hcp as (part & Hin & Hpart).
      destruct part as [| c' | |]; try done. injection Hpart as ->.
      rewrite forallb_forall in Hparts. apply list_elem_of_In in Hin. specialize (Hparts _ Hin). simpl in Hparts.
      unfold wf_counter in Hparts. rewrite Ek in Hparts. simpl in Hparts.
      apply andb_prop in Hparts as [[[_ [_ Hb]%andb_prop]%andb_prop _]%andb_prop _]. by apply bool_decide_eq_true in Hb. }
    rewrite <- Hp, fmap_app, elem_of_app in Hn. destruct Hn as [Hn|Hn]; [|done]. exfalso.
    apply list_elem_of_fmap in Hn as (d & -> & Hd). eapply existsb_false_inv in Ht; [|exact Hd].
    by rewrite String.eqb_refl in Ht.
  - rewrite length_fmap, <- Hp, length_app. lia.
  - apply list_elem_of_fmap in Hy as (c & -> & Hc). unfold has_counter_cycle in Hcyc.
    eapply existsb_false_inv in Hcyc; [|rewrite <- Hp; apply elem_of_app; right; exact Hc]. simpl in Hcyc. congruence.
Qed.

Lemma counter_order_ok : wf_pattern p = true →
  ∃ l, counter_order p = Ret l ∧ l ≡ₚ counters p ∧ ordered_ok l.
Proof.
  intros Hwf. apply order_from_ok; [done|simpl; apply stable_sort_perm|done|]. by intros [] ? ?.
Qed.

End Cycles.

(** ** Rendering never panics *)

Lemma elem_of_dedup x l : x ∈ dedup l ↔ x ∈ l.
Proof.
  induction l as [|y l IH]; [done|]. simpl. destruct l as [|z l]; [done|].
  destruct (String.eqb_spec y z) as [->|]; rewrite ?elem_of_cons, IH, !elem_of_cons; tauto.
Qed.

Lemma elem_of_fields f p : f ∈ fields p ↔ ∃ part, part ∈ p ∧ part_field part = Some f.
Proof. unfold fields. by rewrite elem_of_dedup, elem_of_stable_sort, list_elem_of_omap. Qed.

Lemma key_values_of_ok keys names m : key_values_of keys names = Ok m →
  ∀ f, f ∈ names → ∃ v, m !! f = Some v ∧ v ≠ "".
Proof.
  revert m. induction names as [|n names IH]; intros m; simpl; [by intros _ f ?%elem_of_nil|].
  destruct (key_value keys n) as [v|] eqn:Ev; simpl; [|done].
  destruct (key_values_of keys names) as [rest|]; simpl; [|done]. intros [= <-] f Hf.
  destruct (decide (f = n)) as [->|Hne].
  - exists v. rewrite lookup_insert_eq. split; [done|]. unfold key_value in Ev.
    repeat case_match; simplify_eq. by apply String.eqb_neq.
  - rewrite lookup_insert_ne by done. apply (IH rest); [done|]. by apply elem_of_cons in Hf as [|].
Qed.

(** What PostgreSQL documents of [to_char] with the six formats: six texts joined
    by bars. *)
Class PgDatesLaw `{PgDates} := date_sql_six : ∀ tz iso text, date_sql tz iso = Ok text →
  length (split_char bar text) = 6%nat ∧ Forall (λ t, t ≠ "") (split_char bar text).

Section Total.
Context `{PgDatesLaw}.

Definition dates_ok (p : Pattern) (dates : option (list string)) : Prop :=
  ∀ f, f ∈ pattern_dates p → ∃ t, date_of dates f = Ret t ∧ t ≠ "".

Lemma render_dates_ok db application p dates : render_dates db application p = Ok dates → dates_ok p dates.
Proof.
  unfold render_dates, dates_ok. destruct (pattern_dates p) as [|f0 fs]; [by intros _ f ?%elem_of_nil|].
  destruct (read_dates _ _) as [ds|] eqn:Er; simpl; [|done]. intros [= <-] f _.
  assert (length ds = 6%nat ∧ Forall (λ t, t ≠ "") ds) as [Hl Hne].
  { unfold read_dates in Er. destruct (timezone_setting _ _) as [|tz|]; [..|done].
    - destruct (date_sql _ _) eqn:Ed; simpl in Er; [|done]. injection Er as <-. by eapply date_sql_six.
    - destruct (date_sql _ _) as [text|[|]] eqn:Ed; simpl in Er; [|done|by case_match].
      injection Er as <-. by eapply date_sql_six. }
  unfold date_of. simpl. destruct (lookup_lt_is_Some_2 ds (date_index f)) as [t Ht]; [rewrite Hl; destruct f; simpl; lia|].
  rewrite Ht. exists t. split; [done|]. by eapply Forall_lookup_1 in Hne.
Qed.

Lemma counter_in_pattern p c : c ∈ counters p ↔ PCounter c ∈ p.
Proof.
  unfold counters. rewrite list_elem_of_omap. split; [|by exists (PCounter c)].
  intros ([] & ? & ?); naive_solver.
Qed.

Definition values_ok (p : Pattern) (fields : gmap string string) : Prop :=
  ∀ f, f ∈ NumberPattern.fields p → ∃ v, fields !! f = Some v ∧ v ≠ "".

(** The key of a counter whose turn has come. *)
Lemma scope_key_text_ok p fields done_ dates pre c :
  values_ok p fields → dates_ok p dates → c ∈ counters p → is_ready pre c = true →
  (∀ d, d ∈ pre → ∃ v, done_ !! c_name d = Some v ∧ v ≠ "") →
  ∃ k, scope_key_text fields done_ dates c = Ret k ∧ (scope_key (c_scope c) ≠ None → k ≠ "").
Proof.
  intros Hf Hd Hc Hr Hdone. apply counter_in_pattern in Hc. unfold scope_key_text, is_ready in *.
  destruct (scope_key (c_scope c)) as [[n|n|f]|] eqn:Ek; [..|by eexists].
  - destruct (Hf n) as (v & -> & Hv); [|eexists; done]. apply elem_of_fields. exists (PCounter c). split; [done|].
    simpl. by rewrite Ek.
  - apply existsb_exists in Hr as (d & Hin & E). apply String.eqb_eq in E. apply list_elem_of_In in Hin.
    destruct (Hdone d Hin) as (v & Hv & Hne). rewrite E in Hv. rewrite Hv. by eexists.
  - destruct (Hd f) as (t & -> & Ht); [|by eexists]. unfold pattern_dates. apply list_elem_of_omap.
    exists (PCounter c). split; [done|]. simpl. by rewrite Ek.
Qed.

Lemma app_nonempty s t : t ≠ "" → s +:+ t ≠ "".
Proof. destruct s; [done|]. by simpl. Qed.

Lemma render_counter_nonempty c v : render_counter c v ≠ "".
Proof.
  unfold render_counter. apply app_nonempty. destruct (c_hex c).
  - unfold hex_text. generalize (v mod 18446744073709551616). change 16%nat with (S 15). generalize 15%nat.
    intros n. generalize "" at 1. induction n as [|n IH]; intros s z; cbn [hex_digits]; case_match; try done. apply IH.
  - unfold decimal_text. case_match; [done|]. apply decimal_nonempty.
Qed.

Lemma advance_returns k db : ∃ db' r, advance k db = Ret (db', r).
Proof. unfold advance. destruct (nd_counters db !! k); [|by do 2 eexists]. destruct (bigint _); by do 2 eexists. Qed.

Lemma counter_value_returns sequence c key call db :
  ∃ db' r, counter_value sequence c key call db = Ret (db', r).
Proof.
  unfold counter_value, bump_counter, assign_counter, nm_bind, nm_ret.
  destruct call; [|destruct (is_per c); by do 2 eexists].
  destruct (is_per c).
  - destruct (nd_counters db !! _); [by do 2 eexists|]. destruct (sequence_exists db sequence); simpl; [|by do 2 eexists].
    destruct (String.eqb key ""); [by do 2 eexists|].
    destruct (advance_returns (sequence, c_name c, "") db) as (db' & [v|e] & ->); by do 2 eexists.
  - destruct (sequence_exists db sequence); simpl; [|by do 2 eexists].
    destruct (advance_returns (sequence, c_name c, key) db) as (db' & [v|e] & ->); by do 2 eexists.
Qed.

Lemma render_counters_returns p sequence fields dates call cs : ∀ pre done_ db,
  values_ok p fields → dates_ok p dates → ordered_ok (pre ++ cs) → (∀ c, c ∈ pre ++ cs → c ∈ counters p) →
  (∀ d, d ∈ pre → ∃ v, done_ !! c_name d = Some v ∧ v ≠ "") →
  ∃ db' r, render_counters sequence fields dates call done_ cs db = Ret (db', r) ∧
    ∀ done', r = Ok done' → ∀ d, d ∈ pre ++ cs → is_Some (done' !! c_name d).
Proof.
  induction cs as [|c cs IH]; intros pre done_ db Hf Hd Hok Hin Hdone; cbn [render_counters].
  { do 2 eexists. split; [done|]. intros done' [= <-] d. rewrite app_nil_r. intros (v & Hv & _)%Hdone. eauto. }
  destruct (scope_key_text_ok p fields done_ dates pre c) as (k & Hk & _); try done.
  { apply Hin, elem_of_app. right. left. }
  { by eapply Hok. }
  unfold nm_bind at 1, nm_run. rewrite Hk. unfold nm_bind.
  destruct (counter_value_returns sequence c k call db) as (db1 & [v|e] & ->); [|by do 2 eexists].
  destruct v as [v|]; [|by do 2 eexists].
  destruct (IH (pre ++ [c]) (<[c_name c := render_counter c v]> done_) db1) as (db' & r & -> & Hr); try done.
  - by rewrite <- app_assoc.
  - intros d. rewrite <- app_assoc. apply Hin.
  - intros d [Hdp| ->%list_elem_of_singleton]%elem_of_app.
    + destruct (decide (c_name c = c_name d)) as [->|]; [|rewrite lookup_insert_ne by done; auto].
      exists (render_counter c v). rewrite lookup_insert_eq. split; [done|apply render_counter_nonempty].
    + exists (render_counter c v). rewrite lookup_insert_eq. split; [done|apply render_counter_nonempty].
  - do 2 eexists. split; [done|]. intros done' E d Hdin. apply (Hr done' E). by rewrite <- app_assoc.
Qed.

Lemma render_parts_ok p fields done_ dates :
  values_ok p fields → dates_ok p dates → (∀ c, c ∈ counters p → is_Some (done_ !! c_name c)) →
  ∃ text, render_parts fields done_ dates p = Ret text.
Proof.
  intros Hf Hd Hc. assert (Hp : ∀ part, part ∈ p → ∃ t, render_part fields done_ dates part = Ret t).
  { intros [t|c|n|f] Hin; simpl.
    - by eexists.
    - destruct (Hc c) as [t ->]; [by apply counter_in_pattern|]. by eexists.
    - destruct (Hf n) as (v & -> & _); [apply elem_of_fields; by exists (PField n)|]. by eexists.
    - destruct (Hd f) as (t & -> & _); [|by eexists]. unfold pattern_dates. apply list_elem_of_omap. by exists (PDate f). }
  clear Hf Hd Hc. induction p as [|part p IH]; simpl; [by eexists|].
  destruct (Hp part) as [t ->]; [left|]. destruct IH as [text ->]; [|by eexists]. intros q Hq. apply Hp. by right.
Qed.

(** A render, by the pattern it parses. *)
Lemma render_returns application name keys call db :
  ∃ db' r, render application name keys call db = Ret (db', r).
Proof.
  unfold render. destruct (nd_sequences db !! _) as [[sequence text]|]; [|by do 2 eexists].
  destruct (parse_total text) as (parsed & Hparse & Hwf). unfold nm_bind, nm_run, nm_result. rewrite Hparse.
  destruct parsed as [p|]; [|by do 2 eexists]. specialize (Hwf p eq_refl).
  destruct (key_values p keys) as [fs|] eqn:Hf; [|by do 2 eexists].
  destruct (render_dates db application p) as [dates|] eqn:Hd; [|by do 2 eexists].
  destruct (counter_order_ok p Hwf) as (order & -> & Hperm & Hok).
  pose proof (key_values_of_ok _ _ _ Hf) as Hf'. apply render_dates_ok in Hd.
  destruct (render_counters_returns p sequence fs dates call order [] ∅ db) as (db' & [done'|e] & -> & Hr); try done.
  - intros c. simpl. by rewrite Hperm.
  - by intros d ?%elem_of_nil.
  - destruct (render_parts_ok p fs done' dates) as [t ->]; try done; [|by do 2 eexists].
    intros c Hc. apply (Hr done' eq_refl). simpl. by rewrite Hperm.
  - by do 2 eexists.
Qed.

End Total.

(** ** A number issued is the number read *)

(** [CHECK (value >= 1)]. *)
Definition counters_ok (db : NumberDb) : Prop := map_Forall (λ _ v, 1 ≤ v) (nd_counters db).

(** Two views that differ only in the rows of one counter. *)
Definition only_counter (sequence name : string) (db db' : NumberDb) : Prop :=
  nd_sequences db' = nd_sequences db ∧ nd_timezones db' = nd_timezones db ∧
  ∀ s n k, (s, n) ≠ (sequence, name) → nd_counters db' !! (s, n, k) = nd_counters db !! (s, n, k).

Lemma advance_ok sequence name key db db' v :
  counters_ok db → advance (sequence, name, key) db = Ret (db', Ok v) →
  counters_ok db' ∧ only_counter sequence name db db' ∧ 1 ≤ v ∧
  (∀ k, k ≠ key → nd_counters db' !! (sequence, name, k) = nd_counters db !! (sequence, name, k)) ∧
  nd_counters db' !! (sequence, name, key) = Some (v + 1) ∧
  v = default 1 (nd_counters db !! (sequence, name, key)).
Proof.
  intros Hok. unfold advance. destruct (nd_counters db !! _) as [w|] eqn:Hw.
  - unfold bigint. destruct (in_range _ _ (w + 1)) as [w'|] eqn:Er; simpl; [|done]. intros [= <- <-].
    unfold in_range in Er. case_match; [|done]. injection Er as <-. pose proof (Hok _ _ Hw) as Hw1. simpl in Hw1.
    split; [apply map_Forall_insert_2; [simpl; lia|done]|]. split.
    { split; [done|]. split; [done|]. intros s n k Hne. simpl. rewrite lookup_insert_ne; [done|]. congruence. }
    split; [done|]. simpl. rewrite lookup_insert_eq. split; [|done]. intros k Hk.
    rewrite lookup_insert_ne; [done|]. congruence.
  - intros [= <- <-]. split; [apply map_Forall_insert_2; [simpl; lia|done]|]. split.
    { split; [done|]. split; [done|]. intros s n k Hne. simpl. rewrite lookup_insert_ne; [done|]. congruence. }
    split; [lia|]. simpl. rewrite lookup_insert_eq. split; [|done]. intros k Hk.
    rewrite lookup_insert_ne; [done|]. congruence.
Qed.

(** What a peek answers from a counter's row. *)
Definition peeked (c : Counter) (row : option Z) : option Z :=
  if is_per c then row else row ≫= λ next, if 1 <? next then Some (next - 1) else None.

Lemma counter_value_peek sequence c key db :
  counter_value sequence c key Peek db = Ret (db, Ok (peeked c (nd_counters db !! (sequence, c_name c, key)))).
Proof. unfold counter_value, peeked. by destruct (is_per c). Qed.

Lemma counter_value_next sequence c key db db' r :
  counters_ok db → counter_value sequence c key Next db = Ret (db', Ok r) →
  ∃ v, r = Some v ∧ counters_ok db' ∧ only_counter sequence (c_name c) db db' ∧
    peeked c (nd_counters db' !! (sequence, c_name c, key)) = Some v.
Proof.
  intros Hok. unfold counter_value, peeked. destruct (is_per c) eqn:Hp.
  - destruct (nd_counters db !! (sequence, c_name c, key)) as [w|] eqn:Hw.
    { intros [= <- <-]. exists w. by rewrite Hw. }
    unfold nm_bind, assign_counter. destruct (sequence_exists db sequence); simpl; [|done].
    destruct (String.eqb_spec key "") as [|Hk]; [done|]. rewrite Hw. unfold nm_bind.
    destruct (advance (sequence, c_name c, "") db) as [[db1 [v|e]]|m] eqn:Ea; try done. simpl. intros [= <- <-].
    destruct (advance_ok _ _ _ _ _ _ Hok Ea) as (Hok1 & Hone & Hv & Hother & Hrow & _). exists v. split; [done|].
    split; [by apply map_Forall_insert_2|]. split; [|simpl; by rewrite lookup_insert_eq].
    destruct Hone as (Hs & Htz & Hrows). split; [done|]. split; [done|]. intros s n k Hne. simpl.
    rewrite lookup_insert_ne; [by apply Hrows|]. congruence.
  - unfold nm_bind, bump_counter. destruct (sequence_exists db sequence); simpl; [|done].
    destruct (advance (sequence, c_name c, key) db) as [[db1 [v|e]]|m] eqn:Ea; try done. intros [= <- <-].
    destruct (advance_ok _ _ _ _ _ _ Hok Ea) as (Hok1 & Hone & Hv & Hother & Hrow & _). exists v.
    do 3 (split; [done|]). rewrite Hrow. simpl. replace (1 <? v + 1) with true by lia. f_equal. lia.
Qed.

(** The rest of a pattern's counters leave a counter's rows alone. *)
Lemma render_counters_next `{PgDates} sequence fields dates cs : ∀ done_ db db' done',
  counters_ok db → NoDup (c_name <$> cs) →
  render_counters sequence fields dates Next done_ cs db = Ret (db', Ok done') →
  counters_ok db' ∧ nd_sequences db' = nd_sequences db ∧ nd_timezones db' = nd_timezones db ∧
  (∀ s n k, (s = sequence → n ∉ c_name <$> cs) → nd_counters db' !! (s, n, k) = nd_counters db !! (s, n, k)) ∧
  render_counters sequence fields dates Peek done_ cs db' = Ret (db', Ok done').
Proof.
  induction cs as [|c cs IH]; intros done_ db db' done' Hok Hnd; cbn [render_counters].
  { by intros [= <- <-]. }
  rewrite fmap_cons in *. apply NoDup_cons in Hnd as [Hc Hnd]. unfold nm_bind, nm_run.
  destruct (scope_key_text fields done_ dates c) as [key|] eqn:Hk; [|done].
  destruct (counter_value sequence c key Next db) as [[db1 [r|e]]|m] eqn:Ev; try done.
  destruct (counter_value_next _ _ _ _ _ _ Hok Ev) as (v & -> & Hok1 & (Hs1 & Htz1 & Hrows1) & Hpeek).
  intros Hrest. destruct (IH _ _ _ _ Hok1 Hnd Hrest) as (Hok' & Hs' & Htz' & Hrows' & Hpeek').
  split; [done|]. split; [congruence|]. split; [congruence|]. split.
  - intros s n k Hn. rewrite Hrows'; [apply Hrows1|]; [|set_solver].
    intros [= -> ->]. apply (Hn eq_refl). left.
  - rewrite counter_value_peek, Hrows' by done. by rewrite Hpeek.
Qed.

(** The last number issued is the number read.  When [next-number] renders a
    number for some keys, [peek-number] with the same keys, in the database it left,
    renders the same text, and writes nothing. *)
Theorem next_then_peek `{PgDatesLaw} (application name : string) (keys : list (string * option string))
    (db db' : NumberDb) (text : string) :
  counters_ok db →
  render_number (Some application) name keys Next db = Ret (db', Ok text) →
  counters_ok db' ∧ render_number (Some application) name keys Peek db' = Ret (db', Ok text).
Proof.
  intros Hok. unfold render_number, nm_bind at 1 2, nm_result.
  destruct (key_map ∅ keys) as [m|e]; [|done]. unfold render.
  destruct (nd_sequences db !! (application, name)) as [[sequence ptext]|] eqn:Hseq; [|done].
  unfold nm_bind, nm_run, nm_result.
  destruct (parse_total ptext) as (parsed & Hparse & Hwf). rewrite Hparse.
  destruct parsed as [p|]; [|done]. specialize (Hwf p eq_refl).
  destruct (key_values p m) as [fs|] eqn:Hf; [|done].
  destruct (render_dates db application p) as [dates|] eqn:Hd; [|done].
  destruct (counter_order_ok p Hwf) as (order & Ho & Hperm & _). rewrite Ho.
  destruct (render_counters sequence fs dates Next ∅ order db) as [[db1 [done'|e]]|msg] eqn:Ec; try done.
  unfold wf_pattern in Hwf. apply andb_prop in Hwf as [[_ Hnd]%andb_prop _]. apply bool_decide_eq_true in Hnd.
  rewrite <- Hperm in Hnd. destruct (render_counters_next _ _ _ _ _ _ _ _ Hok Hnd Ec) as (Hok1 & Hs & Htz & _ & Hpeek).
  destruct (render_parts fs done' dates p) as [t|msg] eqn:Ep; [|done]. intros [= <- <-]. split; [done|].
  rewrite Hs, Hseq, Hparse.
  assert (render_dates db1 application p = Ok dates) as ->.
  { unfold render_dates, timezone_setting in *. by rewrite Htz. }
  by rewrite Hf, Ho, Hpeek, Ep.
Qed.

(** ** No value is issued twice *)

Record Issue := { is_sequence : string; is_counter : string; is_key : string; is_value : Z }.

Section Uniqueness.
(** Whether a counter of a sequence is a [per=] counter. *)
Context (per_of : string → string → bool).

(** The values that [next-number] calls issue, in the order they are issued.  A
    [per=] counter's key is never empty: [render] refuses empty keys, and dates and
    rendered counters are not empty. *)
Inductive issues : NumberDb → list Issue → NumberDb → Prop :=
| issues_nil db : issues db [] db
| issues_next db db1 db2 sequence c key v l :
    is_per c = per_of sequence (c_name c) → (is_per c = true → key ≠ "") →
    counter_value sequence c key Next db = Ret (db1, Ok (Some v)) →
    issues db1 l db2 →
    issues db ({| is_sequence := sequence; is_counter := c_name c; is_key := key; is_value := v |} :: l) db2.

Abbreviation row db i := (nd_counters db !! (is_sequence i, is_counter i, is_key i)).

(** The rows of a [per=] counter hold distinct values below its allocator's. *)
Definition allocated (db : NumberDb) : Prop :=
  ∀ s n, per_of s n = true → ∀ k v, k ≠ "" → nd_counters db !! (s, n, k) = Some v →
    (∃ a, nd_counters db !! (s, n, "") = Some a ∧ v < a) ∧
    (∀ k' v', k' ≠ "" → nd_counters db !! (s, n, k') = Some v' → v = v' → k = k').

(** The tables still know what was issued. *)
Definition recorded_issue (db : NumberDb) (i : Issue) : Prop :=
  if per_of (is_sequence i) (is_counter i) then is_key i ≠ "" ∧ row db i = Some (is_value i)
  else ∃ w, row db i = Some w ∧ is_value i < w.

(** An issue, and a later one of the same counter: a [per=] counter gives each key
    one value of its own, and another counter a larger value each time. *)
Definition issue_follows (i j : Issue) : Prop :=
  is_sequence i = is_sequence j → is_counter i = is_counter j →
  if per_of (is_sequence i) (is_counter i) then is_key i = is_key j ↔ is_value i = is_value j
  else is_key i = is_key j → is_value i < is_value j.

Lemma counters_ok_next db sequence c key v db1 :
  counters_ok db → counter_value sequence c key Next db = Ret (db1, Ok (Some v)) → counters_ok db1.
Proof. intros Hok Hv. by destruct (counter_value_next _ _ _ _ _ _ Hok Hv) as (w & _ & ? & _). Qed.

Lemma bump_step db sequence c key v db1 :
  counters_ok db → allocated db → is_per c = false → per_of sequence (c_name c) = false →
  counter_value sequence c key Next db = Ret (db1, Ok (Some v)) →
  let i := {| is_sequence := sequence; is_counter := c_name c; is_key := key; is_value := v |} in
  allocated db1 ∧ recorded_issue db1 i ∧ ∀ j, recorded_issue db j → recorded_issue db1 j ∧ issue_follows j i.
Proof.
  intros Hok Hal Hp Hpo Hv i. unfold counter_value in Hv. rewrite Hp in Hv. unfold nm_bind, bump_counter in Hv.
  destruct (sequence_exists db sequence); simpl in Hv; [|done].
  destruct (advance (sequence, c_name c, key) db) as [[db2 [w|e]]|m] eqn:Ea; try done. injection Hv as <- <-.
  destruct (advance_ok _ _ _ _ _ _ Hok Ea) as (_ & (_ & _ & Hrows) & _ & Hother & Hrow & Hw).
  assert (Hsame : ∀ s n k, (s, n, k) ≠ (sequence, c_name c, key) →
            nd_counters db2 !! (s, n, k) = nd_counters db !! (s, n, k)).
  { intros s n k Hne. destruct (decide ((s, n) = (sequence, c_name c))) as [[= -> ->]|]; [|by apply Hrows].
    apply Hother. congruence. }
  split; [|split].
  - intros s n Hsn. assert (Hne : (s, n) ≠ (sequence, c_name c)) by (intros [= -> ->]; congruence).
    intros k x Hk. rewrite !Hrows by done. intros Hx. destruct (Hal s n Hsn k x Hk Hx) as [Ha Hi].
    split; [done|]. intros k' x'. rewrite Hrows by done. apply Hi.
  - unfold recorded_issue, i. simpl. rewrite Hpo. exists (w + 1). split; [done|lia].
  - intros j Hj. unfold recorded_issue, issue_follows in *. subst i. simpl.
    destruct (decide ((is_sequence j, is_counter j, is_key j) = (sequence, c_name c, key))) as [[= E1 E2 E3]|Hne].
    + rewrite E1, E2, E3, Hpo in *. destruct Hj as (x & Hx & Hlt). rewrite Hx in Hw. simpl in Hw. subst w.
      split; [exists (x + 1); split; [done|lia]|done].
    + rewrite Hsame by done. split; [done|]. intros E1 E2. rewrite E1, E2, Hpo. intros E3. congruence.
Qed.

Lemma assign_step db sequence c key v db1 :
  counters_ok db → allocated db → is_per c = true → per_of sequence (c_name c) = true → key ≠ "" →
  counter_value sequence c key Next db = Ret (db1, Ok (Some v)) →
  let i := {| is_sequence := sequence; is_counter := c_name c; is_key := key; is_value := v |} in
  allocated db1 ∧ recorded_issue db1 i ∧ ∀ j, recorded_issue db j → recorded_issue db1 j ∧ issue_follows j i.
Proof.
  intros Hok Hal Hp Hpo Hkey Hv i. unfold counter_value in Hv. rewrite Hp in Hv.
  assert (Hj : ∀ dbx, allocated dbx → nd_counters dbx !! (sequence, c_name c, key) = Some v →
    recorded_issue dbx i ∧ ∀ j, recorded_issue dbx j → issue_follows j i).
  { intros dbx Halx Hrow. split; [unfold recorded_issue, i; simpl; by rewrite Hpo|].
    intros j Hj E1 E2. unfold recorded_issue in Hj. subst i. simpl in *. rewrite E1, E2, Hpo in *.
    destruct Hj as [Hjk Hj]. split; [intros E3; rewrite E3 in Hj; congruence|].
    intros Ev. destruct (Halx _ _ Hpo _ _ Hjk Hj) as [_ Hi]. by apply (Hi key v Hkey Hrow). }
  destruct (nd_counters db !! (sequence, c_name c, key)) as [w|] eqn:Hw.
  { injection Hv as <- <-. destruct (Hj db Hal Hw) as [? Hfoll]. split; [done|]. split; [done|]. auto. }
  unfold nm_bind, assign_counter in Hv. destruct (sequence_exists db sequence); simpl in Hv; [|done].
  destruct (String.eqb_spec key "") as [|_]; [done|]. rewrite Hw in Hv. unfold nm_bind in Hv.
  destruct (advance (sequence, c_name c, "") db) as [[db2 [a|e]]|m] eqn:Ea; try done. simpl in Hv.
  injection Hv as <- <-. destruct (advance_ok _ _ _ _ _ _ Hok Ea) as (_ & (_ & _ & Hrows) & _ & Hother & Hrow & Ha).
  set (db3 := set_counters _ db2).
  assert (Hnew : nd_counters db3 !! (sequence, c_name c, key) = Some a) by (simpl; by rewrite lookup_insert_eq).
  assert (Halloc : nd_counters db3 !! (sequence, c_name c, "") = Some (a + 1)).
  { simpl. rewrite lookup_insert_ne; [done|congruence]. }
  assert (Hkeep : ∀ s n k, (s, n, k) ≠ (sequence, c_name c, key) → ((s, n) = (sequence, c_name c) → k ≠ "") →
            nd_counters db3 !! (s, n, k) = nd_counters db !! (s, n, k)).
  { intros s n k Hne Hk. simpl. rewrite lookup_insert_ne by congruence.
    destruct (decide ((s, n) = (sequence, c_name c))) as [[= -> ->]|]; [|by apply Hrows]. apply Hother. by apply Hk. }
  assert (Hbelow : ∀ k x, k ≠ "" → nd_counters db !! (sequence, c_name c, k) = Some x → x < a).
  { intros k x Hk Hx. destruct (Hal _ _ Hpo k x Hk Hx) as [(al & Hal' & Hlt) _]. by rewrite Hal' in Ha; simpl in Ha; subst a. }
  assert (Hal3 : allocated db3).
  { intros s n Hsn k x Hk Hx. destruct (decide ((s, n) = (sequence, c_name c))) as [[= -> ->]|Hne].
    - assert (Hcase : ∀ k x, k ≠ "" → nd_counters db3 !! (sequence, c_name c, k) = Some x →
          k = key ∧ x = a ∨ k ≠ key ∧ nd_counters db !! (sequence, c_name c, k) = Some x).
      { intros k' x' Hk' Hx'. destruct (decide (k' = key)) as [->|]; [left; split; [done|congruence]|].
        right. split; [done|]. rewrite Hkeep in Hx' by congruence. done. }
      split.
      + exists (a + 1). split; [done|]. destruct (Hcase k x Hk Hx) as [[_ ->]|[_ Hx']]; [lia|].
        specialize (Hbelow k x Hk Hx'). lia.
      + intros k' x' Hk' Hx' E. destruct (Hcase k x Hk Hx) as [[-> ->]|[Hne Ho]], (Hcase k' x' Hk' Hx') as [[-> ->]|[Hne' Ho']].
        * done.
        * specialize (Hbelow k' x' Hk' Ho'). lia.
        * specialize (Hbelow k x Hk Ho). lia.
        * destruct (Hal _ _ Hpo k x Hk Ho) as [_ Hi]. by eapply Hi.
    - rewrite Hkeep in Hx by congruence. destruct (Hal s n Hsn k x Hk Hx) as [Hax Hi].
      split; [rewrite Hkeep by congruence; done|]. intros k' x' Hk'. rewrite Hkeep by congruence. by apply Hi. }
  destruct (Hj db3 Hal3 Hnew) as [Hrec Hfoll]. split; [done|]. split; [done|]. intros j Hjr.
  assert (recorded_issue db3 j); [|auto]. unfold recorded_issue in *.
  destruct (per_of (is_sequence j) (is_counter j)) eqn:Hpj.
  - destruct Hjr as [Hjk Hjr]. split; [done|]. rewrite Hkeep; [done| |done]. intros [= E1 E2 E3].
    rewrite E1, E2, E3 in Hjr. congruence.
  - rewrite Hkeep; [done| |]; intros [= E1 E2]; [|rewrite E1, E2 in Hpj; congruence].
    rewrite E1, E2 in Hpj. congruence.
Qed.

Lemma issue_step db sequence c key v db1 :
  counters_ok db → allocated db → is_per c = per_of sequence (c_name c) → (is_per c = true → key ≠ "") →
  counter_value sequence c key Next db = Ret (db1, Ok (Some v)) →
  let i := {| is_sequence := sequence; is_counter := c_name c; is_key := key; is_value := v |} in
  allocated db1 ∧ recorded_issue db1 i ∧ ∀ j, recorded_issue db j → recorded_issue db1 j ∧ issue_follows j i.
Proof.
  intros Hok Hal Hp Hk Hv. destruct (is_per c) eqn:E.
  - apply (assign_step db); auto.
  - by apply (bump_step db).
Qed.

Lemma issues_follow db l db' :
  counters_ok db → allocated db → issues db l db' →
  counters_ok db' ∧ allocated db' ∧
  (∀ j, recorded_issue db j → recorded_issue db' j ∧ Forall (issue_follows j) l) ∧
  (∀ l1 i l2 j l3, l = l1 ++ i :: l2 ++ j :: l3 → issue_follows i j).
Proof.
  intros Hok Hal Hl. revert Hok Hal.
  induction Hl as [db|db db1 db2 sequence c key v l Hp Hk Hv Hl IH]; intros Hok Hal.
  { split; [done|]. split; [done|]. split; [intros; split; [done|constructor]|]. by intros []. }
  destruct (issue_step _ _ _ _ _ _ Hok Hal Hp Hk Hv) as (Hal1 & Hrec & Hfoll).
  pose proof (counters_ok_next _ _ _ _ _ _ Hok Hv) as Hok1. destruct (IH Hok1 Hal1) as (Hok' & Hal' & Hold & Hpair).
  split; [done|]. split; [done|]. split.
  - intros j Hj. destruct (Hfoll j Hj) as [Hj1 Hf]. destruct (Hold j Hj1) as [? ?]. split; [done|by constructor].
  - intros [|x l1] i l2 j l3 E; simpl in E; injection E as <- E; [|by eapply Hpair].
    destruct (Hold _ Hrec) as [_ Hall]. rewrite E in Hall. apply Forall_app in Hall as [_ Hall].
    by apply Forall_cons in Hall as [? _].
Qed.

End Uniqueness.

(** No value of a counter is issued twice.  Over any sequence of [next-number]
    calls, the values a counter issues for one key strictly increase, and a [per=]
    counter answers a key with one value, always the same and never another key's;
    the tables keep this true for the calls that follow. *)
Theorem issued_values_unique (per_of : string → string → bool) (db db' : NumberDb) (l : list Issue) :
  counters_ok db → allocated per_of db → issues per_of db l db' →
  counters_ok db' ∧ allocated per_of db' ∧
  (∀ l1 i l2 j l3, l = l1 ++ i :: l2 ++ j :: l3 → issue_follows per_of i j).
Proof.
  intros Hok Hal Hl. destruct (issues_follow per_of db l db' Hok Hal Hl) as (? & ? & _ & ?). done.
Qed.

(** Rendering never panics.  For every stored pattern, whatever its text, and
    all keys, [next-number] and [peek-number] return: a counter cycle, a missing
    key, a missing date or a key given twice is a refusal. *)
Theorem render_never_panics `{PgDatesLaw} (application : option string) (name : string)
    (keys : list (string * option string)) (call : NumberCall) (db : NumberDb) :
  ∃ db' r, render_number application name keys call db = Ret (db', r).
Proof.
  unfold render_number. destruct application as [application|]; [|by do 2 eexists].
  unfold nm_bind, nm_result. destruct (key_map ∅ keys) as [m|e]; [|by do 2 eexists]. apply render_returns.
Qed.

(** ** Samples *)

Module NumberSample.

#[local] Instance dates : PgDates := λ _ _, Ok "2026|26|09|29|40|3".
#[local] Instance dates_law : PgDatesLaw.
Proof. intros tz iso text [= <-]. split; [reflexivity|]. repeat constructor; discriminate. Defined.

Definition db0 : NumberDb := {|
  nd_sequences := {[ ("billing", "invoice") :=
    ("s1", "INV-{date:YYYY}-{seq:n,reset=date:YYYY,width=5}/{seq:site,per=site_code}") ]};
  nd_counters := ∅;
  nd_timezones := ∅ |}.
Definition keys : list (string * option string) := [("site_code", Some "ber")].

Definition view (r : run (NumberDb * result string NumberFailure)) : NumberDb * result string NumberFailure :=
  match r with Ret x => x | Panic m => (db0, Err (Refused m)) end.
Definition db1 : NumberDb := (view (render_number (Some "billing") "invoice" keys Next db0)).1.

Lemma next_then_peek_witness :
  render_number (Some "billing") "invoice" keys Next db0 = Ret (db1, Ok "INV-2026-00001/1") ∧
  render_number (Some "billing") "invoice" keys Peek db1 = Ret (db1, Ok "INV-2026-00001/1").
Proof.
  assert (E : render_number (Some "billing") "invoice" keys Next db0 = Ret (db1, Ok "INV-2026-00001/1"))
    by (vm_compute; reflexivity).
  split; [exact E|]. refine (proj2 (next_then_peek "billing" "invoice" keys db0 db1 _ _ E)).
  apply map_Forall_empty.
Defined.

Lemma render_never_panics_witness :
  ∃ db' r, render_number (Some "billing") "invoice" [] Next db0 = Ret (db', r).
Proof. apply render_never_panics. Defined.

Definition number_counter : Counter :=
  {| c_name := "n"; c_scope := Always; c_width := None; c_pad := "0"; c_hex := false |}.
Definition site_counter : Counter :=
  {| c_name := "site"; c_scope := PerKey (KeyField "f"); c_width := None; c_pad := "0"; c_hex := false |}.
Definition per_site (s n : string) : bool := String.eqb n "site".

Definition after (m : NumberM (option Z)) (db : NumberDb) : NumberDb :=
  match m db with Ret (db', _) => db' | Panic _ => db end.
Definition dbn := after (counter_value "s1" number_counter "" Next) db0.
Definition dbs := after (counter_value "s1" site_counter "ber" Next) dbn.
Definition dbt := after (counter_value "s1" site_counter "muc" Next) dbs.
Definition dbu := after (counter_value "s1" number_counter "" Next) dbt.

Definition issued (n k : string) (v : Z) : Issue :=
  {| is_sequence := "s1"; is_counter := n; is_key := k; is_value := v |}.

Lemma issued_values_unique_witness :
  issues per_site db0 [issued "n" "" 1; issued "site" "ber" 1; issued "site" "muc" 2; issued "n" "" 2] dbu ∧
  issue_follows per_site (issued "site" "ber" 1) (issued "site" "muc" 2).
Proof.
  assert (Hl : issues per_site db0 [issued "n" "" 1; issued "site" "ber" 1; issued "site" "muc" 2; issued "n" "" 2] dbu).
  { eapply (issues_next per_site db0 dbn _ "s1" number_counter); [reflexivity|discriminate|vm_compute; reflexivity|].
    eapply (issues_next per_site dbn dbs _ "s1" site_counter); [reflexivity|discriminate|vm_compute; reflexivity|].
    eapply (issues_next per_site dbs dbt _ "s1" site_counter); [reflexivity|discriminate|vm_compute; reflexivity|].
    eapply (issues_next per_site dbt dbu _ "s1" number_counter); [reflexivity|discriminate|vm_compute; reflexivity|].
    constructor. }
  split; [exact Hl|].
  refine (proj2 (proj2 (issued_values_unique per_site db0 dbu _ _ _ Hl)) [_] _ [] _ [_] eq_refl).
  - apply map_Forall_empty.
  - intros s n _ k v _ E. vm_compute in E. discriminate.
Defined.

End NumberSample.
