(* ===== verification/Capabilities.v ===== *)
(** * Import admission

    [crates/platform/component-policy/src/lib.rs]: the closed registry of the
    capabilities a component may import, and the three policies over a list of
    imports.  [WASI_CEILING] is written by the crate's build script from the WIT of
    the linked runtime, so it is the parameter [wasi_ceiling]. *)

From stdpp Require Import base tactics option list gmap strings.
From Stdlib Require Import ZArith Lia.
From S2P Require Import Prelude Text.
#[local] Set Warnings "-clear-no-such-hyp".

(** The highest patch of the [wasi:*@0.2] family the host links. *)
Class WasiCeiling := wasi_ceiling : Z.

Definition slash : Ascii.ascii := Ascii.ascii_of_N 47.

(** ** Import names *)

Definition import_pkg (import_name : string) : string :=
  let head_part := default import_name (head (split_char slash import_name)) in
  default head_part (head (split_char at_sign head_part)).

Definition import_version (import_name : string) : option string :=
  match rsplit_once at_sign import_name with
  | Some (_, version) => if String.eqb version "" then None else Some version
  | None => None
  end.

Definition instance_type (name : string) (implements : option string) : string :=
  default name implements.

(** ** The registry *)

Definition WASI_FAMILY : string := "0.2".

Definition admits_version `{WasiCeiling} (row_version version : string) : bool :=
  if negb (String.eqb row_version WASI_FAMILY) then String.eqb row_version version
  else
    match strip_prefix WASI_FAMILY version ≫= strip_prefix "." with
    | None => false
    | Some patch =>
        (String.eqb patch "0" || negb (starts_with patch "0")) &&
        all_bytes is_ascii_digit patch &&
        match parse_digits patch ≫= in_range 0 u32_max with
        | Some n => (n <=? wasi_ceiling)%Z
        | None => false
        end
    end.

Inductive Posture := Ambient | Effect.
#[export] Instance Posture_eq_dec : EqDecision Posture.
Proof. solve_decision. Defined.

Record CapabilityRow := { row_package : string; row_version : string; row_posture : Posture }.

Definition CAPABILITY_REGISTRY : list CapabilityRow := [
  {| row_package := "wamn:modbus"; row_version := "1.0.0"; row_posture := Effect |};
  {| row_package := "wamn:integration"; row_version := "0.1.0"; row_posture := Effect |};
  {| row_package := "wamn:node"; row_version := "0.1.0"; row_posture := Ambient |};
  {| row_package := "wamn:postgres"; row_version := "0.1.0"; row_posture := Effect |};
  {| row_package := "wamn:postgres"; row_version := "0.4.0"; row_posture := Effect |};
  {| row_package := "wamn:connection"; row_version := "0.1.0"; row_posture := Effect |};
  {| row_package := "wasmcloud:blobstore"; row_version := "0.1.0"; row_posture := Effect |};
  {| row_package := "wasi:logging"; row_version := "0.1.0-draft"; row_posture := Ambient |};
  {| row_package := "wasi:io"; row_version := WASI_FAMILY; row_posture := Ambient |};
  {| row_package := "wasi:clocks"; row_version := WASI_FAMILY; row_posture := Ambient |};
  {| row_package := "wasi:random"; row_version := WASI_FAMILY; row_posture := Ambient |}].

Definition capability_row `{WasiCeiling} (import_name : string) : option CapabilityRow :=
  version ← import_version import_name;
  find (λ row, String.eqb (row_package row) (import_pkg import_name) &&
               admits_version (row_version row) version) CAPABILITY_REGISTRY.

(** Whether some row is of this package. *)
Definition registered (package : string) : bool :=
  existsb (λ row, String.eqb (row_package row) package) CAPABILITY_REGISTRY.

Definition is_registered_package (import_name : string) : bool := registered (import_pkg import_name).

Definition import_posture `{WasiCeiling} (import_name : string) : option Posture :=
  row_posture <$> capability_row import_name.

Definition APPLICATION_DENIED_INTERFACES : list string :=
  ["wamn:postgres/client"; "wamn:integration/bound"].

Definition is_denied_to_applications (import_name : string) : bool :=
  let interface :=
    match rsplit_once at_sign import_name with Some (interface, _) => interface | None => import_name end in
  bool_decide (interface ∈ APPLICATION_DENIED_INTERFACES).

(** ** The policies *)

Inductive PolicyReport := policy_report.

Inductive TenantImportErrorType := InvalidPlatformCapability | UnadmittedImport.
Record TenantImportError := {
  ti_type : TenantImportErrorType;
  ti_component : string;
  ti_imports : list string;
}.

Inductive EgressGuardError :=
| RawSocketImport (component : string) (imports : list string)
| IntegrationImport (component : string) (imports : list string).

(** Whether the tenant policy refuses this import. *)
Definition tenant_denies `{WasiCeiling} (grants : list string) (name : string) : bool :=
  is_denied_to_applications name ||
  match import_posture name with
  | None => true
  | Some Ambient => false
  | Some Effect => negb (bool_decide (import_pkg name ∈ grants))
  end.

(** The grant is a [BTreeSet], iterated in byte order. *)
Definition analyze_tenant `{WasiCeiling} (imports grants : list string) (label : string) :
    result PolicyReport TenantImportError :=
  match filter (λ package, registered package = false) grants with
  | [] =>
      match filter (λ name, tenant_denies grants name = true) imports with
      | [] => Ok policy_report
      | denied => Err {| ti_type := UnadmittedImport; ti_component := label; ti_imports := denied |}
      end
  | invalid_registry =>
      Err {| ti_type := InvalidPlatformCapability; ti_component := label; ti_imports := invalid_registry |}
  end.

Definition DENIED_EGRESS_PKG : string := "wasi:sockets".

Definition denied_imports (import_names : list string) : list string :=
  filter (λ name, import_pkg name = DENIED_EGRESS_PKG) import_names.

Definition screen_imports (imports : list string) (label : string) : result unit EgressGuardError :=
  match denied_imports imports with
  | [] => Ok tt
  | denied => Err (RawSocketImport label denied)
  end.

Definition integration_import `{WasiCeiling} (name : string) : bool :=
  match import_version name with
  | Some version =>
      if bool_decide (import_pkg name ∈ ["wasi:sockets"; "wasi:io"; "wasi:clocks"; "wasi:random"])
      then admits_version WASI_FAMILY version
      else String.eqb name "wamn:integration/bound@0.1.0"
  | None => String.eqb name "wamn:integration/bound@0.1.0"
  end.

Inductive PolicyProfile := FirstParty | Integration.

Definition analyze `{WasiCeiling} (imports : list string) (profile : PolicyProfile) (label : string) :
    result PolicyReport EgressGuardError :=
  match profile with
  | Integration =>
      match filter (λ name, integration_import name = false) imports with
      | [] => Ok policy_report
      | denied => Err (IntegrationImport label denied)
      end
  | FirstParty =>
      match screen_imports imports label with
      | Ok _ => Ok policy_report
      | Err e => Err e
      end
  end.

(** ** What a tenant component can reach *)

Lemma find_elem {A} (f : A → bool) l x : find f l = Some x → x ∈ l ∧ f x = true.
Proof. intros [H ?]%find_some. by apply list_elem_of_In in H. Qed.

Lemma filter_nil_iff {A} (P : A → Prop) `{∀ x, Decision (P x)} (l : list A) :
  filter P l = [] ↔ ∀ x, x ∈ l → ¬ P x.
Proof.
  induction l as [|a l IH]; [by split; [intros _ x ?%elem_of_nil|]|].
  rewrite filter_cons. case_decide; split.
  - done.
  - intros Hl. exfalso. eapply Hl; [left|done].
  - intros E x [->|Hx]%elem_of_cons; [done|]. by apply IH.
  - intros Hl. apply IH. intros x Hx. apply Hl. by right.
Qed.

Section Tenant.
Context `{WasiCeiling}.

Lemma capability_row_inv name row :
  capability_row name = Some row →
  row ∈ CAPABILITY_REGISTRY ∧ row_package row = import_pkg name ∧
  ∃ version, import_version name = Some version ∧ admits_version (row_version row) version = true.
Proof.
  unfold capability_row. destruct (import_version name) as [v|]; [|done].
  intros (? & [?%String.eqb_eq ?]%andb_prop)%find_elem. eauto.
Qed.

Lemma registered_spec package :
  registered package = true ↔ ∃ row, row ∈ CAPABILITY_REGISTRY ∧ row_package row = package.
Proof.
  unfold registered. rewrite existsb_exists. split.
  - intros (row & Hin & ?%String.eqb_eq). exists row. by rewrite list_elem_of_In.
  - intros (row & Hin & <-). exists row. by rewrite <- list_elem_of_In, String.eqb_refl.
Qed.

(** A capability is of a registered package. *)
Lemma posture_registered name p : import_posture name = Some p → is_registered_package name = true.
Proof.
  unfold import_posture. destruct (capability_row name) as [row|] eqn:E; [|done]. intros _.
  apply capability_row_inv in E as (? & ? & _). apply registered_spec. eauto.
Qed.

Lemma registered_not_socket : registered DENIED_EGRESS_PKG = false.
Proof. vm_compute. reflexivity. Qed.

(** An import the policy lets through. *)
Definition importable (grants : list string) (name : string) : Prop :=
  is_denied_to_applications name = false ∧
  ∃ row version, row ∈ CAPABILITY_REGISTRY ∧ row_package row = import_pkg name ∧
    import_version name = Some version ∧ admits_version (row_version row) version = true ∧
    import_posture name = Some (row_posture row) ∧
    (row_posture row = Effect → import_pkg name ∈ grants).

Lemma tenant_denies_spec grants name : tenant_denies grants name = false ↔ importable grants name.
Proof.
  unfold tenant_denies, importable, import_posture. rewrite orb_false_iff. split.
  - intros [? Hp]. split; [done|]. destruct (capability_row name) as [row|] eqn:E; [|done].
    apply capability_row_inv in E as (? & ? & v & ? & ?). exists row, v. simpl in *.
    repeat (split; [done|]). intros Hr. rewrite Hr in Hp.
    by apply negb_false_iff, bool_decide_eq_true in Hp.
  - intros [? (row & v & _ & _ & _ & _ & -> & Hg)]. split; [done|].
    destruct (row_posture row); [done|]. apply negb_false_iff, bool_decide_eq_true. by apply Hg.
Qed.

(** The list filter of the policy leaves nothing out exactly when every import is
    let through. *)
Lemma analyze_tenant_ok imports grants label r :
  analyze_tenant imports grants label = Ok r ↔
  (∀ package, package ∈ grants → registered package = true) ∧
  (∀ name, name ∈ imports → importable grants name).
Proof.
  assert (Hg : filter (λ package, registered package = false) grants = [] ↔
    ∀ package, package ∈ grants → registered package = true).
  { rewrite filter_nil_iff. split; intros Hp p Hin; specialize (Hp p Hin);
      destruct (registered p); congruence. }
  assert (Hi : filter (λ name, tenant_denies grants name = true) imports = [] ↔
    ∀ name, name ∈ imports → importable grants name).
  { rewrite filter_nil_iff. split; intros Hp p Hin; specialize (Hp p Hin);
      [apply tenant_denies_spec|apply tenant_denies_spec in Hp; congruence].
    by destruct (tenant_denies grants p). }
  rewrite <- Hg, <- Hi. unfold analyze_tenant.
  destruct (filter _ grants); [|naive_solver]. destruct (filter _ imports); [|naive_solver].
  destruct r. naive_solver.
Qed.

(** An import that is let through opens no socket. *)
Lemma importable_no_socket grants imports :
  (∀ name, name ∈ imports → importable grants name) → denied_imports imports = [].
Proof.
  intros Hi. apply filter_nil_iff. intros name Hin Heq.
  destruct (Hi _ Hin) as [_ (row & v & Hrow & Hpkg & _)].
  assert (registered DENIED_EGRESS_PKG = true) as E
    by (apply registered_spec; exists row; split; congruence).
  by rewrite registered_not_socket in E.
Qed.

(** The tenant policy is fail-closed.  It accepts a component exactly when the
    grant names registered packages only and every import matches a registry row
    on package and version, is no interface denied to applications, and has its
    package in the grant when the row is an effect.  An accepted component imports
    no socket interface, so it also clears the platform screen; and removing
    imports from an accepted component, or adding a registered package to its
    grant, keeps it accepted. *)
Theorem tenant_policy_closed (imports grants : list string) (label : string) :
  (is_ok (analyze_tenant imports grants label) = true ↔
    (∀ package, package ∈ grants → registered package = true) ∧
    (∀ name, name ∈ imports → importable grants name)) ∧
  (is_ok (analyze_tenant imports grants label) = true →
    denied_imports imports = [] ∧ analyze imports FirstParty label = Ok policy_report ∧
    (∀ imports', imports' ⊆ imports → is_ok (analyze_tenant imports' grants label) = true) ∧
    (∀ package, registered package = true →
       is_ok (analyze_tenant imports (package :: grants) label) = true)).
Proof.
  assert (Hok : ∀ im gs, is_ok (analyze_tenant im gs label) = true ↔
    (∀ package, package ∈ gs → registered package = true) ∧ (∀ name, name ∈ im → importable gs name)).
  { intros im gs. rewrite <- (analyze_tenant_ok im gs label policy_report).
    destruct (analyze_tenant im gs label) as [[]|]; split; done. }
  split; [apply Hok|]. intros [Hg Hi]%Hok.
  pose proof (importable_no_socket _ _ Hi) as Hd.
  split; [done|]. split; [by unfold analyze, screen_imports; rewrite Hd|]. split.
  - intros im' Hsub. apply Hok. split; [done|]. intros name Hin. by apply Hi, Hsub.
  - intros package Hp. apply Hok. split; [by intros p [->|?]%elem_of_cons; [|apply Hg]|].
    intros name Hin. destruct (Hi _ Hin) as [? (row & v & ? & ? & ? & ? & ? & Hr)].
    split; [done|]. exists row, v. repeat (split; [done|]). intros. right. by apply Hr.
Qed.

End Tenant.
