(* ===== verification/Packages.v ===== *)
(** * Catalog identities and package coordinates

    The identity checks of [crates/catalog/model/src/lib.rs] ([validate_text], the
    digests) and [crates/catalog/model/src/package.rs]: package coordinates and the
    canonical tokens of their operations.  A text is a string of bytes; the detail
    of an [InvalidDefinition] is left out. *)

From stdpp Require Import base tactics option list gmap strings.
From Stdlib Require Import ZArith Lia.
From S2P Require Import Prelude Text Json Canonical Authority Capabilities.
#[local] Set Warnings "-clear-no-such-hyp".

(** The constructors of [CatalogIdentityError] the modelled checks return. *)
Inductive CatalogIdentityError :=
| EmptyIdentity (field : string)
| NonCanonicalIdentity (field : string)
| ZeroVersion (field : string)
| InvalidDigest (field : string)
| InvalidDefinition
| NonCanonicalJson
| DuplicateMember (field member : string)
| UnsupportedServingManifestVersion (requested : string)
| InvalidAttachmentAuthPolicy (attachment_id : string)
| UnauthenticatedRegisteredOperation (attachment_id : string)
| UnresolvableManifestRoute (package_id component operation : string)
| ManifestTooLarge (bytes limit : Z)
| UnresolvedWiringNode (node_id : string)
| UnresolvedWiringEntry (node_id : string).

(** ** Texts and digests *)

Definition validate_text (value field : string) : result unit CatalogIdentityError :=
  if String.eqb value "" then Err (EmptyIdentity field)
  else if negb (is_trimmed value) || contains_nul value then Err (NonCanonicalIdentity field)
  else Ok tt.

(** [str::contains] of a text. *)
Fixpoint contains_text (s p : string) : bool :=
  starts_with s p || match s with EmptyString => false | String _ s' => contains_text s' p end.

(** The shape of a [sha256:<hex>] text, as [validate_digest] and [valid_digest]
    both spell it. *)
Definition valid_digest (value : string) : bool :=
  match strip_prefix "sha256:" value with
  | Some hex => (String.length hex =? 64)%nat &&
                all_bytes (λ b, is_ascii_hexdigit b && negb (is_ascii_uppercase b)) hex
  | None => false
  end.

Definition validate_digest (value field : string) : result unit CatalogIdentityError :=
  if valid_digest value then Ok tt else Err (InvalidDigest field).

(** [DefinitionHash::parse]. *)
Definition definition_hash (value : string) : result string CatalogIdentityError :=
  match validate_digest value "definition-hash" with Ok _ => Ok value | Err e => Err e end.

(** A SHA-256 digest has 32 bytes. *)
Class Sha256Law `{Sha256} : Prop := sha256_length : ∀ s, length (sha256 s) = 32%nat.

Lemma hex_digit_ok n :
  (n < 16)%N → is_ascii_hexdigit (hex_digit n) && negb (is_ascii_uppercase (hex_digit n)) = true.
Proof.
  intros Hn. assert (n ∈ (N.of_nat <$> seq 0 16)) as Hin.
  { apply list_elem_of_fmap. exists (N.to_nat n). split; [lia|]. apply elem_of_seq. lia. }
  repeat (apply elem_of_cons in Hin as [->|Hin]; [vm_compute; reflexivity|]). by apply elem_of_nil in Hin.
Qed.

Lemma hex_text_ok l :
  let s := foldr (λ b s, hex_byte b +:+ s) EmptyString l in
  String.length s = (2 * length l)%nat ∧
  all_bytes (λ b, is_ascii_hexdigit b && negb (is_ascii_uppercase b)) s = true.
Proof.
  simpl. induction l as [|b l [IHl IHs]]; [done|]. simpl foldr. unfold hex_byte at 1 3.
  rewrite string_length_app, all_bytes_app, IHl, IHs. simpl. split; [lia|].
  pose proof (Ascii.N_ascii_bounded b) as Hb.
  rewrite !hex_digit_ok; [done|apply N.mod_lt; lia|]. apply N.Div0.div_lt_upper_bound. lia.
Qed.

(** The shared canonicalizer emits canonical digests. *)
Lemma bytes_sha256_valid `{Sha256Law} s : valid_digest (bytes_sha256 s) = true.
Proof.
  unfold valid_digest, bytes_sha256. rewrite strip_prefix_app.
  destruct (hex_text_ok (sha256 s)) as [-> ->]. by rewrite sha256_length.
Qed.

(** ** Identifiers *)

(** A lowercase word of [separator]-joined parts. *)
Definition word_identifier (separator : Ascii.ascii) (value field : string) :
    result unit CatalogIdentityError :=
  match validate_text value field with
  | Err e => Err e
  | Ok _ =>
      let sep := String separator "" in
      let first := match value with String b _ => is_ascii_lowercase b | EmptyString => false end in
      let rest := match value with String _ s => s | EmptyString => EmptyString end in
      if negb first
         || negb (all_bytes (λ b, is_ascii_lowercase b || is_ascii_digit b || Ascii.eqb b separator) rest)
         || ends_with value sep || contains_text value (sep +:+ sep)
      then Err (NonCanonicalIdentity field) else Ok tt
  end.

Definition validate_snake_identifier : string → string → result unit CatalogIdentityError :=
  word_identifier underscore.
Definition validate_kebab_identifier : string → string → result unit CatalogIdentityError :=
  word_identifier hyphen.

Definition RESERVED_PACKAGE_ID : string := "wamn".

Definition refuse_reserved_package_id (value : string) : result unit CatalogIdentityError :=
  if String.eqb value RESERVED_PACKAGE_ID then Err InvalidDefinition else Ok tt.

Open Scope wamn_scope.

Definition validate_package_version (value : string) : result unit CatalogIdentityError :=
  let? _ := validate_text value "package-version" in
  if has_char at_sign value || has_char colon value || has_char slash value
  then Err (NonCanonicalIdentity "package-version") else Ok tt.

Record PackageCoordinate := { package_id : string; package_version : string }.

(** [PackageCoordinate::new]. *)
Definition package_coordinate (id version : string) : result PackageCoordinate CatalogIdentityError :=
  let? _ := validate_snake_identifier id "package-id" in
  let? _ := refuse_reserved_package_id id in
  let? _ := validate_package_version version in
  Ok {| package_id := id; package_version := version |}.

(** ** Operation tokens *)

Definition validate_canonical_operation (value : string) : result unit CatalogIdentityError :=
  let? _ := validate_text value "registered-operation" in
  match split_once colon value with
  | None => Err InvalidDefinition
  | Some (package_id, local) =>
      if has_char colon local then Err InvalidDefinition
      else
        match split_sealed_operation local with
        | None => Err InvalidDefinition
        | Some (local, package_version) =>
            if has_char at_sign local then Err InvalidDefinition
            else
              let? _ := validate_kebab_identifier package_id "registered-operation package-id" in
              let? _ := refuse_reserved_package_id package_id in
              let? _ := validate_package_version package_version in
              match split_once slash local with
              | None => Err InvalidDefinition
              | Some (owner, action) =>
                  if has_char slash action then Err InvalidDefinition
                  else
                    let? _ := validate_kebab_identifier owner "registered-operation owner" in
                    validate_kebab_identifier action "registered-operation action"
              end
        end
  end.

Definition validate_canonical_operation_for_package (value package_id package_version : string) :
    result unit CatalogIdentityError :=
  let? _ := validate_canonical_operation value in
  let native_package_id := kebab package_id in
  if negb (starts_with value (native_package_id +:+ ":"))
     || negb (ends_with value ("@" +:+ package_version))
  then Err InvalidDefinition else Ok tt.

(** ** One owner per token *)

Lemma string_app_cons a (s t : string) : String a s +:+ t = String a (s +:+ t).
Proof. done. Qed.

(** The bytes of a word. *)
Definition word_byte (separator : Ascii.ascii) (b : Ascii.ascii) : bool :=
  is_ascii_lowercase b || is_ascii_digit b || Ascii.eqb b separator.

Lemma lowercase_word sep b : is_ascii_lowercase b = true → word_byte sep b = true.
Proof. unfold word_byte. by intros ->. Qed.

Lemma word_identifier_inv sep v f :
  word_identifier sep v f = Ok tt →
  v ≠ "" ∧ all_bytes (word_byte sep) v = true ∧
  ends_with v (String sep "") = false ∧ contains_text v (String sep (String sep "")) = false ∧
  ∃ b r, v = String b r ∧ is_ascii_lowercase b = true.
Proof.
  unfold word_identifier. destruct (validate_text v f); [|done].
  destruct v as [|b r]; [done|]. destruct (negb _ || _ || _ || _) eqn:E; [done|]. intros _.
  apply orb_false_iff in E as [[[H1%negb_false_iff H2%negb_false_iff]%orb_false_iff H3]%orb_false_iff H4].
  split; [done|]. split; [|by eauto 6].
  simpl. rewrite (lowercase_word sep b H1). exact H2.
Qed.

Lemma coordinate_inv p v c :
  package_coordinate p v = Ok c →
  validate_snake_identifier p "package-id" = Ok tt ∧ p ≠ RESERVED_PACKAGE_ID ∧
  validate_package_version v = Ok tt ∧ c = {| package_id := p; package_version := v |}.
Proof.
  unfold package_coordinate, refuse_reserved_package_id.
  destruct (validate_snake_identifier _ _) as [[]|]; [simpl|done].
  destruct (String.eqb_spec p RESERVED_PACKAGE_ID); [done|]. simpl.
  destruct (validate_package_version v) as [[]|]; [simpl|done]. by intros [= <-].
Qed.

Lemma package_version_inv v :
  validate_package_version v = Ok tt →
  validate_text v "package-version" = Ok tt ∧
  has_char at_sign v = false ∧ has_char colon v = false ∧ has_char slash v = false.
Proof.
  unfold validate_package_version. destruct (validate_text v _) as [[]|]; [simpl|done].
  destruct (has_char at_sign v), (has_char colon v), (has_char slash v); by simpl.
Qed.

(** No byte of a word is one of the separators of a token. *)
Lemma word_free sep a v :
  all_bytes (word_byte sep) v = true → word_byte sep a = false → has_char a v = false.
Proof. apply all_bytes_no_char. Qed.

Lemma kebab_word v : all_bytes (word_byte underscore) v = true → all_bytes (word_byte hyphen) (kebab v) = true.
Proof.
  induction v as [|b v IH]; [done|]. simpl. intros [Hb Hv]%andb_prop.
  apply andb_true_intro. split; [|by apply IH]. destruct (Ascii.eqb_spec b underscore); [done|].
  unfold word_byte in *. destruct (is_ascii_lowercase b), (is_ascii_digit b); try done.
  simpl in Hb. by apply Ascii.eqb_eq in Hb.
Qed.

Lemma kebab_inj u v :
  all_bytes (word_byte underscore) u = true → all_bytes (word_byte underscore) v = true →
  kebab u = kebab v → u = v.
Proof.
  revert v. induction u as [|a u IH]; intros [|b v]; [done..|]. simpl.
  intros [Ha Hu]%andb_prop [Hb Hv]%andb_prop [= E1 E2]. f_equal; [|by apply IH].
  destruct (Ascii.eqb_spec a underscore) as [->|], (Ascii.eqb_spec b underscore) as [->|]; try done; subst; done.
Qed.

(** An operation token has one owner.  A token that two package coordinates
    both accept as theirs is of one coordinate: the package ids and the versions
    are equal, so an operation of one package version can never be registered by
    another. *)
Theorem operation_has_one_owner (value p v p' v' : string) (c c' : PackageCoordinate) :
  package_coordinate p v = Ok c → package_coordinate p' v' = Ok c' →
  validate_canonical_operation_for_package value p v = Ok tt →
  validate_canonical_operation_for_package value p' v' = Ok tt →
  p = p' ∧ v = v'.
Proof.
  intros (Hp & _ & Hv & _)%coordinate_inv (Hp' & _ & Hv' & _)%coordinate_inv.
  apply word_identifier_inv in Hp as (_ & Hp & _), Hp' as (_ & Hp' & _).
  apply package_version_inv in Hv as (_ & Hv & _), Hv' as (_ & Hv' & _).
  assert (Hown : ∀ p v, validate_canonical_operation_for_package value p v = Ok tt →
    (∃ r, value = kebab p +:+ String colon r) ∧ (∃ r, value = r +:+ String at_sign v)).
  { clear. intros p v. unfold validate_canonical_operation_for_package.
    destruct (validate_canonical_operation value) as [[]|]; [simpl|done].
    destruct (starts_with value _) eqn:E1; [|done]. destruct (ends_with value _) eqn:E2; [|done].
    intros _. apply starts_with_spec in E1 as [r1 E1]. apply ends_with_spec in E2 as [r2 E2].
    split; [exists r1|exists r2; exact E2]. by rewrite E1, string_app_assoc. }
  assert (Hfree : ∀ p, all_bytes (word_byte underscore) p = true → has_char colon (kebab p) = false).
  { intros q Hq. by eapply word_free; [apply kebab_word|]. }
  intros [[r1 E1] [r2 E2]]%Hown [[r1' E1'] [r2' E2']]%Hown. split.
  - apply kebab_inj; [done..|].
    pose proof (split_once_app colon (kebab p) r1 (Hfree _ Hp)) as S1.
    pose proof (split_once_app colon (kebab p') r1' (Hfree _ Hp')) as S2.
    rewrite <- E1 in S1. rewrite <- E1' in S2. congruence.
  - pose proof (rsplit_once_app at_sign r2 v Hv) as S1.
    pose proof (rsplit_once_app at_sign r2' v' Hv') as S2.
    rewrite <- E2 in S1. rewrite <- E2' in S2. congruence.
Qed.

(** ** The minted token *)

Lemma contains_text_spec s p : contains_text s p = true ↔ ∃ l r, s = l +:+ p +:+ r.
Proof.
  induction s as [|a s IH]; cbn [contains_text]; rewrite orb_true_iff, starts_with_spec.
  - split; [intros [[r E]|]; [by exists "", r|done]|]. intros (l & r & E). left. exists r.
    by destruct l.
  - rewrite IH. split.
    + intros [[r E]|(l & r & E)]; [by exists "", r|exists (String a l), r]. exact (f_equal (String a) E).
    + intros ([|b l] & r & E); [left; by exists r|right]. injection E as _ E. by exists l, r.
Qed.

Lemma replace_char_cut a b v s t :
  replace_char a b v = s +:+ t →
  ∃ s' t', v = s' +:+ t' ∧ replace_char a b s' = s ∧ replace_char a b t' = t.
Proof.
  revert v. induction s as [|x s IH]; intros v E; [by exists "", v|].
  destruct v as [|y v]; [done|]. injection E as Ex E. destruct (IH v E) as (s' & t' & -> & <- & <-).
  exists (String y s'), t'. by rewrite <- Ex.
Qed.

Lemma contains_nul_app s t : contains_nul (s +:+ t) = contains_nul s || contains_nul t.
Proof. induction s as [|a s IH]; [done|]. simpl. by rewrite IH, orb_assoc. Qed.

(** No whitespace is made of word bytes, starts with a letter or holds an [@]. *)
Lemma whitespace_free w :
  w ∈ whitespace →
  all_bytes (word_byte underscore) w = false ∧ all_bytes (word_byte hyphen) w = false ∧
  has_char at_sign w = false ∧ match w with String b _ => is_ascii_lowercase b = false | _ => False end.
Proof.
  assert (Hall : forallb (λ w, negb (all_bytes (word_byte underscore) w) && negb (all_bytes (word_byte hyphen) w) &&
    negb (has_char at_sign w) && match w with String b _ => negb (is_ascii_lowercase b) | _ => false end)
    whitespace = true) by (vm_compute; reflexivity).
  rewrite forallb_forall in Hall. intros Hw%list_elem_of_In. specialize (Hall _ Hw).
  apply andb_prop in Hall as [[[H1 H2]%andb_prop H3]%andb_prop H4].
  repeat split; try by apply negb_true_iff. destruct w; [done|]. by apply negb_true_iff.
Qed.

Lemma is_trimmed_intro s :
  (∀ w, w ∈ whitespace → (¬ ∃ r, s = w +:+ r) ∧ (¬ ∃ r, s = r +:+ w)) → is_trimmed s = true.
Proof.
  intros Hw. unfold is_trimmed. apply andb_true_intro. split; apply negb_true_iff, existsb_false;
    intros w Hin; apply not_true_iff_false; [rewrite starts_with_spec|rewrite ends_with_spec]; by apply Hw.
Qed.

Lemma is_trimmed_end s w r : is_trimmed s = true → w ∈ whitespace → s ≠ r +:+ w.
Proof.
  intros [_ H%negb_true_iff]%andb_prop Hw ->. pose proof (existsb_false_inv _ _ _ H Hw) as E.
  apply not_true_iff_false in E. apply E, ends_with_spec. by exists r.
Qed.

Lemma word_text v f : all_bytes (word_byte hyphen) v = true → v ≠ "" → validate_text v f = Ok tt.
Proof.
  intros Hv Hne. unfold validate_text. apply String.eqb_neq in Hne as ->.
  rewrite is_trimmed_intro; simpl.
  - destruct (contains_nul v) eqn:E; [|done]. exfalso. clear -Hv E. induction v as [|b v IH]; [done|].
    simpl in *. apply andb_prop in Hv as [Hb Hv]. apply orb_true_iff in E as [E|E]; [|by apply IH].
    apply N.eqb_eq in E. rewrite <- (Ascii.ascii_N_embedding b), E in Hb. done.
  - intros w Hw. apply whitespace_free in Hw as (_ & Hf & _).
    split; intros [r ->]; rewrite all_bytes_app, Hf in Hv; [done|by rewrite andb_false_r in Hv].
Qed.

(** A snake identifier in its native spelling is a kebab identifier. *)
Lemma kebab_identifier v f f' :
  validate_snake_identifier v f = Ok tt → validate_kebab_identifier (kebab v) f' = Ok tt.
Proof.
  intros (Hne & Hall & Hend & Hsub & b & r & -> & Hb)%word_identifier_inv.
  assert (Hback : ∀ s t u, kebab (String b r) = s +:+ t → t = kebab u →
    all_bytes (word_byte underscore) u = true → ∃ s', String b r = s' +:+ u).
  { intros s t u E -> Hu. apply replace_char_cut in E as (s' & t' & E & _ & Ht).
    exists s'. rewrite E. f_equal. apply kebab_inj; [|done..]. rewrite E, all_bytes_app in Hall. by apply andb_prop in Hall as [_ ?]. }
  unfold validate_kebab_identifier, word_identifier.
  rewrite (word_text _ f' (kebab_word _ Hall)) by by destruct r.
  assert (E1 : ends_with (kebab (String b r)) (String hyphen "") = false).
  { apply not_true_iff_false. intros [s E]%ends_with_spec. apply not_true_iff_false in Hend. apply Hend.
    apply ends_with_spec. by eapply (Hback s _ (String underscore "")). }
  assert (E2 : contains_text (kebab (String b r)) (String hyphen (String hyphen "")) = false).
  { apply not_true_iff_false. intros (l & t & E)%contains_text_spec. apply not_true_iff_false in Hsub. apply Hsub.
    apply contains_text_spec. apply replace_char_cut in E as (l' & t' & E & _ & Ht).
    apply replace_char_cut in Ht as (q & t'' & -> & Hq & _). exists l', t''. rewrite E. do 2 f_equal.
    apply kebab_inj; [|done|exact Hq]. rewrite E, !all_bytes_app in Hall.
    by apply andb_prop in Hall as [_ [? _]%andb_prop]. }
  cbn [kebab replace_char] in *. destruct (Ascii.eqb_spec b underscore) as [->|Hbu]; [done|].
  change (String hyphen "" +:+ String hyphen "") with (String hyphen (String hyphen "")).
  rewrite Hb, E1, E2. change (λ b, _) with (word_byte hyphen).
  simpl in Hall. apply andb_prop in Hall as [_ Hr].
  pose proof (kebab_word _ Hr) as Hk. unfold kebab in Hk. by rewrite Hk.
Qed.

(** A nonempty suffix of a text that ends in a character has that character. *)
Lemma suffix_at a s r e : e ≠ "" → s +:+ String a "" = r +:+ e → has_char a e = true.
Proof.
  intros Hne E. apply string_app_cut in E as (x & [[_ ->]|[_ E]]).
  - rewrite has_char_app. simpl. by rewrite Ascii.eqb_refl, orb_true_r.
  - destruct x as [|y x]; [destruct e as [|z e]; [done|]|by destruct x, e].
    injection E as <- <-. simpl. by rewrite Ascii.eqb_refl.
Qed.

Lemma token_text p v m a f :
  all_bytes (word_byte hyphen) p = true → all_bytes (word_byte hyphen) m = true →
  all_bytes (word_byte hyphen) a = true → validate_text v f = Ok tt →
  (∃ b r, p = String b r ∧ is_ascii_lowercase b = true) →
  validate_text (p +:+ String colon (m +:+ String slash (a +:+ String at_sign v))) "registered-operation" = Ok tt.
Proof.
  intros Hp Hm Ha Hv (b & r & -> & Hb). unfold validate_text in Hv.
  destruct (String.eqb v "") eqn:Ev; [done|].
  destruct (negb (is_trimmed v) || contains_nul v) eqn:En; [done|]. clear Hv.
  apply orb_false_iff in En as [Ht%negb_false_iff Hn].
  assert (Hnul : ∀ s, all_bytes (word_byte hyphen) s = true → contains_nul s = false).
  { intros s Hs. destruct (String.eqb_spec s "") as [->|Hne]; [done|].
    pose proof (word_text s "" Hs Hne) as E. unfold validate_text in E.
    destruct (String.eqb s ""); [done|]. destruct (is_trimmed s), (contains_nul s); done. }
  unfold validate_text. simpl String.eqb. cbv iota.
  rewrite is_trimmed_intro.
  - simpl negb. rewrite contains_nul_app. simpl contains_nul. rewrite contains_nul_app. simpl contains_nul.
    rewrite contains_nul_app. simpl contains_nul. rewrite Hn, (Hnul _ Hm), (Hnul _ Ha).
    pose proof (Hnul _ Hp) as Hp'. simpl in Hp'. by rewrite Hp'.
  - intros w Hw. pose proof (whitespace_free _ Hw) as (_ & _ & Hat & Hlow). split.
    + intros [r' E]. destruct w as [|c w]; [done|]. injection E as -> _. congruence.
    + intros [r' E].
      assert (E' : ((String b r +:+ String colon (m +:+ String slash a)) +:+ String at_sign "") +:+ v = r' +:+ w).
      { rewrite <- E. by rewrite ?string_app_assoc, ?string_app_cons, ?string_app_assoc, ?string_app_cons. }
      apply string_app_cut in E' as (e & [[He ->]|[-> ->]]); [|by eapply is_trimmed_end].
      destruct (String.eqb_spec e "") as [->|Hne]; [by eapply (is_trimmed_end v v "")|].
      apply (suffix_at at_sign _ _ e Hne) in He. rewrite has_char_app, He in Hat. done.
Qed.

(** The platform mints canonical tokens.  For a valid package coordinate and
    snake-case model and action names, the token [operation_token] spells is a
    canonical operation of exactly that package version. *)
Theorem minted_operation_canonical (p v m a : string) (c : PackageCoordinate) :
  package_coordinate p v = Ok c →
  validate_snake_identifier m "model" = Ok tt → validate_snake_identifier a "action" = Ok tt →
  validate_canonical_operation_for_package (operation_token p v m a) p v = Ok tt.
Proof.
  intros (Hp & Hres & Hver & _)%coordinate_inv Hm Ha.
  pose proof (package_version_inv _ Hver) as (Htext & Hat & Hcolon & Hslash).
  pose proof (word_identifier_inv _ _ _ Hp) as (_ & Wp & _ & _ & b & r & Ep & Hb).
  pose proof (word_identifier_inv _ _ _ Hm) as (_ & Wm & _).
  pose proof (word_identifier_inv _ _ _ Ha) as (_ & Wa & _).
  assert (Htok : operation_token p v m a =
    kebab p +:+ String colon (kebab m +:+ String slash (kebab a +:+ String at_sign v))).
  { unfold operation_token. simpl. done. }
  unfold validate_canonical_operation_for_package.
  assert (E : validate_canonical_operation (operation_token p v m a) = Ok tt).
  { assert (Hfree : ∀ q x, all_bytes (word_byte underscore) q = true → word_byte hyphen x = false →
      has_char x (kebab q) = false) by (intros q x Hq; by apply word_free, kebab_word).
    unfold validate_canonical_operation. rewrite Htok.
    rewrite (token_text _ _ _ _ "package-version" (kebab_word _ Wp) (kebab_word _ Wm) (kebab_word _ Wa) Htext); simpl.
    2:{ rewrite Ep. unfold kebab. simpl. destruct (Ascii.eqb_spec b underscore) as [->|]; [done|]. by do 2 eexists. }
    rewrite split_once_app by by apply Hfree.
    rewrite has_char_app. simpl. rewrite has_char_app. simpl. rewrite !Hfree, Hcolon by done. simpl.
    assert (Hloc : kebab m +:+ String slash (kebab a +:+ String at_sign v) =
      (kebab m +:+ String slash (kebab a)) +:+ String at_sign v) by (by rewrite string_app_assoc).
    unfold split_sealed_operation. rewrite Hloc, rsplit_once_app, has_char_app by done. simpl.
    rewrite !Hfree by done. simpl.
    rewrite (kebab_identifier p _ _ Hp). simpl. unfold refuse_reserved_package_id.
    destruct (String.eqb_spec (kebab p) RESERVED_PACKAGE_ID) as [Er|_].
    { destruct Hres. by apply kebab_inj. }
    simpl. rewrite Hver. simpl. rewrite split_once_app by by apply Hfree.
    rewrite Hfree by done. rewrite (kebab_identifier m _ _ Hm). simpl. apply (kebab_identifier a _ _ Ha). }
  rewrite E. simpl.
  replace (starts_with _ _) with true; [replace (ends_with _ _) with true; [done|]|]; symmetry.
  - apply ends_with_spec. eexists (kebab p +:+ String colon (kebab m +:+ String slash (kebab a))).
    rewrite Htok. by rewrite ?string_app_assoc, ?string_app_cons, ?string_app_assoc, ?string_app_cons.
  - apply starts_with_spec. eexists. rewrite Htok. by rewrite string_app_assoc.
Qed.

(** ** A concrete token *)

Definition sample_token : string := operation_token "wamn_fixture" "1.0.0" "widget_maker" "get".

Example sample_token_text : sample_token = "wamn-fixture:widget-maker/get@1.0.0".
Proof. reflexivity. Qed.

Lemma operation_has_one_owner_witness :
  validate_canonical_operation_for_package sample_token "wamn_fixture" "1.0.0" = Ok tt ∧
  ("wamn_fixture" = "wamn_fixture" ∧ "1.0.0" = "1.0.0").
Proof.
  split; [vm_compute; reflexivity|].
  apply (operation_has_one_owner sample_token "wamn_fixture" "1.0.0" "wamn_fixture" "1.0.0"
           {| package_id := "wamn_fixture"; package_version := "1.0.0" |}
           {| package_id := "wamn_fixture"; package_version := "1.0.0" |}); vm_compute; reflexivity.
Defined.

Lemma minted_operation_canonical_witness :
  validate_canonical_operation_for_package sample_token "wamn_fixture" "1.0.0" = Ok tt.
Proof.
  apply (minted_operation_canonical "wamn_fixture" "1.0.0" "widget_maker" "get"
           {| package_id := "wamn_fixture"; package_version := "1.0.0" |}); vm_compute; reflexivity.
Defined.

(** Another package is refused the token, and [wamn] is no package. *)
Example other_package : validate_canonical_operation_for_package sample_token "other_package" "1.0.0" = Err InvalidDefinition.
Proof. vm_compute. reflexivity. Qed.
Example reserved_package : package_coordinate "wamn" "1.0.0" = Err InvalidDefinition.
Proof. vm_compute. reflexivity. Qed.
