(* ===== verification/RecordHistory.v ===== *)
(** * Record history

    [apps/platform/data/record-history/src/lib.rs]: the names and the retentions of
    record history, the scanner that splits a row image into its columns without
    parsing the values, the projection of an image onto declared columns, and
    [state_at], the fold that rebuilds the state of a row at a position from the rows
    of a history read.  A text is a string of bytes and a cursor into it is the rest of
    the text from there; every cursor the code slices at stands next to an ASCII byte,
    so no slice can panic.  The position of a fold error is kept, its message is not. *)

From stdpp Require Import base tactics option list gmap strings.
From Stdlib Require Import ZArith Lia.
From S2P Require Import Prelude Text CanonicalForm Packages.
#[local] Set Warnings "-clear-no-such-hyp".
Open Scope wamn_scope.

(** ** Names and retentions *)

Definition HISTORY_TABLE_SUFFIX : string := "_history".
Definition NO_LOG_RETENTION : string := "none".
Definition POSITION_COLUMN : string := "position".
Definition ENTRY_ID_COLUMN : string := "id".

Definition HISTORY_COLUMNS : list (string * string) :=
  [(POSITION_COLUMN, "int64"); (ENTRY_ID_COLUMN, "uuid"); ("row_key", "json"); ("type", "text");
   ("operation", "text"); ("changed_by", "uuid"); ("changed_at", "timestamptz"); ("transaction_id", "int64");
   ("before", "json"); ("after", "json")].

Definition NAME_BYTE_LIMIT : nat := 64.

Definition history_table_name (relation : string) : string := relation +:+ HISTORY_TABLE_SUFFIX.

Definition is_history_table_name (name : string) : bool := ends_with name HISTORY_TABLE_SUFFIX.

(** The names of the objects the history table of a relation derives. *)
Definition history_object_names (relation : string) : list string :=
  let history := history_table_name relation in
  ((λ c : string * string, history +:+ "_" +:+ c.1 +:+ "_not_null") <$> HISTORY_COLUMNS) ++
  [history +:+ "_pkey"; history +:+ "_type_check"; history +:+ "_operation_check";
   history +:+ "_" +:+ POSITION_COLUMN +:+ "_seq"].

Definition history_object_names_fit (relation : string) : bool :=
  forallb (λ name, (String.length name <? NAME_BYTE_LIMIT)%nat) (history_object_names relation).

Definition is_log_retention (value : string) : bool :=
  if String.eqb value "unlimited" then true
  else
    match strip_prefix "P" value ≫= strip_suffix "D" with
    | Some days =>
        match days with
        | String first _ => negb (N.eqb (Ascii.N_of_ascii first) 48) && all_bytes is_ascii_digit days
        | EmptyString => false
        end
    | None => false
    end.

(** ** The scanner *)

Definition quote_byte : Ascii.ascii := Ascii.ascii_of_N 34.
Definition backslash_byte : Ascii.ascii := Ascii.ascii_of_N 92.
Definition comma_byte : Ascii.ascii := Ascii.ascii_of_N 44.
Definition open_brace : Ascii.ascii := Ascii.ascii_of_N 123.
Definition close_brace : Ascii.ascii := Ascii.ascii_of_N 125.
Definition open_bracket : Ascii.ascii := Ascii.ascii_of_N 91.
Definition close_bracket : Ascii.ascii := Ascii.ascii_of_N 93.

Definition is_space (b : Ascii.ascii) : bool :=
  let n := Ascii.N_of_ascii b in (n =? 32)%N || (n =? 9)%N || (n =? 10)%N || (n =? 13)%N.

Fixpoint space (s : string) : string :=
  match s with
  | String b s' => if is_space b then space s' else s
  | EmptyString => EmptyString
  end.

(** [u16::from_str_radix(_, 16)] on four digits. *)
Definition hex_value (a : Ascii.ascii) : N :=
  let n := Ascii.N_of_ascii a in
  if byte_between 48 57 a then n - 48 else if byte_between 97 102 a then n - 87 else n - 55.

Definition hex_unit (s : string) : option (N * string) :=
  match s with
  | String a (String b (String c (String d s'))) =>
      if is_ascii_hexdigit a && is_ascii_hexdigit b && is_ascii_hexdigit c && is_ascii_hexdigit d
      then Some (((hex_value a * 16 + hex_value b) * 16 + hex_value c) * 16 + hex_value d, s')%N
      else None
  | _ => None
  end.

(** [String::push] of a character: the bytes of its UTF-8 form. *)
Definition utf8_char (n : N) : string :=
  (if n <? 128 then bytes [n]
   else if n <? 2048 then bytes [192 + n / 64; 128 + n mod 64]
   else if n <? 65536 then bytes [224 + n / 4096; 128 + n / 64 mod 64; 128 + n mod 64]
   else bytes [240 + n / 262144; 128 + n / 4096 mod 64; 128 + n / 64 mod 64; 128 + n mod 64])%N.

(** [char::decode_utf16(units).next()?.ok()?] of the one or two units read. *)
Definition high_surrogate (u : N) : bool := ((55296 <=? u) && (u <? 56320))%N.
Definition low_surrogate (u : N) : bool := ((56320 <=? u) && (u <? 57344))%N.

Definition unicode_escape (s : string) : option (string * string) :=
  '(u, s) ← hex_unit s;
  if high_surrogate u then
    match s with
    | String b (String c s) =>
        if Ascii.eqb b backslash_byte && (Ascii.N_of_ascii c =? 117)%N then
          '(l, s) ← hex_unit s;
          if low_surrogate l then Some (utf8_char (65536 + (u - 55296) * 1024 + (l - 56320))%N, s) else None
        else None
    | _ => None
    end
  else if low_surrogate u then None else Some (utf8_char u, s).

(** The text one escape stands for, and the rest after it. *)
Definition escape (s : string) : option (string * string) :=
  match s with
  | EmptyString => None
  | String e s' =>
      let n := Ascii.N_of_ascii e in
      if (n =? 34)%N || (n =? 92)%N || (n =? 47)%N then Some (String e "", s')
      else if (n =? 98)%N then Some (bytes [8%N], s')
      else if (n =? 102)%N then Some (bytes [12%N], s')
      else if (n =? 110)%N then Some (bytes [10%N], s')
      else if (n =? 114)%N then Some (bytes [13%N], s')
      else if (n =? 116)%N then Some (bytes [9%N], s')
      else if (n =? 117)%N then unicode_escape s'
      else None
  end.

(** The characters of a string after its opening quote. *)
Fixpoint string_tail (fuel : nat) (s : string) : option (string * string) :=
  match fuel with
  | O => None
  | S fuel =>
      match s with
      | EmptyString => None
      | String c s' =>
          if Ascii.eqb c quote_byte then Some ("", s')
          else if Ascii.eqb c backslash_byte then
            '(e, s'') ← escape s'; '(d, r) ← string_tail fuel s''; Some (e +:+ d, r)
          else '(d, r) ← string_tail fuel s'; Some (String c d, r)
      end
  end.

(** [string]: the decoded JSON string, and the rest after its closing quote. *)
Definition string_at (s : string) : option (string * string) :=
  match s with
  | String c s' => if Ascii.eqb c quote_byte then string_tail (S (String.length s')) s' else None
  | EmptyString => None
  end.

Definition opens (b : Ascii.ascii) : bool := Ascii.eqb b open_brace || Ascii.eqb b open_bracket.
Definition closes (b : Ascii.ascii) : bool := Ascii.eqb b close_brace || Ascii.eqb b close_bracket.
Definition delimits (b : Ascii.ascii) : bool := Ascii.eqb b comma_byte || closes b || is_space b.

Definition cons_text (b : Ascii.ascii) (r : option (string * string)) : option (string * string) :=
  prod_map (String b) (λ s, s) <$> r.

(** The loop of [value_end]: the value and the rest after it; [started] tells that a
    byte of the value was read. *)
Fixpoint value_tail (depth : nat) (in_string started : bool) (s : string) : option (string * string) :=
  match s with
  | EmptyString => if (depth =? 0)%nat && negb in_string && started then Some ("", "") else None
  | String b s' =>
      if in_string then
        cons_text b (
          if Ascii.eqb b backslash_byte then
            match s' with
            | String e s'' => cons_text e (value_tail depth true true s'')
            | EmptyString => None
            end
          else if Ascii.eqb b quote_byte then
            if (depth =? 0)%nat then Some ("", s') else value_tail depth false true s'
          else value_tail depth true true s')
      else if Ascii.eqb b quote_byte then cons_text b (value_tail depth true true s')
      else if opens b then cons_text b (value_tail (S depth) false true s')
      else if closes b && negb (depth =? 0)%nat then
        cons_text b (if (depth =? 1)%nat then Some ("", s') else value_tail (pred depth) false true s')
      else if delimits b && (depth =? 0)%nat then if started then Some ("", s) else None
      else cons_text b (value_tail depth false true s')
  end.

Definition value_end (s : string) : option (string * string) := value_tail 0 false false s.

(** One top-level member: its decoded name, its raw text and the raw text of its value. *)
Record Member := { mb_name : string; mb_text : string; mb_value : string }.

(** The text up to a later cursor. *)
Definition text_until (s rest : string) : string := String.substring 0 (String.length s - String.length rest) s.

Definition member_at (s : string) : option (Member * string) :=
  '(name, r) ← string_at s;
  match space r with
  | String b r =>
      if Ascii.eqb b colon then
        '(value, r) ← value_end (space r);
        Some ({| mb_name := name; mb_text := text_until s r; mb_value := value |}, r)
      else None
  | EmptyString => None
  end.

Fixpoint member_loop (fuel : nat) (s : string) : option (list Member * string) :=
  match fuel with
  | O => None
  | S fuel =>
      '(m, r) ← member_at s;
      match space r with
      | String b r =>
          if Ascii.eqb b comma_byte then '(ms, r) ← member_loop fuel (space r); Some (m :: ms, r)
          else if Ascii.eqb b close_brace then Some ([m], r) else None
      | EmptyString => None
      end
  end.

(** [members]: what it visits, if the text is one JSON object. *)
Definition members (text : string) : option (list Member) :=
  match space text with
  | String b r =>
      if Ascii.eqb b open_brace then
        '(ms, r) ← match space r with
                   | String c r' => if Ascii.eqb c close_brace then Some ([], r')
                                    else member_loop (S (String.length r)) (space r)
                   | EmptyString => member_loop (S (String.length r)) (space r)
                   end;
        if String.eqb (space r) "" then Some ms else None
      else None
  | EmptyString => None
  end.

(** ** Images *)

(** [RowImage]: each column with its raw JSON value text. *)
Abbreviation RowImage := (gmap string string).

Inductive RowState := Present (image : RowImage) | Absent | Unavailable.

Inductive FoldErrorType := HeadMismatch | PositionOrder | IncompleteRead | UnknownKind | MalformedImage | BrokenChain.
Record FoldError := { fe_type : FoldErrorType; fe_position : Z }.
Definition fold_error (t : FoldErrorType) (position : Z) : FoldError := {| fe_type := t; fe_position := position |}.

(** The columns the visits insert, in their order. *)
Definition collect_columns (ms : list Member) : RowImage :=
  fold_left (λ m x, <[mb_name x := mb_value x]> m) ms ∅.

Definition image (text : string) (position : Z) : result RowImage FoldError :=
  ok_or (collect_columns <$> members text) (fold_error MalformedImage position).

(** The canonical spelling of a JSON string that holds a [timestamptz]. *)
Definition canonical_image `{Chrono} (value : string) : option string :=
  text ← strip_prefix (String quote_byte "") value ≫= strip_suffix (String quote_byte "");
  canonical ← canonical_timestamptz text;
  Some (String quote_byte (canonical +:+ String quote_byte "")).

Fixpoint join_text (sep : string) (l : list string) : string :=
  match l with
  | [] => ""
  | [x] => x
  | x :: l => x +:+ sep +:+ join_text sep l
  end.

Definition retained `{Chrono} (timestamptz : list string) (m : Member) : string :=
  match (if bool_decide (mb_name m ∈ timestamptz) then canonical_image (mb_value m) else None) with
  | Some canonical =>
      String.substring 0 (String.length (mb_text m) - String.length (mb_value m)) (mb_text m) +:+ canonical
  | None => mb_text m
  end.

Definition object_text (l : list string) : string :=
  String open_brace (join_text ", " l +:+ String close_brace "").

Definition retain_columns `{Chrono} (text : string) (columns timestamptz : list string) : option string :=
  ms ← members text;
  Some (object_text (retained timestamptz <$> filter (λ m, mb_name m ∈ columns) ms)).

(** ** The fold *)

Record HistoryRow := {
  hr_position : Z;
  hr_type : string;
  hr_before : string;
  hr_current : string;
  hr_head_position : Z;
}.

Inductive Kind := KInsert | KUpdate | KDelete.

Definition row_type (row : HistoryRow) : result Kind FoldError :=
  if String.eqb (hr_type row) "insert" then Ok KInsert
  else if String.eqb (hr_type row) "update" then Ok KUpdate
  else if String.eqb (hr_type row) "delete" then Ok KDelete
  else Err (fold_error UnknownKind (hr_position row)).

(** The checks of the rows, in order, with the row before each. *)
Fixpoint check_rows (head : Z) (previous : option Z) (rows : list HistoryRow) : result (list Kind) FoldError :=
  match rows with
  | [] => Ok []
  | row :: rows =>
      if negb (hr_head_position row =? head)%Z then Err (fold_error HeadMismatch (hr_position row))
      else if match previous with Some p => (hr_position row <=? p)%Z | None => false end
      then Err (fold_error PositionOrder (hr_position row))
      else
        let? kind := row_type row in
        let? kinds := check_rows head (Some (hr_position row)) rows in
        Ok (kind :: kinds)
  end.

(** [BTreeMap::extend]. *)
Definition extend (m other : RowImage) : RowImage := other ∪ m.

Definition undo (row : HistoryRow) (kind : Kind) (state : option RowImage) : result (option RowImage) FoldError :=
  match kind, state with
  | KInsert, Some _ => Ok None
  | KDelete, None => let? before := image (hr_before row) (hr_position row) in Ok (Some before)
  | KUpdate, Some after =>
      let? before := image (hr_before row) (hr_position row) in Ok (Some (extend after before))
  | _, _ => Err (fold_error BrokenChain (hr_position row))
  end.

(** The loop over the rows from the newest. *)
Fixpoint undo_rows (position : Z) (newest_first : list (HistoryRow * Kind)) (state : option RowImage) :
    result (option RowImage) FoldError :=
  match newest_first with
  | [] => Ok state
  | (row, kind) :: l =>
      if (hr_position row <=? position)%Z then Ok state
      else let? state := undo row kind state in undo_rows position l state
  end.

Definition state_at (rows : list HistoryRow) (position : Z) : result RowState FoldError :=
  match head rows, last rows with
  | Some oldest, Some newest =>
      let? kinds := check_rows (hr_head_position newest) None rows in
      if negb (hr_position newest =? hr_head_position newest)%Z
      then Err (fold_error IncompleteRead (hr_position newest))
      else if (position <? hr_position oldest)%Z then Ok Unavailable
      else
        let? state := match last kinds with
                      | Some KDelete => Ok None
                      | _ => let? current := image (hr_current newest) (hr_position newest) in Ok (Some current)
                      end in
        let? state := undo_rows position (reverse (zip rows kinds)) state in
        Ok (match state with Some image => Present image | None => Absent end)
  | _, _ => Ok Unavailable
  end.

(** ** What the scanner reads *)

(** The end of a text or a byte that ends a value. *)
Definition ended (s : string) : Prop := match s with EmptyString => True | String b _ => delimits b = true end.

(** The text of one JSON value, as far as the scanner can tell. *)
Definition value_ok (v : string) : Prop := value_end v = Some (v, "").

Lemma cons_text_inv b o v r : cons_text b o = Some (v, r) → ∃ v', v = String b v' ∧ o = Some (v', r).
Proof. destruct o as [[v' r']|]; [|done]. intros [= <- <-]. by exists v'. Qed.

Lemma delimits_plain b : delimits b = true → Ascii.eqb b quote_byte = false ∧ opens b = false.
Proof. by destruct b as [[] [] [] [] [] [] [] []]. Qed.

Lemma delimits_space b : is_space b = true → delimits b = true.
Proof. unfold delimits. intros ->. by rewrite orb_true_r. Qed.

Lemma ended_value s : ended s → value_tail 0 false true s = Some ("", s).
Proof.
  destruct s as [|b s]; [done|]. intros Hb. cbn [value_tail]. cbn in Hb.
  destruct (delimits_plain b Hb) as [-> ->]. by rewrite andb_false_r, Hb.
Qed.

(** The scan of a value reads the value and nothing else: what follows it does not
    matter, as long as it ends a value. *)
(** One more byte of a value, the rest by the hypothesis. *)
#[local] Ltac local_step Hc :=
  let H := fresh in intros H; apply Hc in H as [-> H]; split; [done|];
  intros s' Hs'; destruct (H s' Hs') as (v' & -> & E); rewrite ?string_app_cons; cbn [value_tail].

Lemma value_tail_local n : ∀ d i st s v r, String.length s ≤ n → value_tail d i st s = Some (v, r) →
  s = v +:+ r ∧ ∀ s', ended s' → value_tail d i st (v +:+ s') = Some (v, s').
Proof.
  induction n as [n IH] using lt_wf_ind. intros d i st [|b s] v r Hn.
  { cbn [value_tail]. destruct (d =? 0)%nat eqn:Ed; [|done]. destruct i; [done|]. destruct st; [|done].
    apply Nat.eqb_eq in Ed as ->. intros [= <- <-]. split; [done|]. apply ended_value. }
  simpl in Hn. cbn [value_tail].
  assert (Hc : ∀ d' i', cons_text b (value_tail d' i' true s) = Some (v, r) →
    String b s = v +:+ r ∧ ∀ s', ended s' → ∃ v', v = String b v' ∧ value_tail d' i' true (v' +:+ s') = Some (v', s')).
  { intros d' i' (v' & -> & H)%cons_text_inv. apply (IH (String.length s)) in H as [-> H]; [|lia|lia].
    split; [done|]. intros s' Hs'. by eauto. }
  destruct i.
  - destruct (Ascii.eqb b backslash_byte) eqn:Eb.
    + destruct s as [|e s]; [done|].
      intros (v1 & -> & (v2 & -> & H)%cons_text_inv)%cons_text_inv.
      apply (IH (String.length s)) in H as [-> H]; [|simpl in *; lia|done].
      split; [done|]. intros s' Hs'. rewrite ?string_app_cons; cbn [value_tail]. by rewrite Eb, H.
    + destruct (Ascii.eqb b quote_byte) eqn:Eq; [destruct (d =? 0)%nat eqn:Ed|].
      * intros (v1 & -> & [= <- <-])%cons_text_inv. split; [done|]. intros s' Hs'.
        rewrite ?string_app_cons; cbn [value_tail]. by rewrite Eb, Eq, Ed.
      * local_step Hc. by rewrite Eb, Eq, Ed, E.
      * local_step Hc. by rewrite Eb, Eq, E.
  - destruct (Ascii.eqb b quote_byte) eqn:Eq; [local_step Hc; by rewrite Eq, E|].
    destruct (opens b) eqn:Eo; [local_step Hc; by rewrite Eq, Eo, E|].
    destruct (closes b && negb (d =? 0)%nat) eqn:Ec; [destruct (d =? 1)%nat eqn:Ed|].
    + intros (v1 & -> & [= <- <-])%cons_text_inv. split; [done|]. intros s' Hs'.
      rewrite ?string_app_cons; cbn [value_tail]. by rewrite Eq, Eo, Ec, Ed.
    + local_step Hc. by rewrite Eq, Eo, Ec, Ed, E.
    + destruct (delimits b && (d =? 0)%nat) eqn:Ez.
      * destruct st; [|done]. intros [= <- <-]. split; [done|].
        apply andb_prop in Ez as [_ ->%Nat.eqb_eq]. apply ended_value.
      * local_step Hc. by rewrite Eq, Eo, Ec, Ez, E.
Qed.

Lemma value_end_local s v r : value_end s = Some (v, r) →
  s = v +:+ r ∧ value_ok v ∧ ∀ s', ended s' → value_end (v +:+ s') = Some (v, s').
Proof.
  intros H. apply (value_tail_local (String.length s)) in H as [-> H]; [|lia]. split; [done|].
  split; [|exact H]. unfold value_ok, value_end. rewrite <- (string_app_nil v) at 1. by apply H.
Qed.

Lemma value_ok_ended v s : value_ok v → ended s → value_end (v +:+ s) = Some (v, s).
Proof. intros (_ & _ & H)%value_end_local. apply H. Qed.

(** A value starts with a byte that is no space. *)
Lemma value_starts v : value_ok v → ∃ b v', v = String b v' ∧ is_space b = false.
Proof.
  unfold value_ok, value_end. destruct v as [|b v]; [done|]. cbn [value_tail]. intros H. exists b, v. split; [done|].
  destruct (is_space b) eqn:E; [|done]. pose proof (delimits_space b E) as D.
  destruct (delimits_plain b D) as [-> ->] in H. by rewrite andb_false_r, D in H.
Qed.

Lemma value_space v s : value_ok v → space (v +:+ s) = v +:+ s.
Proof. intros (b & v' & -> & Hb)%value_starts. rewrite string_app_cons; cbn [space]. by rewrite Hb. Qed.

Lemma value_quoted c : all_bytes (λ b, negb (Ascii.eqb b quote_byte || Ascii.eqb b backslash_byte)) c = true →
  value_ok (String quote_byte (c +:+ String quote_byte "")).
Proof.
  intros Hc. unfold value_ok, value_end. cbn [value_tail]. cbn [Ascii.eqb].
  assert (H : value_tail 0 true true (c +:+ String quote_byte "") = Some (c +:+ String quote_byte "", "")).
  { induction c as [|b c IH]; [done|]. cbn [all_bytes] in Hc. apply andb_prop in Hc as [Hb Hc].
    apply negb_true_iff, orb_false_iff in Hb as [H1 H2]. rewrite ?string_app_cons; cbn [value_tail].
    by rewrite H1, H2, IH. }
  change (Ascii.eqb quote_byte quote_byte) with true. cbv iota. by rewrite H.
Qed.

Lemma space_local r b r2 : space r = String b r2 →
  is_space b = false ∧ ∃ w, r = w +:+ String b r2 ∧ ∀ s', space (w +:+ String b s') = String b s'.
Proof.
  induction r as [|a r IH]; [done|]. cbn [space]. destruct (is_space a) eqn:Ea.
  - intros (Hb & w & -> & Hw)%IH. split; [done|]. exists (String a w). split; [done|]. intros s'.
    rewrite string_app_cons. cbn [space]. by rewrite Ea.
  - intros [= -> ->]. split; [done|]. exists "". split; [done|]. intros s'.
    change ("" +:+ String b s') with (String b s'). cbn [space]. by rewrite Ea.
Qed.

Lemma hex_unit_local s u r : hex_unit s = Some (u, r) → ∃ t, s = t +:+ r ∧ ∀ r', hex_unit (t +:+ r') = Some (u, r').
Proof.
  destruct s as [|a [|b [|c [|d s]]]]; try done. cbn [hex_unit].
  destruct (_ && _ && _ && _) eqn:E; [|done]. intros [= <- <-].
  exists (String a (String b (String c (String d "")))). split; [done|]. intros r'.
  rewrite !string_app_cons. cbn [hex_unit]. by rewrite E.
Qed.

Lemma unicode_local s e r : unicode_escape s = Some (e, r) →
  ∃ t, s = t +:+ r ∧ ∀ r', unicode_escape (t +:+ r') = Some (e, r').
Proof.
  unfold unicode_escape. destruct (hex_unit s) as [[u s1]|] eqn:E1; [simpl|done].
  apply hex_unit_local in E1 as (t1 & -> & H1). destruct (high_surrogate u) eqn:Eh.
  - destruct s1 as [|b [|c s1]]; [done|done|]. destruct (_ && _) eqn:Eb; [|done].
    destruct (hex_unit s1) as [[l s2]|] eqn:E2; [simpl|done].
    apply hex_unit_local in E2 as (t2 & -> & H2). destruct (low_surrogate l) eqn:El; [|done].
    intros [= <- <-]. exists (t1 +:+ String b (String c t2)).
    split; [by rewrite string_app_assoc|]. intros r'.
    rewrite string_app_assoc, H1. simpl. rewrite Eh. cbn [String.append].
    change (String b (String c t2) +:+ r') with (String b (String c (t2 +:+ r'))). cbv iota beta.
    by rewrite Eb, H2; simpl; rewrite El.
  - destruct (low_surrogate u) eqn:El; [done|]. intros [= <- <-]. exists t1. split; [done|]. intros r'.
    rewrite H1. simpl. by rewrite Eh, El.
Qed.

(** An escape of one byte. *)
#[local] Ltac one_byte a :=
  intros [= <- <-]; exists (String a ""); split; [done|]; split; [done|];
  intros r'; rewrite string_app_cons; cbn [escape].

Lemma escape_local s e r : escape s = Some (e, r) →
  ∃ t, t ≠ "" ∧ s = t +:+ r ∧ ∀ r', escape (t +:+ r') = Some (e, r').
Proof.
  destruct s as [|a s]; [done|]. cbn [escape].
  destruct (_ || _ || _) eqn:E1; [one_byte a; by rewrite E1|].
  do 5 (match goal with |- context [if ?c then Some _ else _] => destruct c eqn:?E end;
    [one_byte a; repeat match goal with H : _ = _ |- _ => rewrite H; clear H end; done|]).
  destruct (_ =? 117)%N eqn:E7; [|done]. intros (t & -> & Ht)%unicode_local.
  exists (String a t). split; [done|]. split; [done|]. intros r'. rewrite string_app_cons. cbn [escape].
  by rewrite E1, E, E0, E2, E3, E4, E7.
Qed.

(** The fuel of a string is enough when it exceeds the bytes up to the closing quote. *)
Lemma string_tail_local fuel : ∀ s k r, string_tail fuel s = Some (k, r) →
  ∃ t, s = t +:+ r ∧ ∀ fuel' r', String.length t ≤ fuel' → string_tail fuel' (t +:+ r') = Some (k, r').
Proof.
  induction fuel as [|fuel IH]; [done|]. intros [|c s] k r; [done|]. cbn [string_tail].
  destruct (Ascii.eqb c quote_byte) eqn:Eq.
  { intros [= <- <-]. exists (String c ""). split; [done|]. intros [|fuel'] r' Hf; [simpl in Hf; lia|].
    rewrite string_app_cons. cbn [string_tail]. by rewrite Eq. }
  destruct (Ascii.eqb c backslash_byte) eqn:Eb.
  - destruct (escape s) as [[e s1]|] eqn:Ee; [simpl|done]. apply escape_local in Ee as (t1 & Hne & -> & H1).
    destruct (string_tail fuel s1) as [[d r1]|] eqn:Et; [simpl|done]. intros [= <- <-].
    apply IH in Et as (t2 & -> & H2). exists (String c (t1 +:+ t2)).
    split; [by rewrite string_app_cons, string_app_assoc|]. intros [|fuel'] r' Hf; [simpl in Hf; lia|].
    simpl in Hf. rewrite string_length_app in Hf. rewrite string_app_cons, string_app_assoc. cbn [string_tail].
    rewrite Eq, Eb, H1. simpl. rewrite H2; [done|]. destruct t1; [done|simpl in Hf; lia].
  - destruct (string_tail fuel s) as [[d r1]|] eqn:Et; [simpl|done]. intros [= <- <-].
    apply IH in Et as (t & -> & Ht). exists (String c t). split; [done|]. intros [|fuel'] r' Hf; [simpl in Hf; lia|].
    simpl in Hf. rewrite string_app_cons. cbn [string_tail]. rewrite Eq, Eb, Ht by lia. done.
Qed.

Lemma string_at_local s k r : string_at s = Some (k, r) →
  ∃ t, s = String quote_byte t +:+ r ∧ ∀ r', string_at (String quote_byte t +:+ r') = Some (k, r').
Proof.
  destruct s as [|c s]; [done|]. cbn [string_at]. destruct (Ascii.eqb_spec c quote_byte) as [->|]; [|done].
  intros (t & -> & Ht)%string_tail_local. exists t. split; [done|]. intros r'.
  rewrite string_app_cons. cbn [string_at]. change (Ascii.eqb quote_byte quote_byte) with true. cbv iota.
  apply Ht. rewrite string_length_app. lia.
Qed.

Lemma string_at_plain k r :
  all_bytes (λ b, negb (Ascii.eqb b quote_byte || Ascii.eqb b backslash_byte)) k = true →
  string_at (String quote_byte (k +:+ String quote_byte r)) = Some (k, r).
Proof.
  intros Hk. cbn [string_at]. change (Ascii.eqb quote_byte quote_byte) with true. cbv iota.
  generalize (Nat.le_refl (String.length (k +:+ String quote_byte r))).
  generalize (String.length (k +:+ String quote_byte r)) at 2 3. intros n. revert n.
  induction k as [|b k IH]; intros n Hn; [done|]. cbn [all_bytes] in Hk. apply andb_prop in Hk as [Hb Hk].
  apply negb_true_iff, orb_false_iff in Hb as [H1 H2]. rewrite string_app_cons in *. simpl in Hn.
  destruct n as [|n]; [lia|]. cbn [string_tail] in *. rewrite H1, H2. fold string_tail.
  specialize (IH Hk n). cbn [string_tail] in IH. rewrite IH by lia. done.
Qed.

(** A member that reads the same wherever it stands, and whose value can be replaced. *)
Definition member_ok (m : Member) : Prop :=
  ∃ pre, mb_text m = String quote_byte pre +:+ mb_value m ∧ value_ok (mb_value m) ∧
    ∀ v s, value_ok v → ended s →
      member_at ((String quote_byte pre +:+ v) +:+ s) =
        Some ({| mb_name := mb_name m; mb_text := String quote_byte pre +:+ v; mb_value := v |}, s).

Lemma text_until_app t s : text_until (t +:+ s) s = t.
Proof.
  unfold text_until. rewrite string_length_app, Nat.add_sub.
  induction t as [|a t IH]; [by destruct s|]. rewrite string_app_cons. simpl. by rewrite IH.
Qed.

Lemma member_intro (t w1 w2 name v s : string) :
  (∀ r, string_at (String quote_byte t +:+ r) = Some (name, r)) →
  (∀ r, space (w1 +:+ String colon r) = String colon r) →
  (∀ r, value_ok v → space (w2 +:+ v +:+ r) = v +:+ r) → value_ok v → ended s →
  let pre := t +:+ w1 +:+ String colon w2 in
  member_at ((String quote_byte pre +:+ v) +:+ s) =
    Some ({| mb_name := name; mb_text := String quote_byte pre +:+ v; mb_value := v |}, s).
Proof.
  intros Hk Hw1 Hw2 Hv Hs pre.
  assert (E : (String quote_byte pre +:+ v) +:+ s = String quote_byte t +:+ (w1 +:+ String colon (w2 +:+ v +:+ s))).
  { subst pre. rewrite !string_app_cons. f_equal. rewrite !string_app_assoc, string_app_cons. done. }
  unfold member_at. rewrite E, Hk. simpl. rewrite Hw1. change (Ascii.eqb colon colon) with true. cbv iota.
  rewrite Hw2, value_ok_ended by done. simpl. do 3 f_equal. rewrite <- E. apply text_until_app.
Qed.

Lemma space_prefix r v : value_ok v → ∀ s, space r = v +:+ s →
  ∃ w, r = w +:+ v +:+ s ∧ ∀ v' s', value_ok v' → space (w +:+ v' +:+ s') = v' +:+ s'.
Proof.
  intros Hv s. induction r as [|a r IH]; cbn [space].
  { intros E. destruct (value_starts v Hv) as (b & v' & -> & _). done. }
  destruct (is_space a) eqn:Ea.
  - intros (w & -> & Hw)%IH. exists (String a w). split; [done|]. intros v' s' Hv'.
    rewrite string_app_cons. cbn [space]. rewrite Ea. by apply Hw.
  - intros ->. exists "". split; [done|]. intros v' s' Hv'. by apply (value_space v' s').
Qed.

Lemma member_at_ok s m r : member_at s = Some (m, r) → s = mb_text m +:+ r ∧ member_ok m.
Proof.
  unfold member_at. destruct (string_at s) as [[name r1]|] eqn:E1; [simpl|done].
  apply string_at_local in E1 as (t & Es & Hk). destruct (space r1) as [|b r2] eqn:E2; [done|].
  apply space_local in E2 as (_ & w1 & E2 & Hw1). destruct (Ascii.eqb_spec b colon) as [->|]; [|done].
  destruct (value_end (space r2)) as [[v r3]|] eqn:E3; [simpl|done].
  apply value_end_local in E3 as (E3 & Hv & _). apply space_prefix in E3 as (w2 & E3 & Hw2); [|done].
  intros [= <- <-]. cbn [mb_text mb_name mb_value].
  assert (Et : s = (String quote_byte (t +:+ w1 +:+ String colon w2) +:+ v) +:+ r3).
  { rewrite Es, E2, E3, !string_app_cons. f_equal. by rewrite !string_app_assoc, string_app_cons. }
  rewrite Et, text_until_app. split; [done|]. exists (t +:+ w1 +:+ String colon w2).
  split; [done|]. split; [done|]. intros v' s' Hv' Hs'. by apply member_intro; auto.
Qed.

Lemma member_loop_ok fuel : ∀ s ms r, member_loop fuel s = Some (ms, r) → Forall member_ok ms.
Proof.
  induction fuel as [|fuel IH]; [done|]. intros s ms r. cbn [member_loop].
  destruct (member_at s) as [[m r1]|] eqn:E1; [simpl|done]. apply member_at_ok in E1 as [_ Hm].
  destruct (space r1) as [|b r2]; [done|]. destruct (Ascii.eqb b comma_byte).
  - destruct (member_loop fuel (space r2)) as [[ms' r3]|] eqn:E2; [simpl|done].
    intros [= <- <-]. constructor; [done|]. by eapply IH.
  - destruct (Ascii.eqb b close_brace); [|done]. intros [= <- <-]. by constructor.
Qed.

Lemma members_ok text ms : members text = Some ms → Forall member_ok ms.
Proof.
  unfold members. destruct (space text) as [|b r]; [done|]. destruct (Ascii.eqb b open_brace); [|done].
  destruct (match space r with String _ _ => _ | EmptyString => _ end) as [[ms' r']|] eqn:E; [simpl|done].
  destruct (String.eqb _ _); [|done]. intros [= <-].
  destruct (space r) as [|c r2] eqn:Er; [by apply member_loop_ok in E|].
  destruct (Ascii.eqb c close_brace); [by injection E as <- <-|]. by apply member_loop_ok in E.
Qed.

Lemma join_text_cons sep x y l : join_text sep (x :: y :: l) = x +:+ sep +:+ join_text sep (y :: l).
Proof. done. Qed.

Lemma join_starts ms s : ms ≠ [] → Forall member_ok ms →
  ∃ t, join_text ", " (mb_text <$> ms) +:+ s = String quote_byte t.
Proof.
  intros Hne Hms. destruct Hms as [|m ms' (pre & Et & _) _]; [done|]. rewrite fmap_cons. cbn [join_text]. rewrite Et.
  by destruct (mb_text <$> ms'); eexists.
Qed.

Lemma string_starts_space s t : s = String quote_byte t → space s = s.
Proof. by intros ->. Qed.

Lemma space_comma x : space (", " +:+ x) = String comma_byte (String (Ascii.ascii_of_N 32) x).
Proof. done. Qed.

Lemma space_blank x : space (String (Ascii.ascii_of_N 32) x) = space x.
Proof. done. Qed.

(** The members of an object text are read back. *)
Lemma member_loop_join ms : ms ≠ [] → Forall member_ok ms → ∀ fuel s, length ms ≤ fuel →
  member_loop fuel (join_text ", " (mb_text <$> ms) +:+ String close_brace s) = Some (ms, s).
Proof.
  intros Hne Hms. induction Hms as [|m ms Hm Hms IH]; [done|]. clear Hne. intros [|fuel] s Hf; [simpl in Hf; lia|].
  destruct Hm as (pre & Et & Hv & Hm).
  assert (Hat : ∀ u, ended u → member_at (mb_text m +:+ u) = Some (m, u)).
  { intros u Hu. rewrite Et, Hm by done. rewrite <- Et. by destruct m. }
  destruct ms as [|m2 ms].
  - cbn [fmap list_fmap map join_text member_loop]. by rewrite Hat.
  - rewrite !fmap_cons, join_text_cons, !string_app_assoc, <- fmap_cons. cbn [member_loop]. rewrite Hat by done. cbn [mbind option_bind].
    rewrite space_comma. change (Ascii.eqb comma_byte comma_byte) with true. cbv iota. rewrite space_blank.
    destruct (join_starts (m2 :: ms) (String close_brace s)) as [t Et2]; [done..|].
    rewrite (string_starts_space _ t Et2), IH; [done..|simpl in *; lia].
Qed.

Lemma length_join ms : Forall member_ok ms → length ms ≤ String.length (join_text ", " (mb_text <$> ms)).
Proof.
  induction 1 as [|m ms (pre & Et & _) Hms IH]; [done|].
  assert (1 ≤ String.length (mb_text m)) by (rewrite Et; simpl; lia).
  destruct ms as [|m2 ms]; [done|]. rewrite !fmap_cons, join_text_cons, <- fmap_cons.
  rewrite !string_length_app. cbn [length] in *. lia.
Qed.

Lemma members_object ms : Forall member_ok ms → members (object_text (mb_text <$> ms)) = Some ms.
Proof.
  intros Hms. unfold members, object_text. cbn [space]. change (is_space open_brace) with false. cbv iota.
  change (Ascii.eqb open_brace open_brace) with true. cbv iota.
  destruct (decide (ms = [])) as [->|Hne]; [done|].
  destruct (join_starts ms (String close_brace "")) as [t Hq]; [done..|]. rewrite Hq. cbn [space].
  change (is_space quote_byte) with false. cbv iota.
  change (Ascii.eqb quote_byte close_brace) with false. cbv iota. rewrite <- Hq.
  rewrite member_loop_join; [done..|]. rewrite string_length_app. pose proof (length_join ms Hms). lia.
Qed.

(** ** The projection of a read *)

Section projection.
Context `{Chrono}.

(** [chrono] writes digits, [-], [T], [:], [.] and [Z]. *)
Hypothesis format_plain : ∀ t,
  all_bytes (λ b, negb (Ascii.eqb b quote_byte || Ascii.eqb b backslash_byte)) (format_timestamptz t) = true.

(** What a read shows of a column. *)
Definition shown (timestamptz : list string) (column value : string) : string :=
  default value (if bool_decide (column ∈ timestamptz) then canonical_image value else None).

Definition project (columns timestamptz : list string) (m : RowImage) : RowImage :=
  map_imap (λ column value, if bool_decide (column ∈ columns) then Some (shown timestamptz column value) else None) m.

Definition project_state (columns timestamptz : list string) (s : RowState) : RowState :=
  match s with Present m => Present (project columns timestamptz m) | s => s end.

(** A row of a read whose images are projected. *)
Definition retain_row (columns timestamptz : list string) (row : HistoryRow) : option HistoryRow :=
  before ← retain_columns (hr_before row) columns timestamptz;
  current ← retain_columns (hr_current row) columns timestamptz;
  Some {| hr_position := hr_position row; hr_type := hr_type row; hr_before := before; hr_current := current;
          hr_head_position := hr_head_position row |}.

Definition retained_member (timestamptz : list string) (m : Member) : Member :=
  {| mb_name := mb_name m; mb_text := retained timestamptz m; mb_value := shown timestamptz (mb_name m) (mb_value m) |}.

Lemma canonical_image_ok v c : canonical_image v = Some c → value_ok c.
Proof.
  unfold canonical_image, canonical_timestamptz.
  destruct (strip_prefix _ v ≫= _) as [t|]; [simpl|done]. destruct (parse_rfc3339 t) as [i|]; [simpl|done].
  intros [= <-]. by apply value_quoted.
Qed.

Lemma substring_before (t v : string) : String.substring 0 (String.length (t +:+ v) - String.length v) (t +:+ v) = t.
Proof. exact (text_until_app t v). Qed.

Lemma retained_member_ok tz m : member_ok m → member_ok (retained_member tz m).
Proof.
  intros (pre & Et & Hv & Hm). unfold retained_member, retained, shown.
  destruct (if bool_decide _ then canonical_image _ else None) as [c|] eqn:Ec; [|by exists pre].
  assert (Hc : value_ok c) by (case_bool_decide; [by eapply canonical_image_ok|done]).
  exists pre. cbn [mb_text mb_value mb_name default]. rewrite Et, substring_before. by eauto.
Qed.

Lemma members_retained text columns tz text' : retain_columns text columns tz = Some text' →
  ∃ ms, members text = Some ms ∧
    members text' = Some (retained_member tz <$> filter (λ m, mb_name m ∈ columns) ms).
Proof.
  unfold retain_columns. destruct (members text) as [ms|] eqn:Em; [simpl|done]. intros [= <-].
  exists ms. split; [done|]. apply members_ok in Em.
  rewrite <- members_object.
  - by rewrite <- list_fmap_compose.
  - rewrite Forall_fmap. apply Forall_forall. intros m [_ Hm]%list_elem_of_filter.
    rewrite Forall_forall in Em. by apply retained_member_ok, Em.
Qed.

Lemma collect_retained columns tz ms :
  collect_columns (retained_member tz <$> filter (λ m, mb_name m ∈ columns) ms) =
  project columns tz (collect_columns ms).
Proof.
  induction ms as [|m ms IH] using rev_ind; [done|].
  unfold collect_columns in *. rewrite filter_app, fmap_app, !fold_left_app, IH. cbn [fold_left].
  destruct (decide (mb_name m ∈ columns)) as [Hin|Hin].
  - rewrite filter_cons_True by done. rewrite filter_nil. cbn [fmap list_fmap fold_left].
    cbn [retained_member mb_name mb_value]. apply map_eq. intros k. unfold project.
    rewrite map_lookup_imap. destruct (decide (mb_name m = k)) as [<-|Hk].
    + rewrite !lookup_insert_eq. simpl. by rewrite bool_decide_eq_true_2.
    + by rewrite !lookup_insert_ne, map_lookup_imap.
  - rewrite filter_cons_False by done. rewrite filter_nil. cbn [fmap list_fmap fold_left].
    apply map_eq. intros k. unfold project. rewrite !map_lookup_imap.
    destruct (decide (mb_name m = k)) as [<-|Hk]; [|by rewrite lookup_insert_ne].
    rewrite lookup_insert_eq. simpl. rewrite bool_decide_eq_false_2 by done.
    by destruct (fold_left _ _ _ !! _).
Qed.

Lemma image_retained text columns tz text' p : retain_columns text columns tz = Some text' →
  ∃ m, image text p = Ok m ∧ image text' p = Ok (project columns tz m).
Proof.
  intros (ms & E1 & E2)%members_retained. unfold image. rewrite E1, E2. simpl.
  rewrite collect_retained. by eauto.
Qed.

Lemma project_extend columns tz m other :
  project columns tz (extend m other) = extend (project columns tz m) (project columns tz other).
Proof.
  apply map_eq. intros k. unfold extend, project. rewrite lookup_union, !map_lookup_imap, lookup_union.
  by destruct (other !! k), (m !! k), (bool_decide (k ∈ columns)) eqn:E; simpl; rewrite ?E.
Qed.

(** The projected rows of a read. *)
Definition projects columns tz (row row' : HistoryRow) : Prop := retain_row columns tz row = Some row'.

Lemma projects_inv columns tz row row' : projects columns tz row row' →
  hr_position row' = hr_position row ∧ hr_type row' = hr_type row ∧ hr_head_position row' = hr_head_position row ∧
  (∃ m, image (hr_before row) (hr_position row) = Ok m ∧
        image (hr_before row') (hr_position row) = Ok (project columns tz m)) ∧
  (∃ m, image (hr_current row) (hr_position row) = Ok m ∧
        image (hr_current row') (hr_position row) = Ok (project columns tz m)).
Proof.
  unfold projects, retain_row. destruct (retain_columns (hr_before row) _ _) as [b|] eqn:Eb; [simpl|done].
  destruct (retain_columns (hr_current row) _ _) as [c|] eqn:Ec; [simpl|done]. intros [= <-].
  simpl. repeat split; by eapply image_retained.
Qed.

Lemma check_rows_projects columns tz rows rows' h : Forall2 (projects columns tz) rows rows' →
  ∀ p, check_rows h p rows' = check_rows h p rows.
Proof.
  induction 1 as [|r r' rows rows' Hr Hrs IH]; intros p; [done|].
  apply projects_inv in Hr as (Ep & Et & Eh & _). cbn [check_rows]. unfold row_type. by rewrite Ep, Et, Eh, IH.
Qed.

Lemma undo_rows_projects columns tz p l l' :
  Forall2 (λ x y, projects columns tz x.1 y.1 ∧ x.2 = y.2) l l' → ∀ s,
  undo_rows p l' (project columns tz <$> s) =
  result_bind (undo_rows p l s) (λ s, Ok (project columns tz <$> s)).
Proof.
  induction 1 as [|[r k] [r' k'] l l' [Hr Hk] Hl IH]; intros s; [done|]. simpl in Hr, Hk. subst k'.
  apply projects_inv in Hr as (Ep & _ & _ & (b & Eb & Eb') & _). cbn [undo_rows].
  rewrite Ep. destruct (hr_position r <=? p)%Z; [done|]. unfold undo. rewrite Ep.
  destruct k, s as [s|]; simpl; rewrite ?Eb, ?Eb'; simpl; try done; rewrite <- IH; [done| |done].
  simpl. by rewrite project_extend.
Qed.

Lemma last_Forall2 {A B} (R : A → B → Prop) l l' : Forall2 R l l' →
  match last l, last l' with Some x, Some y => R x y | None, None => True | _, _ => False end.
Proof.
  intros HF. rewrite <- (reverse_involutive l), <- (reverse_involutive l').
  rewrite !last_reverse. apply Forall2_reverse in HF. by destruct HF.
Qed.

Lemma zip_projects columns tz rows rows' (kinds : list Kind) : Forall2 (projects columns tz) rows rows' →
  Forall2 (λ x y : HistoryRow * Kind, projects columns tz x.1 y.1 ∧ x.2 = y.2) (zip rows kinds) (zip rows' kinds).
Proof. intros HF. revert kinds. induction HF; intros [|k kinds]; constructor; simpl; auto. Qed.

(** The projection of a read and the fold commute.  Folding the rows whose images keep
    only the declared columns, with their timestamps in the canonical spelling, gives the
    projection of the state the whole rows give, at every position, and the same refusal
    when they do not fold.  So a read that shows a projection shows what the row held. *)
Theorem projected_fold (columns timestamptz : list string) (rows rows' : list HistoryRow) (position : Z) :
  mapM (retain_row columns timestamptz) rows = Some rows' →
  state_at rows' position =
  result_bind (state_at rows position) (λ s, Ok (project_state columns timestamptz s)).
Proof.
  intros HF%mapM_Some. unfold state_at. destruct HF as [|r r' rest rest' Hr Hrest]; [done|].
  assert (HF : Forall2 (projects columns timestamptz) (r :: rest) (r' :: rest')) by by constructor.
  pose proof (last_Forall2 _ _ _ HF) as Hl.
  destruct (last (r :: rest)) as [n|], (last (r' :: rest')) as [n'|]; try done.
  cbn [head]. apply projects_inv in Hr as (Ep & _).
  apply projects_inv in Hl as (En & _ & Eh & _ & (c & Ec & Ec')).
  rewrite Eh, (check_rows_projects _ _ _ _ _ HF), Ep, En.
  destruct (check_rows _ _ _) as [kinds|e]; [cbn [result_bind]|done]. destruct (negb _); [done|].
  destruct (position <? _)%Z; [done|].
  assert (Hz := zip_projects _ _ _ _ kinds HF). apply Forall2_reverse in Hz.
  assert (Hu := undo_rows_projects columns timestamptz position _ _ Hz).
  rewrite Ec, Ec'. cbn [result_bind]. pose proof (Hu None) as Hn. pose proof (Hu (Some c)) as Hs.
  cbn [fmap option_fmap option_map] in Hn, Hs.
  destruct (last kinds) as [[]|]; cbn [result_bind]; rewrite ?Hn, ?Hs; clear Hn Hs Hu;
    by destruct (undo_rows _ _ _) as [[]|].
Qed.
End projection.
