(* ===== verification/RecordLog.v ===== *)
(** * The record log

    The log triggers of record history, the retention task and the read of a row's
    history.  [log_row_change] is the trigger of the platform relations
    ([deploy/sql/record-history.sql]); [generated_log] is the trigger
    [apply_package/record_history/plan.rs] generates for a package relation; both
    discharge [RowLog], what the fold of a read needs from a log.  [prune] is the
    statement of [prune_record_history/plan.rs].  A value of a column is its text, none
    when it is null; [to_jsonb] is the JSONB text PostgreSQL gives it and [row_key] the
    key of a row up to JSONB equality.  The members of a JSONB object are listed in the
    order of the columns. *)

From stdpp Require Import base tactics option list gmap strings sorting.
From Stdlib Require Import ZArith Lia.
From S2P Require Import Prelude Text CanonicalForm Packages RecordHistory.
#[local] Set Warnings "-clear-no-such-hyp".
Open Scope wamn_scope.

(** ** Rows and images *)

Abbreviation Row := (list (string * option string)).

Definition jsonb_member (kv : string * string) : string :=
  String quote_byte (kv.1 +:+ String quote_byte (": " +:+ kv.2)).

(** The text of a JSONB object. *)
Definition jsonb_text (l : list (string * string)) : string := object_text (jsonb_member <$> l).

(** A row change the triggers see. *)
Inductive Change := Inserted (new : Row) | Updated (old new : Row) | Deleted (old : Row).

Inductive LogRefusal := ActorRequired | OperationRequired | HistoryKeyRequired | NullImage.

Section log.
Context {K : Type} `{Countable K}.
Context (to_jsonb : string → option string → string) (row_key : Row → K).

(** What a trigger inserts, before the position and the transaction are known. *)
Record Logged := {
  lg_key : K;
  lg_type : string;
  lg_operation : string;
  lg_changed_by : string;
  lg_before : string;
  lg_after : string;
}.

Definition rendered (r : Row) : list (string * string) := (λ c : string * option string, (c.1, to_jsonb c.1 c.2)) <$> r.

Definition log_entry (key : K) (type_ operation actor : string) (before after : list (string * string)) : Logged :=
  {| lg_key := key; lg_type := type_; lg_operation := operation; lg_changed_by := actor;
     lg_before := jsonb_text before; lg_after := jsonb_text after |}.

Definition full_entries (operation actor : string) (c : Change) : list Logged :=
  let deleted old := log_entry (row_key old) "delete" operation actor (rendered old) [] in
  let inserted new := log_entry (row_key new) "insert" operation actor [] (rendered new) in
  match c with
  | Inserted new => [inserted new]
  | Updated old new => [deleted old; inserted new]
  | Deleted old => [deleted old]
  end.

Definition old_image (c : Change) : list (string * string) :=
  match c with Inserted _ => [] | Updated old _ | Deleted old => rendered old end.
Definition new_image (c : Change) : list (string * string) :=
  match c with Inserted new | Updated _ new => rendered new | Deleted _ => [] end.

(** The log trigger of the platform relations; [keyed] tells that the relation has a
    primary key.  [jsonb_object_agg] of no member is null, which the table refuses. *)
Definition log_row_change (actor operation : option string) (keyed : bool) (c : Change) :
    result (list Logged) LogRefusal :=
  match actor, operation with
  | None, _ => Err ActorRequired
  | _, None => Err OperationRequired
  | Some actor, Some operation =>
      if negb keyed then Err HistoryKeyRequired
      else if String.eqb (jsonb_text (old_image c)) (jsonb_text (new_image c)) then Ok []
      else
        match c with
        | Updated old new =>
            if decide (row_key old = row_key new) then
              let changed := filter (λ o : string * string, Some o.2 ≠ find_entry o.1 (rendered new)) (rendered old) in
              let after := omap (λ o : string * string, (λ v, (o.1, v)) <$> find_entry o.1 (rendered new)) changed in
              if bool_decide (changed = []) then Err NullImage
              else Ok [log_entry (row_key new) "update" operation actor changed after]
            else Ok (full_entries operation actor c)
        | _ => Ok (full_entries operation actor c)
        end
  end.

(** [NEW.column::text IS DISTINCT FROM OLD.column::text]. *)
Definition cell_changed (old new : Row) (column : string) : bool :=
  bool_decide (find_entry column new ≠ find_entry column old).

Definition changed_test (columns : list string) (old new : Row) : bool := existsb (cell_changed old new) columns.

Definition cell_image (r : Row) (column : string) : string * string :=
  (column, to_jsonb column (default None (find_entry column r))).

(** The function generated for a package relation with these columns. *)
Definition generated_log (columns : list string) (keyed : bool) (actor operation : option string) (c : Change) :
    result (list Logged) LogRefusal :=
  match actor, operation with
  | None, _ => Err ActorRequired
  | _, None => Err OperationRequired
  | Some actor, Some operation =>
      if negb keyed then Err HistoryKeyRequired
      else
        match c with
        | Updated old new =>
            if negb (changed_test columns old new) then Ok []
            else if decide (row_key old = row_key new) then
              let diff := filter (λ column, cell_changed old new column = true) columns in
              Ok [log_entry (row_key new) "update" operation actor (cell_image old <$> diff) (cell_image new <$> diff)]
            else Ok (full_entries operation actor c)
        | _ => Ok (full_entries operation actor c)
        end
  end.

(** ** The relation, its history table and the retention task *)

Record Entry := {
  en_position : Z;
  en_logged : Logged;
  en_changed_at : Z;
  en_transaction_id : Z;
}.
Definition en_key (e : Entry) : K := lg_key (en_logged e).

Record HistoryDb := {
  db_rows : gmap K Row;
  db_entries : list Entry;
  db_watermark : option Z;
}.

Definition put_change (c : Change) (rows : gmap K Row) : gmap K Row :=
  match c with
  | Inserted new => <[row_key new := new]> rows
  | Updated old new => <[row_key new := new]> (delete (row_key old) rows)
  | Deleted old => delete (row_key old) rows
  end.

Definition entries_at (changed_at transaction_id : Z) (positions : list Z) (logged : list Logged) : list Entry :=
  zip_with (λ p l, {| en_position := p; en_logged := l; en_changed_at := changed_at;
                      en_transaction_id := transaction_id |}) positions logged.

(** A write and what its trigger inserts, in one transaction. *)
Definition write (c : Change) (entries : list Entry) (db : HistoryDb) : HistoryDb :=
  {| db_rows := put_change c (db_rows db); db_entries := db_entries db ++ entries; db_watermark := db_watermark db |}.

Definition expired (cutoff : Z) (all : list Entry) (e : Entry) : bool :=
  (en_changed_at e <? cutoff)%Z &&
  negb (existsb (λ earlier, bool_decide (en_key earlier = en_key e) && (en_position earlier <? en_position e)%Z
                            && (cutoff <=? en_changed_at earlier)%Z) all).

Definition greatest (w : option Z) (z : Z) : option Z := Some (match w with Some w => Z.max w z | None => z end).

Definition prune (cutoff : Z) (db : HistoryDb) : HistoryDb :=
  let removed := filter (λ e, expired cutoff (db_entries db) e = true) (db_entries db) in
  {| db_rows := db_rows db;
     db_entries := filter (λ e, expired cutoff (db_entries db) e = false) (db_entries db);
     db_watermark := fold_left (λ w e, greatest w (en_transaction_id e)) removed (db_watermark db) |}.

(** ** The read of one row *)

Definition position_leb (a b : Entry) : bool := (en_position a <=? en_position b)%Z.

(** The entries of a row, [ORDER BY position]. *)
Definition row_entries (k : K) (entries : list Entry) : list Entry :=
  stable_sort position_leb (filter (λ e, en_key e = k) entries).

Definition current_text (k : K) (db : HistoryDb) : string :=
  match db_rows db !! k with Some r => jsonb_text (rendered r) | None => "{}" end.

Definition read (k : K) (db : HistoryDb) : list HistoryRow :=
  let entries := row_entries k (db_entries db) in
  let head := default 0%Z (en_position <$> last entries) in
  (λ e, {| hr_position := en_position e; hr_type := lg_type (en_logged e); hr_before := lg_before (en_logged e);
           hr_current := current_text k db; hr_head_position := head |}) <$> entries.

(** ** What a log promises the fold *)

Definition plain (s : string) : bool :=
  all_bytes (λ b, negb (Ascii.eqb b quote_byte || Ascii.eqb b backslash_byte)) s.

Definition image_map (r : Row) : RowImage := list_to_map (rendered r).

Definition image_text (text : string) (m : RowImage) : Prop := collect_columns <$> members text = Some m.

(** An entry takes the row of its key from one state to the next. *)
Inductive links : option RowImage → Logged → option RowImage → Prop :=
| links_insert l s : lg_type l = "insert" → links None l (Some s)
| links_update l before s : lg_type l = "update" → image_text (lg_before l) before →
    links (Some (extend s before)) l (Some s)
| links_delete l s : lg_type l = "delete" → image_text (lg_before l) s → links (Some s) l None.

Context (columns : list string).
Hypothesis columns_nonempty : columns ≠ [].
Hypothesis columns_distinct : NoDup columns.
Hypothesis columns_plain : Forall (λ c, plain c = true) columns.

(** A row of the relation, whose JSONB values are JSON texts. *)
Definition row_ok (r : Row) : Prop := r.*1 = columns ∧ Forall (λ c, value_ok (to_jsonb c.1 c.2)) r.

(** The key of a row is the JSONB object of its key columns. *)
Hypothesis key_of_image : ∀ r r', row_ok r → row_ok r' → image_map r = image_map r' → row_key r = row_key r'.

Definition change_ok (c : Change) : Prop :=
  match c with Inserted r | Deleted r => row_ok r | Updated old new => row_ok old ∧ row_ok new end.

(** What a trigger promises: the entries of a change lead from the row that was there to
    the row that is there, key by key, and a change without an entry changes no image. *)
Class RowLog (log : Change → result (list Logged) LogRefusal) : Prop := {
  log_insert new l : row_ok new → log (Inserted new) = Ok l →
    ∃ e, l = [e] ∧ lg_key e = row_key new ∧ links None e (Some (image_map new));
  log_delete old l : row_ok old → log (Deleted old) = Ok l →
    ∃ e, l = [e] ∧ lg_key e = row_key old ∧ links (Some (image_map old)) e None;
  log_update old new l : row_ok old → row_ok new → row_key old = row_key new → log (Updated old new) = Ok l →
    (l = [] ∧ image_map old = image_map new) ∨
    ∃ e, l = [e] ∧ lg_key e = row_key new ∧ links (Some (image_map old)) e (Some (image_map new));
  log_move old new l : row_ok old → row_ok new → row_key old ≠ row_key new → log (Updated old new) = Ok l →
    ∃ d i, l = [d; i] ∧ lg_key d = row_key old ∧ lg_key i = row_key new ∧
      links (Some (image_map old)) d None ∧ links None i (Some (image_map new));
}.

(** *** Object texts *)

Lemma jsonb_member_ok k v : plain k = true → value_ok v →
  member_ok {| mb_name := k; mb_text := jsonb_member (k, v); mb_value := v |}.
Proof.
  intros Hk Hv.
  assert (E : ∀ v, jsonb_member (k, v) = String quote_byte ((k +:+ String quote_byte "") +:+ "" +:+ String colon " ") +:+ v).
  { clear. intros v. unfold jsonb_member. cbn [fst snd]. rewrite !string_app_cons. f_equal.
    by rewrite !string_app_assoc. }
  exists ((k +:+ String quote_byte "") +:+ "" +:+ String colon " "). cbn [mb_text mb_value mb_name].
  split; [apply E|]. split; [done|]. intros v' s Hv' Hs. apply member_intro; [|done| |done|done].
  - intros r. rewrite string_app_cons, string_app_assoc, string_app_cons.
    change ("" +:+ r) with r. by apply string_at_plain.
  - intros r _. change (" " +:+ v' +:+ r) with (String (Ascii.ascii_of_N 32) (v' +:+ r)).
    rewrite space_blank. by apply value_space.
Qed.

Lemma collect_list_to_map l : NoDup l.*1 →
  collect_columns ((λ kv, {| mb_name := kv.1; mb_text := jsonb_member kv; mb_value := kv.2 |}) <$> l) = list_to_map l.
Proof.
  induction l as [|[k v] l IH] using rev_ind; [done|]. rewrite fmap_app. intros Hnd.
  unfold collect_columns in *. rewrite fmap_app, fold_left_app, IH; [|by apply NoDup_app in Hnd as [? _]].
  cbn [fold_left mb_name mb_value fmap list_fmap fst snd].
  rewrite <- list_to_map_cons. apply list_to_map_proper.
  - rewrite Permutation_app_comm in Hnd. exact Hnd.
  - by rewrite (Permutation_app_comm l [(k, v)]).
Qed.

Lemma jsonb_image l : NoDup l.*1 → Forall (λ kv, plain kv.1 = true ∧ value_ok kv.2) l →
  image_text (jsonb_text l) (list_to_map l).
Proof.
  intros Hnd Hl. unfold image_text, jsonb_text.
  set (ms := (λ kv : string * string, {| mb_name := kv.1; mb_text := jsonb_member kv; mb_value := kv.2 |}) <$> l).
  replace (jsonb_member <$> l) with (mb_text <$> ms) by (subst ms; by rewrite <- list_fmap_compose).
  rewrite members_object.
  - subst ms. simpl. by rewrite collect_list_to_map.
  - subst ms. rewrite Forall_fmap. eapply Forall_impl; [exact Hl|]. intros [k v] [Hk Hv]. by apply jsonb_member_ok.
Qed.

Lemma rendered_fst r : (rendered r).*1 = r.*1.
Proof. unfold rendered. rewrite <- list_fmap_compose. by apply list_fmap_ext. Qed.

Lemma rendered_ok r : row_ok r → NoDup (rendered r).*1 ∧ Forall (λ kv, plain kv.1 = true ∧ value_ok kv.2) (rendered r).
Proof.
  intros [Hc Hv]. rewrite rendered_fst, Hc. split; [done|]. unfold rendered. rewrite Forall_fmap.
  apply Forall_forall. intros [c v] Hin. split; [|by rewrite Forall_forall in Hv; apply (Hv _ Hin)].
  simpl. rewrite Forall_forall in columns_plain. apply columns_plain. rewrite <- Hc.
  apply list_elem_of_fmap. by exists (c, v).
Qed.

Lemma row_text r : row_ok r → image_text (jsonb_text (rendered r)) (image_map r).
Proof. intros [? ?]%rendered_ok. by apply jsonb_image. Qed.

Lemma image_text_inj t m m' : image_text t m → image_text t m' → m = m'.
Proof. unfold image_text. congruence. Qed.

Lemma image_map_lookup r c : row_ok r → image_map r !! c = to_jsonb c <$> find_entry c r.
Proof.
  intros _. unfold image_map. rewrite find_entry_list_to_map. unfold rendered.
  induction r as [|[k v] r IH]; [done|]. cbn [fmap list_fmap find_entry fst snd].
  destruct (String.eqb_spec c k) as [->|]; [done|exact IH].
Qed.

Lemma row_cell r c : row_ok r → (c ∈ columns ↔ is_Some (find_entry c r)).
Proof. intros [<- _]. symmetry. apply find_entry_key. Qed.

Lemma no_cell r c : row_ok r → c ∉ columns → image_map r !! c = None.
Proof.
  intros Hr Hc. rewrite image_map_lookup by done. apply fmap_None, eq_None_not_Some. by rewrite <- row_cell.
Qed.

(** The changed part of the old image, over the new one, is the old image. *)
Lemma restores old new (before : list (string * string)) : row_ok old → row_ok new →
  (∀ c v, (c, v) ∈ before → image_map old !! c = Some v) →
  (∀ c, c ∈ columns → c ∉ before.*1 → image_map old !! c = image_map new !! c) →
  extend (image_map new) (list_to_map before) = image_map old.
Proof.
  intros Ho Hn Hb Hrest. apply map_eq. intros c. unfold extend. rewrite lookup_union.
  destruct ((list_to_map before : RowImage) !! c) as [v|] eqn:E.
  - apply elem_of_list_to_map_2, Hb in E. rewrite E. by destruct (image_map new !! c).
  - apply not_elem_of_list_to_map_2 in E. rewrite left_id_L by apply _.
    destruct (decide (c ∈ columns)) as [Hc|Hc]; [by symmetry; apply Hrest|]. by rewrite !no_cell.
Qed.

(** *** The triggers keep the promise *)

Lemma full_links operation actor c : change_ok c →
  match c with
  | Inserted new => ∃ e, full_entries operation actor c = [e] ∧ lg_key e = row_key new ∧
      links None e (Some (image_map new))
  | Deleted old => ∃ e, full_entries operation actor c = [e] ∧ lg_key e = row_key old ∧
      links (Some (image_map old)) e None
  | Updated old new => ∃ d i, full_entries operation actor c = [d; i] ∧ lg_key d = row_key old ∧
      lg_key i = row_key new ∧ links (Some (image_map old)) d None ∧ links None i (Some (image_map new))
  end.
Proof.
  assert (Hi : ∀ new, links None (log_entry (row_key new) "insert" operation actor [] (rendered new)) (Some (image_map new)))
    by (intros; by apply links_insert).
  assert (Hd : ∀ old, row_ok old →
    links (Some (image_map old)) (log_entry (row_key old) "delete" operation actor (rendered old) []) None)
    by (intros; apply links_delete; [done|by apply row_text]).
  destruct c as [new|old new|old]; simpl.
  - intros Hok. eexists. by split_and!.
  - intros [Ho Hn]. do 2 eexists. split_and!; by auto.
  - intros Hok. eexists. split_and!; by auto.
Qed.

(** The entry of an update whose image keeps the changed columns. *)
Lemma update_links operation actor old new before after : row_ok old → row_ok new →
  NoDup before.*1 →
  (∀ c v, (c, v) ∈ before → c ∈ columns ∧ image_map old !! c = Some v) →
  (∀ c, c ∈ columns → c ∉ before.*1 → image_map old !! c = image_map new !! c) →
  links (Some (image_map old)) (log_entry (row_key new) "update" operation actor before after) (Some (image_map new)).
Proof.
  intros Ho Hn Hnd Hb Hrest. rewrite <- (restores old new before); [|done|done|by intros c v [_ ?]%Hb|done].
  apply links_update; [done|]. apply jsonb_image; [done|]. apply Forall_forall. intros [c v] Hin.
  destruct (Hb c v Hin) as [Hc E]. destruct (rendered_ok old Ho) as [Hnd' Hall].
  rewrite Forall_forall in Hall. apply (Hall (c, v)). by apply elem_of_list_to_map_2.
Qed.

(** Images with the same text are the same. *)
Lemma same_text old new : row_ok old → row_ok new →
  jsonb_text (rendered old) = jsonb_text (rendered new) → image_map old = image_map new.
Proof. intros Ho%row_text Hn%row_text E. rewrite E in Ho. by eapply image_text_inj. Qed.

Lemma empty_text r : row_ok r → jsonb_text [] ≠ jsonb_text (rendered r).
Proof.
  intros Hr E. pose proof (row_text r Hr) as Ht. rewrite <- E in Ht.
  pose proof (image_text_inj _ _ ∅ Ht eq_refl) as Hm.
  destruct r as [|[k v] r]; [by destruct Hr as [Hc _]; apply columns_nonempty|].
  assert (Hl : image_map ((k, v) :: r) !! k = Some (to_jsonb k v)) by apply lookup_insert_eq.
  by rewrite Hm in Hl.
Qed.

#[export] Instance log_row_change_log actor operation keyed : RowLog (log_row_change actor operation keyed).
Proof.
  destruct actor as [actor|], operation as [operation|], keyed; split; unfold log_row_change; cbn [old_image new_image negb]; try done.
  - intros new l Hn. destruct (String.eqb_spec (jsonb_text []) (jsonb_text (rendered new))) as [E|_];
      [by apply empty_text in E|]. intros [= <-]. by apply (full_links operation actor (Inserted new)).
  - intros old l Ho. destruct (String.eqb_spec (jsonb_text (rendered old)) (jsonb_text [])) as [E|_];
      [by symmetry in E; apply empty_text in E|]. intros [= <-]. by apply (full_links operation actor (Deleted old)).
  - intros old new l Ho Hn Hk. destruct (String.eqb_spec (jsonb_text (rendered old)) (jsonb_text (rendered new))) as [E|_].
    { intros [= <-]. left. split; [done|]. by apply same_text. }
    rewrite decide_True by done. case_bool_decide; [done|]. intros [= <-]. right. eexists. split_and!; [done..|].
    destruct (rendered_ok old Ho) as [Hnd _]. apply update_links; [done..| | |].
    + eapply sublist_NoDup; [exact Hnd|]. apply fmap_sublist, sublist_filter.
    + intros c v [_ Hin]%list_elem_of_filter. split; [|by apply elem_of_list_to_map_1].
      destruct Ho as [<- _]. rewrite <- rendered_fst. apply list_elem_of_fmap. by exists (c, v).
    + intros c Hc Hnot. rewrite (row_cell old c Ho) in Hc. destruct Hc as [cell Hcell].
      assert (Hin : (c, to_jsonb c cell) ∈ rendered old).
      { apply list_elem_of_fmap. exists (c, cell). split; [done|]. by apply find_entry_elem. }
      destruct (decide (Some (to_jsonb c cell) = find_entry c (rendered new))) as [E|E].
      * unfold image_map at 2. rewrite find_entry_list_to_map, <- E. by apply elem_of_list_to_map_1.
      * destruct Hnot. apply list_elem_of_fmap. exists (c, to_jsonb c cell). split; [done|].
        by apply list_elem_of_filter.
  - intros old new l Ho Hn Hk. destruct (String.eqb_spec (jsonb_text (rendered old)) (jsonb_text (rendered new))) as [E|_].
    { destruct Hk. apply key_of_image; [done..|]. by apply same_text. }
    rewrite decide_False by done. intros [= <-]. by apply (full_links operation actor (Updated old new)).
Qed.

#[export] Instance generated_log_log actor operation keyed : RowLog (generated_log columns keyed actor operation).
Proof.
  assert (Hcell : ∀ old new c, cell_changed old new c = false → find_entry c old = find_entry c new).
  { intros old new c Hc. apply bool_decide_eq_false in Hc. by apply dec_stable in Hc. }
  assert (Hsame : ∀ old new, row_ok old → row_ok new → changed_test columns old new = false →
    image_map old = image_map new).
  { intros old new Ho Hn Et. apply map_eq. intros c.
    destruct (decide (c ∈ columns)) as [Hc|Hc]; [|by rewrite !no_cell].
    rewrite !image_map_lookup by done. f_equal. apply Hcell. by eapply existsb_false_inv. }
  destruct actor as [actor|], operation as [operation|], keyed; split; unfold generated_log; simpl; try done.
  - intros new l Hn [= <-]. by apply (full_links operation actor (Inserted new)).
  - intros old l Ho [= <-]. by apply (full_links operation actor (Deleted old)).
  - intros old new l Ho Hn Hk. destruct (changed_test columns old new) eqn:Et; simpl.
    + rewrite decide_True by done. intros [= <-]. right. eexists. split_and!; [done..|].
      apply update_links; [done..| | |].
      * rewrite <- list_fmap_compose. rewrite (list_fmap_ext _ id) by done. rewrite list_fmap_id.
        by apply NoDup_filter.
      * intros c v (c' & [= -> ->] & [_ Hin]%list_elem_of_filter)%list_elem_of_fmap. split; [done|].
        rewrite image_map_lookup by done. rewrite (row_cell old) in Hin by done. by destruct Hin as [cell ->].
      * intros c Hc Hnot. rewrite !image_map_lookup by done. f_equal. apply Hcell.
        destruct (cell_changed old new c) eqn:E; [|done]. destruct Hnot. apply list_elem_of_fmap.
        exists (cell_image old c). split; [done|]. apply list_elem_of_fmap. exists c. split; [done|].
        by apply list_elem_of_filter.
    + intros [= <-]. left. split; [done|]. by apply Hsame.
  - intros old new l Ho Hn Hk. destruct (changed_test columns old new) eqn:Et; simpl.
    + rewrite decide_False by done. intros [= <-]. by apply (full_links operation actor (Updated old new)).
    + destruct Hk. apply key_of_image; [done..|]. by apply Hsame.
Qed.

(** ** The machine

    [w_written] is auxiliary: every entry ever written, with the image of the row of its
    key right after the write.  It is what a read should answer from. *)

Record World := { w_db : HistoryDb; w_written : list (Entry * option RowImage) }.

(** What the primary key of the relation lets a write do. *)
Definition change_fits (rows : gmap K Row) (c : Change) : Prop :=
  match c with
  | Inserted new => rows !! row_key new = None
  | Updated old new => rows !! row_key old = Some old ∧ (row_key old = row_key new ∨ rows !! row_key new = None)
  | Deleted old => rows !! row_key old = Some old
  end.

(** The positions of the entries of a row rise: they are allocated under the row lock. *)
Definition rises (written : list (Entry * option RowImage)) (e : Entry) : Prop :=
  ∀ x, x ∈ written → en_key x.1 = en_key e → (en_position x.1 < en_position e)%Z.

Definition row_image (rows : gmap K Row) (k : K) : option RowImage := image_map <$> rows !! k.

Inductive step (trigger : option string → option string → Change → result (list Logged) LogRefusal) :
    World → World → Prop :=
| step_write actor operation c logged positions changed_at transaction_id w :
    change_ok c → change_fits (db_rows (w_db w)) c → trigger actor operation c = Ok logged →
    length positions = length logged →
    Forall (rises (w_written w)) (entries_at changed_at transaction_id positions logged) →
    step trigger w
      {| w_db := write c (entries_at changed_at transaction_id positions logged) (w_db w);
         w_written := w_written w ++
           ((λ e, (e, row_image (put_change c (db_rows (w_db w))) (en_key e))) <$>
            entries_at changed_at transaction_id positions logged) |}
| step_prune cutoff w :
    step trigger w {| w_db := prune cutoff (w_db w); w_written := w_written w |}.

Definition table_ok (rows : gmap K Row) : Prop := ∀ k r, rows !! k = Some r → row_ok r ∧ row_key r = k.

(** The log starts on the rows the relation holds then. *)
Definition starts (w : World) : Prop :=
  table_ok (db_rows (w_db w)) ∧ db_entries (w_db w) = [] ∧ w_written w = [].

Definition written_of (k : K) (w : World) : list (Entry * option RowImage) :=
  filter (λ x : Entry * option RowImage, en_key x.1 = k) (w_written w).

(** What a read at a position should answer: nothing below the oldest retained entry of
    the row, and from there on the row as the newest entry at or before the position left
    it. *)
Definition expected (k : K) (w : World) (position : Z) : RowState :=
  match head (filter (λ e, en_key e = k) (db_entries (w_db w))) with
  | None => Unavailable
  | Some oldest =>
      if (position <? en_position oldest)%Z then Unavailable
      else match last (filter (λ x : Entry * option RowImage, (en_position x.1 <= position)%Z) (written_of k w)) with
           | Some (_, Some m) => Present m
           | Some (_, None) => Absent
           | None => Unavailable
           end
  end.

(** *** Chains *)

Inductive chain : option RowImage → list (Entry * option RowImage) → Prop :=
| chain_nil s : chain s []
| chain_cons s e s' l : links s (en_logged e) s' → chain s' l → chain s ((e, s') :: l).

Definition chain_end (s : option RowImage) (l : list (Entry * option RowImage)) : option RowImage :=
  match last l with Some x => x.2 | None => s end.

Lemma chain_end_snoc s l x : chain_end s (l ++ [x]) = x.2.
Proof. unfold chain_end. by rewrite last_snoc. Qed.

Lemma chain_end_cons s x l : chain_end s (x :: l) = chain_end x.2 l.
Proof. unfold chain_end. destruct l as [|y l]; [done|]. rewrite last_cons_cons. by destruct (last (y :: l)) eqn:E; [|apply last_None in E]. Qed.

Lemma chain_app s l l' : chain s (l ++ l') ↔ chain s l ∧ chain (chain_end s l) l'.
Proof.
  revert s. induction l as [|[e s'] l IH]; intros s.
  - cbn. split; [intros; split; [constructor|done]|by intros [_ ?]].
  - rewrite chain_end_cons. cbn [app snd]. split.
    + inversion 1 as [|? ? ? ? Hl Hc]; subst. apply IH in Hc as [? ?]. split; [by constructor|done].
    + intros [Hc Hc']. inversion Hc as [|? ? ? ? Hl Hc2]; subst. constructor; [done|]. by apply IH.
Qed.

Lemma chain_snoc s l e s' : chain s l → links (chain_end s l) (en_logged e) s' → chain s (l ++ [(e, s')]).
Proof. intros Hc Hl. apply chain_app. split; [done|]. by repeat constructor. Qed.

Lemma chain_drop s l n : chain s l → ∃ s', chain s' (drop n l) ∧ chain_end s' (drop n l) = chain_end s l.
Proof.
  revert s l. induction n as [|n IH]; intros s l Hc; [by exists s|]. destruct Hc as [s|s e s' l Hl Hc]; [by exists s; split; [constructor|]|].
  rewrite chain_end_cons. simpl. by apply IH.
Qed.

(** A prefix goes when an element goes only together with those before it. *)
Lemma filter_prefix {A} (R : A → A → Prop) (P : A → bool) l : StronglySorted R l →
  (∀ x y, x ∈ l → y ∈ l → R x y → P y = true → P x = true) → ∃ n, filter (λ x, P x = false) l = drop n l.
Proof.
  induction 1 as [|x l Hs IH Hx]; intros Hdown; [by exists 0|]. destruct (P x) eqn:E.
  - destruct IH as [n Hn]; [intros y z Hy Hz; apply Hdown; by right|]. exists (S n).
    rewrite filter_cons_False by (by rewrite E). exact Hn.
  - exists 0. rewrite drop_0. rewrite filter_cons_True by done. f_equal. apply filter_all, Forall_forall.
    intros y Hy. destruct (P y) eqn:Ey; [|done]. rewrite <- E.
    rewrite Forall_forall in Hx. symmetry. apply (Hdown x y); [left|by right|by apply Hx|done].
Qed.

(** *** The invariant *)

Definition position_lt (x y : Entry * option RowImage) : Prop := (en_position x.1 < en_position y.1)%Z.

Record history_inv (w : World) : Prop := {
  inv_table : table_ok (db_rows (w_db w));
  inv_positions k : StronglySorted position_lt (written_of k w);
  inv_row k : ∃ gone kept s, written_of k w = gone ++ kept ∧
    filter (λ e, en_key e = k) (db_entries (w_db w)) = kept.*1 ∧
    chain s kept ∧ chain_end s kept = row_image (db_rows (w_db w)) k;
  inv_watermark x : x ∈ w_written w → x.1 ∈ db_entries (w_db w) ∨
    ∃ z, db_watermark (w_db w) = Some z ∧ (en_transaction_id x.1 <= z)%Z;
}.

Lemma starts_inv w : starts w → history_inv w.
Proof.
  intros (Ht & He & Hw). assert (Hk : ∀ k, written_of k w = []) by (intros; unfold written_of; by rewrite Hw).
  split; [done|intros k; rewrite Hk; constructor| |intros x; rewrite Hw; by intros ?%elem_of_nil].
  intros k. exists [], [], (row_image (db_rows (w_db w)) k). rewrite Hk, He. repeat split. constructor.
Qed.

Section trigger.
Context (trigger : option string → option string → Change → result (list Logged) LogRefusal).
Context {trigger_log : ∀ actor operation, RowLog (trigger actor operation)}.

(** What a write logs under one key leads from the row that was there to the row that is. *)
Lemma logged_links actor operation rows c logged k : table_ok rows →
  change_ok c → change_fits rows c → trigger actor operation c = Ok logged →
  (filter (λ l, lg_key l = k) logged = [] ∧ row_image (put_change c rows) k = row_image rows k) ∨
  ∃ l, filter (λ l, lg_key l = k) logged = [l] ∧ links (row_image rows k) l (row_image (put_change c rows) k).
Proof.
  intros Ht Hok Hfit El. unfold row_image.
  assert (Hone : ∀ e : Logged, filter (λ l, lg_key l = k) [e] = if decide (lg_key e = k) then [e] else []).
  { intros e. rewrite filter_cons, filter_nil. by case_decide. }
  destruct c as [new|old new|old]; simpl in Hok, Hfit |- *.
  - destruct (log_insert new logged Hok El) as (e & -> & Ek & Hl). rewrite Hone, Ek.
    case_decide as Hk; [subst k|left; by rewrite lookup_insert_ne].
    right. exists e. rewrite lookup_insert_eq, Hfit. done.
  - destruct Hok as [Ho Hn], Hfit as [Hold Hfree]. destruct (decide (row_key old = row_key new)) as [E|E].
    + rewrite E in *. destruct (log_update old new logged Ho Hn E El) as [[-> Em]|(e & -> & Ek & Hl)].
      * left. split; [done|]. destruct (decide (row_key new = k)) as [<-|Hk].
        -- rewrite lookup_insert_eq, Hold. simpl. by rewrite Em.
        -- by rewrite lookup_insert_ne, lookup_delete_ne.
      * rewrite Hone, Ek. case_decide as Hk; [subst k|left; by rewrite lookup_insert_ne, lookup_delete_ne].
        right. exists e. rewrite lookup_insert_eq, Hold. done.
    + destruct Hfree as [|Hfree]; [done|].
      destruct (log_move old new logged Ho Hn E El) as (d & i & -> & Ed & Ei & Hd & Hi).
      rewrite filter_cons, Hone, Ed, Ei. destruct (decide (row_key old = k)) as [<-|Hk].
      * right. exists d. rewrite (decide_False (P := row_key new = row_key old)) by done.
        by rewrite lookup_insert_ne, lookup_delete_eq, Hold.
      * case_decide as Hk'; [subst k|left; by rewrite lookup_insert_ne, lookup_delete_ne].
        right. exists i. by rewrite lookup_insert_eq, Hfree.
  - destruct (log_delete old logged Hok El) as (e & -> & Ek & Hl). rewrite Hone, Ek.
    case_decide as Hk; [subst k|left; by rewrite lookup_delete_ne].
    right. exists e. rewrite lookup_delete_eq, Hfit. done.
Qed.

Lemma put_table rows c : table_ok rows → change_ok c → change_fits rows c → table_ok (put_change c rows).
Proof.
  intros Ht Hok Hfit k r. destruct c as [new|old new|old]; simpl in Hok |- *.
  - intros [[<- <-]|[_ ?]]%lookup_insert_Some; [done|by apply Ht].
  - intros [[<- <-]|[_ [_ ?]%lookup_delete_Some]]%lookup_insert_Some; [by destruct Hok|by apply Ht].
  - intros [_ ?]%lookup_delete_Some. by apply Ht.
Qed.

Lemma entries_logged at_ tx positions logged : length positions = length logged →
  en_logged <$> entries_at at_ tx positions logged = logged.
Proof.
  revert logged. induction positions as [|p ps IH]; intros [|l ls]; [done..|]. intros [= E]. simpl.
  f_equal. by apply IH.
Qed.

(** The new entries of one key. *)
Lemma new_entries k at_ tx positions logged : length positions = length logged →
  en_logged <$> filter (λ e, en_key e = k) (entries_at at_ tx positions logged) =
  filter (λ l, lg_key l = k) logged.
Proof. intros E. rewrite <- (entries_logged at_ tx positions logged E) at 2. by rewrite filter_fmap. Qed.

Lemma sorted_snoc {A} (R : A → A → Prop) l x : StronglySorted R l → (∀ y, y ∈ l → R y x) → StronglySorted R (l ++ [x]).
Proof.
  intros Hs Hx. apply StronglySorted_app. split_and!; [|done|by repeat constructor].
  intros y z Hy ->%list_elem_of_singleton. by apply Hx.
Qed.

Lemma write_inv actor operation c logged positions at_ tx w : history_inv w →
  change_ok c → change_fits (db_rows (w_db w)) c → trigger actor operation c = Ok logged →
  length positions = length logged → Forall (rises (w_written w)) (entries_at at_ tx positions logged) →
  history_inv
    {| w_db := write c (entries_at at_ tx positions logged) (w_db w);
       w_written := w_written w ++
         ((λ e, (e, row_image (put_change c (db_rows (w_db w))) (en_key e))) <$> entries_at at_ tx positions logged) |}.
Proof.
  intros [Ht Hp Hr Hw] Hok Hfit El Elen Hrise. set (es := entries_at at_ tx positions logged) in *.
  set (rows' := put_change c (db_rows (w_db w))).
  assert (Hof : ∀ k, written_of k {| w_db := write c es (w_db w);
      w_written := w_written w ++ ((λ e, (e, row_image rows' (en_key e))) <$> es) |} =
    written_of k w ++ ((λ e, (e, row_image rows' (en_key e))) <$> filter (λ e, en_key e = k) es)).
  { intros k. unfold written_of. cbn [w_written]. by rewrite filter_app, filter_fmap. }
  assert (Hnew : ∀ k, (filter (λ e, en_key e = k) es = [] ∧ row_image rows' k = row_image (db_rows (w_db w)) k) ∨
    ∃ e, filter (λ e, en_key e = k) es = [e] ∧ en_key e = k ∧
      links (row_image (db_rows (w_db w)) k) (en_logged e) (row_image rows' k)).
  { intros k. pose proof (new_entries k at_ tx positions logged Elen) as En. fold es in En.
    destruct (logged_links actor operation _ c logged k Ht Hok Hfit El) as [[E0 E]|(l & E0 & Hl)]; rewrite E0 in En.
    - left. split; [by apply fmap_nil_inv in En|done].
    - right. destruct (filter (λ e, en_key e = k) es) as [|e [|? ?]] eqn:Ee; try done.
      injection En as <-. exists e. split; [done|]. split; [|done].
      assert (Hin : e ∈ filter (λ e, en_key e = k) es) by (rewrite Ee; left). by apply list_elem_of_filter in Hin as [? _]. }
  split.
  - by apply put_table.
  - intros k. rewrite Hof. destruct (Hnew k) as [[-> _]|(e & Ee & Ek & _)]; [by rewrite app_nil_r|].
    rewrite Ee. apply sorted_snoc; [done|]. intros x [Hk Hx]%list_elem_of_filter.
    rewrite Forall_forall in Hrise. assert (Hin : e ∈ filter (λ e, en_key e = k) es) by (rewrite Ee; left).
    apply list_elem_of_filter in Hin as [_ Hin]. apply (Hrise e Hin x Hx). by rewrite Hk, Ek.
  - intros k. rewrite Hof. destruct (Hr k) as (gone & kept & s & Eg & Ee & Hc & Hend). cbn [w_db write db_entries db_rows].
    rewrite filter_app, Ee. fold rows'. destruct (Hnew k) as [[En Eimg]|(e & En & Ek & Hl)]; rewrite En.
    + exists gone, kept, s. by rewrite !app_nil_r, Eimg.
    + exists gone, (kept ++ [(e, row_image rows' k)]), s. cbn [fmap list_fmap]. rewrite Eg, Ek, <- app_assoc, fmap_app.
      split; [done|]. split; [done|]. rewrite chain_end_snoc. split; [|done].
      apply chain_snoc; [done|]. by rewrite Hend.
  - intros x. cbn [w_written w_db write db_entries db_watermark].
    intros [Hx|(e & -> & He)%list_elem_of_fmap]%elem_of_app; [|left; apply elem_of_app; by right].
    destruct (Hw x Hx) as [?|?]; [left; apply elem_of_app; by left|by right].
Qed.

Lemma greatest_le w z : ∃ z', greatest w z = Some z' ∧ (z <= z')%Z ∧ ∀ y, w = Some y → (y <= z')%Z.
Proof. unfold greatest. destruct w as [y|]; eexists; split_and!; [done|lia|intros ? [= <-]; lia|done|lia|done]. Qed.

Lemma fold_greatest l : ∀ w,
  (∀ y, w = Some y → ∃ z, fold_left (λ w e, greatest w (en_transaction_id e)) l w = Some z ∧ (y <= z)%Z) ∧
  ∀ e, e ∈ l → ∃ z, fold_left (λ w e, greatest w (en_transaction_id e)) l w = Some z ∧ (en_transaction_id e <= z)%Z.
Proof.
  induction l as [|e l IH]; intros w; cbn [fold_left].
  { split; [intros y ->; exists y; split; [done|lia]|by intros e ?%elem_of_nil]. }
  destruct (greatest_le w (en_transaction_id e)) as (z' & Ez & Hz & Hy). destruct (IH (greatest w (en_transaction_id e))) as [H1 H2].
  split.
  - intros y Ey. destruct (H1 z' Ez) as (z & E & Hle). exists z. split; [done|]. specialize (Hy y Ey). lia.
  - intros x [->|Hx]%elem_of_cons; [|by apply H2]. destruct (H1 z' Ez) as (z & E & Hle). exists z. split; [done|lia].
Qed.

(** The retention task removes a prefix of the entries of a row. *)
Lemma prune_prefix cutoff entries k : StronglySorted (λ x y, (en_position x < en_position y)%Z) (filter (λ e, en_key e = k) entries) →
  ∃ n, filter (λ e, en_key e = k) (filter (λ e, expired cutoff entries e = false) entries) =
       drop n (filter (λ e, en_key e = k) entries).
Proof.
  intros Hs. destruct (filter_prefix _ (expired cutoff entries) _ Hs) as [n Hn].
  - intros x y [Hx Hin]%list_elem_of_filter [Hy _]%list_elem_of_filter Hlt. unfold expired.
    intros [Hc He]%andb_prop. apply negb_true_iff in He.
    assert (Hb : ∀ z, z ∈ entries → en_key z = k → (en_position z < en_position y)%Z → (en_changed_at z < cutoff)%Z).
    { intros z Hz Ek Hp. pose proof (existsb_false_inv _ _ z He Hz) as Hf. cbv beta in Hf.
      rewrite bool_decide_eq_true_2, (proj2 (Z.ltb_lt _ _) Hp) in Hf by congruence. simpl in Hf. lia. }
    apply andb_true_intro. split; [apply Z.ltb_lt; by apply Hb|]. apply negb_true_iff, existsb_false.
    intros z Hz. case_bool_decide as Ek; [|done]. destruct (en_position z <? en_position x)%Z eqn:Ep; [|done].
    apply Z.ltb_lt in Ep. simpl. apply Z.leb_gt, Hb; [done|congruence|lia].
  - exists n. rewrite <- Hn. rewrite !list_filter_filter. apply list_filter_iff. intros e. tauto.
Qed.

Lemma kept_sorted w k gone kept : StronglySorted position_lt (written_of k w) → written_of k w = gone ++ kept →
  StronglySorted (λ x y, (en_position x < en_position y)%Z) kept.*1.
Proof.
  intros Hs E. rewrite E in Hs. apply StronglySorted_app in Hs as (_ & _ & Hs). clear E.
  induction Hs as [|x l Hs IH Hx]; csimpl; constructor; [done|]. rewrite Forall_fmap. exact Hx.
Qed.

Lemma prune_inv cutoff w : history_inv w → history_inv {| w_db := prune cutoff (w_db w); w_written := w_written w |}.
Proof.
  intros [Ht Hp Hr Hw]. split; [done|exact Hp| |].
  - intros k. destruct (Hr k) as (gone & kept & s & Eg & Ee & Hc & Hend). cbn [w_db prune db_entries db_rows].
    pose proof (kept_sorted w k gone kept (Hp k) Eg) as Hs. rewrite <- Ee in Hs.
    destruct (prune_prefix cutoff _ k Hs) as [n Hn]. destruct (chain_drop s kept n Hc) as (s' & Hc' & Hend').
    exists (gone ++ take n kept), (drop n kept), s'. rewrite <- app_assoc, take_drop.
    split; [done|]. rewrite Hn, Ee, fmap_drop. split; [done|]. split; [done|]. by rewrite Hend'.
  - intros x Hx. cbn [w_db prune db_entries db_watermark].
    set (removed := filter (λ e, expired cutoff (db_entries (w_db w)) e = true) (db_entries (w_db w))).
    destruct (fold_greatest removed (db_watermark (w_db w))) as [H1 H2].
    destruct (Hw x Hx) as [Hin|(z & Ez & Hz)].
    + destruct (expired cutoff (db_entries (w_db w)) x.1) eqn:E.
      * right. apply H2. by apply list_elem_of_filter.
      * left. by apply list_elem_of_filter.
    + right. destruct (H1 z Ez) as (z' & E' & Hle). exists z'. split; [done|lia].
Qed.

Lemma step_inv w w' : history_inv w → step trigger w w' → history_inv w'.
Proof. intros Hi. destruct 1; [by eapply write_inv|by apply prune_inv]. Qed.

Lemma reachable_inv w w' : starts w → rtc (step trigger) w w' → history_inv w'.
Proof. intros Hs%starts_inv. induction 1; [done|]. eauto using step_inv. Qed.
End trigger.

(** ** The fold of a chain *)

Definition kind_of (l : Logged) : Kind :=
  if String.eqb (lg_type l) "insert" then KInsert else if String.eqb (lg_type l) "update" then KUpdate else KDelete.

Definition history_row (current : string) (head : Z) (e : Entry) : HistoryRow :=
  {| hr_position := en_position e; hr_type := lg_type (en_logged e); hr_before := lg_before (en_logged e);
     hr_current := current; hr_head_position := head |}.

Lemma links_row_type s e s' current h : links s (en_logged e) s' →
  row_type (history_row current h e) = Ok (kind_of (en_logged e)).
Proof. unfold row_type, kind_of. cbn [history_row hr_type]. by destruct 1 as [? ? ->|? ? ? ->|? ? ->]. Qed.

Lemma image_text_image text m p : image_text text m → image text p = Ok m.
Proof. unfold image_text, image. by intros ->. Qed.

Lemma links_undo s e s' current h : links s (en_logged e) s' →
  undo (history_row current h e) (kind_of (en_logged e)) s' = Ok s.
Proof.
  unfold undo, kind_of. cbn [history_row hr_before hr_position].
  by destruct 1 as [? ? ->|? ? ? -> E|? ? -> E]; simpl; rewrite ?(image_text_image _ _ _ E).
Qed.

Lemma check_chain current h kept : ∀ s previous, chain s kept →
  StronglySorted (λ x y, (en_position x < en_position y)%Z) kept.*1 →
  (∀ p, previous = Some p → Forall (λ e, (p < en_position e)%Z) kept.*1) →
  check_rows h previous (history_row current h <$> kept.*1) = Ok (kind_of ∘ en_logged <$> kept.*1).
Proof.
  induction kept as [|[e s'] kept IH]; intros s previous Hc Hs Hprev; [done|].
  inversion Hc as [|? ? ? ? Hl Hc']; subst. csimpl in *. inversion Hs as [|? ? Hs' He]; subst.
  cbn [check_rows]. cbn [history_row hr_head_position hr_position]. rewrite Z.eqb_refl. simpl.
  assert (Hp : match previous with Some p => (en_position e <=? p)%Z | None => false end = false).
  { destruct previous as [p|]; [|done]. specialize (Hprev p eq_refl). inversion Hprev; subst. by apply Z.leb_gt. }
  rewrite Hp. erewrite links_row_type by done. simpl.
  erewrite IH; [done..|]. by intros p [= <-].
Qed.

Lemma undo_chain current h position kept : ∀ s, chain s kept →
  undo_rows position (reverse ((λ e, (history_row current h e, kind_of (en_logged e))) <$> kept.*1)) (chain_end s kept) =
  Ok (match last (filter (λ x : Entry * option RowImage, (en_position x.1 <= position)%Z) kept) with
      | Some x => x.2 | None => s end).
Proof.
  induction kept as [|[e s'] kept IH] using rev_ind; intros s; [done|].
  rewrite chain_end_snoc, !fmap_app, reverse_app. intros [Hc Hl]%chain_app. inversion Hl as [|? ? ? ? Hlink _]; subst.
  cbn [fmap list_fmap fst snd reverse rev_append]. cbn [app undo_rows history_row hr_position].
  rewrite filter_app, filter_cons, filter_nil. cbn [fst].
  destruct (decide (en_position e <= position)%Z) as [Hle|Hle].
  - rewrite (proj2 (Z.leb_le _ _) Hle), last_snoc. done.
  - rewrite (proj2 (Z.leb_gt _ _)) by lia. rewrite app_nil_r.
    change {| hr_position := _; hr_type := _; hr_before := _; hr_current := _; hr_head_position := _ |}
      with (history_row current h e).
    rewrite (links_undo _ _ _ current h Hlink). simpl. by apply IH.
Qed.

Lemma row_entries_sorted k entries :
  StronglySorted (λ x y, (en_position x < en_position y)%Z) (filter (λ e, en_key e = k) entries) →
  row_entries k entries = filter (λ e, en_key e = k) entries.
Proof.
  intros Hs. apply stable_sort_id. induction Hs as [|x l Hs IH Hx]; constructor; [done|].
  eapply Forall_impl; [exact Hx|]. intros y Hy. cbv beta in Hy. apply Z.leb_le. lia.
Qed.

Lemma read_rows k db (kept : list (Entry * option RowImage)) : StronglySorted (λ x y, (en_position x < en_position y)%Z) kept.*1 →
  filter (λ e, en_key e = k) (db_entries db) = kept.*1 →
  read k db = history_row (current_text k db) (default 0%Z (en_position <$> last kept.*1)) <$> kept.*1.
Proof. intros Hs E. unfold read. rewrite row_entries_sorted, E by (by rewrite E). done. Qed.

(** The fold starts from the row as it is. *)
Lemma fold_start k db kept s e s' : table_ok (db_rows db) → chain s (kept ++ [(e, s')]) →
  s' = row_image (db_rows db) k →
  match kind_of (en_logged e) with
  | KDelete => Ok None
  | _ => let? current := image (current_text k db) (en_position e) in Ok (Some current)
  end = (Ok s' : result (option RowImage) FoldError).
Proof.
  intros Ht [_ Hc]%chain_app Es. inversion Hc as [|? ? ? ? Hl _]; clear Hc; subst.
  unfold kind_of, current_text, row_image in *. destruct (db_rows db !! k) as [r|] eqn:Er; simpl in Hl |- *.
  - destruct (Ht k r Er) as [Hr _]. rewrite (image_text_image _ _ _ (row_text r Hr)).
    by inversion Hl as [? ? E|? ? ? E|]; subst; rewrite E.
  - by inversion Hl as [| |? ? E]; subst; rewrite E.
Qed.

Lemma head_fmap_comm {A B} (f : A → B) l : head (f <$> l) = f <$> head l.
Proof. by destruct l. Qed.

Lemma zip_same {A B C} (f : A → B) (g : A → C) l : zip (f <$> l) (g <$> l) = (λ x, (f x, g x)) <$> l.
Proof. induction l as [|x l IH]; [done|]. csimpl. by rewrite IH. Qed.

Lemma reads_expected k w : history_inv w → ∀ position, state_at (read k (w_db w)) position = Ok (expected k w position).
Proof.
  intros [Ht Hp Hr _] position. destruct (Hr k) as (gone & kept & s & Eg & Ee & Hc & Hend).
  pose proof (kept_sorted w k gone kept (Hp k) Eg) as Hs. rewrite (read_rows k (w_db w) kept Hs Ee).
  unfold expected. rewrite Ee, Eg. destruct kept as [|x kept0 _] using rev_ind; [done|].
  destruct x as [e s']. set (kept := kept0 ++ [(e, s')]) in *.
  assert (Elast : last kept.*1 = Some e) by (subst kept; rewrite fmap_app; apply last_snoc).
  rewrite Elast. simpl default. set (row := history_row (current_text k (w_db w)) (en_position e)).
  unfold state_at. rewrite head_fmap_comm, fmap_last, Elast.
  destruct (head kept.*1) as [oldest|] eqn:Eo; [|by subst kept; destruct kept0 as [|[]]].
  cbn [fmap option_fmap option_map]. subst row. cbn [history_row hr_head_position hr_position hr_current].
  rewrite (check_chain _ _ kept s None Hc Hs) by done. cbn [result_bind]. rewrite Z.eqb_refl. cbn [negb].
  destruct (position <? en_position oldest)%Z eqn:Epos; [done|].
  rewrite fmap_last, Elast. cbn [fmap option_fmap option_map compose].
  assert (Hs' : chain_end s kept = s') by apply chain_end_snoc.
  pose proof (fold_start k (w_db w) kept0 s e s' Ht Hc (eq_trans (eq_sym Hs') Hend)) as Hstart.
  rewrite Hstart. cbn [result_bind]. rewrite zip_same, <- Hs'.
  rewrite (undo_chain _ _ position kept s Hc). cbn [result_bind]. rewrite filter_app, last_app.
  assert (Hold : oldest ∈ kept.*1 ∧ (en_position oldest <= position)%Z).
  { split; [|by apply Z.ltb_ge]. destruct kept.*1; [done|]. injection Eo as ->. left. }
  destruct (last (filter _ kept)) as [[e1 [m1|]]|] eqn:El; [done..|].
  apply last_None in El. destruct Hold as [([o so] & -> & Hin)%list_elem_of_fmap Hle].
  assert (Hbad : (o, so) ∈ filter (λ x : Entry * option RowImage, (en_position x.1 <= position)%Z) kept)
    by (by apply list_elem_of_filter).
  rewrite El in Hbad. by apply elem_of_nil in Hbad.
Qed.

(** The log trigger of a relation: the shared one, or the one generated for it. *)
Definition row_trigger (generated keyed : bool) (actor operation : option string) : Change → result (list Logged) LogRefusal :=
  if generated then generated_log columns keyed actor operation else log_row_change actor operation keyed.

#[export] Instance row_trigger_log generated keyed actor operation : RowLog (row_trigger generated keyed actor operation).
Proof. destruct generated; apply _. Qed.

End log.

(** ** A purchase order: written, corrected, pruned, deleted *)

Module HistorySample.

Definition to_jsonb (column : string) (value : option string) : string :=
  match value with
  | None => "null"
  | Some t => if String.eqb column "note" then String quote_byte (t +:+ String quote_byte "") else t
  end.
Definition row_key (r : Row) : option string := find_entry "id" (rendered to_jsonb r).
Definition columns : list string := ["id"; "note"; "amount"].
Definition row (note : option string) (amount : string) : Row := [("id", Some "7"); ("note", note); ("amount", Some amount)].

Abbreviation W := (@World (option string)).
Definition trigger := row_trigger to_jsonb row_key columns true true.

(** A write by a bound actor, at the given positions. *)
Definition wrote (c : Change) (positions : list Z) (changed_at transaction_id : Z) (w : W) : W :=
  match trigger (Some "ann") (Some "acme:order/correct@1.0.0") c with
  | Ok logged =>
      let entries := entries_at changed_at transaction_id positions logged in
      {| w_db := write row_key c entries (w_db w);
         w_written := w_written w ++
           ((λ e, (e, row_image to_jsonb (put_change row_key c (db_rows (w_db w))) (en_key e))) <$> entries) |}
  | Err _ => w
  end.

Definition w0 : W := {| w_db := {| db_rows := ∅; db_entries := []; db_watermark := None |}; w_written := [] |}.
Definition first := row (Some "first") "12.3400".
Definition second := row (Some "second") "12.3400".
Definition third := row None "12.34".
Definition w1 := wrote (Inserted first) [1%Z] 100 40 w0.
(** The second write started before the first one. *)
Definition w2 := wrote (Updated first second) [3%Z] 90 39 w1.
Definition w3 := wrote (Updated second third) [4%Z] 120 45 w2.
Definition w4 : W := {| w_db := prune 110 (w_db w3); w_written := w_written w3 |}.
Definition w5 := wrote (Deleted third) [9%Z] 130 50 w4.

Lemma key_of_image r r' : row_ok to_jsonb columns r → row_ok to_jsonb columns r' →
  image_map to_jsonb r = image_map to_jsonb r' → row_key r = row_key r'.
Proof. intros _ _ E. unfold row_key. rewrite <- !find_entry_list_to_map. unfold image_map in E. by rewrite E. Defined.

Lemma wrote_step c positions changed_at transaction_id logged w :
  trigger (Some "ann") (Some "acme:order/correct@1.0.0") c = Ok logged →
  change_ok to_jsonb columns c → change_fits row_key (db_rows (w_db w)) c → length positions = length logged →
  Forall (rises (w_written w)) (entries_at changed_at transaction_id positions logged) →
  step to_jsonb row_key columns trigger w (wrote c positions changed_at transaction_id w).
Proof. intros E Hok Hfit Hlen Hr. unfold wrote. rewrite E. by eapply step_write. Defined.

Lemma row_sample note amount : value_ok (to_jsonb "note" note) → value_ok amount → row_ok to_jsonb columns (row note amount).
Proof. intros Hn Ha. split; [reflexivity|]. repeat constructor; done. Defined.

Lemma samples_ok : row_ok to_jsonb columns first ∧ row_ok to_jsonb columns second ∧ row_ok to_jsonb columns third.
Proof. split; [|split]; apply row_sample; reflexivity. Defined.

Lemma rises_check written (e : @Entry (option string)) :
  Forall (λ x : Entry * option RowImage, en_key x.1 = en_key e → (en_position x.1 < en_position e)%Z) written →
  rises written e.
Proof. rewrite Forall_forall. intros Hw x Hx. by apply Hw. Defined.

(** Closes the checks of one write. *)
Ltac sample_write :=
  lazymatch goal with
  | |- trigger _ _ _ = _ => vm_compute; reflexivity
  | |- change_ok _ _ _ => repeat split; apply samples_ok
  | |- change_fits _ _ _ => vm_compute; repeat split; auto
  | |- length _ = length _ => reflexivity
  | |- Forall _ _ =>
      unfold entries_at; cbn [zip_with]; apply Forall_singleton, rises_check; vm_compute;
      repeat (constructor; [intros _; reflexivity|]); constructor
  end.

Lemma trace : rtc (step to_jsonb row_key columns trigger) w0 w5.
Proof.
  apply rtc_l with w1. { eapply (wrote_step (Inserted first) [1%Z] 100 40 _ w0); sample_write. }
  apply rtc_l with w2. { eapply (wrote_step (Updated first second) [3%Z] 90 39 _ w1); sample_write. }
  apply rtc_l with w3. { eapply (wrote_step (Updated second third) [4%Z] 120 45 _ w2); sample_write. }
  apply rtc_l with w4. { apply step_prune. }
  apply rtc_l with w5. { eapply (wrote_step (Deleted third) [9%Z] 130 50 _ w4); sample_write. }
  apply rtc_refl.
Defined.


(** The shared trigger logs the same change. *)
Lemma shared_trigger_sample :
  option_map (map lg_before) (result_ok (log_row_change to_jsonb row_key (Some "ann") (Some "wamn:provisioning") true (Updated second third))) =
  option_map (map lg_before) (result_ok (generated_log to_jsonb row_key columns true (Some "ann") (Some "wamn:provisioning") (Updated second third))).
Proof. vm_compute. reflexivity. Qed.
End HistorySample.
