(* ===== verification/ComponentFacts.v ===== *)
(** * Component facts

    [crates/catalog/model/src/component_facts.rs] and [signed_file_read.rs]: the
    facts byte admission mints for one component, their normalization and the check
    a reader runs over a stored fact.  The schema compiler is a library, [Boon].  A
    [BTreeMap] that is iterated is the list of its entries in key order; an error
    is its type.  The decoding of stored facts ([Serialize], [Deserialize]) is left
    out, but for the signed-read annotation, which [signed_file_reads] decodes
    itself. *)

From stdpp Require Import base tactics option list gmap strings sorting.
From Stdlib Require Import ZArith Lia.
From S2P Require Import Prelude Text Json Canonical Capabilities Packages.
#[local] Set Warnings "-clear-no-such-hyp".
Open Scope wamn_scope.

(** The JSON Schema compiler and validator. *)
Class Boon := {
  schema_compiles : Value → bool;
  schema_accepts : Value → Value → bool;
}.

(** ** Data *)

Record ComponentPackageScope := {
  sc_env_key : string;
  sc_package_id : string;
  sc_package_version : string;
}.

Definition component_package_scope (env_key id version : string) :
    result ComponentPackageScope CatalogIdentityError :=
  let? coordinate := package_coordinate id version in
  let? _ := validate_text env_key "env_key" in
  Ok {| sc_env_key := env_key; sc_package_id := package_id coordinate;
        sc_package_version := package_version coordinate |}.

Record ComponentPortDeclaration := { pd_name : string; pd_schema : Value }.
Record ComponentParameterDeclaration := { md_name : string; md_schema : Value; md_required : bool }.

Inductive ComponentConnectionType := Http | Blobstore.
#[export] Instance ComponentConnectionType_eq_dec : EqDecision ComponentConnectionType.
Proof. solve_decision. Defined.

Definition CONNECTION_TYPES : list ComponentConnectionType := [Http; Blobstore].

Definition import_package (t : ComponentConnectionType) : string :=
  match t with Http => "wamn:connection" | Blobstore => "wasmcloud:blobstore" end.

Record ComponentConnection := { store_alias : string; requirement_type : ComponentConnectionType }.

Record ComponentOperationDeclaration := {
  od_registered_operation : option string;
  od_committed_result_schema : option Value;
  od_input_ports : list ComponentPortDeclaration;
  od_output_ports : list ComponentPortDeclaration;
  od_parameters : list ComponentParameterDeclaration;
}.

Record ComponentDeclaration := {
  cd_scope : ComponentPackageScope;
  cd_component : string;
  cd_interface_version : string;
  cd_operations : list (string * ComponentOperationDeclaration);
  cd_connections : list ComponentConnection;
}.

Record ComponentSchema := { schema : Value }.
Record AdmittedComponentPort := { port_name : string; port_schema : ComponentSchema }.
Record AdmittedComponentParameter := {
  parameter_name : string;
  parameter_schema : ComponentSchema;
  parameter_required : bool;
}.

Inductive ComponentEffectProvenance := Imported.
Record AdmittedComponentEffect := {
  effect_package : string;
  effect_provenance : ComponentEffectProvenance;
  effect_interfaces : list string;
}.

Inductive ComponentSqlValueType :=
| SqlBoolean | SqlInt32 | SqlInt64 | SqlFloat64 | SqlText | SqlBytes | SqlNumeric
| SqlTimestamptz | SqlJson | SqlUuid.

Record ComponentSqlField := {
  sql_field_name : string;
  sql_value_type : ComponentSqlValueType;
  sql_nullable : bool;
}.

Record ComponentSqlStatement := {
  sql_name : string;
  sql_path : string;
  sql_text : string;
  sql_binds : list ComponentSqlField;
  sql_columns : list ComponentSqlField;
  sql_transactional : bool;
}.

Record AdmittedComponentOperation := {
  ao_registered_operation : option string;
  ao_committed_result_schema : option ComponentSchema;
  ao_host_transaction : bool;
  ao_input_ports : list AdmittedComponentPort;
  ao_output_ports : list AdmittedComponentPort;
  ao_parameters : list AdmittedComponentParameter;
  ao_statements : list (string * ComponentSqlStatement);
}.

(** [AdmittedComponent]; the driver's record of that name is its projection. *)
Record AdmittedFact := {
  af_scope : ComponentPackageScope;
  af_component : string;
  af_interface_version : string;
  af_operations : list (string * AdmittedComponentOperation);
  af_component_digest : string;
  af_imports : list string;
  af_imports_fingerprint : string;
  af_effects : list AdmittedComponentEffect;
}.

Record AdmittedComponentFacts := {
  facts_component : AdmittedFact;
  facts_connections : list ComponentConnection;
  facts_statement_instances : list (string * string);
}.

Record ComponentDescriptor := {
  de_component : string;
  de_interface_version : string;
  de_component_digest : string;
  de_operations : list (string * AdmittedComponentOperation);
  de_imports : list string;
  de_statement_instances : list (string * string);
  de_imports_fingerprint : string;
  de_effects : list AdmittedComponentEffect;
  de_connections : list ComponentConnection;
}.

(** [ComponentDescriptor::new] and [with_statement_instances]. *)
Definition component_descriptor (c : AdmittedFact) (connections : list ComponentConnection) :
    ComponentDescriptor := {|
  de_component := af_component c; de_interface_version := af_interface_version c;
  de_component_digest := af_component_digest c; de_operations := af_operations c;
  de_imports := af_imports c; de_statement_instances := [];
  de_imports_fingerprint := af_imports_fingerprint c; de_effects := af_effects c;
  de_connections := connections |}.

Definition with_statement_instances (d : ComponentDescriptor) (instances : list (string * string)) :
    ComponentDescriptor := {|
  de_component := de_component d; de_interface_version := de_interface_version d;
  de_component_digest := de_component_digest d; de_operations := de_operations d;
  de_imports := de_imports d; de_statement_instances := instances;
  de_imports_fingerprint := de_imports_fingerprint d; de_effects := de_effects d;
  de_connections := de_connections d |}.

Definition into_admitted (d : ComponentDescriptor) (scope : ComponentPackageScope) :
    AdmittedComponentFacts := {|
  facts_component := {|
    af_scope := scope; af_component := de_component d; af_interface_version := de_interface_version d;
    af_operations := de_operations d; af_component_digest := de_component_digest d;
    af_imports := de_imports d; af_imports_fingerprint := de_imports_fingerprint d;
    af_effects := de_effects d |};
  facts_connections := de_connections d;
  facts_statement_instances := de_statement_instances d |}.

Definition text_array (l : list string) : Value := VArray (VString <$> l).
Definition text_object (l : list (string * string)) : Value :=
  VObject (map_from_iter ((λ kv : string * string, (kv.1, VString kv.2)) <$> l)).

Definition imports_fingerprint `{FloatText, Sha256} (imports : list string)
    (statement_instances : list (string * string)) : string :=
  canonical_json_sha256
    match statement_instances with
    | [] => text_array imports
    | _ => VObject (map_from_iter [("imports", text_array imports);
                                   ("statement-instances", text_object statement_instances)])
    end.

Definition bind_statement_instances `{FloatText, Sha256} (facts : AdmittedComponentFacts)
    (instances : list (string * string)) : AdmittedComponentFacts :=
  let c := facts_component facts in {|
  facts_component := {|
    af_scope := af_scope c; af_component := af_component c;
    af_interface_version := af_interface_version c; af_operations := af_operations c;
    af_component_digest := af_component_digest c; af_imports := af_imports c;
    af_imports_fingerprint := imports_fingerprint (af_imports c) instances;
    af_effects := af_effects c |};
  facts_connections := facts_connections facts;
  facts_statement_instances := instances |}.

Inductive ComponentFactErrorType :=
| FactEmptyIdentity | EmptyOperationSet | FactNonCanonicalIdentity | RegisteredOperationMismatch
| InvalidComponentDigest | OperationDependencyMismatch | DuplicateInputPort | DuplicateOutputPort
| DuplicateParameter | InvalidSchema | RemoteSchemaReference | UnimportedEffect | UnprojectedEffect
| DuplicateConnection | UnimportedConnection | UndeclaredConnection
| UnexpectedOperationStatements | InvalidStatementFact | DuplicateStatementField.

(** ** Checks *)

Definition validate_identity (value : string) : result unit ComponentFactErrorType :=
  if String.eqb value "" then Err FactEmptyIdentity
  else if negb (is_trimmed value) || contains_nul value then Err FactNonCanonicalIdentity
  else Ok tt.

(** A refusal of another error type. *)
Definition map_err {A E F} (r : result A E) (f : F) : result A F :=
  match r with Ok a => Ok a | Err _ => Err f end.

Definition JSON_SCHEMA_2020_12 : string := "https://json-schema.org/draft/2020-12/schema".

Fixpoint has_remote_ref (value : Value) : bool :=
  match value with
  | VArray values => existsb has_remote_ref values
  | VObject values =>
      existsb (λ kv : string * Value,
        (String.eqb kv.1 "$ref" &&
         match kv.2 with VString reference => negb (starts_with reference "#") | _ => true end) ||
        has_remote_ref kv.2) values
  | _ => false
  end.

Definition normalize_schema `{Boon} (s : Value) : result ComponentSchema ComponentFactErrorType :=
  if match get "$schema" s with
     | Some declared => negb (bool_decide (as_str declared = Some JSON_SCHEMA_2020_12))
     | None => false
     end
  then Err InvalidSchema
  else if has_remote_ref s then Err RemoteSchemaReference
  else if negb (schema_compiles s) then Err InvalidSchema
  else Ok {| schema := s |}.

Definition validate_committed_result_schema `{Boon} (registered_operation : option string)
    (s : option ComponentSchema) : result unit ComponentFactErrorType :=
  match s with
  | None => Ok tt
  | Some s =>
      match registered_operation with
      | None => Err RegisteredOperationMismatch
      | Some _ => let? _ := normalize_schema (schema s) in Ok tt
      end
  end.

Definition validate_registered_operation_scope (scope : ComponentPackageScope) (export : string)
    (operation : option string) : result unit ComponentFactErrorType :=
  match operation with
  | None => Ok tt
  | Some operation =>
      let? _ := map_err (validate_canonical_operation_for_package operation
                           (sc_package_id scope) (sc_package_version scope)) FactNonCanonicalIdentity in
      if negb (String.eqb operation export) then Err RegisteredOperationMismatch else Ok tt
  end.

Definition is_application_operation_import (name : string) : bool := negb (is_registered_package name).

Definition refuse_application_operation_imports (imports : list string) :
    result unit ComponentFactErrorType :=
  match filter (λ name, is_application_operation_import name = true) imports with
  | [] => Ok tt
  | _ => Err OperationDependencyMismatch
  end.

(** ** Normalization *)

(** [Vec::dedup_by]: an element equal to the last kept one is dropped. *)
Fixpoint dedup_from {A} (same : A → A → bool) (x : A) (l : list A) : list A :=
  match l with
  | [] => [x]
  | y :: l => if same x y then dedup_from same x l else x :: dedup_from same y l
  end.
Definition dedup_by {A} (same : A → A → bool) (l : list A) : list A :=
  match l with [] => [] | x :: l => dedup_from same x l end.

Definition sorted_texts (l : list string) : list string :=
  dedup_by String.eqb (stable_sort String.leb l).

(** The loop of [normalize_effects]. *)
Fixpoint imported_effects (imports : list string) (effects : list AdmittedComponentEffect) :
    result (list AdmittedComponentEffect) ComponentFactErrorType :=
  match effects with
  | [] => Ok []
  | effect :: effects =>
      let? _ := validate_identity (effect_package effect) in
      let interfaces := sorted_texts (effect_interfaces effect) in
      if existsb (λ interface, negb (bool_decide (interface ∈ imports))) interfaces
      then Err UnimportedEffect
      else
        let? normalized := imported_effects imports effects in
        Ok ({| effect_package := effect_package effect; effect_provenance := effect_provenance effect;
               effect_interfaces := interfaces |} :: normalized)
  end.

Definition effect_leb (l r : AdmittedComponentEffect) : bool :=
  String.leb (effect_package l) (effect_package r).
Definition effect_same (l r : AdmittedComponentEffect) : bool :=
  String.eqb (effect_package l) (effect_package r).

(** Whether an effect names this import under its package. *)
Definition projects (import : string) (effect : AdmittedComponentEffect) : bool :=
  String.eqb (effect_package effect) (import_pkg import) &&
  bool_decide (import ∈ effect_interfaces effect).

Definition normalize_effects `{WasiCeiling} (effects : list AdmittedComponentEffect)
    (imports : list string) : result (list AdmittedComponentEffect) ComponentFactErrorType :=
  let? normalized := imported_effects imports effects in
  let normalized := dedup_by effect_same (stable_sort effect_leb normalized) in
  if existsb (λ import, bool_decide (import_posture import = Some Effect) &&
                        negb (existsb (projects import) normalized)) imports
  then Err UnprojectedEffect else Ok normalized.

(** The loop of [normalize_connections]. *)
Fixpoint bound_connections (effects : list AdmittedComponentEffect) (seen : list string)
    (declarations : list ComponentConnection) :
    result (list ComponentConnection) ComponentFactErrorType :=
  match declarations with
  | [] => Ok []
  | d :: declarations =>
      let? _ := validate_identity (store_alias d) in
      if bool_decide (store_alias d ∈ seen) then Err DuplicateConnection
      else if negb (existsb (λ e, String.eqb (effect_package e) (import_package (requirement_type d))) effects)
      then Err UnimportedConnection
      else
        let? connections := bound_connections effects (store_alias d :: seen) declarations in
        Ok (d :: connections)
  end.

Definition connection_leb (l r : ComponentConnection) : bool :=
  String.leb (store_alias l) (store_alias r).

Definition normalize_connections (declarations : list ComponentConnection)
    (effects : list AdmittedComponentEffect) :
    result (list ComponentConnection) ComponentFactErrorType :=
  let? connections := bound_connections effects [] declarations in
  let connections := stable_sort connection_leb connections in
  if existsb (λ t, existsb (λ e, String.eqb (effect_package e) (import_package t)) effects &&
                   negb (existsb (λ c, bool_decide (requirement_type c = t)) connections))
       CONNECTION_TYPES
  then Err UndeclaredConnection else Ok connections.

(** The loops of [normalize_ports] and [normalize_parameters]. *)
Fixpoint distinct_ports `{Boon} (duplicate : ComponentFactErrorType) (seen : list string)
    (declarations : list ComponentPortDeclaration) :
    result (list AdmittedComponentPort) ComponentFactErrorType :=
  match declarations with
  | [] => Ok []
  | d :: declarations =>
      let? _ := validate_identity (pd_name d) in
      if bool_decide (pd_name d ∈ seen) then Err duplicate
      else
        let? s := normalize_schema (pd_schema d) in
        let? ports := distinct_ports duplicate (pd_name d :: seen) declarations in
        Ok ({| port_name := pd_name d; port_schema := s |} :: ports)
  end.

Definition port_leb (l r : AdmittedComponentPort) : bool := String.leb (port_name l) (port_name r).

Definition normalize_ports `{Boon} (declarations : list ComponentPortDeclaration)
    (duplicate : ComponentFactErrorType) : result (list AdmittedComponentPort) ComponentFactErrorType :=
  let? ports := distinct_ports duplicate [] declarations in
  Ok (stable_sort port_leb ports).

Fixpoint distinct_parameters `{Boon} (seen : list string)
    (declarations : list ComponentParameterDeclaration) :
    result (list AdmittedComponentParameter) ComponentFactErrorType :=
  match declarations with
  | [] => Ok []
  | d :: declarations =>
      let? _ := validate_identity (md_name d) in
      if bool_decide (md_name d ∈ seen) then Err DuplicateParameter
      else
        let? s := normalize_schema (md_schema d) in
        let? parameters := distinct_parameters (md_name d :: seen) declarations in
        Ok ({| parameter_name := md_name d; parameter_schema := s;
               parameter_required := md_required d |} :: parameters)
  end.

Definition parameter_leb (l r : AdmittedComponentParameter) : bool :=
  String.leb (parameter_name l) (parameter_name r).

Definition normalize_parameters `{Boon} (declarations : list ComponentParameterDeclaration) :
    result (list AdmittedComponentParameter) ComponentFactErrorType :=
  let? parameters := distinct_parameters [] declarations in
  Ok (stable_sort parameter_leb parameters).

(** One turn of the operation loop of [normalize_component_fact]. *)
Definition normalize_operation `{Boon} (scope : ComponentPackageScope) (export : string)
    (o : ComponentOperationDeclaration) : result AdmittedComponentOperation ComponentFactErrorType :=
  let? _ := validate_identity export in
  let? _ := validate_registered_operation_scope scope export (od_registered_operation o) in
  let? committed :=
    match od_committed_result_schema o with
    | None => Ok None
    | Some s => let? s := normalize_schema s in Ok (Some s)
    end in
  let? _ := validate_committed_result_schema (od_registered_operation o) committed in
  let? input_ports := normalize_ports (od_input_ports o) DuplicateInputPort in
  let? output_ports := normalize_ports (od_output_ports o) DuplicateOutputPort in
  let? parameters := normalize_parameters (od_parameters o) in
  Ok {| ao_registered_operation := od_registered_operation o; ao_committed_result_schema := committed;
        ao_host_transaction := false; ao_input_ports := input_ports; ao_output_ports := output_ports;
        ao_parameters := parameters; ao_statements := [] |}.

Fixpoint normalize_operations `{Boon} (scope : ComponentPackageScope)
    (operations : list (string * ComponentOperationDeclaration)) :
    result (list (string * AdmittedComponentOperation)) ComponentFactErrorType :=
  match operations with
  | [] => Ok []
  | (export, o) :: operations =>
      let? operation := normalize_operation scope export o in
      let? rest := normalize_operations scope operations in
      Ok ((export, operation) :: rest)
  end.

Definition normalize_component_fact `{Boon, WasiCeiling, FloatText, Sha256}
    (d : ComponentDeclaration) (component_digest : string) (imports : list string)
    (effects : list AdmittedComponentEffect) : result AdmittedComponentFacts ComponentFactErrorType :=
  let scope := cd_scope d in
  let? _ := map_err (component_package_scope (sc_env_key scope) (sc_package_id scope)
                       (sc_package_version scope)) FactNonCanonicalIdentity in
  let? _ := validate_identity (cd_component d) in
  let? _ := validate_identity (cd_interface_version d) in
  match cd_operations d with
  | [] => Err EmptyOperationSet
  | _ =>
      if negb (valid_digest component_digest) then Err InvalidComponentDigest
      else
        let? operations := normalize_operations scope (cd_operations d) in
        let imports := sorted_texts imports in
        let fingerprint := imports_fingerprint imports [] in
        let? _ := refuse_application_operation_imports imports in
        let? effects := normalize_effects effects imports in
        let? connections := normalize_connections (cd_connections d) effects in
        Ok {| facts_component := {|
                af_scope := scope; af_component := cd_component d;
                af_interface_version := cd_interface_version d; af_operations := operations;
                af_component_digest := component_digest; af_imports := imports;
                af_imports_fingerprint := fingerprint; af_effects := effects |};
              facts_connections := connections; facts_statement_instances := [] |}
  end.

(** ** Statements *)

(** [std::path::Path::components] of a Unix path: separators and [.] inside the path
    fall away. *)
Inductive PathComponent := RootDir | CurDir | ParentDir | Normal (part : string).

Definition path_component (segment : string) : option PathComponent :=
  if String.eqb segment "" || String.eqb segment "." then None
  else if String.eqb segment ".." then Some ParentDir else Some (Normal segment).

Definition path_components (path : string) : list PathComponent :=
  let segments := split_char slash path in
  (if starts_with path "/" then [RootDir]
   else match segments with "." :: _ => [CurDir] | _ => [] end) ++
  omap path_component segments.

Definition normal_part (c : PathComponent) : option string :=
  match c with Normal part => Some part | _ => None end.

(** [Path::extension]: what follows the last dot of the file name, unless the dot
    opens it. *)
Definition path_extension (path : string) : option string :=
  name ← last (path_components path) ≫= normal_part;
  match rsplit_once dot name with
  | Some (before, after) => if String.eqb before "" then None else Some after
  | None => None
  end.

Definition is_safe_statement_path (path : string) : bool :=
  let components := path_components path in
  negb (String.eqb path "") &&
  bool_decide (path_extension path = Some "sql") &&
  negb (has_char backslash path) &&
  forallb (λ c, bool_decide (is_Some (normal_part c))) components &&
  String.eqb (join_char slash (omap normal_part components)) path.

Fixpoint validate_statement_fields (names : list string) (fields : list ComponentSqlField) :
    result unit ComponentFactErrorType :=
  match fields with
  | [] => Ok tt
  | field :: fields =>
      let? _ := validate_identity (sql_field_name field) in
      if bool_decide (sql_field_name field ∈ names) then Err DuplicateStatementField
      else validate_statement_fields (sql_field_name field :: names) fields
  end.

Fixpoint statement_facts (names paths : list string) (statements : list (string * ComponentSqlStatement)) :
    result unit ComponentFactErrorType :=
  match statements with
  | [] => Ok tt
  | (path, s) :: statements =>
      if negb (String.eqb path (sql_path s)) then Err InvalidStatementFact
      else
        let? _ := validate_identity (sql_name s) in
        if negb (is_safe_statement_path (sql_path s)) then Err InvalidStatementFact
        else if bool_decide (sql_name s ∈ names) || bool_decide (sql_path s ∈ paths)
        then Err InvalidStatementFact
        else
          let? _ := validate_statement_fields [] (sql_binds s) in
          let? _ := validate_statement_fields [] (sql_columns s) in
          statement_facts (sql_name s :: names) (sql_path s :: paths) statements
  end.

Definition validate_operation_statement_facts (statements : list (string * ComponentSqlStatement)) :
    result unit ComponentFactErrorType := statement_facts [] [] statements.

Definition with_statements (host_transaction : bool) (statements : list (string * ComponentSqlStatement))
    (o : AdmittedComponentOperation) : AdmittedComponentOperation := {|
  ao_registered_operation := ao_registered_operation o;
  ao_committed_result_schema := ao_committed_result_schema o;
  ao_host_transaction := host_transaction; ao_input_ports := ao_input_ports o;
  ao_output_ports := ao_output_ports o; ao_parameters := ao_parameters o; ao_statements := statements |}.

(** [get_mut] of one export. *)
Definition update_operation (export : string) (f : AdmittedComponentOperation → AdmittedComponentOperation)
    (operations : list (string * AdmittedComponentOperation)) :
    run (list (string * AdmittedComponentOperation)) :=
  if bool_decide (export ∈ operations.*1) then
    Ret ((λ eo : string * AdmittedComponentOperation,
            if String.eqb eo.1 export then (eo.1, f eo.2) else eo) <$> operations)
  else Panic "the exact operation-set comparison confirmed this export exists".

Fixpoint check_statement_sets (statements : list (string * list (string * ComponentSqlStatement))) :
    result unit ComponentFactErrorType :=
  match statements with
  | [] => Ok tt
  | (_, s) :: statements =>
      let? _ := validate_operation_statement_facts s in check_statement_sets statements
  end.

Fixpoint attach_statements (host_transactions : list string)
    (statements : list (string * list (string * ComponentSqlStatement)))
    (operations : list (string * AdmittedComponentOperation)) :
    run (list (string * AdmittedComponentOperation)) :=
  match statements with
  | [] => Ret operations
  | (export, s) :: statements =>
      let! operations :=
        update_operation export (with_statements (bool_decide (export ∈ host_transactions)) s) operations in
      attach_statements host_transactions statements operations
  end.

Definition with_operations (c : AdmittedFact) (operations : list (string * AdmittedComponentOperation)) :
    AdmittedFact := {|
  af_scope := af_scope c; af_component := af_component c;
  af_interface_version := af_interface_version c; af_operations := operations;
  af_component_digest := af_component_digest c; af_imports := af_imports c;
  af_imports_fingerprint := af_imports_fingerprint c; af_effects := af_effects c |}.

(** The component after the call. *)
Definition bind_component_statement_facts (c : AdmittedFact)
    (statements : list (string * list (string * ComponentSqlStatement))) (host_transactions : list string) :
    run (result AdmittedFact ComponentFactErrorType) :=
  let registered := omap (λ eo : string * AdmittedComponentOperation,
    (λ _, eo.1) <$> ao_registered_operation eo.2) (af_operations c) in
  let exported := (af_operations c).*1 in
  let supplied := statements.*1 in
  if negb (bool_decide (registered ⊆ supplied)) || negb (bool_decide (supplied ⊆ exported))
     || negb (bool_decide (host_transactions ⊆ supplied))
  then Ret (Err UnexpectedOperationStatements)
  else
    match check_statement_sets statements with
    | Err t => Ret (Err t)
    | Ok _ =>
        let! operations := attach_statements host_transactions statements (af_operations c) in
        Ret (Ok (with_operations c operations))
    end.

(** ** Signed file reads *)

Definition SIGNED_FILE_READS : string := "x-wamn-signed-reads".
Definition MAX_SIGNED_FILE_SECONDS : Z := 900.

Record SignedFileRead := { lifetime : option Z }.
Inductive SignedFileResultClass := One | OptionalOne | BoundedList | Page.
Record SignedFileField := { sf_path : string; sf_nullable : bool; sf_read : SignedFileRead }.
Record SignedFileReads := { sr_class : SignedFileResultClass; sr_fields : list SignedFileField }.

Definition lifetime_seconds (r : SignedFileRead) : option Z :=
  let seconds := default MAX_SIGNED_FILE_SECONDS (lifetime r) in
  if (seconds =? 0)%Z || (MAX_SIGNED_FILE_SECONDS <? seconds)%Z then None else Some seconds.

(** A derived [Deserialize] with [deny_unknown_fields]: the fields of an object, none
    of another name, or the elements of an array in the order of the fields.  A field
    may be absent when it has a default. *)
Definition struct_fields (fields : list (string * bool)) (v : Value) : option (list (option Value)) :=
  match v with
  | VObject m =>
      if forallb (λ k, bool_decide (k ∈ fields.*1)) m.*1 &&
         forallb (λ f : string * bool, f.2 || bool_decide (is_Some (map_get f.1 m))) fields
      then Some ((λ f : string * bool, map_get f.1 m) <$> fields) else None
  | VArray l =>
      if (length l <=? length fields)%nat && forallb snd (drop (length l) fields)
      then Some ((Some <$> l) ++ ((λ _, None) <$> drop (length l) fields)) else None
  | _ => None
  end.

(** A unit variant: its name, or an object that maps the name to null. *)
Definition unit_variant (v : Value) : option string :=
  match v with
  | VString name => Some name
  | VObject [(name, VNull)] => Some name
  | _ => None
  end.

Definition decode_class (v : Value) : option SignedFileResultClass :=
  name ← unit_variant v;
  if String.eqb name "one" then Some One
  else if String.eqb name "optional_one" then Some OptionalOne
  else if String.eqb name "bounded_list" then Some BoundedList
  else if String.eqb name "page" then Some Page else None.

Definition decode_read (v : Value) : option SignedFileRead :=
  match struct_fields [("lifetime_seconds", true)] v with
  | Some [None] | Some [Some VNull] => Some {| lifetime := None |}
  | Some [Some n] => (λ n, {| lifetime := Some n |}) <$> as_u64 n
  | _ => None
  end.

Definition decode_field (v : Value) : option SignedFileField :=
  match struct_fields [("path", false); ("nullable", false); ("read", false)] v with
  | Some [Some (VString path); Some (VBool nullable); Some read] =>
      (λ read, {| sf_path := path; sf_nullable := nullable; sf_read := read |}) <$> decode_read read
  | _ => None
  end.

Definition decode_reads (v : Value) : option SignedFileReads :=
  match struct_fields [("class", false); ("fields", false)] v with
  | Some [Some class; Some (VArray fields)] =>
      class ← decode_class class; fields ← mapM decode_field fields;
      Some {| sr_class := class; sr_fields := fields |}
  | _ => None
  end.

Definition valid_path (path : string) : bool :=
  negb (String.eqb path "") &&
  forallb (λ segment,
    let name := default segment (strip_suffix "[]" segment) in
    match name with
    | EmptyString => false
    | String b rest =>
        (Ascii.eqb b underscore || is_ascii_lowercase b) &&
        all_bytes (λ b, Ascii.eqb b underscore || is_ascii_lowercase b || is_ascii_digit b) rest
    end) (split_char dot path).

Fixpoint signed_fields_ok (paths : list string) (fields : list SignedFileField) : bool :=
  match fields with
  | [] => true
  | f :: fields =>
      bool_decide (is_Some (lifetime_seconds (sf_read f))) &&
      negb (bool_decide (sf_path f ∈ paths)) && valid_path (sf_path f) &&
      signed_fields_ok (sf_path f :: paths) fields
  end.

(** [Err tt] is a [SignedFileReadError]. *)
Fixpoint select_reads (registered : bool) (selected : option SignedFileReads)
    (ports : list AdmittedComponentPort) : result (option SignedFileReads) unit :=
  match ports with
  | [] => Ok selected
  | port :: ports =>
      match get SIGNED_FILE_READS (schema (port_schema port)) with
      | None => select_reads registered selected ports
      | Some value =>
          if negb (String.eqb (port_name port) "main") || bool_decide (is_Some selected) || negb registered
          then Err tt
          else
            match decode_reads value with
            | None => Err tt
            | Some reads =>
                if bool_decide (sr_fields reads = []) then Err tt
                else if negb (signed_fields_ok [] (sr_fields reads)) then Err tt
                else select_reads registered (Some reads) ports
            end
      end
  end.

Definition signed_file_reads (o : AdmittedComponentOperation) : result (option SignedFileReads) unit :=
  select_reads (bool_decide (is_Some (ao_registered_operation o))) None (ao_output_ports o).

(** ** The stored fact *)

Definition verify_operation `{Boon} (scope : ComponentPackageScope)
    (eo : string * AdmittedComponentOperation) : result unit ComponentFactErrorType :=
  let '(export, o) := eo in
  let? _ := validate_identity export in
  let? _ := validate_registered_operation_scope scope export (ao_registered_operation o) in
  let? _ := validate_committed_result_schema (ao_registered_operation o) (ao_committed_result_schema o) in
  let? _ := map_err (signed_file_reads o) InvalidSchema in
  validate_operation_statement_facts (ao_statements o).

Fixpoint verify_operations `{Boon} (scope : ComponentPackageScope)
    (operations : list (string * AdmittedComponentOperation)) : result unit ComponentFactErrorType :=
  match operations with
  | [] => Ok tt
  | eo :: operations => let? _ := verify_operation scope eo in verify_operations scope operations
  end.

Definition verify_stored_effect_projection `{Boon, WasiCeiling} (c : AdmittedFact) :
    result unit ComponentFactErrorType :=
  let scope := af_scope c in
  let? _ := map_err (component_package_scope (sc_env_key scope) (sc_package_id scope)
                       (sc_package_version scope)) FactNonCanonicalIdentity in
  match af_operations c with
  | [] => Err EmptyOperationSet
  | _ =>
      let? _ := verify_operations scope (af_operations c) in
      let? _ := refuse_application_operation_imports (af_imports c) in
      let? _ := normalize_effects (af_effects c) (af_imports c) in
      Ok tt
  end.

(** ** Sorting and deduplication are settled by one pass *)

Section Dedup.
Context {A : Type} (same : A → A → bool) (leb : A → A → bool).

Lemma dedup_from_sub x l : sublist (dedup_from same x l) (x :: l).
Proof.
  revert x. induction l as [|y l IH]; intros x; simpl; [done|].
  destruct (same x y); [|by constructor].
  etrans; [apply IH|]. by do 2 constructor.
Qed.

Lemma dedup_by_sub l : sublist (dedup_by same l) l.
Proof. destruct l; [done|apply dedup_from_sub]. Qed.

Lemma dedup_from_head x l : ∃ l', dedup_from same x l = x :: l'.
Proof. revert x. induction l as [|y l IH]; intros x; simpl; [eauto|]. destruct (same x y); eauto. Qed.

Lemma dedup_from_idem x l : dedup_by same (dedup_from same x l) = dedup_from same x l.
Proof.
  revert x. induction l as [|y l IH]; intros x; simpl; [done|].
  destruct (same x y) eqn:E; [done|]. destruct (dedup_from_head y l) as [l' El].
  simpl. rewrite El. simpl. rewrite E. f_equal. specialize (IH y). by rewrite El in IH.
Qed.

Lemma dedup_by_idem l : dedup_by same (dedup_by same l) = dedup_by same l.
Proof. destruct l; [done|apply dedup_from_idem]. Qed.

Lemma StronglySorted_sublist {R : A → A → Prop} l k :
  sublist l k → StronglySorted R k → StronglySorted R l.
Proof.
  induction 1 as [|x l k Hs IH|x l k Hs IH]; intros Hk; [constructor| |].
  - inversion Hk as [|? ? Hk' Hx]; subst. constructor; [by apply IH|].
    rewrite Forall_forall in Hx |- *. intros y Hy. apply Hx. by eapply elem_of_sublist.
  - inversion Hk; subst. by apply IH.
Qed.

Context (leb_total : ∀ x y, leb x y = true ∨ leb y x = true).
Context (leb_trans : ∀ x y z, leb x y = true → leb y z = true → leb x z = true).

(** Sorting and deduplicating again changes nothing. *)
Lemma sort_dedup_idem l :
  dedup_by same (stable_sort leb (dedup_by same (stable_sort leb l))) = dedup_by same (stable_sort leb l).
Proof.
  rewrite (stable_sort_id leb (dedup_by _ _)); [apply dedup_by_idem|].
  eapply StronglySorted_sublist; [apply dedup_by_sub|]. by apply stable_sort_sorted.
Qed.

(** When equal elements are equal keys, every key stays. *)
Lemma dedup_from_covers x l y : y ∈ x :: l → ∃ z, z ∈ dedup_from same x l ∧ (z = y ∨ same z y = true).
Proof.
  revert x. induction l as [|a l IH]; intros x; simpl.
  { intros ->%list_elem_of_singleton. exists x. split; [left|by left]. }
  destruct (same x a) eqn:E.
  - intros [->|[->|Hy]%elem_of_cons]%elem_of_cons.
    + destruct (dedup_from_head x l) as [l' ->]. exists x. split; [left|by left].
    + destruct (dedup_from_head x l) as [l' ->]. exists x. split; [left|by right].
    + apply IH. by right.
  - intros [->|Hy]%elem_of_cons; [exists x; split; [left|by left]|].
    destruct (IH a Hy) as (z & ? & ?). exists z. split; [by right|done].
Qed.

End Dedup.

Lemma sorted_texts_idem l : sorted_texts (sorted_texts l) = sorted_texts l.
Proof. apply sort_dedup_idem; [apply String.leb_total|apply string_leb_trans]. Qed.

Lemma elem_of_sorted_texts x l : x ∈ sorted_texts l ↔ x ∈ l.
Proof.
  unfold sorted_texts. rewrite <- (elem_of_stable_sort String.leb x l). split.
  - intros Hx. by eapply elem_of_sublist; [|apply dedup_by_sub].
  - destruct (stable_sort String.leb l) as [|y k]; [done|]. intros Hx.
    destruct (dedup_from_covers String.eqb y k x Hx) as (z & Hz & [-> | ->%String.eqb_eq]); done.
Qed.

(** ** Effects *)

(** An effect as the loop leaves it. *)
Record effect_ok (imports : list string) (e : AdmittedComponentEffect) : Prop := {
  eo_package : validate_identity (effect_package e) = Ok tt;
  eo_sorted : sorted_texts (effect_interfaces e) = effect_interfaces e;
  eo_imported : ∀ i, i ∈ effect_interfaces e → i ∈ imports;
}.

Lemma imported_effects_ok imports effects n :
  imported_effects imports effects = Ok n → Forall (effect_ok imports) n.
Proof.
  revert n. induction effects as [|e effects IH]; intros n; simpl; [by intros [= <-]|].
  destruct (validate_identity _) as [[]|] eqn:Ei; [simpl|done].
  destruct (existsb _ (sorted_texts _)) eqn:Ex; [done|].
  destruct (imported_effects imports effects) as [n'|]; [simpl|done]. intros [= <-].
  constructor; [|by apply IH]. constructor; simpl; [done|apply sorted_texts_idem|].
  intros i Hi. pose proof (existsb_false_inv _ _ _ Ex Hi) as E.
  by apply negb_false_iff, bool_decide_eq_true in E.
Qed.

Lemma imported_effects_settled imports n :
  Forall (effect_ok imports) n → imported_effects imports n = Ok n.
Proof.
  induction 1 as [|[p v is_] n [Hp Hs Hi] _ IH]; simpl in *; [done|].
  rewrite Hp. simpl. rewrite Hs, existsb_false, IH; [done|].
  intros i Hin. by apply negb_false_iff, bool_decide_eq_true, Hi.
Qed.

Lemma effect_leb_total x y : effect_leb x y = true ∨ effect_leb y x = true.
Proof. apply String.leb_total. Qed.
Lemma effect_leb_trans x y z : effect_leb x y = true → effect_leb y z = true → effect_leb x z = true.
Proof. apply string_leb_trans. Qed.

Lemma Forall_sort_dedup {A} (P : A → Prop) same leb l :
  Forall P l → Forall P (dedup_by same (stable_sort leb l)).
Proof.
  rewrite !Forall_forall. intros Hl x Hx. apply Hl.
  apply (elem_of_stable_sort leb). by eapply elem_of_sublist; [|apply dedup_by_sub].
Qed.

(** A normalized projection is settled, and it accounts for every effectful import. *)
Lemma normalize_effects_inv `{WasiCeiling} effects imports n :
  normalize_effects effects imports = Ok n →
  Forall (effect_ok imports) n ∧ normalize_effects n imports = Ok n ∧
  (∀ i, i ∈ imports → import_posture i = Some Effect → ∃ e, e ∈ n ∧ projects i e = true).
Proof.
  unfold normalize_effects. destruct (imported_effects imports effects) as [m|] eqn:Em; [simpl|done].
  apply imported_effects_ok in Em. set (k := dedup_by _ _).
  destruct (existsb _ imports) eqn:Ex; [done|]. intros [= <-].
  assert (Hk : Forall (effect_ok imports) k) by by apply Forall_sort_dedup.
  split; [done|]. split.
  - rewrite imported_effects_settled by done. simpl.
    assert (dedup_by effect_same (stable_sort effect_leb k) = k) as ->; [|by rewrite Ex].
    apply sort_dedup_idem; eauto using effect_leb_total, effect_leb_trans.
  - intros i Hi Hp. pose proof (existsb_false_inv _ _ _ Ex Hi) as E. simpl in E.
    rewrite bool_decide_true in E by done. apply negb_false_iff, existsb_exists in E as (e & He & ?).
    exists e. by rewrite list_elem_of_In.
Qed.

(** ** Ports, parameters and connections *)

(** Names in strict order. *)
Definition names_sorted {A} (name : A → string) (l : list A) : Prop :=
  NoDup (name <$> l) ∧ StronglySorted (λ x y, String.leb (name x) (name y) = true) l.

Lemma names_sorted_sort {A} (name : A → string) l :
  NoDup (name <$> l) → names_sorted name (stable_sort (λ x y, String.leb (name x) (name y)) l).
Proof.
  intros Hl. split.
  - by rewrite (stable_sort_perm _ l).
  - apply stable_sort_sorted; intros; [apply String.leb_total|by eapply string_leb_trans].
Qed.

(** A schema the compiler accepts, with document-local references only. *)
Definition schema_ok `{Boon} (s : ComponentSchema) : Prop := normalize_schema (schema s) = Ok s.

Lemma normalize_schema_ok `{Boon} v s : normalize_schema v = Ok s → schema s = v ∧ schema_ok s.
Proof.
  unfold schema_ok. intros E. assert (schema s = v) as <-; [|done].
  unfold normalize_schema in E. repeat case_hyp E; by simplify_eq.
Qed.

Lemma distinct_ports_inv `{Boon} dup seen ds ports :
  distinct_ports dup seen ds = Ok ports →
  NoDup (port_name <$> ports) ∧ (∀ n, n ∈ port_name <$> ports → n ∉ seen) ∧
  Forall (λ p, schema_ok (port_schema p)) ports ∧ port_name <$> ports = pd_name <$> ds.
Proof.
  revert seen ports. induction ds as [|d ds IH]; intros seen ports; simpl.
  { intros [= <-]. repeat split; [constructor|set_solver|done]. }
  destruct (validate_identity _) as [[]|]; [simpl|done]. case_bool_decide as Hs; [done|].
  destruct (normalize_schema _) as [s|] eqn:En; [simpl|done].
  destruct (distinct_ports _ _ ds) as [ps|] eqn:Ed; [simpl|done]. intros [= <-]. simpl.
  destruct (IH _ _ Ed) as (Hnd & Hseen & Hsch & Hn). apply normalize_schema_ok in En as [_ En].
  split; [constructor; [|done]; intros Hin; apply Hseen in Hin; set_solver|].
  split; [|split; [by constructor|exact (f_equal (cons (pd_name d)) Hn)]].
  intros n [->|Hin]%elem_of_cons; [done|]. apply Hseen in Hin. set_solver.
Qed.

Lemma distinct_parameters_inv `{Boon} seen ds ps :
  distinct_parameters seen ds = Ok ps →
  NoDup (parameter_name <$> ps) ∧ (∀ n, n ∈ parameter_name <$> ps → n ∉ seen) ∧
  Forall (λ p, schema_ok (parameter_schema p)) ps.
Proof.
  revert seen ps. induction ds as [|d ds IH]; intros seen ports; simpl.
  { intros [= <-]. repeat split; [constructor|set_solver|done]. }
  destruct (validate_identity _) as [[]|]; [simpl|done]. case_bool_decide as Hs; [done|].
  destruct (normalize_schema _) as [s|] eqn:En; [simpl|done].
  destruct (distinct_parameters _ ds) as [ps|] eqn:Ed; [simpl|done]. intros [= <-]. simpl.
  destruct (IH _ _ Ed) as (Hnd & Hseen & Hsch). apply normalize_schema_ok in En as [_ En].
  split; [constructor; [|done]; intros Hin; apply Hseen in Hin; set_solver|].
  split; [|by constructor].
  intros n [->|Hin]%elem_of_cons; [done|]. apply Hseen in Hin. set_solver.
Qed.

(** An operation as admission leaves it. *)
Record operation_ok `{Boon} (o : AdmittedComponentOperation) : Prop := {
  oo_inputs : names_sorted port_name (ao_input_ports o) ∧
    Forall (λ p, schema_ok (port_schema p)) (ao_input_ports o);
  oo_outputs : names_sorted port_name (ao_output_ports o) ∧
    Forall (λ p, schema_ok (port_schema p)) (ao_output_ports o);
  oo_parameters : names_sorted parameter_name (ao_parameters o) ∧
    Forall (λ p, schema_ok (parameter_schema p)) (ao_parameters o);
}.

Lemma Forall_sort {A} (P : A → Prop) leb l : Forall P l → Forall P (stable_sort leb l).
Proof. by rewrite (stable_sort_perm leb l). Qed.

Lemma normalize_ports_ok `{Boon} ds dup ports :
  normalize_ports ds dup = Ok ports →
  names_sorted port_name ports ∧ Forall (λ p, schema_ok (port_schema p)) ports.
Proof.
  unfold normalize_ports. destruct (distinct_ports dup [] ds) as [ps|] eqn:E; [simpl|done].
  intros [= <-]. apply distinct_ports_inv in E as (? & _ & ? & _).
  split; [by apply names_sorted_sort|by apply Forall_sort].
Qed.

Lemma normalize_parameters_ok `{Boon} ds ps :
  normalize_parameters ds = Ok ps →
  names_sorted parameter_name ps ∧ Forall (λ p, schema_ok (parameter_schema p)) ps.
Proof.
  unfold normalize_parameters. destruct (distinct_parameters [] ds) as [k|] eqn:E; [simpl|done].
  intros [= <-]. apply distinct_parameters_inv in E as (? & _ & ?).
  split; [by apply names_sorted_sort|by apply Forall_sort].
Qed.

(** ** Admission and the stored fact agree *)

Section Verify.
Context `{Boon, WasiCeiling, FloatText, Sha256}.

(** Whether the signed-read annotation of every operation is readable. *)
Definition reads_signed (operations : list (string * AdmittedComponentOperation)) : bool :=
  forallb (λ eo : string * AdmittedComponentOperation, is_ok (signed_file_reads eo.2)) operations.

Definition operation_admitted (scope : ComponentPackageScope) (eo : string * AdmittedComponentOperation) :
    Prop :=
  validate_identity eo.1 = Ok tt ∧
  validate_registered_operation_scope scope eo.1 (ao_registered_operation eo.2) = Ok tt ∧
  validate_committed_result_schema (ao_registered_operation eo.2) (ao_committed_result_schema eo.2) = Ok tt ∧
  validate_operation_statement_facts (ao_statements eo.2) = Ok tt.

Lemma normalize_operation_inv scope export o o' :
  normalize_operation scope export o = Ok o' →
  operation_admitted scope (export, o') ∧ operation_ok o' ∧
  ao_registered_operation o' = od_registered_operation o.
Proof.
  unfold normalize_operation, operation_admitted.
  destruct (validate_identity export) as [[]|] eqn:Hid; [simpl|done].
  destruct (validate_registered_operation_scope _ _ (od_registered_operation o)) as [[]|] eqn:Er; [simpl|done].
  set (m := match od_committed_result_schema o with
            | None => Ok None
            | Some s => let? s := normalize_schema s in Ok (Some s)
            end).
  destruct m as [committed|]; [simpl|done].
  destruct (validate_committed_result_schema _ committed) as [[]|] eqn:Ec; [simpl|done].
  destruct (normalize_ports (od_input_ports o) _) as [ip|] eqn:Ei; [simpl|done].
  destruct (normalize_ports (od_output_ports o) _) as [op|] eqn:Eo; [simpl|done].
  destruct (normalize_parameters _) as [pa|] eqn:Ep; [simpl|done]. intros [= <-]. simpl.
  split; [by repeat split|]. split; [|done].
  constructor; simpl; [by eapply normalize_ports_ok|by eapply normalize_ports_ok|by apply normalize_parameters_ok in Ep].
Qed.

Lemma normalize_operations_inv scope ds os :
  normalize_operations scope ds = Ok os →
  os.*1 = ds.*1 ∧ Forall (operation_admitted scope) os ∧ Forall (λ eo, operation_ok eo.2) os.
Proof.
  revert os. induction ds as [|[e d] ds IH]; intros os; simpl; [by intros [= <-]|].
  destruct (normalize_operation scope e d) as [o|] eqn:Eo; [simpl|done].
  destruct (normalize_operations scope ds) as [k|]; [simpl|done]. intros [= <-].
  apply normalize_operation_inv in Eo as (? & ? & _). destruct (IH k eq_refl) as (Hk & ? & ?).
  split; [exact (f_equal (cons e) Hk)|]. split; by constructor.
Qed.

Lemma verify_operations_spec scope os :
  Forall (operation_admitted scope) os →
  verify_operations scope os = if reads_signed os then Ok tt else Err InvalidSchema.
Proof.
  induction 1 as [|[e o] os (He & Hr & Hc & Hs) _ IH]; [done|]. simpl in *.
  rewrite He, Hr. simpl. rewrite Hc. simpl. rewrite IH.
  destruct (signed_file_reads o); simpl; [|done]. by rewrite Hs.
Qed.

(** A fact whose own parts are in order. *)
Record fact_admitted (c : AdmittedFact) : Prop := {
  fa_scope : is_ok (component_package_scope (sc_env_key (af_scope c)) (sc_package_id (af_scope c))
                      (sc_package_version (af_scope c))) = true;
  fa_nonempty : af_operations c ≠ [];
  fa_operations : Forall (operation_admitted (af_scope c)) (af_operations c);
  fa_ports : Forall (λ eo, operation_ok eo.2) (af_operations c);
  fa_imports : refuse_application_operation_imports (af_imports c) = Ok tt;
  fa_effects : normalize_effects (af_effects c) (af_imports c) = Ok (af_effects c);
}.

Lemma verify_admitted c :
  fact_admitted c →
  verify_stored_effect_projection c = if reads_signed (af_operations c) then Ok tt else Err InvalidSchema.
Proof.
  intros [Hs Hne Ho _ Hi He]. unfold verify_stored_effect_projection.
  destruct (component_package_scope _ _ _); [simpl|done].
  destruct (af_operations c) as [|eo os] eqn:E; [done|]. rewrite <- E in *.
  rewrite verify_operations_spec by done. destruct (reads_signed (af_operations c)); [simpl|done].
  by rewrite Hi, He.
Qed.

Lemma normalize_component_fact_inv d digest imports effects f :
  normalize_component_fact d digest imports effects = Ok f →
  fact_admitted (facts_component f) ∧
  (af_operations (facts_component f)).*1 = (cd_operations d).*1 ∧
  af_imports (facts_component f) = sorted_texts imports ∧
  af_component_digest (facts_component f) = digest ∧ af_scope (facts_component f) = cd_scope d ∧
  normalize_effects effects (sorted_texts imports) = Ok (af_effects (facts_component f)) ∧
  normalize_connections (cd_connections d) (af_effects (facts_component f)) = Ok (facts_connections f).
Proof.
  unfold normalize_component_fact.
  destruct (component_package_scope _ _ _) as [sc|] eqn:Es; [simpl|done].
  destruct (validate_identity (cd_component d)) as [[]|]; [simpl|done].
  destruct (validate_identity (cd_interface_version d)) as [[]|]; [simpl|done].
  destruct (cd_operations d) as [|eo eos] eqn:Eos; [done|]. rewrite <- Eos in *.
  destruct (valid_digest digest); [simpl|done].
  destruct (normalize_operations _ _) as [os|] eqn:Eo; [simpl|done].
  destruct (refuse_application_operation_imports _) as [[]|] eqn:Er; [simpl|done].
  destruct (normalize_effects _ _) as [es|] eqn:Ee; [simpl|done].
  destruct (normalize_connections _ _) as [cs|] eqn:Ec; [simpl|done]. intros [= <-]. simpl.
  apply normalize_operations_inv in Eo as (Hk & Ha & Hp).
  split; [|by repeat split]. constructor; simpl; try done; [by rewrite Es| |].
  - intros ->. by rewrite Eos in Hk.
  - by apply normalize_effects_inv in Ee as (_ & ? & _).
Qed.

(** ** Binding statements *)

Lemma update_operation_spec export g os :
  export ∈ os.*1 →
  update_operation export g os = Ret ((λ eo : string * AdmittedComponentOperation,
    if String.eqb eo.1 export then (eo.1, g eo.2) else eo) <$> os).
Proof. intros Hin. unfold update_operation. by rewrite bool_decide_true. Qed.

(** What binding keeps of an operation: all but its statements. *)
Definition binds (eo eo' : string * AdmittedComponentOperation) : Prop :=
  eo'.1 = eo.1 ∧ ∃ tx st, eo'.2 = with_statements tx st eo.2 ∧
  (validate_operation_statement_facts (ao_statements eo.2) = Ok tt →
   validate_operation_statement_facts st = Ok tt).

Lemma binds_refl eo : binds eo eo.
Proof. split; [done|]. exists (ao_host_transaction eo.2), (ao_statements eo.2). by destruct eo as [e []]. Qed.

Lemma binds_trans a b c : binds a b → binds b c → binds a c.
Proof.
  intros [Hk (tx & st & E & Hst)] [Hk' (tx' & st' & E' & Hst')]. split; [congruence|].
  exists tx', st'. rewrite E', E. split; [done|]. intros ?%Hst. apply Hst'. by rewrite E.
Qed.

Lemma attach_statements_spec hosts statements os :
  check_statement_sets statements = Ok tt → statements.*1 ⊆ os.*1 →
  ∃ os', attach_statements hosts statements os = Ret os' ∧ Forall2 binds os os'.
Proof.
  revert os. induction statements as [|[e s] statements IH]; intros os; simpl.
  { intros _ _. exists os. split; [done|]. apply Forall2_same_length_lookup_2; [done|].
    intros i a b Ha Hb. rewrite Ha in Hb. injection Hb as <-. apply binds_refl. }
  destruct (validate_operation_statement_facts s) as [[]|] eqn:Es; [simpl|done]. intros Hc Hsub.
  rewrite update_operation_spec by set_solver. simpl. set (g := λ eo : string * _, _).
  assert (Hg : Forall2 binds os (g <$> os)).
  { apply Forall2_fmap_r, Forall_Forall2_diag, Forall_forall. intros [x o] _. unfold g. simpl.
    destruct (String.eqb_spec x e) as [->|]; [|apply binds_refl].
    split; [done|]. by do 2 eexists. }
  destruct (IH (g <$> os) Hc) as (os' & E & Hos').
  { assert ((g <$> os).*1 = os.*1) as ->; [|set_solver].
    rewrite <- list_fmap_compose. apply list_fmap_ext. intros i [x o] _. unfold g. simpl. by case_match. }
  exists os'. split; [done|]. eapply Forall2_trans; [|exact Hg|exact Hos'].
  intros a b c. apply binds_trans.
Qed.

Lemma bound_operations scope os os' :
  Forall2 binds os os' → Forall (operation_admitted scope) os → Forall (λ eo, operation_ok eo.2) os →
  os'.*1 = os.*1 ∧ reads_signed os' = reads_signed os ∧
  Forall (operation_admitted scope) os' ∧ Forall (λ eo, operation_ok eo.2) os'.
Proof.
  induction 1 as [|[e o] [e' o'] os os' [Hk (tx & st & E & Hst)] _ IH]; [done|].
  intros [(Hi & Hr & Hc & Hs) Ha]%Forall_cons [[Hin Hout Hpar] Hp]%Forall_cons. simpl in *. subst e' o'.
  destruct (IH Ha Hp) as (Hk & Hrd & ? & ?). split; [exact (f_equal (cons e) Hk)|].
  split; [by rewrite Hrd|]. split; constructor; try done.
  by repeat split; [done..|apply Hst].
Qed.

(** Binding keeps an admitted fact admitted. *)
Lemma bind_admitted c statements hosts c' :
  fact_admitted c → bind_component_statement_facts c statements hosts = Ret (Ok c') →
  fact_admitted c' ∧ reads_signed (af_operations c') = reads_signed (af_operations c).
Proof.
  intros [Hs Hne Ho Hp Hi He]. unfold bind_component_statement_facts.
  destruct (negb _ || _ || _) eqn:E; [done|].
  apply orb_false_iff in E as [[_ Hsub%negb_false_iff]%orb_false_iff _]. apply bool_decide_eq_true in Hsub.
  destruct (check_statement_sets statements) as [[]|] eqn:Ec; [|done].
  destruct (attach_statements_spec hosts _ _ Ec Hsub) as (os' & -> & Hb). simpl. intros [= <-].
  destruct (bound_operations _ _ _ Hb Ho Hp) as (Hk & Hrd & Ho' & Hp'). split; [|done].
  constructor; simpl; try done. intros ->. inversion Hb; subst. by destruct Hne.
Qed.

(** What admission mints, every reader accepts.  A fact [normalize_component_fact]
    produces has its ports and parameters in strict name order with compiled schemas,
    and the reader's check of a stored fact accepts it, unless the author's
    signed-read annotation is not readable.  Binding its statements never panics,
    and a bound fact is judged the same. *)
Theorem admitted_fact_verifies (d : ComponentDeclaration) (digest : string) (imports : list string)
    (effects : list AdmittedComponentEffect) (f : AdmittedComponentFacts)
    (statements : list (string * list (string * ComponentSqlStatement))) (hosts : list string) :
  normalize_component_fact d digest imports effects = Ok f →
  let c := facts_component f in
  let verdict := if reads_signed (af_operations c) then Ok tt else Err InvalidSchema in
  Forall (λ eo, operation_ok eo.2) (af_operations c) ∧
  verify_stored_effect_projection c = verdict ∧
  ∃ res, bind_component_statement_facts c statements hosts = Ret res ∧
    match res with
    | Ok c' => verify_stored_effect_projection c' = verdict ∧ (af_operations c').*1 = (af_operations c).*1
    | Err _ => True
    end.
Proof.
  intros (Hf & _)%normalize_component_fact_inv. simpl. split; [apply Hf|].
  split; [by apply verify_admitted|]. unfold bind_component_statement_facts.
  destruct (negb _ || _ || _) eqn:E; [by eexists|].
  apply orb_false_iff in E as [[_ Hsub%negb_false_iff]%orb_false_iff _].
  apply bool_decide_eq_true in Hsub.
  destruct (check_statement_sets statements) as [[]|] eqn:Ec; [|by eexists].
  destruct (attach_statements_spec hosts _ _ Ec Hsub) as (os' & -> & Hb). simpl.
  destruct Hf as [Hs Hne Ho Hp Hi He]. destruct (bound_operations _ _ _ Hb Ho Hp) as (Hk & Hrd & Ho' & Hp').
  eexists. split; [done|]. split; [|done]. rewrite <- Hrd. rewrite verify_admitted; [done|].
  constructor; simpl; try done. intros ->. inversion Hb; subst. by destruct Hne.
Qed.

End Verify.
