(* ===== verification/ComponentAdmission.v ===== *)
(** * Byte admission of a component

    [validate_component_admission] of
    [crates/platform/engine/src/component_admission.rs], from what the component
    compiler and parser report of the bytes to the facts of the catalog.  The
    reports are the class [ComponentParser]: the exports, each with the verdict of
    the handler signature check (a comparison of the compiler's own types), the
    imports with their [implements] names, the embedded members, and the verified
    statement instances ([statement_instances.rs], a walk over parser payloads that
    is not modelled). *)

From stdpp Require Import base tactics option list gmap strings sorting.
From Stdlib Require Import ZArith Lia.
From S2P Require Import Prelude Text Json Canonical Capabilities Packages ComponentFacts.
#[local] Set Warnings "-clear-no-such-hyp".
Open Scope wamn_scope.

Record EmbeddedComponents := {
  em_exports : list string;
  em_members : list (string * list string);  (* digest and exports of each direct member *)
}.

(** A compiled component. *)
Record ComponentType := {
  ct_exports : list (string * bool);  (* whether the item has the handler signature *)
  ct_imports : list (string * option string);
}.

Class ComponentParser := {
  component_type : string → option ComponentType;
  embedded_components : string → option EmbeddedComponents;
  statement_instances : string → option (list (string * string));
}.

Inductive ComponentAdmissionErrorType :=
| InvalidComponentBytes | OperationExportMismatch | OperationSignatureMismatch
| AdmissionDependencyMismatch | ImportPolicyRefused | StatementInstanceMismatch
| InvalidComponentFacts (t : ComponentFactErrorType).

Record ComponentAdmissionRequest := {
  ar_declaration : ComponentDeclaration;
  ar_admitted_platform_packages : list string;
  ar_base_digests : list string;
}.

Definition component_digest `{Sha256} (component_bytes : string) : string := bytes_sha256 component_bytes.

(** [is_application_operation_import] of this crate. *)
Definition is_application_operation (name : string) : bool :=
  let platform_family :=
    match split_once colon (import_pkg name) with
    | Some (namespace, _) => bool_decide (namespace ∈ ["wasi"; "wamn"])
    | None => false
    end in
  negb (platform_family || is_registered_package name).

(** ** Effects *)

(** [BTreeSet::insert]. *)
Fixpoint set_insert (x : string) (l : list string) : list string :=
  match l with
  | [] => [x]
  | y :: l' =>
      match String.compare x y with
      | Lt => x :: l
      | Eq => l
      | Gt => y :: set_insert x l'
      end
  end.

(** [entry(package).or_default().insert(name)] over the grouped map. *)
Fixpoint group_insert (package name : string) (grouped : list (string * list string)) :
    list (string * list string) :=
  match grouped with
  | [] => [(package, [name])]
  | (p, interfaces) :: grouped' =>
      match String.compare package p with
      | Lt => (package, [name]) :: grouped
      | Eq => (p, set_insert name interfaces) :: grouped'
      | Gt => (p, interfaces) :: group_insert package name grouped'
      end
  end.

Definition group_effects `{WasiCeiling} (imports : list string) : list (string * list string) :=
  foldl (λ grouped name,
    if bool_decide (import_posture name = Some Effect)
    then group_insert (import_pkg name) name grouped else grouped) [] imports.

Definition derive_effects `{WasiCeiling} (imports : list string) : list AdmittedComponentEffect :=
  (λ g : string * list string,
     {| effect_package := g.1; effect_provenance := Imported; effect_interfaces := g.2 |})
  <$> group_effects imports.

(** ** Admission *)

(** The loop over the declared exports. *)
Fixpoint check_signatures (exports : list (string * bool)) (declared : list string) :
    run (result unit ComponentAdmissionErrorType) :=
  match declared with
  | [] => Ret (Ok tt)
  | export :: declared =>
      let! item := expect (snd <$> find (λ e : string * bool, String.eqb e.1 export) exports)
        "the byte exports contain every declared operation" in
      if item : bool then check_signatures exports declared else Ret (Err OperationSignatureMismatch)
  end.

(** The composed bases the package manifest does not pin. *)
Definition unpinned_bases (r : ComponentAdmissionRequest) (declared : list string)
    (embedded : EmbeddedComponents) : list string :=
  fst <$> filter (λ m : string * list string,
    (negb (bool_decide (m.1 ∈ ar_base_digests r)) &&
     existsb (λ export, has_char colon export && is_application_operation export &&
                        negb (bool_decide (export ∈ declared))) m.2) = true) (em_members embedded).

Definition validate_component_admission `{ComponentParser, Boon, WasiCeiling, FloatText, Sha256}
    (component_bytes : string) (r : ComponentAdmissionRequest) :
    run (result AdmittedComponentFacts ComponentAdmissionErrorType) :=
  match component_type component_bytes, embedded_components component_bytes with
  | None, _ | _, None => Ret (Err InvalidComponentBytes)
  | Some ty, Some embedded =>
      let declared := (cd_operations (ar_declaration r)).*1 in
      let byte_exports := (ct_exports ty).*1 in
      let missing := filter (λ e, e ∉ byte_exports) declared in
      let extra := filter (λ e, (e ∉ declared) ∧ (e ∉ em_exports embedded)) byte_exports in
      if negb (bool_decide (missing = [])) || negb (bool_decide (extra = []))
      then Ret (Err OperationExportMismatch)
      else
        let! signatures := check_signatures (ct_exports ty) declared in
        match signatures with
        | Err t => Ret (Err t)
        | Ok _ =>
            let imports := (λ i : string * option string, instance_type i.1 i.2) <$> ct_imports ty in
            if negb (bool_decide (unpinned_bases r declared embedded = []))
            then Ret (Err AdmissionDependencyMismatch)
            else if existsb is_application_operation imports then Ret (Err AdmissionDependencyMismatch)
            else
              match analyze_tenant imports (ar_admitted_platform_packages r)
                      (cd_component (ar_declaration r)) with
              | Err _ => Ret (Err ImportPolicyRefused)
              | Ok _ =>
                  match statement_instances component_bytes with
                  | None => Ret (Err StatementInstanceMismatch)
                  | Some instances =>
                      match normalize_component_fact (ar_declaration r) (component_digest component_bytes)
                              imports (derive_effects imports) with
                      | Err t => Ret (Err (InvalidComponentFacts t))
                      | Ok facts => Ret (Ok (bind_statement_instances facts instances))
                      end
                  end
              end
        end
  end.

(** ** The projection is exact *)

(** A list in strict key order is sorted and has nothing to drop. *)
Lemma strict_sort_dedup {A} (key : A → string) l :
  StronglySorted (λ x y, String.compare (key x) (key y) = Lt) l →
  dedup_by (λ x y, String.eqb (key x) (key y)) (stable_sort (λ x y, String.leb (key x) (key y)) l) = l.
Proof.
  intros Hl. rewrite stable_sort_id.
  - induction Hl as [|x l Hl IH Hx]; [done|]. destruct l as [|y l]; [done|].
    inversion Hx as [|? ? Hxy _]; subst. simpl in *.
    destruct (String.eqb_spec (key x) (key y)) as [E|_]; [|by rewrite IH].
    rewrite E, string_compare_refl in Hxy. done.
  - induction Hl as [|x l Hl IH Hx]; constructor; [done|].
    eapply Forall_impl; [exact Hx|]. intros y E. simpl. unfold String.leb. simpl in E. by rewrite E.
Qed.

Lemma set_insert_elem x l y : y ∈ set_insert x l ↔ y = x ∨ y ∈ l.
Proof.
  induction l as [|a l IH]; simpl; [set_solver|].
  destruct (String.compare x a) eqn:E; [apply string_compare_eq in E as ->| |]; set_solver.
Qed.

Definition text_lt (x y : string) : Prop := String.compare x y = Lt.

Lemma compare_gt_lt x y : String.compare x y = Gt → text_lt y x.
Proof. unfold text_lt. intros E. by rewrite String.compare_antisym, E. Qed.

Lemma set_insert_sorted x l : StronglySorted text_lt l → StronglySorted text_lt (set_insert x l).
Proof.
  induction 1 as [|a l Hl IH Ha]; simpl; [repeat constructor|].
  destruct (String.compare x a) eqn:E; [by constructor| |].
  - constructor; [by constructor|]. constructor; [done|].
    eapply Forall_impl; [exact Ha|]. intros y. by apply string_compare_lt_trans.
  - constructor; [done|]. rewrite Forall_forall in Ha |- *. intros y [->|Hy]%set_insert_elem; [|by apply Ha].
    by apply compare_gt_lt.
Qed.

Definition grouped_has (g : list (string * list string)) (p i : string) : Prop :=
  ∃ l, (p, l) ∈ g ∧ i ∈ l.

Lemma group_insert_has P N g p i :
  grouped_has (group_insert P N g) p i ↔ p = P ∧ i = N ∨ grouped_has g p i.
Proof.
  unfold grouped_has. induction g as [|[q l] g IH]; simpl.
  { split; [intros (k & [= -> ->]%list_elem_of_singleton & ->%list_elem_of_singleton); by left|].
    intros [[-> ->]|(k & []%elem_of_nil & _)]. exists [N]. split; left. }
  destruct (String.compare P q) eqn:E.
  - apply string_compare_eq in E as ->. split.
    + intros (k & [[= -> ->]|Hk]%elem_of_cons & Hi); [|right; exists k; split; [by right|done]].
      apply set_insert_elem in Hi as [->|Hi]; [by left|]. right. exists l. split; [left|done].
    + intros [[-> ->]|(k & [[= -> ->]|Hk]%elem_of_cons & Hi)].
      * exists (set_insert N l). split; [left|]. apply set_insert_elem. by left.
      * exists (set_insert N l). split; [left|]. apply set_insert_elem. by right.
      * exists k. split; [by right|done].
  - split.
    + intros (k & [[= -> ->]|Hk]%elem_of_cons & Hi); [left; by apply list_elem_of_singleton in Hi|].
      right. by exists k.
    + intros [[-> ->]|(k & Hk & Hi)]; [exists [N]; split; left|]. exists k. split; [by right|done].
  - split.
    + intros (k & [[= -> ->]|Hk]%elem_of_cons & Hi); [right; exists l; split; [left|done]|].
      destruct (proj1 IH) as [?|(k' & ? & ?)]; [by exists k|by left|]. right. exists k'. split; [by right|done].
    + intros [?|(k & [[= -> ->]|Hk]%elem_of_cons & Hi)].
      * destruct (proj2 IH) as (k & ? & ?); [by left|]. exists k. split; [by right|done].
      * exists l. split; [left|done].
      * destruct (proj2 IH) as (k' & ? & ?); [right; by exists k|]. exists k'. split; [by right|done].
Qed.

(** The grouped map: packages and interfaces in strict order. *)
Definition grouped_ok (g : list (string * list string)) : Prop :=
  StronglySorted text_lt g.*1 ∧ Forall (λ pl : string * list string, StronglySorted text_lt pl.2) g.

Lemma group_insert_keys P N g p : p ∈ (group_insert P N g).*1 → p = P ∨ p ∈ g.*1.
Proof.
  induction g as [|[q l] g IH]; simpl; [set_solver|].
  destruct (String.compare P q) eqn:E; simpl; [set_solver|set_solver|].
  intros [->|Hp]%elem_of_cons; [right; left|]. destruct (IH Hp); [by left|right; by right].
Qed.

Lemma group_insert_ok P N g : grouped_ok g → grouped_ok (group_insert P N g).
Proof.
  intros [Hk Hl]. induction g as [|[q l] g IH]; simpl in *.
  { split; repeat constructor. }
  apply Forall_cons in Hl as [Hl Hg]. inversion Hk as [|? ? Hk' Hq]; subst.
  destruct (String.compare P q) eqn:E.
  - split; [by constructor|]. constructor; [by apply set_insert_sorted|done].
  - split; [|by repeat constructor]. simpl. constructor; [by constructor|]. constructor; [done|].
    eapply Forall_impl; [exact Hq|]. intros y. by apply string_compare_lt_trans.
  - destruct (IH Hk' Hg) as [IHk IHl]. split; [|by constructor]. simpl. constructor; [done|].
    rewrite Forall_forall in Hq |- *. intros y [->|Hy]%group_insert_keys; [by apply compare_gt_lt|by apply Hq].
Qed.

Section Derived.
Context `{WasiCeiling}.

Definition effect_step (grouped : list (string * list string)) (name : string) :
    list (string * list string) :=
  if bool_decide (import_posture name = Some Effect)
  then group_insert (import_pkg name) name grouped else grouped.

Lemma effect_steps g imports :
  grouped_ok g →
  grouped_ok (foldl effect_step g imports) ∧
  ∀ p i, grouped_has (foldl effect_step g imports) p i ↔
    grouped_has g p i ∨ i ∈ imports ∧ import_pkg i = p ∧ import_posture i = Some Effect.
Proof.
  revert g. induction imports as [|name imports IH]; intros g Hg; simpl.
  { split; [done|]. intros p i. rewrite elem_of_nil. tauto. }
  destruct (IH (effect_step g name)) as [Hok Hhas].
  { unfold effect_step. case_bool_decide; [by apply group_insert_ok|done]. }
  split; [done|]. intros p i. rewrite Hhas, elem_of_cons. unfold effect_step.
  case_bool_decide as Hp; [rewrite group_insert_has|]; naive_solver.
Qed.

Lemma group_effects_spec imports :
  grouped_ok (group_effects imports) ∧
  ∀ p i, grouped_has (group_effects imports) p i ↔
    i ∈ imports ∧ import_pkg i = p ∧ import_posture i = Some Effect.
Proof.
  destruct (effect_steps [] imports) as [Hok Hhas]; [by split; constructor|].
  split; [exact Hok|]. intros p i. etrans; [apply Hhas|]. unfold grouped_has.
  setoid_rewrite elem_of_nil. naive_solver.
Qed.

(** Every group has an interface. *)
Lemma group_nonempty imports p l : (p, l) ∈ group_effects imports → ∃ i, i ∈ l.
Proof.
  assert (Hne : ∀ P N g, Forall (λ pl : string * list string, pl.2 ≠ []) g →
    Forall (λ pl : string * list string, pl.2 ≠ []) (group_insert P N g)).
  { intros P N g. induction 1 as [|[q k] g Hq Hg IH]; simpl; [by repeat constructor|].
    destruct (String.compare P q); repeat constructor; try done.
    simpl. destruct k as [|a k]; [done|]. simpl. by destruct (String.compare N a). }
  assert (Hall : ∀ g, Forall (λ pl : string * list string, pl.2 ≠ []) g →
    Forall (λ pl : string * list string, pl.2 ≠ []) (foldl effect_step g imports)).
  { induction imports as [|name is_ IH]; intros g Hg; simpl; [done|]. apply IH. unfold effect_step.
    case_bool_decide; [by apply Hne|done]. }
  specialize (Hall [] ltac:(constructor)). rewrite Forall_forall in Hall.
  intros Hin%Hall. simpl in Hin. destruct l as [|a l]; [done|]. exists a. left.
Qed.

Lemma registered_identity p : registered p = true → validate_identity p = Ok tt.
Proof.
  intros (row & Hin & <-)%registered_spec.
  assert (Hall : forallb (λ row, is_ok (validate_identity (row_package row))) CAPABILITY_REGISTRY = true)
    by (vm_compute; reflexivity).
  rewrite forallb_forall in Hall. apply list_elem_of_In in Hin. specialize (Hall _ Hin).
  by destruct (validate_identity (row_package row)) as [[]|].
Qed.

Lemma derived_effect_ok imports :
  Forall (effect_ok (sorted_texts imports)) (derive_effects imports).
Proof.
  destruct (group_effects_spec imports) as [[_ Hl] Hhas]. unfold derive_effects.
  apply Forall_fmap. rewrite Forall_forall in Hl |- *. intros [p l] Hin.
  destruct (group_nonempty _ _ _ Hin) as [i Hi].
  assert (Hg : ∀ i, i ∈ l → i ∈ imports ∧ import_pkg i = p ∧ import_posture i = Some Effect).
  { intros j Hj. apply Hhas. by exists l. }
  constructor; simpl.
  - destruct (Hg _ Hi) as (_ & <- & Hp). by eapply registered_identity, posture_registered.
  - apply (strict_sort_dedup (λ x, x)). by apply (Hl _ Hin).
  - intros j (? & _)%Hg. by apply elem_of_sorted_texts.
Qed.

(** The derived projection passes its own check unchanged. *)
Lemma derived_effects_normal imports :
  normalize_effects (derive_effects imports) (sorted_texts imports) = Ok (derive_effects imports).
Proof.
  destruct (group_effects_spec imports) as [[Hk _] Hhas]. unfold normalize_effects.
  rewrite imported_effects_settled by apply derived_effect_ok. simpl.
  assert (dedup_by effect_same (stable_sort effect_leb (derive_effects imports)) = derive_effects imports) as ->.
  { apply (strict_sort_dedup effect_package). unfold derive_effects. clear -Hk.
    induction (group_effects imports) as [|[p l] g IH]; [constructor|]. inversion Hk as [|? ? Hg Hp]; subst.
    constructor; [by apply IH|]. apply Forall_fmap. apply (proj1 (Forall_fmap _ _ _) Hp). }
  rewrite existsb_false; [done|]. intros i Hi. rewrite elem_of_sorted_texts in Hi.
  case_bool_decide as Hp; [|done]. simpl. apply negb_false_iff, existsb_exists.
  destruct (proj2 (Hhas (import_pkg i) i)) as (l & Hl & Hil); [by repeat split|].
  eexists. split; [apply list_elem_of_In, list_elem_of_fmap; by exists (import_pkg i, l)|].
  unfold projects. simpl. rewrite String.eqb_refl. by apply bool_decide_eq_true.
Qed.

Lemma derived_effects_exact imports p i :
  (∃ e, e ∈ derive_effects imports ∧ effect_package e = p ∧ i ∈ effect_interfaces e) ↔
  i ∈ imports ∧ import_pkg i = p ∧ import_posture i = Some Effect.
Proof.
  destruct (group_effects_spec imports) as [_ Hhas]. rewrite <- Hhas. unfold grouped_has, derive_effects. split.
  - intros (e & ([q l] & -> & Hin)%list_elem_of_fmap & <- & Hi). by exists l.
  - intros (l & Hin & Hi). eexists. split; [apply list_elem_of_fmap; by exists (p, l)|done].
Qed.

End Derived.

(** ** Connections *)

Definition has_package (p : string) (effects : list AdmittedComponentEffect) : Prop :=
  ∃ e, e ∈ effects ∧ effect_package e = p.

Lemma has_package_spec p effects :
  existsb (λ e, String.eqb (effect_package e) p) effects = true ↔ has_package p effects.
Proof.
  rewrite existsb_exists. unfold has_package.
  setoid_rewrite <- list_elem_of_In. by setoid_rewrite String.eqb_eq.
Qed.

Lemma bound_connections_inv effects seen ds cs :
  bound_connections effects seen ds = Ok cs →
  NoDup (store_alias <$> cs) ∧ (∀ a, a ∈ store_alias <$> cs → a ∉ seen) ∧
  ∀ c, c ∈ cs → has_package (import_package (requirement_type c)) effects.
Proof.
  revert seen cs. induction ds as [|d ds IH]; intros seen cs; simpl.
  { intros [= <-]. repeat split; [constructor|set_solver..]. }
  destruct (validate_identity _) as [[]|]; [simpl|done]. case_bool_decide as Hs; [done|].
  destruct (existsb _ effects) eqn:Ex; [simpl|done]. apply has_package_spec in Ex.
  destruct (bound_connections _ _ ds) as [k|] eqn:Ek; [simpl|done]. intros [= <-]. simpl.
  destruct (IH _ _ Ek) as (Hnd & Hseen & Hall).
  split; [constructor; [|done]; intros Hin; apply Hseen in Hin; set_solver|].
  split; [|by intros c [->|?]%elem_of_cons; [|apply Hall]].
  intros a [->|Hin]%elem_of_cons; [done|]. apply Hseen in Hin. set_solver.
Qed.

Lemma normalize_connections_exact ds effects cs :
  normalize_connections ds effects = Ok cs →
  names_sorted store_alias cs ∧
  ∀ t, (∃ c, c ∈ cs ∧ requirement_type c = t) ↔ has_package (import_package t) effects.
Proof.
  unfold normalize_connections. destruct (bound_connections effects [] ds) as [k|] eqn:Ek; [cbn [result_bind]|done].
  apply bound_connections_inv in Ek as (Hnd & _ & Hall).
  destruct (existsb _ CONNECTION_TYPES) eqn:Ex; [done|]. intros [= <-].
  split; [by apply names_sorted_sort|]. intros t. split.
  - intros (c & Hc & <-). apply Hall. by apply elem_of_stable_sort in Hc.
  - intros Hp. assert (Ht : t ∈ CONNECTION_TYPES) by (destruct t; set_solver).
    pose proof (existsb_false_inv _ _ _ Ex Ht) as E. simpl in E.
    apply has_package_spec in Hp. rewrite Hp in E. simpl in E.
    apply negb_false_iff, existsb_exists in E as (c & Hc & Heq).
    exists c. split; [by apply list_elem_of_In|by apply bool_decide_eq_true in Heq].
Qed.

(** ** What admission grants *)

Lemma check_signatures_ret exports declared :
  declared ⊆ exports.*1 → ∃ res, check_signatures exports declared = Ret res.
Proof.
  induction declared as [|e declared IH]; intros Hsub; simpl; [by eexists|].
  destruct (find _ exports) as [[e' b]|] eqn:E.
  - simpl. destruct b; [|by eexists]. apply IH. set_solver.
  - exfalso. assert (e ∈ exports.*1) as ([e' b] & -> & Hin)%list_elem_of_fmap by set_solver.
    apply list_elem_of_In in Hin. apply (find_none _ _ E) in Hin. simpl in Hin. by rewrite String.eqb_refl in Hin.
Qed.

(** C16. Admission confines a component to its grant.  It never panics.  A component
    it admits imports only what the tenant policy lets its grant import, no socket
    among it; its effect projection is exactly its effectful imports grouped by
    package, each package in the grant; it declares a connection of a type exactly
    when it imports that type's package; its operations are the declared exports;
    and the fact passes the reader's check of a stored fact, unless a signed-read
    annotation is not readable. *)
Theorem admitted_component_confined `{ComponentParser, Boon, WasiCeiling, FloatText, Sha256}
    (component_bytes : string) (r : ComponentAdmissionRequest) :
  ∃ res, validate_component_admission component_bytes r = Ret res ∧
  ∀ f, res = Ok f →
    let c := facts_component f in
    (∀ name, name ∈ af_imports c → importable (ar_admitted_platform_packages r) name) ∧
    denied_imports (af_imports c) = [] ∧
    (∀ p i, (∃ e, e ∈ af_effects c ∧ effect_package e = p ∧ i ∈ effect_interfaces e) ↔
       i ∈ af_imports c ∧ import_pkg i = p ∧ import_posture i = Some Effect) ∧
    (∀ e, e ∈ af_effects c → effect_package e ∈ ar_admitted_platform_packages r) ∧
    (∀ t, (∃ k, k ∈ facts_connections f ∧ requirement_type k = t) ↔
       has_package (import_package t) (af_effects c)) ∧
    (af_operations c).*1 = (cd_operations (ar_declaration r)).*1 ∧
    af_component_digest c = component_digest component_bytes ∧
    verify_stored_effect_projection c =
      if reads_signed (af_operations c) then Ok tt else Err InvalidSchema.
Proof.
  unfold validate_component_admission.
  destruct (component_type component_bytes) as [ty|]; [|by eexists].
  destruct (embedded_components component_bytes) as [embedded|]; [|by eexists].
  set (declared := (cd_operations (ar_declaration r)).*1).
  destruct (negb _ || negb _) eqn:Em; [by eexists|].
  apply orb_false_iff in Em as [Em%negb_false_iff%bool_decide_eq_true _].
  destruct (check_signatures_ret (ct_exports ty) declared) as ([[]|t] & ->); [|simpl|by eexists].
  { intros e He. destruct (decide (e ∈ (ct_exports ty).*1)); [done|].
    exfalso. by eapply filter_nil_iff in Em. }
  set (imports := _ <$> ct_imports ty).
  destruct (negb _); [by eexists|]. destruct (existsb _ imports); [by eexists|].
  destruct (analyze_tenant imports _ _) as [rep|] eqn:Ea; [|by eexists].
  apply analyze_tenant_ok in Ea as [Hgr Hi].
  destruct (statement_instances component_bytes) as [instances|]; [|by eexists].
  destruct (normalize_component_fact _ _ _ _) as [f|t] eqn:En; [|by eexists].
  eexists. split; [done|]. intros f' [= <-]. simpl.
  apply normalize_component_fact_inv in En as (Hf & Hops & Him & Hdig & Hsc & He & Hc).
  rewrite derived_effects_normal in He. injection He as He. rewrite <- He in *. rewrite Him.
  assert (Hi' : ∀ name, name ∈ sorted_texts imports → importable (ar_admitted_platform_packages r) name)
    by (intros name Hn; rewrite elem_of_sorted_texts in Hn; by apply Hi).
  split; [done|]. split; [by apply importable_no_socket with (grants := ar_admitted_platform_packages r)|].
  split; [intros p i; rewrite derived_effects_exact; by rewrite elem_of_sorted_texts|].
  split; [|split; [by apply normalize_connections_exact in Hc as [_ ?]|]].
  - intros e ([p l] & -> & Hin)%list_elem_of_fmap. simpl. destruct (group_nonempty _ _ _ Hin) as [i Hil].
    destruct (group_effects_spec imports) as [_ Hhas].
    destruct (proj1 (Hhas p i)) as (Himp & <- & Hp); [by exists l|].
    destruct (Hi _ Himp) as [_ (row & v & _ & _ & _ & _ & Hrow & Hgrant)].
    rewrite Hp in Hrow. injection Hrow as Hrow. by apply Hgrant.
  - split; [done|]. split; [done|]. apply (verify_admitted (facts_component f)) in Hf as <-.
    unfold verify_stored_effect_projection. simpl. by rewrite He, Him.
Qed.

(** ** A concrete component *)

Module AdmissionSample.

#[export] Instance ceiling : WasiCeiling := 12%Z.
#[export] Instance floats : FloatText := λ _, "0".
(** The first 32 bytes of the text, padded with zeros. *)
#[export] Instance prefix_digest : Sha256 :=
  λ s, take 32 (String.list_ascii_of_string s ++ replicate 32 Ascii.zero).
#[export] Instance schemas : Boon :=
  {| schema_compiles := λ v, match v with VObject _ | VBool _ => true | _ => false end;
     schema_accepts := λ _ _, true |}.

Definition scope : ComponentPackageScope :=
  {| sc_env_key := "acme"; sc_package_id := "orders"; sc_package_version := "1.2.0" |}.

Definition posting : ComponentOperationDeclaration := {|
  od_registered_operation := Some "orders:order/post@1.2.0"; od_committed_result_schema := Some (VObject []);
  od_input_ports := [{| pd_name := "in"; pd_schema := VObject [] |}];
  od_output_ports := [{| pd_name := "rejected"; pd_schema := VObject [] |};
                      {| pd_name := "main"; pd_schema := VObject [] |}];
  od_parameters := [] |}.

Definition declaration : ComponentDeclaration := {|
  cd_scope := scope; cd_component := "orders"; cd_interface_version := "0.1.0";
  cd_operations := [("orders:order/post@1.2.0", posting)];
  cd_connections := [{| store_alias := "partner"; requirement_type := Http |}] |}.

(** Two labelled instances of one interface are one import. *)
#[export] Instance parser : ComponentParser := {|
  component_type := λ _, Some {|
    ct_exports := [("orders:order/post@1.2.0", true)];
    ct_imports := [("sql-1", Some "wamn:postgres/statements@0.4.0"); ("wasi:clocks/wall-clock@0.2.9", None);
                   ("wamn:connection/client@0.1.0", None); ("sql-0", Some "wamn:postgres/statements@0.4.0")] |};
  embedded_components := λ _, Some {| em_exports := []; em_members := [] |};
  statement_instances := λ _, Some [] |}.

Definition request (grants : list string) : ComponentAdmissionRequest := {|
  ar_declaration := declaration; ar_admitted_platform_packages := grants; ar_base_digests := [] |}.

Definition admitted : option AdmittedComponentFacts :=
  match validate_component_admission "component" (request ["wamn:connection"; "wamn:postgres"]) with
  | Ret (Ok f) => Some f
  | _ => None
  end.

(** The projection holds the effects of the two granted packages. *)
Example admitted_effects :
  (λ f, (λ e, (effect_package e, effect_interfaces e)) <$> af_effects (facts_component f)) <$> admitted =
  Some [("wamn:connection", ["wamn:connection/client@0.1.0"]);
        ("wamn:postgres", ["wamn:postgres/statements@0.4.0"])].
Proof. vm_compute. reflexivity. Qed.

(** Its output ports are in name order. *)
Example admitted_ports :
  (λ f, (λ eo : string * AdmittedComponentOperation, port_name <$> ao_output_ports eo.2) <$>
          af_operations (facts_component f)) <$> admitted = Some [["main"; "rejected"]].
Proof. vm_compute. reflexivity. Qed.

(** Without the grant it is refused. *)
Example ungranted_effect :
  validate_component_admission "component" (request ["wamn:connection"]) = Ret (Err ImportPolicyRefused).
Proof. vm_compute. reflexivity. Qed.

Definition digest : string := component_digest "component".
Definition imports : list string :=
  ["wamn:postgres/statements@0.4.0"; "wamn:connection/client@0.1.0"].

Lemma admitted_fact_verifies_witness :
  ∃ f, normalize_component_fact declaration digest imports (derive_effects imports) = Ok f ∧
    verify_stored_effect_projection (facts_component f) = Ok tt.
Proof.
  destruct (normalize_component_fact declaration digest imports (derive_effects imports)) as [f|t] eqn:E;
    [|exfalso; vm_compute in E; discriminate E].
  exists f. split; [reflexivity|].
  destruct (admitted_fact_verifies declaration digest imports (derive_effects imports) f [] [] E)
    as (_ & Hv & _).
  rewrite Hv. vm_compute in E. injection E as <-. vm_compute. reflexivity.
Defined.

End AdmissionSample.
