(* ===== verification/ServingManifests.v ===== *)
(** * The serving manifest of a release

    [crates/catalog/model/src/serving_manifest.rs]: the document that fixes what a
    release serves, its validation, the lookups the host resolves requests with,
    and the admission of its canonical bytes.  A [BTreeSet] or a [BTreeMap] is the
    list of its members in order.  The derived codec of the document is the class
    [ManifestCodec]; the relations a read reads are carried but not read here. *)

From stdpp Require Import base tactics option list gmap strings sorting.
From Stdlib Require Import ZArith Lia.
From S2P Require Import Prelude Text Json Canonical CanonicalForm Authority Capabilities Packages ComponentFacts.
From S2P Require Import ComponentAdmission.
#[local] Set Warnings "-clear-no-such-hyp".
Open Scope wamn_scope.

Definition SERVING_MANIFEST_FORMAT_VERSION : Z := 11.
Definition MAX_SERVING_MANIFEST_BYTES : Z := 1048576.

(** ** Authentication policies *)

Inductive AttachmentAuthPolicy :=
| PolicyNone
| PolicyPat
| PolicySession
| PolicyPatAndSession
| PolicySignature (header credential : string).

Definition has_no_caller (p : AttachmentAuthPolicy) : bool :=
  match p with PolicyNone | PolicySignature _ _ => true | _ => false end.
Definition allows_pat (p : AttachmentAuthPolicy) : bool :=
  match p with PolicyPat | PolicyPatAndSession => true | _ => false end.
Definition allows_session (p : AttachmentAuthPolicy) : bool :=
  match p with PolicySession | PolicyPatAndSession => true | _ => false end.

Definition NO_AUTHENTICATION_MODE : string := "none".
Definition PAT_AUTHENTICATION_MODE : string := "pat".
Definition SESSION_AUTHENTICATION_MODE : string := "session".

(** [value.as_str() == Some(text)]. *)
Definition is_text (v : Value) (text : string) : bool :=
  match v with VString s => String.eqb s text | _ => false end.

Definition single_mode (mode : Value) : option AttachmentAuthPolicy :=
  if is_text mode NO_AUTHENTICATION_MODE then Some PolicyNone
  else if is_text mode PAT_AUTHENTICATION_MODE then Some PolicyPat
  else if is_text mode SESSION_AUTHENTICATION_MODE then Some PolicySession
  else None.

Definition parse_attachment_auth_policy (policy : Value) : option AttachmentAuthPolicy :=
  match policy with
  | VObject object =>
      match map_get "modes" object with
      | Some (VArray modes) =>
          if match modes with [mode] => is_text mode "signature" | _ => false end then
            if negb (length object =? 3)%nat then None
            else
              header ← map_get "header" object ≫= as_str;
              credential ← map_get "credential" object ≫= as_str;
              if negb (String.eqb header "") && negb (String.eqb credential "")
              then Some (PolicySignature header credential) else None
          else if negb (length object =? 1)%nat then None
          else
            match modes with
            | [mode] => single_mode mode
            | [pat; session] =>
                if is_text pat PAT_AUTHENTICATION_MODE && is_text session SESSION_AUTHENTICATION_MODE
                then Some PolicyPatAndSession else None
            | _ => None
            end
      | _ => None
      end
  | _ => None
  end.

(** ** The document *)

Record ServingComponentOperation := {
  so_registered_operation : option string;
  so_permissions : list string;
  so_committed_result_schema : option string;
  so_statements : list (string * ComponentSqlStatement);
}.

Record ServingComponent := {
  sv_package_id : string;
  sv_runtime_schema : option string;
  sv_descriptor : ComponentDescriptor;
  sv_operations : list (string * ServingComponentOperation);
  sv_statement_instances : list (string * list (string * ComponentSqlStatement));
}.

Record ServingRelation := { sl_schema : string; sl_relation : string }.

Record ServingRoute := {
  rt_package_id : string;
  rt_component : string;
  rt_operation : string;
  rt_type : OperationType;
  rt_reads : list ServingRelation;
  rt_revision : option string;
  rt_idempotency : option string;
  rt_canonicalization : option RouteCanonicalization;
}.

Inductive AttachmentType := HttpAttachment | InternalAttachment | StudioAttachment.

Record RouteAttachment := {
  at_type : AttachmentType;
  at_package_id : string;
  at_component : string;
  at_operation : string;
  at_definition_hash : string;
  at_definition : Value;
  at_auth_policy : Value;
  at_registered_operation : option string;
}.

Record ServingEntryMember := { me_package_id : string; me_component : string; me_digest : string }.
#[export] Instance ServingEntryMember_eq_dec : EqDecision ServingEntryMember.
Proof. solve_decision. Defined.

Record ServingComposedEntry := {
  en_reference : string;
  en_route_digest : string;
  en_application : ServingEntryMember;
  en_members : list ServingEntryMember;
}.

Record ServingManifest := {
  sm_format_version : Z;  (* u32 *)
  sm_packages : list PackageCoordinate;
  sm_components : list ServingComponent;
  sm_composed_entry : option ServingComposedEntry;
  sm_routes : list ServingRoute;
  sm_attachments : list (string * RouteAttachment);
  sm_host_routes : list HostRouteSet;
}.

(** ** Components of a release *)

#[export] Instance ComponentSqlValueType_eq_dec : EqDecision ComponentSqlValueType.
Proof. solve_decision. Defined.
#[export] Instance ComponentSqlField_eq_dec : EqDecision ComponentSqlField.
Proof. solve_decision. Defined.
#[export] Instance ComponentSqlStatement_eq_dec : EqDecision ComponentSqlStatement.
Proof. solve_decision. Defined.

Definition carries `{FloatText} (o : ServingComponentOperation) (admitted : AdmittedComponentOperation) : bool :=
  bool_decide (so_registered_operation o = ao_registered_operation admitted) &&
  bool_decide (so_committed_result_schema o =
    (λ s, canonical_json_bytes (schema s)) <$> ao_committed_result_schema admitted) &&
  match ao_registered_operation admitted with
  | Some registered => bool_decide (registered ∈ so_permissions o)
  | None => true
  end &&
  forallb (λ ps : string * ComponentSqlStatement,
    bool_decide (find_entry ps.1 (so_statements o) = Some ps.2)) (ao_statements admitted).

(** [ServingComponent::project]. *)
Definition project_operation_facts `{FloatText} (o : AdmittedComponentOperation) : ServingComponentOperation := {|
  so_registered_operation := ao_registered_operation o;
  so_permissions := match ao_registered_operation o with Some r => [r] | None => [] end;
  so_committed_result_schema := (λ s, canonical_json_bytes (schema s)) <$> ao_committed_result_schema o;
  so_statements := ao_statements o |}.

Definition project `{FloatText} (fact : AdmittedFact) (connections : list ComponentConnection) :
    result ServingComponent CatalogIdentityError :=
  let? _ := validate_digest (af_component_digest fact) "artifact-hash" in
  Ok {| sv_package_id := sc_package_id (af_scope fact); sv_runtime_schema := None;
        sv_descriptor := component_descriptor fact connections;
        sv_operations := prod_map (λ k, k) project_operation_facts <$> af_operations fact;
        sv_statement_instances := [] |}.

(** [BTreeMap::insert] of a statement, with the value it replaces. *)
Fixpoint statement_insert (path : string) (s : ComponentSqlStatement)
    (m : list (string * ComponentSqlStatement)) :
    list (string * ComponentSqlStatement) * option ComponentSqlStatement :=
  match m with
  | [] => ([(path, s)], None)
  | (p, t) :: m' =>
      match String.compare path p with
      | Lt => ((path, s) :: m, None)
      | Eq => ((path, s) :: m', Some t)
      | Gt => let '(m', old) := statement_insert path s m' in ((p, t) :: m', old)
      end
  end.

Fixpoint union_statements (statements : list (string * ComponentSqlStatement))
    (entries : list (string * ComponentSqlStatement)) :
    result (list (string * ComponentSqlStatement)) CatalogIdentityError :=
  match entries with
  | [] => Ok statements
  | (path, s) :: entries =>
      let '(statements, previous) := statement_insert path s statements in
      match previous with
      | Some p => if bool_decide (p = s) then union_statements statements entries else Err InvalidDefinition
      | None => union_statements statements entries
      end
  end.

Definition own_statements (operations : list (string * AdmittedComponentOperation)) :
    result (list (string * ComponentSqlStatement)) CatalogIdentityError :=
  union_statements [] (concat (ao_statements <$> operations.*2)).

Fixpoint instance_sets (base : string → option AdmittedFact)
    (own : list (string * AdmittedComponentOperation)) (overlay : option string)
    (instances : list (string * string)) :
    result (list (string * list (string * ComponentSqlStatement))) CatalogIdentityError :=
  match instances with
  | [] => Ok []
  | (name, digest) :: instances =>
      match base digest with
      | Some b =>
          let? set := own_statements (af_operations b) in
          let? sets := instance_sets base own overlay instances in
          Ok ((name, set) :: sets)
      | None =>
          match overlay with
          | Some _ => Err InvalidDefinition
          | None =>
              let? set := own_statements own in
              let? sets := instance_sets base own (Some name) instances in
              Ok ((name, set) :: sets)
          end
      end
  end.

(** [ServingComponent::with_statement_instances]. *)
Definition serve_statement_instances (c : ServingComponent) (instances : list (string * string))
    (base : string → option AdmittedFact) : result ServingComponent CatalogIdentityError :=
  let? sets := instance_sets base (de_operations (sv_descriptor c)) None instances in
  Ok {| sv_package_id := sv_package_id c; sv_runtime_schema := sv_runtime_schema c;
        sv_descriptor := with_statement_instances (sv_descriptor c) instances;
        sv_operations := sv_operations c; sv_statement_instances := sets |}.

(** ** Lookups *)

Definition is_member (c : ServingComponent) (m : ServingEntryMember) : bool :=
  String.eqb (sv_package_id c) (me_package_id m) &&
  String.eqb (de_component (sv_descriptor c)) (me_component m) &&
  String.eqb (de_component_digest (sv_descriptor c)) (me_digest m).

Definition entry_members (m : ServingManifest) : list ServingComponent :=
  match sm_composed_entry m with
  | None => []
  | Some entry => omap (λ e, find (λ c, is_member c e) (sm_components m)) (en_members entry)
  end.

Definition composing_member (m : ServingManifest) : option ServingComponent :=
  entry ← sm_composed_entry m;
  find (λ c, is_member c (en_application entry)) (sm_components m).

Definition manifest_route (m : ServingManifest) (package_id component operation : string) :
    option ServingRoute :=
  find (λ r, String.eqb (rt_package_id r) package_id && String.eqb (rt_component r) component &&
             String.eqb (rt_operation r) operation) (sm_routes m).

Inductive ServedAttachment :=
| AuthoredAttachment (a : RouteAttachment)
| HostRouteAttachment (a : HostAttachment).

Definition manifest_attachment (m : ServingManifest) (id : string) : option RouteAttachment :=
  find_entry id (sm_attachments m).

Definition manifest_host_attachment (m : ServingManifest) (id : string) : option HostAttachment :=
  list_find (λ set, is_Some (attachment set id)) (sm_host_routes m) ≫= λ '(_, set), attachment set id.

Definition served_attachment (m : ServingManifest) (id : string) : option ServedAttachment :=
  match manifest_attachment m id with
  | Some a => Some (AuthoredAttachment a)
  | None => HostRouteAttachment <$> manifest_host_attachment m id
  end.

Definition signs_file_results (m : ServingManifest) (package component operation : string) : bool :=
  match find (λ c, String.eqb (sv_package_id c) package &&
                   String.eqb (de_component (sv_descriptor c)) component) (sm_components m)
        ≫= λ c, find_entry operation (de_operations (sv_descriptor c)) with
  | Some o => existsb (λ p, bool_decide (is_Some (get SIGNED_FILE_READS (schema (port_schema p)))))
                (ao_output_ports o)
  | None => false
  end.

(** ** Validation *)

(** [package_versions]: the package ids of the release and their versions. *)
Fixpoint collect_versions (versions : gmap string string) (packages : list PackageCoordinate) :
    result (gmap string string) CatalogIdentityError :=
  match packages with
  | [] => Ok versions
  | p :: packages =>
      match versions !! package_id p with
      | Some _ => Err (DuplicateMember "release-packages" (package_id p))
      | None => collect_versions (<[package_id p := package_version p]> versions) packages
      end
  end.

Definition validate_composed_entry_path (path : string) : result unit CatalogIdentityError :=
  match strip_prefix "entries" path ≫= strip_prefix "@" with
  | Some digest => if valid_digest digest then Ok tt else Err InvalidDefinition
  | None => Err InvalidDefinition
  end.

Definition validate_entry_reference (reference : string) : result unit CatalogIdentityError :=
  match strip_prefix "file:" reference with
  | Some path => if negb (starts_with path "/") then Err InvalidDefinition else Ok tt
  | None => validate_composed_entry_path reference
  end.

Fixpoint validate_members (components : list ServingComponent) (identities : list (string * string))
    (members : list ServingEntryMember) : result (list (string * string)) CatalogIdentityError :=
  match members with
  | [] => Ok identities
  | e :: members =>
      let? _ := validate_digest (me_digest e) "artifact-hash" in
      if bool_decide ((me_package_id e, me_component e) ∈ identities) then Err InvalidDefinition
      else if negb (existsb (λ c, is_member c e) components) then Err InvalidDefinition
      else validate_members components ((me_package_id e, me_component e) :: identities) members
  end.

Definition validate_composed_entry (m : ServingManifest) (entry : ServingComposedEntry) :
    result unit CatalogIdentityError :=
  let? _ := validate_entry_reference (en_reference entry) in
  let? _ := validate_digest (en_route_digest entry) "artifact-hash" in
  match en_members entry with
  | [] => Err InvalidDefinition
  | members =>
      if negb (bool_decide (en_application entry ∈ members)) then Err InvalidDefinition
      else
        let? identities := validate_members (sm_components m) [] members in
        if existsb (λ r, negb (bool_decide ((rt_package_id r, rt_component r) ∈ identities))) (sm_routes m)
        then Err InvalidDefinition else Ok tt
  end.

Definition is_ascii_alphabetic (b : Ascii.ascii) : bool := is_ascii_lowercase b || is_ascii_uppercase b.

(** A bare PostgreSQL identifier. *)
Definition valid_runtime_schema (s : string) : bool :=
  match s with
  | EmptyString => false
  | String b rest =>
      (String.length s <=? 63)%nat && (Ascii.eqb b underscore || is_ascii_alphabetic b) &&
      all_bytes (λ b, Ascii.eqb b underscore || is_ascii_alphabetic b || is_ascii_digit b) rest
  end.

Definition validate_package_member (versions : gmap string string) (package_id : string) :
    result unit CatalogIdentityError :=
  let? _ := validate_text package_id "package-id" in
  match versions !! package_id with None => Err InvalidDefinition | Some _ => Ok tt end.

Definition validate_registered_operation (versions : gmap string string) (package_id : string)
    (operation : option string) : run (result unit CatalogIdentityError) :=
  match operation with
  | None => Ret (Ok tt)
  | Some operation =>
      let! version := expect (versions !! package_id)
        "package membership was validated before operation identity" in
      Ret (validate_canonical_operation_for_package operation package_id version)
  end.

Definition validate_release_operation (versions : gmap string string) (operation : string) :
    result unit CatalogIdentityError :=
  if existsb (λ pv : string * string, is_ok (validate_canonical_operation_for_package operation pv.1 pv.2))
       (map_to_list versions)
  then Ok tt else Err InvalidDefinition.

(** A check of every element, in order. *)
Fixpoint check_all {A E} (f : A → run (result unit E)) (l : list A) : run (result unit E) :=
  match l with
  | [] => Ret (Ok tt)
  | a :: l => let?! _ := f a in check_all f l
  end.

Definition validate_serving_operation `{JsonText, FloatText, Boon} (versions : gmap string string)
    (package_id : string) (eo : string * ServingComponentOperation) :
    run (result unit CatalogIdentityError) :=
  let '(export, o) := eo in
  let?! _ := Ret (validate_text export "component-operation") in
  let?! _ := validate_registered_operation versions package_id (so_registered_operation o) in
  let registered := so_registered_operation o in
  if match registered with Some r => negb (bool_decide (r ∈ so_permissions o)) | None => false end
  then Ret (Err InvalidDefinition)
  else
    let?! _ := check_all (λ p, Ret (validate_release_operation versions p)) (so_permissions o) in
    if match registered with Some r => negb (String.eqb r export) | None => false end
    then Ret (Err InvalidDefinition)
    else
      let?! _ := Ret
        match so_committed_result_schema o with
        | None => Ok tt
        | Some text =>
            match parse_json text with
            | None => Err InvalidDefinition
            | Some value =>
                if negb (String.eqb (canonical_json_bytes value) text) then Err InvalidDefinition
                else
                  map_err (let? s := normalize_schema value in
                           validate_committed_result_schema registered (Some s)) InvalidDefinition
            end
        end in
      Ret (map_err (validate_operation_statement_facts (so_statements o)) InvalidDefinition).

Definition validate_serving_component `{JsonText, FloatText, Boon} (versions : gmap string string)
    (schemas : gmap string (option string)) (c : ServingComponent) :
    run (result (gmap string (option string)) CatalogIdentityError) :=
  if match sv_runtime_schema c with Some s => negb (valid_runtime_schema s) | None => false end
  then Ret (Err InvalidDefinition)
  else if match schemas !! sv_package_id c with
          | Some previous => negb (bool_decide (previous = sv_runtime_schema c))
          | None => false
          end
  then Ret (Err InvalidDefinition)
  else
    let?! _ := Ret (validate_package_member versions (sv_package_id c)) in
    let descriptor := sv_descriptor c in
    let?! _ := Ret (validate_text (de_component descriptor) "component") in
    let?! _ := Ret (validate_text (de_interface_version descriptor) "interface-version") in
    let?! _ := Ret (validate_digest (de_component_digest descriptor) "artifact-hash") in
    match sv_operations c with
    | [] => Ret (Err InvalidDefinition)
    | _ =>
        let?! _ := check_all (λ eo : string * AdmittedComponentOperation,
          Ret (match signed_file_reads eo.2 with Ok _ => Ok tt | Err _ => Err InvalidDefinition end))
          (de_operations descriptor) in
        let?! _ := check_all (validate_serving_operation versions (sv_package_id c)) (sv_operations c) in
        Ret (Ok (<[sv_package_id c := sv_runtime_schema c]> schemas))
    end.

Fixpoint validate_serving_components `{JsonText, FloatText, Boon} (versions : gmap string string)
    (schemas : gmap string (option string)) (components : list ServingComponent) :
    run (result unit CatalogIdentityError) :=
  match components with
  | [] => Ret (Ok tt)
  | c :: components =>
      let?! schemas := validate_serving_component versions schemas c in
      validate_serving_components versions schemas components
  end.

(** The components that export a route's operation. *)
Definition provides (r : ServingRoute) (c : ServingComponent) : bool :=
  String.eqb (sv_package_id c) (rt_package_id r) &&
  String.eqb (de_component (sv_descriptor c)) (rt_component r) &&
  bool_decide (is_Some (find_entry (rt_operation r) (sv_operations c))).

Definition route_key (r : ServingRoute) : string * string * string :=
  (rt_package_id r, rt_component r, rt_operation r).

Fixpoint validate_routes (versions : gmap string string) (components : list ServingComponent)
    (seen : list (string * string * string)) (routes : list ServingRoute) :
    result (list (string * string * string)) CatalogIdentityError :=
  match routes with
  | [] => Ok seen
  | r :: routes =>
      let? _ := validate_package_member versions (rt_package_id r) in
      let? _ := validate_text (rt_component r) "component" in
      let? _ := validate_text (rt_operation r) "operation" in
      if bool_decide (rt_type r = EventHandler) then Err InvalidDefinition
      else if negb (length (filter (λ c, provides r c = true) components) =? 1)%nat
      then Err InvalidDefinition
      else if bool_decide (route_key r ∈ seen) then Err InvalidDefinition
      else validate_routes versions components (route_key r :: seen) routes
  end.

Definition validate_route_target (routes : list (string * string * string)) (a : RouteAttachment) :
    result unit CatalogIdentityError :=
  let? _ := validate_text (at_component a) "component" in
  let? _ := validate_text (at_operation a) "operation" in
  if negb (bool_decide ((at_package_id a, at_component a, at_operation a) ∈ routes))
  then Err (UnresolvableManifestRoute (at_package_id a) (at_component a) (at_operation a))
  else if match at_registered_operation a with
          | Some r => negb (String.eqb r (at_operation a))
          | None => false
          end
  then Err InvalidDefinition else Ok tt.

Definition RETIRED_KEYS : list string :=
  ["flow-id"; "flow_id"; "plan-hash"; "plan_hash"; "calls"; "callable-contract"; "source-artifact";
   "binding-base-artifact"].

Fixpoint contains_retired_identity (value : Value) : bool :=
  match value with
  | VObject object =>
      existsb (λ kv : string * Value,
        bool_decide (kv.1 ∈ RETIRED_KEYS) || contains_retired_identity kv.2) object
  | VArray values => existsb contains_retired_identity values
  | _ => false
  end.

Definition validate_attachment (versions : gmap string string) (id : string) (a : RouteAttachment) :
    run (result unit CatalogIdentityError) :=
  if negb (is_object (at_definition a)) then Ret (Err InvalidDefinition)
  else
    match parse_attachment_auth_policy (at_auth_policy a) with
    | None => Ret (Err (InvalidAttachmentAuthPolicy id))
    | Some policy =>
        if has_no_caller policy && bool_decide (is_Some (at_registered_operation a))
        then Ret (Err (UnauthenticatedRegisteredOperation id))
        else if contains_retired_identity (at_definition a) || contains_retired_identity (at_auth_policy a)
        then Ret (Err InvalidDefinition)
        else validate_registered_operation versions (at_package_id a) (at_registered_operation a)
    end.

Definition validate_manifest_attachment (versions : gmap string string)
    (routes : list (string * string * string)) (ia : string * RouteAttachment) :
    run (result unit CatalogIdentityError) :=
  let '(id, a) := ia in
  let?! _ := Ret (validate_text id "attachment-id") in
  let?! _ := Ret (validate_package_member versions (at_package_id a)) in
  let?! _ := Ret (validate_route_target routes a) in
  validate_attachment versions id a.

(** [ServingManifest::validate]. *)
Definition validate_manifest `{JsonText, FloatText, Boon} (m : ServingManifest) :
    run (result unit CatalogIdentityError) :=
  if negb (sm_format_version m =? SERVING_MANIFEST_FORMAT_VERSION)%Z
  then Ret (Err (UnsupportedServingManifestVersion (decimal_text (sm_format_version m))))
  else
    match sm_packages m with
    | [] => Ret (Err InvalidDefinition)
    | _ =>
        let?! versions := Ret (collect_versions ∅ (sm_packages m)) in
        let?! _ := Ret
          match sm_composed_entry m with
          | None => Ok tt
          | Some entry => validate_composed_entry m entry
          end in
        let?! _ := validate_serving_components versions ∅ (sm_components m) in
        let?! routes := Ret (validate_routes versions (sm_components m) [] (sm_routes m)) in
        check_all (validate_manifest_attachment versions routes) (sm_attachments m)
    end.

(** ** Admission of the bytes *)

Class ManifestCodec := {
  decode_manifest : Value → option ServingManifest;
  encode_manifest : ServingManifest → Value;
}.

Definition within_delivery_limit (bytes : Z) : result unit CatalogIdentityError :=
  if (MAX_SERVING_MANIFEST_BYTES <? bytes)%Z
  then Err (ManifestTooLarge bytes MAX_SERVING_MANIFEST_BYTES) else Ok tt.

Definition validate_format_version `{JsonPrint} (document : Value) : result unit CatalogIdentityError :=
  match get "format-version" document with
  | None => Err InvalidDefinition
  | Some version =>
      if bool_decide (as_u64 version = Some SERVING_MANIFEST_FORMAT_VERSION) then Ok tt
      else Err (UnsupportedServingManifestVersion
                  match version with VString value => value | other => print_json other end)
  end.

(** [Map::remove]. *)
Definition without_key (k : string) (v : Value) : run Value :=
  match v with
  | VObject m => Ret (VObject (filter (λ kv : string * Value, kv.1 ≠ k) m))
  | _ => Panic "validated manifest object"
  end.

Definition from_canonical_bytes `{JsonText, JsonPrint, ManifestCodec, FloatText, Sha256, Boon}
    (bytes : string) : run (result (ServingManifest * string) CatalogIdentityError) :=
  let?! _ := Ret (within_delivery_limit (Z.of_nat (String.length bytes))) in
  match parse_json bytes with
  | None => Ret (Err InvalidDefinition)
  | Some document =>
      let?! _ := Ret (validate_format_version document) in
      let! current := without_key "workflow" document in
      if match get "composed-entry" current with
         | Some (VObject entry) => negb (bool_decide (is_Some (map_get "application" entry)))
         | _ => false
         end
      then Ret (Err InvalidDefinition)
      else
        match decode_manifest current with
        | None => Ret (Err InvalidDefinition)
        | Some m =>
            let?! _ := validate_manifest m in
            if negb (value_eqb (encode_manifest m) current)
               || negb (String.eqb (canonical_json_bytes document) bytes)
            then Ret (Err NonCanonicalJson)
            else
              let! digest := expect (result_ok (definition_hash (canonical_json_sha256 document)))
                "the shared canonicalizer emits a canonical sha256 digest" in
              Ret (Ok (m, digest))
        end
  end.

(** ** What a validated manifest fixes *)

(** The version the release pins for a package. *)
Definition release_version (m : ServingManifest) (p v : string) : Prop :=
  {| package_id := p; package_version := v |} ∈ sm_packages m.

Lemma collect_versions_inv versions packages versions' :
  collect_versions versions packages = Ok versions' →
  NoDup (package_id <$> packages) ∧ (∀ p, p ∈ package_id <$> packages → versions !! p = None) ∧
  ∀ p v, versions' !! p = Some v ↔
    versions !! p = Some v ∨ {| package_id := p; package_version := v |} ∈ packages.
Proof.
  revert versions. induction packages as [|[p v] packages IH]; intros versions; simpl.
  { intros [= <-]. repeat split; [constructor|set_solver|intros; by left|intros [?|?%elem_of_nil]; done]. }
  destruct (versions !! p) eqn:Hp; [done|]. intros (Hnd & Hfresh & Hv)%IH.
  split; [constructor; [|done]; intros Hin; apply Hfresh in Hin; by rewrite lookup_insert_eq in Hin|]. split.
  - intros q [->|Hq]%elem_of_cons; [done|]. apply Hfresh in Hq.
    destruct (decide (p = q)) as [->|Hne]; [by rewrite lookup_insert_eq in Hq|by rewrite lookup_insert_ne in Hq].
  - intros q w. rewrite Hv, elem_of_cons. destruct (decide (p = q)) as [->|Hne].
    + rewrite lookup_insert_eq. split; [intros [[= ->]|?]; [right; by left|right; by right]|].
      intros [?|[[= ->]|?]]; [congruence|by left|by right].
    + rewrite lookup_insert_ne by done. split; [intros [?|?]; [by left|right; by right]|].
      intros [?|[[= -> ->]|?]]; [by left|done|by right].
Qed.

Lemma check_all_ret {A E} (f : A → run (result unit E)) l :
  (∀ a, a ∈ l → ∃ res, f a = Ret res) → ∃ res, check_all f l = Ret res.
Proof.
  induction l as [|a l IH]; intros Hf; simpl; [by eexists|]. unfold try_bind.
  destruct (Hf a) as [[[]|] Ea]; [left| |rewrite Ea; by eexists]. rewrite Ea. simpl. apply IH. intros b Hb. apply Hf. by right.
Qed.

Lemma check_all_ok {A E} (f : A → run (result unit E)) l :
  check_all f l = Ret (Ok tt) → ∀ a, a ∈ l → f a = Ret (Ok tt).
Proof.
  induction l as [|a l IH]; simpl; [by intros _ a ?%elem_of_nil|]. unfold try_bind.
  destruct (f a) as [[[]|]|] eqn:Ea; [simpl|done..]. intros Hl b [->|Hb]%elem_of_cons; [done|]. by apply IH.
Qed.

Lemma validate_routes_inv versions components seen routes seen' :
  validate_routes versions components seen routes = Ok seen' →
  (∀ k, k ∈ seen' ↔ k ∈ seen ∨ k ∈ route_key <$> routes) ∧
  (∀ r, r ∈ routes → rt_type r ≠ EventHandler ∧ is_Some (versions !! rt_package_id r) ∧
     length (filter (λ c, provides r c = true) components) = 1%nat) ∧
  NoDup (route_key <$> routes) ∧ (∀ k, k ∈ route_key <$> routes → k ∉ seen).
Proof.
  revert seen. induction routes as [|r routes IH]; intros seen; simpl.
  { intros [= <-]. split; [intros k; rewrite elem_of_nil; tauto|]. split; [set_solver|].
    split; [constructor|set_solver]. }
  unfold validate_package_member. destruct (validate_text (rt_package_id r) _); [simpl|done].
  destruct (versions !! rt_package_id r) as [v|] eqn:Ev; [simpl|done].
  destruct (validate_text (rt_component r) _); [simpl|done].
  destruct (validate_text (rt_operation r) _); [simpl|done].
  case_bool_decide as Ht; [done|].
  destruct (Nat.eqb_spec (length (filter (λ c, provides r c = true) components)) 1) as [Hl|]; [simpl|done].
  case_bool_decide as Hs; [done|]. intros Er. destruct (IH _ Er) as (Hk & Hr & Hnd & Hfresh). split.
  - intros k. rewrite Hk, !elem_of_cons. tauto.
  - split; [intros r' [->|Hin]%elem_of_cons; [by rewrite Ev|by apply Hr]|]. split.
    + constructor; [|done]. intros Hin. apply Hfresh in Hin. apply Hin. left.
    + intros k [->|Hin]%elem_of_cons; [done|]. apply Hfresh in Hin. set_solver.
Qed.

Lemma validate_registered_ret versions p o :
  is_Some (versions !! p) → ∃ res, validate_registered_operation versions p o = Ret res.
Proof. intros [v Hv]. destruct o; simpl; [rewrite Hv|]; by eexists. Qed.

Lemma validate_package_member_inv versions p :
  validate_package_member versions p = Ok tt → is_Some (versions !! p).
Proof.
  unfold validate_package_member. destruct (validate_text p _); [simpl|done].
  destruct (versions !! p); [by eexists|done].
Qed.

Lemma validate_attachment_ret versions routes ia :
  ∃ res, validate_manifest_attachment versions routes ia = Ret res.
Proof.
  destruct ia as [id a]. simpl. unfold try_bind. simpl.
  destruct (validate_text id _) as [[]|]; [|by eexists].
  destruct (validate_package_member versions _) as [[]|] eqn:Em; [|by eexists].
  destruct (validate_route_target routes a) as [[]|]; [|by eexists].
  unfold validate_attachment. destruct (negb _); [by eexists|].
  destruct (parse_attachment_auth_policy _) as [policy|]; [|by eexists].
  destruct (has_no_caller policy && _); [by eexists|]. destruct (contains_retired_identity _ || _); [by eexists|].
  by apply validate_registered_ret, validate_package_member_inv.
Qed.

Section ManifestProps.
Context `{JsonText, FloatText, Boon}.

Lemma validate_serving_operation_ret versions p eo :
  is_Some (versions !! p) → ∃ res, validate_serving_operation versions p eo = Ret res.
Proof.
  intros Hp. destruct eo as [e o]. unfold validate_serving_operation, try_bind. simpl.
  destruct (validate_text e _) as [[]|]; [|by eexists].
  destruct (validate_registered_ret versions p (so_registered_operation o) Hp) as [[[]|] ->]; [simpl|by eexists].
  case_match; [by eexists|].
  destruct (check_all_ret (λ p, Ret (validate_release_operation versions p)) (so_permissions o)) as [res ->];
    [by eexists|]. simpl. destruct res as [[]|]; [|by eexists].
  match goal with |- ∃ _, (if ?b then _ else _) = _ => destruct b; [by eexists|] end. simpl.
  match goal with |- ∃ _, match ?r with Ok _ => _ | Err _ => _ end = _ => destruct r; by eexists end.
Qed.

Lemma validate_serving_component_ret versions schemas c :
  ∃ res, validate_serving_component versions schemas c = Ret res ∧
    (is_ok res = true → is_Some (versions !! sv_package_id c)).
Proof.
  unfold validate_serving_component, try_bind.
  do 2 match goal with |- ∃ _, (if ?b then _ else _) = _ ∧ _ => destruct b; [by eexists|] end. simpl.
  destruct (validate_package_member versions _) as [[]|] eqn:Em; [|by eexists].
  apply validate_package_member_inv in Em.
  destruct (validate_text (de_component _) _) as [[]|]; [|by eexists].
  destruct (validate_text (de_interface_version _) _) as [[]|]; [|by eexists].
  destruct (validate_digest _ _) as [[]|]; [|by eexists].
  destruct (sv_operations c) as [|eo eos] eqn:Eo; [by eexists|]. rewrite <- Eo.
  destruct (check_all_ret (λ eo : string * AdmittedComponentOperation,
    Ret (match signed_file_reads eo.2 with Ok _ => Ok tt | Err _ => Err InvalidDefinition end))
    (de_operations (sv_descriptor c))) as [res ->]; [by eexists|]. simpl. destruct res as [[]|]; [|by eexists].
  destruct (check_all_ret (validate_serving_operation versions (sv_package_id c)) (sv_operations c))
    as [res ->]; [intros; by apply validate_serving_operation_ret|]. simpl.
  destruct res as [[]|]; by eexists.
Qed.

Lemma validate_serving_components_ret versions schemas components :
  ∃ res, validate_serving_components versions schemas components = Ret res ∧
    (res = Ok tt → ∀ c, c ∈ components → is_Some (versions !! sv_package_id c)).
Proof.
  revert schemas. induction components as [|c components IH]; intros schemas; simpl.
  { eexists. split; [done|]. by intros _ c ?%elem_of_nil. }
  unfold try_bind. destruct (validate_serving_component_ret versions schemas c) as (res & -> & Hc). simpl.
  destruct res as [schemas'|]; [|by eexists]. destruct (IH schemas') as (res & -> & Hres).
  eexists. split; [done|]. intros ->. intros c' [->|Hin]%elem_of_cons; [by apply Hc|by apply Hres].
Qed.

(** What an attachment of a validated manifest resolves to. *)
Record attachment_resolves (m : ServingManifest) (a : RouteAttachment) : Prop := {
  ar_route : ∃ r c, manifest_route m (at_package_id a) (at_component a) (at_operation a) = Some r ∧
    rt_type r ≠ EventHandler ∧ filter (λ c, provides r c = true) (sm_components m) = [c];
  ar_policy : ∃ policy, parse_attachment_auth_policy (at_auth_policy a) = Some policy ∧
    (is_Some (at_registered_operation a) → has_no_caller policy = false);
  ar_operation : ∀ o, at_registered_operation a = Some o → o = at_operation a ∧
    ∃ v, release_version m (at_package_id a) v ∧
         validate_canonical_operation_for_package o (at_package_id a) v = Ok tt;
}.

Lemma manifest_route_key m k :
  k ∈ route_key <$> sm_routes m →
  ∃ r, manifest_route m k.1.1 k.1.2 k.2 = Some r ∧ r ∈ sm_routes m.
Proof.
  intros (r & -> & Hin)%list_elem_of_fmap. unfold manifest_route.
  destruct (find _ (sm_routes m)) as [r'|] eqn:E; [exists r'; split; [done|by apply find_elem in E as [? _]]|].
  apply list_elem_of_In in Hin. apply (find_none _ _ E) in Hin. simpl in Hin. by rewrite !String.eqb_refl in Hin.
Qed.

Lemma validated_attachment m versions routes id a :
  collect_versions ∅ (sm_packages m) = Ok versions →
  validate_routes versions (sm_components m) [] (sm_routes m) = Ok routes →
  validate_manifest_attachment versions routes (id, a) = Ret (Ok tt) → attachment_resolves m a.
Proof.
  intros (_ & _ & Hv)%collect_versions_inv (Hk & Hr & _)%validate_routes_inv.
  simpl. unfold try_bind. simpl. destruct (validate_text id _) as [[]|]; [|done].
  destruct (validate_package_member versions _) as [[]|] eqn:Em; [|done].
  destruct (validate_route_target routes a) as [[]|] eqn:Et; [|done].
  unfold validate_route_target in Et. destruct (validate_text (at_component a) _); [simpl in Et|done].
  destruct (validate_text (at_operation a) _); [simpl in Et|done].
  case_bool_decide as Hin; [simpl in Et|done]. unfold validate_attachment.
  destruct (is_object (at_definition a)); [simpl|done].
  destruct (parse_attachment_auth_policy (at_auth_policy a)) as [policy|] eqn:Ep; [|done].
  destruct (has_no_caller policy && _) eqn:Ec; [done|].
  destruct (contains_retired_identity _ || _); [done|]. intros Ho. constructor.
  - apply Hk in Hin as [[]%elem_of_nil|Hin]. apply manifest_route_key in Hin as (r & E & Hin). simpl in E.
    destruct (Hr _ Hin) as (Ht & _ & Hl). destruct (filter _ (sm_components m)) as [|c [|]] eqn:Ef; try done.
    exists r, c. done.
  - exists policy. split; [done|]. intros Hs. destruct (has_no_caller policy); [|done].
    simpl in Ec. by apply bool_decide_eq_false in Ec.
  - intros o Eo. rewrite Eo in *. simpl in Ho. destruct (String.eqb_spec o (at_operation a)); [|done].
    split; [done|]. apply validate_package_member_inv in Em as [v Ev]. rewrite Ev in Ho. cbn [expect run_bind] in Ho.
    injection Ho as Ho. exists v. split; [|done]. by apply Hv in Ev as [?%lookup_empty_Some|?].
Qed.

Lemma validate_manifest_spec m :
  ∃ res, validate_manifest m = Ret res ∧ (res = Ok tt →
    NoDup (package_id <$> sm_packages m) ∧
    (∀ c, c ∈ sm_components m → ∃ v, release_version m (sv_package_id c) v) ∧
    (∀ id a, (id, a) ∈ sm_attachments m → attachment_resolves m a)).
Proof.
  unfold validate_manifest, try_bind. case_match; [by eexists|].
  destruct (sm_packages m) as [|p ps] eqn:Epk; [by eexists|]. rewrite <- Epk. simpl.
  destruct (collect_versions ∅ (sm_packages m)) as [versions|] eqn:Ev; [|by eexists].
  set (entry := match sm_composed_entry m with None => Ok tt | Some e => validate_composed_entry m e end).
  destruct entry as [[]|]; [|by eexists].
  destruct (validate_serving_components_ret versions ∅ (sm_components m)) as (res & -> & Hc). simpl.
  destruct res as [[]|]; [|by eexists].
  destruct (validate_routes versions (sm_components m) [] (sm_routes m)) as [routes|] eqn:Er; [|by eexists].
  destruct (check_all_ret (validate_manifest_attachment versions routes) (sm_attachments m)) as [res E];
    [intros; apply validate_attachment_ret|].
  rewrite E. exists res. split; [done|]. intros ->.
  pose proof (collect_versions_inv _ _ _ Ev) as (Hnd & _ & Hv). split; [done|]. split.
  - intros c Hin. destruct (Hc eq_refl c Hin) as [v Hsome]. exists v.
    by apply Hv in Hsome as [?%lookup_empty_Some|?].
  - intros id a Hin. eapply validated_attachment; [done..|]. by apply (check_all_ok _ _ E).
Qed.

End ManifestProps.

(** C17. An admitted release fixes what each attachment calls.  Bytes are admitted
    only when they are within the delivery limit and are the canonical form of the
    document they carry, of which the manifest, encoded again, is everything but a
    [workflow] member; and the digest reported is the digest of exactly those bytes.
    In the manifest, a package has one version, every component is of a package of the
    release, and every attachment names a declared route that one component of the
    release exports; it carries a readable authentication policy; and an attachment
    with a registered operation names its route's operation, canonical for its own
    package version, and never admits a request without a caller. *)
Theorem admitted_manifest_resolves `{JsonText, JsonPrint, ManifestCodec, FloatText, Boon} `{Sha256Law}
    (bytes : string) (m : ServingManifest) (digest : string) :
  from_canonical_bytes bytes = Ret (Ok (m, digest)) →
  digest = bytes_sha256 bytes ∧ (Z.of_nat (String.length bytes) ≤ MAX_SERVING_MANIFEST_BYTES)%Z ∧
  (∃ document current, parse_json bytes = Some document ∧ canonical_json_bytes document = bytes ∧
     without_key "workflow" document = Ret current ∧ decode_manifest current = Some m ∧
     value_eqb (encode_manifest m) current = true) ∧
  NoDup (package_id <$> sm_packages m) ∧
  (∀ c, c ∈ sm_components m → ∃ v, release_version m (sv_package_id c) v) ∧
  ∀ id a, manifest_attachment m id = Some a → attachment_resolves m a.
Proof.
  unfold from_canonical_bytes, try_bind. simpl.
  destruct (within_delivery_limit _) as [[]|] eqn:Ew; [|done].
  unfold within_delivery_limit in Ew. destruct (Z.ltb_spec MAX_SERVING_MANIFEST_BYTES (Z.of_nat (String.length bytes)));
    [done|]. destruct (parse_json bytes) as [document|]; [|done].
  destruct (validate_format_version document) as [[]|]; [|done].
  destruct (without_key "workflow" document) as [current|] eqn:Ewk; [simpl|done].
  match goal with |- (if ?b then _ else _) = _ → _ => destruct b; [done|] end.
  destruct (decode_manifest current) as [m'|] eqn:Edec; [|done].
  destruct (validate_manifest_spec m') as (res & -> & Hres). simpl. destruct res as [[]|]; [|done].
  destruct (negb _ || negb _) eqn:Ec; [done|].
  apply orb_false_iff in Ec as [Een%negb_false_iff Ec%negb_false_iff%String.eqb_eq].
  unfold definition_hash, validate_digest. unfold canonical_json_sha256. rewrite bytes_sha256_valid. simpl.
  intros [= <- <-]. rewrite Ec. destruct (Hres eq_refl) as (? & ? & Ha).
  do 2 (split; [done|]). split; [by exists document, current|].
  repeat (split; [done|]). intros id a Hin%find_entry_elem. by eapply Ha.
Qed.

(** ** A concrete release *)

Module ManifestSample.

Import AdmissionSample.

(** The component of [AdmissionSample] as its release serves it. *)
Definition served : list ServingComponent :=
  match admitted with
  | Some f => option_list (result_ok (project (facts_component f) (facts_connections f)))
  | None => []
  end.

Definition post_route : ServingRoute := {|
  rt_package_id := "orders"; rt_component := "orders"; rt_operation := "orders:order/post@1.2.0";
  rt_type := Command; rt_reads := []; rt_revision := None; rt_idempotency := None;
  rt_canonicalization := None |}.

Definition post_attachment : RouteAttachment := {|
  at_type := HttpAttachment; at_package_id := "orders"; at_component := "orders";
  at_operation := "orders:order/post@1.2.0"; at_definition_hash := digest; at_definition := VObject [];
  at_auth_policy := VObject [("modes", VArray [VString "pat"; VString "session"])];
  at_registered_operation := Some "orders:order/post@1.2.0" |}.

Definition release : ServingManifest := {|
  sm_format_version := 11; sm_packages := [{| package_id := "orders"; package_version := "1.2.0" |}];
  sm_components := served; sm_composed_entry := None; sm_routes := [post_route];
  sm_attachments := [("post", post_attachment)]; sm_host_routes := [] |}.

(** A document of its version, read as the release. *)
Definition document : Value := VObject [("format-version", VNumber (PosInt 11))].
Definition release_bytes : string := canonical_json_bytes document.
#[export] Instance texts : JsonText :=
  λ s, if String.eqb s release_bytes then Some document else Some (VObject []).
#[export] Instance prints : JsonPrint := λ _, "".
#[export] Instance codec : ManifestCodec :=
  {| decode_manifest := λ _, Some release; encode_manifest := λ _, document |}.
#[export] Instance prefix_law : Sha256Law.
Proof.
  intros s. unfold sha256, prefix_digest. rewrite length_take, length_app, length_replicate. lia.
Qed.

Lemma admitted_manifest_resolves_witness :
  from_canonical_bytes release_bytes = Ret (Ok (release, bytes_sha256 release_bytes)) ∧
  attachment_resolves release post_attachment.
Proof.
  assert (E : from_canonical_bytes release_bytes = Ret (Ok (release, bytes_sha256 release_bytes)))
    by (vm_compute; reflexivity).
  split; [exact E|].
  destruct (admitted_manifest_resolves release_bytes release (bytes_sha256 release_bytes) E)
    as (_ & _ & _ & _ & _ & Ha).
  apply (Ha "post"). vm_compute. reflexivity.
Defined.

(** A registered operation behind a signature is refused. *)
Example unauthenticated_operation :
  validate_manifest {| sm_format_version := 11; sm_packages := sm_packages release;
    sm_components := served; sm_composed_entry := None; sm_routes := [post_route];
    sm_attachments := [("post", {|
      at_type := HttpAttachment; at_package_id := "orders"; at_component := "orders";
      at_operation := "orders:order/post@1.2.0"; at_definition_hash := digest; at_definition := VObject [];
      at_auth_policy := VObject [("modes", VArray [VString "none"])];
      at_registered_operation := Some "orders:order/post@1.2.0" |})]; sm_host_routes := [] |} =
  Ret (Err (UnauthenticatedRegisteredOperation "post")).
Proof. vm_compute. reflexivity. Qed.

End ManifestSample.
