(* ===== verification/WiringDocuments.v ===== *)
(** * The authored wiring document

    [crates/catalog/model/src/wiring.rs]: the document a workflow row stores, its
    serialized form and hash, and its validation; with the test cases it carries,
    [test_set.rs] and [expect.rs] of [apps/platform/execution/contract/src].
    [graph_of] is the part the lowering reads.  Decoding a stored document is a
    derived [Deserialize] and is not modelled. *)

From stdpp Require Import base tactics option list gmap strings sorting.
From Stdlib Require Import ZArith Lia.
From S2P Require Import Prelude Text Json Canonical Router Capabilities Packages ComponentFacts Driver Lowering.
#[local] Set Warnings "-clear-no-such-hyp".
Open Scope wamn_scope.

(** ** Test cases *)

Inductive ExpectedOutcome := Responded | Failed.
Inductive WiringFailureKind :=
| KTerminal | KRetryExhausted | KInvalidInput | KRunawayBudget | KEffectUncertain
| KDepthBudget | KDispatchBudget.

Record Expect := {
  ex_outcome : ExpectedOutcome;
  ex_status : option Z;  (* u16 *)
  ex_body_subset : option Value;
  ex_failure_code : option WiringFailureKind;
}.

Inductive ExpectErrorType := ResponseStatus | RespondedFailureCode | FailedResponseFields.

(** [Expect::validate]. *)
Definition validate_expect (e : Expect) : result unit ExpectErrorType :=
  if match ex_status e with
     | Some status => negb ((100 <=? status)%Z && (status <=? 599)%Z)
     | None => false
     end
  then Err ResponseStatus
  else
    match ex_outcome e with
    | Responded => match ex_failure_code e with Some _ => Err RespondedFailureCode | None => Ok tt end
    | Failed =>
        match ex_status e, ex_body_subset e with
        | None, None => Ok tt
        | _, _ => Err FailedResponseFields
        end
    end.

Record TestSetCase := { tc_case_id : string; tc_input : Value; tc_expect : Expect }.

Inductive TestSetCasesErrorType :=
| EmptyCases | CaseCountOverflow | EmptyCaseId | DuplicateCaseId | InvalidExpect.

Definition MAX_TEST_SET_CASES : nat := 256.

Fixpoint check_cases (case_ids : list string) (cases : list TestSetCase) :
    result unit TestSetCasesErrorType :=
  match cases with
  | [] => Ok tt
  | c :: cases =>
      if String.eqb (tc_case_id c) "" then Err EmptyCaseId
      else if bool_decide (tc_case_id c ∈ case_ids) then Err DuplicateCaseId
      else
        match validate_expect (tc_expect c) with
        | Err _ => Err InvalidExpect
        | Ok _ => check_cases (tc_case_id c :: case_ids) cases
        end
  end.

Definition validate_cases (cases : list TestSetCase) : result unit TestSetCasesErrorType :=
  match cases with
  | [] => Err EmptyCases
  | _ => if (MAX_TEST_SET_CASES <? length cases)%nat then Err CaseCountOverflow else check_cases [] cases
  end.

(** ** The document *)

Record WiringOperationDependency := { wd_alias : string; wd_operation : string }.

Record AuthoredNode := {
  wn_component : string;
  wn_interface_version : string;
  wn_operation : string;
  wn_operation_dependency : option WiringOperationDependency;
  wn_params : list (string * Value);
  wn_terminal : option CatalogTerminal;
}.

Record WiringResponse := {
  wr_node : string;
  wr_schema : Value;
  wr_committed_result : option string;
}.

Record AuthoredWiring := {
  doc_format_version : string;
  doc_wiring_id : string;
  doc_version : Z;  (* u32 *)
  doc_entry : string;
  doc_nodes : list (string * AuthoredNode);
  doc_edges : list CatalogEdge;
  doc_cases : list TestSetCase;
  doc_response : option WiringResponse;
}.

Definition WIRING_DOCUMENT_FORMAT_VERSION : string := "0.1".

Definition node_of (n : AuthoredNode) : CatalogNode := {|
  cn_component := wn_component n; cn_interface_version := wn_interface_version n;
  cn_operation := wn_operation n; cn_params := wn_params n; cn_terminal := wn_terminal n |}.

Definition graph_of (d : AuthoredWiring) : WiringDocument := {|
  wd_wiring_id := doc_wiring_id d; wd_version := doc_version d; wd_entry := doc_entry d;
  wd_nodes := prod_map (λ k, k) node_of <$> doc_nodes d; wd_edges := doc_edges d |}.

(** ** Its serialized form *)

Definition MAIN_PORT : string := "main".

(** An object of the given entries, absent ones skipped. *)
Definition object_of (entries : list (string * option Value)) : Value :=
  VObject (map_from_iter (omap (λ kv : string * option Value, (λ v, (kv.1, v)) <$> kv.2) entries)).

Definition op_text (o : Op) : string :=
  match o with OpInsert => "insert" | OpUpdate => "update" | OpDelete => "delete" end.

Definition terminal_value (t : CatalogTerminal) : Value :=
  match t with
  | CRespond => VString "respond"
  | CEmit entity o =>
      object_of [("emit", Some (object_of [("entity", Some (VString entity));
                                           ("operation", Some (VString (op_text o)))]))]
  end.

Definition dependency_value (d : WiringOperationDependency) : Value :=
  object_of [("alias", Some (VString (wd_alias d))); ("operation", Some (VString (wd_operation d)))].

Definition node_value (n : AuthoredNode) : Value :=
  object_of [
    ("component", Some (VString (wn_component n)));
    ("interface-version", Some (VString (wn_interface_version n)));
    ("operation", Some (VString (wn_operation n)));
    ("operation-dependency", dependency_value <$> wn_operation_dependency n);
    ("params", match wn_params n with [] => None | params => Some (VObject (map_from_iter params)) end);
    ("terminal", terminal_value <$> wn_terminal n)].

Definition edge_value (e : CatalogEdge) : Value :=
  object_of [
    ("from", Some (VString (ce_from e)));
    ("from-port", if String.eqb (ce_from_port e) MAIN_PORT then None else Some (VString (ce_from_port e)));
    ("to", Some (VString (ce_to e)));
    ("to-port", VString <$> ce_to_port e)].

Definition failure_kind_text (k : WiringFailureKind) : string :=
  match k with
  | KTerminal => "terminal" | KRetryExhausted => "retry-exhausted" | KInvalidInput => "invalid-input"
  | KRunawayBudget => "runaway-budget" | KEffectUncertain => "effect-uncertain"
  | KDepthBudget => "depth-budget" | KDispatchBudget => "dispatch-budget"
  end.

Definition expect_value (e : Expect) : Value :=
  object_of [
    ("outcome", Some (VString (match ex_outcome e with Responded => "responded" | Failed => "failed" end)));
    ("status", number_of_int <$> ex_status e);
    ("body-subset", ex_body_subset e);
    ("failure-code", (λ k, VString (failure_kind_text k)) <$> ex_failure_code e)].

Definition case_value (c : TestSetCase) : Value :=
  object_of [("case-id", Some (VString (tc_case_id c))); ("input", Some (tc_input c));
             ("expect", Some (expect_value (tc_expect c)))].

Definition response_value (r : WiringResponse) : Value :=
  object_of [("node", Some (VString (wr_node r))); ("schema", Some (wr_schema r));
             ("committed-result", VString <$> wr_committed_result r)].

Definition as_value (d : AuthoredWiring) : Value :=
  object_of [
    ("format-version", Some (VString (doc_format_version d)));
    ("wiring-id", Some (VString (doc_wiring_id d)));
    ("version", Some (number_of_int (doc_version d)));
    ("entry", Some (VString (doc_entry d)));
    ("nodes", Some (VObject (map_from_iter (prod_map (λ k, k) node_value <$> doc_nodes d))));
    ("edges", match doc_edges d with [] => None | edges => Some (VArray (edge_value <$> edges)) end);
    ("cases", match doc_cases d with [] => None | cases => Some (VArray (case_value <$> cases)) end);
    ("response", response_value <$> doc_response d)].

Definition wiring_hash `{FloatText, Sha256} (d : AuthoredWiring) : run string :=
  expect (result_ok (definition_hash (canonical_json_sha256 (as_value d))))
    "the shared canonicalizer emits a canonical sha256 digest".

(** ** Validation *)

Fixpoint contains_secret_value (value : Value) : bool :=
  match value with
  | VString value => existsb (starts_with value) ["Bearer "; "-----BEGIN"; "AKIA"]
  | VArray values => existsb contains_secret_value values
  | VObject values => existsb (λ kv : string * Value, contains_secret_value kv.2) values
  | _ => false
  end.

Definition validate_optional {A} (f : A → result unit CatalogIdentityError) (o : option A) :
    result unit CatalogIdentityError :=
  match o with Some a => f a | None => Ok tt end.

Fixpoint validate_all {A} (f : A → result unit CatalogIdentityError) (l : list A) :
    result unit CatalogIdentityError :=
  match l with
  | [] => Ok tt
  | a :: l => let? _ := f a in validate_all f l
  end.

Definition validate_node (kn : string * AuthoredNode) : result unit CatalogIdentityError :=
  let n := kn.2 in
  let? _ := validate_text kn.1 "node-id" in
  let? _ := validate_text (wn_component n) "component" in
  let? _ := validate_text (wn_interface_version n) "interface-version" in
  let? _ := validate_text (wn_operation n) "operation" in
  let? _ := validate_optional (λ d,
    let? _ := validate_text (wd_alias d) "operation-dependency alias" in
    validate_text (wd_operation d) "operation-dependency operation") (wn_operation_dependency n) in
  match wn_terminal n with
  | Some (CEmit entity _) => validate_text entity "emit-entity"
  | _ => Ok tt
  end.

Definition validate_edge (nodes : list (string * AuthoredNode)) (e : CatalogEdge) :
    result unit CatalogIdentityError :=
  let endpoint k := match find_entry k nodes with Some _ => Ok tt | None => Err (UnresolvedWiringNode k) end in
  let? _ := endpoint (ce_from e) in
  let? _ := endpoint (ce_to e) in
  let? _ := validate_text (ce_from_port e) "from-port" in
  validate_optional (λ p, validate_text p "to-port") (ce_to_port e).

Definition validate_response `{Boon} (nodes : list (string * AuthoredNode)) (r : WiringResponse) :
    result unit CatalogIdentityError :=
  let? _ := validate_text (wr_node r) "response node" in
  match find_entry (wr_node r) nodes with
  | None => Err (UnresolvedWiringNode (wr_node r))
  | Some n =>
      match wn_terminal n with
      | Some CRespond =>
          let? _ := map_err (normalize_schema (wr_schema r)) InvalidDefinition in
          validate_optional (λ committed,
            let? _ := validate_text committed "committed-result node" in
            match find_entry committed nodes with
            | None => Err (UnresolvedWiringNode committed)
            | Some _ => Ok tt
            end) (wr_committed_result r)
      | _ => Err InvalidDefinition
      end
  end.

(** [WiringDocument::validate]. *)
Definition validate_document `{Boon} (d : AuthoredWiring) : result unit CatalogIdentityError :=
  if contains_secret_value (as_value d) then Err InvalidDefinition
  else if negb (String.eqb (doc_format_version d) WIRING_DOCUMENT_FORMAT_VERSION) then Err InvalidDefinition
  else
    let? _ := validate_text (doc_wiring_id d) "wiring-id" in
    if (doc_version d =? 0)%Z then Err (ZeroVersion "version")
    else
      match doc_nodes d with
      | [] => Err InvalidDefinition
      | _ =>
          let? _ := validate_text (doc_entry d) "entry" in
          match find_entry (doc_entry d) (doc_nodes d) with
          | None => Err (UnresolvedWiringEntry (doc_entry d))
          | Some _ =>
              let? _ := validate_all validate_node (doc_nodes d) in
              let? _ := validate_all (validate_edge (doc_nodes d)) (doc_edges d) in
              let? _ := validate_optional (validate_response (doc_nodes d)) (doc_response d) in
              match doc_cases d with
              | [] => Ok tt
              | cases => map_err (validate_cases cases) InvalidDefinition
              end
          end
      end.

(** [WiringDocument::new]. *)
Definition wiring_document `{Boon} (wiring_id : string) (version : Z) (entry : string)
    (nodes : list (string * AuthoredNode)) (edges : list CatalogEdge) (cases : list TestSetCase) :
    result AuthoredWiring CatalogIdentityError :=
  let document := {|
    doc_format_version := WIRING_DOCUMENT_FORMAT_VERSION; doc_wiring_id := wiring_id;
    doc_version := version; doc_entry := entry; doc_nodes := nodes; doc_edges := edges;
    doc_cases := cases; doc_response := None |} in
  let? _ := validate_document document in
  Ok document.

(** ** What validation establishes *)

Lemma validate_all_ok {A} (f : A → result unit CatalogIdentityError) l :
  validate_all f l = Ok tt ↔ Forall (λ a, f a = Ok tt) l.
Proof.
  induction l as [|a l IH]; simpl; [by split|]. rewrite Forall_cons.
  destruct (f a) as [[]|]; simpl; [rewrite IH|]; naive_solver.
Qed.

Lemma graph_nodes_keys d : (wd_nodes (graph_of d)).*1 = (doc_nodes d).*1.
Proof. simpl. rewrite <- list_fmap_compose. by apply list_fmap_ext; intros ? [? ?]. Qed.

(** A validated document has the graph the lowering needs; the keys of its node map
    are distinct. *)
Lemma validated_graph `{Boon} d :
  validate_document d = Ok tt → NoDup (doc_nodes d).*1 → document_ok (graph_of d).
Proof.
  unfold validate_document. case_match; [done|]. case_match; [done|].
  destruct (validate_text (doc_wiring_id d) _); [simpl|done]. case_match; [done|].
  destruct (doc_nodes d) as [|kn kns] eqn:En; [done|]. rewrite <- En.
  destruct (validate_text (doc_entry d) _); [simpl|done].
  destruct (find_entry (doc_entry d) (doc_nodes d)) eqn:Ee; [|done].
  destruct (validate_all validate_node _); [simpl|done].
  destruct (validate_all (validate_edge _) _) as [[]|] eqn:Ed; [|done]. intros _ Hnd.
  constructor; rewrite ?graph_nodes_keys; simpl; [done| |].
  - apply find_entry_key. by eexists.
  - apply validate_all_ok in Ed. eapply Forall_impl; [exact Ed|]. intros e He. simpl in He.
    rewrite <- !find_entry_key. unfold validate_edge in He.
    destruct (find_entry (ce_from e) _); [simpl in He|done].
    destruct (find_entry (ce_to e) _); [by split; eexists|done].
Qed.
