(* ===== verification/WiringCompatibility.v ===== *)
(** * The gate of a wiring against component facts

    [crates/catalog/model/src/wiring_compatibility.rs].  Both forms, over the facts
    of one package scope and over the fact resolved for each node, with their
    parameter, port and schema rules.  [BTreeMap] lookups that [expect] are panics
    here too. *)

From stdpp Require Import base tactics option list gmap strings sorting.
From Stdlib Require Import ZArith Lia.
From S2P Require Import Prelude Text Json Canonical Router Walk Capabilities Packages ComponentFacts Driver Lowering.
From S2P Require Import WiringDocuments.
#[local] Set Warnings "-clear-no-such-hyp".
Open Scope wamn_scope.

Module Compat.

Inductive WiringCompatibilityErrorType :=
| FactScopeMismatch | MissingComponent | IncompatibleInterfaceVersion | MissingOperation
| DuplicateOperationFact | UndeclaredParameter | MissingRequiredParameter | InvalidParameter
| UnknownOutputPort | UnknownInputPort | MissingInputPort | AmbiguousInputPort | SchemaMismatch.

End Compat.

Definition gated (A : Type) : Type := run (result A Compat.WiringCompatibilityErrorType).

(** ** One node *)

Definition validate_parameter_value `{Boon} (value : Value) (s : ComponentSchema) : gated unit :=
  if negb (schema_compiles (schema s)) then Panic "an admitted component carries a compiled-valid schema"
  else if schema_accepts (schema s) value then Ret (Ok tt) else Ret (Err Compat.InvalidParameter).

Definition find_parameter (name : string) (o : AdmittedComponentOperation) :
    option AdmittedComponentParameter :=
  find (λ p, String.eqb (parameter_name p) name) (ao_parameters o).

Fixpoint check_supplied `{Boon} (o : AdmittedComponentOperation) (params : list (string * Value)) :
    gated unit :=
  match params with
  | [] => Ret (Ok tt)
  | (name, value) :: params =>
      match find_parameter name o with
      | None => Ret (Err Compat.UndeclaredParameter)
      | Some p =>
          let?! _ := validate_parameter_value value (parameter_schema p) in
          check_supplied o params
      end
  end.

Definition validate_node_parameters `{Boon} (n : AuthoredNode) (o : AdmittedComponentOperation) :
    gated unit :=
  let?! _ := check_supplied o (wn_params n) in
  match find (λ p, parameter_required p &&
                   negb (bool_decide (is_Some (find_entry (parameter_name p) (wn_params n)))))
          (ao_parameters o) with
  | Some _ => Ret (Err Compat.MissingRequiredParameter)
  | None => Ret (Ok tt)
  end.

Definition resolve_component_operation (n : AuthoredNode) (components : list AdmittedFact) :
    result AdmittedComponentOperation Compat.WiringCompatibilityErrorType :=
  match filter (λ c, af_component c = wn_component n) components with
  | [] => Err Compat.MissingComponent
  | component_matches =>
      match filter (λ c, af_interface_version c = wn_interface_version n) component_matches with
      | [] => Err Compat.IncompatibleInterfaceVersion
      | interface_matches =>
          match omap (λ c, find_entry (wn_operation n) (af_operations c)) interface_matches with
          | [] => Err Compat.MissingOperation
          | [o] => Ok o
          | _ => Err Compat.DuplicateOperationFact
          end
      end
  end.

(** ** Edges *)

Definition find_port (name : string) (ports : list AdmittedComponentPort) : option AdmittedComponentPort :=
  find (λ p, String.eqb (port_name p) name) ports.

Definition resolve_input_port (authored_port : option string) (o : AdmittedComponentOperation) :
    result AdmittedComponentPort Compat.WiringCompatibilityErrorType :=
  match authored_port with
  | Some name => ok_or (find_port name (ao_input_ports o)) Compat.UnknownInputPort
  | None =>
      match ao_input_ports o with
      | [port] => Ok port
      | [] => Err Compat.MissingInputPort
      | _ => Err Compat.AmbiguousInputPort
      end
  end.

Definition resolved_map : Type := list (string * AdmittedComponentOperation).

Fixpoint validate_edges (resolved : resolved_map) (edges : list CatalogEdge) : gated unit :=
  match edges with
  | [] => Ret (Ok tt)
  | e :: edges =>
      let! source := expect (find_entry (ce_from e) resolved)
        "WiringDocument validation resolves every source node" in
      let! target := expect (find_entry (ce_to e) resolved)
        "WiringDocument validation resolves every target node" in
      match resolve_input_port (ce_to_port e) target with
      | Err t => Ret (Err t)
      | Ok target_port =>
          if String.eqb (ce_from_port e) ERROR_PORT then validate_edges resolved edges
          else
            match find_port (ce_from_port e) (ao_output_ports source) with
            | None => Ret (Err Compat.UnknownOutputPort)
            | Some source_port =>
                if value_eqb (schema (port_schema source_port)) (schema (port_schema target_port))
                then validate_edges resolved edges
                else Ret (Err Compat.SchemaMismatch)
            end
      end
  end.

Definition validate_committed_node `{Boon} (d : AuthoredWiring) (resolved : resolved_map) :
    result unit Compat.WiringCompatibilityErrorType :=
  match doc_response d ≫= wr_committed_result with
  | None => Ok tt
  | Some node_id =>
      match find_entry node_id resolved with
      | None => Err Compat.MissingOperation
      | Some o =>
          match ao_committed_result_schema o with
          | None => Err Compat.MissingOperation
          | Some _ => map_err (validate_committed_result_schema (ao_registered_operation o)
                                 (ao_committed_result_schema o)) Compat.MissingOperation
          end
      end
  end.

Definition validate_resolved_edges `{Boon} (d : AuthoredWiring) (resolved : resolved_map) : gated unit :=
  let?! _ := Ret (validate_committed_node d resolved) in
  validate_edges resolved (doc_edges d).

(** ** The two gates *)

Fixpoint resolve_local_nodes `{Boon} (components : list AdmittedFact) (nodes : list (string * AuthoredNode)) :
    gated resolved_map :=
  match nodes with
  | [] => Ret (Ok [])
  | (node_id, n) :: nodes =>
      let?! o := Ret (resolve_component_operation n components) in
      let?! _ := validate_node_parameters n o in
      let?! resolved := resolve_local_nodes components nodes in
      Ret (Ok ((node_id, o) :: resolved))
  end.

#[export] Instance ComponentPackageScope_eq_dec : EqDecision ComponentPackageScope.
Proof. solve_decision. Defined.

Definition validate_wiring_compatibility `{Boon} (d : AuthoredWiring) (scope : ComponentPackageScope)
    (components : list AdmittedFact) : gated unit :=
  match find (λ c, negb (bool_decide (af_scope c = scope))) components with
  | Some _ => Ret (Err Compat.FactScopeMismatch)
  | None =>
      let?! resolved := resolve_local_nodes components (doc_nodes d) in
      validate_resolved_edges d resolved
  end.

Definition resolved_operation (n : AuthoredNode) (component : option AdmittedFact) :
    result AdmittedComponentOperation Compat.WiringCompatibilityErrorType :=
  match component with
  | None => Err Compat.MissingComponent
  | Some c =>
      if negb (String.eqb (af_component c) (wn_component n)) ||
         negb (String.eqb (af_interface_version c) (wn_interface_version n))
      then Err Compat.MissingOperation
      else ok_or (find_entry (wn_operation n) (af_operations c)) Compat.MissingOperation
  end.

Fixpoint resolve_fact_nodes `{Boon} (components : list (string * AdmittedFact))
    (nodes : list (string * AuthoredNode)) : gated resolved_map :=
  match nodes with
  | [] => Ret (Ok [])
  | (node_id, n) :: nodes =>
      let?! o := Ret (resolved_operation n (find_entry node_id components)) in
      let?! _ := validate_node_parameters n o in
      let?! resolved := resolve_fact_nodes components nodes in
      Ret (Ok ((node_id, o) :: resolved))
  end.

Definition validate_resolved_wiring_compatibility `{Boon} (d : AuthoredWiring)
    (components : list (string * AdmittedFact)) : gated unit :=
  let?! resolved := resolve_fact_nodes components (doc_nodes d) in
  if negb (length components =? length resolved)%nat then Ret (Err Compat.DuplicateOperationFact)
  else validate_resolved_edges d resolved.

(** ** What a passed gate establishes *)

(** The fact of a node serves it. *)
Definition serves (n : AuthoredNode) (c : AdmittedFact) (o : AdmittedComponentOperation) : Prop :=
  af_component c = wn_component n ∧ af_interface_version c = wn_interface_version n ∧
  find_entry (wn_operation n) (af_operations c) = Some o.

(** The parameters a node supplies are the operation's. *)
Record parameters_fit `{Boon} (n : AuthoredNode) (o : AdmittedComponentOperation) : Prop := {
  pf_declared : ∀ k v, (k, v) ∈ wn_params n →
    ∃ p, p ∈ ao_parameters o ∧ parameter_name p = k ∧ schema_accepts (schema (parameter_schema p)) v = true;
  pf_required : ∀ p, p ∈ ao_parameters o → parameter_required p = true → parameter_name p ∈ (wn_params n).*1;
}.

(** The port an edge enters its target by. *)
Definition gate_enters (authored : option string) (o : AdmittedComponentOperation) (p : AdmittedComponentPort) :
    Prop :=
  p ∈ ao_input_ports o ∧ (authored = Some (port_name p) ∨ authored = None ∧ ao_input_ports o = [p]).

Definition edge_fits (at_node : string → AdmittedComponentOperation → Prop) (e : CatalogEdge) : Prop :=
  ∃ src tgt p, at_node (ce_from e) src ∧ at_node (ce_to e) tgt ∧ gate_enters (ce_to_port e) tgt p ∧
    (ce_from_port e = ERROR_PORT ∨
     ∃ q, q ∈ ao_output_ports src ∧ port_name q = ce_from_port e ∧
       value_eqb (schema (port_schema q)) (schema (port_schema p)) = true).

Section Gate.
Context `{Boon}.

Lemma check_supplied_inv o params :
  check_supplied o params = Ret (Ok tt) →
  ∀ k v, (k, v) ∈ params →
    ∃ p, p ∈ ao_parameters o ∧ parameter_name p = k ∧ schema_accepts (schema (parameter_schema p)) v = true.
Proof.
  induction params as [|[k v] params IH]; simpl; [by intros _ k v ?%elem_of_nil|].
  destruct (find_parameter k o) as [p|] eqn:Ef; [|done].
  apply find_elem in Ef as [Hp ?%String.eqb_eq].
  unfold validate_parameter_value. destruct (schema_compiles _); [simpl|done].
  destruct (schema_accepts _ v) eqn:Ea; [simpl|done]. intros Hrest k' v' [[= -> ->]|Hin]%elem_of_cons.
  - by exists p.
  - by apply IH.
Qed.

Lemma validate_node_parameters_inv n o :
  validate_node_parameters n o = Ret (Ok tt) → parameters_fit n o.
Proof.
  unfold validate_node_parameters. destruct (check_supplied o _) as [[[]|]|] eqn:Ec; simpl; try done.
  destruct (find _ (ao_parameters o)) eqn:Ef; [done|]. intros _. constructor; [by apply check_supplied_inv|].
  intros p Hp Hr. apply list_elem_of_In in Hp. pose proof (find_none _ _ Ef _ Hp) as E. simpl in E.
  rewrite Hr in E. simpl in E. apply negb_false_iff, bool_decide_eq_true in E.
  by apply find_entry_key in E.
Qed.

Lemma resolved_operation_inv n c o :
  resolved_operation n c = Ok o ↔ ∃ f, c = Some f ∧ serves n f o.
Proof.
  unfold resolved_operation, serves. destruct c as [f|]; [|naive_solver].
  destruct (String.eqb_spec (af_component f) (wn_component n)),
    (String.eqb_spec (af_interface_version f) (wn_interface_version n)); simpl; [|naive_solver..].
  destruct (find_entry (wn_operation n) (af_operations f)) as [o'|] eqn:E; simpl; split.
  - intros [= ->]. by exists f.
  - intros (f0 & [= <-] & _ & _ & E'). congruence.
  - done.
  - intros (f0 & [= <-] & _ & _ & E'). congruence.
Qed.

(** The rows of the resolution: one per node, in order. *)
Definition node_resolves (components : list (string * AdmittedFact)) (kn : string * AuthoredNode)
    (ko : string * AdmittedComponentOperation) : Prop :=
  ko.1 = kn.1 ∧ parameters_fit kn.2 ko.2 ∧
  ∃ c, find_entry kn.1 components = Some c ∧ serves kn.2 c ko.2.

Lemma resolve_fact_nodes_inv components nodes resolved :
  resolve_fact_nodes components nodes = Ret (Ok resolved) →
  Forall2 (node_resolves components) nodes resolved.
Proof.
  revert resolved. induction nodes as [|[k n] nodes IH]; intros resolved; simpl; [by intros [= <-]|].
  unfold try_bind. simpl. destruct (resolved_operation n _) as [o|] eqn:Er; [|done].
  destruct (validate_node_parameters n o) as [[[]|]|] eqn:Ev; [simpl|done..].
  destruct (resolve_fact_nodes components nodes) as [[rest|]|]; [simpl|done..]. intros [= <-].
  constructor; [|by apply IH]. split; [done|]. split; [by apply validate_node_parameters_inv|].
  by apply resolved_operation_inv.
Qed.

Lemma resolved_keys components nodes resolved :
  Forall2 (node_resolves components) nodes resolved → resolved.*1 = nodes.*1.
Proof. induction 1 as [|[k n] [k' o] nodes resolved (E & _) _ IH]; [done|]. simpl in *. subst k'. exact (f_equal (cons k) IH). Qed.

Lemma resolve_input_port_spec authored o p :
  resolve_input_port authored o = Ok p → gate_enters authored o p.
Proof.
  unfold resolve_input_port, gate_enters. destruct authored as [name|].
  - unfold find_port. destruct (find _ _) as [q|] eqn:E; [simpl|done]. intros [= ->].
    apply find_elem in E as [? <-%String.eqb_eq]. auto.
  - destruct (ao_input_ports o) as [|q [|]]; [done| |done]. intros [= ->]. split; [left|by right].
Qed.

Lemma validate_edges_inv resolved edges :
  validate_edges resolved edges = Ret (Ok tt) →
  Forall (edge_fits (λ k o, find_entry k resolved = Some o)) edges.
Proof.
  induction edges as [|e edges IH]; simpl; [done|].
  destruct (find_entry (ce_from e) resolved) as [src|] eqn:Es; [simpl|done].
  destruct (find_entry (ce_to e) resolved) as [tgt|] eqn:Et; [simpl|done].
  destruct (resolve_input_port _ tgt) as [p|] eqn:Ep; [|done]. apply resolve_input_port_spec in Ep.
  destruct (String.eqb_spec (ce_from_port e) ERROR_PORT) as [Hp|Hp].
  { intros Hr. constructor; [|by apply IH]. exists src, tgt, p. auto. }
  unfold find_port. destruct (find _ (ao_output_ports src)) as [q|] eqn:Eq; [|done].
  destruct (value_eqb _ _) eqn:Ev; [|done]. apply find_elem in Eq as [? ?%String.eqb_eq].
  intros Hr. constructor; [|by apply IH]. exists src, tgt, p. eauto 10.
Qed.

(** What the gate of a resolved wiring accepts. *)
Record compatible (d : AuthoredWiring) (components : list (string * AdmittedFact)) : Prop := {
  co_size : length components = length (doc_nodes d);
  co_nodes : ∀ k n, (k, n) ∈ doc_nodes d →
    ∃ c o, find_entry k components = Some c ∧ serves n c o ∧ parameters_fit n o;
  co_edges : ∃ resolved, Forall2 (node_resolves components) (doc_nodes d) resolved ∧
    Forall (edge_fits (λ k o, find_entry k resolved = Some o)) (doc_edges d);
}.

Lemma gate_compatible d components :
  validate_resolved_wiring_compatibility d components = Ret (Ok tt) → compatible d components.
Proof.
  unfold validate_resolved_wiring_compatibility, try_bind.
  destruct (resolve_fact_nodes components (doc_nodes d)) as [[resolved|]|] eqn:Er; [simpl|done..].
  apply resolve_fact_nodes_inv in Er.
  destruct (Nat.eqb_spec (length components) (length resolved)) as [Hl|]; [simpl|done].
  unfold validate_resolved_edges, try_bind. simpl.
  destruct (validate_committed_node d resolved) as [[]|]; [|done]. intros He%validate_edges_inv.
  constructor.
  - by rewrite Hl, (Forall2_length _ _ _ Er).
  - intros k n Hin. apply list_elem_of_lookup in Hin as [i Hi].
    destruct (Forall2_lookup_l _ _ _ _ _ Er Hi) as ([k' o] & _ & (_ & Hp & c & Hc & Hs)). eauto 6.
  - eauto.
Qed.

(** The gate does not panic over schemas that compile and a validated document. *)
Definition schemas_compile (o : AdmittedComponentOperation) : Prop :=
  Forall (λ p, schema_compiles (schema (parameter_schema p)) = true) (ao_parameters o).

Lemma check_supplied_ret o params : schemas_compile o → ∃ res, check_supplied o params = Ret res.
Proof.
  intros Hs. induction params as [|[k v] params IH]; simpl; [by eexists|].
  destruct (find_parameter k o) as [p|] eqn:Ef; [|by eexists].
  apply find_elem in Ef as [Hp _]. unfold schemas_compile in Hs. rewrite Forall_forall in Hs.
  unfold validate_parameter_value. rewrite (Hs _ Hp). simpl.
  destruct (schema_accepts _ v); simpl; [done|by eexists].
Qed.

Lemma resolve_fact_nodes_ret components nodes :
  (∀ k c, find_entry k components = Some c → Forall (λ eo, schemas_compile eo.2) (af_operations c)) →
  ∃ res, resolve_fact_nodes components nodes = Ret res.
Proof.
  intros Hs. induction nodes as [|[k n] nodes IH]; simpl; [by eexists|]. unfold try_bind. simpl.
  destruct (resolved_operation n _) as [o|] eqn:Er; [|by eexists].
  apply resolved_operation_inv in Er as (c & Hc & _ & _ & Ho).
  apply find_entry_elem in Ho. pose proof (Hs _ _ Hc) as Hall. rewrite Forall_forall in Hall.
  specialize (Hall _ Ho). simpl in Hall. unfold validate_node_parameters, try_bind.
  destruct (check_supplied_ret o (wn_params n) Hall) as (res & ->). simpl.
  destruct res as [[]|]; [|by eexists]. destruct (find _ (ao_parameters o)); [by eexists|]. simpl.
  destruct IH as (res & ->). simpl. destruct res; by eexists.
Qed.

Lemma validate_edges_ret resolved edges :
  Forall (λ e, ce_from e ∈ resolved.*1 ∧ ce_to e ∈ resolved.*1) edges →
  ∃ res, validate_edges resolved edges = Ret res.
Proof.
  induction 1 as [|e edges [Hf%find_entry_key Ht%find_entry_key] _ IH]; simpl; [by eexists|].
  destruct Hf as [src ->], Ht as [tgt ->]. simpl.
  destruct (resolve_input_port _ tgt); [|by eexists]. repeat case_match; try done; by eexists.
Qed.

Lemma gate_returns d components :
  (∀ k c, find_entry k components = Some c → Forall (λ eo, schemas_compile eo.2) (af_operations c)) →
  Forall (λ e, ce_from e ∈ (doc_nodes d).*1 ∧ ce_to e ∈ (doc_nodes d).*1) (doc_edges d) →
  ∃ res, validate_resolved_wiring_compatibility d components = Ret res.
Proof.
  intros Hs He. unfold validate_resolved_wiring_compatibility, try_bind.
  destruct (resolve_fact_nodes_ret components (doc_nodes d) Hs) as (res & Er). rewrite Er. simpl.
  destruct res as [resolved|]; [|by eexists]. apply resolve_fact_nodes_inv, resolved_keys in Er.
  case_match; [by eexists|]. unfold validate_resolved_edges, try_bind. simpl.
  destruct (validate_committed_node d resolved) as [[]|]; [|by eexists].
  apply validate_edges_ret. by rewrite Er.
Qed.

End Gate.
