(* ===== verification/WorkflowGate.v ===== *)
(** * Gating a workflow and resolving its runs

    [crates/catalog/model/src/workflow_gate.rs] (the gate of a workflow graph against
    a serving release), [workflow_resolution.rs] and [wiring_resolution.rs] of
    [crates/platform/runtime/src/plugins/wamn_postgres] (the resolution of a claimed
    run over the release it pins), joined with the lowering and the driver.

    A [BTreeMap] that is iterated is the list of its entries in key order.  The
    driver reads a projection of a component fact, [driver_component]. *)

From stdpp Require Import base tactics option list gmap strings sorting.
From Stdlib Require Import ZArith Lia.
From S2P Require Import Prelude Text Json Canonical Router Walk RunStore Authority Capabilities Packages.
From S2P Require Import ComponentFacts ComponentAdmission ServingManifests Driver Lowering WiringDocuments.
From S2P Require Import WiringCompatibility.
#[local] Set Warnings "-clear-no-such-hyp".
Open Scope wamn_scope.

(** ** The gate *)

Inductive WorkflowGateError :=
| PackageNotCarried (package : string)
| NodeNotCarried (node_id : string)
| NodeAmbiguous (node_id : string)
| GateIncompatible (t : Compat.WiringCompatibilityErrorType).

(** The versions of the release's packages; collecting keeps the last of an id. *)
Definition release_versions (m : ServingManifest) : gmap string string :=
  foldl (λ vs p, <[package_id p := package_version p]> vs) ∅ (sm_packages m).

(** Whether a component carries the node's component, interface and operation. *)
Definition carries_node (n : AuthoredNode) (c : ServingComponent) : bool :=
  String.eqb (de_component (sv_descriptor c)) (wn_component n) &&
  String.eqb (de_interface_version (sv_descriptor c)) (wn_interface_version n) &&
  bool_decide (is_Some (find_entry (wn_operation n) (de_operations (sv_descriptor c)))).

Definition in_application (packages : list string) (c : ServingComponent) : bool :=
  bool_decide (sv_package_id c ∈ packages).

Definition component_digest_of (c : ServingComponent) : string := de_component_digest (sv_descriptor c).

(** The component one node resolves to. *)
Definition choose_component (packages : list string) (m : ServingManifest) (node_id : string)
    (n : AuthoredNode) : result ServingComponent WorkflowGateError :=
  let serving := filter (λ c, carries_node n c = true) (sm_components m) in
  match filter (λ c, in_application packages c = true) serving, serving with
  | [c], _ => Ok c
  | [], [] => Err (NodeNotCarried node_id)
  | [], first :: rest =>
      if existsb (λ other, negb (String.eqb (component_digest_of other) (component_digest_of first))) rest
      then Err (NodeAmbiguous node_id) else Ok first
  | _, _ => Err (NodeAmbiguous node_id)
  end.

Definition admitted_in (env_key : string) (c : ServingComponent) (version : string) : AdmittedFact :=
  facts_component (into_admitted (sv_descriptor c)
    {| sc_env_key := env_key; sc_package_id := sv_package_id c; sc_package_version := version |}).

Fixpoint resolve_nodes (env_key : string) (packages : list string) (m : ServingManifest)
    (versions : gmap string string) (nodes : list (string * AuthoredNode)) :
    run (result (list (string * AdmittedFact)) WorkflowGateError) :=
  match nodes with
  | [] => Ret (Ok [])
  | (node_id, n) :: nodes =>
      let?! chosen := Ret (choose_component packages m node_id n) in
      let! version := expect (versions !! sv_package_id chosen) "no entry found for key" in
      let?! resolved := resolve_nodes env_key packages m versions nodes in
      Ret (Ok ((node_id, admitted_in env_key chosen version) :: resolved))
  end.

Definition resolve_workflow_components (env_key : string) (application_packages : list string)
    (m : ServingManifest) (d : AuthoredWiring) :
    run (result (list (string * AdmittedFact)) WorkflowGateError) :=
  let versions := release_versions m in
  match find (λ p, negb (bool_decide (is_Some (versions !! p)))) application_packages with
  | Some package => Ret (Err (PackageNotCarried package))
  | None => resolve_nodes env_key application_packages m versions (doc_nodes d)
  end.

Definition gate_workflow_document `{Boon, FloatText, Sha256} (env_key : string)
    (application_packages : list string) (m : ServingManifest) (d : AuthoredWiring) :
    run (result string WorkflowGateError) :=
  let?! components := resolve_workflow_components env_key application_packages m d in
  let! gate := validate_resolved_wiring_compatibility d components in
  match gate with
  | Err t => Ret (Err (GateIncompatible t))
  | Ok _ => let! hash := wiring_hash d in Ret (Ok hash)
  end.

(** ** Equality of facts: the derived [PartialEq] *)

Definition option_eqb {A} (f : A → A → bool) (a b : option A) : bool :=
  match a, b with Some a, Some b => f a b | None, None => true | _, _ => false end.
Definition schema_eqb (a b : ComponentSchema) : bool := value_eqb (schema a) (schema b).
Definition port_eqb (a b : AdmittedComponentPort) : bool :=
  String.eqb (port_name a) (port_name b) && schema_eqb (port_schema a) (port_schema b).
Definition parameter_eqb (a b : AdmittedComponentParameter) : bool :=
  String.eqb (parameter_name a) (parameter_name b) && schema_eqb (parameter_schema a) (parameter_schema b) &&
  Bool.eqb (parameter_required a) (parameter_required b).
Definition operation_eqb (a b : AdmittedComponentOperation) : bool :=
  bool_decide (ao_registered_operation a = ao_registered_operation b) &&
  option_eqb schema_eqb (ao_committed_result_schema a) (ao_committed_result_schema b) &&
  Bool.eqb (ao_host_transaction a) (ao_host_transaction b) &&
  list_eqb port_eqb (ao_input_ports a) (ao_input_ports b) &&
  list_eqb port_eqb (ao_output_ports a) (ao_output_ports b) &&
  list_eqb parameter_eqb (ao_parameters a) (ao_parameters b) &&
  bool_decide (ao_statements a = ao_statements b).

#[export] Instance ComponentEffectProvenance_eq_dec : EqDecision ComponentEffectProvenance.
Proof. solve_decision. Defined.
#[export] Instance AdmittedComponentEffect_eq_dec : EqDecision AdmittedComponentEffect.
Proof. solve_decision. Defined.

Definition fact_eqb (a b : AdmittedFact) : bool :=
  bool_decide (af_scope a = af_scope b) && String.eqb (af_component a) (af_component b) &&
  String.eqb (af_interface_version a) (af_interface_version b) &&
  list_eqb (λ x y : string * AdmittedComponentOperation, String.eqb x.1 y.1 && operation_eqb x.2 y.2)
    (af_operations a) (af_operations b) &&
  String.eqb (af_component_digest a) (af_component_digest b) &&
  bool_decide (af_imports a = af_imports b) &&
  String.eqb (af_imports_fingerprint a) (af_imports_fingerprint b) &&
  bool_decide (af_effects a = af_effects b).

(** ** The resolution of a run *)

Definition driver_operation (o : AdmittedComponentOperation) : AdmittedOperation := {|
  op_registered := ao_registered_operation o; op_input_ports := port_name <$> ao_input_ports o;
  op_output_ports := port_name <$> ao_output_ports o;
  op_parameters := (λ p, (parameter_name p, parameter_required p)) <$> ao_parameters o |}.

Definition driver_component (c : AdmittedFact) : AdmittedComponent := {|
  ac_component := af_component c; ac_interface_version := af_interface_version c;
  ac_digest := af_component_digest c;
  ac_operations := list_to_map (prod_map (λ k, k) driver_operation <$> af_operations c) |}.

Record WorkflowRunKey := {
  rk_env_key : string;
  rk_environment : string;
  rk_application : string;
  rk_application_packages : list string;
  rk_workflow_id : string;
  rk_version : Z;  (* u32 *)
  rk_manifest_digest : string;
  rk_wiring_hash : string;
  rk_node_digests : list (string * string);
}.

(** [ResolvedActiveWiring], with the facts of its nodes and of the release. *)
Record ResolvedWorkflow := {
  rw_wiring : ResolvedActiveWiring;
  rw_facts : list (string * AdmittedFact);
  rw_components : list AdmittedFact;
}.

(** The loop of [resolved_wiring]. *)
Fixpoint check_bindings (nodes : list (string * AuthoredNode)) (components : list AdmittedFact)
    (resolved : list (string * AdmittedFact)) : bool :=
  match resolved with
  | [] => true
  | (node_id, c) :: resolved =>
      match find_entry node_id nodes with
      | None => false
      | Some n =>
          String.eqb (wn_component n) (af_component c) &&
          String.eqb (wn_interface_version n) (af_interface_version c) &&
          bool_decide (is_Some (find_entry (wn_operation n) (af_operations c))) &&
          existsb (fact_eqb c) components && check_bindings nodes components resolved
      end
  end.

(** Its error is [Err tt]. *)
Definition resolved_wiring `{Boon, WasiCeiling} (version : Z) (package_version graph_hash : string)
    (d : AuthoredWiring) (manifest_digest : string) (resolved : list (string * AdmittedFact))
    (components : list AdmittedFact) : run (result ResolvedWorkflow unit) :=
  let! contracts :=
    match doc_response d with
    | Some _ => validate_resolved_wiring_compatibility d resolved
    | None => Ret (Ok tt)
    end in
  if negb (is_ok contracts) then Ret (Err tt)
  else if negb (check_bindings (doc_nodes d) components resolved) then Ret (Err tt)
  else if negb (forallb (λ c, is_ok (verify_stored_effect_projection c)) components) then Ret (Err tt)
  else Ret (Ok {|
    rw_wiring := {|
      ra_version := version; ra_manifest_digest := manifest_digest; ra_graph_hash := graph_hash;
      ra_package_version := package_version; ra_document := graph_of d;
      ra_node_components := prod_map (λ k, k) driver_component <$> resolved |};
    rw_facts := resolved; rw_components := components |}).

(** The component of the release that carries the frozen digest of a node. *)
Definition frozen_component (packages : list string) (m : ServingManifest) (digest : string)
    (n : AuthoredNode) : option ServingComponent :=
  let serving := filter (λ c, (String.eqb (component_digest_of c) digest && carries_node n c) = true)
                   (sm_components m) in
  match find (in_application packages) serving with
  | Some c => Some c
  | None => head serving
  end.

(** [admitted]: a package the release does not carry has the empty version. *)
Definition admitted_component (env_key : string) (m : ServingManifest) (c : ServingComponent) : AdmittedFact :=
  admitted_in env_key c (default "" (release_versions m !! sv_package_id c)).

Fixpoint frozen_nodes (run_key : WorkflowRunKey) (m : ServingManifest) (nodes : list (string * AuthoredNode)) :
    result (list (string * AdmittedFact)) WorkflowResolutionErrorType :=
  match nodes with
  | [] => Ok []
  | (node_id, n) :: nodes =>
      let? digest := ok_or (find_entry node_id (rk_node_digests run_key)) NodeNotInRelease in
      let? chosen := ok_or (frozen_component (rk_application_packages run_key) m digest n) NodeNotInRelease in
      let? rest := frozen_nodes run_key m nodes in
      Ok ((node_id, admitted_component (rk_env_key run_key) m chosen) :: rest)
  end.

Definition resolve_workflow_in_release `{Boon, WasiCeiling, FloatText, Sha256} (run_key : WorkflowRunKey)
    (m : ServingManifest) (d : AuthoredWiring) (stored_hash : string) :
    run (result ResolvedWorkflow WorkflowResolutionErrorType) :=
  if negb (String.eqb stored_hash (rk_wiring_hash run_key)) then Ret (Err HashMismatch)
  else
    let! hash := wiring_hash d in
    if negb (String.eqb hash stored_hash) then Ret (Err HashMismatch)
    else if negb (String.eqb (doc_wiring_id d) (rk_workflow_id run_key))
            || negb (doc_version d =? rk_version run_key)%Z
    then Ret (Err Definition_)
    else if existsb (λ k, negb (bool_decide (is_Some (find_entry k (doc_nodes d))))) (rk_node_digests run_key).*1
    then Ret (Err NodeNotInRelease)
    else
      match frozen_nodes run_key m (doc_nodes d) with
      | Err t => Ret (Err t)
      | Ok node_components =>
          let! gate := validate_resolved_wiring_compatibility d node_components in
          match gate with
          | Err _ => Ret (Err Incompatible)
          | Ok _ =>
              let components := admitted_component (rk_env_key run_key) m <$> sm_components m in
              let! r := resolved_wiring (rk_version run_key) "" stored_hash d (rk_manifest_digest run_key)
                          node_components components in
              Ret (map_err r Definition_)
          end
      end.
