(* ===== verification/GatedRuns.v ===== *)
(** * From the gate to the end of a run

    A workflow the gate accepts against a release is, for a run that froze the
    digests the gate chose, resolved to exactly the components the gate judged; its
    graph lowers without a refusal of its own contract; and its run ends. *)

From stdpp Require Import base tactics option list gmap strings sorting.
From Stdlib Require Import ZArith Lia.
From S2P Require Import Prelude Text Json Canonical Router Walk WalkFacts Route RunStore Authority Driver Lowering.
From S2P Require Import Capabilities Packages ComponentFacts ComponentAdmission ServingManifests WiringDocuments.
From S2P Require Import WiringCompatibility WorkflowGate.
#[local] Set Warnings "-clear-no-such-hyp".
Open Scope wamn_scope.

(** ** A lowering without contract errors *)

(** The parameters and ports a resolution's rows declare for the document. *)
Record contract_fits (r : ResolvedActiveWiring) : Prop := {
  cf_parameters : ∀ n nd c op, (n, nd) ∈ wd_nodes (ra_document r) → (n, c) ∈ ra_node_components r →
    ac_operations c !! cn_operation nd = Some op →
    (∀ k, k ∈ (cn_params nd).*1 → k ∈ (op_parameters op).*1) ∧
    (∀ k, (k, true) ∈ op_parameters op → k ∈ (cn_params nd).*1);
  cf_source : ∀ e nd c op, e ∈ wd_edges (ra_document r) → (ce_from e, nd) ∈ wd_nodes (ra_document r) →
    (ce_from e, c) ∈ ra_node_components r → ac_operations c !! cn_operation nd = Some op →
    ce_from_port e = ERROR_PORT ∨ ce_from_port e ∈ op_output_ports op;
  cf_target : ∀ e nd c op, e ∈ wd_edges (ra_document r) → (ce_to e, nd) ∈ wd_nodes (ra_document r) →
    (ce_to e, c) ∈ ra_node_components r → ac_operations c !! cn_operation nd = Some op →
    match ce_to_port e with Some p => p ∈ op_input_ports op | None => ∃ p, op_input_ports op = [p] end;
}.

Lemma foldl_insert_lookup {A} (l : list (string * A)) (m : gmap string A) k :
  (∀ a, foldl (λ m kv, <[kv.1 := kv.2]> m) m l !! k = Some a → (k, a) ∈ l ∨ m !! k = Some a) ∧
  (k ∈ l.*1 ∨ is_Some (m !! k) → is_Some (foldl (λ m kv, <[kv.1 := kv.2]> m) m l !! k)).
Proof.
  revert m. induction l as [|[k' b] l IH]; intros m; simpl.
  { split; [by right|]. intros [[]%elem_of_nil|?]. done. }
  destruct (IH (<[k' := b]> m)) as [H1 H2]. split.
  - intros a Ha. destruct (H1 _ Ha) as [?|Hm]; [left; by right|].
    destruct (decide (k' = k)) as [->|Hne]; [rewrite lookup_insert_eq in Hm; injection Hm as ->; left; left|].
    rewrite lookup_insert_ne in Hm by done. by right.
  - intros Hk. apply H2. destruct (decide (k' = k)) as [->|Hne]; [right; rewrite lookup_insert_eq; by eexists|].
    rewrite lookup_insert_ne by done. rewrite elem_of_cons in Hk. naive_solver.
Qed.

(** A node that resolves takes the fact of its own row. *)
Lemma resolves_own_row r ops n nd c f :
  resolution_ok r → (∀ f, f ∈ ops ↔ ∃ n c, (n, c) ∈ ra_node_components r ∧ f ∈ row_facts c) →
  (n, nd) ∈ wd_nodes (ra_document r) → (n, c) ∈ ra_node_components r →
  resolve_operation (set_component (ac_digest c) nd) ops = Ok f →
  ∃ op, ac_operations c !! cn_operation nd = Some op ∧
    f = with_component (ac_digest c) (project_operation c (cn_operation nd) op).
Proof.
  intros Hr Hops Hin Hc Hf%resolve_operation_spec.
  destruct (ro_match _ Hr _ _ _ Hc Hin) as [Hv [op Hop]]. exists op. split; [done|].
  set (g := with_component _ _).
  assert (Hg : g ∈ filter (fact_matches (set_component (ac_digest c) nd)) ops).
  { apply list_elem_of_filter. split; [by repeat split|]. apply Hops. exists n, c. split; [done|].
    apply elem_of_row_facts. by exists (cn_operation nd), op. }
  rewrite Hf in Hg. by apply list_elem_of_singleton in Hg.
Qed.

Lemma row_parameters_fit c nd op f :
  f = with_component (ac_digest c) (project_operation c (cn_operation nd) op) →
  (∀ k, k ∈ (cn_params nd).*1 → k ∈ (op_parameters op).*1) →
  (∀ k, (k, true) ∈ op_parameters op → k ∈ (cn_params nd).*1) →
  Lowering.validate_parameters (set_component (ac_digest c) nd) f = Ok tt.
Proof.
  intros -> Hd Hr. apply validate_parameters_spec. simpl. split; intros k Hk.
  - apply (foldl_insert_lookup (op_parameters op) ∅ k). left. by apply Hd.
  - apply (foldl_insert_lookup (op_parameters op) ∅ k) in Hk as [?|?%lookup_empty_Some]; [|done]. by apply Hr.
Qed.

Lemma lower_nodes_refusal facts nodes t :
  lower_nodes facts nodes = Err t →
  ∃ n nd, (n, nd) ∈ nodes ∧ (resolve_operation nd facts = Err t ∨
    ∃ f, resolve_operation nd facts = Ok f ∧ Lowering.validate_parameters nd f = Err t).
Proof.
  induction nodes as [|[k nd] nodes IH]; simpl; [done|]. unfold result_bind.
  destruct (resolve_operation nd facts) as [f|t'] eqn:Er.
  2:{ intros [= ->]. exists k, nd. split; [left|by left]. }
  destruct (Lowering.validate_parameters nd f) as [[]|t'] eqn:Ev.
  2:{ intros [= ->]. exists k, nd. split; [left|]. right. by exists f. }
  destruct (lower_nodes facts nodes) as [|t']; [done|]. intros [= ->].
  destruct (IH eq_refl) as (n & nd' & ? & ?). exists n, nd'. split; [by right|done].
Qed.

Lemma lower_edges_refusal resolved edges t :
  lower_edges resolved edges = Ret (Err t) →
  ∃ e src tgt, e ∈ edges ∧ resolved !! ce_from e = Some src ∧
    (ce_from_port e ≠ ERROR_PORT ∧ ce_from_port e ∉ wo_output_ports src ∨
     resolved !! ce_to e = Some tgt ∧ resolve_target_port (ce_to_port e) tgt = Err t).
Proof.
  induction edges as [|e edges IH]; simpl; [done|].
  destruct (resolved !! ce_from e) as [src|] eqn:Es; [simpl|done].
  destruct (negb (String.eqb (ce_from_port e) ERROR_PORT) && _) eqn:Eo.
  { intros _. apply andb_prop in Eo as [E1%negb_true_iff%String.eqb_neq E2%negb_true_iff%bool_decide_eq_false].
    exists e, src, src. split; [left|]. auto. }
  destruct (resolved !! ce_to e) as [tgt|] eqn:Et; [simpl|done].
  destruct (resolve_target_port (ce_to_port e) tgt) as [p|t'] eqn:Ep.
  2:{ intros [= ->]. exists e, src, tgt. split; [left|]. auto. }
  destruct (lower_edges resolved edges) as [[l|t']|]; simpl; [done| |done]. intros [= ->].
  destruct (IH eq_refl) as (e' & src' & tgt' & ? & ?). exists e', src', tgt'. split; [by right|done].
Qed.

(** The fact a lowered node of the graph has is its row's. *)
Lemma lowered_fact_row r ops l n f :
  document_ok (ra_document r) → resolution_ok r →
  (∀ f, f ∈ ops ↔ ∃ n c, (n, c) ∈ ra_node_components r ∧ f ∈ row_facts c) →
  Forall2 (node_lowers ops) (rekeyed (list_to_map (ra_node_components r)) <$> wd_nodes (ra_document r)) l →
  resolved_of l !! n = Some f →
  ∃ nd c op, (n, nd) ∈ wd_nodes (ra_document r) ∧ (n, c) ∈ ra_node_components r ∧
    ac_operations c !! cn_operation nd = Some op ∧
    f = with_component (ac_digest c) (project_operation c (cn_operation nd) op).
Proof.
  intros Hd Hr Hops Hl Hf.
  pose proof (rekeyed_document_ok (list_to_map (ra_node_components r)) _ Hd) as [Hnd _ _]. simpl in Hnd.
  destruct (resolved_lookup _ _ _ _ _ Hnd Hl Hf) as (nd' & Hin & [Hu _ _] & _).
  destruct (rekeyed_node _ _ _ Hr Hin) as (nd & c & Hnd' & Hc & ->).
  apply resolve_operation_spec in Hu.
  destruct (resolves_own_row _ _ _ _ _ _ Hr Hops Hnd' Hc Hu) as (op & ? & ?). by exists nd, c, op.
Qed.

(** A resolution that fits its contract lowers, but for rows that disagree. *)
Lemma fitted_lowering scope r :
  document_ok (ra_document r) → resolution_ok r → contract_fits r →
  ∀ t, lower_resolved_wiring scope r = Ret (Err t) → t = DuplicateOperationFact ∧ rows_disagree r.
Proof.
  intros Hd Hr [Hpar Hsrc Htgt] t. pose proof Hr as [Hnd Hn _]. unfold lower_resolved_wiring.
  destruct (runtime_keys_spec (ra_node_components r) (wd_nodes (ra_document r)) [] Hnd)
    as (ops & -> & Hops & Hdup); [by apply Forall_forall; intros n; apply Hn|].
  simpl. specialize (Hdup (NoDup_nil_2)).
  assert (Hops' : ∀ f, f ∈ ops ↔ ∃ n c, (n, c) ∈ ra_node_components r ∧ f ∈ row_facts c).
  { intros f. rewrite Hops, elem_of_nil. tauto. }
  unfold lower_active_wiring, validate_scope. simpl. rewrite bool_decide_true, String.eqb_refl by done. simpl.
  destruct (lower_nodes ops _) as [l|t'] eqn:El.
  2:{ intros [= ->]. apply lower_nodes_refusal in El as (n & nd' & Hin & He).
      destruct He as [He|(f & Hf & He)]; [by eapply resolved_nodes_err|].
      destruct (rekeyed_node _ _ _ Hr Hin) as (nd & c & Hnd' & Hc & ->).
      destruct (resolves_own_row _ _ _ _ _ _ Hr Hops' Hnd' Hc Hf) as (op & Hop & ->).
      destruct (Hpar _ _ _ _ Hnd' Hc Hop) as [Hp1 Hp2].
      by rewrite (row_parameters_fit c nd op _ eq_refl Hp1 Hp2) in He. }
  apply lower_nodes_spec in El. change (list_to_map _) with (resolved_of l).
  destruct (lower_edges (resolved_of l) _) as [[es|t']|] eqn:Ee; simpl; [| |done].
  { pose proof (rekeyed_document_ok (list_to_map (ra_node_components r)) _ Hd) as Hd'.
    destruct (lower_edges_accepts _ _ _ Hd' El) as (res & E & _ & Hes & _). simpl in E. rewrite Ee in E.
    injection E as <-. destruct (lowered_compiles _ _ _ _ Hd' El (Hes _ eq_refl)) as (w & Ew & _).
    simpl in Ew. by rewrite Ew. }
  intros [= ->]. exfalso. apply lower_edges_refusal in Ee as (e & src & tgt & He & Hs & Hcase).
  destruct (lowered_fact_row _ _ _ _ _ Hd Hr Hops' El Hs) as (nd & c & op & Hin & Hc & Hop & ->).
  destruct Hcase as [[Hne Hout]|[Ht Hp]].
  - destruct (Hsrc _ _ _ _ He Hin Hc Hop) as [?|Hport]; [done|]. apply Hout. simpl. set_solver.
  - destruct (lowered_fact_row _ _ _ _ _ Hd Hr Hops' El Ht) as (nd2 & c2 & op2 & Hin2 & Hc2 & Hop2 & ->).
    pose proof (Htgt _ _ _ _ He Hin2 Hc2 Hop2) as Hfit. unfold resolve_target_port in Hp. simpl in Hp.
    destruct (ce_to_port e) as [p|].
    + rewrite bool_decide_true in Hp by set_solver. done.
    + destruct Hfit as [p Hp2]. rewrite Hp2 in Hp. simpl in Hp.
      assert (E : ({[p]} ∪ ∅ : gset string) = {[p]}) by set_solver.
      by rewrite E, elements_singleton in Hp.
Qed.

(** ** The same components *)

(** What the gate and a resolution rely on of a release: its components are of its
    packages ([admitted_manifest_resolves]), and its facts are facts admission minted
    ([admitted_fact_verifies]): they pass the reader's check, their parameter schemas
    compile, and their schemas are JSON, whose numbers equal themselves. *)
Record release_sound `{Boon, WasiCeiling} (env_key : string) (m : ServingManifest) : Prop := {
  rs_members : ∀ c, c ∈ sm_components m → is_Some (release_versions m !! sv_package_id c);
  rs_verified : ∀ c, c ∈ sm_components m →
    verify_stored_effect_projection (admitted_component env_key m c) = Ok tt;
  rs_schemas : ∀ c, c ∈ sm_components m →
    Forall (λ eo, schemas_compile eo.2) (de_operations (sv_descriptor c));
  rs_json : ∀ c, c ∈ sm_components m →
    fact_eqb (admitted_component env_key m c) (admitted_component env_key m c) = true;
}.

(** A fact that admission minted: normalized from a declaration whose signed-read
    annotations are readable, with or without its statements bound. *)
Definition minted `{Boon, WasiCeiling, FloatText, Sha256} (f : AdmittedFact) : Prop :=
  ∃ d digest imports effects facts, normalize_component_fact d digest imports effects = Ok facts ∧
    reads_signed (af_operations (facts_component facts)) = true ∧
    (f = facts_component facts ∨
     ∃ statements hosts, bind_component_statement_facts (facts_component facts) statements hosts = Ret (Ok f)).

(** A release of such facts: its components are of its packages, each is a fact admission
    minted for the environment, and its schemas are JSON, whose numbers equal themselves. *)
Record release_minted `{Boon, WasiCeiling, FloatText, Sha256} (env_key : string) (m : ServingManifest) : Prop := {
  rm_members : ∀ c, c ∈ sm_components m → is_Some (release_versions m !! sv_package_id c);
  rm_minted : ∀ c, c ∈ sm_components m → minted (admitted_component env_key m c);
  rm_json : ∀ c, c ∈ sm_components m →
    fact_eqb (admitted_component env_key m c) (admitted_component env_key m c) = true;
}.

Lemma minted_admitted `{Boon, WasiCeiling, FloatText, Sha256} f :
  minted f → fact_admitted f ∧ reads_signed (af_operations f) = true.
Proof.
  intros (d & digest & imports & effects & facts & (Hf & _)%normalize_component_fact_inv & Hr & [->|(st & hosts & Hb)]);
    [done|]. destruct (bind_admitted _ _ _ _ Hf Hb) as [? E]. by rewrite E.
Qed.

(** The reader accepts what admission minted, so such a release is sound. *)
Lemma release_minted_sound `{Boon, WasiCeiling, FloatText, Sha256} env_key m :
  release_minted env_key m → release_sound env_key m.
Proof.
  intros [Hm Hf Hj]. constructor; [done|..|done].
  - intros c Hc. destruct (minted_admitted _ (Hf c Hc)) as [Ha Hr]. by rewrite verify_admitted, Hr.
  - intros c Hc. destruct (minted_admitted _ (Hf c Hc)) as [[_ _ _ Hp _ _] _].
    change (de_operations (sv_descriptor c)) with (af_operations (admitted_component env_key m c)).
    eapply Forall_impl; [exact Hp|]. intros [e o] [_ _ [_ Hpar]]. eapply Forall_impl; [exact Hpar|].
    intros q Hq. unfold schema_ok, normalize_schema in Hq. simpl.
    destruct (schema_compiles (schema (parameter_schema q))); [done|]. repeat case_hyp Hq; done.
Qed.

Lemma carries_node_spec n c :
  carries_node n c = true ↔
  de_component (sv_descriptor c) = wn_component n ∧
  de_interface_version (sv_descriptor c) = wn_interface_version n ∧
  is_Some (find_entry (wn_operation n) (de_operations (sv_descriptor c))).
Proof.
  unfold carries_node. rewrite !andb_true_iff, !String.eqb_eq, bool_decide_eq_true. tauto.
Qed.

Lemma choose_component_inv packages m k n c :
  choose_component packages m k n = Ok c → c ∈ sm_components m ∧ carries_node n c = true.
Proof.
  unfold choose_component. set (serving := filter _ (sm_components m)). intros E.
  enough (c ∈ serving) as [? ?]%list_elem_of_filter by done.
  destruct (filter _ serving) as [|a [|b l]] eqn:Ea.
  - destruct serving as [|first rest]; [done|]. destruct (existsb _ rest); [done|]. injection E as ->. left.
  - injection E as ->. assert (Ha : c ∈ filter (λ c, in_application packages c = true) serving) by (rewrite Ea; left).
    by apply list_elem_of_filter in Ha as [_ ?].
  - by destruct serving.
Qed.

Lemma filter_and {A} (f g : A → bool) (l : list A) :
  filter (λ a, (f a && g a) = true) l = filter (λ a, f a = true) (filter (λ a, g a = true) l).
Proof.
  rewrite list_filter_filter. apply list_filter_iff. intros a. by rewrite andb_true_iff.
Qed.

(** The digest the gate freezes selects the component the gate chose. *)
Lemma frozen_choice packages m k n c :
  choose_component packages m k n = Ok c →
  frozen_component packages m (component_digest_of c) n = Some c.
Proof.
  unfold choose_component, frozen_component. rewrite filter_and.
  set (serving := filter (λ c, carries_node n c = true) (sm_components m)).
  destruct (filter (λ c, in_application packages c = true) serving) as [|a [|b l]] eqn:Ea.
  - destruct serving as [|first rest] eqn:Es; [done|]. destruct (existsb _ rest) eqn:Ex; [done|].
    intros [= <-]. assert (Hsame : filter (λ a, String.eqb (component_digest_of a) (component_digest_of first) = true)
      (first :: rest) = first :: rest).
    { apply filter_all, Forall_forall. intros x [->|Hx]%elem_of_cons; [apply String.eqb_refl|].
      pose proof (existsb_false_inv _ _ _ Ex Hx) as E. by apply negb_false_iff in E. }
    rewrite Hsame. destruct (find _ _) as [x|] eqn:Ef; [|done].
    apply find_elem in Ef as [Hx Hin]. exfalso.
    assert (x ∈ filter (λ c, in_application packages c = true) (first :: rest)) as Hmem
      by (by apply list_elem_of_filter).
    rewrite Ea in Hmem. by apply elem_of_nil in Hmem.
  - intros [= <-]. assert (Hc : a ∈ filter (λ c, in_application packages c = true) serving) by (rewrite Ea; left).
    apply list_elem_of_filter in Hc as [Happ Hin].
    destruct (find _ _) as [x|] eqn:Ef.
    + apply find_elem in Ef as [[_ Hx]%list_elem_of_filter Hxa].
      assert (x ∈ filter (λ c, in_application packages c = true) serving) as Hmem by (by apply list_elem_of_filter).
      rewrite Ea in Hmem. by apply list_elem_of_singleton in Hmem as ->.
    + exfalso. assert (Hm : In a (filter (λ b, String.eqb (component_digest_of b) (component_digest_of a) = true) serving)).
      { apply list_elem_of_In, list_elem_of_filter. split; [apply String.eqb_refl|done]. }
      apply (find_none _ _ Ef) in Hm. congruence.
  - by destruct serving.
Qed.

(** One node's fact, as the gate chose it. *)
Definition chosen_fact (env_key : string) (packages : list string) (m : ServingManifest)
    (kn : string * AuthoredNode) (kf : string * AdmittedFact) : Prop :=
  kf.1 = kn.1 ∧ ∃ c, choose_component packages m kn.1 kn.2 = Ok c ∧ c ∈ sm_components m ∧
    kf.2 = admitted_component env_key m c.

Lemma resolve_nodes_spec env_key packages m nodes :
  (∀ c, c ∈ sm_components m → is_Some (release_versions m !! sv_package_id c)) →
  ∃ res, resolve_nodes env_key packages m (release_versions m) nodes = Ret res ∧
    ∀ facts, res = Ok facts → Forall2 (chosen_fact env_key packages m) nodes facts.
Proof.
  intros Hm. induction nodes as [|[k n] nodes (res & E & IH)]; simpl.
  { eexists. split; [done|]. by intros facts [= <-]. }
  unfold try_bind. simpl. destruct (choose_component packages m k n) as [c|] eqn:Ec; [|by eexists].
  pose proof (choose_component_inv _ _ _ _ _ Ec) as [Hin _]. destruct (Hm _ Hin) as [v Hv].
  rewrite Hv. simpl. rewrite E. simpl. destruct res as [rest|]; [|by eexists].
  eexists. split; [done|]. intros facts [= <-]. constructor; [|by apply IH]. split; [done|].
  exists c. split; [done|]. split; [done|]. simpl. unfold admitted_component. by rewrite Hv.
Qed.

Lemma resolve_components_inv env_key packages m d facts :
  (∀ c, c ∈ sm_components m → is_Some (release_versions m !! sv_package_id c)) →
  resolve_workflow_components env_key packages m d = Ret (Ok facts) →
  Forall2 (chosen_fact env_key packages m) (doc_nodes d) facts.
Proof.
  intros Hm. unfold resolve_workflow_components. destruct (find _ packages); [done|].
  destruct (resolve_nodes_spec env_key packages m (doc_nodes d) Hm) as (res & -> & Hres). intros [= ->]. by apply Hres.
Qed.

(** What admission freezes on a run. *)
Definition digests_of (facts : list (string * AdmittedFact)) : list (string * string) :=
  prod_map (λ k, k) af_component_digest <$> facts.

Lemma digests_lookup facts k f :
  NoDup facts.*1 → (k, f) ∈ facts → find_entry k (digests_of facts) = Some (af_component_digest f).
Proof.
  intros Hnd Hin. apply find_entry_NoDup.
  - unfold digests_of. rewrite <- list_fmap_compose.
    by rewrite (list_fmap_ext _ fst facts) by by intros ? [? ?].
  - apply list_elem_of_fmap. by exists (k, f).
Qed.

Lemma chosen_keys env_key packages m nodes facts :
  Forall2 (chosen_fact env_key packages m) nodes facts → facts.*1 = nodes.*1.
Proof.
  induction 1 as [|[k n] [k' f] nodes facts [E _] _ IH]; [done|]. simpl in E. subst k'.
  exact (f_equal (cons k) IH).
Qed.

Lemma frozen_nodes_chosen run_key m nodes facts :
  Forall2 (chosen_fact (rk_env_key run_key) (rk_application_packages run_key) m) nodes facts →
  (∀ k f, (k, f) ∈ facts → find_entry k (rk_node_digests run_key) = Some (af_component_digest f)) →
  frozen_nodes run_key m nodes = Ok facts.
Proof.
  induction 1 as [|[k n] [k' f] nodes facts (E & c & Hc & _ & Hf) _ IH]; intros Hd; [done|]. simpl in *. subst k' f.
  rewrite (Hd k (admitted_component (rk_env_key run_key) m c)) by left. simpl.
  pose proof (frozen_choice _ _ _ _ _ Hc) as Hfz. unfold component_digest_of in Hfz. rewrite Hfz. simpl.
  rewrite IH; [done|]. intros k' f Hin. apply Hd. by right.
Qed.

Section Gated.
Context `{Boon, WasiCeiling, FloatText, Sha256}.

Lemma driver_lookup c k :
  ac_operations (driver_component c) !! k = driver_operation <$> find_entry k (af_operations c).
Proof.
  simpl. rewrite find_entry_list_to_map. induction (af_operations c) as [|[k' o] l IH]; [done|]. simpl.
  by destruct (String.eqb k k').
Qed.

Lemma check_bindings_chosen env_key packages m (nodes : list (string * AuthoredNode)) :
  release_sound env_key m → NoDup nodes.*1 →
  ∀ ns facts, Forall2 (chosen_fact env_key packages m) ns facts → ns ⊆ nodes →
    check_bindings nodes (admitted_component env_key m <$> sm_components m) facts = true.
Proof.
  intros Hrs Hnd ns facts. induction 1 as [|[k n] [k' f] ns facts (E & c & Hc & Hin & Hf) _ IH]; intros Hsub; [done|].
  simpl in *. subst k' f. rewrite (find_entry_NoDup k nodes n) by (done || set_solver).
  apply choose_component_inv in Hc as [_ (Hcomp & Hver & Hop)%carries_node_spec].
  rewrite IH by set_solver. simpl. rewrite Hcomp, Hver, !String.eqb_refl. simpl.
  rewrite bool_decide_true by done. simpl. rewrite andb_true_r. apply existsb_exists.
  exists (admitted_component env_key m c). split; [|by apply Hrs].
  apply list_elem_of_In, list_elem_of_fmap. by exists c.
Qed.

Lemma verified_components env_key m :
  release_sound env_key m →
  forallb (λ c, is_ok (verify_stored_effect_projection c)) (admitted_component env_key m <$> sm_components m) = true.
Proof.
  intros Hrs. apply forallb_forall. intros f Hf. apply list_elem_of_In, list_elem_of_fmap in Hf as (c & -> & Hin).
  by rewrite (rs_verified _ _ Hrs _ Hin).
Qed.

(** The run of a gated workflow that froze what the gate chose. *)
Record freezes (env_key : string) (packages : list string) (d : AuthoredWiring) (hash : string)
    (facts : list (string * AdmittedFact)) (k : WorkflowRunKey) : Prop := {
  fz_env : rk_env_key k = env_key;
  fz_packages : rk_application_packages k = packages;
  fz_workflow : rk_workflow_id k = doc_wiring_id d;
  fz_version : rk_version k = doc_version d;
  fz_hash : rk_wiring_hash k = hash;
  fz_digests : rk_node_digests k = digests_of facts;
}.

(** The resolution a gated run gets. *)
Definition resolution_of (env_key : string) (m : ServingManifest) (d : AuthoredWiring) (hash : string)
    (facts : list (string * AdmittedFact)) (k : WorkflowRunKey) : ResolvedWorkflow := {|
  rw_wiring := {|
    ra_version := rk_version k; ra_manifest_digest := rk_manifest_digest k; ra_graph_hash := hash;
    ra_package_version := ""; ra_document := graph_of d;
    ra_node_components := prod_map (λ k, k) driver_component <$> facts |};
  rw_facts := facts; rw_components := admitted_component env_key m <$> sm_components m |}.

Lemma gated_resolution env_key packages m d hash facts k :
  NoDup (doc_nodes d).*1 → release_sound env_key m →
  Forall2 (chosen_fact env_key packages m) (doc_nodes d) facts →
  validate_resolved_wiring_compatibility d facts = Ret (Ok tt) → wiring_hash d = Ret hash →
  freezes env_key packages d hash facts k →
  resolve_workflow_in_release k m d hash = Ret (Ok (resolution_of env_key m d hash facts k)).
Proof.
  intros Hnd Hrs Hch Hgate Hhash [He Hp Hw Hv Hh Hdg]. pose proof (chosen_keys _ _ _ _ _ Hch) as Hkeys.
  unfold resolve_workflow_in_release. rewrite Hh, String.eqb_refl. simpl. rewrite Hhash. simpl.
  rewrite String.eqb_refl, Hw, String.eqb_refl, Hv, Z.eqb_refl. simpl.
  rewrite existsb_false.
  2:{ intros x Hx. apply negb_false_iff, bool_decide_eq_true, find_entry_key. rewrite Hdg in Hx.
      unfold digests_of in Hx. rewrite <- list_fmap_compose in Hx.
      rewrite (list_fmap_ext _ fst facts) in Hx by by intros ? [? ?]. by rewrite <- Hkeys. }
  rewrite (frozen_nodes_chosen k m (doc_nodes d) facts).
  2:{ by rewrite He, Hp. }
  2:{ intros x f Hin. rewrite Hdg. apply digests_lookup; [by rewrite Hkeys|done]. }
  rewrite Hgate. simpl. unfold resolved_wiring.
  assert (Hbind := check_bindings_chosen env_key packages m (doc_nodes d) Hrs Hnd _ _ Hch (reflexivity _)).
  assert (Hver := verified_components env_key m Hrs). rewrite He.
  destruct (doc_response d); rewrite ?Hgate; simpl; rewrite Hbind; simpl; rewrite Hver; simpl;
    unfold resolution_of; by rewrite Hv.
Qed.

Lemma graph_node d k nd :
  (k, nd) ∈ wd_nodes (graph_of d) → ∃ n, (k, n) ∈ doc_nodes d ∧ nd = node_of n.
Proof. intros ([k' n] & [= -> ->] & Hin)%list_elem_of_fmap. by exists n. Qed.

Lemma driver_row (facts : list (string * AdmittedFact)) k c :
  (k, c) ∈ prod_map (λ k, k) driver_component <$> facts → ∃ f, (k, f) ∈ facts ∧ c = driver_component f.
Proof. intros ([k' f] & [= -> ->] & Hin)%list_elem_of_fmap. by exists f. Qed.

Lemma gated_resolution_ok env_key packages m d hash facts k :
  NoDup (doc_nodes d).*1 → Forall2 (chosen_fact env_key packages m) (doc_nodes d) facts →
  resolution_ok (rw_wiring (resolution_of env_key m d hash facts k)).
Proof.
  intros Hnd Hch. pose proof (chosen_keys _ _ _ _ _ Hch) as Hkeys.
  assert (Hrows : (prod_map (λ k : string, k) driver_component <$> facts).*1 = facts.*1).
  { rewrite <- list_fmap_compose. by apply list_fmap_ext; intros ? [? ?]. }
  constructor; unfold resolution_of; cbn [rw_wiring ra_node_components ra_document].
  - by rewrite Hrows, Hkeys.
  - intros x. by rewrite graph_nodes_keys, Hrows, Hkeys.
  - intros x c nd Hc Hin. apply driver_row in Hc as (f & Hf & ->). apply graph_node in Hin as (n & Hn & ->).
    apply list_elem_of_lookup in Hf as [i Hi].
    destruct (Forall2_lookup_r _ _ _ _ _ Hch Hi) as ([x' n'] & Hi' & (E & sc & Hsc & _ & Ef)). simpl in *. subst x' f.
    apply list_elem_of_lookup_2 in Hi'.
    assert (n' = n) as -> by (by eapply NoDup_keys).
    apply choose_component_inv in Hsc as [_ (Hcomp & Hver & Hop)%carries_node_spec].
    split; [done|]. destruct Hop as [o Ho].
    rewrite (driver_lookup (admitted_component env_key m sc)). simpl. rewrite Ho. by eexists.
Qed.

Lemma gated_contract_fits env_key m d hash facts k :
  NoDup (doc_nodes d).*1 → facts.*1 = (doc_nodes d).*1 → compatible d facts →
  contract_fits (rw_wiring (resolution_of env_key m d hash facts k)).
Proof.
  intros Hnd Hkeys [_ Hnodes (resolved & Hres & Hedges)].
  assert (Hfact : ∀ x n c op, (x, n) ∈ doc_nodes d → (x, c) ∈ prod_map (λ k, k) driver_component <$> facts →
    ac_operations c !! wn_operation n = Some op →
    ∃ f o, find_entry x facts = Some f ∧ serves n f o ∧ parameters_fit n o ∧ op = driver_operation o).
  { intros x n c op Hn (f & Hf & ->)%driver_row Hop. destruct (Hnodes _ _ Hn) as (f' & o & Hf' & Hs & Hp).
    assert (find_entry x facts = Some f) as E by (apply find_entry_NoDup; [by rewrite Hkeys|done]).
    rewrite Hf' in E. injection E as ->. exists f, o. rewrite driver_lookup in Hop.
    destruct Hs as (? & ? & Ho). rewrite Ho in Hop. injection Hop as <-. done. }
  assert (Hedge : ∀ x n c op o, (x, n) ∈ doc_nodes d → (x, c) ∈ prod_map (λ k, k) driver_component <$> facts →
    ac_operations c !! wn_operation n = Some op → find_entry x resolved = Some o → op = driver_operation o).
  { intros x n c op o Hn Hc Hop Ho%find_entry_elem. destruct (Hfact _ _ _ _ Hn Hc Hop) as (f & o' & Hf & Hs & _ & ->).
    apply list_elem_of_lookup in Ho as [i Hi].
    destruct (Forall2_lookup_r _ _ _ _ _ Hres Hi) as ([x' n'] & Hi' & (E & _ & f' & Hf' & Hs')). simpl in *. subst x'.
    apply list_elem_of_lookup_2 in Hi'. assert (n' = n) as -> by (by eapply NoDup_keys).
    rewrite Hf in Hf'. injection Hf' as <-. destruct Hs as (_ & _ & E1), Hs' as (_ & _ & E2). congruence. }
  constructor; unfold resolution_of; cbn [rw_wiring ra_node_components ra_document].
  - intros x nd c op (n & Hn & ->)%graph_node Hc Hop.
    destruct (Hfact _ _ _ _ Hn Hc Hop) as (f & o & _ & _ & [Hd Hr] & ->). simpl. split.
    + intros q ([q' v] & -> & Hin)%list_elem_of_fmap. destruct (Hd _ _ Hin) as (p & Hp & <- & _).
      rewrite <- list_fmap_compose. apply list_elem_of_fmap. by exists p.
    + intros q (p & [= -> Hreq] & Hin)%list_elem_of_fmap. by apply Hr.
  - intros e nd c op He (n & Hn & ->)%graph_node Hc Hop. rewrite Forall_forall in Hedges.
    destruct (Hedges _ He) as (src & tgt & p & Hs & Ht & Henter & Hport).
    rewrite (Hedge _ _ _ _ _ Hn Hc Hop Hs). destruct Hport as [?|(q & Hq & <- & _)]; [by left|right].
    simpl. apply list_elem_of_fmap. by exists q.
  - intros e nd c op He (n & Hn & ->)%graph_node Hc Hop. rewrite Forall_forall in Hedges.
    destruct (Hedges _ He) as (src & tgt & p & Hs & Ht & [Hin Henter] & _).
    rewrite (Hedge _ _ _ _ _ Hn Hc Hop Ht). simpl. destruct Henter as [->|[-> ->]]; [|by eexists].
    apply list_elem_of_fmap. by exists p.
Qed.

End Gated.

(** ** The composed guarantee *)

Lemma run_lowering_error `{Powi, JsonText} {S : Type} `{!OperationHost S} fuel rq identity r (s s' : S) t :
  run_resolved fuel rq identity r s = Some (Ret (s', Err (inl t))) →
  ∃ scope, lower_resolved_wiring scope r = Ret (Err t).
Proof.
  unfold run_resolved. set (scope := {| ws_env_key := _ |}). intros E. exists scope.
  destruct (lower_resolved_wiring scope r) as [[w|t']|]; [|by injection E as _ ->|done].
  destruct (execute_resolved fuel rq (active_of r w) (Some identity) s) as [[[? [|]]|]|]; done.
Qed.

Lemma gate_total `{Boon, WasiCeiling, FloatText} `{Sha256Law} env_key packages m d :
  document_ok (graph_of d) → release_sound env_key m →
  ∃ res, gate_workflow_document env_key packages m d = Ret res.
Proof.
  intros Hd Hrs. unfold gate_workflow_document, try_bind, resolve_workflow_components.
  destruct (find _ packages); [by eexists|].
  destruct (resolve_nodes_spec env_key packages m (doc_nodes d) (rs_members _ _ Hrs)) as (res & -> & Hres). simpl.
  destruct res as [facts|]; [|by eexists]. specialize (Hres facts eq_refl).
  destruct (gate_returns d facts) as (res & ->); [| |simpl].
  - intros k c Hin%find_entry_elem. apply list_elem_of_lookup in Hin as [i Hi].
    destruct (Forall2_lookup_r _ _ _ _ _ Hres Hi) as (kn & _ & (_ & sc & _ & Hsc & Hf)). simpl in Hf. subst c.
    by apply (rs_schemas _ _ Hrs).
  - pose proof (do_edges _ Hd) as He. by rewrite graph_nodes_keys in He.
  - destruct res; [|by eexists]. unfold wiring_hash, definition_hash, validate_digest, canonical_json_sha256.
    rewrite bytes_sha256_valid. by eexists.
Qed.

(** How the execution of a gated run ends. *)
Definition settled_as (rq : RouterDriverRequest) (d : AuthoredWiring) (hash : string) (r : ResolvedWorkflow) {S : Type}
    (s s' : S) (out : result RouterDelivery (WiringLoweringErrorType + DriverError * list DeadlineAdjustment)) : Prop :=
  match out with
  | Ok o => rd_wiring_version o = doc_version d ∧ rd_graph_hash o = hash ∧
      Forall adjusted (rd_adjustments o) ∧ (0 ≤ o_hops (rd_outcome o) ≤ DEFAULT_HOP_LIMIT)%Z ∧
      ∃ a, production_router_action (rd_outcome o) (rq_caller_attached rq) = Ret (Ok a) ∧
           action_spec (rd_outcome o) (rq_caller_attached rq) a
  | Err (inl t) => s' = s ∧ t = DuplicateOperationFact ∧ rows_disagree (rw_wiring r)
  | Err (inr (e, adj)) => Forall adjusted adj ∧ ∃ he, e = DHost he
  end.

Lemma gated_run_settles `{Boon, WasiCeiling, FloatText, Powi, JsonText} `{Sha256Law}
    {S : Type} `{!OperationHost S, !SleepLaw S} env_key packages m d hash :
  validate_document d = Ok tt → NoDup (doc_nodes d).*1 → release_sound env_key m →
  gate_workflow_document env_key packages m d = Ret (Ok hash) →
  ∃ facts, resolve_workflow_components env_key packages m d = Ret (Ok facts) ∧ facts.*1 = (doc_nodes d).*1 ∧
  ∀ k, freezes env_key packages d hash facts k →
  ∃ r, resolve_workflow_in_release k m d hash = Ret (Ok r) ∧ rw_facts r = facts ∧
  ∀ (rq : RouterDriverRequest) (identity : WorkflowIdentity) (s : S) (fuel : nat),
    (2 * Z.to_nat DEFAULT_HOP_LIMIT + 2 ≤ fuel)%nat →
    ∃ s' out, run_resolved fuel rq identity (rw_wiring r) s = Some (Ret (s', out)) ∧ settled_as rq d hash r s s' out.
Proof.
  intros Hval Hnd Hrs Hg. pose proof (validated_graph _ Hval Hnd) as Hd. unfold gate_workflow_document, try_bind in Hg.
  destruct (resolve_workflow_components env_key packages m d) as [[facts|]|] eqn:Er; [simpl in Hg|done..].
  destruct (validate_resolved_wiring_compatibility d facts) as [[[]|]|] eqn:Ec; [simpl in Hg|done..].
  destruct (wiring_hash d) as [hash'|] eqn:Eh; [|done]. injection Hg as ->.
  pose proof (resolve_components_inv _ _ _ _ _ (rs_members _ _ Hrs) Er) as Hch.
  exists facts. split; [done|]. split; [by eapply chosen_keys|]. intros k Hk.
  exists (resolution_of env_key m d hash facts k).
  split; [by eapply gated_resolution|]. split; [done|]. intros rq identity s fuel Hf.
  assert (Hok := gated_resolution_ok env_key packages m d hash facts k Hnd Hch).
  assert (Hfit := gated_contract_fits env_key m d hash facts k Hnd (chosen_keys _ _ _ _ _ Hch)
    (gate_compatible _ _ Ec)).
  destruct (workflow_run_settles rq identity (rw_wiring (resolution_of env_key m d hash facts k)) s fuel)
    as (s' & out & E & Hout); [done..|].
  exists s', out. split; [done|]. destruct out as [o|[t|[e adj]]].
  - unfold settled_as. destruct Hout as (-> & -> & ?). simpl. rewrite (fz_version _ _ _ _ _ _ Hk). done.
  - destruct Hout as [-> _]. split; [done|]. apply run_lowering_error in E as [scope E].
    by apply (fitted_lowering scope (rw_wiring (resolution_of env_key m d hash facts k))).
  - done.
Qed.

(** C13. A workflow the gate accepts runs to its end on what the gate judged.  Over a
    sound release and a validated document the gate never panics.  When it accepts,
    every run that froze the digests of the components the gate chose resolves, over
    the same release, to exactly those components; and executing it returns within
    [2 * DEFAULT_HOP_LIMIT + 2] turns without a panic.  The delivery names the
    document's version and the gated hash and carries an outcome the boundary
    settles.  No parameter, port or component of the graph is refused at run time:
    the errors left are one of the host, and, before anything ran, two components of
    the release that share a digest and declare one operation differently. *)
Theorem gated_workflow_settles `{Boon, WasiCeiling, FloatText, Powi, JsonText} `{Sha256Law}
    {S : Type} `{!OperationHost S, !SleepLaw S} (env_key : string) (packages : list string)
    (m : ServingManifest) (d : AuthoredWiring) :
  validate_document d = Ok tt → NoDup (doc_nodes d).*1 → release_sound env_key m →
  (∃ res, gate_workflow_document env_key packages m d = Ret res) ∧
  ∀ hash, gate_workflow_document env_key packages m d = Ret (Ok hash) →
  ∃ facts, resolve_workflow_components env_key packages m d = Ret (Ok facts) ∧
  ∀ k, freezes env_key packages d hash facts k →
  ∃ r, resolve_workflow_in_release k m d hash = Ret (Ok r) ∧ rw_facts r = facts ∧
  ∀ (rq : RouterDriverRequest) (identity : WorkflowIdentity) (s : S) (fuel : nat),
    (2 * Z.to_nat DEFAULT_HOP_LIMIT + 2 ≤ fuel)%nat →
    ∃ s' out, run_resolved fuel rq identity (rw_wiring r) s = Some (Ret (s', out)) ∧ settled_as rq d hash r s s' out.
Proof.
  intros Hval Hnd Hrs. split; [by apply gate_total; [apply validated_graph|]|]. intros hash Hg.
  destruct (gated_run_settles env_key packages m d hash Hval Hnd Hrs Hg) as (facts & Hf & _ & Hrun).
  by exists facts.
Qed.

(** ** A concrete workflow *)

Module GateSample.

Import AdmissionSample ManifestSample.

Definition post_node (t : option CatalogTerminal) : AuthoredNode := {|
  wn_component := "orders"; wn_interface_version := "0.1.0"; wn_operation := "orders:order/post@1.2.0";
  wn_operation_dependency := None; wn_params := []; wn_terminal := t |}.

(** Two posts, the second one answering; the edge leaves its target port out. *)
Definition document : AuthoredWiring := {|
  doc_format_version := "0.1"; doc_wiring_id := "repost"; doc_version := 3; doc_entry := "first";
  doc_nodes := [("first", post_node None); ("second", post_node (Some CRespond))];
  doc_edges := [{| ce_from := "first"; ce_from_port := "main"; ce_to := "second"; ce_to_port := None |}];
  doc_cases := [{| tc_case_id := "empty"; tc_input := VNull;
                   tc_expect := {| ex_outcome := Responded; ex_status := Some 200%Z; ex_body_subset := None;
                                   ex_failure_code := None |} |}];
  doc_response := Some {| wr_node := "second"; wr_schema := VObject []; wr_committed_result := Some "first" |} |}.

Definition gate : run (result string WorkflowGateError) :=
  gate_workflow_document "acme" ["orders"] release document.

(** The gate accepts it, and the digests it freezes are the component's. *)
Example gated : (∃ hash, gate = Ret (Ok hash)) ∧
  match resolve_workflow_components "acme" ["orders"] release document with
  | Ret (Ok facts) => digests_of facts = [("first", digest); ("second", digest)]
  | _ => False
  end.
Proof. split; [eexists|]; vm_compute; reflexivity. Qed.

(** An application package the release does not carry refuses. *)
Example unknown_package :
  gate_workflow_document "acme" ["billing"] release document = Ret (Err (PackageNotCarried "billing")).
Proof. vm_compute. reflexivity. Qed.

(** The one component of the release, evaluated. *)
Ltac served_sound :=
  let Hc := fresh in let E := fresh in let c := fresh "c" in let Hs := fresh in
  assert (Hc : ∀ (P : ServingComponent → Prop), Forall P served → ∀ c, c ∈ sm_components release → P c)
    by (intros P HP c Hin; by eapply Forall_forall in Hin);
  assert (E : ∃ c, served = [c]) by (eexists; vm_compute; reflexivity); destruct E as [c E];
  constructor; apply Hc; rewrite E; constructor; try constructor;
  assert (Hs : c = match served with [x] => x | _ => c end) by (by rewrite E); rewrite Hs; clear;
  vm_compute; try reflexivity; eauto.

Lemma sound : release_sound "acme" release.
Proof. served_sound. Qed.

Definition run_key (hash : string) (facts : list (string * AdmittedFact)) : WorkflowRunKey := {|
  rk_env_key := "acme"; rk_environment := "dev"; rk_application := "erp"; rk_application_packages := ["orders"]; rk_workflow_id := "repost"; rk_version := 3;
  rk_manifest_digest := "m"; rk_wiring_hash := hash; rk_node_digests := digests_of facts |}.

Lemma gated_workflow_settles_witness :
  ∃ hash facts r, gate = Ret (Ok hash) ∧
    resolve_workflow_in_release (run_key hash facts) release document hash = Ret (Ok r) ∧
    rw_facts r = facts ∧ length facts = 2%nat ∧
    ∃ s' out, run_resolved (Z.to_nat 20002) DriverSample.request DriverSample.clerk (rw_wiring r)
      DriverSample.fresh_host = Some (Ret (s', out)).
Proof.
  destruct (gated_workflow_settles (S := DriverSample.TestHost) "acme" ["orders"] release document)
    as [_ Hgate];
    [vm_compute; reflexivity|apply (bool_decide_unpack _); vm_compute; reflexivity|exact sound|].
  destruct gated as [[hash Hh] Hdigests]. destruct (Hgate hash Hh) as (facts & Hfacts & Hrun).
  destruct (Hrun (run_key hash facts)) as (r & Hr & Hrf & Hsettle); [constructor; reflexivity|].
  exists hash, facts, r. split; [exact Hh|]. split; [exact Hr|]. split; [exact Hrf|]. split.
  - rewrite Hfacts in Hdigests. apply (f_equal length) in Hdigests. unfold digests_of in Hdigests.
    rewrite length_fmap in Hdigests. exact Hdigests.
  - destruct (Hsettle DriverSample.request DriverSample.clerk DriverSample.fresh_host (Z.to_nat 20002))
      as (s' & out & E & _); [change DEFAULT_HOP_LIMIT with 10000%Z; lia|].
    exists s', out. exact E.
Defined.

End GateSample.
