(* ===== verification/EventWire.v ===== *)
(** * The event wire

    [apps/platform/events/wire/src/lib.rs]: the envelope of a captured row change
    and the record of a derived event, their JSON forms, and the names the event
    plane keys on: message ids, subjects and streams.

    An instant is microseconds since the epoch; chrono's RFC 3339 text of one is a
    parameter.  [serde_json] writes a struct in field order, and the model in key
    order: every reader takes members by name. *)

From stdpp Require Import base tactics option list strings.
From Stdlib Require Import ZArith Lia.
From S2P Require Import Prelude Text Json Canonical Router ClaimStore ComponentFacts WiringDocuments.
#[local] Set Warnings "-clear-no-such-hyp".

(** [DateTime<Utc>]'s serde form. *)
Class InstantText := {
  instant_text : Z → string;
  parse_instant : string → option Z;
}.
(** Of the instants since the epoch that fit 64 bits. *)
Class InstantTextLaw `{InstantText} : Prop :=
  parse_instant_text t : (0 ≤ t ≤ i64_max)%Z → parse_instant (instant_text t) = Some t.

(** The members of a JSON object text in the order they stand, a repeated name
    repeated; [None] for any other text. *)
Class JsonMembers := json_members : string → option (list (string * Value)).

Definition DERIVED_EVENT_FORMAT_VERSION : string := "0.1".

#[export] Instance Op_eq_dec : EqDecision Op.
Proof. solve_decision. Defined.

Definition decode_op (v : Value) : option Op :=
  name ← unit_variant v;
  if String.eqb name "insert" then Some OpInsert
  else if String.eqb name "update" then Some OpUpdate
  else if String.eqb name "delete" then Some OpDelete else None.

(** ** Causation *)

Definition causation_value (c : Causation) : Value :=
  VObject (map_from_iter [("run", VString (cause_run c)); ("root", VString (cause_root c));
                          ("depth", number_of_int (cause_depth c))]).

Definition as_u32 (v : Value) : option Z :=
  n ← as_u64 v; if (n <=? u32_max)%Z then Some n else None.

Definition decode_causation_stamp (v : Value) : option Causation :=
  match struct_fields [("run", false); ("root", false); ("depth", false)] v with
  | Some [Some (VString run); Some (VString root); Some depth] =>
      (λ depth, {| cause_run := run; cause_root := root; cause_depth := depth |}) <$> as_u32 depth
  | _ => None
  end.

(** ** Envelopes *)

Record Envelope := {
  en_op : Op;
  en_old : option (list (string * Value));
  en_new : option (list (string * Value));
  en_package_id : string;
  en_entity : string;
  en_table : string;
  en_lsn : Z;  (* u64 *)
  en_txid : Z;  (* u32 *)
  en_commit_ts : Z;
  en_causation : option Causation;
}.

(** [value.is_empty() || value.trim() != value || value.as_bytes().contains(&0)]. *)
Definition noncanonical (s : string) : bool := String.eqb s "" || negb (is_trimmed s) || contains_nul s.

Definition optional_member (k : string) (v : option Value) : list (string * Value) :=
  match v with Some v => [(k, v)] | None => [] end.

Section Envelopes.
Context `{InstantText}.

Definition envelope_value (e : Envelope) : Value :=
  VObject (map_from_iter (
    [("op", VString (op_text (en_op e)))]
    ++ optional_member "old" (VObject <$> en_old e)
    ++ optional_member "new" (VObject <$> en_new e)
    ++ [("package_id", VString (en_package_id e)); ("entity", VString (en_entity e));
        ("table", VString (en_table e)); ("lsn", number_of_int (en_lsn e));
        ("txid", number_of_int (en_txid e)); ("commit_ts", VString (instant_text (en_commit_ts e)))]
    ++ optional_member "causation" (causation_value <$> en_causation e))).

(** A defaulted [Option] field: absent or null is none. *)
Definition decode_option {A} (f : Value → option A) (v : option Value) : option (option A) :=
  match v with
  | None | Some VNull => Some None
  | Some v => Some <$> f v
  end.

Definition as_object (v : Value) : option (list (string * Value)) :=
  match v with VObject m => Some m | _ => None end.

(** [EnvelopeWire], then the two identity checks. *)
Definition decode_envelope (v : Value) : option Envelope :=
  match struct_fields [("op", false); ("old", true); ("new", true); ("package_id", false); ("entity", false);
                       ("table", false); ("lsn", false); ("txid", false); ("commit_ts", false);
                       ("causation", true)] v with
  | Some [Some op; old; new; Some (VString package_id); Some (VString entity); Some (VString table);
          Some lsn; Some txid; Some (VString commit_ts); causation] =>
      op ← decode_op op; old ← decode_option as_object old; new ← decode_option as_object new;
      lsn ← as_u64 lsn; txid ← as_u32 txid; commit_ts ← parse_instant commit_ts;
      causation ← decode_option decode_causation_stamp causation;
      if noncanonical package_id || noncanonical entity then None
      else Some {| en_op := op; en_old := old; en_new := new; en_package_id := package_id;
                   en_entity := entity; en_table := table; en_lsn := lsn; en_txid := txid;
                   en_commit_ts := commit_ts; en_causation := causation |}
  | _ => None
  end.

End Envelopes.

(** ** Derived events *)

Record DerivedEvent := {
  dv_format_version : string;
  dv_env_key : string;
  dv_project : string;
  dv_environment : string;
  dv_package_id : string;
  dv_entity : string;
  dv_op : Op;
  dv_payload : Value;
  dv_dedup_id : string;
  dv_causation : Causation;
}.

Definition derived_event (env_key project environment package_id entity : string) (op : Op) (payload : Value)
    (dedup_id : string) (causation : Causation) : DerivedEvent := {|
  dv_format_version := DERIVED_EVENT_FORMAT_VERSION; dv_env_key := env_key; dv_project := project;
  dv_environment := environment; dv_package_id := package_id; dv_entity := entity; dv_op := op;
  dv_payload := payload; dv_dedup_id := dedup_id; dv_causation := causation |}.

Definition derived_members (e : DerivedEvent) : list (string * Value) := [
  ("format-version", VString (dv_format_version e)); ("env_key", VString (dv_env_key e));
  ("project", VString (dv_project e)); ("environment", VString (dv_environment e));
  ("package-id", VString (dv_package_id e)); ("entity", VString (dv_entity e));
  ("op", VString (op_text (dv_op e))); ("payload", dv_payload e); ("dedup-id", VString (dv_dedup_id e));
  ("causation", causation_value (dv_causation e))].

Definition DERIVED_FIELDS : list string :=
  ["format-version"; "env_key"; "project"; "environment"; "package-id"; "entity"; "op"; "payload";
   "dedup-id"; "causation"].

Definition take_text (name : string) (members : list (string * Value)) : option string :=
  map_get name members ≫= as_str.

(** The hand-written [Deserialize]: no member twice, every field, no other. *)
Definition decode_derived (members : list (string * Value)) : option DerivedEvent :=
  if negb (bool_decide (NoDup members.*1)) || negb (forallb (λ k, bool_decide (k ∈ DERIVED_FIELDS)) members.*1)
  then None
  else
    format_version ← take_text "format-version" members; env_key ← take_text "env_key" members;
    project ← take_text "project" members; environment ← take_text "environment" members;
    package_id ← take_text "package-id" members; entity ← take_text "entity" members;
    op ← map_get "op" members ≫= decode_op; payload ← map_get "payload" members;
    dedup_id ← take_text "dedup-id" members;
    causation ← map_get "causation" members ≫= decode_causation_stamp;
    Some {| dv_format_version := format_version; dv_env_key := env_key; dv_project := project;
            dv_environment := environment; dv_package_id := package_id; dv_entity := entity; dv_op := op;
            dv_payload := payload; dv_dedup_id := dedup_id; dv_causation := causation |}.

(** [DerivedEvent::from_slice]. *)
Definition derived_from_slice `{JsonMembers} (body : string) : option DerivedEvent :=
  e ← json_members body ≫= decode_derived;
  if negb (String.eqb (dv_format_version e) DERIVED_EVENT_FORMAT_VERSION) then None
  else if existsb noncanonical
            [dv_env_key e; dv_project e; dv_environment e; dv_package_id e; dv_entity e;
             cause_run (dv_causation e); cause_root (dv_causation e)] then None
  else if String.eqb (dv_dedup_id e) "" then None
  else Some e.

(** ** Names *)

Definition project_env (project env : string) : string := project +:+ "_" +:+ env.

Definition msg_id (project env : string) (lsn : Z) : string := project_env project env +:+ ":" +:+ decimal_text lsn.

(** [u64::to_be_bytes], the [n] low bytes. *)
Fixpoint be_bytes (n : nat) (z : Z) : string :=
  match n with
  | O => ""
  | S n => String (Ascii.ascii_of_N (Z.to_N (z / 256 ^ Z.of_nat n mod 256))) (be_bytes n z)
  end.

Definition frame (field : string) : string :=
  be_bytes 8 (Z.min (Z.of_nat (String.length field)) u64_max) +:+ field.

Definition derived_identity (fields : list string) : string :=
  "wamn.event.derived-msg-id.v0.1" +:+ String Ascii.zero "" +:+ foldr (λ f s, frame f +:+ s) "" fields.

Definition derived_msg_id `{Sha256} (env_key project env package_id entity : string) (op : Op)
    (dedup_id : string) : string :=
  "derived:" +:+ foldr (λ b s, hex_byte b +:+ s) ""
    (sha256 (derived_identity [env_key; project; env; package_id; entity; op_text op; dedup_id])).

(** FNV-1a, 32 bit. *)
Fixpoint fnv_1a (hash : Z) (raw : string) : Z :=
  match raw with
  | EmptyString => hash
  | String b raw => fnv_1a (Z.lxor hash (Z.of_N (Ascii.N_of_ascii b)) * 16777619 mod 4294967296) raw
  end.

Fixpoint lower_hex (n : nat) (z : Z) : string :=
  match n with
  | O => ""
  | S n => String (hex_digit (Z.to_N (z / 16 ^ Z.of_nat n mod 16))) (lower_hex n z)
  end.

Definition raw_hash (raw : string) : string := lower_hex 8 (fnv_1a 2166136261 raw).

(** The characters a token replaces: the separator and wildcards of NATS, and the
    white space and control characters. *)
Definition control_texts : list string :=
  ((λ n, bytes [n]) <$> (N.of_nat <$> seq 0 32)) ++ [bytes [127%N]]
  ++ ((λ n, bytes [194; n]%N) <$> (N.of_nat <$> seq 128 32)).
Definition replaced_texts : list string := ["."; "*"; ">"] ++ whitespace ++ control_texts.

Fixpoint sanitize (fuel : nat) (raw : string) : string :=
  match fuel, raw with
  | S fuel, String b rest =>
      match find (starts_with raw) replaced_texts with
      | Some text => String underscore (sanitize fuel (default "" (strip_prefix text raw)))
      | None => String b (sanitize fuel rest)
      end
  | _, _ => ""
  end.

Definition subject_token (raw : string) : string :=
  let sanitized := sanitize (String.length raw) raw in
  if String.eqb sanitized raw then sanitized else sanitized +:+ "_" +:+ raw_hash raw.

Definition subject (org project env entity : string) (op : Op) : string :=
  "evt." +:+ org +:+ "." +:+ project +:+ "." +:+ env +:+ "." +:+ subject_token entity +:+ "." +:+ op_text op.

Definition stream_subjects (org project env : string) : string :=
  "evt." +:+ org +:+ "." +:+ project +:+ "." +:+ env +:+ ".>".

Definition length_text (s : string) : string := decimal_text (Z.of_nat (String.length s)).

Definition stream_name (org project env : string) : string :=
  "EVT_" +:+ length_text org +:+ "_" +:+ org +:+ "_" +:+ length_text project +:+ "_" +:+ project
    +:+ "_" +:+ length_text env +:+ "_" +:+ env.

(** ** Round trips *)

(** The integers are of their Rust types, and the commit is an instant since the epoch. *)
Record envelope_typed (e : Envelope) : Prop := {
  et_lsn : is_u64 (en_lsn e);
  et_txid : is_u32 (en_txid e);
  et_commit_ts : (0 ≤ en_commit_ts e ≤ i64_max)%Z;
  et_depth : ∀ c, en_causation e = Some c → is_u32 (cause_depth c);
}.

(** A name the readers take: not empty, without white space around it, without a NUL. *)
Definition canonical_text (s : string) : Prop := s ≠ "" ∧ is_trimmed s = true ∧ contains_nul s = false.

Lemma noncanonical_spec s : noncanonical s = false ↔ canonical_text s.
Proof.
  unfold noncanonical, canonical_text. rewrite !orb_false_iff, negb_false_iff, String.eqb_neq. tauto.
Qed.

Definition canonical_envelope (e : Envelope) : Prop := canonical_text (en_package_id e) ∧ canonical_text (en_entity e).

Lemma as_u64_number n : is_u64 n → as_u64 (number_of_int n) = Some n.
Proof. intros [Hn _]. unfold number_of_int. by replace (n <? 0)%Z with false by lia. Qed.

Lemma as_u32_number n : is_u32 n → as_u32 (number_of_int n) = Some n.
Proof.
  intros [Hn Hm]. unfold as_u32. rewrite as_u64_number by (unfold is_u64, u64_max, u32_max in *; lia).
  simpl. by replace (n <=? u32_max)%Z with true by lia.
Qed.

Lemma decode_op_text o : decode_op (VString (op_text o)) = Some o.
Proof. by destruct o. Qed.

Lemma decode_causation_value c : is_u32 (cause_depth c) → decode_causation_stamp (causation_value c) = Some c.
Proof.
  intros Hd. unfold decode_causation_stamp.
  replace (struct_fields _ (causation_value c))
    with (Some [Some (VString (cause_run c)); Some (VString (cause_root c)); Some (number_of_int (cause_depth c))])
    by reflexivity.
  rewrite as_u32_number by done. by destruct c.
Qed.

Lemma envelope_fields `{InstantText} e :
  struct_fields [("op", false); ("old", true); ("new", true); ("package_id", false); ("entity", false);
                 ("table", false); ("lsn", false); ("txid", false); ("commit_ts", false);
                 ("causation", true)] (envelope_value e) =
  Some [Some (VString (op_text (en_op e))); VObject <$> en_old e; VObject <$> en_new e;
        Some (VString (en_package_id e)); Some (VString (en_entity e)); Some (VString (en_table e));
        Some (number_of_int (en_lsn e)); Some (number_of_int (en_txid e));
        Some (VString (instant_text (en_commit_ts e))); causation_value <$> en_causation e].
Proof. destruct e as [op [old|] [new|] package entity table lsn txid ts [c|]]; reflexivity. Qed.

(** An envelope is read back just when its names are canonical. *)
Lemma decode_envelope_value `{InstantTextLaw} e : envelope_typed e →
  (canonical_envelope e → decode_envelope (envelope_value e) = Some e) ∧
  (¬ canonical_envelope e → decode_envelope (envelope_value e) = None).
Proof.
  intros [Hl Ht Hts Hd].
  assert (E : decode_envelope (envelope_value e) =
    if noncanonical (en_package_id e) || noncanonical (en_entity e) then None else Some e).
  { unfold decode_envelope. rewrite envelope_fields.
    rewrite decode_op_text. cbn [mbind option_bind]. rewrite as_u64_number, as_u32_number by done.
    destruct e as [op old new package entity table lsn txid ts c]; cbn in *.
    replace (decode_option as_object (VObject <$> old)) with (Some old) by (by destruct old).
    replace (decode_option as_object (VObject <$> new)) with (Some new) by (by destruct new).
    rewrite parse_instant_text by done. cbn.
    replace (decode_option decode_causation_stamp (causation_value <$> c)) with (Some c); [done|].
    destruct c as [c|]; [|done].
    transitivity (Some <$> decode_causation_stamp (causation_value c)); [|done].
    by rewrite decode_causation_value by auto. }
  rewrite E. unfold canonical_envelope. rewrite <- !noncanonical_spec.
  destruct (noncanonical (en_package_id e)), (noncanonical (en_entity e)); cbn [orb]; split; naive_solver.
Qed.

(** The texts a derived event names itself and its cause by. *)
Definition derived_texts (e : DerivedEvent) : list string :=
  [dv_env_key e; dv_project e; dv_environment e; dv_package_id e; dv_entity e;
   cause_run (dv_causation e); cause_root (dv_causation e)].

Lemma decode_derived_members e :
  is_u32 (cause_depth (dv_causation e)) → decode_derived (derived_members e) = Some e.
Proof.
  intros Hd. unfold decode_derived.
  replace (bool_decide (NoDup (derived_members e).*1)) with true by (symmetry; by vm_compute).
  replace (forallb _ (derived_members e).*1) with true by (symmetry; by vm_compute).
  change (map_get "op" (derived_members e)) with (Some (VString (op_text (dv_op e)))).
  change (map_get "causation" (derived_members e)) with (Some (causation_value (dv_causation e))).
  cbn [negb orb]. cbn [mbind option_bind]. rewrite decode_op_text, decode_causation_value by done.
  by destruct e.
Qed.

(** A derived event of this format is read back just when its texts are canonical. *)
Lemma derived_slice `{JsonMembers} body e :
  json_members body = Some (derived_members e) → is_u32 (cause_depth (dv_causation e)) →
  dv_format_version e = DERIVED_EVENT_FORMAT_VERSION → dv_dedup_id e ≠ "" →
  (Forall canonical_text (derived_texts e) → derived_from_slice body = Some e) ∧
  (¬ Forall canonical_text (derived_texts e) → derived_from_slice body = None).
Proof.
  intros Hb Hc Hv Hd. unfold derived_from_slice. rewrite Hb. cbn [mbind option_bind].
  rewrite decode_derived_members by done. cbn [mbind option_bind]. rewrite Hv, String.eqb_refl. cbn [negb].
  apply String.eqb_neq in Hd as ->. fold (derived_texts e).
  destruct (existsb noncanonical (derived_texts e)) eqn:E; split; intros Ht; try done.
  - apply existsb_exists in E as (x & Hin%list_elem_of_In & Hx). rewrite Forall_forall in Ht.
    apply Ht, noncanonical_spec in Hin. congruence.
  - destruct Ht. apply Forall_forall. intros x Hin. apply noncanonical_spec. by apply (existsb_false_inv _ _ _ E Hin).
Qed.

(** ** Distinct names *)

Lemma be_bytes_length n z : String.length (be_bytes n z) = n.
Proof. induction n as [|n IH]; simpl; [done|]. by rewrite IH. Qed.

Lemma byte_inj a b : (0 ≤ a < 256 → 0 ≤ b < 256 →
  Ascii.ascii_of_N (Z.to_N a) = Ascii.ascii_of_N (Z.to_N b) → a = b)%Z.
Proof.
  intros Ha Hb E. apply (f_equal Ascii.N_of_ascii) in E.
  rewrite !Ascii.N_ascii_embedding in E by lia. lia.
Qed.

Lemma be_bytes_inj n z z' : (0 ≤ z < 256 ^ Z.of_nat n → 0 ≤ z' < 256 ^ Z.of_nat n →
  be_bytes n z = be_bytes n z' → z = z')%Z.
Proof.
  assert (Hmod : ∀ n z z', (0 ≤ z)%Z → (0 ≤ z')%Z → be_bytes n z = be_bytes n z' →
    (z mod 256 ^ Z.of_nat n = z' mod 256 ^ Z.of_nat n)%Z).
  { clear. induction n as [|n IH]; intros z z' Hz Hz' E; [by rewrite !Z.mod_1_r|].
    cbn [be_bytes] in E. injection E as Eb Er. apply IH in Er; [|done..].
    apply byte_inj in Eb; [|apply Z.mod_pos_bound; lia..].
    rewrite Nat2Z.inj_succ, Z.pow_succ_r by lia. rewrite (Z.mul_comm 256).
    rewrite !Z.rem_mul_r by lia. by rewrite Er, Eb. }
  intros Hz Hz' E. apply Hmod in E; [|lia..]. by rewrite !Z.mod_small in E by lia.
Qed.

Definition fits (s : string) : Prop := (Z.of_nat (String.length s) ≤ u64_max)%Z.

Lemma frame_inj f f' s s' : fits f → fits f' → frame f +:+ s = frame f' +:+ s' → f = f' ∧ s = s'.
Proof.
  unfold frame, fits. intros Hf Hf' E. rewrite !string_app_assoc in E.
  apply string_app_same in E as [Eb Es]; [|by rewrite !be_bytes_length].
  apply be_bytes_inj in Eb; [|unfold u64_max in *; cbn; lia..].
  apply string_app_same in Es as [-> ->]; [done|]. lia.
Qed.

Lemma derived_identity_inj l l' : length l = length l' → Forall fits l → Forall fits l' →
  derived_identity l = derived_identity l' → l = l'.
Proof.
  unfold derived_identity. intros Hlen Hl Hl' E. do 2 apply string_app_inv_head in E.
  revert l' Hlen Hl' E. induction Hl as [|f l Hf _ IH]; intros [|f' l'] Hlen Hl' E; try done.
  inversion Hl'; subst. cbn [foldr] in E. apply frame_inj in E as [-> E]; [|done..].
  f_equal. apply IH; [by injection Hlen|done..].
Qed.

Lemma decimal_text_no_char a n : (0 ≤ n)%Z → is_ascii_digit a = false → has_char a (decimal_text n) = false.
Proof.
  intros Hn Ha. eapply all_bytes_no_char; [|done]. unfold decimal_text.
  replace (n <? 0)%Z with false by lia. by apply decimal_digits.
Qed.

Lemma decimal_text_inj a b : (0 ≤ a ≤ u64_max → 0 ≤ b ≤ u64_max → decimal_text a = decimal_text b → a = b)%Z.
Proof.
  unfold u64_max. intros Ha Hb E. apply (f_equal parse_digits) in E.
  rewrite !parse_decimal in E by lia. by injection E.
Qed.

Lemma prefixed_inj s s' t t' : fits s → fits s' →
  length_text s +:+ "_" +:+ s +:+ t = length_text s' +:+ "_" +:+ s' +:+ t' → s = s' ∧ t = t'.
Proof.
  unfold length_text, fits. intros Hs Hs' E.
  assert (E' := f_equal (split_once underscore) E).
  change ("_" +:+ s +:+ t) with (String underscore (s +:+ t)) in E'.
  change ("_" +:+ s' +:+ t') with (String underscore (s' +:+ t')) in E'.
  rewrite !split_once_app in E' by (apply decimal_text_no_char; [lia|done]).
  injection E' as En Es. apply decimal_text_inj in En; [|lia..].
  apply string_app_same in Es as [-> ->]; [done|]. lia.
Qed.

(** The names that keep events apart are distinct.  Two coordinates with one
    stream name are one coordinate; within an environment two row changes with one
    message id have one WAL position; and the text a derived event's id digests
    determines every field of its scope and its dedup id. *)
Theorem event_names_distinct :
  (∀ org project env org' project' env',
     Forall fits [org; project; env; org'; project'; env'] →
     stream_name org project env = stream_name org' project' env' →
     org = org' ∧ project = project' ∧ env = env') ∧
  (∀ project env lsn lsn', is_u64 lsn → is_u64 lsn' →
     msg_id project env lsn = msg_id project env lsn' → lsn = lsn') ∧
  (∀ l l', length l = length l' → Forall fits l → Forall fits l' →
     derived_identity l = derived_identity l' → l = l').
Proof.
  split; [|split; [|apply derived_identity_inj]].
  - intros org project env org' project' env' Hf E. rewrite !Forall_cons in Hf.
    destruct Hf as (? & ? & ? & ? & ? & ? & _). unfold stream_name in E. apply string_app_inv_head in E.
    apply prefixed_inj in E as [-> E]; [|done..]. apply string_app_inv_head in E.
    apply prefixed_inj in E as [-> E]; [|done..]. apply string_app_inv_head in E.
    rewrite <- (string_app_nil env), <- (string_app_nil env') in E at 2.
    by apply prefixed_inj in E as [-> _].
  - intros project env lsn lsn' H H' E. unfold msg_id in E. do 2 apply string_app_inv_head in E.
    by apply decimal_text_inj in E.
Qed.

(** A token is not always distinct: the hash a changed name gets can stand in
    another name as it is. *)
Example subject_token_shared : subject_token "a.b" = "a_b_108bf50c" ∧ subject_token "a_b_108bf50c" = "a_b_108bf50c".
Proof. vm_compute. done. Qed.
