(* ===== verification/WiringParse.v ===== *)
(** * Reading a stored wiring document

    [WiringDocument::parse] of [crates/catalog/model/src/wiring.rs], with the
    deserialization its types and those of
    [apps/platform/execution/contract/src/{expect,test_set,status}.rs] derive, and the
    round trip with the serialized form of [WiringDocuments].

    A [BTreeMap] is the list of its entries in key order; [collect_map] builds it as a
    derived map does, entry by entry. *)

From stdpp Require Import base tactics option list strings sorting sets.
From Stdlib Require Import ZArith Lia.
From S2P Require Import Prelude Text Json Canonical Router Capabilities Packages ComponentFacts Driver Lowering.
From S2P Require Import WiringDocuments EventWire ComponentAdmission GatedRuns.
#[local] Set Warnings "-clear-no-such-hyp".
Open Scope wamn_scope.

(** ** Maps *)

(** [BTreeMap::insert]. *)
Fixpoint entry_insert {A} (k : string) (a : A) (m : list (string * A)) : list (string * A) :=
  match m with
  | [] => [(k, a)]
  | (k', a') :: m' =>
      match String.compare k k' with
      | Lt => (k, a) :: m
      | Eq => (k, a) :: m'
      | Gt => (k', a') :: entry_insert k a m'
      end
  end.

Definition collect_map {A} (l : list (string * A)) : list (string * A) :=
  fold_left (λ m '(k, a), entry_insert k a m) l [].

Definition key_lt {A} (x y : string * A) : Prop := String.compare x.1 y.1 = Lt.
Definition keyed {A} (l : list (string * A)) : Prop := StronglySorted key_lt l.

(** ** Deserialization *)

Definition decode_text (v : Value) : option string := match v with VString s => Some s | _ => None end.

(** A defaulted field that is not an [Option]: null is refused. *)
Definition decode_default {A} (default : A) (f : Value → option A) (v : option Value) : option A :=
  match v with None => Some default | Some v => f v end.

Definition decode_dependency (v : Value) : option WiringOperationDependency :=
  match struct_fields [("alias", false); ("operation", false)] v with
  | Some [Some (VString alias); Some (VString operation)] => Some {| wd_alias := alias; wd_operation := operation |}
  | _ => None
  end.

(** The fields of the struct variant; another member is ignored. *)
Definition decode_emit (v : Value) : option CatalogTerminal :=
  match v with
  | VObject m =>
      entity ← map_get "entity" m ≫= decode_text; operation ← map_get "operation" m ≫= decode_op;
      Some (CEmit entity operation)
  | VArray [VString entity; operation] => operation ← decode_op operation; Some (CEmit entity operation)
  | _ => None
  end.

Definition decode_terminal (v : Value) : option CatalogTerminal :=
  match v with
  | VString name => if String.eqb name "respond" then Some CRespond else None
  | VObject [(name, content)] =>
      if String.eqb name "respond" then match content with VNull => Some CRespond | _ => None end
      else if String.eqb name "emit" then decode_emit content else None
  | _ => None
  end.

Definition decode_params (v : Value) : option (list (string * Value)) :=
  match v with VObject m => Some (collect_map m) | _ => None end.

Definition decode_node (v : Value) : option AuthoredNode :=
  match struct_fields [("component", false); ("interface-version", false); ("operation", false);
                       ("operation-dependency", true); ("params", true); ("terminal", true)] v with
  | Some [Some (VString component); Some (VString interface_version); Some (VString operation);
          dependency; params; terminal] =>
      dependency ← decode_option decode_dependency dependency;
      params ← decode_default [] decode_params params;
      terminal ← decode_option decode_terminal terminal;
      Some {| wn_component := component; wn_interface_version := interface_version;
              wn_operation := operation; wn_operation_dependency := dependency; wn_params := params;
              wn_terminal := terminal |}
  | _ => None
  end.

Definition decode_edge (v : Value) : option CatalogEdge :=
  match struct_fields [("from", false); ("from-port", true); ("to", false); ("to-port", true)] v with
  | Some [Some (VString from); from_port; Some (VString to); to_port] =>
      from_port ← decode_default MAIN_PORT decode_text from_port;
      to_port ← decode_option decode_text to_port;
      Some {| ce_from := from; ce_from_port := from_port; ce_to := to; ce_to_port := to_port |}
  | _ => None
  end.

Definition all_failure_kinds : list WiringFailureKind :=
  [KTerminal; KRetryExhausted; KInvalidInput; KRunawayBudget; KEffectUncertain; KDepthBudget; KDispatchBudget].

Definition decode_failure_kind (v : Value) : option WiringFailureKind :=
  name ← unit_variant v; find (λ k, String.eqb (failure_kind_text k) name) all_failure_kinds.

Definition decode_outcome (v : Value) : option ExpectedOutcome :=
  name ← unit_variant v;
  if String.eqb name "responded" then Some Responded else if String.eqb name "failed" then Some Failed else None.

Definition as_u16 (v : Value) : option Z := n ← as_u64 v; if (n <=? 65535)%Z then Some n else None.

Definition decode_expect (v : Value) : option Expect :=
  match struct_fields [("outcome", false); ("status", true); ("body-subset", true); ("failure-code", true)] v with
  | Some [Some outcome; status; body_subset; failure_code] =>
      outcome ← decode_outcome outcome; status ← decode_option as_u16 status;
      body_subset ← decode_option Some body_subset;
      failure_code ← decode_option decode_failure_kind failure_code;
      Some {| ex_outcome := outcome; ex_status := status; ex_body_subset := body_subset;
              ex_failure_code := failure_code |}
  | _ => None
  end.

Definition decode_case (v : Value) : option TestSetCase :=
  match struct_fields [("case-id", false); ("input", false); ("expect", false)] v with
  | Some [Some (VString case_id); Some input; Some expected] =>
      expected ← decode_expect expected;
      Some {| tc_case_id := case_id; tc_input := input; tc_expect := expected |}
  | _ => None
  end.

Definition decode_response (v : Value) : option WiringResponse :=
  match struct_fields [("node", false); ("schema", false); ("committed-result", true)] v with
  | Some [Some (VString node); Some schema; committed] =>
      committed ← decode_option decode_text committed;
      Some {| wr_node := node; wr_schema := schema; wr_committed_result := committed |}
  | _ => None
  end.

Definition decode_nodes (v : Value) : option (list (string * AuthoredNode)) :=
  match v with
  | VObject m => collect_map <$> mapM (λ kv : string * Value, (λ n, (kv.1, n)) <$> decode_node kv.2) m
  | _ => None
  end.

Definition decode_list {A} (f : Value → option A) (v : Value) : option (list A) :=
  match v with VArray l => mapM f l | _ => None end.

Definition decode_document (v : Value) : option AuthoredWiring :=
  match struct_fields [("format-version", false); ("wiring-id", false); ("version", false); ("entry", false);
                       ("nodes", false); ("edges", true); ("cases", true); ("response", true)] v with
  | Some [Some (VString format_version); Some (VString wiring_id); Some version; Some (VString entry);
          Some nodes; edges; cases; response] =>
      version ← as_u32 version; nodes ← decode_nodes nodes;
      edges ← decode_default [] (decode_list decode_edge) edges;
      cases ← decode_default [] (decode_list decode_case) cases;
      response ← decode_option decode_response response;
      Some {| doc_format_version := format_version; doc_wiring_id := wiring_id; doc_version := version;
              doc_entry := entry; doc_nodes := nodes; doc_edges := edges; doc_cases := cases;
              doc_response := response |}
  | _ => None
  end.

(** [WiringDocument::parse]. *)
Definition parse_document `{Boon} (v : Value) : result AuthoredWiring CatalogIdentityError :=
  match decode_document v with
  | None => Err InvalidDefinition
  | Some d => let? _ := validate_document d in Ok d
  end.

(** ** Maps in key order *)

Lemma key_lt_trans {A} (x y z : string * A) : key_lt x y → key_lt y z → key_lt x z.
Proof. apply string_compare_lt_trans. Qed.

Lemma entry_insert_keys {A} k (a : A) m x : x ∈ entry_insert k a m → x = (k, a) ∨ x ∈ m.
Proof.
  induction m as [|[k' a'] m IH]; simpl; [set_solver|]. destruct (String.compare k k'); set_solver.
Qed.

Lemma entry_insert_keyed {A} k (a : A) m : keyed m → keyed (entry_insert k a m).
Proof.
  unfold keyed. induction m as [|[k' a'] m IH]; simpl; [by repeat constructor|].
  intros [Hs Ha]%StronglySorted_inv. destruct (String.compare k k') eqn:Ec.
  - apply string_compare_eq in Ec as <-. by constructor.
  - constructor; [by constructor|]. constructor; [done|]. eapply Forall_impl; [exact Ha|].
    intros x Hx. by eapply (key_lt_trans _ (k', a')).
  - constructor; [auto|]. apply Forall_forall. intros x [-> |Hx]%entry_insert_keys.
    + unfold key_lt. simpl. by rewrite String.compare_antisym, Ec.
    + rewrite Forall_forall in Ha. auto.
Qed.

Lemma collect_keyed {A} (l : list (string * A)) : keyed (collect_map l).
Proof.
  unfold collect_map. assert (Hg : ∀ acc, keyed acc → keyed (fold_left (λ m '(k, a), entry_insert k a m) l acc)).
  { induction l as [|[k a] l IH]; simpl; [done|]. intros acc Hacc. apply IH. by apply entry_insert_keyed. }
  apply Hg. constructor.
Qed.

Lemma entry_insert_last {A} k (a : A) m : Forall (λ x, key_lt x (k, a)) m → entry_insert k a m = m ++ [(k, a)].
Proof.
  induction 1 as [|[k' a'] m Hx Hm IH]; simpl; [done|]. unfold key_lt in Hx. simpl in Hx.
  rewrite String.compare_antisym, Hx. simpl. by rewrite IH.
Qed.

Lemma collect_fixed {A} (l : list (string * A)) : keyed l → collect_map l = l.
Proof.
  unfold collect_map. assert (Hg : ∀ acc, keyed (acc ++ l) →
    fold_left (λ m '(k, a), entry_insert k a m) l acc = acc ++ l).
  { induction l as [|[k a] l IH]; intros acc Hs; simpl; [by rewrite app_nil_r|].
    pose proof Hs as Hs'. apply StronglySorted_app in Hs' as (Hlt & _ & _).
    rewrite entry_insert_last.
    - rewrite IH; rewrite <-app_assoc; done.
    - apply Forall_forall. intros x Hx. apply Hlt; [done|by left]. }
  intros Hs. by apply (Hg []).
Qed.

Lemma map_from_iter_collect l : map_from_iter l = collect_map l.
Proof.
  unfold map_from_iter, collect_map. assert (Hg : ∀ acc, fold_left (λ m '(k, v), map_insert k v m) l acc =
    fold_left (λ m '(k, a), entry_insert k a m) l acc); [|apply Hg].
  induction l as [|[k v] l IH]; intros acc; simpl; [done|]. rewrite <-IH. f_equal.
  induction acc as [|[k' v'] acc IHa]; simpl; [done|]. by rewrite IHa.
Qed.

Lemma keyed_fmap {A B} (f : A → B) (l : list (string * A)) : keyed l → keyed (prod_map (λ k, k) f <$> l).
Proof.
  induction 1 as [|[k a] l Hs IH Ha]; csimpl; constructor; [done|].
  rewrite Forall_fmap. eapply Forall_impl; [exact Ha|]. by intros [].
Qed.

Lemma keyed_NoDup {A} (l : list (string * A)) : keyed l → NoDup l.*1.
Proof.
  induction 1 as [|[k a] l Hs IH Ha]; csimpl; constructor; [|done].
  intros ([k' a'] & -> & Hx)%list_elem_of_fmap. rewrite Forall_forall in Ha. specialize (Ha _ Hx).
  unfold key_lt in Ha. simpl in Ha. by rewrite string_compare_refl in Ha.
Qed.

(** ** The round trip *)

Definition expect_fits (e : Expect) : Prop :=
  (∀ s, ex_status e = Some s → (0 ≤ s ≤ 65535)%Z) ∧ ex_body_subset e ≠ Some VNull.

(** What a document holds by its types: machine integers, maps in key order, and no
    null where an absent member reads the same. *)
Record document_fits (d : AuthoredWiring) : Prop := {
  df_version : is_u32 (doc_version d);
  df_nodes : keyed (doc_nodes d);
  df_params : Forall (λ kn : string * AuthoredNode, keyed (wn_params kn.2)) (doc_nodes d);
  df_cases : Forall (λ c, expect_fits (tc_expect c)) (doc_cases d);
}.

Lemma decode_dependency_value d : decode_dependency (dependency_value d) = Some d.
Proof. by destruct d. Qed.

Lemma decode_terminal_value t : decode_terminal (terminal_value t) = Some t.
Proof. destruct t as [|entity []]; reflexivity. Qed.

Lemma decode_option_some {A B} (f : Value → option A) (g : B → Value) (h : B → A) (o : option B) :
  (∀ b, o = Some b → f (g b) = Some (h b) ∧ g b ≠ VNull) → decode_option f (g <$> o) = Some (h <$> o).
Proof. destruct o as [b|]; [|done]. intros Hb. destruct (Hb b eq_refl) as [E Hn]. simpl. destruct (g b); by rewrite ?E. Qed.

Lemma decode_node_value n : keyed (wn_params n) → decode_node (node_value n) = Some n.
Proof.
  intros Hk. unfold decode_node.
  assert (Hp : decode_default [] decode_params
    (match wn_params n with [] => None | params => Some (VObject (map_from_iter params)) end) = Some (wn_params n)).
  { destruct (wn_params n) as [|p ps] eqn:E; [done|]. rewrite <-E in *. simpl.
    by rewrite map_from_iter_collect, !collect_fixed by (done || apply collect_keyed). }
  replace (struct_fields _ (node_value n)) with (Some [Some (VString (wn_component n));
    Some (VString (wn_interface_version n)); Some (VString (wn_operation n));
    dependency_value <$> wn_operation_dependency n;
    match wn_params n with [] => None | params => Some (VObject (map_from_iter params)) end;
    terminal_value <$> wn_terminal n]).
  2: { clear. destruct n as [? ? ? [?|] [|p ps] [?|]]; unfold node_value, object_of; cbn [wn_params];
       try (set (o := VObject (map_from_iter (p :: ps))); clearbody o); reflexivity. }
  rewrite (decode_option_some _ _ (λ x, x)), Hp, (decode_option_some _ _ (λ x, x)).
  - simpl. rewrite !option_fmap_id. by destruct n.
  - intros t _. split; [apply decode_dependency_value|done].
  - intros t _. split; [apply decode_terminal_value|by destruct t].
Qed.

Lemma decode_edge_value e : decode_edge (edge_value e) = Some e.
Proof.
  destruct e as [from fp to [tp|]]; unfold decode_edge, edge_value; simpl ce_from_port; simpl ce_from; simpl ce_to; simpl ce_to_port;
    destruct (String.eqb_spec fp MAIN_PORT) as [-> |]; reflexivity.
Qed.

Lemma decode_failure_kind_text k : decode_failure_kind (VString (failure_kind_text k)) = Some k.
Proof. by destruct k. Qed.

Lemma as_u16_number n : (0 ≤ n ≤ 65535)%Z → as_u16 (number_of_int n) = Some n.
Proof.
  intros Hn. unfold as_u16. rewrite as_u64_number by (unfold is_u64, u64_max; lia). simpl.
  by replace (n <=? 65535)%Z with true by lia.
Qed.

Lemma decode_expect_value e : expect_fits e → decode_expect (expect_value e) = Some e.
Proof.
  intros [Hs Hb]. unfold decode_expect.
  replace (struct_fields _ (expect_value e)) with (Some
    [Some (VString (match ex_outcome e with Responded => "responded" | Failed => "failed" end));
     number_of_int <$> ex_status e; ex_body_subset e;
     (λ k, VString (failure_kind_text k)) <$> ex_failure_code e])
    by (destruct e as [[] [?|] [?|] [?|]]; reflexivity).
  assert (decode_option Some (ex_body_subset e) = Some (ex_body_subset e)) as ->.
  { destruct (ex_body_subset e) as [[]|]; done. }
  rewrite (decode_option_some _ _ (λ x, x)), (decode_option_some _ _ (λ x, x)).
  - rewrite !option_fmap_id. destruct e as [[] ? ? ?]; reflexivity.
  - intros s Es. split; [by apply as_u16_number, Hs|]. unfold number_of_int. by destruct (_ <? _)%Z.
  - intros k _. split; [apply decode_failure_kind_text|done].
Qed.

Lemma decode_case_value c : expect_fits (tc_expect c) → decode_case (case_value c) = Some c.
Proof.
  intros He. unfold decode_case.
  replace (struct_fields _ (case_value c)) with
    (Some [Some (VString (tc_case_id c)); Some (tc_input c); Some (expect_value (tc_expect c))]) by reflexivity.
  rewrite decode_expect_value by done. by destruct c.
Qed.

Lemma decode_response_value r : decode_response (response_value r) = Some r.
Proof. destruct r as [n s [c|]]; reflexivity. Qed.

Lemma mapM_decode {A} (f : Value → option A) (g : A → Value) l :
  Forall (λ a, f (g a) = Some a) l → mapM f (g <$> l) = Some l.
Proof. intros Hl. apply mapM_Some, Forall2_fmap_l. by induction Hl; constructor. Qed.

Lemma decode_nodes_value nodes : keyed nodes →
  Forall (λ kn : string * AuthoredNode, keyed (wn_params kn.2)) nodes →
  decode_nodes (VObject (map_from_iter (prod_map (λ k, k) node_value <$> nodes))) = Some nodes.
Proof.
  intros Hk Hp. simpl. rewrite map_from_iter_collect, collect_fixed by by apply keyed_fmap.
  assert (mapM (λ kv : string * Value, (λ n, (kv.1, n)) <$> decode_node kv.2)
    (prod_map (λ k, k) node_value <$> nodes) = Some nodes) as ->.
  { apply mapM_Some, Forall2_fmap_l. clear Hk. induction Hp as [|[k n] l Hn Hl IH]; constructor; [|done].
    simpl in Hn |- *. by rewrite decode_node_value. }
  simpl. by rewrite collect_fixed.
Qed.

Lemma decode_document_value d : document_fits d → decode_document (as_value d) = Some d.
Proof.
  intros [Hv Hn Hp Hc]. unfold decode_document.
  replace (struct_fields _ (as_value d)) with (Some
    [Some (VString (doc_format_version d)); Some (VString (doc_wiring_id d)); Some (number_of_int (doc_version d));
     Some (VString (doc_entry d)); Some (VObject (map_from_iter (prod_map (λ k, k) node_value <$> doc_nodes d)));
     match doc_edges d with [] => None | edges => Some (VArray (edge_value <$> edges)) end;
     match doc_cases d with [] => None | cases => Some (VArray (case_value <$> cases)) end;
     response_value <$> doc_response d]).
  2: { clear. destruct d as [? ? v ? nodes [|e es] [|c cs] [?|]]; unfold as_value, object_of;
       cbn [doc_nodes doc_edges doc_cases doc_version];
       set (o := VObject (map_from_iter _)); set (n := number_of_int v); clearbody o n; reflexivity. }
  rewrite as_u32_number by done. cbn [mbind option_bind]. rewrite decode_nodes_value by done. cbn [mbind option_bind].
  assert (decode_default [] (decode_list decode_edge)
    (match doc_edges d with [] => None | edges => Some (VArray (edge_value <$> edges)) end) = Some (doc_edges d)) as ->.
  { destruct (doc_edges d) as [|e es] eqn:E; [done|]. rewrite <-E. simpl. apply mapM_decode.
    apply Forall_true. apply decode_edge_value. }
  cbn [mbind option_bind].
  assert (decode_default [] (decode_list decode_case)
    (match doc_cases d with [] => None | cases => Some (VArray (case_value <$> cases)) end) = Some (doc_cases d)) as ->.
  { destruct (doc_cases d) as [|c cs] eqn:E; [done|]. rewrite <-E in *. simpl. apply mapM_decode.
    eapply Forall_impl; [exact Hc|]. apply decode_case_value. }
  cbn [mbind option_bind]. rewrite (decode_option_some _ _ (λ x, x)).
  - cbn [mbind option_bind]. rewrite option_fmap_id. by destruct d.
  - intros r _. split; [apply decode_response_value|done].
Qed.

(** ** What a document read from a value holds *)

(** The integers of a value are machine integers. *)
Fixpoint machine_value (v : Value) : bool :=
  match v with
  | VNumber (PosInt n) => (0 <=? n)%Z && (n <=? u64_max)%Z
  | VArray l => forallb machine_value l
  | VObject m => forallb (λ kv : string * Value, machine_value kv.2) m
  | _ => true
  end.

Lemma map_get_machine k m v : forallb (λ kv : string * Value, machine_value kv.2) m = true →
  map_get k m = Some v → machine_value v = true.
Proof.
  induction m as [|[k' v'] m IH]; simpl; [done|]. intros [Hv Hm]%andb_true_iff.
  destruct (String.eqb k k'); [by intros [= <-]|auto].
Qed.

Lemma struct_fields_machine fields v l : machine_value v = true → struct_fields fields v = Some l →
  Forall (λ o, ∀ x, o = Some x → machine_value x = true) l.
Proof.
  intros Hv Hl. destruct v as [| | | |vs|m]; try done; simpl in *.
  - case_match; [|done]. injection Hl as <-. apply Forall_app. split; apply Forall_fmap, Forall_forall; simpl.
    + intros x Hx y [= <-]. rewrite forallb_forall in Hv. by apply Hv, list_elem_of_In.
    + done.
  - case_match; [|done]. injection Hl as <-. apply Forall_fmap, Forall_forall. simpl.
    intros f _ x. by apply map_get_machine.
Qed.

Lemma as_u64_bound v n : machine_value v = true → as_u64 v = Some n → (0 ≤ n)%Z.
Proof. destruct v as [| |[]| | |]; try done. simpl. intros ? [= <-]. lia. Qed.

Ltac bind_inv H :=
  let a := fresh "a" in let E := fresh "E" in
  apply bind_Some in H as (a & E & H).

Lemma decode_node_fits v n : decode_node v = Some n → keyed (wn_params n).
Proof.
  unfold decode_node. intros H. repeat case_match; try done. repeat bind_inv H. injection H as <-. simpl.
  match goal with E : decode_default [] decode_params ?o = Some _ |- _ => destruct o as [p|]; simpl in E end.
  - match goal with E : decode_params ?p = Some _ |- _ => destruct p; try done; injection E as <- end. apply collect_keyed.
  - simplify_eq. constructor.
Qed.

Lemma decode_nodes_fits v nodes : decode_nodes v = Some nodes →
  keyed nodes ∧ Forall (λ kn : string * AuthoredNode, keyed (wn_params kn.2)) nodes.
Proof.
  destruct v as [| | | | |m]; try done. simpl. intros (l & Hl & ->)%fmap_Some.
  split; [apply collect_keyed|].
  assert (Hall : Forall (λ kn : string * AuthoredNode, keyed (wn_params kn.2)) l).
  { apply mapM_Some in Hl. induction Hl as [|kv [k n] m l Hx Hl IH]; constructor; [|done].
    apply fmap_Some in Hx as (n' & Hn & [= -> ->]). by eapply decode_node_fits. }
  clear Hl. unfold collect_map. assert (Hg : ∀ acc, Forall (λ kn : string * AuthoredNode, keyed (wn_params kn.2)) acc →
    Forall (λ kn : string * AuthoredNode, keyed (wn_params kn.2)) (fold_left (λ m '(k, a), entry_insert k a m) l acc)).
  { induction Hall as [|[k n] l Hn Hl IH]; intros acc Hacc; simpl; [done|]. apply IH.
    apply Forall_forall. intros x [-> |Hx]%entry_insert_keys; [done|]. rewrite Forall_forall in Hacc. auto. }
  by apply Hg.
Qed.

Lemma decode_expect_fits v e : machine_value v = true → decode_expect v = Some e → expect_fits e.
Proof.
  unfold decode_expect. intros Hv H. destruct (struct_fields _ v) as [l|] eqn:El; [|done].
  apply (struct_fields_machine _ _ _ Hv) in El.
  destruct l as [|[o|] [|st [|body [|code [|]]]]]; try done. repeat bind_inv H. injection H as <-.
  split; simpl.
  - intros s ->. apply Forall_cons in El as [_ El]. apply Forall_cons in El as [Hst _].
    destruct st as [sv|]; [|done]. specialize (Hst sv eq_refl). simpl in *.
    destruct sv as [| |[n| |]| | |]; try done. unfold as_u16 in *. simpl in *.
    destruct (n <=? 65535)%Z eqn:En; [|done]. simplify_eq/=. lia.
  - destruct body as [[]|]; simpl in *; congruence.
Qed.

Lemma decode_case_fits v c : machine_value v = true → decode_case v = Some c → expect_fits (tc_expect c).
Proof.
  unfold decode_case. intros Hv H. destruct (struct_fields _ v) as [l|] eqn:El; [|done].
  apply (struct_fields_machine _ _ _ Hv) in El.
  destruct l as [|[[]|] [|[inp|] [|[ex|] [|]]]]; try done. bind_inv H. injection H as <-. simpl.
  apply Forall_cons in El as [_ El]. apply Forall_cons in El as [_ El]. apply Forall_cons in El as [He _].
  by apply (decode_expect_fits ex); [apply He|].
Qed.

Lemma decode_document_fits v d : machine_value v = true → decode_document v = Some d → document_fits d.
Proof.
  unfold decode_document. intros Hv H. destruct (struct_fields _ v) as [l|] eqn:El; [|done].
  apply (struct_fields_machine _ _ _ Hv) in El.
  destruct l as [|[[]|] [|[[]|] [|[ver|] [|[[]|] [|[ns|] [|es [|cs [|rs [|]]]]]]]]]; try done.
  repeat bind_inv H. injection H as <-. rewrite !Forall_cons in El. destruct El as (_ & _ & Hver & _ & _ & _ & Hcs & _).
  destruct (decode_nodes_fits _ _ E0) as [Hn Hp]. split; simpl; [|done|done|].
  - unfold as_u32 in E. bind_inv E. destruct (_ <=? _)%Z eqn:Hle; [|done]. injection E as <-.
    pose proof (as_u64_bound _ _ (Hver _ eq_refl) E4). unfold is_u32. lia.
  - destruct cs as [cv|]; simpl in E2; [|by simplify_eq; constructor].
    destruct cv as [| | | |cl|]; try done. simpl in E2. specialize (Hcs _ eq_refl). simpl in Hcs.
    apply mapM_Some in E2. induction E2 as [|cv c cl cl' Hc Hl IH]; constructor.
    + simpl in Hcs. apply andb_true_iff in Hcs as [? _]. by eapply decode_case_fits.
    + apply IH. simpl in Hcs. by apply andb_true_iff in Hcs as [_ ?].
Qed.

(** A stored document reads back as itself: the document parsed from any value of
    machine integers is the document parsed from its own serialized form; its nodes and their parameters are maps in key order and its graph is one the
    router can enter and walk. *)
Theorem stored_document_exact `{Boon} v d : machine_value v = true → parse_document v = Ok d →
  parse_document (as_value d) = Ok d ∧ keyed (doc_nodes d) ∧
  Forall (λ kn : string * AuthoredNode, keyed (wn_params kn.2)) (doc_nodes d) ∧
  document_ok (graph_of d).
Proof.
  unfold parse_document. intros Hv. destruct (decode_document v) as [d'|] eqn:Ed; [|done].
  destruct (validate_document d') as [[]|] eqn:Eval; [|done]. intros [= ->].
  pose proof (decode_document_fits v d Hv Ed) as Hfit. rewrite decode_document_value, Eval by done.
  split; [done|]. split; [apply Hfit|]. split; [apply Hfit|].
  apply validated_graph; [done|]. apply keyed_NoDup, Hfit.
Qed.

Module ParseSample.
Import AdmissionSample GateSample.

Lemma stored_document_exact_witness : parse_document (as_value document) = Ok document ∧ keyed (doc_nodes document).
Proof.
  destruct (stored_document_exact (as_value document) document) as (E & Hk & _); [vm_compute; reflexivity..|].
  by split.
Defined.

(** A terminal in its object form, and an emit as an array. *)
Example terminals :
  decode_terminal (VObject [("respond", VNull)]) = Some CRespond ∧
  decode_terminal (VObject [("emit", VArray [VString "order"; VString "insert"])]) = Some (CEmit "order" OpInsert) ∧
  decode_terminal (VString "emit") = None.
Proof. done. Qed.
End ParseSample.
