(* ===== verification/EventTriggers.v ===== *)
(** * Event triggers

    [apps/platform/events/registration/src] (the trigger vocabulary, its validation
    and the detector of [old] reads) and [apps/platform/events/materializer/src]
    (what a source event is, its verified identity, and the decision whether it
    reaches a trigger).

    JMESPath comes from a library: an expression, its syntax tree and its evaluation
    are parameters.  The tree has the library's node kinds; the payloads that the
    detector never reads are left out. *)

From stdpp Require Import base tactics option list strings.
From Stdlib Require Import ZArith Lia.
From S2P Require Import Prelude Text Json Canonical Router ClaimStore ComponentFacts WiringDocuments EventWire.
#[local] Set Warnings "-clear-no-such-hyp,-register-all".

(** ** Conditions *)

Inductive Ast :=
| AField (name : string)
| ASubexpr (lhs rhs : Ast) | AProjection (lhs rhs : Ast)
| AComparison (lhs rhs : Ast) | AAnd (lhs rhs : Ast) | AOr (lhs rhs : Ast)
| ACondition (predicate then_ : Ast)
| ANot (node : Ast) | AFlatten (node : Ast) | AObjectValues (node : Ast) | AExpref (ast : Ast)
| AFunction (args : list Ast)
| AMultiList (elements : list Ast)
| AMultiHash (elements : list (string * Ast))
| AIdentity | AIndex | ALiteral | ASlice.

(** [jmespath::compile], [Expression::as_ast], and [search] followed by
    [is_truthy]; an error is its text. *)
Class Jmespath := {
  Expression : Type;
  jm_compile : string → result Expression string;
  as_ast : Expression → Ast;
  jm_matches : Expression → Value → result bool string;
}.

Fixpoint at_root (ast : Ast) (root : bool) : bool :=
  match ast with
  | AField name => root && String.eqb name "old"
  | ASubexpr lhs rhs | AProjection lhs rhs => at_root lhs root || at_root rhs false
  | AComparison lhs rhs | AAnd lhs rhs | AOr lhs rhs => at_root lhs root || at_root rhs root
  | ACondition predicate then_ => at_root predicate root || at_root then_ root
  | ANot node | AFlatten node | AObjectValues node | AExpref node => at_root node root
  | AFunction args => existsb (λ a, at_root a root) args
  | AMultiList elements => existsb (λ e, at_root e root) elements
  | AMultiHash elements => existsb (λ kv : string * Ast, at_root kv.2 root) elements
  | AIdentity | AIndex | ALiteral | ASlice => false
  end.

Definition references_old (ast : Ast) : bool := at_root ast true.

Definition condition_references_old `{Jmespath} (expr : string) : bool :=
  match jm_compile expr with Ok compiled => references_old (as_ast compiled) | Err _ => false end.

(** ** Registrations *)

Definition SCHEMA_VERSION : string := "0.1".

Inductive RegistrationInput := InputEvent | InputBatch.

Record EventRegistration := {
  rg_schema_version : string;
  rg_registration_id : string;
  rg_package_id : string;
  rg_source_package_id : string;
  rg_entity : string;
  rg_ops : list Op;
  rg_input : RegistrationInput;
  rg_condition : option string;
}.

Definition subscribes_to_delete (r : EventRegistration) : bool := bool_decide (OpDelete ∈ rg_ops r).

Definition requires_replica_identity_full `{Jmespath} (r : EventRegistration) : bool :=
  match rg_condition r with Some e => condition_references_old e | None => false end
  || subscribes_to_delete r.

(** A [RegistrationIssue], by its code and path. *)
Record RegistrationIssue := { ri_code : string; ri_path : string }.

Definition u32_text (s : string) : option Z :=
  let digits := match s with
                | String a r => if N.eqb (Ascii.N_of_ascii a) 43 then r else s  (* a leading plus *)
                | EmptyString => s
                end in
  n ← parse_digits digits; in_range 0 u32_max n.

Definition major_minor (s : string) : option (Z * Z) :=
  let pieces := split_char dot s in
  major ← head pieces ≫= u32_text;
  minor ← u32_text (default "0" (head (tail pieces)));
  Some (major, minor).

Definition schema_version_compatible (v : string) : bool :=
  match major_minor v, major_minor SCHEMA_VERSION with
  | Some (vmaj, vmin), Some (cmaj, cmin) => (vmaj =? cmaj)%Z && (vmin <=? cmin)%Z
  | _, _ => false
  end.

(** [s.trim().is_empty()]: every character is white space. *)
Fixpoint is_blank (fuel : nat) (s : string) : bool :=
  match fuel, s with
  | _, EmptyString => true
  | S fuel, _ =>
      match find (starts_with s) whitespace with
      | Some text => is_blank fuel (default "" (strip_prefix text s))
      | None => false
      end
  | O, _ => false
  end.
Definition blank (s : string) : bool := is_blank (String.length s) s.

Definition issue_if (b : bool) (code path : string) : list RegistrationIssue :=
  if b then [{| ri_code := code; ri_path := path |}] else [].

Fixpoint duplicate_ops (i : nat) (seen ops : list Op) : list RegistrationIssue :=
  match ops with
  | [] => []
  | op :: ops =>
      issue_if (bool_decide (op ∈ seen)) "duplicate-op" ("ops[" +:+ decimal_text (Z.of_nat i) +:+ "]")
      ++ duplicate_ops (S i) (seen ++ [op]) ops
  end.

Definition check_expr `{Jmespath} (path : string) (expr : option string) : list RegistrationIssue :=
  match expr with
  | None => []
  | Some e =>
      if blank e then [{| ri_code := "empty-expression"; ri_path := path |}]
      else issue_if (negb (is_ok (jm_compile e))) "invalid-jmespath" path
  end.

Definition validate_registration `{Jmespath} (r : EventRegistration) (package_id source_package_id : string)
    (model_keys : list string) : result unit (list RegistrationIssue) :=
  let issues :=
    issue_if (negb (schema_version_compatible (rg_schema_version r))) "unsupported-schema-version" "schema-version"
    ++ issue_if (negb (String.eqb (rg_package_id r) package_id)) "package-id-mismatch" "package-id"
    ++ issue_if (blank (rg_package_id r)) "empty-package-id" "package-id"
    ++ issue_if (negb (String.eqb (rg_source_package_id r) source_package_id)) "source-package-id-mismatch"
         "source-package-id"
    ++ issue_if (blank (rg_source_package_id r)) "empty-source-package-id" "source-package-id"
    ++ issue_if (blank (rg_registration_id r)) "empty-registration-id" "registration-id"
    ++ issue_if (negb (bool_decide (rg_entity r ∈ model_keys))) "unknown-entity" "entity"
    ++ (if bool_decide (rg_ops r = []) then [{| ri_code := "empty-ops"; ri_path := "ops" |}]
        else duplicate_ops 0 [] (rg_ops r))
    ++ check_expr "condition" (rg_condition r) in
  match issues with [] => Ok tt | _ => Err issues end.

(** ** What a condition sees *)

Inductive RowTenant := TenantAbsent | TenantOf (tenant : string) | Unscopable.

Definition image_value (m : option (list (string * Value))) : Value :=
  match m with Some m => VObject m | None => VNull end.

Definition event_context (e : Envelope) : Value :=
  VObject (map_from_iter [("new", image_value (en_new e)); ("old", image_value (en_old e));
                          ("op", VString (op_text (en_op e)))]).

Definition derived_event_context (e : DerivedEvent) : Value :=
  VObject (map_from_iter [("new", dv_payload e); ("old", VNull); ("op", VString (op_text (dv_op e)))]).

Definition row_tenant (e : Envelope) : RowTenant :=
  match (match en_op e with OpInsert | OpUpdate => en_new e | OpDelete => en_old e end) with
  | None => Unscopable
  | Some image =>
      match map_get "tenant_id" image with
      | None => TenantAbsent
      | Some (VString tenant) => TenantOf tenant
      | Some _ => Unscopable
      end
  end.

Definition event_input (e : Envelope) : Value :=
  VObject (map_from_iter ([("event", VString (op_text (en_op e)))]
    ++ optional_member "new" (VObject <$> en_new e) ++ optional_member "old" (VObject <$> en_old e))).

Definition derived_event_input (e : DerivedEvent) : Value := dv_payload e.

(** ** The decision *)

Definition MAX_CAUSATION_DEPTH : Z := 16.

Record CompiledCondition `{Jmespath} := { cc_expr : Expression; cc_references_old : bool }.
#[global] Arguments CompiledCondition {_}.

(** [ConditionOutcome::Invalid]. *)
Inductive ConditionOutcome := InvalidCondition (detail : string).

Definition compile_condition `{Jmespath} (expr : string) : result CompiledCondition ConditionOutcome :=
  match jm_compile expr with
  | Ok compiled => Ok {| cc_expr := compiled; cc_references_old := references_old (as_ast compiled) |}
  | Err detail => Err (InvalidCondition detail)
  end.

Inductive SkipReason := SourcePackageMismatch | EntityMismatch | OpMismatch | ForeignTenant | ConditionFalse.
Inductive RefuseReason :=
| SourcePackageIdentityUnknown (source_package_id : string)
| DepthExceeded (parent : Causation)
| TenantUnscopable
| OldImageAbsent
| ConditionError (detail : string).
Inductive EventVerdict := Deliver (input : Value) | Skip (r : SkipReason) | Refuse (r : RefuseReason).

Section Decide.
Context `{Jmespath}.

(** [serviceable]; its error is [DecideError::UnserviceableCondition]. *)
Definition serviceable (r : EventRegistration) : result (option CompiledCondition) ConditionOutcome :=
  match rg_condition r with
  | None => Ok None
  | Some e => match compile_condition e with Ok c => Ok (Some c) | Err o => Err o end
  end.

(** [a.saturating_add(1)] on [u32]. *)
Definition u32_saturating_succ (a : Z) : Z := Z.min (a + 1) u32_max.

(** The condition, and then the depth, of an event that passed the filters;
    [old_absent] is whether the event carries no old image. *)
Definition decide_condition (r : EventRegistration) (condition : option CompiledCondition) (old_absent : bool)
    (context input : Value) (causation : option Causation) (max_depth : Z) : EventVerdict :=
  let deliver :=
    match causation with
    | Some parent =>
        if (max_depth <? u32_saturating_succ (cause_depth parent))%Z then Refuse (DepthExceeded parent)
        else Deliver input
    | None => Deliver input
    end in
  match rg_condition r, condition with
  | None, _ => deliver
  | Some _, None => Refuse (ConditionError "condition present but not compiled")
  | Some _, Some c =>
      if cc_references_old c && old_absent then Refuse OldImageAbsent
      else match jm_matches (cc_expr c) context with
           | Ok true => deliver
           | Ok false => Skip ConditionFalse
           | Err detail => Refuse (ConditionError detail)
           end
  end.

Definition decide (r : EventRegistration) (condition : option CompiledCondition) (e : Envelope)
    (known_packages : list string) (env_key : string) (resident_env_key : option string) (max_depth : Z) :
    EventVerdict :=
  if negb (bool_decide (en_package_id e ∈ known_packages))
  then Refuse (SourcePackageIdentityUnknown (en_package_id e))
  else if negb (String.eqb (en_package_id e) (rg_source_package_id r)) then Skip SourcePackageMismatch
  else if negb (String.eqb (en_entity e) (rg_entity r)) then Skip EntityMismatch
  else if negb (bool_decide (en_op e ∈ rg_ops r)) then Skip OpMismatch
  else if negb (bool_decide (resident_env_key = Some env_key)) then Refuse TenantUnscopable
  else match row_tenant e with
       | Unscopable => Refuse TenantUnscopable
       | TenantOf tenant =>
           if negb (String.eqb tenant env_key) then Skip ForeignTenant
           else decide_condition r condition (bool_decide (en_old e = None)) (event_context e) (event_input e)
                  (en_causation e) max_depth
       | TenantAbsent =>
           decide_condition r condition (bool_decide (en_old e = None)) (event_context e) (event_input e)
             (en_causation e) max_depth
       end.

Definition decide_derived (r : EventRegistration) (condition : option CompiledCondition) (e : DerivedEvent)
    (known_packages : list string) (env_key : string) (max_depth : Z) : EventVerdict :=
  if negb (bool_decide (dv_package_id e ∈ known_packages))
  then Refuse (SourcePackageIdentityUnknown (dv_package_id e))
  else if negb (String.eqb (dv_package_id e) (rg_source_package_id r)) then Skip SourcePackageMismatch
  else if negb (String.eqb (dv_entity e) (rg_entity r)) then Skip EntityMismatch
  else if negb (bool_decide (dv_op e ∈ rg_ops r)) then Skip OpMismatch
  else if negb (String.eqb (dv_env_key e) env_key) then Skip ForeignTenant
  else decide_condition r condition true (derived_event_context e) (derived_event_input e)
         (Some (dv_causation e)) max_depth.

End Decide.

(** ** Source events and triggers *)

Inductive SourceEvent := Cdc (e : Envelope) | Derived (e : DerivedEvent).

Definition decode_source `{JsonText, JsonMembers, InstantText} (body : string) : option SourceEvent :=
  v ← parse_json body;
  match get "format-version" v with
  | Some _ => Derived <$> derived_from_slice body
  | None => Cdc <$> decode_envelope v
  end.

(** [verified_source_event_id] and [verified_derived_source_event_id]. *)
Definition one_header (expected : string) (headers : list string) : option string :=
  match headers with
  | [actual] => if String.eqb actual expected then Some expected else None
  | _ => None
  end.

Definition event_identity `{Sha256} (ev : SourceEvent) (env_key project environment : string)
    (headers : list string) : option string :=
  match ev with
  | Cdc e => one_header (msg_id project environment (en_lsn e)) headers
  | Derived e =>
      if negb (String.eqb (dv_env_key e) env_key) || negb (String.eqb (dv_project e) project)
         || negb (String.eqb (dv_environment e) environment) then None
      else one_header (derived_msg_id env_key project environment (dv_package_id e) (dv_entity e) (dv_op e)
                         (dv_dedup_id e)) headers
  end.

Definition event_source (ev : SourceEvent) : string * string :=
  match ev with Cdc e => (en_package_id e, en_entity e) | Derived e => (dv_package_id e, dv_entity e) end.

Definition event_causation (ev : SourceEvent) : option Causation :=
  match ev with Cdc e => en_causation e | Derived e => Some (dv_causation e) end.

Record EventTrigger := {
  tg_application : string;
  tg_workflow_id : string;
  tg_source_package : string;
  tg_entity : string;
  tg_ops : list Op;
  tg_condition : option string;
  tg_enable_sequence : Z;  (* u64 *)
}.

Inductive TriggerMatchErrorKind := TriggerCondition | TriggerEvent.

Definition trigger_registration (t : EventTrigger) : EventRegistration := {|
  rg_schema_version := SCHEMA_VERSION; rg_registration_id := tg_workflow_id t;
  rg_package_id := tg_application t; rg_source_package_id := tg_source_package t; rg_entity := tg_entity t;
  rg_ops := tg_ops t; rg_input := InputEvent; rg_condition := tg_condition t |}.

(** [EventTrigger::matches]; an error by its kind. *)
Definition trigger_matches `{Jmespath} (t : EventTrigger) (ev : SourceEvent) (sequence : Z)
    (packages : list string) (env_key : string) : result (option Value) TriggerMatchErrorKind :=
  if (sequence <=? tg_enable_sequence t)%Z then Ok None
  else
    let r := trigger_registration t in
    match serviceable r with
    | Err _ => Err TriggerCondition
    | Ok condition =>
        match (match ev with
               | Cdc e => decide r condition e packages env_key (Some env_key) MAX_CAUSATION_DEPTH
               | Derived e => decide_derived r condition e packages env_key MAX_CAUSATION_DEPTH
               end) with
        | Deliver input => Ok (Some input)
        | Skip _ => Ok None
        | Refuse _ => Err TriggerEvent
        end
    end.

(** The durable consumer of one captured package and entity. *)
Definition entity_durable (package entity : string) : string :=
  "entity_" +:+ length_text package +:+ "_" +:+ subject_token package +:+ "_" +:+ subject_token entity.

(** ** What a trigger runs on *)

Section Matches.
Context `{Jmespath}.

Definition event_op (ev : SourceEvent) : Op := match ev with Cdc e => en_op e | Derived e => dv_op e end.
Definition source_input (ev : SourceEvent) : Value :=
  match ev with Cdc e => event_input e | Derived e => derived_event_input e end.
Definition source_context (ev : SourceEvent) : Value :=
  match ev with Cdc e => event_context e | Derived e => derived_event_context e end.
Definition old_image (ev : SourceEvent) : bool :=
  match ev with Cdc e => bool_decide (is_Some (en_old e)) | Derived _ => false end.

(** The tenant the event itself carries. *)
Definition tenant_of (ev : SourceEvent) : RowTenant :=
  match ev with Cdc e => row_tenant e | Derived e => TenantOf (dv_env_key e) end.
Definition in_tenant (ev : SourceEvent) (env_key : string) : Prop :=
  tenant_of ev = TenantAbsent ∨ tenant_of ev = TenantOf env_key.

(** The filters of the trigger. *)
Record addresses (t : EventTrigger) (ev : SourceEvent) (sequence : Z) (env_key : string) : Prop := {
  ad_after : (tg_enable_sequence t < sequence)%Z;
  ad_source : event_source ev = (tg_source_package t, tg_entity t);
  ad_op : event_op ev ∈ tg_ops t;
  ad_tenant : in_tenant ev env_key;
}.

(** The verdict of the condition over the event; a read of an old image the event
    does not carry has none. *)
Inductive condition_verdict (t : EventTrigger) (ev : SourceEvent) : bool → Prop :=
| verdict_none : tg_condition t = None → condition_verdict t ev true
| verdict_some expr c b :
    tg_condition t = Some expr → compile_condition expr = Ok c →
    (cc_references_old c = true → old_image ev = true) →
    jm_matches (cc_expr c) (source_context ev) = Ok b → condition_verdict t ev b.

Definition depth_admitted (ev : SourceEvent) : Prop :=
  ∀ c, event_causation ev = Some c → (u32_saturating_succ (cause_depth c) ≤ MAX_CAUSATION_DEPTH)%Z.

Lemma decide_condition_spec t ev condition :
  serviceable (trigger_registration t) = Ok condition →
  let v := decide_condition (trigger_registration t) condition (negb (old_image ev)) (source_context ev)
             (source_input ev) (event_causation ev) MAX_CAUSATION_DEPTH in
  (∀ i, v = Deliver i ↔ condition_verdict t ev true ∧ depth_admitted ev ∧ i = source_input ev) ∧
  (∀ s, v = Skip s → condition_verdict t ev false).
Proof.
  intros Hs. unfold decide_condition. cbn [rg_condition trigger_registration].
  set (deliver := match event_causation ev with Some _ => _ | None => _ end).
  assert (Hd : ∀ i, deliver = Deliver i ↔ depth_admitted ev ∧ i = source_input ev).
  { intros i. subst deliver. unfold depth_admitted. destruct (event_causation ev) as [c|]; [case_match eqn:E|].
    - split; [done|]. intros [Hc _]. specialize (Hc c eq_refl). apply Z.ltb_lt in E. lia.
    - apply Z.ltb_ge in E. split; [intros [= <-]; split; [by intros ? [= <-]|done]|by intros [_ ->]].
    - split; [intros [= <-]; by split|by intros [_ ->]]. }
  assert (Hk : ∀ s, deliver ≠ Skip s) by (intros s; subst deliver; by repeat case_match).
  unfold serviceable in Hs. cbn [rg_condition trigger_registration] in Hs.
  destruct (tg_condition t) as [expr|] eqn:Ec.
  - destruct (compile_condition expr) as [c|] eqn:Ecc; [|done]. injection Hs as <-.
    assert (Hone : ∀ b, condition_verdict t ev b →
      (cc_references_old c = true → old_image ev = true) ∧ jm_matches (cc_expr c) (source_context ev) = Ok b).
    { intros b [Hn|expr' c' b' He Hc Ho Hm]; [congruence|].
      assert (c' = c) as -> by congruence. done. }
    destruct (cc_references_old c && negb (old_image ev)) eqn:Eo.
    + apply andb_prop in Eo as [Er Eo]. apply negb_true_iff in Eo.
      split; [|done]. intros i. split; [done|]. intros (Hv & _). apply Hone in Hv as [Hv _].
      rewrite Hv in Eo by done. done.
    + assert (Ho : cc_references_old c = true → old_image ev = true).
      { intros Hr. rewrite Hr in Eo. by apply negb_false_iff in Eo. }
      destruct (jm_matches (cc_expr c) (source_context ev)) as [[]|d] eqn:Em.
      * split; [|by intros s Hk'%Hk]. intros i. rewrite Hd.
        split; [intros []; split; [by econstructor|done]|tauto].
      * split; [|intros s _; by econstructor]. intros i. split; [done|].
        intros (Hv & _). apply Hone in Hv as [_ ?]. congruence.
      * split; [|done]. intros i. split; [done|]. intros (Hv & _). apply Hone in Hv as [_ ?]. congruence.
  - injection Hs as <-. split; [|by intros s Hk'%Hk]. intros i. rewrite Hd.
    split; [intros []; split; [by constructor|done]|tauto].
Qed.

Lemma verdict_serviceable t ev b :
  condition_verdict t ev b → ∃ condition, serviceable (trigger_registration t) = Ok condition.
Proof.
  unfold serviceable. cbn [rg_condition trigger_registration].
  intros [->|expr c b' -> Hc _ _]; [by eexists|]. rewrite Hc. by eexists.
Qed.

(** The decision of either kind of event. *)
Definition decide_source (t : EventTrigger) (condition : option CompiledCondition) (ev : SourceEvent)
    (packages : list string) (env_key : string) : EventVerdict :=
  match ev with
  | Cdc e => decide (trigger_registration t) condition e packages env_key (Some env_key) MAX_CAUSATION_DEPTH
  | Derived e => decide_derived (trigger_registration t) condition e packages env_key MAX_CAUSATION_DEPTH
  end.

Lemma decide_source_filters t condition ev packages env_key :
  decide_source t condition ev packages env_key =
  if negb (bool_decide ((event_source ev).1 ∈ packages))
  then Refuse (SourcePackageIdentityUnknown (event_source ev).1)
  else if negb (String.eqb (event_source ev).1 (tg_source_package t)) then Skip SourcePackageMismatch
  else if negb (String.eqb (event_source ev).2 (tg_entity t)) then Skip EntityMismatch
  else if negb (bool_decide (event_op ev ∈ tg_ops t)) then Skip OpMismatch
  else match tenant_of ev with
       | Unscopable => Refuse TenantUnscopable
       | TenantOf tenant =>
           if negb (String.eqb tenant env_key) then Skip ForeignTenant
           else decide_condition (trigger_registration t) condition (negb (old_image ev)) (source_context ev)
                  (source_input ev) (event_causation ev) MAX_CAUSATION_DEPTH
       | TenantAbsent =>
           decide_condition (trigger_registration t) condition (negb (old_image ev)) (source_context ev)
             (source_input ev) (event_causation ev) MAX_CAUSATION_DEPTH
       end.
Proof.
  destruct ev as [e|e]; [|done]. cbn [decide_source]. unfold decide.
  rewrite (bool_decide_true (Some env_key = Some env_key)) by done. cbn [negb].
  replace (bool_decide (en_old e = None)) with (negb (old_image (Cdc e))); [done|].
  simpl. by destruct (en_old e).
Qed.

(** Deciding past the filters, and stopping at one. *)
Lemma decide_source_spec t condition ev packages env_key :
  serviceable (trigger_registration t) = Ok condition →
  let v := decide_source t condition ev packages env_key in
  let passes := event_source ev = (tg_source_package t, tg_entity t) ∧ event_op ev ∈ tg_ops t ∧
                in_tenant ev env_key in
  (∀ i, v = Deliver i ↔ (event_source ev).1 ∈ packages ∧ passes ∧ condition_verdict t ev true ∧
          depth_admitted ev ∧ i = source_input ev) ∧
  (∀ s, v = Skip s → ¬ passes ∨ condition_verdict t ev false).
Proof.
  intros Hs. destruct (decide_condition_spec t ev condition Hs) as [Hd Hk]. cbv zeta.
  rewrite decide_source_filters. destruct (event_source ev) as [package entity]; simpl.
  destruct (bool_decide_reflect (package ∈ packages)) as [Hp|Hp]; simpl; [|by split; [intros i; split; [done|tauto]|]].
  destruct (String.eqb_spec package (tg_source_package t)) as [->|Hne]; simpl;
    [|split; [intros i; split; [done|]|intros s _; left]; intuition congruence].
  destruct (String.eqb_spec entity (tg_entity t)) as [->|Hne]; simpl;
    [|split; [intros i; split; [done|]|intros s _; left]; intuition congruence].
  destruct (bool_decide_reflect (event_op ev ∈ tg_ops t)) as [Ho|Ho]; simpl;
    [|split; [intros i; split; [done|]|intros s _; left]; tauto].
  unfold in_tenant. destruct (tenant_of ev) as [|tenant|]; [| |by split; [intros i; split; [done|intuition congruence]|]].
  - split; [|by intros s Hv%Hk; right]. intros i. rewrite Hd. tauto.
  - destruct (String.eqb_spec tenant env_key) as [->|Hne]; simpl;
      [|split; [intros i; split; [done|]|intros s _; left]; intuition congruence].
    split; [|by intros s Hv%Hk; right]. intros i. rewrite Hd. tauto.
Qed.

Lemma trigger_matches_spec (t : EventTrigger) (ev : SourceEvent) (sequence : Z) (packages : list string)
    (env_key : string) :
  (∀ input, trigger_matches t ev sequence packages env_key = Ok (Some input) ↔
     addresses t ev sequence env_key ∧ (event_source ev).1 ∈ packages ∧ condition_verdict t ev true ∧
     depth_admitted ev ∧ input = source_input ev) ∧
  (trigger_matches t ev sequence packages env_key = Ok None →
     ¬ addresses t ev sequence env_key ∨ condition_verdict t ev false).
Proof.
  unfold trigger_matches. destruct (Z.leb_spec sequence (tg_enable_sequence t)) as [Hb|Hb].
  { split; [intros input; split; [done|]|intros _; left]; [intros ([Ha _ _ _] & _)|intros [Ha _ _ _]]; lia. }
  destruct (serviceable (trigger_registration t)) as [condition|] eqn:Hs; cycle 1.
  { split; [|done]. intros input. split; [done|]. intros (_ & _ & Hv & _).
    apply verdict_serviceable in Hv as [c Hv]. congruence. }
  destruct (decide_source_spec t condition ev packages env_key Hs) as [Hd Hk]. cbv zeta in Hd, Hk.
  unfold decide_source in Hd, Hk. destruct (match ev with Cdc _ => _ | Derived _ => _ end) as [i|s|r].
  - split; [|done]. intros input. destruct (Hd i) as [Hi _]. destruct (Hi eq_refl) as (? & (? & ? & ?) & ? & ? & ->).
    split; [intros [= <-]; split; [by constructor|done]|by intros (_ & _ & _ & _ & ->)].
  - split.
    + intros input. split; [done|]. intros ([] & ? & ? & ? & ?).
      enough (Skip s = Deliver input) by done. apply Hd. tauto.
    + intros _. destruct (Hk s eq_refl) as [Hp|Hv]; [left|by right]. by intros [_ ? ? ?]; apply Hp.
  - split; [|done]. intros input. split; [done|]. intros ([] & ? & ? & ? & ?).
    enough (Refuse r = Deliver input) by done. apply Hd. tauto.
Qed.

(** A condition has one verdict. *)
Lemma verdict_unique t ev a b : condition_verdict t ev a → condition_verdict t ev b → a = b.
Proof. intros [] []; congruence. Qed.

(** A trigger runs on exactly the events it names.  An event past the trigger's
    enable boundary is delivered just when it comes from the trigger's package and
    entity, carries one of its operations, is of the environment, satisfies the
    condition and keeps the causation depth within sixteen, and the input is then the
    event's projection.  An event is passed over only when it is none of the trigger's
    or its condition was evaluated, over every image it reads, to false: a condition
    that cannot be evaluated is an error, never a silent skip. *)
Theorem trigger_matches_exact (t : EventTrigger) (ev : SourceEvent) (sequence : Z) (packages : list string)
    (env_key : string) :
  (∀ input, trigger_matches t ev sequence packages env_key = Ok (Some input) ↔
     addresses t ev sequence env_key ∧ (event_source ev).1 ∈ packages ∧ condition_verdict t ev true ∧
     depth_admitted ev ∧ input = source_input ev) ∧
  (trigger_matches t ev sequence packages env_key = Ok None →
     ¬ addresses t ev sequence env_key ∨ condition_verdict t ev false).
Proof. apply trigger_matches_spec. Qed.

End Matches.

(** A compiled condition is kept with exactly the reads that decide whether its
    entity must carry old images. *)
Lemma compiled_reads_old `{Jmespath} expr c :
  compile_condition expr = Ok c → cc_references_old c = condition_references_old expr.
Proof. unfold compile_condition, condition_references_old. case_match; [by intros [= <-]|done]. Qed.

Example column_named_old :
  references_old (ASubexpr (AField "new") (AField "old")) = false ∧
  references_old (AComparison (ASubexpr (AField "new") (AField "status")) (ASubexpr (AField "old") (AField "status")))
    = true.
Proof. done. Qed.

(** ** Published events *)

Lemma one_header_spec expected headers id :
  one_header expected headers = Some id ↔ headers = [expected] ∧ id = expected.
Proof.
  unfold one_header. destruct headers as [|h [|]]; [naive_solver| |naive_solver].
  destruct (String.eqb_spec h expected) as [->|]; naive_solver.
Qed.

(** The body of a captured change is the change itself, or nothing. *)
Lemma captured_decodes `{JsonText, JsonMembers} `{InstantTextLaw} body e :
  envelope_typed e → parse_json body = Some (envelope_value e) →
  (canonical_envelope e → decode_source body = Some (Cdc e)) ∧ (¬ canonical_envelope e → decode_source body = None).
Proof.
  intros Ht Hb. unfold decode_source. rewrite Hb. cbn [mbind option_bind].
  replace (get "format-version" (envelope_value e)) with (@None Value)
    by (by destruct e as [op [old|] [new|] package entity table lsn txid ts [c|]]).
  destruct (decode_envelope_value e Ht) as [Hy Hn]. split; intros Hc; [by rewrite Hy|by rewrite Hn].
Qed.

(** So is the body of a derived event. *)
Lemma derived_decodes `{JsonText, JsonMembers, InstantText} body e :
  json_members body = Some (derived_members e) → parse_json body = Some (VObject (map_from_iter (derived_members e))) →
  is_u32 (cause_depth (dv_causation e)) → dv_format_version e = DERIVED_EVENT_FORMAT_VERSION → dv_dedup_id e ≠ "" →
  (Forall canonical_text (derived_texts e) → decode_source body = Some (Derived e)) ∧
  (¬ Forall canonical_text (derived_texts e) → decode_source body = None).
Proof.
  intros Hb Hp Hd Hv Hid. unfold decode_source. rewrite Hp. cbn [mbind option_bind].
  replace (get "format-version" _) with (Some (VString (dv_format_version e))) by reflexivity.
  destruct (derived_slice body e Hb Hd Hv Hid) as [Hy Hn]. split; intros Hc; [by rewrite Hy|by rewrite Hn].
Qed.

Lemma derived_identity `{Sha256} e env_key project environment headers id :
  event_identity (Derived e) env_key project environment headers = Some id ↔
    (dv_env_key e, dv_project e, dv_environment e) = (env_key, project, environment) ∧ headers = [id] ∧
    id = derived_msg_id env_key project environment (dv_package_id e) (dv_entity e) (dv_op e) (dv_dedup_id e).
Proof.
  cbn [event_identity].
  destruct (String.eqb_spec (dv_env_key e) env_key) as [->|]; [|simpl; naive_solver].
  destruct (String.eqb_spec (dv_project e) project) as [->|]; [|simpl; naive_solver].
  destruct (String.eqb_spec (dv_environment e) environment) as [->|]; [|simpl; naive_solver].
  cbn [negb orb]. rewrite one_header_spec. naive_solver.
Qed.

Module EventSample.

#[export] Instance microseconds : InstantText := {| instant_text := decimal_text; parse_instant := parse_i64 |}.
#[export] Instance microseconds_law : InstantTextLaw.
Proof. intros t Ht. by apply parse_i64_decimal. Qed.

Definition changed : Envelope := {|
  en_op := OpUpdate; en_old := Some [("status", VString "draft")]; en_new := Some [("status", VString "open")];
  en_package_id := "orders"; en_entity := "order"; en_table := "orders"; en_lsn := 42; en_txid := 7;
  en_commit_ts := 0; en_causation := None |}.

#[export] Instance body_text : JsonText := λ s, if String.eqb s "body" then Some (envelope_value changed) else None.
#[export] Instance no_members : JsonMembers := λ _, None.
#[export] Instance zero_digest : Sha256 := λ _, [].

(** "old.status != new.status && new.status == 'open'". *)
Definition status_opened : Ast :=
  AAnd (AComparison (ASubexpr (AField "old") (AField "status")) (ASubexpr (AField "new") (AField "status")))
       (AComparison (ASubexpr (AField "new") (AField "status")) ALiteral).
Definition status (image : string) (context : Value) : option Value := get image context ≫= get "status".
#[export] Instance opened : Jmespath := {|
  Expression := unit; jm_compile := λ _, Ok tt; as_ast := λ _, status_opened;
  jm_matches := λ _ c, Ok (negb (bool_decide (as_str <$> status "old" c = as_str <$> status "new" c)) &&
                           bool_decide (status "new" c ≫= as_str = Some "open")) |}.

Definition notify : EventTrigger := {|
  tg_application := "erp"; tg_workflow_id := "notify"; tg_source_package := "orders"; tg_entity := "order";
  tg_ops := [OpUpdate]; tg_condition := Some "opened"; tg_enable_sequence := 41 |}.

Definition without_old : Envelope := {|
  en_op := OpUpdate; en_old := None; en_new := Some [("status", VString "open")];
  en_package_id := "orders"; en_entity := "order"; en_table := "orders"; en_lsn := 42; en_txid := 7;
  en_commit_ts := 0; en_causation := None |}.

Example matching :
  trigger_matches notify (Cdc changed) 41 ["orders"] "acme" = Ok None ∧
  trigger_matches notify (Cdc changed) 42 ["orders"] "acme" = Ok (Some (event_input changed)) ∧
  trigger_matches notify (Cdc without_old) 42 ["orders"] "acme" = Err TriggerEvent ∧
  trigger_matches notify (Cdc changed) 42 ["billing"] "acme" = Err TriggerEvent.
Proof. vm_compute. done. Qed.

End EventSample.
