(* ===== verification/WorkflowVersions.v ===== *)
(** * The versions of the workflows of an environment

    [crates/control/environment/src/author_workflow.rs] and its [plan.rs] (authoring one
    immutable version), [workflow_lifecycle.rs] and its [plan.rs] (enabling and disabling
    a version) over the table [catalog.workflows] of [deploy/sql/catalog-schema.sql].

    The table maps the key of a version to its row.  What the verbs read beside it is a
    [CatalogView]: the installed releases, the models of the capture maps, the role
    assignments, the gate reports of the control store and the tail of the event stream.
    An operation that refuses leaves the table as it was.  The texts of refusals, the
    connections and the row history are left out. *)

From stdpp Require Import base tactics option list gmap strings relations.
From Stdlib Require Import ZArith Lia.
From S2P Require Import Prelude Text Json Canonical Router Capabilities Packages ComponentFacts Driver Lowering.
From S2P Require Import RunPlane ServingManifests WiringDocuments WiringCompatibility WorkflowGate EventWire EventTriggers WiringParse.
From S2P Require Import ComponentAdmission GatedRuns.
#[local] Set Warnings "-clear-no-such-hyp".
Open Scope wamn_scope.

(** ** The table *)

(** [env_key], environment, application, workflow id and version. *)
Abbreviation wf_key := (string * string * string * string * Z)%type.

Record WorkflowRow := {
  wf_graph : Value;  (* what [graph_json::text] reads as *)
  wf_hash : string;
  wf_trigger : string;
  wf_schedule : option string;
  wf_source_package : option string;
  wf_entity : option string;
  wf_ops : option (list string);
  wf_condition : option string;
  wf_enable_sequence : option Z;  (* bigint *)
  wf_execution_type : string;
  wf_execution_role : option string;
  wf_enabled : bool;
  wf_created_by : string;
}.

Abbreviation Workflows_ := (gmap wf_key WorkflowRow).

(** [btrim(s) <> ''] and [s <> '']. *)
Fixpoint all_spaces (s : string) : bool :=
  match s with EmptyString => true | String a s => Ascii.eqb a (Ascii.ascii_of_N 32) && all_spaces s end.
Definition nonempty (s : string) : bool := negb (String.eqb s "").

Definition event_columns_ok (r : WorkflowRow) : bool :=
  match wf_source_package r, wf_entity r, wf_ops r with
  | Some source, Some entity, Some ops =>
      nonempty source && nonempty entity &&
      (1 <=? length ops)%nat && (length ops <=? 3)%nat &&
      forallb (λ op, bool_decide (op ∈ ["insert"; "update"; "delete"])) ops &&
      bool_decide (NoDup ops) &&
      match wf_condition r with Some c => negb (all_spaces c) | None => true end &&
      match wf_enable_sequence r with Some n => (0 <=? n)%Z | None => negb (wf_enabled r) end
  | _, _, _ => false
  end.

Definition is_none {A} (o : option A) : bool := match o with None => true | Some _ => false end.

(** The CHECK constraints: the first one a row breaks. *)
Definition workflow_check (k : wf_key) (r : WorkflowRow) : option string :=
  let '(env_key, environment, application, workflow_id, version) := k in
  let is_event := String.eqb (wf_trigger r) "event" in
  if negb (nonempty env_key && nonempty environment && nonempty application && nonempty workflow_id)
  then Some "workflows_key_check"
  else if negb (0 <? version)%Z then Some "workflows_version_check"
  else if negb (valid_digest (wf_hash r)) then Some "workflows_wiring_hash_check"
  else if negb (bool_decide (wf_trigger r ∈ ["manual"; "schedule"; "event"])) then Some "workflows_trigger_check"
  else if negb (bool_decide (wf_execution_type r ∈ ["role"; "invoker"])) then Some "workflows_execution_type_check"
  else if bool_decide (wf_execution_role r = Some "") then Some "workflows_execution_role_check"
  else if negb (Bool.eqb (String.eqb (wf_execution_type r) "role") (negb (is_none (wf_execution_role r))))
  then Some "workflows_execution_identity_check"
  else if negb (Bool.eqb (String.eqb (wf_trigger r) "schedule") (negb (is_none (wf_schedule r))))
  then Some "workflows_schedule_check"
  else if negb (if is_event then event_columns_ok r
                else is_none (wf_source_package r) && is_none (wf_entity r) && is_none (wf_ops r) &&
                     is_none (wf_condition r) && is_none (wf_enable_sequence r))
  then Some "workflows_event_check"
  else None.

Definition same_workflow (a b : wf_key) : bool := bool_decide (a.1 = b.1).

(** [workflows_one_enabled]. *)
Definition one_enabled (t : Workflows_) : Prop :=
  ∀ k k' r r', t !! k = Some r → t !! k' = Some r' → wf_enabled r = true → wf_enabled r' = true →
    k.1 = k'.1 → k = k'.

(** ** What the verbs read *)

Record CatalogView := {
  cv_releases : string → string → option string;  (* [catalog.releases]: canonical bytes *)
  cv_models : string → list string;  (* the captured models of a package *)
  cv_roles : list (string * string);  (* [platform.user_role] *)
  cv_report : string → string → option bool;  (* [wamn_run.gate_reports] *)
  cv_tail : option (option Z);  (* the event broker and the tail of its stream *)
}.

(** The cron parser, the UUID parser and the id of the [workflow] user. *)
Class PlatformTexts := {
  cron_parses : string → bool;
  uuid_parses : string → bool;
  workflow_user : string;
}.

Definition ADMIN : string := "admin".

(** [project_env_key]. *)
Definition project_env_key (org project env : string) : string := org +:+ "--" +:+ project +:+ "--" +:+ env.

(** [EnvironmentApplications]: the packages of each declared application. *)
Definition Applications : Type := list (string * list string).

(** ** Authoring *)

Inductive WorkflowExecution := ERole (role : string) | EInvoker.

Inductive WorkflowTrigger :=
| TManual
| TSchedule (cron : string)
| TEvent (source_package entity : string) (ops : list Op) (condition : option string).

Definition type_str (e : WorkflowExecution) : string := match e with ERole _ => "role" | EInvoker => "invoker" end.
Definition execution_role (e : WorkflowExecution) : option string :=
  match e with ERole role => Some role | EInvoker => None end.
Definition trigger_str (t : WorkflowTrigger) : string :=
  match t with TManual => "manual" | TSchedule _ => "schedule" | TEvent _ _ _ _ => "event" end.
Definition trigger_schedule (t : WorkflowTrigger) : option string :=
  match t with TSchedule cron => Some cron | _ => None end.

Inductive AuthorWorkflowErrorType :=
| AStorage | ADocument | AGate | AReport | AConflict | ASchedule | AApplication | AEvent.

Record AuthorWorkflowRequest := {
  aw_org : string;
  aw_project : string;
  aw_environment : string;
  aw_application : string;
  aw_declared : Applications;
  aw_document : AuthoredWiring;
  aw_trigger : WorkflowTrigger;
  aw_execution : WorkflowExecution;
  aw_created_by : string;
  aw_manifest_digest : string;
}.

Definition request_env_key (rq : AuthorWorkflowRequest) : string :=
  project_env_key (aw_org rq) (aw_project rq) (aw_environment rq).

(** [text.split_whitespace().count()]. *)
Fixpoint count_fields (fuel : nat) (inside : bool) (s : string) : nat :=
  match fuel, s with
  | _, EmptyString => 0
  | S fuel, String _ rest =>
      match find (starts_with s) whitespace with
      | Some text => count_fields fuel false (default "" (strip_prefix text s))
      | None => (if inside then 0 else 1) + count_fields fuel true rest
      end
  | O, _ => 0
  end.

Definition parse_workflow_schedule `{PlatformTexts} (text : string) : bool :=
  (count_fields (String.length text) false text =? 5)%nat && cron_parses text.

Definition require_green_report (verdict : option bool) : result unit AuthorWorkflowErrorType :=
  match verdict with Some true => Ok tt | Some false => Err AReport | None => Err AReport end.

Definition ops_text (ops : list Op) : list string := op_text <$> ops.

Section Verbs.
Context `{Boon, FloatText, Sha256, JsonText, JsonPrint, ManifestCodec, Jmespath, PlatformTexts, Jsonb}.
Context (jsonb_eq : Value → Value → bool).

Definition gate_against_release (v : CatalogView) (env_key : string) (packages : list string)
    (manifest_digest : string) (d : AuthoredWiring) : run (result string AuthorWorkflowErrorType) :=
  match cv_releases v env_key manifest_digest with
  | None => Ret (Err AGate)
  | Some bytes =>
      let! decoded := from_canonical_bytes bytes in
      match decoded with
      | Err _ => Ret (Err AStorage)
      | Ok (m, _) =>
          let! gated := gate_workflow_document env_key packages m d in
          Ret (match gated with Ok hash => Ok hash | Err _ => Err AGate end)
      end
  end.

Definition validate_event_trigger (v : CatalogView) (declared : Applications) (t : WorkflowTrigger) :
    result unit AuthorWorkflowErrorType :=
  match t with
  | TEvent source_package entity ops condition =>
      if negb (existsb (λ a : string * list string, bool_decide (source_package ∈ a.2)) declared) then Err AEvent
      else
        match validate_registration
                {| rg_schema_version := SCHEMA_VERSION; rg_registration_id := "workflow";
                   rg_package_id := source_package; rg_source_package_id := source_package;
                   rg_entity := entity; rg_ops := ops; rg_input := InputEvent; rg_condition := condition |}
                source_package source_package (cv_models v source_package) with
        | Ok _ => Ok tt
        | Err _ => Err AEvent
        end
  | _ => Ok tt
  end.

(** The columns of a version as [INSERT_WORKFLOW_SQL] writes them. *)
Definition authored_row (rq : AuthorWorkflowRequest) (graph : Value) (hash : string) : WorkflowRow :=
  let event := match aw_trigger rq with
               | TEvent source entity ops condition => (Some source, Some entity, Some (ops_text ops), condition)
               | _ => (None, None, None, None)
               end in
  {| wf_graph := graph; wf_hash := hash; wf_trigger := trigger_str (aw_trigger rq);
     wf_schedule := trigger_schedule (aw_trigger rq); wf_source_package := event.1.1.1;
     wf_entity := event.1.1.2; wf_ops := event.1.2; wf_condition := event.2; wf_enable_sequence := None;
     wf_execution_type := type_str (aw_execution rq); wf_execution_role := execution_role (aw_execution rq);
     wf_enabled := false; wf_created_by := aw_created_by rq |}.

Definition authored_key (rq : AuthorWorkflowRequest) : wf_key :=
  (request_env_key rq, aw_environment rq, aw_application rq, doc_wiring_id (aw_document rq),
   doc_version (aw_document rq)).

(** [INSERT_WORKFLOW_SQL]: the checks come before the conflict. *)
Definition insert_workflow_sql (k : wf_key) (r : WorkflowRow) (t : Workflows_) : result Workflows_ string :=
  match workflow_check k r with
  | Some constraint => Err constraint
  | None => Ok (match t !! k with Some _ => t | None => <[k := r]> t end)
  end.

(** [EXACT_WORKFLOW_SQL]. *)
Definition same_definition (a b : WorkflowRow) : bool :=
  jsonb_eq (wf_graph a) (wf_graph b) && String.eqb (wf_hash a) (wf_hash b) &&
  String.eqb (wf_trigger a) (wf_trigger b) && String.eqb (wf_execution_type a) (wf_execution_type b) &&
  bool_decide (wf_execution_role a = wf_execution_role b) && bool_decide (wf_schedule a = wf_schedule b) &&
  bool_decide (wf_source_package a = wf_source_package b) && bool_decide (wf_entity a = wf_entity b) &&
  bool_decide (wf_ops a = wf_ops b) && bool_decide (wf_condition a = wf_condition b).
Definition exact_workflow_sql (k : wf_key) (r : WorkflowRow) (t : Workflows_) : bool :=
  match t !! k with
  | Some stored => same_definition stored r && nonempty (wf_created_by r)
  | None => false
  end.

Definition author_workflow (v : CatalogView) (rq : AuthorWorkflowRequest) (t : Workflows_) :
    run (result (Workflows_ * string) AuthorWorkflowErrorType) :=
  match find_entry (aw_application rq) (aw_declared rq) with
  | None => Ret (Err AApplication)
  | Some packages =>
      if match trigger_schedule (aw_trigger rq) with
         | Some cron => negb (parse_workflow_schedule cron)
         | None => false
         end
      then Ret (Err ASchedule)
      else
        let?! _ := Ret (validate_event_trigger v (aw_declared rq) (aw_trigger rq)) in
        let?! hash := gate_against_release v (request_env_key rq) packages (aw_manifest_digest rq) (aw_document rq) in
        let?! _ := Ret (require_green_report (cv_report v (request_env_key rq) hash)) in
        if (i32_max <? doc_version (aw_document rq))%Z then Ret (Err ADocument)
        else
          match (if uuid_parses (aw_created_by rq) then jsonb (as_value (aw_document rq)) else None) with
          | None => Ret (Err AStorage)
          | Some graph =>
              let k := authored_key rq in
              let r := authored_row rq graph hash in
              match insert_workflow_sql k r t with
              | Err _ => Ret (Err AStorage)
              | Ok t' => Ret (if exact_workflow_sql k r t' then Ok (t', hash) else Err AConflict)
              end
          end
  end.

(** ** Enabling and disabling *)

Inductive WorkflowLifecycleErrorType :=
| LApplyInProgress | LNotFound | LGate | LRoleNotHeldByEnabler | LRoleNotHeldByWorkflowUser | LStorage | LBroker.

Record WorkflowVersion := {
  wv_org : string; wv_project : string; wv_environment : string;
  wv_application : string; wv_workflow_id : string; wv_version : Z;  (* u32 *)
}.

Definition version_env_key (w : WorkflowVersion) : string :=
  project_env_key (wv_org w) (wv_project w) (wv_environment w).
Definition version_key (w : WorkflowVersion) : wf_key :=
  (version_env_key w, wv_environment w, wv_application w, wv_workflow_id w, wv_version w).

(** [WorkflowLifecycleError::gate]. *)
Definition gate_error (e : AuthorWorkflowErrorType) : WorkflowLifecycleErrorType :=
  match e with AStorage => LStorage | _ => LGate end.

Definition holds_role (v : CatalogView) (user : string) (roles : list string) : bool :=
  existsb (λ ur : string * string, String.eqb ur.1 user && bool_decide (ur.2 ∈ roles)) (cv_roles v).

(** The role a run executes with: the execution role, or [admin] for a callerless
    [invoker]. *)
Definition assigned_role (r : WorkflowRow) : option string :=
  match wf_execution_role r with
  | Some role => Some role
  | None => if bool_decide (wf_trigger r ∈ ["schedule"; "event"]) then Some ADMIN else None
  end.

Definition check_roles (v : CatalogView) (enabler : string) (r : WorkflowRow) :
    result unit WorkflowLifecycleErrorType :=
  match assigned_role r with
  | None => Ok tt
  | Some role =>
      if negb (holds_role v enabler [role; ADMIN]) then Err LRoleNotHeldByEnabler
      else if negb (holds_role v workflow_user [role]) then Err LRoleNotHeldByWorkflowUser
      else Ok tt
  end.

(** The enable sequence of an event version: the tail of the stream. *)
Definition enable_sequence (v : CatalogView) (declared : Applications) (r : WorkflowRow) :
    run (result (option Z) WorkflowLifecycleErrorType) :=
  if negb (String.eqb (wf_trigger r) "event") then Ret (Ok None)
  else
    match wf_source_package r, wf_entity r, wf_ops r with
    | Some source, Some entity, Some stored_ops =>
        match mapM (λ op, decode_op (VString op)) stored_ops with
        | None => Ret (Err LStorage)
        | Some ops =>
            match validate_event_trigger v declared (TEvent source entity ops (wf_condition r)) with
            | Err e => Ret (Err (gate_error e))
            | Ok _ =>
                match cv_tail v with
                | Some (Some tail) => Ret (if (tail <=? i64_max)%Z then Ok (Some tail) else Err LBroker)
                | _ => Ret (Err LBroker)
                end
            end
        end
    | _, _, _ => Panic "error retrieving column"
    end.

Definition set_enabled (enabled : bool) (sequence : option Z) (r : WorkflowRow) : WorkflowRow := {|
  wf_graph := wf_graph r; wf_hash := wf_hash r; wf_trigger := wf_trigger r; wf_schedule := wf_schedule r;
  wf_source_package := wf_source_package r; wf_entity := wf_entity r; wf_ops := wf_ops r;
  wf_condition := wf_condition r; wf_enable_sequence := sequence; wf_execution_type := wf_execution_type r;
  wf_execution_role := wf_execution_role r; wf_enabled := enabled; wf_created_by := wf_created_by r |}.

(** [DISABLE_OTHERS_SQL]. *)
Definition disable_others_sql (k : wf_key) (t : Workflows_) : Workflows_ :=
  map_imap (λ k' r, Some (if same_workflow k' k && negb (k'.2 =? k.2)%Z && wf_enabled r
                          then set_enabled false (wf_enable_sequence r) r else r)) t.

(** [ENABLE_SQL], refused by a CHECK of the row it leaves. *)
Definition enable_sql (k : wf_key) (sequence : option Z) (t : Workflows_) : result Workflows_ string :=
  match t !! k with
  | None => Ok t
  | Some r =>
      let r' := set_enabled true sequence r in
      match workflow_check k r' with
      | Some constraint => Err constraint
      | None => Ok (<[k := r']> t)
      end
  end.

Definition enable_in (v : CatalogView) (w : WorkflowVersion) (enabler manifest_digest : string)
    (packages : list string) (declared : Applications) (t : Workflows_) :
    run (result Workflows_ WorkflowLifecycleErrorType) :=
  if (i32_max <? wv_version w)%Z then Ret (Err LNotFound)
  else
    let k := version_key w in
    match t !! k with
    | None => Ret (Err LNotFound)
    | Some row =>
        match parse_document (wf_graph row) with
        | Err _ => Ret (Err LStorage)
        | Ok graph =>
            let! gated := gate_against_release v (version_env_key w) packages manifest_digest graph in
            match gated with
            | Err e => Ret (Err (gate_error e))
            | Ok hash =>
                if negb (String.eqb hash (wf_hash row)) then Ret (Err LGate)
                else
                  let?! _ := Ret (check_roles v enabler row) in
                  let?! sequence := enable_sequence v declared row in
                  Ret (match enable_sql k sequence (disable_others_sql k t) with
                       | Ok t' => Ok t'
                       | Err _ => Err LStorage
                       end)
            end
        end
    end.

(** [enable_workflow]; [held]: another verb holds the lifecycle lock. *)
Definition enable_workflow (held : bool) (v : CatalogView) (w : WorkflowVersion) (enabler manifest_digest : string)
    (declared : Applications) (t : Workflows_) : run (result Workflows_ WorkflowLifecycleErrorType) :=
  if held then Ret (Err LApplyInProgress)
  else enable_in v w enabler manifest_digest (default [] (find_entry (wv_application w) declared)) declared t.

(** [disable_workflow]. *)
Definition disable_workflow (held : bool) (w : WorkflowVersion) (t : Workflows_) :
    result Workflows_ WorkflowLifecycleErrorType :=
  if held then Err LApplyInProgress
  else if (i32_max <? wv_version w)%Z then Err LNotFound
  else
    match t !! version_key w with
    | None => Err LNotFound
    | Some r => Ok (<[version_key w := set_enabled false (wf_enable_sequence r) r]> t)
    end.

End Verbs.

(** ** The rows of the table *)

(** What a row says of its version: everything but whether it is enabled, and since when. *)
Definition definition_of (r : WorkflowRow) : WorkflowRow := set_enabled false None r.

(** What [jsonb] keeps of a text, of an integer, of the members of an object and of a
    map of texts. *)
Class JsonbLaw `{Jsonb} : Prop := {
  jsonb_string : ∀ s v, jsonb (VString s) = Some v → v = VString s;
  jsonb_int : ∀ n v, is_u64 n → jsonb (number_of_int n) = Some v → v = number_of_int n;
  jsonb_object : ∀ m v, jsonb (VObject m) = Some v →
    ∃ m', v = VObject m' ∧ ∀ k, map_get k m' = map_get k m ≫= jsonb;
  jsonb_texts : ∀ (l : list (string * string)) v,
    let texts := VObject (map_from_iter ((λ kv : string * string, (kv.1, VString kv.2)) <$> l)) in
    jsonb texts = Some v → v = texts;
}.

(** A row stores the JSONB of a document of the workflow and version it is keyed by, and
    the hash of that document. *)
Definition stores_document `{FloatText, Sha256, Jsonb} (k : wf_key) (r : WorkflowRow) : Prop :=
  ∃ d, document_fits d ∧ jsonb (as_value d) = Some (wf_graph r) ∧
    doc_wiring_id d = k.1.2 ∧ doc_version d = k.2 ∧ wiring_hash d = Ret (wf_hash r).

Lemma as_value_members d : ∃ m, as_value d = VObject m ∧
  map_get "wiring-id" m = Some (VString (doc_wiring_id d)) ∧
  map_get "version" m = Some (number_of_int (doc_version d)).
Proof.
  destruct d as [? ? v ? nodes [|e es] [|c cs] [?|]]; unfold as_value, object_of;
    cbn [doc_nodes doc_edges doc_cases doc_version];
    set (o := VObject (map_from_iter (prod_map (λ k, k) node_value <$> nodes))); set (n := number_of_int v);
    clearbody o n; (eexists; split; [reflexivity|split; reflexivity]).
Qed.

Lemma decode_members m d : decode_document (VObject m) = Some d →
  map_get "wiring-id" m = Some (VString (doc_wiring_id d)) ∧ (map_get "version" m ≫= as_u32) = Some (doc_version d).
Proof.
  unfold decode_document, struct_fields. destruct (_ && _); [|done]. cbn [fmap list_fmap fst].
  destruct (map_get "format-version" m) as [[]|]; try done.
  destruct (map_get "wiring-id" m) as [[]|]; try done.
  destruct (map_get "version" m) as [ver|]; [|done].
  destruct (map_get "entry" m) as [[]|]; try done.
  destruct (map_get "nodes" m) as [ns|]; [|done].
  intros E. repeat bind_inv E. by injection E as <-.
Qed.

(** What a reader parses of such a row has the names of its key. *)
Lemma stored_names `{Boon, FloatText, Sha256, JsonbLaw} k (r : WorkflowRow) d' :
  stores_document k r → parse_document (wf_graph r) = Ok d' → doc_wiring_id d' = k.1.2 ∧ doc_version d' = k.2.
Proof.
  intros (d & Hfit & Hg & <- & <- & _). unfold parse_document. destruct (as_value_members d) as (m & Em & Hid & Hver).
  rewrite Em in Hg. destruct (jsonb_object _ _ Hg) as (m' & -> & Hm).
  destruct (decode_document (VObject m')) as [d2|] eqn:Ed; [|done].
  destruct (validate_document d2); [|done]. intros [= ->]. apply decode_members in Ed as [Hid' Hver'].
  rewrite Hm, Hid in Hid'. rewrite Hm, Hver in Hver'. simpl in Hid', Hver'. split.
  - apply jsonb_string in Hid'. by injection Hid'.
  - apply bind_Some in Hver' as (x & Hx & Hver'). pose proof (df_version _ Hfit) as Hu.
    apply jsonb_int in Hx as ->; [|unfold is_u64, is_u32, u64_max, u32_max in *; lia].
    rewrite as_u32_number in Hver' by done. congruence.
Qed.

(** ** Steps of the catalog *)

Section Steps.
Context `{Boon, FloatText, Sha256, JsonText, JsonPrint, ManifestCodec, Jmespath, PlatformTexts, JsonbLaw}.
Context (jsonb_eq : Value → Value → bool).

Inductive catalog_step (t : Workflows_) : Workflows_ → Prop :=
| step_author v rq hash t' : document_fits (aw_document rq) →
    author_workflow jsonb_eq v rq t = Ret (Ok (t', hash)) → catalog_step t t'
| step_enable held v w enabler digest declared t' :
    enable_workflow held v w enabler digest declared t = Ret (Ok t') → catalog_step t t'
| step_disable held w t' : disable_workflow held w t = Ok t' → catalog_step t t'.

Record catalog_ok (t : Workflows_) : Prop := {
  co_one : one_enabled t;
  co_checks : ∀ k r, t !! k = Some r → workflow_check k r = None;
  co_int : ∀ k r, t !! k = Some r → (k.2 ≤ i32_max)%Z;  (* [version] is an [integer] *)
  co_named : ∀ k r, t !! k = Some r → stores_document k r;
  co_enabled : ∀ k r, t !! k = Some r → wf_enabled r = true →
    ∃ d, parse_document (wf_graph r) = Ok d ∧ wiring_hash d = Ret (wf_hash r);
}.

(** The definitions of [t] stand in [t']. *)
Definition stands (t t' : Workflows_) : Prop :=
  ∀ k r, t !! k = Some r → ∃ r', t' !! k = Some r' ∧ definition_of r' = definition_of r.

#[export] Instance stands_preorder : PreOrder stands.
Proof.
  split; [by intros t k r Hr; exists r|]. intros t1 t2 t3 H12 H23 k r Hr.
  destruct (H12 k r Hr) as (r2 & Hr2 & E2). destruct (H23 k r2 Hr2) as (r3 & Hr3 & E3). exists r3. by rewrite E3.
Qed.

Lemma definition_fields r r' : definition_of r' = definition_of r →
  wf_graph r' = wf_graph r ∧ wf_hash r' = wf_hash r ∧ wf_trigger r' = wf_trigger r ∧
  wf_execution_type r' = wf_execution_type r ∧ wf_execution_role r' = wf_execution_role r ∧
  same_definition jsonb_eq r' = same_definition jsonb_eq r.
Proof.
  destruct r, r'; unfold definition_of, set_enabled; simpl. intros E. injection E as -> -> -> -> -> -> -> -> -> -> ->.
  split_and!; reflexivity.
Qed.

Lemma gate_hash v env packages digest d hash :
  gate_against_release v env packages digest d = Ret (Ok hash) → wiring_hash d = Ret hash.
Proof.
  unfold gate_against_release, gate_workflow_document, try_bind, run_bind.
  destruct (cv_releases v env digest); [|done]. destruct (from_canonical_bytes _) as [[[m ?]|]|]; [|done..].
  destruct (resolve_workflow_components _ _ _ _) as [[|]|]; [|done..].
  destruct (validate_resolved_wiring_compatibility _ _) as [[|]|]; [|done..].
  destruct (wiring_hash d) as [h|]; [|done]. by intros [= ->].
Qed.

Lemma author_inv v rq t t' hash : author_workflow jsonb_eq v rq t = Ret (Ok (t', hash)) →
  ∃ g, jsonb (as_value (aw_document rq)) = Some g ∧ (doc_version (aw_document rq) ≤ i32_max)%Z ∧
    wiring_hash (aw_document rq) = Ret hash ∧
    workflow_check (authored_key rq) (authored_row rq g hash) = None ∧
    t' = (match t !! authored_key rq with Some _ => t | None => <[authored_key rq := authored_row rq g hash]> t end) ∧
    exact_workflow_sql jsonb_eq (authored_key rq) (authored_row rq g hash) t' = true ∧
    ∀ t2, author_workflow jsonb_eq v rq t2 =
      let t3 := match t2 !! authored_key rq with Some _ => t2 | None => <[authored_key rq := authored_row rq g hash]> t2 end in
      Ret (if exact_workflow_sql jsonb_eq (authored_key rq) (authored_row rq g hash) t3 then Ok (t3, hash) else Err AConflict).
Proof.
  unfold author_workflow, try_bind, run_bind, insert_workflow_sql. intros E.
  destruct (find_entry _ _) as [packages|]; [|done]. 
  match type of E with context [if ?b then Ret (Err ASchedule) else _] => destruct b; [done|] end.
  destruct (validate_event_trigger _ _ _) as [[]|]; [|done].
  destruct (gate_against_release _ _ _ _ _) as [[h|]|] eqn:Egate; [|done..]. apply gate_hash in Egate.
  destruct (require_green_report _) as [[]|]; [|done]. destruct (Z.ltb_spec i32_max (doc_version (aw_document rq))); [done|].
  destruct (if uuid_parses _ then _ else _) as [g|] eqn:Eg; [|done].
  destruct (workflow_check _ _) eqn:Ec; [done|].
  destruct (exact_workflow_sql _ _ _ _) eqn:Ex; [|done]. injection E as <- <-.
  exists g. destruct (uuid_parses _); [|done]. do 6 (split; [done|]).
  intros t2. simpl. by destruct (exact_workflow_sql _ _ _ _).
Qed.

Lemma check_disabled k r : workflow_check k r = None →
  workflow_check k (set_enabled false (wf_enable_sequence r) r) = None.
Proof.
  assert (He : event_columns_ok r = true → event_columns_ok (set_enabled false (wf_enable_sequence r) r) = true).
  { unfold event_columns_ok. simpl. destruct (wf_source_package r), (wf_entity r), (wf_ops r); try done.
    rewrite !andb_true_iff. intros [? Hs]. split; [done|]. by destruct (wf_enable_sequence r). }
  destruct k as [[[[env e] app] id] version]. unfold workflow_check. simpl.
  do 8 match goal with |- (if ?b then _ else _) = None → _ => destruct b; [done|] end.
  destruct (String.eqb (wf_trigger r) "event"); [|done].
  destruct (event_columns_ok r); [|done]. by rewrite He.
Qed.

#[local] Arguments workflow_check : simpl never.

Lemma disable_others_lookup k k' t : disable_others_sql k t !! k' =
  (λ r, if same_workflow k' k && negb (k'.2 =? k.2)%Z && wf_enabled r
        then set_enabled false (wf_enable_sequence r) r else r) <$> t !! k'.
Proof. unfold disable_others_sql. rewrite map_lookup_imap. by destruct (t !! k'). Qed.

Lemma disabled_definition s r : definition_of (set_enabled false s r) = definition_of r.
Proof. done. Qed.

Lemma disable_others_stands k t : stands t (disable_others_sql k t).
Proof.
  intros k' r Hr. rewrite disable_others_lookup, Hr. simpl. eexists. split; [done|]. by case_match.
Qed.

(** Disabling a row keeps the catalog well formed. *)
Lemma disabled_ok t t' : catalog_ok t →
  (∀ k r', t' !! k = Some r' → ∃ r, t !! k = Some r ∧
     (r' = r ∨ r' = set_enabled false (wf_enable_sequence r) r)) → catalog_ok t'.
Proof.
  intros [Hone Hchk Hint Hnm Hen] Hback. split.
  - intros k k' r r' Hr Hr' He He'.
    destruct (Hback _ _ Hr) as (r0 & Hr0 & [-> | ->]); [|done].
    destruct (Hback _ _ Hr') as (r1 & Hr1 & [-> | ->]); [|done]. by eapply Hone.
  - intros k r Hr. destruct (Hback _ _ Hr) as (r0 & Hr0 & [-> | ->]); [by apply Hchk|]. by apply check_disabled, Hchk.
  - intros k r Hr. destruct (Hback _ _ Hr) as (r0 & Hr0 & _). by apply (Hint _ _ Hr0).
  - intros k r Hr. destruct (Hback _ _ Hr) as (r0 & Hr0 & [-> | ->]); by apply (Hnm _ _ Hr0).
  - intros k r Hr He. destruct (Hback _ _ Hr) as (r0 & Hr0 & [-> | ->]); [by apply (Hen k)|done].
Qed.

Lemma author_step_ok v rq hash t t' : document_fits (aw_document rq) →
  author_workflow jsonb_eq v rq t = Ret (Ok (t', hash)) → catalog_ok t → catalog_ok t' ∧ stands t t'.
Proof.
  intros Hfit E Hok. destruct (author_inv _ _ _ _ _ E) as (g & Hg & Hi & Hh & Hc & -> & _ & _).
  destruct (t !! authored_key rq) eqn:Ek; [by split|]. destruct Hok as [Hone Hchk Hint Hnm Hen]. split.
  - split.
    + intros k k' r r' [[<- <-]|[? Hr]]%lookup_insert_Some [[<- <-]|[? Hr']]%lookup_insert_Some; [done..|].
      by apply Hone.
    + intros k r [[<- <-]|[? Hr]]%lookup_insert_Some; [done|auto].
    + intros k r [[<- <-]|[? Hr]]%lookup_insert_Some; [done|by eapply Hint].
    + intros k r [[<- <-]|[? Hr]]%lookup_insert_Some; [|auto]. exists (aw_document rq). by split_and!.
    + intros k r [[<- <-]|[? Hr]]%lookup_insert_Some; [done|]. by apply (Hen k).
  - intros k r Hr. exists r. split; [|done]. rewrite lookup_insert_ne; [done|]. intros <-. congruence.
Qed.

(** What an enabling transaction did: the version, the judgement of its graph and of the
    roles, and the two updates. *)
Lemma enable_inv held v w enabler digest declared t t' :
  enable_workflow held v w enabler digest declared t = Ret (Ok t') →
  ∃ row d seq, t !! version_key w = Some row ∧ parse_document (wf_graph row) = Ok d ∧
    gate_against_release v (version_env_key w) (default [] (find_entry (wv_application w) declared)) digest d =
      Ret (Ok (wf_hash row)) ∧
    check_roles v enabler row = Ok tt ∧
    enable_sequence v declared row = Ret (Ok seq) ∧
    workflow_check (version_key w) (set_enabled true seq row) = None ∧
    t' = <[version_key w := set_enabled true seq row]> (disable_others_sql (version_key w) t).
Proof.
  unfold enable_workflow, enable_in, try_bind, run_bind. destruct held; [done|].
  destruct (_ <? _)%Z; [done|]. destruct (t !! version_key w) as [row|] eqn:Er; [|done].
  destruct (parse_document (wf_graph row)) as [d|] eqn:Ed; [|done].
  destruct (gate_against_release _ _ _ _ _) as [[h|]|] eqn:Eg; [|done..].
  destruct (String.eqb_spec h (wf_hash row)) as [-> |]; [simpl|done].
  destruct (check_roles v enabler row) as [[]|] eqn:Ec; [|done].
  destruct (enable_sequence v declared row) as [[seq|]|] eqn:Es; [|done..].
  unfold enable_sql. rewrite disable_others_lookup, Er. simpl.
  rewrite Z.eqb_refl. simpl. rewrite andb_false_r. simpl.
  destruct (workflow_check _ _) eqn:Ew; [done|]. intros [= <-]. by exists row, d, seq.
Qed.

Lemma enable_step_ok held v w enabler digest declared t t' :
  enable_workflow held v w enabler digest declared t = Ret (Ok t') → catalog_ok t → catalog_ok t' ∧ stands t t'.
Proof.
  intros E Hok. destruct (enable_inv _ _ _ _ _ _ _ _ E) as (row & d & seq & Hr & Hd & Hg & _ & _ & Hc & ->).
  clear E. set (k0 := version_key w) in *. clearbody k0.
  assert (Hoff : catalog_ok (disable_others_sql k0 t)).
  { eapply disabled_ok; [exact Hok|]. intros k r'. rewrite disable_others_lookup.
    intros (r & Hr0 & ->)%fmap_Some. exists r. split; [done|]. case_match; auto. }
  assert (Halone : ∀ k r, disable_others_sql k0 t !! k = Some r → wf_enabled r = true → k.1 = k0.1 → k = k0).
  { intros k r. rewrite disable_others_lookup. intros (r0 & Hr0 & ->)%fmap_Some. unfold same_workflow.
    destruct (bool_decide_reflect (k.1 = k0.1)) as [Hk|]; [simpl|done].
    destruct (Z.eqb_spec k.2 k0.2) as [Hv|]; simpl; [intros _ _; destruct k, k0; simpl in *; congruence|].
    destruct (wf_enabled r0) eqn:Ee; simpl; [done|]. congruence. }
  pose proof Hoff as [Hone Hchk Hint Hnm Hen]. split.
  - split.
    + intros k k' r r' [[<- <-]|[? Hr1]]%lookup_insert_Some [[<- <-]|[? Hr2]]%lookup_insert_Some He He' Hk; [done| | |].
      * symmetry. by eapply Halone.
      * by eapply Halone.
      * by eapply Hone.
    + intros k r [[<- <-]|[? Hr1]]%lookup_insert_Some; [done|auto].
    + intros k r [[<- <-]|[? Hr1]]%lookup_insert_Some; [by apply (co_int _ Hok _ _ Hr)|by eapply Hint].
    + intros k r [[<- <-]|[? Hr1]]%lookup_insert_Some; [|auto]. by apply (co_named _ Hok _ _ Hr).
    + intros k r [[<- <-]|[? Hr1]]%lookup_insert_Some He; [|by apply (Hen k)].
      exists d. split; [done|]. by apply gate_hash in Hg.
  - intros k r Hr1. destruct (decide_rel (=) k k0) as [-> |Hne].
    + rewrite lookup_insert_eq. eexists. split; [done|]. by simplify_eq.
    + rewrite lookup_insert_ne by done. by apply disable_others_stands.
Qed.

Lemma catalog_step_ok t t' : catalog_step t t' → catalog_ok t → catalog_ok t' ∧ stands t t'.
Proof.
  intros Hs Hok. destruct Hs as [v rq hash t' Hf E|held v w en dg dc t' E|held w t' E].
  - by eapply author_step_ok.
  - by eapply enable_step_ok.
  - unfold disable_workflow in E. destruct held; [done|]. destruct (_ <? _)%Z; [done|].
    destruct (t !! version_key w) as [r|] eqn:Er; [|done]. injection E as <-. split.
    + eapply disabled_ok; [exact Hok|]. intros k r' [[<- <-]|[? Hr]]%lookup_insert_Some; eauto.
    + intros k r0 Hr0. destruct (decide_rel (=) k (version_key w)) as [-> |Hne].
      * rewrite lookup_insert_eq. eexists. split; [done|]. by simplify_eq.
      * rewrite lookup_insert_ne by done. eauto.
Qed.

Lemma catalog_steps_ok t t' : rtc catalog_step t t' → catalog_ok t → catalog_ok t' ∧ stands t t'.
Proof.
  induction 1 as [t|t t1 t' Hs _ IH]; intros Hok; [by split|].
  destruct (catalog_step_ok _ _ Hs Hok) as [Hok1 Hs1]. destruct (IH Hok1) as [Hok' Hs']. split; [done|]. by etrans.
Qed.

Lemma empty_catalog_ok : catalog_ok ∅.
Proof. split; intros k; intros; simplify_map_eq. Qed.

(** C34. The versions of an environment's workflows stand: whatever is authored, enabled
    and disabled, from an empty catalog, a workflow has at most one enabled version, every
    row passes the table's checks and stores the JSONB of a document of the workflow and
    version it is keyed by, with the hash of that document; every enabled version's graph
    parses to a document of that workflow and version which hashes to its stored hash; and
    no version that was ever authored is removed or changes its definition.  An authored
    document is a value of its type: its version is a [u32], its maps are in key order,
    and its expectations hold no null where an absent member reads the same. *)
Theorem workflow_versions_stand t t' : rtc catalog_step ∅ t → rtc catalog_step t t' →
  one_enabled t' ∧
  (∀ k r, t' !! k = Some r → workflow_check k r = None ∧ stores_document k r ∧
     (wf_enabled r = true → ∃ d, parse_document (wf_graph r) = Ok d ∧ wiring_hash d = Ret (wf_hash r) ∧
        doc_wiring_id d = k.1.2 ∧ doc_version d = k.2)) ∧
  (∀ k r, t !! k = Some r → ∃ r', t' !! k = Some r' ∧ definition_of r' = definition_of r).
Proof.
  intros H0t Htt. destruct (catalog_steps_ok _ _ H0t empty_catalog_ok) as [Hok _].
  destruct (catalog_steps_ok _ _ Htt Hok) as [Hok' Hst]. split; [apply Hok'|]. split; [|exact Hst].
  intros k r Hr. pose proof (co_named _ Hok' k r Hr) as Hd. split; [by apply Hok'|]. split; [done|].
  intros He. destruct (co_enabled _ Hok' k r Hr He) as (d & Ed & Hh). exists d. split; [done|]. split; [done|].
  by eapply stored_names.
Qed.

Lemma exact_inv k r t : exact_workflow_sql jsonb_eq k r t = true →
  ∃ stored, t !! k = Some stored ∧ same_definition jsonb_eq stored r = true ∧ nonempty (wf_created_by r) = true.
Proof. unfold exact_workflow_sql. destruct (t !! k) as [s|]; [|done]. intros [? ?]%andb_true_iff. eauto. Qed.

(** Authoring converges: once a version is authored, and whatever the catalog does
    then, the same request answers the same hash and writes nothing; and any request
    under that key that succeeds wrote nothing, stored the same definition and answers
    that hash.  Other bytes under a version are never stored. *)
Theorem authoring_converges v rq hash t t1 t2 :
  catalog_ok t → document_fits (aw_document rq) →
  author_workflow jsonb_eq v rq t = Ret (Ok (t1, hash)) → rtc catalog_step t1 t2 →
  author_workflow jsonb_eq v rq t2 = Ret (Ok (t2, hash)) ∧
  ∀ v' rq' t3 hash', authored_key rq' = authored_key rq →
    author_workflow jsonb_eq v' rq' t2 = Ret (Ok (t3, hash')) →
    t3 = t2 ∧ hash' = hash ∧ trigger_str (aw_trigger rq') = trigger_str (aw_trigger rq) ∧
    execution_role (aw_execution rq') = execution_role (aw_execution rq).
Proof.
  intros Hok Hfit Ha Hsteps. destruct (author_step_ok _ _ _ _ _ Hfit Ha Hok) as [Hok1 _].
  destruct (author_inv _ _ _ _ _ Ha) as (g & Hg & _ & _ & Hc & _ & Hx & Hre).
  destruct (exact_inv _ _ _ Hx) as (r1 & Hr1 & Hsame & Hby).
  destruct (catalog_steps_ok _ _ Hsteps Hok1) as [_ Hst]. destruct (Hst _ _ Hr1) as (r2 & Hr2 & Hdef).
  destruct (definition_fields _ _ Hdef) as (_ & Eh & Et & _ & Er & Esame). split.
  - rewrite Hre, Hr2. simpl. unfold exact_workflow_sql. by rewrite Hr2, Esame, Hsame, Hby.
  - intros v' rq' t3 hash' Ek Ha'. destruct (author_inv _ _ _ _ _ Ha') as (g' & _ & _ & _ & _ & -> & Hx' & _).
    rewrite Ek, Hr2 in Hx' |- *. destruct (exact_inv _ _ _ Hx') as (r2' & Hr2' & Hs2 & _).
    rewrite Hr2 in Hr2'. injection Hr2' as <-. unfold same_definition in Hsame, Hs2. split_andb.
    repeat match goal with
    | E : String.eqb _ _ = true |- _ => apply String.eqb_eq in E
    | E : bool_decide _ = true |- _ => apply bool_decide_eq_true in E
    end. simpl in *. split; [done|]. split_and!; congruence.
Qed.

(** Enabling is an atomic, authorized switch: it leaves exactly this version of the
    workflow enabled, every other workflow as it was, and every definition unchanged; the
    stored graph gated against the release served, with the stored hash; and a run that
    has no caller's role to use gets only a role the enabler holds, or holds [admin],
    and the [workflow] user holds. *)
Theorem enable_switches held v w enabler digest declared t t' :
  enable_workflow held v w enabler digest declared t = Ret (Ok t') →
  held = false ∧
  (∀ k r, t' !! k = Some r → k.1 = (version_key w).1 → (wf_enabled r = true ↔ k = version_key w)) ∧
  (∀ k, k.1 ≠ (version_key w).1 → t' !! k = t !! k) ∧ stands t t' ∧
  ∃ row, t !! version_key w = Some row ∧
    (∃ d, parse_document (wf_graph row) = Ok d ∧
       gate_against_release v (version_env_key w) (default [] (find_entry (wv_application w) declared)) digest d =
         Ret (Ok (wf_hash row))) ∧
    (∀ role, assigned_role row = Some role →
       ((enabler, role) ∈ cv_roles v ∨ (enabler, ADMIN) ∈ cv_roles v) ∧ (workflow_user, role) ∈ cv_roles v).
Proof.
  intros E. pose proof (enable_inv _ _ _ _ _ _ _ _ E) as (row & d & seq & Hr & Hd & Hg & Hro & _ & _ & ->).
  split; [by destruct held|]. clear E. set (k0 := version_key w) in *. clearbody k0. split; [|split; [|split]].
  - intros k r [[<- <-]|[Hne Hk]]%lookup_insert_Some E1; [done|]. split; [|congruence]. intros He. exfalso.
    rewrite disable_others_lookup in Hk. apply fmap_Some in Hk as (r0 & Hr0 & ->).
    unfold same_workflow in He. rewrite bool_decide_eq_true_2 in He by done. simpl in He.
    destruct (Z.eqb_spec k.2 k0.2) as [E2|]; simpl in He.
    + apply Hne. destruct k, k0; simpl in *; congruence.
    + destruct (wf_enabled r0) eqn:Ee; simpl in He; congruence.
  - intros k Hne. rewrite lookup_insert_ne by congruence. rewrite disable_others_lookup. unfold same_workflow.
    rewrite bool_decide_eq_false_2 by done. simpl. by destruct (t !! k).
  - intros k r Hr1. destruct (decide_rel (=) k k0) as [-> |Hne].
    + rewrite lookup_insert_eq. eexists. split; [done|]. by simplify_eq.
    + rewrite lookup_insert_ne by done. by apply disable_others_stands.
  - exists row. split; [done|]. split; [by exists d|]. intros role Ha. unfold check_roles in Hro. rewrite Ha in Hro.
    destruct (holds_role v enabler [role; ADMIN]) eqn:E1; [simpl in Hro|done].
    destruct (holds_role v workflow_user [role]) eqn:E2; [|done]. unfold holds_role in E1, E2.
    apply existsb_exists in E1 as ([u ro] & Hin & Hx), E2 as ([u2 ro2] & Hin2 & Hx2). simpl in *. split_andb.
    repeat match goal with
    | E : String.eqb _ _ = true |- _ => apply String.eqb_eq in E
    | E : bool_decide _ = true |- _ => apply bool_decide_eq_true in E
    end. subst. rewrite <-list_elem_of_In in Hin, Hin2. split.
    + match goal with Hro' : ro ∈ [role; ADMIN] |- _ => apply elem_of_cons in Hro' as [-> | ->%list_elem_of_singleton] end; auto.
    + match goal with Hro' : ro2 ∈ [role] |- _ => by apply list_elem_of_singleton in Hro' as -> end.
Qed.

End Steps.

Module VersionSample.

Import AdmissionSample ManifestSample.

#[export] Instance no_conditions : Jmespath := {|
  Expression := unit; jm_compile := λ _, Err "none"; as_ast := λ _, ALiteral; jm_matches := λ _ _, Err "none" |}.
#[export] Instance platform_texts : PlatformTexts := {|
  cron_parses := λ _, true; uuid_parses := λ _, true; workflow_user := "wf" |}.
#[export] Instance exact_jsonb : Jsonb := Some.
#[export] Instance exact_jsonb_law : JsonbLaw.
Proof.
  split; [by intros s v [= <-]|by intros n v _ [= <-]| |by intros l v; cbn zeta; intros [= <-]].
  intros m v [= <-]. exists m. split; [done|]. intros k. by destruct (map_get k m).
Qed.

Definition view : CatalogView := {|
  cv_releases := λ _ _, Some release_bytes; cv_models := λ _, ["order"];
  cv_roles := [("ann", "admin"); ("wf", "clerk")]; cv_report := λ _ _, Some true; cv_tail := Some (Some 41%Z) |}.

Definition repost (version : Z) : AuthoredWiring := {|
  doc_format_version := doc_format_version GateSample.document; doc_wiring_id := "repost"; doc_version := version;
  doc_entry := doc_entry GateSample.document; doc_nodes := doc_nodes GateSample.document;
  doc_edges := doc_edges GateSample.document; doc_cases := []; doc_response := doc_response GateSample.document |}.

Definition request (version : Z) (t : WorkflowTrigger) : AuthorWorkflowRequest := {|
  aw_org := "acme"; aw_project := "shop"; aw_environment := "dev"; aw_application := "erp";
  aw_declared := [("erp", ["orders"])]; aw_document := repost version; aw_trigger := t;
  aw_execution := ERole "clerk"; aw_created_by := "ann"; aw_manifest_digest := "m" |}.

Definition author (version : Z) (t : WorkflowTrigger) (ws : Workflows_) :=
  author_workflow value_eqb view (request version t) ws.
Definition version_of (version : Z) : WorkflowVersion := {|
  wv_org := "acme"; wv_project := "shop"; wv_environment := "dev"; wv_application := "erp";
  wv_workflow_id := "repost"; wv_version := version |}.
Definition enable (version : Z) (ws : Workflows_) :=
  enable_workflow false view (version_of version) "ann" "m" [("erp", ["orders"])] ws.

Definition on_event : WorkflowTrigger := TEvent "orders" "order" [OpInsert] None.
Definition table_of {E} (r : run (result Workflows_ E)) : Workflows_ := match r with Ret (Ok t) => t | _ => ∅ end.
Definition authored_of {E} (r : run (result (Workflows_ * string) E)) : Workflows_ :=
  match r with Ret (Ok (t, _)) => t | _ => ∅ end.
Definition three : Workflows_ := authored_of (author 3 on_event ∅).
Definition four : Workflows_ := authored_of (author 4 TManual three).
Definition three_on : Workflows_ := table_of (enable 3 four).
Definition four_on : Workflows_ := table_of (enable 4 three_on).

Lemma fits version : (0 < version ≤ 4)%Z → document_fits (repost version).
Proof.
  intros Hv. split; simpl; [unfold is_u32, u32_max; lia| | |constructor].
  - repeat constructor.
  - repeat constructor.
Qed.

Lemma author_ok version t ws : (∃ hash, author version t ws = Ret (Ok (authored_of (author version t ws), hash))) ↔
  match author version t ws with Ret (Ok _) => True | _ => False end.
Proof. unfold authored_of. destruct (author version t ws) as [[[]|]|]; naive_solver. Qed.

Lemma steps : rtc (catalog_step value_eqb) ∅ four ∧ rtc (catalog_step value_eqb) four four_on.
Proof.
  assert (E3 : ∃ hash, author 3 on_event ∅ = Ret (Ok (three, hash))) by (apply author_ok; vm_compute; exact I).
  assert (E4 : ∃ hash, author 4 TManual three = Ret (Ok (four, hash))) by (apply author_ok; vm_compute; exact I).
  destruct E3 as [h3 E3], E4 as [h4 E4]. split.
  - exact (rtc_l _ _ _ _ (step_author value_eqb ∅ view (request 3 on_event) h3 three (fits 3 ltac:(lia)) E3)
             (rtc_once _ _ (step_author value_eqb three view (request 4 TManual) h4 four (fits 4 ltac:(lia)) E4))).
  - assert (Hen : ∀ version ws, (match enable version ws with Ret (Ok _) => True | _ => False end) →
      catalog_step value_eqb ws (table_of (enable version ws))).
    { intros version ws Hx. unfold table_of. destruct (enable version ws) as [[t'|]|] eqn:E; [|destruct Hx..].
      exact (step_enable value_eqb ws false view (version_of version) "ann" "m" [("erp", ["orders"])] t' E). }
    assert (H3 : match enable 3 four with Ret (Ok _) => True | _ => False end) by (vm_compute; exact I).
    assert (H4 : match enable 4 three_on with Ret (Ok _) => True | _ => False end) by (vm_compute; exact I).
    exact (rtc_l _ _ _ _ (Hen 3%Z four H3) (rtc_once _ _ (Hen 4%Z three_on H4))).
Qed.

Lemma workflow_versions_stand_witness :
  one_enabled four_on ∧
  ((λ kr : wf_key * WorkflowRow, (kr.1.2, wf_enabled kr.2, wf_enable_sequence kr.2)) <$> map_to_list four_on) ≡ₚ
    [(3, false, Some 41); (4, true, None)]%Z.
Proof.
  destruct steps as [S1 S2]. split; [exact (proj1 (workflow_versions_stand value_eqb four four_on S1 S2))|].
  vm_compute. first [reflexivity | apply Permutation_swap].
Defined.

Lemma authoring_converges_witness :
  ∃ hash, author 3 on_event ∅ = Ret (Ok (three, hash)) ∧ author 3 on_event four_on = Ret (Ok (four_on, hash)).
Proof.
  assert (E3 : ∃ hash, author 3 on_event ∅ = Ret (Ok (three, hash))) by (apply author_ok; vm_compute; exact I).
  assert (E4 : ∃ hash, author 4 TManual three = Ret (Ok (four, hash))) by (apply author_ok; vm_compute; exact I).
  destruct E3 as [h3 E3], E4 as [h4 E4]. exists h3. split; [exact E3|].
  assert (S : rtc (catalog_step value_eqb) three four_on).
  { exact (rtc_l _ _ _ _ (step_author value_eqb three view (request 4 TManual) h4 four (fits 4 ltac:(lia)) E4) (proj2 steps)). }
  exact (proj1 (authoring_converges value_eqb view (request 3 on_event) h3 ∅ three four_on
    empty_catalog_ok (fits 3 ltac:(lia)) E3 S)).
Defined.

Lemma enable_switches_witness :
  ∃ t', enable 4 three_on = Ret (Ok t') ∧
    (∀ k r, t' !! k = Some r → k.1 = (version_key (version_of 4)).1 → (wf_enabled r = true ↔ k = version_key (version_of 4))) ∧
    ∃ row, three_on !! version_key (version_of 4) = Some row ∧ assigned_role row = Some "clerk".
Proof.
  assert (H4 : match enable 4 three_on with Ret (Ok _) => True | _ => False end) by (vm_compute; exact I).
  destruct (enable 4 three_on) as [[t'|]|] eqn:E; [|destruct H4..]. exists t'. split; [reflexivity|].
  unfold enable in E. destruct (enable_switches false view (version_of 4) "ann" "m" [("erp", ["orders"])] three_on t' E)
    as (_ & Hsw & _). split; [exact Hsw|].
  assert (Er : (assigned_role <$> three_on !! version_key (version_of 4)) = Some (Some "clerk")) by (vm_compute; reflexivity).
  apply fmap_Some in Er as (row & Er & Ea). exists row. split; [exact Er|symmetry; exact Ea].
Defined.

(** A second definition under an authored version is a conflict. *)
Example other_definition : author 3 TManual four_on = Ret (Err AConflict).
Proof. vm_compute. reflexivity. Qed.

End VersionSample.
