(* ===== verification/EventBatch.v ===== *)
(** * Admission of the event workflows of one delivery

    [crates/platform/runtime/src/plugins/wamn_postgres/event_batch.rs]: the triggers of
    the enabled event workflows, the authority of the materializer, and the admission of
    one delivered event: every matching workflow gets its run and queue entry in one
    transaction, or none does.

    The batch reads the table of [WorkflowVersions] and writes the run plane of
    [RunPlane].  The history tables of the captured models are lookups given per schema.
    The checkout of the connection and its claims are left out. *)

From stdpp Require Import base tactics option list gmap strings relations.
From Stdlib Require Import ZArith Lia.
From S2P Require Import Prelude Text Json Canonical Router RunStatus RunStore Queue RunPlane ClaimStore PlaneSpec.
From S2P Require Import ClaimRefines Workflows StoreProps WorkflowProps Capabilities Packages ComponentFacts Driver.
From S2P Require Import ComponentAdmission GatedRuns Lowering ServingManifests WiringDocuments WiringCompatibility WorkflowGate EventWire.
From S2P Require Import EventTriggers WiringParse WorkflowVersions.
#[local] Set Warnings "-clear-no-such-hyp".
Open Scope wamn_scope.

(** ** The release a host serves *)

(** [LoadedRelease]: its scope, its manifest and the digest of the manifest. *)
Record LoadedRelease := {
  lr_env_key : string;
  lr_environment : string;
  lr_applications : Applications;
  lr_manifest : ServingManifest;
  lr_digest : string;
}.

#[export] Instance AuthorityClass_eq_dec : EqDecision AuthorityClass.
Proof. solve_decision. Defined.

(** [require_event_materializer]: the authority class and the environment key bound to
    the component. *)
Definition require_event_materializer (authority : AuthorityClass) (env_key : option string) (rel : LoadedRelease) :
    result unit ProductionClaimError :=
  if negb (bool_decide (authority = EventMaterializer)) || negb (bool_decide (env_key = Some (lr_env_key rel)))
  then Err (claim_error Identity "authorize event materializer" "component is not the environment materializer")
  else Ok tt.

(** ** The triggers *)

Definition trigger (row : wf_key * WorkflowRow) : run (result EventTrigger ProductionClaimError) :=
  let '((_, _, application, workflow_id, _), r) := row in
  let! ops := expect (wf_ops r) "error retrieving column" in
  let! sequence := expect (wf_enable_sequence r) "error retrieving column" in
  let! source_package := expect (wf_source_package r) "error retrieving column" in
  let! entity := expect (wf_entity r) "error retrieving column" in
  match mapM (λ op, decode_op (VString op)) ops with
  | None => Ret (Err (claim_error Contract "decode event operations" ""))
  | Some ops =>
      if (sequence <? 0)%Z then Ret (Err (claim_error Contract "decode enable sequence" ""))
      else Ret (Ok {| tg_application := application; tg_workflow_id := workflow_id;
                      tg_source_package := source_package; tg_entity := entity; tg_ops := ops;
                      tg_condition := wf_condition r; tg_enable_sequence := sequence |})
  end.

Section Batch.
Context `{Collation, Boon, FloatText, Sha256, JsonText, JsonMembers, InstantText, JsonPrint, Jmespath, PlatformTexts,
          Jsonb, AdmissionChecks, JsonbEq}.

(** [ENABLED_EVENTS_SQL]. *)
Definition workflow_order (a b : wf_key * WorkflowRow) : bool :=
  let '((_, _, app_a, id_a, _), _) := a in
  let '((_, _, app_b, id_b, _), _) := b in
  if String.eqb app_a app_b then collate id_a id_b else collate app_a app_b.

Definition enabled_event (rel : LoadedRelease) (row : wf_key * WorkflowRow) : bool :=
  let '((env_key, environment, application, _, _), r) := row in
  String.eqb env_key (lr_env_key rel) && String.eqb environment (lr_environment rel) &&
  bool_decide (application ∈ (lr_applications rel).*1) && wf_enabled r && String.eqb (wf_trigger r) "event".

Definition enabled_events_sql (rel : LoadedRelease) (t : Workflows_) : list (wf_key * WorkflowRow) :=
  stable_sort workflow_order (filter (λ row, enabled_event rel row = true) (map_to_list t)).

(** [event_triggers]. *)
Fixpoint triggers_of (rows : list (wf_key * WorkflowRow)) : run (result (list EventTrigger) ProductionClaimError) :=
  match rows with
  | [] => Ret (Ok [])
  | row :: rows =>
      let?! e := trigger row in
      let?! rest := triggers_of rows in
      Ret (Ok (e :: rest))
  end.
Definition event_triggers (rel : LoadedRelease) (t : Workflows_) : run (result (list EventTrigger) ProductionClaimError) :=
  let! triggers := triggers_of (enabled_events_sql rel t) in
  Ret (match triggers with
       | Ok l => Ok l
       | Err _ => Err (claim_error Storage "read enabled event triggers" "")
       end).

(** ** The actor of a captured change *)

(** The model a schema's entity map names, and the history of its table: whether there is
    one, and who made the change of an operation, an image and a transaction. *)
Record HistoryModel := {
  hm_present : bool;
  hm_changed_by : Op → Value → Z → option string;
}.

Fixpoint history_actor (schemas : list (string → string → option HistoryModel)) (e : Envelope) :
    result (option string) ProductionClaimError :=
  match schemas with
  | [] => Ok None
  | model :: schemas =>
      match model (en_package_id e) (en_entity e) with
      | None => history_actor schemas e
      | Some m =>
          if negb (hm_present m) then Ok None
          else
            match (match en_op e with OpDelete => en_old e | _ => en_new e end) with
            | None => Err (claim_error Contract "read event row key" "event image is absent")
            | Some image => Ok (hm_changed_by m (en_op e) (VObject image) (en_txid e))
            end
      end
  end.

(** ** The batch *)

Record EventBatchAdmission := {
  ea_source_package : string;
  ea_entity : string;
  ea_envelope : string;
  ea_sequence : Z;  (* u64 *)
  ea_source_event_id : string;
}.

Definition event_key (environment application workflow_id delivery : string) : string :=
  print_json (VArray [VString "event"; VString environment; VString application; VString workflow_id; VString delivery]).

Definition delivery_of (a : EventBatchAdmission) : string :=
  "event:" +:+ decimal_text (ea_sequence a) +:+ ":" +:+ ea_source_event_id a.

(** The matching rows, their triggers and inputs. *)
Fixpoint match_rows (rel : LoadedRelease) (packages : list string) (source : SourceEvent) (sequence : Z)
    (rows : list (wf_key * WorkflowRow)) :
    run (result (list (wf_key * WorkflowRow * Value)) ProductionClaimError) :=
  match rows with
  | [] => Ret (Ok [])
  | row :: rows =>
      let?! e := trigger row in
      match trigger_matches e source sequence packages (lr_env_key rel) with
      | Err _ => Ret (Err (claim_error Contract "filter event workflow" ""))
      | Ok input =>
          let?! rest := match_rows rel packages source sequence rows in
          Ret (Ok (match input with Some input => (row, input) :: rest | None => rest end))
      end
  end.

(** The parent of the event: its run, its root and the depth of a run it starts. *)
Definition event_parent (source : SourceEvent) : result (option (string * string * Z)) ProductionClaimError :=
  match event_causation source with
  | None => Ok None
  | Some c =>
      let depth := u32_add (cause_depth c) 1 in
      if (i32_max <? depth)%Z then Err (claim_error Contract "decode event depth" "")
      else Ok (Some (cause_run c, cause_root c, depth))
  end.

Definition event_binds (rel : LoadedRelease) (k : wf_key) (r : WorkflowRow) (digests : list (string * string))
    (delivery : string) (input : Value) : WorkflowBinds :=
  let '(_, _, application, workflow_id, version) := k in {|
  w_package_id := application; w_manifest_digest := lr_digest rel; w_environment := lr_environment rel;
  w_wiring_id := workflow_id; w_wiring_version := version; w_wiring_hash := wf_hash r;
  w_principal_id := workflow_user; w_role := default ADMIN (wf_execution_role r);
  w_node_digests := VObject (map_from_iter ((λ kv : string * string, (kv.1, VString kv.2)) <$> digests));
  w_idempotency_key := event_key (lr_environment rel) application workflow_id delivery; w_input := input |}.

(** The run and its queue entry, or the run the delivery already has. *)
Definition admit_event_run (rel : LoadedRelease) (fresh : string) (b : WorkflowBinds) (delivery : string)
    (actor : option string) (parent : option (string * string * Z)) (now : Z) : tx unit :=
  inserted ← statement "insert event run" (λ p,
    insert_event_run_sql p (lr_env_key rel) fresh b delivery actor parent now);
  match inserted with
  | Some run_id =>
      statement "queue event run" (λ p,
        match insert_run_queue_sql p (lr_env_key rel) run_id now with Ok p' => Ok (p', tt) | Err c => Err c end)
  | None =>
      first ← statement "read existing event run" (λ p,
                match jsonb (w_input b) with
                | Some given => Ok (p, select_event_run_sql p (lr_env_key rel) (w_idempotency_key b) given jsonb_eq)
                | None => Err "invalid-json"
                end);
      match first with
      | Some _ => mret tt
      | None => refuse (claim_error Contract "read existing event run" "event idempotency conflict")
      end
  end.

(** What one matching row freezes: its graph gated against the release served. *)
Definition freeze_row (rel : LoadedRelease) (row : wf_key * WorkflowRow) (delivery : string) (input : Value) :
    run (result WorkflowBinds ProductionClaimError) :=
  let '(k, r) := row in
  match parse_document (wf_graph r) with
  | Err _ => Ret (Err (claim_error Contract "parse event workflow" ""))
  | Ok graph =>
      let! packages := expect (find_entry k.1.1.2 (lr_applications rel)) "no entry found for key" in
      let! gated := gate_workflow_document (lr_env_key rel) packages (lr_manifest rel) graph in
      match gated with
      | Err _ => Ret (Err (claim_error Contract "gate event workflow" ""))
      | Ok hash =>
          if negb (String.eqb hash (wf_hash r))
          then Ret (Err (claim_error Contract "gate event workflow" "workflow hash differs"))
          else
            let! components := resolve_workflow_components (lr_env_key rel) packages (lr_manifest rel) graph in
            match components with
            | Err _ => Ret (Err (claim_error Contract "resolve event workflow" ""))
            | Ok components =>
                Ret (Ok (event_binds rel k r ((λ kc : string * AdmittedFact, (kc.1, af_component_digest kc.2)) <$> components)
                           delivery input))
            end
      end
  end.

Fixpoint admit_matches (rel : LoadedRelease) (fresh : list string) (delivery : string) (actor : option string)
    (parent : option (string * string * Z)) (now : Z) (matches : list (wf_key * WorkflowRow * Value)) (p : Plane) :
    run (result Plane ProductionClaimError) :=
  match matches with
  | [] => Ret (Ok p)
  | (row, input) :: matches =>
      let?! b := freeze_row rel row delivery input in
      match admit_event_run rel (default "" (head fresh)) b delivery actor parent now p with
      | Err e => Ret (Err e)
      | Ok (p', _) => admit_matches rel (tail fresh) delivery actor parent now matches p'
      end
  end.

(** The transaction of [admit_event_batch]. *)
Definition event_batch (h : Host) (project : string) (rel : LoadedRelease) (t : Workflows_)
    (schemas : list (string → string → option HistoryModel)) (policy : option DurabilityClass)
    (fresh : list string) (a : EventBatchAdmission) (now : Z) (p : Plane) :
    run (result Plane ProductionClaimError) :=
  if negb (executor_member h)
  then Ret (Err (claim_error Identity "check executor authority" "executor-platform-authority-required"))
  else
    match decode_source (ea_envelope a) with
    | None => Ret (Err (claim_error Contract "decode event" ""))
    | Some source =>
        if (ea_sequence a =? 0)%Z ||
           bool_decide (event_identity source (lr_env_key rel) project (lr_environment rel) [ea_source_event_id a] = None)
        then Ret (Err (claim_error Contract "identify event" "invalid event sequence or source identity"))
        else if negb (bool_decide (event_source source = (ea_source_package a, ea_entity a))) then Ret (Ok p)
        else
          let packages := concat (lr_applications rel).*2 in
          let?! matches := match_rows rel packages source (ea_sequence a) (enabled_events_sql rel t) in
          match matches with
          | [] => Ret (Ok p)
          | _ =>
              let?! actor := Ret (match source with Cdc e => history_actor schemas e | Derived _ => Ok None end) in
              match policy with
              | None => Ret (Err (claim_error Contract "read environment policy" "environment policy is absent"))
              | Some _ =>
                  let?! parent := Ret (event_parent source) in
                  admit_matches rel fresh (delivery_of a) actor parent now matches p
              end
          end
    end.

(** Commit on success; a refusal or a panic rolls the batch back. *)
Definition admit_event_batch h project rel t schemas policy fresh a now (p : Plane) :
    Plane * run (result unit ProductionClaimError) :=
  match event_batch h project rel t schemas policy fresh a now p with
  | Ret (Ok p') => (p', Ret (Ok tt))
  | Ret (Err e) => (p, Ret (Err e))
  | Panic m => (p, Panic m)
  end.

(** ** What a batch leaves behind *)

(** The run of a delivery: the run of its key, admitted by an event, with its input as
    [jsonb] holds it. *)
Definition delivered (p : Plane) (env_key k : string) (input : Value) : Prop :=
  ∃ id r given, runs p !! (env_key, id) = Some r ∧ p_idempotency_key (r_pins r) = Some k ∧
    p_trigger_source (r_pins r) = Some "event" ∧
    jsonb input = Some given ∧ jsonb_eq (p_input_json (r_pins r)) given = true.

Lemma delivered_evolves p p' env_key k input :
  plane_ok p → evolves p p' → delivered p env_key k input → delivered p' env_key k input.
Proof.
  intros Hok Hev (id & r & given & Hr & Hk & Hs & Hi).
  destruct (evolves_next p p' (env_key, id) r Hok Hev Hr) as (r' & Hr' & [Hp _ _]).
  exists id, r', given. by rewrite Hp.
Qed.

(** A row's pins under another [created_at]. *)
Definition at_time (now : Z) (p : Pins) : Pins := {|
  p_package_id := p_package_id p; p_environment := p_environment p; p_trigger_source := p_trigger_source p;
  p_manifest_digest := p_manifest_digest p; p_flow_id := p_flow_id p; p_flow_version := p_flow_version p;
  p_wiring_id := p_wiring_id p; p_wiring_version := p_wiring_version p; p_wiring_hash := p_wiring_hash p;
  p_binding_world_json := p_binding_world_json p; p_service_principal_id := p_service_principal_id p;
  p_execution_principal_id := p_execution_principal_id p; p_execution_role := p_execution_role p;
  p_invoked_by := p_invoked_by p; p_invoked_by_user_id := p_invoked_by_user_id p;
  p_node_digests_json := p_node_digests_json p; p_event_source_run_id := p_event_source_run_id p;
  p_event_root_run_id := p_event_root_run_id p; p_event_depth := p_event_depth p;
  p_idempotency_key := p_idempotency_key p; p_input_json := p_input_json p; p_created_at := now |}.

Definition event_row (b : WorkflowBinds) delivery actor parent now : Pins := event_pins delivery actor parent now b.

Lemma select_first_inv source p env k input i :
  select_first_run_sql source p env k input jsonb_eq = Some i →
  ∃ r, runs p !! (env, i) = Some r ∧ p_idempotency_key (r_pins r) = Some k ∧
    p_trigger_source (r_pins r) = Some source ∧ jsonb_eq (p_input_json (r_pins r)) input = true.
Proof.
  unfold select_first_run_sql. intros Hh. apply head_Some_elem_of in Hh.
  apply list_elem_of_fmap in Hh as ([[e j] r] & -> & Hin). apply list_elem_of_filter in Hin as [Hp Hin].
  apply Is_true_true in Hp. simpl in Hp. rewrite !andb_true_iff, !bool_decide_eq_true, String.eqb_eq in Hp.
  destruct Hp as [[[-> Hk] Hs] Hi]. exists r. by apply elem_of_map_to_list in Hin.
Qed.

(** The constraints of the table do not read the clock. *)
Lemma admission_at_time now :
  (∀ pins, other_check pins = None → other_check (at_time now pins) = None) →
  ∀ pins, admission_check pins = None → admission_check (at_time now pins) = None.
Proof.
  intros Ho pins. unfold admission_check. change (pins_check (at_time now pins)) with (pins_check pins).
  destruct (pins_check pins); [done|apply Ho].
Qed.

(** One admission: a new run with its row, or the plane as it was. *)
Lemma admit_event_run_inv rel fresh b delivery actor parent now p p' x :
  (∀ v, jsonb_eq v v = true) →
  admit_event_run rel fresh b delivery actor parent now p = Ok (p', x) →
  ∃ b', cast_binds b = Some b' ∧
  evolves p p' ∧ admission_check (event_row b' delivery actor parent now) = None ∧
  delivered p' (lr_env_key rel) (w_idempotency_key b) (w_input b) ∧
  (p' = p ∨ p' = {| runs := <[(lr_env_key rel, fresh) := admitted_row (event_row b' delivery actor parent now)]> (runs p);
                    queue := <[(lr_env_key rel, fresh) := fresh_queue_row now]> (queue p) |}).
Proof.
  intros Hrefl Ht. unfold admit_event_run in Ht. tx_inv Ht.
  unfold insert_event_run_sql, insert_binds_sql, insert_run_sql in Hm.
  destruct (cast_binds b) as [b'|] eqn:Ec; [|done]. exists b'. split; [done|].
  fold (event_row b' delivery actor parent now) in Hm.
  destruct (cast_binds_inv _ _ Ec) as (v & d & Hv & _ & E').
  destruct (admission_check (event_row b' delivery actor parent now)) eqn:Hc; [done|].
  destruct (key_taken p (lr_env_key rel) (p_idempotency_key (event_row b' delivery actor parent now))) eqn:Hkey.
  { injection Hm as <- <-. tx_inv Ht. rewrite Hv in Hm. injection Hm as <- Hm.
    destruct a as [i|]; [|done]. apply tx_ret_inv in Ht as [-> _].
    split_and!; [done|done| |by left]. apply select_first_inv in Hm as (r & ? & ? & ? & ?). by exists i, r, v. }
  destruct (runs p !! (lr_env_key rel, fresh)) eqn:Hr; [done|]. injection Hm as <- <-.
  unfold statement, insert_run_queue_sql in Ht. simpl in Ht.
  destruct (queue p !! (lr_env_key rel, fresh)) eqn:Hq; [done|]. rewrite lookup_insert_eq in Ht.
  injection Ht as <- _. split_and!; [|done| |by right].
  - apply rtc_once. by apply t_admit.
  - eexists fresh, _, v. split; [apply lookup_insert_eq|]. rewrite E'. split_and!; [done|done|done|apply Hrefl].
Qed.

(** The same admission over a plane that has the run already. *)
Lemma admit_event_run_again rel fresh b b' delivery actor parent now p :
  plane_ok p → delivered p (lr_env_key rel) (w_idempotency_key b) (w_input b) → cast_binds b = Some b' →
  admission_check (event_row b' delivery actor parent now) = None →
  admit_event_run rel fresh b delivery actor parent now p = Ok (p, tt).
Proof.
  intros Hok (id & r & given & Hr & Hk & Hs & Hg & Hi) Ec Hc.
  unfold admit_event_run, insert_event_run_sql, insert_binds_sql, insert_run_sql. unfold statement, mbind, tx_bind.
  rewrite Ec. fold (event_row b' delivery actor parent now). rewrite Hc.
  destruct (cast_binds_inv _ _ Ec) as (v & d & _ & _ & ->). cbn [event_row event_pins workflow_pins p_idempotency_key with_json w_idempotency_key].
  rewrite (key_taken_true _ _ _ _ _ Hr Hk), Hg. unfold select_event_run_sql.
  by rewrite (select_first_unique _ _ _ _ _ _ _ Hok Hr Hk Hs), Hi.
Qed.

(** ** The matches of a delivery *)

Lemma try_bind_ok {A B E} (m : run (result A E)) (f : A → run (result B E)) y :
  try_bind m f = Ret (Ok y) ↔ ∃ x, m = Ret (Ok x) ∧ f x = Ret (Ok y).
Proof. destruct m as [[]|]; simpl; naive_solver. Qed.

(** What the query and the filters select. *)
Definition matched (rel : LoadedRelease) (packages : list string) (source : SourceEvent) (sequence : Z)
    (row : wf_key * WorkflowRow) (input : Value) : Prop :=
  ∃ e, trigger row = Ret (Ok e) ∧ trigger_matches e source sequence packages (lr_env_key rel) = Ok (Some input).

Lemma match_rows_sound rel packages source sequence rows ms row input :
  match_rows rel packages source sequence rows = Ret (Ok ms) → (row, input) ∈ ms →
  row ∈ rows ∧ matched rel packages source sequence row input.
Proof.
  revert ms. induction rows as [|r rows IH]; intros ms Hm Hin; simpl in Hm.
  { injection Hm as <-. by apply not_elem_of_nil in Hin. }
  apply try_bind_ok in Hm as (e & He & Hm).
  destruct (trigger_matches e source sequence packages (lr_env_key rel)) as [o|] eqn:Ht; [|done].
  apply try_bind_ok in Hm as (rest & Hrest & Hm). injection Hm as <-.
  destruct o as [i|]; [apply elem_of_cons in Hin as [[= -> ->]|Hin]|].
  - split; [left|]. by exists e.
  - destruct (IH rest Hrest Hin). by split; [right|].
  - destruct (IH rest Hrest Hin). by split; [right|].
Qed.

Lemma match_rows_complete rel packages source sequence rows ms row :
  match_rows rel packages source sequence rows = Ret (Ok ms) → row ∈ rows →
  ∃ e o, trigger row = Ret (Ok e) ∧ trigger_matches e source sequence packages (lr_env_key rel) = Ok o ∧
    ∀ input, o = Some input → (row, input) ∈ ms.
Proof.
  revert ms. induction rows as [|r rows IH]; intros ms Hm Hin; [by apply not_elem_of_nil in Hin|]. simpl in Hm.
  apply try_bind_ok in Hm as (e & He & Hm).
  destruct (trigger_matches e source sequence packages (lr_env_key rel)) as [o|] eqn:Ht; [|done].
  apply try_bind_ok in Hm as (rest & Hrest & Hm). injection Hm as <-.
  apply elem_of_cons in Hin as [->|Hin].
  - exists e, o. split_and!; [done|done|]. intros input ->. left.
  - destruct (IH rest Hrest Hin) as (e' & o' & ? & ? & Hi). exists e', o'. split_and!; [done|done|].
    intros input Ho. destruct o; [right|]; by apply Hi.
Qed.

Lemma enabled_events_elem rel t k r :
  (k, r) ∈ enabled_events_sql rel t ↔ t !! k = Some r ∧ enabled_event rel (k, r) = true.
Proof.
  unfold enabled_events_sql. rewrite elem_of_stable_sort, list_elem_of_filter, elem_of_map_to_list. tauto.
Qed.

(** ** The admissions of a batch *)

(** What is frozen for a row: the graph's hash is the row's, gated against the release
    served, and the digests are those of the components the release resolves. *)
Definition frozen (rel : LoadedRelease) (k : wf_key) (r : WorkflowRow) (delivery : string) (input : Value)
    (b : WorkflowBinds) : Prop :=
  ∃ graph packages components, parse_document (wf_graph r) = Ok graph ∧
    find_entry k.1.1.2 (lr_applications rel) = Some packages ∧
    gate_workflow_document (lr_env_key rel) packages (lr_manifest rel) graph = Ret (Ok (wf_hash r)) ∧
    resolve_workflow_components (lr_env_key rel) packages (lr_manifest rel) graph = Ret (Ok components) ∧
    b = event_binds rel k r ((λ kc : string * AdmittedFact, (kc.1, af_component_digest kc.2)) <$> components)
          delivery input.

Lemma freeze_row_inv rel k r delivery input b :
  freeze_row rel (k, r) delivery input = Ret (Ok b) ↔ frozen rel k r delivery input b.
Proof.
  unfold freeze_row, frozen. split.
  - destruct (parse_document (wf_graph r)) as [graph|]; [|done].
    destruct (find_entry k.1.1.2 (lr_applications rel)) as [packages|]; [|done]. simpl.
    destruct (gate_workflow_document _ _ _ _) as [[hash|]|] eqn:Hg; [|done..]. simpl.
    destruct (String.eqb_spec hash (wf_hash r)) as [->|]; [|done]. simpl.
    destruct (resolve_workflow_components _ _ _ _) as [[components|]|] eqn:Hc; [|done..]. simpl.
    intros [= <-]. by exists graph, packages, components.
  - intros (graph & packages & components & -> & -> & Hg & Hc & ->). simpl. rewrite Hg. simpl.
    rewrite String.eqb_refl. simpl. by rewrite Hc.
Qed.

Lemma frozen_binds rel k r delivery input b :
  frozen rel k r delivery input b →
  w_input b = input ∧ w_idempotency_key b = event_key (lr_environment rel) k.1.1.2 k.1.2 delivery ∧
  (w_package_id b, w_wiring_id b, w_wiring_version b, w_wiring_hash b) = (k.1.1.2, k.1.2, k.2, wf_hash r) ∧
  (w_manifest_digest b, w_environment b) = (lr_digest rel, lr_environment rel) ∧
  (w_principal_id b, w_role b) = (workflow_user, default ADMIN (wf_execution_role r)).
Proof. destruct k as [[[[env e] app] id] version]. by intros (? & ? & ? & _ & _ & _ & _ & ->). Qed.

Section Admissions.
Context (rel : LoadedRelease) (delivery : string) (actor : option string) (parent : option (string * string * Z)).
Context (jsonb_refl : ∀ v, jsonb_eq v v = true).

Definition settled (p : Plane) (now : Z) (row : wf_key * WorkflowRow) (input : Value) : Prop :=
  ∃ b b', frozen rel row.1 row.2 delivery input b ∧ cast_binds b = Some b' ∧
    admission_check (event_row b' delivery actor parent now) = None ∧
    delivered p (lr_env_key rel) (w_idempotency_key b) input.

Definition admitted_by (now : Z) (ms : list (wf_key * WorkflowRow * Value)) (k : key) (row : RunRow) : Prop :=
  ∃ w r input b b', (w, r, input) ∈ ms ∧ frozen rel w r delivery input b ∧ cast_binds b = Some b' ∧
    k.1 = lr_env_key rel ∧ row = admitted_row (event_row b' delivery actor parent now).

Lemma admit_matches_inv now ms : ∀ fresh p p',
  plane_ok p → admit_matches rel fresh delivery actor parent now ms p = Ret (Ok p') →
  evolves p p' ∧ (∀ row input, (row, input) ∈ ms → settled p' now row input) ∧
  ∀ k row, runs p' !! k = Some row → runs p !! k = Some row ∨ admitted_by now ms k row.
Proof.
  induction ms as [|[[w r] input] ms IH]; intros fresh p p' Hok Hm; simpl in Hm.
  { injection Hm as <-. split_and!; [done| |by left]. by intros ?? ?%not_elem_of_nil. }
  apply try_bind_ok in Hm as (b & Hb & Hm). apply freeze_row_inv in Hb.
  destruct (frozen_binds _ _ _ _ _ _ Hb) as [Hi _].
  destruct (admit_event_run rel (default "" (head fresh)) b delivery actor parent now p) as [[p1 x]|] eqn:Ha; [|done].
  destruct (admit_event_run_inv _ _ _ _ _ _ _ _ _ _ jsonb_refl Ha) as (b' & Ec & Hev & Hc & Hd & Hp1).
  destruct (IH (tail fresh) p1 p' (evolves_ok _ _ Hok Hev) Hm) as (Hev' & Hall & Hnew). split_and!.
  - by etrans.
  - intros row i [[= -> ->]|Hin]%elem_of_cons; [|by apply Hall]. exists b, b'. split_and!; [done|done|done|].
    rewrite <- Hi. eapply delivered_evolves; [by eapply evolves_ok|done|done].
  - intros k row Hk. destruct (Hnew k row Hk) as [Hk1|(w' & r' & i' & b1 & b2 & ? & ?)].
    + destruct Hp1 as [->| ->]; [by left|]. simpl in Hk1.
      apply lookup_insert_Some in Hk1 as [[<- <-]|[_ Hk1]]; [|by left]. right. exists w, r, input, b, b'.
      split_and!; [left|done..].
    + right. exists w', r', i', b1, b2. split; [by right|done].
Qed.

Lemma admit_matches_again now now' ms : ∀ fresh p,
  (∀ pins, admission_check pins = None → admission_check (at_time now' pins) = None) →
  plane_ok p → (∀ row input, (row, input) ∈ ms → settled p now row input) →
  admit_matches rel fresh delivery actor parent now' ms p = Ret (Ok p).
Proof.
  induction ms as [|[[w r] input] ms IH]; intros fresh p Hchk Hok Hall; [done|]. cbn [admit_matches].
  destruct (Hall (w, r) input) as (b & b' & Hb & Ec & Hc & Hd); [left|]. cbn [fst snd] in Hb.
  rewrite (proj2 (freeze_row_inv rel w r delivery input b) Hb). cbn [try_bind run_bind].
  destruct (frozen_binds _ _ _ _ _ _ Hb) as [Hi _].
  rewrite (admit_event_run_again _ _ _ b'); [|done|by rewrite Hi|done|exact (Hchk _ Hc)].
  apply IH; [done|done|]. intros row i Hin. apply Hall. by right.
Qed.

End Admissions.

(** ** The transaction *)

Definition batch_packages (rel : LoadedRelease) : list string := concat (lr_applications rel).*2.
Definition batch_actor (schemas : list (string → string → option HistoryModel)) (source : SourceEvent) :=
  match source with Cdc e => history_actor schemas e | Derived _ => Ok None end.

Lemma event_batch_inv h project rel t schemas policy fresh a now p p' :
  event_batch h project rel t schemas policy fresh a now p = Ret (Ok p') →
  ∃ source, decode_source (ea_envelope a) = Some source ∧
    ((event_source source ≠ (ea_source_package a, ea_entity a) ∧ p' = p) ∨
     ∃ ms, event_source source = (ea_source_package a, ea_entity a) ∧
       match_rows rel (batch_packages rel) source (ea_sequence a) (enabled_events_sql rel t) = Ret (Ok ms) ∧
       ((ms = [] ∧ p' = p) ∨
        ∃ actor parent, batch_actor schemas source = Ok actor ∧ event_parent source = Ok parent ∧
          admit_matches rel fresh (delivery_of a) actor parent now ms p = Ret (Ok p'))).
Proof.
  unfold event_batch. destruct (executor_member h); [|done]. simpl.
  destruct (decode_source (ea_envelope a)) as [source|]; [|done]. intros Hb. exists source. split; [done|].
  destruct ((ea_sequence a =? 0) || _); [done|].
  case_bool_decide as Hs; simpl in Hb; [|left; split; [done|by injection Hb]]. right.
  apply try_bind_ok in Hb as (ms & Hms & Hb). exists ms. split_and!; [done|done|].
  destruct ms as [|m ms]; [left; split; [done|by injection Hb]|]. right.
  fold (batch_actor schemas source) in Hb. destruct (batch_actor schemas source) as [actor|]; [|done].
  destruct policy; [|done]. destruct (event_parent source) as [parent|]; [|done]. by exists actor, parent.
Qed.

(** Why a run of a delivery exists: an enabled event workflow the event addresses, whose
    condition holds, gated against the release served; its row is what was frozen. *)
Record started_by (rel : LoadedRelease) (t : Workflows_) (a : EventBatchAdmission) (now : Z) (source : SourceEvent)
    (w : wf_key) (r : WorkflowRow) (pins : Pins) : Prop := {
  sb_row : t !! w = Some r;
  sb_enabled : enabled_event rel (w, r) = true;
  sb_trigger : ∃ e, trigger (w, r) = Ret (Ok e) ∧ addresses e source (ea_sequence a) (lr_env_key rel) ∧
    condition_verdict e source true;
  sb_pins : ∃ b b' actor parent, frozen rel w r (delivery_of a) (source_input source) b ∧ cast_binds b = Some b' ∧
    event_parent source = Ok parent ∧ pins = event_row b' (delivery_of a) actor parent now;
  sb_depth : ∀ c, event_causation source = Some c → 0 ≤ cause_depth c →
    p_event_source_run_id pins = Some (cause_run c) ∧ p_event_root_run_id pins = Some (cause_root c) ∧
    p_event_depth pins = Some (cause_depth c + 1) ∧ cause_depth c + 1 ≤ MAX_CAUSATION_DEPTH;
}.

Lemma saturating_depth (d : Z) :
  (0 ≤ d → u32_saturating_succ d ≤ MAX_CAUSATION_DEPTH → u32_add d 1 = d + 1 ∧ d + 1 ≤ MAX_CAUSATION_DEPTH)%Z.
Proof.
  intros Hz Hd. assert (Hb : (d + 1 ≤ MAX_CAUSATION_DEPTH)%Z).
  { unfold u32_saturating_succ in Hd. apply Z.min_le in Hd as [Hd|Hd]; [done|]. by vm_compute in Hd. }
  split; [|done]. apply u32_add_small; [done|lia|]. etrans; [exact Hb|]. by vm_compute.
Qed.

Lemma parent_depth source parent c :
  depth_admitted source → event_parent source = Ok parent → event_causation source = Some c → (0 ≤ cause_depth c)%Z →
  parent = Some (cause_run c, cause_root c, (cause_depth c + 1)%Z) ∧ (cause_depth c + 1 ≤ MAX_CAUSATION_DEPTH)%Z.
Proof.
  intros Hd Hp Hc Hz. destruct (saturating_depth (cause_depth c) Hz (Hd c Hc)) as [Ha Hb].
  unfold event_parent in Hp. rewrite Hc, Ha in Hp. split; [|done].
  destruct (i32_max <? cause_depth c + 1)%Z; [discriminate|]. by injection Hp.
Qed.

Lemma matched_started rel t a now source w r input b b' actor parent :
  t !! w = Some r → enabled_event rel (w, r) = true →
  matched rel (batch_packages rel) source (ea_sequence a) (w, r) input →
  frozen rel w r (delivery_of a) input b → cast_binds b = Some b' → event_parent source = Ok parent →
  started_by rel t a now source w r (event_row b' (delivery_of a) actor parent now).
Proof.
  intros Hr He (e & Ht & Hm) Hb Ec Hp.
  apply trigger_matches_spec in Hm as (Ha & _ & Hv & Hd & ->). constructor; [done|done|by exists e| |].
  - by exists b, b', actor, parent.
  - intros c Hc Hz. destruct (parent_depth source parent c Hd Hp Hc Hz) as [-> ?]. done.
Qed.

Lemma batch_effects rel schemas fresh a now source ms p p' :
  (∀ v, jsonb_eq v v = true) → plane_ok p →
  ((ms = [] ∧ p' = p) ∨
   ∃ actor parent, batch_actor schemas source = Ok actor ∧ event_parent source = Ok parent ∧
     admit_matches rel fresh (delivery_of a) actor parent now ms p = Ret (Ok p')) →
  evolves p p' ∧
  (∀ row input, (row, input) ∈ ms → ∃ b, frozen rel row.1 row.2 (delivery_of a) input b ∧
     delivered p' (lr_env_key rel) (w_idempotency_key b) input) ∧
  ∀ k row, runs p' !! k = Some row → runs p !! k = Some row ∨
    ∃ actor parent, event_parent source = Ok parent ∧ admitted_by rel (delivery_of a) actor parent now ms k row.
Proof.
  intros Hrefl Hok [[-> ->]|(actor & parent & Ha & Hp & Hb)].
  - split_and!; [done| |by left]. by intros ?? ?%not_elem_of_nil.
  - apply admit_matches_inv in Hb as (Hev & Hall & Hnew); [|done|done]. split_and!; [done| |].
    + intros row input Hin. destruct (Hall row input Hin) as (b & ? & ? & _ & _ & ?). by exists b.
    + intros k row Hk. destruct (Hnew k row Hk); [by left|]. right. by exists actor, parent.
Qed.

Lemma event_batch_spec (h : Host) (project : string) (rel : LoadedRelease) (t : Workflows_)
    (schemas : list (string → string → option HistoryModel)) (policy : option DurabilityClass)
    (fresh : list string) (a : EventBatchAdmission) (now : Z) (p p' : Plane) (out : run (result unit ProductionClaimError)) :
  (∀ v, jsonb_eq v v = true) → plane_ok p →
  admit_event_batch h project rel t schemas policy fresh a now p = (p', out) →
  plane_ok p' ∧ evolves p p' ∧ (out ≠ Ret (Ok tt) → p' = p) ∧
  (out = Ret (Ok tt) → ∃ source, decode_source (ea_envelope a) = Some source ∧
     (event_source source = (ea_source_package a, ea_entity a) →
      ∀ w r, t !! w = Some r → enabled_event rel (w, r) = true → ∃ e, trigger (w, r) = Ret (Ok e) ∧
        (addresses e source (ea_sequence a) (lr_env_key rel) → condition_verdict e source true →
         delivered p' (lr_env_key rel) (event_key (lr_environment rel) w.1.1.2 w.1.2 (delivery_of a))
           (source_input source))) ∧
     ∀ k row, runs p' !! k = Some row → runs p !! k = Some row ∨
       k.1 = lr_env_key rel ∧ ∃ w r pins, started_by rel t a now source w r pins ∧ row = admitted_row pins).
Proof.
  intros Hrefl Hok. unfold admit_event_batch.
  destruct (event_batch h project rel t schemas policy fresh a now p) as [[p1|]|] eqn:Hb; intros [= <- <-];
    [|by split_and!..].
  apply event_batch_inv in Hb as (source & Hd & [[Hs ->]|(ms & Hs & Hms & Hb)]).
  { split_and!; [done..|]. intros _. exists source. split_and!; [done|done|by left]. }
  destruct (batch_effects rel schemas fresh a now source ms p p1 Hrefl Hok Hb) as (Hev & Hall & Hnew).
  clear Hb. split_and!; [by eapply evolves_ok|done|done|].
  intros _. exists source. split_and!; [done| |].
  - intros _ w r Hr He.
    destruct (match_rows_complete _ _ _ _ _ _ (w, r) Hms) as (e & o & Ht & Hm & Hin); [by apply enabled_events_elem|].
    exists e. split; [done|]. intros Ha Hv. destruct o as [input|].
    + destruct (Hall _ _ (Hin input eq_refl)) as (b & Hb & Hdel). destruct (frozen_binds _ _ _ _ _ _ Hb) as (_ & Hk & _).
      rewrite Hk in Hdel. apply trigger_matches_spec in Hm as (_ & _ & _ & _ & ->). done.
    + apply trigger_matches_spec in Hm as [Hn|Hf]; [done|]. by pose proof (verdict_unique _ _ _ _ Hv Hf).
  - intros k row Hk. destruct (Hnew k row Hk) as [?|(actor & parent & Hp & w & r & input & b & b' & Hin & Hb & Ec & Hk1 & ->)];
      [by left|]. right. split; [done|].
    destruct (match_rows_sound _ _ _ _ _ _ _ _ Hms Hin) as [Hrow Hmat]. apply enabled_events_elem in Hrow as [Hr He].
    eexists w, r, _. split; [|done]. by eapply matched_started.
Qed.

(** C27. A delivered event starts the run of every workflow it is meant for, and no other.
    The batch is one step of the run plane: it keeps the plane's invariant, and a refused
    or failed batch leaves the plane as it was.  When it commits, each enabled event
    workflow of the environment that the event addresses and whose condition holds has
    its run, one per delivery, with the event's projection as [jsonb] stores it for its
    input; and each run that was not there before belongs to such a
    workflow, is pinned to the row's version and hash as the serving release gates them,
    and carries its cause at one step deeper, within sixteen. *)
Theorem event_batch_runs (h : Host) (project : string) (rel : LoadedRelease) (t : Workflows_)
    (schemas : list (string → string → option HistoryModel)) (policy : option DurabilityClass)
    (fresh : list string) (a : EventBatchAdmission) (now : Z) (p p' : Plane) (out : run (result unit ProductionClaimError)) :
  (∀ v, jsonb_eq v v = true) → plane_ok p →
  admit_event_batch h project rel t schemas policy fresh a now p = (p', out) →
  plane_ok p' ∧ evolves p p' ∧ (out ≠ Ret (Ok tt) → p' = p) ∧
  (out = Ret (Ok tt) → ∃ source, decode_source (ea_envelope a) = Some source ∧
     (event_source source = (ea_source_package a, ea_entity a) →
      ∀ w r, t !! w = Some r → enabled_event rel (w, r) = true → ∃ e, trigger (w, r) = Ret (Ok e) ∧
        (addresses e source (ea_sequence a) (lr_env_key rel) → condition_verdict e source true →
         delivered p' (lr_env_key rel) (event_key (lr_environment rel) w.1.1.2 w.1.2 (delivery_of a))
           (source_input source))) ∧
     ∀ k row, runs p' !! k = Some row → runs p !! k = Some row ∨
       k.1 = lr_env_key rel ∧ ∃ w r pins, started_by rel t a now source w r pins ∧ row = admitted_row pins).
Proof. apply event_batch_spec. Qed.

(** A second reading of the same delivery. *)
Lemma event_batch_again h h2 project rel t schemas policy policy2 fresh fresh2 a now now2 p p' p2 :
  (∀ v, jsonb_eq v v = true) →
  (∀ pins, admission_check pins = None → admission_check (at_time now2 pins) = None) →
  plane_ok p → event_batch h project rel t schemas policy fresh a now p = Ret (Ok p') →
  executor_member h2 = true → is_Some policy2 → plane_ok p2 → evolves p' p2 →
  event_batch h2 project rel t schemas policy2 fresh2 a now2 p2 = Ret (Ok p2).
Proof.
  intros Hrefl Hchk Hok Hb Hex [pol ->] Hok2 Hev. unfold event_batch in Hb |- *. rewrite Hex.
  destruct (executor_member h); [|done]. cbn [negb] in Hb |- *.
  destruct (decode_source (ea_envelope a)) as [source|]; [|done].
  destruct ((ea_sequence a =? 0)%Z || _); [done|]. destruct (negb (bool_decide (event_source source = _))); [done|].
  destruct (match_rows _ _ _ _ _) as [[[|m ms]|]|]; [done| |done..]. cbn [try_bind run_bind] in Hb |- *.
  fold (batch_actor schemas source) in Hb |- *. destruct (batch_actor schemas source) as [actor|]; [|done].
  destruct policy as [pol0|]; [|done]. destruct (event_parent source) as [parent|]; [|done].
  destruct (admit_matches_inv rel (delivery_of a) actor parent Hrefl now (m :: ms) fresh p p' Hok Hb) as (Hev0 & Hall & _).
  eapply admit_matches_again; [exact Hchk|done|]. intros row input Hin.
  destruct (Hall row input Hin) as (b & b' & Hf & Ec & Hc & Hd). exists b, b'. split_and!; [done|done|exact Hc|].
  exact (delivered_evolves p' p2 _ _ _ (evolves_ok p p' Hok Hev0) Hev Hd).
Qed.

Context `{BindingWorlds, !WorkflowCatalog}.

(** C28. A redelivered event starts nothing.  After a batch committed, and whatever calls
    of the claim store and the workflow contract follow, the batch of the same delivery
    over the same release and workflows, by an executor whose environment policy is
    present, commits again and leaves the plane as it finds it (what refuses a row besides
    the table's constraints does not begin to refuse it later): every run it would start is there under its key. *)
Theorem redelivery_starts_nothing (h h2 : Host) (project : string) (rel : LoadedRelease) (t : Workflows_)
    (schemas : list (string → string → option HistoryModel)) (policy policy2 : option DurabilityClass)
    (fresh fresh2 : list string) (a : EventBatchAdmission) (now now2 : Z) (p p' p2 : Plane) :
  (∀ v, jsonb_eq v v = true) →
  (∀ pins, other_check pins = None → other_check (at_time now2 pins) = None) →
  plane_ok p → admit_event_batch h project rel t schemas policy fresh a now p = (p', Ret (Ok tt)) →
  rtc store_step p' p2 → executor_member h2 = true → is_Some policy2 →
  admit_event_batch h2 project rel t schemas policy2 fresh2 a now2 p2 = (p2, Ret (Ok tt)).
Proof.
  intros Hrefl Hother Hok Ha Hsteps Hex Hpol. pose proof (admission_at_time now2 Hother) as Hchk.
  unfold admit_event_batch in Ha.
  destruct (event_batch h project rel t schemas policy fresh a now p) as [[p1|]|] eqn:Hb; [|done..].
  injection Ha as ->. assert (Hok' : plane_ok p').
  { apply event_batch_inv in Hb as (source & _ & [[_ ->]|(ms & _ & _ & Hb)]); [done|].
    destruct (batch_effects rel schemas fresh a now source ms p p' Hrefl Hok Hb) as [Hev _]. by eapply evolves_ok. }
  destruct (store_steps_evolve p' p2 Hok' Hsteps) as [Hev Hok2]. unfold admit_event_batch.
  by rewrite (event_batch_again h h2 project rel t schemas policy policy2 fresh fresh2 a now now2 p p' p2).
Qed.

End Batch.

(** The rows the catalog keeps have readable triggers: the batch's reads neither panic
    nor refuse. *)
Lemma stored_trigger_decodes k r :
  workflow_check k r = None → wf_enabled r = true → wf_trigger r = "event" → ∃ e, trigger (k, r) = Ret (Ok e).
Proof.
  destruct k as [[[[env e] app] id] version]. unfold workflow_check. intros Hc Hen Htr. rewrite Htr in Hc.
  cbn [String.eqb] in Hc.
  repeat match type of Hc with (if ?b then Some _ else _) = None => destruct b eqn:?; [discriminate|] end.
  match goal with Hx : negb (if _ then event_columns_ok r else _) = false |- _ =>
    change (negb (event_columns_ok r) = false) in Hx; apply negb_false_iff in Hx; rename Hx into Hev end.
  unfold event_columns_ok in Hev. unfold trigger.
  destruct (wf_source_package r) as [sp|], (wf_entity r) as [en|], (wf_ops r) as [ops|]; try discriminate.
  rewrite !andb_true_iff in Hev. destruct Hev as [[[[_ Hops] _] _] Hseq]. rewrite Hen in Hseq.
  destruct (wf_enable_sequence r) as [n|]; [|discriminate]. cbn [expect run_bind].
  assert (Hd : ∃ l, mapM (λ op, decode_op (VString op)) ops = Some l).
  { apply mapM_is_Some. apply Forall_forall. intros op Hin. rewrite forallb_forall in Hops.
    apply list_elem_of_In, Hops, bool_decide_eq_true in Hin.
    rewrite !elem_of_cons, elem_of_nil in Hin. destruct Hin as [->|[->|[->|[]]]]; by eexists. }
  destruct Hd as [l ->]. replace (n <? 0)%Z with false by lia. by eexists.
Qed.

Lemma event_triggers_decode `{Collation, Boon, FloatText, Sha256, Jsonb} rel t : catalog_ok t → ∃ l, event_triggers rel t = Ret (Ok l).
Proof.
  intros Hok. unfold event_triggers.
  assert (Hall : ∀ row, row ∈ enabled_events_sql rel t → ∃ e, trigger row = Ret (Ok e)).
  { intros [k r] Hin. apply enabled_events_elem in Hin as [Hr He]. destruct k as [[[[env e] app] id] version].
    cbn [enabled_event] in He. rewrite !andb_true_iff, !String.eqb_eq in He. destruct He as [[_ Hen] Htr].
    by apply stored_trigger_decodes; [apply (co_checks t Hok)|..]. }
  assert (Hl : ∃ l, triggers_of (enabled_events_sql rel t) = Ret (Ok l)); [|by destruct Hl as [l ->]; exists l].
  induction (enabled_events_sql rel t) as [|row rows IH]; [by exists []|]. cbn [triggers_of].
  destruct (Hall row) as [e ->]; [left|]. destruct IH as [l ->]; [|by exists (e :: l)].
  intros row' Hin. apply Hall. by right.
Qed.

Module BatchSample.

Import AdmissionSample ManifestSample VersionSample.

#[local] Existing Instances EventSample.microseconds EventSample.no_members.
#[local] Instance bytewise : Collation := String.leb.
#[local] Instance canonical_equal : JsonbEq := λ v w, String.eqb (canonical_json_bytes v) (canonical_json_bytes w).
#[local] Instance no_checks : AdmissionChecks := λ _, None.
#[local] Instance any_world : BindingWorlds := Ok.
#[local] Instance one_catalog : WorkflowCatalog := {|
  graph := unit; manifest := unit; parse_graph := λ _, Ok tt; Workflows.from_canonical_bytes := λ _, Ok tt;
  Workflows.gate_workflow_document := λ _ _ _ _, Err ""; Workflows.resolve_workflow_components := λ _ _ _ _, Err "";
  workflow_user_id := "wf" |}.
#[local] Instance joined_text : JsonPrint := λ v,
  match v with VArray l => foldr (λ v s, default "" (as_str v) +:+ "," +:+ s) "" l | _ => "" end.

(** An order inserted by a run of depth two. *)
Definition inserted : Envelope := {|
  en_op := OpInsert; en_old := None; en_new := Some [("status", VString "open")];
  en_package_id := "orders"; en_entity := "order"; en_table := "orders"; en_lsn := 42; en_txid := 7;
  en_commit_ts := 0; en_causation := Some {| cause_run := "run-7"; cause_root := "run-1"; cause_depth := 2 |} |}.
#[local] Instance inserted_text : JsonText := λ s, if String.eqb s "inserted" then Some (envelope_value inserted) else None.

Definition served_release : LoadedRelease := {|
  lr_env_key := "acme--shop--dev"; lr_environment := "dev"; lr_applications := [("erp", ["orders"])];
  lr_manifest := ManifestSample.release; lr_digest := "sha256:0101010101010101010101010101010101010101010101010101010101010101" |}.
Definition executor : Host := {|
  env_key_for _ := Some "acme--shop--dev"; runner_for _ := Some "runner"; release_identity_for _ := None;
  executor_member := true |}.
Definition delivery (sequence : Z) : EventBatchAdmission := {|
  ea_source_package := "orders"; ea_entity := "order"; ea_envelope := "inserted"; ea_sequence := sequence;
  ea_source_event_id := "shop_dev:42" |}.
Definition deliver (sequence : Z) (fresh : list string) (now : Z) (p : Plane) :=
  admit_event_batch executor "shop" served_release three_on [] (Some Standard) fresh (delivery sequence) now p.
Definition delivered_plane : Plane := (deliver 50 ["run-8"] 100 empty_plane).1.

Lemma equal_refl v : jsonb_eq v v = true.
Proof. apply String.eqb_refl. Qed.

Definition sample_key : string := event_key "dev" "erp" "repost" "event:50:shop_dev:42".

(** The event past the enable boundary starts the workflow, at depth three; one at the
    boundary starts nothing. *)
Lemma event_batch_runs_witness :
  delivered delivered_plane "acme--shop--dev" sample_key (event_input inserted) ∧
  ((λ kr : key * RunRow, (kr.1.2, p_wiring_version (r_pins kr.2), p_event_depth (r_pins kr.2))) <$> map_to_list (runs delivered_plane))
    = [("run-8", Some 3, Some 3)]%Z ∧
  deliver 41 ["run-8"] 100 empty_plane = (empty_plane, Ret (Ok tt)).
Proof.
  assert (E : deliver 50 ["run-8"] 100 empty_plane = (delivered_plane, Ret (Ok tt))).
  { unfold delivered_plane. destruct (deliver 50 ["run-8"] 100 empty_plane) as [p1 out] eqn:E. f_equal.
    change out with (p1, out).2. rewrite <- E. vm_compute. reflexivity. }
  split; [|split; vm_compute; reflexivity].
  destruct (event_batch_runs executor "shop" served_release three_on [] (Some Standard) ["run-8"] (delivery 50) 100
              empty_plane delivered_plane (Ret (Ok tt)) equal_refl empty_plane_ok E) as (_ & _ & _ & Hout).
  destruct (Hout eq_refl) as (source & Hs & Hall & _).
  assert (Hs' : decode_source "inserted" = Some (Cdc inserted)) by (vm_compute; reflexivity).
  change (ea_envelope (delivery 50)) with "inserted" in Hs. rewrite Hs' in Hs. injection Hs as <-.
  set (w := version_key (version_of 3)).
  assert (Hr : match three_on !! w with Some r => enabled_event served_release (w, r) = true ∧
      trigger (w, r) = Ret (Ok {| tg_application := "erp"; tg_workflow_id := "repost"; tg_source_package := "orders";
        tg_entity := "order"; tg_ops := [OpInsert]; tg_condition := None; tg_enable_sequence := 41 |})
      | None => False end) by (vm_compute; split; reflexivity).
  destruct (three_on !! w) as [r|] eqn:Er; [|destruct Hr]. destruct Hr as [He Ht].
  destruct (Hall eq_refl w r Er He) as (e & Ht' & Hd). rewrite Ht in Ht'. injection Ht' as <-.
  apply Hd; [constructor; [reflexivity|reflexivity|left|left; reflexivity]|by apply verdict_none].
Defined.

Lemma redelivery_starts_nothing_witness :
  deliver 50 ["run-9"] 900 delivered_plane = (delivered_plane, Ret (Ok tt)).
Proof.
  assert (E : deliver 50 ["run-8"] 100 empty_plane = (delivered_plane, Ret (Ok tt))).
  { unfold delivered_plane. destruct (deliver 50 ["run-8"] 100 empty_plane) as [p1 out] eqn:E. f_equal.
    change out with (p1, out).2. rewrite <- E. vm_compute. reflexivity. }
  exact (redelivery_starts_nothing executor executor "shop" served_release three_on [] (Some Standard) (Some Standard)
           ["run-8"] ["run-9"] (delivery 50) 100 900 empty_plane delivered_plane delivered_plane equal_refl (λ _ H, H)
           empty_plane_ok E (rtc_refl _ _) eq_refl (ex_intro _ _ eq_refl)).
Defined.

End BatchSample.
