(* ===== verification/PlaneHistory.v ===== *)
(** * Everything that writes the run plane

    The calls of the run store ([store_step]) are not alone on the two tables: the
    event materializer of any replica admits batches ([admit_event_batch]), and the
    retention command ([prune], [crates/control/environment/src/prune_run_history])
    deletes finished runs.  [plane_step] has all of them; a queue turn is shown safe
    among them, and a run that stays in the table is shown to keep what it was
    admitted with. *)

From stdpp Require Import base tactics option list gmap strings relations.
From Stdlib Require Import ZArith Lia.
From S2P Require Import Prelude Text Json Canonical Router Walk Route RunStatus RunStore Queue RunPlane ClaimStore PlaneSpec.
From S2P Require Import ClaimRefines Workflows StoreProps WorkflowProps ClaimProps Authority Driver Executor Capabilities.
From S2P Require Import Packages ComponentFacts ComponentAdmission GatedRuns Lowering ServingManifests WiringDocuments.
From S2P Require Import WiringCompatibility WorkflowGate EventWire EventTriggers WiringParse WorkflowVersions EventBatch StoreSample.
Open Scope Z_scope.

(** ** A history with retention passes *)

Lemma evolves_history p p' : evolves p p' → history p p'.
Proof. apply rtc_subrel. intros ???. by left. Qed.

Lemma prunes_keeps p p' k r : prunes p p' → runs p' !! k = Some r → runs p !! k = Some r.
Proof. intros (gone & _ & Er & _). rewrite Er. by case_decide. Qed.

(** Retention never deletes a run that is not finished. *)
Lemma prunes_unfinished p p' k r :
  prunes p p' → runs p !! k = Some r → run_terminal (r_status r) = false → runs p' !! k = Some r.
Proof.
  intros (gone & Hg & Er & _) Hr Ht. rewrite Er. case_decide as Hin; [|done].
  destruct (Hg k Hin) as (r' & Hr' & Ht'). congruence.
Qed.

Section Steps.
Context `{Collation, Boon, FloatText, Sha256, JsonText, JsonMembers, InstantText, JsonPrint, Jmespath, PlatformTexts,
          Jsonb, AdmissionChecks, JsonbEq, BindingWorlds, !WorkflowCatalog}.

(** One write of the tables that deletes nothing. *)
Inductive live_step (p : Plane) : Plane → Prop :=
| ls_store p' : store_step p p' → live_step p p'
| ls_batch h project rel t schemas policy fresh a now :
    live_step p (admit_event_batch h project rel t schemas policy fresh a now p).1.

(** One write of the tables. *)
Inductive plane_step (p : Plane) : Plane → Prop :=
| ps_live p' : live_step p p' → plane_step p p'
| ps_prune env days now apply : plane_step p (prune env days now apply p).1.

(** A write after which the run of [k] is still in its table. *)
Definition step_keeping (k : key) (p p' : Plane) : Prop := plane_step p p' ∧ is_Some (runs p' !! k).

Hypothesis jsonb_refl : ∀ v, jsonb_eq v v = true.

Lemma live_step_evolves p p' : plane_ok p → live_step p p' → evolves p p'.
Proof.
  intros Hok [p1 Hs|h project rel t schemas policy fresh a now]; [by apply store_step_evolves|].
  destruct (admit_event_batch h project rel t schemas policy fresh a now p) as [p1 out] eqn:Ha.
  by destruct (event_batch_spec _ _ _ _ _ _ _ _ _ _ _ _ jsonb_refl Hok Ha) as (_ & Hev & _).
Qed.

Lemma plane_step_cases p p' : plane_ok p → plane_step p p' → evolves p p' ∨ prunes p p'.
Proof. intros Hok [p1 Hs|env days now ap]; [left; by apply live_step_evolves|right; by apply prune_prunes]. Qed.

Lemma plane_step_ok p p' : plane_ok p → plane_step p p' → history p p' ∧ plane_ok p'.
Proof.
  intros Hok Hs. destruct (plane_step_cases p p' Hok Hs) as [Hev|Hp].
  - split; [by apply evolves_history|by eapply evolves_ok].
  - split; [apply rtc_once; by right|by eapply prunes_ok].
Qed.

Lemma live_steps_evolve p p' : plane_ok p → rtc live_step p p' → evolves p p' ∧ plane_ok p'.
Proof.
  intros Hok Hs. revert Hok. induction Hs as [p|p p1 p' Hs _ IH]; intros Hok; [done|].
  pose proof (live_step_evolves _ _ Hok Hs) as He.
  destruct IH as [He' Hok']; [by eapply evolves_ok|]. split; [by etrans|done].
Qed.

Lemma plane_steps_history p p' : plane_ok p → rtc plane_step p p' → history p p' ∧ plane_ok p'.
Proof.
  intros Hok Hs. revert Hok. induction Hs as [p|p p1 p' Hs _ IH]; intros Hok; [done|].
  destruct (plane_step_ok _ _ Hok Hs) as [Hh Hok1].
  destruct (IH Hok1) as [Hh' Hok']. split; [by etrans|done].
Qed.

(** A run that stays in the table keeps the columns its admission froze. *)
Lemma kept_run_pins k p p' r : plane_ok p → rtc (step_keeping k) p p' → runs p !! k = Some r →
  plane_ok p' ∧ ∃ r', runs p' !! k = Some r' ∧ r_pins r' = r_pins r.
Proof.
  intros Hok Hs. revert r Hok. induction Hs as [p|p p1 p' [Hs [r1 Hr1]] _ IH]; intros r Hok Hr; [eauto|].
  destruct (plane_step_ok _ _ Hok Hs) as [_ Hok1]. destruct (IH r1 Hok1 Hr1) as (Hok' & r' & Hr' & Hp).
  split; [done|]. exists r'. split; [done|]. rewrite Hp.
  destruct (plane_step_cases _ _ Hok Hs) as [Hev|Hpr].
  - destruct (evolves_next _ _ _ _ Hok Hev Hr) as (r2 & Hr2 & [Hp2 _ _]). congruence.
  - apply (prunes_keeps _ _ _ _ Hpr) in Hr1. congruence.
Qed.

(** C7. A queue turn is safe among everything that writes the run plane.  However the
    turn ends (reap, claim, heartbeats, deadline report, completion or release), and
    whatever calls of the store, batches of events and retention passes fall between its
    own calls, it keeps the run-plane invariant and moves the plane only by the abstract
    transitions and by the deletion of finished runs; if no retention pass falls between,
    by the abstract transitions alone, so that no run that was there is lost, and none
    changes what it was admitted with. *)
Theorem executor_turn_safe (amb : Executor.Ambient) (h : Host) (scope : QueueScope) (ttl_ms : Z)
    (lookup : string → string → CallerLookup) (publish : DerivedPublishRequest → bool)
    (execute : WorkflowRunRequest → nat * result RouterDelivery (DriverError * list DeadlineAdjustment))
    (n : nat) (p p' : Plane) :
  plane_ok p → (∀ n p, rtc plane_step p (amb_others amb n p)) →
  p' = (drain_one amb h scope ttl_ms lookup publish execute (n, p)).1.2 →
  plane_ok p' ∧ history p p' ∧
  ((∀ n p, rtc live_step p (amb_others amb n p)) →
   evolves p p' ∧ ∀ k r, runs p !! k = Some r → ∃ r', runs p' !! k = Some r' ∧ r_pins r' = r_pins r).
Proof.
  intros Hok Hothers ->.
  destruct (plane_steps_history p (drain_one amb h scope ttl_ms lookup publish execute (n, p)).1.2) as [Hh Hok']; [done| |].
  { apply (drain_one_history amb h plane_step (λ p p' Hs, ps_live p p' (ls_store p p' Hs)) Hothers). }
  split_and!; [done..|]. intros Hlive.
  destruct (live_steps_evolve p (drain_one amb h scope ttl_ms lookup publish execute (n, p)).1.2) as [Hev _]; [done| |].
  { apply (drain_one_history amb h live_step ls_store Hlive). }
  split; [done|]. intros k r Hr. destruct (evolves_next _ _ _ _ Hok Hev Hr) as (r' & Hr' & [Hp _ _]). by exists r'.
Qed.

End Steps.

(** ** A turn among the writers *)

Module HistorySteps.

#[local] Existing Instances any_json bytewise no_floats length_digest any_world no_checks one_catalog.
#[local] Existing Instances EventSample.microseconds EventSample.no_members EventSample.body_text EventSample.opened.
#[local] Existing Instances AdmissionSample.schemas VersionSample.platform_texts ManifestSample.prints.
#[local] Instance canonical_equal : JsonbEq := λ v w, String.eqb (canonical_json_bytes v) (canonical_json_bytes w).

(** Before the reaper's call another host starts a run, before the claim a materializer
    admits a batch, and before every later call a retention pass runs. *)
Definition crowded : Executor.Ambient := {|
  amb_others n p := match n with
    | O => (transact (admit_manual_run host "tenant" (Some Standard) "run-3" "user" (binds "key-3" (VBool true)) 250) p).1
    | S O => (admit_event_batch host "shop" BatchSample.served_release ∅ [] (Some Standard) ["run-4"]
                (BatchSample.delivery 50) 260 p).1
    | _ => (prune "tenant" 7 (10 * us_per_day) true p).1
    end;
  amb_now n := 300 + Z.of_nat n; amb_at n := 300 + Z.of_nat n; amb_random _ := 0;
  amb_locked _ := none_locked; amb_grant_error _ := None |}.

Lemma crowded_steps n p : rtc plane_step p (amb_others crowded n p).
Proof.
  apply rtc_once. destruct n as [|[|n]]; [apply ps_live, ls_store, s_manual|apply ps_live, ls_batch|apply ps_prune].
Qed.

(** The crowded turn keeps the invariant; the one left alone, every run. *)
Lemma executor_turn_safe_witness :
  plane_ok (a_turn crowded (0%nat, two_runs)).1.2 ∧ evolves two_runs (a_turn quiet_ambient (0%nat, two_runs)).1.2.
Proof.
  assert (Hrefl : ∀ v, jsonb_eq v v = true) by (intros v; apply String.eqb_refl).
  split.
  - apply (executor_turn_safe Hrefl crowded host queue_scope 1000 (λ _ _, CallerFound clerk) (λ _, true) executed 0
      two_runs _ two_runs_ok crowded_steps eq_refl).
  - apply (executor_turn_safe Hrefl quiet_ambient host queue_scope 1000 (λ _ _, CallerFound clerk) (λ _, true) executed 0
      two_runs _ two_runs_ok (λ n p, rtc_refl _ p) eq_refl). intros n p. apply rtc_refl.
Defined.

End HistorySteps.
