(* ===== verification/RouteLimiter.v ===== *)
(** * The in-flight limit of HTTP routes

    [RouteInFlightLimit], [RouteLimiter] and [RoutePermit] of
    [crates/platform/engine/src/flow_http_routing.rs].  The limiter is the state
    behind its mutex, and a permit names the route it was granted for; dropping
    a permit is [finish].  [usize] is 64 bits wide on a host, additions wrap and
    the [expect]s of a drop are panics. *)

From stdpp Require Import base tactics option list gmap strings relations.
From Stdlib Require Import ZArith Lia.
From S2P Require Import Prelude Text.
#[local] Set Warnings "-clear-no-such-hyp".
Open Scope wamn_scope.

(** ** The limit *)

Definition DEFAULT_HTTP_ROUTE_IN_FLIGHT_LIMIT : Z := 64.
Definition HTTP_ROUTE_IN_FLIGHT_LIMIT_ENV : string := "WAMN_HTTP_ROUTE_IN_FLIGHT_LIMIT".

(** [RouteInFlightLimit], a [NonZeroUsize]. *)
Definition limit_from_str (value : string) : option Z :=
  match uint_text u64_max value with
  | Some n => if (n =? 0)%Z then None else Some n
  | None => None
  end.

(** What [std::env::var] answers. *)
Inductive EnvVar := EnvText (value : string) | EnvAbsent | EnvNotUnicode.

(** The limit [FlowHttpRouting::from_env] reads; [None] is [InvalidRouteInFlightLimit]. *)
Definition limit_from_env (env : string → EnvVar) : option Z :=
  match env HTTP_ROUTE_IN_FLIGHT_LIMIT_ENV with
  | EnvText value => limit_from_str value
  | EnvAbsent => Some DEFAULT_HTTP_ROUTE_IN_FLIGHT_LIMIT
  | EnvNotUnicode => None
  end.

(** ** The limiter *)

Record RouteState := { rs_in_flight : Z; rs_shed : Z }.  (* usize, u64 *)
Inductive LimitScope := RouteScope | BoxScope.
Record RouteLimiter := {
  lm_limit : Z;
  lm_scope : LimitScope;
  lm_routes : gmap string RouteState;
}.
Record RoutePermit := { pm_route : string }.

Definition new_limiter (limit : Z) (scope : LimitScope) : RouteLimiter :=
  {| lm_limit := limit; lm_scope := scope; lm_routes := ∅ |}.
Definition with_routes (routes : gmap string RouteState) (l : RouteLimiter) : RouteLimiter :=
  {| lm_limit := lm_limit l; lm_scope := lm_scope l; lm_routes := routes |}.

Definition route_in_flight (routes : gmap string RouteState) (route : string) : Z :=
  match routes !! route with Some state => rs_in_flight state | None => 0 end.

Definition counted (l : RouteLimiter) (route : string) : Z :=
  match lm_scope l with
  | RouteScope => route_in_flight (lm_routes l) route
  | BoxScope => map_fold (λ _ state sum, u64_add (rs_in_flight state) sum) 0%Z (lm_routes l)
  end.

Definition try_acquire (l : RouteLimiter) (route : string) : RouteLimiter * option RoutePermit :=
  let in_flight := counted l route in
  let state := default {| rs_in_flight := 0; rs_shed := 0 |} (lm_routes l !! route) in
  if (lm_limit l <=? in_flight)%Z
  then (with_routes (<[route := {| rs_in_flight := rs_in_flight state;
                                   rs_shed := Z.min (rs_shed state + 1) u64_max |}]> (lm_routes l)) l, None)
  else (with_routes (<[route := {| rs_in_flight := u64_add (rs_in_flight state) 1;
                                   rs_shed := rs_shed state |}]> (lm_routes l)) l,
        Some {| pm_route := route |}).

Definition finish (l : RouteLimiter) (route : string) : run RouteLimiter :=
  let! state := expect (lm_routes l !! route) "a route permit belongs to a recorded route" in
  let! in_flight := expect (if (rs_in_flight state =? 0)%Z then None else Some (rs_in_flight state - 1)%Z)
                      "a route permit releases exactly once" in
  Ret (with_routes (<[route := {| rs_in_flight := in_flight; rs_shed := rs_shed state |}]> (lm_routes l)) l).

(** [Drop for RoutePermit]. *)
Definition drop_permit (l : RouteLimiter) (p : RoutePermit) : run RouteLimiter := finish l (pm_route p).

Definition snapshot (l : RouteLimiter) (route : string) : option (Z * Z) :=
  (λ state, (rs_in_flight state, rs_shed state)) <$> lm_routes l !! route.

(** ** What callers do with it *)

(** The limiter and the permits its callers hold. *)
Inductive limiter_step : RouteLimiter * list RoutePermit → RouteLimiter * list RoutePermit → Prop :=
| step_acquire l held route l' p :
    try_acquire l route = (l', Some p) → limiter_step (l, held) (l', p :: held)
| step_shed l held route l' :
    try_acquire l route = (l', None) → limiter_step (l, held) (l', held)
| step_drop l before p after l' :
    drop_permit l p = Ret l' → limiter_step (l, before ++ p :: after) (l', before ++ after).

(** How many of the permits held a request for [route] is counted against. *)
Definition held_of (held : list RoutePermit) (route : string) : nat :=
  length (filter (λ p, pm_route p = route) held).
Definition occupied (scope : LimitScope) (held : list RoutePermit) (route : string) : Z :=
  Z.of_nat match scope with RouteScope => held_of held route | BoxScope => length held end.

(** ** Sums *)

Definition total (routes : gmap string RouteState) : Z :=
  map_fold (λ _ state sum, (rs_in_flight state + sum)%Z) 0%Z routes.

Lemma total_delete routes route : total routes = (route_in_flight routes route + total (delete route routes))%Z.
Proof.
  unfold route_in_flight. destruct (routes !! route) as [st|] eqn:E.
  - unfold total. rewrite <- (insert_delete_id _ _ _ E) at 1.
    rewrite map_fold_insert_L; [done|lia|apply lookup_delete_eq].
  - rewrite delete_id by done. lia.
Qed.

Lemma total_insert routes route st :
  total (<[route := st]> routes) = (total routes - route_in_flight routes route + rs_in_flight st)%Z.
Proof.
  rewrite (total_delete (<[route := st]> routes) route), (total_delete routes route).
  rewrite delete_insert_eq. unfold route_in_flight at 1. rewrite lookup_insert_eq. lia.
Qed.

Lemma sum_wraps routes : map_fold (λ _ state sum, u64_add (rs_in_flight state) sum) 0%Z routes =
  (total routes mod 18446744073709551616)%Z.
Proof.
  unfold total. apply (map_fold_weak_ind (λ w m, w = (map_fold (λ _ state sum, (rs_in_flight state + sum)%Z) 0%Z m
    mod 18446744073709551616)%Z)); [done|].
  intros k st m w E ->. rewrite map_fold_insert_L; [|lia|done].
  unfold u64_add. by rewrite Zplus_mod_idemp_r.
Qed.

(** ** The invariant *)

Record limiter_ok (l : RouteLimiter) (held : list RoutePermit) : Prop := {
  lk_routes : ∀ route, route_in_flight (lm_routes l) route = Z.of_nat (held_of held route);
  lk_total : total (lm_routes l) = Z.of_nat (length held);
  lk_bound : ∀ route, (occupied (lm_scope l) held route ≤ lm_limit l)%Z;
}.

Lemma held_cons p held route :
  held_of (p :: held) route = (if decide (pm_route p = route) then S (held_of held route) else held_of held route)%nat.
Proof. unfold held_of. rewrite filter_cons. by case_decide. Qed.
Lemma held_permutation held held' route : held ≡ₚ held' → held_of held route = held_of held' route.
Proof. intros H. unfold held_of. by rewrite H. Qed.
Lemma occupied_permutation scope held held' route : held ≡ₚ held' → occupied scope held route = occupied scope held' route.
Proof. intros H. unfold occupied. destruct scope; [by rewrite (held_permutation _ _ _ H)|by rewrite H]. Qed.

Lemma route_insert routes route st r :
  route_in_flight (<[route := st]> routes) r = if decide (route = r) then rs_in_flight st else route_in_flight routes r.
Proof. unfold route_in_flight. rewrite lookup_insert. by case_decide. Qed.

Lemma default_in_flight l route :
  rs_in_flight (default {| rs_in_flight := 0; rs_shed := 0 |} (lm_routes l !! route)) = route_in_flight (lm_routes l) route.
Proof. unfold route_in_flight. by destruct (lm_routes l !! route). Qed.

Section Bounded.
Context (limit : Z) (Hlimit : (0 < limit ≤ u64_max)%Z).

Lemma counted_occupied l held route : lm_limit l = limit → limiter_ok l held →
  counted l route = occupied (lm_scope l) held route.
Proof using Hlimit.
  intros El [Hr Ht Hb]. specialize (Hb route). unfold counted, occupied in *.
  destruct (lm_scope l); [done|]. rewrite sum_wraps, Ht.
  apply Z.mod_small. unfold u64_max in Hlimit. lia.
Qed.

Lemma held_length held route : (held_of held route ≤ length held)%nat.
Proof. unfold held_of. apply length_filter. Qed.

Lemma acquire_grants l held route : lm_limit l = limit → limiter_ok l held →
  (occupied (lm_scope l) held route < limit)%Z →
  ∃ l', try_acquire l route = (l', Some {| pm_route := route |}) ∧ lm_limit l' = limit ∧ lm_scope l' = lm_scope l ∧
    limiter_ok l' ({| pm_route := route |} :: held).
Proof using Hlimit.
  intros El Hok Hlt. pose proof (counted_occupied l held route El Hok) as Ec. destruct Hok as [Hr Ht Hb].
  unfold try_acquire. rewrite default_in_flight, Ec, El, Hr.
  destruct (Z.leb_spec limit (occupied (lm_scope l) held route)) as [?|_]; [lia|].
  assert (Hadd : u64_add (Z.of_nat (held_of held route)) 1 = Z.of_nat (S (held_of held route))).
  { unfold u64_add. rewrite Z.mod_small; [lia|]. pose proof (held_length held route).
    unfold occupied, u64_max in *. destruct (lm_scope l); lia. }
  rewrite Hadd. eexists. split; [done|]. split; [done|]. split; [done|]. split; simpl.
  - intros r. rewrite route_insert, held_cons. simpl. case_decide as E; [by rewrite E|apply Hr].
  - rewrite total_insert, Ht, Hr. simpl. lia.
  - intros r. specialize (Hb r). unfold occupied in *. rewrite El in *. destruct (lm_scope l); simpl.
    + rewrite held_cons. simpl. case_decide as E; [|lia]. rewrite <- E. lia.
    + lia.
Qed.

Lemma acquire_sheds l held route : lm_limit l = limit → limiter_ok l held →
  (limit ≤ occupied (lm_scope l) held route)%Z →
  ∃ l', try_acquire l route = (l', None) ∧ lm_limit l' = limit ∧ lm_scope l' = lm_scope l ∧ limiter_ok l' held ∧
    (∃ shed, snapshot l' route = Some (route_in_flight (lm_routes l) route, shed) ∧
       shed = Z.min (match snapshot l route with Some (_, n) => n | None => 0 end + 1) u64_max).
Proof using Hlimit.
  intros El Hok Hle. pose proof (counted_occupied l held route El Hok) as Ec. destruct Hok as [Hr Ht Hb].
  unfold try_acquire. rewrite default_in_flight, Ec, El.
  destruct (Z.leb_spec limit (occupied (lm_scope l) held route)) as [_|?]; [|lia].
  eexists. split; [done|]. split; [done|]. split; [done|]. split.
  - split; simpl.
    + intros r. rewrite route_insert. simpl. case_decide as E; [rewrite <- E|]; apply Hr.
    + rewrite total_insert. simpl. rewrite Ht. lia.
    + exact Hb.
  - eexists. unfold snapshot; simpl. rewrite lookup_insert_eq. simpl. split; [done|].
    by destruct (lm_routes l !! route).
Qed.

Lemma drop_releases l before p after : lm_limit l = limit → limiter_ok l (before ++ p :: after) →
  ∃ l', drop_permit l p = Ret l' ∧ lm_limit l' = limit ∧ lm_scope l' = lm_scope l ∧ limiter_ok l' (before ++ after).
Proof using Hlimit.
  intros El [Hr Ht Hb]. set (rest := before ++ after).
  assert (Hp : before ++ p :: after ≡ₚ p :: rest) by (unfold rest; by rewrite Permutation_middle).
  assert (Hr' : ∀ r, route_in_flight (lm_routes l) r = Z.of_nat (held_of (p :: rest) r)).
  { intros r. rewrite Hr. by rewrite (held_permutation _ _ r Hp). }
  rewrite (Permutation_length Hp) in Ht. simpl in Ht.
  pose proof (Hr' (pm_route p)) as Hin. rewrite held_cons, decide_True in Hin by done.
  unfold drop_permit, finish. unfold route_in_flight in Hin.
  destruct (lm_routes l !! pm_route p) as [st|] eqn:Est; [|lia]. simpl.
  destruct (Z.eqb_spec (rs_in_flight st) 0) as [?|_]; [lia|]. simpl.
  eexists. split; [done|]. split; [done|]. split; [done|]. split; simpl.
  - intros r. rewrite route_insert. simpl. specialize (Hr' r). rewrite held_cons in Hr'.
    case_decide as E; [|done]. rewrite <- E. lia.
  - rewrite total_insert. unfold route_in_flight. rewrite Est, Ht. simpl. lia.
  - intros r. specialize (Hb r). rewrite (occupied_permutation _ _ _ _ Hp) in Hb.
    unfold occupied in *. destruct (lm_scope l); simpl in *; [rewrite held_cons in Hb; case_decide; lia|lia].
Qed.

Lemma limiter_invariant scope l held : rtc limiter_step (new_limiter limit scope, []) (l, held) →
  lm_limit l = limit ∧ lm_scope l = scope ∧ limiter_ok l held.
Proof using Hlimit.
  intros Hrun. change (lm_limit (l, held).1 = limit ∧ lm_scope (l, held).1 = scope ∧ limiter_ok (l, held).1 (l, held).2).
  revert Hrun. generalize (l, held). clear l held. apply rtc_ind_r.
  - split; [done|]. split; [done|]. split; simpl.
    + intros r. unfold route_in_flight. by rewrite lookup_empty.
    + done.
    + intros r. unfold occupied. destruct scope; cbn; lia.
  - intros [l0 held0] [l held] _ Hyz. simpl.
    inversion Hyz as [? ? route ? p Ha|? ? route ? Ha|? before p after ? Hd]; subst; intros (El & Es & Hok).
    + destruct (Z.lt_ge_cases (occupied (lm_scope l0) held0 route) limit) as [Hlt|Hge].
      * destruct (acquire_grants _ _ _ El Hok Hlt) as (l' & E & El' & Es' & ?). rewrite E in Ha.
        injection Ha as <- <-. by rewrite El', Es'.
      * destruct (acquire_sheds _ _ _ El Hok Hge) as (l' & E & _). rewrite E in Ha. discriminate.
    + destruct (Z.lt_ge_cases (occupied (lm_scope l0) held route) limit) as [Hlt|Hge].
      * destruct (acquire_grants _ _ _ El Hok Hlt) as (l' & E & _). rewrite E in Ha. discriminate.
      * destruct (acquire_sheds _ _ _ El Hok Hge) as (l' & E & El' & Es' & ? & _). rewrite E in Ha.
        injection Ha as <-. by rewrite El', Es'.
    + destruct (drop_releases _ _ _ _ El Hok) as (l' & E & El' & Es' & ?). rewrite E in Hd. injection Hd as <-.
      by rewrite El', Es'.
Qed.

(** C25. Whatever callers acquire and drop, in any order, the limiter counts exactly
    the permits they hold: for each route the in-flight number is that of its
    permits, and no more are held than the limit, of each route or of all
    routes together as its scope says.  A request is granted a permit exactly
    when the permits counted for it are fewer than the limit, and the drop of
    any held permit releases its slot and never panics. *)
Theorem limiter_counts_permits (scope : LimitScope) (l : RouteLimiter) (held : list RoutePermit) :
  rtc limiter_step (new_limiter limit scope, []) (l, held) →
  (∀ route, route_in_flight (lm_routes l) route = Z.of_nat (held_of held route) ∧
     (occupied scope held route ≤ limit)%Z ∧
     match try_acquire l route with
     | (l', Some p) => p = {| pm_route := route |} ∧ (occupied scope held route < limit)%Z ∧
         limiter_ok l' (p :: held)
     | (l', None) => occupied scope held route = limit ∧ limiter_ok l' held ∧
         snapshot l' route = Some (route_in_flight (lm_routes l) route,
           Z.min (match snapshot l route with Some (_, shed) => shed | None => 0 end + 1) u64_max)
     end) ∧
  (∀ before p after, held = before ++ p :: after →
     ∃ l', drop_permit l p = Ret l' ∧ limiter_ok l' (before ++ after)).
Proof using Hlimit.
  intros Hrun. destruct (limiter_invariant _ _ _ Hrun) as (El & Es & Hok). split.
  - intros route. pose proof (lk_bound _ _ Hok route) as Hb. rewrite El, Es in Hb.
    split; [apply Hok|]. split; [done|].
    destruct (Z.lt_ge_cases (occupied (lm_scope l) held route) limit) as [Hlt|Hge].
    + destruct (acquire_grants _ _ _ El Hok Hlt) as (l' & -> & _ & _ & ?). by rewrite <- Es.
    + destruct (acquire_sheds _ _ _ El Hok Hge) as (l' & -> & _ & _ & ? & shed & -> & ->).
      rewrite Es in Hge. split; [lia|done].
  - intros before p after ->. destruct (drop_releases _ _ _ _ El Hok) as (l' & ? & _ & _ & ?). by exists l'.
Qed.

End Bounded.

(** ** A sample *)

Module LimiterSample.

Definition one_box : RouteLimiter := new_limiter 2 BoxScope.
Definition first : RouteLimiter := (try_acquire one_box "orders").1.
Definition second : RouteLimiter := (try_acquire first "stock").1.

Example third_is_shed : (try_acquire second "stock").2 = None ∧
  snapshot (try_acquire second "stock").1 "stock" = Some (1, 1)%Z.
Proof. vm_compute. done. Qed.
Example limit_texts : limit_from_str "64" = Some 64%Z ∧ limit_from_str "+8" = Some 8%Z ∧ limit_from_str "0" = None ∧
  limit_from_str "" = None ∧ limit_from_str "18446744073709551616" = None ∧ limit_from_env (λ _, EnvAbsent) = Some 64%Z.
Proof. vm_compute. done. Qed.

Lemma limiter_counts_permits_witness :
  rtc limiter_step (one_box, []) (second, [{| pm_route := "stock" |}; {| pm_route := "orders" |}]) ∧
  ∃ l', drop_permit second {| pm_route := "orders" |} = Ret l' ∧ limiter_ok l' [{| pm_route := "stock" |}].
Proof.
  assert (Hrun : rtc limiter_step (one_box, []) (second, [{| pm_route := "stock" |}; {| pm_route := "orders" |}])).
  { eapply rtc_l; [by apply (step_acquire one_box [] "orders" first)|].
    eapply rtc_l; [by apply (step_acquire first _ "stock" second)|]. apply rtc_refl. }
  split; [done|].
  assert (Hlimit : (0 < 2 ≤ u64_max)%Z) by (vm_compute; done).
  destruct (limiter_counts_permits 2 Hlimit BoxScope second _ Hrun) as [_ Hdrop].
  exact (Hdrop [{| pm_route := "stock" |}] {| pm_route := "orders" |} [] eq_refl).
Defined.

End LimiterSample.
