(* ===== verification/RouteSupply.v ===== *)
(** * The route supply of a host

    [crates/platform/engine/src/flow_http_routing.rs]: the routes of the loaded
    release that an HTTP request can select, the input schemas of their
    attachments, and the host a workload is bound to; with the served
    attachments of [crates/catalog/model/src/serving_manifest.rs] and
    [host_route.rs].

    The JSON Schema library is a parameter ([Boon], [BoonErrors]); tracing and
    metrics are left out. *)

From stdpp Require Import base tactics option list gmap strings.
From Stdlib Require Import ZArith Lia.
From S2P Require Import Prelude Text Json Canonical HttpText CanonicalForm Authority Driver LoggedCall.
From S2P Require Import ComponentFacts ServingManifests EventBatch RouteLimiter HttpAdapter.
#[local] Set Warnings "-clear-no-such-hyp".
Open Scope wamn_scope.

(** ** JSON access *)

Definition as_array (v : Value) : option (list Value) :=
  match v with VArray l => Some l | _ => None end.
Definition as_bool (v : Value) : option bool :=
  match v with VBool b => Some b | _ => None end.
(** [value["key"]]. *)
Definition at_key (k : string) (v : Value) : Value := default VNull (get k v).
Definition u32_of (z : Z) : option Z := in_range 0 u32_max z.
(** [value.as_array().is_some_and(|fields| fields.iter().any(|field| field == text))]. *)
Definition lists_text (v : Value) (text : string) : bool :=
  match v with VArray l => existsb (λ f, is_text f text) l | _ => false end.

(** A member name as a pointer token. *)
Definition escape_token (s : string) : string :=
  String.concat "" ((λ a, if N.eqb (Ascii.N_of_ascii a) 126 then "~0"
                          else if N.eqb (Ascii.N_of_ascii a) 47 then "~1" else String a "")
                    <$> String.list_ascii_of_string s).

(** ** Served attachments *)

Definition host_definition (a : HostAttachment) : Value :=
  VObject (map_from_iter
    [("id", VString (ha_id a)); ("type", VString "http");
     ("route", VObject [("host", VString "*"); ("method", VString (ha_method a)); ("path", VString (ha_path a))])]).
Definition host_auth_policy (a : HostAttachment) : Value :=
  VObject [("modes", VArray match hr_set (ha_route a) with
     | ApplicationSet => [VString PAT_AUTHENTICATION_MODE; VString SESSION_AUTHENTICATION_MODE]
     | ControlSet => [VString SESSION_AUTHENTICATION_MODE]
     end)].

Definition attachment_type (a : ServedAttachment) : AttachmentType :=
  match a with AuthoredAttachment a => at_type a | HostRouteAttachment _ => HttpAttachment end.
Definition served_definition (a : ServedAttachment) : Value :=
  match a with AuthoredAttachment a => at_definition a | HostRouteAttachment a => host_definition a end.
Definition served_auth_policy (a : ServedAttachment) : Value :=
  match a with AuthoredAttachment a => at_auth_policy a | HostRouteAttachment a => host_auth_policy a end.
Definition served_registered_operation (a : ServedAttachment) : option string :=
  match a with AuthoredAttachment a => at_registered_operation a | HostRouteAttachment a => registered_operation a end.

(** [HostRouteSet::attachments]: the entries of one set, by attachment id. *)
Definition set_attachments (set : HostRouteSet) : list HostAttachment :=
  stable_sort (λ a b, String.leb (ha_id a) (ha_id b)) (filter (λ a, hr_set (ha_route a) = set) ATTACHMENTS).
Definition every_served_attachment (m : ServingManifest) : list (string * ServedAttachment) :=
  (prod_map id AuthoredAttachment <$> sm_attachments m) ++
  (sm_host_routes m ≫= λ set, (λ a, (ha_id a, HostRouteAttachment a)) <$> set_attachments set).

Definition carries_http_route (t : AttachmentType) : bool :=
  match t with HttpAttachment | StudioAttachment => true | InternalAttachment => false end.

(** The operation kind of the route an attachment targets. *)
Definition route_type (m : ServingManifest) (a : ServedAttachment) : option OperationType :=
  match a with
  | AuthoredAttachment a => rt_type <$> manifest_route m (at_package_id a) (at_component a) (at_operation a)
  | HostRouteAttachment a => Some (hr_type (ha_route a))
  end.
Definition serves_read (m : ServingManifest) (a : ServedAttachment) : bool :=
  match route_type m a with Some t => is_read t | None => false end.

(** ** What a route definition carries *)

Record BandStart := { bs_field : string; bs_required : bool }.
Record ReadLimits := { rl_page_minimum : option Z; rl_page_maximum : option Z; rl_band_starts : list BandStart }.
Record RequestHashRule := {
  hr_excluded : list string;
  hr_lines : option RouteLineOrder;
  hr_spelling : list (string * CanonicalSpelling);
}.
Inductive EtagKind := EtagGet (revision : string) | EtagList (relations : list ServingRelation).
Record EtagInputs := { ei_release : string; ei_kind : EtagKind }.

(** [RouteDefinition] of the routing interface. *)
Record WireRoute := {
  wr_attachment_id : string;
  wr_host : string;
  wr_path : string;
  wr_method : string;
  wr_mappings : list Mapping;
  wr_body_limit : Z;
  wr_mapped_limit : Z;
  wr_cache_control : option string;
  wr_sealed_operation_id : option string;
  wr_idempotency_rule : option string;
  wr_request_hash_rule : option RequestHashRule;
  wr_etag_inputs : option EtagInputs;
  wr_operation_deadline_ms : Z;
  wr_read_limits : option ReadLimits;
}.

Definition ADAPTER_GOVERNED_BYTES : Z := u32_max.

Definition mapping_source (s : string) : option MappingSource :=
  if String.eqb s "body" then Some MapBody else if String.eqb s "path" then Some MapPath
  else if String.eqb s "query" then Some MapQuery else if String.eqb s "header" then Some MapHeader else None.
Definition cardinality_of (s : string) : option Cardinality :=
  if String.eqb s "one" then Some CardOne else if String.eqb s "many" then Some CardMany else None.

Definition input_mapping (value : Value) : option Mapping :=
  from ← (get "from" value ≫= as_str) ≫= mapping_source;
  name ← get "name" value ≫= as_str;
  to ← get "to" value ≫= as_str;
  optional ← match get "optional" value with Some o => as_bool o | None => Some false end;
  cardinality ← match get "cardinality" value with Some c => as_str c ≫= cardinality_of | None => Some CardOne end;
  Some {| mp_from := from; mp_name := name; mp_to := to; mp_optional := optional; mp_cardinality := cardinality |}.

Definition read_cache_control (t : OperationType) (policy : option AttachmentAuthPolicy) : option string :=
  let scope := match policy with Some PolicyNone => "public" | _ => "private" end in
  match t with
  | Get => Some (scope +:+ ", no-cache")
  | Query | Projection => Some (scope +:+ ", max-age=10, stale-while-revalidate=60")
  | Create | Update | Delete | Command | EventHandler => None
  end.

(** [BTreeSet::insert] into the ascending list of a set. *)
Fixpoint set_insert (x : string) (l : list string) : list string :=
  match l with
  | [] => [x]
  | y :: l' => match String.compare x y with Lt => x :: l | Eq => l | Gt => y :: set_insert x l' end
  end.

Definition band_starts (filter : Value) : list BandStart :=
  omap (λ '(field, schema),
          if lists_text (at_key "required" schema) "min"
          then Some {| bs_field := field; bs_required := lists_text (at_key "required" filter) field |} else None)
       (match at_key "properties" filter with VObject m => m | _ => [] end).

Definition read_limits (definition : Value) : ReadLimits :=
  let properties := at_key "properties" (at_key "items" (at_key "input-schema" definition)) in
  {| rl_page_minimum := as_u64 (at_key "minimum" (at_key "limit" properties)) ≫= u32_of;
     rl_page_maximum := as_u64 (at_key "maximum" (at_key "limit" properties)) ≫= u32_of;
     rl_band_starts := band_starts (at_key "filter" properties) |}.

Definition default_canonicalization : RouteCanonicalization := {| excluded := []; lines := None; spelling := [] |}.
Definition request_hash_rule (r : ServingRoute) : RequestHashRule :=
  let form := default default_canonicalization (rt_canonicalization r) in
  {| hr_excluded := set_insert "request_id" (excluded form); hr_lines := lines form; hr_spelling := spelling form |}.

Definition etag_inputs (release_digest : string) (r : ServingRoute) : option EtagInputs :=
  kind ← match rt_type r with
         | Get => EtagGet <$> rt_revision r
         | Query | Projection => match rt_reads r with [] => None | reads => Some (EtagList reads) end
         | _ => None
         end;
  Some {| ei_release := release_digest; ei_kind := kind |}.

Definition attachment_operation (m : ServingManifest) (a : ServedAttachment) : option ServingRoute :=
  match a with
  | AuthoredAttachment a => manifest_route m (at_package_id a) (at_component a) (at_operation a)
  | HostRouteAttachment _ => None
  end.

Definition body_limit (definition : Value) : option Z :=
  match get "raw-body-bytes" definition with
  | Some raw => (get "maximum" raw ≫= as_u64) ≫= u32_of
  | None => Some ADAPTER_GOVERNED_BYTES
  end.

Definition route_definition (m : ServingManifest) (id : string) (a : ServedAttachment) (release_digest : string) :
    option WireRoute :=
  let definition := served_definition a in
  route ← get "route" definition;
  limit ← body_limit definition;
  mappings ← match get "mappings" definition with
             | Some mappings => as_array mappings ≫= mapM input_mapping
             | None => Some []
             end;
  let operation := attachment_operation m a in
  let signs_files := match operation with
                     | Some r => signs_file_results m (rt_package_id r) (rt_component r) (rt_operation r)
                     | None => false
                     end in
  let read := r ← operation; if is_read (rt_type r) then Some r else None in
  let logged := r ← operation; if logs_intent (rt_type r) then Some r else None in
  let unsigned := if signs_files then None else operation in
  path ← get "path" route ≫= as_str;
  method ← get "method" route ≫= as_str;
  Some {| wr_attachment_id := id; wr_host := ""; wr_path := path; wr_method := method; wr_mappings := mappings;
          wr_body_limit := limit; wr_mapped_limit := ADAPTER_GOVERNED_BYTES;
          wr_cache_control := if signs_files then None
                              else route_type m a ≫= λ t,
                                     read_cache_control t (parse_attachment_auth_policy (served_auth_policy a));
          wr_sealed_operation_id := rt_operation <$> unsigned;
          wr_idempotency_rule := (λ r, default "request_id" (rt_idempotency r)) <$> logged;
          wr_request_hash_rule := request_hash_rule <$> logged;
          wr_etag_inputs := unsigned ≫= etag_inputs release_digest;
          wr_operation_deadline_ms := bounded_node_deadline_ms None;
          wr_read_limits := (λ _, read_limits definition) <$> read |}.

Definition matches_request (d : WireRoute) (method : string) : bool := eq_ignore_ascii_case (wr_method d) method.

Definition http_attachments (m : ServingManifest) : list (string * ServedAttachment) :=
  filter (λ '(_, a), carries_http_route (attachment_type a) = true) (every_served_attachment m).

Definition route_definitions (m : ServingManifest) (method release_digest : string) : list WireRoute :=
  filter (λ d, matches_request d method = true)
    (omap (λ '(id, a), route_definition m id a release_digest) (http_attachments m)).

(** Whether the release has a selectable route that admits a PAT, or a session. *)
Definition has_route_under (m : ServingManifest) (admits : AttachmentAuthPolicy → bool) : bool :=
  existsb (λ '(id, a), bool_decide (is_Some (route_definition m id a "")) &&
             match parse_attachment_auth_policy (served_auth_policy a) with Some p => admits p | None => false end)
    (http_attachments m).
Definition requires_pat_route_authentication (m : ServingManifest) : bool := has_route_under m allows_pat.
Definition requires_session_route_authentication (m : ServingManifest) : bool := has_route_under m allows_session.
