(* ===== verification/RouteAuthentication.v ===== *)
(** * Authentication of protected routes

    The credential of a request ([route_credential], [bearer_token],
    [session_cookie], [check_csrf] of
    [crates/platform/engine/src/flow_http_routing.rs]), the grants of a
    principal ([crates/platform/runtime/src/plugins/wamn_postgres/claims.rs])
    and the two authenticators of
    [crates/platform/runtime/src/plugins/route_authentication.rs].

    The session verifier, the identity and permission reads, the auth memory
    and the connection facts are the class [RouteAuthority], over a state [W]
    they share; HMAC-SHA256 is [Hmac].  A read that fails or times out answers
    [None].  Ids of principals and connections are their texts. *)

From stdpp Require Import base tactics option list gmap strings.
From Stdlib Require Import ZArith Lia.
From S2P Require Import Prelude Text Json Canonical HttpText Authority ComponentFacts ServingManifests HttpAdapter RouteSupply.
#[local] Set Warnings "-clear-no-such-hyp".
Open Scope wamn_scope.

(** ** Refusals *)

Definition unauthorized : AuthRejection := {| rj_status := 401; rj_code := "unauthorized" |}.
Definition signature_unauthorized : AuthRejection := {| rj_status := 401; rj_code := "" |}.
Definition authentication_unavailable : AuthRejection :=
  {| rj_status := 503; rj_code := "authentication-unavailable" |}.

(** ** The request *)

Record ReleaseScope := { rs_env_key : string; rs_environment : string }.
Record AuthenticationRequest := {
  aq_manifest : ServingManifest;
  aq_scope : ReleaseScope;
  aq_attachment_id : string;
  aq_attachment : ServedAttachment;
  aq_policy : AttachmentAuthPolicy;
  aq_headers : list Header;
  aq_body : string;
}.

(** The headers of one name, ASCII case aside. *)
Definition headers_named (name : string) (headers : list Header) : list Header :=
  filter (λ h, eq_ignore_ascii_case (hd_name h) name = true) headers.

(** [u8::is_ascii_whitespace]. *)
Definition is_ascii_whitespace (a : Ascii.ascii) : bool :=
  existsb (N.eqb (Ascii.N_of_ascii a)) [32; 9; 10; 12; 13]%N.

(** [str::split_ascii_whitespace]; [word] is the field being read, reversed pieces aside. *)
Fixpoint split_fields (word s : string) : list string :=
  let emit := if String.eqb word "" then [] else [word] in
  match s with
  | "" => emit
  | String a s => if is_ascii_whitespace a then emit ++ split_fields "" s
                  else split_fields (word +:+ String a "") s
  end.
Definition split_ascii_whitespace (s : string) : list string := split_fields "" s.

Definition bearer_token (headers : list Header) : option string :=
  match headers_named "authorization" headers with
  | [h] => match split_ascii_whitespace (hd_value h) with
           | [scheme; token] => if eq_ignore_ascii_case scheme "bearer" then Some token else None
           | _ => None
           end
  | _ => None
  end.
Definition required_bearer_token (headers : list Header) : result string AuthRejection :=
  ok_or (bearer_token headers) unauthorized.

Definition SESSION_COOKIE : string := "__Host-wamn-session".
Definition semicolon_char : Ascii.ascii := Ascii.ascii_of_N 59.

Definition cookie_value (pair : string) : option string :=
  match split_once equals_char pair with
  | Some (name, value) => if String.eqb (trim_text name) SESSION_COOKIE then Some (trim_text value) else None
  | None => None
  end.
Definition cookie_pairs (headers : list Header) : list string :=
  headers_named "cookie" headers ≫= λ h, split_char semicolon_char (hd_value h).
Definition session_cookie (headers : list Header) : result (option string) AuthRejection :=
  match omap cookie_value (cookie_pairs headers) with
  | [] => Ok None
  | [value] => Ok (Some value)
  | _ => Err unauthorized
  end.

Inductive RouteCredential :=
| SessionCredential (token : string) (csrf : option bool)
| PatCredential.

Definition PAT_TOKEN_PREFIX : string := "wamn_pat_".

(** The credential under a policy that is not a signature. *)
Definition presented_credential (rq : AuthenticationRequest) : result RouteCredential AuthRejection :=
  let policy := aq_policy rq in
  let? cookie := session_cookie (aq_headers rq) in
  let has_authorization := existsb (λ h, eq_ignore_ascii_case (hd_name h) "authorization") (aq_headers rq) in
  match cookie with
  | Some token =>
      if has_authorization then Err unauthorized
      else if allows_session policy
           then Ok (SessionCredential token (Some (negb (serves_read (aq_manifest rq) (aq_attachment rq)))))
           else Ok PatCredential
  | None =>
      if allows_session policy &&
         (negb (allows_pat policy) ||
          match bearer_token (aq_headers rq) with
          | Some token => negb (starts_with token PAT_TOKEN_PREFIX)
          | None => false
          end)
      then let? token := required_bearer_token (aq_headers rq) in Ok (SessionCredential token None)
      else Ok PatCredential
  end.

Definition route_credential (rq : AuthenticationRequest) : result RouteCredential AuthRejection :=
  match aq_policy rq with
  | PolicySignature _ _ => Err signature_unauthorized
  | _ => presented_credential rq
  end.

(** ** The double submit of a cookie session *)

Definition text_bytes (s : string) : list Z := (λ a, Z.of_N (Ascii.N_of_ascii a)) <$> String.list_ascii_of_string s.

(** [hex::encode]. *)
Definition hex_text (bytes : list Ascii.ascii) : string := foldr (λ b s, hex_byte b +:+ s) "" bytes.

(** The bytes in which two texts differ, folded into one. *)
Definition difference (left right : string) : Z :=
  foldl (λ d p, Z.lor d (Z.lxor p.1 p.2)) 0%Z (zip (text_bytes left) (text_bytes right)).

Definition check_csrf `{Sha256} (requires_csrf : bool) (claims_csrf : option string) (headers : list Header) :
    result unit AuthRejection :=
  let? claim := ok_or claims_csrf unauthorized in
  if negb requires_csrf then Ok tt
  else
    match headers_named CSRF_HEADER headers with
    | [h] =>
        let digest := hex_text (sha256 (hd_value h)) in
        if negb (String.length digest =? String.length claim)%nat || negb (difference digest claim =? 0)%Z
        then Err unauthorized else Ok tt
    | _ => Err unauthorized
    end.

(** ** The grants of a principal *)

Definition ADMIN_ROLE : string := "admin".

Record PrincipalGrants := {
  pg_present : bool;
  pg_active : bool;
  pg_user : option bool;
  pg_roles : gmap string (gset string);
}.
Record HeldOperationGrants := {
  hg_admin : bool;
  hg_user : bool;
  hg_references : gset string;
  hg_roles : gset string;
}.

(** One role of the loop of [held_grants]. *)
Definition hold_role (held : HeldOperationGrants) (role : string) (permissions : gset string) : HeldOperationGrants :=
  {| hg_admin := hg_admin held || String.eqb role ADMIN_ROLE; hg_user := hg_user held;
     hg_references := hg_references held ∪ permissions; hg_roles := hg_roles held ∪ {[role]} |}.

Definition held_grants (grants : PrincipalGrants) (signed : option (list string)) : HeldOperationGrants :=
  let held := {| hg_admin := false; hg_user := bool_decide (pg_user grants = Some true);
                 hg_references := ∅; hg_roles := ∅ |} in
  if negb (pg_active grants) || bool_decide (pg_user grants = None) then held
  else foldl (λ held '(role, permissions),
                if match signed with Some signed => negb (bool_decide (role ∈ signed)) | None => false end then held
                else hold_role held role permissions)
         held (map_to_list (pg_roles grants)).

(** [SessionGrantRefusal]. *)
Inductive SessionGrantRefusal := NotActiveUser | RoleNotHeld.

Definition session_grants (grants : PrincipalGrants) (roles : list string) :
    result HeldOperationGrants SessionGrantRefusal :=
  if negb (pg_active grants) || negb (bool_decide (pg_user grants = Some true)) then Err NotActiveUser
  else if negb (forallb (λ role, bool_decide (is_Some (pg_roles grants !! role))) roles) then Err RoleNotHeld
  else Ok (held_grants grants (Some roles)).

Definition pat_role (held : HeldOperationGrants) : option string :=
  if hg_admin held then Some ADMIN_ROLE
  else match elements (hg_roles held) with [role] => Some role | _ => None end.
Definition held_active_role (held : HeldOperationGrants) : option string :=
  if hg_user held then pat_role held else None.

(** ** The caller of a queued run *)

(** A row of [QUEUED_RUN_CALLER_SQL]: the user, its type, a role, a permission. *)
Record CallerRow := {
  cw_id : string;
  cw_type : string;
  cw_role : option string;
  cw_permission : option string;
}.

Definition hold_row (held : gmap string (gset string)) (row : CallerRow) : gmap string (gset string) :=
  match cw_role row with
  | Some role => <[role := default ∅ (held !! role) ∪ match cw_permission row with Some p => {[p]} | None => ∅ end]> held
  | None => held
  end.
Definition held_roles (rows : list CallerRow) : gmap string (gset string) := foldl hold_row ∅ rows.

Definition role_caller (principal role : string) (held : gmap string (gset string)) : option AuthenticatedCaller :=
  permissions ← held !! role;
  Some {| Authority.attachment_id := "workflow"; principal_id := principal; credential_type := QueuedService;
          admin := String.eqb role ADMIN_ROLE; permissions := permissions; active_role := Some role |}.

(** [queued_run_caller] over the rows read; the error is the text of the refusal. *)
Definition queued_run_caller (rows : list CallerRow) (role : option string) : result AuthenticatedCaller string :=
  match rows with
  | [] => Err "queued principal is absent or inactive"
  | first :: _ =>
      let held := held_roles rows in
      match role with
      | Some role => ok_or (role_caller (cw_id first) role held) "queued principal does not hold the run's role"
      | None =>
          if String.eqb (cw_type first) "service"
          then Ok {| Authority.attachment_id := "automation"; principal_id := cw_id first; credential_type := QueuedService;
                     admin := bool_decide (is_Some (held !! ADMIN_ROLE));
                     permissions := ⋃ (map_to_list held).*2; active_role := None |}
          else Err "queued service principal is absent or inactive"
      end
  end.

(** ** What the authenticators read *)

Record SessionClaims := { sn_sub : string; sn_roles : list string; sn_csrf : option string }.
Inductive PrincipalType := PlatformPrincipal | ServicePrincipal | UserPrincipal.
Record Principal := { pl_id : string; pl_type : PrincipalType; pl_subject : string }.
Inductive ConnectionStatus := ConnectionActive | ConnectionDisabled.
#[export] Instance ConnectionStatus_eq_dec : EqDecision ConnectionStatus.
Proof. solve_decision. Defined.
Record ConnectionFact := {
  cf_active_generation : Z;
  cf_status : ConnectionStatus;
  cf_credential_id : option string;
  cf_service_principal_id : string;
  cf_exclusive : bool;
  cf_target_id : string;
  cf_resource_key : option string;
  cf_target_type : string;
}.

Class Hmac := hmac_sha256 : string → string → list Ascii.ascii.

Class RouteAuthority (W : Type) := {
  VerifiedSession : Type;
  claims : VerifiedSession → SessionClaims;
  verify : string → W → W * option VerifiedSession;
  check_admission : VerifiedSession → W → bool;
  session_is_active : SessionClaims → string → string → W → W * option bool;
  control_session_is_active : SessionClaims → W → W * option bool;
  (* the permission reads of the project *)
  principal_grants : string → string → string → W → W * option PrincipalGrants;
  (* [PreparedIdentityReads::authenticate_route_pat]: no answer, or the principal admitted *)
  authenticate_route_pat : string → string → string → string → list string → W → W * option (option Principal);
  (* the auth memory *)
  session_active : string → W → bool;
  cached_pat : string → W → option Principal;
  identity_ticket : W → Z;
  keep_session_active : Z → string → string → W → W;
  keep_pat : Z → string → Principal → W → W;
  (* the connections of the environment *)
  connection_name : string → W → option string;
  env_connections : W → W * option (gmap string string);
  connection : string → W → W * option (option ConnectionFact);
  secret : string → W → W * option string;
  (* the texts of ids *)
  parse_principal : string → option string;
  parse_uuid : string → option string;
}.

(** A step of an authenticator: the state, and a value or the refusal. *)
Definition auth (W A : Type) : Type := W → W * result A AuthRejection.
Definition auth_bind {W A B} (m : auth W A) (k : A → auth W B) : auth W B :=
  λ w, match m w with (w', Ok a) => k a w' | (w', Err e) => (w', Err e) end.
Definition auth_ret {W A} (a : A) : auth W A := λ w, (w, Ok a).
Definition auth_of {W A} (r : result A AuthRejection) : auth W A := λ w, (w, r).
(** A read, whose failure is [e]. *)
Definition auth_read {W A} (e : AuthRejection) (m : W → W * option A) : auth W A :=
  λ w, let '(w', r) := m w in (w', ok_or r e).
Declare Scope auth_scope.
Delimit Scope auth_scope with auth.
Notation "x <-- m ;; k" := (auth_bind m (λ x, k)) (at level 100, m at next level, k at level 200, right associativity) : auth_scope.
#[local] Open Scope auth_scope.

Section Authenticators.
Context {W : Type} `{!RouteAuthority W, !Sha256, !Hmac, !JsonText}.

(** ** Signatures *)

(** [hex::decode] of lower-case digits. *)
Fixpoint hex_decode (s : string) : option (list Ascii.ascii) :=
  match s with
  | "" => Some []
  | String a (String b s) =>
      hi ← hex a; lo ← hex b; rest ← hex_decode s;
      Some (Ascii.ascii_of_N (hi * 16 + lo) :: rest)
  | String _ "" => None
  end.

(** [SignatureSecret]: the algorithm and the secret. *)
Definition decode_secret (v : Value) : option (string * string) :=
  match struct_fields [("hmac", false)] v with
  | Some [Some hmac] =>
      match struct_fields [("algorithm", false); ("secret", false)] hmac with
      | Some [Some (VString algorithm); Some (VString key)] => Some (algorithm, key)
      | _ => None
      end
  | _ => None
  end.

Definition is_signature_digit (a : Ascii.ascii) : bool := is_ascii_digit a || byte_between 97 102 a.

(** The signature one header presents, as bytes. *)
Definition presented_signature (header : string) (headers : list Header) : option (list Ascii.ascii) :=
  match headers_named header headers with
  | [h] =>
      signature ← strip_prefix "sha256=" (hd_value h);
      if (String.length signature =? 64)%nat && all_bytes is_signature_digit signature
      then hex_decode signature else None
  | _ => None
  end.

Record RouteAuthenticationConfig := { rc_org : string; rc_project : string; rc_expected_subject : string }.
Record PlatformRouteAuthenticator := {
  pa_authentication : option RouteAuthenticationConfig;
  pa_session_authentication : option string;  (* the project *)
  pa_signature_authentication : option string;  (* the project *)
}.

Definition authenticate_signature (pa : PlatformRouteAuthenticator) (header credential : string) (headers : list Header)
    (body : string) : auth W string :=
  let refuse := signature_unauthorized in
  signature <-- auth_of (ok_or (presented_signature header headers) refuse) ;;
  _ <-- auth_of (ok_or (pa_signature_authentication pa) refuse) ;;
  name <-- (λ w, (w, ok_or (connection_name credential w) refuse)) ;;
  connections <-- auth_read refuse env_connections ;;
  id <-- auth_of (ok_or (connections !! name) refuse) ;;
  found <-- auth_read refuse (connection id) ;;
  fact <-- auth_of (ok_or (fact ← found; if decide (cf_status fact = ConnectionActive) then Some fact else None) refuse) ;;
  credential <-- auth_of (ok_or (cf_credential_id fact) refuse) ;;
  text <-- auth_read refuse (secret credential) ;;
  hmac <-- auth_of (ok_or (parse_json text ≫= decode_secret) refuse) ;;
  if negb (String.eqb hmac.1 "sha256") then auth_of (Err refuse)
  else if bool_decide (hmac_sha256 hmac.2 body = signature) then auth_ret (cf_service_principal_id fact)
  else auth_of (Err refuse).

(** ** Grants *)

Definition session_operation_permissions (project env_key : string) (roles : list string) (principal : string) :
    auth W HeldOperationGrants :=
  grants <-- auth_read authentication_unavailable (principal_grants project env_key principal) ;;
  match session_grants grants roles with
  | Ok held => auth_ret held
  | Err _ => auth_of (Err unauthorized)
  end.

Definition user_operation_permissions (project env_key principal : string) : auth W HeldOperationGrants :=
  grants <-- auth_read authentication_unavailable (principal_grants project env_key principal) ;;
  auth_ret (held_grants grants None).

Definition caller_with (attachment_id principal : string) (t : CredentialType) (held : HeldOperationGrants)
    (role : option string) : AuthenticatedCaller :=
  {| Authority.attachment_id := attachment_id; principal_id := principal; credential_type := t;
     admin := hg_admin held; permissions := hg_references held; active_role := role |}.

(** ** Sessions *)

(** [if session.check_admission().is_err() { verifier.verify(token) }]. *)
Definition admit_again (session : VerifiedSession) (token : string) : auth W unit :=
  λ w, if check_admission session w then (w, Ok tt)
       else let '(w', again) := verify token w in (w', match again with Some _ => Ok tt | None => Err unauthorized end).

(** The login behind the token, from the memory or the identity reader. *)
Definition require_active (token project environment : string) (c : SessionClaims) : auth W unit :=
  λ w, if session_active token w then (w, Ok tt)
       else
         let ticket := identity_ticket w in
         match session_is_active c project environment w with
         | (w', None) => (w', Err authentication_unavailable)
         | (w', Some false) => (w', Err unauthorized)
         | (w', Some true) => (keep_session_active ticket token (sn_sub c) w', Ok tt)
         end.

Definition authenticate_session (pa : PlatformRouteAuthenticator) (attachment_id token : string)
    (cookie_headers : option (list Header * bool)) (env_key environment : string) : auth W AuthenticatedCaller :=
  project <-- auth_of (ok_or (pa_session_authentication pa) unauthorized) ;;
  session <-- auth_read unauthorized (verify token) ;;
  let c := claims session in
  _ <-- auth_of (match cookie_headers with
                 | Some (headers, requires_csrf) => check_csrf requires_csrf (sn_csrf c) headers
                 | None => Ok tt
                 end) ;;
  principal <-- auth_of (ok_or (parse_principal (sn_sub c)) unauthorized) ;;
  held <-- session_operation_permissions project env_key (sn_roles c) principal ;;
  _ <-- require_active token project environment c ;;
  _ <-- admit_again session token ;;
  auth_ret (caller_with attachment_id (sn_sub c) Authority.Session held (held_active_role held)).

(** ** Platform access tokens *)

(** Who may present the token: no platform principal, a user, the expected
    service, or the service of an active connection. *)
Definition admit_principal (pa : PlatformRouteAuthenticator) (expected : string) (p : Principal) : auth W unit :=
  match pl_type p with
  | PlatformPrincipal => auth_of (Err unauthorized)
  | UserPrincipal => auth_ret tt
  | ServicePrincipal =>
      match strip_prefix "connection-" (pl_subject p) with
      | Some id =>
          id <-- auth_of (ok_or (parse_uuid id) unauthorized) ;;
          _ <-- auth_of (ok_or (pa_signature_authentication pa) unauthorized) ;;
          found <-- auth_read authentication_unavailable (connection id) ;;
          if match found with
             | Some fact => bool_decide (cf_status fact = ConnectionActive) &&
                            String.eqb (cf_service_principal_id fact) (pl_id p)
             | None => false
             end then auth_ret tt else auth_of (Err unauthorized)
      | None => if String.eqb (pl_subject p) expected then auth_ret tt else auth_of (Err unauthorized)
      end
  end.

Definition pat_principal (c : RouteAuthenticationConfig) (token environment : string) : auth W Principal :=
  λ w, match cached_pat token w with
       | Some p => (w, Ok p)
       | None =>
           let ticket := identity_ticket w in
           match authenticate_route_pat token (rc_org c) (rc_project c) environment [ADMIN_ROLE] w with
           | (w', None) => (w', Err authentication_unavailable)
           | (w', Some None) => (w', Err unauthorized)
           | (w', Some (Some p)) => (keep_pat ticket token p w', Ok p)
           end
       end.

Definition authenticate_pat (pa : PlatformRouteAuthenticator) (rq : AuthenticationRequest) : auth W AuthenticatedCaller :=
  c <-- auth_of (ok_or (pa_authentication pa) authentication_unavailable) ;;
  token <-- auth_of (required_bearer_token (aq_headers rq)) ;;
  p <-- pat_principal c token (rs_environment (aq_scope rq)) ;;
  _ <-- admit_principal pa (rc_expected_subject c) p ;;
  held <-- user_operation_permissions (rc_project c) (rs_env_key (aq_scope rq)) (pl_id p) ;;
  auth_ret (caller_with (aq_attachment_id rq) (pl_id p) Authority.Pat held (pat_role held)).

(** ** [PlatformRouteAuthenticator] *)

Definition authenticate_connection (pa : PlatformRouteAuthenticator) (rq : AuthenticationRequest)
    (header credential : string) : auth W AuthenticatedCaller :=
  service <-- authenticate_signature pa header credential (aq_headers rq) (aq_body rq) ;;
  project <-- auth_of (ok_or (pa_signature_authentication pa) signature_unauthorized) ;;
  principal <-- auth_of (ok_or (parse_principal service) signature_unauthorized) ;;
  _ <-- auth_of (ok_or (pa_authentication pa) authentication_unavailable) ;;
  grants <-- auth_read authentication_unavailable (principal_grants project (rs_env_key (aq_scope rq)) principal) ;;
  if negb (pg_active grants) || negb (bool_decide (pg_user grants = Some false)) then auth_of (Err signature_unauthorized)
  else
    held <-- user_operation_permissions project (rs_env_key (aq_scope rq)) principal ;;
    auth_ret (caller_with (aq_attachment_id rq) service Authority.Connection held None).

Definition platform_authenticate (pa : PlatformRouteAuthenticator) (rq : AuthenticationRequest) :
    auth W (option AuthenticatedCaller) :=
  match aq_policy rq with
  | PolicySignature header credential =>
      caller <-- authenticate_connection pa rq header credential ;; auth_ret (Some caller)
  | _ =>
      credential <-- auth_of (route_credential rq) ;;
      match credential with
      | SessionCredential token csrf =>
          caller <-- authenticate_session pa (aq_attachment_id rq) token
                       ((λ required, (aq_headers rq, required)) <$> csrf)
                       (rs_env_key (aq_scope rq)) (rs_environment (aq_scope rq)) ;;
          auth_ret (Some caller)
      | PatCredential => caller <-- authenticate_pat pa rq ;; auth_ret (Some caller)
      end
  end.

(** ** [ControlRouteAuthenticator] *)

Definition control_authenticate (rq : AuthenticationRequest) : auth W (option AuthenticatedCaller) :=
  credential <-- auth_of (route_credential rq) ;;
  match credential with
  | PatCredential => auth_of (Err unauthorized)
  | SessionCredential token csrf =>
      session <-- auth_read unauthorized (verify token) ;;
      let c := claims session in
      _ <-- auth_of (match csrf with
                     | Some requires_csrf => check_csrf requires_csrf (sn_csrf c) (aq_headers rq)
                     | None => Ok tt
                     end) ;;
      active <-- auth_read authentication_unavailable (control_session_is_active c) ;;
      if negb active then auth_of (Err unauthorized)
      else
        _ <-- admit_again session token ;;
        auth_ret (Some {| Authority.attachment_id := aq_attachment_id rq; principal_id := sn_sub c;
                          credential_type := Authority.Session; admin := false; permissions := ∅; active_role := None |})
  end.

End Authenticators.

(** ** The fold compares texts *)

Lemma lor_zero a b : (0 ≤ a)%Z → (0 ≤ b)%Z → Z.lor a b = 0%Z ↔ a = 0%Z ∧ b = 0%Z.
Proof. intros _ _. apply Z.lor_eq_0_iff. Qed.

Lemma difference_acc pairs : ∀ d : Z,
  foldl (λ d p, Z.lor d (Z.lxor p.1 p.2)) d pairs = 0%Z ↔ d = 0%Z ∧ Forall (λ p : Z * Z, p.1 = p.2) pairs.
Proof.
  induction pairs as [|p pairs IH]; intros d; simpl; [by intuition constructor|].
  rewrite IH, Z.lor_eq_0_iff, Z.lxor_eq_0_iff, Forall_cons. tauto.
Qed.

Lemma zip_all_eq (l r : list Z) : length l = length r → Forall (λ p : Z * Z, p.1 = p.2) (zip l r) → l = r.
Proof.
  revert r. induction l as [|x l IH]; intros [|y r] Hlen; simpl in *; try done.
  intros [E H]%Forall_cons. simpl in E. subst. f_equal. apply IH; [lia|done].
Qed.

Lemma text_bytes_inj l r : text_bytes l = text_bytes r → l = r.
Proof.
  unfold text_bytes. intros H%list_fmap_eq_inj; [|intros a b E%N2Z.inj; by apply (f_equal Ascii.ascii_of_N) in E; rewrite !Ascii.ascii_N_embedding in E].
  rewrite <- (String.string_of_list_ascii_of_string l), <- (String.string_of_list_ascii_of_string r). by rewrite H.
Qed.

Lemma text_bytes_length s : length (text_bytes s) = String.length s.
Proof. unfold text_bytes. rewrite length_fmap. induction s; simpl; by f_equal. Qed.

Lemma difference_equal l r :
  negb (String.length l =? String.length r)%nat || negb (difference l r =? 0)%Z = false ↔ l = r.
Proof.
  rewrite orb_false_iff, !negb_false_iff, Nat.eqb_eq, Z.eqb_eq. unfold difference. rewrite difference_acc.
  split.
  - intros [Hlen [_ H]]. apply text_bytes_inj, zip_all_eq; [by rewrite !text_bytes_length|done].
  - intros ->. split; [done|]. split; [done|]. generalize (text_bytes r). intros b. induction b; simpl; by constructor.
Qed.

Section Facts.
Context {W : Type} `{!RouteAuthority W, !Sha256, !Hmac, !JsonText}.

(** A cookie session passes exactly when its token carries the claim and, on a
    route that requires it, one CSRF header hashes to the claim. *)
Lemma check_csrf_ok requires_csrf claims_csrf headers :
  check_csrf requires_csrf claims_csrf headers = Ok tt ↔
  ∃ claim, claims_csrf = Some claim ∧
    (requires_csrf = false ∨ ∃ h, headers_named CSRF_HEADER headers = [h] ∧ hex_text (sha256 (hd_value h)) = claim).
Proof.
  unfold check_csrf. destruct claims_csrf as [claim|]; simpl; [|split; [done|naive_solver]].
  destruct requires_csrf; simpl; [|by split; [exists claim; auto|]].
  destruct (headers_named CSRF_HEADER headers) as [|h [|h' hs]] eqn:E; simpl.
  - split; [done|]. intros (c & _ & [?|(h & ? & _)]); done.
  - destruct (_ || _) eqn:Ed.
    + split; [done|]. intros (c & [= <-] & [?|(h1 & [= <-] & Eh)]); [done|].
      by apply difference_equal in Eh; rewrite Eh in Ed.
    + apply difference_equal in Ed. split; [|done]. intros _. exists claim. split; [done|]. right. by exists h.
  - split; [done|]. intros (c & _ & [?|(h1 & ? & _)]); done.
Qed.

(** *** The credential of a request *)

Definition carries (name : string) (headers : list Header) : bool :=
  existsb (λ h, eq_ignore_ascii_case (hd_name h) name) headers.

Lemma bearer_carries headers token : bearer_token headers = Some token → carries "authorization" headers = true.
Proof.
  unfold bearer_token, headers_named, carries. intros Hb. apply existsb_exists.
  destruct (filter _ headers) as [|h hs] eqn:E; [done|].
  assert (Hin : h ∈ filter (λ h, eq_ignore_ascii_case (hd_name h) "authorization" = true) headers)
    by (rewrite E; apply elem_of_cons; by left).
  apply list_elem_of_filter in Hin as [? ?]. exists h. split; [by apply list_elem_of_In|done].
Qed.

(** Where the token of a session came from. *)
Inductive session_presented (rq : AuthenticationRequest) (token : string) : option bool → Prop :=
| presented_cookie : session_cookie (aq_headers rq) = Ok (Some token) → carries "authorization" (aq_headers rq) = false →
    session_presented rq token (Some (negb (serves_read (aq_manifest rq) (aq_attachment rq))))
| presented_bearer : bearer_token (aq_headers rq) = Some token → session_cookie (aq_headers rq) = Ok None →
    (allows_pat (aq_policy rq) = true → starts_with token PAT_TOKEN_PREFIX = false) → session_presented rq token None.

Lemma route_credential_session rq token csrf : route_credential rq = Ok (SessionCredential token csrf) →
  allows_session (aq_policy rq) = true ∧ session_presented rq token csrf.
Proof.
  intros Hr. assert (Hb : presented_credential rq = Ok (SessionCredential token csrf))
    by (unfold route_credential in Hr; by destruct (aq_policy rq)).
  clear Hr. unfold presented_credential in Hb. fold (carries "authorization" (aq_headers rq)) in Hb.
  destruct (session_cookie (aq_headers rq)) as [cookie|e] eqn:Ec; [simpl in Hb|done].
  destruct cookie as [t|].
  - destruct (carries _ _) eqn:Ea; [done|]. destruct (allows_session (aq_policy rq)); [|done].
    injection Hb as <- <-. split; [done|]. by constructor.
  - destruct (allows_session (aq_policy rq)); [simpl in Hb|done].
    unfold required_bearer_token in Hb. destruct (bearer_token (aq_headers rq)) as [t|] eqn:Et; simpl in Hb.
    + destruct (negb (allows_pat (aq_policy rq)) || negb (starts_with t PAT_TOKEN_PREFIX)) eqn:Ep; [|done].
      injection Hb as <- <-. split; [done|]. constructor; [done|done|]. intros Hp. rewrite Hp in Ep. by destruct (starts_with _ _).
    + by destruct (negb _ || false).
Qed.

Lemma route_credential_pat rq token : route_credential rq = Ok PatCredential → bearer_token (aq_headers rq) = Some token →
  aq_policy rq ≠ PolicyNone → allows_pat (aq_policy rq) = true ∧ session_cookie (aq_headers rq) = Ok None ∧
    (allows_session (aq_policy rq) = true → starts_with token PAT_TOKEN_PREFIX = true).
Proof.
  intros Hr Ht Hnone. pose proof (bearer_carries _ _ Ht) as Hc. unfold route_credential, presented_credential in Hr.
  unfold carries in Hc.
  destruct (aq_policy rq) eqn:Epol; try done; simpl in *.
  all: destruct (session_cookie (aq_headers rq)) as [[c|]|] eqn:Ec; simpl in Hr; try done.
  all: rewrite ?Hc in Hr; try done.
  - unfold required_bearer_token in Hr. by rewrite Ht in Hr.
  - rewrite Ht in Hr. simpl in Hr. unfold required_bearer_token in Hr. rewrite Ht in Hr.
    by destruct (starts_with token PAT_TOKEN_PREFIX).
Qed.

(** *** Steps that succeed *)

Lemma auth_bind_ok {A B} (m : auth W A) (k : A → auth W B) w w' b : auth_bind m k w = (w', Ok b) →
  ∃ a w1, m w = (w1, Ok a) ∧ k a w1 = (w', Ok b).
Proof. unfold auth_bind. destruct (m w) as [w1 [a|e]]; [by exists a, w1|done]. Qed.
Lemma auth_of_ok {A} (r : result A AuthRejection) (w w' : W) a : auth_of r w = (w', Ok a) → r = Ok a ∧ w' = w.
Proof. unfold auth_of. by intros [= <- ->]. Qed.
Lemma auth_read_ok {A} e (m : W → W * option A) w w' a : auth_read e m w = (w', Ok a) → m w = (w', Some a).
Proof. unfold auth_read. destruct (m w) as [w1 [x|]]; simpl; by intros [= -> ->]. Qed.
Lemma some_of_ok {A} (o : option A) (e : AuthRejection) a : ok_or o e = Ok a → o = Some a.
Proof. destruct o; simpl; by intros [= ->]. Qed.

End Facts.

(** Reads a successful run of an authenticator backwards. *)
Ltac auth_run := repeat first
  [ match goal with
    | E : auth_bind _ _ _ = (_, Ok _) |- _ => apply auth_bind_ok in E as (? & ? & ? & E)
    | E : auth_of (ok_or _ _) _ = (_, Ok _) |- _ => apply auth_of_ok in E as [E ->]; apply some_of_ok in E
    | E : auth_of _ _ = (_, Ok _) |- _ => apply auth_of_ok in E as [E ->]
    | E : auth_read _ _ _ = (_, Ok _) |- _ => apply auth_read_ok in E
    | E : auth_ret _ _ = (_, Ok _) |- _ => injection E as <- <-
    end
  | progress cbn beta iota zeta in * ].

Section Sound.
Context {W : Type} `{!RouteAuthority W} {hsha : Sha256} {hhmac : Hmac} {hjson : JsonText}.

Lemma held_fold (signed : option (list string)) (l : list (string * gset string)) : ∀ held ref,
  let sel := λ role, match signed with Some s => role ∈ s | None => True end in
  let final := foldl (λ held '(role, permissions),
                if match signed with Some signed => negb (bool_decide (role ∈ signed)) | None => false end then held
                else hold_role held role permissions) held l in
  (ref ∈ hg_references final ↔ ref ∈ hg_references held ∨ ∃ role perms, (role, perms) ∈ l ∧ sel role ∧ ref ∈ (perms : gset string)) ∧
  (hg_admin final = true ↔ hg_admin held = true ∨ ∃ perms, (ADMIN_ROLE, perms) ∈ l ∧ sel ADMIN_ROLE) ∧
  hg_user final = hg_user held.
Proof.
  induction l as [|[role perms] l IH]; intros held ref; cbn zeta.
  - simpl. split; [|split; [|done]]; split; try naive_solver.
    + intros [?|(r & p & Hin & _)]; [done|]. by apply not_elem_of_nil in Hin.
    + intros [?|(p & Hin & _)]; [done|]. by apply not_elem_of_nil in Hin.
  - cbn [foldl]. set (skip := match signed with Some s => negb (bool_decide (role ∈ s)) | None => false end).
    assert (Hskip : skip = false ↔ match signed with Some s => role ∈ s | None => True end).
    { unfold skip. destruct signed as [s|]; [|by intuition]. rewrite negb_false_iff. apply bool_decide_eq_true. }
    specialize (IH (if skip then held else hold_role held role perms) ref) as (IHr & IHa & IHu).
    cbn zeta in *. rewrite IHr, IHa, IHu. clear IHr IHa IHu.
    split; [|split].
    + setoid_rewrite elem_of_cons. destruct skip; simpl; split.
      * intros [?|(r & p & ? & ? & ?)]; [by left|right; exists r, p; auto].
      * intros [?|(r & p & [[= -> ->]|?] & Hs & ?)]; [by left|by apply Hskip in Hs|right; by exists r, p].
      * rewrite elem_of_union. intros [[?|?]|(r & p & ? & ? & ?)];
          [by left|right; exists role, perms; split; [by left|split; [by apply Hskip|done]]|right; exists r, p; auto].
      * rewrite elem_of_union. intros [?|(r & p & [[= -> ->]|?] & Hs & ?)]; [by left; left|by left; right|right; by exists r, p].
    + setoid_rewrite elem_of_cons. destruct skip; simpl; split.
      * intros [?|(p & ? & ?)]; [by left|right; exists p; auto].
      * intros [?|(p & [[= Er ->]|?] & Hs)]; [by left| |right; by exists p]. rewrite Er in Hs. by apply Hskip in Hs.
      * rewrite orb_true_iff, String.eqb_eq. intros [[?|Er]|(p & ? & ?)]; [by left| |right; exists p; auto].
        right. exists perms. rewrite <- Er. split; [by left|by apply Hskip].
      * rewrite orb_true_iff, String.eqb_eq. intros [?|(p & [[= Er ->]|?] & Hs)];
          [by left; left|by left; right|right; by exists p].
    + by destruct skip.
Qed.

(** The grants held: the permissions of the active principal's roles, of the
    signed ones only when a session signs them. *)
Definition holds (grants : PrincipalGrants) (signed : option (list string)) (role : string) (perms : gset string) : Prop :=
  pg_active grants = true ∧ pg_user grants ≠ None ∧ pg_roles grants !! role = Some perms ∧
  match signed with Some s => role ∈ s | None => True end.

Lemma held_grants_spec grants signed :
  (∀ ref, ref ∈ hg_references (held_grants grants signed) ↔ ∃ role perms, holds grants signed role perms ∧ ref ∈ perms) ∧
  (hg_admin (held_grants grants signed) = true ↔ ∃ perms, holds grants signed ADMIN_ROLE perms) ∧
  hg_user (held_grants grants signed) = bool_decide (pg_user grants = Some true).
Proof.
  unfold held_grants, holds. destruct (pg_active grants) eqn:Ea; simpl.
  2: { split; [|split; [|done]]; [intros ref; rewrite elem_of_empty|]; naive_solver. }
  case_bool_decide as Eu.
  - split; [|split; [|done]]; [intros ref; simpl; rewrite elem_of_empty|simpl]; naive_solver.
  - set (h0 := {| hg_admin := false |}). split; [|split].
    + intros ref. destruct (held_fold signed (map_to_list (pg_roles grants)) h0 ref) as (Hr & _ & _). cbn zeta in Hr. rewrite Hr.
      setoid_rewrite elem_of_map_to_list. simpl. rewrite elem_of_empty. naive_solver.
    + destruct (held_fold signed (map_to_list (pg_roles grants)) h0 "") as (_ & Ha & _). cbn zeta in Ha. rewrite Ha.
      setoid_rewrite elem_of_map_to_list. simpl. naive_solver.
    + destruct (held_fold signed (map_to_list (pg_roles grants)) h0 "") as (_ & _ & Hu). cbn zeta in Hu. by rewrite Hu.
Qed.

(** *** What admitted a caller *)

(** The authority of the caller is that of the grants read for the principal. *)
Definition granted (project env_key principal : string) (signed : option (list string)) (grants : PrincipalGrants)
    (caller : AuthenticatedCaller) : Prop :=
  (∃ w1 w2, principal_grants project env_key principal w1 = (w2, Some grants)) ∧
  (∀ ref, ref ∈ permissions caller ↔ ∃ role perms, holds grants signed role perms ∧ ref ∈ perms) ∧
  (admin caller = true ↔ ∃ perms, holds grants signed ADMIN_ROLE perms).

Definition csrf_passed (rq : AuthenticationRequest) (session : VerifiedSession) (csrf : option bool) : Prop :=
  ∀ required, csrf = Some required → ∃ claim, sn_csrf (claims session) = Some claim ∧
    (required = false ∨ ∃ h, headers_named CSRF_HEADER (aq_headers rq) = [h] ∧ hex_text (sha256 (hd_value h)) = claim).

Inductive caller_admitted (pa : PlatformRouteAuthenticator) (rq : AuthenticationRequest) (caller : AuthenticatedCaller) : Prop :=
| admitted_session token csrf session project principal grants :
    credential_type caller = Authority.Session →
    allows_session (aq_policy rq) = true → session_presented rq token csrf →
    (∃ w1 w2, verify token w1 = (w2, Some session)) → csrf_passed rq session csrf →
    principal_id caller = sn_sub (claims session) → parse_principal (sn_sub (claims session)) = Some principal →
    pa_session_authentication pa = Some project →
    (∃ w1, session_active token w1 = true ∨
       ∃ w2, session_is_active (claims session) project (rs_environment (aq_scope rq)) w1 = (w2, Some true)) →
    pg_active grants = true → pg_user grants = Some true →
    (∀ role, role ∈ sn_roles (claims session) → is_Some (pg_roles grants !! role)) →
    granted project (rs_env_key (aq_scope rq)) principal (Some (sn_roles (claims session))) grants caller →
    caller_admitted pa rq caller
| admitted_pat token c p grants :
    credential_type caller = Authority.Pat →
    allows_pat (aq_policy rq) = true → bearer_token (aq_headers rq) = Some token →
    session_cookie (aq_headers rq) = Ok None →
    (allows_session (aq_policy rq) = true → starts_with token PAT_TOKEN_PREFIX = true) →
    pa_authentication pa = Some c →
    (∃ w1, cached_pat token w1 = Some p ∨
       ∃ w2, authenticate_route_pat token (rc_org c) (rc_project c) (rs_environment (aq_scope rq)) [ADMIN_ROLE] w1 =
               (w2, Some (Some p))) →
    pl_type p ≠ PlatformPrincipal → principal_id caller = pl_id p →
    granted (rc_project c) (rs_env_key (aq_scope rq)) (pl_id p) None grants caller →
    caller_admitted pa rq caller
| admitted_signature header credential signature fact key project principal grants :
    credential_type caller = Authority.Connection →
    aq_policy rq = PolicySignature header credential →
    presented_signature header (aq_headers rq) = Some signature → hmac_sha256 key (aq_body rq) = signature →
    (∃ id w1 w2, connection id w1 = (w2, Some (Some fact))) → cf_status fact = ConnectionActive →
    (∃ id text w1 w2, cf_credential_id fact = Some id ∧ secret id w1 = (w2, Some text) ∧
       parse_json text ≫= decode_secret = Some ("sha256", key)) →
    pa_signature_authentication pa = Some project → principal_id caller = cf_service_principal_id fact →
    parse_principal (cf_service_principal_id fact) = Some principal →
    granted project (rs_env_key (aq_scope rq)) principal None grants caller → active_role caller = None →
    caller_admitted pa rq caller.

Lemma caller_granted project env_key principal signed grants id name t role :
  (∃ w1 w2, principal_grants project env_key principal w1 = (w2, Some grants)) →
  granted project env_key principal signed grants (caller_with id name t (held_grants grants signed) role).
Proof. intros Hread. destruct (held_grants_spec grants signed) as (Hr & Ha & _). split; [done|]. split; [exact Hr|exact Ha]. Qed.

Lemma permissions_read project env_key principal w w' held : user_operation_permissions project env_key principal w = (w', Ok held) →
  ∃ grants, principal_grants project env_key principal w = (w', Some grants) ∧ held = held_grants grants None.
Proof. unfold user_operation_permissions. intros E. auth_run. eauto. Qed.

Lemma signature_verified pa header credential headers body w w' service :
  authenticate_signature pa header credential headers body w = (w', Ok service) →
  ∃ signature fact key, presented_signature header headers = Some signature ∧ hmac_sha256 key body = signature ∧
    (∃ id w1 w2, connection id w1 = (w2, Some (Some fact))) ∧ cf_status fact = ConnectionActive ∧
    (∃ id text w1 w2, cf_credential_id fact = Some id ∧ secret id w1 = (w2, Some text) ∧
       parse_json text ≫= decode_secret = Some ("sha256", key)) ∧ service = cf_service_principal_id fact.
Proof.
  unfold authenticate_signature. intros E. auth_run.
  match goal with E : context [if negb (String.eqb (fst ?h) _) then _ else _] |- _ => destruct h as [algorithm key]; simpl in E end.
  destruct (String.eqb_spec algorithm "sha256") as [->|]; simpl in E; [|auth_run; done].
  case_bool_decide as Eh; [|auth_run; done]. auth_run.
  match goal with F : (_ ← ?found; _) = Some ?fact |- _ => destruct found as [fact0|] eqn:Ef; [simpl in F|done] end.
  case_decide as Es; [|done]. simplify_eq.
  eexists _, _, key. do 2 (split; [done|]). split; [by eexists _, _, _|]. split; [done|]. split; [by eexists _, _, _, _|done].
Qed.

Lemma session_sound pa rq token csrf w w' caller : aq_policy rq ≠ PolicyNone →
  route_credential rq = Ok (SessionCredential token csrf) →
  authenticate_session pa (aq_attachment_id rq) token ((λ required, (aq_headers rq, required)) <$> csrf)
    (rs_env_key (aq_scope rq)) (rs_environment (aq_scope rq)) w = (w', Ok caller) →
  Authority.attachment_id caller = aq_attachment_id rq ∧ caller_admitted pa rq caller.
Proof.
  intros _ Hc E. destruct (route_credential_session _ _ _ Hc) as [Hallow Hpres].
  unfold authenticate_session, session_operation_permissions in E. auth_run.
  match goal with F : match session_grants ?g ?r with _ => _ end _ = _ |- _ =>
    destruct (session_grants g r) as [held|] eqn:Eg; auth_run; [|done] end.
  unfold session_grants in Eg. destruct (pg_active _) eqn:Ea; [simpl in Eg|done].
  case_bool_decide as Eu; [simpl in Eg|done]. destruct (forallb _ _) eqn:Ef; [simpl in Eg|done]. simplify_eq.
  split; [done|]. eapply admitted_session; try done.
  - by eexists _, _.
  - intros required ->. simpl in *.
    match goal with F : check_csrf _ _ _ = Ok ?u |- _ => destruct u; by apply check_csrf_ok in F end.
  - match goal with F : require_active _ _ _ _ ?v = _ |- _ => exists v; unfold require_active in F end.
    destruct (session_active token _); [by left|right].
    destruct (session_is_active _ _ _ _) as [w9 [[|]|]]; first [discriminate|by eexists].
  - intros role Hin. rewrite forallb_forall in Ef. specialize (Ef role). apply bool_decide_eq_true in Ef; [done|].
    by apply list_elem_of_In.
  - apply caller_granted. by eexists _, _.
Qed.

Lemma pat_sound pa rq w w' caller : aq_policy rq ≠ PolicyNone → route_credential rq = Ok PatCredential →
  authenticate_pat pa rq w = (w', Ok caller) →
  Authority.attachment_id caller = aq_attachment_id rq ∧ caller_admitted pa rq caller.
Proof.
  intros Hnone Hc E. unfold authenticate_pat in E. auth_run.
  match goal with F : required_bearer_token _ = Ok _ |- _ => apply some_of_ok in F; rename F into Ht end.
  destruct (route_credential_pat _ _ Hc Ht Hnone) as (Hallow & Hcookie & Hprefix).
  match goal with F : user_operation_permissions _ _ _ _ = _ |- _ => apply permissions_read in F as (grants & Hg & ->) end.
  split; [done|]. eapply (admitted_pat pa rq _ _ _ _ grants); try done.
  - match goal with F : pat_principal _ _ _ ?v = _ |- _ => exists v; unfold pat_principal in F end.
    destruct (cached_pat _ _); [left; by simplify_eq|right].
    destruct (authenticate_route_pat _ _ _ _ _ _) as [w9 [[p|]|]]; first [discriminate|simplify_eq; by eexists].
  - match goal with F : admit_principal _ _ _ _ = _ |- _ => intros Et; unfold admit_principal in F; rewrite Et in F; by auth_run end.
  - apply caller_granted. by eexists _, _.
Qed.

Lemma connection_sound pa rq header credential w w' caller : aq_policy rq = PolicySignature header credential →
  authenticate_connection pa rq header credential w = (w', Ok caller) →
  Authority.attachment_id caller = aq_attachment_id rq ∧ caller_admitted pa rq caller.
Proof.
  intros Hpol E. unfold authenticate_connection in E. auth_run.
  match goal with F : (if ?b then _ else _) _ = (_, Ok _) |- _ => destruct b; auth_run; [done|] end.
  match goal with F : authenticate_signature _ _ _ _ _ _ = _ |- _ =>
    apply signature_verified in F as (signature & fact & key & ? & ? & ? & ? & ? & ->) end.
  match goal with F : user_operation_permissions _ _ _ _ = _ |- _ => apply permissions_read in F as (grants & Hg & ->) end.
  split; [done|]. eapply (admitted_signature pa rq _ header credential signature fact key _ _ grants); try done.
  apply caller_granted. by eexists _, _.
Qed.

Lemma platform_sound pa rq w w' answer : aq_policy rq ≠ PolicyNone →
  platform_authenticate pa rq w = (w', Ok answer) →
  ∃ caller, answer = Some caller ∧ Authority.attachment_id caller = aq_attachment_id rq ∧ caller_admitted pa rq caller.
Proof.
  intros Hnone E. unfold platform_authenticate in E.
  assert (Hrest : (∀ h c, aq_policy rq ≠ PolicySignature h c) →
    ∃ caller, answer = Some caller ∧ Authority.attachment_id caller = aq_attachment_id rq ∧ caller_admitted pa rq caller).
  { intros Hsig. destruct (aq_policy rq) as [| | | |h c] eqn:Epol; [done| | | |by destruct (Hsig h c)].
    all: auth_run; match goal with F : route_credential _ = Ok ?cr |- _ => destruct cr as [token csrf|] end; auth_run.
    all: match goal with
         | F : authenticate_session _ _ _ _ _ _ _ = _ |- _ => apply session_sound in F; [|by rewrite Epol|done]
         | F : authenticate_pat _ _ _ = _ |- _ => apply pat_sound in F; [|by rewrite Epol|done]
         end; eauto. }
  destruct (aq_policy rq) as [| | | |h c] eqn:Epol; [done|by apply Hrest..|]. auth_run.
  match goal with F : authenticate_connection _ _ _ _ _ = _ |- _ => apply connection_sound in F; [|done] end. eauto.
Qed.

(** *** Refusals carry an error status *)

Definition refusal (e : AuthRejection) : Prop := (400 ≤ rj_status e)%Z.
Definition refuses {A} (m : auth W A) : Prop := ∀ w w' e, m w = (w', Err e) → refusal e.

Lemma refuses_bind {A B} (m : auth W A) (k : A → auth W B) : refuses m → (∀ a, refuses (k a)) → refuses (auth_bind m k).
Proof.
  intros Hm Hk w w' e. unfold auth_bind. destruct (m w) as [w1 [a|e']] eqn:E; [apply Hk|].
  intros [= <- <-]. by eapply Hm.
Qed.
Lemma refuses_ret {A} (a : A) : refuses (auth_ret a).
Proof. intros w w' e. done. Qed.
Lemma refuses_of {A} (r : result A AuthRejection) : (∀ e, r = Err e → refusal e) → refuses (auth_of r).
Proof. intros Hr w w' e [= _ ->]. by apply Hr. Qed.
Lemma refuses_or {A} (o : option A) e : refusal e → refuses (auth_of (ok_or o e)).
Proof. intros He. apply refuses_of. destruct o; simpl; by intros ? [= <-]. Qed.
Lemma refuses_read {A} e (m : W → W * option A) : refusal e → refuses (auth_read e m).
Proof. intros He w w' e'. unfold auth_read. destruct (m w) as [w1 [a|]]; simpl; by intros [= _ <-]. Qed.
Lemma unauthorized_refuses : refusal unauthorized ∧ refusal signature_unauthorized ∧ refusal authentication_unavailable.
Proof. unfold refusal. simpl. lia. Qed.

End Sound.

Ltac refuse := repeat (cbn beta iota zeta; match goal with
  | |- refusal _ => assumption
  | |- refuses (auth_ret _) => apply refuses_ret
  | |- refuses (auth_of (ok_or _ _)) => apply refuses_or
  | |- refuses (auth_of (Err _)) => apply refuses_of; intros ? [= <-]
  | |- refuses (auth_read _ _) => apply refuses_read
  | |- refuses (auth_bind _ _) => apply refuses_bind; [|intros ?]
  end).

Section Refusals.
Context {W : Type} `{!RouteAuthority W} {hsha : Sha256} {hhmac : Hmac} {hjson : JsonText}.

Lemma check_csrf_refuses required claim headers e : check_csrf required claim headers = Err e → refusal e.
Proof.
  destruct unauthorized_refuses as (Hu & _). unfold check_csrf. destruct claim as [c|]; simpl; [|by intros [= <-]].
  destruct required; simpl; [|done]. destruct (headers_named _ _) as [|h [|]]; [by intros [= <-]| |by intros [= <-]].
  destruct (_ || _); by intros [= <-].
Qed.

Lemma credential_refuses rq e : route_credential rq = Err e → refusal e.
Proof.
  destruct unauthorized_refuses as (Hu & Hs & _).
  assert (Hp : ∀ e, presented_credential rq = Err e → refusal e).
  { intros e'. unfold presented_credential, session_cookie, required_bearer_token.
    destruct (omap _ _) as [|t [|]]; simpl; [| |by intros [= <-]].
    - destruct (_ && _); [|done]. destruct (bearer_token _); simpl; [done|by intros [= <-]].
    - destruct (existsb _ _); [by intros [= <-]|]. by destruct (allows_session _). }
  unfold route_credential. destruct (aq_policy rq); [by apply Hp..|by intros [= <-]].
Qed.

Lemma signature_refuses pa header credential headers body : refuses (authenticate_signature pa header credential headers body).
Proof.
  destruct unauthorized_refuses as (Hu & Hs & Ha). unfold authenticate_signature. refuse.
  - intros w w' e. destruct (connection_name credential w); simpl; [done|by intros [= _ <-]].
  - destruct (negb _); [refuse|]. case_bool_decide; [refuse|refuse].
Qed.

Lemma permissions_refuse project env_key principal : refuses (user_operation_permissions project env_key principal).
Proof. destruct unauthorized_refuses as (Hu & Hs & Ha). unfold user_operation_permissions. refuse. Qed.

Lemma admit_again_refuses session token : refuses (admit_again session token).
Proof.
  destruct unauthorized_refuses as (Hu & _). intros w w' e. unfold admit_again. destruct (check_admission _ _); [done|].
  destruct (verify token w) as [w1 [?|]]; by intros [= _ <-].
Qed.

Lemma session_refuses pa id token cookie env_key environment : refuses (authenticate_session pa id token cookie env_key environment).
Proof.
  destruct unauthorized_refuses as (Hu & Hs & Ha). unfold authenticate_session, session_operation_permissions. refuse.
  - apply refuses_of. destruct cookie as [[? ?]|]; [apply check_csrf_refuses|done].
  - destruct (session_grants _ _); [refuse|refuse].
  - intros w w' e. unfold require_active. destruct (session_active _ _); [done|].
    destruct (session_is_active _ _ _ _) as [w1 [[|]|]]; [done|by intros [= _ <-]..].
  - apply admit_again_refuses.
Qed.

Lemma pat_refuses pa rq : refuses (authenticate_pat pa rq).
Proof.
  destruct unauthorized_refuses as (Hu & Hs & Ha). unfold authenticate_pat, required_bearer_token. refuse.
  - intros w w' e. unfold pat_principal. destruct (cached_pat _ _); [done|].
    destruct (authenticate_route_pat _ _ _ _ _ _) as [w1 [[?|]|]]; [done|by intros [= _ <-]..].
  - unfold admit_principal. destruct (pl_type _); [refuse| |refuse].
    destruct (strip_prefix _ _).
    + refuse. match goal with |- refuses (if ?b then _ else _) => destruct b end; [refuse|refuse].
    + destruct (String.eqb _ _); [refuse|refuse].
  - apply permissions_refuse.
Qed.

Lemma platform_refuses pa rq : refuses (platform_authenticate pa rq).
Proof.
  destruct unauthorized_refuses as (Hu & Hs & Ha). unfold platform_authenticate.
  assert (Hcred : refuses (auth_of (W := W) (route_credential rq))) by (apply refuses_of, credential_refuses).
  assert (Hconn : ∀ h c, refuses (authenticate_connection pa rq h c)).
  { intros h c. unfold authenticate_connection. refuse; [apply signature_refuses|].
    match goal with |- refuses (if ?b then _ else _) => destruct b end; [refuse|].
    refuse. apply permissions_refuse. }
  destruct (aq_policy rq); refuse; first [done|apply Hconn|idtac];
    match goal with a : RouteCredential |- _ => destruct a end; refuse; first [apply session_refuses|apply pat_refuses].
Qed.

Lemma control_sound rq w w' answer : control_authenticate rq w = (w', Ok answer) →
  ∃ token csrf session, answer = Some {| Authority.attachment_id := aq_attachment_id rq; principal_id := sn_sub (claims session);
      credential_type := Authority.Session; admin := false; permissions := ∅; active_role := None |} ∧
    allows_session (aq_policy rq) = true ∧ session_presented rq token csrf ∧
    (∃ w1 w2, verify token w1 = (w2, Some session)) ∧ csrf_passed rq session csrf ∧
    (∃ w1 w2, control_session_is_active (claims session) w1 = (w2, Some true)).
Proof.
  unfold control_authenticate. intros E. auth_run.
  match goal with F : route_credential rq = Ok ?cr |- _ => destruct cr as [token csrf|]; [|by auth_run];
    destruct (route_credential_session _ _ _ F) as [Hallow Hpres] end. auth_run.
  match goal with F : (if negb ?b then _ else _) _ = _ |- _ => destruct b; simpl in F; auth_run; [|done] end.
  eexists token, csrf, _. split; [done|]. do 2 (split; [done|]). split; [by eexists _, _|]. split; [|by eexists _, _].
  intros required ->. match goal with F : check_csrf _ _ _ = Ok ?u |- _ => destruct u; by apply check_csrf_ok in F end.
Qed.

Lemma control_refuses rq : refuses (control_authenticate rq).
Proof.
  destruct unauthorized_refuses as (Hu & Hs & Ha). unfold control_authenticate. refuse; [apply refuses_of, credential_refuses|].
  match goal with a : RouteCredential |- _ => destruct a as [token csrf|] end; [|refuse].
  refuse; [apply refuses_of; destruct csrf; [apply check_csrf_refuses|done]|].
  match goal with |- refuses (if negb ?b then _ else _) => destruct b end; simpl; [|refuse].
  refuse. apply admit_again_refuses.
Qed.

(** C20. A caller comes only from the one credential its route admits: a session
    whose token the verifier accepted, presented by cookie alone (with the CSRF
    claim, and on a route that writes the one header that hashes to it) or as
    the bearer token; a platform access token, as the bearer token of a route
    that admits one; or the HMAC of the exact body under the secret of an
    active connection.  A verified signature has a caller too.  The caller is
    recorded for the attachment asked for, and its authority is that of the
    grants read for its principal: of the roles a session signs, all of which
    the active user still holds, or of every role the active principal holds. *)
Theorem platform_caller_admitted (pa : PlatformRouteAuthenticator) (rq : AuthenticationRequest) (w w' : W)
    (answer : option AuthenticatedCaller) :
  aq_policy rq ≠ PolicyNone → platform_authenticate pa rq w = (w', Ok answer) →
  ∃ caller, answer = Some caller ∧ Authority.attachment_id caller = aq_attachment_id rq ∧ caller_admitted pa rq caller.
Proof. apply platform_sound. Qed.

(** The byte fold of the CSRF check is equality: it passes exactly when the
    token carries the claim and, on a route that requires it, one CSRF header
    hashes to that claim. *)
Theorem check_csrf_exact (requires_csrf : bool) (claims_csrf : option string) (headers : list Header) :
  check_csrf requires_csrf claims_csrf headers = Ok tt ↔
  ∃ claim, claims_csrf = Some claim ∧
    (requires_csrf = false ∨ ∃ h, headers_named CSRF_HEADER headers = [h] ∧ hex_text (sha256 (hd_value h)) = claim).
Proof. apply check_csrf_ok. Qed.

End Refusals.

(** ** Queued runs *)

Lemma held_roles_fold rows role : ∀ held,
  (is_Some (foldl hold_row held rows !! role) ↔ is_Some (held !! role) ∨ ∃ row, row ∈ rows ∧ cw_role row = Some role) ∧
  (∀ p, p ∈ default ∅ (foldl hold_row held rows !! role) ↔ p ∈ default ∅ (held !! role) ∨
     ∃ row, row ∈ rows ∧ cw_role row = Some role ∧ cw_permission row = Some p).
Proof.
  induction rows as [|row rows IH]; intros held; cbn [foldl].
  - split; [|intros p]; split; try naive_solver; intros [?|(row & Hin & _)]; try done; by apply not_elem_of_nil in Hin.
  - destruct (IH (hold_row held row)) as [IHs IHp]. setoid_rewrite elem_of_cons. set (held1 := hold_row held row) in *.
    assert (Hs : is_Some (held1 !! role) ↔ is_Some (held !! role) ∨ cw_role row = Some role).
    { unfold held1, hold_row. destruct (cw_role row) as [r|]; [|naive_solver]. rewrite lookup_insert. case_decide; naive_solver. }
    assert (Hp : ∀ p, p ∈ default ∅ (held1 !! role) ↔ p ∈ default ∅ (held !! role) ∨
      cw_role row = Some role ∧ cw_permission row = Some p).
    { intros p. unfold held1, hold_row. destruct (cw_role row) as [r|]; [|naive_solver]. rewrite lookup_insert. case_decide as Er; [subst r|naive_solver].
      change (p ∈ default ∅ (held !! role) ∪ match cw_permission row with Some p => {[p]} | None => ∅ end ↔ p ∈ default ∅ (held !! role) ∨ Some role = Some role ∧ cw_permission row = Some p). rewrite elem_of_union. destruct (cw_permission row) as [q|]; [rewrite elem_of_singleton|rewrite elem_of_empty]; naive_solver. }
    split; [rewrite IHs, Hs|intros p; rewrite IHp, Hp]; naive_solver.
Qed.

(** A queued run with a role acts as that role only: the principal holds it, the
    caller has exactly its permissions, and is admin only as [admin]. *)
Theorem queued_run_role (rows : list CallerRow) (role : string) (caller : AuthenticatedCaller) :
  queued_run_caller rows (Some role) = Ok caller →
  (∃ row, row ∈ rows ∧ cw_role row = Some role) ∧ active_role caller = Some role ∧ credential_type caller = QueuedService ∧
  (admin caller = true ↔ role = ADMIN_ROLE) ∧
  (∀ p, p ∈ permissions caller ↔ ∃ row, row ∈ rows ∧ cw_role row = Some role ∧ cw_permission row = Some p).
Proof.
  unfold queued_run_caller. destruct rows as [|first rows]; [done|]. unfold role_caller.
  destruct (held_roles_fold (first :: rows) role ∅) as [Hs Hp]. fold (held_roles (first :: rows)) in Hs, Hp.
  destruct (held_roles (first :: rows) !! role) as [perms|] eqn:E; [|done]. cbn. intros [= <-]. cbn.
  rewrite lookup_empty in Hs. rewrite String.eqb_eq. split; [|split; [done|split; [done|split; [done|]]]].
  - destruct Hs as [[Hn|Hrow] _]; [by eexists|by destruct Hn|done].
  - intros p. specialize (Hp p). rewrite lookup_empty in Hp. cbn in Hp. rewrite Hp, elem_of_empty. naive_solver.
Qed.

(** ** A sample *)

Module AuthSample.

#[local] Instance sample_sha : Sha256 := String.list_ascii_of_string.
#[local] Instance sample_hmac : Hmac := λ key body, String.list_ascii_of_string (key +:+ body).
#[local] Instance sample_text : JsonText := λ s, Some (VString s).

Definition ann : string := "ann".
Definition ann_grants : PrincipalGrants := {|
  pg_present := true; pg_active := true; pg_user := Some true;
  pg_roles := {["clerk" := {["orders:order/post"]}; "guest" := {["orders:order/list"]}]} |}.
Definition ann_claims : SessionClaims := {| sn_sub := ann; sn_roles := ["clerk"]; sn_csrf := Some "6162" |}.

(** A verifier that knows one token, and the grants of its principal. *)
#[local] Instance one_login : RouteAuthority unit := {|
  VerifiedSession := SessionClaims;
  claims := id;
  verify := λ t w, (w, if String.eqb t "t1" then Some ann_claims else None);
  check_admission := λ _ _, true;
  session_is_active := λ _ _ _ w, (w, Some true);
  control_session_is_active := λ _ w, (w, Some false);
  principal_grants := λ _ _ p w, (w, if String.eqb p ann then Some ann_grants else None);
  authenticate_route_pat := λ _ _ _ _ _ w, (w, Some None);
  session_active := λ _ _, false;
  cached_pat := λ _ _, None;
  identity_ticket := λ _, 0%Z;
  keep_session_active := λ _ _ _ w, w;
  keep_pat := λ _ _ _ w, w;
  connection_name := λ _ _, None;
  env_connections := λ w, (w, None);
  connection := λ _ w, (w, None);
  secret := λ _ w, (w, None);
  parse_principal := Some;
  parse_uuid := λ _, None |}.

Definition sessions_only : PlatformRouteAuthenticator :=
  {| pa_authentication := None; pa_session_authentication := Some "shop"; pa_signature_authentication := None |}.
Definition empty_manifest : ServingManifest := {|
  sm_format_version := 11; sm_packages := []; sm_components := []; sm_composed_entry := None; sm_routes := [];
  sm_attachments := []; sm_host_routes := [] |}.
Definition post_order : ServedAttachment := AuthoredAttachment {|
  at_type := HttpAttachment; at_package_id := "orders"; at_component := "order"; at_operation := "orders:order/post@1.0.0";
  at_definition_hash := ""; at_definition := VObject []; at_auth_policy := VNull; at_registered_operation := None |}.
Definition cookie : Header := {| hd_name := "Cookie"; hd_value := "a=b; __Host-wamn-session = t1" |}.
Definition login_request (headers : list Header) : AuthenticationRequest := {|
  aq_manifest := empty_manifest; aq_scope := {| rs_env_key := "shop-dev"; rs_environment := "dev" |};
  aq_attachment_id := "order-post"; aq_attachment := post_order; aq_policy := PolicyPatAndSession;
  aq_headers := headers; aq_body := "" |}.
Definition with_csrf (value : string) : AuthenticationRequest :=
  login_request [cookie; {| hd_name := "X-Wamn-Csrf"; hd_value := value |}].

Example csrf_refused : (platform_authenticate sessions_only (with_csrf "ac") tt).2 = Err unauthorized ∧
  (platform_authenticate sessions_only (login_request [cookie]) tt).2 = Err unauthorized.
Proof. vm_compute. done. Qed.

Lemma platform_caller_admitted_witness :
  ∃ caller, (platform_authenticate sessions_only (with_csrf "ab") tt).2 = Ok (Some caller) ∧
    permits caller "orders:order/post@1.0.0" = true ∧ permits caller "orders:order/list@1.0.0" = false ∧
    caller_admitted sessions_only (with_csrf "ab") caller.
Proof.
  assert (Hrun : (platform_authenticate sessions_only (with_csrf "ab") tt) =
    (tt, Ok (Some (caller_with "order-post" ann Authority.Session (held_grants ann_grants (Some ["clerk"])) (Some "clerk"))))).
  { vm_compute. reflexivity. }
  assert (Hpol : aq_policy (with_csrf "ab") ≠ PolicyNone) by discriminate.
  destruct (platform_caller_admitted sessions_only (with_csrf "ab") tt tt _ Hpol Hrun) as (caller & [= <-] & _ & Hok).
  eexists. split; [rewrite Hrun; reflexivity|]. split; [vm_compute; reflexivity|]. split; [vm_compute; reflexivity|].
  exact Hok.
Defined.

End AuthSample.
