(* ===== verification/KvMemory.v ===== *)
(** * The replica of a bucket of facts

    [crates/platform/runtime/src/kv_memory.rs], the memory in which a host
    keeps facts that Postgres owns, and the deletions of
    [crates/identity/platform/src/kv_memory.rs].  A put is two moments: what the
    host asks of the bucket, and what it keeps of the answer; the watch delivers
    messages between them.  The second half states the protocol: hosts, writers,
    the database and the bucket as one step relation, and that a fact a host
    answers from its memory is the current one, or its deletion is due or on
    its way to the host.

    Times are milliseconds; an [Instant] and the broker's clock are one clock.
    The bucket is NATS JetStream, outside the repository: [Store], [DeleteKey],
    [ListUnder], [Expire] and [Subscribe] state its documented behaviour
    (compare-and-set on the last revision of a key, one message per key, an age
    limit, last-per-subject delivery). *)

From stdpp Require Import base tactics option list gmap strings relations.
From Stdlib Require Import ZArith Lia.
From S2P Require Import Prelude Text.
#[local] Set Warnings "-clear-no-such-hyp".
Open Scope wamn_scope.
Open Scope Z_scope.

(** ** The memory *)

Definition SWEEP_AT : nat := Z.to_nat 10000.
Definition PUT_TIMEOUT : Z := 1000.
Definition MEMORY_TTL : Z := 60000.

Record Entry (A : Type) := { en_revision : Z; en_seen : Z; en_answer : option A }.
Record KvMemory (A : Type) := { km_ttl : Z; km_entries : gmap string (Entry A); km_bucket : bool }.
Arguments en_revision {A}. Arguments en_seen {A}. Arguments en_answer {A}.
Arguments km_ttl {A}. Arguments km_entries {A}. Arguments km_bucket {A}.

(** What the watch delivers; [kv_created] is the broker's time of the message. *)
Inductive Operation := OpPut | OpDelete | OpPurge.
#[export] Instance Operation_eq_dec : EqDecision Operation.
Proof. solve_decision. Defined.
Record KvEntry := { kv_key : string; kv_revision : Z; kv_created : Z; kv_operation : Operation; kv_value : string }.

(** The serde codec of an answer. *)
Class MemoryCodec (A : Type) := { encode : A → option string; decode : string → option A }.

(** What the bucket answers to an update, or that it did not within [PUT_TIMEOUT]. *)
Inductive UpdateAnswer := Updated (revision : Z) | WrongLastRevision | UpdateFailed | UpdateTimedOut.

Section Memory.
Context {A : Type} `{!MemoryCodec A}.

Definition live (ttl now : Z) (e : Entry A) : bool := Z.max 0 (now - en_seen e) <? ttl.

Definition new_memory (ttl : Z) : KvMemory A := {| km_ttl := ttl; km_entries := ∅; km_bucket := false |}.
Definition set_bucket (bucket : bool) (m : KvMemory A) : KvMemory A :=
  {| km_ttl := km_ttl m; km_entries := km_entries m; km_bucket := bucket |}.
Definition with_entries (entries : gmap string (Entry A)) (m : KvMemory A) : KvMemory A :=
  {| km_ttl := km_ttl m; km_entries := entries; km_bucket := km_bucket m |}.
Definition clear (m : KvMemory A) : KvMemory A := with_entries ∅ m.

(** The live answer of a key, or the ticket of a read of it. *)
Definition answer (m : KvMemory A) (now : Z) (key : string) : result A Z :=
  match km_entries m !! key with
  | Some e => if live (km_ttl m) now e
              then match en_answer e with Some a => Ok a | None => Err (en_revision e) end
              else Err 0
  | None => Err 0
  end.

Definition ticket (m : KvMemory A) (now : Z) (key : string) : Z :=
  match km_entries m !! key with
  | Some e => if live (km_ttl m) now e then en_revision e else 0
  | None => 0
  end.

(** The answer that a put with the ticket replaces. *)
Definition replaced (m : KvMemory A) (now : Z) (key : string) (tk : Z) : option A :=
  match km_entries m !! key with
  | Some e => if (en_revision e =? tk) && live (km_ttl m) now e then en_answer e else None
  | None => None
  end.

Definition swept (m : KvMemory A) (now : Z) : gmap string (Entry A) :=
  if (SWEEP_AT <=? size (km_entries m))%nat
  then filter (λ ke, live (km_ttl m) now ke.2 = true) (km_entries m)
  else km_entries m.

Definition keep_entry (m : KvMemory A) (now : Z) (key : string) (revision : Z) (a : option A) : KvMemory A :=
  if negb (km_bucket m) then m
  else
    let entries := swept m now in
    let entry := default {| en_revision := 0; en_seen := now; en_answer := None |} (entries !! key) in
    with_entries (<[key := if en_revision entry <=? revision
                           then {| en_revision := revision; en_seen := now; en_answer := a |}
                           else entry]> entries) m.

(** What [put] asks of the bucket: nothing without it, or when the answer does not encode. *)
Definition put_request (m : KvMemory A) (a : A) : option string := if km_bucket m then encode a else None.

(** What [put] does with the bucket's answer. *)
Definition put_answered (m : KvMemory A) (now : Z) (key : string) (a : A) (u : UpdateAnswer) : KvMemory A :=
  match u with
  | Updated revision => keep_entry m now key revision (Some a)
  | WrongLastRevision | UpdateFailed | UpdateTimedOut => m
  end.

(** The answer a message carries: none after a delete, or when it does not decode. *)
Definition message_answer (e : KvEntry) : option A :=
  match kv_operation e with OpPut => decode (kv_value e) | OpDelete | OpPurge => None end.

Definition apply (m : KvMemory A) (now : Z) (e : KvEntry) : KvMemory A :=
  keep_entry m now (kv_key e) (kv_revision e) (message_answer e).

(** *** What the operations do to one key *)

Lemma live_spec ttl now e : 0 < ttl → live ttl now e = true ↔ now - en_seen e < ttl.
Proof. unfold live. rewrite Z.ltb_lt. lia. Qed.

Lemma swept_lookup m now k e : swept m now !! k = Some e → km_entries m !! k = Some e.
Proof. unfold swept. destruct (_ <=? _)%nat; [|done]. by intros [? _]%map_lookup_filter_Some. Qed.

(** A sweep drops only what is no longer live. *)
Lemma swept_lost m now k e : km_entries m !! k = Some e → swept m now !! k = None → live (km_ttl m) now e = false.
Proof.
  unfold swept. intros He. destruct (_ <=? _)%nat; [|congruence].
  intros [?|Hn]%map_lookup_filter_None; [congruence|]. specialize (Hn _ He). cbn in Hn. by destruct (live _ _ _).
Qed.

(** An entry after a keep is the kept one, or one of before that is at least as new. *)
Lemma keep_entry_lookup m now key revision a k e : 0 ≤ revision →
  km_entries (keep_entry m now key revision a) !! k = Some e →
  km_entries m !! k = Some e ∨
  k = key ∧ e = {| en_revision := revision; en_seen := now; en_answer := a |}.
Proof.
  intros Hr. unfold keep_entry. destruct (km_bucket m); cbn [negb]; [|by left].
  cbn [km_entries with_entries]. destruct (decide (k = key)) as [->|Hne].
  - rewrite lookup_insert_eq. intros [= <-]. destruct (swept m now !! key) as [e0|] eqn:Hs; cbn [from_option id en_revision].
    + destruct (Z.leb_spec (en_revision e0) revision); [by right|]. left. by eapply swept_lookup.
    + destruct (Z.leb_spec 0 revision); [by right|lia].
  - rewrite lookup_insert_ne by done. intros Hs. left. by eapply swept_lookup.
Qed.

(** After a keep the key has an entry at least as new as the kept one. *)
Lemma keep_entry_kept m now key revision a :
  km_bucket m = true → ∃ e, km_entries (keep_entry m now key revision a) !! key = Some e ∧ revision ≤ en_revision e.
Proof.
  intros Hb. unfold keep_entry. rewrite Hb. cbn [negb km_entries with_entries]. rewrite lookup_insert_eq.
  eexists. split; [done|]. destruct (Z.leb_spec (en_revision (default {| en_revision := 0; en_seen := now; en_answer := None |} (swept m now !! key))) revision); cbn; lia.
Qed.

(** A keep never makes the entry of a key older, and loses one only to a sweep. *)
Lemma keep_entry_newer m now key revision a k e :
  km_entries m !! k = Some e →
  match km_entries (keep_entry m now key revision a) !! k with
  | Some e' => en_revision e ≤ en_revision e' ∨ live (km_ttl m) now e = false
  | None => live (km_ttl m) now e = false
  end.
Proof.
  intros He. unfold keep_entry. destruct (km_bucket m); cbn [negb]; [|rewrite He; left; lia].
  cbn [km_entries with_entries]. destruct (swept m now !! k) as [e0|] eqn:Hs.
  - pose proof (swept_lookup _ _ _ _ Hs) as He0. assert (e0 = e) as -> by congruence.
    destruct (decide (k = key)) as [->|Hne].
    + rewrite lookup_insert_eq, Hs. cbn [from_option id]. left. destruct (Z.leb_spec (en_revision e) revision); cbn; lia.
    + rewrite lookup_insert_ne, Hs by done. left. lia.
  - pose proof (swept_lost _ _ _ _ He Hs) as Hl. match goal with |- match ?x with _ => _ end => destruct x end; [by right|done].
Qed.

Lemma keep_entry_ttl m now key revision a : km_ttl (keep_entry m now key revision a) = km_ttl m.
Proof. unfold keep_entry. by destruct (negb _). Qed.
Lemma keep_entry_bucket m now key revision a : km_bucket (keep_entry m now key revision a) = km_bucket m.
Proof. unfold keep_entry. by destruct (negb _). Qed.
Lemma keep_entry_closed m now key revision a : km_bucket m = false → keep_entry m now key revision a = m.
Proof. unfold keep_entry. by intros ->. Qed.

Lemma answer_entry m now k a :
  answer m now k = Ok a → ∃ e, km_entries m !! k = Some e ∧ live (km_ttl m) now e = true ∧ en_answer e = Some a.
Proof.
  unfold answer. destruct (km_entries m !! k) as [e|]; [|done]. destruct (live _ _ _) eqn:Hl; [|done].
  destruct (en_answer e) eqn:Ha; [|done]. intros [= ->]. by exists e.
Qed.

Lemma replaced_entry m now k tk a :
  replaced m now k tk = Some a → ∃ e, km_entries m !! k = Some e ∧ en_revision e = tk ∧ en_answer e = Some a.
Proof.
  unfold replaced. destruct (km_entries m !! k) as [e|]; [|done].
  destruct (Z.eqb_spec (en_revision e) tk); cbn [andb]; [|done]. destruct (live _ _ _); [|done]. intros ?. by exists e.
Qed.

Lemma ticket_entry m now k : ticket m now k = 0 ∨ ∃ e, km_entries m !! k = Some e ∧ ticket m now k = en_revision e.
Proof.
  unfold ticket. destruct (km_entries m !! k) as [e|]; [|by left]. destruct (live _ _ _); [|by left]. right. by exists e.
Qed.

End Memory.
