(* ===== verification/KvProtocol.v ===== *)
(** * The protocol of the replicated memory

    Hosts, writers, the database and the bucket as one step relation over
    [KvMemory].  A host takes a ticket, reads a fact, asks the bucket to store
    it under the ticket, and keeps what was stored; a writer commits a change
    and then deletes the keys of what it changed.  A key of the whole
    environment ([Deletion::Under]) is listed first, and only the keys the
    bucket holds are deleted.

    The code bounds neither the time between a ticket and the put under it, nor
    what a listing may miss, nor the life of the bucket, so the steps leave all
    of it open: a put may be stored or answered however late, a key may be read
    while the listing passes it by, and the bucket may be made again.  The
    [orderly] runs are those in which none of this happens: a put is stored
    within [MEMORY_TTL] of its ticket and answered within [PUT_TIMEOUT], a
    listing misses no key that a host is reading or holds, and the bucket is
    never made again.  Over them [coherent] holds: what a host answers from its
    memory is the current fact, or a deletion of the key is due, or a newer
    message of the key is on its way to the host.  In the other runs the protocol
    has races, shown on the auth memory in [AuthMemory].  One clock serves the
    hosts and the bucket. *)

From stdpp Require Import base tactics option list gmap strings relations sorting.
From Stdlib Require Import ZArith Lia.
From S2P Require Import Prelude Text KvMemory.
#[local] Set Warnings "-clear-no-such-hyp".
Open Scope wamn_scope.
Open Scope Z_scope.

(** ** Deletions *)

Inductive Deletion := DelKey (key : string) | DelUnder (token : string).

(** The keys the listing of a token filters for: [<token>.>]. *)
Definition under (token key : string) : bool :=
  match strip_prefix (token +:+ ".") key with
  | Some rest => negb (String.eqb rest "")
  | None => false
  end.

Definition covers (d : Deletion) (key : string) : bool :=
  match d with DelKey k => String.eqb k key | DelUnder token => under token key end.

Definition due_for (ds : list Deletion) (key : string) : Prop := ∃ d, d ∈ ds ∧ covers d key = true.

(** ** The facts of a memory *)

(** What a memory promises about its answers [A]: when they agree with the fact
    [F] of a key, what a read [R] of the fact shows, and the answer a host puts
    after a read, which may keep parts of the answer it replaces. *)
Class MemoryFacts (A F R : Type) := {
  agrees : A → F → Prop;
  reads : R → F → Prop;
  merge : R → option A → A;
  merge_agrees r o f : reads r f → (∀ a, o = Some a → agrees a f) → agrees (merge r o) f;
}.

(** ** The system *)

(** A read of a fact: begun with its ticket, known, sent to the bucket (the
    answer replaced, the answer and its bytes), and stored there. *)
Inductive Phase (A R : Type) :=
  | Begun
  | Known (r : R)
  | Sent (r : R) (o : option A) (a : A) (v : string)
  | Stored (revision at_ : Z) (a : A).
Arguments Begun {A R}. Arguments Known {A R}. Arguments Sent {A R}. Arguments Stored {A R}.

Record Reading (A R : Type) := { re_key : string; re_ticket : Z; re_started : Z; re_phase : Phase A R }.
Arguments re_key {A R}. Arguments re_ticket {A R}. Arguments re_started {A R}. Arguments re_phase {A R}.

(** The watch of a host, with the messages that have not reached it. *)
Inductive Watch := Closed | Opening (q : list KvEntry) | Watching (q : list KvEntry) | Breaking (q : list KvEntry).

Record Host (A R : Type) :=
  { ho_filter : string → bool; ho_memory : KvMemory A; ho_watch : Watch; ho_reads : list (Reading A R) }.
Arguments ho_filter {A R}. Arguments ho_memory {A R}. Arguments ho_watch {A R}. Arguments ho_reads {A R}.

(** The database, the deletions that are due, and the bucket with the history of its messages. *)
Record Env (F : Type) := {
  ev_now : Z;
  ev_facts : string → F;
  ev_due : list Deletion;
  ev_seq : Z;
  ev_log : list KvEntry;
  ev_bucket : gmap string KvEntry;
}.
Arguments ev_now {F}. Arguments ev_facts {F}. Arguments ev_due {F}.
Arguments ev_seq {F}. Arguments ev_log {F}. Arguments ev_bucket {F}.

Section Stream.
Context {F : Type}.
Abbreviation Env := (Env F).

Definition with_due (due : list Deletion) (e : Env) : Env :=
  {| ev_now := ev_now e; ev_facts := ev_facts e; ev_due := due; ev_seq := ev_seq e; ev_log := ev_log e; ev_bucket := ev_bucket e |}.
Definition with_bucket (b : gmap string KvEntry) (e : Env) : Env :=
  {| ev_now := ev_now e; ev_facts := ev_facts e; ev_due := ev_due e; ev_seq := ev_seq e; ev_log := ev_log e; ev_bucket := b |}.
Definition tick (t : Z) (e : Env) : Env :=
  {| ev_now := ev_now e + t; ev_facts := ev_facts e; ev_due := ev_due e; ev_seq := ev_seq e; ev_log := ev_log e; ev_bucket := ev_bucket e |}.
Definition commit (facts : string → F) (ds : list Deletion) (e : Env) : Env :=
  {| ev_now := ev_now e; ev_facts := facts; ev_due := ds ++ ev_due e; ev_seq := ev_seq e; ev_log := ev_log e; ev_bucket := ev_bucket e |}.

(** The message the bucket stores next, and the bucket after it. *)
Definition message (e : Env) (key : string) (op : Operation) (value : string) : KvEntry :=
  {| kv_key := key; kv_revision := ev_seq e + 1; kv_created := ev_now e; kv_operation := op; kv_value := value |}.
Definition stored (m : KvEntry) (e : Env) : Env :=
  {| ev_now := ev_now e; ev_facts := ev_facts e; ev_due := ev_due e; ev_seq := kv_revision m;
     ev_log := m :: ev_log e; ev_bucket := <[kv_key m := m]> (ev_bucket e) |}.

(** A bucket that was lost and made again: empty, and it counts from one. *)
Definition remade (e : Env) : Env :=
  {| ev_now := ev_now e; ev_facts := ev_facts e; ev_due := ev_due e; ev_seq := 0; ev_log := []; ev_bucket := ∅ |}.

Definition last_revision (b : gmap string KvEntry) (key : string) : Z :=
  match b !! key with Some m => kv_revision m | None => 0 end.

Definition is_delete (m : KvEntry) : Prop := kv_operation m ≠ OpPut.

(** No later delete of its key. *)
Definition newest (log : list KvEntry) (m : KvEntry) : Prop :=
  ∀ d, d ∈ log → is_delete d → kv_key d = kv_key m → kv_revision d ≤ kv_revision m.

(** The bucket and the history of its messages: revisions and times grow
    together, the bucket holds the last message of a key or none that is young. *)
Record stream_ok (e : Env) : Prop := {
  so_range m : m ∈ ev_log e → 0 < kv_revision m ≤ ev_seq e ∧ kv_created m ≤ ev_now e;
  so_unique m m' : m ∈ ev_log e → m' ∈ ev_log e → kv_revision m = kv_revision m' → m = m';
  so_order m m' : m ∈ ev_log e → m' ∈ ev_log e → kv_revision m ≤ kv_revision m' → kv_created m ≤ kv_created m';
  so_seq : 0 ≤ ev_seq e;
  so_last k m : ev_bucket e !! k = Some m →
    kv_key m = k ∧ m ∈ ev_log e ∧ ∀ m', m' ∈ ev_log e → kv_key m' = k → kv_revision m' ≤ kv_revision m;
  so_gone k m : ev_bucket e !! k = None → m ∈ ev_log e → kv_key m = k → kv_created m + MEMORY_TTL ≤ ev_now e;
}.

Lemma stream_ok_same (e e' : Env) :
  ev_now e ≤ ev_now e' → ev_log e' = ev_log e → ev_seq e' = ev_seq e → ev_bucket e' = ev_bucket e → stream_ok e → stream_ok e'.
Proof.
  intros Hnow El Es Eb [H1 H2 H3 H4 H5 H6]. split; rewrite ?El, ?Es, ?Eb; [|done..|].
  - intros m Hm. destruct (H1 m Hm). split; [done|lia].
  - intros k m Hn Hm Ek. specialize (H6 k m Hn Hm Ek). lia.
Qed.

Lemma stream_ok_stored (e : Env) m due' :
  stream_ok e → kv_revision m = ev_seq e + 1 → kv_created m = ev_now e → stream_ok (with_due due' (stored m e)).
Proof.
  intros [H1 H2 H3 H4 H5 H6] Em Ec. split; cbn [ev_log ev_seq ev_now ev_bucket stored with_due].
  - intros m' [->|Hin]%elem_of_cons; [lia|]. pose proof (H1 m' Hin). lia.
  - intros m1 m2 [->|Hin1]%elem_of_cons [->|Hin2]%elem_of_cons E; [done|..|by apply H2].
    + pose proof (H1 m2 Hin2). lia.
    + pose proof (H1 m1 Hin1). lia.
  - intros m1 m2 [->|Hin1]%elem_of_cons [->|Hin2]%elem_of_cons E; [lia|..|by apply H3].
    + pose proof (H1 m2 Hin2). lia.
    + pose proof (H1 m1 Hin1). lia.
  - lia.
  - intros k m' Hb. destruct (decide (k = kv_key m)) as [->|Hne].
    + rewrite lookup_insert_eq in Hb. injection Hb as <-. split_and!; [done|apply list_elem_of_here|].
      intros m' [->|Hin]%elem_of_cons _; [lia|]. pose proof (H1 m' Hin). lia.
    + rewrite lookup_insert_ne in Hb by done. destruct (H5 k m' Hb) as (Ek & ? & Hl).
      split_and!; [done|by apply elem_of_cons; right|]. intros m2 [->|Hin]%elem_of_cons E2; [done|by apply Hl].
  - intros k m' Hb. destruct (decide (k = kv_key m)) as [->|Hne]; [by rewrite lookup_insert_eq in Hb|].
    rewrite lookup_insert_ne in Hb by done. intros [->|Hin]%elem_of_cons E; [done|]. by apply (H6 k).
Qed.

Lemma stream_ok_expire (e : Env) key m :
  stream_ok e → ev_bucket e !! key = Some m → kv_created m + MEMORY_TTL ≤ ev_now e →
  stream_ok (with_bucket (delete key (ev_bucket e)) e).
Proof.
  intros [H1 H2 H3 H4 H5 H6] Hb Hage. split; cbn [with_bucket ev_log ev_seq ev_now ev_bucket]; try done.
  - intros k m' [_ Hb']%lookup_delete_Some. by apply H5.
  - intros k m' [<-|Hb']%lookup_delete_None Hin Ek; [|by apply (H6 k)].
    destruct (H5 _ _ Hb) as (Ek' & Hm & Hl). pose proof (H3 m' m Hin Hm (Hl m' Hin Ek)). lia.
Qed.

(** What the environment knew of a key, it knows still. *)
Definition keeps (e e' : Env) (k : string) : Prop :=
  (ev_facts e' k = ev_facts e k ∨ due_for (ev_due e') k) ∧ (due_for (ev_due e) k → due_for (ev_due e') k).

Lemma keeps_commit (e : Env) facts ds k :
  (∀ key, ¬ due_for ds key → facts key = ev_facts e key) → keeps e (commit facts ds e) k.
Proof.
  intros Hf. split.
  - destruct (decide (Exists (λ d, covers d k = true) ds)) as [Hx|Hx].
    + right. apply Exists_exists in Hx as (d & ? & ?). exists d. split; [apply elem_of_app; by left|done].
    + left. apply Hf. intros (d & ? & ?). apply Hx, Exists_exists. by exists d.
  - intros (d & ? & ?). exists d. split; [apply elem_of_app; by right|done].
Qed.

(** A deletion made is due no longer, of its own key alone. *)
Lemma due_deleted (e : Env) l1 key l2 k :
  ev_due e = l1 ++ DelKey key :: l2 →
  k ≠ kv_key (message e key OpDelete "") ∨ ¬ is_delete (message e key OpDelete "") →
  due_for (ev_due e) k → due_for (l1 ++ l2) k.
Proof.
  intros Edue Hk (d & Hd & Hcov). rewrite Edue in Hd. exists d. split; [|done].
  apply elem_of_app in Hd as [?|[->|?]%elem_of_cons]; [set_solver| |set_solver].
  cbn in Hcov. apply String.eqb_eq in Hcov as ->. destruct Hk as [[]|Hk]; [done|]. by destruct Hk.
Qed.

End Stream.

Section Protocol.
Context {A F R : Type} `{!MemoryCodec A, !MemoryFacts A F R}.

Abbreviation Host := (Host A R).
Abbreviation Env := (Env F).
Abbreviation Reading := (Reading A R).
Abbreviation System := (Env * gmap nat Host)%type.

Definition queue (w : Watch) : option (list KvEntry) :=
  match w with Closed => None | Opening q | Watching q | Breaking q => Some q end.

Definition on_queue (f : list KvEntry → list KvEntry) (w : Watch) : Watch :=
  match w with Closed => Closed | Opening q => Opening (f q) | Watching q => Watching (f q) | Breaking q => Breaking (f q) end.

Definition with_memory (m : KvMemory A) (w : Watch) (h : Host) : Host :=
  {| ho_filter := ho_filter h; ho_memory := m; ho_watch := w; ho_reads := ho_reads h |}.
Definition with_reads (rs : list Reading) (h : Host) : Host :=
  {| ho_filter := ho_filter h; ho_memory := ho_memory h; ho_watch := ho_watch h; ho_reads := rs |}.
Definition to_phase (p : Phase A R) (r : Reading) : Reading :=
  {| re_key := re_key r; re_ticket := re_ticket r; re_started := re_started r; re_phase := p |}.

(** The bucket sends a message to the watch of every host that filters for its key. *)
Definition send_to (m : KvEntry) (h : Host) : Host :=
  with_memory (ho_memory h) (on_queue (λ q, if ho_filter h (kv_key m) then q ++ [m] else q) (ho_watch h)) h.

(** The last message of each key the host filters for. *)
Definition bucket_snapshot (b : gmap string KvEntry) (h : Host) (q : list KvEntry) : Prop :=
  NoDup (kv_key <$> q) ∧ ∀ m, m ∈ q ↔ b !! kv_key m = Some m ∧ ho_filter h (kv_key m) = true.

(** One step of a host: the reads of its requests, and its watch. *)
Inductive host_step (orderly : bool) (e : Env) (h : Host) : Host → Prop :=
  | Begin key : ho_filter h key = true →
      host_step orderly e h (with_reads ({| re_key := key; re_ticket := ticket (ho_memory h) (ev_now e) key;
                                    re_started := ev_now e; re_phase := Begun |} :: ho_reads h) h)
  | Read l1 x l2 r : ho_reads h = l1 ++ x :: l2 → re_phase x = Begun → reads r (ev_facts e (re_key x)) →
      host_step orderly e h (with_reads (l1 ++ to_phase (Known r) x :: l2) h)
  | Send l1 x l2 r o v : ho_reads h = l1 ++ x :: l2 → re_phase x = Known r →
      o = replaced (ho_memory h) (ev_now e) (re_key x) (re_ticket x) →
      put_request (ho_memory h) (merge r o) = Some v →
      host_step orderly e h (with_reads (l1 ++ to_phase (Sent r o (merge r o) v) x :: l2) h)
  | Keep l1 x l2 revision at_ a : ho_reads h = l1 ++ x :: l2 → re_phase x = Stored revision at_ a →
      (orderly = true → ev_now e ≤ at_ + PUT_TIMEOUT) →
      host_step orderly e h (with_reads (l1 ++ l2)
        (with_memory (put_answered (ho_memory h) (ev_now e) (re_key x) a (Updated revision)) (ho_watch h) h))
  | GiveUp l1 x l2 : ho_reads h = l1 ++ x :: l2 → host_step orderly e h (with_reads (l1 ++ l2) h)
  | Subscribe q : ho_watch h = Closed → bucket_snapshot (ev_bucket e) h q →
      host_step orderly e h (with_memory (ho_memory h) (Opening q) h)
  | OpenWatch q : ho_watch h = Opening q →
      host_step orderly e h (with_memory (set_bucket true (clear (ho_memory h))) (Watching q) h)
  | Deliver l1 m l2 : ho_watch h = Watching (l1 ++ m :: l2) → Forall (λ m', kv_key m' ≠ kv_key m) l1 →
      host_step orderly e h (with_memory (apply (ho_memory h) (ev_now e) m) (Watching (l1 ++ l2)) h)
  | BreakWatch q : queue (ho_watch h) = Some q →
      host_step orderly e h (with_memory (set_bucket false (ho_memory h)) (Breaking q) h)
  | ClearMemory q : ho_watch h = Breaking q → host_step orderly e h (with_memory (clear (ho_memory h)) Closed h).

(** No host holds an answer of the key, or is past the read of it. *)
Definition unheld (key : string) (h : Host) : Prop :=
  (∀ x, km_entries (ho_memory h) !! key = Some x → en_answer x = None) ∧
  (∀ q m, queue (ho_watch h) = Some q → m ∈ q → kv_key m = key → message_answer m = None) ∧
  (∀ x, x ∈ ho_reads h → re_key x = key → re_phase x = Begun).

Inductive step (orderly : bool) : System → System → Prop :=
  | Tick e hs t : 0 ≤ t → step orderly (e, hs) (tick t e, hs)
  | Commit e hs facts ds : (∀ key, ¬ due_for ds key → facts key = ev_facts e key) →
      step orderly (e, hs) (commit facts ds e, hs)
  | ListUnder e hs l1 token l2 keys : ev_due e = l1 ++ DelUnder token :: l2 →
      (∀ key, key ∈ keys ↔ under token key = true ∧ is_Some (ev_bucket e !! key)) →
      (orderly = true → ∀ key i h, under token key = true → ev_bucket e !! key = None → hs !! i = Some h → unheld key h) →
      step orderly (e, hs) (with_due (l1 ++ (DelKey <$> keys) ++ l2) e, hs)
  | DeleteKey e hs l1 key l2 : ev_due e = l1 ++ DelKey key :: l2 →
      step orderly (e, hs) (with_due (l1 ++ l2) (stored (message e key OpDelete "") e),
                    send_to (message e key OpDelete "") <$> hs)
  | Expire e hs key m : ev_bucket e !! key = Some m → kv_created m + MEMORY_TTL ≤ ev_now e →
      step orderly (e, hs) (with_bucket (delete key (ev_bucket e)) e, hs)
  | Store e hs i h l1 x l2 r o a v : hs !! i = Some h → ho_reads h = l1 ++ x :: l2 → re_phase x = Sent r o a v →
      last_revision (ev_bucket e) (re_key x) = re_ticket x → (orderly = true → ev_now e < re_started x + MEMORY_TTL) →
      step orderly (e, hs)
        (stored (message e (re_key x) OpPut v) e,
         send_to (message e (re_key x) OpPut v) <$>
           <[i := with_reads (l1 ++ to_phase (Stored (ev_seq e + 1) (ev_now e) a) x :: l2) h]> hs)
  | Remake e hs : orderly = false → step orderly (e, hs) (remade e, hs)
  | OfHost e hs i h h' : hs !! i = Some h → host_step orderly e h h' → step orderly (e, hs) (e, <[i := h']> hs).

(** Before the first message: hosts that watch nothing yet. *)
Definition fresh_host (f : string → bool) : Host :=
  {| ho_filter := f; ho_memory := new_memory MEMORY_TTL; ho_watch := Closed; ho_reads := [] |}.
Definition initial (facts : string → F) (filters : gmap nat (string → bool)) : System :=
  ({| ev_now := 0; ev_facts := facts; ev_due := []; ev_seq := 0; ev_log := []; ev_bucket := ∅ |}, fresh_host <$> filters).

(** ** The invariant *)

Definition message_ok (e : Env) (m : KvEntry) : Prop :=
  m ∈ ev_log e ∧
  (newest (ev_log e) m → ∀ a, message_answer m = Some a → agrees a (ev_facts e (kv_key m)) ∨ due_for (ev_due e) (kv_key m)).

Record env_ok (e : Env) : Prop := {
  eo_stream : stream_ok e;
  eo_held k m : ev_bucket e !! k = Some m → message_ok e m;
}.

(** A read agrees with the fact, or a deletion is due, or the bucket refuses its ticket. *)
Definition read_ok (e : Env) (x : Reading) (r : R) : Prop :=
  reads r (ev_facts e (re_key x)) ∨ due_for (ev_due e) (re_key x) ∨
  ∃ d, d ∈ ev_log e ∧ is_delete d ∧ kv_key d = re_key x ∧ re_ticket x < kv_revision d ∧ re_started x ≤ kv_created d.

Definition phase_ok (e : Env) (x : Reading) : Prop :=
  match re_phase x with
  | Begun => True
  | Known r => read_ok e x r
  | Sent r o a v => a = merge r o ∧ encode a = Some v ∧ read_ok e x r ∧
      ∀ b, o = Some b → ∃ m, m ∈ ev_log e ∧ kv_key m = re_key x ∧ kv_revision m = re_ticket x ∧ message_answer m = Some b
  | Stored revision at_ a => ∃ m, message_ok e m ∧ kv_key m = re_key x ∧ kv_revision m = revision ∧
      kv_created m = at_ ∧ message_answer m = Some a
  end.

Definition reading_ok (e : Env) (h : Host) (x : Reading) : Prop :=
  ho_filter h (re_key x) = true ∧ 0 ≤ re_ticket x ≤ ev_seq e ∧ re_started x ≤ ev_now e ∧ phase_ok e x.

Definition entry_ok (e : Env) (k : string) (x : Entry A) : Prop :=
  ∃ m, message_ok e m ∧ kv_key m = k ∧ kv_revision m = en_revision x ∧ message_answer m = en_answer x ∧
    kv_created m ≤ en_seen x ≤ ev_now e.

(** A delete has reached the host, or is on its way, or is older than any answer kept. *)
Definition delete_seen (e : Env) (h : Host) (q : list KvEntry) (d : KvEntry) : Prop :=
  (∃ m, m ∈ q ∧ kv_key m = kv_key d ∧ kv_revision d ≤ kv_revision m) ∨
  Forall (λ m, kv_key m ≠ kv_key d) q ∧
  match km_entries (ho_memory h) !! kv_key d with
  | Some x => kv_revision d ≤ en_revision x
  | None => kv_created d + MEMORY_TTL ≤ ev_now e
  end.

Record host_ok (e : Env) (h : Host) : Prop := {
  hk_ttl : km_ttl (ho_memory h) = MEMORY_TTL;
  hk_watch : match ho_watch h with
             | Closed | Opening _ => km_entries (ho_memory h) = ∅ ∧ km_bucket (ho_memory h) = false
             | Watching _ => km_bucket (ho_memory h) = true
             | Breaking _ => km_bucket (ho_memory h) = false
             end;
  hk_entries k x : km_entries (ho_memory h) !! k = Some x → ho_filter h k = true ∧ entry_ok e k x;
  hk_queue q m : queue (ho_watch h) = Some q → m ∈ q → message_ok e m ∧ ho_filter h (kv_key m) = true;
  hk_order q : queue (ho_watch h) = Some q → StronglySorted (λ m m', kv_key m = kv_key m' → kv_revision m < kv_revision m') q;
  hk_deletes q d : queue (ho_watch h) = Some q → d ∈ ev_log e → is_delete d → ho_filter h (kv_key d) = true → delete_seen e h q d;
  hk_reads x : x ∈ ho_reads h → reading_ok e h x;
}.

Definition system_ok (s : System) : Prop := env_ok s.1 ∧ ∀ i h, s.2 !! i = Some h → host_ok s.1 h.

(** *** Changes of the environment without a message *)

Lemma message_ok_keeps e e' m :
  ev_log e' = ev_log e → message_answer m = None ∨ keeps e e' (kv_key m) → message_ok e m → message_ok e' m.
Proof.
  intros El Hk [Hin Ha]. split; [by rewrite El|]. rewrite El. intros Hn a Em.
  destruct Hk as [|[Hf Hd]]; [congruence|]. destruct (Ha Hn a Em) as [?|?]; [|by right; apply Hd].
  destruct Hf as [->|?]; [by left|by right].
Qed.

Lemma read_ok_keeps e e' x r : ev_log e' = ev_log e → keeps e e' (re_key x) → read_ok e x r → read_ok e' x r.
Proof.
  intros El [Hf Hd]. unfold read_ok. rewrite El. intros [?|[?|?]]; [|by right; left; apply Hd|by right; right].
  destruct Hf as [->|?]; [by left|by right; left].
Qed.

Lemma host_ok_keeps e e' h :
  ev_now e ≤ ev_now e' → ev_log e' = ev_log e → ev_seq e' = ev_seq e → (∀ k, keeps e e' k ∨ unheld k h) →
  host_ok e h → host_ok e' h.
Proof.
  intros Hnow El Es Hk [Ht Hw He Hq Ho Hd Hr]. split; [done|done|..].
  3: done.
  - intros k x Hx. destruct (He k x Hx) as [Hf (m & Hm & Em & Er & Ea & Hs)]. split; [done|].
    exists m. split_and!; [|done..|lia|lia]. eapply message_ok_keeps; [done| |done].
    destruct (Hk k) as [?|(Hu & _)]; [right; by rewrite Em|left]. rewrite Ea. by apply Hu.
  - intros q m Eq Hm. destruct (Hq q m Eq Hm) as [? ?]. split; [|done]. eapply message_ok_keeps; [done| |done].
    destruct (Hk (kv_key m)) as [?|(_ & Hu & _)]; [by right|left]. by eapply Hu.
  - intros q d Eq Hin Hdel Hf. rewrite El in Hin. destruct (Hd q d Eq Hin Hdel Hf) as [?|[? Hx]]; [by left|right].
    split; [done|]. destruct (_ !! kv_key d); [done|lia].
  - intros x Hx. destruct (Hr x Hx) as (? & ? & ? & Hp). rewrite <- Es in *. split_and!; [done|lia|lia|lia|].
    destruct (Hk (re_key x)) as [Hkx|(_ & _ & Hu)]; [|unfold phase_ok; by rewrite (Hu x)].
    unfold phase_ok in *. destruct (re_phase x) as [|r|r o a v|rev at_ a]; [done|by eapply read_ok_keeps|..].
    + destruct Hp as (? & ? & ? & Hb). split_and!; [done|done|by eapply read_ok_keeps|]. by rewrite El.
    + destruct Hp as (m & ? & Em & ?). exists m. split_and!; [|tauto..]. eapply message_ok_keeps; [done| |done].
      right. by rewrite Em.
Qed.

Lemma env_ok_keeps e e' :
  ev_now e ≤ ev_now e' → ev_log e' = ev_log e → ev_seq e' = ev_seq e → ev_bucket e' = ev_bucket e →
  (∀ k, is_Some (ev_bucket e !! k) → keeps e e' k) → env_ok e → env_ok e'.
Proof.
  intros Hnow El Es Eb Hk [Hs Hh]. split; [by eapply stream_ok_same|]. rewrite Eb. intros k m Hm.
  eapply message_ok_keeps; [done| |by eapply Hh]. right. destruct (so_last _ Hs _ _ Hm) as [-> _]. by apply Hk.
Qed.

(** *** A message *)

Lemma message_ok_stored e m m' due' :
  env_ok e → kv_revision m = ev_seq e + 1 →
  (∀ k, k ≠ kv_key m ∨ ¬ is_delete m → due_for (ev_due e) k → due_for due' k) →
  message_ok e m' → message_ok (with_due due' (stored m e)) m'.
Proof.
  intros He Em Hdue [Hin Ha]. split; [by apply elem_of_cons; right|]. cbn [ev_log ev_facts ev_due stored with_due].
  intros Hn a Ea. destruct (Ha (λ d Hd, Hn d (list_elem_of_further _ _ _ Hd)) a Ea) as [?|Hd]; [by left|right].
  apply Hdue; [|done]. destruct (decide (kv_key m' = kv_key m)) as [E|]; [right|by left]. intros Hdel.
  pose proof (Hn m (list_elem_of_here _ _) Hdel (eq_sym E)). pose proof (so_range _ (eo_stream _ He) m' Hin). lia.
Qed.

Lemma read_ok_stored e m x r due' :
  env_ok e → kv_revision m = ev_seq e + 1 → kv_created m = ev_now e →
  (∀ k, k ≠ kv_key m ∨ ¬ is_delete m → due_for (ev_due e) k → due_for due' k) →
  re_ticket x ≤ ev_seq e → re_started x ≤ ev_now e →
  read_ok e x r → read_ok (with_due due' (stored m e)) x r.
Proof.
  intros He Em Ec Hdue Ht Hs [?|[Hd|(d & ? & ?)]]; [by left| |right; right; exists d; split; [by apply elem_of_cons; right|done]].
  destruct (decide (re_key x = kv_key m ∧ kv_operation m ≠ OpPut)) as [[Ek Hdel]|Hn].
  - right; right. exists m. split_and!; [apply list_elem_of_here|done|done|lia|lia].
  - right; left. apply Hdue; [|done]. destruct (decide (re_key x = kv_key m)); [right|by left]. unfold is_delete. tauto.
Qed.

Lemma env_ok_stored e m due' :
  env_ok e → kv_revision m = ev_seq e + 1 → kv_created m = ev_now e →
  (∀ k, k ≠ kv_key m ∨ ¬ is_delete m → due_for (ev_due e) k → due_for due' k) →
  message_ok (with_due due' (stored m e)) m → env_ok (with_due due' (stored m e)).
Proof.
  intros He Em Ec Hdue Hm. split; [by apply stream_ok_stored, Ec; [apply He|]|].
  intros k m' Hb. cbn [ev_bucket stored with_due] in Hb. destruct (decide (k = kv_key m)) as [->|Hne].
  - rewrite lookup_insert_eq in Hb. by injection Hb as <-.
  - rewrite lookup_insert_ne in Hb by done. apply message_ok_stored; [done|done|done|]. by eapply He.
Qed.

Lemma queue_on_queue f w : queue (on_queue f w) = f <$> queue w.
Proof. by destruct w. Qed.

Lemma host_ok_sent e m h due' :
  env_ok e → kv_revision m = ev_seq e + 1 → kv_created m = ev_now e →
  (∀ k, k ≠ kv_key m ∨ ¬ is_delete m → due_for (ev_due e) k → due_for due' k) →
  message_ok (with_due due' (stored m e)) m → host_ok e h → host_ok (with_due due' (stored m e)) (send_to m h).
Proof.
  intros He Em Ec Hdue Hm [Ht Hw Hen Hq Ho Hd Hr]. split; cbn [send_to with_memory ho_memory ho_watch ho_filter ho_reads].
  - done.
  - by destruct (ho_watch h).
  - intros k x Hx. destruct (Hen k x Hx) as [? (m' & ? & ?)]. split; [done|]. exists m'. split; [by apply message_ok_stored|done].
  - intros q m'. rewrite queue_on_queue. destruct (queue (ho_watch h)) as [q0|] eqn:Eq; [|done].
    cbn [fmap option_fmap option_map]. intros [= <-]. destruct (ho_filter h (kv_key m)) eqn:Hf.
    + intros [Hin| ->%list_elem_of_singleton]%elem_of_app; [|done]. destruct (Hq q0 m' eq_refl Hin). by split; [apply message_ok_stored|].
    + intros Hin. destruct (Hq q0 m' eq_refl Hin). by split; [apply message_ok_stored|].
  - intros q. rewrite queue_on_queue. destruct (queue (ho_watch h)) as [q0|] eqn:Eq; [|done].
    cbn [fmap option_fmap option_map]. intros [= <-]. specialize (Ho q0 eq_refl). destruct (ho_filter h (kv_key m)); [|done].
    apply StronglySorted_app_2; [|done|by repeat constructor].
    intros m1 m2 Hin ->%list_elem_of_singleton _. destruct (Hq q0 m1 eq_refl Hin) as [[Hl _] _]. pose proof (so_range _ (eo_stream _ He) m1 Hl). lia.
  - intros q d. rewrite queue_on_queue. destruct (queue (ho_watch h)) as [q0|] eqn:Eq; [|done].
    cbn [fmap option_fmap option_map]. intros [= <-] [->|Hin]%elem_of_cons Hdel Hf; cbn [send_to with_memory ho_memory].
    + left. exists m. rewrite Hf. split_and!; [by apply elem_of_app; right; apply list_elem_of_singleton|done|lia].
    + destruct (Hd q0 d eq_refl Hin Hdel Hf) as [(m' & Hm' & ?)|[Hall Hx]].
      * left. exists m'. split; [|done]. destruct (ho_filter h (kv_key m)); [by apply elem_of_app; left|done].
      * destruct (decide (kv_key m = kv_key d)) as [E|Hne].
        -- left. exists m. rewrite E, Hf. split_and!; [by apply elem_of_app; right; apply list_elem_of_singleton|done|].
           pose proof (so_range _ (eo_stream _ He) d Hin). lia.
        -- right. split; [|done]. destruct (ho_filter h (kv_key m)); [|done]. apply Forall_app. by split; [|constructor].
  - intros x Hx. destruct (Hr x Hx) as (? & Htk & Hst & Hp). split_and!; [done|cbn; lia|cbn; lia|done|].
    unfold phase_ok in *. destruct (re_phase x) as [|r|r o a v|rev at_ a]; [done|apply read_ok_stored; try done; lia|..].
    + destruct Hp as (? & ? & ? & Hb). split_and!; [done|done|apply read_ok_stored; try done; lia|].
      intros b Eb. destruct (Hb b Eb) as (m' & ? & ?). exists m'. split; [by apply elem_of_cons; right|done].
    + destruct Hp as (m' & ? & ?). exists m'. split; [by apply message_ok_stored|done].
Qed.

(** *** A host *)

Lemma host_ok_reads e h rs : host_ok e h → (∀ x, x ∈ rs → reading_ok e h x) → host_ok e (with_reads rs h).
Proof. intros [Ht Hw He Hq Ho Hd _] Hr. by split. Qed.

Lemma reads_split e h l1 x l2 :
  host_ok e h → ho_reads h = l1 ++ x :: l2 → reading_ok e h x ∧ ∀ y, y ∈ l1 ++ l2 → reading_ok e h y.
Proof.
  intros Hh E. pose proof (hk_reads _ _ Hh) as Hr. rewrite E in Hr. split; [apply Hr; set_solver|].
  intros y Hy. apply Hr. set_solver.
Qed.

Lemma reads_replace e h l1 x x' l2 :
  host_ok e h → ho_reads h = l1 ++ x :: l2 → reading_ok e h x' → host_ok e (with_reads (l1 ++ x' :: l2) h).
Proof.
  intros Hh E Hx. apply host_ok_reads; [done|]. destruct (reads_split _ _ _ _ _ Hh E) as [_ Hr].
  intros y. rewrite elem_of_app, elem_of_cons. intros [?|[->|?]]; [apply Hr; set_solver|done|apply Hr; set_solver].
Qed.

Lemma reads_insert e h l1 x l2 :
  host_ok e h → ho_reads h = l1 ++ l2 → reading_ok e h x → host_ok e (with_reads (l1 ++ x :: l2) h).
Proof.
  intros Hh E Hx. apply host_ok_reads; [done|]. pose proof (hk_reads _ _ Hh) as Hr. rewrite E in Hr.
  intros y. rewrite elem_of_app, elem_of_cons. intros [?|[->|?]]; [apply Hr; set_solver|done|apply Hr; set_solver].
Qed.

(** The entries of a memory account for a delete. *)
Definition accounted (e : Env) (m : KvMemory A) (d : KvEntry) : Prop :=
  match km_entries m !! kv_key d with
  | Some x => kv_revision d ≤ en_revision x
  | None => kv_created d + MEMORY_TTL ≤ ev_now e
  end.

Lemma accounted_keep e h d key revision a :
  env_ok e → host_ok e h → d ∈ ev_log e → 0 ≤ revision →
  (key = kv_key d → kv_created d + MEMORY_TTL ≤ ev_now e → kv_revision d ≤ revision) →
  accounted e (ho_memory h) d → accounted e (keep_entry (ho_memory h) (ev_now e) key revision a) d.
Proof.
  intros He Hh Hd Hrev Hkey Hacc.
  assert (∀ x, km_entries (ho_memory h) !! kv_key d = Some x → live (km_ttl (ho_memory h)) (ev_now e) x = false →
            kv_created d + MEMORY_TTL ≤ ev_now e) as Hold.
  { intros x Hx Hl. unfold accounted in Hacc. rewrite Hx in Hacc.
    destruct (hk_entries _ _ Hh _ _ Hx) as [_ (m & [Hm _] & _ & Er & _ & Hs)].
    assert (kv_created d ≤ kv_created m) by (apply (so_order _ (eo_stream _ He)); [done|done|lia]).
    rewrite (hk_ttl _ _ Hh) in Hl. apply not_true_iff_false in Hl. rewrite live_spec in Hl by done. lia. }
  unfold accounted in *. destruct (km_entries (ho_memory h) !! kv_key d) as [x|] eqn:Ex.
  - pose proof (keep_entry_newer _ (ev_now e) key revision a _ _ Ex) as Hn.
    destruct (km_entries (keep_entry _ _ _ _ _) !! kv_key d) as [x'|] eqn:Ex'; [|by apply (Hold x)].
    destruct Hn as [?|Hl]; [lia|].
    destruct (keep_entry_lookup _ _ _ _ _ _ _ Hrev Ex') as [E|[Ek ->]]; [by assert (x' = x) as -> by congruence|].
    apply Hkey; [done|]. by apply (Hold x).
  - destruct (km_entries (keep_entry _ _ _ _ _) !! kv_key d) as [x'|] eqn:Ex'; [|done].
    destruct (keep_entry_lookup _ _ _ _ _ _ _ Hrev Ex') as [E|[Ek ->]]; [congruence|]. by apply Hkey.
Qed.

(** A keep of a message of the log. *)
Lemma entries_keep e h m k x :
  env_ok e → host_ok e h → message_ok e m → ho_filter h (kv_key m) = true →
  km_entries (keep_entry (ho_memory h) (ev_now e) (kv_key m) (kv_revision m) (message_answer m)) !! k = Some x →
  ho_filter h k = true ∧ entry_ok e k x.
Proof.
  intros He Hh Hm Hf Hx. destruct Hm as [Hin Ha]. pose proof (so_range _ (eo_stream _ He) m Hin).
  destruct (keep_entry_lookup _ _ _ _ _ _ _ (ltac:(lia) : 0 ≤ kv_revision m) Hx) as [?|[-> ->]]; [by apply (hk_entries _ _ Hh)|].
  split; [done|]. exists m. cbn. split_and!; [done..|lia|lia].
Qed.

Lemma host_ok_keep e h m :
  env_ok e → host_ok e h → message_ok e m → ho_filter h (kv_key m) = true → ev_now e ≤ kv_created m + PUT_TIMEOUT →
  host_ok e (with_memory (keep_entry (ho_memory h) (ev_now e) (kv_key m) (kv_revision m) (message_answer m)) (ho_watch h) h).
Proof.
  intros He Hh Hm Hf Hput. pose proof (so_range _ (eo_stream _ He) m (proj1 Hm)) as Hrange.
  split; cbn [with_memory ho_memory ho_watch ho_filter ho_reads]; [..|apply Hh].
  - rewrite keep_entry_ttl. apply Hh.
  - rewrite keep_entry_bucket. pose proof (hk_watch _ _ Hh) as Hw.
    destruct (ho_watch h); [by rewrite keep_entry_closed by apply Hw..|done|done].
  - intros k x Hx. by eapply entries_keep.
  - apply Hh.
  - apply Hh.
  - intros q d Eq Hd Hdel Hfd. destruct (hk_deletes _ _ Hh q d Eq Hd Hdel Hfd) as [?|[? Hacc]]; [by left|right].
    split; [done|]. apply accounted_keep; [done|done|done|lia| |done]. intros E Hage.
    destruct (Z.le_gt_cases (kv_revision d) (kv_revision m)); [done|].
    assert (kv_created m ≤ kv_created d) by (apply (so_order _ (eo_stream _ He)); [apply Hm|done|lia]).
    unfold MEMORY_TTL, PUT_TIMEOUT in *. lia.
Qed.

Lemma host_ok_deliver e h l1 m l2 :
  env_ok e → host_ok e h → ho_watch h = Watching (l1 ++ m :: l2) → Forall (λ m', kv_key m' ≠ kv_key m) l1 →
  host_ok e (with_memory (apply (ho_memory h) (ev_now e) m) (Watching (l1 ++ l2)) h).
Proof.
  intros He Hh Ew Hfirst. pose proof Hh as [Ht Hw Hen Hq Ho Hd Hr]. rewrite Ew in *. cbn [queue] in *.
  destruct (Hq _ m eq_refl) as [Hm Hf]; [set_solver|]. pose proof (so_range _ (eo_stream _ He) m (proj1 Hm)) as Hrange.
  specialize (Ho _ eq_refl). unfold apply.
  split; cbn [with_memory ho_memory ho_watch ho_filter ho_reads queue]; [..|apply Hh].
  - by rewrite keep_entry_ttl.
  - by rewrite keep_entry_bucket.
  - intros k x Hx. by eapply entries_keep.
  - intros q m' [= <-] Hin. apply (Hq _ m' eq_refl). set_solver.
  - intros q [= <-]. apply StronglySorted_app in Ho as (Hc & H1 & H2). apply StronglySorted_app_2; [|done|].
    + intros x y Hx Hy. apply Hc; [done|set_solver].
    + by inversion H2.
  - intros q d [= <-] Hin Hdel Hfd.
    assert (Forall (λ m', kv_key m' ≠ kv_key d) (l1 ++ l2) ∨ ∃ m', m' ∈ l1 ++ l2 ∧ kv_key m' = kv_key d) as Hdec.
    { destruct (decide (Exists (λ m', kv_key m' = kv_key d) (l1 ++ l2))) as [Hx|Hx].
      - right. apply Exists_exists in Hx as (m' & ? & ?). by exists m'.
      - left. by apply Forall_not_Exists in Hx || (apply Forall_forall; intros m' ? ?; apply Hx, Exists_exists; by exists m'). }
    destruct (Hd _ d eq_refl Hin Hdel Hfd) as [(m' & Hm' & Ek & Er)|[Hall Hacc]].
    + assert (m' ∈ l1 ++ l2 ∨ m' = m) as [?| ->] by set_solver; [by left; exists m'|].
      destruct Hdec as [Hnone|(m2 & Hm2 & Ek2)].
      * right. split; [done|]. cbn [with_memory ho_memory]. rewrite <- Ek.
        destruct (keep_entry_kept (ho_memory h) (ev_now e) (kv_key m) (kv_revision m) (message_answer m) Hw) as (x & -> & ?). lia.
      * left. exists m2. split_and!; [done|done|]. apply StronglySorted_app in Ho as (_ & _ & H2).
        apply elem_of_app in Hm2 as [Hm2|Hm2]; [by rewrite Forall_forall in Hfirst; destruct (Hfirst m2 Hm2); congruence|].
        inversion H2 as [|? ? _ Hlt]; subst. rewrite Forall_forall in Hlt. specialize (Hlt m2 Hm2). rewrite Ek, Ek2 in Hlt. specialize (Hlt eq_refl). lia.
    + right. rewrite Forall_forall in Hall. split; [apply Forall_forall; intros y Hy; apply Hall; set_solver|].
      apply accounted_keep; [done|done|done|lia| |done]. intros E. destruct (Hall m); [set_solver|done].
Qed.

Lemma sorted_of_nodup q :
  NoDup (kv_key <$> q) → StronglySorted (λ m m', kv_key m = kv_key m' → kv_revision m < kv_revision m') q.
Proof.
  induction q as [|m q IH]; [constructor|]. cbn [fmap list_fmap]. intros [Hn ?]%NoDup_cons. constructor; [by apply IH|].
  apply Forall_forall. intros m' Hm' E. destruct Hn. rewrite E. by apply list_elem_of_fmap_2.
Qed.

Lemma host_ok_subscribe e h q :
  env_ok e → host_ok e h → ho_watch h = Closed → bucket_snapshot (ev_bucket e) h q →
  host_ok e (with_memory (ho_memory h) (Opening q) h).
Proof.
  intros He Hh Ew [Hnd Hsnap]. pose proof Hh as [Ht Hw Hen _ _ _ Hr]. rewrite Ew in Hw.
  split; cbn [with_memory ho_memory ho_watch ho_filter ho_reads queue]; [done|done|done|..|done].
  - intros q' m [= <-] Hm. apply Hsnap in Hm as [Hb ?]. split; [|done]. by apply (eo_held _ He _ _ Hb).
  - intros q' [= <-]. by apply sorted_of_nodup.
  - intros q' d [= <-] Hin Hdel Hf. destruct (ev_bucket e !! kv_key d) as [m|] eqn:Hb.
    + destruct (so_last _ (eo_stream _ He) _ _ Hb) as (Ek & _ & Hlast). left. exists m. split_and!; [|done|by apply Hlast].
      apply Hsnap. by rewrite Ek.
    + right. split.
      * apply Forall_forall. intros m Hm E. apply Hsnap in Hm as [Hm _]. congruence.
      * destruct Hw as [Hw _]. cbn [with_memory ho_memory]. rewrite Hw, lookup_empty. by apply (so_gone _ (eo_stream _ He) (kv_key d)).
Qed.

Context (decode_encode : ∀ a v, encode a = Some v → decode v = Some a).

Lemma host_step_ok e h h' : env_ok e → host_ok e h → host_step true e h h' → host_ok e h'.
Proof.
  intros He Hh Hstep. destruct Hstep as [key Hf|l1 x l2 r E Ep Hread|l1 x l2 r o v E Ep Eo Hput|l1 x l2 revision at_ a E Ep Hput
    |l1 x l2 E|q Ew Hsnap|q Ew|l1 m l2 Ew Hfirst|q Ew|q Ew].
  - apply host_ok_reads; [done|]. intros x [->|Hx]%elem_of_cons; [|by apply Hh]. split_and!; cbn; [done| | |lia|done].
    + destruct (ticket_entry (ho_memory h) (ev_now e) key) as [->|(x & Hx & ->)]; [done|].
      destruct (hk_entries _ _ Hh _ _ Hx) as [_ (m & [Hm _] & _ & <- & _)]. pose proof (so_range _ (eo_stream _ He) m Hm). lia.
    + destruct (ticket_entry (ho_memory h) (ev_now e) key) as [->|(x & Hx & ->)]; [apply (so_seq _ (eo_stream _ He))|].
      destruct (hk_entries _ _ Hh _ _ Hx) as [_ (m & [Hm _] & _ & <- & _)]. pose proof (so_range _ (eo_stream _ He) m Hm). lia.
  - eapply reads_replace; [done|done|]. destruct (reads_split _ _ _ _ _ Hh E) as [(? & ? & ? & _) _].
    split_and!; cbn [to_phase re_key re_ticket re_started]; [done|lia|lia|done|]. cbn. by left.
  - eapply reads_replace; [done|done|]. destruct (reads_split _ _ _ _ _ Hh E) as [(? & ? & ? & Hp) _].
    split_and!; cbn [to_phase re_key re_ticket re_started]; [done|lia|lia|done|]. unfold phase_ok in Hp. rewrite Ep in Hp. cbn.
    unfold put_request in Hput. destruct (km_bucket _); [|done]. split_and!; [done|done|done|].
    intros b ->. symmetry in Eo. apply replaced_entry in Eo as (y & Hy & Er & Ea).
    destruct (hk_entries _ _ Hh _ _ Hy) as [_ (m & [Hm _] & ? & ? & ? & _)]. exists m. split_and!; [done|done|lia|congruence].
  - destruct (reads_split _ _ _ _ _ Hh E) as [(? & ? & ? & Hp) Hr]. unfold phase_ok in Hp. rewrite Ep in Hp.
    destruct Hp as (m & Hm & Ek & <- & <- & Ea). apply host_ok_reads; [|done]. cbn [put_answered]. rewrite <- Ea, <- Ek.
    apply host_ok_keep; [done|done|done|by rewrite Ek|by apply Hput].
  - destruct (reads_split _ _ _ _ _ Hh E) as [_ Hr]. by apply host_ok_reads.
  - by apply host_ok_subscribe.
  - pose proof Hh as [Ht Hw Hen Hq Ho Hd Hr]. rewrite Ew in *. destruct Hw as [Hw _].
    split; cbn [with_memory ho_memory ho_watch ho_filter ho_reads queue set_bucket clear with_entries km_entries km_ttl km_bucket];
      [done|done|by intros k x; rewrite lookup_empty|done|done| |done].
    intros q' d [= <-] Hin Hdel Hf. pose proof (Hd q d eq_refl Hin Hdel Hf) as Hseen. unfold delete_seen in *.
    cbn [with_memory ho_memory set_bucket clear with_entries km_entries]. by rewrite Hw in Hseen.
  - by apply host_ok_deliver.
  - pose proof Hh as [Ht Hw Hen Hq Ho Hd Hr]. by split; cbn [with_memory ho_memory ho_watch ho_filter ho_reads queue];
      try (rewrite <- Ew).
  - pose proof Hh as [Ht Hw Hen Hq Ho Hd Hr]. rewrite Ew in Hw.
    split; cbn [with_memory ho_memory ho_watch ho_filter ho_reads queue clear with_entries km_entries km_ttl km_bucket]; try done.
Qed.

(** *** The system *)

(** The message a store makes tells the fact, or a deletion is due. *)
Lemma stored_message_ok e h x r o a v :
  env_ok e → reading_ok e h x → re_phase x = Sent r o a v →
  last_revision (ev_bucket e) (re_key x) = re_ticket x → ev_now e < re_started x + MEMORY_TTL →
  message_ok (stored (message e (re_key x) OpPut v) e) (message e (re_key x) OpPut v) ∧
  message_answer (message e (re_key x) OpPut v) = Some a.
Proof.
  intros He (_ & Htk & _ & Hp) Ep Hlast Htime. unfold phase_ok in Hp. rewrite Ep in Hp. destruct Hp as (-> & Hv & Hread & Hrep).
  assert (message_answer (message e (re_key x) OpPut v) = Some (merge r o)) as Ea by (by cbn; apply decode_encode).
  split; [|done]. split; [apply list_elem_of_here|]. intros _ a Ea'. rewrite Ea in Ea'. injection Ea' as <-.
  cbn [ev_facts ev_due stored kv_key message]. unfold last_revision in Hlast.
  destruct Hread as [Hread|[?|(d & Hd & Hdel & Ek & Hlt & Hst)]]; [|by right|].
  - destruct o as [b|]; [|left; apply merge_agrees; [done|by intros]].
    destruct (Hrep b eq_refl) as (m & Hm & Ekm & Erm & Eb). pose proof (so_range _ (eo_stream _ He) m Hm).
    destruct (ev_bucket e !! re_key x) as [m1|] eqn:Hb; [|lia].
    destruct (so_last _ (eo_stream _ He) _ _ Hb) as (Ek1 & Hm1 & Hlast1). destruct (eo_held _ He _ _ Hb) as [_ Hok]. assert (m1 = m) as -> by (apply (so_unique _ (eo_stream _ He)); [done|done|lia]).
    destruct (Hok (λ d Hd _ Ed, Hlast1 d Hd (eq_trans Ed Ek1)) b Eb) as [Hag|Hdue]; rewrite Ek1 in *; [|by right].
    left. apply merge_agrees; [done|]. by intros ? [= <-].
  - destruct (ev_bucket e !! re_key x) as [m1|] eqn:Hb.
    + destruct (so_last _ (eo_stream _ He) _ _ Hb) as (_ & _ & Hlast1). specialize (Hlast1 d Hd Ek). lia.
    + pose proof (so_gone _ (eo_stream _ He) _ _ Hb Hd Ek). lia.
Qed.

(** A change that every key survives, or is unheld by every host. *)
Lemma system_ok_keeps e e' hs :
  ev_now e ≤ ev_now e' → ev_log e' = ev_log e → ev_seq e' = ev_seq e → ev_bucket e' = ev_bucket e →
  (∀ k, keeps e e' k ∨ ev_bucket e !! k = None ∧ ∀ i h, hs !! i = Some h → unheld k h) →
  system_ok (e, hs) → system_ok (e', hs).
Proof.
  intros Hnow El Es Eb Hk [He Hhs]. cbn [fst snd] in *. split; cbn [fst snd].
  - apply (env_ok_keeps e); try done. intros k [m Hm]. destruct (Hk k) as [?|[? _]]; [done|congruence].
  - intros i h Hi. apply (host_ok_keeps e); try done; [|by eapply Hhs].
    intros k. destruct (Hk k) as [?|[_ Hu]]; [by left|right]. by eapply Hu.
Qed.

Lemma system_ok_list e hs l1 token l2 keys :
  ev_due e = l1 ++ DelUnder token :: l2 →
  (∀ key, key ∈ keys ↔ under token key = true ∧ is_Some (ev_bucket e !! key)) →
  (∀ key i h, under token key = true → ev_bucket e !! key = None → hs !! i = Some h → unheld key h) →
  system_ok (e, hs) → system_ok (with_due (l1 ++ (DelKey <$> keys) ++ l2) e, hs).
Proof.
  intros Edue Hkeys Hc. apply system_ok_keeps; [cbn; lia|done..|]. intros k.
  destruct (under token k) eqn:Hu; [destruct (ev_bucket e !! k) as [m|] eqn:Hb|].
  2: { right. split; [done|]. intros i h. by eapply Hc. }
  all: left; split; [by left|]; intros (d & Hd & Hcov); rewrite Edue in Hd; cbn [ev_due with_due].
  all: apply elem_of_app in Hd as [?|[->|?]%elem_of_cons]; [exists d; split; [set_solver|done]| |exists d; split; [set_solver|done]].
  - exists (DelKey k). split; [|apply String.eqb_refl]. apply elem_of_app; right; apply elem_of_app; left.
    apply list_elem_of_fmap_2, Hkeys. by rewrite Hb.
  - cbn in Hcov. congruence.
Qed.

(** A message that is sound leaves the system sound. *)
Lemma system_ok_sent e hs m due' :
  kv_revision m = ev_seq e + 1 → kv_created m = ev_now e →
  (∀ k, k ≠ kv_key m ∨ ¬ is_delete m → due_for (ev_due e) k → due_for due' k) →
  message_ok (with_due due' (stored m e)) m → system_ok (e, hs) →
  system_ok (with_due due' (stored m e), send_to m <$> hs).
Proof.
  intros Em Ec Hdue Hm [He Hhs]. cbn [fst snd] in *. split; cbn [fst snd]; [by apply env_ok_stored|].
  intros i h' Hi. rewrite lookup_fmap in Hi. destruct (hs !! i) as [h|] eqn:Hi'; [|done]. injection Hi as <-.
  apply host_ok_sent; try done. by eapply Hhs.
Qed.

Lemma system_ok_delete e hs l1 key l2 :
  ev_due e = l1 ++ DelKey key :: l2 → system_ok (e, hs) →
  system_ok (with_due (l1 ++ l2) (stored (message e key OpDelete "") e), send_to (message e key OpDelete "") <$> hs).
Proof.
  intros Edue. apply system_ok_sent; [done|done| |split; [apply list_elem_of_here|done]].
  intros k. by apply due_deleted.
Qed.

Lemma system_ok_insert e hs i h : host_ok e h → system_ok (e, hs) → system_ok (e, <[i := h]> hs).
Proof.
  intros Hh [He Hhs]. split; [done|]. intros j h0 Hj. cbn [snd] in Hj. destruct (decide (j = i)) as [->|Hne].
  - rewrite lookup_insert_eq in Hj. by injection Hj as <-.
  - rewrite lookup_insert_ne in Hj by done. by eapply Hhs.
Qed.

Lemma system_ok_store e hs i h l1 x l2 r o a v :
  hs !! i = Some h → ho_reads h = l1 ++ x :: l2 → re_phase x = Sent r o a v →
  last_revision (ev_bucket e) (re_key x) = re_ticket x → ev_now e < re_started x + MEMORY_TTL →
  system_ok (e, hs) →
  system_ok (stored (message e (re_key x) OpPut v) e,
    send_to (message e (re_key x) OpPut v) <$>
      <[i := with_reads (l1 ++ to_phase (Stored (ev_seq e + 1) (ev_now e) a) x :: l2) h]> hs).
Proof.
  intros Hi E Ep Hlast Htime Hok. pose proof Hok as [He Hhs]. cbn [fst snd] in *.
  destruct (reads_split _ _ _ _ _ (Hhs _ _ Hi) E) as [Hx Hrest].
  destruct (stored_message_ok e h x r o a v He Hx Ep Hlast Htime) as [Hm Ea]. set (m := message e (re_key x) OpPut v) in *.
  change (stored m e) with (with_due (ev_due e) (stored m e)) in *.
  assert (host_ok e (with_reads (l1 ++ l2) h)) as Hh by (apply host_ok_reads; [by eapply Hhs|done]).
  pose proof (system_ok_sent e (<[i := with_reads (l1 ++ l2) h]> hs) m (ev_due e) eq_refl eq_refl (λ _ _ H, H) Hm
    (system_ok_insert _ _ _ _ Hh Hok)) as Hsent.
  rewrite fmap_insert in *.
  replace (<[i := _]> (send_to m <$> hs)) with
    (<[i := with_reads (l1 ++ to_phase (Stored (ev_seq e + 1) (ev_now e) a) x :: l2) (send_to m (with_reads (l1 ++ l2) h))]>
       (<[i := send_to m (with_reads (l1 ++ l2) h)]> (send_to m <$> hs))) by (by rewrite insert_insert_eq).
  apply system_ok_insert; [|done]. apply reads_insert; [|done|].
  - apply (proj2 Hsent i). apply lookup_insert_eq.
  - destruct Hx as (? & ? & ? & _). split_and!; [done|cbn; lia|cbn; lia|cbn; lia|].
    cbn [phase_ok to_phase re_phase re_key]. by exists m.
Qed.

Lemma step_ok s s' : system_ok s → step true s s' → system_ok s'.
Proof.
  intros Hok Hstep. destruct Hstep as [e hs t Ht|e hs facts ds Hf|e hs l1 token l2 keys Edue Hkeys Hc|e hs l1 key l2 Edue
    |e hs key m Hb Hage|e hs i h l1 x l2 r o a v Hi E Ep Hlast Htime|e hs Hno|e hs i h h' Hi Hh'].
  - revert Hok. apply system_ok_keeps; [cbn; lia|done..|]. intros k. left. split; [by left|done].
  - revert Hok. apply system_ok_keeps; [cbn; lia|done..|]. intros k. left. by apply keeps_commit.
  - eapply system_ok_list; eauto.
  - by apply system_ok_delete.
  - destruct Hok as [He Hhs]. split; cbn [fst snd] in *.
    + split; [by eapply stream_ok_expire; [apply He|..]|]. cbn [with_bucket ev_bucket].
      intros k m' [_ Hb']%lookup_delete_Some. by eapply He.
    + intros i h Hi. destruct (Hhs i h Hi) as [H1 H2 H3 H4 H5 H6 H7]. by split.
  - eapply system_ok_store; eauto.
  - done.
  - apply system_ok_insert; [|done]. destruct Hok as [He Hhs]. eapply host_step_ok; [done| |done]. by eapply Hhs.
Qed.

Lemma initial_ok facts filters : system_ok (initial facts filters).
Proof.
  split; cbn [fst snd initial].
  - split; [split|]; cbn [ev_log ev_seq ev_bucket ev_now].
    + by intros m ?%elem_of_nil.
    + by intros m m' ?%elem_of_nil.
    + by intros m m' ?%elem_of_nil.
    + done.
    + by intros k m; rewrite lookup_empty.
    + by intros k m _ ?%elem_of_nil.
    + by intros k m; rewrite lookup_empty.
  - intros i h Hi. rewrite lookup_fmap in Hi. destruct (filters !! i) as [f|]; [|done]. injection Hi as <-.
    split; cbn [fresh_host ho_memory ho_watch ho_reads new_memory km_ttl km_entries queue km_bucket]; try done.
    by intros x ?%elem_of_nil.
Qed.

Lemma memory_reachable_ok facts filters s : rtc (step true) (initial facts filters) s → system_ok s.
Proof.
  intros Hrun. remember (initial facts filters) as s0 eqn:E. assert (system_ok s0) as Hok by (subst; apply initial_ok). clear E.
  induction Hrun as [|s0 s1 s2 Hs _ IH]; [done|]. apply IH. by eapply step_ok.
Qed.

(** A newer message of the key has not reached the host yet. *)
Definition on_its_way (h : Host) (key : string) : Prop :=
  ∃ q m x, queue (ho_watch h) = Some q ∧ m ∈ q ∧ kv_key m = key ∧
    km_entries (ho_memory h) !! key = Some x ∧ en_revision x < kv_revision m.

Lemma coherent facts filters e hs i h key a :
  rtc (step true) (initial facts filters) (e, hs) → hs !! i = Some h → answer (ho_memory h) (ev_now e) key = Ok a →
  agrees a (ev_facts e key) ∨ due_for (ev_due e) key ∨ on_its_way h key.
Proof.
  intros Hrun Hi Ha. destruct (memory_reachable_ok _ _ _ Hrun) as [He Hhs]. cbn [fst snd] in *. specialize (Hhs i h Hi).
  apply answer_entry in Ha as (x & Hx & _ & Ea). destruct (hk_entries _ _ Hhs _ _ Hx) as [Hf (m & Hm & Ek & Er & Em & _)].
  destruct (decide (Exists (λ d, kv_operation d ≠ OpPut ∧ kv_key d = key ∧ kv_revision m < kv_revision d) (ev_log e))) as [Hd|Hd].
  - apply Exists_exists in Hd as (d & Hd & Hdel & Ekd & Hlt). right; right.
    destruct (queue (ho_watch h)) as [q|] eqn:Hq.
    + rewrite <- Ekd in Hf. destruct (hk_deletes _ _ Hhs q d Hq Hd Hdel Hf) as [(m' & Hm' & Ek' & Hle)|[_ Hacc]].
      * exists q, m', x. split_and!; [done|done|congruence|done|lia].
      * rewrite Ekd, Hx in Hacc. lia.
    + pose proof (hk_watch _ _ Hhs) as Hw. destruct (ho_watch h); [|done..]. destruct Hw as [Hw _]. by rewrite Hw, lookup_empty in Hx.
  - destruct Hm as [Hin Hok]. rewrite Ek in Hok. assert (newest (ev_log e) m) as Hn.
    { intros d Hd' Hdel E'. destruct (Z.le_gt_cases (kv_revision d) (kv_revision m)) as [|Hlt]; [done|].
      destruct Hd. apply Exists_exists. exists d. split_and!; [done|done|congruence|lia]. }
    destruct (Hok Hn a) as [?|?]; [congruence|by left|by right; left].
Qed.

End Protocol.
