(* ===== verification/AuthMemory.v ===== *)
(** * The auth memory of a host

    [crates/platform/runtime/src/auth_cache.rs] over [KvMemory]: the grants of
    a principal and the status of an environment, which the bucket shares, and
    the admitted tokens, which stay in the host that read them.  The keys and
    the deletions of a change are those of
    [crates/identity/platform/src/auth_changes.rs].

    [auth_memory_coherent] is the protocol of [KvProtocol] at these answers, over
    its orderly runs.  [unread_key_race] is a race of the others: the change of a
    whole environment deletes only the keys the bucket holds, so the first read
    of a key survives it; [late_put_race] is another.  The token half is a
    protocol of its own over the same stream of messages,
    [token_memory_coherent]; [late_token_race] is its race, and
    [lower_revision_keeps_token] what a bucket that counts from one again does
    to it. *)

From stdpp Require Import base tactics option list gmap strings relations.
From Stdlib Require Import ZArith Lia.
From S2P Require Import Prelude Text Canonical RouteAuthentication KvMemory KvProtocol.
#[local] Set Warnings "-clear-no-such-hyp".
Open Scope wamn_scope.
Open Scope Z_scope.

(** ** Keys and changes *)

Definition principal_key (env_key principal : string) : string := env_key +:+ "." +:+ principal.
Definition environment_status_key (env_key : string) : string := env_key +:+ ".environment".
Definition IDENTITY_TOKEN : string := "=identity".
Definition identity_key (principal : string) : string := IDENTITY_TOKEN +:+ "." +:+ principal.

Inductive AuthChange :=
  | ChangePrincipal (env_key principal : string)
  | ChangeEnvKey (env_key : string)
  | ChangeIdentity (principal : string).

(** What [AuthChanges::publish] deletes for a change. *)
Definition deletion_of (c : AuthChange) : Deletion :=
  match c with
  | ChangePrincipal env_key principal => DelKey (principal_key env_key principal)
  | ChangeIdentity principal => DelKey (identity_key principal)
  | ChangeEnvKey env_key => DelUnder env_key
  end.

(** The filters of [replicate]: the control host watches every key. *)
Definition auth_filter (env_key : option string) (key : string) : bool :=
  match env_key with
  | Some env_key => under env_key key || under IDENTITY_TOKEN key
  | None => true
  end.

(** The principal of an identity key. *)
Definition identity_principal (key : string) : option string := strip_prefix IDENTITY_TOKEN key ≫= strip_prefix ".".

(** ** The cache *)

Inductive Answer :=
  | AnswerPrincipal (grants : option PrincipalGrants) (provisioned : bool)
  | AnswerEnvironment (inactive : bool).

(** [tk_pat] is the principal a PAT admitted, or [None] for an active session. *)
Record CacheToken := { tk_seen : Z; tk_principal : string; tk_pat : option Principal }.
Record Tokens := { ts_tokens : gmap (list Ascii.ascii) CacheToken; ts_identity_revision : Z }.
Record AuthCache := { ac_memory : KvMemory Answer; ac_tokens : Tokens }.

Section Cache.
Context `{!Sha256, !MemoryCodec Answer}.

Definition with_ttl (ttl : Z) : AuthCache :=
  {| ac_memory := new_memory ttl; ac_tokens := {| ts_tokens := ∅; ts_identity_revision := 0 |} |}.

Definition on_memory (m : KvMemory Answer) (c : AuthCache) : AuthCache := {| ac_memory := m; ac_tokens := ac_tokens c |}.
Definition on_tokens (t : gmap (list Ascii.ascii) CacheToken) (revision : Z) (c : AuthCache) : AuthCache :=
  {| ac_memory := ac_memory c; ac_tokens := {| ts_tokens := t; ts_identity_revision := revision |} |}.

Definition cache_clear (c : AuthCache) : AuthCache :=
  on_tokens ∅ (ts_identity_revision (ac_tokens c)) (on_memory (clear (ac_memory c)) c).

Definition token_live (ttl now : Z) (t : CacheToken) : bool := Z.max 0 (now - tk_seen t) <? ttl.

(** The live token of a text. *)
Definition held_token (c : AuthCache) (now : Z) (token : string) : option CacheToken :=
  match ts_tokens (ac_tokens c) !! sha256 token with
  | Some t => if token_live (km_ttl (ac_memory c)) now t then Some t else None
  | None => None
  end.

Definition pat (c : AuthCache) (now : Z) (token : string) : option Principal := held_token c now token ≫= tk_pat.

Definition session_active (c : AuthCache) (now : Z) (token : string) : bool :=
  match held_token c now token with
  | Some t => match tk_pat t with None => true | Some _ => false end
  | None => false
  end.

Definition identity_ticket (c : AuthCache) : Z := ts_identity_revision (ac_tokens c).

Definition keep_token (c : AuthCache) (now tk : Z) (token principal : string) (p : option Principal) : AuthCache :=
  if negb (km_bucket (ac_memory c)) then c
  else if negb (ts_identity_revision (ac_tokens c) =? tk) then c
  else
    let tokens := ts_tokens (ac_tokens c) in
    let tokens := if (SWEEP_AT <=? size tokens)%nat
                  then filter (λ kt, token_live (km_ttl (ac_memory c)) now kt.2 = true) tokens else tokens in
    on_tokens (<[sha256 token := {| tk_seen := now; tk_principal := principal; tk_pat := p |}]> tokens)
      (ts_identity_revision (ac_tokens c)) c.

Definition keep_pat (c : AuthCache) (now tk : Z) (token : string) (p : Principal) : AuthCache :=
  keep_token c now tk token (pl_id p) (Some p).
Definition keep_session_active (c : AuthCache) (now tk : Z) (token principal : string) : AuthCache :=
  keep_token c now tk token principal None.

(** The grants of a principal, or the ticket of a read of them. *)
Definition grants (m : KvMemory Answer) (now : Z) (env_key principal : string) : result PrincipalGrants Z :=
  let key := principal_key env_key principal in
  match answer m now key with
  | Ok (AnswerPrincipal (Some g) _) => if bool_decide (is_Some (pg_user g)) then Ok g else Err (ticket m now key)
  | Ok _ => Err (ticket m now key)
  | Err tk => Err tk
  end.

(** What [keep_grants] puts, over the answer it replaces. *)
Definition grants_answer (g : PrincipalGrants) (replaced : option Answer) : Answer :=
  AnswerPrincipal (Some g)
    (pg_present g || match replaced with Some (AnswerPrincipal _ true) => true | _ => false end).

Definition provisioned (m : KvMemory Answer) (now : Z) (env_key principal : string) : result unit Z :=
  let key := principal_key env_key principal in
  match answer m now key with
  | Ok (AnswerPrincipal _ true) => Ok tt
  | Ok _ => Err (ticket m now key)
  | Err tk => Err tk
  end.

(** What [keep_provisioned] puts, over the answer it replaces. *)
Definition provisioned_answer (replaced : option Answer) : Answer :=
  AnswerPrincipal (match replaced with Some (AnswerPrincipal g _) => g | _ => None end) true.

Definition environment_inactive (m : KvMemory Answer) (now : Z) (env_key : string) : result bool Z :=
  let key := environment_status_key env_key in
  match answer m now key with
  | Ok (AnswerEnvironment inactive) => Ok inactive
  | Ok _ => Err (ticket m now key)
  | Err tk => Err tk
  end.

(** [Watched for AuthCache]. *)
Definition cache_apply (c : AuthCache) (now : Z) (e : KvEntry) : AuthCache :=
  match identity_principal (kv_key e) with
  | Some principal =>
      on_tokens (filter (λ kt, tk_principal kt.2 ≠ principal) (ts_tokens (ac_tokens c)))
        (Z.max (ts_identity_revision (ac_tokens c)) (kv_revision e)) c
  | None => on_memory (apply (ac_memory c) now e) c
  end.

Definition cache_set_bucket (bucket : bool) (c : AuthCache) : AuthCache := on_memory (set_bucket bucket (ac_memory c)) c.

End Cache.

(** ** The facts the bucket shares *)

(** The fact of a key in Postgres: the user row of a principal with its roles, or the status of an environment. *)
Inductive AuthFact := FactPrincipal (g : PrincipalGrants) | FactEnvironment (inactive : bool).

(** What a read shows: the grants, that the user row is there, or the status. *)
Inductive AuthRead := ReadGrants (g : PrincipalGrants) | ReadProvisioned | ReadEnvironment (inactive : bool).

Definition answer_agrees (a : Answer) (f : AuthFact) : Prop :=
  match a, f with
  | AnswerPrincipal g p, FactPrincipal f => (∀ g', g = Some g' → g' = f) ∧ (p = true → pg_present f = true)
  | AnswerEnvironment b, FactEnvironment b' => b = b'
  | _, _ => False
  end.

Definition read_shows (r : AuthRead) (f : AuthFact) : Prop :=
  match r, f with
  | ReadGrants g, FactPrincipal f => g = f
  | ReadProvisioned, FactPrincipal f => pg_present f = true
  | ReadEnvironment b, FactEnvironment b' => b = b'
  | _, _ => False
  end.

(** The answer each [keep_] of the cache puts. *)
Definition kept_answer (r : AuthRead) (replaced : option Answer) : Answer :=
  match r with
  | ReadGrants g => grants_answer g replaced
  | ReadProvisioned => provisioned_answer replaced
  | ReadEnvironment inactive => AnswerEnvironment inactive
  end.

#[export] Program Instance auth_facts : MemoryFacts Answer AuthFact AuthRead :=
  {| agrees := answer_agrees; reads := read_shows; merge := kept_answer |}.
Next Obligation.
  intros [g| |b] o [f|i]; cbn; try done.
  - intros -> Ho. split; [by intros g' [= <-]|]. intros [?|Hp]%orb_true_iff; [done|].
    destruct o as [[g' []|]|]; try done. by apply (Ho _ eq_refl).
  - intros Hp Ho. split; [|done]. destruct o as [[g' p|]|]; [|done..]. by apply (Ho _ eq_refl).
Qed.

Section Shared.
Context `{!MemoryCodec Answer} (decode_encode : ∀ a v, encode a = Some v → decode v = Some a).


End Shared.

(** ** The tokens of a host *)

(** The read of a token: its ticket and start, and the principal it was found active for. *)
Record TokenRead := { tr_ticket : Z; tr_started : Z; tr_token : string; tr_answer : option (string * option Principal) }.
Record TokenHost := { th_cache : AuthCache; th_watch : Watch; th_reads : list TokenRead }.

Section TokenProtocol.
Context `{!Sha256, !MemoryCodec Answer} (env_key : option string).

(** The fact of an identity key is the set of the active tokens of its principal. *)
Abbreviation TokenEnv := (Env (gset string)).

Definition with_cache (c : AuthCache) (w : Watch) (h : TokenHost) : TokenHost :=
  {| th_cache := c; th_watch := w; th_reads := th_reads h |}.
Definition with_token_reads (rs : list TokenRead) (h : TokenHost) : TokenHost :=
  {| th_cache := th_cache h; th_watch := th_watch h; th_reads := rs |}.
Definition answered (a : string * option Principal) (x : TokenRead) : TokenRead :=
  {| tr_ticket := tr_ticket x; tr_started := tr_started x; tr_token := tr_token x; tr_answer := Some a |}.

Definition send_token (m : KvEntry) (h : TokenHost) : TokenHost :=
  with_cache (th_cache h) (on_queue (λ q, if auth_filter env_key (kv_key m) then q ++ [m] else q) (th_watch h)) h.

(** The messages of the bucket, of whatever key, the deletions among them that
    were due, and one host.  In an [orderly] run a token is kept within
    [MEMORY_TTL] of the ticket of its read and the bucket is never made again;
    [keep_token] asks for neither. *)
Inductive token_step (orderly : bool) : TokenEnv * TokenHost → TokenEnv * TokenHost → Prop :=
  | TTick e h t : 0 ≤ t → token_step orderly (e, h) (tick t e, h)
  | TCommit e h facts ds : (∀ key, ¬ due_for ds key → facts key = ev_facts e key) → token_step orderly (e, h) (commit facts ds e, h)
  | TList e h l1 token l2 keys : ev_due e = l1 ++ DelUnder token :: l2 → (∀ p, under token (identity_key p) = false) →
      token_step orderly (e, h) (with_due (l1 ++ (DelKey <$> keys) ++ l2) e, h)
  | TStore e h key op value : token_step orderly (e, h) (stored (message e key op value) e, send_token (message e key op value) h)
  | TDelete e h l1 key l2 : ev_due e = l1 ++ DelKey key :: l2 →
      token_step orderly (e, h) (with_due (l1 ++ l2) (stored (message e key OpDelete "") e), send_token (message e key OpDelete "") h)
  | TExpire e h key m : ev_bucket e !! key = Some m → kv_created m + MEMORY_TTL ≤ ev_now e →
      token_step orderly (e, h) (with_bucket (delete key (ev_bucket e)) e, h)
  | TRemake e h : orderly = false → token_step orderly (e, h) (remade e, h)
  | TBegin e h token :
      token_step orderly (e, h) (e, with_token_reads ({| tr_ticket := identity_ticket (th_cache h); tr_started := ev_now e;
                                                 tr_token := token; tr_answer := None |} :: th_reads h) h)
  | TRead e h l1 x l2 p o : th_reads h = l1 ++ x :: l2 → tr_answer x = None →
      p ≠ "" → tr_token x ∈ ev_facts e (identity_key p) →
      token_step orderly (e, h) (e, with_token_reads (l1 ++ answered (p, o) x :: l2) h)
  | TKeep e h l1 x l2 p o : th_reads h = l1 ++ x :: l2 → tr_answer x = Some (p, o) →
      (orderly = true → ev_now e < tr_started x + MEMORY_TTL) →
      token_step orderly (e, h) (e, with_token_reads (l1 ++ l2)
        (with_cache (keep_token (th_cache h) (ev_now e) (tr_ticket x) (tr_token x) p o) (th_watch h) h))
  | TGiveUp e h l1 x l2 : th_reads h = l1 ++ x :: l2 → token_step orderly (e, h) (e, with_token_reads (l1 ++ l2) h)
  | TSubscribe e h q : th_watch h = Closed →
      (∀ m, m ∈ q ↔ ev_bucket e !! kv_key m = Some m ∧ auth_filter env_key (kv_key m) = true) →
      token_step orderly (e, h) (e, with_cache (th_cache h) (Opening q) h)
  | TOpen e h q : th_watch h = Opening q →
      token_step orderly (e, h) (e, with_cache (cache_set_bucket true (cache_clear (th_cache h))) (Watching q) h)
  | TDeliver e h l1 m l2 : th_watch h = Watching (l1 ++ m :: l2) →
      token_step orderly (e, h) (e, with_cache (cache_apply (th_cache h) (ev_now e) m) (Watching (l1 ++ l2)) h)
  | TBreak e h q : queue (th_watch h) = Some q →
      token_step orderly (e, h) (e, with_cache (cache_set_bucket false (th_cache h)) (Breaking q) h)
  | TClear e h q : th_watch h = Breaking q → token_step orderly (e, h) (e, with_cache (cache_clear (th_cache h)) Closed h).

Definition token_initial (facts : string → gset string) : TokenEnv * TokenHost :=
  ({| ev_now := 0; ev_facts := facts; ev_due := []; ev_seq := 0; ev_log := []; ev_bucket := ∅ |},
   {| th_cache := with_ttl MEMORY_TTL; th_watch := Closed; th_reads := [] |}).

(** An identity message of the principal has not reached the host yet. *)
Definition identity_on_its_way (h : TokenHost) (p : string) : Prop :=
  ∃ q m, queue (th_watch h) = Some q ∧ m ∈ q ∧ kv_key m = identity_key p.

Definition token_ok (e : TokenEnv) (h : TokenHost) (dg : list Ascii.ascii) (t : CacheToken) : Prop :=
  tk_principal t ≠ "" ∧ ∃ token, sha256 token = dg ∧
    (token ∈ ev_facts e (identity_key (tk_principal t)) ∨ due_for (ev_due e) (identity_key (tk_principal t)) ∨
     identity_on_its_way h (tk_principal t)).

Definition token_read_ok (e : TokenEnv) (x : TokenRead) : Prop :=
  tr_ticket x ≤ ev_seq e ∧ tr_started x ≤ ev_now e ∧
  match tr_answer x with
  | None => True
  | Some (p, _) => p ≠ "" ∧
      (tr_token x ∈ ev_facts e (identity_key p) ∨ due_for (ev_due e) (identity_key p) ∨
       ∃ d, d ∈ ev_log e ∧ is_delete d ∧ kv_key d = identity_key p ∧ tr_ticket x < kv_revision d ∧ tr_started x ≤ kv_created d)
  end.

Record token_host_ok (e : TokenEnv) (h : TokenHost) : Prop := {
  tk_watch : match th_watch h with
             | Closed | Opening _ => ts_tokens (ac_tokens (th_cache h)) = ∅ ∧ km_bucket (ac_memory (th_cache h)) = false
             | Watching _ => km_bucket (ac_memory (th_cache h)) = true
             | Breaking _ => km_bucket (ac_memory (th_cache h)) = false
             end;
  tk_revision : ts_identity_revision (ac_tokens (th_cache h)) ≤ ev_seq e;
  tk_queue q m : queue (th_watch h) = Some q → m ∈ q → m ∈ ev_log e;
  tk_tokens dg t : ts_tokens (ac_tokens (th_cache h)) !! dg = Some t → token_ok e h dg t;
  tk_deletes q d p : queue (th_watch h) = Some q → d ∈ ev_log e → is_delete d → kv_key d = identity_key p → p ≠ "" →
    (∃ m, m ∈ q ∧ kv_key m = kv_key d ∧ kv_revision d ≤ kv_revision m) ∨
    kv_revision d ≤ ts_identity_revision (ac_tokens (th_cache h)) ∨ kv_created d + MEMORY_TTL ≤ ev_now e;
  tk_reads x : x ∈ th_reads h → token_read_ok e x;
}.

Definition token_system_ok (s : TokenEnv * TokenHost) : Prop := stream_ok s.1 ∧ token_host_ok s.1 s.2.

Lemma identity_principal_key p : identity_principal (identity_key p) = Some p.
Proof. reflexivity. Qed.

Lemma auth_filter_identity p : p ≠ "" → auth_filter env_key (identity_key p) = true.
Proof.
  intros Hp. destruct env_key; [|done]. cbn [auth_filter]. apply orb_true_iff. right. unfold under.
  change (strip_prefix (IDENTITY_TOKEN +:+ ".") (identity_key p)) with (Some p). cbn. by destruct (String.eqb_spec p "").
Qed.

(** *** Changes of the environment without a message *)

Lemma token_ok_keeps (e e' : TokenEnv) h :
  ev_now e ≤ ev_now e' → ev_log e' = ev_log e → ev_seq e' = ev_seq e → (∀ p, keeps e e' (identity_key p)) →
  token_host_ok e h → token_host_ok e' h.
Proof.
  intros Hnow El Es Hk [H1 H2 H3 H4 H5 H6].
  assert (∀ p token, token ∈ ev_facts e (identity_key p) → token ∈ ev_facts e' (identity_key p) ∨ due_for (ev_due e') (identity_key p)) as Hf.
  { intros p token Ht. destruct (Hk p) as [[->|?] _]; [by left|by right]. }
  split; rewrite ?El, ?Es; try done.
  - intros dg t Ht. destruct (H4 dg t Ht) as (? & token & ? & Hx). split; [done|]. exists token. split; [done|].
    destruct Hx as [Hx|[Hx|?]]; [destruct (Hf _ _ Hx); tauto|right; left; by apply Hk|by right; right].
  - intros q d p Hq Hd Hdel Ek Hp. destruct (H5 q d p Hq Hd Hdel Ek Hp) as [?|[?|?]]; [by left|by right; left|right; right; lia].
  - intros x Hx. destruct (H6 x Hx) as (? & ? & Ha). split_and!; [by rewrite Es|lia|].
    destruct (tr_answer x) as [[p o]|]; [|done]. destruct Ha as [? Ha]. split; [done|]. rewrite El.
    destruct Ha as [Ha|[Ha|?]]; [destruct (Hf _ _ Ha); tauto|right; left; by apply Hk|by right; right].
Qed.

(** *** A message *)

Lemma token_ok_sent (e : TokenEnv) h m due' :
  stream_ok e → kv_revision m = ev_seq e + 1 → kv_created m = ev_now e →
  (∀ k, k ≠ kv_key m ∨ ¬ is_delete m → due_for (ev_due e) k → due_for due' k) →
  token_host_ok e h → token_host_ok (with_due due' (stored m e)) (send_token m h).
Proof.
  intros Hs Em Ec Hdue [H1 H2 H3 H4 H5 H6].
  split; cbn [send_token with_cache th_cache th_watch th_reads ev_log ev_seq stored with_due].
  - by destruct (th_watch h).
  - lia.
  - intros q x. rewrite queue_on_queue. destruct (queue (th_watch h)) as [q0|] eqn:Eq; [|done]. cbn. intros [= <-] Hx.
    apply elem_of_cons. destruct (auth_filter _ _); [|by right; eapply H3].
    apply elem_of_app in Hx as [Hx| ->%list_elem_of_singleton]; [right; by eapply H3|by left].
  - intros dg t Ht. destruct (H4 dg t Ht) as (Hp & token & Edg & Hx). split; [done|]. exists token. split; [done|].
    assert (∃ q0, queue (th_watch h) = Some q0) as [q0 Hq0].
    { destruct (th_watch h); cbn; [|by eexists..]. destruct H1 as [H1 _]. by rewrite H1, lookup_empty in Ht. }
    destruct Hx as [Hx|[Hx|(q & m' & Hq & Hm' & Ek)]]; [by left| |right; right].
    + destruct (decide (identity_key (tk_principal t) = kv_key m)) as [E|Hne]; [right; right|right; left; apply Hdue; [by left|done]].
      eexists _, m. cbn [send_token with_cache th_watch]. rewrite queue_on_queue, Hq0, <- E, auth_filter_identity by done.
      split; [done|]. split; [apply elem_of_app; right; by apply list_elem_of_singleton|done].
    + eexists _, m'. split; [cbn [send_token with_cache th_watch]; by rewrite queue_on_queue, Hq|]. split; [|done].
      destruct (auth_filter _ _); [apply elem_of_app; by left|done].
  - intros q d p. rewrite queue_on_queue. destruct (queue (th_watch h)) as [q0|] eqn:Eq; [|done]. cbn [fmap option_fmap option_map].
    intros [= <-] [->|Hd]%elem_of_cons Hdel Ek Hp.
    + left. exists m. rewrite Ek, auth_filter_identity by done. split; [apply elem_of_app; right; by apply list_elem_of_singleton|]. split; [done|lia].
    + destruct (H5 q0 d p eq_refl Hd Hdel Ek Hp) as [(x & Hx & ?)|?]; [|by right].
      left. exists x. split; [|done]. destruct (auth_filter _ _); [apply elem_of_app; by left|done].
  - intros x Hx. destruct (H6 x Hx) as (? & ? & Ha). split_and!; [cbn; lia|done|].
    destruct (tr_answer x) as [[p o]|]; [|done]. destruct Ha as [? Ha]. split; [done|]. cbn [ev_facts ev_due ev_log stored with_due].
    destruct Ha as [Ha|[Ha|(d & ? & ?)]]; [by left| |right; right; exists d; split; [by apply elem_of_cons; right|done]].
    destruct (decide (identity_key p = kv_key m ∧ kv_operation m ≠ OpPut)) as [[E Hdel]|Hn].
    + right; right. exists m. split_and!; [apply list_elem_of_here|done|done|lia|lia].
    + right; left. apply Hdue; [|done]. destruct (decide (identity_key p = kv_key m)); [right|by left]. unfold is_delete. tauto.
Qed.

(** *** The host *)

Lemma token_ok_reads (e : TokenEnv) h rs :
  token_host_ok e h → (∀ x, x ∈ rs → token_read_ok e x) → token_host_ok e (with_token_reads rs h).
Proof. intros [H1 H2 H3 H4 H5 _] Hr. by split. Qed.

Lemma token_reads_split (e : TokenEnv) h l1 x l2 :
  token_host_ok e h → th_reads h = l1 ++ x :: l2 → token_read_ok e x ∧ ∀ y, y ∈ l1 ++ l2 → token_read_ok e y.
Proof.
  intros Hh E. pose proof (tk_reads _ _ Hh) as Hr. rewrite E in Hr. split; [apply Hr; set_solver|]. intros y Hy. apply Hr. set_solver.
Qed.

(** Fewer tokens, a newer revision of what was delivered, and the same messages to come. *)
Lemma token_ok_fewer (e : TokenEnv) h c w :
  token_host_ok e h → queue w = queue (th_watch h) →
  match w with
  | Closed | Opening _ => ts_tokens (ac_tokens c) = ∅ ∧ km_bucket (ac_memory c) = false
  | Watching _ => km_bucket (ac_memory c) = true
  | Breaking _ => km_bucket (ac_memory c) = false
  end →
  ts_tokens (ac_tokens c) ⊆ ts_tokens (ac_tokens (th_cache h)) →
  ts_identity_revision (ac_tokens c) = ts_identity_revision (ac_tokens (th_cache h)) →
  token_host_ok e (with_cache c w h).
Proof.
  intros [H1 H2 H3 H4 H5 H6] Ew Hw Hsub Er. split; cbn [with_cache th_cache th_watch th_reads]; rewrite ?Ew, ?Er; try done.
  intros dg t Ht. destruct (H4 dg t (lookup_weaken _ _ _ _ Ht Hsub)) as (? & token & ? & Hx). split; [done|].
  exists token. split; [done|]. destruct Hx as [?|[?|(q & m & Hq & ?)]]; [by left|by right; left|right; right].
  exists q, m. by rewrite <- Hq, <- Ew.
Qed.

Lemma token_ok_keep (e : TokenEnv) h x p o :
  token_host_ok e h → token_read_ok e x → tr_answer x = Some (p, o) → ev_now e < tr_started x + MEMORY_TTL →
  token_host_ok e (with_cache (keep_token (th_cache h) (ev_now e) (tr_ticket x) (tr_token x) p o) (th_watch h) h).
Proof.
  intros Hh (_ & _ & Hx) Ea Htime. rewrite Ea in Hx. destruct Hx as [Hp Hx]. unfold keep_token.
  assert (token_host_ok e (with_cache (th_cache h) (th_watch h) h)) as Hsame by (apply token_ok_fewer; try done; apply Hh).
  destruct (km_bucket (ac_memory (th_cache h))) eqn:Hb; cbn [negb]; [|done].
  destruct (Z.eqb_spec (ts_identity_revision (ac_tokens (th_cache h))) (tr_ticket x)) as [Et|]; cbn [negb]; [|done].
  set (kept := if (_ <=? _)%nat then _ else _).
  assert (kept ⊆ ts_tokens (ac_tokens (th_cache h))) as Hsub.
  { unfold kept. destruct (_ <=? _)%nat; [apply map_filter_subseteq|done]. }
  destruct Hh as [H1 H2 H3 H4 H5 H6]. split; cbn [with_cache th_cache th_watch th_reads on_tokens ac_tokens ac_memory ts_tokens ts_identity_revision]; try done.
  - rewrite Hb in *. destruct (th_watch h); [by destruct H1..|done|done].
  - intros dg t Ht. destruct (decide (dg = sha256 (tr_token x))) as [->|Hne].
    2: { rewrite lookup_insert_ne in Ht by done. by apply H4, (lookup_weaken _ _ _ _ Ht). }
    rewrite lookup_insert_eq in Ht. injection Ht as <-. split; [done|]. exists (tr_token x). split; [done|]. cbn [tk_principal].
    destruct Hx as [?|[?|(d & Hd & Hdel & Ek & Hlt & Hst)]]; [by left|by right; left|right; right].
    rewrite Hb in H1. destruct (th_watch h) as [|q|q|q] eqn:Ew; [by destruct H1..| |done].
    destruct (H5 q d p eq_refl Hd Hdel Ek Hp) as [(m & Hm & Ekm & _)|[?|?]]; [|lia|lia].
    exists q, m. cbn [with_cache th_watch]. split_and!; [done|done|congruence].
Qed.

Lemma token_ok_deliver (e : TokenEnv) h l1 m l2 :
  stream_ok e → token_host_ok e h → th_watch h = Watching (l1 ++ m :: l2) →
  token_host_ok e (with_cache (cache_apply (th_cache h) (ev_now e) m) (Watching (l1 ++ l2)) h).
Proof.
  intros Hs [H1 H2 H3 H4 H5 H6] Ew. rewrite Ew in *. cbn [queue] in *.
  assert (m ∈ ev_log e) as Hin by (apply (H3 _ m eq_refl); set_solver). pose proof (so_range _ Hs m Hin) as Hrange.
  assert (∀ dg t, ts_tokens (ac_tokens (th_cache h)) !! dg = Some t → kv_key m ≠ identity_key (tk_principal t) →
            token_ok e (with_cache (cache_apply (th_cache h) (ev_now e) m) (Watching (l1 ++ l2)) h) dg t) as Hkept.
  { intros dg t Ht Hne. destruct (H4 dg t Ht) as (? & token & ? & Hx). split; [done|]. exists token. split; [done|].
    destruct Hx as [?|[?|(q & m' & Hq & Hm' & Ek)]]; [by left|by right; left|right; right]. rewrite Ew in Hq. injection Hq as <-.
    exists (l1 ++ l2), m'. split_and!; [done| |done]. assert (m' ≠ m) by congruence. set_solver. }
  assert (∀ d p (r : Z), d ∈ ev_log e → is_delete d → kv_key d = identity_key p → p ≠ "" →
      ts_identity_revision (ac_tokens (th_cache h)) ≤ r → (kv_key m = identity_key p → kv_revision m ≤ r) →
      (∃ m', m' ∈ l1 ++ l2 ∧ kv_key m' = kv_key d ∧ kv_revision d ≤ kv_revision m') ∨
      kv_revision d ≤ r ∨ kv_created d + MEMORY_TTL ≤ ev_now e) as Hdel.
  { intros d p r Hd Hdel Ek Hp Hr Hm. destruct (H5 _ d p eq_refl Hd Hdel Ek Hp) as [(m' & Hm' & Ek' & ?)|[?|?]]; [|right; left; lia|by right; right].
    assert (m' ∈ l1 ++ l2 ∨ m' = m) as [?| ->] by set_solver; [by left; exists m'|].
    right; left. rewrite Ek in Ek'. specialize (Hm Ek'). lia. }
  unfold cache_apply in *. destruct (identity_principal (kv_key m)) as [p'|] eqn:Ei;
    (split; cbn [with_cache th_cache th_watch th_reads on_tokens on_memory ac_tokens ac_memory ts_tokens ts_identity_revision queue]; [..|done]).
  - done.
  - lia.
  - intros q x [= <-] Hx. apply (H3 _ x eq_refl). set_solver.
  - intros dg t [Ht Hne]%map_lookup_filter_Some. cbn in Hne. apply Hkept; [done|]. intros E. rewrite E, identity_principal_key in Ei. congruence.
  - intros q d p [= <-] Hd Hdl Ek Hp. apply (Hdel d p); [done|done|done|done|lia|lia].
  - unfold apply. by rewrite keep_entry_bucket.
  - done.
  - intros q x [= <-] Hx. apply (H3 _ x eq_refl). set_solver.
  - intros dg t Ht. apply Hkept; [done|]. intros E. by rewrite E, identity_principal_key in Ei.
  - intros q d p [= <-] Hd Hdl Ek Hp. apply (Hdel d p); [done|done|done|done|lia|]. intros E. by rewrite E, identity_principal_key in Ei.
Qed.

Lemma token_ok_subscribe (e : TokenEnv) h q :
  stream_ok e → token_host_ok e h → th_watch h = Closed →
  (∀ m, m ∈ q ↔ ev_bucket e !! kv_key m = Some m ∧ auth_filter env_key (kv_key m) = true) →
  token_host_ok e (with_cache (th_cache h) (Opening q) h).
Proof.
  intros Hs [H1 H2 H3 H4 H5 H6] Ew Hsnap. rewrite Ew in H1. split; cbn [with_cache th_cache th_watch th_reads queue]; try done.
  - intros q' m [= <-] Hm. apply Hsnap in Hm as [Hm _]. by apply (so_last _ Hs _ _ Hm).
  - intros dg t Ht. destruct H1 as [H1 _]. by rewrite H1, lookup_empty in Ht.
  - intros q' d p [= <-] Hd Hdel Ek Hp. destruct (ev_bucket e !! kv_key d) as [m|] eqn:Hb.
    + destruct (so_last _ Hs _ _ Hb) as (Ekm & _ & Hl). left. exists m. split_and!; [|done|by apply Hl].
      apply Hsnap. rewrite Ekm, Ek, auth_filter_identity by done. split; [by rewrite <- Ek|done].
    + right; right. by eapply so_gone.
Qed.

Lemma token_step_ok s s' : token_system_ok s → token_step true s s' → token_system_ok s'.
Proof.
  intros [Hs Hh] Hstep. destruct Hstep as [e h t Ht|e h facts ds Hf|e h l1 token l2 keys Edue Hun|e h key op value|e h l1 key l2 Edue
    |e h key m Hb Hage|e h Hno|e h token|e h l1 x l2 p o E Ea Hp Hread|e h l1 x l2 p o E Ea Htime|e h l1 x l2 E|e h q Ew Hsnap|e h q Ew
    |e h l1 m l2 Ew|e h q Ew|e h q Ew]; cbn [fst snd] in *; split; cbn [fst snd]; try done.
  all: try (by eapply stream_ok_same; [..|exact Hs]; cbn; try done; lia).
  - apply (token_ok_keeps e); [cbn; lia|done|done| |done]. intros p. split; [by left|done].
  - apply (token_ok_keeps e); [cbn; lia|done|done| |done]. intros p. apply keeps_commit, Hf.
  - apply (token_ok_keeps e); [cbn; lia|done|done| |done]. intros p. split; [by left|]. intros (d & Hd & Hc). rewrite Edue in Hd.
    exists d. split; [|done]. cbn [ev_due with_due]. apply elem_of_app in Hd as [?|[->|?]%elem_of_cons]; [set_solver| |set_solver].
    cbn in Hc. by rewrite Hun in Hc.
  - by apply (stream_ok_stored e _ (ev_due e) Hs).
  - by apply (token_ok_sent e h (message e key op value) (ev_due e) Hs).
  - by apply stream_ok_stored.
  - apply token_ok_sent; try done. intros k. by apply due_deleted.
  - by eapply stream_ok_expire.
  - destruct Hh as [H1 H2 H3 H4 H5 H6]. by split.
  - apply token_ok_reads; [done|]. intros x [->|Hx]%elem_of_cons; [|by apply Hh]. split_and!; [apply Hh|cbn; lia|done].
  - destruct (token_reads_split _ _ _ _ _ Hh E) as [(? & ? & _) Hr]. apply token_ok_reads; [done|].
    intros y. rewrite elem_of_app, elem_of_cons. intros [?|[->|?]]; [apply Hr; set_solver| |apply Hr; set_solver].
    split_and!; [done|done|]. cbn. split; [done|by left].
  - destruct (token_reads_split _ _ _ _ _ Hh E) as [Hx Hr]. apply token_ok_reads; [eapply token_ok_keep; eauto|done].
  - destruct (token_reads_split _ _ _ _ _ Hh E) as [_ Hr]. by apply token_ok_reads.
  - by apply token_ok_subscribe.
  - apply token_ok_fewer; [done|by rewrite Ew|done|apply map_empty_subseteq|done].
  - by apply token_ok_deliver.
  - by apply token_ok_fewer.
  - destruct Hh as [H1 H2 H3 H4 H5 H6]. rewrite Ew in H1. split; cbn; done.
Qed.

Lemma token_initial_ok facts : token_system_ok (token_initial facts).
Proof.
  split; cbn [fst snd token_initial].
  - split; cbn [ev_log ev_seq ev_bucket ev_now].
    + by intros m ?%elem_of_nil.
    + by intros m m' ?%elem_of_nil.
    + by intros m m' ?%elem_of_nil.
    + done.
    + by intros k m; rewrite lookup_empty.
    + by intros k m _ ?%elem_of_nil.
  - split; cbn [th_cache th_watch th_reads queue ev_seq with_ttl ac_tokens ac_memory ts_tokens ts_identity_revision]; try done.
    by intros x ?%elem_of_nil.
Qed.

Lemma token_reachable_ok facts s : rtc (token_step true) (token_initial facts) s → token_system_ok s.
Proof.
  pose proof (token_initial_ok facts) as Hok. intros Hrun. induction Hrun as [|s0 s1 s2 Hs _ IH]; [done|].
  apply IH. by eapply token_step_ok.
Qed.


End TokenProtocol.

(** An identity message whose revision is not above the highest the host has
    seen does not refuse the read it passed: the token read before it is kept.
    Within one stream revisions grow and there is no such message; a bucket that
    was made again counts from one, and [cache_clear] keeps the revision. *)
Theorem lower_revision_keeps_token `{!Sha256, !MemoryCodec Answer} (c : AuthCache) (now : Z) (m : KvEntry) (token principal : string) :
  km_bucket (ac_memory c) = true → 0 < km_ttl (ac_memory c) →
  kv_key m = identity_key principal → kv_revision m ≤ identity_ticket c →
  session_active (keep_session_active (cache_apply c now m) now (identity_ticket c) token principal) now token = true.
Proof.
  intros Hb Httl Ek Hr. unfold cache_apply. rewrite Ek, identity_principal_key. unfold keep_session_active, keep_token, identity_ticket in *.
  cbn [on_tokens ac_memory ac_tokens ts_identity_revision ts_tokens]. rewrite Hb, Z.max_l, Z.eqb_refl by done. cbn [negb].
  unfold session_active, held_token. cbn [on_tokens ac_memory ac_tokens ts_tokens]. rewrite lookup_insert_eq.
  unfold token_live. cbn [tk_seen tk_pat]. rewrite Z.sub_diag. destruct (Z.ltb_spec (Z.max 0 0) (km_ttl (ac_memory c))); [done|lia].
Qed.

(** ** Samples *)

Module MemorySample.

Definition sample_encode (a : Answer) : option string :=
  match a with AnswerEnvironment true => Some "true" | AnswerEnvironment false => Some "false" | AnswerPrincipal _ _ => None end.
Definition sample_decode (v : string) : option Answer :=
  if String.eqb v "true" then Some (AnswerEnvironment true)
  else if String.eqb v "false" then Some (AnswerEnvironment false) else None.
#[local] Instance sample_codec : MemoryCodec Answer := {| encode := sample_encode; decode := sample_decode |}.

Lemma sample_law a v : encode a = Some v → decode v = Some a.
Proof. by destruct a as [|[]]; cbn; intros [= <-]. Qed.

(** One host of the environment [t], which is active, and the change that makes it inactive. *)
Definition key : string := environment_status_key "t".
Definition active_facts : string → AuthFact := λ _, FactEnvironment false.
Definition changed_facts : string → AuthFact := λ k, FactEnvironment (under "t" k).
Definition hosts : gmap nat (string → bool) := {[ 0%nat := auth_filter (Some "t") ]}.
Definition reached (orderly : bool) : Env AuthFact * gmap nat (Host Answer AuthRead) → Prop :=
  rtc (step orderly) (initial active_facts hosts).

Abbreviation Sys := (Env AuthFact * gmap nat (Host Answer AuthRead))%type.

Definition host (s : Sys) : Host Answer AuthRead := default (fresh_host (λ _, false)) (s.2 !! 0%nat).
Definition set_host (h : Host Answer AuthRead) (s : Sys) : Sys := (s.1, <[0%nat := h]> s.2).

Lemma reached_host orderly s h' :
  reached orderly s → is_Some (s.2 !! 0%nat) → host_step orderly s.1 (host s) h' → reached orderly (set_host h' s).
Proof.
  intros Hs [h Hh] Hstep. eapply rtc_r; [exact Hs|]. destruct s as [e hs]. cbn [fst snd] in *. eapply OfHost; [exact Hh|].
  unfold host in Hstep. cbn [snd] in Hstep. by rewrite Hh in Hstep.
Qed.

(** The host opens its watch, begins a read of the status and reads that the environment is active. *)
Definition reading : Reading Answer AuthRead := {| re_key := key; re_ticket := 0; re_started := 0; re_phase := Begun |}.
Definition read_done : AuthRead := ReadEnvironment false.
Definition kept : Answer := AnswerEnvironment false.
Definition opening : Sys := let s := initial active_facts hosts in set_host (with_memory (ho_memory (host s)) (Opening []) (host s)) s.
Definition watching : Sys := let s := opening in set_host (with_memory (set_bucket true (clear (ho_memory (host s)))) (Watching []) (host s)) s.
Definition begun : Sys := let s := watching in set_host (with_reads [reading] (host s)) s.
Definition known : Sys := let s := begun in set_host (with_reads [to_phase (Known read_done) reading] (host s)) s.

Lemma known_reached orderly : reached orderly known.
Proof.
  assert (reached orderly opening) as H1.
  { apply reached_host; [apply rtc_refl|by eexists|]. apply Subscribe; [done|]. split; [constructor|]. intros m. split; [by intros ?%elem_of_nil|].
    cbn [initial fst ev_bucket]. rewrite lookup_empty. by intros [? _]. }
  assert (reached orderly watching) as H2 by (apply reached_host; [done|by eexists|]; by apply OpenWatch).
  assert (reached orderly begun) as H3 by (apply reached_host; [done|by eexists|]; exact (Begin _ _ (host watching) key eq_refl)).
  apply reached_host; [done|by eexists|]. by apply (Read _ _ (host begun) [] reading [] read_done).
Qed.

(** It sends the answer, the bucket stores it, and the watch delivers it. *)
Definition sent (s : Sys) : Sys := set_host (with_reads [to_phase (Sent read_done None kept "false") reading] (host s)) s.
Definition in_bucket (s : Sys) : Sys :=
  let m := message s.1 key OpPut "false" in
  (stored m s.1, send_to m <$> <[0%nat := with_reads [to_phase (Stored (ev_seq s.1 + 1) (ev_now s.1) kept) reading] (host s)]> s.2).
Definition delivered (s : Sys) : Sys :=
  let m := {| kv_key := key; kv_revision := 1; kv_created := 0; kv_operation := OpPut; kv_value := "false" |} in
  set_host (with_memory (apply (ho_memory (host s)) (ev_now s.1) m) (Watching []) (host s)) s.

Lemma delivered_reached orderly s :
  reached orderly s → s.1 = known.1 ∨ s.1 = with_due [] (commit changed_facts [DelUnder "t"] known.1) → s.2 = known.2 →
  reached orderly (delivered (in_bucket (sent s))).
Proof.
  intros Hs He Eh. assert (reached orderly (sent s)) as H1.
  { apply reached_host; [done|rewrite Eh; by eexists|]. destruct s as [e hs]. cbn [fst snd] in *. subst hs.
    assert (merge read_done None = kept) as Em by reflexivity.
    pose proof (Send orderly e (host (e, known.2)) [] (to_phase (Known read_done) reading) [] read_done None "false") as Hsend. rewrite Em in Hsend.
    apply Hsend; [done|done| |done]. by destruct He as [->| ->]. }
  assert (reached orderly (in_bucket (sent s))) as H2.
  { eapply rtc_r; [exact H1|]. destruct s as [e hs]. cbn [fst snd] in *. subst hs.
    apply (Store orderly e _ 0%nat (host (sent (e, known.2))) [] (to_phase (Sent read_done None kept "false") reading) [] read_done None kept "false");
      [done|done|done|by destruct He as [->| ->]|by destruct He as [->| ->]]. }
  apply reached_host; [done|rewrite (surjective_pairing s), Eh; by eexists|]. apply Deliver with (l1 := []); [|constructor].
  destruct s as [e hs]. cbn [fst snd] in *. subst hs. by destruct He as [->| ->].
Qed.


(** While the host reads the status, a writer makes the environment inactive and
    deletes its keys: the bucket holds none of them.  The stale answer is then
    stored and kept, although no deletion is due and no message on its way. *)
Theorem unread_key_race :
  let s := delivered (in_bucket (sent (with_due [] (commit changed_facts [DelUnder "t"] known.1), known.2))) in
  reached false s ∧ environment_inactive (ho_memory (host s)) (ev_now s.1) "t" = Ok false ∧
  ev_facts s.1 key = FactEnvironment true ∧ ev_due s.1 = [] ∧ queue (ho_watch (host s)) = Some [].
Proof.
  intros s. split_and!; [|by vm_compute..]. apply delivered_reached; [|by right|done].
  eapply rtc_r; [eapply rtc_r; [apply (known_reached false)|]|].
  - apply (Commit false known.1 known.2 changed_facts [DelUnder "t"]). intros k Hk. unfold changed_facts. cbn. unfold active_facts. f_equal.
    apply not_true_iff_false. intros Hu. apply Hk. exists (DelUnder "t"). split; [apply list_elem_of_here|done].
  - apply (ListUnder false (commit changed_facts [DelUnder "t"] known.1) known.2 [] "t" [] []); [done| |done].
    intros k. split; [by intros ?%elem_of_nil|]. intros [_ [m Hm]]. by vm_compute in Hm.
Qed.

Definition late_facts : string → AuthFact := λ k, FactEnvironment (String.eqb key k).
Definition delete_made (s : Sys) : Sys :=
  let m := message s.1 key OpDelete "" in (with_due [] (stored m s.1), send_to m <$> s.2).
Definition delete_seen_late (s : Sys) : Sys :=
  let m := {| kv_key := key; kv_revision := 1; kv_created := 0; kv_operation := OpDelete; kv_value := "" |} in
  set_host (with_memory (apply (ho_memory (host s)) (ev_now s.1) m) (Watching []) (host s)) s.
Definition expired (s : Sys) : Sys := let e := tick MEMORY_TTL s.1 in (with_bucket (delete key (ev_bucket e)) e, s.2).
Definition late_put : Sys := sent (expired (delete_seen_late (delete_made (commit late_facts [DelKey key] known.1, known.2)))).
Definition late_delivered : Sys :=
  let s := in_bucket late_put in
  let m := message late_put.1 key OpPut "false" in
  set_host (with_memory (apply (ho_memory (host s)) (ev_now s.1) m) (Watching []) (host s)) s.

(** A put that the bucket stores later than [MEMORY_TTL] after its ticket passes
    the delete by, which has expired: the stale answer is kept, no deletion is due
    and no message on its way. *)
Theorem late_put_race :
  reached false late_delivered ∧
  environment_inactive (ho_memory (host late_delivered)) (ev_now late_delivered.1) "t" = Ok false ∧
  ev_facts late_delivered.1 key = FactEnvironment true ∧ ev_due late_delivered.1 = [] ∧
  queue (ho_watch (host late_delivered)) = Some [].
Proof.
  split_and!; [|by vm_compute..].
  pose (s1 := (commit late_facts [DelKey key] known.1, known.2) : Sys).
  assert (reached false s1) as H1.
  { eapply rtc_r; [apply (known_reached false)|]. apply (Commit false known.1 known.2 late_facts [DelKey key]).
    intros k Hk. unfold late_facts. cbn. unfold active_facts. f_equal. apply not_true_iff_false. intros Hu. apply Hk.
    exists (DelKey key). split; [apply list_elem_of_here|done]. }
  assert (reached false (delete_made s1)) as H2 by (eapply rtc_r; [exact H1|]; by apply (DeleteKey false s1.1 s1.2 [] key [])).
  assert (reached false (delete_seen_late (delete_made s1))) as H3
    by (apply reached_host; [exact H2|by eexists|]; by apply Deliver with (l1 := [])).
  assert (reached false (expired (delete_seen_late (delete_made s1)))) as H4.
  { eapply rtc_r; [eapply rtc_r; [exact H3|]; by apply (Tick false _ _ MEMORY_TTL)|].
    by apply (Expire false (tick MEMORY_TTL (delete_seen_late (delete_made s1)).1) _ key (message s1.1 key OpDelete "")). }
  assert (reached false late_put) as H5.
  { apply reached_host; [exact H4|by eexists|]. assert (merge read_done None = kept) as Em by reflexivity.
    pose proof (Send false (expired (delete_seen_late (delete_made s1))).1 (host (expired (delete_seen_late (delete_made s1)))) []
      (to_phase (Known read_done) reading) [] read_done None "false") as Hsend. rewrite Em in Hsend.
    apply Hsend; by vm_compute. }
  assert (reached false (in_bucket late_put)) as H6.
  { eapply rtc_r; [exact H5|].
    by apply (Store false late_put.1 late_put.2 0%nat (host late_put) [] (to_phase (Sent read_done None kept "false") reading) []
      read_done None kept "false"). }
  apply reached_host; [exact H6|by eexists|]. by apply Deliver with (l1 := []).
Qed.

(** ** A token that is admitted *)

#[local] Instance sample_sha : Sha256 := String.list_ascii_of_string.

Definition token_facts : string → gset string := λ k, if String.eqb k (identity_key "p") then {[ "secret" ]} else ∅.
Definition admitted_env : Env (gset string) := (token_initial token_facts).1.
Definition admitted_host : TokenHost :=
  let c := cache_set_bucket true (cache_clear (with_ttl MEMORY_TTL)) in
  {| th_cache := keep_token c 0 0 "secret" "p" None; th_watch := Watching []; th_reads := [] |}.

Definition reading_host : TokenHost :=
  let c := cache_set_bucket true (cache_clear (with_ttl MEMORY_TTL)) in
  {| th_cache := c; th_watch := Watching [];
     th_reads := [answered ("p", None) {| tr_ticket := 0; tr_started := 0; tr_token := "secret"; tr_answer := None |}] |}.
Definition admitted_late : TokenHost :=
  {| th_cache := keep_token (th_cache reading_host) MEMORY_TTL 0 "secret" "p" None; th_watch := Watching []; th_reads := [] |}.

Lemma reading_reached orderly : rtc (token_step (Some "t") orderly) (token_initial token_facts) (admitted_env, reading_host).
Proof.
  pose (h0 := (token_initial token_facts).2). pose (h1 := with_cache (th_cache h0) (Opening []) h0).
  pose (h2 := with_cache (cache_set_bucket true (cache_clear (th_cache h1))) (Watching []) h1).
  pose (x := {| tr_ticket := 0; tr_started := 0; tr_token := "secret"; tr_answer := None |}).
  pose (h3 := with_token_reads [x] h2).
  apply (rtc_l _ _ (admitted_env, h1)).
  { apply TSubscribe; [done|]. intros m. split; [by intros ?%elem_of_nil|]. cbn. rewrite lookup_empty. by intros [? _]. }
  apply (rtc_l _ _ (admitted_env, h2)); [by apply TOpen|].
  apply (rtc_l _ _ (admitted_env, h3)); [exact (TBegin _ _ admitted_env h2 "secret")|].
  apply rtc_once. apply (TRead _ _ admitted_env h3 [] x [] "p" None); [done|done|done|].
  change ("secret" ∈ ({[ "secret" ]} : gset string)). set_solver.
Qed.

Lemma admitted_reached : rtc (token_step (Some "t") true) (token_initial token_facts) (admitted_env, admitted_host).
Proof.
  eapply rtc_r; [apply reading_reached|].
  by apply (TKeep _ _ admitted_env reading_host []
    (answered ("p", None) {| tr_ticket := 0; tr_started := 0; tr_token := "secret"; tr_answer := None |}) [] "p" None).
Qed.

(** A token kept later than [MEMORY_TTL] after its ticket, by a host whose watch
    broke before the delete and opened again after it had expired, is admitted
    although it is no longer active, no deletion is due and none on its way. *)
Theorem late_token_race :
  let gone := λ _ : string, (∅ : gset string) in
  ∃ e, rtc (token_step (Some "t") false) (token_initial token_facts) (e, admitted_late) ∧
    session_active (th_cache admitted_late) (ev_now e) "secret" = true ∧
    ev_facts e = gone ∧ ev_due e = [] ∧ queue (th_watch admitted_late) = Some [].
Proof.
  intros gone. pose (x := answered ("p", None) {| tr_ticket := 0; tr_started := 0; tr_token := "secret"; tr_answer := None |}).
  pose (e1 := commit gone [DelKey (identity_key "p")] admitted_env).
  pose (m := message e1 (identity_key "p") OpDelete ""). pose (e2 := with_due [] (stored m e1)).
  pose (e3 := tick MEMORY_TTL e2). pose (e4 := with_bucket (delete (identity_key "p") (ev_bucket e3)) e3).
  pose (h1 := send_token (Some "t") m reading_host).
  pose (h2 := with_cache (cache_set_bucket false (th_cache h1)) (Breaking [m]) h1).
  pose (h3 := with_cache (cache_clear (th_cache h2)) Closed h2). pose (h4 := with_cache (th_cache h3) (Opening []) h3).
  pose (h5 := with_cache (cache_set_bucket true (cache_clear (th_cache h4))) (Watching []) h4).
  exists e4. split_and!; [|by vm_compute|done..].
  transitivity (admitted_env, reading_host); [apply reading_reached|].
  apply (rtc_l _ _ (e1, reading_host)).
  { apply TCommit. intros k Hk. unfold gone. cbn. unfold token_facts. destruct (String.eqb_spec k (identity_key "p")) as [->|]; [|done].
    destruct Hk. exists (DelKey (identity_key "p")). split; [apply list_elem_of_here|done]. }
  apply (rtc_l _ _ (e2, h1)); [by apply (TDelete _ _ e1 reading_host [] (identity_key "p") [])|].
  apply (rtc_l _ _ (e2, h2)); [by apply TBreak|]. apply (rtc_l _ _ (e2, h3)); [by apply (TClear _ _ e2 h2 [m])|].
  apply (rtc_l _ _ (e3, h3)); [by apply TTick|]. apply (rtc_l _ _ (e4, h3)); [by apply (TExpire _ _ e3 h3 _ m)|].
  apply (rtc_l _ _ (e4, h4)).
  { apply TSubscribe; [done|]. intros y. split; [by intros ?%elem_of_nil|]. intros [Hy _]. exfalso.
    cbn in Hy. apply lookup_delete_Some in Hy as [Hne Hy]. by rewrite lookup_insert_ne, lookup_empty in Hy. }
  apply (rtc_l _ _ (e4, h5)); [by apply (TOpen _ _ e4 h4 [])|].
  apply rtc_once. by apply (TKeep _ _ e4 h5 [] x [] "p" None).
Qed.


End MemorySample.
