(* ===== verification/ConnectionMemory.v ===== *)
(** * The connection memory of a host

    [crates/platform/runtime/src/connection_memory.rs] over [KvMemory], with the
    keys and the deletions of
    [crates/identity/platform/src/connection_changes.rs].  The OAuth tokens and
    the resource leases that fall with a connection are left out.  Its facts
    are an instance of [MemoryFacts], so the protocol of [KvProtocol] holds of
    them too. *)

From stdpp Require Import base tactics option list gmap strings relations.
From Stdlib Require Import ZArith Lia.
From S2P Require Import Prelude Text RouteAuthentication KvMemory KvProtocol.
#[local] Set Warnings "-clear-no-such-hyp".
Open Scope wamn_scope.
Open Scope Z_scope.

(** ** Keys and changes *)

Definition connection_key (env_key id : string) : string := env_key +:+ ".connection." +:+ id.
Definition release_key (env_key manifest_digest : string) : string :=
  env_key +:+ ".release." +:+ default manifest_digest (strip_prefix "sha256:" manifest_digest).
Definition connections_key (env_key : string) : string := env_key +:+ ".connections".

Inductive ConnectionChange :=
  | ChangeConnection (env_key id : string)
  | ChangeRelease (env_key manifest_digest : string)
  | ChangeConnections (env_key : string)
  | ChangeEnvironment (env_key : string).

(** What [ConnectionChanges::publish] deletes for a change. *)
Definition connection_deletion (c : ConnectionChange) : Deletion :=
  match c with
  | ChangeConnection env_key id => DelKey (connection_key env_key id)
  | ChangeRelease env_key manifest_digest => DelKey (release_key env_key manifest_digest)
  | ChangeConnections env_key => DelKey (connections_key env_key)
  | ChangeEnvironment env_key => DelUnder env_key
  end.

(** ** Facts *)

Record ReleaseBinding := {
  rb_component_digest : string;
  rb_package_id : string;
  rb_name : string;
  rb_connection_id : string;
  rb_version : Z;
  rb_mode : string;
}.
Record ReleaseFact := { rf_versions : gmap string Z; rf_bindings : list ReleaseBinding }.

Definition version (f : ReleaseFact) (connection_id : string) : option Z := rf_versions f !! connection_id.
Definition binding (f : ReleaseFact) (component_digest package_id name : string) : option ReleaseBinding :=
  find (λ b, String.eqb (rb_component_digest b) component_digest && String.eqb (rb_package_id b) package_id &&
             String.eqb (rb_name b) name) (rf_bindings f).

Inductive ConnectionAnswer :=
  | OfConnection (f : ConnectionFact)
  | OfRelease (f : ReleaseFact)
  | OfConnections (connections : gmap string string).

(** ** The memory *)

Definition memory_connection (m : KvMemory ConnectionAnswer) (now : Z) (env_key id : string) : result ConnectionFact Z :=
  let key := connection_key env_key id in
  match answer m now key with
  | Ok (OfConnection f) => Ok f
  | Ok _ => Err (ticket m now key)
  | Err tk => Err tk
  end.

Definition memory_release (m : KvMemory ConnectionAnswer) (now : Z) (env_key manifest_digest : string) : result ReleaseFact Z :=
  let key := release_key env_key manifest_digest in
  match answer m now key with
  | Ok (OfRelease f) => Ok f
  | Ok _ => Err (ticket m now key)
  | Err tk => Err tk
  end.

Definition memory_connections (m : KvMemory ConnectionAnswer) (now : Z) (env_key : string) : result (gmap string string) Z :=
  let key := connections_key env_key in
  match answer m now key with
  | Ok (OfConnections c) => Ok c
  | Ok _ => Err (ticket m now key)
  | Err tk => Err tk
  end.

(** A host puts the fact it read, whatever it replaces. *)
#[export] Program Instance connection_facts : MemoryFacts ConnectionAnswer ConnectionAnswer ConnectionAnswer :=
  {| agrees := eq; reads := eq; merge r _ := r |}.
Next Obligation. by intros r o f -> _. Qed.

Section Shared.
Context `{!MemoryCodec ConnectionAnswer} (decode_encode : ∀ a v, encode a = Some v → decode v = Some a).

(** What a host answers about a connection, the map of a release and the
    connections of an environment is, in an orderly run of [KvProtocol], what the
    database holds, or the key is stale in its sense. *)
Theorem connection_memory_coherent facts filters (e : Env ConnectionAnswer) hs i h env_key id digest :
  rtc (step true) (initial facts filters) (e, hs) → hs !! i = Some h →
  let stale k := due_for (ev_due e) k ∨ on_its_way h k in
  (∀ f, memory_connection (ho_memory h) (ev_now e) env_key id = Ok f →
     ev_facts e (connection_key env_key id) = OfConnection f ∨ stale (connection_key env_key id)) ∧
  (∀ f, memory_release (ho_memory h) (ev_now e) env_key digest = Ok f →
     ev_facts e (release_key env_key digest) = OfRelease f ∨ stale (release_key env_key digest)) ∧
  (∀ c, memory_connections (ho_memory h) (ev_now e) env_key = Ok c →
     ev_facts e (connections_key env_key) = OfConnections c ∨ stale (connections_key env_key)).
Proof using decode_encode.
  intros Hrun Hi. cbn zeta.
  assert (∀ k a, answer (ho_memory h) (ev_now e) k = Ok a → a = ev_facts e k ∨ due_for (ev_due e) k ∨ on_its_way h k) as Hc
    by (intros k a; exact (coherent decode_encode facts filters e hs i h k a Hrun Hi)).
  split_and!; [intros f; unfold memory_connection|intros f; unfold memory_release|intros c; unfold memory_connections].
  all: destruct (answer _ _ _) as [[]|] eqn:Ha; try done; intros [= <-]; destruct (Hc _ _ Ha) as [->|?]; [by left|by right].
Qed.

End Shared.
