(* ===== verification/ResourceLease.v ===== *)
(** * Exclusive resource leases

    [crates/platform/runtime/src/resource_lease.rs]: the leases of a host, the
    task that holds their database session, and PostgreSQL's session advisory
    locks, as one step relation over many hosts.  A lease is its index in the
    host's table (the [Arc]); the [calls] mutex of a lease is its entry in
    [lh_calls], with the epoch of the call; a task of [revoke] that waits for the
    call is an entry of [lh_revoking]; a deferred command is one that stays at the
    head of the queue.  The lock of a key is that of its hash, which may collide.

    [exclusive_resource]: one lease of a resource is held on a host, two hosts
    hold it only after the database ended the session of one of them, and no lease
    is released under a call.  [released_waiter_leaks_lock]: the release of a
    waiting lease makes the holder of its key lock twice, and the one unlock of the
    holder's release leaves the resource locked.

    Left out: leases of resources that are local to the process, the stop command,
    and the waiting of [enter]. *)

From stdpp Require Import base tactics option list gmap strings relations.
From Stdlib Require Import ZArith Lia.
From S2P Require Import Prelude Text.
#[local] Set Warnings "-clear-no-such-hyp".
Open Scope wamn_scope.

(** ** A host *)

Inductive LeaseState := PENDING | HELD | LOST | RELEASED.
#[export] Instance LeaseState_eq_dec : EqDecision LeaseState.
Proof. solve_decision. Defined.

Record Lease := { le_key : string; le_connection : string; le_active : bool; le_state : LeaseState; le_epoch : Z }.

(** [Lease::set]; a loss starts a new epoch. *)
Definition set_state (s : LeaseState) (l : Lease) : Lease :=
  {| le_key := le_key l; le_connection := le_connection l; le_active := le_active l; le_state := s;
     le_epoch := match s with LOST => u64_add (le_epoch l) 1 | _ => le_epoch l end |}.
Definition deactivate (l : Lease) : Lease :=
  {| le_key := le_key l; le_connection := le_connection l; le_active := false; le_state := le_state l; le_epoch := le_epoch l |}.

Inductive Command := Acquire (l : nat) | Release (l : nat).
#[export] Instance Command_eq_dec : EqDecision Command.
Proof. solve_decision. Defined.

Record LeaseHost := {
  lh_table : gmap nat Lease;
  lh_leases : gmap string nat;
  lh_calls : gmap nat Z;
  lh_revoking : list nat;
  lh_commands : list Command;
  (* the task of the session *)
  lh_needed : gmap string nat;
  lh_pending : list nat;
  lh_session : option nat;
  lh_acquiring : option (nat * bool);  (* the lease of the statement that runs, and whether the lock was granted *)
}.

Definition no_leases : LeaseHost :=
  {| lh_table := ∅; lh_leases := ∅; lh_calls := ∅; lh_revoking := []; lh_commands := [];
     lh_needed := ∅; lh_pending := []; lh_session := None; lh_acquiring := None |}.

Definition on_lease (f : Lease → Lease) (l : nat) (h : LeaseHost) : LeaseHost :=
  {| lh_table := alter f l (lh_table h); lh_leases := lh_leases h; lh_calls := lh_calls h; lh_revoking := lh_revoking h;
     lh_commands := lh_commands h; lh_needed := lh_needed h; lh_pending := lh_pending h; lh_session := lh_session h;
     lh_acquiring := lh_acquiring h |}.
Definition with_calls (c : gmap nat Z) (h : LeaseHost) : LeaseHost :=
  {| lh_table := lh_table h; lh_leases := lh_leases h; lh_calls := c; lh_revoking := lh_revoking h;
     lh_commands := lh_commands h; lh_needed := lh_needed h; lh_pending := lh_pending h; lh_session := lh_session h;
     lh_acquiring := lh_acquiring h |}.
Definition with_revoking (r : list nat) (q : list Command) (h : LeaseHost) : LeaseHost :=
  {| lh_table := lh_table h; lh_leases := lh_leases h; lh_calls := lh_calls h; lh_revoking := r;
     lh_commands := q; lh_needed := lh_needed h; lh_pending := lh_pending h; lh_session := lh_session h;
     lh_acquiring := lh_acquiring h |}.
Definition with_task (q : list Command) (needed : gmap string nat) (pending : list nat) (h : LeaseHost) : LeaseHost :=
  {| lh_table := lh_table h; lh_leases := lh_leases h; lh_calls := lh_calls h; lh_revoking := lh_revoking h;
     lh_commands := q; lh_needed := needed; lh_pending := pending; lh_session := lh_session h; lh_acquiring := lh_acquiring h |}.
Definition with_session (session : option nat) (pending : list nat) (acquiring : option (nat * bool)) (h : LeaseHost) : LeaseHost :=
  {| lh_table := lh_table h; lh_leases := lh_leases h; lh_calls := lh_calls h; lh_revoking := lh_revoking h;
     lh_commands := lh_commands h; lh_needed := lh_needed h; lh_pending := pending; lh_session := session; lh_acquiring := acquiring |}.

Definition state_is (h : LeaseHost) (l : nat) (s : LeaseState) : bool :=
  match lh_table h !! l with Some x => bool_decide (le_state x = s) | None => false end.
Definition is_active (h : LeaseHost) (l : nat) : bool :=
  match lh_table h !! l with Some x => le_active x | None => false end.

Definition lease_key (target resource : string) : string := "resource:" +:+ target +:+ ":" +:+ resource.

(** The lease of a connection that [enter] finds, or the one it makes with the index [fresh]. *)
Definition enter (connection target resource : string) (fresh : nat) (h : LeaseHost) : LeaseHost :=
  let made :=
    {| lh_table := <[fresh := {| le_key := lease_key target resource; le_connection := connection; le_active := true; le_state := PENDING; le_epoch := 0 |}]> (lh_table h);
       lh_leases := <[connection := fresh]> (lh_leases h); lh_calls := lh_calls h; lh_revoking := lh_revoking h;
       lh_commands := lh_commands h ++ [Acquire fresh]; lh_needed := lh_needed h; lh_pending := lh_pending h;
       lh_session := lh_session h; lh_acquiring := lh_acquiring h |} in
  match lh_leases h !! connection with
  | Some l => if state_is h l RELEASED then made else h
  | None => made
  end.

(** [call] past [enter]: with the mutex of the lease, an epoch, or a refusal. *)
Definition begin_call (l : nat) (h : LeaseHost) : option LeaseHost :=
  match lh_table h !! l with
  | Some x => if le_active x && bool_decide (le_state x = HELD) then Some (with_calls (<[l := le_epoch x]> (lh_calls h)) h) else None
  | None => None
  end.

(** [Call::held]. *)
Definition held (h : LeaseHost) (l : nat) : bool :=
  match lh_table h !! l, lh_calls h !! l with
  | Some x, Some epoch => bool_decide (le_state x = HELD) && (epoch =? le_epoch x)%Z
  | _, _ => false
  end.

(** [revoke], up to the task that waits for the call. *)
Definition revoke (l : nat) (h : LeaseHost) : LeaseHost :=
  if is_active h l then with_revoking (l :: lh_revoking h) (lh_commands h) (on_lease deactivate l h) else h.

Definition invalidate (connection : string) (h : LeaseHost) : LeaseHost :=
  match lh_leases h !! connection with Some l => revoke l h | None => h end.

(** A lease of the same key that another connection holds. *)
Definition blocked (h : LeaseHost) (l : nat) : bool :=
  match lh_table h !! l with
  | None => false
  | Some x => existsb (λ o, match lh_table h !! o with
                            | Some y => negb (String.eqb (le_connection y) (le_connection x)) &&
                                        String.eqb (le_key y) (le_key x) && bool_decide (le_state y = HELD)
                            | None => false
                            end) (map_to_list (lh_needed h)).*2
  end.

(** A command without a session, and one within it; [woken] are the waiting leases a release queues again. *)
Definition idle_command (c : Command) (q : list Command) (h : LeaseHost) : LeaseHost :=
  match c with
  | Acquire l => match lh_table h !! l with
                 | Some x => with_task q (<[le_connection x := l]> (lh_needed h)) (lh_pending h) h
                 | None => h
                 end
  | Release l => match lh_table h !! l with
                 | Some x => on_lease (set_state RELEASED) l (with_task q (delete (le_connection x) (lh_needed h)) (lh_pending h) h)
                 | None => h
                 end
  end.

Definition session_command (c : Command) (q : list Command) (woken : list nat) (h : LeaseHost) : LeaseHost :=
  match c with
  | Acquire l => match lh_table h !! l with
                 | Some x => with_task q (<[le_connection x := l]> (lh_needed h)) (lh_pending h ++ [l]) h
                 | None => h
                 end
  | Release l => match lh_table h !! l with
                 | Some x => on_lease (set_state RELEASED) l (with_task q (delete (le_connection x) (lh_needed h)) (lh_pending h ++ woken) h)
                 | None => h
                 end
  end.

(** The leases the release of [l] queues again: those of its key that are needed, active and not queued. *)
Definition wakes (h : LeaseHost) (l : nat) (woken : list nat) : Prop :=
  NoDup woken ∧ ∀ w, w ∈ woken ↔
    (∃ x y, lh_table h !! l = Some x ∧ lh_table h !! w = Some y ∧ le_key y = le_key x ∧ le_active y = true ∧
       (w ∉ lh_pending h) ∧ delete (le_connection x) (lh_needed h) !! le_connection y = Some w).

(** The loss of the session: what is needed and not released is lost. *)
Definition broken (h : LeaseHost) : LeaseHost :=
  with_session None [] None
    {| lh_table := map_imap (λ l x, Some (if bool_decide (lh_needed h !! le_connection x = Some l) && negb (bool_decide (le_state x = RELEASED))
                                          then set_state LOST x else x)) (lh_table h);
       lh_leases := lh_leases h; lh_calls := lh_calls h; lh_revoking := lh_revoking h; lh_commands := lh_commands h;
       lh_needed := lh_needed h; lh_pending := lh_pending h; lh_session := lh_session h; lh_acquiring := lh_acquiring h |}.

(** ** The database *)

(** Live sessions, the next session, and each advisory lock with its owner and how often it locked. *)
Record Database := { db_live : gset nat; db_next : nat; db_locks : gmap Z (nat * nat) }.

Definition owned (db : Database) (x : Z) (sid : nat) : nat :=
  match db_locks db !! x with Some (s, n) => if bool_decide (s = sid) then n else 0 | None => 0 end.

(** [pg_advisory_lock] for a session, when it does not wait. *)
Definition lock (x : Z) (sid : nat) (db : Database) : option Database :=
  match db_locks db !! x with
  | Some (s, n) => if bool_decide (s = sid)
                   then Some {| db_live := db_live db; db_next := db_next db; db_locks := <[x := (sid, S n)]> (db_locks db) |} else None
  | None => Some {| db_live := db_live db; db_next := db_next db; db_locks := <[x := (sid, 1)]> (db_locks db) |}
  end.

(** [pg_advisory_unlock]. *)
Definition unlock (x : Z) (sid : nat) (db : Database) : Database :=
  match db_locks db !! x with
  | Some (s, S (S n)) => if bool_decide (s = sid)
      then {| db_live := db_live db; db_next := db_next db; db_locks := <[x := (sid, S n)]> (db_locks db) |} else db
  | Some (s, _) => if bool_decide (s = sid)
      then {| db_live := db_live db; db_next := db_next db; db_locks := delete x (db_locks db) |} else db
  | None => db
  end.

Definition opened (db : Database) : Database :=
  {| db_live := {[ db_next db ]} ∪ db_live db; db_next := S (db_next db); db_locks := db_locks db |}.
Definition ended (sid : nat) (db : Database) : Database :=
  {| db_live := db_live db ∖ {[ sid ]}; db_next := db_next db; db_locks := filter (λ xo, xo.2.1 ≠ sid) (db_locks db) |}.

(** [hashtextextended]. *)
Class KeyHash := key_hash : string → Z.

Section Leases.
Context `{!KeyHash}.

Abbreviation Hosts := (Database * gmap nat LeaseHost)%type.

Definition hash_of (h : LeaseHost) (l : nat) : option Z := (λ x, key_hash (le_key x)) <$> lh_table h !! l.

(** One step of a host and of the database under it. *)
Inductive host_moves (db : Database) (h : LeaseHost) : Database → LeaseHost → Prop :=
  | Enter connection target resource fresh : lh_table h !! fresh = None → host_moves db h db (enter connection target resource fresh h)
  | BeginCall l h' : lh_calls h !! l = None → begin_call l h = Some h' → host_moves db h db h'
  | EndCall l : host_moves db h db (with_calls (delete l (lh_calls h)) h)
  | Invalidate connection : host_moves db h db (invalidate connection h)
  | SendRelease r1 l r2 : lh_revoking h = r1 ++ l :: r2 → lh_calls h !! l = None →
      host_moves db h db (with_revoking (r1 ++ r2) (lh_commands h ++ [Release l]) h)
  | Idle c q : lh_session h = None → lh_commands h = c :: q → host_moves db h db (idle_command c q h)
  | Connect pending : lh_session h = None → lh_needed h ≠ ∅ →
      (∀ l, l ∈ pending ↔ is_active h l = true ∧ ∃ c, lh_needed h !! c = Some l) →
      host_moves db h (opened db) (with_session (Some (db_next db)) pending None h)
  | Skip l p sid : lh_session h = Some sid → lh_acquiring h = None → lh_pending h = l :: p →
      is_active h l = false ∨ blocked h l = true → host_moves db h db (with_session (Some sid) p None h)
  | StartAcquire l p sid : lh_session h = Some sid → lh_acquiring h = None → lh_pending h = l :: p →
      is_active h l = true → blocked h l = false → host_moves db h db (with_session (Some sid) p (Some (l, false)) h)
  | Granted l sid x db' : lh_session h = Some sid → lh_acquiring h = Some (l, false) → sid ∈ db_live db →
      hash_of h l = Some x → lock x sid db = Some db' → host_moves db h db' (with_session (Some sid) (lh_pending h) (Some (l, true)) h)
  | Acquired l sid : lh_session h = Some sid → lh_acquiring h = Some (l, true) →
      host_moves db h db (on_lease (set_state HELD) l (with_session (Some sid) (lh_pending h) None h))
  | Cancelled l g sid : lh_session h = Some sid → lh_acquiring h = Some (l, g) →
      host_moves db h db (with_session (Some sid) (lh_pending h ++ (if is_active h l then [l] else [])) None h)
  | Serve c q sid woken db' : lh_session h = Some sid → lh_acquiring h = None → lh_commands h = c :: q →
      match c with
      | Acquire _ => db' = db
      | Release l => wakes h l woken ∧
          if state_is h l HELD then sid ∈ db_live db ∧ ∃ x, hash_of h l = Some x ∧ db' = unlock x sid db else db' = db
      end → host_moves db h db' (session_command c q woken h)
  | Break sid : lh_session h = Some sid → host_moves db h db (broken h).

Inductive moves : Hosts → Hosts → Prop :=
  | OneHost db hs i h db' h' : hs !! i = Some h → host_moves db h db' h' → moves (db, hs) (db', <[i := h']> hs)
  | EndSession db hs sid : moves (db, hs) (ended sid db, hs).

Definition fresh_hosts (n : nat) : Hosts :=
  ({| db_live := ∅; db_next := 0; db_locks := ∅ |}, list_to_map ((λ i, (i, no_leases)) <$> seq 0 n)).

(** ** The invariant of a host *)

Definition in_state (h : LeaseHost) (l : nat) (s : LeaseState) : Prop := ∃ x, lh_table h !! l = Some x ∧ le_state x = s.

(** What a lease, by its flags and state, is known to be. *)
Record lease_ok (h : LeaseHost) (l : nat) (x : Lease) : Prop := {
  lo_unique : le_state x ≠ RELEASED → lh_leases h !! le_connection x = Some l;
  lo_released : le_state x = RELEASED → le_active x = false;
  lo_held : le_state x = HELD → is_Some (lh_session h) ∧ lh_needed h !! le_connection x = Some l;
  lo_calls : is_Some (lh_calls h !! l) → le_state x ≠ RELEASED ∧ Release l ∉ lh_commands h;
  lo_revoking : l ∈ lh_revoking h → le_active x = false ∧ (Release l ∉ lh_commands h) ∧ le_state x ≠ RELEASED;
  lo_acquire : Acquire l ∈ lh_commands h → le_state x ≠ RELEASED;
  lo_release : Release l ∈ lh_commands h → le_active x = false ∧ le_state x ≠ RELEASED;
  lo_pending : l ∈ lh_pending h → le_active x = true → lh_needed h !! le_connection x = Some l;
}.

(** A command about a lease is the last one of it, once it is a release. *)
Definition queue_ok (q : list Command) : Prop :=
  ∀ q1 l q2, q = q1 ++ Release l :: q2 → (Acquire l ∉ q2) ∧ Release l ∉ q2.

Record lease_host_ok (h : LeaseHost) : Prop := {
  lk_leases l x : lh_table h !! l = Some x → lease_ok h l x;
  lk_known l : (Acquire l ∈ lh_commands h ∨ Release l ∈ lh_commands h ∨ l ∈ lh_pending h ∨ l ∈ lh_revoking h ∨ is_Some (lh_calls h !! l)) →
    is_Some (lh_table h !! l);
  lk_queue : queue_ok (lh_commands h);
  lk_revoking : NoDup (lh_revoking h);
  lk_needed c l : lh_needed h !! c = Some l → ∃ x, lh_table h !! l = Some x ∧ le_connection x = c;
  lk_one l x l' x' : lh_table h !! l = Some x → lh_table h !! l' = Some x' →
    le_state x = HELD → le_state x' = HELD → le_key x = le_key x' → l = l';
  lk_acquiring l g : lh_acquiring h = Some (l, g) → is_Some (lh_session h) ∧
    ∃ x, lh_table h !! l = Some x ∧ lh_needed h !! le_connection x = Some l ∧ le_state x ≠ RELEASED ∧
      ∀ l' x', lh_table h !! l' = Some x' → le_state x' = HELD → le_key x' = le_key x → l' = l;
}.

(** A split of an append falls in one of its parts. *)
Lemma app_cons_split {A} (l1 l2 k1 : list A) x k2 :
  l1 ++ l2 = k1 ++ x :: k2 → (∃ k, l1 = k1 ++ x :: k ∧ k2 = k ++ l2) ∨ (∃ k, k1 = l1 ++ k ∧ l2 = k ++ x :: k2).
Proof.
  revert k1. induction l1 as [|a l1 IH]; intros k1 E; cbn in *; [right; by exists k1|].
  destruct k1 as [|b k1]; cbn in E; injection E as -> E.
  - left. exists l1. by rewrite E.
  - destruct (IH k1 E) as [(k & -> & ->)|(k & -> & ->)]; [left; by exists k|right; by exists k].
Qed.

(** Two leases that are not released have different connections. *)
Lemma lease_unique h l x l' x' :
  lease_host_ok h → lh_table h !! l = Some x → lh_table h !! l' = Some x' →
  le_state x ≠ RELEASED → le_state x' ≠ RELEASED → le_connection x = le_connection x' → l = l'.
Proof.
  intros Hh Hx Hx' Hs Hs' E. pose proof (lo_unique _ _ _ (lk_leases _ Hh _ _ Hx) Hs) as H1.
  pose proof (lo_unique _ _ _ (lk_leases _ Hh _ _ Hx') Hs') as H2. congruence.
Qed.

Lemma active_not_released h l x : lease_host_ok h → lh_table h !! l = Some x → le_active x = true → le_state x ≠ RELEASED.
Proof. intros Hh Hx Ha Hs. pose proof (lo_released _ _ _ (lk_leases _ Hh _ _ Hx) Hs). congruence. Qed.

Lemma queue_ok_app q c :
  queue_ok q → match c with Acquire l => Release l ∉ q | Release l => Release l ∉ q end → queue_ok (q ++ [c]).
Proof.
  intros Hq Hc q1 l q2 E. destruct (app_cons_split q [c] q1 (Release l) q2 E) as [(q3 & -> & ->)|(q3 & -> & Eq)].
  - destruct (Hq q1 l q3 eq_refl) as [Ha Hr]. rewrite !elem_of_app, !list_elem_of_singleton.
    split; (intros [?|E']; [done|]); destruct c as [l'|l']; simplify_eq; apply Hc; set_solver.
  - destruct q3 as [|c' q3]; simplify_list_eq; [|by destruct q3]. split; apply not_elem_of_nil.
Qed.

Lemma queue_ok_tail c q : queue_ok (c :: q) → queue_ok q.
Proof. intros Hq q1 l q2 ->. by apply (Hq (c :: q1)). Qed.

Lemma on_lease_table f l h j : lh_table (on_lease f l h) !! j = (λ x, if decide (j = l) then f x else x) <$> lh_table h !! j.
Proof.
  cbn [on_lease lh_table]. destruct (decide (j = l)) as [->|Hne]; [rewrite lookup_alter_eq; by destruct (_ !! l)|].
  rewrite lookup_alter_ne by done. by destruct (_ !! j).
Qed.

Lemma on_lease_back f l h j y :
  lh_table (on_lease f l h) !! j = Some y → ∃ x, lh_table h !! j = Some x ∧ (j ≠ l ∧ y = x ∨ j = l ∧ y = f x).
Proof.
  rewrite on_lease_table. destruct (lh_table h !! j) as [x|]; [|done]. intros [= <-]. exists x. split; [done|].
  destruct (decide (j = l)); [by right|by left].
Qed.

(** *** The requests of a host *)

Lemma enter_ok h connection target resource fresh :
  lease_host_ok h → lh_table h !! fresh = None → lease_host_ok (enter connection target resource fresh h).
Proof.
  intros Hh Hf. unfold enter. set (made := {| lh_table := _ |}).
  assert ((∀ l, lh_leases h !! connection = Some l → state_is h l RELEASED = true) → lease_host_ok made) as Hmade.
  2: { destruct (lh_leases h !! connection) as [l|] eqn:El; [|apply Hmade; done].
       destruct (state_is h l RELEASED) eqn:Hr; [|done]. apply Hmade. by intros ? [= <-]. }
  intros Hold. assert (∀ c, c ∈ lh_commands made ↔ c ∈ lh_commands h ∨ c = Acquire fresh) as Hq
    by (intros c; cbn; rewrite elem_of_app, list_elem_of_singleton; done).
  assert (∀ P : Prop, (Acquire fresh ∈ lh_commands h ∨ Release fresh ∈ lh_commands h ∨ fresh ∈ lh_pending h ∨ fresh ∈ lh_revoking h ∨
    is_Some (lh_calls h !! fresh)) → P) as Hnew by (intros P Hk; destruct (lk_known _ Hh _ Hk) as [? ?]; congruence).
  split; cbn [made lh_table lh_commands lh_needed lh_pending lh_revoking lh_calls lh_acquiring lh_session].
  - intros l x [[-> <-]|[Hne Hx]]%lookup_insert_Some.
    + split; cbn; try done; [by intros _; apply lookup_insert_eq|..].
      * intros ?. apply Hnew. tauto.
      * intros ?. apply Hnew. tauto.
      * rewrite elem_of_app, list_elem_of_singleton. intros [?|?]; [apply Hnew; tauto|done].
      * intros ?. apply Hnew. tauto.
    + destruct (lk_leases _ Hh _ _ Hx) as [H1 H2 H3 H4 H5 H6 H7 H8]. split; cbn [made lh_leases lh_session lh_needed lh_calls lh_revoking lh_pending];
        rewrite ?Hq; try done.
      * intros Hs. specialize (H1 Hs). destruct (decide (le_connection x = connection)) as [E|Hnc]; [|by rewrite lookup_insert_ne].
        rewrite E in H1. specialize (Hold l H1). unfold state_is in Hold. rewrite Hx in Hold. case_bool_decide; done.
      * intros Hc. destruct (H4 Hc). split; [done|]. by intros [?|?].
      * intros Hc. destruct (H5 Hc) as (? & ? & ?). split_and!; [done| |done]. by intros [?|?].
      * intros [?|[= ->]]; [by apply H6|done].
      * intros [?|?]; [by apply H7|done].
  - intros l Hk. destruct (decide (l = fresh)) as [->|Hne]; [rewrite lookup_insert_eq; by eexists|]. rewrite lookup_insert_ne by done.
    apply (lk_known _ Hh). rewrite !elem_of_app, !list_elem_of_singleton in Hk. naive_solver.
  - apply queue_ok_app; [apply Hh|]. intros ?. apply Hnew. tauto.
  - apply Hh.
  - intros c l Hc. destruct (lk_needed _ Hh _ _ Hc) as (x & Hx & ?). exists x. rewrite lookup_insert_ne by congruence. done.
  - intros l x l' x' [[-> <-]|[? Hx]]%lookup_insert_Some [[-> <-]|[? Hx']]%lookup_insert_Some; cbn; try done. by apply (lk_one _ Hh).
  - intros l g Ha. destruct (lk_acquiring _ Hh _ _ Ha) as [? (x & Hx & ? & ? & Hone)]. split; [done|]. exists x.
    rewrite lookup_insert_ne by congruence. split_and!; try done.
    intros l' x' [[-> <-]|[? Hx']]%lookup_insert_Some; cbn; [done|]. by apply Hone.
Qed.

(** Only the calls change. *)
Lemma calls_change_ok h c :
  lease_host_ok h →
  (∀ l, is_Some (c !! l) → is_Some (lh_calls h !! l) ∨ ∃ x, lh_table h !! l = Some x ∧ le_active x = true) →
  lease_host_ok (with_calls c h).
Proof.
  intros Hh Hc. destruct Hh as [H1 H2 H3 H4 H5 H6 H7]. split; try done.
  - intros l x Hx. pose proof (H1 l x Hx) as [L1 L2 L3 L4 L5 L6 L7 L8]. split; try done.
    intros Hl. destruct (Hc l Hl) as [?|(x' & Hx' & Ha)]; [by apply L4|]. cbn [with_calls lh_table] in Hx. assert (x' = x) as -> by congruence.
    split; [intros E; rewrite L2 in Ha; done|]. intros Hr. destruct (L7 Hr). congruence.
  - intros l [?|[?|[?|[?|Hl]]]]; [apply H2; tauto..|]. destruct (Hc l Hl) as [?|(x' & Hx & _)]; [apply H2; tauto|by eexists].
Qed.

Lemma revoke_ok h l : lease_host_ok h → lease_host_ok (revoke l h).
Proof.
  intros Hh. unfold revoke, is_active. destruct (lh_table h !! l) as [x|] eqn:Hx; [|done]. destruct (le_active x) eqn:Ha; [|done].
  pose proof (lk_leases _ Hh _ _ Hx) as [L1 L2 L3 L4 L5 L6 L7 L8].
  assert (l ∉ lh_revoking h) as Hnot by (intros Hr; destruct (L5 Hr); congruence).
  assert (Release l ∉ lh_commands h) as Hnr by (intros Hr; destruct (L7 Hr); congruence).
  assert (∀ j y, lh_table (with_revoking (l :: lh_revoking h) (lh_commands h) (on_lease deactivate l h)) !! j = Some y →
    ∃ y0, lh_table h !! j = Some y0 ∧ (j ≠ l ∧ y = y0 ∨ j = l ∧ y = deactivate y0)) as Hback
    by (intros j y; apply (on_lease_back deactivate)).
  destruct Hh as [H1 H2 H3 H4 H5 H6 H7]. split; cbn [with_revoking on_lease lh_commands lh_pending lh_revoking lh_calls lh_needed lh_acquiring lh_session].
  - intros j y Hy. destruct (Hback j y Hy) as (y0 & Hy0 & [[Hne ->]|[-> ->]]).
    + destruct (H1 j y0 Hy0) as [M1 M2 M3 M4 M5 M6 M7 M8]. split; try done.
      cbn [with_revoking lh_revoking]. intros [?|?]%elem_of_cons; [done|by apply M5].
    + assert (y0 = x) as -> by congruence. split; cbn [deactivate le_state le_active le_connection]; try done.
      intros _. split_and!; [done|done|]. intros E. rewrite L2 in Ha; done.
  - intros j Hj. change (lh_table (with_revoking _ _ ?x)) with (lh_table x). rewrite on_lease_table, fmap_is_Some. rewrite elem_of_cons in Hj.
    destruct (decide (j = l)) as [->|Hne]; [by rewrite Hx; eexists|]. apply H2. naive_solver.
  - done.
  - by constructor.
  - intros c j Hj. destruct (H5 c j Hj) as (y & Hy & E). change (lh_table (with_revoking _ _ ?x)) with (lh_table x). rewrite on_lease_table, Hy. eexists. split; [done|]. destruct (decide (j = l)); cbn; done.
  - intros j y j' y' Hy Hy'. destruct (Hback _ _ Hy) as (y0 & Hy0 & Hc). destruct (Hback _ _ Hy') as (y1 & Hy1 & Hc').
    destruct Hc as [[_ ->]|[_ ->]], Hc' as [[_ ->]|[_ ->]]; cbn; by apply (H6 j y0 j' y1).
  - intros j g Hj. destruct (H7 j g Hj) as [? (y & Hy & ? & ? & Hone)]. split; [done|].
    assert (∃ y', alter deactivate l (lh_table h) !! j = Some y' ∧ le_connection y' = le_connection y ∧ le_state y' = le_state y ∧ le_key y' = le_key y)
      as (y' & Hy' & Ec & Es & Ek).
    { change (alter deactivate l (lh_table h)) with (lh_table (on_lease deactivate l h)). rewrite on_lease_table, Hy.
      eexists. split; [done|]. destruct (decide (j = l)); cbn; done. }
    exists y'. rewrite Ec, Es, Ek. split_and!; try done. intros j' z Hz. destruct (Hback _ _ Hz) as (z0 & Hz0 & [[_ ->]|[_ ->]]); cbn; by apply (Hone j' z0).
Qed.

Lemma send_release_ok h r1 l r2 :
  lease_host_ok h → lh_revoking h = r1 ++ l :: r2 → lh_calls h !! l = None →
  lease_host_ok (with_revoking (r1 ++ r2) (lh_commands h ++ [Release l]) h).
Proof.
  intros Hh Er Hc. destruct (lk_known _ Hh l) as [x Hx]; [right; right; right; left; rewrite Er; set_solver|].
  destruct (lo_revoking _ _ _ (lk_leases _ Hh _ _ Hx)) as (Ha & Hnr & Hs); [rewrite Er; set_solver|].
  pose proof (lk_revoking _ Hh) as Hnd. rewrite Er in Hnd. apply NoDup_app in Hnd as (Hn1 & Hdis & [Hl Hn2]%NoDup_cons).
  destruct Hh as [H1 H2 H3 H4 H5 H6 H7]. split; cbn [with_revoking lh_table lh_commands lh_needed lh_pending lh_revoking lh_calls lh_acquiring lh_session]; try done.
  - intros j y Hy. destruct (H1 j y Hy) as [M1 M2 M3 M4 M5 M6 M7 M8].
    split; cbn [with_revoking lh_commands lh_revoking lh_calls]; rewrite ?elem_of_app, ?list_elem_of_singleton; try done.
    + intros Hj. destruct (M4 Hj). split; [done|]. intros [?|[= ->]]; [done|]. destruct Hj; congruence.
    + intros Hj. destruct (M5 ltac:(rewrite Er; set_solver)) as (? & ? & ?). split_and!; [done| |done].
      intros [?|[= ->]]; [done|]. destruct Hj as [Hj|Hj]; [apply (Hdis _ Hj); set_solver|done].
    + intros [?|?]; [by apply M6|done].
    + intros [?|[= ->]]; [by apply M7|]. assert (y = x) as -> by congruence. done.
  - intros j Hj. apply H2. rewrite !elem_of_app, !list_elem_of_singleton in Hj. rewrite Er. set_solver.
  - by apply queue_ok_app.
  - apply NoDup_app. split_and!; [done| |done]. intros j Hj Hj'. apply (Hdis _ Hj). set_solver.
Qed.

(** *** The task of the session *)

Lemma acquire_command_ok h l x q pending :
  lease_host_ok h → lh_commands h = Acquire l :: q → lh_table h !! l = Some x → lh_acquiring h = None →
  (∀ j, j ∈ pending → j ∈ lh_pending h ∨ j = l) →
  lease_host_ok (with_task q (<[le_connection x := l]> (lh_needed h)) pending h).
Proof.
  intros Hh Eq Hx Ha Hp. assert (le_state x ≠ RELEASED) as Hs by (apply (lo_acquire _ _ _ (lk_leases _ Hh _ _ Hx)); rewrite Eq; set_solver).
  assert (∀ c, c ∈ q → c ∈ lh_commands h) as Hq by (intros c Hc; rewrite Eq; set_solver).
  assert (∀ j y, lh_table h !! j = Some y → le_state y ≠ RELEASED → le_connection y = le_connection x → j = l) as Hu
    by (intros j y Hy Hys E; by eapply lease_unique).
  pose proof Hh as [H1 H2 H3 H4 H5 H6 H7]. split; cbn [with_task lh_table lh_commands lh_needed lh_pending lh_revoking lh_calls lh_acquiring lh_session]; try done.
  - intros j y Hy. pose proof (H1 j y Hy) as [M1 M2 M3 M4 M5 M6 M7 M8].
    assert (le_state y ≠ RELEASED → lh_needed h !! le_connection y = Some j ∨ j = l → <[le_connection x := l]> (lh_needed h) !! le_connection y = Some j) as Hn.
    { intros Hys Hn. destruct (decide (le_connection y = le_connection x)) as [E|Hne].
      - rewrite (Hu j y Hy Hys E), E. apply lookup_insert_eq.
      - rewrite lookup_insert_ne by done. destruct Hn as [?| ->]; [done|]. congruence. }
    split; cbn [with_task lh_commands lh_needed lh_pending]; try done.
    + intros E. destruct (M3 E). split; [done|]. apply Hn; [congruence|by left].
    + intros Hj. destruct (M4 Hj). split; [done|]. naive_solver.
    + intros Hj. destruct (M5 Hj) as (? & ? & ?). naive_solver.
    + naive_solver.
    + naive_solver.
    + intros Hj Hay. apply Hn; [by eapply active_not_released|]. destruct (Hp j Hj) as [?|?]; [left; by apply M8|by right].
  - intros j Hj. destruct (decide (j = l)) as [->|Hne]; [by rewrite Hx|]. apply H2. naive_solver.
  - rewrite Eq in H3. by apply queue_ok_tail in H3.
  - intros c j [[<- <-]|[? Hj]]%lookup_insert_Some; [by exists x|by apply H5].
  - intros j g. by rewrite Ha.
Qed.

Lemma release_command_ok h l x q pending :
  lease_host_ok h → lh_commands h = Release l :: q → lh_table h !! l = Some x → lh_acquiring h = None →
  (∀ j, j ∈ pending → j ∈ lh_pending h ∨ ∃ y, lh_table h !! j = Some y ∧ delete (le_connection x) (lh_needed h) !! le_connection y = Some j) →
  lease_host_ok (on_lease (set_state RELEASED) l (with_task q (delete (le_connection x) (lh_needed h)) pending h)).
Proof.
  intros Hh Eq Hx Ha Hp. set (h' := with_task _ _ _ h).
  assert (Release l ∈ lh_commands h) as Hin by (rewrite Eq; set_solver).
  pose proof (lk_leases _ Hh _ _ Hx) as [L1 L2 L3 L4 L5 L6 L7 L8]. destruct (L7 Hin) as [Hia Hs].
  assert (∀ c, c ∈ q → c ∈ lh_commands h) as Hq by (intros c Hc; rewrite Eq; set_solver).
  assert (∀ j y, lh_table h !! j = Some y → le_state y ≠ RELEASED → j ≠ l → le_connection y ≠ le_connection x) as Hu.
  { intros j y Hy Hys Hne E. apply Hne. by eapply lease_unique. }
  destruct (lk_queue _ Hh [] l q Eq) as [Hqa Hqr].
  pose proof Hh as [H1 H2 H3 H4 H5 H6 H7].
  assert (∀ j y, lh_table (on_lease (set_state RELEASED) l h') !! j = Some y →
    ∃ y0, lh_table h !! j = Some y0 ∧ (j ≠ l ∧ y = y0 ∨ j = l ∧ y = set_state RELEASED y0)) as Hback by (intros j y; apply (on_lease_back _ _ h')).
  split; cbn [on_lease h' with_task lh_commands lh_needed lh_pending lh_revoking lh_calls lh_acquiring lh_session]; try done.
  - intros j y Hy. destruct (Hback j y Hy) as (y0 & Hy0 & [[Hne ->]|[-> ->]]).
    + pose proof (H1 j y0 Hy0) as [M1 M2 M3 M4 M5 M6 M7 M8]. split; cbn [on_lease h' with_task lh_leases lh_commands lh_needed lh_pending lh_revoking lh_calls lh_session]; try done.
      * intros E. destruct (M3 E). split; [done|]. rewrite lookup_delete_ne; [done|]. apply not_eq_sym, (Hu j); [done|congruence|done].
      * intros Hj. destruct (M4 Hj). naive_solver.
      * intros Hj. destruct (M5 Hj) as (? & ? & ?). naive_solver.
      * naive_solver.
      * naive_solver.
      * intros Hj Hay. destruct (Hp j Hj) as [Hj'|(y & Hy' & ?)]; [|by assert (y = y0) as -> by congruence].
        rewrite lookup_delete_ne; [by apply M8|]. apply not_eq_sym, (Hu j); [done|by eapply active_not_released|done].
    + assert (y0 = x) as -> by congruence.
      split; cbn [on_lease h' with_task lh_leases lh_commands lh_needed lh_pending lh_revoking lh_calls lh_session set_state le_state le_active le_connection]; try done.
      * intros Hj. by destruct (L4 Hj).
      * intros Hj. by destruct (L5 Hj) as (_ & ? & _).
      * intros ? ?. congruence.
  - intros j Hj. rewrite on_lease_table, fmap_is_Some. change (is_Some (lh_table h !! j)).
    destruct Hj as [?|[?|[Hj|?]]]; [apply H2; naive_solver..| |apply H2; naive_solver].
    destruct (Hp j Hj) as [?|(y & -> & _)]; [apply H2; tauto|by eexists].
  - rewrite Eq in H3. by apply queue_ok_tail in H3.
  - intros c j [? Hj]%lookup_delete_Some. destruct (H5 c j Hj) as (y & Hy & E). rewrite on_lease_table.
    change (lh_table h') with (lh_table h). rewrite Hy. eexists. split; [done|]. destruct (decide (j = l)); cbn; done.
  - intros j y j' y' Hy Hy' Es Es'. destruct (Hback _ _ Hy) as (y0 & Hy0 & [[_ ->]|[-> ->]]); [|done].
    destruct (Hback _ _ Hy') as (y1 & Hy1 & [[_ ->]|[-> ->]]); [|done]. by apply (H6 j y0 j' y1).
  - intros j g. by rewrite Ha.
Qed.

(** The session, its queue and its statement change. *)
Lemma session_ok h session pending acquiring :
  lease_host_ok h →
  (∀ l x, lh_table h !! l = Some x → le_state x = HELD → is_Some session) →
  (∀ l, l ∈ pending → ∃ x, lh_table h !! l = Some x ∧ (le_active x = true → lh_needed h !! le_connection x = Some l)) →
  (∀ l g, acquiring = Some (l, g) → is_Some session ∧ ∃ x, lh_table h !! l = Some x ∧ lh_needed h !! le_connection x = Some l ∧
     le_state x ≠ RELEASED ∧ ∀ l' x', lh_table h !! l' = Some x' → le_state x' = HELD → le_key x' = le_key x → l' = l) →
  lease_host_ok (with_session session pending acquiring h).
Proof.
  intros [H1 H2 H3 H4 H5 H6 H7] Hs Hp Ha. split; cbn [with_session lh_table lh_commands lh_needed lh_pending lh_revoking lh_calls lh_acquiring lh_session]; try done.
  - intros j y Hy. pose proof (H1 j y Hy) as [M1 M2 M3 M4 M5 M6 M7 M8]. split; try done.
    + intros E. split; [by eapply Hs|by apply M3].
    + intros Hj Hay. destruct (Hp j Hj) as (x & Hx & Hn). cbn [with_session lh_table] in Hy. assert (x = y) as -> by congruence. by apply Hn.
  - intros j [?|[?|[Hj|?]]]; [apply H2; tauto..| |apply H2; tauto]. destruct (Hp j Hj) as (x & -> & _). by eexists.
Qed.

Lemma acquired_ok h l sid :
  lease_host_ok h → lh_session h = Some sid → lh_acquiring h = Some (l, true) →
  lease_host_ok (on_lease (set_state HELD) l (with_session (Some sid) (lh_pending h) None h)).
Proof.
  intros Hh Es Ea. destruct (lk_acquiring _ Hh _ _ Ea) as [_ (x & Hx & Hn & Hs & Hone)].
  pose proof Hh as [H1 H2 H3 H4 H5 H6 H7]. set (h' := with_session _ _ _ h).
  assert (∀ j y, lh_table (on_lease (set_state HELD) l h') !! j = Some y →
    ∃ y0, lh_table h !! j = Some y0 ∧ (j ≠ l ∧ y = y0 ∨ j = l ∧ y = set_state HELD y0)) as Hback by (intros j y; apply (on_lease_back _ _ h')).
  split; cbn [on_lease h' with_session lh_commands lh_needed lh_pending lh_revoking lh_calls lh_acquiring lh_session]; try done.
  - intros j y Hy. destruct (Hback j y Hy) as (y0 & Hy0 & [[Hne ->]|[-> ->]]).
    + pose proof (H1 j y0 Hy0) as [M1 M2 M3 M4 M5 M6 M7 M8]. split; try done. intros E. split; [by eexists|by apply M3].
    + assert (y0 = x) as -> by congruence. pose proof (H1 l x Hx) as [M1 M2 M3 M4 M5 M6 M7 M8].
      split; cbn [set_state le_state le_active le_connection]; try done.
      * intros _. by apply M1.
      * intros Hj. by destruct (M4 Hj).
      * intros Hj. by destruct (M5 Hj) as (? & ? & _).
      * intros Hj. by destruct (M7 Hj).
  - intros j Hj. rewrite on_lease_table, fmap_is_Some. by apply H2.
  - intros c j Hj. destruct (H5 c j Hj) as (y & Hy & E). rewrite on_lease_table. change (lh_table h') with (lh_table h). rewrite Hy.
    eexists. split; [done|]. destruct (decide (j = l)); cbn; done.
  - intros j y j' y' Hy Hy' Ey Ey' Ek. destruct (Hback _ _ Hy) as (y0 & Hy0 & Hc). destruct (Hback _ _ Hy') as (y1 & Hy1 & Hc').
    destruct Hc as [[_ ->]|[-> ->]], Hc' as [[_ ->]|[-> ->]]; [by apply (H6 j y0 j' y1)| | |done].
    + assert (y1 = x) as -> by congruence. by apply (Hone j y0).
    + assert (y0 = x) as -> by congruence. symmetry. by apply (Hone j' y1).
Qed.

Lemma broken_ok h : lease_host_ok h → lease_host_ok (broken h).
Proof.
  intros [H1 H2 H3 H4 H5 H6 H7].
  assert (∀ j y, lh_table (broken h) !! j = Some y → ∃ x, lh_table h !! j = Some x ∧ le_state y ≠ HELD ∧
    le_connection y = le_connection x ∧ le_active y = le_active x ∧ (le_state y = RELEASED ↔ le_state x = RELEASED)) as Hback.
  { intros j y. cbn. rewrite map_lookup_imap. destruct (lh_table h !! j) as [x|] eqn:Hx; [|done]. cbn. intros [= <-]. exists x. split; [done|].
    pose proof (lo_held _ _ _ (H1 j x Hx)) as Hh. do 2 case_bool_decide; cbn; split_and!; try done; intros E; first [discriminate|congruence|by destruct (Hh E)]. }
  split; cbn [broken with_session lh_commands lh_needed lh_pending lh_revoking lh_calls lh_acquiring lh_session]; try done.
  - intros j y Hy. destruct (Hback j y Hy) as (x & Hx & Hnh & Ec & Eact & Er). pose proof (H1 j x Hx) as [M1 M2 M3 M4 M5 M6 M7 M8].
    split; cbn [broken with_session lh_commands lh_needed lh_pending lh_revoking lh_calls lh_session lh_leases]; rewrite ?Ec, ?Eact; try done.
    + intros ?. apply M1. tauto.
    + tauto.
    + intros Hj. destruct (M4 Hj). tauto.
    + intros Hj. destruct (M5 Hj) as (? & ? & ?). tauto.
    + intros Hj. specialize (M6 Hj). tauto.
    + intros Hj. destruct (M7 Hj). tauto.
    + by intros ?%elem_of_nil.
  - intros j Hj. assert (is_Some (lh_table h !! j)) as [x Hx].
    { apply H2. destruct Hj as [?|[?|[?%elem_of_nil|?]]]; [tauto..|done|tauto]. }
    cbn. rewrite map_lookup_imap, Hx. by eexists.
  - intros c j Hj. destruct (H5 c j Hj) as (x & Hx & E). cbn. rewrite map_lookup_imap, Hx. eexists. split; [done|]. by case_match.
  - intros j y j' y' Hy Hy' E. destruct (Hback j y Hy) as (? & ? & ? & _). done.
Qed.

Lemma host_moves_ok db h db' h' : lease_host_ok h → host_moves db h db' h' → lease_host_ok h'.
Proof.
  intros Hh Hm. pose proof Hh as [H1 H2 H3 H4 H5 H6 H7].
  assert (lh_session h = None → lh_acquiring h = None) as Hidle.
  { intros Es. destruct (lh_acquiring h) as [[l g]|] eqn:Ea; [|done]. destruct (H7 l g eq_refl) as [[? ?] _]. congruence. }
  assert (∀ sid, lh_session h = Some sid → ∀ l x, lh_table h !! l = Some x → le_state x = HELD → is_Some (Some sid)) as Hses by (by eexists).
  assert (∀ l, l ∈ lh_pending h → ∃ x, lh_table h !! l = Some x ∧ (le_active x = true → lh_needed h !! le_connection x = Some l)) as Hpend.
  { intros l Hl. destruct (H2 l) as [x Hx]; [tauto|]. exists x. split; [done|]. by apply (lo_pending _ _ _ (H1 l x Hx)). }
  destruct Hm as [connection target resource fresh Hf|l h' Hc Hb|l|connection|r1 l r2 Er Hc|c q Es Eq|pending Es Hne Hp|l p sid Es Ea Ep Hsk|l p sid Es Ea Ep Hact Hbl
    |l sid x db' Es Ea Hlive Hx Hl|l sid Es Ea|l g sid Es Ea|c q sid woken db' Es Ea Eq Hc|sid Es].
  - by apply enter_ok.
  - unfold begin_call in Hb. destruct (lh_table h !! l) as [x|] eqn:Hx; [|done]. destruct (le_active x) eqn:Hax; [|done].
    case_bool_decide; [|done]. injection Hb as <-. apply calls_change_ok; [done|]. intros j [v [[<- _]|[_ Hj]]%lookup_insert_Some]; [right; by exists x|left; by eexists].
  - apply calls_change_ok; [done|]. intros j [v [_ Hj]%lookup_delete_Some]. left. by eexists.
  - unfold invalidate. destruct (lh_leases h !! connection); [by apply revoke_ok|done].
  - by apply send_release_ok.
  - specialize (Hidle Es). destruct c as [l|l]; cbn [idle_command]; (destruct (lh_table h !! l) as [x|] eqn:Hx; [|done]).
    + apply acquire_command_ok; try done. tauto.
    + apply release_command_ok; try done. tauto.
  - apply session_ok; [done|by eexists| |done]. intros l [Hact [c Hc]]%Hp. destruct (H5 c l Hc) as (x & Hx & <-). by exists x.
  - apply session_ok; [done|by eapply Hses| |done]. intros j Hj. apply Hpend. rewrite Ep. set_solver.
  - apply session_ok; [done|by eapply Hses| |].
    + intros j Hj. apply Hpend. rewrite Ep. set_solver.
    + intros j g [= <- <-]. split; [by eexists|]. unfold is_active in Hact. unfold blocked in Hbl. destruct (lh_table h !! l) as [x|] eqn:Hx; [|done].
      assert (le_state x ≠ RELEASED) as Hs by (by eapply active_not_released).
      exists x. split_and!; [done|apply (lo_pending _ _ _ (H1 l x Hx)); [rewrite Ep; set_solver|done]|done|].
      intros l' x' Hx' Es' Ek. destruct (decide (le_connection x' = le_connection x)) as [E|Hne].
      { eapply lease_unique; [done|exact Hx'|exact Hx|congruence|done|done]. }
      exfalso. destruct (lo_held _ _ _ (H1 l' x' Hx') Es') as [_ Hn]. apply not_true_iff_false in Hbl. apply Hbl.
      apply existsb_exists. exists l'. split.
      * apply list_elem_of_In, list_elem_of_fmap. exists (le_connection x', l'). split; [done|]. by apply elem_of_map_to_list.
      * rewrite Hx', Ek, Es', String.eqb_refl. by destruct (String.eqb_spec (le_connection x') (le_connection x)).
  - apply session_ok; [done|by eapply Hses|done|]. intros j g [= <- <-]. split; [by eexists|]. by apply (H7 l false).
  - by apply acquired_ok.
  - apply session_ok; [done|by eapply Hses| |done]. intros j [Hj|Hj]%elem_of_app; [by apply Hpend|].
    destruct (is_active h l); [|by apply elem_of_nil in Hj]. apply list_elem_of_singleton in Hj as ->.
    destruct (H7 l g Ea) as [_ (x & Hx & Hn & _)]. by exists x.
  - destruct c as [l|l]; cbn [session_command]; (destruct (lh_table h !! l) as [x|] eqn:Hx; [|done]).
    + apply acquire_command_ok; try done. intros j. rewrite elem_of_app, list_elem_of_singleton. tauto.
    + apply release_command_ok; try done. destruct Hc as [[_ Hw] _]. intros j [?|Hj]%elem_of_app; [by left|right].
      apply Hw in Hj as (x' & y & Hx' & Hy & _ & _ & _ & Hn). exists y. split; [done|]. by assert (x' = x) as -> by congruence.
  - by apply broken_ok.
Qed.

(** ** The locks *)

Definition claims (h : LeaseHost) (x : Z) (l : nat) : Prop :=
  hash_of h l = Some x ∧ (in_state h l HELD ∨ lh_acquiring h = Some (l, true)).

(** While the session lives it owns a lock at least as often as leases of the hash claim it. *)
Definition locks_ok (db : Database) (h : LeaseHost) : Prop :=
  ∀ sid, lh_session h = Some sid → (sid < db_next db)%nat ∧
    (sid ∈ db_live db → ∀ x ls, NoDup ls → (∀ l, l ∈ ls → claims h x l) → (length ls ≤ owned db x sid)%nat).

Lemma locks_ok_fewer db h h' :
  lh_session h' = lh_session h → (∀ x l, claims h' x l → claims h x l) → locks_ok db h → locks_ok db h'.
Proof. intros Es Hc Hl sid. rewrite Es. intros E. destruct (Hl sid E) as [? Ho]. split; [done|]. intros Hlive x ls Hnd Hls. apply Ho; auto. Qed.

Lemma owned_lock x sid db db' :
  lock x sid db = Some db' → owned db' x sid = S (owned db x sid) ∧
  (∀ x' s', x' ≠ x ∨ s' ≠ sid → owned db' x' s' = owned db x' s') ∧ db_live db' = db_live db ∧ db_next db' = db_next db.
Proof.
  unfold lock, owned. destruct (db_locks db !! x) as [[s n]|] eqn:E; [case_bool_decide; [subst s|done]|]; intros [= <-]; cbn [db_locks db_live db_next].
  all: rewrite lookup_insert_eq, bool_decide_eq_true_2 by done; split_and!; try done.
  all: intros x' s' Hne; destruct (decide (x' = x)) as [->|]; [|by rewrite lookup_insert_ne].
  all: rewrite lookup_insert_eq, ?E, bool_decide_eq_false_2 by (destruct Hne; congruence); done.
Qed.

Lemma owned_unlock x sid db :
  owned (unlock x sid db) x sid = pred (owned db x sid) ∧
  (∀ x' s', x' ≠ x ∨ s' ≠ sid → owned (unlock x sid db) x' s' = owned db x' s') ∧
  db_live (unlock x sid db) = db_live db ∧ db_next (unlock x sid db) = db_next db.
Proof.
  unfold unlock, owned. destruct (db_locks db !! x) as [[s n]|] eqn:E.
  2: { rewrite E. by split_and!. }
  destruct (decide (s = sid)) as [->|Hne].
  - rewrite (bool_decide_eq_true_2 (sid = sid)) by done. destruct n as [|[|n]]; cbn [db_locks db_live db_next].
    all: rewrite ?lookup_delete_eq, ?lookup_insert_eq, ?(bool_decide_eq_true_2 (sid = sid)) by done; split_and!; try done.
    all: intros x' s' Hne; destruct (decide (x' = x)) as [->|]; [|by rewrite ?lookup_delete_ne, ?lookup_insert_ne].
    all: rewrite ?lookup_delete_eq, ?lookup_insert_eq, ?E, bool_decide_eq_false_2 by (destruct Hne; congruence); done.
  - rewrite (bool_decide_eq_false_2 (s = sid)) by done. destruct n as [|[|n]]; rewrite E, (bool_decide_eq_false_2 (s = sid)) by done; by split_and!.
Qed.

Lemma nodup_without (l : nat) ls : NoDup ls → (length ls ≤ S (length (filter (.≠ l) ls)))%nat.
Proof.
  induction 1 as [|j ls Hj Hnd IH]; [cbn; lia|]. destruct (decide (j ≠ l)) as [?|Hn].
  - rewrite filter_cons_True by done. cbn. lia.
  - rewrite filter_cons_False by done. assert (j = l) as -> by (by apply dec_stable). cbn.
    enough (filter (.≠ l) ls = ls) as -> by lia. clear -Hj. induction ls as [|k ls IH]; [done|].
    rewrite filter_cons_True by set_solver. f_equal. apply IH. set_solver.
Qed.

Lemma granted_locks_ok db h l sid x db' :
  locks_ok db h → lh_session h = Some sid → lh_acquiring h = Some (l, false) → sid ∈ db_live db →
  hash_of h l = Some x → lock x sid db = Some db' → locks_ok db' (with_session (Some sid) (lh_pending h) (Some (l, true)) h).
Proof.
  intros Hl Es Ea Hlive Hx Hlock sid' [= <-]. destruct (owned_lock _ _ _ _ Hlock) as (Eo & Hother & El & En).
  destruct (Hl sid Es) as [Hlt Ho]. rewrite En. split; [done|]. intros _ x' ls Hnd Hls.
  assert (∀ j, j ∈ ls → j ≠ l → claims h x' j) as Hold.
  { intros j Hj Hne. destruct (Hls j Hj) as [Hh [?|[= <-]]]; [|done]. split; [done|by left]. }
  destruct (decide (x' = x)) as [->|Hne].
  - rewrite Eo. pose proof (nodup_without l ls Hnd). enough (length (filter (.≠ l) ls) ≤ owned db x sid)%nat by lia.
    apply Ho; [done|by apply NoDup_filter|]. intros j [? ?]%list_elem_of_filter. by apply Hold.
  - rewrite Hother by (by left). apply Ho; [done|done|]. intros j Hj. apply Hold; [done|]. intros ->.
    destruct (Hls l Hj) as [Hh _]. unfold hash_of in *. cbn [with_session lh_table] in Hh. congruence.
Qed.

Lemma released_locks_ok db h l x q sid needed pending :
  locks_ok db h → lh_session h = Some sid → lh_acquiring h = None → sid ∈ db_live db → state_is h l HELD = true →
  hash_of h l = Some x → locks_ok (unlock x sid db) (on_lease (set_state RELEASED) l (with_task q needed pending h)).
Proof.
  intros Hl Es Ea Hlive Hheld Hx sid' E. cbn in E. rewrite Es in E. injection E as <-.
  destruct (owned_unlock x sid db) as (Eo & Hother & El & En). destruct (Hl sid Es) as [Hlt Ho]. rewrite En. split; [done|].
  intros _ x' ls Hnd Hls. assert (∀ j, j ∈ ls → j ≠ l ∧ claims h x' j) as Hold.
  { intros j Hj. destruct (Hls j Hj) as [Hh [(y & Hy & Hs)|Hac]]; [|by cbn in Hac; rewrite Ea in Hac].
    destruct (on_lease_back _ _ _ _ _ Hy) as (y0 & Hy0 & [[Hne ->]|[-> ->]]); [|done]. split; [done|]. split; [|left; by exists y0].
    unfold hash_of in *. rewrite on_lease_table in Hh. cbn [with_task lh_table] in Hh, Hy0. rewrite Hy0 in *. cbn in *. by rewrite decide_False in Hh. }
  destruct (decide (x' = x)) as [->|Hne].
  - rewrite Eo. enough (S (length ls) ≤ owned db x sid)%nat by lia. apply (Ho Hlive x (l :: ls)).
    + constructor; [|done]. intros Hin. by destruct (Hold l Hin).
    + intros j [->|Hj]%elem_of_cons; [|by apply Hold]. split; [done|left]. unfold state_is in Hheld.
      destruct (lh_table h !! l) as [y|] eqn:Hy; [|done]. exists y. split; [done|]. by case_bool_decide.
  - rewrite Hother by (by left). apply Ho; [done|done|]. intros j Hj. by apply Hold.
Qed.

(** Leases that claim after a change of their states claimed before it. *)
Lemma claims_on_lease f l h h0 x j :
  lh_table h0 = lh_table h → (∀ y, le_key (f y) = le_key y) →
  (∀ y, lh_table h !! l = Some y → le_state (f y) = HELD → le_state y = HELD ∨ lh_acquiring h = Some (l, true)) →
  lh_acquiring h0 = lh_acquiring h ∨ lh_acquiring h0 = None →
  claims (on_lease f l h0) x j → claims h x j.
Proof.
  intros Et Hk Hs Ha [Hh Hc]. assert (hash_of h j = Some x) as Hx.
  { unfold hash_of in *. rewrite on_lease_table, Et in Hh. destruct (lh_table h !! j) as [y|]; [|done]. cbn in *.
    destruct (decide (j = l)); [by rewrite Hk in Hh|done]. }
  split; [done|]. destruct Hc as [(y & Hy & Es)|Hac].
  - destruct (on_lease_back _ _ _ _ _ Hy) as (y0 & Hy0 & [[_ ->]|[-> ->]]); rewrite Et in Hy0; [left; by exists y0|].
    destruct (Hs y0 Hy0 Es) as [?|?]; [left; by exists y0|by right].
  - cbn [on_lease lh_acquiring] in Hac. destruct Ha as [<-|E]; [by right|congruence].
Qed.

(** What a step of a host may do to the sessions of the others. *)
Definition others_stand (h : LeaseHost) (db db' : Database) : Prop :=
  (db_next db ≤ db_next db')%nat ∧
  ∀ sid, lh_session h ≠ Some sid → (sid < db_next db)%nat →
    (sid ∈ db_live db' → sid ∈ db_live db) ∧ ∀ x, owned db' x sid = owned db x sid.

Lemma host_moves_locks db h db' h' :
  lease_host_ok h → locks_ok db h → host_moves db h db' h' → locks_ok db' h' ∧ others_stand h db db'.
Proof.
  intros Hh Hl Hm. assert (others_stand h db db) as Hsame by (split; [lia|done]).
  destruct Hm as [connection target resource fresh Hf|l h' Hc Hb|l|connection|r1 l r2 Er Hc|c q Es Eq|pending Es Hne Hp|l p sid Es Ea Ep Hsk|l p sid Es Ea Ep Hact Hbl
    |l sid x db' Es Ea Hlive Hx Hlock|l sid Es Ea|l g sid Es Ea|c q sid woken db' Es Ea Eq Hc|sid Es].
  - split; [|done]. unfold enter. set (made := {| lh_table := _ |}).
    assert (locks_ok db made) as Hmade.
    { apply (locks_ok_fewer _ h); [done| |done]. intros x j [Hh' Hc]. assert (j ≠ fresh) as Hne.
      { intros ->. destruct Hc as [(y & Hy & Hs)|Hac]; [cbn in Hy; rewrite lookup_insert_eq in Hy; by injection Hy as <-|].
        destruct (lk_acquiring _ Hh _ _ Hac) as [_ (y & Hy & _)]. congruence. }
      unfold hash_of in Hh'. cbn [made lh_table] in Hh'. rewrite lookup_insert_ne in Hh' by done. split; [done|].
      destruct Hc as [(y & Hy & ?)|?]; [left|by right]. cbn [made lh_table] in Hy. rewrite lookup_insert_ne in Hy by done. by exists y. }
    destruct (lh_leases h !! connection); [by destruct (state_is _ _ _)|done].
  - unfold begin_call in Hb. destruct (lh_table h !! l); [|done]. destruct (_ && _); [|done]. by injection Hb as <-.
  - done.
  - split; [|done]. unfold invalidate, revoke. destruct (lh_leases h !! connection) as [l|]; [|done]. destruct (is_active h l); [|done].
    apply (locks_ok_fewer _ h); [done| |done]. intros x j. apply (claims_on_lease deactivate l h h); [done|done|by left|by left].
  - done.
  - split; [|done]. destruct c as [l|l]; cbn [idle_command]; (destruct (lh_table h !! l); [|done]); intros sid E; cbn in E; congruence.
  - split.
    + intros sid [= <-]. cbn [opened db_next db_live]. split; [lia|]. intros _ x ls _ Hls. destruct ls as [|l ls]; [cbn; lia|].
      destruct (Hls l) as [_ [(y & Hy & Hs)|?]]; [set_solver| |done]. cbn [with_session lh_table] in Hy.
      destruct (lo_held _ _ _ (lk_leases _ Hh _ _ Hy) Hs) as [[? ?] _]. congruence.
    + split; [cbn; lia|]. intros sid _ Hlt. split; [|done]. cbn [opened db_live]. intros [?%elem_of_singleton|?]%elem_of_union; [lia|done].
  - split; [|done]. apply (locks_ok_fewer _ h); [done| |done]. intros x j [? [?|?]]; [by split; [|left]|done].
  - split; [|done]. apply (locks_ok_fewer _ h); [done| |done]. intros x j [? [?|?]]; [by split; [|left]|done].
  - split; [by eapply granted_locks_ok|]. destruct (owned_lock _ _ _ _ Hlock) as (_ & Hother & El & En). split; [lia|].
    intros sid' Hne _. rewrite El. split; [done|]. intros x'. apply Hother. right. congruence.
  - split; [|done]. apply (locks_ok_fewer _ h); [done| |done]. intros x j.
    apply (claims_on_lease (set_state HELD) l h (with_session (Some sid) (lh_pending h) None h)); [done|done|by right|by right].
  - split; [|done]. apply (locks_ok_fewer _ h); [done| |done]. intros x j [? [?|?]]; [by split; [|left]|done].
  - destruct c as [l|l]; cbn [session_command].
    + subst db'. split; [|done]. destruct (lh_table h !! l); [|done]. apply (locks_ok_fewer _ h); [done| |done]. intros x j [? [?|?]]; split; auto.
    + destruct Hc as [_ Hc]. destruct (state_is h l HELD) eqn:Hst.
      * destruct Hc as (Hlive & x & Hx & ->). split.
        -- destruct (lh_table h !! l) as [y|] eqn:Hy; [by eapply released_locks_ok|]. unfold hash_of in Hx. by rewrite Hy in Hx.
        -- destruct (owned_unlock x sid db) as (_ & Hother & El & En). split; [lia|]. intros sid' Hne _. rewrite El. split; [done|].
           intros x'. apply Hother. right. congruence.
      * subst db'. split; [|done]. destruct (lh_table h !! l) as [y|] eqn:Hy; [|done]. apply (locks_ok_fewer _ h); [done| |done].
        intros x j. apply (claims_on_lease (set_state RELEASED) l h (with_task q (delete (le_connection y) (lh_needed h)) (lh_pending h ++ woken) h)); [done|done|done|by left].
  - by split.
Qed.

(** ** Every host *)

Record hosts_ok (s : Hosts) : Prop := {
  ho_leases i h : s.2 !! i = Some h → lease_host_ok h;
  ho_locks i h : s.2 !! i = Some h → locks_ok s.1 h;
  ho_sessions i j h h' sid : s.2 !! i = Some h → s.2 !! j = Some h' → lh_session h = Some sid → lh_session h' = Some sid → i = j;
}.

Lemma locks_ok_stand h h0 db db' :
  others_stand h db db' → (∀ sid, lh_session h = Some sid → lh_session h0 ≠ Some sid) → locks_ok db h0 → locks_ok db' h0.
Proof.
  intros [Hn Ho] Hd Hl sid Es. destruct (Hl sid Es) as [Hlt Hx]. assert (lh_session h ≠ Some sid) as Hne by (intros E; by apply (Hd sid)).
  destruct (Ho sid Hne Hlt) as [Hlive Ho']. split; [lia|]. intros Hli x ls Hnd Hls. rewrite Ho'. apply Hx; auto.
Qed.

(** A host keeps its session, ends it, or opens the next one. *)
Lemma host_moves_session db h db' h' :
  host_moves db h db' h' → lh_session h' = lh_session h ∨ lh_session h' = None ∨ lh_session h' = Some (db_next db).
Proof.
  destruct 1 as [connection target resource fresh Hf|l h' Hc Hb|l|connection| |c q Es Eq| | | | | | |c q sid woken db' Es Ea Eq Hc|].
  - left. unfold enter. destruct (lh_leases h !! connection); [by destruct (state_is _ _ _)|done].
  - left. unfold begin_call in Hb. destruct (lh_table h !! l); [|done]. destruct (_ && _); [|done]. by injection Hb as <-.
  - by left.
  - left. unfold invalidate, revoke. destruct (lh_leases h !! connection); [|done]. by destruct (is_active _ _).
  - by left.
  - left. destruct c; cbn [idle_command]; by destruct (lh_table h !! l).
  - by right; right.
  - by left.
  - by left.
  - by left.
  - by left.
  - by left.
  - left. destruct c; cbn [session_command]; by destruct (lh_table h !! l).
  - by right; left.
Qed.

Lemma moves_ok s s' : hosts_ok s → moves s s' → hosts_ok s'.
Proof.
  intros [H1 H2 H3] Hm. destruct Hm as [db hs i h db' h' Hi Hm|db hs sid]; cbn [fst snd] in *.
  - pose proof (host_moves_ok _ _ _ _ (H1 i h Hi) Hm) as Hok.
    destruct (host_moves_locks _ _ _ _ (H1 i h Hi) (H2 i h Hi) Hm) as [Hlk Hst].
    assert (∀ j k, j ≠ i → hs !! j = Some k → ∀ sid, lh_session h = Some sid → lh_session k ≠ Some sid) as Hdiff.
    { intros j k Hne Hj sid Es Ek. destruct Hne. by eapply H3. }
    assert (∀ j k sid, j ≠ i → hs !! j = Some k → lh_session h' = Some sid → lh_session k ≠ Some sid) as Hdiff'.
    { intros j k sid Hne Hj Es Ek. destruct (host_moves_session _ _ _ _ Hm) as [E|[E|E]]; rewrite E in Es; [|done|].
      - by eapply Hdiff.
      - injection Es as <-. destruct (H2 j k Hj _ Ek). lia. }
    split; cbn [fst snd].
    + intros j k [[-> <-]|[Hne Hj]]%lookup_insert_Some; [done|by eapply H1].
    + intros j k [[-> <-]|[Hne Hj]]%lookup_insert_Some; [done|]. eapply locks_ok_stand; [done|by eapply Hdiff|by eapply H2].
    + intros j j' k k' sid [[-> <-]|[Hne Hj]]%lookup_insert_Some [[-> <-]|[Hne' Hj']]%lookup_insert_Some Es Es'; [done| | |by eapply H3].
      * by destruct (Hdiff' j' k' sid).
      * by destruct (Hdiff' j k sid).
  - split; cbn [fst snd]; [done| |done]. intros j k Hj sid' Es. destruct (H2 j k Hj sid' Es) as [Hlt Ho]. split; [done|].
    cbn [ended db_live]. intros [Hlive Hne]%elem_of_difference x ls Hnd Hls. specialize (Ho Hlive x ls Hnd Hls).
    assert (sid' ≠ sid) as Hs by set_solver. unfold owned, ended in *. cbn [db_locks].
    destruct (db_locks db !! x) as [[s n]|] eqn:Ex; [|lia]. destruct (decide (s = sid)) as [->|Hns].
    + rewrite bool_decide_eq_false_2 in Ho by done. lia.
    + erewrite map_lookup_filter_Some_2; [|exact Ex|exact Hns]. exact Ho.
Qed.

(** A lease of the key that the host holds. *)
Definition holds (h : LeaseHost) (l : nat) (key : string) : Prop :=
  ∃ x, lh_table h !! l = Some x ∧ le_state x = HELD ∧ le_key x = key.

Lemma held_holds h l : held h l = true → ∃ key, holds h l key.
Proof.
  unfold held. destruct (lh_table h !! l) as [x|] eqn:Hx; [|done]. destruct (lh_calls h !! l); [|done].
  intros [Hs _]%andb_true_iff. exists (le_key x), x. split_and!; [done| |done]. by case_bool_decide.
Qed.

Lemma leases_reachable_ok n s : rtc moves (fresh_hosts n) s → hosts_ok s.
Proof.
  intros Hrun. remember (fresh_hosts n) as s0 eqn:E. assert (hosts_ok s0) as Hok.
  { subst s0. assert (∀ i h, (fresh_hosts n).2 !! i = Some h → h = no_leases) as Hno.
    { intros i h Hi. cbn in Hi. apply elem_of_list_to_map_2 in Hi. apply list_elem_of_fmap in Hi as (j & [= -> ->] & _). done. }
    split.
    - intros i h ->%Hno. split; cbn; try done; [by intros ? [?%elem_of_nil|[?%elem_of_nil|[?%elem_of_nil|[?%elem_of_nil|[? ?]]]]]| |constructor].
      intros q1 l q2 Eq. by destruct q1.
    - intros i h ->%Hno. done.
    - intros i j h h' sid ->%Hno. done. }
  clear E. induction Hrun as [|s0 s1 s2 Hs _ IH]; [done|]. apply IH. by eapply moves_ok.
Qed.

(** C23. An exclusive resource is exclusive.  Of the leases of one resource a host
    holds at most one, and two hosts hold one only after the database ended the
    session of one of them, which that host has yet to see; a call that the host
    reports as held holds its lease, and no lease is released under a call. *)
Theorem exclusive_resource n db hs :
  rtc moves (fresh_hosts n) (db, hs) →
  (∀ i h l l' key, hs !! i = Some h → holds h l key → holds h l' key → l = l') ∧
  (∀ i j h h' l l' key, i ≠ j → hs !! i = Some h → hs !! j = Some h' → holds h l key → holds h' l' key →
     ∃ sid, (lh_session h = Some sid ∨ lh_session h' = Some sid) ∧ sid ∉ db_live db) ∧
  (∀ i h l, hs !! i = Some h → is_Some (lh_calls h !! l) →
     (held h l = true → ∃ key, holds h l key) ∧ ∃ x, lh_table h !! l = Some x ∧ le_state x ≠ RELEASED).
Proof.
  intros Hrun. destruct (leases_reachable_ok _ _ Hrun) as [H1 H2 H3]. cbn [fst snd] in *. split_and!.
  - intros i h l l' key Hi (x & Hx & Es & Ek) (x' & Hx' & Es' & Ek'). eapply (lk_one _ (H1 i h Hi)); [done|done|done|done|congruence].
  - intros i j h h' l l' key Hne Hi Hj (x & Hx & Es & Ek) (x' & Hx' & Es' & Ek').
    destruct (lo_held _ _ _ (lk_leases _ (H1 i h Hi) _ _ Hx) Es) as [[sid Hs] _].
    destruct (lo_held _ _ _ (lk_leases _ (H1 j h' Hj) _ _ Hx') Es') as [[sid' Hs'] _].
    destruct (decide (sid ∈ db_live db)) as [Hlive|?]; [|by exists sid; split; [left|]].
    destruct (decide (sid' ∈ db_live db)) as [Hlive'|?]; [|by exists sid'; split; [right|]]. exfalso.
    assert (∀ i h l x sid, hs !! i = Some h → lh_table h !! l = Some x → le_state x = HELD → lh_session h = Some sid → sid ∈ db_live db →
              ∃ n, db_locks db !! key_hash (le_key x) = Some (sid, n)) as Hown.
    { clear -H2. intros i h l x sid Hi Hx Es Hs Hlive. destruct (H2 i h Hi sid Hs) as [_ Ho].
      specialize (Ho Hlive (key_hash (le_key x)) [l] (NoDup_singleton l)). unfold owned in Ho.
      destruct (db_locks db !! key_hash (le_key x)) as [[s n]|]; [case_bool_decide; [subst; by eexists|]|]; cbn in Ho.
      all: enough (1 ≤ 0)%nat by lia; apply Ho; intros j ->%list_elem_of_singleton.
      all: split; [unfold hash_of; by rewrite Hx|left; by exists x]. }
    destruct (Hown i h l x sid Hi Hx Es Hs Hlive) as [m Hm]. destruct (Hown j h' l' x' sid' Hj Hx' Es' Hs' Hlive') as [m' Hm'].
    rewrite Ek in Hm. rewrite Ek', Hm in Hm'. injection Hm' as -> _. apply Hne. by eapply H3.
  - intros i h l Hi Hc. split; [apply held_holds|]. destruct (lk_known _ (H1 i h Hi) l) as [x Hx]; [tauto|]. exists x. split; [done|].
    by apply (lo_calls _ _ _ (lk_leases _ (H1 i h Hi) _ _ Hx)).
Qed.

End Leases.

(** ** Samples *)

Module LeaseSample.

#[local] Instance sample_hash : KeyHash := λ key, Z.of_nat (String.length key).

Abbreviation Sys := (Database * gmap nat LeaseHost)%type.
Definition reached : Sys → Prop := rtc moves (fresh_hosts 1).
Definition host0 (s : Sys) : LeaseHost := default no_leases (s.2 !! 0%nat).
Definition then_ (db : Database) (f : LeaseHost → LeaseHost) (s : Sys) : Sys := (db, <[0%nat := f (host0 s)]> s.2).

Lemma reached_then db f s :
  reached s → is_Some (s.2 !! 0%nat) → host_moves s.1 (host0 s) db (f (host0 s)) → reached (then_ db f s).
Proof.
  intros Hs [h Hh] Hm. eapply rtc_r; [exact Hs|]. destruct s as [db0 hs]. cbn [fst snd] in *. eapply OneHost; [exact Hh|].
  unfold host0 in *. cbn [snd] in *. rewrite Hh in *. exact Hm.
Qed.

(** A connection enters, and its lease is acquired under the session of the host. *)
Definition entered : Sys := then_ (fresh_hosts 1).1 (enter "c1" "t" "erp" 0) (fresh_hosts 1).
Definition queued : Sys := then_ entered.1 (idle_command (Acquire 0) []) entered.
Definition connected : Sys := then_ (opened queued.1) (with_session (Some 0) [0] None) queued.
Definition lock_asked : Sys := then_ connected.1 (with_session (Some 0) [] (Some (0, false))) connected.
Definition first_lock : Database := {| db_live := db_live lock_asked.1; db_next := 1; db_locks := {[ 14%Z := (0, 1) ]} |}.
Definition granted : Sys := then_ first_lock (with_session (Some 0) [] (Some (0, true))) lock_asked.
Definition acquired : Sys := then_ first_lock (λ h, on_lease (set_state HELD) 0 (with_session (Some 0) [] None h)) granted.

Lemma acquired_reached : reached acquired.
Proof.
  assert (reached entered) as H1 by (apply reached_then; [apply rtc_refl|by eexists|by apply Enter]).
  assert (reached queued) as H2 by (apply reached_then; [done|by eexists|by apply Idle]).
  assert (reached connected) as H3.
  { apply reached_then; [done|by eexists|]. apply (Connect queued.1 (host0 queued) [0]); [done|by vm_compute|]. intros l. rewrite list_elem_of_singleton. split.
    - intros ->. split; [done|]. by exists "c1".
    - intros [_ [c Hc]]. apply elem_of_map_to_list in Hc. vm_compute in Hc. by apply list_elem_of_singleton in Hc as [= _ ->]. }
  assert (reached lock_asked) as H4 by (apply reached_then; [done|by eexists|by apply (StartAcquire _ (host0 connected) 0 [] 0)]).
  assert (reached granted) as H5 by (apply reached_then; [done|by eexists|by apply (Granted _ (host0 lock_asked) 0 0 14%Z first_lock)]).
  apply reached_then; [done|by eexists|]. by apply (Acquired _ (host0 granted) 0 0).
Qed.

Definition called : Sys := then_ first_lock (λ h, with_calls (<[0 := 0%Z]> (lh_calls h)) h) acquired.

Lemma exclusive_resource_witness :
  held (host0 called) 0 = true ∧ ∀ l', holds (host0 called) l' (lease_key "t" "erp") → 0%nat = l'.
Proof.
  split; [by vm_compute|]. intros l' Hl'.
  assert (reached called) as Hr by (apply reached_then; [apply acquired_reached|by eexists|by apply (BeginCall _ (host0 acquired) 0)]).
  refine (proj1 (exclusive_resource 1 called.1 called.2 Hr) 0%nat (host0 called) 0%nat l' (lease_key "t" "erp") _ _ Hl'); [done|].
  eexists. split; [reflexivity|by split].
Defined.

(** A second connection of the same resource waits, and is revoked. *)
Definition entered2 : Sys := then_ first_lock (enter "c2" "t" "erp" 1) acquired.
Definition queued2 : Sys := then_ first_lock (session_command (Acquire 1) [] []) entered2.
Definition waiting2 : Sys := then_ first_lock (with_session (Some 0) [] None) queued2.
Definition revoked2 : Sys := then_ first_lock (invalidate "c2") waiting2.
Definition releasing2 : Sys := then_ first_lock (with_revoking [] [Release 1]) revoked2.
Definition released2 : Sys := then_ first_lock (session_command (Release 1) [] [0]) releasing2.

(** The holder is queued again, and its session locks a second time. *)
Definition restarted : Sys := then_ first_lock (with_session (Some 0) [] (Some (0, false))) released2.
Definition second_lock : Database := {| db_live := db_live first_lock; db_next := 1; db_locks := {[ 14%Z := (0, 2) ]} |}.
Definition regranted : Sys := then_ second_lock (with_session (Some 0) [] (Some (0, true))) restarted.
Definition reacquired : Sys := then_ second_lock (λ h, on_lease (set_state HELD) 0 (with_session (Some 0) [] None h)) regranted.

(** Then it is released too. *)
Definition revoked1 : Sys := then_ second_lock (invalidate "c1") reacquired.
Definition releasing1 : Sys := then_ second_lock (with_revoking [] [Release 0]) revoked1.
Definition released1 : Sys := then_ (unlock 14 0 second_lock) (session_command (Release 0) [] []) releasing1.

(** The table of a sample state, read off. *)
Lemma table_entries (m : gmap nat Lease) l x : m !! l = Some x → (l, x) ∈ map_to_list m.
Proof. apply elem_of_map_to_list. Qed.

Lemma released2_reached : reached released2.
Proof.
  assert (reached entered2) as H1 by (apply reached_then; [apply acquired_reached|by eexists|by apply Enter]).
  assert (reached queued2) as H2 by (apply reached_then; [done|by eexists|by apply (Serve entered2.1 (host0 entered2) (Acquire 1) [] 0 [])]).
  assert (reached waiting2) as H3.
  { apply reached_then; [done|by eexists|]. apply (Skip queued2.1 (host0 queued2) 1 [] 0); [done|done|done|]. right. by vm_compute. }
  assert (reached revoked2) as H4 by (apply reached_then; [done|by eexists|by apply Invalidate]).
  assert (reached releasing2) as H5 by (apply reached_then; [done|by eexists|by apply (SendRelease revoked2.1 (host0 revoked2) [] 1 [])]).
  apply reached_then; [done|by eexists|]. apply (Serve releasing2.1 (host0 releasing2) (Release 1) [] 0 [0]); [done|done|done|].
  split; [|by vm_compute]. split; [apply NoDup_singleton|]. intros w. rewrite list_elem_of_singleton. split.
  - intros ->. eexists _, _. split; [reflexivity|]. split; [reflexivity|]. split_and!; [done|done|apply not_elem_of_nil|by vm_compute].
  - intros (x & y & _ & Hy & _ & Ha & _). apply table_entries in Hy. vm_compute in Hy.
    apply elem_of_cons in Hy as [[= -> ->]|Hy]; [done|]. apply list_elem_of_singleton in Hy as [= -> ->]. done.
Qed.

(** The release of a lease that waits leaves its holder's resource locked for
    good: the holder locks twice, its own release unlocks once, and then every
    lease of the host is released, nothing is left to do, and the live session of
    the host still owns the lock. *)
Theorem released_waiter_leaks_lock :
  reached released1 ∧
  (∀ l x, lh_table (host0 released1) !! l = Some x → le_state x = RELEASED) ∧
  lh_commands (host0 released1) = [] ∧ lh_pending (host0 released1) = [] ∧ lh_acquiring (host0 released1) = None ∧
  lh_session (host0 released1) = Some 0 ∧ 0 ∈ db_live released1.1 ∧ db_locks released1.1 !! key_hash (lease_key "t" "erp") = Some (0, 1).
Proof.
  split_and!; [|..|done|done|done|done|by vm_compute|by vm_compute].
  - assert (reached restarted) as H1 by (apply reached_then; [apply released2_reached|by eexists|by apply (StartAcquire released2.1 (host0 released2) 0 [] 0)]).
    assert (reached regranted) as H2 by (apply reached_then; [done|by eexists|by apply (Granted restarted.1 (host0 restarted) 0 0 14%Z second_lock)]).
    assert (reached reacquired) as H3 by (apply reached_then; [done|by eexists|by apply (Acquired regranted.1 (host0 regranted) 0 0)]).
    assert (reached revoked1) as H4 by (apply reached_then; [done|by eexists|by apply Invalidate]).
    assert (reached releasing1) as H5 by (apply reached_then; [done|by eexists|by apply (SendRelease revoked1.1 (host0 revoked1) [] 0 [])]).
    apply reached_then; [done|by eexists|]. apply (Serve releasing1.1 (host0 releasing1) (Release 0) [] 0 []); [done|done|done|].
    split; [|vm_compute; split; [done|by eexists]]. split; [constructor|]. intros w. split; [by intros ?%elem_of_nil|].
    intros (x & y & _ & Hy & _ & Ha & _). apply table_entries in Hy. vm_compute in Hy.
    apply elem_of_cons in Hy as [[= -> ->]|Hy]; [done|]. apply list_elem_of_singleton in Hy as [= -> ->]. done.
  - intros l x Hx. apply table_entries in Hx. vm_compute in Hx.
    apply elem_of_cons in Hx as [[= -> ->]|Hx]; [done|]. by apply list_elem_of_singleton in Hx as [= -> ->].
Qed.

End LeaseSample.
