(* ===== verification/RouteHost.v ===== *)
(** * The routing plugin of a host

    [FlowHttpRouting] of [crates/platform/engine/src/flow_http_routing.rs] and
    the verbs it serves to the ingress guest: [routes], [authenticate],
    [validate-input] and [try-acquire], with the input schemas of the release
    and the hosts of the bound workloads.

    The JSON Schema library is [Boon] with the error trees of [BoonErrors]; the
    authenticator and the environment status are functions over a state [W].
    Tracing, linking and the resource table are left out: a permit or a caller
    is handed to the guest as it is. *)

From stdpp Require Import base tactics option list gmap strings.
From Stdlib Require Import ZArith Lia.
From S2P Require Import Prelude Text Json Canonical HttpText Authority ComponentFacts ServingManifests EventBatch.
From S2P Require Import RouteLimiter HttpAdapter RouteSupply RouteAuthentication.
#[local] Set Warnings "-clear-no-such-hyp,-register-all".
Open Scope wamn_scope.

(** ** Input schemas *)

(** [ValidationError]: where, the properties an [AdditionalProperties] error
    names, and its causes. *)
Inductive ValidationError := mk_validation_error {
  ve_instance_location : string;
  ve_additional_properties : option (list string);
  ve_causes : list ValidationError;
}.
(** What the library reports of a payload it does not accept. *)
Class BoonErrors := schema_error : Value → Value → ValidationError.

Fixpoint first_leaf (e : ValidationError) : ValidationError :=
  match ve_causes e with [] => e | cause :: _ => first_leaf cause end.

Definition offending_pointer (e : ValidationError) : string :=
  let leaf := first_leaf e in
  match ve_additional_properties leaf with
  | Some (property :: _) => ve_instance_location leaf +:+ "/" +:+ escape_token property
  | _ => ve_instance_location leaf
  end.

Definition SCHEMA_INVALID : string := "schema-invalid".

Inductive InputSchemaValidator := CompiledSchema (schema : Value) | InvalidSchema.
Record InputSchemaValidators := {
  iv_attachment_hashes : gmap string string;
  iv_validators : gmap string InputSchemaValidator;
}.

(** [get_or_insert]. *)
Definition or_insert {A} (k : string) (v : A) (m : gmap string A) : gmap string A :=
  match m !! k with Some _ => m | None => <[k := v]> m end.

Section Schemas.
Context `{!Boon, !BoonErrors, !FloatText, !Sha256, !JsonText}.

Definition compile_input_schema (schema : Value) : InputSchemaValidator :=
  if schema_compiles schema then CompiledSchema schema else InvalidSchema.

Definition input_schema (a : ServedAttachment) : Value :=
  default (VBool true) (get "input-schema" (served_definition a)).

Definition no_validators : InputSchemaValidators := {| iv_attachment_hashes := ∅; iv_validators := ∅ |}.

Definition add_validator (v : InputSchemaValidators) (entry : string * ServedAttachment) : InputSchemaValidators :=
  let schema := input_schema entry.2 in
  let hash := canonical_json_sha256 schema in
  {| iv_attachment_hashes := <[entry.1 := hash]> (iv_attachment_hashes v);
     iv_validators := or_insert hash (compile_input_schema schema) (iv_validators v) |}.

(** The attachments that get a validator. *)
Definition validated_attachments (m : ServingManifest) : list (string * ServedAttachment) :=
  filter (λ '(id, a), is_Some (route_definition m id a "")) (http_attachments m).

Definition new_validators (release : option LoadedRelease) : InputSchemaValidators :=
  match release with
  | None => no_validators
  | Some release => foldl add_validator no_validators (validated_attachments (lr_manifest release))
  end.

Definition validate (v : InputSchemaValidators) (attachment_id payload : string) : result unit string :=
  let? hash := ok_or (iv_attachment_hashes v !! attachment_id) SCHEMA_INVALID in
  let? validator := ok_or (iv_validators v !! hash) SCHEMA_INVALID in
  match validator with
  | InvalidSchema => Err SCHEMA_INVALID
  | CompiledSchema schema =>
      let? payload := ok_or (parse_json payload) "" in
      if schema_accepts schema payload then Ok tt else Err (offending_pointer (schema_error schema payload))
  end.

End Schemas.

(** ** The plugin *)

(** The host of an authority, lower case, without its port. *)
Definition authority_host (authority : string) : string :=
  to_ascii_lowercase
    match rsplit_once colon authority with
    | Some (host, port) => if negb (String.eqb port "") && all_bytes is_ascii_digit port then host else authority
    | None => authority
    end.

Definition NO_RELEASE : string := "this process carries no release manifest".
Definition UNKNOWN_ROUTE_REFUSAL : string := "http-route-not-in-release".
Definition unsupported_policy : AuthRejection := {| rj_status := 501; rj_code := "auth-policy-unsupported" |}.
Definition environment_inactive : AuthRejection := {| rj_status := 503; rj_code := "environment-inactive" |}.

(** [FlowHttpRouting] without its mutable parts, which are [Routing]. *)
Record FlowHttpRouting (W : Type) := {
  fr_release : option LoadedRelease;
  fr_input_schemas : InputSchemaValidators;
  fr_authenticator : option (AuthenticationRequest → auth W (option AuthenticatedCaller));
  fr_environment : option (string → W → W * option bool);
}.
Arguments fr_release {W}. Arguments fr_input_schemas {W}. Arguments fr_authenticator {W}. Arguments fr_environment {W}.

(** The limiter, the hosts of the bound workloads, and what the authenticator
    and the environment status read. *)
Record Routing (W : Type) := {
  ro_limiter : RouteLimiter;
  ro_route_hosts : gmap string string;
  ro_world : W;
}.
Arguments ro_limiter {W}. Arguments ro_route_hosts {W}. Arguments ro_world {W}.

Section Plugin.
Context {W : Type}.

Definition with_limiter (l : RouteLimiter) (s : Routing W) : Routing W :=
  {| ro_limiter := l; ro_route_hosts := ro_route_hosts s; ro_world := ro_world s |}.
Definition with_hosts (h : gmap string string) (s : Routing W) : Routing W :=
  {| ro_limiter := ro_limiter s; ro_route_hosts := h; ro_world := ro_world s |}.
Definition with_world (w : W) (s : Routing W) : Routing W :=
  {| ro_limiter := ro_limiter s; ro_route_hosts := ro_route_hosts s; ro_world := w |}.

Definition bind_route_host (workload_id host : string) (s : Routing W) : Routing W :=
  with_hosts (<[workload_id := to_ascii_lowercase host]> (ro_route_hosts s)) s.
(** [on_workload_resolved], given the [config.host] of the incoming HTTP handler. *)
Definition on_workload_resolved (workload_id : string) (config_host : option string) (s : Routing W) : Routing W :=
  match config_host with Some host => bind_route_host workload_id host s | None => s end.
Definition on_workload_unbind (workload_id : string) (s : Routing W) : Routing W :=
  with_hosts (delete workload_id (ro_route_hosts s)) s.

Definition host_routes (fr : FlowHttpRouting W) (workload_id method authority : string) (s : Routing W) :
    result (list WireRoute) string :=
  let? release := ok_or (fr_release fr) NO_RELEASE in
  if bool_decide (ro_route_hosts s !! workload_id = Some (authority_host authority))
  then Ok (route_definitions (lr_manifest release) method (lr_digest release))
  else Ok [].

Definition carries_route (fr : FlowHttpRouting W) (attachment_id : string) : result bool string :=
  let? release := ok_or (fr_release fr) NO_RELEASE in
  Ok match served_attachment (lr_manifest release) attachment_id with
     | Some a => carries_http_route (attachment_type a)
     | None => false
     end.

(** The [try-acquire] verb. *)
Definition host_try_acquire (fr : FlowHttpRouting W) (attachment_id : string) (s : Routing W) :
    Routing W * result (option RouteLimiter.RoutePermit) string :=
  match carries_route fr attachment_id with
  | Err e => (s, Err e)
  | Ok false => (s, Err UNKNOWN_ROUTE_REFUSAL)
  | Ok true => let '(l, permit) := try_acquire (ro_limiter s) attachment_id in (with_limiter l s, Ok permit)
  end.
(** [try_acquire_route], for a native transfer. *)
Definition native_try_acquire (fr : FlowHttpRouting W) (attachment_id : string) (s : Routing W) :
    Routing W * option RouteLimiter.RoutePermit :=
  match carries_route fr attachment_id with
  | Ok true => let '(l, permit) := try_acquire (ro_limiter s) attachment_id in (with_limiter l s, permit)
  | _ => (s, None)
  end.

Definition host_validate_input `{!Boon, !BoonErrors, !FloatText, !Sha256, !JsonText} (fr : FlowHttpRouting W)
    (attachment_id payload : string) : result unit string :=
  validate (fr_input_schemas fr) attachment_id payload.

(** The environment gate of [authenticate]. *)
Definition environment_gate (fr : FlowHttpRouting W) (env_key : string) : auth W unit :=
  λ w, match fr_environment fr with
       | None => (w, Ok tt)
       | Some inactive =>
           match inactive env_key w with
           | (w', None) => (w', Err authentication_unavailable)
           | (w', Some true) => (w', Err environment_inactive)
           | (w', Some false) => (w', Ok tt)
           end
       end.

(** The policy of the attachment and what it asks for. *)
Definition authenticate_attachment (fr : FlowHttpRouting W) (release : LoadedRelease) (attachment_id : string)
    (headers : list Header) (body : string) : auth W (option AuthenticatedCaller) :=
  let m := lr_manifest release in
  match served_attachment m attachment_id with
  | None => auth_of (Err authentication_unavailable)
  | Some a =>
      if negb (carries_http_route (attachment_type a)) then auth_of (Err authentication_unavailable)
      else
        match parse_attachment_auth_policy (served_auth_policy a) with
        | None => auth_of (Err unsupported_policy)
        | Some PolicyNone => auth_ret None
        | Some policy =>
            match fr_authenticator fr with
            | None => auth_of (Err match policy with
                                   | PolicySignature _ _ => signature_unauthorized
                                   | _ => authentication_unavailable
                                   end)
            | Some authenticator =>
                authenticator {| aq_manifest := m;
                                 aq_scope := {| rs_env_key := lr_env_key release; rs_environment := lr_environment release |};
                                 aq_attachment_id := attachment_id; aq_attachment := a; aq_policy := policy;
                                 aq_headers := headers; aq_body := body |}
            end
        end
  end.

Definition host_authenticate (fr : FlowHttpRouting W) (attachment_id : string) (headers : list Header) (body : string) :
    auth W (option AuthenticatedCaller) :=
  match fr_release fr with
  | None => auth_of (Err authentication_unavailable)
  | Some release =>
      auth_bind (environment_gate fr (lr_env_key release))
        (λ _, authenticate_attachment fr release attachment_id headers body)
  end.

End Plugin.

Section New.
Context {W : Type} `{!Boon, !FloatText, !Sha256}.

(** [FlowHttpRouting::new] and [with_box_limit], with the limiter they make. *)
Definition new_routing (release : option LoadedRelease) : FlowHttpRouting W := {|
  fr_release := release; fr_input_schemas := new_validators release; fr_authenticator := None; fr_environment := None |}.
Definition new_state (limit : Z) (scope : LimitScope) (w : W) : Routing W :=
  {| ro_limiter := new_limiter limit scope; ro_route_hosts := ∅; ro_world := w |}.
Definition with_environment_status (environment : string → W → W * option bool) (fr : FlowHttpRouting W) : FlowHttpRouting W := {|
  fr_release := fr_release fr; fr_input_schemas := fr_input_schemas fr; fr_authenticator := fr_authenticator fr;
  fr_environment := Some environment |}.
Definition with_authenticator (authenticator : AuthenticationRequest → auth W (option AuthenticatedCaller))
    (fr : FlowHttpRouting W) : FlowHttpRouting W := {|
  fr_release := fr_release fr; fr_input_schemas := fr_input_schemas fr; fr_authenticator := Some authenticator;
  fr_environment := fr_environment fr |}.

End New.
