(* ===== verification/GuestEntry.v ===== *)
(** * The entry of the composed application

    [apps/platform/ingress/http-route/src/entry.rs] and [entry_response.rs]: the
    call of a sealed operation inside the composed component, with the read
    limits of its route, the request hash of each element, the operation
    boundary around each call and the tags of a read.

    The operation boundary ([wamn:operation]), the dispatch of the composition
    ([wamn:application-dispatch]) and the clock are the class [EntryHost], over
    a state [W].  A text is the bytes of the JSON printed or parsed; the debug
    text of a PostgreSQL error is a parameter. *)

From stdpp Require Import base tactics option list gmap strings.
From Stdlib Require Import ZArith Lia.
From S2P Require Import Prelude Text Json Canonical HttpText CanonicalForm Authority Driver LoggedCall ServingManifests.
From S2P Require Import HttpAdapter RouteSupply.
#[local] Set Warnings "-clear-no-such-hyp".
Open Scope wamn_scope.

(** ** The operation boundary *)

Inductive PgError :=
| PgSerializationFailure | PgConnectionUnavailable | PgStatementTimeout | PgRowLimitExceeded (limit : Z)
| PgUniqueViolation (name : string) | PgForeignKeyViolation (name : string) | PgCheckViolation (name : string)
| PgExclusionViolation (name : string) | PgPermissionDenied | PgQueryError (state message : string).
(** [format!("{error:?}")]. *)
Class PgDebug := pg_debug : PgError → string.

Inductive Refusal :=
| RUncertain | RResolved (basis : string) | RConflict | RUnknownOperation | RGrantDenied | RInvalidCaller
| RNotBegun | RAlreadyBegun | RPostgres (e : PgError) | RReadsClaimNothing.
Inductive EntryBegun := BegunNew (delivery_id : string) | BegunFinished (body : string).

Record NodeContext := {
  nc_delivery_id : string;
  nc_traceparent : option string;
  nc_tracestate : option string;
  nc_deadline_ms : Z;
}.

Class EntryHost (W C : Type) := {
  monotonic_now : W → W * Z;
  authorize : option C → string → W → W * result unit Refusal;
  finish_read : W → W * result unit Refusal;
  begin_operation : option C → string → string → string → W → W * result EntryBegun Refusal;
  commit : string → W → W * result unit Refusal;
  rollback : W → W * result unit Refusal;
  dispatch_is_read : string → bool;
  dispatch_read : string → NodeContext → string → bool → W → W * result (string * option string) WireError;
  dispatch_run : string → NodeContext → string → W → W * result string WireError;
}.

(** ** Read limits *)

Section ReadLimits.
Context `{!JsonText}.

Definition outside (limits : ReadLimits) (limit : Value) : bool :=
  negb match as_u64 limit with
       | Some n => match rl_page_minimum limits with Some lo => (lo <=? n)%Z | None => true end &&
                   match rl_page_maximum limits with Some hi => (n <=? hi)%Z | None => true end
       | None => false
       end.

Definition missing_start (band : BandStart) (element : Value) : bool :=
  let value := get "filter" element ≫= get (bs_field band) in
  (bs_required band || bool_decide (is_Some value)) && negb (bool_decide (is_Some (value ≫= get "min"))).

Definition element_limit_refusal (limits : ReadLimits) (index : nat) (element : Value) : option string :=
  if match get "limit" element with Some limit => outside limits limit | None => false end
  then Some ("/" +:+ decimal_text (Z.of_nat index) +:+ "/limit")
  else match List.find (λ band, missing_start band element) (rl_band_starts limits) with
       | Some band =>
           Some ("/" +:+ decimal_text (Z.of_nat index) +:+ "/filter/" +:+ escape_token (bs_field band))
       | None => None
       end.

Fixpoint first_limit_refusal (limits : ReadLimits) (index : nat) (elements : list Value) : option string :=
  match elements with
  | [] => None
  | e :: elements => match element_limit_refusal limits index e with
                     | Some pointer => Some pointer
                     | None => first_limit_refusal limits (S index) elements
                     end
  end.

Definition validate_read_limits (route : WireRoute) (payload : string) : result unit SchemaInvalid :=
  match wr_read_limits route with
  | None => Ok tt
  | Some limits =>
      let? input := ok_or (parse_json payload) (from_refusal "") in
      match first_limit_refusal limits 0 (match input with VArray l => l | _ => [] end) with
      | Some pointer => Err (from_refusal pointer)
      | None => Ok tt
      end
  end.

End ReadLimits.

(** ** The request hash *)

Section Hash.
Context `{!JsonPrint, !Chrono, !FloatText, !Sha256}.

Fixpoint entry_respell (value : Value) (path : list string) (spelling : CanonicalSpelling) {struct path} : Value :=
  match path with
  | [] =>
      match value with
      | VString text =>
          match match spelling with
                | Numeric => canonical_numeric text
                | Timestamptz => canonical_timestamptz text
                end with
          | Some canonical => VString canonical
          | None => VString text
          end
      | v => v
      end
  | first :: rest =>
      match strip_suffix "[]" first with
      | Some name => update_member name (λ v, match v with
                                             | VArray l => VArray ((λ e, entry_respell e rest spelling) <$> l)
                                             | v => v
                                             end) value
      | None => update_member first (λ v, entry_respell v rest spelling) value
      end
  end.

Fixpoint entry_remove (value : Value) (path : list string) {struct path} : Value :=
  match path with
  | [] => value
  | first :: rest =>
      match rest with
      | [] => match value with VObject m => VObject (map_remove first m) | v => v end
      | _ :: _ =>
          match strip_suffix "[]" first with
          | Some name => update_member name (λ v, match v with
                                                 | VArray l => VArray ((λ e, entry_remove e rest) <$> l)
                                                 | v => v
                                                 end) value
          | None => update_member first (λ v, entry_remove v rest) value
          end
      end
  end.

Definition canonicalize (rule : RequestHashRule) (element : Value) : Value :=
  let element := fold_left (λ v '(path, spelling), entry_respell v (split_char dot path) spelling) (hr_spelling rule) element in
  match hr_lines rule with
  | Some order =>
      update_path (split_char dot (lo_path order))
        (λ v, match v with VArray l => VArray (stable_sort (line_leb (lo_ascending_by order)) l) | v => v end) element
  | None => element
  end.

(** The hash of one element under the rule of its route. *)
Definition entry_hash (rule : option RequestHashRule) (element : Value) : string :=
  canonical_json_sha256
    match rule with
    | Some rule => fold_left (λ v path, entry_remove v (split_char dot path)) (hr_excluded rule) element
    | None => element
    end.

End Hash.

(** [field]: the value at a dotted path. *)
Definition field (value : Value) (path : string) : option Value :=
  fold_left (λ o key, o ≫= get key) (split_char dot path) (Some value).

(** ** Answers *)

Section Entry.
Context {W C : Type} `{!EntryHost W C, !JsonText, !JsonPrint, !FloatText, !Sha256, !Chrono, !PgDebug}.

Definition entry_resolved (intent basis : string) : Value :=
  refusal "intent-resolved" ("an operator resolved intent " +:+ intent +:+ " by " +:+ basis +:+ "; send a new key")
    (VObject (map_from_iter [("intent", VString intent); ("basis", VString basis)])).

(** [body.trim_end().len() - 1] ends the members; the new member goes there. *)
Definition with_request_id (body request_id : string) : result string DeliveryError :=
  match strip_prefix "{" (trim_text body) ≫= strip_suffix "}" with
  | None => Err DExecutionFailed
  | Some members =>
      let separator := if String.eqb (trim_text members) "" then "" else "," in
      let kept := trim_end_text (String.length body) body in
      let end_ := (String.length kept - 1)%nat in
      Ok (String.substring 0 end_ body +:+ separator +:+ String quote_char ("request_id" +:+ String quote_char ":") +:+
          print_json (VString request_id) +:+ String.substring end_ (String.length body - end_) body)
  end.

Definition commit_failure (e : Refusal) (intent : string) : Value :=
  match e with
  | RUncertain => uncertain intent
  | RPostgres error =>
      let code := match error with
                  | PgStatementTimeout => "timeout"
                  | PgSerializationFailure | PgConnectionUnavailable => "retry"
                  | _ => "internal_error"
                  end in
      VObject [("error", VObject [("code", VString code);
                                  ("message", VString ("the commit rolled back: " +:+ pg_debug error))])]
  | _ => VObject [("error", VObject [("code", VString "internal_error")])]
  end.

Definition boundary (e : Refusal) (id : string) : DeliveryError :=
  match e with
  | RGrantDenied | RInvalidCaller => DPermissionDenied id
  | RUnknownOperation => DSourceNotFound
  | _ => DExecutionFailed
  end.

Definition invalid (message : string) : DeliveryOutcome :=
  OFailed {| df_kind := KInvalidInput; df_code := Some "invalid_input"; df_message := message |}.

Definition node_failure (e : WireError) : DeliveryOutcome :=
  let failed kind d := OFailed {| df_kind := kind; df_code := wd_code d; df_message := wd_message d |} in
  match e with
  | WInvalidInput d => failed KInvalidInput d
  | WTerminal d => failed KTerminal d
  | WRetryable d => failed KRetryExhausted d
  | WRateLimited d _ => failed KRetryExhausted d
  | WCancelled => OCancelled
  end.

Definition CEILING : Z := 50000.
Definition as_i64 (v : Value) : option Z :=
  match v with
  | VNumber (PosInt n) => if (n <=? i64_max)%Z then Some n else None
  | VNumber (NegInt n) => Some n
  | _ => None
  end.
Definition limit_refusal (payload : Value) (maximum : Z) : option string :=
  limit ← (match payload with VArray (e :: _) => get "limit" e | _ => None end) ≫= as_i64;
  if (maximum <? limit)%Z
  then Some (print_json (VArray [VObject [("error", VObject
         [("code", VString "invalid_input");
          ("detail", VObject (map_from_iter [("field", VString "limit"); ("minimum", VString "1");
                              ("maximum", VString (decimal_text maximum));
                              ("observed", VString (decimal_text limit))]))])]]))
  else None.

(** ** Deadlines *)

(** [u64] arithmetic that saturates. *)
Definition saturate (z : Z) : Z := Z.max 0 (Z.min z u64_max).
Definition deadline_of (now ms : Z) : Z := saturate (now + saturate (ms * 1000000)).
Definition remaining_ms (deadline : Z) (w : W) : W * Z :=
  let '(w, now) := monotonic_now w in (w, ((saturate (deadline - now) + 999999) / 1000000)%Z).

Definition context (rq : DeliveryRequest C) (delivery_id : string) (deadline_ms : Z) : NodeContext := {|
  nc_delivery_id := delivery_id;
  nc_traceparent := tr_traceparent <$> dr_trace rq;
  nc_tracestate := dr_trace rq ≫= tr_tracestate;
  nc_deadline_ms := deadline_ms |}.

(** ** Tags *)

(** The digest without its prefix, to 32 digits. *)
Definition tag_digest (v : Value) : string := String.substring 7 32 (canonical_json_sha256 v).
Definition quoted (s : string) : string := String quote_char s +:+ String quote_char "".
Definition weak (s : string) : string := "W/" +:+ quoted s.

Definition wants_list_etag (route : WireRoute) : bool :=
  match wr_etag_inputs route with Some {| ei_kind := EtagList _ |} => true | _ => false end.

Definition list_etag (route : WireRoute) (position : option string) : option string :=
  match wr_etag_inputs route with
  | Some {| ei_release := release; ei_kind := EtagList relations |} =>
      position ← position;
      Some (weak (tag_digest (VArray [VString "list"; VString release;
        VArray ((λ r, VArray [VString (sl_schema r); VString (sl_relation r)]) <$> relations); VString position])))
  | _ => None
  end.

(** The one outcome of an answer. *)
Definition single (v : Value) : option Value := match v with VArray [outcome] => Some outcome | _ => None end.

Definition changes_etag (route : WireRoute) (answer : Value) : option string :=
  inputs ← wr_etag_inputs route;
  outcome ← single answer;
  cursor ← (get "value" outcome ≫= get "next_cursor") ≫= as_str;
  Some (weak (tag_digest (VArray [VString "changes"; VString (ei_release inputs); VString cursor]))).

Definition get_etag (route : WireRoute) (answer : Value) : option string :=
  match wr_etag_inputs route with
  | Some {| ei_release := release; ei_kind := EtagGet name |} =>
      outcome ← single answer;
      revision ← get "value" outcome ≫= get name;
      match revision with
      | VNumber _ | VString _ => Some (quoted (tag_digest (VArray [VString "get"; VString release; revision])))
      | _ => None
      end
  | _ => None
  end.

(** [trim_start_matches("W/")]; the fuel is the length of the text. *)
Fixpoint trim_weak (fuel : nat) (s : string) : string :=
  match fuel with
  | O => s
  | S fuel => match strip_prefix "W/" s with Some s => trim_weak fuel s | None => s end
  end.
Definition matches_tag (if_none_match tag : option string) : bool :=
  match if_none_match, tag with
  | Some value, Some tag =>
      existsb (λ v, String.eqb (trim_text v) "*" ||
                    String.eqb (trim_weak (String.length v) (trim_text v)) (trim_weak (String.length tag) tag))
        (split_char comma_char value)
  | _, _ => false
  end.

(** ** Calls *)

Definition invalid_json : WireError :=
  WTerminal {| wd_message := "operation returned invalid JSON"; wd_code := Some "internal_error" |}.

Definition read_call (id : string) (c : NodeContext) (input : string) (want_wal : bool) (w : W) :
    W * result (Value * option string) WireError :=
  if dispatch_is_read id then
    let '(w, answer) := dispatch_read id c input want_wal w in
    (w, let? answer := answer in
        let? v := ok_or (parse_json answer.1) invalid_json in Ok (v, answer.2))
  else
    let '(w, answer) := dispatch_run id c input w in
    (w, let? text := answer in
        let? v := ok_or (parse_json text) invalid_json in Ok (v, None)).

Definition entry_call (id : string) (c : NodeContext) (input : string) (w : W) : W * result Value WireError :=
  let '(w, answer) := read_call id c input false w in (w, let? answer := answer in Ok answer.1).

(** What a boundary call that answers nothing lets the entry go on with. *)
Definition bounded {A} (id : string) (m : W → W * result unit Refusal) (k : W → W * (result DeliveryOutcome DeliveryError * A))
    (stop : A) (w : W) : W * (result DeliveryOutcome DeliveryError * A) :=
  match m w with
  | (w, Err e) => (w, (Err (boundary e id), stop))
  | (w, Ok _) => k w
  end.

(** The tag of a read's answer. *)
Definition read_etag (route : WireRoute) (feed : bool) (answer : Value) (position : option string) : option string :=
  match get_etag route answer with
  | Some tag => Some tag
  | None => if feed then changes_etag route answer else list_etag route position
  end.

(** A read: the outcome, and the tag set so far. *)
Definition execute_read (route : WireRoute) (rq : DeliveryRequest C) (id : string) (deadline : Z) (input : Value) (w : W) :
    W * (result DeliveryOutcome DeliveryError * option string) :=
  match limit_refusal input CEILING with
  | Some text => (w, (Ok (ORespond text), None))
  | None =>
      bounded id (authorize (dr_caller rq) id) (λ w,
        let feed := is_feed_read input in
        let '(w, remaining) := remaining_ms deadline w in
        let '(w, answer) := read_call id (context rq "" remaining) (print_json input) (wants_list_etag route && negb feed) w in
        match answer with
        | Ok (answer, position) =>
            let early := if feed then changes_etag route answer else list_etag route position in
            bounded id finish_read (λ w,
              let tag := read_etag route feed answer position in
              (w, (Ok (if matches_tag (dr_if_none_match rq) tag then ONotModified else ORespond (print_json answer)), tag)))
              early w
        | Err e => bounded id finish_read (λ w, (w, (Ok (node_failure e), None))) None w
        end) None w
  end.

(** ** Logged calls *)

(** The checks of one element; [keys] are the keys seen. *)
Definition check_element (key_field : string) (keys : list string) (element : Value) : result string DeliveryOutcome :=
  match field element key_field ≫= as_str with
  | None => Err (invalid ("a request element has no " +:+ key_field))
  | Some key =>
      if negb (bool_decide (is_Some (get "request_id" element ≫= as_str))) || bool_decide (key ∈ keys)
      then Err (invalid "a request element has no request_id or repeats its idempotency key")
      else Ok key
  end.
Fixpoint check_elements (key_field : string) (keys : list string) (elements : list Value) : result unit DeliveryOutcome :=
  match elements with
  | [] => Ok tt
  | e :: elements => let? key := check_element key_field keys e in check_elements key_field (key :: keys) elements
  end.

(** The answer of an element, or what the whole call returns. *)
Inductive ElementStep := Answered (text : string) | Returned (r : result DeliveryOutcome DeliveryError).

Definition answered_with (body : string) (request_id : string) : ElementStep :=
  match with_request_id body request_id with Ok text => Answered text | Err e => Returned (Err e) end.

(** A rollback, then [step]. *)
Definition rolled_back (id : string) (step : ElementStep) (w : W) : W * ElementStep :=
  match rollback w with (w, Err e) => (w, Returned (Err (boundary e id))) | (w, Ok _) => (w, step) end.

(** The one answer of the export, for the element it was asked. *)
Definition answer_of (v : Value) (request_id : string) : option Value :=
  match v with
  | VArray [answer] => if is_text (at_key "request_id" answer) request_id then Some answer else None
  | _ => None
  end.

Definition error_answer (request_id : string) (error : list (string * Value)) : string :=
  print_json (VObject (map_from_iter [("request_id", VString request_id); ("error", VObject (map_from_iter error))])).

(** The call of a newly begun element, and how its operation ends. *)
Definition settle_new (rq : DeliveryRequest C) (id intent delivery_id : string) (deadline : Z) (whole : nat)
    (element : Value) (request_id : string) (w : W) : W * ElementStep :=
  let '(w, remaining) := remaining_ms deadline w in
  let '(w, answer) := entry_call id (context rq delivery_id remaining) (print_json (VArray [element])) w in
  match answer with
  | Ok v =>
      match answer_of v request_id with
      | Some (VObject m) =>
          let outcome := VObject (map_remove "request_id" m) in
          match get "value" outcome with
          | Some _ =>
              match commit (print_json outcome) w with
              | (w, Err e) => (w, answered_with (print_json (commit_failure e intent)) request_id)
              | (w, Ok _) => (w, answered_with (print_json outcome) request_id)
              end
          | None => rolled_back id (answered_with (print_json outcome) request_id) w
          end
      | Some _ => (w, Returned (Err DExecutionFailed))
      | None =>
          rolled_back id (Answered (error_answer request_id
            [("code", VString "internal_error");
             ("message", VString ("the export answered nothing for request element " +:+ request_id));
             ("detail", VNull)])) w
      end
  | Err e =>
      rolled_back id
        (if (whole =? 1)%nat then Returned (Ok (node_failure e))
         else match error_detail e with
              | None => Returned (Ok OCancelled)
              | Some d => Answered (error_answer request_id
                            [("code", match wd_code d with Some c => VString c | None => VNull end);
                             ("message", VString (wd_message d))])
              end) w
  end.

(** [operation_id.split('@').next()] and the key. *)
Definition entry_intent (id key : string) : string :=
  match split_once at_sign id with Some (reference, _) => reference | None => id end +:+ "#" +:+ key.

Definition settle_element (route : WireRoute) (rq : DeliveryRequest C) (id key_field : string) (deadline : Z)
    (whole : nat) (element : Value) (w : W) : W * run ElementStep :=
  match (let! request_id := expect (as_str (at_key "request_id" element)) "request id checked" in
         Ret request_id) with
  | Panic m => (w, Panic m)
  | Ret request_id =>
      let '(w, remaining) := remaining_ms deadline w in
      if (remaining =? 0)%Z then
        (w, Ret (Answered (error_answer request_id
               [("code", VString "timeout"); ("message", VString "not reached before deadline")])))
      else
        match expect (field element key_field ≫= as_str) "key checked" with
        | Panic m => (w, Panic m)
        | Ret key =>
            let intent := entry_intent id key in
            let '(w, begun) := begin_operation (dr_caller rq) id key (entry_hash (wr_request_hash_rule route) element) w in
            let '(w, step) :=
              match begun with
              | Ok (BegunFinished body) => (w, answered_with body request_id)
              | Err RConflict =>
                  (w, answered_with (print_json (refusal "idempotency_conflict"
                        ("the key " +:+ key +:+ " repeats with another input")
                        (VObject [("field", VString key_field); ("intent", VString intent)]))) request_id)
              | Err RUncertain => (w, answered_with (print_json (uncertain intent)) request_id)
              | Err (RResolved basis) => (w, answered_with (print_json (entry_resolved intent basis)) request_id)
              | Err e => (w, Returned (Err (boundary e id)))
              | Ok (BegunNew delivery_id) => settle_new rq id intent delivery_id deadline whole element request_id w
              end in
            (w, Ret step)
        end
  end.

Fixpoint settle_elements (route : WireRoute) (rq : DeliveryRequest C) (id key_field : string) (deadline : Z) (whole : nat)
    (elements : list Value) (answers : list string) (w : W) : W * run (result DeliveryOutcome DeliveryError) :=
  match elements with
  | [] => (w, Ret (Ok (ORespond ("[" +:+ join_comma (reverse answers) +:+ "]"))))
  | element :: elements =>
      match settle_element route rq id key_field deadline whole element w with
      | (w, Panic m) => (w, Panic m)
      | (w, Ret (Returned r)) => (w, Ret r)
      | (w, Ret (Answered text)) => settle_elements route rq id key_field deadline whole elements (text :: answers) w
      end
  end.

Definition execute_logged (route : WireRoute) (rq : DeliveryRequest C) (id key_field : string) (deadline : Z) (input : Value)
    (w : W) : W * run (result DeliveryOutcome DeliveryError) :=
  match input with
  | VArray elements =>
      let elements := (λ e, match wr_request_hash_rule route with Some rule => canonicalize rule e | None => e end) <$> elements in
      match check_elements key_field [] elements with
      | Err outcome => (w, Ret (Ok outcome))
      | Ok _ => settle_elements route rq id key_field deadline (length elements) elements [] w
      end
  | _ => (w, Ret (Ok (invalid "the input is not a request element list")))
  end.

(** ** The entry *)

Definition execute (route : WireRoute) (rq : DeliveryRequest C) (w : W) :
    W * run (result DeliveryOutcome DeliveryError * option string) :=
  let '(w, now) := monotonic_now w in
  let deadline := deadline_of now (wr_operation_deadline_ms route) in
  match wr_sealed_operation_id route with
  | None => (w, Ret (Err DInvalidRequest, None))
  | Some id =>
      match parse_json (dr_payload rq) with
      | None => (w, Ret (Err DInvalidPayload, None))
      | Some input =>
          match wr_idempotency_rule route with
          | None => let '(w, answer) := execute_read route rq id deadline input w in (w, Ret answer)
          | Some key_field =>
              let '(w, answer) := execute_logged route rq id key_field deadline input w in
              (w, let! answer := answer in Ret (answer, None))
          end
      end
  end.

Definition entry_deliver (route : WireRoute) (rq : DeliveryRequest C) (w : W) : W * run DeliveryReport :=
  let '(w, answer) := execute route rq w in
  (w, let! answer := answer in
      Ret {| rp_outcome := answer.1; rp_etag := answer.2; rp_deadline_adjustments := [] |}).

End Entry.

(** ** The entry and the host hash one request the same way *)

Section HashAgrees.
Context `{!JsonPrint} {hchrono : Chrono} {hfloat : FloatText} {hsha : Sha256}.

Lemma update_map_pointwise name f g m : (∀ v, f v = g v) → update_map name f m = update_map name g m.
Proof. intros E. induction m as [|[k v] m IH]; simpl; [done|]. rewrite E, IH. done. Qed.
Lemma update_member_ext name f g v : (∀ v, f v = g v) → update_member name f v = update_member name g v.
Proof. intros E. destruct v; simpl; try done. by rewrite (update_map_pointwise _ _ _ _ E). Qed.

Lemma entry_respell_host path spelling : ∀ value, entry_respell value path spelling = respell value path spelling.
Proof.
  induction path as [|first rest IH]; intros value; simpl.
  - destruct value; try done. unfold respelled. by destruct spelling; [destruct (canonical_numeric s)|destruct (canonical_timestamptz s)].
  - destruct (strip_suffix "[]" first) as [name|]; apply update_member_ext; [|done].
    intros v. destruct v; try done. simpl. f_equal. apply list_fmap_ext. intros i x _. apply IH.
Qed.

Lemma entry_remove_host path value : entry_remove value path = remove value path.
Proof. reflexivity. Qed.

(** Leaving out the request id commutes with leaving out any path. *)
Abbreviation without_id v := (entry_remove v ["request_id"]).

Lemma filter_update (k : string) name f m :
  filter (λ kv : string * Value, kv.1 ≠ k) (update_map name f m) = update_map name f (filter (λ kv, kv.1 ≠ k) m).
Proof.
  induction m as [|[k' v] m IH]; [done|]. cbn [update_map]. destruct (String.eqb_spec name k') as [->|Hne].
  - rewrite !filter_cons. cbn [fst]. destruct (decide (k' ≠ k)) as [Hk|Hk].
    + cbn [update_map]. by rewrite String.eqb_refl.
    + assert (k' = k) as -> by (destruct (decide (k' = k)); [done|by destruct Hk]).
      clear IH. induction m as [|[k' v'] m IH]; [done|]. rewrite filter_cons. cbn [fst].
      destruct (decide (k' ≠ k)) as [Hk'|Hk']; [|done]. cbn [update_map].
      destruct (String.eqb_spec k k') as [->|]; [by destruct Hk'|]. by f_equal.
  - rewrite !filter_cons. cbn [fst]. destruct (decide (k' ≠ k)); [|done]. cbn [update_map].
    destruct (String.eqb_spec name k'); [done|]. by f_equal.
Qed.

Lemma without_id_commutes path v : without_id (entry_remove v path) = entry_remove (without_id v) path.
Proof.
  destruct path as [|first rest]; [done|].
  destruct v as [| | | | |m]; [by destruct rest; [|cbn; destruct (strip_suffix "[]" first)]..|].
  destruct rest as [|second rest].
  - cbn [entry_remove]. unfold map_remove. f_equal. rewrite !list_filter_filter.
    apply list_filter_iff. intros kv. tauto.
  - cbn [entry_remove]. destruct (strip_suffix "[]" first); cbn [update_member entry_remove]; unfold map_remove; f_equal;
      apply filter_update.
Qed.

Definition removes (paths : list string) (v : Value) : Value :=
  fold_left (λ v path, entry_remove v (split_char dot path)) paths v.

Lemma without_id_removes paths : ∀ v, removes paths (without_id v) = without_id (removes paths v).
Proof.
  unfold removes. induction paths as [|p paths IH]; intros v; cbn [fold_left]; [done|].
  rewrite <- without_id_commutes. apply IH.
Qed.

Lemma without_id_twice v : without_id (without_id v) = without_id v.
Proof.
  destruct v; try done. cbn [entry_remove]. unfold map_remove. f_equal. rewrite list_filter_filter.
  apply list_filter_iff. intros kv. tauto.
Qed.

Lemma removes_insert paths : ∀ v, removes (set_insert "request_id" paths) v = without_id (removes paths v).
Proof.
  induction paths as [|p paths IH]; intros v; [done|]. cbn [set_insert].
  destruct (String.compare "request_id" p) eqn:E.
  - apply String.compare_eq_iff in E as <-. change (removes ("request_id" :: paths) v) with (removes paths (without_id v)).
    by rewrite without_id_removes, without_id_twice.
  - change (removes ("request_id" :: p :: paths) v) with (removes (p :: paths) (without_id v)). apply without_id_removes.
  - apply IH.
Qed.

Lemma canonicalize_host form element :
  canonicalize {| hr_excluded := set_insert "request_id" (excluded form); hr_lines := lines form; hr_spelling := spelling form |} element =
  CanonicalForm.apply form element.
Proof.
  unfold canonicalize, CanonicalForm.apply, order_lines, respell_all. cbn [hr_lines hr_spelling].
  assert (Ef : ∀ l v, fold_left (λ v '(path, spelling), entry_respell v (split_char dot path) spelling) l v =
    fold_left (λ v '(path, sp), respell v (split_char dot path) sp) l v).
  { induction l as [|[p sp] l IH]; intros v; simpl; [done|]. by rewrite entry_respell_host, IH. }
  by rewrite Ef.
Qed.

Lemma removes_hashed paths : ∀ v, removes paths v = fold_left (λ v path, remove v (split_char dot path)) paths v.
Proof. unfold removes. induction paths as [|p paths IH]; intros v; simpl; [done|]. by rewrite entry_remove_host, IH. Qed.

(** The element the entry gives the component and the hash it begins the
    operation with are those of the host's own logged call of the same route:
    both respell and order the element alike, and the rule the host supplies
    (the excluded paths with the request id) leaves out of the hash what the
    host leaves out.  A request is one intent whichever way it is served. *)
Theorem entry_hash_agrees (r : ServingRoute) (ctx : IntentContext) (e : RequestElement) (element : Value) :
  ic_canonicalization ctx = rt_canonicalization r →
  re_value e = match ic_canonicalization ctx with Some form => CanonicalForm.apply form element | None => element end →
  canonicalize (request_hash_rule r) element = re_value e ∧
  entry_hash (Some (request_hash_rule r)) (re_value e) = element_hash ctx e.
Proof.
  intros Ec Ee. unfold request_hash_rule, entry_hash, element_hash, request_element_hash.
  fold (removes (hr_excluded {| hr_excluded := set_insert "request_id" (excluded (default default_canonicalization (rt_canonicalization r)));
     hr_lines := lines (default default_canonicalization (rt_canonicalization r));
     hr_spelling := spelling (default default_canonicalization (rt_canonicalization r)) |}) (re_value e)).
  cbn [hr_excluded]. rewrite removes_insert, canonicalize_host, <- Ec. rewrite Ee. clear Ee.
  destruct (ic_canonicalization ctx) as [form|]; cbn [default].
  - split; [done|]. unfold hashed. by rewrite removes_hashed.
  - split; [done|]. reflexivity.
Qed.

End HashAgrees.

(** ** Every operation the entry begins, it ends *)

(** What the entry asks of the boundary and of the application. *)
Inductive EntryEvent :=
| EvAuthorize (admitted : bool)
| EvFinishRead
| EvBegin (key hash : string) (begun : result EntryBegun Refusal)
| EvCall (input : string)
| EvCommit (text : string)
| EvRollback.

Section Trace.
Context {W C : Type} `{!EntryHost W C}.

(** The host with a log of what it was asked. *)
Definition logged_call {A} (f : W → W * A) (ev : A → EntryEvent) (wl : W * list EntryEvent) : (W * list EntryEvent) * A :=
  let '(w, a) := f wl.1 in ((w, wl.2 ++ [ev a]), a).
#[local] Instance logged_entry : EntryHost (W * list EntryEvent) C := {|
  monotonic_now := λ wl, let '(w, n) := monotonic_now wl.1 in ((w, wl.2), n);
  authorize := λ c id, logged_call (authorize c id) (λ r, EvAuthorize (is_ok r));
  finish_read := logged_call finish_read (λ _, EvFinishRead);
  begin_operation := λ c id key hash, logged_call (begin_operation c id key hash) (λ r, EvBegin key hash r);
  commit := λ text, logged_call (commit text) (λ _, EvCommit text);
  rollback := logged_call rollback (λ _, EvRollback);
  dispatch_is_read := dispatch_is_read;
  dispatch_read := λ id c input wal, logged_call (dispatch_read id c input wal) (λ _, EvCall input);
  dispatch_run := λ id c input, logged_call (dispatch_run id c input) (λ _, EvCall input) |}.

End Trace.

(** The operation a call has open. *)
Inductive Phase := Idle | Reading | ReadDone | Opened | Called.
Definition advance (p : option Phase) (e : EntryEvent) : option Phase :=
  match p, e with
  | Some Idle, EvAuthorize true => Some Reading
  | Some Idle, EvAuthorize false => Some Idle
  | Some Reading, EvCall _ => Some ReadDone
  | Some ReadDone, EvFinishRead => Some Idle
  | Some Idle, EvBegin _ _ (Ok (BegunNew _)) => Some Opened
  | Some Idle, EvBegin _ _ _ => Some Idle
  | Some Opened, EvCall _ => Some Called
  | Some Called, EvCommit _ => Some Idle
  | Some Called, EvRollback => Some Idle
  | _, _ => None
  end.
Definition phase (p : Phase) (evs : list EntryEvent) : option Phase := foldl advance (Some p) evs.

(** The keys begun, with their hashes. *)
Definition begun_of (evs : list EntryEvent) : list (string * string) :=
  omap (λ e, match e with EvBegin key hash _ => Some (key, hash) | _ => None end) evs.

Section Settles.
Context {W C : Type} {hhost : EntryHost W C} {htext : JsonText} {hprint : JsonPrint} {hfloat : FloatText}
  {hsha : Sha256} {hchrono : Chrono} {hpg : PgDebug}.
#[local] Existing Instance logged_entry.
Abbreviation WL := (W * list EntryEvent)%type.

Definition key_and_hash (route : WireRoute) (key_field : string) (element : Value) : option (string * string) :=
  (λ key, (key, entry_hash (wr_request_hash_rule route) element)) <$> (field element key_field ≫= as_str).

Lemma remaining_logged deadline (w : W) l : ∃ w' n, remaining_ms (W := WL) deadline (w, l) = ((w', l), n).
Proof. unfold remaining_ms; simpl. destruct (monotonic_now w) as [w' n]. eauto. Qed.

Lemma call_logged id c input (w : W) l : ∃ w' r, entry_call (W := WL) id c input (w, l) = ((w', l ++ [EvCall input]), r).
Proof.
  unfold entry_call, read_call; simpl. unfold logged_call; simpl. destruct (dispatch_is_read id).
  - destruct (dispatch_read id c input false w) as [w' r]. simpl. eauto.
  - destruct (dispatch_run id c input w) as [w' r]. simpl. eauto.
Qed.

Lemma rolled_back_logged id step (w : W) l : ∃ w' r, rolled_back (W := WL) id step (w, l) = ((w', l ++ [EvRollback]), r).
Proof. unfold rolled_back; simpl. unfold logged_call; simpl. destruct (rollback w) as [w' [?|?]]; eauto. Qed.

Lemma answer_is_object v request_id answer : answer_of v request_id = Some answer → ∃ m, answer = VObject m.
Proof.
  unfold answer_of, at_key. destruct v as [| | | |[|a [|]]|]; try done. intros H. destruct a; try done.
  destruct (is_text _ _); [|done]. injection H as <-. eauto.
Qed.

Lemma settle_new_logged rq id intent delivery deadline whole element request_id (w : W) l :
  ∃ w' evs step, settle_new (W := WL) rq id intent delivery deadline whole element request_id (w, l) = ((w', l ++ evs), step) ∧
    phase Opened evs = Some Idle ∧ begun_of evs = [].
Proof.
  unfold settle_new. destruct (remaining_logged deadline w l) as (w1 & n & ->).
  destruct (call_logged id (context rq delivery n) (print_json (VArray [element])) w1 l) as (w2 & r & ->).
  set (input := print_json (VArray [element])). set (l2 := l ++ [EvCall input]).
  assert (Hroll : ∀ step, ∃ w' evs step', rolled_back (W := WL) id step (w2, l2) = ((w', l ++ evs), step') ∧
    phase Opened evs = Some Idle ∧ begun_of evs = []).
  { intros step. destruct (rolled_back_logged id step w2 l2) as (w3 & s & ->).
    exists w3, [EvCall input; EvRollback], s. unfold l2. by rewrite <- app_assoc. }
  destruct r as [v|e]; [|apply Hroll]. destruct (answer_of v request_id) as [answer|] eqn:Ea; [|apply Hroll].
  destruct (answer_is_object _ _ _ Ea) as [m ->]. destruct (get "value" _) as [value|]; [|apply Hroll].
  simpl. unfold logged_call; simpl. destruct (commit _ w2) as [w3 [?|?]]; simpl; eexists w3, [EvCall input; EvCommit _], _;
    unfold l2; by rewrite <- app_assoc.
Qed.

Lemma settle_element_logged route rq id key_field deadline whole element key request_id (w : W) l :
  field element key_field ≫= as_str = Some key → get "request_id" element ≫= as_str = Some request_id →
  ∃ w' evs step, settle_element (W := WL) route rq id key_field deadline whole element (w, l) = ((w', l ++ evs), Ret step) ∧
    phase Idle evs = Some Idle ∧
    sublist (begun_of evs) [(key, entry_hash (wr_request_hash_rule route) element)].
Proof.
  intros Hkey Hid. unfold settle_element.
  assert (Eid : as_str (at_key "request_id" element) = Some request_id).
  { unfold at_key. destruct (get "request_id" element) as [v|]; [exact Hid|done]. }
  rewrite Eid. cbn [expect run_bind]. destruct (remaining_logged deadline w l) as (w1 & n & ->).
  destruct (n =? 0)%Z.
  { exists w1, [], (Answered (error_answer request_id [("code", VString "timeout"); ("message", VString "not reached before deadline")])).
    rewrite app_nil_r. split; [done|]. split; [done|]. apply sublist_nil_l. }
  rewrite Hkey. cbn [expect]. set (hash := entry_hash (wr_request_hash_rule route) element).
  simpl. unfold logged_call; simpl. destruct (begin_operation (dr_caller rq) id key hash w1) as [w2 begun] eqn:Eb.
  assert (Hplain : ∀ step : ElementStep, (∀ d, begun ≠ Ok (BegunNew d)) → ∃ w' evs step',
    ((w2, l ++ [EvBegin key hash begun]), Ret step) = (((w', l ++ evs) : WL), Ret step') ∧ phase Idle evs = Some Idle ∧
    sublist (begun_of evs) [(key, hash)]).
  { intros step Hnew. exists w2, [EvBegin key hash begun], step. split; [done|]. split; [|done].
    unfold phase. simpl. by destruct begun as [[d|b]|e]; [destruct (Hnew d)|..]. }
  destruct begun as [[d|body]|e]; [|by apply Hplain|by destruct e; apply Hplain].
  destruct (settle_new_logged rq id (entry_intent id key) d deadline whole element request_id w2 (l ++ [EvBegin key hash (Ok (BegunNew d))]))
    as (w3 & evs & step & -> & Hph & Hbegun).
  exists w3, (EvBegin key hash (Ok (BegunNew d)) :: evs), step. rewrite <- app_assoc. split; [done|]. split; [exact Hph|].
  change (sublist ((key, hash) :: begun_of evs) [(key, hash)]). by rewrite Hbegun.
Qed.

Definition element_keys (key_field : string) (elements : list Value) : list string :=
  omap (λ e, field e key_field ≫= as_str) elements.

Lemma check_elements_ok key_field elements : ∀ keys, check_elements key_field keys elements = Ok tt →
  Forall (λ e, is_Some (field e key_field ≫= as_str) ∧ is_Some (get "request_id" e ≫= as_str)) elements ∧
  NoDup (element_keys key_field elements) ∧ (∀ k, k ∈ element_keys key_field elements → k ∉ keys).
Proof.
  induction elements as [|e elements IH]; intros keys.
  - intros _. split; [constructor|]. split; [constructor|]. intros k Hk. by apply not_elem_of_nil in Hk.
  - cbn [check_elements]. unfold check_element. destruct (field e key_field ≫= as_str) as [key|] eqn:Ek; [|done].
    destruct (negb _ || _) eqn:Ec; [done|]. cbn [result_bind]. intros H.
    apply orb_false_iff in Ec as [Hid Hnew]. rewrite negb_false_iff in Hid.
    apply bool_decide_eq_true in Hid. apply bool_decide_eq_false in Hnew.
    destruct (IH _ H) as (Hall & Hnd & Hfresh). unfold element_keys in *. cbn [omap list_omap]. rewrite Ek.
    split; [|split].
    + constructor; [|done]. rewrite Ek. split; [by eexists|done].
    + constructor; [|done]. intros Hin. apply (Hfresh _ Hin). apply elem_of_cons. by left.
    + intros k [->|Hk]%elem_of_cons; [done|]. intros Hin. apply (Hfresh _ Hk). apply elem_of_cons. by right.
Qed.

Lemma phase_app evs evs' p q : phase p evs = Some q → phase p (evs ++ evs') = phase q evs'.
Proof. unfold phase. rewrite foldl_app. by intros ->. Qed.
Lemma begun_app evs evs' : begun_of (evs ++ evs') = begun_of evs ++ begun_of evs'.
Proof. apply omap_app. Qed.

Lemma settle_elements_logged route rq id key_field deadline whole elements : ∀ answers (w : W) l,
  Forall (λ e, is_Some (field e key_field ≫= as_str) ∧ is_Some (get "request_id" e ≫= as_str)) elements →
  ∃ w' evs r, settle_elements (W := WL) route rq id key_field deadline whole elements answers (w, l) = ((w', l ++ evs), Ret r) ∧
    phase Idle evs = Some Idle ∧ sublist (begun_of evs) (omap (key_and_hash route key_field) elements).
Proof.
  induction elements as [|e elements IH]; intros answers w l Hall; cbn [settle_elements].
  { eexists w, [], _. rewrite app_nil_r. split; [done|]. split; [done|]. constructor. }
  apply Forall_cons in Hall as [[[key Hkey] [rid Hid]] Hall].
  destruct (settle_element_logged route rq id key_field deadline whole e key rid w l Hkey Hid) as (w1 & evs & step & -> & Hph & Hsub).
  cbn [omap list_omap]. unfold key_and_hash at 1. rewrite Hkey. cbn [fmap option_fmap option_map].
  destruct step as [text|r].
  - destruct (IH (text :: answers) w1 (l ++ evs) Hall) as (w2 & evs2 & r & -> & Hph2 & Hsub2).
    exists w2, (evs ++ evs2), r. rewrite <- app_assoc. split; [done|]. split; [by rewrite (phase_app _ _ _ _ Hph)|].
    rewrite begun_app. change ((key, entry_hash (wr_request_hash_rule route) e) :: omap (key_and_hash route key_field) elements) with
      ([(key, entry_hash (wr_request_hash_rule route) e)] ++ omap (key_and_hash route key_field) elements).
    by apply sublist_app.
  - exists w1, evs, r. split; [done|]. split; [done|]. etrans; [exact Hsub|].
    apply sublist_skip, sublist_nil_l.
Qed.

Lemma execute_read_logged route rq id deadline input (w : W) l :
  ∃ w' evs r, execute_read (W := WL) route rq id deadline input (w, l) = ((w', l ++ evs), r) ∧
    phase Idle evs = Some Idle ∧ begun_of evs = [].
Proof.
  unfold execute_read. destruct (limit_refusal input CEILING) as [text|].
  { eexists w, [], _. rewrite app_nil_r. done. }
  unfold bounded at 1. simpl. unfold logged_call at 1; simpl.
  destruct (authorize (dr_caller rq) id w) as [w1 [[]|e]]; simpl; [|by eexists w1, [EvAuthorize false], _].
  destruct (remaining_logged deadline w1 (l ++ [EvAuthorize true])) as (w2 & n & ->).
  set (want := wants_list_etag route && negb (is_feed_read input)).
  assert (Hcall : ∃ w3 r, read_call (W := WL) id (context rq "" n) (print_json input) want (w2, l ++ [EvAuthorize true]) =
    ((w3, l ++ [EvAuthorize true; EvCall (print_json input)]), r)).
  { unfold read_call; simpl. unfold logged_call; simpl. destruct (dispatch_is_read id).
    - destruct (dispatch_read _ _ _ _ w2) as [w3 r]; simpl. rewrite <- app_assoc. eauto.
    - destruct (dispatch_run _ _ _ w2) as [w3 r]; simpl. rewrite <- app_assoc. eauto. }
  destruct Hcall as (w3 & r & ->). unfold bounded; simpl. unfold logged_call; simpl.
  destruct r as [[answer position]|e]; destruct (finish_read w3) as [w4 [?|?]]; simpl;
    eexists w4, [EvAuthorize true; EvCall (print_json input); EvFinishRead], _; by rewrite <- app_assoc.
Qed.

Lemma sublist_keys (l1 l2 : list (string * string)) : sublist l1 l2 → sublist (l1.*1) (l2.*1).
Proof. induction 1; simpl; by constructor. Qed.

Lemma execute_logged_ok route rq (w : W) :
  ∃ w' evs r, execute (W := WL) route rq (w, []) = ((w', evs), Ret r) ∧ phase Idle evs = Some Idle ∧
    match wr_idempotency_rule route, parse_json (dr_payload rq) with
    | Some key_field, Some (VArray sent) =>
        let elements := (λ e, match wr_request_hash_rule route with Some rule => canonicalize rule e | None => e end) <$> sent in
        sublist (begun_of evs) (omap (key_and_hash route key_field) elements) ∧ NoDup (begun_of evs).*1
    | _, _ => begun_of evs = []
    end.
Proof.
  unfold execute; simpl. destruct (monotonic_now w) as [w1 now].
  assert (Hnone : ∀ r : result DeliveryOutcome DeliveryError * option string, ∃ w' evs r',
    ((w1, []), Ret r) = (((w', evs) : WL), Ret r') ∧ phase Idle evs = Some Idle ∧
    match wr_idempotency_rule route, parse_json (dr_payload rq) with
    | Some key_field, Some (VArray sent) =>
        let elements := (λ e, match wr_request_hash_rule route with Some rule => canonicalize rule e | None => e end) <$> sent in
        sublist (begun_of evs) (omap (key_and_hash route key_field) elements) ∧ NoDup (begun_of evs).*1
    | _, _ => begun_of evs = []
    end).
  { intros r. exists w1, [], r. split; [done|]. split; [done|].
    destruct (wr_idempotency_rule route), (parse_json (dr_payload rq)) as [[]|]; try done.
    split; [apply sublist_nil_l|constructor]. }
  destruct (wr_sealed_operation_id route) as [id|]; [|apply Hnone].
  destruct (parse_json (dr_payload rq)) as [input|]; [|apply Hnone].
  destruct (wr_idempotency_rule route) as [key_field|].
  - unfold execute_logged. destruct input as [| | | |sent|]; try apply (Hnone (_, None)). clear Hnone. cbn zeta.
    set (elements := _ <$> sent). destruct (check_elements key_field [] elements) as [[]|outcome] eqn:Ec.
    + destruct (check_elements_ok _ _ _ Ec) as (Hall & Hnd & _).
      destruct (settle_elements_logged route rq id key_field (deadline_of now (wr_operation_deadline_ms route))
        (length elements) elements [] w1 [] Hall) as (w2 & evs & r & -> & Hph & Hsub).
      eexists w2, evs, _. split; [done|]. split; [done|]. split; [done|].
      eapply sublist_NoDup; [|exact (sublist_keys _ _ Hsub)].
      replace ((omap (key_and_hash route key_field) elements).*1) with (element_keys key_field elements); [done|].
      clear. unfold element_keys, key_and_hash. induction elements as [|e es IH]; [done|]. cbn [omap list_omap].
      destruct (field e key_field ≫= as_str); cbn [fmap option_fmap option_map list_fmap fst]; [by f_equal|done].
    + eexists w1, [], _. split; [done|]. split; [done|]. split; [apply sublist_nil_l|constructor].
  - destruct (execute_read_logged route rq id (deadline_of now (wr_operation_deadline_ms route)) input w1 [])
      as (w2 & evs & r & -> & Hph & Hb). by exists w2, evs, r.
Qed.

(** C24. Whatever the application, the boundary and the clock answer, the entry
    returns without a panic and leaves no operation open: it begins an
    operation only when none is open, calls the application once within it, and
    ends it by one commit or one rollback before it does anything else; a read
    it is admitted to is called once and finished.  A read begins nothing; of a
    logged call the keys begun are those of its elements, in their order, each
    with the hash of its element and no key twice. *)
Theorem entry_settles (route : WireRoute) (rq : DeliveryRequest C) (w : W) :
  ∃ w' evs r, execute (W := W * list EntryEvent) route rq (w, []) = ((w', evs), Ret r) ∧ phase Idle evs = Some Idle ∧
    match wr_idempotency_rule route, parse_json (dr_payload rq) with
    | Some key_field, Some (VArray sent) =>
        let elements := (λ e, match wr_request_hash_rule route with Some rule => canonicalize rule e | None => e end) <$> sent in
        sublist (begun_of evs) (omap (key_and_hash route key_field) elements) ∧ NoDup (begun_of evs).*1
    | _, _ => begun_of evs = []
    end.
Proof. apply execute_logged_ok. Qed.

End Settles.

(** ** A sample *)

Module EntrySample.

#[local] Instance any_sha : Sha256 := λ s, String.list_ascii_of_string (String.substring 0 3 s).
#[local] Instance any_float : FloatText := λ _, "0".
#[local] Instance any_chrono : Chrono := {| instant := unit; parse_rfc3339 := λ _, None; format_timestamptz := λ _, "" |}.
#[local] Instance any_debug : PgDebug := λ _, "".

(** A text that stands for two elements, and the answer of each. *)
Definition move (key : string) : Value := VObject [("key", VString key); ("qty", VString "01.50"); ("request_id", VString key)].
#[local] Instance two_texts : JsonText := λ s,
  if String.eqb s "both" then Some (VArray [move "a"; move "b"])
  else if String.eqb s "answer-a" then Some (VArray [VObject [("request_id", VString "a"); ("value", VNull)]])
  else Some (VArray [VObject [("error", VNull); ("request_id", VString "b")]]).
#[local] Instance braces : JsonPrint := λ v,
  match v with
  | VArray [VObject (("key", VString k) :: _)] => "call-" +:+ k
  | VObject _ => "{x}"
  | VString s => s
  | _ => "null"
  end.

(** The state is the number of calls so far. *)
#[local] Instance two_answers : EntryHost nat unit := {|
  monotonic_now := λ n, (n, 0%Z);
  authorize := λ _ _ n, (n, Ok tt);
  finish_read := λ n, (n, Ok tt);
  begin_operation := λ _ _ key _ n, (n, Ok (BegunNew key));
  commit := λ _ n, (n, Ok tt);
  rollback := λ n, (n, Ok tt);
  dispatch_is_read := λ _, false;
  dispatch_read := λ _ _ _ _ n, (n, Err WCancelled);
  dispatch_run := λ _ _ input n, (S n, Ok (if String.eqb input "call-a" then "answer-a" else "answer-b")) |}.

Definition move_route_record : ServingRoute := {|
  rt_package_id := "stock"; rt_component := "move"; rt_operation := "stock:move/post@1.0.0"; rt_type := Command;
  rt_reads := []; rt_revision := None; rt_idempotency := Some "key";
  rt_canonicalization := Some {| excluded := ["note"]; lines := None; spelling := [("qty", Numeric)] |} |}.
Definition move_wire : WireRoute := {|
  wr_attachment_id := "move"; wr_host := ""; wr_path := "/move"; wr_method := "POST"; wr_mappings := [];
  wr_body_limit := 1; wr_mapped_limit := 1; wr_cache_control := None;
  wr_sealed_operation_id := Some "stock:move/post@1.0.0"; wr_idempotency_rule := Some "key";
  wr_request_hash_rule := Some (request_hash_rule move_route_record);
  wr_etag_inputs := None; wr_operation_deadline_ms := 1000; wr_read_limits := None |}.
Definition move_request : DeliveryRequest unit := {|
  dr_attachment_id := "move"; dr_delivery_id := ""; dr_payload := "both"; dr_caller := Some tt; dr_trace := None;
  dr_if_none_match := None |}.

(** One element commits, the other rolls back, and both are answered. *)
Example both_settle :
  let '((calls, evs), r) := execute (EntryHost0 := logged_entry) move_wire move_request (0%nat, []) in
  calls = 2%nat ∧ (λ e, match e with EvBegin k _ _ => k | EvCall t => t | EvCommit _ => "commit" | EvRollback => "rollback" | _ => "" end)
    <$> evs = ["a"; "call-a"; "commit"; "b"; "call-b"; "rollback"] ∧ is_ok (match r with Ret r => r.1 | Panic _ => Err DExecutionFailed end) = true.
Proof. vm_compute. done. Qed.

Definition move_context : IntentContext := {|
  ic_tenant := "t"; ic_release := "r"; ic_package := "stock"; ic_kind := Command; ic_key_field := Some "key";
  ic_canonicalization := rt_canonicalization move_route_record |}.

Lemma entry_hash_agrees_witness :
  canonicalize (request_hash_rule move_route_record) (move "a") =
    VObject [("key", VString "a"); ("qty", VString "1.50"); ("request_id", VString "a")] ∧
  entry_hash (Some (request_hash_rule move_route_record)) (canonicalize (request_hash_rule move_route_record) (move "a")) =
    element_hash move_context {| re_request_id := "a"; re_key := "a";
      re_value := canonicalize (request_hash_rule move_route_record) (move "a") |}.
Proof.
  split; [vm_compute; reflexivity|].
  apply (entry_hash_agrees move_route_record move_context {| re_request_id := "a"; re_key := "a";
      re_value := canonicalize (request_hash_rule move_route_record) (move "a") |} (move "a")).
  - reflexivity.
  - vm_compute. reflexivity.
Defined.

End EntrySample.
