(* ===== verification/HttpHost.v ===== *)
(** * A request through the guest and its host

    [apps/platform/ingress/http-route/src/guest.rs]: the backend of the adapter
    over the routing plugin of [RouteHost], the entry of [GuestEntry] for the
    routes of the composed application, and the router delivery of the host for
    the others.  The conversions between the wire types and the adapter's keep
    every field.  The router delivery and the random bytes are the class
    [GuestImports]; the WASI request and response streams are left out. *)

From stdpp Require Import base tactics option list gmap strings.
From Stdlib Require Import ZArith Lia.
From S2P Require Import Prelude Text Json Canonical HttpText CanonicalForm Authority ComponentFacts ServingManifests EventBatch.
From S2P Require Import RouteLimiter HttpAdapter RouteSupply RouteAuthentication RouteHost GuestEntry.
#[local] Set Warnings "-clear-no-such-hyp".
Open Scope wamn_scope.

(** ** The guest *)

Record GuestBackend := {
  gb_routes : gmap string WireRoute;
  gb_base_route : bool;
}.
Record HttpState (W : Type) := { hs_guest : GuestBackend; hs_host : Routing W }.
Arguments hs_guest {W}. Arguments hs_host {W}.

(** The imports of the guest beside routing and the composed application. *)
Class GuestImports (W : Type) := {
  router_deliver : DeliveryRequest AuthenticatedCaller → W → W * DeliveryReport;
  random_bytes : nat → W → W * list Ascii.ascii;
}.

(** [usize::try_from] on a 32-bit target. *)
Definition usize_of (z : Z) : option Z := in_range 0 usize_max z.

Definition guest_route (r : WireRoute) : option RouteCandidate :=
  body_limit ← usize_of (wr_body_limit r);
  mapped_limit ← usize_of (wr_mapped_limit r);
  Some {| rt_attachment_id := wr_attachment_id r; rt_host := wr_host r; rt_path := wr_path r; rt_method := wr_method r;
          rt_mappings := wr_mappings r; rt_body_limit := body_limit; rt_mapped_limit := mapped_limit;
          rt_cache_control := wr_cache_control r |}.

(** *** The request and the response on the wire *)

Inductive WasiMethod :=
| MGet | MHead | MPost | MPut | MDelete | MConnect | MOptions | MTrace | MPatch | MOther (method : string).
Definition method_text (m : WasiMethod) : string :=
  match m with
  | MGet => "GET" | MHead => "HEAD" | MPost => "POST" | MPut => "PUT" | MDelete => "DELETE" | MConnect => "CONNECT"
  | MOptions => "OPTIONS" | MTrace => "TRACE" | MPatch => "PATCH" | MOther method => method
  end.
(** A request as the host hands it over; a header value is any bytes. *)
Record WasiRequest := {
  wq_method : WasiMethod;
  wq_authority : option string;
  wq_path_with_query : option string;
  wq_headers : list (string * string);
}.

Definition request_head (rq : WasiRequest) : RequestHead :=
  let headers := omap (λ h : string * string, (λ v, {| hd_name := h.1; hd_value := v |}) <$> from_utf8 h.2) (wq_headers rq) in
  {| rq_method := method_text (wq_method rq);
     rq_authority := match wq_authority rq with
                     | Some authority => authority
                     | None => default "" (hd_value <$> List.find (λ h, eq_ignore_ascii_case (hd_name h) "host") headers)
                     end;
     rq_target := default "/" (wq_path_with_query rq);
     rq_headers := headers |}.

(** The headers [send_response] sets, given the text of the adjustments. *)
Definition sent_headers (adjustments_text : list DeadlineAdjustment → string) (r : HttpResponse) : list (string * string) :=
  cache_headers r ++
  (match hr_deadline_adjustments r with [] => [] | adjustments => [("wamn-deadline-adjustments", adjustments_text adjustments)] end) ++
  (if String.eqb (hr_body r) "" then [] else [("content-type", hr_content_type r)]).

(** The map of the routes by attachment; a later one replaces an earlier. *)
Definition collect_routes (routes : list WireRoute) : gmap string WireRoute :=
  foldl (λ m r, <[wr_attachment_id r := r]> m) ∅ routes.

Definition is_sealed (r : WireRoute) : bool := bool_decide (is_Some (wr_sealed_operation_id r)).

Section Guest.
Context {W : Type} `{!GuestImports W, !EntryHost W AuthenticatedCaller, !Boon, !BoonErrors, !FloatText, !Sha256,
  !JsonText, !JsonPrint, !Chrono, !PgDebug}.
Context (fr : FlowHttpRouting W) (workload_id : string).
Abbreviation state := (HttpState W).

Definition with_guest (g : GuestBackend) (s : state) : state := {| hs_guest := g; hs_host := hs_host s |}.
Definition with_host (h : Routing W) (s : state) : state := {| hs_guest := hs_guest s; hs_host := h |}.
Definition on_world {A} (m : W → W * A) (s : state) : state * A :=
  let '(w, a) := m (ro_world (hs_host s)) in (with_host (with_world w (hs_host s)) s, a).

Definition guest_routes (method authority : string) (s : state) : state * option (list RouteCandidate) :=
  match host_routes fr workload_id method authority (hs_host s) with
  | Err _ => (s, None)
  | Ok found =>
      (with_guest {| gb_routes := collect_routes found; gb_base_route := gb_base_route (hs_guest s) |} s,
       mapM guest_route found)
  end.

Definition guest_authenticate (id : string) (headers : list Header) (body : string) (s : state) :
    state * result (option AuthenticatedCaller) AuthRejection :=
  let g := hs_guest s in
  let base := match gb_routes g !! id with Some r => is_sealed r | None => false end in
  on_world (host_authenticate fr id headers body) (with_guest {| gb_routes := gb_routes g; gb_base_route := base |} s).

(** [self.routes[attachment_id]] panics for an absent route. *)
Definition guest_validate_input (id payload : string) (g : GuestBackend) : run (result unit SchemaInvalid) :=
  if gb_base_route g then
    let! route := expect (gb_routes g !! id) "an absent route" in Ret (validate_read_limits route payload)
  else Ret match host_validate_input fr id payload with Ok _ => Ok tt | Err e => Err (from_refusal e) end.

Definition guest_try_acquire (id : string) (s : state) : state * option (option RouteLimiter.RoutePermit) :=
  let '(h, acquired) := host_try_acquire fr id (hs_host s) in
  (with_host h s, match acquired with Ok permit => Some permit | Err _ => None end).

Definition guest_new_delivery_id (s : state) : state * string :=
  if gb_base_route (hs_guest s) then (s, "")
  else let '(s, bytes) := on_world (random_bytes 16) s in (s, hex_text bytes).

Definition guest_deliver (rq : DeliveryRequest AuthenticatedCaller) (s : state) : state * run DeliveryReport :=
  match gb_routes (hs_guest s) !! dr_attachment_id rq with
  | Some route =>
      if is_sealed route then on_world (entry_deliver route rq) s
      else let '(s, report) := on_world (router_deliver rq) s in (s, Ret report)
  | None => let '(s, report) := on_world (router_deliver rq) s in (s, Ret report)
  end.

(** The drop of a permit. *)
Definition guest_release (p : RouteLimiter.RoutePermit) (s : state) : run state :=
  let! l := drop_permit (ro_limiter (hs_host s)) p in Ret (with_host (with_limiter l (hs_host s)) s).

(** The backend the adapter sees.  The three calls that can panic do not, in a
    request ([guest_validates], [entry_returns], [guest_releases]); their panic
    is answered here by a refusal. *)
#[local] Instance guest_backend : Backend state := {|
  RoutePermit := RouteLimiter.RoutePermit;
  Caller := AuthenticatedCaller;
  routes := guest_routes;
  authenticate := guest_authenticate;
  validate_input := λ id payload s,
    (s, match guest_validate_input id payload (hs_guest s) with Ret r => r | Panic _ => Err (from_refusal "") end);
  try_acquire_route := guest_try_acquire;
  new_delivery_id := guest_new_delivery_id;
  deliver := λ rq s, let '(s, report) := guest_deliver rq s in
    (s, match report with
        | Ret report => report
        | Panic _ => {| rp_outcome := Err DExecutionFailed; rp_deadline_adjustments := []; rp_etag := None |}
        end);
  release_permit := λ p s, match guest_release p s with Ret s => s | Panic _ => s end;
|}.

(** [Guest::handle]: a fresh guest for each request. *)
Definition guest_handle (rq : WasiRequest) (body : list chunk) (h : Routing W) : state * run HttpResponse :=
  handle_request body (request_head rq) default_limits
    {| hs_guest := {| gb_routes := ∅; gb_base_route := false |}; hs_host := h |}.

End Guest.

(** ** The routes the host supplies fit the guest *)

Lemma body_limit_fits definition limit : body_limit definition = Some limit → (0 ≤ limit ≤ u32_max)%Z.
Proof.
  unfold body_limit, u32_of, in_range, ADAPTER_GOVERNED_BYTES. destruct (get "raw-body-bytes" definition) as [raw|].
  - destruct (get "maximum" raw ≫= as_u64) as [n|]; [|done]. cbn. destruct (0 <=? n)%Z eqn:E1, (n <=? u32_max)%Z eqn:E2; try done.
    intros [= <-]. lia.
  - intros [= <-]. unfold u32_max. lia.
Qed.

Lemma route_definition_spec m id a digest wire : route_definition m id a digest = Some wire →
  wr_attachment_id wire = id ∧ (0 ≤ wr_body_limit wire ≤ u32_max)%Z ∧ wr_mapped_limit wire = u32_max.
Proof.
  unfold route_definition. destruct (get "route" (served_definition a)) as [route|]; [|done]. cbn -[body_limit u32_max].
  destruct (body_limit (served_definition a)) as [limit|] eqn:El; [|done]. cbn -[u32_max].
  destruct (match get "mappings" (served_definition a) with Some _ => _ | None => _ end) as [mappings|]; [|done]. cbn -[u32_max].
  destruct (get "path" route ≫= as_str); [|done]. destruct (get "method" route ≫= as_str); [|done]. cbn -[u32_max].
  intros [= <-]. cbn -[u32_max]. split; [done|]. split; [by eapply body_limit_fits|done].
Qed.

Lemma supplied_spec m method digest wire : wire ∈ route_definitions m method digest →
  ∃ a, (wr_attachment_id wire, a) ∈ every_served_attachment m ∧ carries_http_route (attachment_type a) = true ∧
    route_definition m (wr_attachment_id wire) a digest = Some wire ∧ matches_request wire method = true.
Proof.
  unfold route_definitions, http_attachments. intros [Hm Hin]%list_elem_of_filter.
  apply list_elem_of_omap in Hin as ([id a] & Ha & Hd). apply list_elem_of_filter in Ha as [Hc Ha].
  destruct (route_definition_spec _ _ _ _ _ Hd) as (<- & _ & _). by exists a.
Qed.

Lemma supplied_fit m method digest wire : wire ∈ route_definitions m method digest →
  ∃ r, guest_route wire = Some r ∧ rt_attachment_id r = wr_attachment_id wire.
Proof.
  intros (a & _ & _ & Hd & _)%supplied_spec. destruct (route_definition_spec _ _ _ _ _ Hd) as (_ & Hb & Hm).
  unfold guest_route, usize_of, in_range, usize_max. rewrite Hm. replace (0 <=? wr_body_limit wire)%Z with true by lia.
  replace (wr_body_limit wire <=? u32_max)%Z with true by lia. cbn -[u32_max]. by eexists.
Qed.

Lemma collect_routes_spec routes id wire : collect_routes routes !! id = Some wire → wire ∈ routes ∧ wr_attachment_id wire = id.
Proof.
  unfold collect_routes. assert (Hgen : ∀ l (m : gmap string WireRoute), foldl (λ m r, <[wr_attachment_id r := r]> m) m l !! id = Some wire →
    (wire ∈ l ∧ wr_attachment_id wire = id) ∨ m !! id = Some wire).
  { induction l as [|r l IH]; intros m; simpl; [by right|]. intros [[? ?]|H]%IH; [left; by split; [right|]|].
    destruct (decide (wr_attachment_id r = id)) as [<-|Hne].
    - rewrite lookup_insert_eq in H. injection H as <-. left. split; [left|done].
    - rewrite lookup_insert_ne in H by done. by right. }
  intros [?|H]%Hgen; [done|]. by rewrite lookup_empty in H.
Qed.

Lemma converted_in (supplied : list WireRoute) (found : list RouteCandidate) r : mapM guest_route supplied = Some found → r ∈ found →
  ∃ wire, wire ∈ supplied ∧ guest_route wire = Some r.
Proof.
  intros H%mapM_Some Hin. induction H as [|wire r' supplied found Hw Hall IH]; [by apply not_elem_of_nil in Hin|].
  apply elem_of_cons in Hin as [->|Hin]; [exists wire; split; [left|done]|].
  destruct (IH Hin) as (wire' & ? & ?). exists wire'. split; [by right|done].
Qed.

Lemma select_route_in found method path matched : select_route found method path = Ok matched → mr_definition matched ∈ found.
Proof.
  unfold select_route. destruct (stable_sort _ _) as [|[score m] l] eqn:E; [done|]. intros [= <-].
  assert (Hin : (score, m) ∈ stable_sort candidate_order (omap (route_candidate method path) found)) by (rewrite E; left).
  rewrite elem_of_stable_sort, list_elem_of_omap in Hin. destruct Hin as (r & Hr & Hc).
  unfold route_candidate in Hc. case_match; [|done]. destruct (match_path (rt_path r) path) as [[? ?]|]; [|done].
  cbn in Hc. by injection Hc as <- <-.
Qed.

Section Served.
Context {W : Type} {himports : GuestImports W} {hentry : EntryHost W AuthenticatedCaller} {hboon : Boon} {herr : BoonErrors}
  {hfloat : FloatText} {hsha : Sha256} {htext : JsonText} {hprint : JsonPrint} {hchrono : Chrono} {hpg : PgDebug}.
Context (fr : FlowHttpRouting W) (workload_id : string).
Abbreviation B := (guest_backend fr workload_id).

(** ** What the calls of a request do to the limiter *)

Abbreviation limiter s := (ro_limiter (hs_host s)).

Lemma on_world_host {A} (m : W → W * A) (s s' : HttpState W) a : on_world m s = (s', a) →
  limiter s' = limiter s ∧ ro_route_hosts (hs_host s') = ro_route_hosts (hs_host s) ∧ hs_guest s' = hs_guest s.
Proof. unfold on_world. destruct (m _) as [w x]. by intros [= <- _]. Qed.

Lemma deliver_limiter rq (s s' : HttpState W) report : guest_deliver rq s = (s', report) → limiter s' = limiter s.
Proof.
  unfold guest_deliver. destruct (gb_routes _ !! _) as [route|]; [destruct (is_sealed route)|].
  - intros H. by destruct (on_world_host _ _ _ _ H).
  - destruct (on_world (router_deliver rq) s) as [s1 r] eqn:E. intros [= <- _]. by destruct (on_world_host _ _ _ _ E).
  - destruct (on_world (router_deliver rq) s) as [s1 r] eqn:E. intros [= <- _]. by destruct (on_world_host _ _ _ _ E).
Qed.

Lemma made_limiter c s s' : made B c s s' →
  match c with
  | CallAcquire id answer => guest_try_acquire fr id s = (s', answer)
  | CallRelease p => (match guest_release p s with Ret s => s | Panic _ => s end) = s'
  | _ => limiter s' = limiter s
  end.
Proof.
  destruct c; cbn.
  - unfold guest_routes. destruct (host_routes _ _ _ _ _); by intros [= <- _].
  - unfold guest_authenticate. intros H. by destruct (on_world_host _ _ _ _ H) as [-> _].
  - by intros [= <- _].
  - done.
  - unfold guest_new_delivery_id. destruct (gb_base_route _); [by intros [= <- _]|].
    destruct (on_world (random_bytes 16) s) as [s1 r] eqn:E. intros [= <- _]. by destruct (on_world_host _ _ _ _ E).
  - destruct (guest_deliver request s) as [s1 r] eqn:E. intros [= <- _]. by eapply deliver_limiter.
  - done.
Qed.

Context (limit : Z) (Hlimit : (0 < limit ≤ u64_max)%Z).

Lemma acquire_limiter id s s' answer held : lm_limit (limiter s) = limit → limiter_ok (limiter s) held →
  guest_try_acquire fr id s = (s', answer) →
  lm_limit (limiter s') = limit ∧ lm_scope (limiter s') = lm_scope (limiter s) ∧
  match answer with
  | Some (Some p) => p = {| pm_route := id |} ∧ limiter_ok (limiter s') (p :: held) ∧
      (occupied (lm_scope (limiter s)) held id < limit)%Z
  | _ => limiter_ok (limiter s') held
  end.
Proof using Hlimit.
  intros El Hok. unfold guest_try_acquire, host_try_acquire. destruct (carries_route fr id) as [[|]|]; [|by intros [= <- <-]..].
  destruct (Z.lt_ge_cases (occupied (lm_scope (limiter s)) held id) limit) as [Hlt|Hge].
  - destruct (acquire_grants limit Hlimit _ _ _ El Hok Hlt) as (l' & -> & ? & ? & ?). by intros [= <- <-].
  - destruct (acquire_sheds limit Hlimit _ _ _ El Hok Hge) as (l' & -> & ? & ? & ? & _). by intros [= <- <-].
Qed.

Lemma unacquired_limiter log : ∀ s s' held, lm_limit (limiter s) = limit → limiter_ok (limiter s) held →
  calls_made B log s s' → (∀ id p, CallAcquire id (Some (Some p)) ∉ log) → (∀ p, CallRelease p ∉ log) →
  limiter_ok (limiter s') held.
Proof using Hlimit.
  induction log as [|c log IH]; intros s s' held El Hok; cbn [calls_made]; [by intros <-|].
  intros (s1 & Hc & Hlog) Ha Hr. apply made_limiter in Hc.
  assert (Hs1 : lm_limit (limiter s1) = limit ∧ limiter_ok (limiter s1) held).
  { destruct c; try (rewrite Hc; by split).
    - destruct (acquire_limiter _ _ _ _ _ El Hok Hc) as (? & _ & Hans). split; [done|].
      destruct answer as [[p|]|]; [|done..]. destruct (Ha id p). left.
    - destruct (Hr permit). left. }
  destruct Hs1 as [El1 Hok1]. eapply IH; [exact El1|exact Hok1|exact Hlog|..]; intros; intros Hin; [eapply Ha|eapply Hr]; right; exact Hin.
Qed.

(** The drop of the permit just granted never panics. *)
Lemma guest_releases p (s : HttpState W) held : lm_limit (limiter s) = limit → limiter_ok (limiter s) (p :: held) →
  ∃ s', guest_release p s = Ret s' ∧ limiter_ok (limiter s') held.
Proof using Hlimit.
  intros El Hok. destruct (drop_releases limit Hlimit _ [] p held El Hok) as (l' & E & _ & _ & Hok').
  unfold guest_release. rewrite E. by eexists.
Qed.

(** ** What the host admits *)

(** The request the authenticator sees. *)
Definition authentication_request (release : LoadedRelease) (id : string) (a : ServedAttachment) (policy : AttachmentAuthPolicy)
    (headers : list Header) (body : string) : AuthenticationRequest := {|
  aq_manifest := lr_manifest release;
  aq_scope := {| rs_env_key := lr_env_key release; rs_environment := lr_environment release |};
  aq_attachment_id := id; aq_attachment := a; aq_policy := policy; aq_headers := headers; aq_body := body |}.

Lemma host_admits id headers body (w w' : W) caller : host_authenticate fr id headers body w = (w', Ok caller) →
  ∃ release a policy, fr_release fr = Some release ∧ served_attachment (lr_manifest release) id = Some a ∧
    carries_http_route (attachment_type a) = true ∧ parse_attachment_auth_policy (served_auth_policy a) = Some policy ∧
    (∀ inactive, fr_environment fr = Some inactive → ∃ w1 w2, inactive (lr_env_key release) w1 = (w2, Some false)) ∧
    ((policy = PolicyNone ∧ caller = None) ∨
     (policy ≠ PolicyNone ∧ ∃ authenticator w1 w2, fr_authenticator fr = Some authenticator ∧
        authenticator (authentication_request release id a policy headers body) w1 = (w2, Ok caller))).
Proof.
  unfold host_authenticate. destruct (fr_release fr) as [release|]; [|done]. intros E. auth_run.
  match goal with F : environment_gate _ _ _ = _ |- _ => rename F into Henv end.
  assert (Hactive : ∀ inactive, fr_environment fr = Some inactive → ∃ w1 w2, inactive (lr_env_key release) w1 = (w2, Some false)).
  { intros inactive Hi. unfold environment_gate in Henv. rewrite Hi in Henv.
    destruct (inactive (lr_env_key release) w) as [w1 [[|]|]] eqn:Ei; [done| |done]. eauto. }
  clear Henv. unfold authenticate_attachment in E.
  destruct (served_attachment (lr_manifest release) id) as [a|] eqn:Ea; [|done].
  destruct (carries_http_route (attachment_type a)) eqn:Ec; [simpl in E|done].
  destruct (parse_attachment_auth_policy (served_auth_policy a)) as [policy|] eqn:Ep; [|done].
  exists release, a, policy. do 5 (split; [done|]).
  destruct policy; [left; by injection E as _ <-|right; split; [done|]..].
  all: destruct (fr_authenticator fr) as [authenticator|]; [|done]; by eexists _, _, _.
Qed.

Lemma host_rejects id headers body (w w' : W) e :
  (∀ authenticator rq, fr_authenticator fr = Some authenticator → refuses (authenticator rq)) →
  host_authenticate fr id headers body w = (w', Err e) → refusal e.
Proof.
  intros Hr. destruct unauthorized_refuses as (Hu & Hs & Ha). unfold host_authenticate.
  destruct (fr_release fr) as [release|]; [|by intros [= _ <-]]. apply refuses_bind.
  - intros w1 w2 e'. unfold environment_gate. destruct (fr_environment fr) as [inactive|]; [|done].
    destruct (inactive _ w1) as [w3 [[|]|]]; [|done|by intros [= _ <-]]. intros [= _ <-]. by unfold refusal.
  - intros _. unfold authenticate_attachment. destruct (served_attachment _ id) as [a|]; [|by refuse].
    destruct (negb _); [by refuse|]. destruct (parse_attachment_auth_policy _) as [policy|].
    + destruct policy; [by refuse|..]; destruct (fr_authenticator fr) as [au|] eqn:Eau; (by apply Hr) || by refuse.
    + intros w1 w2 e' [= _ <-]. by unfold refusal.
Qed.

(** The entry never panics. *)
Lemma entry_returns route rq (w : W) : ∃ w' report, entry_deliver route rq w = (w', Ret report).
Proof.
  unfold entry_deliver, execute. destruct (monotonic_now w) as [w1 now].
  destruct (wr_sealed_operation_id route) as [id|]; [|by eexists _, _]. destruct (parse_json _) as [input|]; [|by eexists _, _].
  destruct (wr_idempotency_rule route) as [key_field|].
  2: { destruct (execute_read _ _ _ _ _ w1) as [w2 r]. by eexists _, _. }
  unfold execute_logged. destruct input as [| | | |sent|]; try by eexists _, _.
  set (elements := _ <$> sent). destruct (check_elements key_field [] elements) as [[]|] eqn:Ec; [|by eexists _, _].
  destruct (check_elements_ok _ _ _ Ec) as (Hall & _ & _). clear Ec. generalize (length elements) at 1. intros whole.
  generalize (@nil string) at 1. revert w1. induction elements as [|e elements IH]; intros w1 answers; cbn [settle_elements].
  { by eexists _, _. }
  apply Forall_cons in Hall as [[[key Hk] [rid Hid]] Hall].
  assert (Hret : ∃ w2 step, settle_element route rq id key_field (deadline_of now (wr_operation_deadline_ms route)) whole e w1 = (w2, Ret step)).
  { unfold settle_element. assert (Eid : as_str (at_key "request_id" e) = Some rid).
    { unfold at_key. destruct (get "request_id" e) as [v|]; [exact Hid|done]. }
    rewrite Eid. cbn [expect run_bind]. destruct (remaining_ms _ w1) as [w2 n]. destruct (n =? 0)%Z; [by eexists _, _|].
    rewrite Hk. cbn [expect]. destruct (begin_operation _ _ _ _ w2) as [w3 begun].
    match goal with |- context [let '(w, step) := ?m in (w, Ret step)] => destruct m as [w4 step] end. by eexists _, _. }
  destruct Hret as (w2 & step & ->). destruct step as [text|r]; [by apply IH|by eexists _, _].
Qed.

(** The input the host accepted: the limits of a sealed route, or the schema of
    the attachment. *)
Definition input_accepted (supplied : list WireRoute) (id payload : string) : Prop :=
  match collect_routes supplied !! id with
  | Some wire => if is_sealed wire then validate_read_limits wire payload = Ok tt else host_validate_input fr id payload = Ok tt
  | None => host_validate_input fr id payload = Ok tt
  end.

(** The route the authentication marked is there to validate. *)
Lemma guest_validates id headers body payload (s s' : HttpState W) answer :
  guest_authenticate fr id headers body s = (s', answer) →
  ∃ r, guest_validate_input fr id payload (hs_guest s') = Ret r ∧
    (r = Ok tt → match gb_routes (hs_guest s) !! id with
                 | Some wire => if is_sealed wire then validate_read_limits wire payload = Ok tt
                                else host_validate_input fr id payload = Ok tt
                 | None => host_validate_input fr id payload = Ok tt
                 end).
Proof.
  unfold guest_authenticate. intros H. destruct (on_world_host _ _ _ _ H) as (_ & _ & ->). cbn [hs_guest with_guest].
  unfold guest_validate_input. cbn [gb_routes gb_base_route].
  destruct (gb_routes (hs_guest s) !! id) as [wire|] eqn:Ew; [destruct (is_sealed wire) eqn:Es|].
  - eexists. by split.
  - eexists. split; [done|]. by destruct (host_validate_input fr id payload) as [[]|].
  - eexists. split; [done|]. by destruct (host_validate_input fr id payload) as [[]|].
Qed.

(** What a delivered request rests on: of the request's own line, headers and body. *)
Record request_guarded (body : list chunk) (head : RequestHead) (limits : AdapterLimits) (s : HttpState W)
    (request : DeliveryRequest AuthenticatedCaller)
    (admits : AuthenticationRequest → option AuthenticatedCaller → Prop) : Prop := {
  rg_guard : ∃ release method authority path query wire matched a policy raw mapped,
    fr_release fr = Some release ∧
    request_line head limits = Ok (method, authority, path, query) ∧
    (* the workload serves the host of the request *)
    normalize_authority (rq_authority head) = Some authority ∧
    ro_route_hosts (hs_host s) !! workload_id = Some (authority_host authority) ∧
    (* an attachment the release serves over HTTP, the one the method and the path select *)
    wire ∈ route_definitions (lr_manifest release) method (lr_digest release) ∧
    wr_attachment_id wire = dr_attachment_id request ∧ guest_route wire = Some (mr_definition matched) ∧
    (∃ found, mapM guest_route (route_definitions (lr_manifest release) method (lr_digest release)) = Some found ∧
       select_route found method path = Ok matched) ∧
    served_attachment (lr_manifest release) (dr_attachment_id request) = Some a ∧
    carries_http_route (attachment_type a) = true ∧
    (* an active environment *)
    (∀ inactive, fr_environment fr = Some inactive → ∃ w1 w2, inactive (lr_env_key release) w1 = (w2, Some false)) ∧
    (* the whole body, within the limits *)
    body_of body = Some raw ∧
    ((0 ≤ al_body_bytes limits)%Z →
     (Z.of_nat (String.length raw) ≤ Z.min (rt_body_limit (mr_definition matched)) (al_body_bytes limits))%Z) ∧
    (* the caller its policy admits, over the headers and that body *)
    parse_attachment_auth_policy (served_auth_policy a) = Some policy ∧
    ((policy = PolicyNone ∧ dr_caller request = None) ∨
     (policy ≠ PolicyNone ∧
      admits (authentication_request release (dr_attachment_id request) a policy (rq_headers head) raw) (dr_caller request))) ∧
    (* the input mapped from the request, and the one it accepts *)
    (let? json := request_json method (mr_definition matched) (rq_target head) raw in
     map_input (rt_mappings (mr_definition matched)) json (mr_path_values matched) query (rq_headers head)) = Ok mapped ∧
    dr_payload request = print_json mapped ∧
    input_accepted (route_definitions (lr_manifest release) method (lr_digest release)) (dr_attachment_id request)
      (dr_payload request);
}.

Lemma request_line_authority head limits method authority path query :
  request_line head limits = Ok (method, authority, path, query) → normalize_authority (rq_authority head) = Some authority.
Proof.
  unfold request_line. destruct (_ || _); [done|]. destruct (normalize_method _); [cbn|done].
  destruct (normalize_authority _) as [a|]; [cbn|done]. destruct (split_target _) as [pq|]; [cbn|done]. by intros [= _ -> _ _].
Qed.

(** What the adapter read is the whole body. *)
Lemma read_bounded_whole chunks n : ∀ bytes raw,
  read_bounded chunks n bytes = Ok raw → ∃ rest, body_of chunks = Some rest ∧ raw = bytes +:+ rest.
Proof.
  induction chunks as [|[c|] chunks IH]; intros bytes raw; cbn [read_bounded body_of]; [| |done].
  { intros [= <-]. exists "". by rewrite string_app_nil. }
  destruct (_ <? _)%Z; [done|]. destruct (_ <? _)%Z; [done|].
  intros (rest & -> & ->)%IH. exists (c +:+ rest). split; [done|]. by rewrite string_app_assoc.
Qed.

Lemma read_body limits wire definition body raw :
  guest_route wire = Some definition →
  read_bounded body (Z.min (rt_body_limit definition) (al_body_bytes limits)) "" = Ok raw →
  body_of body = Some raw ∧
  ((0 ≤ al_body_bytes limits)%Z →
   (Z.of_nat (String.length raw) ≤ Z.min (rt_body_limit definition) (al_body_bytes limits))%Z).
Proof.
  intros Hg Hr. split.
  - by destruct (read_bounded_whole _ _ _ _ Hr) as (rest & -> & ->).
  - intros Hl. assert (0 ≤ rt_body_limit definition)%Z.
    { unfold guest_route, usize_of, in_range in Hg. destruct ((0 <=? wr_body_limit wire)%Z && _) eqn:E; [|done].
      cbn [mbind option_bind] in Hg. destruct (_ && _) in Hg; [|done]. injection Hg as <-. cbn. lia. }
    apply (read_bounded_spec body _ "" raw) in Hr as [? _]; [done|lia|simpl; lia].
Qed.

Lemma request_guards (admits : AuthenticationRequest → option AuthenticatedCaller → Prop) body head limits s s' log out held :
  (∀ authenticator rq, fr_authenticator fr = Some authenticator → refuses (authenticator rq)) →
  (∀ authenticator rq w w' caller, fr_authenticator fr = Some authenticator → aq_policy rq ≠ PolicyNone →
     authenticator rq w = (w', Ok caller) → admits rq caller) →
  lm_limit (limiter s) = limit → limiter_ok (limiter s) held →
  handle_request (Backend0 := logged B) body head limits (s, []) = ((s', log), out) →
  limiter_ok (limiter s') held ∧
  ∀ request report, CallDeliver request report ∈ log →
    request_guarded body head limits s request admits ∧
    (occupied (lm_scope (limiter s)) held (dr_attachment_id request) < limit)%Z ∧ answered report out.
Proof using Hlimit.
  intros Hrefuse Hadmits El Hok Hrun. pose proof (handle_request_made B _ _ _ _ _ _ _ Hrun) as Hmade.
  assert (Hrej : rejections_refuse B).
  { intros id headers b s0 r. cbn. unfold guest_authenticate, on_world. destruct (host_authenticate _ _ _ _ _) as [w1 a] eqn:Ea.
    cbn. intros ->. by eapply host_rejects. }
  destruct (handle_request_logged B _ _ _ _ _ _ _ Hrej Hrun) as [(request & report & Had & Hans & _)|[Hun|(-> & _ & _)]].
  2: { destruct Hun as (Hd & Ha & Hr & _). split; [by eapply unacquired_limiter|]. intros rq rep Hin. by destruct (Hd rq rep). }
  2: { cbn in Hmade. subst s'. split; [done|]. intros rq rep Hin. by apply not_elem_of_nil in Hin. }
  destruct Had as [(method & authority & path & query & found & matched & raw & permit & mapped & -> & Hline & Hsel & Hid & Hraw & Hmap & Hpay & _)].
  cbn [calls_made] in Hmade.
  destruct Hmade as (s1 & M1 & s2 & M2 & s3 & M3 & s4 & M4 & s5 & M5 & s6 & M6 & s7 & M7 & <-).
  pose proof (made_limiter _ _ _ M1) as L1. pose proof (made_limiter _ _ _ M2) as L2. pose proof (made_limiter _ _ _ M3) as L3.
  pose proof (made_limiter _ _ _ M5) as L5. pose proof (made_limiter _ _ _ M6) as L6. apply made_limiter in M4, M7.
  cbn beta iota in L1, L2, L3, L5, L6, M4, M7. cbn [made] in M1, M2, M3.
  cbn [routes authenticate validate_input guest_backend] in M1, M2, M3.
  assert (El3 : lm_limit (limiter s3) = limit) by (by rewrite L3, L2, L1).
  assert (Hok3 : limiter_ok (limiter s3) held) by (by rewrite L3, L2, L1).
  destruct (acquire_limiter _ _ _ _ _ El3 Hok3 M4) as (El4 & _ & -> & Hok4 & Hocc).
  rewrite L3, L2, L1 in Hocc.
  assert (Hok6 : limiter_ok (limiter s6) ({| pm_route := dr_attachment_id request |} :: held)) by (by rewrite L6, L5).
  assert (El6 : lm_limit (limiter s6) = limit) by (by rewrite L6, L5).
  destruct (guest_releases _ _ _ El6 Hok6) as (s8 & Er & Hok8). rewrite Er in M7. subst s8. split; [done|].
  intros rq rep Hin.
  assert (rq = request ∧ rep = report) as [-> ->].
  { repeat (apply elem_of_cons in Hin as [Hin|Hin]; [first [discriminate|by injection Hin as -> ->]|]). by apply not_elem_of_nil in Hin. }
  split; [|by split].
  unfold guest_routes in M1. destruct (host_routes fr workload_id method authority (hs_host s)) as [supplied|] eqn:Eh; [|done].
  injection M1 as <- Hfound. unfold guest_authenticate in M2. pose proof M2 as Hauth. unfold on_world in Hauth.
  destruct (host_authenticate fr _ _ _ _) as [w1 r] eqn:Ea in Hauth. injection Hauth as _ ->.
  destruct (host_admits _ _ _ _ _ _ Ea) as (release & a & policy & Erel & Eserved & Ehttp & Epol & Hactive & Hcaller).
  unfold host_routes in Eh. rewrite Erel in Eh. cbn [ok_or result_bind] in Eh.
  case_bool_decide as Ehost.
  2: { injection Eh as <-. cbn in Hfound. injection Hfound as <-. apply select_route_in in Hsel. by apply not_elem_of_nil in Hsel. }
  injection Eh as <-. pose proof Hsel as Hin'. apply select_route_in in Hin'.
  destruct (converted_in _ _ _ Hfound Hin') as (wire & Hw & Eg).
  destruct (read_body _ _ _ _ _ Eg Hraw) as [Hbody Hlen].
  constructor. exists release, method, authority, path, query, wire, matched, a, policy, raw, mapped.
  assert (Ewire : wr_attachment_id wire = dr_attachment_id request).
  { destruct (supplied_fit _ _ _ _ Hw) as (r' & Er' & <-). rewrite Eg in Er'. by injection Er' as <-. }
  do 2 (split; [done|]). split; [by eapply request_line_authority|]. do 4 (split; [done|]). split; [by eexists|].
  do 6 (split; [done|]). split; [|split; [done|split; [done|]]].
  - destruct Hcaller as [?|(Hne & authenticator & wa & wb & Eau & Hok')]; [by left|right]. split; [done|].
    eapply Hadmits; [exact Eau|exact Hne|exact Hok'].
  - unfold input_accepted.
    destruct (guest_validates _ _ _ (dr_payload request) _ _ _ M2) as (rv & Ev & Hv). cbn [hs_guest with_guest gb_routes] in Hv.
    apply (f_equal snd) in M3. cbn [snd] in M3. rewrite Ev in M3. apply Hv, M3.
Qed.

End Served.

(** C18. A request through the platform's host is delivered only when the loaded
    release serves its attachment over HTTP on the host its workload is bound
    to, as the route that the request's method and path select, the environment
    is active, the whole body is within the limits, and the policy of the
    attachment admits the caller: nobody under the policy [none], and otherwise a
    caller that [caller_admitted] describes, over the request's headers and that
    body; its input is the one mapped from the request, within the read limits
    of a sealed route or valid under the schema of the attachment, and a slot
    was free.  Whatever the request, it gives its
    slot back: the limiter holds the same permits after it as before. *)
Theorem http_request_guarded {W : Type} `{!GuestImports W, !EntryHost W AuthenticatedCaller, !RouteAuthority W, !Boon, !BoonErrors,
    !FloatText, !Sha256, !Hmac, !JsonText, !JsonPrint, !Chrono, !PgDebug}
    (pa : PlatformRouteAuthenticator) (fr : FlowHttpRouting W) (workload_id : string) (body : list chunk) (head : RequestHead)
    (limits : AdapterLimits) (s s' : HttpState W) (log : list (Call RouteLimiter.RoutePermit AuthenticatedCaller))
    (out : run HttpResponse) (held : list RouteLimiter.RoutePermit) :
  fr_authenticator fr = Some (platform_authenticate pa) →
  (0 < lm_limit (ro_limiter (hs_host s)) ≤ u64_max)%Z → limiter_ok (ro_limiter (hs_host s)) held →
  handle_request (Backend0 := logged (guest_backend fr workload_id)) body head limits (s, []) = ((s', log), out) →
  limiter_ok (ro_limiter (hs_host s')) held ∧
  ∀ request report, CallDeliver request report ∈ log →
    request_guarded fr workload_id body head limits s request
      (λ rq answer, ∃ caller, answer = Some caller ∧ Authority.attachment_id caller = aq_attachment_id rq ∧ caller_admitted pa rq caller) ∧
    (occupied (lm_scope (ro_limiter (hs_host s))) held (dr_attachment_id request) < lm_limit (ro_limiter (hs_host s)))%Z ∧
    answered report out.
Proof.
  intros Hau Hlimit Hok. eapply (request_guards fr workload_id _ Hlimit); [..|done|exact Hok].
  - intros authenticator rq Ha. rewrite Hau in Ha. injection Ha as <-. apply platform_refuses.
  - intros authenticator rq w w' caller Ha Hne Hrun. rewrite Hau in Ha. injection Ha as <-. by eapply platform_sound.
Qed.

(** ** A sample *)

Module HostSample.
Import AuthSample.

#[local] Existing Instances sample_sha sample_hmac one_login.
#[local] Instance null_text : JsonText := λ _, Some VNull.
#[local] Instance null_print : JsonPrint := λ _, "null".
#[local] Instance zero_float : FloatText := λ _, "0".
#[local] Instance any_schema : Boon := {| schema_compiles := λ _, true; schema_accepts := λ _ _, true |}.
#[local] Instance any_error : BoonErrors := λ _ _, mk_validation_error "" None [].
#[local] Instance no_dates : Chrono := {| instant := unit; parse_rfc3339 := λ _, None; format_timestamptz := λ _, "" |}.
#[local] Instance no_debug : PgDebug := λ _, "".
#[local] Instance no_application : EntryHost unit AuthenticatedCaller := {|
  monotonic_now := λ w, (w, 0%Z); authorize := λ _ _ w, (w, Err RUnknownOperation); finish_read := λ w, (w, Ok tt);
  begin_operation := λ _ _ _ _ w, (w, Err RUnknownOperation); commit := λ _ w, (w, Ok tt); rollback := λ w, (w, Ok tt);
  dispatch_is_read := λ _, false; dispatch_read := λ _ _ _ _ w, (w, Err Driver.WCancelled); dispatch_run := λ _ _ _ w, (w, Err Driver.WCancelled) |}.
#[local] Instance responds : GuestImports unit := {|
  router_deliver := λ rq w, (w, {| rp_outcome := Ok (ORespond (dr_payload rq)); rp_deadline_adjustments := []; rp_etag := None |});
  random_bytes := λ _ w, (w, []) |}.

Definition session_attachment : RouteAttachment := {|
  at_type := HttpAttachment; at_package_id := "orders"; at_component := "order"; at_operation := "orders:order/post@1.0.0";
  at_definition_hash := "";
  at_definition := VObject [("route", VObject [("method", VString "POST"); ("path", VString "/orders")])];
  at_auth_policy := VObject [("modes", VArray [VString "session"])]; at_registered_operation := None |}.
Definition shop : LoadedRelease := {|
  lr_env_key := "shop-dev"; lr_environment := "dev"; lr_applications := [];
  lr_manifest := {| sm_format_version := 11; sm_packages := []; sm_components := []; sm_composed_entry := None; sm_routes := [];
                    sm_attachments := [("order-post", session_attachment)]; sm_host_routes := [] |};
  lr_digest := "sha256:1" |}.
Definition shop_host : FlowHttpRouting unit :=
  with_authenticator (platform_authenticate sessions_only)
    (with_environment_status (λ _ w, (w, Some false)) (new_routing (Some shop))).
Definition shop_state : HttpState unit := {|
  hs_guest := {| gb_routes := ∅; gb_base_route := false |};
  hs_host := bind_route_host "ingress" "Shop.Example" (new_state 1 RouteScope tt) |}.
Definition post_head (csrf : string) : RequestHead := {|
  rq_method := "POST"; rq_authority := "shop.example:8443"; rq_target := "/orders";
  rq_headers := [cookie; {| hd_name := "x-wamn-csrf"; hd_value := csrf |}] |}.
Definition posted (csrf : string) :=
  handle_request (Backend0 := logged (guest_backend shop_host "ingress")) [] (post_head csrf) default_limits (shop_state, []).

Definition status_of (r : run HttpResponse) : option Z := match r with Ret r => Some (hr_status r) | Panic _ => None end.
Example one_passes : status_of (posted "ab").2 = Some 200%Z ∧ status_of (posted "ac").2 = Some 401%Z.
Proof. vm_compute. done. Qed.

Lemma empty_limiter : limiter_ok (ro_limiter (hs_host shop_state)) [].
Proof.
  split; [|done|].
  - intros r. reflexivity.
  - intros r. vm_compute. discriminate.
Qed.

Lemma http_request_guarded_witness :
  ∃ request report, CallDeliver request report ∈ (posted "ab").1.2 ∧
    limiter_ok (ro_limiter (hs_host (posted "ab").1.1)) [] ∧
    request_guarded shop_host "ingress" [] (post_head "ab") default_limits shop_state request
      (λ rq answer, ∃ caller, answer = Some caller ∧ Authority.attachment_id caller = aq_attachment_id rq ∧
         caller_admitted sessions_only rq caller).
Proof.
  assert (Hbounds : (0 < lm_limit (ro_limiter (hs_host shop_state)) ≤ u64_max)%Z) by (split; vm_compute; [reflexivity|discriminate]).
  assert (Hpair : posted "ab" = (((posted "ab").1.1, (posted "ab").1.2), (posted "ab").2)) by (by destruct (posted "ab") as [[? ?] ?]).
  destruct (http_request_guarded sessions_only shop_host "ingress" [] (post_head "ab") default_limits shop_state
    (posted "ab").1.1 (posted "ab").1.2 (posted "ab").2 [] eq_refl Hbounds empty_limiter Hpair) as [Hok Hguard].
  assert (Hin : ∃ request report, CallDeliver request report ∈ (posted "ab").1.2).
  { vm_compute. eexists _, _. do 5 right. left. }
  destruct Hin as (request & report & Hin). exists request, report. split; [exact Hin|]. split; [exact Hok|].
  exact (proj1 (Hguard request report Hin)).
Defined.

End HostSample.
