(* ===== verification/WorkflowStart.v ===== *)
(** * Starting a workflow, and running what was started

    [start_workflow] of [crates/execution/host/src/application_route.rs], with the reads
    of [crates/platform/runtime/src/plugins/wamn_postgres/workflow_resolution.rs] and
    [execute_workflow] of [crates/execution/workflow/src/router_driver.rs]: a start gates
    the enabled version of a workflow against the release served and admits its run; a
    claimed run is resolved again, from its row, on every claim.

    The start writes the run plane of [RunPlane] through [Workflows], reads the table of
    [WorkflowVersions] and gates by [WorkflowGate]; the execution goes on as [Lowering]'s
    [run_resolved].  The checkout of the connections is left out. *)

From stdpp Require Import base tactics option list gmap strings relations.
From Stdlib Require Import ZArith Lia.
From S2P Require Import Prelude Text Json Canonical Router Walk Route RunStatus RunStore Queue RunPlane ClaimStore.
From S2P Require Import PlaneSpec ClaimRefines ClaimProps Workflows StoreProps WorkflowProps Authority Driver Executor Capabilities.
From S2P Require Import Packages ComponentFacts ComponentAdmission Lowering ServingManifests WiringDocuments.
From S2P Require Import WiringCompatibility WorkflowGate GatedRuns EventWire EventTriggers WiringParse WorkflowVersions.
From S2P Require Import EventBatch PlaneHistory.
#[local] Set Warnings "-clear-no-such-hyp".
Open Scope wamn_scope.

(** ** The start *)

Record WorkflowStartRequest := {
  ws_application : string;
  ws_workflow_id : string;
  ws_input_json : Value;
  ws_idempotency_key : string;
}.

Definition decode_start (v : Value) : option WorkflowStartRequest :=
  match struct_fields [("application", false); ("workflow_id", false); ("input_json", false);
                       ("idempotency_key", false)] v with
  | Some [Some (VString application); Some (VString workflow_id); Some input; Some (VString k)] =>
      Some {| ws_application := application; ws_workflow_id := workflow_id; ws_input_json := input;
              ws_idempotency_key := k |}
  | _ => None
  end.

(** [Refusal]: of the delivery, of the route's contract, of the host. *)
Inductive StartRefusal :=
| InvalidPayload
| Declared (code field : string)
| HostFailed (text : string).

(** [EnabledWorkflow]. *)
Record EnabledWorkflow := {
  ew_version : Z;  (* i32 *)
  ew_graph : AuthoredWiring;
  ew_wiring_hash : string;
  ew_execution_type : string;
  ew_execution_role : option string;
}.

Section Start.
Context `{Boon, WasiCeiling, FloatText, Sha256, JsonText, PlatformTexts, Jsonb, AdmissionChecks, JsonbEq}.

(** [ENABLED_WORKFLOW_SQL]. *)
Definition enabled_workflow_sql (env_key environment application workflow_id : string) (t : Workflows_) :
    list (wf_key * WorkflowRow) :=
  filter (λ kr : wf_key * WorkflowRow,
    bool_decide (kr.1.1 = (env_key, environment, application, workflow_id)) && wf_enabled kr.2 &&
    String.eqb (wf_trigger kr.2) "manual") (map_to_list t).

(** [enabled_workflow]: [query_opt] refuses a second row, and the version is an [i32]. *)
Definition enabled_workflow (env_key environment application workflow_id : string) (t : Workflows_) :
    result (option EnabledWorkflow) string :=
  match enabled_workflow_sql env_key environment application workflow_id t with
  | [] => Ok None
  | [(k, r)] =>
      if (i32_max <? k.2)%Z then Err "error deserializing column 0"
      else
        match parse_document (wf_graph r) with
        | Err _ => Err "validate the stored workflow graph"
        | Ok graph => Ok (Some {| ew_version := k.2; ew_graph := graph; ew_wiring_hash := wf_hash r;
                                  ew_execution_type := wf_execution_type r; ew_execution_role := wf_execution_role r |})
        end
  | _ => Err "query returned an unexpected number of rows"
  end.

(** The identity the run executes as. *)
Definition start_identity (caller : AuthenticatedCaller) (w : EnabledWorkflow) : result (string * string) StartRefusal :=
  match ew_execution_type w, ew_execution_role w with
  | "role", Some role => Ok (workflow_user, role)
  | "invoker", None =>
      match active_role caller with
      | Some role => Ok (principal_id caller, role)
      | None => Err (Declared "active_role_required" "workflow_id")
      end
  | _, _ => Err (HostFailed "execution type")
  end.

Definition manual_key (user workflow_id k : string) : string :=
  "manual:" +:+ user +:+ ":" +:+ workflow_id +:+ ":" +:+ k.

Definition start_binds (rel : LoadedRelease) (rq : WorkflowStartRequest) (user : string) (w : EnabledWorkflow)
    (who : string * string) (components : list (string * AdmittedFact)) : WorkflowBinds := {|
  w_package_id := ws_application rq; w_manifest_digest := lr_digest rel; w_environment := lr_environment rel;
  w_wiring_id := ws_workflow_id rq; w_wiring_version := ew_version w; w_wiring_hash := ew_wiring_hash w;
  w_principal_id := who.1; w_role := who.2;
  w_node_digests := VObject (map_from_iter ((λ kv : string * string, (kv.1, VString kv.2)) <$> digests_of components));
  w_idempotency_key := manual_key user (ws_workflow_id rq) (ws_idempotency_key rq); w_input := ws_input_json rq |}.

(** What is checked before the run is admitted. *)
Definition start_gate (caller : AuthenticatedCaller) (rel : LoadedRelease) (t : Workflows_) (rq : WorkflowStartRequest) :
    run (result WorkflowBinds StartRefusal) :=
  if String.eqb (ws_application rq) "" then Ret (Err (Declared "invalid_input" "application"))
  else if String.eqb (ws_workflow_id rq) "" then Ret (Err (Declared "invalid_input" "workflow_id"))
  else if String.eqb (ws_idempotency_key rq) "" then Ret (Err (Declared "invalid_input" "idempotency_key"))
  else
    match find_entry (ws_application rq) (lr_applications rel) with
    | None => Ret (Err (Declared "application_not_declared" "application"))
    | Some packages =>
        match enabled_workflow (lr_env_key rel) (lr_environment rel) (ws_application rq) (ws_workflow_id rq) t with
        | Err e => Ret (Err (HostFailed e))
        | Ok None => Ret (Err (Declared "workflow_not_enabled" "workflow_id"))
        | Ok (Some w) =>
            let! gated := gate_workflow_document (lr_env_key rel) packages (lr_manifest rel) (ew_graph w) in
            match gated with
            | Err _ => Ret (Err (Declared "workflow_not_served" "workflow_id"))
            | Ok hash =>
                if negb (String.eqb hash (ew_wiring_hash w)) then Ret (Err (Declared "workflow_not_served" "workflow_id"))
                else
                  let! components := resolve_workflow_components (lr_env_key rel) packages (lr_manifest rel) (ew_graph w) in
                  match components with
                  | Err _ => Ret (Err (Declared "workflow_not_served" "workflow_id"))
                  | Ok components =>
                      Ret (match start_identity caller w with
                           | Err e => Err e
                           | Ok who => Ok (start_binds rel rq (principal_id caller) w who components)
                           end)
                  end
            end
        end
    end.

(** [start_workflow]: the plane, and the id of the run. *)
Definition start_workflow (h : Host) (caller : AuthenticatedCaller) (rel : LoadedRelease) (t : Workflows_)
    (policy : option DurabilityClass) (fresh : string) (now : Z) (payload : string) (p : Plane) :
    Plane * run (result string StartRefusal) :=
  match parse_json payload ≫= decode_start with
  | None => (p, Ret (Err InvalidPayload))
  | Some rq =>
      match start_gate caller rel t rq with
      | Panic m => (p, Panic m)
      | Ret (Err e) => (p, Ret (Err e))
      | Ret (Ok b) =>
          match transact (admit_manual_run h (lr_env_key rel) policy fresh (principal_id caller) b now) p with
          | (p', Ok (Queued run_id)) => (p', Ret (Ok run_id))
          | (p', Ok Conflict) => (p', Ret (Err (Declared "idempotency_conflict" "idempotency_key")))
          | (p', Err e) => (p', Ret (Err (HostFailed "")))
          end
      end
  end.

End Start.

(** ** The execution of a claimed run *)

(** A release loaded from a local directory, and whether the database still names this
    host as the one instance that may serve it. *)
Record LocalApplication := {
  la_instance : bool;
  la_env_key : string;
  la_environment : string;
  la_manifest_digest : string;
  la_manifest : ServingManifest;
}.

Section Execute.
Context `{Boon, WasiCeiling, FloatText, Sha256, JsonText, JsonPrint, ManifestCodec}.

(** The manifest of the release the run pins; [releases] is [PINNED_RELEASE_SQL]. *)
Definition pinned_manifest (local : option LocalApplication) (releases : string → string → option string)
    (k : WorkflowRunKey) : run (result ServingManifest AnyError) :=
  match local with
  | Some l =>
      if negb (la_instance l) then Ret (Err (EOther "local instance"))
      else if negb (String.eqb (la_env_key l) (rk_env_key k) && String.eqb (la_environment l) (rk_environment k) &&
                    String.eqb (la_manifest_digest l) (rk_manifest_digest k))
      then Ret (Err (EOther "local release scope mismatch"))
      else Ret (Ok (la_manifest l))
  | None =>
      match releases (rk_env_key k) (rk_manifest_digest k) with
      | None => Ret (Err (EResolution ResolutionNotFound))
      | Some bytes =>
          let! decoded := from_canonical_bytes bytes in
          Ret (match decoded with
               | Err _ => Err (EOther "decode the pinned release")
               | Ok (m, digest) =>
                   if String.eqb digest (rk_manifest_digest k) then Ok m
                   else Err (EOther "the pinned release bytes do not hash to the run's digest")
               end)
      end
  end.

(** [resolve_workflow]. *)
Definition resolve_workflow (local : option LocalApplication) (releases : string → string → option string)
    (t : Workflows_) (k : WorkflowRunKey) : run (result ResolvedWorkflow AnyError) :=
  if (i32_max <? rk_version k)%Z then Ret (Err (EOther "workflow version exceeds int"))
  else
    match t !! (rk_env_key k, rk_environment k, rk_application k, rk_workflow_id k, rk_version k) with
    | None => Ret (Err (EResolution ResolutionNotFound))
    | Some row =>
        let?! m := pinned_manifest local releases k in
        match parse_document (wf_graph row) with
        | Err _ => Ret (Err (EOther "validate the stored workflow graph"))
        | Ok d =>
            let! r := resolve_workflow_in_release k m d (wf_hash row) in
            Ret (match r with Ok r => Ok r | Err e => Err (EResolution e) end)
        end
    end.

Context `{Powi} {S : Type} `{!OperationHost S}.

(** Why an execution gives no delivery: before the walk, or in [run_resolved]. *)
Definition ExecuteError : Type := AnyError + (WiringLoweringErrorType + DriverError * list DeadlineAdjustment).

(** [execute_workflow]: the release is the one the host serves. *)
Definition execute_workflow (fuel : nat) (rel : LoadedRelease) (local : option LocalApplication)
    (releases : string → string → option string) (t : Workflows_) (request : WorkflowRunRequest) (s : S) :
    option (run (S * result RouterDelivery ExecuteError)) :=
  let rq := wq_run request in
  if negb (0 <? rq_wiring_version rq)%Z then Some (Ret (s, Err (inl (EOther "wiring-version-zero"))))
  else if negb (String.eqb (lr_env_key rel) (rq_env_key rq) && String.eqb (lr_environment rel) (rq_environment rq))
  then Some (Ret (s, Err (inl (EOther "router-request-release-scope-mismatch"))))
  else
    match find_entry (rq_package_id rq) (lr_applications rel) with
    | None => Some (Ret (s, Err (inl (EOther "the environment declares no application"))))
    | Some packages =>
        let k := {|
          rk_env_key := rq_env_key rq; rk_environment := rq_environment rq; rk_application := rq_package_id rq;
          rk_application_packages := packages; rk_workflow_id := rq_wiring_id rq; rk_version := rq_wiring_version rq;
          rk_manifest_digest := lr_digest rel; rk_wiring_hash := wq_wiring_hash request;
          rk_node_digests := wq_node_digests request |} in
        match resolve_workflow local releases t k with
        | Panic m => Some (Panic m)
        | Ret (Err e) => Some (Ret (s, Err (inl e)))
        | Ret (Ok r) =>
            match run_resolved fuel rq (wq_identity request) (rw_wiring r) s with
            | None => None
            | Some (Panic m) => Some (Panic m)
            | Some (Ret (s', Ok d)) => Some (Ret (s', Ok d))
            | Some (Ret (s', Err e)) => Some (Ret (s', Err (inr e)))
            end
        end
    end.

End Execute.

(** ** What a start pins *)

Lemma parsed_document `{Boon} v d :
  parse_document v = Ok d → validate_document d = Ok tt ∧ keyed (doc_nodes d).
Proof.
  unfold parse_document. destruct (decode_document v) as [d'|] eqn:Ed; [|done].
  destruct (validate_document d') as [[]|] eqn:Eval; [|done]. intros [= ->]. split; [done|].
  unfold decode_document in Ed. destruct (struct_fields _ v) as [l|]; [|done].
  destruct l as [|[[]|] [|[[]|] [|[ver|] [|[[]|] [|[ns|] [|es [|cs [|rs [|]]]]]]]]]; try done.
  repeat bind_inv Ed. injection Ed as <-. simpl. by eapply decode_nodes_fits.
Qed.

Lemma keyed_keys {A B} (l : list (string * A)) (l' : list (string * B)) : l.*1 = l'.*1 → keyed l → keyed l'.
Proof.
  unfold keyed. revert l'. induction l as [|[k a] l IH]; intros [|[k' b] l'] E Hk; try done; [constructor|].
  injection E as -> E. change (l.*1 = l'.*1) in E. inversion_clear Hk as [|? ? Hs Hf]. constructor; [by apply IH|].
  apply Forall_forall. intros [x y] Hin. unfold key_lt. simpl.
  assert (Hx : x ∈ l'.*1) by (apply list_elem_of_fmap; by exists (x, y)). rewrite <- E in Hx.
  apply list_elem_of_fmap in Hx as ([x' z] & -> & Hin'). rewrite Forall_forall in Hf. exact (Hf _ Hin').
Qed.

Lemma digests_keys facts : (digests_of facts).*1 = facts.*1.
Proof. unfold digests_of. rewrite <- list_fmap_compose. by apply list_fmap_ext; intros ? [? ?]. Qed.

(** The digests of a run row read back as they were frozen. *)
Lemma frozen_digests_read (facts : list (string * AdmittedFact)) :
  keyed facts →
  string_map_of (VObject (map_from_iter ((λ kv : string * string, (kv.1, VString kv.2)) <$> digests_of facts))) =
    Some (digests_of facts).
Proof.
  intros Hk. rewrite map_from_iter_collect, collect_fixed.
  2:{ eapply keyed_keys; [|exact Hk]. rewrite <- list_fmap_compose, <- (digests_keys facts).
      by apply list_fmap_ext; intros ? [? ?]. }
  apply mapM_Some. induction (digests_of facts) as [|[k v] l IH]; constructor; [done|exact IH].
Qed.

Section Started.
Context `{Boon, WasiCeiling, FloatText, Sha256, JsonText, PlatformTexts, Jsonb, AdmissionChecks, JsonbEq}.

Lemma enabled_workflow_inv env_key environment application workflow_id t w :
  enabled_workflow env_key environment application workflow_id t = Ok (Some w) →
  ∃ r, t !! (env_key, environment, application, workflow_id, ew_version w) = Some r ∧ wf_enabled r = true ∧
    wf_trigger r = "manual" ∧ (ew_version w ≤ i32_max)%Z ∧ parse_document (wf_graph r) = Ok (ew_graph w) ∧
    ew_wiring_hash w = wf_hash r ∧ ew_execution_type w = wf_execution_type r ∧ ew_execution_role w = wf_execution_role r.
Proof.
  unfold enabled_workflow.
  destruct (enabled_workflow_sql env_key environment application workflow_id t) as [|[k r] [|]] eqn:Es; [done| |done].
  assert (Hin : (k, r) ∈ enabled_workflow_sql env_key environment application workflow_id t) by (rewrite Es; left).
  clear Es. apply list_elem_of_filter in Hin as [Hp Hin]. apply elem_of_map_to_list in Hin. apply Is_true_true in Hp.
  cbn [fst snd] in Hp. rewrite !andb_true_iff, bool_decide_eq_true, String.eqb_eq in Hp. destruct Hp as [[Hk Hen] Htr].
  destruct (Z.ltb_spec i32_max k.2) as [|Hv]; [done|].
  destruct (parse_document (wf_graph r)) as [graph|] eqn:Eg; [|done]. intros [= <-]. exists r.
  cbn [ew_version ew_graph ew_wiring_hash ew_execution_type ew_execution_role]. rewrite <- Hk.
  split_and!; [by destruct k|done..].
Qed.

(** What a start that passes its gate binds. *)
Record gated_start (caller : AuthenticatedCaller) (rel : LoadedRelease) (t : Workflows_) (rq : WorkflowStartRequest)
    (packages : list string) (w : EnabledWorkflow) (r : WorkflowRow) (facts : list (string * AdmittedFact))
    (who : string * string) : Prop := {
  gs_application : find_entry (ws_application rq) (lr_applications rel) = Some packages;
  gs_row : t !! (lr_env_key rel, lr_environment rel, ws_application rq, ws_workflow_id rq, ew_version w) = Some r;
  gs_enabled : wf_enabled r = true;
  gs_trigger : wf_trigger r = "manual";
  gs_version : (ew_version w ≤ i32_max)%Z;
  gs_graph : parse_document (wf_graph r) = Ok (ew_graph w);
  gs_hash : ew_wiring_hash w = wf_hash r;
  gs_gate : gate_workflow_document (lr_env_key rel) packages (lr_manifest rel) (ew_graph w) = Ret (Ok (wf_hash r));
  gs_facts : resolve_workflow_components (lr_env_key rel) packages (lr_manifest rel) (ew_graph w) = Ret (Ok facts);
  gs_identity : start_identity caller w = Ok who;
}.

Lemma start_gate_inv caller rel t rq b :
  start_gate caller rel t rq = Ret (Ok b) →
  ∃ packages w r facts who, gated_start caller rel t rq packages w r facts who ∧
    b = start_binds rel rq (principal_id caller) w who facts.
Proof.
  unfold start_gate. destruct (String.eqb (ws_application rq) ""); [done|].
  destruct (String.eqb (ws_workflow_id rq) ""); [done|]. destruct (String.eqb (ws_idempotency_key rq) ""); [done|].
  destruct (find_entry (ws_application rq) (lr_applications rel)) as [packages|] eqn:Ep; [|done].
  destruct (enabled_workflow _ _ _ _ t) as [[w|]|] eqn:Ew; [|done..].
  apply enabled_workflow_inv in Ew as (r & Hr & Hen & Htr & Hv & Hg & Hh & _).
  destruct (gate_workflow_document _ _ _ _) as [[hash|]|] eqn:Eg; cbn [run_bind]; [|done..].
  destruct (String.eqb_spec hash (ew_wiring_hash w)) as [->|]; [|done]. cbn [negb].
  destruct (resolve_workflow_components _ _ _ _) as [[facts|]|] eqn:Ef; cbn [run_bind]; [|done..].
  destruct (start_identity caller w) as [who|] eqn:Ei; [|done]. intros [= <-].
  exists packages, w, r, facts, who. split; [|done]. constructor; try done. by rewrite <- Hh.
Qed.

Lemma manual_admission_inv h env policy fresh user b now p p' id :
  transact (admit_manual_run h env policy fresh user b now) p = (p', Ok (Queued id)) →
  runs p !! (env, id) = None →
  ∃ b' r, cast_binds b = Some b' ∧ runs p' !! (env, id) = Some r ∧ r_pins r = manual_pins user now b'.
Proof.
  intros Ha Hnew. destruct (key_taken p env (Some (w_idempotency_key b))) eqn:Hkey.
  - exfalso. unfold transact in Ha. destruct (admit_manual_run _ _ _ _ _ _ _ _) as [[p1 x]|] eqn:Ht; [|done].
    injection Ha as -> ->. unfold admit_manual_run, read_durability, admit_run in Ht. tx_inv Ht. tx_inv Ht. tx_inv Ht.
    unfold insert_manual_run_sql, insert_binds_sql, insert_run_sql in Hm0.
    destruct (cast_binds b) as [b'|] eqn:Ec; [|done]. destruct (cast_binds_inv _ _ Ec) as (v & d & Hv & _ & ->).
    cbn [manual_pins workflow_pins p_idempotency_key with_json w_idempotency_key] in Hm0.
    destruct (admission_check _); [done|]. rewrite Hkey in Hm0. injection Hm0 as <- <-. tx_inv Ht.
    rewrite Hv in Hm0. injection Hm0 as <- Hm0. apply tx_ret_inv in Ht as [-> Hq].
    destruct a1 as [i|]; [|done]. injection Hq as ->. apply select_first_inv in Hm0 as (r & Hr & _). congruence.
  - destruct (manual_admitted _ _ _ _ _ _ _ _ _ _ Hkey Ha) as (b' & Ec & Hr & _).
    eexists b', _. split; [done|]. rewrite Hr. split; [apply lookup_insert_eq|done].
Qed.

End Started.

(** The pins of a run of a workflow: started by hand, by a schedule or by an event. *)
Definition workflow_run_pins (b : WorkflowBinds) (pins : Pins) : Prop :=
  ∃ source by_ user parent now, workflow_source (Some source) = true ∧
    pins = workflow_pins b source None (Some (w_principal_id b)) (Some (w_role b)) by_ user
             (Some (w_node_digests b)) parent now.

(** What a claim decodes of such a run. *)
Lemma workflow_claim_decodes `{BindingWorlds} id prior r b sc :
  workflow_run_pins b (r_pins r) → decode_selected_claim id prior r = Ok sc →
  (ClaimStore.sc_package_id sc, sc_wiring_id sc, sc_wiring_version sc, sc_payload sc) =
    (w_package_id b, w_wiring_id b, w_wiring_version b, w_input b) ∧ (0 < w_wiring_version b)%Z ∧
  ∃ run, sc_workflow sc = Some run ∧ string_map_of (w_node_digests b) = Some (wf_node_digests run) ∧
    wf_wiring_hash run = w_wiring_hash b ∧ wf_execution_principal_id run = w_principal_id b ∧
    ClaimStore.wf_execution_role run = w_role b.
Proof.
  intros (source & by_ & user & parent & now & Hs & Hp). unfold decode_selected_claim. rewrite Hp.
  unfold workflow_pins, decode_wiring_identity, decode_candidate.
  cbn [p_wiring_id p_wiring_version p_flow_id p_flow_version p_wiring_hash p_binding_world_json p_trigger_source
       p_execution_principal_id p_execution_role p_node_digests_json p_service_principal_id p_package_id p_input_json].
  destruct (negb (String.eqb (w_wiring_id b) "") && (0 <? w_wiring_version b)%Z) eqn:Ew; [|done].
  apply andb_true_iff in Ew as [_ Ev]. cbn [result_bind]. destruct (String.eqb (w_wiring_hash b) ""); [done|].
  cbn [result_bind]. rewrite (bool_decide_false (is_Some None)) by (by intros []). cbn [andb].
  unfold decode_workflow. rewrite Hs. destruct (String.eqb (w_role b) ""); [done|].
  destruct (string_map_of (w_node_digests b)) as [digests|]; [|done]. cbn [result_bind].
  unfold decode_causation. cbn [p_event_root_run_id p_event_depth]. destruct parent as [[[? root] depth]|]; cbn.
  1: destruct (depth <? 0)%Z; [done|].
  all: cbn; intros [= <-]; split; [done|]; split; [lia|]; by eexists.
Qed.

(** The host's copy of the release it serves. *)
Definition serves_release `{JsonText, JsonPrint, ManifestCodec, FloatText, Sha256, Boon} (rel : LoadedRelease)
    (local : option LocalApplication) (releases : string → string → option string) : Prop :=
  match local with
  | Some l => la_instance l = true ∧ la_env_key l = lr_env_key rel ∧ la_environment l = lr_environment rel ∧
      la_manifest_digest l = lr_digest rel ∧ la_manifest l = lr_manifest rel
  | None => ∃ bytes, releases (lr_env_key rel) (lr_digest rel) = Some bytes ∧
      from_canonical_bytes bytes = Ret (Ok (lr_manifest rel, lr_digest rel))
  end.

Lemma pinned_manifest_served `{JsonText, JsonPrint, ManifestCodec, FloatText, Sha256, Boon, WasiCeiling} rel local releases k :
  serves_release rel local releases →
  rk_env_key k = lr_env_key rel → rk_environment k = lr_environment rel → rk_manifest_digest k = lr_digest rel →
  pinned_manifest local releases k = Ret (Ok (lr_manifest rel)).
Proof.
  unfold serves_release, pinned_manifest. intros Hs -> -> ->. destruct local as [l|].
  - destruct Hs as (-> & -> & -> & -> & ->). by rewrite !String.eqb_refl.
  - destruct Hs as (bytes & -> & ->). cbn [run_bind]. by rewrite String.eqb_refl.
Qed.

Section Runs.
Context `{Boon, WasiCeiling, FloatText, Powi, JsonText, JsonPrint, ManifestCodec, PlatformTexts, Jmespath} `{Sha256Law}.
Context `{Jsonb, JsonbLaw0 : !JsonbLaw} `{AdmissionChecks, JsonbEq, Collation, BindingWorlds, !WorkflowCatalog}.
Context {S : Type} `{!OperationHost S, !SleepLaw S} `{JsonMembers, InstantText}.

(** How an execution that reached the walk answers. *)
Definition answered (out : result RouterDelivery (WiringLoweringErrorType + DriverError * list DeadlineAdjustment)) :
    result RouterDelivery ExecuteError :=
  match out with Ok d => Ok d | Err e => Err (inr e) end.

(** A request for a row whose frozen hash and digests are the gate's executes. *)
Lemma frozen_workflow_executes rel local releases t t2 w r packages d facts (request : WorkflowRunRequest) (s : S) fuel :
  catalog_ok t → stands t t2 → release_sound (lr_env_key rel) (lr_manifest rel) → serves_release rel local releases →
  t !! w = Some r → (0 < w.2 ≤ i32_max)%Z → parse_document (wf_graph r) = Ok d →
  find_entry w.1.1.2 (lr_applications rel) = Some packages →
  gate_workflow_document (lr_env_key rel) packages (lr_manifest rel) d = Ret (Ok (wf_hash r)) →
  resolve_workflow_components (lr_env_key rel) packages (lr_manifest rel) d = Ret (Ok facts) →
  w.1 = (lr_env_key rel, lr_environment rel, rq_package_id (wq_run request), rq_wiring_id (wq_run request)) →
  w.2 = rq_wiring_version (wq_run request) → rq_env_key (wq_run request) = lr_env_key rel →
  rq_environment (wq_run request) = lr_environment rel →
  wq_wiring_hash request = wf_hash r → wq_node_digests request = digests_of facts →
  (2 * Z.to_nat DEFAULT_HOP_LIMIT + 2 ≤ fuel)%nat →
  ∃ s' out res, execute_workflow fuel rel local releases t2 request s = Some (Ret (s', answered out)) ∧
    rw_facts res = facts ∧ settled_as (wq_run request) d (wf_hash r) res s s' out.
Proof.
  intros Hcat Hst Hsound Hserve Hr Hv Hd Hpk Hg Hf Hw1 Hw2 He1 He2 Hh Hdg Hfuel.
  destruct (parsed_document _ _ Hd) as [Hval Hkey].
  destruct (stored_names w r d (co_named t Hcat w r Hr) Hd) as [Hname Hver].
  destruct (gated_run_settles (S := S) _ _ _ _ _ Hval (keyed_NoDup _ Hkey) Hsound Hg) as (facts' & Hf' & _ & Hrun).
  rewrite Hf in Hf'. injection Hf' as <-.
  destruct (Hst w r Hr) as (r2 & Hr2 & Hdef). apply (definition_fields (λ _ _, true)) in Hdef as (Eg & Eh & _).
  destruct w as [[[[env e] app] wid] version]. cbn [fst snd] in *. injection Hw1 as -> -> -> ->. subst version.
  unfold execute_workflow. rewrite (proj2 (Z.ltb_lt 0 _)) by lia. cbn [negb]. rewrite He1, He2, !String.eqb_refl.
  cbn [andb negb]. rewrite Hpk. set (k := {| rk_env_key := _ |}).
  destruct (Hrun k) as (res & Hres & Hrf & Hsettle).
  { constructor; subst k; cbn; [done|done|congruence|congruence|done|done]. }
  assert (Hrw : resolve_workflow local releases t2 k = Ret (Ok res)).
  { unfold resolve_workflow. subst k. cbn [rk_version rk_env_key rk_environment rk_application rk_workflow_id] in *.
    rewrite (proj2 (Z.ltb_ge _ _)) by lia. rewrite Hr2.
    rewrite (pinned_manifest_served rel) by done. cbn [try_bind run_bind]. rewrite Eg, Hd, Eh, Hres. done. }
  rewrite Hrw. destruct (Hsettle (wq_run request) (wq_identity request) s fuel Hfuel) as (s' & out & E & Hout).
  exists s', out, res. split; [|done]. rewrite E. by destruct out.
Qed.

(** What the columns hold of frozen binds: everything as it was frozen, and the input cast. *)
Lemma cast_frozen b b' (digests : list (string * string)) :
  cast_binds b = Some b' →
  w_node_digests b = VObject (map_from_iter ((λ kv : string * string, (kv.1, VString kv.2)) <$> digests)) →
  (w_package_id b', w_wiring_id b', w_wiring_version b', w_wiring_hash b') =
    (w_package_id b, w_wiring_id b, w_wiring_version b, w_wiring_hash b) ∧
  w_node_digests b' = w_node_digests b ∧ jsonb (w_input b) = Some (w_input b') ∧
  (w_principal_id b', w_role b') = (w_principal_id b, w_role b).
Proof.
  intros (v & d & Hv & Hd & ->)%cast_binds_inv Eb. split_and!; [done| |done|done]. cbn.
  rewrite Eb in Hd |- *. exact (jsonb_texts _ _ Hd).
Qed.

(** The claim of a workflow run whose row froze what the gate chose, and its execution. *)
Lemma claimed_workflow_executes h2 rel local releases t t2 w r packages d facts b row p2 p3 id pk e ttl locked now2 sc g scope :
  catalog_ok t → rtc (catalog_step jsonb_eq) t t2 → release_sound (lr_env_key rel) (lr_manifest rel) →
  serves_release rel local releases →
  t !! w = Some r → parse_document (wf_graph r) = Ok d →
  w.1.1.1 = (lr_env_key rel, lr_environment rel) →
  find_entry w.1.1.2 (lr_applications rel) = Some packages →
  gate_workflow_document (lr_env_key rel) packages (lr_manifest rel) d = Ret (Ok (wf_hash r)) →
  resolve_workflow_components (lr_env_key rel) packages (lr_manifest rel) d = Ret (Ok facts) →
  (w_package_id b, w_wiring_id b, w_wiring_version b, w_wiring_hash b) = (w.1.1.2, w.1.2, w.2, wf_hash r) →
  w_node_digests b = VObject (map_from_iter ((λ kv : string * string, (kv.1, VString kv.2)) <$> digests_of facts)) →
  runs p2 !! (lr_env_key rel, id) = Some row → workflow_run_pins b (r_pins row) →
  (qs_env_key scope, qs_environment scope) = (lr_env_key rel, lr_environment rel) →
  env_key_for h2 QUEUE_CLAIM_SCOPE = Some (lr_env_key rel) →
  claim_next h2 QUEUE_CLAIM_SCOPE pk e ttl locked None now2 p2 = (p3, Ok (ClaimReady sc g)) → sc_run_id sc = id →
  ∃ run, sc_workflow sc = Some run ∧ sc_payload sc = w_input b ∧
    (wf_execution_principal_id run, ClaimStore.wf_execution_role run) = (w_principal_id b, w_role b) ∧
    ∀ (caller2 : AuthenticatedCaller) (s : S) (fuel : nat), (2 * Z.to_nat DEFAULT_HOP_LIMIT + 2 ≤ fuel)%nat →
    ∃ s' out res, execute_workflow fuel rel local releases t2 (run_request scope sc run caller2) s =
        Some (Ret (s', answered out)) ∧
      rw_facts res = facts ∧ settled_as (wq_run (run_request scope sc run caller2)) d (wf_hash r) res s s' out.
Proof.
  intros Hcat Hcats Hsound Hserve Hr Hd Hw Hpk Hg Hf Hb Hdg Hrow Hpins Hscope Henv Hclaim Hid.
  apply claim_next_inv in Hclaim as (env & runner & row3 & row4 & q & q' & Henv' & _ & _ & _ & Hdec & Hgr).
  rewrite Henv in Henv'. injection Henv' as <-. pose proof (gr_run _ _ _ _ _ _ _ _ _ _ _ _ _ _ _ Hgr) as Hr3.
  rewrite Hid in Hr3, Hdec. rewrite Hrow in Hr3. injection Hr3 as <-.
  destruct (workflow_claim_decodes _ _ _ _ _ Hpins Hdec) as (Hsc & Hpos & run & Hrun & Hdig & Hh & Hpr & Hro).
  destruct (parsed_document _ _ Hd) as [Hval Hkey].
  destruct (gated_run_settles (S := S) _ _ _ _ _ Hval (keyed_NoDup _ Hkey) Hsound Hg) as (facts' & Hf' & Hkeys & _).
  rewrite Hf in Hf'. injection Hf' as <-.
  rewrite Hdg, frozen_digests_read in Hdig by (by eapply keyed_keys; [symmetry|]). injection Hdig as Hdig.
  injection Hb as Hb1 Hb2 Hb3 Hb4. injection Hsc as Hs1 Hs2 Hs3 Hs4. rewrite Hb1 in Hs1. rewrite Hb2 in Hs2.
  rewrite Hb3 in Hs3, Hpos. exists run. split; [done|]. split; [done|]. split; [by rewrite Hpr, Hro|].
  intros caller2 s fuel Hfuel. injection Hscope as Hq1 Hq2. destruct (catalog_steps_ok _ _ _ Hcats Hcat) as [_ Hst].
  pose proof (co_int t Hcat w r Hr) as Hint. destruct w as [[[[env e'] app] wid] version]. cbn [fst snd] in *.
  injection Hw as -> ->.
  eapply (frozen_workflow_executes rel local releases t t2 (lr_env_key rel, lr_environment rel, app, wid, version));
    try done; cbn; congruence.
Qed.

(** A start that answered a new run. *)
Lemma start_inv h caller rel t policy fresh now payload p p' id :
  plane_ok p → start_workflow h caller rel t policy fresh now payload p = (p', Ret (Ok id)) →
  runs p !! (lr_env_key rel, id) = None →
  plane_ok p' ∧ ∃ rq packages w r facts who b' row, parse_json payload ≫= decode_start = Some rq ∧
    gated_start caller rel t rq packages w r facts who ∧ runs p' !! (lr_env_key rel, id) = Some row ∧
    cast_binds (start_binds rel rq (principal_id caller) w who facts) = Some b' ∧ workflow_run_pins b' (r_pins row).
Proof.
  intros Hok Hstart Hnew. unfold start_workflow in Hstart.
  destruct (parse_json payload ≫= decode_start) as [rq|] eqn:Erq; [|done].
  destruct (start_gate caller rel t rq) as [[b|]|] eqn:Eb; [|done..].
  destruct (transact _ p) as [p1 [[i|]|]] eqn:Ea; [|done..]. injection Hstart as -> ->.
  apply start_gate_inv in Eb as (packages & w & r & facts & who & Hgs & ->).
  pose proof (manual_admission_inv _ _ _ _ _ _ _ _ _ _ Ea Hnew) as (b' & row & Ec & Hrow & Hpins). split.
  - eapply evolves_ok; [exact Hok|]. change p' with (p', @Ok RunAdmitted ProductionClaimError (Queued id)).1.
    rewrite <- Ea. apply transact_evolves. intros. by eapply manual_evolves.
  - exists rq, packages, w, r, facts, who, b', row. split_and!; [done..|].
    eexists "manual", _, _, None, now. by split.
Qed.

(** C26. A started workflow runs.  The release served is one whose components are facts that
    admission minted, with readable signed-read annotations ([release_minted]).  When a
    start answered a new run, then whatever calls of the store, batches of events and
    retention passes follow that leave the run in its table, and whatever the catalog does
    next, if a host that serves the release claims the run, the claim carries the workflow
    as it was started: the caller's identity or the workflow user's, the input as [jsonb]
    stores it, the graph
    that was enabled and the components it was gated with.  Executing it never fails to
    resolve: it returns within [2 * DEFAULT_HOP_LIMIT + 2] turns, with a delivery the
    boundary settles, an error of the host, or two components of the release that share a
    digest and disagree on an operation. *)
Theorem started_workflow_runs (h h2 : Host) (caller : AuthenticatedCaller) (rel : LoadedRelease) (t t2 : Workflows_)
    (policy : option DurabilityClass) (fresh : string) (now now2 : Z) (payload : string) (p p' p2 p3 : Plane) (id : string)
    (pk : list string) (e : string) (ttl : Z) (locked : string → bool) (sc : SelectedClaim) (g : Z)
    (scope : QueueScope) (local : option LocalApplication) (releases : string → string → option string) :
  (∀ v, jsonb_eq v v = true) → plane_ok p → catalog_ok t → release_minted (lr_env_key rel) (lr_manifest rel) →
  start_workflow h caller rel t policy fresh now payload p = (p', Ret (Ok id)) →
  runs p !! (lr_env_key rel, id) = None →
  rtc (step_keeping (lr_env_key rel, id)) p' p2 → rtc (catalog_step jsonb_eq) t t2 → serves_release rel local releases →
  (qs_env_key scope, qs_environment scope) = (lr_env_key rel, lr_environment rel) →
  env_key_for h2 QUEUE_CLAIM_SCOPE = Some (lr_env_key rel) →
  claim_next h2 QUEUE_CLAIM_SCOPE pk e ttl locked None now2 p2 = (p3, Ok (ClaimReady sc g)) → sc_run_id sc = id →
  ∃ rq packages w r facts run, parse_json payload ≫= decode_start = Some rq ∧
    gated_start caller rel t rq packages w r facts (wf_execution_principal_id run, ClaimStore.wf_execution_role run) ∧
    sc_workflow sc = Some run ∧ jsonb (ws_input_json rq) = Some (sc_payload sc) ∧
    ∀ (caller2 : AuthenticatedCaller) (s : S) (fuel : nat), (2 * Z.to_nat DEFAULT_HOP_LIMIT + 2 ≤ fuel)%nat →
    ∃ s' out res, execute_workflow fuel rel local releases t2 (run_request scope sc run caller2) s =
        Some (Ret (s', answered out)) ∧
      rw_facts res = facts ∧ settled_as (wq_run (run_request scope sc run caller2)) (ew_graph w) (wf_hash r) res s s' out.
Proof.
  intros Hrefl Hok Hcat Hsound Hstart Hnew Hsteps Hcats Hserve Hscope Henv Hclaim Hid.
  destruct (start_inv _ _ _ _ _ _ _ _ _ _ _ Hok Hstart Hnew)
    as (Hok' & rq & packages & w & r & facts & who & b' & row & Erq & Hgs & Hrow & Ec & Hpins).
  destruct (kept_run_pins Hrefl _ p' p2 row Hok' Hsteps Hrow) as (_ & row2 & Hrow2 & Hp2). rewrite <- Hp2 in Hpins.
  apply release_minted_sound in Hsound.
  destruct (cast_frozen _ _ _ Ec eq_refl) as (Hf1 & Hf2 & Hf3 & Hf4).
  pose proof Hgs as [Happ Hr _ _ _ Hgraph Hhash Hgate Hfacts _].
  destruct (claimed_workflow_executes h2 rel local releases t t2
    (lr_env_key rel, lr_environment rel, ws_application rq, ws_workflow_id rq, ew_version w) r packages (ew_graph w)
    facts b' row2 p2 p3 id pk e ttl locked now2 sc g scope)
    as (run & Hrun & Hpay & Hwho & Hexec); try done; try (by rewrite Hf1; cbn; rewrite Hhash).
  exists rq, packages, w, r, facts, run. split_and!; [done| |done|by rewrite Hpay|done]. rewrite Hwho, Hf4. by destruct who.
Qed.

(** C29. A workflow an event started runs.  Over a release of facts that admission minted,
    each run a delivery admitted belongs to an enabled event workflow; and whatever calls
    of the store, batches of events and retention passes follow that leave the run in its
    table, and whatever the catalog does next, when a host that serves the release claims
    it, it carries the event's projection, as [jsonb] stores it, for its input, and the
    workflow user's identity, and
    executing it ends as the run of a started workflow does: it never fails to resolve. *)
Theorem event_workflow_runs (h h2 : Host) (project : string) (rel : LoadedRelease) (t t2 : Workflows_)
    (schemas : list (string → string → option HistoryModel)) (policy : option DurabilityClass)
    (fresh : list string) (a : EventBatchAdmission) (now now2 : Z) (p p' p2 p3 : Plane) (id : string) (row : RunRow)
    (pk : list string) (e : string) (ttl : Z) (locked : string → bool) (sc : SelectedClaim) (g : Z)
    (scope : QueueScope) (local : option LocalApplication) (releases : string → string → option string) :
  (∀ v, jsonb_eq v v = true) → plane_ok p → catalog_ok t → release_minted (lr_env_key rel) (lr_manifest rel) →
  admit_event_batch h project rel t schemas policy fresh a now p = (p', Ret (Ok tt)) →
  runs p !! (lr_env_key rel, id) = None → runs p' !! (lr_env_key rel, id) = Some row →
  rtc (step_keeping (lr_env_key rel, id)) p' p2 → rtc (catalog_step jsonb_eq) t t2 → serves_release rel local releases →
  (qs_env_key scope, qs_environment scope) = (lr_env_key rel, lr_environment rel) →
  env_key_for h2 QUEUE_CLAIM_SCOPE = Some (lr_env_key rel) →
  claim_next h2 QUEUE_CLAIM_SCOPE pk e ttl locked None now2 p2 = (p3, Ok (ClaimReady sc g)) → sc_run_id sc = id →
  ∃ source w r d facts run, decode_source (ea_envelope a) = Some source ∧
    started_by rel t a now source w r (r_pins row) ∧ parse_document (wf_graph r) = Ok d ∧
    sc_workflow sc = Some run ∧ jsonb (source_input source) = Some (sc_payload sc) ∧
    (wf_execution_principal_id run, ClaimStore.wf_execution_role run) =
      (workflow_user, default ADMIN (WorkflowVersions.wf_execution_role r)) ∧
    ∀ (caller2 : AuthenticatedCaller) (s : S) (fuel : nat), (2 * Z.to_nat DEFAULT_HOP_LIMIT + 2 ≤ fuel)%nat →
    ∃ s' out res, execute_workflow fuel rel local releases t2 (run_request scope sc run caller2) s =
        Some (Ret (s', answered out)) ∧
      rw_facts res = facts ∧ settled_as (wq_run (run_request scope sc run caller2)) d (wf_hash r) res s s' out.
Proof.
  intros Hrefl Hok Hcat Hsound Hbatch Hnew Hrow Hsteps Hcats Hserve Hscope Henv Hclaim Hid.
  destruct (event_batch_spec _ _ _ _ _ _ _ _ _ _ _ _ Hrefl Hok Hbatch) as (Hok' & _ & _ & Hout).
  destruct (Hout eq_refl) as (source & Hsrc & _ & Hruns).
  destruct (Hruns _ _ Hrow) as [Hold|(_ & w & r & pins & Hst & ->)]; [congruence|].
  destruct (kept_run_pins Hrefl _ p' p2 _ Hok' Hsteps Hrow) as (_ & row2 & Hrow2 & Hp2). cbn [admitted_row r_pins] in Hp2.
  apply release_minted_sound in Hsound.
  pose proof (sb_enabled _ _ _ _ _ _ _ _ Hst) as Hen. pose proof (sb_row _ _ _ _ _ _ _ _ Hst) as Hr.
  destruct (sb_pins _ _ _ _ _ _ _ _ Hst) as (b & b' & actor & parent & Hb & Ec & _ & ->).
  destruct (frozen_binds _ _ _ _ _ _ Hb) as (Hi & _ & Hbk & _ & Hbi).
  destruct Hb as (d & packages & facts & Hd & Happ & Hgate & Hfacts & Eb).
  destruct (cast_frozen b b' (digests_of facts) Ec) as (Hf1 & Hf2 & Hf3 & Hf4);
    [by rewrite Eb; destruct w as [[[[? ?] ?] ?] ?]|].
  destruct (claimed_workflow_executes h2 rel local releases t t2 w r packages d facts b' row2 p2 p3 id pk e ttl locked
              now2 sc g scope) as (run & Hrun & Hpay & Hwho & Hexec); try done.
  - destruct w as [[[[env e'] app] wid] version]. cbn [enabled_event fst snd] in *.
    rewrite !andb_true_iff, !String.eqb_eq in Hen. by destruct Hen as [[[[-> ->] _] _] _].
  - by rewrite Hf1.
  - rewrite Hf2, Eb. by destruct w as [[[[? ?] ?] ?] ?].
  - rewrite Hp2. by eexists "event", _, _, parent, now.
  - exists source, w, r, d, facts, run. split_and!; [done..| | |done]; [by rewrite Hpay, <- Hf3, Hi|by rewrite Hwho, Hf4].
Qed.

End Runs.

Module StartSample.

Import AdmissionSample ManifestSample VersionSample.

#[local] Existing Instances EventSample.microseconds EventSample.no_members.
#[local] Instance bytewise : Collation := String.leb.
#[local] Instance canonical_equal : JsonbEq := λ v w, String.eqb (canonical_json_bytes v) (canonical_json_bytes w).
#[local] Instance no_checks : AdmissionChecks := λ _, None.
#[local] Instance any_world : BindingWorlds := Ok.
#[local] Existing Instance BatchSample.one_catalog.

Definition payload (application : string) : Value :=
  VObject [("application", VString application); ("idempotency_key", VString "k"); ("input_json", VNull);
           ("workflow_id", VString "repost")].
#[local] Instance start_texts : JsonText := λ s,
  if String.eqb s "start erp" then Some (payload "erp")
  else if String.eqb s "start crm" then Some (payload "crm")
  else texts s.

Definition served_release : LoadedRelease := {|
  lr_env_key := "acme--shop--dev"; lr_environment := "dev"; lr_applications := [("crm", ["orders"]); ("erp", ["orders"])];
  lr_manifest := ManifestSample.release; lr_digest := bytes_sha256 release_bytes |}.
Definition executor : Host := {|
  env_key_for _ := Some "acme--shop--dev"; runner_for _ := Some "runner";
  release_identity_for _ := Some (bytes_sha256 release_bytes); executor_member := true |}.
Definition ann : AuthenticatedCaller := {|
  attachment_id := "start"; principal_id := "ann"; credential_type := Session; admin := true; permissions := ∅;
  active_role := Some "admin" |}.
Definition start_by_ann (text fresh : string) (t : Workflows_) (p : Plane) :=
  start_workflow executor ann served_release t (Some Standard) fresh 100 text p.
Definition started_plane : Plane := (start_by_ann "start erp" "run-1" four_on empty_plane).1.
Definition claim (p : Plane) := claim_next executor QUEUE_CLAIM_SCOPE ["erp"] "dev" 1000 (λ _, false) None 200 p.
Definition queue_scope : QueueScope := {|
  qs_env_key := "acme--shop--dev"; qs_project := "shop"; qs_package_ids := ["erp"]; qs_environment := "dev" |}.
Definition stored (env_key digest : string) : option string :=
  if String.eqb digest (bytes_sha256 release_bytes) then Some release_bytes else None.

(** The component of the release, as admission minted it for this environment. *)
Definition declaration_dev : ComponentDeclaration := {|
  cd_scope := {| sc_env_key := "acme--shop--dev"; sc_package_id := "orders"; sc_package_version := "1.2.0" |};
  cd_component := "orders"; cd_interface_version := "0.1.0";
  cd_operations := [("orders:order/post@1.2.0", posting)];
  cd_connections := [{| store_alias := "partner"; requirement_type := Http |}] |}.

Lemma served_minted c : c ∈ sm_components ManifestSample.release →
  minted (admitted_component "acme--shop--dev" ManifestSample.release c).
Proof.
  intros Hin. pose (fact := normalize_component_fact declaration_dev digest
    (match admitted with Some f => af_imports (facts_component f) | None => [] end)
    (match admitted with Some f => af_effects (facts_component f) | None => [] end)).
  assert (E : match fact with Ok f => reads_signed (af_operations (facts_component f)) = true ∧
      (admitted_component "acme--shop--dev" ManifestSample.release <$> sm_components ManifestSample.release) = [facts_component f]
    | Err _ => False end) by (vm_compute; split; reflexivity).
  destruct fact as [f|] eqn:Ef; [|destruct E]. destruct E as [Hr Hs]. unfold fact in Ef.
  assert (Hc : admitted_component "acme--shop--dev" ManifestSample.release c ∈
    (admitted_component "acme--shop--dev" ManifestSample.release <$> sm_components ManifestSample.release))
    by (by apply list_elem_of_fmap_2).
  rewrite Hs in Hc. apply list_elem_of_singleton in Hc as ->. do 5 eexists. split; [exact Ef|]. split; [exact Hr|by left].
Qed.

Lemma minted_dev : release_minted "acme--shop--dev" ManifestSample.release.
Proof.
  assert (Hs : release_sound "acme--shop--dev" ManifestSample.release) by GateSample.served_sound.
  constructor; [apply Hs|apply served_minted|apply Hs].
Qed.

Lemma start_equal_refl v : jsonb_eq v v = true.
Proof. apply String.eqb_refl. Qed.

Lemma four_on_ok : catalog_ok four_on.
Proof.
  destruct steps as [S1 S2].
  exact (proj1 (catalog_steps_ok value_eqb ∅ four_on (rtc_trans _ _ _ S1 S2) empty_catalog_ok)).
Qed.

(** The started run is claimed, resolved from the stored release and executed. *)
Lemma started_workflow_runs_witness :
  ∃ p3 sc g run s' out, start_by_ann "start erp" "run-1" four_on empty_plane = (started_plane, Ret (Ok "run-1")) ∧
    claim started_plane = (p3, Ok (ClaimReady sc g)) ∧ sc_workflow sc = Some run ∧
    wf_execution_principal_id run = "wf" ∧ ClaimStore.wf_execution_role run = "clerk" ∧
    execute_workflow (Z.to_nat 20002) served_release None stored four_on (run_request queue_scope sc run ann)
      DriverSample.fresh_host = Some (Ret (s', answered out)).
Proof.
  assert (E : start_by_ann "start erp" "run-1" four_on empty_plane = (started_plane, Ret (Ok "run-1"))).
  { unfold started_plane. destruct (start_by_ann "start erp" "run-1" four_on empty_plane) as [p1 out] eqn:E. f_equal.
    change out with (p1, out).2. rewrite <- E. vm_compute. reflexivity. }
  assert (Hc : match (claim started_plane).2 with Ok (ClaimReady sc _) => sc_run_id sc = "run-1" | _ => False end)
    by (vm_compute; reflexivity).
  destruct (claim started_plane) as [p3 [[|sc g]|]] eqn:Ec; [destruct Hc| |destruct Hc]. cbn [snd] in Hc.
  pose proof E as E'. unfold start_by_ann in E'. pose proof Ec as Ec'. unfold claim in Ec'.
  assert (Hserve : serves_release served_release None stored).
  { exists release_bytes. split; [vm_compute; reflexivity|]. vm_compute. reflexivity. }
  destruct (started_workflow_runs (S := DriverSample.TestHost) executor executor ann served_release four_on four_on
    (Some Standard) "run-1" 100 200 "start erp" empty_plane started_plane started_plane p3 "run-1" ["erp"] "dev" 1000 (λ _, false)
    sc g queue_scope None stored start_equal_refl empty_plane_ok four_on_ok minted_dev E' eq_refl (rtc_refl _ _) (rtc_refl _ _)
    Hserve eq_refl eq_refl Ec' Hc) as (rq & packages & w & r & facts & run & Hrq & Hgs & Hw & _ & Hexec).
  destruct (Hexec ann DriverSample.fresh_host (Z.to_nat 20002)) as (s' & out & res & Hout & _).
  { apply Nat.leb_le. vm_compute. reflexivity. }
  exists p3, sc, g, run, s', out. split; [exact E|]. split; [reflexivity|]. split; [exact Hw|].
  assert (Hr : match (claim started_plane).2 with
               | Ok (ClaimReady sc _) =>
                   match sc_workflow sc with
                   | Some run => wf_execution_principal_id run = "wf" ∧ ClaimStore.wf_execution_role run = "clerk"
                   | None => False
                   end
               | _ => False end) by (vm_compute; split; reflexivity).
  rewrite Ec in Hr. cbn [snd] in Hr. rewrite Hw in Hr. destruct Hr as [Hr1 Hr2].
  split; [exact Hr1|]. split; [exact Hr2|]. exact Hout.
Defined.

(** Two applications with a workflow of one name share a caller's key: the second start
    answers the first application's run, and the second workflow is not started. *)
Definition two_applications : Workflows_ :=
  match four_on !! ("acme--shop--dev", "dev", "erp", "repost", 4%Z) with
  | Some r => <[("acme--shop--dev", "dev", "crm", "repost", 4%Z) := r]> four_on
  | None => ∅
  end.
Example start_key_shared :
  start_by_ann "start crm" "run-2" two_applications empty_plane = ((start_by_ann "start crm" "run-2" two_applications empty_plane).1, Ret (Ok "run-2")) ∧
  start_by_ann "start crm" "run-2" two_applications started_plane = (started_plane, Ret (Ok "run-1")).
Proof. split; vm_compute; reflexivity. Qed.

End StartSample.

Module EventRunSample.

Import AdmissionSample ManifestSample VersionSample.

#[local] Existing Instances EventSample.microseconds EventSample.no_members BatchSample.bytewise
  BatchSample.canonical_equal BatchSample.no_checks BatchSample.any_world BatchSample.one_catalog BatchSample.joined_text
  BatchSample.inserted_text.

Definition executor : Host := {|
  env_key_for _ := Some "acme--shop--dev"; runner_for _ := Some "runner"; release_identity_for _ := Some (lr_digest BatchSample.served_release);
  executor_member := true |}.
Definition claim (p : Plane) := claim_next executor QUEUE_CLAIM_SCOPE ["erp"] "dev" 1000 (λ _, false) None 200 p.
Definition local : LocalApplication := {|
  la_instance := true; la_env_key := "acme--shop--dev"; la_environment := "dev"; la_manifest_digest := lr_digest BatchSample.served_release;
  la_manifest := ManifestSample.release |}.

Lemma three_on_ok : catalog_ok three_on.
Proof.
  assert (H3 : match enable 3 four with Ret (Ok _) => True | _ => False end) by (vm_compute; exact I).
  assert (Hok : catalog_ok four) by exact (proj1 (catalog_steps_ok value_eqb ∅ four (proj1 steps) empty_catalog_ok)).
  unfold three_on, table_of. destruct (enable 3 four) as [[t'|]|] eqn:E; [|destruct H3..]. unfold enable in E.
  exact (proj1 (enable_step_ok false view (version_of 3) "ann" "m" [("erp", ["orders"])] four t' E Hok)).
Qed.

(** The run the delivery of [BatchSample] admitted is claimed and executed, from a local
    release. *)
Lemma event_workflow_runs_witness :
  ∃ p3 sc g run s' out, claim BatchSample.delivered_plane = (p3, Ok (ClaimReady sc g)) ∧ sc_workflow sc = Some run ∧
    sc_payload sc = event_input BatchSample.inserted ∧ ClaimStore.wf_execution_role run = "clerk" ∧
    execute_workflow (Z.to_nat 20002) BatchSample.served_release (Some local) (λ _ _, None) three_on
      (run_request StartSample.queue_scope sc run StartSample.ann) DriverSample.fresh_host = Some (Ret (s', answered out)).
Proof.
  assert (E : BatchSample.deliver 50 ["run-8"] 100 empty_plane = (BatchSample.delivered_plane, Ret (Ok tt))).
  { unfold BatchSample.delivered_plane. destruct (BatchSample.deliver 50 ["run-8"] 100 empty_plane) as [p1 out] eqn:E. f_equal.
    change out with (p1, out).2. rewrite <- E. vm_compute. reflexivity. }
  unfold BatchSample.deliver in E.
  assert (Hrow : is_Some (runs BatchSample.delivered_plane !! ("acme--shop--dev", "run-8"))).
  { apply (bool_decide_unpack _). vm_compute. exact I. }
  destruct Hrow as [row Hrow].
  assert (Hc : match (claim BatchSample.delivered_plane).2 with Ok (ClaimReady sc _) => sc_run_id sc = "run-8" | _ => False end)
    by (vm_compute; reflexivity).
  destruct (claim BatchSample.delivered_plane) as [p3 [[|sc g]|]] eqn:Ec; [destruct Hc| |destruct Hc]. cbn [snd] in Hc.
  unfold claim in Ec.
  assert (Hserve : serves_release BatchSample.served_release (Some local) (λ _ _, None)) by (repeat split; reflexivity).
  destruct (event_workflow_runs (S := DriverSample.TestHost) BatchSample.executor executor "shop" BatchSample.served_release
    three_on three_on [] (Some Standard) ["run-8"] (BatchSample.delivery 50) 100 200 empty_plane BatchSample.delivered_plane
    BatchSample.delivered_plane p3 "run-8" row ["erp"] "dev" 1000 (λ _, false) sc g StartSample.queue_scope (Some local)
    (λ _ _, None) BatchSample.equal_refl empty_plane_ok three_on_ok StartSample.minted_dev E eq_refl Hrow (rtc_refl _ _)
    (rtc_refl _ _) Hserve eq_refl eq_refl Ec Hc)
    as (source & w & r & d & facts & run & Hsrc & Hst & _ & Hw & Hpay & Hwho & Hexec).
  assert (Hs' : decode_source "inserted" = Some (Cdc BatchSample.inserted)) by (vm_compute; reflexivity).
  change (ea_envelope (BatchSample.delivery 50)) with "inserted" in Hsrc. rewrite Hs' in Hsrc. injection Hsrc as <-.
  destruct (Hexec StartSample.ann DriverSample.fresh_host (Z.to_nat 20002)) as (s' & out & res & Hout & _).
  { apply Nat.leb_le. vm_compute. reflexivity. }
  exists p3, sc, g, run, s', out. split; [reflexivity|]. split; [exact Hw|]. split; [exact (eq_sym (f_equal (default VNull) Hpay))|]. split; [|exact Hout].
  assert (Hr : match (claim BatchSample.delivered_plane).2 with
               | Ok (ClaimReady sc _) => (ClaimStore.wf_execution_role <$> sc_workflow sc) = Some "clerk"
               | _ => False end) by (vm_compute; reflexivity).
  unfold claim in Hr. rewrite Ec in Hr. cbn [snd] in Hr. rewrite Hw in Hr. by injection Hr.
Defined.

End EventRunSample.
