(* ===== verification/CdcReader.v ===== *)
(** * The change-data reader

    [services/cdc-reader/src/lib.rs]: the classification of session errors, the reopen
    ladder, the drain of one replication session (transactions buffered to their
    commit, rows resolved to entities, the confirmed position) and the pipelined
    publication of one transaction with its retries.

    What the reader meets is given as lists it consumes: the frames of a session and
    the error that ends it, one fate per publication and one answer per look at the
    shutdown token.  Off the end of a list a publication is stored and acknowledged
    and no shutdown is requested.  Logging, gauges and the slot monitor are left out,
    and so is the preflight, which reads the catalog before each session. *)

From stdpp Require Import base tactics option list gmap strings sorting.
From Stdlib Require Import ZArith Lia.
From S2P Require Import Prelude Text Json Canonical Router ClaimStore Packages ComponentFacts WiringDocuments.
From S2P Require Import EventWire EventTriggers.
#[local] Set Warnings "-clear-no-such-hyp".
Open Scope Z_scope.

(** ** Session errors *)

Inductive ReplicationKind := RCancelled | RAuthentication | RConfig | RProtocol | RTransient | RIo | ROther.
Record ReplicationError := { re_kind : ReplicationKind; re_text : string }.
Inductive SessionFate := FateCancelled | SlotIncident | Fatal | Reopen.

Definition classify (e : ReplicationError) : SessionFate :=
  let msg := to_ascii_lowercase (re_text e) in
  if contains_text msg "invalidat" || contains_text msg "can no longer be used" then SlotIncident
  else match re_kind e with
       | RCancelled => FateCancelled
       | RAuthentication | RConfig => Fatal
       | _ => Reopen
       end.

(** ** The reopen ladder

    Instants and durations in nanoseconds. *)

Definition second : Z := 1000000000.

Record ReopenLadder := {
  consecutive_failures : Z;  (* u32 *)
  total_reopens : Z;  (* u64 *)
  window_reopens : list Z;
  max_consecutive : Z;
  rate_window : Z;
  rate_cap : nat;
  base_backoff : Z;
  max_backoff : Z;
}.

Inductive LadderStep := Backoff (delay : Z) | Trip.

Definition new_ladder : ReopenLadder := {|
  consecutive_failures := 0; total_reopens := 0; window_reopens := []; max_consecutive := 10;
  rate_window := 60 * second; rate_cap := 20; base_backoff := second; max_backoff := 30 * second |}.

(** The front of the window, while it is older than the window. *)
Fixpoint drop_old (now window : Z) (l : list Z) : list Z :=
  match l with
  | front :: rest => if (window <? Z.max 0 (now - front)) then drop_old now window rest else l
  | [] => []
  end.

Definition note_reopen (l : ReopenLadder) (now commits : Z) : ReopenLadder * LadderStep :=
  let failures := if (0 <? commits) then 0 else u32_add (consecutive_failures l) 1 in
  let window := drop_old now (rate_window l) (window_reopens l ++ [now]) in
  let l' := {| consecutive_failures := failures; total_reopens := u64_add (total_reopens l) 1;
               window_reopens := window; max_consecutive := max_consecutive l; rate_window := rate_window l;
               rate_cap := rate_cap l; base_backoff := base_backoff l; max_backoff := max_backoff l |} in
  (l', if (max_consecutive l <=? failures) then Trip
       else if (rate_cap l <? length window)%nat then Trip
       else
         let shift := Z.min (Z.max 0 (failures - 1)) 20 in
         Backoff (Z.min (base_backoff l * 2 ^ shift) (max_backoff l))).

(** ** Publication *)

Record PreparedMsg := { pm_subject : string; pm_id : string; pm_payload : string }.

(** What becomes of one publication.  [SendStored fresh acked]: the broker took the
    message; [fresh] is that its duplicate window no longer holds an earlier copy, and
    [acked] that the acknowledgment arrived. *)
Inductive SendFate := SendRefused | SendLost | SendStored (fresh acked : bool).

Record Publisher := {
  pb_stream : list PreparedMsg;  (* the broker's stream *)
  pb_fates : list SendFate;
  pb_cancels : list bool;
}.

Definition holds (stream : list PreparedMsg) (id : string) : bool := existsb (λ m, String.eqb (pm_id m) id) stream.

(** [JsPublisher::send]: a held acknowledgment, which settles as a duplicate or not,
    or fails. *)
Definition send (pb : Publisher) (m : PreparedMsg) : Publisher * option (option bool) :=
  let fate := default (SendStored false true) (head (pb_fates pb)) in
  let rest s := {| pb_stream := s; pb_fates := tail (pb_fates pb); pb_cancels := pb_cancels pb |} in
  match fate with
  | SendRefused => (rest (pb_stream pb), None)
  | SendLost => (rest (pb_stream pb), Some None)
  | SendStored fresh acked =>
      let duplicate := holds (pb_stream pb) (pm_id m) && negb fresh in
      (rest (if duplicate then pb_stream pb else pb_stream pb ++ [m]),
       Some (if acked then Some duplicate else None))
  end.

(** [token.is_cancelled()]. *)
Definition is_cancelled (pb : Publisher) : Publisher * bool :=
  ({| pb_stream := pb_stream pb; pb_fates := pb_fates pb; pb_cancels := tail (pb_cancels pb) |},
   default false (head (pb_cancels pb))).

Record PublishTally := { ty_published : Z; ty_deduped : Z }.
Definition no_tally : PublishTally := {| ty_published := 0; ty_deduped := 0 |}.

(** [settle_all]: the first row without an acknowledgment, the tally, and whether
    every held acknowledgment settled. *)
Fixpoint settle_all (first_unacked : nat) (held : list (nat * option bool)) (t : PublishTally) :
    nat * PublishTally * bool :=
  match held with
  | [] => (first_unacked, t, true)
  | (idx, Some duplicate) :: held =>
      settle_all (S idx) held
        {| ty_published := u64_add (ty_published t) 1;
           ty_deduped := if duplicate : bool then u64_add (ty_deduped t) 1 else ty_deduped t |}
  | (_, None) :: _ => (first_unacked, t, false)
  end.

Inductive PassOutcome := PassComplete | PassCancelled | PassFailed.

(** The pass over the messages that remain, the first of them at index [idx]. *)
Fixpoint publish_rows (idx : nat) (msgs : list PreparedMsg) (max_in_flight first_unacked : nat)
    (held : list (nat * option bool)) (t : PublishTally) (pb : Publisher) :
    Publisher * nat * PublishTally * PassOutcome :=
  match msgs with
  | [] =>
      let '(first_unacked, t, settled) := settle_all first_unacked held t in
      (pb, first_unacked, t, if settled : bool then PassComplete else PassFailed)
  | m :: msgs =>
      let '(pb, cancelled) := is_cancelled pb in
      if cancelled : bool then (pb, first_unacked, t, PassCancelled)
      else
        match send pb m with
        | (pb, None) => (pb, first_unacked, t, PassFailed)
        | (pb, Some ack) =>
            let held := held ++ [(idx, ack)] in
            if (max_in_flight <=? length held)%nat then
              let '(first_unacked, t, settled) := settle_all first_unacked held t in
              if settled : bool then publish_rows (S idx) msgs max_in_flight first_unacked [] t pb
              else (pb, first_unacked, t, PassFailed)
            else publish_rows (S idx) msgs max_in_flight first_unacked held t pb
        end
  end.

Definition publish_pass (msgs : list PreparedMsg) (max_in_flight first_unacked : nat) (t : PublishTally)
    (pb : Publisher) : Publisher * nat * PublishTally * PassOutcome :=
  publish_rows first_unacked (drop first_unacked msgs) max_in_flight first_unacked [] t pb.

Inductive PublishOutcome := Acked | CancelledMidRetry.

(** [publish_txn], with a bound on the passes; the row a failed pass reports is
    [msgs[first_unacked]]. *)
Fixpoint publish_txn (fuel : nat) (msgs : list PreparedMsg) (max_in_flight first_unacked : nat)
    (t : PublishTally) (pb : Publisher) : option (run (Publisher * PublishTally * PublishOutcome)) :=
  match fuel with
  | O => None
  | S fuel =>
      let '(pb, cancelled) := is_cancelled pb in
      if cancelled : bool then Some (Ret (pb, t, CancelledMidRetry))
      else
        match publish_pass msgs max_in_flight first_unacked t pb with
        | (pb, _, t, PassComplete) => Some (Ret (pb, t, Acked))
        | (pb, _, t, PassCancelled) => Some (Ret (pb, t, CancelledMidRetry))
        | (pb, first_unacked, t, PassFailed) =>
            match msgs !! first_unacked with
            | None => Some (Panic "index out of bounds")
            | Some _ =>
                (* the backoff, which a shutdown ends *)
                let '(pb, cancelled) := is_cancelled pb in
                if cancelled : bool then Some (Ret (pb, t, CancelledMidRetry))
                else publish_txn fuel msgs max_in_flight first_unacked t pb
            end
        end
  end.

Definition MAX_IN_FLIGHT : nat := 256.

(** ** Rows *)

Inductive ColumnValue := ColNull | ColText (bytes : string).

Definition non_utf8 (name : string) : ReplicationError :=
  {| re_kind := RConfig; re_text := "non-UTF-8 value in column " +:+ name |}.

Definition row_to_map (row : list (string * ColumnValue)) :
    result (list (string * Value)) ReplicationError :=
  foldl (λ acc (nv : string * ColumnValue),
    match acc with
    | Err e => Err e
    | Ok m =>
        match nv.2 with
        | ColNull => Ok (map_insert nv.1 VNull m)
        | ColText s =>
            if valid_utf8 (String.length s) s then Ok (map_insert nv.1 (VString s) m) else Err (non_utf8 nv.1)
        end
    end) (Ok []) row.

Definition image (row : option (list (string * ColumnValue))) :
    result (option (list (string * Value))) ReplicationError :=
  match row with
  | None => Ok None
  | Some row => match row_to_map row with Ok m => Ok (Some m) | Err e => Err e end
  end.

(** ** Causation messages *)

(** [serde_json::from_slice::<Causation>]: no member twice. *)
Definition causation_of_text `{JsonText, JsonMembers} (content : string) : option Causation :=
  match json_members content with
  | Some members => if bool_decide (NoDup members.*1) then decode_causation_stamp (VObject members) else None
  | None => parse_json content ≫= decode_causation_stamp
  end.

Definition parse_causation `{JsonText, JsonMembers} (flags : Z) (prefix content : string) : option Causation :=
  if Z.even flags || negb (String.eqb prefix "wamn.causation") then None else causation_of_text content.

(** ** Sessions *)

Record EntityMapping := { em_package_id : string; em_entity_id : string }.
Record ExcludedRelation := { xr_package_id : string; xr_relation_id : string }.
Inductive RelationClassification := REntity (m : EntityMapping) | RExcluded (x : ExcludedRelation).

Definition CONTROL_OWNED_ENTITY_MAP_RELATION : string := "wamn_entities".
Definition CONTROL_OWNED_CDC_EXCLUSION_MAP_RELATION : string := "wamn_cdc_exclusions".

(** A row of [relation_classification_lookup_sql], its four columns. *)
Definition classification_of (row : option string * option string * option string * option string) :
    result RelationClassification ReplicationError :=
  match row with
  | (Some package_id, Some entity_id, None, None) =>
      Ok (REntity {| em_package_id := package_id; em_entity_id := entity_id |})
  | (None, None, Some package_id, Some relation_id) =>
      Ok (RExcluded {| xr_package_id := package_id; xr_relation_id := relation_id |})
  | _ => Err {| re_kind := RConfig; re_text := "cdc-unmapped-managed-relation" |}
  end.

Record RowFrame := {
  rf_op : Op;
  rf_old : option (list (string * ColumnValue));
  rf_new : option (list (string * ColumnValue));
  rf_schema : string;
  rf_table : string;
  rf_oid : Z;
  rf_lsn : Z;
}.

(** [EventType].  An insert carries no old image and a delete no new one. *)
Inductive Frame :=
| FBegin (txid commit_ts : Z)
| FCommit (end_lsn : Z)
| FMessage (flags : Z) (prefix content : string)
| FRow (r : RowFrame)
| FTruncate
| FMetadata
| FKeepalive (wal_end : Z)
| FUnexpected.

Record PendingRow := {
  pr_op : Op;
  pr_old : option (list (string * Value));
  pr_new : option (list (string * Value));
  pr_entity : EntityMapping;
  pr_table : string;
  pr_lsn : Z;
}.

Record Txn := {
  tn_txid : Z;
  tn_commit_ts : Z;
  tn_causation : option Causation;
  tn_rows : list PendingRow;
  tn_excluded : gmap string Z;
}.

Record DrainSummary := {
  sm_commits : Z;
  sm_published : Z;
  sm_deduped : Z;
  sm_truncates : Z;
  sm_excluded : gmap string Z;
}.

Record DrainState := {
  ds_txn : option Txn;
  ds_cache : gmap Z RelationClassification;
  ds_summary : DrainSummary;
  ds_flushed : Z;  (* the feedback position *)
  ds_publisher : Publisher;
}.

Inductive DrainEnd := Shutdown | Severed (e : ReplicationError).

Definition with_txn (t : option Txn) (s : DrainState) : DrainState := {|
  ds_txn := t; ds_cache := ds_cache s; ds_summary := ds_summary s; ds_flushed := ds_flushed s;
  ds_publisher := ds_publisher s |}.
Definition with_cache (c : gmap Z RelationClassification) (s : DrainState) : DrainState := {|
  ds_txn := ds_txn s; ds_cache := c; ds_summary := ds_summary s; ds_flushed := ds_flushed s;
  ds_publisher := ds_publisher s |}.
Definition with_flushed (l : Z) (s : DrainState) : DrainState := {|
  ds_txn := ds_txn s; ds_cache := ds_cache s; ds_summary := ds_summary s; ds_flushed := l;
  ds_publisher := ds_publisher s |}.
Definition with_publisher (pb : Publisher) (s : DrainState) : DrainState := {|
  ds_txn := ds_txn s; ds_cache := ds_cache s; ds_summary := ds_summary s; ds_flushed := ds_flushed s;
  ds_publisher := pb |}.
Definition with_summary (m : DrainSummary) (s : DrainState) : DrainState := {|
  ds_txn := ds_txn s; ds_cache := ds_cache s; ds_summary := m; ds_flushed := ds_flushed s;
  ds_publisher := ds_publisher s |}.

Definition bump (identity : string) (count : Z) (m : gmap string Z) : gmap string Z :=
  <[identity := u64_add (default 0 (m !! identity)) count]> m.

Definition merge_relation_counts (committed pending : gmap string Z) : gmap string Z :=
  map_fold bump committed pending.

Definition truncated (m : DrainSummary) : DrainSummary := {|
  sm_commits := sm_commits m; sm_published := sm_published m; sm_deduped := sm_deduped m;
  sm_truncates := u64_add (sm_truncates m) 1; sm_excluded := sm_excluded m |}.

Definition committed (tally : PublishTally) (excluded : gmap string Z) (m : DrainSummary) : DrainSummary := {|
  sm_commits := u64_add (sm_commits m) 1; sm_published := u64_add (sm_published m) (ty_published tally);
  sm_deduped := u64_add (sm_deduped m) (ty_deduped tally); sm_truncates := sm_truncates m;
  sm_excluded := merge_relation_counts (sm_excluded m) excluded |}.

Record ReaderScope := { rs_org : string; rs_project : string; rs_env : string }.

Section Drain.
Context `{JsonText, JsonMembers, InstantText, JsonPrint}.
Context (scope : ReaderScope).

(** [resolve_relation_classification] over the maps as they stand in this session. *)
Context (resolve : string → Z → result RelationClassification ReplicationError).

Definition envelope_of (t : Txn) (r : PendingRow) : Envelope := {|
  en_op := pr_op r; en_old := pr_old r; en_new := pr_new r; en_package_id := em_package_id (pr_entity r);
  en_entity := em_entity_id (pr_entity r); en_table := pr_table r; en_lsn := pr_lsn r; en_txid := tn_txid t;
  en_commit_ts := tn_commit_ts t; en_causation := tn_causation t |}.

Definition prepared (t : Txn) (r : PendingRow) : PreparedMsg := {|
  pm_subject := subject (rs_org scope) (rs_project scope) (rs_env scope) (em_entity_id (pr_entity r)) (pr_op r);
  pm_id := msg_id (rs_project scope) (rs_env scope) (pr_lsn r);
  pm_payload := print_json (envelope_value (envelope_of t r)) |}.

Definition set_causation (c : Causation) (t : Txn) : Txn := {|
  tn_txid := tn_txid t; tn_commit_ts := tn_commit_ts t; tn_causation := Some c; tn_rows := tn_rows t;
  tn_excluded := tn_excluded t |}.
Definition push_row (r : PendingRow) (t : Txn) : Txn := {|
  tn_txid := tn_txid t; tn_commit_ts := tn_commit_ts t; tn_causation := tn_causation t;
  tn_rows := tn_rows t ++ [r]; tn_excluded := tn_excluded t |}.
Definition exclude (x : ExcludedRelation) (t : Txn) : Txn := {|
  tn_txid := tn_txid t; tn_commit_ts := tn_commit_ts t; tn_causation := tn_causation t; tn_rows := tn_rows t;
  tn_excluded := bump (xr_package_id x +:+ "::" +:+ xr_relation_id x) 1 (tn_excluded t) |}.

Definition protocol (text : string) : ReplicationError := {| re_kind := RProtocol; re_text := text |}.

(** A row that is not of a control-owned map: resolved, then buffered. *)
Definition drain_row (r : RowFrame) (s : DrainState) : DrainState + (DrainState * DrainEnd) :=
  match (match ds_cache s !! rf_oid r with
         | Some c => Ok (c, s)
         | None =>
             match resolve (rf_schema r) (rf_oid r) with
             | Ok c => Ok (c, with_cache (<[rf_oid r := c]> (ds_cache s)) s)
             | Err e => Err e
             end
         end) with
  | Err e => inr (s, Severed e)
  | Ok (classification, s) =>
      match ds_txn s with
      | None => inr (s, Severed (protocol "row event outside a Begin/Commit frame"))
      | Some t =>
          match classification with
          | RExcluded x => inl (with_txn (Some (exclude x t)) s)
          | REntity mapping =>
              match image (rf_old r), image (rf_new r) with
              | Err e, _ | _, Err e => inr (s, Severed e)
              | Ok old, Ok new =>
                  inl (with_txn (Some (push_row
                    {| pr_op := rf_op r; pr_old := old; pr_new := new; pr_entity := mapping;
                       pr_table := rf_table r; pr_lsn := rf_lsn r |} t)) s)
              end
          end
      end
  end.

(** The commit of a buffered transaction: publish every row, settle every
    acknowledgment, then advance the position. *)
Definition drain_commit (end_lsn : Z) (t : Txn) (s : DrainState) :
    option (run (DrainState + (DrainState * DrainEnd))) :=
  match publish_txn (S (length (pb_fates (ds_publisher s)))) (prepared t <$> tn_rows t) MAX_IN_FLIGHT 0 no_tally
          (ds_publisher s) with
  | None => None
  | Some (Panic m) => Some (Panic m)
  | Some (Ret (pb, _, CancelledMidRetry)) => Some (Ret (inr (with_publisher pb s, Shutdown)))
  | Some (Ret (pb, tally, Acked)) =>
      let s := with_publisher pb s in
      Some (Ret (inl (with_flushed end_lsn
        (with_summary (committed tally (tn_excluded t) (ds_summary s)) s))))
  end.

(** One turn of the loop of [drain]. *)
Definition drain_frame (f : Frame) (s : DrainState) : option (run (DrainState + (DrainState * DrainEnd))) :=
  match f with
  | FBegin txid commit_ts =>
      Some (Ret (inl (with_txn (Some {| tn_txid := txid; tn_commit_ts := commit_ts; tn_causation := None;
                                        tn_rows := []; tn_excluded := ∅ |}) s)))
  | FCommit end_lsn =>
      match ds_txn s with
      | None => Some (Ret (inr (s, Severed (protocol "Commit outside a Begin frame"))))
      | Some t => drain_commit end_lsn t (with_txn None s)
      end
  | FMessage flags prefix content =>
      Some (Ret (inl (match parse_causation flags prefix content, ds_txn s with
                      | Some c, Some t => with_txn (Some (set_causation c t)) s
                      | _, _ => s
                      end)))
  | FRow r =>
      Some (Ret (if String.eqb (rf_table r) CONTROL_OWNED_ENTITY_MAP_RELATION
                    || String.eqb (rf_table r) CONTROL_OWNED_CDC_EXCLUSION_MAP_RELATION
                 then inl s else drain_row r s))
  | FTruncate => Some (Ret (inl (with_summary (truncated (ds_summary s)) s)))
  | FKeepalive wal_end =>
      Some (Ret (inl (if bool_decide (ds_txn s = None) && (ds_flushed s <? wal_end)
                      then with_flushed wal_end s else s)))
  | FMetadata | FUnexpected => Some (Ret (inl s))
  end.

(** [drain] over the frames of a session; [last] is how the stream ends. *)
Fixpoint drain (frames : list Frame) (last : ReplicationError) (s : DrainState) :
    option (run (DrainState * DrainEnd)) :=
  match frames with
  | [] => Some (Ret (s, match re_kind last with RCancelled => Shutdown | _ => Severed last end))
  | f :: frames =>
      match drain_frame f s with
      | None => None
      | Some (Panic m) => Some (Panic m)
      | Some (Ret (inr ended)) => Some (Ret ended)
      | Some (Ret (inl s)) => drain frames last s
      end
  end.

End Drain.

(** What the reader does after a session: [None] is a clean exit, [Some None] an
    error exit, and [Some (Some delay)] a reopen. *)
Definition after_session (l : ReopenLadder) (now commits : Z) (cancelled : bool) (ended : DrainEnd) :
    ReopenLadder * option (option Z) :=
  match ended with
  | Shutdown => (l, None)
  | Severed e =>
      if cancelled then (l, None)
      else match classify e with
           | FateCancelled => (l, None)
           | Fatal => (l, Some None)
           | SlotIncident | Reopen =>
               match note_reopen l now commits with
               | (l, Trip) => (l, Some None)
               | (l, Backoff delay) => (l, Some (Some delay))
               end
           end
  end.

(** ** The ladder bounds the reopens *)

(** The reopens of a reader's life: their instants and the commits of the sessions
    they follow. *)
Definition reopens (events : list (Z * Z)) : ReopenLadder * list LadderStep :=
  foldl (λ '(l, steps) '(now, commits),
           let '(l, step) := note_reopen l now commits in (l, steps ++ [step])) (new_ladder, []) events.

Lemma reopens_snoc events now commits :
  reopens (events ++ [(now, commits)]) =
  let '(l, steps) := reopens events in
  let '(l, step) := note_reopen l now commits in (l, steps ++ [step]).
Proof. unfold reopens. rewrite foldl_app. simpl. by destruct (foldl _ _ events). Qed.

(** The unproductive reopens at the end of a list. *)
Fixpoint idle_run (events : list (Z * Z)) : Z :=
  match events with
  | [] => 0
  | (_, commits) :: events =>
      if bool_decide (Forall (λ e, e.2 <= 0) ((0, commits) :: events)) then 1 + Z.of_nat (length events)
      else idle_run events
  end.

Lemma idle_run_snoc events now commits :
  idle_run (events ++ [(now, commits)]) = if 0 <? commits then 0 else idle_run events + 1.
Proof.
  induction events as [|[n c] events IH]; simpl.
  - destruct (Z.ltb_spec 0 commits); case_bool_decide as HF; rewrite Forall_singleton in HF; simpl in HF; lia.
  - rewrite IH, !length_app. simpl.
    assert (Hiff : Forall (λ e : Z * Z, e.2 <= 0) ((0, c) :: events ++ [(now, commits)]) ↔
      Forall (λ e : Z * Z, e.2 <= 0) ((0, c) :: events) ∧ commits <= 0).
    { rewrite !Forall_cons, Forall_app, Forall_singleton. naive_solver. }
    rewrite (bool_decide_ext _ _ Hiff).
    destruct (Z.ltb_spec 0 commits); [rewrite bool_decide_eq_false_2 by (intros [_ ?]; lia); done|].
    case_bool_decide as H1; case_bool_decide as H2; [lia|naive_solver|naive_solver|done].
Qed.

Lemma drop_old_split now window l : 0 ≤ window →
  ∃ old, l = old ++ drop_old now window l ∧ Forall (λ t, window < now - t) old.
Proof.
  intros Hw. induction l as [|t l (old & E & Ho)]; simpl; [by exists []|].
  destruct (Z.ltb_spec window (Z.max 0 (now - t))) as [Hlt|]; [|by exists []].
  exists (t :: old). simpl. split; [by f_equal|]. constructor; [lia|done].
Qed.

(** What the ladder holds after the reopens [events], the last of them at [now]. *)
Record ladder_holds (events : list (Z * Z)) (l : ReopenLadder) : Prop := {
  lh_limits : max_consecutive l = 10 ∧ rate_window l = 60 * second ∧ rate_cap l = 20%nat ∧
              base_backoff l = second ∧ max_backoff l = 30 * second;
  lh_failures : consecutive_failures l = idle_run events;
  lh_window : ∃ old, events.*1 = old ++ window_reopens l ∧
    ∀ t now, t ∈ old → last (events.*1) = Some now → 60 * second < now - t;
}.

Lemma idle_run_bounds events : 0 ≤ idle_run events ≤ Z.of_nat (length events).
Proof. induction events as [|[n c] events IH]; simpl; [lia|]. case_bool_decide; lia. Qed.

Lemma note_reopen_holds events l now commits : ladder_holds events l →
  idle_run events < 10 → (∀ t, t ∈ events.*1 → t ≤ now) →
  ladder_holds (events ++ [(now, commits)]) (note_reopen l now commits).1.
Proof.
  intros [(Hmax & Hwin & Hcap & Hbase & Hmb) Hf (old & E & Ho)] Hidle Hle. split; simpl; [done| |].
  - rewrite idle_run_snoc. destruct (0 <? commits); [done|]. unfold u32_add. rewrite Hf.
    apply Z.mod_small. pose proof (idle_run_bounds events). lia.
  - rewrite Hwin. destruct (drop_old_split now (60 * second) (window_reopens l ++ [now])) as (old' & E' & Ho').
    { by unfold second. }
    exists (old ++ old'). rewrite fmap_app. simpl. split; [by rewrite E, <-!app_assoc, <-E'|].
    intros t now'. rewrite last_snoc. intros [Ht|Ht]%elem_of_app [= <-].
    + destruct (last events.*1) as [n|] eqn:El.
      * specialize (Ho t n Ht eq_refl). assert (n ≤ now); [|lia]. apply Hle.
        rewrite last_lookup in El. by eapply list_elem_of_lookup_2.
      * apply last_None in El. rewrite El in E. symmetry in E. apply app_eq_nil in E as [-> _].
        by apply elem_of_nil in Ht.
    + rewrite Forall_forall in Ho'. by apply Ho'.
Qed.

(** The reopens of a reader that has not given up. *)
Lemma reopens_hold events : StronglySorted Z.le events.*1 → Trip ∉ (reopens events).2 →
  ladder_holds events (reopens events).1 ∧ idle_run events < 10 ∧
  length (reopens events).2 = length events ∧
  (∀ i t t', events.*1 !! i = Some t → events.*1 !! (i + 20)%nat = Some t' → 60 * second < t' - t) ∧
  (∀ d, Backoff d ∈ (reopens events).2 → second ≤ d ≤ 30 * second).
Proof.
  induction events as [|[now commits] events IH] using rev_ind; intros Hs Hn.
  { split_and!; [split; [done|done|]|done|done|done|].
    - exists []. split; [done|]. intros t n Ht. by apply elem_of_nil in Ht.
    - intros d Hd. by apply elem_of_nil in Hd. }
  rewrite reopens_snoc in Hn |- *. destruct (reopens events) as [l steps] eqn:El. simpl in IH.
  rewrite fmap_app in Hs. apply StronglySorted_app in Hs as (Hle & Hs & _).
  destruct (note_reopen l now commits) as [l' step] eqn:En. simpl in Hn |- *.
  rewrite not_elem_of_app, list_elem_of_singleton in Hn. destruct Hn as [Hn Hstep].
  destruct (IH Hs Hn) as (Hh & Hidle & Hlen & Hgap & Hd).
  assert (Hh' : ladder_holds (events ++ [(now, commits)]) l').
  { replace l' with (note_reopen l now commits).1 by (by rewrite En).
    apply note_reopen_holds; [done|done|]. intros t Ht. apply Hle; [done|]. simpl. by left. }
  pose proof Hh' as [_ Hf' (old & Eold & Hold)].
  destruct Hh as [(Hmax & Hwin & Hcap & Hbase & Hmb) _ _].
  unfold note_reopen in En. rewrite Hmax, Hcap, Hbase, Hmb in En. injection En as <- Estep.
  simpl in Hf', Eold. rewrite Hf' in Estep. rewrite fmap_app in Eold, Hold. simpl in Eold, Hold.
  destruct (Z.leb_spec 10 (idle_run (events ++ [(now, commits)]))) as [|Hlt]; [by subst|].
  destruct (Nat.ltb_spec 20 (length (drop_old now (rate_window l) (window_reopens l ++ [now])))) as [|Hc]; [by subst|].
  split_and!; [done|done|rewrite !length_app; simpl; lia| |].
  - intros i t t'. rewrite fmap_app. simpl. intros Ht Ht'.
    destruct (Nat.lt_ge_cases (i + 20) (length events.*1)) as [Hin|Hout].
    { rewrite lookup_app_l in Ht by lia. rewrite lookup_app_l in Ht' by lia. eauto. }
    rewrite lookup_app_r in Ht' by lia. apply list_lookup_singleton_Some in Ht' as [Hi <-].
    destruct (Nat.lt_ge_cases i (length old)) as [Hi'|Hi'].
    + apply (Hold t now); [|by rewrite last_snoc]. rewrite Eold, lookup_app_l in Ht by done.
      by eapply list_elem_of_lookup_2.
    + apply (f_equal length) in Eold. rewrite !length_app in Eold. simpl in Eold. lia.
  - intros d [?|<-%list_elem_of_singleton]%elem_of_app; [auto|]. injection Estep as <-.
    set (shift := Z.min _ 20).
    assert (1 ≤ 2 ^ shift) by (apply (Z.pow_le_mono_r 2 0); unfold shift; lia).
    unfold second. lia.
Qed.

Lemma idle_run_ge n events : (0 < n)%nat → Z.of_nat n ≤ idle_run events ↔
  (n ≤ length events)%nat ∧ Forall (λ e : Z * Z, e.2 <= 0) (drop (length events - n) events).
Proof.
  intros Hn. induction events as [|[now c] events IH].
  { simpl. split; [lia|intros [? _]; lia]. }
  cbn [idle_run length]. destruct (Nat.le_gt_cases n (length events)) as [Hle|Hgt].
  - replace (S (length events) - n)%nat with (S (length events - n)) by lia. simpl drop.
    case_bool_decide as HF; [|rewrite IH; naive_solver lia].
    apply Forall_cons in HF as [_ HF]. split; [|lia]. intros _. split; [lia|]. by apply Forall_drop.
  - pose proof (idle_run_bounds events). case_bool_decide as HF.
    + split; [|lia]. intros ?. assert (n = S (length events)) as -> by lia. rewrite Nat.sub_diag. split; [lia|].
      apply Forall_cons in HF as [? ?]. by constructor.
    + split; [lia|]. intros [? HD]. assert (n = S (length events)) as -> by lia. rewrite Nat.sub_diag in HD.
      exfalso. apply HF. apply Forall_cons in HD as [? ?]. by constructor.
Qed.

Lemma drop_old_fresh now window l : StronglySorted Z.le l → ∀ t, t ∈ drop_old now window l → now - t ≤ window.
Proof.
  induction l as [|f l IH]; simpl; [by intros _ t ?%elem_of_nil|].
  intros [Hs Ha]%StronglySorted_inv t. destruct (Z.ltb_spec window (Z.max 0 (now - f))); [by apply IH|].
  rewrite Forall_forall in Ha. intros [-> |Ht]%elem_of_cons; [lia|]. specialize (Ha t Ht). lia.
Qed.

(** The window holds the times no older than it: more than twenty of them, exactly when
    the twenty-first from the end is one. *)
Lemma window_full events l now commits : ladder_holds events l → idle_run events < 10 →
  StronglySorted Z.le (events.*1 ++ [now]) →
  (20 < length (window_reopens (note_reopen l now commits).1))%nat ↔
  ∃ t, (20 ≤ length events)%nat ∧ (events ++ [(now, commits)]).*1 !! (length events - 20)%nat = Some t ∧
       now - t ≤ 60 * second.
Proof.
  intros Hh Hidle Hsort. pose proof Hsort as Hsort'. apply StronglySorted_app in Hsort' as (Hle & Hs & _).
  destruct (note_reopen_holds events l now commits Hh Hidle) as [_ _ (old & E & Ho)].
  { intros t Ht. apply Hle; [done|by left]. }
  destruct Hh as [(_ & Hwin & _) _ (old0 & E0 & _)].
  assert (Hfresh : ∀ t, t ∈ window_reopens (note_reopen l now commits).1 → now - t ≤ 60 * second).
  { simpl. rewrite Hwin. apply drop_old_fresh. rewrite E0, <-app_assoc in Hsort.
    by apply StronglySorted_app in Hsort as (_ & _ & ?). }
  revert E Ho Hfresh. generalize (window_reopens (note_reopen l now commits).1). intros win E Ho Hfresh.
  pose proof (f_equal length E) as El. rewrite fmap_app, !length_app, length_fmap in El. simpl in El.
  split.
  - intros Hlt. destruct (lookup_lt_is_Some_2 win (length events - 20 - length old)) as [t Ht]; [lia|].
    exists t. split; [lia|]. split; [|by eapply Hfresh, list_elem_of_lookup_2].
    rewrite E, lookup_app_r by lia. done.
  - intros (t & Hlen & Ht & Hw). destruct (Nat.lt_ge_cases (length events - 20) (length old)) as [Hlt|]; [|lia].
    rewrite E, lookup_app_l in Ht by done.
    specialize (Ho t now (list_elem_of_lookup_2 _ _ _ Ht)). rewrite fmap_app in Ho. simpl in Ho.
    specialize (Ho (last_snoc _ _)). lia.
Qed.

(** The reader gives up exactly when it must: after the reopens [events], none of
    which made it give up, the next one does if and only if it is the tenth in a row
    whose session committed nothing or the twenty-first within sixty seconds;
    otherwise the reader waits between one and thirty seconds. *)
Theorem reader_gives_up_exactly events now commits :
  StronglySorted Z.le (events.*1 ++ [now]) → Trip ∉ (reopens events).2 →
  let all := events ++ [(now, commits)] in
  ((reopens all).2 = (reopens events).2 ++ [Trip] ↔
     (10 ≤ length all)%nat ∧ Forall (λ e, e.2 <= 0) (drop (length all - 10) all) ∨
     ∃ t, (20 ≤ length events)%nat ∧ all.*1 !! (length events - 20)%nat = Some t ∧ now - t ≤ 60 * second) ∧
  ((reopens all).2 = (reopens events).2 ++ [Trip] ∨
   ∃ d, (reopens all).2 = (reopens events).2 ++ [Backoff d] ∧ second ≤ d ≤ 30 * second).
Proof.
  intros Hsort Hn all. pose proof Hsort as Hsort'. apply StronglySorted_app in Hsort' as (Hle & Hs & _).
  destruct (reopens_hold events Hs Hn) as (Hh & Hidle & _).
  pose proof (window_full _ _ now commits Hh Hidle Hsort) as Hwin.
  pose proof (idle_run_ge 10 all ltac:(lia)) as Hrun.
  assert (Hfail := lh_failures _ _ (note_reopen_holds events _ now commits Hh Hidle
    (λ t Ht, Hle t now Ht (list_elem_of_here _ _)))).
  unfold all. rewrite reopens_snoc. fold all in Hfail |- *. destruct (reopens events) as [l steps]. simpl in *.
  destruct (lh_limits _ _ Hh) as (-> & Hw & -> & -> & ->). rewrite Hfail.
  destruct (Z.leb_spec 10 (idle_run all)) as [Hge|Hlt].
  { split; [|by left]. split; [|done]. intros _. left. by apply Hrun. }
  destruct (Nat.ltb_spec 20 (length (drop_old now (rate_window l) (window_reopens l ++ [now])))) as [Hge|Hle2].
  { split; [|by left]. split; [|done]. intros _. right. by apply Hwin. }
  split.
  - split; [intros [=]%app_inv_head|]. intros [HA|HB]; [apply Hrun in HA; lia|apply Hwin in HB; lia].
  - right. eexists. split; [done|]. set (shift := Z.min _ 20).
    assert (1 ≤ 2 ^ shift) by (apply (Z.pow_le_mono_r 2 0); unfold shift; lia). unfold second. lia.
Qed.

Lemma reader_gives_up_exactly_witness :
  (reopens (replicate 9 (0, 0) ++ [(second, 0)])).2 = (reopens (replicate 9 (0, 0))).2 ++ [Trip].
Proof.
  destruct (reader_gives_up_exactly (replicate 9 (0, 0)) second 0) as [Hiff _].
  - repeat (constructor; [|repeat constructor; discriminate]). constructor.
  - intros Hin. vm_compute in Hin. repeat (apply elem_of_cons in Hin as [Hin|Hin]; [discriminate|]).
    by apply elem_of_nil in Hin.
  - apply Hiff. left. split; [vm_compute; lia|]. repeat constructor; discriminate.
Defined.
