(* ===== verification/CdcService.v ===== *)
(** * The change-data reader as a service

    [services/cdc-reader/src/lib.rs]: the registration of the reader, the preflight of
    the capture substrate before every session (server version, publication, slot), the
    capture gap that stops a reader until it is closed, the health of a slot, and the
    service loop around the sessions of [CdcReader].

    What the loop reads of the databases is given as one [Look] per reading; a look that
    fails is [None].  The texts of refusals are left out; a drift is the list of what
    differs.  The event streams and the start of the slot monitor are left out. *)

From stdpp Require Import base tactics option list gmap strings.
From Stdlib Require Import ZArith Lia.
From S2P Require Import Prelude Text ClaimStore EventWire CdcReader.
#[local] Set Warnings "-clear-no-such-hyp".
Open Scope Z_scope.

(** ** The registration *)

Record Registration := {
  rg_publication : string;
  rg_slot : string;
  rg_stream : string;
  rg_enabled : bool;
  rg_schema : option (list string);
}.

Inductive RegistrationRefusal := StreamMismatch | RegistrationDisabled | NoSchema.

Definition check_registration (scope : ReaderScope) (reg : Registration) : result unit RegistrationRefusal :=
  if negb (String.eqb (rg_stream reg) (stream_name (rs_org scope) (rs_project scope) (rs_env scope)))
  then Err StreamMismatch
  else if negb (rg_enabled reg) then Err RegistrationDisabled
  else match rg_schema reg with None => Err NoSchema | Some _ => Ok () end.

(** ** The capture substrate *)

Definition POSTGRES_MAJOR_FLOOR : Z := 17.
Definition DECLARED_SLOT_PLUGIN : string := "pgoutput".

(** Division of an [i32], towards zero. *)
Definition postgres_major (version_num : Z) : Z := Z.quot version_num 10000.

Record PublicationShape := {
  ps_all_tables : bool;
  ps_insert : bool;
  ps_update : bool;
  ps_delete : bool;
  ps_truncate : bool;
  ps_schemas : list string;
  ps_tables : Z;
}.

Inductive PublicationDrift := AllTables | OpMissing (name : string) | TruncateSent | OtherSchemas | ExplicitTables.

Definition drift_if {A} (b : bool) (d : A) : list A := if b then [d] else [].

Definition publication_drift (shape : PublicationShape) (schemas : list string) : list PublicationDrift :=
  drift_if (ps_all_tables shape) AllTables
  ++ (([("pubinsert", ps_insert shape); ("pubupdate", ps_update shape); ("pubdelete", ps_delete shape)]
       ≫= λ nl : string * bool, drift_if (negb nl.2) (OpMissing nl.1)))
  ++ drift_if (ps_truncate shape) TruncateSent
  ++ drift_if (negb (bool_decide (list_to_set (ps_schemas shape) =@{gset string} list_to_set schemas))) OtherSchemas
  ++ drift_if (negb (ps_tables shape =? 0)) ExplicitTables.

Record SlotShape := {
  ss_slot_type : option string;
  ss_plugin : option string;
  ss_temporary : bool;
  ss_two_phase : bool;
  ss_failover : bool;
}.

Inductive SlotDrift := SlotType | SlotPlugin | SlotTemporary | SlotTwoPhase | SlotNoFailover.

Definition slot_drift (shape : SlotShape) : list SlotDrift :=
  drift_if (negb (bool_decide (ss_slot_type shape = Some "logical"))) SlotType
  ++ drift_if (negb (bool_decide (ss_plugin shape = Some DECLARED_SLOT_PLUGIN))) SlotPlugin
  ++ drift_if (ss_temporary shape) SlotTemporary
  ++ drift_if (ss_two_phase shape) SlotTwoPhase
  ++ drift_if (negb (ss_failover shape)) SlotNoFailover.

(** A row of [pg_replication_slots]. *)
Record SlotRow := {
  sr_wal_status : option string;
  sr_invalidation : option string;
  sr_shape : SlotShape;
}.

Record CaptureGap := { cg_slot : string; cg_reason : string }.

(** What one reading of the databases finds: the newest gap row with its slot and whether
    it was resynchronized, the server version, and the publication and the slot by name. *)
Record Look := {
  lk_registration : option Registration;
  lk_gap : option (string * bool);
  lk_version : Z;
  lk_publication : string → option PublicationShape;
  lk_slot : string → option SlotRow;
}.

Inductive ReaderRefusal :=
| NotRegistered
| Refused (r : RegistrationRefusal)
| Unreachable
| VersionBelowFloor (major : Z)
| PublicationMissing
| PublicationDrifted (d : list PublicationDrift)
| SlotDrifted (d : list SlotDrift).

Definition preflight_server_version (lk : Look) : result unit ReaderRefusal :=
  let major := postgres_major (lk_version lk) in
  if major <? POSTGRES_MAJOR_FLOOR then Err (VersionBelowFloor major) else Ok ().

Definition preflight_publication (lk : Look) (publication : string) (schema : list string) :
    result unit ReaderRefusal :=
  match lk_publication lk publication with
  | None => Err PublicationMissing
  | Some shape =>
      match publication_drift shape schema with
      | [] => Ok ()
      | drift => Err (PublicationDrifted drift)
      end
  end.

Definition preflight_slot (lk : Look) (slot : string) : result (option CaptureGap) ReaderRefusal :=
  match lk_slot lk slot with
  | None => Ok (Some {| cg_slot := slot; cg_reason := "missing" |})
  | Some row =>
      if bool_decide (is_Some (sr_invalidation row)) || bool_decide (sr_wal_status row = Some "lost") then
        Ok (Some {| cg_slot := slot; cg_reason := default "wal_status lost" (sr_invalidation row) |})
      else
        match slot_drift (sr_shape row) with
        | [] => Ok None
        | drift => Err (SlotDrifted drift)
        end
  end.

Definition preflight (lk : Look) (reg : Registration) : result (option CaptureGap) ReaderRefusal :=
  match preflight_server_version lk with
  | Err e => Err e
  | Ok _ =>
      match rg_schema reg with
      | None => Err (Refused NoSchema)
      | Some schema =>
          match preflight_publication lk (rg_publication reg) schema with
          | Err e => Err e
          | Ok _ => preflight_slot lk (rg_slot reg)
          end
      end
  end.

Definition open_capture_gap (lk : Look) : option CaptureGap :=
  match lk_gap lk with
  | Some (slot, false) => Some {| cg_slot := slot; cg_reason := "the newest capture gap waits for close-capture-gap" |}
  | _ => None
  end.

Definition capture_gap (lk : option Look) (reg : Registration) : result (option CaptureGap) ReaderRefusal :=
  match lk with
  | None => Err Unreachable
  | Some lk => match open_capture_gap lk with Some gap => Ok (Some gap) | None => preflight lk reg end
  end.

Definition read_registration (lk : option Look) : result Registration ReaderRefusal :=
  match lk with
  | None => Err Unreachable
  | Some lk => match lk_registration lk with None => Err NotRegistered | Some reg => Ok reg end
  end.

(** ** The health of the slot, and of a publication *)

Inductive SlotHealth := Healthy | HeadroomLow | Extended | Unreserved | Lost.

Definition classify_slot_health (wal_status : string) (safe_wal_size : option Z) (warn_floor_bytes : Z) : SlotHealth :=
  if String.eqb wal_status "reserved" then
    match safe_wal_size with
    | Some n => if n <? warn_floor_bytes then HeadroomLow else Healthy
    | None => Healthy
    end
  else if String.eqb wal_status "extended" then Extended
  else if String.eqb wal_status "unreserved" then Unreserved
  else if String.eqb wal_status "lost" then Lost
  else HeadroomLow.

Inductive StallLevel := Retrying | Stalled.
Definition stall_level (stall threshold : Z) : StallLevel := if threshold <=? stall then Stalled else Retrying.

(** ** The service loop *)

(** One poll of a stopped reader: a shutdown during the wait, or a look. *)
Definition Poll : Type := option (option Look).

(** [wait_out_gap]: the registration to resume on, or none on a shutdown; the reader is
    still waiting when the polls run out. *)
Inductive GapWait := Resumed (reg : Registration) | WaitShutdown | WaitFailed (e : ReaderRefusal) | StillWaiting.

Fixpoint wait_out_gap (scope : ReaderScope) (polls : list Poll) : GapWait :=
  match polls with
  | [] => StillWaiting
  | None :: _ => WaitShutdown
  | Some lk :: polls =>
      match read_registration lk with
      | Err e => WaitFailed e
      | Ok reg =>
          match check_registration scope reg with
          | Err r => WaitFailed (Refused r)
          | Ok _ =>
              match capture_gap lk reg with
              | Err e => WaitFailed e
              | Ok None => Resumed reg
              | Ok (Some _) => wait_out_gap scope polls
              end
          end
      end
  end.

(** What one turn of the loop meets.  [tu_open]: the error of a session that does not
    open; [tu_ended], [tu_commits] and [tu_stopped]: how a session ends, what it
    committed, and whether a shutdown was asked for by then. *)
Record TurnInput := {
  tu_cancelled : bool;
  tu_look : option Look;
  tu_polls : list Poll;
  tu_open : option ReplicationError;
  tu_ended : DrainEnd;
  tu_commits : Z;
  tu_stopped : bool;
  tu_now : Z;
}.

Inductive ServiceEnd := ExitOk | ExitError | Waiting.

Record Service := {
  sv_reg : Registration;
  sv_ladder : ReopenLadder;
  sv_sessions : list (Registration * Look);  (* the sessions opened, with what was read before each *)
  sv_waits : list Z;  (* the backoffs *)
}.

Definition with_ladder (sv : Service) (l : ReopenLadder) (waits : list Z) : Service :=
  {| sv_reg := sv_reg sv; sv_ladder := l; sv_sessions := sv_sessions sv; sv_waits := sv_waits sv ++ waits |}.

Definition turn (scope : ReaderScope) (t : TurnInput) (sv : Service) : Service + (Service * ServiceEnd) :=
  if tu_cancelled t then inr (sv, ExitOk)
  else
    match capture_gap (tu_look t) (sv_reg sv) with
    | Err _ => inr (sv, ExitError)
    | Ok (Some _) =>
        match wait_out_gap scope (tu_polls t) with
        | Resumed reg => inl {| sv_reg := reg; sv_ladder := sv_ladder sv; sv_sessions := sv_sessions sv;
                                sv_waits := sv_waits sv |}
        | WaitShutdown => inr (sv, ExitOk)
        | WaitFailed _ => inr (sv, ExitError)
        | StillWaiting => inr (sv, Waiting)
        end
    | Ok None =>
        let '(sv, ended, commits, stopped) :=
          match tu_open t with
          | Some e => (sv, Severed e, 0, false)
          | None =>
              ({| sv_reg := sv_reg sv; sv_ladder := sv_ladder sv;
                  sv_sessions := sv_sessions sv ++ match tu_look t with Some lk => [(sv_reg sv, lk)] | None => [] end;
                  sv_waits := sv_waits sv |}, tu_ended t, tu_commits t, tu_stopped t)
          end in
        match after_session (sv_ladder sv) (tu_now t) commits stopped ended with
        | (l, None) => inr (with_ladder sv l [], ExitOk)
        | (l, Some None) => inr (with_ladder sv l [], ExitError)
        | (l, Some (Some delay)) => inl (with_ladder sv l [delay])
        end
    end.

Fixpoint turns (scope : ReaderScope) (inputs : list TurnInput) (sv : Service) : Service * option ServiceEnd :=
  match inputs with
  | [] => (sv, None)
  | t :: inputs =>
      match turn scope t sv with
      | inl sv => turns scope inputs sv
      | inr (sv, e) => (sv, Some e)
      end
  end.

(** [run_with_shutdown]. *)
Definition run_with_shutdown (scope : ReaderScope) (start : option Look) (inputs : list TurnInput) :
    Service + ReaderRefusal :=
  match read_registration start with
  | Err e => inr e
  | Ok reg =>
      match check_registration scope reg with
      | Err r => inr (Refused r)
      | Ok _ => inl (turns scope inputs {| sv_reg := reg; sv_ladder := new_ladder; sv_sessions := []; sv_waits := [] |}).1
      end
  end.

(** ** What a session is opened on *)

(** The declared capture substrate, read at [lk], for the registration [reg]. *)
Definition substrate_declared (reg : Registration) (lk : Look) : Prop :=
  (∀ slot, lk_gap lk ≠ Some (slot, false)) ∧ 170000 ≤ lk_version lk ∧
  (∃ schemas p, rg_schema reg = Some schemas ∧ lk_publication lk (rg_publication reg) = Some p ∧
     ps_all_tables p = false ∧ ps_insert p = true ∧ ps_update p = true ∧ ps_delete p = true ∧
     ps_truncate p = false ∧ (∀ s, s ∈ ps_schemas p ↔ s ∈ schemas) ∧ ps_tables p = 0) ∧
  (∃ row, lk_slot lk (rg_slot reg) = Some row ∧
     sr_invalidation row = None ∧ sr_wal_status row ≠ Some "lost" ∧
     sr_shape row = {| ss_slot_type := Some "logical"; ss_plugin := Some "pgoutput"; ss_temporary := false;
                       ss_two_phase := false; ss_failover := true |}).

Definition registered_here (scope : ReaderScope) (reg : Registration) : Prop :=
  rg_stream reg = stream_name (rs_org scope) (rs_project scope) (rs_env scope) ∧
  rg_enabled reg = true ∧ is_Some (rg_schema reg).

Lemma check_registration_ok scope reg : check_registration scope reg = Ok () ↔ registered_here scope reg.
Proof.
  unfold check_registration, registered_here.
  destruct (String.eqb_spec (rg_stream reg) (stream_name (rs_org scope) (rs_project scope) (rs_env scope)));
    simpl; [|naive_solver].
  destruct (rg_enabled reg), (rg_schema reg); simpl; naive_solver.
Qed.

Lemma drift_if_nil {A} b (d : A) : drift_if b d = [] ↔ b = false.
Proof. by destruct b. Qed.

Lemma publication_drift_nil shape schemas : publication_drift shape schemas = [] ↔
  ps_all_tables shape = false ∧ ps_insert shape = true ∧ ps_update shape = true ∧ ps_delete shape = true ∧
  ps_truncate shape = false ∧ (∀ s, s ∈ ps_schemas shape ↔ s ∈ schemas) ∧ ps_tables shape = 0.
Proof.
  unfold publication_drift. simpl. rewrite !app_nil, !drift_if_nil, !negb_false_iff, Z.eqb_eq, bool_decide_eq_true.
  assert (Hset : list_to_set (ps_schemas shape) =@{gset string} list_to_set schemas ↔
    ∀ s, s ∈ ps_schemas shape ↔ s ∈ schemas).
  { rewrite set_eq. by setoid_rewrite elem_of_list_to_set. }
  rewrite Hset. naive_solver.
Qed.

Lemma slot_drift_nil shape : slot_drift shape = [] ↔
  shape = {| ss_slot_type := Some "logical"; ss_plugin := Some "pgoutput"; ss_temporary := false;
             ss_two_phase := false; ss_failover := true |}.
Proof.
  unfold slot_drift. rewrite !app_nil, !drift_if_nil, !negb_false_iff, !bool_decide_eq_true.
  destruct shape; simpl. split; [|naive_solver]. intros (-> & -> & -> & -> & ->). done.
Qed.

Lemma postgres_major_floor v : (postgres_major v <? POSTGRES_MAJOR_FLOOR) = false ↔ 170000 ≤ v.
Proof.
  unfold postgres_major, POSTGRES_MAJOR_FLOOR. rewrite Z.ltb_ge.
  destruct (Z.le_gt_cases 0 v) as [Hv|Hv].
  - rewrite Z.quot_div_nonneg by lia. split; intros Hle.
    + pose proof (Z.mul_div_le v 10000 ltac:(lia)). lia.
    + apply Z.div_le_lower_bound; lia.
  - split; [|lia]. intros Hle.
    assert (Z.quot v 10000 ≤ 0); [|lia]. rewrite <-(Z.opp_involutive v), Z.quot_opp_l by lia.
    pose proof (Z.quot_pos (- v) 10000 ltac:(lia) ltac:(lia)). lia.
Qed.

Lemma preflight_slot_none lk slot : preflight_slot lk slot = Ok None ↔
  ∃ row, lk_slot lk slot = Some row ∧ sr_invalidation row = None ∧ sr_wal_status row ≠ Some "lost" ∧
    slot_drift (sr_shape row) = [].
Proof.
  unfold preflight_slot. destruct (lk_slot lk slot) as [row|]; [|split; [done|by intros (? & ? & _)]].
  destruct (sr_invalidation row) eqn:Ei; simpl.
  { split; [done|]. intros (? & [= <-] & ? & _). congruence. }
  destruct (bool_decide_reflect (sr_wal_status row = Some "lost")); simpl.
  { split; [done|]. by intros (? & [= <-] & _ & ? & _). }
  destruct (slot_drift (sr_shape row)) eqn:Ed; split; try done; [by exists row|].
  intros (? & [= <-] & _ & _ & ?). congruence.
Qed.

Lemma preflight_publication_ok lk publication schemas : preflight_publication lk publication schemas = Ok () ↔
  ∃ p, lk_publication lk publication = Some p ∧ publication_drift p schemas = [].
Proof.
  unfold preflight_publication. destruct (lk_publication lk publication) as [p|]; [|split; [done|by intros (? & ? & _)]].
  destruct (publication_drift p schemas) eqn:Ed; split; try done; [by exists p|].
  intros (? & [= <-] & ?). congruence.
Qed.

Lemma preflight_none lk reg schemas : rg_schema reg = Some schemas →
  preflight lk reg = Ok None ↔
  170000 ≤ lk_version lk ∧ preflight_publication lk (rg_publication reg) schemas = Ok () ∧
  preflight_slot lk (rg_slot reg) = Ok None.
Proof.
  intros Hs. unfold preflight, preflight_server_version. rewrite Hs, <-postgres_major_floor.
  destruct (postgres_major (lk_version lk) <? POSTGRES_MAJOR_FLOOR); [split; [done|by intros [? _]]|].
  destruct (preflight_publication lk (rg_publication reg) schemas) as [[]|]; [|split; [done|by intros (_ & ? & _)]].
  split; [done|]. by intros (_ & _ & ?).
Qed.

Lemma capture_gap_none lk reg : is_Some (rg_schema reg) →
  capture_gap lk reg = Ok None ↔ ∃ l, lk = Some l ∧ substrate_declared reg l.
Proof.
  intros [schemas Hs]. destruct lk as [lk|]; [|split; [done|by intros (? & ? & _)]].
  assert (Hpre : preflight lk reg = Ok None ↔ 170000 ≤ lk_version lk ∧
    (∃ sc p, rg_schema reg = Some sc ∧ lk_publication lk (rg_publication reg) = Some p ∧
     ps_all_tables p = false ∧ ps_insert p = true ∧ ps_update p = true ∧ ps_delete p = true ∧
     ps_truncate p = false ∧ (∀ s, s ∈ ps_schemas p ↔ s ∈ sc) ∧ ps_tables p = 0) ∧
    (∃ row, lk_slot lk (rg_slot reg) = Some row ∧
     sr_invalidation row = None ∧ sr_wal_status row ≠ Some "lost" ∧
     sr_shape row = {| ss_slot_type := Some "logical"; ss_plugin := Some "pgoutput"; ss_temporary := false;
                       ss_two_phase := false; ss_failover := true |})).
  { rewrite (preflight_none _ _ _ Hs), preflight_publication_ok, preflight_slot_none.
    setoid_rewrite publication_drift_nil. setoid_rewrite slot_drift_nil. rewrite Hs. split.
    - intros (? & (p & ? & ?) & ?). split; [done|]. split; [|done]. by exists schemas, p.
    - intros (? & (sc & p & [= <-] & ? & ?) & ?). split; [done|]. split; [|done]. by exists p. }
  assert (Hsd : (∃ l, Some lk = Some l ∧ substrate_declared reg l) ↔ substrate_declared reg lk) by naive_solver.
  rewrite Hsd. unfold capture_gap, open_capture_gap, substrate_declared.
  destruct (lk_gap lk) as [[slot []]|] eqn:Eg; rewrite ?Hpre.
  - split; [by split|by intros [_ ?]].
  - split; [done|]. intros [Hg _]. by destruct (Hg slot).
  - split; [by split|by intros [_ ?]].
Qed.

(** The limits of a ladder are those it was made with. *)
Definition default_limits (l : ReopenLadder) : Prop := base_backoff l = second ∧ max_backoff l = 30 * second.

Lemma after_session_limits l now commits stopped ended : default_limits l →
  default_limits (after_session l now commits stopped ended).1 ∧
  ∀ delay, (after_session l now commits stopped ended).2 = Some (Some delay) → second ≤ delay ≤ 30 * second.
Proof.
  intros [Hb Hm]. unfold after_session. destruct ended as [|e]; [done|]. destruct stopped; [done|].
  assert (Hnote : default_limits (note_reopen l now commits).1 ∧
    ∀ d, (note_reopen l now commits).2 = Backoff d → second ≤ d ≤ 30 * second).
  { split; [done|]. unfold note_reopen. cbn [snd]. intros d. rewrite Hb, Hm.
    destruct (max_consecutive l <=? _); [done|]. destruct (rate_cap l <? _)%nat; [done|]. intros [= <-].
    set (shift := Z.min _ 20). assert (1 ≤ 2 ^ shift) by (apply (Z.pow_le_mono_r 2 0); unfold shift; lia).
    unfold second. lia. }
  destruct Hnote as [Hl' Hd'].
  destruct (note_reopen l now commits) as [l' [d|]], (classify e); simpl in *; (split; [done|]); intros delay Hx; try done.
  all: injection Hx as <-; auto.
Qed.

Record service_ok (scope : ReaderScope) (sv : Service) : Prop := {
  so_registered : registered_here scope (sv_reg sv);
  so_declared : ∀ reg lk, (reg, lk) ∈ sv_sessions sv → registered_here scope reg ∧ substrate_declared reg lk;
  so_limits : default_limits (sv_ladder sv);
  so_waits : ∀ d, d ∈ sv_waits sv → second ≤ d ≤ 30 * second;
}.

Lemma wait_out_gap_registered scope polls reg : wait_out_gap scope polls = Resumed reg → registered_here scope reg.
Proof.
  induction polls as [|[lk|] polls IH]; simpl; [done| |done].
  destruct (read_registration lk) as [r|]; [|done].
  destruct (check_registration scope r) as [[]|] eqn:Ec; [|done].
  destruct (capture_gap lk r) as [[]|]; [auto| |done]. intros [= <-]. by apply check_registration_ok.
Qed.

Lemma turn_ok scope t sv : service_ok scope sv →
  match turn scope t sv with inl sv' => service_ok scope sv' | inr (sv', _) => service_ok scope sv' end.
Proof.
  intros Hok. pose proof Hok as [Hr Hd Hl Hw]. unfold turn. destruct (tu_cancelled t); [done|].
  destruct (capture_gap (tu_look t) (sv_reg sv)) as [[gap|]|e] eqn:Eg; [| |done].
  { destruct (wait_out_gap scope (tu_polls t)) eqn:Ew; [|done..].
    apply wait_out_gap_registered in Ew. by split. }
  apply capture_gap_none in Eg as (lk & Elk & Hdecl); [|apply Hr]. rewrite Elk.
  assert (Hafter : ∀ sv1 commits stopped ended, service_ok scope sv1 →
    match (match after_session (sv_ladder sv1) (tu_now t) commits stopped ended with
           | (l, None) => inr (with_ladder sv1 l [], ExitOk)
           | (l, Some None) => inr (with_ladder sv1 l [], ExitError)
           | (l, Some (Some delay)) => inl (with_ladder sv1 l [delay]) end) with
    | inl sv' => service_ok scope sv' | inr (sv', _) => service_ok scope sv' end).
  { intros sv1 commits stopped ended [R1 D1 L1 W1].
    destruct (after_session_limits (sv_ladder sv1) (tu_now t) commits stopped ended L1) as [Hl' Hb].
    destruct (after_session _ _ _ _ _) as [l [[d|]|]]; simpl in Hl', Hb; split; simpl; rewrite ?app_nil_r; auto.
    intros d' [?| ->%list_elem_of_singleton]%elem_of_app; auto. }
  destruct (tu_open t); apply Hafter; [done|]. split; simpl; auto.
  intros reg' lk' [?|Hin%list_elem_of_singleton]%elem_of_app; [auto|]. by simplify_eq.
Qed.

(** C35. The reader captures only what was declared: whatever the databases answer and
    however its sessions end, every session the service opens is on a registration that
    is enabled, names this environment's stream and names its schemas, with no open
    capture gap, a server at the version floor, a publication of exactly the registered
    schemas with the three row operations and nothing else, and a healthy slot of the
    declared shape; and every wait before a reopen is between one and thirty seconds. *)
Theorem session_only_as_declared scope start inputs sv :
  run_with_shutdown scope start inputs = inl sv →
  (∀ reg lk, (reg, lk) ∈ sv_sessions sv → registered_here scope reg ∧ substrate_declared reg lk) ∧
  (∀ d, d ∈ sv_waits sv → second ≤ d ≤ 30 * second).
Proof.
  unfold run_with_shutdown. destruct (read_registration start) as [reg|]; [|done].
  destruct (check_registration scope reg) as [[]|] eqn:Ec; [|done]. apply check_registration_ok in Ec.
  intros [= <-]. set (sv := {| sv_reg := reg |}).
  assert (Hsv : service_ok scope sv).
  { split; [done| |done|]; simpl; intros; set_solver. }
  assert (Hok : service_ok scope (turns scope inputs sv).1).
  { clearbody sv. revert sv Hsv. induction inputs as [|t inputs IH]; intros sv Hsv; [done|]. simpl.
    pose proof (turn_ok scope t sv Hsv). destruct (turn scope t sv) as [|[]]; auto. }
  split; apply Hok.
Qed.

Module ServiceSample.
Definition acme : ReaderScope := {| rs_org := "acme"; rs_project := "shop"; rs_env := "dev" |}.
Definition registration : Registration := {|
  rg_publication := "wamn_cdc"; rg_slot := "wamn_slot"; rg_stream := stream_name "acme" "shop" "dev";
  rg_enabled := true; rg_schema := Some ["app"] |}.
Definition healthy : Look := {|
  lk_registration := Some registration; lk_gap := None; lk_version := 180001;
  lk_publication := λ _, Some {| ps_all_tables := false; ps_insert := true; ps_update := true; ps_delete := true;
                                 ps_truncate := false; ps_schemas := ["app"]; ps_tables := 0 |};
  lk_slot := λ _, Some {| sr_wal_status := Some "reserved"; sr_invalidation := None;
    sr_shape := {| ss_slot_type := Some "logical"; ss_plugin := Some "pgoutput"; ss_temporary := false;
                   ss_two_phase := false; ss_failover := true |} |} |}.
Definition lost : Look := {|
  lk_registration := Some registration; lk_gap := None; lk_version := 180001;
  lk_publication := lk_publication healthy; lk_slot := λ _, None |}.
Definition severed (lk : Look) (polls : list Poll) : TurnInput := {|
  tu_cancelled := false; tu_look := Some lk; tu_polls := polls; tu_open := None;
  tu_ended := Severed {| re_kind := RIo; re_text := "broken pipe" |}; tu_commits := 0; tu_stopped := false; tu_now := 0 |}.

(** A session, a lost slot waited out over two polls, and a session again. *)
Definition life : list TurnInput := [severed healthy []; severed lost [Some (Some lost); Some (Some healthy)]; severed healthy []].

Lemma session_only_as_declared_witness :
  ∃ sv, run_with_shutdown acme (Some healthy) life = inl sv ∧ length (sv_sessions sv) = 2%nat ∧
    ∀ d, d ∈ sv_waits sv → second ≤ d ≤ 30 * second.
Proof.
  destruct (run_with_shutdown acme (Some healthy) life) as [sv|] eqn:E; [|vm_compute in E; discriminate].
  exists sv. split; [done|]. split; [|exact (proj2 (session_only_as_declared acme (Some healthy) life sv E))].
  vm_compute in E. by injection E as <-.
Defined.
End ServiceSample.
