(* ===== verification/CdcDelivery.v ===== *)
(** * Delivery by the change-data reader

    The publication of a transaction and the sessions of the reader over a write-ahead
    log: what the log holds up to the confirmed position is in the stream, the stream
    holds nothing else, and a message is there once while the broker's duplicate window
    holds.  What becomes of a publication (stored, lost, stored with its acknowledgment
    lost) is drawn when it is sent.  The theorems are about [CdcReader]; this file holds the reference reading of
    a logged transaction and the relation between the log and the frames of a session. *)

From stdpp Require Import base tactics option list gmap strings sorting.
From Stdlib Require Import ZArith Lia.
From S2P Require Import Prelude Text Json Canonical Router ClaimStore Packages ComponentFacts WiringDocuments.
From S2P Require Import EventWire EventTriggers CdcReader.
#[local] Set Warnings "-clear-no-such-hyp".
Open Scope Z_scope.

(** ** Publication *)


Section Publication.
Context (all : list PreparedMsg).

Definition in_stream (stream : list PreparedMsg) (m : PreparedMsg) : Prop := pm_id m ∈ pm_id <$> stream.

(** The stream grew by messages of [all] only. *)
Definition grown (s s' : list PreparedMsg) : Prop := ∃ l, s' = s ++ l ∧ ∀ m, m ∈ l → m ∈ all.

Definition acked_below (n : nat) (stream : list PreparedMsg) : Prop :=
  ∀ i m, (i < n)%nat → all !! i = Some m → in_stream stream m.

Definition held_from (fu : nat) (held : list (nat * option bool)) (stream : list PreparedMsg) : Prop :=
  ∀ k i a, held !! k = Some (i, a) →
    i = (fu + k)%nat ∧ (is_Some a → ∀ m, all !! i = Some m → in_stream stream m).

#[local] Instance grown_preorder : PreOrder grown.
Proof.
  split.
  - intros s. exists []. split; [by rewrite app_nil_r|]. intros m Hm. by apply elem_of_nil in Hm.
  - intros s1 s2 s3 (l1 & -> & H1) (l2 & -> & H2). exists (l1 ++ l2).
    rewrite app_assoc. split; [done|]. intros m [?|?]%elem_of_app; auto.
Qed.

Lemma in_stream_app s l m : in_stream s m → in_stream (s ++ l) m.
Proof. unfold in_stream. rewrite fmap_app, elem_of_app. auto. Qed.

Lemma in_stream_grown s s' m : grown s s' → in_stream s m → in_stream s' m.
Proof. intros (l & -> & _). apply in_stream_app. Qed.

Lemma acked_below_grown n s s' : grown s s' → acked_below n s → acked_below n s'.
Proof. intros Hg Ha i m Hi Hm. eauto using in_stream_grown. Qed.

Lemma held_from_grown fu held s s' : grown s s' → held_from fu held s → held_from fu held s'.
Proof.
  intros Hg Hh k i a Hk. destruct (Hh _ _ _ Hk) as [-> Ha]. split; [done|].
  intros Hs m Hm. eauto using in_stream_grown.
Qed.

Lemma holds_in_stream s m : holds s (pm_id m) = true ↔ in_stream s m.
Proof.
  unfold holds, in_stream. rewrite existsb_exists, list_elem_of_fmap.
  split; intros (m' & H1 & H2); exists m'; rewrite ?list_elem_of_In in *.
  - apply String.eqb_eq in H2. by rewrite ?list_elem_of_In.
  - by rewrite H1, String.eqb_refl.
Qed.

Lemma settle_all_spec held fu t s : held_from fu held s → acked_below fu s →
  ∀ fu' t' ok, settle_all fu held t = (fu', t', ok) →
  acked_below fu' s ∧ (fu ≤ fu')%nat ∧
  (if ok then fu' = (fu + length held)%nat else (fu' < fu + length held)%nat ∧ None ∈ held.*2).
Proof.
  revert fu t. induction held as [|[i [d|]] held IH]; intros fu t Hh Ha fu' t' ok E; simpl in E.
  - simplify_eq/=. rewrite Nat.add_0_r. auto.
  - destruct (Hh 0%nat i (Some d) eq_refl) as [-> Hd]. rewrite Nat.add_0_r in *.
    apply IH in E as (A & B & C).
    + split_and!; [done|lia|]. destruct ok; simpl; [lia|]. destruct C. split; [lia|]. by right.
    + intros k j a Hk. destruct (Hh (S k) j a Hk) as [-> Hj]. split; [lia|done].
    + intros j m Hj Hm. destruct (Nat.eq_dec j fu) as [-> |]; [by apply Hd|]. apply (Ha j); [lia|done].
  - simplify_eq/=. split_and!; [done|lia|lia|by left].
Qed.

Lemma send_spec pb m pb' ack : m ∈ all → send pb m = (pb', ack) →
  grown (pb_stream pb) (pb_stream pb') ∧
  (∀ d, ack = Some (Some d) → in_stream (pb_stream pb') m) ∧
  pb_fates pb' = tail (pb_fates pb) ∧
  (ack = None ∨ ack = Some None → pb_fates pb ≠ []).
Proof.
  intros Hm. unfold send. destruct (pb_fates pb) as [|[| |fresh acked] fates] eqn:Ef; simpl; intros E.
  all: try (simplify_eq/=; split_and!; [reflexivity|naive_solver..]).
  all: set (d := holds _ _ && _) in E; assert (Hd : in_stream
    (if d then pb_stream pb else pb_stream pb ++ [m]) m ∧
    grown (pb_stream pb) (if d then pb_stream pb else pb_stream pb ++ [m])).
  1, 3: destruct d eqn:Ed; [split; [|reflexivity]; unfold d in Ed; apply andb_true_iff in Ed as [Ed _];
         by apply holds_in_stream|
       split; [unfold in_stream; rewrite fmap_app, elem_of_app; right; by left|
         exists [m]; split; [done|]; by intros ? ->%list_elem_of_singleton]].
  all: destruct Hd as [Hd1 Hd2]; simplify_eq/=; split_and!; [done|done|done|].
  - by intros [|].
  - done.
Qed.

Lemma is_cancelled_same pb pb' c : is_cancelled pb = (pb', c) →
  pb_stream pb' = pb_stream pb ∧ pb_fates pb' = pb_fates pb.
Proof. unfold is_cancelled. intros. by simplify_eq/=. Qed.
#[local] Opaque is_cancelled send.

(** One pass from [fu]: what it leaves acknowledged, and that a failed pass used up a
    fate and stands at a message. *)
Lemma publish_rows_spec mx msgs : ∀ idx fu held t pb,
  drop idx all = msgs → (fu + length held = idx)%nat → (idx ≤ length all)%nat →
  held_from fu held (pb_stream pb) → acked_below fu (pb_stream pb) →
  ∀ pb' fu' t' out, publish_rows idx msgs mx fu held t pb = (pb', fu', t', out) →
  grown (pb_stream pb) (pb_stream pb') ∧ acked_below fu' (pb_stream pb') ∧
  (length (pb_fates pb') ≤ length (pb_fates pb))%nat ∧
  match out with
  | PassComplete => fu' = length all
  | PassCancelled => True
  | PassFailed => (fu' < length all)%nat ∧
      (None ∈ held.*2 ∨ (length (pb_fates pb') < length (pb_fates pb))%nat)
  end.
Proof.
  induction msgs as [|m msgs IH]; intros idx fu held t pb Hdrop Hidx Hle Hh Ha pb' fu' t' out E; simpl in E.
  - destruct (settle_all fu held t) as [[fu1 t1] ok] eqn:Es.
    destruct (settle_all_spec _ _ _ _ Hh Ha _ _ _ Es) as (A & B & C).
    assert (length all ≤ idx)%nat by (apply (f_equal length) in Hdrop; rewrite length_drop in Hdrop; simpl in *; lia).
    simplify_eq. split_and!; [reflexivity|done|lia|]. destruct ok; [lia|]. destruct C. split; [lia|auto].
  - assert (Hm : all !! idx = Some m) by (rewrite <-(Nat.add_0_r idx), <-lookup_drop, Hdrop; done).
    assert (Hlt := lookup_lt_Some _ _ _ Hm).
    assert (Hdrop' : drop (S idx) all = msgs).
    { replace (S idx) with (idx + 1)%nat by lia. by rewrite <-drop_drop, Hdrop. }
    destruct (is_cancelled pb) as [pb1 c] eqn:Ec. apply is_cancelled_same in Ec as [Es Ef].
    rewrite <-Es in Hh, Ha |- *. rewrite <-Ef. clear Es Ef.
    destruct c; [simplify_eq; split_and!; [reflexivity|done|lia|done]|].
    destruct (send pb1 m) as [pb2 ack] eqn:Esend.
    destruct (send_spec _ _ _ _ (list_elem_of_lookup_2 _ _ _ Hm) Esend) as (G & Hack & Hf & Hne).
    assert (Hfl : (length (pb_fates pb2) ≤ length (pb_fates pb1))%nat).
    { rewrite Hf. destruct (pb_fates pb1); simpl; lia. }
    destruct ack as [ack|].
    2: { simplify_eq. split_and!; [done|by eapply acked_below_grown|done|lia|].
         right. rewrite Hf. destruct (pb_fates pb1); [naive_solver|simpl; lia]. }
    assert (Hh' : held_from fu (held ++ [(idx, ack)]) (pb_stream pb2)).
    { intros k i a [Hk|[Hk Hk']]%lookup_app_Some; [by eapply held_from_grown|].
      apply list_lookup_singleton_Some in Hk' as [Hk' ?]; simplify_eq. split; [lia|].
      intros [d ->] m' Hm'. simplify_eq. eauto. }
    assert (Hused : None ∈ (held ++ [(idx, ack)]).*2 → None ∈ held.*2 ∨
              (length (pb_fates pb2) < length (pb_fates pb1))%nat).
    { rewrite fmap_app, elem_of_app. intros [?|Hx]; [auto|]. simpl in Hx.
      apply list_elem_of_singleton in Hx as <-. right. rewrite Hf.
      destruct (pb_fates pb1); [naive_solver|simpl; lia]. }
    assert (Ha' := acked_below_grown _ _ _ G Ha).
    destruct (_ <=? _)%nat.
    + destruct (settle_all fu _ t) as [[fu1 t1] ok] eqn:Es.
      destruct (settle_all_spec _ _ _ _ Hh' Ha' _ _ _ Es) as (A & B & C). rewrite length_app in C; simpl in C.
      destruct ok.
      * apply IH in E as (G2 & A2 & F2 & O2); [|done|simpl; lia|lia|by intros k i a ?|done].
        split_and!; [by etrans|done|lia|]. destruct out; [done|done|].
        destruct O2 as [? [Hx|?]]; [by apply elem_of_nil in Hx|]. split; [done|]. right. lia.
      * simplify_eq. destruct C. split_and!; [done|done|lia|lia|auto].
    + apply IH in E as (G2 & A2 & F2 & O2); [|done|rewrite length_app; simpl; lia|lia|done|done].
      split_and!; [by etrans|done|lia|]. destruct out; [done|done|].
      destruct O2 as [? [[?|?]%Hused|?]]; (split; [done|]); [by left|right; lia|right; lia].
Qed.

(** Enough passes: the publication returns, having added nothing but its own messages;
    when it is acknowledged, all of them are in the stream. *)
Lemma publish_txn_returns mx fuel fu t pb :
  (length (pb_fates pb) < fuel)%nat → (fu ≤ length all)%nat → acked_below fu (pb_stream pb) →
  ∃ pb' t' out, publish_txn fuel all mx fu t pb = Some (Ret (pb', t', out)) ∧
    grown (pb_stream pb) (pb_stream pb') ∧
    (out = Acked → ∀ m, m ∈ all → in_stream (pb_stream pb') m).
Proof.
  revert fu t pb. induction fuel as [|fuel IH]; intros fu t pb Hf Hfu Ha; [lia|]. simpl.
  destruct (is_cancelled pb) as [pb1 c] eqn:Ec. apply is_cancelled_same in Ec as [Es Ef].
  rewrite <-Es in Ha |- *. rewrite <-Ef in Hf. clear Es Ef.
  destruct c; [do 3 eexists; split_and!; [done|reflexivity|done]|].
  unfold publish_pass. destruct (publish_rows _ _ _ _ _ _ _) as [[[pb2 fu2] t2] out] eqn:E.
  apply publish_rows_spec in E as (G & A & F & O); [|done|simpl; lia|done|by intros k i a ?|done].
  destruct out.
  - do 3 eexists; split_and!; [done|done|]. intros _ m [i Hi]%list_elem_of_lookup.
    apply (A i); [|done]. apply lookup_lt_Some in Hi. lia.
  - do 3 eexists; split_and!; [done|done|done].
  - destruct O as [Hlt [Hx|HF]]; [by apply elem_of_nil in Hx|].
    destruct (lookup_lt_is_Some_2 _ _ Hlt) as [m ->].
    destruct (is_cancelled pb2) as [pb3 c] eqn:Ec. apply is_cancelled_same in Ec as [Es Ef].
    destruct c; [do 3 eexists; split_and!; [done|by rewrite Es|done]|].
    rewrite <-Es in A. destruct (IH fu2 t2 pb3) as (pb' & t' & out & E & G' & Hk); [rewrite Ef; lia|lia|done|].
    do 3 eexists; split_and!; [done| |done]. rewrite <-Es in G. by etrans.
Qed.

End Publication.

#[local] Opaque is_cancelled send.

(** A property that sends and looks at the token keep is kept by a publication. *)
Section PublicationInvariant.
Context (P : Publisher → Prop).
Context (P_send : ∀ pb m pb' ack, send pb m = (pb', ack) → P pb → P pb').
Context (P_cancel : ∀ pb pb' c, is_cancelled pb = (pb', c) → P pb → P pb').

Lemma publish_rows_keeps mx msgs idx fu held t pb pb' fu' t' out :
  publish_rows idx msgs mx fu held t pb = (pb', fu', t', out) → P pb → P pb'.
Proof.
  revert idx fu held t pb. induction msgs as [|m msgs IH]; intros idx fu held t pb E HP; simpl in E.
  - repeat case_hyp E; by simplify_eq.
  - destruct (is_cancelled pb) as [pb1 c] eqn:Ec. apply (P_cancel _ _ _ Ec) in HP.
    destruct c; [by simplify_eq|]. destruct (send pb1 m) as [pb2 ack] eqn:Es. apply (P_send _ _ _ _ Es) in HP.
    repeat case_hyp E; simplify_eq; eauto.
Qed.

Lemma publish_txn_keeps mx fuel msgs fu t pb pb' t' out :
  publish_txn fuel msgs mx fu t pb = Some (Ret (pb', t', out)) → P pb → P pb'.
Proof.
  revert fu t pb. induction fuel as [|fuel IH]; intros fu t pb E HP; [done|]. simpl in E.
  destruct (is_cancelled pb) as [pb1 c] eqn:Ec. apply (P_cancel _ _ _ Ec) in HP.
  destruct c; [by simplify_eq|]. unfold publish_pass in E.
  destruct (publish_rows _ _ _ _ _ _ _) as [[[pb2 fu2] t2] o] eqn:Er. apply publish_rows_keeps in Er; [|done].
  destruct o; [by simplify_eq..|]. destruct (msgs !! fu2); [|done].
  destruct (is_cancelled pb2) as [pb3 c] eqn:Ec2. apply (P_cancel _ _ _ Ec2) in Er.
  destruct c; [by simplify_eq|eauto].
Qed.
End PublicationInvariant.

(** The broker's duplicate window holds throughout: no publication to come finds its
    earlier copy forgotten, and no message is in the stream twice. *)
Definition not_fresh (f : SendFate) : Prop := match f with SendStored true _ => False | _ => True end.
Definition window_holds (pb : Publisher) : Prop :=
  Forall not_fresh (pb_fates pb) ∧ NoDup (pm_id <$> pb_stream pb).

#[local] Transparent send is_cancelled.
Lemma send_window pb m pb' ack : send pb m = (pb', ack) → window_holds pb → window_holds pb'.
Proof.
  unfold send, window_holds. intros E [HF HN].
  assert (Hf : not_fresh (default (SendStored false true) (head (pb_fates pb)))).
  { destruct HF; [done|done]. }
  assert (HF' : Forall not_fresh (tail (pb_fates pb))) by (destruct HF; simpl; auto).
  destruct (default _ _) as [| |[] acked]; [by simplify_eq/=..|done|]. simplify_eq/=.
  split; [done|]. destruct (holds _ _) eqn:Eh; simpl; [done|].
  rewrite fmap_app. apply NoDup_app. split_and!; [done| |apply NoDup_singleton].
  intros x Hx Hin. apply list_elem_of_singleton in Hin as ->.
  assert (holds (pb_stream pb) (pm_id m) = true) by by apply holds_in_stream. congruence.
Qed.

Lemma is_cancelled_window pb pb' c : is_cancelled pb = (pb', c) → window_holds pb → window_holds pb'.
Proof. intros [Es Ef]%is_cancelled_same. unfold window_holds. by rewrite Es, Ef. Qed.
#[local] Opaque send is_cancelled.

Lemma publish_txn_window mx fuel msgs fu t pb pb' t' out :
  publish_txn fuel msgs mx fu t pb = Some (Ret (pb', t', out)) → window_holds pb → window_holds pb'.
Proof. apply publish_txn_keeps; [apply send_window|apply is_cancelled_window]. Qed.

(** Without a shutdown a publication ends acknowledged. *)
#[local] Transparent send is_cancelled.
Lemma send_cancels pb m pb' ack : send pb m = (pb', ack) → pb_cancels pb = [] → pb_cancels pb' = [].
Proof. unfold send. destruct (default _ _); intros; by simplify_eq/=. Qed.
Lemma is_cancelled_none pb pb' c : is_cancelled pb = (pb', c) → pb_cancels pb = [] → pb_cancels pb' = [] ∧ c = false.
Proof. unfold is_cancelled. intros E Hc. rewrite Hc in E. by simplify_eq/=. Qed.
#[local] Opaque send is_cancelled.

Lemma publish_rows_uncancelled mx msgs idx fu held t pb pb' fu' t' out :
  publish_rows idx msgs mx fu held t pb = (pb', fu', t', out) → pb_cancels pb = [] →
  pb_cancels pb' = [] ∧ out ≠ PassCancelled.
Proof.
  revert idx fu held t pb. induction msgs as [|m msgs IH]; intros idx fu held t pb E Hc; simpl in E.
  - repeat case_hyp E; by simplify_eq.
  - destruct (is_cancelled pb) as [pb1 c] eqn:Ec. apply is_cancelled_none in Ec as [Hc1 ->]; [|done].
    destruct (send pb1 m) as [pb2 ack] eqn:Es. apply send_cancels in Es; [|done].
    repeat case_hyp E; simplify_eq; eauto.
Qed.

Lemma publish_txn_acked mx fuel msgs fu t pb pb' t' out :
  publish_txn fuel msgs mx fu t pb = Some (Ret (pb', t', out)) → pb_cancels pb = [] →
  out = Acked ∧ pb_cancels pb' = [].
Proof.
  revert fu t pb. induction fuel as [|fuel IH]; intros fu t pb E Hc; [done|]. simpl in E.
  destruct (is_cancelled pb) as [pb1 c] eqn:Ec. apply is_cancelled_none in Ec as [Hc1 ->]; [|done].
  unfold publish_pass in E.
  destruct (publish_rows _ _ _ _ _ _ _) as [[[pb2 fu2] t2] o] eqn:Er.
  apply publish_rows_uncancelled in Er as [Hc2 Ho]; [|done].
  destruct o; [by simplify_eq|done|]. destruct (msgs !! fu2); [|done].
  destruct (is_cancelled pb2) as [pb3 c] eqn:Ec. apply is_cancelled_none in Ec as [Hc3 ->]; [|done]. eauto.
Qed.

(** ** The log *)

(** A committed transaction of the log: what lies between its begin and its commit. *)
Record WalTxn := { wt_txid : Z; wt_commit_ts : Z; wt_body : list Frame; wt_end : Z }.

Definition is_change (f : Frame) : bool :=
  match f with FBegin _ _ | FCommit _ | FKeepalive _ => false | _ => true end.
Definition is_keepalive (f : Frame) : bool := match f with FKeepalive _ => true | _ => false end.

Definition control_owned (r : RowFrame) : bool :=
  String.eqb (rf_table r) CONTROL_OWNED_ENTITY_MAP_RELATION
  || String.eqb (rf_table r) CONTROL_OWNED_CDC_EXCLUSION_MAP_RELATION.

(** The frames of a session over the transactions still to be sent: whole transactions
    in commit order, keepalives anywhere, cut off at any point.  A keepalive between
    transactions carries a position below every transaction to come. *)
Inductive sent (position : Z) : list WalTxn → list Frame → Prop :=
| sent_cut rest : sent position rest []
| sent_keepalive rest w fs : w ≤ position → (∀ t, t ∈ rest → w < wt_end t) → sent position rest fs →
    sent position rest (FKeepalive w :: fs)
| sent_outside rest f fs : (f = FMetadata ∨ f = FUnexpected ∨ ∃ flags p c, f = FMessage flags p c) →
    sent position rest fs → sent position rest (f :: fs)
| sent_partial t rest body : Forall (λ f, is_change f || is_keepalive f) body →
    sent position (t :: rest) (FBegin (wt_txid t) (wt_commit_ts t) :: body)
| sent_txn t rest body fs : filter (λ f, is_change f = true) body = wt_body t →
    Forall (λ f, is_change f || is_keepalive f) body → sent position rest fs →
    sent position (t :: rest) (FBegin (wt_txid t) (wt_commit_ts t) :: body ++ FCommit (wt_end t) :: fs).

Section Delivery.
Context `{JsonText, JsonMembers, InstantText, JsonPrint}.
Context (scope : ReaderScope).

(** *** The messages of a logged transaction, under a classification of its relations *)

Definition frame_row (c : gmap Z RelationClassification) (f : Frame) : option PendingRow :=
  match f with
  | FRow r =>
      if control_owned r then None
      else match c !! rf_oid r, image (rf_old r), image (rf_new r) with
           | Some (REntity mapping), Ok old, Ok new => Some {|
               pr_op := rf_op r; pr_old := old; pr_new := new; pr_entity := mapping;
               pr_table := rf_table r; pr_lsn := rf_lsn r |}
           | _, _, _ => None
           end
  | _ => None
  end.

Definition frame_causation (f : Frame) : option Causation :=
  match f with FMessage flags prefix content => parse_causation flags prefix content | _ => None end.

Definition txn_messages (c : gmap Z RelationClassification) (t : WalTxn) : list PreparedMsg :=
  let rows := omap (frame_row c) (wt_body t) in
  prepared scope {| tn_txid := wt_txid t; tn_commit_ts := wt_commit_ts t;
                    tn_causation := last (omap frame_causation (wt_body t));
                    tn_rows := rows; tn_excluded := ∅ |} <$> rows.

(** Every row is of a control-owned map, of an excluded relation, or of an entity and
    readable: none of them is passed over for another reason. *)
Definition accounted (c : gmap Z RelationClassification) (f : Frame) : Prop :=
  match f with
  | FRow r =>
      control_owned r = true ∨
      (∃ x, c !! rf_oid r = Some (RExcluded x)) ∨
      ((∃ e, c !! rf_oid r = Some (REntity e)) ∧ is_Some (frame_row c f))
  | _ => True
  end.

(** What the control-owned maps ever said of a relation. *)
Context (mapped : Z → RelationClassification → Prop).
Definition of_maps (c : gmap Z RelationClassification) : Prop := ∀ oid x, c !! oid = Some x → mapped oid x.

Definition delivered (stream : list PreparedMsg) (t : WalTxn) : Prop :=
  ∃ c, of_maps c ∧ Forall (accounted c) (wt_body t) ∧ ∀ m, m ∈ txn_messages c t → in_stream stream m.

Definition logged (wal : list WalTxn) (m : PreparedMsg) : Prop :=
  ∃ c t, of_maps c ∧ t ∈ wal ∧ m ∈ txn_messages c t.

Lemma frame_row_mono c c' f : c ⊆ c' → accounted c f → accounted c' f ∧ frame_row c' f = frame_row c f.
Proof.
  intros Hsub Hacc. destruct f as [| | |r| | | |]; try done. simpl in *.
  destruct (control_owned r); [naive_solver|].
  destruct Hacc as [?|[[x Hx]|[[e He] Hs]]]; [done| |].
  - rewrite Hx, (lookup_weaken _ _ _ _ Hx Hsub). eauto.
  - rewrite He in *. rewrite (lookup_weaken _ _ _ _ He Hsub). eauto 6.
Qed.

Lemma rows_mono c c' body : c ⊆ c' → Forall (accounted c) body →
  Forall (accounted c') body ∧ omap (frame_row c') body = omap (frame_row c) body.
Proof.
  intros Hsub. induction 1 as [|f body Hf Hb [IH1 IH2]]; [done|]. csimpl.
  destruct (frame_row_mono _ _ _ Hsub Hf) as [? ->]. rewrite IH2. auto.
Qed.

(** *** One session *)

Section Session.
Context (resolve : string → Z → result RelationClassification ReplicationError).
Context (resolve_maps : ∀ schema oid x, resolve schema oid = Ok x → mapped oid x).

(** [s'] continues [s] inside an open transaction, having read [body]. *)
Record continues (s : DrainState) (t : Txn) (body : list Frame) (s' : DrainState) (t' : Txn) : Prop := {
  ct_txn : ds_txn s' = Some t';
  ct_maps : of_maps (ds_cache s');
  ct_cache : ds_cache s ⊆ ds_cache s';
  ct_accounted : Forall (accounted (ds_cache s')) body;
  ct_rows : tn_rows t' = tn_rows t ++ omap (frame_row (ds_cache s')) body;
  ct_causation : tn_causation t' =
    match last (omap frame_causation body) with Some c => Some c | None => tn_causation t end;
  ct_txid : tn_txid t' = tn_txid t;
  ct_ts : tn_commit_ts t' = tn_commit_ts t;
}.

Definition same_position (s s' : DrainState) : Prop :=
  ds_flushed s' = ds_flushed s ∧ ds_publisher s' = ds_publisher s.

Lemma continues_refl s t : ds_txn s = Some t → of_maps (ds_cache s) → continues s t [] s t.
Proof. intros. split; try done. simpl. by rewrite app_nil_r. Qed.

Lemma continues_trans s t b1 s1 t1 b2 s2 t2 :
  continues s t b1 s1 t1 → continues s1 t1 b2 s2 t2 → continues s t (b1 ++ b2) s2 t2.
Proof.
  intros [] []. destruct (rows_mono (ds_cache s1) (ds_cache s2) b1) as [? Heq]; [done..|].
  split; [done|done|by etrans|by apply Forall_app| | |congruence..].
  - rewrite omap_app, Heq, app_assoc. congruence.
  - rewrite omap_app, last_app. destruct (last (omap _ b2)); congruence.
Qed.

Lemma drain_row_step s t r : ds_txn s = Some t → of_maps (ds_cache s) → control_owned r = false →
  match drain_row resolve r s with
  | inl s' => same_position s s' ∧ ∃ t', continues s t [FRow r] s' t'
  | inr (s', _) => same_position s s'
  end.
Proof.
  intros Ht Hm Hc. unfold drain_row.
  assert (Hcache : match (match ds_cache s !! rf_oid r with
     | Some c => Ok (c, s)
     | None => match resolve (rf_schema r) (rf_oid r) with
               | Ok c => Ok (c, with_cache (<[rf_oid r := c]> (ds_cache s)) s)
               | Err e => Err e end end) with
     | Ok (c, s1) => same_position s s1 ∧ ds_txn s1 = Some t ∧ of_maps (ds_cache s1) ∧
         ds_cache s ⊆ ds_cache s1 ∧ ds_cache s1 !! rf_oid r = Some c
     | Err _ => True
     end).
  { destruct (ds_cache s !! rf_oid r) as [c|] eqn:Ec; [by split_and!|].
    destruct (resolve _ _) as [c|] eqn:Er; [|done]. simpl. split_and!; [done|done| | |apply lookup_insert_eq].
    - intros oid x [[<- <-]|[? ?]]%lookup_insert_Some; eauto.
    - by apply insert_subseteq. }
  destruct (match ds_cache s !! rf_oid r with Some _ => _ | None => _ end) as [[c s1]|e]; [|done].
  destruct Hcache as ([Hp1 Hp2] & Ht1 & Hm1 & Hsub & Hl). rewrite Ht1.
  destruct c as [e|x].
  - destruct (image (rf_old r)) as [old|] eqn:Eo; [|done].
    destruct (image (rf_new r)) as [new|] eqn:En; [|done]. split; [done|]. eexists.
    assert (Hrow : frame_row (ds_cache s1) (FRow r) = Some {| pr_op := rf_op r; pr_old := old; pr_new := new;
      pr_entity := e; pr_table := rf_table r; pr_lsn := rf_lsn r |}) by (simpl; by rewrite Hc, Hl, Eo, En).
    split; [done|done|done| | |done..].
    + constructor; [|done]. simpl. right; right. rewrite Hc, Hl, Eo, En. eauto.
    + simpl in *. by rewrite Hrow.
  - split; [done|]. eexists.
    split; [done|done|done| | |done..].
    + constructor; [|done]. simpl. right; left. eauto.
    + simpl in *. by rewrite Hc, Hl, app_nil_r.
Qed.

(** A frame inside an open transaction. *)
Lemma drain_frame_step s t f : is_change f || is_keepalive f → ds_txn s = Some t → of_maps (ds_cache s) →
  ∃ o, drain_frame scope resolve f s = Some (Ret o) ∧
  match o with
  | inl s' => same_position s s' ∧ ∃ t', continues s t [f] s' t'
  | inr (s', _) => same_position s s'
  end.
Proof.
  intros Hf Ht Hm.
  assert (Hskip : frame_row (ds_cache s) f = None → frame_causation f = None → accounted (ds_cache s) f →
     continues s t [f] s t).
  { intros Er Ec Ha. split; try done; simpl; rewrite ?Er, ?Ec, ?app_nil_r; auto. }
  destruct f as [| |flags p c|r| | |w|]; try done; simpl; (eexists; split; [reflexivity|]).
  - rewrite Ht. destruct (parse_causation flags p c) as [ca|] eqn:Ec.
    + split; [done|]. exists (set_causation ca t). split; try done; simpl; rewrite ?Ec, ?app_nil_r; auto.
    + split; [done|]. exists t. apply Hskip; simpl; auto.
  - change (String.eqb _ _ || _) with (control_owned r). destruct (control_owned r) eqn:Eo.
    + split; [done|]. exists t. apply Hskip; simpl; rewrite ?Eo; auto.
    + by apply drain_row_step.
  - split; [done|]. exists t. destruct (Hskip eq_refl eq_refl I). by split.
  - split; [done|]. exists t. by apply Hskip.
  - rewrite Ht. split; [done|]. exists t. by apply Hskip.
  - split; [done|]. exists t. by apply Hskip.
Qed.

Lemma drain_body body : Forall (λ f, is_change f || is_keepalive f) body → ∀ s t,
  ds_txn s = Some t → of_maps (ds_cache s) →
  ∃ s', same_position s s' ∧
    ((∃ e, ∀ frames e0, drain scope resolve (body ++ frames) e0 s = Some (Ret (s', e))) ∨
     (∃ t', continues s t body s' t' ∧
       ∀ frames e0, drain scope resolve (body ++ frames) e0 s = drain scope resolve frames e0 s')).
Proof.
  induction 1 as [|f body Hf Hb IH]; intros s t Ht Hm.
  - exists s. split; [done|]. right. exists t. split; [by apply continues_refl|done].
  - destruct (drain_frame_step s t f Hf Ht Hm) as ([s1|[s1 e]] & Ef & Ho).
    2: { exists s1. split; [done|]. left. exists e. intros. simpl. by rewrite Ef. }
    destruct Ho as [[P1 P2] (t1 & C1)].
    destruct (IH s1 t1 (ct_txn _ _ _ _ _ C1) (ct_maps _ _ _ _ _ C1)) as (s2 & [P3 P4] & Hr).
    exists s2. split; [split; congruence|]. destruct Hr as [[e He]|(t2 & C2 & He)]; [left|right].
    + exists e. intros. simpl. by rewrite Ef.
    + exists t2. split; [by apply (continues_trans _ _ [f] _ _ body _ _ C1)|]. intros. simpl. by rewrite Ef.
Qed.

Lemma omap_filter_skip {A} (g : Frame → option A) (body : list Frame) :
  (∀ f, is_change f ≠ true → g f = None) → omap g (filter (λ f, is_change f = true) body) = omap g body.
Proof.
  intros Hg. induction body as [|f body IH]; [done|]. rewrite filter_cons.
  destruct (is_change f) eqn:Ef; csimpl; rewrite IH; [done|]. by rewrite Hg by congruence.
Qed.

(** The commit of a transaction read whole: either nothing moves but the stream, or its
    messages are all in the stream and the position is its end. *)
Lemma drain_commit_step s0 s t body s' t' :
  wt_body t = filter (λ f, is_change f = true) body →
  continues s0 {| tn_txid := wt_txid t; tn_commit_ts := wt_commit_ts t; tn_causation := None;
                  tn_rows := []; tn_excluded := ∅ |} body s t' →
  s' = with_txn None s →
  ∃ o, drain_commit scope (wt_end t) t' s' = Some (Ret o) ∧
    let s2 := match o with inl s2 => s2 | inr (s2, _) => s2 end in
    grown (txn_messages (ds_cache s) t) (pb_stream (ds_publisher s)) (pb_stream (ds_publisher s2)) ∧
    (window_holds (ds_publisher s) → window_holds (ds_publisher s2)) ∧
    match o with
    | inl s2 => ds_txn s2 = None ∧ ds_cache s2 = ds_cache s ∧ ds_flushed s2 = wt_end t ∧
        delivered (pb_stream (ds_publisher s2)) t
    | inr (s2, _) => ds_flushed s2 = ds_flushed s
    end.
Proof.
  intros Hb C ->. unfold drain_commit.
  assert (Hrows : omap (frame_row (ds_cache s)) body = omap (frame_row (ds_cache s)) (wt_body t) ∧
                  omap frame_causation body = omap frame_causation (wt_body t) ∧
                  Forall (accounted (ds_cache s)) (wt_body t)).
  { rewrite Hb. split_and!.
    - symmetry. apply omap_filter_skip. by intros [].
    - symmetry. apply omap_filter_skip. by intros [].
    - rewrite Forall_forall. intros f [_ Hf]%list_elem_of_filter. revert f Hf.
      rewrite <-Forall_forall. apply C. }
  destruct Hrows as (Hr & Hc & Hacc).
  assert (Hmsgs : prepared scope t' <$> tn_rows t' = txn_messages (ds_cache s) t).
  { unfold txn_messages. rewrite (ct_rows _ _ _ _ _ C), Hr. apply list_fmap_ext. intros _ r _.
    unfold prepared, envelope_of; simpl.
    rewrite (ct_txid _ _ _ _ _ C), (ct_ts _ _ _ _ _ C), (ct_causation _ _ _ _ _ C), Hc; simpl.
    by destruct (last _). }
  rewrite Hmsgs. change (ds_publisher (with_txn None s)) with (ds_publisher s).
  destruct (publish_txn_returns (txn_messages (ds_cache s) t) MAX_IN_FLIGHT
    (S (length (pb_fates (ds_publisher s)))) 0 no_tally (ds_publisher s)) as (pb & ty & out & E & G & Hk);
    [lia|lia|intros i m Hi; lia|].
  rewrite E. pose proof (publish_txn_window _ _ _ _ _ _ _ _ _ E) as W. destruct out.
  - eexists; split; [done|]. simpl. split_and!; [done|done|done|done|done|].
    exists (ds_cache s). split_and!; [apply C|done|auto].
  - eexists; split; [done|]. by split_and!.
Qed.

(** What a session over the transactions [rest] leaves. *)
Record session_ok (rest : list WalTxn) (position : Z) (s s' : DrainState) : Prop := {
  so_grown : ∃ l, pb_stream (ds_publisher s') = pb_stream (ds_publisher s) ++ l ∧ ∀ m, m ∈ l → logged rest m;
  so_delivered : ∀ t, t ∈ rest → wt_end t ≤ ds_flushed s' → delivered (pb_stream (ds_publisher s')) t;
  so_position : ds_flushed s' ≤ position;
  so_window : window_holds (ds_publisher s) → window_holds (ds_publisher s');
}.

Lemma session_still rest position s s' : same_position s s' → ds_flushed s ≤ position →
  (∀ t, t ∈ rest → ds_flushed s < wt_end t) → session_ok rest position s s'.
Proof.
  intros [Hf Hp] Hle Hrest. split; rewrite ?Hp, ?Hf; auto.
  - exists []. rewrite app_nil_r. split; [done|]. intros m Hm. by apply elem_of_nil in Hm.
  - intros t Ht ?. specialize (Hrest t Ht). lia.
Qed.

Lemma delivered_app stream l t : delivered stream t → delivered (stream ++ l) t.
Proof. intros (c & ? & ? & ?). exists c. split_and!; [done|done|]. intros. apply in_stream_app. auto. Qed.

Lemma session_trans t rest position s s1 s' :
  grown (txn_messages (ds_cache s1) t) (pb_stream (ds_publisher s)) (pb_stream (ds_publisher s1)) →
  (window_holds (ds_publisher s) → window_holds (ds_publisher s1)) → of_maps (ds_cache s1) →
  delivered (pb_stream (ds_publisher s1)) t →
  session_ok rest position s1 s' → session_ok (t :: rest) position s s'.
Proof.
  intros (l1 & E1 & G1) W Hm Hd [(l2 & E2 & G2) D P W2]. split; auto.
  - exists (l1 ++ l2). rewrite E2, E1, app_assoc. split; [done|].
    intros m [Hl|Hl]%elem_of_app.
    + exists (ds_cache s1), t. split_and!; [done|left|by apply G1].
    + destruct (G2 m Hl) as (c & t' & ? & ? & ?). exists c, t'. split_and!; [done|by right|done].
  - intros t' [-> |Ht']%elem_of_cons Hle; [|auto]. rewrite E2. by apply delivered_app.
Qed.

Lemma drain_session position rest frames : sent position rest frames →
  ∀ s last, ds_txn s = None → of_maps (ds_cache s) → ds_flushed s ≤ position →
  StronglySorted Z.lt (wt_end <$> rest) → (∀ t, t ∈ rest → ds_flushed s < wt_end t ≤ position) →
  ∃ s' e, drain scope resolve frames last s = Some (Ret (s', e)) ∧ session_ok rest position s s'.
Proof.
  induction 1 as [rest|rest w fs Hw Hk Hs IH|rest f fs Hf Hs IH|t rest body Hb|t rest body fs Hb Hbody Hs IH];
    intros s e0 Ht Hm Hpos Hsort Hrest; simpl.
  - do 2 eexists. split; [done|]. apply session_still; [done|done|]. intros t Hin. by apply Hrest.
  - rewrite Ht, bool_decide_eq_true_2 by done. simpl.
    destruct (Z.ltb_spec (ds_flushed s) w) as [Hlt|Hge].
    + destruct (IH (with_flushed w s) e0) as (s' & e & E & O); [done|done|done|done| |].
      { intros t Hin. split; [by apply Hk|by apply Hrest]. }
      exists s', e. split; [done|]. destruct O. by split.
    + apply IH; auto.
  - destruct (IH s e0) as (s' & e & E & O); [done..|]. exists s', e. split; [|done]. rewrite <-E.
    destruct Hf as [-> |[-> |(flags & p & c & ->)]]; simpl; [done|done|]. rewrite Ht. by destruct (parse_causation _ _ _).
  - set (t0 := {| tn_txid := _ |}). destruct (drain_body body Hb (with_txn (Some t0) s) t0) as (s' & Hp & Hr); [done..|].
    assert (Hstill : session_ok (t :: rest) position s s').
    { apply session_still; [done|done|]. intros. by apply Hrest. }
    destruct Hr as [[e He]|(t' & _ & He)].
    + exists s', e. rewrite <-(app_nil_r body), He. done.
    + do 2 eexists. rewrite <-(app_nil_r body), He. done.
  - set (t0 := {| tn_txid := _ |}). destruct (drain_body body Hbody (with_txn (Some t0) s) t0) as (s1 & [Hp1 Hp2] & Hr); [done..|].
    destruct Hr as [[e He]|(t1 & C & He)].
    { exists s1, e. rewrite He. split; [done|]. apply session_still; [done|done|]. intros. by apply Hrest. }
    rewrite He. simpl. rewrite (ct_txn _ _ _ _ _ C).
    destruct (drain_commit_step _ s1 t body _ t1 (eq_sym Hb) C eq_refl) as (o & Eo & G & W & Ho).
    simpl in Hp1, Hp2. rewrite Hp2 in G, W. rewrite Eo.
    rewrite fmap_cons in Hsort. apply StronglySorted_inv in Hsort as [Hsort Hlt].
    destruct o as [s2|[s2 e]].
    + destruct Ho as (Ht2 & Hc2 & Hf2 & Hd). rewrite <-Hc2 in G.
      destruct (IH s2 e0) as (s' & e & E & O); [done| | |done| |].
      * rewrite Hc2. apply C.
      * rewrite Hf2. apply Hrest. left.
      * intros t2 Ht'. rewrite Hf2. rewrite Forall_fmap, Forall_forall in Hlt.
        split; [by apply Hlt|]. apply Hrest. by right.
      * exists s', e. split; [done|]. eapply session_trans; try done. rewrite Hc2. apply C.
    + simpl in G, W. exists s2, e. split; [done|]. split; [| | |done].
      * destruct G as (l & El & Hl). exists l. split; [done|]. intros m Hm'.
        exists (ds_cache s1), t. split_and!; [apply C|left|auto].
      * intros t2 Ht2 Hle. rewrite Ho, Hp1 in Hle. specialize (Hrest t2 Ht2). lia.
      * rewrite Ho, Hp1. done.
Qed.

(** Rows the maps answer for and whose images are text. *)
Definition readable (f : Frame) : Prop :=
  match f with
  | FRow r => control_owned r = true ∨
      (∃ c, resolve (rf_schema r) (rf_oid r) = Ok c) ∧
      (∃ old, image (rf_old r) = Ok old) ∧ (∃ new, image (rf_new r) = Ok new)
  | _ => True
  end.

Definition txn_frames (t : WalTxn) : list Frame :=
  FBegin (wt_txid t) (wt_commit_ts t) :: wt_body t ++ [FCommit (wt_end t)].

Lemma drain_frame_reads s t f : is_change f → readable f → ds_txn s = Some t →
  ∃ s' t', drain_frame scope resolve f s = Some (Ret (inl s')) ∧ ds_txn s' = Some t'.
Proof.
  intros Hc Hr Ht.
  assert (Hex : ∀ s1 t1, ds_txn s1 = Some t1 → ∃ s' t', Some (Ret (inl s1 : DrainState + (DrainState * DrainEnd))) =
    Some (Ret (inl s')) ∧ ds_txn s' = Some t') by eauto.
  destruct f as [| |flags p c|r| | | |]; try done; simpl; try (eapply Hex; first [exact Ht|reflexivity]).
  - rewrite Ht. destruct (parse_causation _ _ _); (eapply Hex; first [exact Ht|reflexivity]).
  - change (String.eqb _ _ || _) with (control_owned r).
    simpl in Hr. destruct (control_owned r); [(eapply Hex; first [exact Ht|reflexivity])|].
    destruct Hr as [?|((c & Hc') & (old & Ho) & (new & Hn))]; [done|].
    unfold drain_row. rewrite Hc', Ho, Hn.
    destruct (ds_cache s !! rf_oid r) as [[]|]; simpl; rewrite ?Ht; try (eapply Hex; first [exact Ht|reflexivity]).
    destruct c; (eapply Hex; first [exact Ht|reflexivity]).
Qed.

Lemma drain_body_reads body : Forall (λ f, is_change f ∧ readable f) body → ∀ s t, ds_txn s = Some t →
  ∃ s', ∀ frames e0, drain scope resolve (body ++ frames) e0 s = drain scope resolve frames e0 s'.
Proof.
  induction 1 as [|f body [Hc Hr] Hb IH]; intros s t Ht; [by exists s|].
  destruct (drain_frame_reads s t f Hc Hr Ht) as (s1 & t1 & Ef & Ht1).
  destruct (IH s1 t1 Ht1) as [s2 Hs2]. exists s2. intros. simpl. by rewrite Ef.
Qed.

Lemma drain_catches_up txns : (∀ t, t ∈ txns → Forall (λ f, is_change f ∧ readable f) (wt_body t)) →
  ∀ s e0, ds_txn s = None → of_maps (ds_cache s) → pb_cancels (ds_publisher s) = [] →
  ∃ s' e, drain scope resolve (concat (txn_frames <$> txns)) e0 s = Some (Ret (s', e)) ∧
    ds_flushed s' = default (ds_flushed s) (last (wt_end <$> txns)).
Proof.
  induction txns as [|t txns IH]; intros Hread s e0 Ht Hm Hc; [by do 2 eexists|].
  assert (Hb := Hread t ltac:(left)). csimpl. rewrite <-app_assoc.
  set (t0 := {| tn_txid := _ |}).
  assert (Hch : Forall (λ f, is_change f || is_keepalive f) (wt_body t)).
  { eapply Forall_impl; [exact Hb|]. intros f [Hf _]. by destruct (is_change f). }
  destruct (drain_body (wt_body t) Hch (with_txn (Some t0) s) t0) as (s1 & [Hp1 Hp2] & Hr); [done..|].
  destruct (drain_body_reads _ Hb (with_txn (Some t0) s) t0 eq_refl) as [s1' Hr'].
  destruct Hr as [[e He]|(t1 & C & He)].
  { assert (E1 := He [] (protocol "x")). assert (E2 := He [] (protocol "y")).
    rewrite Hr' in E1, E2. simpl in E1, E2. injection E1 as -> <-. by injection E2. }
  rewrite He. simpl. rewrite (ct_txn _ _ _ _ _ C).
  assert (Hf : wt_body t = filter (λ f, is_change f = true) (wt_body t)).
  { clear -Hb. induction Hb as [|f body [Hf _] Hb IHb]; [done|]. rewrite filter_cons.
    case_match; [by rewrite <-IHb|]. by destruct (is_change f). }
  destruct (drain_commit_step _ s1 t (wt_body t) _ t1 Hf C eq_refl) as (o & Eo & _ & _ & Ho).
  rewrite Eo. unfold drain_commit in Eo. simpl in Hp1, Hp2.
  destruct (publish_txn _ _ _ _ _ _) as [[[[pb ty] out]|]|] eqn:Ep; [|done..].
  apply publish_txn_acked in Ep as [-> Hc']; [|simpl; by rewrite Hp2].
  destruct o as [s2|[s2 e]]; [|done]. destruct Ho as (Ht2 & Hc2 & Hf2 & _).
  destruct (IH ltac:(intros; apply Hread; by right) s2 e0 Ht2) as (s' & e & E & Hfl).
  { rewrite Hc2. apply C. }
  { by simplify_eq/=. }
  exists s', e. split; [done|]. rewrite Hfl, Hf2. rewrite last_cons. by destruct (last _).
Qed.

End Session.

(** *** Sessions over a growing log *)

Record ReaderWorld := {
  rw_wal : list WalTxn;
  rw_position : Z;  (* the server's write position *)
  rw_slot : Z;  (* the slot's confirmed position *)
  rw_stream : list PreparedMsg;
}.

Definition opened (start : Z) (stream : list PreparedMsg) (fates : list SendFate) (cancels : list bool) :
    DrainState := {|
  ds_txn := None; ds_cache := ∅;
  ds_summary := {| sm_commits := 0; sm_published := 0; sm_deduped := 0; sm_truncates := 0; sm_excluded := ∅ |};
  ds_flushed := start;
  ds_publisher := {| pb_stream := stream; pb_fates := fates; pb_cancels := cancels |} |}.

Definition pending (w : ReaderWorld) : list WalTxn := filter (λ t, rw_slot w < wt_end t) (rw_wal w).

(** A transaction commits, the write position moves for another database, or a session
    runs from the slot's position; some of its feedback reaches the server.  [window]
    says that the broker's duplicate window covers every retry. *)
Inductive reader_step (window : bool) (w : ReaderWorld) : ReaderWorld → Prop :=
| commit_logged t : rw_position w < wt_end t →
    reader_step window w {| rw_wal := rw_wal w ++ [t]; rw_position := wt_end t; rw_slot := rw_slot w;
                            rw_stream := rw_stream w |}
| position_moved p : rw_position w ≤ p →
    reader_step window w {| rw_wal := rw_wal w; rw_position := p; rw_slot := rw_slot w;
                            rw_stream := rw_stream w |}
| session_run resolve start fates cancels frames last s e slot :
    (∀ schema oid x, resolve schema oid = Ok x → mapped oid x) →
    (window = true → Forall not_fresh fates) →
    start ≤ rw_slot w → sent (rw_position w) (pending w) frames →
    drain scope resolve frames last (opened start (rw_stream w) fates cancels) = Some (Ret (s, e)) →
    rw_slot w ≤ slot ≤ Z.max (rw_slot w) (ds_flushed s) →
    reader_step window w {| rw_wal := rw_wal w; rw_position := rw_position w; rw_slot := slot;
                            rw_stream := pb_stream (ds_publisher s) |}.

Record world_ok (window : bool) (w : ReaderWorld) : Prop := {
  wo_sorted : StronglySorted Z.lt (wt_end <$> rw_wal w);
  wo_position : ∀ t, t ∈ rw_wal w → wt_end t ≤ rw_position w;
  wo_slot : rw_slot w ≤ rw_position w;
  wo_delivered : ∀ t, t ∈ rw_wal w → wt_end t ≤ rw_slot w → delivered (rw_stream w) t;
  wo_logged : ∀ m, m ∈ rw_stream w → logged (rw_wal w) m;
  wo_once : window = true → NoDup (pm_id <$> rw_stream w);
}.

Lemma logged_app wal wal' m : logged wal m → logged (wal ++ wal') m.
Proof. intros (c & t & ? & ? & ?). exists c, t. rewrite elem_of_app. auto. Qed.

Lemma sorted_filter (wal : list WalTxn) slot : StronglySorted Z.lt (wt_end <$> wal) →
  StronglySorted Z.lt (wt_end <$> filter (λ t, slot < wt_end t) wal).
Proof.
  induction wal as [|t wal IH]; [done|]. rewrite fmap_cons. intros [Hs Ha]%StronglySorted_inv.
  rewrite filter_cons. case_match; [|auto]. rewrite fmap_cons. constructor; [auto|].
  rewrite Forall_fmap, Forall_forall in Ha |- *. intros x [_ Hx]%list_elem_of_filter. by apply Ha.
Qed.

(** A session from the slot's position always returns. *)
Lemma world_session window w resolve start fates cancels frames last :
  world_ok window w → (∀ schema oid x, resolve schema oid = Ok x → mapped oid x) →
  start ≤ rw_slot w → sent (rw_position w) (pending w) frames →
  ∃ s e, drain scope resolve frames last (opened start (rw_stream w) fates cancels) = Some (Ret (s, e)) ∧
    session_ok (pending w) (rw_position w) (opened start (rw_stream w) fates cancels) s.
Proof.
  intros [] Hres Hstart Hsent. apply drain_session; try done; simpl; [lia|by apply sorted_filter|].
  intros t [? Ht]%list_elem_of_filter. specialize (wo_position0 t Ht). lia.
Qed.

Lemma reader_step_ok window w w' : reader_step window w w' → world_ok window w → world_ok window w'.
Proof.
  intros Hstep Hw. pose proof Hw as [Hsort Hpos Hslot Hdel Hlog Honce].
  destruct Hstep as [t Ht|p Hp|resolve start fates cancels frames e0 s e slot Hres Hwin Hstart Hsent Hdrain Hslot'].
  - split; simpl; [| |lia| | |done].
    + rewrite fmap_app. apply StronglySorted_app_2; [|done|repeat constructor].
      intros x y Hx ->%list_elem_of_singleton. apply list_elem_of_fmap in Hx as (t' & -> & Ht').
      specialize (Hpos t' Ht'). lia.
    + intros t' [Ht'|Ht'%list_elem_of_singleton]%elem_of_app; [specialize (Hpos t' Ht'); lia|by subst].
    + intros t' [Ht'|Ht'%list_elem_of_singleton]%elem_of_app Hle; [auto|]. subst. lia.
    + intros m Hm. by apply logged_app, Hlog.
  - split; simpl; [done| |lia|done..]. intros t Ht. specialize (Hpos t Ht). lia.
  - destruct (world_session window w resolve start fates cancels frames e0 Hw Hres Hstart Hsent)
      as (s1 & e1 & E & [(l & El & Hl) D P W]). rewrite Hdrain in E. simplify_eq. simpl in El.
    split; simpl; [done|done|lia| | |].
    + intros t Ht Hle. destruct (Z.le_gt_cases (wt_end t) (rw_slot w)) as [Ho|Hn].
      * rewrite El. apply delivered_app. auto.
      * apply D; [|lia]. apply list_elem_of_filter. split; [lia|done].
    + intros m. rewrite El. intros [Hm|Hm]%elem_of_app; [auto|].
      destruct (Hl m Hm) as (c & t & ? & Ht & ?). exists c, t.
      apply list_elem_of_filter in Ht as [_ Ht]. done.
    + intros Hyes. apply W. split; simpl; auto.
Qed.

Definition fresh_world (position : Z) : ReaderWorld := {|
  rw_wal := []; rw_position := position; rw_slot := position; rw_stream := [] |}.

Lemma fresh_world_ok window position : world_ok window (fresh_world position).
Proof.
  split; simpl; [constructor| |lia| | |intros; constructor].
  all: by intros ? ?%elem_of_nil.
Qed.

Lemma reachable_ok window position w : rtc (reader_step window) (fresh_world position) w → world_ok window w.
Proof.
  apply (rtc_ind_r (λ w, world_ok window w)); [apply fresh_world_ok|]. intros w1 w2 _ Hs. by apply reader_step_ok.
Qed.

(** The invariant without the promise of the duplicate window. *)
Lemma world_ok_any window w : world_ok window w → world_ok false w.
Proof. intros [? ? ? ? ? _]. by constructor. Qed.

(** *** Rows and their messages *)

Definition frame_position (f : Frame) : option Z := match f with FRow r => Some (rf_lsn r) | _ => None end.
Definition row_positions (wal : list WalTxn) : list Z := concat ((λ t, omap frame_position (wt_body t)) <$> wal).

(** The message of the row [f] of [t] under some answer of the maps. *)
Definition row_message (t : WalTxn) (f : Frame) (m : PreparedMsg) : Prop :=
  ∃ c r, of_maps c ∧ frame_row c f = Some r ∧
    m = prepared scope {| tn_txid := wt_txid t; tn_commit_ts := wt_commit_ts t;
                          tn_causation := last (omap frame_causation (wt_body t));
                          tn_rows := []; tn_excluded := ∅ |} r.

Lemma txn_messages_rows c t m : of_maps c → m ∈ txn_messages c t →
  ∃ f, f ∈ wt_body t ∧ row_message t f m.
Proof.
  intros Hc. unfold txn_messages. rewrite list_elem_of_fmap. intros (r & -> & Hr).
  apply list_elem_of_omap in Hr as (f & Hf & Er). exists f. split; [done|]. by exists c, r.
Qed.

Lemma row_messages_txn c t f r : f ∈ wt_body t → frame_row c f = Some r →
  ∃ m, m ∈ txn_messages c t ∧ pm_id m = msg_id (rs_project scope) (rs_env scope) (pr_lsn r).
Proof.
  intros Hf Er. eexists. unfold txn_messages. rewrite list_elem_of_fmap. split.
  - eexists. split; [reflexivity|]. apply list_elem_of_omap. eauto.
  - done.
Qed.

Lemma frame_row_position c f r : frame_row c f = Some r → frame_position f = Some (pr_lsn r).
Proof. destruct f as [| | |r'| | | |]; try done. simpl. repeat case_match; naive_solver. Qed.

Lemma NoDup_concat_inj {A B} (g : A → list B) l x y b : NoDup (concat (g <$> l)) →
  x ∈ l → y ∈ l → b ∈ g x → b ∈ g y → x = y ∧ NoDup (g x).
Proof.
  induction l as [|z l IH]; [by intros _ ?%elem_of_nil|]. csimpl.
  intros (Hz & Hdisj & Hl)%NoDup_app Hx Hy Hbx Hby.
  assert (Hin : ∀ w, w ∈ l → b ∈ g w → b ∈ concat (g <$> l)).
  { intros w Hw Hb. apply list_elem_of_In, in_concat. exists (g w). rewrite <-!list_elem_of_In.
    split; [|done]. apply list_elem_of_fmap. eauto. }
  apply elem_of_cons in Hx as [-> |Hx], Hy as [-> |Hy]; [done| | |auto].
  all: exfalso; eapply Hdisj; eauto.
Qed.

Lemma NoDup_omap_inj {A B} (g : A → option B) l x y b : NoDup (omap g l) →
  x ∈ l → y ∈ l → g x = Some b → g y = Some b → x = y.
Proof.
  induction l as [|z l IH]; [by intros _ ?%elem_of_nil|]. csimpl. intros Hn Hx Hy Hbx Hby.
  assert (Hin : ∀ w, w ∈ l → g w = Some b → b ∈ omap g l) by (intros; apply list_elem_of_omap; eauto).
  apply elem_of_cons in Hx as [-> |Hx], Hy as [-> |Hy]; [done| | |].
  - rewrite Hbx in Hn. apply NoDup_cons in Hn as [Hn _]. destruct Hn. eauto.
  - rewrite Hby in Hn. apply NoDup_cons in Hn as [Hn _]. destruct Hn. eauto.
  - apply IH; try done. destruct (g z); [by apply NoDup_cons in Hn as [_ ?]|done].
Qed.

Lemma msg_id_inj project env lsn lsn' : is_u64 lsn → is_u64 lsn' →
  msg_id project env lsn = msg_id project env lsn' → lsn = lsn'.
Proof.
  intros H3 H4 E. unfold msg_id in E. do 2 apply string_app_inv_head in E. by apply decimal_text_inj.
Qed.

(** Where no two rows of the log share a position, the copy in the stream is the row's own. *)
Lemma row_in_stream window w t f c r : world_ok window w →
  NoDup (row_positions (rw_wal w)) → Forall is_u64 (row_positions (rw_wal w)) →
  t ∈ rw_wal w → f ∈ wt_body t → of_maps c → frame_row c f = Some r →
  (∀ m, m ∈ txn_messages c t → in_stream (rw_stream w) m) →
  ∃ m, m ∈ rw_stream w ∧ row_message t f m.
Proof.
  intros Hw Hn Hu Ht Hf Hc Er Hin.
  destruct (row_messages_txn c t f r Hf Er) as (m0 & Hm0 & Hid).
  apply Hin in Hm0. unfold in_stream in Hm0. apply list_elem_of_fmap in Hm0 as (m & Em & Hm).
  destruct (wo_logged _ _ Hw m Hm) as (c' & t' & Hc' & Ht' & Hmt).
  destruct (txn_messages_rows c' t' m Hc' Hmt) as (f' & Hf' & Hr'). pose proof Hr' as (c2 & r' & Hc2 & Er' & Em').
  assert (Hpos : ∀ t0 f0 r0 c0, t0 ∈ rw_wal w → f0 ∈ wt_body t0 → frame_row c0 f0 = Some r0 →
    pr_lsn r0 ∈ omap frame_position (wt_body t0) ∧ is_u64 (pr_lsn r0)).
  { intros t0 f0 r0 c0 H3 H4 H5%frame_row_position.
    assert (Hx : pr_lsn r0 ∈ omap frame_position (wt_body t0)) by (apply list_elem_of_omap; eauto).
    split; [done|]. rewrite Forall_forall in Hu. apply Hu. unfold row_positions.
    apply list_elem_of_In, in_concat. eexists. rewrite <-!list_elem_of_In. split; [|exact Hx].
    apply list_elem_of_fmap. eauto. }
  destruct (Hpos _ _ _ _ Ht Hf Er) as [Hp Hpu], (Hpos _ _ _ _ Ht' Hf' Er') as [Hp' Hpu'].
  assert (El : pr_lsn r = pr_lsn r').
  { apply (msg_id_inj (rs_project scope) (rs_env scope)); [done..|]. rewrite <-Hid, Em, Em'. done. }
  rewrite <-El in Hp'.
  destruct (NoDup_concat_inj _ _ t t' _ Hn Ht Ht' Hp Hp') as [<- Hnt].
  assert (f = f') as <-.
  { eapply NoDup_omap_inj; [exact Hnt|done..| |]; [by eapply frame_row_position|].
    rewrite El. by eapply frame_row_position. }
  by exists m.
Qed.

(** C30. Delayed, never lost: whatever the log, the sessions, the refusals, losses and lost
    acknowledgments of the broker and the shutdowns, every transaction up to the slot's
    confirmed position is accounted for row by row and each of its publishable rows is in
    the stream; nothing is in the stream but messages of logged rows; no message is there
    twice while the duplicate window holds; and a further session always returns.  The
    copy in the stream is the row's own where no two rows of the log share a position. *)
Theorem reader_no_loss window position w :
  rtc (reader_step window) (fresh_world position) w →
  (∀ t, t ∈ rw_wal w → wt_end t ≤ rw_slot w →
     ∃ c, of_maps c ∧ Forall (accounted c) (wt_body t) ∧
       (∀ m, m ∈ txn_messages c t → in_stream (rw_stream w) m) ∧
       (NoDup (row_positions (rw_wal w)) → Forall is_u64 (row_positions (rw_wal w)) →
        ∀ f r, f ∈ wt_body t → frame_row c f = Some r → ∃ m, m ∈ rw_stream w ∧ row_message t f m)) ∧
  (∀ m, m ∈ rw_stream w → ∃ t f, t ∈ rw_wal w ∧ f ∈ wt_body t ∧ row_message t f m) ∧
  (window = true → NoDup (pm_id <$> rw_stream w)) ∧
  (∀ resolve start fates cancels frames last,
     (∀ schema oid x, resolve schema oid = Ok x → mapped oid x) →
     start ≤ rw_slot w → sent (rw_position w) (pending w) frames →
     ∃ s e, drain scope resolve frames last (opened start (rw_stream w) fates cancels) = Some (Ret (s, e))).
Proof.
  intros Hw%reachable_ok. split_and!.
  - intros t Ht Hle. destruct (wo_delivered _ _ Hw t Ht Hle) as (c & Hc & Ha & Hm).
    exists c. split_and!; [done..|]. intros. by eapply row_in_stream.
  - intros m Hm. destruct (wo_logged _ _ Hw m Hm) as (c & t & Hc & Ht & Hmt).
    destruct (txn_messages_rows c t m Hc Hmt) as (f & ? & ?). eauto.
  - apply Hw.
  - intros resolve start fates cancels frames e0 Hres Hst Hs.
    destruct (world_session window w resolve start fates cancels frames e0 Hw Hres Hst Hs) as (s & e & E & _). eauto.
Qed.

Lemma last_pending w : StronglySorted Z.lt (wt_end <$> rw_wal w) →
  ∀ t, t ∈ pending w → ∃ n, last (wt_end <$> pending w) = Some n ∧ wt_end t ≤ n.
Proof.
  intros Hs%(sorted_filter _ (rw_slot w)). fold (pending w) in Hs.
  induction (pending w) as [|t l IH]; intros t' Ht'; [by apply elem_of_nil in Ht'|].
  rewrite fmap_cons in Hs. apply StronglySorted_inv in Hs as [Hs Ha]. csimpl. rewrite last_cons.
  destruct l as [|t2 l].
  { apply list_elem_of_singleton in Ht' as ->. eexists. split; [done|lia]. }
  destruct (IH Hs t2 ltac:(left)) as (n & En & Hn). rewrite En. exists n. split; [done|].
  apply elem_of_cons in Ht' as [-> |Ht'].
  - rewrite fmap_cons in Ha. apply Forall_cons in Ha as [Ha _]. lia.
  - destruct (IH Hs t' Ht') as (n' & En' & Hn'). by simplify_eq.
Qed.

(** C31. The reader catches up: a session that is sent everything pending, whose rows the
    maps answer for and which no shutdown ends, confirms the end of the log, however often
    the broker refuses, loses or fails to acknowledge a publication on the way; and every
    transaction of the log is then accounted for row by row, a message under the id of each
    of its publishable rows is in the stream, and, where no two rows of the log share a
    position, that message is the row's own.  Two rows at one position share one id, and
    one of them is not in the stream ([shared_position_loses_row]). *)
Theorem reader_catches_up window position w resolve fates e0 :
  rtc (reader_step window) (fresh_world position) w →
  (∀ schema oid x, resolve schema oid = Ok x → mapped oid x) →
  (∀ t, t ∈ pending w → Forall (λ f, is_change f ∧ readable resolve f) (wt_body t)) →
  ∃ s e, drain scope resolve (concat (txn_frames <$> pending w)) e0
           (opened (rw_slot w) (rw_stream w) fates []) = Some (Ret (s, e)) ∧
    rw_slot w ≤ ds_flushed s ∧
    ∀ t, t ∈ rw_wal w → wt_end t ≤ ds_flushed s ∧
      ∃ c, of_maps c ∧ Forall (accounted c) (wt_body t) ∧
        (∀ m, m ∈ txn_messages c t → in_stream (pb_stream (ds_publisher s)) m) ∧
        (NoDup (row_positions (rw_wal w)) → Forall is_u64 (row_positions (rw_wal w)) →
         ∀ f r, f ∈ wt_body t → frame_row c f = Some r →
         ∃ m, m ∈ pb_stream (ds_publisher s) ∧ row_message t f m).
Proof.
  intros Hw%reachable_ok Hres Hread.
  destruct (drain_catches_up resolve Hres (pending w) Hread (opened (rw_slot w) (rw_stream w) fates []) e0)
    as (s & e & E & Hf); [done..|].
  assert (Hsent : sent (rw_position w) (pending w) (concat (txn_frames <$> pending w))).
  { clear -Hread. induction (pending w) as [|t l IH]; [constructor|]. csimpl. rewrite <-app_assoc. simpl.
    assert (Ht := Hread t ltac:(left)). apply sent_txn; [| |apply IH; intros; apply Hread; by right].
    - induction Ht as [|f b [Hf _] Hb IHb]; [done|]. rewrite filter_cons. destruct (is_change f); [|done].
      simpl. by f_equal.
    - eapply Forall_impl; [exact Ht|]. intros f [Hf _]. by destruct (is_change f). }
  destruct (world_session window w resolve (rw_slot w) fates [] _ e0 Hw Hres ltac:(lia) Hsent)
    as (s1 & e1 & E1 & [(l & El & Hl) D P W]). rewrite E in E1. simplify_eq. simpl in Hf, El.
  assert (Hpend : ∀ t, t ∈ rw_wal w → rw_slot w < wt_end t → wt_end t ≤ ds_flushed s1).
  { intros t Ht Hlt. destruct (last_pending w (wo_sorted _ _ Hw) t) as (n & En & Hn).
    - apply list_elem_of_filter. done.
    - by rewrite Hf, En. }
  assert (Hge : rw_slot w ≤ ds_flushed s1).
  { rewrite Hf. destruct (last _) as [n|] eqn:En; simpl; [|lia].
    rewrite last_lookup in En. apply list_elem_of_lookup_2, list_elem_of_fmap in En as (t & -> & Ht).
    apply list_elem_of_filter in Ht as [? _]. lia. }
  exists s1, e1. split_and!; [done|done|]. intros t Ht.
  assert (Hd : delivered (pb_stream (ds_publisher s1)) t ∧ wt_end t ≤ ds_flushed s1).
  { destruct (Z.le_gt_cases (wt_end t) (rw_slot w)) as [Ho|Hn].
    - split; [|lia]. rewrite El. apply delivered_app. by apply (wo_delivered _ _ Hw).
    - split; [|by apply Hpend]. apply D; [|by apply Hpend]. apply list_elem_of_filter. done. }
  destruct Hd as [(c & Hc & Ha & Hm) Hle]. split; [done|]. exists c. split_and!; [done..|]. intros Hnd Hu f r Hbody Hr.
  set (w' := {| rw_wal := rw_wal w; rw_position := rw_position w; rw_slot := rw_slot w;
                rw_stream := pb_stream (ds_publisher s1) |}).
  apply (row_in_stream false w' t f c r); try done. eapply reader_step_ok; [|by apply (world_ok_any window)].
  apply (session_run false w resolve (rw_slot w) fates [] (concat (txn_frames <$> pending w)) e0 s1 e1 (rw_slot w)); [done|done|lia|done|done|lia].
Qed.

End Delivery.

Module DeliverySample.

#[export] Instance instants : InstantText := {| instant_text := decimal_text; parse_instant := parse_i64 |}.
#[export] Instance texts : JsonText := λ _, None.
#[export] Instance members : JsonMembers := λ _, None.
#[export] Instance prints : JsonPrint := λ _, "{}".

Definition shop : ReaderScope := {| rs_org := "acme"; rs_project := "shop"; rs_env := "dev" |}.
Definition orders : RelationClassification := REntity {| em_package_id := "orders"; em_entity_id := "order" |}.
Definition mapped (oid : Z) (c : RelationClassification) : Prop := c = orders.
Definition resolve (schema : string) (oid : Z) : result RelationClassification ReplicationError := Ok orders.

Definition insert (lsn : Z) : Frame := FRow {|
  rf_op := OpInsert; rf_old := None; rf_new := Some [("id", ColText "o1")]; rf_schema := "app";
  rf_table := "orders"; rf_oid := 16400; rf_lsn := lsn |}.
Definition two_orders : WalTxn := {|
  wt_txid := 7; wt_commit_ts := 0; wt_body := [insert 101; insert 102]; wt_end := 110 |}.

Definition logged_world : ReaderWorld := {|
  rw_wal := [two_orders]; rw_position := 110; rw_slot := 100; rw_stream := [] |}.

(** The first publication is lost and the second is stored without an acknowledgment. *)
Definition trouble : list SendFate := [SendLost; SendStored false false].

Lemma logged_reached : rtc (reader_step shop mapped true) (fresh_world 100) logged_world.
Proof. apply rtc_once. apply (commit_logged shop mapped true (fresh_world 100) two_orders). done. Qed.

Lemma reader_no_loss_witness :
  ∃ w, rw_slot w = 110 ∧ pm_id <$> rw_stream w = ["shop_dev:102"; "shop_dev:101"] ∧
  rtc (reader_step shop mapped true) (fresh_world 100) w ∧ NoDup (pm_id <$> rw_stream w).
Proof.
  assert (Hrun : ∃ s e, drain shop resolve (txn_frames two_orders) (protocol "cut") (opened 100 [] trouble []) =
    Some (Ret (s, e)) ∧ ds_flushed s = 110 ∧ pm_id <$> pb_stream (ds_publisher s) = ["shop_dev:102"; "shop_dev:101"]).
  { vm_compute. do 2 eexists. split; [reflexivity|]. split; reflexivity. }
  destruct Hrun as (s & e & E & Hf & Hids).
  assert (Hw : rtc (reader_step shop mapped true) (fresh_world 100)
    {| rw_wal := [two_orders]; rw_position := 110; rw_slot := 110; rw_stream := pb_stream (ds_publisher s) |}).
  { eapply rtc_r; [exact logged_reached|].
    eapply (session_run shop mapped true logged_world resolve 100 trouble [] _ (protocol "cut") s e 110).
    - intros schema oid x [= <-]. done.
    - intros _. repeat constructor.
    - done.
    - apply (sent_txn 110 two_orders [] (wt_body two_orders) []); [reflexivity|repeat constructor|constructor].
    - exact E.
    - rewrite Hf. simpl. lia. }
  eexists. split; [|split; [|split; [exact Hw|apply (reader_no_loss shop mapped true 100 _ Hw); done]]]; done.
Defined.

Lemma reader_catches_up_witness :
  ∃ s e, drain shop resolve (txn_frames two_orders) (protocol "cut") (opened 100 [] trouble []) =
    Some (Ret (s, e)) ∧ 110 ≤ ds_flushed s.
Proof.
  destruct (reader_catches_up shop mapped true 100 logged_world resolve trouble (protocol "cut")) as (s & e & E & _ & Hall).
  - exact logged_reached.
  - intros schema oid x [= <-]. done.
  - intros t Ht. apply list_elem_of_filter in Ht as [_ ->%list_elem_of_singleton].
    apply Forall_forall. intros f Hf. apply elem_of_cons in Hf as [->|Hf%list_elem_of_singleton]; subst.
    all: split; [exact I|right; split; [by eexists|split; by eexists]].
  - exists s, e. split; [exact E|]. apply (Hall two_orders). left.
Defined.

(** Two rows at one position, as a multi-row log record has them: the transaction is
    acknowledged with one of its rows absent from the stream. *)
Example shared_position_loses_row :
  ∃ s e, drain shop resolve (txn_frames {| wt_txid := 7; wt_commit_ts := 0; wt_body := [insert 101; insert 101];
                                           wt_end := 110 |})
           (protocol "cut") (opened 100 [] [] []) = Some (Ret (s, e)) ∧
    ds_flushed s = 110 ∧ sm_published (ds_summary s) = 2 ∧ length (pb_stream (ds_publisher s)) = 1%nat.
Proof. vm_compute. do 2 eexists. split; [reflexivity|]. split; [reflexivity|]. split; reflexivity. Qed.

(** A lost publication with a later one stored: the rows of a transaction are in the
    stream out of their order. *)
Example lost_publication_reorders :
  ∃ s e, drain shop resolve (txn_frames two_orders) (protocol "cut") (opened 100 [] [SendLost] []) =
    Some (Ret (s, e)) ∧ pm_id <$> pb_stream (ds_publisher s) = ["shop_dev:102"; "shop_dev:101"].
Proof. vm_compute. do 2 eexists. split; [reflexivity|]. reflexivity. Qed.

End DeliverySample.
