(* ===== verification/Materializer.v ===== *)
(** * The materializer

    [apps/platform/execution/materializer/src/main.rs], the service that takes published
    events to the admission of [EventBatch]: its configuration, the triggers it serves, the
    preparation of a message for each trigger, the settlement of a fetched batch and the
    sweep; and the host side of its calls, the registration gate of
    [crates/platform/runtime/src/plugins/wamn_jetstream.rs] with the declared consumers of
    [crates/control/provision/src/events.rs].

    The broker is the list of messages a fetch answers and whether it takes a settlement;
    what the database is at the time of an admission is a view given per message, in
    which other hosts may have acted.  Tracing, the printed lines and the waits are left
    out. *)

From stdpp Require Import base tactics option list gmap strings relations.
From Stdlib Require Import ZArith Lia.
From S2P Require Import Prelude Text Json Canonical Router RunStatus RunStore Queue RunPlane ClaimStore PlaneSpec.
From S2P Require Import ClaimRefines Workflows StoreProps WorkflowProps Capabilities Packages ComponentFacts Driver.
From S2P Require Import ComponentAdmission GatedRuns Lowering ServingManifests WiringDocuments WiringCompatibility.
From S2P Require Import WorkflowGate EventWire EventTriggers WiringParse WorkflowVersions EventBatch PlaneHistory CdcReader.
#[local] Set Warnings "-clear-no-such-hyp".
Open Scope wamn_scope.

(** ** Configuration *)

Record MatConfig := {
  mt_stream : string;
  mt_org : string;
  mt_project : string;
  mt_env : string;
  mt_env_key : string;
  mt_batch : Z;  (* u32 *)
  mt_fetch_ms : Z;  (* u32 *)
  mt_sweep_ms : Z;  (* u64 *)
  mt_max_sweeps : Z;  (* u64 *)
  mt_max_depth : Z;  (* u32 *)
  mt_ack_wait_ms : Z;  (* u64 *)
  mt_nack_delay_ms : Z;  (* u32 *)
  mt_max_deliver : Z;  (* u32 *)
  mt_report_path : option string;
}.

Definition MAX_BATCH : Z := 64.
Definition batch (value : string) : result Z string :=
  match uint_text u32_max value with
  | None => Err "WAMN_MAT_BATCH"
  | Some n => if (MAX_BATCH <? n)%Z then Err "WAMN_MAT_BATCH must not exceed 64" else Ok n
  end.

(** A variable of the process, required, or read as a number with a default. *)
Definition required (env : string → option string) (name : string) : result string string :=
  ok_or (env name) ("missing required env " +:+ name).
Definition uint_or (env : string → option string) (hi : Z) (name fallback : string) : result Z string :=
  ok_or (uint_text hi (default fallback (env name))) name.

(** [Config::from_env]. *)
Definition from_env (env : string → option string) : result MatConfig string :=
  let? max_deliver := uint_or env u32_max "WAMN_MAT_MAX_DELIVER" "5" in
  if (max_deliver =? 0)%Z then Err "WAMN_MAT_MAX_DELIVER must be non-zero"
  else
    let? stream := required env "WAMN_MAT_STREAM" in
    let? org := required env "WAMN_MAT_ORG" in
    let? project := required env "WAMN_MAT_PROJECT" in
    let? e := required env "WAMN_MAT_ENV" in
    let? env_key := required env "WAMN_MAT_ENV_KEY" in
    let? n := batch (default "64" (env "WAMN_MAT_BATCH")) in
    let? fetch_ms := uint_or env u32_max "WAMN_MAT_FETCH_MS" "5000" in
    let? sweep_ms := uint_or env u64_max "WAMN_MAT_SWEEP_MS" "10000" in
    let? max_sweeps := uint_or env u64_max "WAMN_MAT_MAX_SWEEPS" "0" in
    let? max_depth := uint_or env u32_max "WAMN_MAT_MAX_DEPTH" (decimal_text MAX_CAUSATION_DEPTH) in
    let? ack_wait_ms := uint_or env u64_max "WAMN_MAT_ACK_WAIT_MS" "30000" in
    let? nack_delay_ms := uint_or env u32_max "WAMN_MAT_NACK_DELAY_MS" "5000" in
    Ok {| mt_stream := stream; mt_org := org; mt_project := project; mt_env := e; mt_env_key := env_key;
          mt_batch := n; mt_fetch_ms := fetch_ms; mt_sweep_ms := sweep_ms; mt_max_sweeps := max_sweeps;
          mt_max_depth := max_depth; mt_ack_wait_ms := ack_wait_ms; mt_nack_delay_ms := nack_delay_ms;
          mt_max_deliver := max_deliver; mt_report_path := env "WAMN_MAT_REPORT_PATH" |}.

(** ** Counters *)

(** The [u64] fields of [Counters] by name, and the map of skips by registration. *)
Inductive Count :=
| CSweeps | CDeliveries | CBatches | CAcked | CSkipEntity | CSkipOp | CSkipForeignTenant | CSkipConditionFalse
| CRefuseDepth | CRefuseTenantUnscopable | CRefuseOldImageAbsent | CRefuseConditionError
| CRefuseSourcePackageIdentityUnknown | CHeldRegistrations | CPoison | CRetry | CTerminated | CTerminationRetry.
#[export] Instance Count_eq_dec : EqDecision Count.
Proof. solve_decision. Defined.

Record Counters := { ct_value : Count → Z; ct_skip_package : gmap string Z }.
Definition no_counters : Counters := {| ct_value := λ _, 0%Z; ct_skip_package := ∅ |}.
Definition count (f : Count) (c : Counters) : Counters := {|
  ct_value := λ g, if decide_rel (=) g f then u64_add (ct_value c g) 1 else ct_value c g;
  ct_skip_package := ct_skip_package c |}.
Definition count_package (registration : string) (c : Counters) : Counters := {|
  ct_value := ct_value c;
  ct_skip_package := <[registration := u64_add (default 0%Z (ct_skip_package c !! registration)) 1]> (ct_skip_package c) |}.

Definition count_name (f : Count) : string :=
  match f with
  | CSweeps => "sweeps" | CDeliveries => "deliveries" | CBatches => "batches" | CAcked => "acked"
  | CSkipEntity => "skip-entity" | CSkipOp => "skip-op" | CSkipForeignTenant => "skip-foreign-tenant"
  | CSkipConditionFalse => "skip-condition-false" | CRefuseDepth => "refuse-depth"
  | CRefuseTenantUnscopable => "refuse-tenant-unscopable" | CRefuseOldImageAbsent => "refuse-old-image-absent"
  | CRefuseConditionError => "refuse-condition-error"
  | CRefuseSourcePackageIdentityUnknown => "refuse-source-package-identity-unknown"
  | CHeldRegistrations => "held-registrations" | CPoison => "poison" | CRetry => "retry"
  | CTerminated => "terminated" | CTerminationRetry => "termination-retry"
  end.
Definition counts : list Count :=
  [CSweeps; CDeliveries; CBatches; CAcked; CSkipEntity; CSkipOp; CSkipForeignTenant; CSkipConditionFalse; CRefuseDepth;
   CRefuseTenantUnscopable; CRefuseOldImageAbsent; CRefuseConditionError; CRefuseSourcePackageIdentityUnknown;
   CHeldRegistrations; CPoison; CRetry; CTerminated; CTerminationRetry].

(** [Counters::to_json]. *)
Definition counters_value (c : Counters) : Value :=
  VObject (map_from_iter
    (("skip-package-mismatch-by-registration",
      VObject (map_from_iter ((λ kn : string * Z, (kn.1, number_of_int kn.2)) <$> map_to_list (ct_skip_package c)))) ::
     ((λ f, (count_name f, number_of_int (ct_value c f))) <$> counts))).

(** ** The triggers served *)

(** [EventTrigger] on the wire: the derived [Serialize] and [Deserialize], which takes
    unknown fields, lets a missing [condition] be none and reads an array by position. *)
Definition trigger_value (t : EventTrigger) : Value :=
  VObject (map_from_iter [
    ("application", VString (tg_application t)); ("workflow_id", VString (tg_workflow_id t));
    ("source_package", VString (tg_source_package t)); ("entity", VString (tg_entity t));
    ("ops", VArray (VString ∘ op_text <$> tg_ops t));
    ("condition", match tg_condition t with Some c => VString c | None => VNull end);
    ("enable_sequence", number_of_int (tg_enable_sequence t))]).

Definition trigger_field (i : nat) (name : string) (v : Value) : option Value :=
  match v with
  | VObject m => map_get name m
  | VArray l => if (length l =? 7)%nat then l !! i else None
  | _ => None
  end.
Definition decode_trigger (v : Value) : option EventTrigger :=
  match trigger_field 0 "application" v, trigger_field 1 "workflow_id" v, trigger_field 2 "source_package" v, trigger_field 3 "entity" v, trigger_field 4 "ops" v,
        trigger_field 6 "enable_sequence" v with
  | Some (VString application), Some (VString workflow_id), Some (VString source_package), Some (VString entity),
    Some (VArray ops), Some sequence =>
      ops ← mapM decode_op ops;
      condition ← match trigger_field 5 "condition" v with
                  | None | Some VNull => Some None
                  | Some (VString c) => Some (Some c)
                  | Some _ => None
                  end;
      sequence ← as_u64 sequence;
      Some {| tg_application := application; tg_workflow_id := workflow_id; tg_source_package := source_package;
              tg_entity := entity; tg_ops := ops; tg_condition := condition; tg_enable_sequence := sequence |}
  | _, _, _, _, _, _ => None
  end.
Definition decode_triggers (v : Value) : option (list EventTrigger) :=
  match v with VArray l => mapM decode_trigger l | _ => None end.

Record Serving `{Jmespath} := {
  mv_registration : EventRegistration;
  mv_enable_sequence : Z;  (* u64 *)
  mv_condition : option CompiledCondition;
  mv_resident_env_key : string;
}.

(** [JsError]. *)
Inductive JsError := JsConnectionUnavailable | JsNotFound (name : string) | JsOther (text : string).

Definition UNREGISTERED_SOURCE : string := "unregistered-source".

Section Materializer.
Context `{Collation, Boon, FloatText, Sha256, JsonText, JsonMembers, InstantText, JsonPrint, Jmespath, PlatformTexts,
          Jsonb, AdmissionChecks, JsonbEq}.

(** The trusted identity of the materializer's component, and the release of its host. *)
Record MatHost := {
  mh_release : option LoadedRelease;
  mh_authority : AuthorityClass;
  mh_env_key : option string;
  mh_executor : Host;
  mh_event_project : string;
}.

(** [triggers] of the host. *)
Definition host_triggers (h : MatHost) (t : Workflows_) : run (result string JsError) :=
  match mh_release h with
  | None => Ret (Err (JsOther UNREGISTERED_SOURCE))
  | Some rel =>
      match require_event_materializer (mh_authority h) (mh_env_key h) rel with
      | Err e => Ret (Err (JsOther (error_detail e)))
      | Ok _ =>
          let! triggers := event_triggers rel t in
          Ret (match triggers with
               | Ok l => Ok (print_json (VArray (trigger_value <$> l)))
               | Err e => Err (JsOther (error_detail e))
               end)
      end
  end.

(** A trigger as a serving; one whose condition does not compile is held. *)
Definition serving_of (env_key : string) (t : EventTrigger) : option Serving :=
  match serviceable (trigger_registration t) with
  | Err _ => None
  | Ok condition => Some {| mv_registration := trigger_registration t; mv_enable_sequence := tg_enable_sequence t;
                            mv_condition := condition; mv_resident_env_key := env_key |}
  end.
Fixpoint servings_of (env_key : string) (triggers : list EventTrigger) (c : Counters) : list Serving * Counters :=
  match triggers with
  | [] => ([], c)
  | t :: triggers =>
      match serving_of env_key t with
      | None => servings_of env_key triggers (count CHeldRegistrations c)
      | Some s => let '(l, c) := servings_of env_key triggers c in (s :: l, c)
      end
  end.

(** [load_servings]; [packages] is the query of the known packages, [document] the
    host's answer. *)
Definition load_servings (cfg : MatConfig) (packages : result (list string) string) (document : result string JsError)
    (c : Counters) : result (list Serving * list string) string * Counters :=
  match packages with
  | Err e => (Err e, c)
  | Ok known =>
      match document with
      | Err _ => (Err "triggers", c)
      | Ok text =>
          match parse_json text ≫= decode_triggers with
          | None => (Err "triggers", c)
          | Some triggers => let '(l, c) := servings_of (mt_env_key cfg) triggers c in (Ok (l, known), c)
          end
      end
  end.

(** ** Preparing a message *)

Record Message := {
  mg_sequence : Z;  (* u64 *)
  mg_body : string;
  mg_headers : option (list (string * string));
}.

Definition nats_message_ids (headers : list (string * string)) : list string :=
  (filter (λ h : string * string, to_ascii_lowercase h.1 = to_ascii_lowercase "Nats-Msg-Id") headers).*2.
Definition message_ids (m : Message) : list string := nats_message_ids (default [] (mg_headers m)).

Inductive Preparation :=
| PDeliver (source_event_id : string)
| PAck
| PNack
| PTerminate (reason : string).

Inductive PreparationGate :=
| GReady (id : string)
| GMissingSourceId
| GSourcePackageIdentityRefusal (r : RefuseReason).

Definition preparation_gate (id : option string) (v : EventVerdict) : PreparationGate :=
  match v with
  | Refuse (SourcePackageIdentityUnknown p) => GSourcePackageIdentityRefusal (SourcePackageIdentityUnknown p)
  | _ => match id with Some id => GReady id | None => GMissingSourceId end
  end.

Definition qualified_id (r : EventRegistration) : string := rg_package_id r +:+ "::" +:+ rg_registration_id r.

Definition record_skip (s : Serving) (reason : SkipReason) : Counters → Counters :=
  match reason with
  | SourcePackageMismatch => count_package (qualified_id (mv_registration s))
  | EntityMismatch => count CSkipEntity
  | OpMismatch => count CSkipOp
  | ForeignTenant => count CSkipForeignTenant
  | ConditionFalse => count CSkipConditionFalse
  end.

Definition record_refusal (reason : RefuseReason) (c : Counters) : Counters * string :=
  match reason with
  | SourcePackageIdentityUnknown _ => (count CRefuseSourcePackageIdentityUnknown c, "source-package-identity-unknown")
  | DepthExceeded _ => (count CRefuseDepth c, "registration-depth-exceeded")
  | TenantUnscopable => (count CRefuseTenantUnscopable c, "registration-tenant-unscopable")
  | OldImageAbsent => (count CRefuseOldImageAbsent c, "registration-old-image-absent")
  | ConditionError _ => (count CRefuseConditionError c, "registration-condition-error")
  end.
Definition refuse_message (reason : RefuseReason) (c : Counters) : Counters * Preparation :=
  let '(c, literal) := record_refusal reason c in (c, PTerminate literal).

Definition decode_source_event (body : string) : result SourceEvent string :=
  match parse_json body with
  | None => Err "poison-invalid-envelope"
  | Some v =>
      match get "format-version" v with
      | Some _ => ok_or (Derived <$> derived_from_slice body) "poison-invalid-derived-event"
      | None => ok_or (Cdc <$> decode_envelope v) "poison-invalid-envelope"
      end
  end.

(** The verdict of one serving on an event under an identity. *)
Definition serving_verdict (cfg : MatConfig) (s : Serving) (known : list string) (source : SourceEvent) (id : option string) :
    EventVerdict :=
  match source with
  | Cdc e => decide (mv_registration s) (mv_condition s) e known (mt_env_key cfg)
               ((λ _, mv_resident_env_key s) <$> id) (mt_max_depth cfg)
  | Derived e => decide_derived (mv_registration s) (mv_condition s) e known (mt_env_key cfg) (mt_max_depth cfg)
  end.

Definition prepare_message (cfg : MatConfig) (s : Serving) (known : list string) (m : Message) (c : Counters) :
    Counters * Preparation :=
  if (mg_sequence m =? 0)%Z then (count CRetry c, PNack)
  else
    match decode_source_event (mg_body m) with
    | Err reason => (count CPoison c, PTerminate reason)
    | Ok source =>
        let id := event_identity source (mt_env_key cfg) (mt_project cfg) (mt_env cfg) (message_ids m) in
        let verdict := serving_verdict cfg s known source id in
        match preparation_gate id verdict with
        | GSourcePackageIdentityRefusal reason => refuse_message reason c
        | GMissingSourceId => (count CPoison c, PTerminate "poison-source-id")
        | GReady source_event_id =>
            if (mg_sequence m <=? mv_enable_sequence s)%Z then (c, PAck)
            else
              match verdict with
              | Deliver _ => (c, PDeliver source_event_id)
              | Skip reason => (record_skip s reason c, PAck)
              | Refuse reason => refuse_message reason c
              end
        end
    end.

(** ** The registration gate of the host *)

(** [subject_source]: the entity and operation tokens of a subject. *)
Definition subject_source (s : string) : option (string * string) :=
  match split_char dot s with
  | [prefix; _; _; _; entity; op] => if String.eqb prefix "evt" then Some (entity, op) else None
  | _ => None
  end.

Record EventCoordinates := { ec_org : string; ec_project : string; ec_environment : string }.

(** One NATS subject token, as it is. *)
Definition subject_safe (value : string) : bool :=
  negb (String.eqb value "") && is_trimmed value && String.eqb (subject_token value) value.
Definition require_event_coordinates (c : EventCoordinates) : bool :=
  subject_safe (ec_org c) && subject_safe (ec_project c) && subject_safe (ec_environment c).

Definition find_trigger (triggers : list EventTrigger) (package_id registration_id : string) : option EventTrigger :=
  find (λ t, String.eqb (tg_application t) package_id && String.eqb (tg_workflow_id t) registration_id) triggers.

Definition require_registration (release : option LoadedRelease) (triggers : list EventTrigger) (c : EventCoordinates)
    (stream package_id registration_id filter_subject : string) : result unit string :=
  match release with
  | None => Err UNREGISTERED_SOURCE
  | Some rel =>
      if negb (require_event_coordinates c) then Err "event coordinate"
      else
        let prefix := "evt." +:+ ec_org c +:+ "." +:+ ec_project c +:+ "." +:+ ec_environment c +:+ "." in
        if negb (String.eqb (lr_environment rel) (ec_environment c))
           || negb (String.eqb stream (stream_name (ec_org c) (ec_project c) (ec_environment c)))
           || negb (starts_with filter_subject prefix)
        then Err UNREGISTERED_SOURCE
        else
          match find_trigger triggers package_id registration_id with
          | None => Err UNREGISTERED_SOURCE
          | Some t =>
              match subject_source filter_subject with
              | None => Err UNREGISTERED_SOURCE
              | Some (entity, op) =>
                  let any_op := String.eqb op ">" || String.eqb op "*" in
                  if negb (String.eqb (subject_token (tg_entity t)) entity)
                     || negb any_op && negb (existsb (λ o, String.eqb (op_text o) op) (tg_ops t))
                  then Err UNREGISTERED_SOURCE
                  else Ok tt
              end
          end
  end.

(** The fields of a consumer that its declaration owns; the wait is in milliseconds, and
    the delivery and acknowledgment policies are [All] and [Explicit]. *)
Record ConsumerSpec := {
  cs_durable : string;
  cs_filter_subject : string;
  cs_deliver_all : bool;
  cs_ack_explicit : bool;
  cs_ack_wait_ms : Z;
  cs_max_deliver : Z;
  cs_max_ack_pending : Z;
  cs_max_batch : Z;
  cs_max_bytes : Z;
  cs_max_waiting : Z;
}.
#[export] Instance ConsumerSpec_eq_dec : EqDecision ConsumerSpec.
Proof. solve_decision. Defined.

Definition MATERIALIZER_MAX_PULL_BYTES : Z := 4 * 1024 * 1024.
Definition materializer_consumer_config (durable filter_subject : string) (ack_wait_ms max_deliver : Z) : ConsumerSpec := {|
  cs_durable := durable; cs_filter_subject := filter_subject; cs_deliver_all := true; cs_ack_explicit := true;
  cs_ack_wait_ms := ack_wait_ms; cs_max_deliver := max_deliver; cs_max_ack_pending := 64; cs_max_batch := 64;
  cs_max_bytes := MATERIALIZER_MAX_PULL_BYTES; cs_max_waiting := 1 |}.
Definition consumer_config_matches (expected actual : ConsumerSpec) : bool := bool_decide (expected = actual).

(** [entity_consumers]: one durable consumer per captured package and entity. *)
Definition entity_filter (org project env entity : string) : string :=
  "evt." +:+ org +:+ "." +:+ project +:+ "." +:+ env +:+ "." +:+ subject_token entity +:+ ".>".
Definition entity_consumer (org project env : string) (pe : string * string) : ConsumerSpec :=
  materializer_consumer_config (entity_durable pe.1 pe.2) (entity_filter org project env pe.2) 30000 5.

(** The configuration a guest asks for. *)
Record ConsumerConfig := {
  cc_stream_name : string;
  cc_durable : string;
  cc_filter_subject : string;
  cc_ack_wait_ms : Z;
  cc_max_deliver : Z;
}.

(** [prepare] of the host with [prepare_consumer]; [broker] answers the stored
    consumer of a stream. *)
Definition host_prepare (h : MatHost) (c : EventCoordinates) (t : Workflows_)
    (broker : string → string → result ConsumerSpec JsError) (package_id registration_id : string)
    (config : ConsumerConfig) : run (result unit JsError) :=
  match mh_release h with
  | None => Ret (Err (JsOther UNREGISTERED_SOURCE))
  | Some rel =>
      match require_event_materializer (mh_authority h) (mh_env_key h) rel with
      | Err e => Ret (Err (JsOther (error_detail e)))
      | Ok _ =>
          let! read := event_triggers rel t in
          match read with
          | Err e => Ret (Err (JsOther (error_detail e)))
          | Ok triggers =>
              match require_registration (Some rel) triggers c (cc_stream_name config) package_id registration_id
                      (cc_filter_subject config) with
              | Err e => Ret (Err (JsOther e))
              | Ok _ =>
                  match find_trigger triggers package_id registration_id with
                  | None => Ret (Err (JsOther UNREGISTERED_SOURCE))
                  | Some trig =>
                      if negb (String.eqb (cc_durable config) (entity_durable (tg_source_package trig) (tg_entity trig)))
                      then Ret (Err (JsOther UNREGISTERED_SOURCE))
                      else if (cc_max_deliver config =? 0)%Z || (cc_ack_wait_ms config =? 0)%Z
                      then Ret (Err (JsOther "registration delivery and acknowledgement bounds must be nonzero"))
                      else
                        Ret (match broker (cc_stream_name config) (cc_durable config) with
                             | Err e => Err e
                             | Ok stored =>
                                 if consumer_config_matches
                                      (materializer_consumer_config (cc_durable config) (cc_filter_subject config)
                                         (cc_ack_wait_ms config) (cc_max_deliver config)) stored
                                 then Ok tt else Err (JsOther "registration-consumer-config-drift")
                             end)
                  end
              end
          end
      end
  end.

(** ** Settling a message *)

Inductive Settlement := SAck (taken : bool) | SNack (delay_ms : Z) (taken : bool) | STerm (reason : string) (taken : bool).

(** The database when one message is admitted, whether other hosts acted before it, and
    whether the broker took the settlement. *)
Record AdmitView := {
  av_others : Plane → Plane;
  av_table : Workflows_;
  av_schemas : list (string → string → option HistoryModel);
  av_policy : option DurabilityClass;
  av_fresh : list string;
  av_now : Z;
  av_taken : bool;
}.

Record MatState := { ms_plane : Plane; ms_counters : Counters; ms_log : list (Z * Settlement) }.

(** [admit] of the host. *)
Definition host_admit (h : MatHost) (v : AdmitView) (a : EventBatchAdmission) (p : Plane) :
    Plane * run (result unit JsError) :=
  match mh_release h with
  | None => (p, Ret (Err (JsOther UNREGISTERED_SOURCE)))
  | Some rel =>
      match require_event_materializer (mh_authority h) (mh_env_key h) rel with
      | Err e => (p, Ret (Err (JsOther (error_detail e))))
      | Ok _ =>
          match admit_event_batch (mh_executor h) (mh_event_project h) rel (av_table v) (av_schemas v) (av_policy v)
                  (av_fresh v) a (av_now v) p with
          | (p', Ret (Ok _)) => (p', Ret (Ok tt))
          | (p', Ret (Err e)) => (p', Ret (Err (JsOther (error_detail e))))
          | (p', Panic msg) => (p', Panic msg)
          end
      end
  end.

Definition acknowledge (m : Message) (v : AdmitView) (st : MatState) : MatState := {|
  ms_plane := ms_plane st; ms_counters := count (if av_taken v then CAcked else CRetry) (ms_counters st);
  ms_log := ms_log st ++ [(mg_sequence m, SAck (av_taken v))] |}.
Definition nack (cfg : MatConfig) (m : Message) (v : AdmitView) (st : MatState) : MatState := {|
  ms_plane := ms_plane st; ms_counters := count CRetry (ms_counters st);
  ms_log := ms_log st ++ [(mg_sequence m, SNack (mt_nack_delay_ms cfg) (av_taken v))] |}.
Definition terminate (reason : string) (m : Message) (v : AdmitView) (st : MatState) : MatState := {|
  ms_plane := ms_plane st; ms_counters := count (if av_taken v then CTerminated else CTerminationRetry) (ms_counters st);
  ms_log := ms_log st ++ [(mg_sequence m, STerm reason (av_taken v))] |}.

(** The preparation for every serving: the id of the last that delivers, or the first
    that refuses. *)
Fixpoint prepare_all (cfg : MatConfig) (servings : list Serving) (known : list string) (m : Message) (id : option string)
    (c : Counters) : Counters * (option string + Preparation) :=
  match servings with
  | [] => (c, inl id)
  | s :: servings =>
      match prepare_message cfg s known m c with
      | (c, PDeliver i) => prepare_all cfg servings known m (Some i) c
      | (c, PAck) => prepare_all cfg servings known m id c
      | (c, refused) => (c, inr refused)
      end
  end.

Definition own_identity (cfg : MatConfig) (m : Message) : option string :=
  source ← decode_source (mg_body m);
  event_identity source (mt_env_key cfg) (mt_project cfg) (mt_env cfg) (message_ids m).

Definition settle_message (cfg : MatConfig) (h : MatHost) (first : EventRegistration) (servings : list Serving)
    (known : list string) (m : Message) (v : AdmitView) (st : MatState) : run MatState :=
  let '(c, prepared) := prepare_all cfg servings known m None (ms_counters st) in
  let st := {| ms_plane := av_others v (ms_plane st); ms_counters := c; ms_log := ms_log st |} in
  match prepared with
  | inr PNack => Ret (nack cfg m v st)
  | inr (PTerminate reason) => Ret (terminate reason m v st)
  | inr _ => Ret st
  | inl delivered =>
      match (match delivered with Some id => Some id | None => own_identity cfg m end) with
      | None => Ret (terminate "poison-source-id" m v st)
      | Some id =>
          if negb (valid_utf8 (String.length (mg_body m)) (mg_body m))
          then Ret (terminate "poison-invalid-envelope" m v st)
          else
            match host_admit h v {| ea_source_package := rg_source_package_id first; ea_entity := rg_entity first;
                                    ea_envelope := mg_body m; ea_sequence := mg_sequence m;
                                    ea_source_event_id := id |} (ms_plane st) with
            | (_, Panic msg) => Panic msg
            | (p', Ret (Ok _)) =>
                Ret (acknowledge m v {| ms_plane := p'; ms_counters := count CDeliveries c; ms_log := ms_log st |})
            | (p', Ret (Err _)) => Ret (nack cfg m v {| ms_plane := p'; ms_counters := c; ms_log := ms_log st |})
            end
      end
  end.

Fixpoint settle_messages (cfg : MatConfig) (h : MatHost) (first : EventRegistration) (servings : list Serving)
    (known : list string) (messages : list (Message * AdmitView)) (st : MatState) : run MatState :=
  match messages with
  | [] => Ret st
  | (m, v) :: messages =>
      let! st := settle_message cfg h first servings known m v st in
      settle_messages cfg h first servings known messages st
  end.

(** ** The sweep *)

(** What the broker and the database answer while one entity is served. *)
Record FetchView := {
  fv_table : Workflows_;
  fv_consumer : string → string → result ConsumerSpec JsError;
  fv_opened : bool;
  fv_fetched : option (list (Message * AdmitView));
}.

Definition consumer_request (cfg : MatConfig) (r : EventRegistration) : ConsumerConfig := {|
  cc_stream_name := mt_stream cfg; cc_durable := entity_durable (rg_source_package_id r) (rg_entity r);
  cc_filter_subject := entity_filter (mt_org cfg) (mt_project cfg) (mt_env cfg) (rg_entity r);
  cc_ack_wait_ms := mt_ack_wait_ms cfg; cc_max_deliver := mt_max_deliver cfg |}.

Definition serve (cfg : MatConfig) (h : MatHost) (c : EventCoordinates) (servings : list Serving) (known : list string)
    (f : FetchView) (st : MatState) : run MatState :=
  match servings with
  | [] => Panic "index out of bounds"
  | s :: _ =>
      let first := mv_registration s in
      let! provisioned := host_prepare h c (fv_table f) (fv_consumer f) (rg_package_id first) (rg_registration_id first)
                            (consumer_request cfg first) in
      match provisioned with
      | Err _ => Ret st
      | Ok _ =>
          if negb (fv_opened f) then Ret st
          else match fv_fetched f with
               | None => Ret st
               | Some messages => settle_messages cfg h first servings known messages st
               end
      end
  end.

(** The servings by captured entity, in the order of package and entity. *)
Definition entity_key (s : Serving) : string * string :=
  (rg_source_package_id (mv_registration s), rg_entity (mv_registration s)).
Definition entity_compare (a b : string * string) : comparison :=
  match String.compare a.1 b.1 with Eq => String.compare a.2 b.2 | o => o end.
Fixpoint entity_push (s : Serving) (l : list (string * string * list Serving)) : list (string * string * list Serving) :=
  match l with
  | [] => [(entity_key s, [s])]
  | (k, group) :: l' =>
      match entity_compare (entity_key s) k with
      | Lt => (entity_key s, [s]) :: l
      | Eq => (k, group ++ [s]) :: l'
      | Gt => (k, group) :: entity_push s l'
      end
  end.
Definition entities_of (servings : list Serving) : list (string * string * list Serving) :=
  fold_left (λ l s, entity_push s l) servings [].

Fixpoint serve_entities (cfg : MatConfig) (h : MatHost) (c : EventCoordinates)
    (entities : list (string * string * list Serving)) (known : list string) (fetch : string * string → FetchView)
    (st : MatState) : run MatState :=
  match entities with
  | [] => Ret st
  | (k, servings) :: entities =>
      let! st := serve cfg h c servings known (fetch k) st in
      serve_entities cfg h c entities known fetch st
  end.

Record SweepView := {
  sw_packages : result (list string) string;
  sw_table : Workflows_;
  sw_fetch : string * string → FetchView;
}.

Definition with_counters (c : Counters) (st : MatState) : MatState :=
  {| ms_plane := ms_plane st; ms_counters := c; ms_log := ms_log st |}.

Definition sweep (cfg : MatConfig) (h : MatHost) (c : EventCoordinates) (v : SweepView) (st : MatState) : run MatState :=
  let! document := host_triggers h (sw_table v) in
  let '(loaded, counters) := load_servings cfg (sw_packages v) document (count CSweeps (ms_counters st)) in
  let st := with_counters counters st in
  match loaded with
  | Err _ => Ret st
  | Ok (servings, known) => serve_entities cfg h c (entities_of servings) known (sw_fetch v) st
  end.

(** [run_service] after the configuration; [None] is "out of fuel". *)
Fixpoint run_service (fuel : nat) (cfg : MatConfig) (h : MatHost) (c : EventCoordinates) (view : nat → SweepView) (n : nat)
    (st : MatState) : option (run MatState) :=
  match fuel with
  | O => None
  | S fuel =>
      match sweep cfg h c (view n) st with
      | Panic msg => Some (Panic msg)
      | Ret st =>
          if (0 <? mt_max_sweeps cfg)%Z && (mt_max_sweeps cfg <=? ct_value (ms_counters st) CSweeps)%Z
          then Some (Ret st)
          else run_service fuel cfg h c view (S n) st
      end
  end.

(** ** What a settlement rests on *)

(** Why a message is thrown away: its body is no event, it has no identity of its own, it
    is no text, or a served trigger refuses it. *)
Inductive thrown_away (cfg : MatConfig) (servings : list Serving) (known : list string) (m : Message) : string → Prop :=
| away_body reason : decode_source_event (mg_body m) = Err reason → thrown_away cfg servings known m reason
| away_identity : own_identity cfg m = None → thrown_away cfg servings known m "poison-source-id"
| away_text : valid_utf8 (String.length (mg_body m)) (mg_body m) = false →
    thrown_away cfg servings known m "poison-invalid-envelope"
| away_refused s source r : s ∈ servings → decode_source (mg_body m) = Some source →
    serving_verdict cfg s known source (own_identity cfg m) = Refuse r →
    thrown_away cfg servings known m (record_refusal r no_counters).2.

(** The runs an event is meant to start are in the plane: those of the enabled workflows
    of a table that it addresses and whose condition holds. *)
Definition runs_started (rel : LoadedRelease) (t : Workflows_) (source : SourceEvent) (sequence : Z) (id : string)
    (p : Plane) : Prop :=
  ∀ w r, t !! w = Some r → enabled_event rel (w, r) = true → ∃ e, trigger (w, r) = Ret (Ok e) ∧
    (addresses e source sequence (lr_env_key rel) → condition_verdict e source true →
     delivered p (lr_env_key rel)
       (event_key (lr_environment rel) w.1.1.2 w.1.2 ("event:" +:+ decimal_text sequence +:+ ":" +:+ id))
       (source_input source)).

(** What the settlement of a message rests on, of a consumer of one captured entity. *)
Definition rests_on (cfg : MatConfig) (h : MatHost) (entity : string * string) (servings : list Serving)
    (known : list string) (m : Message) (v : AdmitView) (p : Plane) (s : Settlement) : Prop :=
  match s with
  | SAck _ => ∃ rel source id, mh_release h = Some rel ∧ decode_source (mg_body m) = Some source ∧
      own_identity cfg m = Some id ∧
      (event_source source = entity → runs_started rel (av_table v) source (mg_sequence m) id p)
  | STerm reason _ => thrown_away cfg servings known m reason
  | SNack delay _ => delay = mt_nack_delay_ms cfg
  end.

Lemma decode_source_agrees body source :
  decode_source_event body = Ok source ↔ decode_source body = Some source.
Proof.
  unfold decode_source_event, decode_source. destruct (parse_json body) as [v|]; [|done]. cbn [mbind option_bind].
  destruct (get "format-version" v).
  - destruct (derived_from_slice body); cbn; naive_solver.
  - destruct (decode_envelope v); cbn; naive_solver.
Qed.

Lemma record_refusal_reason r c : (record_refusal r c).2 = (record_refusal r no_counters).2.
Proof. by destruct r. Qed.

Lemma own_identity_of cfg m source :
  decode_source (mg_body m) = Some source →
  own_identity cfg m = event_identity source (mt_env_key cfg) (mt_project cfg) (mt_env cfg) (message_ids m).
Proof. unfold own_identity. by intros ->. Qed.

(** The preparation for one serving. *)
Definition prepared_for (cfg : MatConfig) (servings : list Serving) (known : list string) (m : Message) (prep : Preparation) :
    Prop :=
  match prep with
  | PDeliver id => own_identity cfg m = Some id
  | PAck => True
  | PNack => mg_sequence m = 0%Z
  | PTerminate reason => thrown_away cfg servings known m reason
  end.

Lemma refuse_message_spec cfg servings s known m c source r c' prep :
  s ∈ servings → decode_source (mg_body m) = Some source →
  serving_verdict cfg s known source (own_identity cfg m) = Refuse r →
  refuse_message r c = (c', prep) → prepared_for cfg servings known m prep.
Proof.
  intros Hin Hd Hv. unfold refuse_message. destruct (record_refusal r c) as [c1 reason] eqn:E. intros [= <- <-].
  cbn [prepared_for]. replace reason with (record_refusal r no_counters).2; [by eapply away_refused|].
  by rewrite <- (record_refusal_reason r c), E.
Qed.

Lemma prepare_message_spec cfg servings s known m c c' prep :
  s ∈ servings → prepare_message cfg s known m c = (c', prep) → prepared_for cfg servings known m prep.
Proof.
  intros Hin. unfold prepare_message. destruct (Z.eqb_spec (mg_sequence m) 0) as [?|_]; [by intros [= <- <-]|].
  destruct (decode_source_event (mg_body m)) as [source|reason] eqn:Hd; [|intros [= <- <-]; by apply away_body].
  apply decode_source_agrees in Hd. rewrite <- (own_identity_of cfg m source Hd).
  destruct (serving_verdict cfg s known source (own_identity cfg m)) as [i|k|r] eqn:Hv.
  - cbn [preparation_gate]. destruct (own_identity cfg m) as [id|] eqn:Hid;
      [case_match; intros [= <- <-]; done|intros [= <- <-]; by apply away_identity].
  - cbn [preparation_gate]. destruct (own_identity cfg m) as [id|] eqn:Hid;
      [case_match; intros [= <- <-]; done|intros [= <- <-]; by apply away_identity].
  - assert (Hr : ∀ c c' prep, refuse_message r c = (c', prep) → prepared_for cfg servings known m prep).
    { intros ???. by eapply refuse_message_spec. }
    destruct (own_identity cfg m) as [id|] eqn:Hid; destruct r; cbn [preparation_gate]; try apply Hr;
      try (case_match; [by intros [= <- <-]|apply Hr]); intros [= <- <-]; by apply away_identity.
Qed.

Lemma prepare_all_spec cfg servings known m l : ∀ id c c' out,
  l ⊆ servings → (∀ i, id = Some i → own_identity cfg m = Some i) →
  prepare_all cfg l known m id c = (c', out) →
  match out with
  | inl id' => ∀ i, id' = Some i → own_identity cfg m = Some i
  | inr prep => prepared_for cfg servings known m prep ∧ (prep = PNack ∨ ∃ reason, prep = PTerminate reason)
  end.
Proof.
  induction l as [|s l IH]; intros id c c' out Hl Hid; cbn [prepare_all]; [by intros [= <- <-]|].
  destruct (prepare_message cfg s known m c) as [c1 prep] eqn:Hp.
  apply (prepare_message_spec cfg servings) in Hp; [|apply Hl; left].
  assert (Hl' : l ⊆ servings) by (intros x Hx; apply Hl; by right).
  destruct prep as [i| | |reason].
  - apply IH; [done|]. by intros i' [= <-].
  - by apply IH.
  - intros [= <- <-]. split; [done|by left].
  - intros [= <- <-]. split; [done|right; by eexists].
Qed.

Lemma host_admit_spec h v a p p' out :
  (∀ v, jsonb_eq v v = true) → plane_ok p → host_admit h v a p = (p', out) →
  plane_ok p' ∧ evolves p p' ∧ (out ≠ Ret (Ok tt) → p' = p) ∧
  (out = Ret (Ok tt) → ∃ rel source, mh_release h = Some rel ∧ decode_source (ea_envelope a) = Some source ∧
     (event_source source = (ea_source_package a, ea_entity a) →
      runs_started rel (av_table v) source (ea_sequence a) (ea_source_event_id a) p')).
Proof.
  intros Hrefl Hok. unfold host_admit. destruct (mh_release h) as [rel|]; [|intros [= <- <-]; by split_and!].
  destruct (require_event_materializer _ _ rel); [|intros [= <- <-]; by split_and!].
  destruct (admit_event_batch _ _ _ _ _ _ _ _ _ _) as [p1 o] eqn:Ha.
  destruct (event_batch_spec _ _ _ _ _ _ _ _ _ _ _ _ Hrefl Hok Ha) as (Hok' & Hev & Hno & Hyes).
  destruct o as [[[]|e]|msg]; intros [= <- <-]; (split_and!; [done|done| |]); try done;
    try (intros _; by apply Hno).
  intros _. destruct (Hyes eq_refl) as (source & Hd & Hall & _). by exists rel, source.
Qed.

(** ** The settlement of a batch *)

Context (jsonb_refl : ∀ v, jsonb_eq v v = true) `{BindingWorlds, !WorkflowCatalog}.

(** Between two messages others write the plane: the store's callers, the batches of other
    replicas, retention. *)
Definition others_act (v : AdmitView) : Prop := ∀ p, rtc plane_step p (av_others v p).

Lemma settle_message_spec cfg h first servings known m v st st' :
  plane_ok (ms_plane st) → others_act v →
  settle_message cfg h first servings known m v st = Ret st' →
  plane_ok (ms_plane st') ∧ history (ms_plane st) (ms_plane st') ∧
  ∃ s, ms_log st' = ms_log st ++ [(mg_sequence m, s)] ∧
    rests_on cfg h (rg_source_package_id first, rg_entity first) servings known m v (ms_plane st') s.
Proof.
  intros Hok Hothers. unfold settle_message.
  destruct (prepare_all cfg servings known m None (ms_counters st)) as [c out] eqn:Hp.
  apply (prepare_all_spec cfg servings) in Hp; [|done|done].
  destruct (plane_steps_history jsonb_refl _ _ Hok (Hothers (ms_plane st))) as [Hev Hok1].
  cbn [ms_plane ms_counters ms_log].
  assert (Hkeep : ∀ s c', rests_on cfg h (rg_source_package_id first, rg_entity first) servings known m v
      (av_others v (ms_plane st)) s →
    Ret {| ms_plane := av_others v (ms_plane st); ms_counters := c'; ms_log := ms_log st ++ [(mg_sequence m, s)] |} = Ret st' →
    plane_ok (ms_plane st') ∧ history (ms_plane st) (ms_plane st') ∧
    ∃ s, ms_log st' = ms_log st ++ [(mg_sequence m, s)] ∧
      rests_on cfg h (rg_source_package_id first, rg_entity first) servings known m v (ms_plane st') s).
  { intros s c' Hs [= <-]. split_and!; [done..|]. by exists s. }
  destruct out as [delivered|prep].
  - destruct (match delivered with Some id => Some id | None => own_identity cfg m end) as [id|] eqn:Hid; cycle 1.
    { apply Hkeep. destruct delivered; [done|]. by apply away_identity. }
    assert (Hown : own_identity cfg m = Some id) by (destruct delivered; [injection Hid as ->; by apply Hp|done]).
    destruct (valid_utf8 _ (mg_body m)) eqn:Hu; cbn [negb]; [|by apply Hkeep, away_text].
    destruct (host_admit h v _ _) as [p' [[[]|e]|msg]] eqn:Ha; [..|done];
      destruct (host_admit_spec _ _ _ _ _ _ jsonb_refl Hok1 Ha) as (Hok' & Hev' & Hno & Hyes);
      intros [= <-]; (split_and!; [done|transitivity (av_others v (ms_plane st)); [done|by apply evolves_history]|]).
    + destruct (Hyes eq_refl) as (rel & source & Hrel & Hd & Hall). exists (SAck (av_taken v)). split; [done|].
      by exists rel, source, id.
    + by exists (SNack (mt_nack_delay_ms cfg) (av_taken v)).
  - destruct Hp as [Hp [->|[reason ->]]]; by apply Hkeep.
Qed.

(** Where a message comes from: the captured entity its consumer serves, the servings and
    the known packages the sweep loaded, the message and what its settlement met. *)
Definition Origin : Type := string * string → list Serving → list string → Message → AdmitView → Prop.

(** Every settlement of a log is of a fetched message, and when it was made it rested on
    what its kind says; since then the plane moved only as [history] allows. *)
Definition log_ok (cfg : MatConfig) (h : MatHost) (from : Origin) (p : Plane) (log : list (Z * Settlement)) : Prop :=
  ∀ e, e ∈ log → ∃ k servings known m v p1, from k servings known m v ∧ e.1 = mg_sequence m ∧
    plane_ok p1 ∧ rests_on cfg h k servings known m v p1 e.2 ∧ history p1 p.

Record mat_ok (cfg : MatConfig) (h : MatHost) (from : Origin) (st : MatState) : Prop := {
  mo_plane : plane_ok (ms_plane st);
  mo_log : log_ok cfg h from (ms_plane st) (ms_log st);
}.

(** The service's step: the invariant, the plane's own steps, and a log that only grows. *)
Definition mat_step cfg h from (st st' : MatState) : Prop :=
  mat_ok cfg h from st' ∧ history (ms_plane st) (ms_plane st') ∧ ms_log st `prefix_of` ms_log st'.

Lemma mat_step_refl cfg h from st : mat_ok cfg h from st → mat_step cfg h from st st.
Proof. intros Hok. unfold mat_step. by split_and!. Qed.
Lemma mat_step_trans cfg h from st1 st2 st3 :
  mat_step cfg h from st1 st2 → mat_step cfg h from st2 st3 → mat_step cfg h from st1 st3.
Proof. unfold mat_step. intros (_ & ? & ?) (? & ? & ?). split_and!; [done|by etrans..]. Qed.

Section Steps.
Context (cfg : MatConfig) (h : MatHost) (from : Origin)
        (from_others : ∀ k servings known m v, from k servings known m v → others_act v).

Lemma settle_message_step k first servings known m v st st' :
  mat_ok cfg h from st → from k servings known m v → (rg_source_package_id first, rg_entity first) = k →
  settle_message cfg h first servings known m v st = Ret st' → mat_step cfg h from st st'.
Proof.
  intros [Hok Hlog] Hm Hk Hset.
  destruct (settle_message_spec _ _ _ _ _ _ _ _ _ Hok (from_others _ _ _ _ _ Hm) Hset) as (Hok' & Hev & s & Hl & Hr).
  unfold mat_step. split_and!; [constructor; [done|]|done|rewrite Hl; by eexists].
  rewrite Hl. intros e [He|He]%elem_of_app.
  - destruct (Hlog e He) as (k1 & l & known1 & m1 & v1 & p1 & ? & ? & ? & ? & Hh).
    exists k1, l, known1, m1, v1, p1. split_and!; [done..|by etrans].
  - apply list_elem_of_singleton in He as ->. rewrite Hk in Hr. exists k, servings, known, m, v, (ms_plane st').
    by split_and!.
Qed.

Lemma settle_messages_step k first servings known messages : ∀ st st',
  mat_ok cfg h from st → (∀ m v, (m, v) ∈ messages → from k servings known m v) →
  (rg_source_package_id first, rg_entity first) = k →
  settle_messages cfg h first servings known messages st = Ret st' →
  mat_step cfg h from st st' ∧ (ms_log st').*1 = (ms_log st).*1 ++ (mg_sequence <$> messages.*1).
Proof.
  induction messages as [|[m v] messages IH]; intros st st' Hok Hm Hk; cbn [settle_messages].
  { intros [= <-]. split; [by apply mat_step_refl|by rewrite app_nil_r]. }
  destruct (settle_message cfg h first servings known m v st) as [st1|] eqn:Hone; [|done]. cbn [run_bind]. intros Htwo.
  assert (Hv : others_act v) by (apply (from_others k servings known m), Hm; left).
  destruct (settle_message_spec _ _ _ _ _ _ _ _ _ (mo_plane _ _ _ _ Hok) Hv Hone) as (_ & _ & s & Hl & _).
  apply (settle_message_step k) in Hone; [|done|apply Hm; left|done].
  destruct (IH st1 st' (proj1 Hone)) as [Hst Hlog]; [intros m' v' Hin; apply Hm; by right|done..|].
  split; [by eapply mat_step_trans|]. rewrite Hlog, Hl, fmap_app, <- app_assoc. done.
Qed.

Lemma serve_step k c servings known f st st' :
  mat_ok cfg h from st →
  (∀ messages m v, fv_fetched f = Some messages → (m, v) ∈ messages → from k servings known m v) →
  (∀ s, s ∈ servings → entity_key s = k) →
  serve cfg h c servings known f st = Ret st' → mat_step cfg h from st st'.
Proof.
  intros Hok Hf Hs. unfold serve. destruct servings as [|s servings]; [done|].
  assert (Hk : (rg_source_package_id (mv_registration s), rg_entity (mv_registration s)) = k) by (apply Hs; left).
  destruct (host_prepare _ _ _ _ _ _ _) as [[[]|e]|]; cbn [run_bind]; [| |done];
    [|intros [= <-]; by apply mat_step_refl].
  destruct (fv_opened f); cbn [negb]; [|intros [= <-]; by apply mat_step_refl].
  destruct (fv_fetched f) as [messages|] eqn:Hm; [|intros [= <-]; by apply mat_step_refl].
  intros Hset. eapply (settle_messages_step k) in Hset as [? _]; [done|done| |done].
  intros m v. by apply Hf.
Qed.

Lemma serve_entities_step c entities known fetch : ∀ st st',
  mat_ok cfg h from st →
  (∀ k servings messages m v, (k, servings) ∈ entities → fv_fetched (fetch k) = Some messages → (m, v) ∈ messages →
     from k servings known m v) →
  (∀ k servings, (k, servings) ∈ entities → ∀ s, s ∈ servings → entity_key s = k) →
  serve_entities cfg h c entities known fetch st = Ret st' → mat_step cfg h from st st'.
Proof.
  induction entities as [|[k servings] entities IH]; intros st st' Hok Hf Hs; cbn [serve_entities].
  { intros [= <-]. by apply mat_step_refl. }
  destruct (serve cfg h c servings known (fetch k) st) as [st1|] eqn:Hone; [|done]. cbn [run_bind]. intros Htwo.
  apply (serve_step k) in Hone; [|done|intros ???; apply Hf; left|apply Hs; left].
  eapply mat_step_trans; [exact Hone|]. apply IH; [apply Hone| | |done].
  - intros k' l ms m v Hin. apply Hf. by right.
  - intros k' l Hin. apply Hs. by right.
Qed.

End Steps.

(** ** The entities of a sweep *)

Lemma entity_compare_eq a b : entity_compare a b = Eq → a = b.
Proof.
  destruct a as [a1 a2], b as [b1 b2]. unfold entity_compare. cbn [fst snd].
  destruct (String.compare a1 b1) eqn:E; [|done..]. by intros ->%String.compare_eq_iff; apply String.compare_eq_iff in E as ->.
Qed.

Lemma entity_push_elem s l k group :
  (k, group) ∈ entity_push s l → (k, group) ∈ l ∨ k = entity_key s ∧ (group = [s] ∨ ∃ g, (k, g) ∈ l ∧ group = g ++ [s]).
Proof.
  induction l as [|[k' g'] l IH]; cbn [entity_push].
  { intros [= -> ->]%list_elem_of_singleton. right. split; [done|by left]. }
  destruct (entity_compare (entity_key s) k') eqn:E.
  - intros [[= -> ->]|Hin]%elem_of_cons; [|left; by right]. apply entity_compare_eq in E as <-.
    right. split; [done|]. right. exists g'. split; [left|done].
  - intros [[= -> ->]|Hin]%elem_of_cons; [right; split; [done|by left]|by left].
  - intros [[= -> ->]|Hin]%elem_of_cons; [left; left|].
    destruct (IH Hin) as [?|(-> & [->|(g & Hg & ->)])]; [left; by right|right; split; [done|by left]|].
    right. split; [done|]. right. exists g. split; [by right|done].
Qed.

Lemma entity_push_keeps s l x :
  x = s ∨ (∃ k g, (k, g) ∈ l ∧ x ∈ g) → ∃ k g, (k, g) ∈ entity_push s l ∧ x ∈ g.
Proof.
  induction l as [|[k' g'] l IH]; cbn [entity_push].
  { intros [->|(? & ? & []%not_elem_of_nil & _)]. exists (entity_key s), [s]. split; [left|left]. }
  intros Hx. destruct (entity_compare (entity_key s) k').
  - destruct Hx as [->|(k & g & [[= -> ->]|Hin]%elem_of_cons & Hx)].
    + exists k', (g' ++ [s]). split; [left|]. apply elem_of_app. right. left.
    + exists k', (g' ++ [s]). split; [left|]. apply elem_of_app. by left.
    + exists k, g. split; [by right|done].
  - destruct Hx as [->|(k & g & Hin & Hx)].
    + exists (entity_key s), [s]. split; left.
    + exists k, g. split; [by right|done].
  - destruct Hx as [->|(k & g & [[= -> ->]|Hin]%elem_of_cons & Hx)].
    + destruct IH as (k & g & ? & ?); [by left|]. exists k, g. split; [by right|done].
    + exists k', g'. split; [left|done].
    + destruct IH as (k1 & g1 & ? & ?); [right; by exists k, g|]. exists k1, g1. split; [by right|done].
Qed.

Lemma entities_of_snoc servings s : entities_of (servings ++ [s]) = entity_push s (entities_of servings).
Proof. unfold entities_of. by rewrite fold_left_app. Qed.

(** Each group is of one entity and holds servings given; no serving is left out. *)
Lemma entities_of_spec servings :
  (∀ k group, (k, group) ∈ entities_of servings → group ≠ [] ∧ ∀ s, s ∈ group → s ∈ servings ∧ entity_key s = k) ∧
  (∀ s, s ∈ servings → ∃ k group, (k, group) ∈ entities_of servings ∧ s ∈ group).
Proof.
  induction servings as [|s servings [IHs IHc]] using rev_ind.
  { split; [by intros ?? ?%not_elem_of_nil|by intros ? ?%not_elem_of_nil]. }
  rewrite entities_of_snoc. split.
  - intros k group Hin. destruct (entity_push_elem _ _ _ _ Hin) as [Hg|(-> & [->|(g & Hg & ->)])].
    + destruct (IHs k group Hg) as [? Hall]. split; [done|]. intros x Hx. destruct (Hall x Hx).
      split; [apply elem_of_app; by left|done].
    + split; [done|]. intros x ->%list_elem_of_singleton. split; [apply elem_of_app; right; left|done].
    + destruct (IHs _ g Hg) as [_ Hall]. split; [by destruct g|]. intros x [Hx|Hx]%elem_of_app.
      * destruct (Hall x Hx). split; [apply elem_of_app; by left|done].
      * apply list_elem_of_singleton in Hx as ->. split; [apply elem_of_app; right; left|done].
  - intros x Hx. apply entity_push_keeps. apply elem_of_app in Hx as [Hx|Hx%list_elem_of_singleton].
    + right. by apply IHc.
    + by left.
Qed.

(** ** The sweeps *)

Lemma with_counters_ok cfg h from c st : mat_ok cfg h from st → mat_ok cfg h from (with_counters c st).
Proof. intros [? ?]. by constructor. Qed.

(** What a sweep loads: the known packages the query answers, and of the triggers the host
    answers each whose condition compiles, as this environment's. *)
Definition sweep_loads (cfg : MatConfig) (h : MatHost) (v : SweepView) (servings : list Serving) (known : list string) : Prop :=
  ∃ text triggers, sw_packages v = Ok known ∧ host_triggers h (sw_table v) = Ret (Ok text) ∧
    parse_json text ≫= decode_triggers = Some triggers ∧ servings = omap (serving_of (mt_env_key cfg)) triggers.

Lemma servings_of_omap env_key l : ∀ c, (servings_of env_key l c).1 = omap (serving_of env_key) l.
Proof.
  induction l as [|t l IH]; intros c; cbn [servings_of]; [done|]. cbn [omap list_omap].
  destruct (serving_of env_key t); [|apply IH]. specialize (IH c). by destruct (servings_of env_key l c) as [l' c'];
    cbn in IH |- *; rewrite IH.
Qed.

Lemma load_servings_inv cfg h v document c servings known c' :
  host_triggers h (sw_table v) = Ret document →
  load_servings cfg (sw_packages v) document c = (Ok (servings, known), c') → sweep_loads cfg h v servings known.
Proof.
  unfold load_servings, sweep_loads. intros Ht. destruct (sw_packages v) as [k|]; [|done]. destruct document as [text|]; [|done].
  destruct (parse_json text ≫= decode_triggers) as [triggers|] eqn:Hd; [|done].
  pose proof (servings_of_omap (mt_env_key cfg) triggers c) as Ho.
  destruct (servings_of _ _ _) as [l c1]. intros [= -> -> ->]. by exists text, triggers.
Qed.

Lemma sweep_step cfg h (from : Origin) c v st st' :
  (∀ k servings known m v, from k servings known m v → others_act v) → mat_ok cfg h from st →
  (∀ all known k servings messages m a, sweep_loads cfg h v all known → (k, servings) ∈ entities_of all →
     fv_fetched (sw_fetch v k) = Some messages → (m, a) ∈ messages → from k servings known m a) →
  sweep cfg h c v st = Ret st' → mat_step cfg h from st st'.
Proof.
  intros Ho Hok Hf. unfold sweep. destruct (host_triggers h (sw_table v)) as [document|] eqn:Ht; [|done]. cbn [run_bind].
  destruct (load_servings _ _ _ _) as [[[servings known]|e] counters] eqn:Hl.
  - pose proof (load_servings_inv _ _ _ _ _ _ _ _ Ht Hl) as Hloads.
    intros Hs. change (mat_step cfg h from (with_counters counters st) st').
    eapply serve_entities_step; [exact Ho|by apply with_counters_ok| | |exact Hs].
    + intros k l messages m a Hin. by apply (Hf servings known).
    + intros k l Hin s Hx. destruct (entities_of_spec servings) as [Hall _]. by apply (Hall k l Hin).
  - intros [= <-]. change (mat_step cfg h from (with_counters counters st) (with_counters counters st)).
    by apply mat_step_refl, with_counters_ok.
Qed.

(** Only a sweep counts a sweep. *)
Definition swept (c : Counters) : Z := ct_value c CSweeps.

Lemma swept_count f c : f ≠ CSweeps → swept (count f c) = swept c.
Proof. intros Hf. unfold swept, count. cbn [ct_value]. by destruct (decide_rel (=) CSweeps f) as [<-|]. Qed.

Lemma swept_refuse r c c' prep : refuse_message r c = (c', prep) → swept c' = swept c.
Proof. destruct r; intros [= <- <-]; by apply swept_count. Qed.

Lemma swept_prepare cfg s known m c c' prep : prepare_message cfg s known m c = (c', prep) → swept c' = swept c.
Proof.
  unfold prepare_message.
  repeat match goal with
         | |- (if ?b then _ else _) = _ → _ => destruct b
         | |- match ?x with _ => _ end = _ → _ => destruct x
         end; try (intros [= <- <-]; try by apply swept_count); try apply swept_refuse; try done.
  destruct r; [done|by apply swept_count..].
Qed.

Lemma swept_prepare_all cfg l known m : ∀ id c c' out, prepare_all cfg l known m id c = (c', out) → swept c' = swept c.
Proof.
  induction l as [|s l IH]; intros id c c' out; cbn [prepare_all]; [by intros [= <- <-]|].
  destruct (prepare_message cfg s known m c) as [c1 prep] eqn:Hp. apply swept_prepare in Hp.
  destruct prep; try (intros Hr%IH; congruence); by intros [= <- <-].
Qed.

Lemma swept_settle cfg h first servings known m v st st' :
  settle_message cfg h first servings known m v st = Ret st' → swept (ms_counters st') = swept (ms_counters st).
Proof.
  unfold settle_message. destruct (prepare_all cfg servings known m None (ms_counters st)) as [c out] eqn:Hp.
  apply swept_prepare_all in Hp. rewrite <- Hp. clear Hp. cbn [ms_plane ms_log].
  destruct out as [delivered|[]]; try (intros [= <-]; cbn [ms_counters nack terminate];
    try destruct (av_taken v); by rewrite ?swept_count).
  destruct (match delivered with Some id => Some id | None => own_identity cfg m end) as [id|];
    [|intros [= <-]; cbn [ms_counters terminate]; destruct (av_taken v); by rewrite swept_count].
  destruct (valid_utf8 _ _); cbn [negb];
    [|intros [= <-]; cbn [ms_counters terminate]; destruct (av_taken v); by rewrite swept_count].
  destruct (host_admit _ _ _ _) as [p' [[]|]]; [..|done]; intros [= <-]; cbn [ms_counters nack acknowledge].
  - destruct (av_taken v); by rewrite !swept_count.
  - by rewrite swept_count.
Qed.

Lemma swept_settle_all cfg h first servings known messages : ∀ st st',
  settle_messages cfg h first servings known messages st = Ret st' → swept (ms_counters st') = swept (ms_counters st).
Proof.
  induction messages as [|[m v] messages IH]; intros st st'; cbn [settle_messages]; [by intros [= <-]|].
  destruct (settle_message cfg h first servings known m v st) as [st1|] eqn:Hone; [|done]. cbn [run_bind].
  intros ->%IH. by apply swept_settle in Hone.
Qed.

Lemma swept_serve cfg h c servings known f st st' :
  serve cfg h c servings known f st = Ret st' → swept (ms_counters st') = swept (ms_counters st).
Proof.
  unfold serve. destruct servings as [|s servings]; [done|].
  destruct (host_prepare _ _ _ _ _ _ _) as [[[]|e]|]; cbn [run_bind]; [|by intros [= <-]|done].
  destruct (fv_opened f); cbn [negb]; [|by intros [= <-]].
  destruct (fv_fetched f); [apply swept_settle_all|by intros [= <-]].
Qed.

Lemma swept_serve_entities cfg h c entities known fetch : ∀ st st',
  serve_entities cfg h c entities known fetch st = Ret st' → swept (ms_counters st') = swept (ms_counters st).
Proof.
  induction entities as [|[k servings] entities IH]; intros st st'; cbn [serve_entities]; [by intros [= <-]|].
  destruct (serve cfg h c servings known (fetch k) st) as [st1|] eqn:Hone; [|done]. cbn [run_bind].
  intros ->%IH. by apply swept_serve in Hone.
Qed.

Lemma swept_servings env_key l : ∀ c, swept (servings_of env_key l c).2 = swept c.
Proof.
  induction l as [|t l IH]; intros c; cbn [servings_of]; [done|].
  destruct (serving_of env_key t); [|by rewrite IH, swept_count].
  specialize (IH c). by destruct (servings_of env_key l c).
Qed.

Lemma swept_sweep cfg h c v st st' :
  (0 ≤ swept (ms_counters st) < u64_max)%Z → sweep cfg h c v st = Ret st' →
  swept (ms_counters st') = (swept (ms_counters st) + 1)%Z.
Proof.
  intros Hb. unfold sweep. destruct (host_triggers h (sw_table v)) as [document|]; [|done]. cbn [run_bind].
  assert (Hc : swept (count CSweeps (ms_counters st)) = (swept (ms_counters st) + 1)%Z).
  { unfold swept, count. cbn [ct_value]. destruct (decide_rel (=) CSweeps CSweeps); [|done].
    apply u64_add_small; unfold swept in Hb; lia. }
  rewrite <- Hc. clear Hc Hb. unfold load_servings. destruct (sw_packages v) as [known|e]; [|by intros [= <-]].
  destruct document as [text|e]; [|by intros [= <-]].
  destruct (parse_json text ≫= decode_triggers) as [triggers|]; [|by intros [= <-]].
  pose proof (swept_servings (mt_env_key cfg) triggers (count CSweeps (ms_counters st))) as Hs.
  destruct (servings_of _ _ _) as [l counters]. cbn [snd] in Hs. intros ->%swept_serve_entities. exact Hs.
Qed.

(** The sweeps one after another, each over its own view. *)
Fixpoint sweeps_of (n : nat) (cfg : MatConfig) (h : MatHost) (c : EventCoordinates) (view : nat → SweepView) (st : MatState) :
    run MatState :=
  match n with
  | O => Ret st
  | S n => let! st := sweeps_of n cfg h c view st in sweep cfg h c (view n) st
  end.

Lemma sweeps_panic n k cfg h c view st msg :
  (n ≤ k)%nat → sweeps_of n cfg h c view st = Panic msg → sweeps_of k cfg h c view st = Panic msg.
Proof.
  intros Hk Hn. induction Hk as [|k Hk IH]; [done|]. cbn [sweeps_of]. by rewrite IH.
Qed.

Lemma run_service_eq fuel cfg h c view n st :
  run_service (S fuel) cfg h c view n st =
  match sweep cfg h c (view n) st with
  | Panic msg => Some (Panic msg)
  | Ret st =>
      if (0 <? mt_max_sweeps cfg)%Z && (mt_max_sweeps cfg <=? swept (ms_counters st))%Z
      then Some (Ret st)
      else run_service fuel cfg h c view (S n) st
  end.
Proof. reflexivity. Qed.

(** A bounded service returns after its sweeps, with what they left. *)
Lemma run_service_sweeps cfg h c view st0 max : mt_max_sweeps cfg = Z.of_nat max → (Z.of_nat max ≤ u64_max)%Z →
  ∀ fuel n st,
  sweeps_of n cfg h c view st0 = Ret st → swept (ms_counters st) = Z.of_nat n → (n + S fuel)%nat = max →
  run_service (S fuel) cfg h c view n st = Some (sweeps_of max cfg h c view st0).
Proof.
  intros Hmax Hb fuel. induction fuel as [|fuel IH]; intros n st Hn Hc Hf; rewrite run_service_eq;
    (destruct (sweep cfg h c (view n) st) as [st'|msg] eqn:Hs;
     [|by rewrite (sweeps_panic (S n) max _ _ _ _ _ msg); [|lia|cbn [sweeps_of]; rewrite Hn]]);
    assert (Hc' : swept (ms_counters st') = Z.of_nat (S n))
      by (rewrite (swept_sweep cfg h c (view n) st st'); [lia|lia|done]);
    assert (Hn' : sweeps_of (S n) cfg h c view st0 = Ret st') by (cbn [sweeps_of]; by rewrite Hn);
    rewrite Hc', Hmax.
  - replace (0 <? Z.of_nat max)%Z with true by (symmetry; apply Z.ltb_lt; lia).
    replace (Z.of_nat max <=? Z.of_nat (S n))%Z with true by (symmetry; apply Z.leb_le; lia).
    replace max with (S n) by lia. by rewrite Hn'.
  - replace (Z.of_nat max <=? Z.of_nat (S n))%Z with false by (symmetry; apply Z.leb_gt; lia).
    rewrite andb_false_r. apply IH; [done|done|lia].
Qed.

(** An unbounded one goes on. *)
Lemma run_service_unbounded cfg h c view : mt_max_sweeps cfg = 0%Z → ∀ fuel n st st',
  run_service fuel cfg h c view n st ≠ Some (Ret st').
Proof.
  intros Hmax fuel. induction fuel as [|fuel IH]; intros n st st'; cbn [run_service]; [done|].
  destruct (sweep cfg h c (view n) st); [|done]. rewrite Hmax. cbn [andb Z.ltb Z.compare]. apply IH.
Qed.

(** A message of some fetch of the service: of the sweep that fetched it, the servings of
    its entity and the known packages are the ones that sweep loaded. *)
Definition fetched (cfg : MatConfig) (h : MatHost) (view : nat → SweepView) : Origin := λ k servings known m v,
  ∃ n all messages, sweep_loads cfg h (view n) all known ∧ (k, servings) ∈ entities_of all ∧
    fv_fetched (sw_fetch (view n) k) = Some messages ∧ (m, v) ∈ messages.

Lemma sweeps_step cfg h c view n : ∀ st st',
  (∀ k servings known m v, fetched cfg h view k servings known m v → others_act v) → mat_ok cfg h (fetched cfg h view) st →
  sweeps_of n cfg h c view st = Ret st' → mat_step cfg h (fetched cfg h view) st st'.
Proof.
  induction n as [|n IH]; intros st st' Ho Hok; cbn [sweeps_of]; [intros [= <-]; by apply mat_step_refl|].
  destruct (sweeps_of n cfg h c view st) as [st1|] eqn:Hn; [|done]. cbn [run_bind]. intros Hs.
  apply IH in Hn; [|done..]. eapply mat_step_trans; [exact Hn|].
  eapply sweep_step; [exact Ho|apply Hn| |exact Hs]. intros all known k servings messages m a ? ? ? ?. by exists n, all, messages.
Qed.

Definition service_start (p : Plane) : MatState := {| ms_plane := p; ms_counters := no_counters; ms_log := [] |}.

(** C32. An event is acknowledged only when the runs it starts are there.  Through any number
    of sweeps of the materializer, with the store's callers, other replicas' batches and
    retention at work on the same plane, the plane keeps its invariant and every settlement
    is of a message that a sweep fetched, and had its ground when it was made: an
    acknowledged message is an event of its own identity, and if it is of the consumer's
    entity then each enabled event workflow of the table its admission read, that the event
    addresses and whose condition holds, had its run in the plane; a message is thrown away
    only for a body that is no event, an identity that is not its own, or the refusal of a
    trigger which that sweep loaded for the entity, over the packages it knew.  From then
    on the plane moved only by the abstract transitions, which keep every run, and by
    retention, which deletes finished ones.  A service of a bounded number of sweeps
    returns what those sweeps left, and an unbounded one does not return. *)
Theorem materializer_acks_admitted (cfg : MatConfig) (h : MatHost) (c : EventCoordinates) (view : nat → SweepView) (p : Plane) :
  plane_ok p → (∀ k servings known m v, fetched cfg h view k servings known m v → others_act v) →
  (∀ n st, sweeps_of n cfg h c view (service_start p) = Ret st →
     plane_ok (ms_plane st) ∧ history p (ms_plane st) ∧ log_ok cfg h (fetched cfg h view) (ms_plane st) (ms_log st)) ∧
  (∀ max fuel, mt_max_sweeps cfg = Z.of_nat (S max) → (Z.of_nat (S max) ≤ u64_max)%Z → fuel = S max →
     run_service fuel cfg h c view 0 (service_start p) = Some (sweeps_of (S max) cfg h c view (service_start p))) ∧
  (mt_max_sweeps cfg = 0%Z → ∀ fuel st, run_service fuel cfg h c view 0 (service_start p) ≠ Some (Ret st)).
Proof.
  intros Hok Ho. assert (Hstart : mat_ok cfg h (fetched cfg h view) (service_start p)).
  { constructor; [done|]. by intros e ?%not_elem_of_nil. }
  split_and!.
  - intros n st Hn. destruct (sweeps_step _ _ _ _ _ _ _ Ho Hstart Hn) as ([? ?] & ? & _). done.
  - intros max fuel Hmax Hb ->. by apply run_service_sweeps.
  - intros Hz fuel st. by apply run_service_unbounded.
Qed.

End Materializer.
