(* ===== verification/DerivedPublication.v ===== *)
(** * Publishing derived events, and reading what is published

    The derived-event publisher of [crates/platform/runtime/src/plugins/wamn_jetstream.rs]
    ([required_derived_claim], [prepare_derived_publication] and [publish_derived], without
    the connection): what it accepts, the message it sends, and when it reports the event
    stored.  The theorem is about both publishers of the platform, this one and the
    captured changes of [CdcReader]: which of their messages the readers of [EventWire] and
    [EventTriggers] read back, and under which identity. *)

From stdpp Require Import base tactics option list gmap strings.
From Stdlib Require Import ZArith Lia.
From S2P Require Import Prelude Text Json Canonical Router RunStore ClaimStore Executor EventWire EventTriggers.
From S2P Require Import WorkflowVersions EventBatch CdcReader Materializer.

(** ** The publisher *)

Inductive DerivedPublishErrorType :=
| UnboundScope | InvalidInput | ConnectionUnavailable | Serialization | PublishRejected | UnexpectedStream.

Record JetstreamClaim := { jc_env_key : string; jc_project : string; jc_environment : string }.

Record PreparedDerivedPublication := {
  pd_subject : string;
  pd_message_id : string;
  pd_expected_stream : string;
  pd_body : string;
}.

(** [required_derived_claim], over the claims bound to the components. *)
Definition required_derived_claim (claims : gmap string JetstreamClaim) (component_id : string) :
    result JetstreamClaim DerivedPublishErrorType :=
  match claims !! component_id with
  | None => Err UnboundScope
  | Some c =>
      if subject_safe (jc_env_key c) && subject_safe (jc_project c) && subject_safe (jc_environment c)
      then Ok c else Err UnboundScope
  end.

(** The event of a request, in the scope the host is bound to. *)
Definition request_event (claim : JetstreamClaim) (c : EventCoordinates) (rq : DerivedPublishRequest) : DerivedEvent :=
  derived_event (jc_env_key claim) (ec_project c) (ec_environment c) (dp_package_id rq) (dp_entity rq) (dp_operation rq)
    (dp_payload rq) (dp_dedup_id rq) (dp_causation rq).

Definition prepare_derived_publication `{Sha256, JsonPrint} (claim : JetstreamClaim) (c : EventCoordinates)
    (rq : DerivedPublishRequest) : result PreparedDerivedPublication DerivedPublishErrorType :=
  if negb (require_event_coordinates c) then Err UnboundScope
  else if negb (String.eqb (jc_environment claim) (ec_environment c)) then Err UnboundScope
  else if String.eqb (dp_package_id rq) "" || negb (is_trimmed (dp_package_id rq)) || contains_nul (dp_package_id rq)
  then Err InvalidInput
  else if String.eqb (dp_entity rq) "" || negb (is_trimmed (dp_entity rq)) then Err InvalidInput
  else if String.eqb (dp_dedup_id rq) "" then Err InvalidInput
  else if String.eqb (cause_run (dp_causation rq)) "" || String.eqb (cause_root (dp_causation rq)) ""
  then Err InvalidInput
  else
    let event := request_event claim c rq in
    Ok {| pd_subject := subject (ec_org c) (ec_project c) (ec_environment c) (dv_entity event) (dv_op event);
          pd_message_id := derived_msg_id (jc_env_key claim) (ec_project c) (ec_environment c) (dv_package_id event)
                             (dv_entity event) (dv_op event) (dv_dedup_id event);
          pd_expected_stream := stream_name (ec_org c) (ec_project c) (ec_environment c);
          pd_body := print_json (VObject (derived_members event)) |}.

(** The server's acknowledgment: the stream, the sequence and whether it was there. *)
Record DerivedPublishAck := { pa_stream_name : string; pa_stream_seq : Z; pa_duplicate : bool }.

(** [publish_derived]; [connected] is whether a context is to be had, and [send] what the
    server answers to the message, [None] when the send or the storing failed. *)
Definition publish_derived `{Sha256, JsonPrint} (claims : gmap string JetstreamClaim) (c : EventCoordinates) (connected : bool)
    (send : PreparedDerivedPublication → option DerivedPublishAck) (rq : DerivedPublishRequest) :
    result DerivedPublishAck DerivedPublishErrorType :=
  let? claim := required_derived_claim claims (dp_component_id rq) in
  let? publication := prepare_derived_publication claim c rq in
  if negb connected then Err ConnectionUnavailable
  else
    match send publication with
    | None => Err PublishRejected
    | Some ack =>
        if negb (String.eqb (pa_stream_name ack) (pd_expected_stream publication)) then Err UnexpectedStream
        else Ok ack
    end.

(** ** What is published is read back *)

(** What a prepared publication carries. *)
Lemma prepared_publication `{Sha256, JsonPrint} claim c rq pub :
  prepare_derived_publication claim c rq = Ok pub →
  dp_dedup_id rq ≠ "" ∧ jc_environment claim = ec_environment c ∧
  pd_subject pub = subject (ec_org c) (ec_project c) (ec_environment c) (dp_entity rq) (dp_operation rq) ∧
  pd_message_id pub = derived_msg_id (jc_env_key claim) (ec_project c) (ec_environment c) (dp_package_id rq) (dp_entity rq)
                        (dp_operation rq) (dp_dedup_id rq) ∧
  pd_expected_stream pub = stream_name (ec_org c) (ec_project c) (ec_environment c).
Proof.
  unfold prepare_derived_publication. destruct (negb (require_event_coordinates c)); [done|].
  destruct (String.eqb_spec (jc_environment claim) (ec_environment c)) as [Henv|]; [|done]. cbn [negb].
  destruct (_ || _ || _); [done|]. destruct (_ || _); [done|].
  destruct (String.eqb_spec (dp_dedup_id rq) ""); [done|]. destruct (_ || _); [done|]. intros [= <-]. by split_and!.
Qed.

(** C36. What the platform publishes is read back as it was published, or refused, and under
    its own identity only.  The body of a captured change whose package and entity names
    are canonical (not empty, trimmed, without NUL) decodes to that very change, and the
    body of any other decodes to nothing; the body of a derived event the publisher
    accepted decodes to that very event when its seven texts are canonical, and to nothing
    otherwise.  An identity is granted just when the message carries one id header, the one
    its publisher gave it, and, of a derived event, when the reader's scope is the
    publisher's.  And the publisher reports an event stored only when the server stored
    that message, in the environment's own stream. *)
Theorem published_event_identified `{JsonText, JsonMembers, JsonPrint, Sha256} `{InstantTextLaw}
    (env_key project environment : string) :
  (∀ body e, envelope_typed e → parse_json body = Some (envelope_value e) →
     (canonical_envelope e → decode_source body = Some (Cdc e)) ∧
     (¬ canonical_envelope e → decode_source body = None) ∧
     ∀ headers id, event_identity (Cdc e) env_key project environment headers = Some id ↔
       headers = [msg_id project environment (en_lsn e)] ∧ id = msg_id project environment (en_lsn e)) ∧
  (∀ claim c rq pub, prepare_derived_publication claim c rq = Ok pub →
     let e := request_event claim c rq in
     is_u32 (cause_depth (dp_causation rq)) → json_members (pd_body pub) = Some (derived_members e) →
     parse_json (pd_body pub) = Some (VObject (map_from_iter (derived_members e))) →
     (Forall canonical_text (derived_texts e) → decode_source (pd_body pub) = Some (Derived e)) ∧
     (¬ Forall canonical_text (derived_texts e) → decode_source (pd_body pub) = None) ∧
     ∀ headers id, event_identity (Derived e) env_key project environment headers = Some id ↔
       (jc_env_key claim, ec_project c, ec_environment c) = (env_key, project, environment) ∧
       headers = [pd_message_id pub] ∧ id = pd_message_id pub) ∧
  (∀ claims c connected send rq ack, publish_derived claims c connected send rq = Ok ack →
     ∃ claim pub, claims !! dp_component_id rq = Some claim ∧ prepare_derived_publication claim c rq = Ok pub ∧ send pub = Some ack ∧
       pa_stream_name ack = stream_name (ec_org c) (ec_project c) (ec_environment c)).
Proof.
  split_and!.
  - intros body e Ht Hb. destruct (captured_decodes body e Ht Hb). split_and!; [done..|].
    intros headers id. apply one_header_spec.
  - intros claim c rq pub Hp e Hd Hm Hj.
    destruct (prepared_publication claim c rq pub Hp) as (Hid & _ & _ & Hmsg & _).
    destruct (derived_decodes (pd_body pub) e Hm Hj Hd eq_refl Hid). split_and!; [done..|].
    intros headers id. rewrite derived_identity, Hmsg. cbn. split.
    + intros ([= -> -> ->] & -> & ->). done.
    + intros ([= -> -> ->] & -> & ->). done.
  - intros claims c connected send rq ack. unfold publish_derived, required_derived_claim.
    destruct (claims !! dp_component_id rq) as [claim|]; [|done].
    destruct (_ && _); [|done]. cbn [result_bind].
    destruct (prepare_derived_publication claim c rq) as [pub|] eqn:Hp; [|done]. cbn [result_bind].
    destruct connected; [|done]. cbn [negb]. destruct (send pub) as [a|] eqn:Hs; [|done].
    destruct (String.eqb_spec (pa_stream_name a) (pd_expected_stream pub)) as [E|]; [|done]. intros [= <-].
    exists claim, pub. split_and!; [done..|]. rewrite E. apply (prepared_publication claim c rq pub Hp).
Qed.

(** ** Two events *)

Module PublicationSample.

#[local] Existing Instances EventSample.microseconds EventSample.microseconds_law EventSample.zero_digest.

Definition coordinates : EventCoordinates := {| ec_org := "acme"; ec_project := "shop"; ec_environment := "dev" |}.
Definition bound_claim : JetstreamClaim := {| jc_env_key := "acme--shop--dev"; jc_project := "shop"; jc_environment := "dev" |}.
Definition emitted (entity : string) : DerivedPublishRequest := {|
  dp_component_id := QUEUE_CLAIM_SCOPE; dp_package_id := "orders"; dp_wiring_id := "repost"; dp_wiring_version := 3; dp_node_id := "emit"; dp_entity := entity;
  dp_operation := OpInsert; dp_payload := VNull; dp_dedup_id := "d-1";
  dp_causation := {| cause_run := "run-1"; cause_root := "run-1"; cause_depth := 1 |} |}.
Definition nul_entity : string := "order" +:+ String Ascii.zero "s".

(** A text of each body: the derived events of the two entities, and a captured change. *)
#[local] Instance texts_of : JsonPrint := λ v,
  if bool_decide (get "entity" v ≫= as_str = Some "order") then "derived" else "with nul".
Definition event_of (entity : string) : DerivedEvent := request_event bound_claim coordinates (emitted entity).
#[local] Instance bodies : JsonText := λ s,
  if String.eqb s "body" then Some (envelope_value EventSample.changed)
  else Some (VObject (map_from_iter (derived_members (event_of (if String.eqb s "derived" then "order" else nul_entity))))).
#[local] Instance members : JsonMembers := λ s,
  Some (derived_members (event_of (if String.eqb s "derived" then "order" else nul_entity))).

(** The captured change and the derived event are read back under their own identity; the
    event of an entity with a NUL, which the publisher accepts, is not. *)
Lemma published_event_identified_witness :
  decode_source "body" = Some (Cdc EventSample.changed) ∧
  event_identity (Cdc EventSample.changed) "acme--shop--dev" "shop" "dev" ["shop_dev:42"] = Some "shop_dev:42" ∧
  (∃ pub, prepare_derived_publication bound_claim coordinates (emitted "order") = Ok pub ∧
     decode_source (pd_body pub) = Some (Derived (event_of "order")) ∧
     event_identity (Derived (event_of "order")) "acme--shop--dev" "shop" "dev" [pd_message_id pub] =
       Some (pd_message_id pub)) ∧
  (∃ pub, prepare_derived_publication bound_claim coordinates (emitted nul_entity) = Ok pub ∧
     decode_source (pd_body pub) = None).
Proof.
  destruct (published_event_identified "acme--shop--dev" "shop" "dev") as (Hcdc & Hder & _).
  assert (Hty : envelope_typed EventSample.changed)
    by (constructor; [split; vm_compute; discriminate..|discriminate]).
  destruct (Hcdc "body" EventSample.changed Hty eq_refl) as (Hd & _ & Hi).
  split; [apply Hd; split; apply noncanonical_spec; vm_compute; reflexivity|].
  split; [apply Hi; split; reflexivity|].
  assert (Hu : is_u32 1) by (split; vm_compute; discriminate). split.
  - destruct (prepare_derived_publication bound_claim coordinates (emitted "order")) as [pub|] eqn:Hp;
      [|exfalso; vm_compute in Hp; discriminate Hp].
    exists pub. split; [reflexivity|].
    assert (Hb : pd_body pub = "derived") by (vm_compute in Hp; by injection Hp as <-).
    destruct (Hder bound_claim coordinates (emitted "order") pub Hp Hu) as (Hy & _ & Hid);
      [rewrite Hb; vm_compute; reflexivity..|].
    split; [|by apply Hid]. apply Hy. repeat constructor; try discriminate; vm_compute; reflexivity.
  - destruct (prepare_derived_publication bound_claim coordinates (emitted nul_entity)) as [pub|] eqn:Hp;
      [|exfalso; vm_compute in Hp; discriminate Hp].
    exists pub. split; [reflexivity|].
    assert (Hb : pd_body pub = "with nul") by (vm_compute in Hp; by injection Hp as <-).
    destruct (Hder bound_claim coordinates (emitted nul_entity) pub Hp Hu) as (_ & Hn & _);
      [rewrite Hb; vm_compute; reflexivity..|].
    apply Hn. intros Hall. assert (Hin : nul_entity ∈ derived_texts (event_of nul_entity)) by (do 4 right; left).
    rewrite Forall_forall in Hall. destruct (Hall _ Hin) as (_ & _ & Hz). vm_compute in Hz. discriminate Hz.
Defined.

End PublicationSample.
