(* ===== verification/EventDelivery.v ===== *)
(** * From a captured change to its runs

    The reader's messages under the materializer: the consumer that provisioning declares
    for a captured entity is the one the materializer's host accepts, the triggers a sweep
    serves are those the release's table enables, and a message the reader published is
    settled by the outcome of its admission. *)

From stdpp Require Import base tactics option list gmap strings relations.
From Stdlib Require Import ZArith Lia.
From S2P Require Import Prelude Text Json Canonical Router RunStatus RunStore Queue RunPlane ClaimStore PlaneSpec.
From S2P Require Import ClaimRefines Workflows StoreProps WorkflowProps Capabilities Packages ComponentFacts Driver.
From S2P Require Import ComponentAdmission GatedRuns Lowering ServingManifests WiringDocuments WiringCompatibility.
From S2P Require Import WorkflowGate EventWire EventTriggers WiringParse WorkflowVersions EventBatch PlaneHistory CdcReader Materializer.
#[local] Set Warnings "-clear-no-such-hyp".
Open Scope wamn_scope.

(** ** Subject tokens *)

Lemma sanitize_no_dot fuel : ∀ raw, has_char dot (sanitize fuel raw) = false.
Proof.
  induction fuel as [|fuel IH]; intros raw; [done|]. destruct raw as [|b rest]; [done|]. cbn [sanitize].
  destruct (find (starts_with (String b rest)) replaced_texts) as [text|] eqn:E; cbn [has_char]; rewrite IH; [done|].
  rewrite orb_false_r. apply Ascii.eqb_neq. intros ->.
  assert (Hn : starts_with (String dot rest) "." = false) by (apply (find_none _ _ E); by left).
  unfold starts_with, dot in Hn. simpl in Hn. by destruct rest.
Qed.

Lemma hex_digit_no_dot n : (n < 16)%N → Ascii.eqb (hex_digit n) dot = false.
Proof.
  intros Hn. apply hex_digit_ok in Hn. apply Ascii.eqb_neq. intros E. by rewrite E in Hn.
Qed.

Lemma lower_hex_no_dot n z : has_char dot (lower_hex n z) = false.
Proof.
  induction n as [|n IH]; [done|]. cbn [lower_hex has_char]. rewrite IH, orb_false_r. apply hex_digit_no_dot.
  pose proof (Z.mod_pos_bound (z / 16 ^ Z.of_nat n) 16). lia.
Qed.

Lemma subject_token_no_dot raw : has_char dot (subject_token raw) = false.
Proof.
  unfold subject_token. case_match; [apply sanitize_no_dot|].
  rewrite !has_char_app, sanitize_no_dot. unfold raw_hash. by rewrite lower_hex_no_dot.
Qed.

Lemma subject_safe_no_dot value : subject_safe value = true → has_char dot value = false.
Proof.
  unfold subject_safe. rewrite !andb_true_iff, String.eqb_eq. intros [_ <-]. apply subject_token_no_dot.
Qed.

Lemma starts_with_app p s : starts_with (p +:+ s) p = true.
Proof. unfold starts_with. induction p as [|a p IH]; [by destruct s|]. simpl. destruct (Ascii.ascii_dec a a); done. Qed.

Lemma entity_filter_source org project env entity :
  subject_safe org = true → subject_safe project = true → subject_safe env = true →
  subject_source (entity_filter org project env entity) = Some (subject_token entity, ">").
Proof.
  intros Ho Hp He. unfold subject_source, entity_filter.
  set (tail := subject_token entity +:+ ".>").
  replace (split_char dot _) with (split_char dot ("evt" +:+ String dot (org +:+ String dot (project +:+ String dot (env +:+ String dot tail))))) by reflexivity.
  rewrite !split_char_app by (done || by apply subject_safe_no_dot).
  subst tail. change ".>" with (String dot ">").
  rewrite split_char_app by apply subject_token_no_dot. done.
Qed.

Section Delivery.
Context `{Collation, Boon, FloatText, Sha256, JsonText, JsonMembers, InstantText, JsonPrint, Jmespath, PlatformTexts,
          Jsonb, AdmissionChecks, JsonbEq}.

(** The materializer of an environment: its component is the environment's, and its
    configuration names the coordinates of the release its host serves. *)
Record of_environment (cfg : MatConfig) (h : MatHost) (c : EventCoordinates) (rel : LoadedRelease) : Prop := {
  oe_release : mh_release h = Some rel;
  oe_authority : mh_authority h = EventMaterializer;
  oe_bound : mh_env_key h = Some (lr_env_key rel);
  oe_env_key : mt_env_key cfg = lr_env_key rel;
  oe_environment : lr_environment rel = mt_env cfg;
  oe_project : mh_event_project h = mt_project cfg;
  oe_coordinates : c = {| ec_org := mt_org cfg; ec_project := mt_project cfg; ec_environment := mt_env cfg |};
  oe_safe : require_event_coordinates c = true;
  oe_stream : mt_stream cfg = stream_name (mt_org cfg) (mt_project cfg) (mt_env cfg);
  oe_bounds : (0 < mt_ack_wait_ms cfg)%Z ∧ (0 < mt_max_deliver cfg)%Z;
}.

Lemma materializer_required cfg h c rel : of_environment cfg h c rel →
  require_event_materializer (mh_authority h) (mh_env_key h) rel = Ok tt.
Proof.
  intros E. unfold require_event_materializer. rewrite (oe_authority _ _ _ _ E), (oe_bound _ _ _ _ E).
  by rewrite !bool_decide_true.
Qed.

Lemma registration_required cfg h c rel triggers t :
  of_environment cfg h c rel → find_trigger triggers (tg_application t) (tg_workflow_id t) = Some t →
  require_registration (Some rel) triggers c (mt_stream cfg) (tg_application t) (tg_workflow_id t)
    (entity_filter (mt_org cfg) (mt_project cfg) (mt_env cfg) (tg_entity t)) = Ok tt.
Proof.
  intros E Hf. unfold require_registration. rewrite (oe_safe _ _ _ _ E). cbn [negb].
  pose proof (oe_safe _ _ _ _ E) as Hs. rewrite (oe_coordinates _ _ _ _ E) in Hs |- *.
  unfold require_event_coordinates in Hs. cbn [ec_org ec_project ec_environment] in Hs |- *.
  rewrite !andb_true_iff in Hs. destruct Hs as [[Ho Hp] He].
  rewrite (oe_environment _ _ _ _ E), (oe_stream _ _ _ _ E), !String.eqb_refl. cbn [negb orb].
  replace (starts_with (entity_filter _ _ _ _) _) with true.
  2: { symmetry. unfold entity_filter.
       etransitivity; [|exact (starts_with_app ("evt." +:+ mt_org cfg +:+ "." +:+ mt_project cfg +:+ "." +:+ mt_env cfg +:+ ".")
                                 (subject_token (tg_entity t) +:+ ".>"))].
       by rewrite !string_app_assoc. }
  cbn [negb]. rewrite Hf, entity_filter_source by done. rewrite String.eqb_refl. done.
Qed.

(** The service opens exactly the declared consumer.  For a trigger of the release's
    table, the host lets the materializer attach to the consumer of the trigger's entity
    just when the broker stores the one declared for that entity with the service's
    bounds; with the defaults of the configuration that is the consumer provisioning
    creates. *)
Theorem declared_consumer_served (cfg : MatConfig) (h : MatHost) (c : EventCoordinates) (rel : LoadedRelease)
    (table : Workflows_) (broker : string → string → result ConsumerSpec JsError) (triggers : list EventTrigger)
    (t : EventTrigger) :
  of_environment cfg h c rel → event_triggers rel table = Ret (Ok triggers) →
  find_trigger triggers (tg_application t) (tg_workflow_id t) = Some t →
  let durable := entity_durable (tg_source_package t) (tg_entity t) in
  let stored := broker (mt_stream cfg) durable in
  let prepare := host_prepare h c table broker (tg_application t) (tg_workflow_id t)
                   (consumer_request cfg (trigger_registration t)) in
  (prepare = Ret (Ok tt) ↔
     stored = Ok (materializer_consumer_config durable
                    (entity_filter (mt_org cfg) (mt_project cfg) (mt_env cfg) (tg_entity t))
                    (mt_ack_wait_ms cfg) (mt_max_deliver cfg))) ∧
  (mt_ack_wait_ms cfg = 30000%Z → mt_max_deliver cfg = 5%Z →
   stored = Ok (entity_consumer (mt_org cfg) (mt_project cfg) (mt_env cfg) (tg_source_package t, tg_entity t)) →
   prepare = Ret (Ok tt)).
Proof.
  intros E Ht Hf durable stored prepare.
  assert (Hp : prepare = Ret (match stored with
    | Err e => Err e
    | Ok s => if consumer_config_matches (materializer_consumer_config durable
                   (entity_filter (mt_org cfg) (mt_project cfg) (mt_env cfg) (tg_entity t))
                   (mt_ack_wait_ms cfg) (mt_max_deliver cfg)) s then Ok tt
              else Err (JsOther "registration-consumer-config-drift") end)).
  { unfold prepare, host_prepare. rewrite (oe_release _ _ _ _ E), (materializer_required _ _ _ _ E), Ht.
    cbn [run_bind]. unfold consumer_request, trigger_registration.
    cbn [cc_stream_name cc_durable cc_filter_subject cc_ack_wait_ms cc_max_deliver rg_source_package_id rg_entity].
    rewrite (registration_required _ _ _ _ _ _ E Hf), Hf, String.eqb_refl. cbn [negb].
    destruct (oe_bounds _ _ _ _ E) as [Ha Hm].
    replace (mt_max_deliver cfg =? 0)%Z with false by (symmetry; apply Z.eqb_neq; lia).
    by replace (mt_ack_wait_ms cfg =? 0)%Z with false by (symmetry; apply Z.eqb_neq; lia). }
  rewrite Hp. unfold consumer_config_matches. split.
  - destruct stored as [s|e]; [|split; intros; congruence]. case_bool_decide as Hd; split; intros Hx; congruence.
  - intros Hw Hd Hs. rewrite Hs, Hw, Hd. by rewrite bool_decide_true.
Qed.

(** ** The triggers of a sweep *)

Lemma decode_trigger_value t : is_u64 (tg_enable_sequence t) → decode_trigger (trigger_value t) = Some t.
Proof.
  intros Hs. unfold decode_trigger.
  replace (trigger_field 0 "application" (trigger_value t)) with (Some (VString (tg_application t))) by reflexivity.
  replace (trigger_field 1 "workflow_id" (trigger_value t)) with (Some (VString (tg_workflow_id t))) by reflexivity.
  replace (trigger_field 2 "source_package" (trigger_value t)) with (Some (VString (tg_source_package t))) by reflexivity.
  replace (trigger_field 3 "entity" (trigger_value t)) with (Some (VString (tg_entity t))) by reflexivity.
  replace (trigger_field 4 "ops" (trigger_value t)) with (Some (VArray (VString ∘ op_text <$> tg_ops t))) by reflexivity.
  replace (trigger_field 6 "enable_sequence" (trigger_value t)) with (Some (number_of_int (tg_enable_sequence t)))
    by reflexivity.
  replace (trigger_field 5 "condition" (trigger_value t))
    with (Some (match tg_condition t with Some c => VString c | None => VNull end)) by reflexivity.
  assert (Hops : mapM decode_op (VString ∘ op_text <$> tg_ops t) = Some (tg_ops t)).
  { apply mapM_Some. induction (tg_ops t) as [|o l IH]; [done|]. cbn [fmap list_fmap].
    constructor; [apply decode_op_text|done]. }
  rewrite Hops, as_u64_number by done. by destruct t as [? ? ? ? ? [c|] ?].
Qed.

(** A sweep serves what the table enables.  Over a well-formed table the host's answer is
    the release's enabled triggers, and what the materializer makes of it is each of them
    whose condition compiles, in their order. *)
Lemma sweep_serves_enabled `{Jsonb} cfg h c rel table known counters :
  of_environment cfg h c rel → catalog_ok table →
  (∀ l, event_triggers rel table = Ret (Ok l) → Forall (λ t, is_u64 (tg_enable_sequence t)) l ∧
     parse_json (print_json (VArray (trigger_value <$> l))) = Some (VArray (trigger_value <$> l))) →
  ∃ triggers document counters', event_triggers rel table = Ret (Ok triggers) ∧ host_triggers h table = Ret (Ok document) ∧
    load_servings cfg (Ok known) (Ok document) counters =
      (Ok (omap (serving_of (lr_env_key rel)) triggers, known), counters').
Proof.
  intros E Hok Hl. destruct (event_triggers_decode rel table Hok) as [l Ht]. destruct (Hl l Ht) as [Hs Hp].
  exists l, (print_json (VArray (trigger_value <$> l))). unfold host_triggers.
  rewrite (oe_release _ _ _ _ E), (materializer_required _ _ _ _ E), Ht. cbn [run_bind].
  unfold load_servings. rewrite Hp. cbn [mbind option_bind decode_triggers].
  assert (Hm : mapM decode_trigger (trigger_value <$> l) = Some l).
  { apply mapM_Some. clear Hp Ht Hl. induction Hs as [|t l Ht Hs IH]; [done|]. cbn [fmap list_fmap].
    constructor; [by apply decode_trigger_value|done]. }
  rewrite Hm, (oe_env_key _ _ _ _ E). pose proof (servings_of_omap (lr_env_key rel) l counters) as Ho.
  destruct (servings_of (lr_env_key rel) l counters) as [l' counters']. cbn in Ho. subst l'. by exists counters'.
Qed.

(** ** The reader's messages *)

(** A message of the stream as the broker hands it out, under its sequence. *)
Definition broker_message (pm : PreparedMsg) (sequence : Z) : Message := {|
  mg_sequence := sequence; mg_body := pm_payload pm; mg_headers := Some [("Nats-Msg-Id", pm_id pm)] |}.

Lemma prepare_message_passes cfg s known m source id c :
  mg_sequence m ≠ 0%Z → decode_source (mg_body m) = Some source → own_identity cfg m = Some id →
  (∀ r, serving_verdict cfg s known source (Some id) ≠ Refuse r) →
  ∃ c', prepare_message cfg s known m c = (c', PAck) ∨ prepare_message cfg s known m c = (c', PDeliver id).
Proof.
  intros Hq Hd Hid Hr. unfold prepare_message. apply Z.eqb_neq in Hq as ->.
  rewrite (proj2 (decode_source_agrees _ _) Hd), <- (own_identity_of cfg m source Hd), Hid.
  destruct (serving_verdict cfg s known source (Some id)) as [i|k|r]; [| |by destruct (Hr r)];
    cbn [preparation_gate]; case_match; eexists; eauto.
Qed.

Lemma prepare_all_passes cfg l known m source id : ∀ o c,
  mg_sequence m ≠ 0%Z → decode_source (mg_body m) = Some source → own_identity cfg m = Some id →
  (∀ s r, s ∈ l → serving_verdict cfg s known source (Some id) ≠ Refuse r) → (o = None ∨ o = Some id) →
  ∃ c' o', prepare_all cfg l known m o c = (c', inl o') ∧ (o' = None ∨ o' = Some id).
Proof.
  induction l as [|s l IH]; intros o c Hq Hd Hid Hr Ho; cbn [prepare_all]; [by exists c, o|].
  assert (Hr' : ∀ s r, s ∈ l → serving_verdict cfg s known source (Some id) ≠ Refuse r)
    by (intros s' r Hin; apply Hr; by right).
  destruct (prepare_message_passes cfg s known m source id c Hq Hd Hid) as [c' [-> | ->]];
    [intros r; apply Hr; left|by apply IH|by apply IH; [..|right]].
Qed.

Lemma captured_identity cfg scope t r sequence :
  rs_project scope = mt_project cfg → rs_env scope = mt_env cfg →
  event_identity (Cdc (envelope_of t r)) (mt_env_key cfg) (mt_project cfg) (mt_env cfg)
    (message_ids (broker_message (prepared scope t r) sequence)) = Some (pm_id (prepared scope t r)).
Proof.
  intros Hp He. cbn [event_identity]. apply one_header_spec. unfold prepared. cbn [pm_id envelope_of en_lsn].
  rewrite Hp, He. split; reflexivity.
Qed.

Lemma settle_passed cfg h c rel first servings known m v source id st :
  of_environment cfg h c rel → mg_sequence m ≠ 0%Z → decode_source (mg_body m) = Some source →
  own_identity cfg m = Some id → valid_utf8 (String.length (mg_body m)) (mg_body m) = true →
  (∀ s r, s ∈ servings → serving_verdict cfg s known source (Some id) ≠ Refuse r) →
  ∃ counters, settle_message cfg h first servings known m v st =
    match admit_event_batch (mh_executor h) (mh_event_project h) rel (av_table v) (av_schemas v) (av_policy v) (av_fresh v)
            {| ea_source_package := rg_source_package_id first; ea_entity := rg_entity first; ea_envelope := mg_body m;
               ea_sequence := mg_sequence m; ea_source_event_id := id |} (av_now v) (av_others v (ms_plane st)) with
    | (_, Panic msg) => Panic msg
    | (p', Ret (Ok _)) => Ret (acknowledge m v {| ms_plane := p'; ms_counters := count CDeliveries counters; ms_log := ms_log st |})
    | (p', Ret (Err _)) => Ret (nack cfg m v {| ms_plane := p'; ms_counters := counters; ms_log := ms_log st |})
    end.
Proof.
  intros E Hq Hd Hid Hu Hr.
  destruct (prepare_all_passes cfg servings known m source id None (ms_counters st) Hq Hd Hid Hr) as (counters & o & Hp & Ho);
    [by left|]. exists counters. unfold settle_message. rewrite Hp. cbn [ms_plane ms_log].
  replace (match o with Some id => Some id | None => own_identity cfg m end) with (Some id) by (by destruct Ho as [-> | ->]).
  rewrite Hu. cbn [negb]. unfold host_admit. rewrite (oe_release _ _ _ _ E), (materializer_required _ _ _ _ E).
  by destruct (admit_event_batch _ _ _ _ _ _ _ _ _ _) as [p' [[]|]].
Qed.

(** A message whose body is no event is thrown away, whoever serves it. *)
Lemma settle_poison cfg h first servings known m v reason st :
  servings ≠ [] → mg_sequence m ≠ 0%Z → decode_source_event (mg_body m) = Err reason →
  ∃ st', settle_message cfg h first servings known m v st = Ret st' ∧ ms_plane st' = av_others v (ms_plane st) ∧
    ms_log st' = ms_log st ++ [(mg_sequence m, STerm reason (av_taken v))].
Proof.
  intros Hne Hq Hd. destruct servings as [|s servings]; [done|]. unfold settle_message. cbn [prepare_all].
  unfold prepare_message. rewrite (proj2 (Z.eqb_neq _ _) Hq), Hd. eexists. by split_and!.
Qed.

Context (jsonb_refl : ∀ v, jsonb_eq v v = true) `{BindingWorlds, !WorkflowCatalog}.

(** C33. A captured change is settled by its admission.  A message the reader published, as
    the broker hands it to the materializer of its environment, is an event under its own
    identity, there and at the admission, when the package and the entity of its relation
    have canonical names (not empty, trimmed, without NUL).  Unless a served trigger
    refuses it, it is then never thrown away: it is acknowledged just when the admission
    commits, with every run it starts in the plane, and handed back, with the plane as the
    others left it, when the admission does not.  A change of any other name is thrown away
    by whatever serves it and starts nothing: the reader publishes the names of the
    relation map as they are. *)
Theorem captured_change_settles `{!InstantTextLaw} (scope : ReaderScope) (t : Txn) (r : PendingRow) (cfg : MatConfig)
    (h : MatHost) (c : EventCoordinates) (rel : LoadedRelease) (first : EventRegistration) (servings : list Serving)
    (known : list string) (v : AdmitView) (sequence : Z) (st : MatState) :
  of_environment cfg h c rel → rs_project scope = mt_project cfg → rs_env scope = mt_env cfg →
  envelope_typed (envelope_of t r) →
  let e := Cdc (envelope_of t r) in
  let pm := prepared scope t r in
  parse_json (pm_payload pm) = Some (envelope_value (envelope_of t r)) →
  valid_utf8 (String.length (pm_payload pm)) (pm_payload pm) = true → sequence ≠ 0%Z → servings ≠ [] →
  plane_ok (ms_plane st) → others_act v →
  let a := {| ea_source_package := rg_source_package_id first; ea_entity := rg_entity first; ea_envelope := pm_payload pm;
              ea_sequence := sequence; ea_source_event_id := pm_id pm |} in
  let settled := settle_message cfg h first servings known (broker_message pm sequence) v st in
  let others := av_others v (ms_plane st) in
  (canonical_envelope (envelope_of t r) →
   (∀ s r, s ∈ servings → serving_verdict cfg s known e (Some (pm_id pm)) ≠ Refuse r) →
   event_identity e (lr_env_key rel) (mh_event_project h) (lr_environment rel) [pm_id pm] = Some (pm_id pm) ∧
   match admit_event_batch (mh_executor h) (mh_event_project h) rel (av_table v) (av_schemas v) (av_policy v) (av_fresh v)
           a (av_now v) others with
   | (p', Ret (Ok _)) => ∃ st', settled = Ret st' ∧ ms_plane st' = p' ∧
       ms_log st' = ms_log st ++ [(sequence, SAck (av_taken v))] ∧ evolves others p' ∧
       (event_source e = (rg_source_package_id first, rg_entity first) →
        runs_started rel (av_table v) e sequence (pm_id pm) p')
   | (_, Ret (Err _)) => ∃ st', settled = Ret st' ∧ ms_plane st' = others ∧
       ms_log st' = ms_log st ++ [(sequence, SNack (mt_nack_delay_ms cfg) (av_taken v))]
   | (_, Panic msg) => settled = Panic msg
   end) ∧
  (¬ canonical_envelope (envelope_of t r) →
   ∃ st', settled = Ret st' ∧ ms_plane st' = others ∧
     ms_log st' = ms_log st ++ [(sequence, STerm "poison-invalid-envelope" (av_taken v))]).
Proof.
  intros E Hp He Hty e pm Hb Hu Hq Hne Hpl Hothers a settled others. split.
  - intros Hcan Hr.
    assert (Hd : decode_source (mg_body (broker_message pm sequence)) = Some e) by (by apply captured_decodes).
    assert (Hid : own_identity cfg (broker_message pm sequence) = Some (pm_id pm))
      by (rewrite (own_identity_of _ _ _ Hd); by apply captured_identity).
    split.
    { rewrite <- (oe_env_key _ _ _ _ E), (oe_project _ _ _ _ E), (oe_environment _ _ _ _ E).
      by apply (captured_identity cfg scope t r sequence). }
    destruct (settle_passed cfg h c rel first servings known (broker_message pm sequence) v e (pm_id pm) st E Hq Hd Hid Hu Hr)
      as [counters Hs]. fold settled in Hs. rewrite Hs. clear Hs settled.
    change (mg_body (broker_message pm sequence)) with (pm_payload pm).
    change (mg_sequence (broker_message pm sequence)) with sequence. fold a others.
    destruct (plane_steps_history jsonb_refl _ _ Hpl (Hothers (ms_plane st))) as [_ Hok1].
    destruct (admit_event_batch _ _ _ _ _ _ _ a _ _) as [p' out] eqn:Ha.
    destruct (event_batch_spec _ _ _ _ _ _ _ _ _ _ _ _ jsonb_refl Hok1 Ha) as (_ & Hev' & Hno & Hyes).
    destruct out as [[[]|err]|msg]; [| |done].
    + eexists. split_and!; [done..|]. intros Hsrc.
      destruct (Hyes eq_refl) as (source & Hds & Hall & _). change (decode_source (pm_payload pm) = Some source) in Hds.
      change (decode_source (pm_payload pm) = Some e) in Hd. rewrite Hd in Hds. injection Hds as <-. exact (Hall Hsrc).
    + eexists. split_and!; [done| |done]. by apply Hno.
  - intros Hcan. apply settle_poison; [done|done|].
    change (mg_body (broker_message pm sequence)) with (pm_payload pm).
    unfold decode_source_event. rewrite Hb.
    replace (get "format-version" (envelope_value (envelope_of t r))) with (@None Value)
      by (by destruct (envelope_of t r) as [op [old|] [new|] package entity table lsn txid ts [c0|]]).
    destruct (decode_envelope_value _ Hty) as [_ Hno]. by rewrite Hno.
Qed.

End Delivery.

Module DeliverySample.

Import AdmissionSample ManifestSample VersionSample BatchSample.

#[local] Existing Instances EventSample.microseconds EventSample.microseconds_law EventSample.no_members.
#[local] Instance bytewise : Collation := String.leb.
#[local] Instance canonical_equal : JsonbEq := λ v w, String.eqb (canonical_json_bytes v) (canonical_json_bytes w).
#[local] Instance no_checks : AdmissionChecks := λ _, None.
#[local] Instance any_world : BindingWorlds := Ok.
#[local] Instance one_catalog : WorkflowCatalog := {|
  graph := unit; manifest := unit; parse_graph := λ _, Ok tt; Workflows.from_canonical_bytes := λ _, Ok tt;
  Workflows.gate_workflow_document := λ _ _ _ _, Err ""; Workflows.resolve_workflow_components := λ _ _ _ _, Err "";
  workflow_user_id := "wf" |}.

Definition repost_trigger : EventTrigger := {|
  tg_application := "erp"; tg_workflow_id := "repost"; tg_source_package := "orders"; tg_entity := "order";
  tg_ops := [OpInsert]; tg_condition := None; tg_enable_sequence := 41 |}.

(** The texts of the sample: an array of strings is joined, the array of the one trigger
    is a comma, and the one object printed is the event. *)
#[local] Instance sample_print : JsonPrint := λ v,
  match v with
  | VArray l => foldr (λ v s, default "" (as_str v) +:+ "," +:+ s) "" l
  | VObject _ => "inserted"
  | _ => ""
  end.
#[local] Instance sample_text : JsonText := λ s,
  if String.eqb s "inserted" then Some (envelope_value inserted)
  else if String.eqb s "," then Some (VArray [trigger_value repost_trigger]) else None.

Lemma texts_equal v : jsonb_eq v v = true.
Proof. apply String.eqb_refl. Qed.

Definition shop_scope : ReaderScope := {| rs_org := "acme"; rs_project := "shop"; rs_env := "dev" |}.
Definition order_txn : Txn := {|
  tn_txid := 7; tn_commit_ts := 0; tn_causation := en_causation inserted; tn_rows := []; tn_excluded := ∅ |}.
Definition order_row : PendingRow := {|
  pr_op := OpInsert; pr_old := None; pr_new := en_new inserted;
  pr_entity := {| em_package_id := "orders"; em_entity_id := "order" |}; pr_table := "orders"; pr_lsn := 42 |}.

Definition settings : MatConfig := {|
  mt_stream := stream_name "acme" "shop" "dev"; mt_org := "acme"; mt_project := "shop"; mt_env := "dev";
  mt_env_key := "acme--shop--dev"; mt_batch := 64; mt_fetch_ms := 5000; mt_sweep_ms := 10000; mt_max_sweeps := 1;
  mt_max_depth := 16; mt_ack_wait_ms := 30000; mt_nack_delay_ms := 5000; mt_max_deliver := 5; mt_report_path := None |}.
Definition shop_coordinates : EventCoordinates := {| ec_org := "acme"; ec_project := "shop"; ec_environment := "dev" |}.
Definition mat_host : MatHost := {|
  mh_release := Some served_release; mh_authority := EventMaterializer; mh_env_key := Some "acme--shop--dev";
  mh_executor := executor; mh_event_project := "shop" |}.
Definition admit_view : AdmitView := {|
  av_others := λ p, p; av_table := three_on; av_schemas := []; av_policy := Some Standard; av_fresh := ["run-8"];
  av_now := 100; av_taken := true |}.
Definition order_message : Message := broker_message (prepared shop_scope order_txn order_row) 50.
Definition order_fetch : FetchView := {|
  fv_table := three_on; fv_consumer := λ _ _, Ok (entity_consumer "acme" "shop" "dev" ("orders", "order"));
  fv_opened := true; fv_fetched := Some [(order_message, admit_view)] |}.
Definition order_sweep (n : nat) : SweepView := {|
  sw_packages := Ok ["orders"]; sw_table := three_on; sw_fetch := λ _, order_fetch |}.

Lemma settings_of_environment : of_environment settings mat_host shop_coordinates served_release.
Proof. constructor; try reflexivity. split; reflexivity. Qed.

Definition log_of (r : run MatState) : list (Z * Settlement) := match r with Ret st => ms_log st | Panic _ => [] end.
Definition plane_of (r : run MatState) : Plane := match r with Ret st => ms_plane st | Panic _ => empty_plane end.
Definition one_sweep : run MatState := sweeps_of 1 settings mat_host shop_coordinates order_sweep (service_start empty_plane).

(** One sweep acknowledges the event, and its run is there. *)
Lemma materializer_acks_admitted_witness :
  log_of one_sweep = [(50%Z, SAck true)] ∧ size (runs (plane_of one_sweep)) = 1%nat ∧
  log_ok settings mat_host (fetched settings mat_host order_sweep) (plane_of one_sweep) (log_of one_sweep) ∧
  run_service 1 settings mat_host shop_coordinates order_sweep 0 (service_start empty_plane) = Some one_sweep.
Proof.
  split; [vm_compute; reflexivity|]. split; [vm_compute; reflexivity|].
  destruct (materializer_acks_admitted texts_equal settings mat_host shop_coordinates order_sweep empty_plane empty_plane_ok)
    as (Hs & Hr & _).
  { intros k servings known m v (n & all & messages & _ & _ & Hm & Hin) p. injection Hm as <-. apply list_elem_of_singleton in Hin. injection Hin as -> ->.
    apply rtc_refl. }
  split; [|apply (Hr 0%nat 1%nat); [reflexivity|vm_compute; discriminate|reflexivity]].
  assert (E : match one_sweep with Ret _ => True | Panic _ => False end) by (vm_compute; exact I).
  unfold one_sweep in E |- *. specialize (Hs 1%nat).
  destruct (sweeps_of 1 settings mat_host shop_coordinates order_sweep (service_start empty_plane)) as [st|]; [|destruct E].
  destruct (Hs st eq_refl) as (_ & _ & Hl). exact Hl.
Defined.

(** The consumer provisioning creates is the one the service opens. *)
Lemma declared_consumer_served_witness :
  host_prepare mat_host shop_coordinates three_on (fv_consumer order_fetch) "erp" "repost"
    (consumer_request settings (trigger_registration repost_trigger)) = Ret (Ok tt).
Proof.
  assert (Ht : event_triggers served_release three_on = Ret (Ok [repost_trigger])) by (vm_compute; reflexivity).
  destruct (declared_consumer_served settings mat_host shop_coordinates served_release three_on (fv_consumer order_fetch)
              [repost_trigger] repost_trigger settings_of_environment Ht eq_refl) as [_ Hd].
  apply Hd; reflexivity.
Defined.

Definition repost_serving : Serving := {|
  mv_registration := trigger_registration repost_trigger; mv_enable_sequence := 41; mv_condition := None;
  mv_resident_env_key := "acme--shop--dev" |}.
Definition settled_order : run MatState :=
  settle_message settings mat_host (trigger_registration repost_trigger) [repost_serving] ["orders"] order_message admit_view
    (service_start empty_plane).

(** The captured order starts the workflow's run, under the key of its delivery. *)
Lemma captured_change_settles_witness :
  log_of settled_order = [(50%Z, SAck true)] ∧
  delivered (plane_of settled_order) "acme--shop--dev" (event_key "dev" "erp" "repost" "event:50:shop_dev:42")
    (event_input inserted).
Proof.
  assert (Hok : envelope_typed (envelope_of order_txn order_row)).
  { constructor; [split; vm_compute; discriminate..|].
    intros c Hc. injection Hc as <-. split; vm_compute; discriminate. }
  assert (Hcan : canonical_envelope (envelope_of order_txn order_row))
    by (split; apply noncanonical_spec; vm_compute; reflexivity).
  assert (Hr : ∀ s r, s ∈ [repost_serving] →
    serving_verdict settings s ["orders"] (Cdc (envelope_of order_txn order_row))
      (Some (pm_id (prepared shop_scope order_txn order_row))) ≠ Refuse r).
  { intros s r ->%list_elem_of_singleton Hv. vm_compute in Hv. discriminate Hv. }
  set (text := pm_payload (prepared shop_scope order_txn order_row)).
  assert (Hparse : parse_json text = Some (envelope_value (envelope_of order_txn order_row))) by (vm_compute; reflexivity).
  assert (Hutf8 : valid_utf8 (String.length text) text = true) by (vm_compute; reflexivity).
  assert (Hseq : 50%Z ≠ 0%Z) by discriminate. assert (Hone : [repost_serving] ≠ []) by discriminate.
  destruct (captured_change_settles texts_equal shop_scope order_txn order_row settings mat_host shop_coordinates served_release
              (trigger_registration repost_trigger) [repost_serving] ["orders"] admit_view 50 (service_start empty_plane)
              settings_of_environment eq_refl eq_refl Hok Hparse Hutf8 Hseq Hone empty_plane_ok
              (λ p, rtc_refl _ p)) as [Hyes _]. destruct (Hyes Hcan Hr) as [_ Hs].
  match type of Hs with match ?x with _ => _ end =>
    assert (Hx : x.2 = Ret (Ok tt)) by (vm_compute; reflexivity); destruct x as [p' out] end.
  cbn [snd] in Hx. rewrite Hx in Hs. destruct Hs as (st' & Hst & Hp & Hl & _ & Hruns).
  change (settled_order = Ret st') in Hst.
  rewrite Hst. cbn [log_of plane_of]. split; [exact Hl|]. rewrite Hp. clear Hst Hp Hl Hx.
  set (w := version_key (version_of 3)).
  assert (Hw : match three_on !! w with Some r => enabled_event served_release (w, r) = true ∧
      trigger (w, r) = Ret (Ok repost_trigger) | None => False end) by (vm_compute; split; reflexivity).
  destruct (three_on !! w) as [r|] eqn:Er; [|destruct Hw]. destruct Hw as [He Ht].
  destruct (Hruns eq_refl w r Er He) as (e & Ht' & Hd). rewrite Ht in Ht'. injection Ht' as <-.
  apply Hd; [constructor; [reflexivity|reflexivity|left|left; reflexivity]|by apply verdict_none].
Defined.

End DeliverySample.
